(* ===== verification/_CoqProject ===== *)
-Q . S2P
Prelude.v
Mem.v
Pb.v
PbIter.v
PbStream.v
PbDecode.v
PbEncode.v
PbVarint.v
PbWireProps.v
Base64.v
Base64Props.v
PbStable.v
PbExample.v
PbIterProps.v
PbFieldProps.v
PbEncodeProps.v
PbSafe.v
PbSafeInit.v
PbDecodeProps.v
LdbSkip.v
LdbSkipLemmas.v
LdbSkipProps.v
LdbFormat.v
LdbCodingProps.v
LdbOrder.v
LdbKeyProps.v
LdbMemTable.v
LdbMemTableProps.v
LdbBatchProps.v
LdbCrc.v
LdbCrcProps.v
LdbLog.v
LdbLogProps.v
LdbLogSafe.v
LdbFilter.v
LdbFilterProps.v
LdbIterator.v
LdbBlock.v
LdbBlockProps.v
LdbBlockSafe.v
LdbMerger.v
LdbMergerProps.v
LdbDbIter.v
LdbDbIterProps.v
LdbTwoLevel.v
LdbTwoLevelProps.v
LdbTable.v
LdbTableFileProps.v
LdbTableReadProps.v
LdbCache.v
LdbCacheTable.v
LdbCacheShard.v
LdbCacheRep.v
LdbCacheProps.v
LdbCacheBlocks.v
LdbTableProps.v
LdbVersionEdit.v
LdbVersionEditProps.v
LdbVersion.v
LdbVersionProps.v
LdbVersionGet.v
LdbVersionSet.v
LdbVersionSetProps.v
LdbEnv.v
LdbDb.v
LdbEnvProps.v
LdbCompaction.v
LdbCompactionProps.v
LdbDropProps.v
LdbDbCompact.v
LdbOutputProps.v
LdbDbCompactProps.v
LdbDbWrite.v
LdbDbRead.v
LdbDbOpen.v
LdbDbWriteProps.v
LdbRecoverProps.v
LdbDbReadProps.v
LdbSnapshotProps.v
LdbCompactReadProps.v
