(* ===== verification/Prelude.v ===== *)
(** Verification of the C and C++ parts of the Folium application

    Folium is a Flutter application; the repository carries its native dependencies as
    sources. Their core logic in C and C++ is what this library models: nanopb (the
    protocol buffers of the measurement SDK, [src/ios/Pods/nanopb]), the Base64 codec of
    the database client ([fbase64.c] of SocketRocket in [src/ios/Pods/FirebaseDatabase]),
    and LevelDB, the storage of the database client ([src/ios/Pods/leveldb-library]).

    * How the code is modelled

    - A function is a Rocq function of the same name. Results are of type [res] (below):
      [Ok], [UB] for what the language leaves undefined and for failed assertions, and
      [NoFuel] for a loop whose fuel ran out. Every theorem about a result says that it is
      [Ok], so that it includes the absence of undefined behaviour and termination.
    - Integers are [Z] at their width: [u8 .. u64] and [s8 .. s64] wrap.
    - nanopb's objects live in a byte-addressed memory ([Mem]); its functions run in a
      state monad over that memory with a total-correctness predicate transformer [wp]. LevelDB's
      objects are records passed along; where sharing matters (the skip list, the cache)
      there is an explicit store of nodes.
    - Records are updated field by field, [r <| f := v |>] (below), as the code assigns to
      members.
    - Virtual classes are type classes of the operations ([SliceComparator],
      [FilterPolicy], [Iterator], [WritableFile], [SequentialFile], [RandomAccessFile],
      [BlockCache], [TableCache], [Env]) and what they promise is a second class ([Lawful],
      [FilterLaws], [Iterates], [Device], [FileContents], [CacheLaws], [TableLaws],
      [EnvLaws]), against which the clients are proved; the implementations in the code
      that are modelled are instances of both.
    - Loops have fuel that is computed from the state in the model where the code bounds
      them (lengths of lists and buffers), and is an argument otherwise; the theorems say
      how much is enough (more than the number of entries, blocks or writers).
    - The mutex of a database is held by one thread at a time. Where the code gives it up,
      and where it reads without it, the definitions call a parameter [others], any function
      on the state of the database that may depend on the time: it is what the other threads
      do meanwhile. The theorems assume of it only that it keeps what every thread keeps.

    * The parts

    nanopb.
    - [Mem], [Pb], [PbIter]: memory; [pb.h] with its descriptor macros; [pb_common.c].
    - [PbStream]: the streams, readers and writers of [pb_decode.c] and [pb_encode.c].
      [PbDecode], [PbEncode]: messages.
    - [PbVarint], [PbWireProps], [PbFieldProps]: the wire format: varints are the shortest
      ones, each reader undoes its writer, and what readers do on any input.
    - [PbStable], [PbEncodeProps]: [pb_encode] writes the same bytes on sizing streams and
      buffers, up to the room there is.
    - [PbSafe], [PbSafeInit], [PbDecodeProps]: decoding any bytes into a message without
      pointers ends and stays inside of the message. [PbIterProps]: the iterator and the
      macros agree. [PbExample]: a message type for the instances.

    Base64: [Base64], [Base64Props]: exact results of encoder and decoder.

    LevelDB, from the bottom up.
    - [LdbSkip], [LdbSkipLemmas], [LdbSkipProps]: the skip list ([db/skiplist.h]) as a
      sorted set, also for a reader interleaved with an insertion, store by store.
    - [LdbFormat], [LdbCodingProps], [LdbOrder], [LdbKeyProps]: slices, codings,
      comparators, internal keys, status.
    - [LdbMemTable], [LdbMemTableProps], [LdbBatchProps]: memory table and write batches;
      the table is a multi-version map, and [answers] says what a lookup must find.
    - [LdbCrc], [LdbCrcProps]: checksums. [LdbLog], [LdbLogProps], [LdbLogSafe]: log files
      after a crash, and of any contents.
    - [LdbFilter], [LdbFilterProps]: Bloom filters and filter blocks.
    - [LdbIterator]: the contract of iterators, with a cursor in a list as the reference;
      [LdbBlock], [LdbBlockProps], [LdbBlockSafe]: blocks of tables; [LdbMerger],
      [LdbMergerProps]: merging; [LdbTwoLevel], [LdbTwoLevelProps]: index and blocks;
      [LdbDbIter], [LdbDbIterProps]: the user's view at a snapshot. Each of them keeps the
      contract if what it is made of does.
    - [LdbTable], [LdbTableFileProps], [LdbTableReadProps], [LdbTableProps]: table files, from
      the entries given to the builder to what an opened table shows.
    - [LdbCache], [LdbCacheTable], [LdbCacheShard], [LdbCacheRep], [LdbCacheProps],
      [LdbCacheBlocks]: the cache with its hash table and lists of nodes in a store refines
      a specification with plain lists, and is a cache of blocks for tables.
    - [LdbVersionEdit], [LdbVersionEditProps]: the records of the descriptor.
      [LdbVersion], [LdbVersionProps], [LdbVersionGet]: the files of a version, searches in
      levels, lookups. [LdbVersionSet], [LdbVersionSetProps]: versions and files live as
      long as they are referred to, and edits give the version that they say.
    - [LdbCompaction], [LdbCompactionProps]: which files a compaction takes, and what
      happens at the boundary of two files that share a user key.
    - [LdbEnv], [LdbEnvProps]: the environment, decimal numbers, file names, [CURRENT].

    The database ([db/db_impl.cc]).
    - [LdbDb]: its state, snapshots, memory tables that become files, edits that are logged,
      obsolete files. [LdbOutputProps]: a file that was synced and closed without an error
      holds its table, also the one of a memory table.
    - [LdbDbCompact]: the work of a compaction. [LdbDropProps]: the entries that are dropped
      make no difference to a snapshot. [LdbDbCompactProps]: the outputs are tables of all
      entries that are kept. [LdbCompactReadProps]: the version after the compaction keeps
      the order of levels and answers lookups as the one before.
    - [LdbDbWrite], [LdbDbWriteProps]: the queue of writers and their groups; a group is one
      record of the log and its operations are in the memory table.
    - [LdbDbRead], [LdbDbReadProps]: lookups while the other threads go on, iterators,
      sizes. [LdbSnapshotProps]: the list of snapshots.
    - [LdbDbOpen], [LdbRecoverProps]: opening, and recovery from a log that a crash cut.

    * Not modelled, and why

    - [DBImpl::GetProperty], [LevelSummary] and the debug strings, messages to the info log
      and statistics: text for people, formatted by the C library.
    - [table_cache.cc]: what a table cache promises is the class [TableLaws], and a map from
      numbers to tables is an instance of it. [arena.cc]: memory that is only given back
      as a whole; the nodes of the skip list have addresses of their own.
    - [env_posix.cc] and [c.cc]: system calls and threads, and a renaming of the operations
      for C. Starting threads, condition variables and the sleeping of a writer that is
      slowed down are points at which [others] runs.
    - Destructors and cleanup functions that only free memory.
    - The Objective-C clients (Firebase, SRWebSocket, session fetcher): event-driven code
      over Foundation, whose semantics is not in the repository.
    - Binary frameworks (headers only), generated projects, and the application itself,
      which is in Dart.

    What the modelling has shown of the code is in the manifest beside this library, with
    the lines concerned. *)

From Stdlib Require Export ZArith Lia.
From stdpp Require Export gmap list strings numbers.

#[global] Open Scope Z_scope.

(** * Outcomes of C code

    A C function of the model returns [Ok] with its results, [UB] when it
    executes something the C standard leaves undefined (an access outside every
    object, a call through a null function pointer, an index past the end of an
    array), or [NoFuel] when the fuel that bounds a loop or a recursion ran out. *)
Inductive res (A : Type) : Type :=
  | Ok (a : A)
  | UB
  | NoFuel.
Arguments Ok {A} a.
Arguments UB {A}.
Arguments NoFuel {A}.

#[global] Instance res_ret : MRet res := λ A a, Ok a.
#[global] Instance res_bind : MBind res := λ A B f m,
  match m with Ok a => f a | UB => UB | NoFuel => NoFuel end.

Definition of_option {A} (o : option A) : res A :=
  match o with Some a => Ok a | None => UB end.

(** * Records whose fields are updated one by one

    [r <| f := v |>] is the record [r] with [v] in the field [f]; the record type says how its
    values are made of their fields. *)
Definition field_app {R A B : Type} (f : R → A → B) (x : R → A) : R → B := λ r, f r (x r).
Class Fields (R : Type) := fields : R → R.
Class Field {R T : Type} (proj : R → T) := modify : (T → T) → R → R.
Arguments modify {R T} proj {_} f !r /.

Ltac modify_field :=
  lazymatch goal with
  | |- @Field ?R ?T ?proj =>
      let i := constr:(ltac:(typeclasses eauto) : Fields R) in
      let e := (eval red in i) in
      let f := (eval pattern proj in e) in
      lazymatch f with
      | ?g _ => let t := (eval cbv beta delta [field_app] in (λ h : T → T, g (λ r, h (proj r)))) in exact t
      end
  end.
#[export] Hint Extern 0 (Field _) => modify_field : typeclass_instances.
Notation "r <| proj := v |>" := (modify proj (λ _, v) r) (at level 1, left associativity, format "r  <| proj  :=  v |>").
Notation "f <@> x" := (field_app f x) (at level 61, left associativity).

(** * Machine integers

    A w-bit unsigned integer is a [Z] in [0, 2^w); conversions wrap. *)
Definition u8 (z : Z) : Z := z mod 2 ^ 8.
Definition u16 (z : Z) : Z := z mod 2 ^ 16.
Definition u32 (z : Z) : Z := z mod 2 ^ 32.
Definition u64 (z : Z) : Z := z mod 2 ^ 64.
Definition swrap (w z : Z) : Z := (z + 2 ^ (w - 1)) mod 2 ^ w - 2 ^ (w - 1).
Definition s8 (z : Z) : Z := swrap 8 z.
Definition s16 (z : Z) : Z := swrap 16 z.
Definition s32 (z : Z) : Z := swrap 32 z.
Definition s64 (z : Z) : Z := swrap 64 z.

Definition is_byte (b : Z) : Prop := 0 <= b < 256.
(** A property of every element of a list given by its elements. *)
Ltac forall_list :=
  repeat first [apply List.Forall_nil | apply List.Forall_cons; [done || lia |]].

Definition is_byteb (b : Z) : bool := (0 <=? b) && (b <? 256).

(** Little-endian byte order, the one of every iOS target. *)
Fixpoint le_bytes (n : nat) (v : Z) : list Z :=
  match n with
  | O => []
  | S n' => v mod 256 :: le_bytes n' (v / 256)
  end.
Fixpoint le_of_bytes (bs : list Z) : Z :=
  match bs with
  | [] => 0
  | b :: bs' => b + 256 * le_of_bytes bs'
  end.

(** * Generic lemmas on integers *)

Lemma u8_range z : 0 <= u8 z < 256.
Proof. apply (Z.mod_pos_bound z 256). lia. Qed.
Lemma u32_range z : 0 <= u32 z < 2 ^ 32.
Proof. apply Z.mod_pos_bound. lia. Qed.
Lemma u64_range z : 0 <= u64 z < 2 ^ 64.
Proof. apply Z.mod_pos_bound. lia. Qed.
Lemma u8_small z : 0 <= z < 256 → u8 z = z.
Proof. intros. by apply Z.mod_small. Qed.
Lemma u16_small z : 0 <= z < 2 ^ 16 → u16 z = z.
Proof. intros. by apply Z.mod_small. Qed.
Lemma u32_small z : 0 <= z < 2 ^ 32 → u32 z = z.
Proof. intros. by apply Z.mod_small. Qed.
Lemma u64_small z : 0 <= z < 2 ^ 64 → u64 z = z.
Proof. intros. by apply Z.mod_small. Qed.

Lemma swrap_range w z : 0 < w → - 2 ^ (w - 1) <= swrap w z < 2 ^ (w - 1).
Proof.
  intros Hw. unfold swrap.
  pose proof (Z.mod_pos_bound (z + 2 ^ (w - 1)) (2 ^ w)) as Hm.
  assert (2 ^ w = 2 * 2 ^ (w - 1)) as E.
  { replace w with (1 + (w - 1)) at 1 by lia. rewrite Z.pow_add_r by lia. lia. }
  assert (0 < 2 ^ (w - 1)) by (apply Z.pow_pos_nonneg; lia). lia.
Qed.

Lemma swrap_small w z : 0 < w → - 2 ^ (w - 1) <= z < 2 ^ (w - 1) → swrap w z = z.
Proof.
  intros Hw Hz. unfold swrap.
  assert (2 ^ w = 2 * 2 ^ (w - 1)) as E.
  { replace w with (1 + (w - 1)) at 1 by lia. rewrite Z.pow_add_r by lia. lia. }
  rewrite Z.mod_small; lia.
Qed.

(** Two's complement: signed and unsigned readings agree modulo 2^w. *)
Lemma swrap_mod w z : 0 < w → (swrap w z) mod 2 ^ w = z mod 2 ^ w.
Proof.
  intros Hw. unfold swrap.
  assert (0 < 2 ^ w) by (apply Z.pow_pos_nonneg; lia).
  rewrite Zminus_mod_idemp_l. f_equal. lia.
Qed.

Lemma swrap_unsigned w z :
  0 < w → 0 <= z < 2 ^ w → swrap w z = if z <? 2 ^ (w - 1) then z else z - 2 ^ w.
Proof.
  intros Hw Hz.
  assert (2 ^ w = 2 * 2 ^ (w - 1)) as E.
  { replace w with (1 + (w - 1)) at 1 by lia. rewrite Z.pow_add_r by lia. lia. }
  destruct (Z.ltb_spec z (2 ^ (w - 1))).
  - apply swrap_small; lia.
  - unfold swrap. replace (z + 2 ^ (w - 1)) with (z - 2 ^ (w - 1) + 1 * 2 ^ w) by lia.
    rewrite Z.mod_add by lia. rewrite Z.mod_small; lia.
Qed.

(** Bit operations on disjoint operands are additions. *)
Lemma lor_disjoint_add a b n :
  0 <= n → 0 <= a < 2 ^ n → 0 <= b → Z.lor a (Z.shiftl b n) = a + b * 2 ^ n.
Proof.
  intros Hn Ha Hb. rewrite Z.shiftl_mul_pow2 by lia.
  rewrite <- Z.lxor_lor; [symmetry; apply Z.add_nocarry_lxor |];
    apply Z.bits_inj'; intros i Hi; rewrite Z.land_spec, Z.bits_0;
    (destruct (Z.lt_ge_cases i n);
      [rewrite Z.mul_pow2_bits_low by lia; by rewrite andb_false_r
      |rewrite <- (Z.mod_small a (2 ^ n)), Z.mod_pow2_bits_high by lia; done]).
Qed.

Lemma lor_bound a b n :
  0 <= n → 0 <= a < 2 ^ n → 0 <= b < 2 ^ n → 0 <= Z.lor a b < 2 ^ n.
Proof.
  intros Hn Ha Hb. split; [apply Z.lor_nonneg; lia|].
  rewrite <- (Z.mod_small a (2 ^ n)), <- (Z.mod_small b (2 ^ n)) by done.
  rewrite <- !Z.land_ones, <- Z.land_lor_distr_l, Z.land_ones by done.
  apply Z.mod_pos_bound. lia.
Qed.

Lemma land_ones_mod z n : 0 <= n → Z.land z (Z.ones n) = z mod 2 ^ n.
Proof. apply Z.land_ones. Qed.

Lemma land_3 z : Z.land z 3 = z mod 4.
Proof. apply (Z.land_ones z 2). lia. Qed.
Lemma land_15 z : Z.land z 15 = z mod 16.
Proof. apply (Z.land_ones z 4). lia. Qed.
Lemma land_63 z : Z.land z 63 = z mod 64.
Proof. apply (Z.land_ones z 6). lia. Qed.
Lemma land_127 z : Z.land z 127 = z mod 128.
Proof. apply (Z.land_ones z 7). lia. Qed.
Lemma land_255 z : Z.land z 255 = z mod 256.
Proof. apply (Z.land_ones z 8). lia. Qed.

(** Decision of a boolean property of all the values below a small bound, by
    evaluation. *)
Lemma forall_below (n : nat) (P : Z → bool) :
  forallb (λ i, P (Z.of_nat i)) (seq 0 n) = true → ∀ b, 0 <= b < Z.of_nat n → P b = true.
Proof.
  intros H b Hb. rewrite forallb_forall in H.
  rewrite <- (Z2Nat.id b) by lia. apply H, in_seq. lia.
Qed.

(** Testing the continuation bit of a byte. *)
Lemma land_128_byte b : is_byte b → Z.land b 128 = if b <? 128 then 0 else 128.
Proof.
  intros Hb. apply Z.eqb_eq. revert b Hb.
  apply (forall_below 256 (λ b, Z.land b 128 =? if b <? 128 then 0 else 128)).
  by vm_compute.
Qed.

(** * Little-endian integers *)

Lemma length_le_bytes n v : length (le_bytes n v) = n.
Proof. revert v. induction n; intros; simpl; auto. Qed.

Lemma le_of_bytes_le_bytes n v : le_of_bytes (le_bytes n v) = v mod 2 ^ (8 * Z.of_nat n).
Proof.
  revert v. induction n as [|n IH]; intros v.
  { simpl. by rewrite Z.mod_1_r. }
  cbn [le_bytes le_of_bytes]. rewrite IH.
  replace (8 * Z.of_nat (S n)) with (8 + 8 * Z.of_nat n) by lia.
  rewrite Z.pow_add_r by lia. change (2 ^ 8) with 256.
  rewrite Z.rem_mul_r by (try apply Z.pow_nonzero; lia). lia.
Qed.

Lemma le_of_bytes_bound bs :
  Forall is_byte bs → 0 <= le_of_bytes bs < 2 ^ (8 * Z.of_nat (length bs)).
Proof.
  unfold is_byte. induction 1 as [|b bs Hb _ IH]; cbn [le_of_bytes length]; [simpl; lia|].
  replace (8 * Z.of_nat (S (length bs))) with (8 + 8 * Z.of_nat (length bs)) by lia.
  rewrite Z.pow_add_r by lia. change (2 ^ 8) with 256.
  destruct Hb. nia.
Qed.

Lemma le_bytes_le_of_bytes bs :
  Forall is_byte bs → le_bytes (length bs) (le_of_bytes bs) = bs.
Proof.
  unfold is_byte. induction 1 as [|b bs Hb _ IH]; [done|]. cbn [le_of_bytes length le_bytes].
  rewrite (Z.mul_comm 256), Z.mod_add, Z.mod_small by lia.
  rewrite Z.div_add, Z.div_small by lia. by rewrite Z.add_0_l, IH.
Qed.

Lemma le_bytes_are_bytes n v : Forall is_byte (le_bytes n v).
Proof.
  revert v. induction n; intros v; simpl; constructor; auto.
  apply Z.mod_pos_bound. lia.
Qed.

Create Rewrite HintDb le.
#[export] Hint Rewrite length_le_bytes le_of_bytes_le_bytes : le.
Create HintDb bytes.
#[export] Hint Resolve le_bytes_are_bytes u8_range u32_range u64_range : bytes.
