(* ===== verification/Mem.v ===== *)
(** The C machine the models of this development run on: a byte-addressed
    memory, the blocks handed out by [malloc], and the state monad that threads
    them, with a total-correctness predicate transformer for it. *)
From S2P Require Import Prelude.

(** * Memory

    An address is a [Z]; the addresses that belong to a live object are the keys
    of the map. A load or a store outside of them has no result. *)
Fixpoint mem_load (m : gmap Z Z) (a : Z) (n : nat) : option (list Z) :=
  match n with
  | O => Some []
  | S n' => b ← m !! a; bs ← mem_load m (a + 1) n'; Some (b :: bs)
  end.

Fixpoint mem_store (m : gmap Z Z) (a : Z) (bs : list Z) : option (gmap Z Z) :=
  match bs with
  | [] => Some m
  | b :: bs' => match m !! a with
                | Some _ => mem_store (<[a := b]> m) (a + 1) bs'
                | None => None
                end
  end.

(** The [n] bytes from [a] on belong to live objects. *)
Definition mem_valid (m : gmap Z Z) (a n : Z) : Prop :=
  ∀ i, a <= i < a + n → is_Some (m !! i).

(** Every cell of the memory holds a byte. *)
Definition mem_bytes (m : gmap Z Z) : Prop := map_Forall (λ _ b, is_byte b) m.

(** Adding an object of contents [bs] at [a], and removing [n] bytes at [a]. *)
Fixpoint mem_map (m : gmap Z Z) (a : Z) (bs : list Z) : gmap Z Z :=
  match bs with
  | [] => m
  | b :: bs' => <[a := b]> (mem_map m (a + 1) bs')
  end.
Fixpoint mem_unmap (m : gmap Z Z) (a : Z) (n : nat) : gmap Z Z :=
  match n with
  | O => m
  | S n' => delete a (mem_unmap m (a + 1) n')
  end.

(** Two memories that agree outside [a, a + n) and have the same objects. *)
Definition mem_same_outside (m m' : gmap Z Z) (a n : Z) : Prop :=
  (∀ i, is_Some (m' !! i) ↔ is_Some (m !! i)) ∧
  (∀ i, (i < a ∨ a + n <= i) → m' !! i = m !! i).

(** * State and monad *)

(** [heap] maps the base of each block obtained from [malloc] to its size;
    [fixed_count_size] is the local variable of that name of the running
    activation of [pb_decode_noinit]; [world] is the state of the code that is
    outside of the repository (the callbacks an application registers). *)
Record st (W : Type) := mkst {
  mem : gmap Z Z;
  heap : gmap Z Z;
  fixed_count_size : Z;
  world : W
}.
Arguments mkst {W} _ _ _ _.
Arguments mem {W} _.
Arguments heap {W} _.
Arguments fixed_count_size {W} _.
Arguments world {W} _.

Definition set_mem {W} (m : gmap Z Z) (s : st W) : st W :=
  mkst m (heap s) (fixed_count_size s) (world s).
Definition set_heap {W} (h : gmap Z Z) (s : st W) : st W :=
  mkst (mem s) h (fixed_count_size s) (world s).
Definition set_fixed {W} (n : Z) (s : st W) : st W :=
  mkst (mem s) (heap s) n (world s).

Definition M (W A : Type) : Type := st W → res (A * st W).

#[global] Instance M_ret W : MRet (M W) := λ A a s, Ok (a, s).
#[global] Instance M_bind W : MBind (M W) := λ A B f m s,
  match m s with
  | Ok (a, s') => f a s'
  | UB => UB
  | NoFuel => NoFuel
  end.

Definition ub {W A} : M W A := λ _, UB.
Definition nofuel {W A} : M W A := λ _, NoFuel.
Definition gets {W A} (f : st W → A) : M W A := λ s, Ok (f s, s).
Definition opt {W A} (o : option A) : M W A :=
  match o with Some a => mret a | None => ub end.

(** Accesses of the C program. *)
Definition load {W} (a : Z) (n : nat) : M W (list Z) :=
  λ s, match mem_load (mem s) a n with Some bs => Ok (bs, s) | None => UB end.
Definition store {W} (a : Z) (bs : list Z) : M W unit :=
  λ s, match mem_store (mem s) a bs with
       | Some m => Ok (tt, set_mem m s)
       | None => UB
       end.
Definition load_uint {W} (n : nat) (a : Z) : M W Z := bs ← load a n; mret (le_of_bytes bs).
Definition store_uint {W} (n : nat) (a v : Z) : M W unit := store a (le_bytes n v).
(** A [void*] occupies [sizeof(void* )] = 8 bytes. *)
Definition sizeof_ptr : Z := 8.
Definition load_ptr {W} (a : Z) : M W Z := load_uint 8 a.
Definition store_ptr {W} (a p : Z) : M W unit := store_uint 8 a p.
(** [bool] objects are one byte, and [pb_size_t] objects four. *)
Definition load_bool {W} (a : Z) : M W bool := v ← load_uint 1 a; mret (negb (v =? 0)).
Definition store_bool {W} (a : Z) (b : bool) : M W unit := store_uint 1 a (if b then 1 else 0).
Definition load_size {W} (a : Z) : M W Z := load_uint 4 a.
Definition store_size {W} (a v : Z) : M W unit := store_uint 4 a v.
Definition memset {W} (a : Z) (v n : Z) : M W unit := store a (replicate (Z.to_nat n) v).
Definition memcpy {W} (dst src n : Z) : M W unit :=
  bs ← load src (Z.to_nat n); store dst bs.

(** * The C library's allocator

    [malloc_addr] is the choice the allocator makes for a request in a state: the
    address of the new block, or [None] when the request fails; [malloc_fill]
    gives the (indeterminate) contents of fresh memory. *)
Class Allocator := {
  malloc_addr : gmap Z Z → gmap Z Z → Z → option Z;
  malloc_fill : Z → Z
}.

Section allocator.
Context {W : Type} `{Allocator}.

Definition free (p : Z) : M W unit := λ s,
  if p =? 0 then Ok (tt, s)
  else match heap s !! p with
       | Some n => Ok (tt, set_heap (delete p (heap s))
                            (set_mem (mem_unmap (mem s) p (Z.to_nat n)) s))
       | None => UB
       end.

Definition fresh_bytes (a n : Z) : list Z :=
  (λ i : nat, malloc_fill (a + Z.of_nat i)) <$> seq 0 (Z.to_nat n).

(** [realloc(p, n)], for n > 0: the old block stays as it is on failure. *)
Definition realloc (p n : Z) : M W Z := λ s,
  match (if p =? 0 then Some (0, [])
         else sz ← heap s !! p; bs ← mem_load (mem s) p (Z.to_nat sz); Some (sz, bs)) with
  | None => UB
  | Some (sz, bs) =>
      let m := mem_unmap (mem s) p (Z.to_nat sz) in
      let h := delete p (heap s) in
      match malloc_addr m h n with
      | None => Ok (0, s)
      | Some a =>
          let k := Z.to_nat (Z.min sz n) in
          Ok (a, set_heap (<[a := n]> h)
                   (set_mem (mem_map m a (take k bs ++ drop k (fresh_bytes a n))) s))
      end
  end.
End allocator.

(** * Total correctness

    [wp m Q s]: run from [s], [m] has a defined result and [Q] holds of it. *)
Definition wp {W A} (m : M W A) (Q : A → st W → Prop) (s : st W) : Prop :=
  match m s with Ok (a, s') => Q a s' | _ => False end.

Section wp_rules.
Context {W : Type}.
Implicit Types s : st W.

Lemma wp_ret {A} (a : A) Q s : Q a s → wp (mret a) Q s.
Proof. done. Qed.
Lemma wp_bind {A B} (m : M W A) (f : A → M W B) Q s :
  wp m (λ a s', wp (f a) Q s') s → wp (m ≫= f) Q s.
Proof. unfold wp, mbind, M_bind. destruct (m s) as [[a s']| |]; done. Qed.
Lemma wp_mono {A} (m : M W A) (P Q : A → st W → Prop) s :
  wp m P s → (∀ a s', P a s' → Q a s') → wp m Q s.
Proof. unfold wp. destruct (m s) as [[a s']| |]; auto. Qed.
Lemma wp_seq {A B} (m : M W A) (f : A → M W B) P Q s :
  wp m P s → (∀ a s', P a s' → wp (f a) Q s') → wp (m ≫= f) Q s.
Proof. intros Hm Hf. apply wp_bind. by eapply wp_mono. Qed.
Lemma wp_gets {A} (f : st W → A) (Q : A → st W → Prop) s : Q (f s) s → wp (gets f) Q s.
Proof. done. Qed.
Lemma wp_opt {A} (o : option A) a (Q : A → st W → Prop) s : o = Some a → Q a s → wp (opt o) Q s.
Proof. by intros ->. Qed.
Lemma wp_elim {A} (m : M W A) Q s : wp m Q s → ∃ a s', m s = Ok (a, s') ∧ Q a s'.
Proof. unfold wp. destruct (m s) as [[a s']| |]; naive_solver. Qed.
Lemma wp_intro {A} (m : M W A) (Q : A → st W → Prop) s a s' :
  m s = Ok (a, s') → Q a s' → wp m Q s.
Proof. unfold wp. by intros ->. Qed.
End wp_rules.

(** * Laws of the memory *)

Lemma mem_load_length m a n bs : mem_load m a n = Some bs → length bs = n.
Proof.
  revert a bs. induction n as [|n IH]; intros a bs; simpl; [by intros [= <-]|].
  destruct (m !! a) as [b|]; simpl; [|done].
  destruct (mem_load m (a + 1) n) as [bs'|] eqn:E; simpl; [|done].
  intros [= <-]. simpl. f_equal. eauto.
Qed.

Lemma mem_load_valid m a n : is_Some (mem_load m a n) ↔ mem_valid m a (Z.of_nat n).
Proof.
  unfold mem_valid. revert a. induction n as [|n IH]; intros a; simpl.
  { split; [lia|by eexists]. }
  split.
  - intros [bs H] i Hi. destruct (m !! a) as [b|] eqn:Ea; simpl in H; [|done].
    destruct (decide (i = a)) as [->|]; [by eexists|].
    destruct (mem_load m (a + 1) n) eqn:E; simpl in H; [|done].
    apply (proj1 (IH (a + 1))); [by eexists|lia].
  - intros H. destruct (H a ltac:(lia)) as [b ->]. simpl.
    destruct (proj2 (IH (a + 1))) as [bs ->]; [|by eexists].
    intros i Hi. apply H. lia.
Qed.

Lemma mem_load_lookup m a n bs i :
  mem_load m a n = Some bs → 0 <= i < Z.of_nat n → bs !! Z.to_nat i = m !! (a + i).
Proof.
  revert a bs i. induction n as [|n IH]; intros a bs i; simpl; [lia|].
  destruct (m !! a) as [b|] eqn:Ea; simpl; [|done].
  destruct (mem_load m (a + 1) n) as [bs'|] eqn:E; simpl; [|done].
  intros [= <-] Hi. destruct (decide (i = 0)) as [->|].
  { by rewrite Z.add_0_r. }
  replace (Z.to_nat i) with (S (Z.to_nat (i - 1))) by lia. simpl.
  rewrite (IH (a + 1)) by (done || lia). f_equal. lia.
Qed.

(** Loaded values are bytes. *)
Lemma mem_load_bytes m a n bs : mem_bytes m → mem_load m a n = Some bs → Forall is_byte bs.
Proof.
  intros Hm. revert a bs. induction n as [|n IH]; intros a bs; simpl; [by intros [= <-]|].
  destruct (m !! a) as [b|] eqn:Ea; simpl; [|done].
  destruct (mem_load m (a + 1) n) eqn:E; simpl; [|done]. intros [= <-].
  constructor; [by apply (Hm a)|eauto].
Qed.

(** A load only depends on the bytes it reads. *)
Lemma mem_load_ext m m' a n :
  (∀ i, a <= i < a + Z.of_nat n → m' !! i = m !! i) → mem_load m' a n = mem_load m a n.
Proof.
  revert a. induction n as [|n IH]; intros a H; simpl; [done|].
  rewrite H by lia. destruct (m !! a); simpl; [|done].
  rewrite IH; [done|]. intros i Hi. apply H. lia.
Qed.

Lemma mem_store_lookup m a bs m' i :
  mem_store m a bs = Some m' →
  m' !! i = if decide (a <= i < a + Z.of_nat (length bs))
            then bs !! Z.to_nat (i - a) else m !! i.
Proof.
  revert m a. induction bs as [|b bs IH]; intros m a; simpl.
  { intros [= ->]. case_decide; [lia|done]. }
  destruct (m !! a) as [c|] eqn:Ea; [|done]. intros H%IH. rewrite H.
  destruct (decide (i = a)) as [->|].
  - rewrite decide_False by lia. rewrite decide_True by lia.
    by rewrite lookup_insert_eq, Z.sub_diag.
  - rewrite lookup_insert_ne by done. repeat case_decide; try lia; [|done].
    replace (Z.to_nat (i - a)) with (S (Z.to_nat (i - (a + 1)))) by lia. done.
Qed.

Lemma mem_store_valid m a bs :
  is_Some (mem_store m a bs) ↔ mem_valid m a (Z.of_nat (length bs)).
Proof.
  unfold mem_valid. revert m a. induction bs as [|b bs IH]; intros m a; simpl.
  { split; [lia|by eexists]. }
  split.
  - intros H i Hi. destruct (m !! a) eqn:Ea; [|by destruct H].
    destruct (decide (i = a)) as [->|]; [by eexists|].
    rewrite <- (lookup_insert_ne m a i b) by done. apply (proj1 (IH _ _) H). lia.
  - intros H. destruct (H a ltac:(lia)) as [c ->]. apply IH.
    intros i Hi. rewrite lookup_insert_ne by lia. apply H. lia.
Qed.

Lemma mem_store_same_outside m a bs m' :
  mem_store m a bs = Some m' → mem_same_outside m m' a (Z.of_nat (length bs)).
Proof.
  intros H. split; intros i.
  - rewrite (mem_store_lookup _ _ _ _ i H). case_decide; [|done].
    split; intros _; [|apply lookup_lt_is_Some_2; lia].
    apply (proj1 (mem_store_valid m a bs)); [by eexists|lia].
  - intros Hi. rewrite (mem_store_lookup _ _ _ _ i H). by rewrite decide_False by lia.
Qed.

Lemma mem_load_store_same m a bs m' :
  mem_store m a bs = Some m' → mem_load m' a (length bs) = Some bs.
Proof.
  intros H. destruct (proj2 (mem_load_valid m' a (length bs))) as [cs Hcs].
  { intros i Hi. rewrite (mem_store_lookup _ _ _ _ i H), decide_True by lia.
    apply lookup_lt_is_Some_2. lia. }
  rewrite Hcs. f_equal. apply list_eq. intros i.
  pose proof (mem_load_length _ _ _ _ Hcs) as Hl.
  destruct (decide (i < length bs)%nat).
  - rewrite <- (Nat2Z.id i), (mem_load_lookup _ _ _ _ _ Hcs) by lia.
    rewrite (mem_store_lookup _ _ _ _ _ H), decide_True by lia. f_equal. lia.
  - rewrite !lookup_ge_None_2 by lia. done.
Qed.

Lemma mem_load_store_disjoint m a bs m' b n :
  mem_store m a bs = Some m' →
  b + Z.of_nat n <= a ∨ a + Z.of_nat (length bs) <= b →
  mem_load m' b n = mem_load m b n.
Proof.
  intros H Hd. apply mem_load_ext. intros i Hi.
  rewrite (mem_store_lookup _ _ _ _ _ H), decide_False by lia. done.
Qed.

(** [mem_same_outside] composes: a frame rule for sequences of stores. *)
Lemma mem_same_outside_refl m a n : mem_same_outside m m a n.
Proof. by split. Qed.
Lemma mem_same_outside_trans m1 m2 m3 a n :
  mem_same_outside m1 m2 a n → mem_same_outside m2 m3 a n → mem_same_outside m1 m3 a n.
Proof.
  intros [H1 H2] [H3 H4]. split; intros i.
  - by rewrite H3, H1.
  - intros Hi. by rewrite H4, H2.
Qed.
Lemma mem_same_outside_weaken m m' a n b k :
  mem_same_outside m m' a n → b <= a → a + n <= b + k → mem_same_outside m m' b k.
Proof. intros [H1 H2] ??. split; [done|]. intros i Hi. apply H2. lia. Qed.
Lemma mem_same_outside_valid m m' a n b k :
  mem_same_outside m m' a n → mem_valid m b k → mem_valid m' b k.
Proof. intros [H _] Hv i Hi. apply H, Hv, Hi. Qed.
Lemma mem_same_outside_load m m' a n b k :
  mem_same_outside m m' a n → b + Z.of_nat k <= a ∨ a + n <= b →
  mem_load m' b k = mem_load m b k.
Proof. intros [_ H] Hd. apply mem_load_ext. intros i Hi. apply H. lia. Qed.
Lemma mem_valid_sub m a n b k : mem_valid m a n → a <= b → b + k <= a + n → mem_valid m b k.
Proof. intros H ?? i Hi. apply H. lia. Qed.

Create HintDb mem.
#[export] Hint Resolve mem_same_outside_refl : mem.
