(* ===== verification/Pb.v ===== *)
(** nanopb's common definitions ([pb.h]): the field types, the field
    descriptors and the macros that build them, and the callback and extension
    structures, for the configuration of the application's build
    ([PB_FIELD_32BIT], [PB_NO_PACKED_STRUCTS], [PB_ENABLE_MALLOC]). *)
From S2P Require Import Prelude Mem.

(** * Field types *)

Definition PB_MAX_REQUIRED_FIELDS : Z := 64.

Definition PB_LTYPE_VARINT : Z := 0x00.
Definition PB_LTYPE_UVARINT : Z := 0x01.
Definition PB_LTYPE_SVARINT : Z := 0x02.
Definition PB_LTYPE_FIXED32 : Z := 0x03.
Definition PB_LTYPE_FIXED64 : Z := 0x04.
Definition PB_LTYPE_LAST_PACKABLE : Z := 0x04.
Definition PB_LTYPE_BYTES : Z := 0x05.
Definition PB_LTYPE_STRING : Z := 0x06.
Definition PB_LTYPE_SUBMESSAGE : Z := 0x07.
Definition PB_LTYPE_EXTENSION : Z := 0x08.
Definition PB_LTYPE_FIXED_LENGTH_BYTES : Z := 0x09.
Definition PB_LTYPES_COUNT : Z := 0x0A.
Definition PB_LTYPE_MASK : Z := 0x0F.

Definition PB_HTYPE_REQUIRED : Z := 0x00.
Definition PB_HTYPE_OPTIONAL : Z := 0x10.
Definition PB_HTYPE_REPEATED : Z := 0x20.
Definition PB_HTYPE_ONEOF : Z := 0x30.
Definition PB_HTYPE_MASK : Z := 0x30.

Definition PB_ATYPE_STATIC : Z := 0x00.
Definition PB_ATYPE_POINTER : Z := 0x80.
Definition PB_ATYPE_CALLBACK : Z := 0x40.
Definition PB_ATYPE_MASK : Z := 0xC0.

Definition PB_ATYPE (x : Z) : Z := Z.land x PB_ATYPE_MASK.
Definition PB_HTYPE (x : Z) : Z := Z.land x PB_HTYPE_MASK.
Definition PB_LTYPE (x : Z) : Z := Z.land x PB_LTYPE_MASK.

(** [pb_size_t] is [uint32_t]. *)
Definition PB_SIZE_MAX : Z := u32 (-1).

(** * Field descriptors *)

(** [pf_ptr] is an address: of the descriptor array of a submessage, or of the
    default value of another field; 0 is the null pointer. *)
Record pb_field_t := mk_field {
  pf_tag : Z;
  pf_type : Z;
  pf_data_offset : Z;
  pf_size_offset : Z;
  pf_data_size : Z;
  pf_array_size : Z;
  pf_ptr : Z
}.

#[export] Instance pb_field_t_eq_dec : EqDecision pb_field_t.
Proof. solve_decision. Defined.

(** An initializer converts each value to the type of its member. *)
Definition field_init (tag type fd so ds asz ptr : Z) : pb_field_t :=
  {| pf_tag := u32 tag; pf_type := u8 type; pf_data_offset := u32 fd;
     pf_size_offset := s32 so; pf_data_size := u32 ds; pf_array_size := u32 asz;
     pf_ptr := ptr |}.

(** [sizeof] of the size word of [pb_bytes_array_t], the offset of its bytes. *)
Definition offsetof_bytes : Z := 4.
Definition PB_BYTES_ARRAY_T_ALLOCSIZE (n : Z) : Z := u64 (n + offsetof_bytes).

(** Members of [pb_callback_t]: the function pointer and, after it, [arg]. *)
Definition pb_callback_funcs (p : Z) : Z := p.
Definition pb_callback_arg (p : Z) : Z := p + 8.

(** Members of [pb_extension_type_t]. *)
Definition ext_type_decode (p : Z) : Z := p.
Definition ext_type_encode (p : Z) : Z := p + 8.
Definition ext_type_arg (p : Z) : Z := p + 16.

(** Members of [pb_extension_t]. *)
Definition ext_type (p : Z) : Z := p.
Definition ext_dest (p : Z) : Z := p + 8.
Definition ext_next (p : Z) : Z := p + 16.
Definition ext_found (p : Z) : Z := p + 24.

(** Wire types: a [pb_wire_type_t] read from a stream may hold any value 0..7. *)
Definition PB_WT_VARINT : Z := 0.
Definition PB_WT_64BIT : Z := 1.
Definition PB_WT_STRING : Z := 2.
Definition PB_WT_32BIT : Z := 5.

(** * The descriptor macros

    A struct member is known to them by [offsetof], [sizeof] and, for an array
    or a pointer [m], the size of [m[0]]. *)
Record member := mk_member { m_offset : Z; m_size : Z; m_elem : Z }.

Definition pb_membersize (m : member) : Z := m_size m.
Definition pb_arraysize (m : member) : Z := m_size m / m_elem m.
Definition pb_delta (m1 m2 : member) : Z := s32 (m_offset m1) - s32 (m_offset m2).
Definition PB_LAST_FIELD : pb_field_t := field_init 0 0 0 0 0 0 0.

Definition PB_DATAOFFSET_FIRST (m1 m2 : member) : Z := m_offset m1.
Definition PB_DATAOFFSET_OTHER (m1 m2 : member) : Z :=
  u64 (m_offset m1 - m_offset m2 - m_size m2).
Definition PB_DATAOFFSET_UNION (m1 m2 : member) : Z := PB_SIZE_MAX.
Definition PB_DATAOFFSET_CHOOSE (m1 m2 : member) : Z :=
  s32 (if m_offset m1 =? m_offset m2 then PB_DATAOFFSET_FIRST m1 m2
       else PB_DATAOFFSET_OTHER m1 m2).

(** The type byte of a descriptor. *)
Definition type_of (atype htype ltype : Z) : Z := Z.lor (Z.lor atype htype) ltype.

Definition PB_REQUIRED_STATIC (tag : Z) (m : member) (fd ltype ptr : Z) : pb_field_t :=
  field_init tag (type_of PB_ATYPE_STATIC PB_HTYPE_REQUIRED ltype)
    fd 0 (pb_membersize m) 0 ptr.

(** [has_m] is the member [has_ ## m]. *)
Definition PB_OPTIONAL_STATIC (tag : Z) (has_m m : member) (fd ltype ptr : Z) : pb_field_t :=
  field_init tag (type_of PB_ATYPE_STATIC PB_HTYPE_OPTIONAL ltype)
    fd (pb_delta has_m m) (pb_membersize m) 0 ptr.

Definition PB_SINGULAR_STATIC (tag : Z) (m : member) (fd ltype ptr : Z) : pb_field_t :=
  field_init tag (type_of PB_ATYPE_STATIC PB_HTYPE_OPTIONAL ltype)
    fd 0 (pb_membersize m) 0 ptr.

(** [m_count] is the member [m ## _count]. *)
Definition PB_REPEATED_STATIC (tag : Z) (m_count m : member) (fd ltype ptr : Z) : pb_field_t :=
  field_init tag (type_of PB_ATYPE_STATIC PB_HTYPE_REPEATED ltype)
    fd (pb_delta m_count m) (m_elem m) (pb_arraysize m) ptr.

Definition PB_REQUIRED_POINTER (tag : Z) (m : member) (fd ltype ptr : Z) : pb_field_t :=
  field_init tag (type_of PB_ATYPE_POINTER PB_HTYPE_REQUIRED ltype)
    fd 0 (m_elem m) 0 ptr.

Definition PB_OPTIONAL_POINTER (tag : Z) (m : member) (fd ltype ptr : Z) : pb_field_t :=
  field_init tag (type_of PB_ATYPE_POINTER PB_HTYPE_OPTIONAL ltype)
    fd 0 (m_elem m) 0 ptr.

Definition PB_SINGULAR_POINTER (tag : Z) (m : member) (fd ltype ptr : Z) : pb_field_t :=
  field_init tag (type_of PB_ATYPE_POINTER PB_HTYPE_OPTIONAL ltype)
    fd 0 (m_elem m) 0 ptr.

Definition PB_REPEATED_POINTER (tag : Z) (m_count m : member) (fd ltype ptr : Z) : pb_field_t :=
  field_init tag (type_of PB_ATYPE_POINTER PB_HTYPE_REPEATED ltype)
    fd (pb_delta m_count m) (m_elem m) 0 ptr.

Definition PB_REQUIRED_CALLBACK (tag : Z) (m : member) (fd ltype ptr : Z) : pb_field_t :=
  field_init tag (type_of PB_ATYPE_CALLBACK PB_HTYPE_REQUIRED ltype)
    fd 0 (pb_membersize m) 0 ptr.

Definition PB_OPTIONAL_CALLBACK (tag : Z) (m : member) (fd ltype ptr : Z) : pb_field_t :=
  field_init tag (type_of PB_ATYPE_CALLBACK PB_HTYPE_OPTIONAL ltype)
    fd 0 (pb_membersize m) 0 ptr.

Definition PB_SINGULAR_CALLBACK (tag : Z) (m : member) (fd ltype ptr : Z) : pb_field_t :=
  field_init tag (type_of PB_ATYPE_CALLBACK PB_HTYPE_OPTIONAL ltype)
    fd 0 (pb_membersize m) 0 ptr.

Definition PB_REPEATED_CALLBACK (tag : Z) (m : member) (fd ltype ptr : Z) : pb_field_t :=
  field_init tag (type_of PB_ATYPE_CALLBACK PB_HTYPE_REPEATED ltype)
    fd 0 (pb_membersize m) 0 ptr.

Definition PB_OPTEXT_STATIC (tag : Z) (m : member) (fd ltype ptr : Z) : pb_field_t :=
  field_init tag (type_of PB_ATYPE_STATIC PB_HTYPE_REQUIRED ltype)
    0 0 (pb_membersize m) 0 ptr.

Definition PB_OPTEXT_POINTER := PB_OPTIONAL_POINTER.
Definition PB_OPTEXT_CALLBACK := PB_OPTIONAL_CALLBACK.

(** [PB_LTYPE_MAP_ ## type]. *)
Inductive proto_type :=
  | BOOL | BYTES | DOUBLE | ENUM | UENUM | FIXED32 | FIXED64 | FLOAT | INT32 | INT64
  | MESSAGE | SFIXED32 | SFIXED64 | SINT32 | SINT64 | STRING | UINT32 | UINT64
  | EXTENSION | FIXED_LENGTH_BYTES.

Definition PB_LTYPE_MAP (t : proto_type) : Z :=
  match t with
  | BOOL => PB_LTYPE_VARINT
  | BYTES => PB_LTYPE_BYTES
  | DOUBLE => PB_LTYPE_FIXED64
  | ENUM => PB_LTYPE_VARINT
  | UENUM => PB_LTYPE_UVARINT
  | FIXED32 => PB_LTYPE_FIXED32
  | FIXED64 => PB_LTYPE_FIXED64
  | FLOAT => PB_LTYPE_FIXED32
  | INT32 => PB_LTYPE_VARINT
  | INT64 => PB_LTYPE_VARINT
  | MESSAGE => PB_LTYPE_SUBMESSAGE
  | SFIXED32 => PB_LTYPE_FIXED32
  | SFIXED64 => PB_LTYPE_FIXED64
  | SINT32 => PB_LTYPE_SVARINT
  | SINT64 => PB_LTYPE_SVARINT
  | STRING => PB_LTYPE_STRING
  | UINT32 => PB_LTYPE_UVARINT
  | UINT64 => PB_LTYPE_UVARINT
  | EXTENSION => PB_LTYPE_EXTENSION
  | FIXED_LENGTH_BYTES => PB_LTYPE_FIXED_LENGTH_BYTES
  end.

(** The rules, allocation and placement arguments of [PB_FIELD]; the rules carry
    the companion member ([has_m] or [m_count]) where their macro names one. *)
Inductive rules :=
  | REQUIRED | OPTIONAL (has_m : member) | SINGULAR | REPEATED (m_count : member) | OPTEXT.
Inductive allocation := STATIC | POINTER | CALLBACK.
Inductive placement := FIRST | OTHER | UNION.

Definition PB_DATAOFFSET (p : placement) (m1 m2 : member) : Z :=
  match p with
  | FIRST => PB_DATAOFFSET_FIRST m1 m2
  | OTHER => PB_DATAOFFSET_OTHER m1 m2
  | UNION => PB_DATAOFFSET_UNION m1 m2
  end.

Definition PB_FIELD (tag : Z) (type : proto_type) (r : rules) (al : allocation)
    (p : placement) (field prevfield : member) (ptr : Z) : pb_field_t :=
  let fd := PB_DATAOFFSET p field prevfield in
  let ltype := PB_LTYPE_MAP type in
  match r, al with
  | REQUIRED, STATIC => PB_REQUIRED_STATIC tag field fd ltype ptr
  | REQUIRED, POINTER => PB_REQUIRED_POINTER tag field fd ltype ptr
  | REQUIRED, CALLBACK => PB_REQUIRED_CALLBACK tag field fd ltype ptr
  | OPTIONAL has_m, STATIC => PB_OPTIONAL_STATIC tag has_m field fd ltype ptr
  | OPTIONAL _, POINTER => PB_OPTIONAL_POINTER tag field fd ltype ptr
  | OPTIONAL _, CALLBACK => PB_OPTIONAL_CALLBACK tag field fd ltype ptr
  | SINGULAR, STATIC => PB_SINGULAR_STATIC tag field fd ltype ptr
  | SINGULAR, POINTER => PB_SINGULAR_POINTER tag field fd ltype ptr
  | SINGULAR, CALLBACK => PB_SINGULAR_CALLBACK tag field fd ltype ptr
  | REPEATED m_count, STATIC => PB_REPEATED_STATIC tag m_count field fd ltype ptr
  | REPEATED m_count, POINTER => PB_REPEATED_POINTER tag m_count field fd ltype ptr
  | REPEATED _, CALLBACK => PB_REPEATED_CALLBACK tag field fd ltype ptr
  | OPTEXT, STATIC => PB_OPTEXT_STATIC tag field fd ltype ptr
  | OPTEXT, POINTER => PB_OPTEXT_POINTER tag field fd ltype ptr
  | OPTEXT, CALLBACK => PB_OPTEXT_CALLBACK tag field fd ltype ptr
  end.

Definition PB_REPEATED_FIXED_COUNT (tag : Z) (type : proto_type) (p : placement)
    (field prevfield : member) (ptr : Z) : pb_field_t :=
  field_init tag (type_of PB_ATYPE_STATIC PB_HTYPE_REPEATED (PB_LTYPE_MAP type))
    (PB_DATAOFFSET p field prevfield) 0 (m_elem field) (pb_arraysize field) ptr.

(** [which_u] is the member [which_ ## u]; [m] the member [u.m], or the member
    [m] of an anonymous union. *)
Definition PB_ONEOF_STATIC (which_u : member) (tag : Z) (m : member) (fd ltype ptr : Z)
    : pb_field_t :=
  field_init tag (type_of PB_ATYPE_STATIC PB_HTYPE_ONEOF ltype)
    fd (pb_delta which_u m) (pb_membersize m) 0 ptr.

Definition PB_ONEOF_POINTER (which_u : member) (tag : Z) (m : member) (fd ltype ptr : Z)
    : pb_field_t :=
  field_init tag (type_of PB_ATYPE_POINTER PB_HTYPE_ONEOF ltype)
    fd (pb_delta which_u m) (m_elem m) 0 ptr.

(** There is no [PB_ONEOF_CALLBACK]: such a descriptor does not compile. *)
Definition PB_ONEOF_FIELD (which_u : member) (tag : Z) (type : proto_type)
    (al : allocation) (p : placement) (field prevfield : member) (ptr : Z)
    : option pb_field_t :=
  let fd := PB_DATAOFFSET p field prevfield in
  let ltype := PB_LTYPE_MAP type in
  match al with
  | STATIC => Some (PB_ONEOF_STATIC which_u tag field fd ltype ptr)
  | POINTER => Some (PB_ONEOF_POINTER which_u tag field fd ltype ptr)
  | CALLBACK => None
  end.

Definition PB_ANONYMOUS_ONEOF_STATIC (which_u : member) (tag : Z) (m : member)
    (fd ltype ptr : Z) : pb_field_t :=
  field_init tag (type_of PB_ATYPE_STATIC PB_HTYPE_ONEOF ltype)
    fd (pb_delta which_u m) (pb_membersize m) 0 ptr.

Definition PB_ANONYMOUS_ONEOF_POINTER (which_u : member) (tag : Z) (m : member)
    (fd ltype ptr : Z) : pb_field_t :=
  field_init tag (type_of PB_ATYPE_POINTER PB_HTYPE_ONEOF ltype)
    fd (pb_delta which_u m) (m_elem m) 0 ptr.

Definition PB_ANONYMOUS_ONEOF_FIELD (which_u : member) (tag : Z) (type : proto_type)
    (al : allocation) (p : placement) (field prevfield : member) (ptr : Z)
    : option pb_field_t :=
  let fd := PB_DATAOFFSET p field prevfield in
  let ltype := PB_LTYPE_MAP type in
  match al with
  | STATIC => Some (PB_ANONYMOUS_ONEOF_STATIC which_u tag field fd ltype ptr)
  | POINTER => Some (PB_ANONYMOUS_ONEOF_POINTER which_u tag field fd ltype ptr)
  | CALLBACK => None
  end.

(** * Error messages

    [PB_SET_ERROR] keeps the first message. *)
Definition PB_SET_ERROR (errmsg : option string) (msg : string) : option string :=
  match errmsg with Some e => Some e | None => Some msg end.
Definition PB_GET_ERROR (errmsg : option string) : string :=
  match errmsg with Some e => e | None => "(none)" end.

(** The type code is four bits wide. *)
Lemma ltype_range t : 0 <= PB_LTYPE t < 16.
Proof. unfold PB_LTYPE, PB_LTYPE_MASK. rewrite land_15. by apply Z.mod_pos_bound. Qed.
