(* ===== verification/PbIter.v ===== *)
(** The field iterator of nanopb ([pb_common.c]): its operations, and the order
    and the addresses in which it presents the fields of a message. *)
From S2P Require Import Prelude Mem Pb.

(** * The iterator

    [pSize] points at a count, [has_] or [which_] member of the message, or, once
    [pb_decode_noinit] redirects it, at its local variable [fixed_count_size]. *)
Inductive size_ptr := PAddr (a : Z) | PFixedCountSize.

#[export] Instance size_ptr_eq_dec : EqDecision size_ptr.
Proof. solve_decision. Defined.

(** [start] is the descriptor array and [pos] the index of the current entry. *)
Record pb_field_iter_t := mk_iter {
  start : list pb_field_t;
  pos : nat;
  required_field_index : Z;
  dest_struct : Z;
  pData : Z;
  pSize : size_ptr
}.

Definition set_pData (p : Z) (it : pb_field_iter_t) : pb_field_iter_t :=
  mk_iter (start it) (pos it) (required_field_index it) (dest_struct it) p (pSize it).
Definition set_pSize (p : size_ptr) (it : pb_field_iter_t) : pb_field_iter_t :=
  mk_iter (start it) (pos it) (required_field_index it) (dest_struct it) (pData it) p.

(** [*iter->pos]; there is none past the end of the array. *)
Definition cur (it : pb_field_iter_t) : option pb_field_t := start it !! pos it.

(** Functions of this file return [None] where the C code runs off the
    descriptor array. *)
Definition pb_field_iter_begin (fields : list pb_field_t) (dest : Z)
    : option (bool * pb_field_iter_t) :=
  f ← fields !! 0%nat;
  let pData := dest + pf_data_offset f in
  let pSize := pData + pf_size_offset f in
  Some (negb (pf_tag f =? 0), mk_iter fields 0 0 dest pData (PAddr pSize)).

Definition pb_field_iter_next (it : pb_field_iter_t) : option (bool * pb_field_iter_t) :=
  prev_field ← cur it;
  if pf_tag prev_field =? 0 then Some (false, it)
  else
    f ← start it !! S (pos it);
    if pf_tag f =? 0 then
      r ← pb_field_iter_begin (start it) (dest_struct it);
      Some (false, r.2)
    else
      let it1 := mk_iter (start it) (S (pos it)) (required_field_index it)
                   (dest_struct it) (pData it) (pSize it) in
      if (PB_HTYPE (pf_type prev_field) =? PB_HTYPE_ONEOF)
         && (PB_HTYPE (pf_type f) =? PB_HTYPE_ONEOF)
         && (pf_data_offset f =? PB_SIZE_MAX)
      then Some (true, it1)
      else
        let prev_size :=
          if (PB_ATYPE (pf_type prev_field) =? PB_ATYPE_STATIC)
             && (PB_HTYPE (pf_type prev_field) =? PB_HTYPE_REPEATED)
          then u64 (pf_data_size prev_field * pf_array_size prev_field)
          else if PB_ATYPE (pf_type prev_field) =? PB_ATYPE_POINTER then sizeof_ptr
          else pf_data_size prev_field in
        let req :=
          if PB_HTYPE (pf_type prev_field) =? PB_HTYPE_REQUIRED
          then u32 (required_field_index it + 1) else required_field_index it in
        let pData := pData it + prev_size + pf_data_offset f in
        let pSize := pData + pf_size_offset f in
        Some (true, mk_iter (start it) (S (pos it)) req (dest_struct it) pData (PAddr pSize)).

(** The [do ... while (iter->pos != start)] loop that [pb_field_iter_find] shares
    with [find_extension_field] of [pb_decode.c]; [p] is the test of its body. At
    most one turn per entry of the array. *)
Fixpoint iter_search_loop (fuel : nat) (from : nat) (p : pb_field_t → bool)
    (it : pb_field_iter_t) : option (bool * pb_field_iter_t) :=
  match fuel with
  | O => None
  | S fuel' =>
      f ← cur it;
      if p f then Some (true, it)
      else
        r ← pb_field_iter_next it;
        if decide (pos r.2 = from) then Some (false, r.2)
        else iter_search_loop fuel' from p r.2
  end.

Definition iter_search (p : pb_field_t → bool) (it : pb_field_iter_t)
    : option (bool * pb_field_iter_t) :=
  iter_search_loop (S (length (start it))) (pos it) p it.

Definition has_tag (tag : Z) (f : pb_field_t) : bool :=
  (pf_tag f =? tag) && negb (PB_LTYPE (pf_type f) =? PB_LTYPE_EXTENSION).

Definition pb_field_iter_find (it : pb_field_iter_t) (tag : Z)
    : option (bool * pb_field_iter_t) :=
  iter_search (has_tag tag) it.

(** * Descriptor arrays

    An array is well terminated when its last entry, and no other, has tag 0. *)
Definition terminated (fields : list pb_field_t) : bool :=
  match rev fields with
  | [] => false
  | l :: body => (pf_tag l =? 0) && forallb (λ f, negb (pf_tag f =? 0)) body
  end.

(** The number of entries before the terminator. *)
Definition n_fields (fields : list pb_field_t) : nat := pred (length fields).

(** Size that the iterator steps over for a field of the struct. *)
Definition stride (f : pb_field_t) : Z :=
  if (PB_ATYPE (pf_type f) =? PB_ATYPE_STATIC) && (PB_HTYPE (pf_type f) =? PB_HTYPE_REPEATED)
  then u64 (pf_data_size f * pf_array_size f)
  else if PB_ATYPE (pf_type f) =? PB_ATYPE_POINTER then sizeof_ptr
  else pf_data_size f.

Definition is_required (f : pb_field_t) : bool := PB_HTYPE (pf_type f) =? PB_HTYPE_REQUIRED.
Definition is_oneof (f : pb_field_t) : bool := PB_HTYPE (pf_type f) =? PB_HTYPE_ONEOF.
Definition in_union (prev f : pb_field_t) : bool :=
  is_oneof prev && is_oneof f && (pf_data_offset f =? PB_SIZE_MAX).

(** The iterator positioned at entry [i], for a message at [dest]: what the
    documentation of the descriptors promises. *)
Fixpoint iter_at (fields : list pb_field_t) (dest : Z) (i : nat) : option pb_field_iter_t :=
  match i with
  | O => snd <$> pb_field_iter_begin fields dest
  | S j =>
      it ← iter_at fields dest j;
      prev ← fields !! j;
      f ← fields !! i;
      if in_union prev f
      then Some (mk_iter fields i (required_field_index it) dest (pData it) (pSize it))
      else
        let pd := pData it + stride prev + pf_data_offset f in
        Some (mk_iter fields i
                (if is_required prev then u32 (required_field_index it + 1)
                 else required_field_index it)
                dest pd (PAddr (pd + pf_size_offset f)))
  end.

(** * Lemmas *)

Lemma terminated_spec fields :
  terminated fields = true ↔
  ∃ body l, fields = body ++ [l] ∧ pf_tag l = 0 ∧ Forall (λ f, pf_tag f ≠ 0) body.
Proof.
  unfold terminated. split.
  - intros H. destruct (rev fields) as [|l body] eqn:E; [done|].
    apply andb_prop in H as [Hl Hb]. exists (rev body), l. split_and!.
    + by rewrite <- (rev_involutive fields), E.
    + lia.
    + apply List.Forall_rev. rewrite forallb_forall in Hb. apply List.Forall_forall.
      intros f Hf%Hb. lia.
  - intros (body & l & -> & Hl & Hb). rewrite rev_app_distr. simpl. rewrite Hl. simpl.
    apply forallb_forall. intros f Hf%List.in_rev. rewrite List.Forall_forall in Hb.
    apply Hb in Hf. lia.
Qed.

Section terminated.
Context (fields : list pb_field_t) (Hterm : terminated fields = true).

Lemma fields_length : length fields = S (n_fields fields).
Proof.
  apply terminated_spec in Hterm as (body & l & -> & _). unfold n_fields.
  rewrite length_app. simpl. lia.
Qed.

Lemma field_tag_nonzero i f : fields !! i = Some f → (i < n_fields fields)%nat → pf_tag f ≠ 0.
Proof.
  pose proof fields_length as HL. apply terminated_spec in Hterm as (body & l & E & _ & Hb).
  rewrite E in HL |- *. intros Hf Hi. rewrite length_app in HL. simpl in HL.
  rewrite lookup_app_l in Hf by lia. rewrite Forall_lookup in Hb. eauto.
Qed.

Lemma field_tag_last : ∃ l, fields !! n_fields fields = Some l ∧ pf_tag l = 0.
Proof.
  pose proof fields_length as HL. apply terminated_spec in Hterm as (body & l & E & Hl & _).
  rewrite E in HL |- *. rewrite length_app in HL. simpl in HL. exists l. split; [|done].
  replace (n_fields (body ++ [l])) with (length body) by lia. by apply list_lookup_middle.
Qed.

Lemma field_lookup i : (i <= n_fields fields)%nat → is_Some (fields !! i).
Proof. intros. apply lookup_lt_is_Some_2. rewrite fields_length. lia. Qed.

Lemma iter_at_total dest i :
  (i <= n_fields fields)%nat →
  ∃ it, iter_at fields dest i = Some it ∧ start it = fields ∧ pos it = i ∧
        dest_struct it = dest.
Proof.
  induction i as [|i IH]; intros Hi; simpl.
  - unfold pb_field_iter_begin.
    destruct (field_lookup 0) as [f ->]; [lia|]. simpl. naive_solver.
  - destruct IH as (it & -> & Hs & Hp & Hd); [lia|]. simpl.
    destruct (field_lookup i) as [f ->]; [lia|]. simpl.
    destruct (field_lookup (S i)) as [g ->]; [lia|]. simpl.
    destruct (in_union f g); naive_solver.
Qed.

(** One step of the iterator from entry [i]. *)
Lemma iter_next_at dest i it :
  (i < n_fields fields)%nat → iter_at fields dest i = Some it →
  ∃ it', iter_at fields dest (if decide (S i < n_fields fields)%nat then S i else 0%nat)
           = Some it' ∧
         pb_field_iter_next it = Some (bool_decide (S i < n_fields fields)%nat, it').
Proof.
  intros Hi Hit.
  destruct (iter_at_total dest i) as (it' & E & Hs & Hp & Hd); [lia|].
  rewrite E in Hit. injection Hit as ->.
  destruct (field_lookup i) as [prev Hprev]; [lia|].
  destruct (field_lookup (S i)) as [f Hf]; [lia|].
  pose proof (field_tag_nonzero _ _ Hprev Hi) as Ht.
  unfold pb_field_iter_next, cur. rewrite Hs, Hp, Hd, Hprev. simpl.
  rewrite (proj2 (Z.eqb_neq _ _) Ht), Hf. simpl. case_decide as Hlt.
  - pose proof (field_tag_nonzero _ _ Hf Hlt) as Ht'.
    rewrite (proj2 (Z.eqb_neq _ _) Ht').
    rewrite bool_decide_true by done. cbn [iter_at]. rewrite E, Hprev, Hf. simpl.
    unfold in_union, is_oneof, stride, is_required. destruct (_ && _ && _); eauto.
  - rewrite bool_decide_false by done.
    destruct field_tag_last as (l & Hl & Hl0).
    replace (S i) with (n_fields fields) in Hf by lia. rewrite Hl in Hf.
    injection Hf as ->. rewrite Hl0. simpl. unfold pb_field_iter_begin.
    destruct (field_lookup 0) as [f0 ->]; [lia|]. simpl. eauto.
Qed.
End terminated.

(** An empty message type: the iterator stays on the terminator. *)
Lemma iter_next_empty fields dest it :
  terminated fields = true → n_fields fields = 0%nat → iter_at fields dest 0 = Some it →
  pb_field_iter_next it = Some (false, it).
Proof.
  intros Ht Hn Hit. destruct (field_tag_last fields Ht) as (l & Hl & Hl0). rewrite Hn in Hl.
  destruct (iter_at_total fields Ht dest 0) as (it' & E & Hs & Hp & Hd); [lia|].
  rewrite E in Hit. injection Hit as ->.
  unfold pb_field_iter_next, cur. by rewrite Hs, Hp, Hl; simpl; rewrite Hl0.
Qed.

(** An iterator in use by [pb_decode_noinit]: at entry [i], with [pSize] possibly
    redirected for a repeated field. *)
Definition iter_ok (fields : list pb_field_t) (dest : Z) (i : nat) (it : pb_field_iter_t)
    : Prop :=
  ∃ it0, iter_at fields dest i = Some it0 ∧
    (it = it0 ∨
     it = set_pSize PFixedCountSize it0 ∧
     ∃ f, fields !! i = Some f ∧ PB_HTYPE (pf_type f) = PB_HTYPE_REPEATED).

Section search.
Context (fields : list pb_field_t) (Hterm : terminated fields = true) (dest : Z).
Abbreviation len := (n_fields fields).

Lemma iter_at_ok i it : iter_at fields dest i = Some it → iter_ok fields dest i it.
Proof. intros H. exists it. auto. Qed.

Lemma iter_ok_pos i it :
  (i <= len)%nat → iter_ok fields dest i it →
  start it = fields ∧ pos it = i ∧ dest_struct it = dest.
Proof.
  intros Hi (it0 & H & Hit). destruct (iter_at_total fields Hterm dest i Hi) as (it1 & E & P).
  rewrite E in H. injection H as ->. destruct Hit as [->|[-> _]]; exact P.
Qed.

(** The redirection of [pSize] is undone by the next step. *)
Lemma iter_next_ok i it :
  (i < len)%nat → iter_ok fields dest i it →
  ∃ it', iter_at fields dest (if decide (S i < len)%nat then S i else 0%nat) = Some it' ∧
         pb_field_iter_next it = Some (bool_decide (S i < len)%nat, it').
Proof.
  intros Hi (it0 & H & Hit).
  destruct (iter_next_at fields Hterm dest i it0 Hi H) as (it' & E & N).
  exists it'. split; [done|]. rewrite <- N. destruct Hit as [->|[-> (f & Hf & Hr)]]; [done|].
  destruct (iter_at_total fields Hterm dest i) as (it1 & E1 & Hs & Hp & Hd); [lia|].
  rewrite E1 in H. injection H as ->.
  unfold pb_field_iter_next, cur, set_pSize. simpl. rewrite Hs, Hp, Hf. simpl. rewrite Hr.
  change (PB_HTYPE_REPEATED =? PB_HTYPE_ONEOF) with false. simpl.
  by rewrite (proj2 (Z.eqb_neq _ _) (field_tag_nonzero fields Hterm i f Hf Hi)).
Qed.

Definition cyc (i k : nat) : nat := ((i + k) mod len)%nat.

Lemma cyc_step i k : (0 < len)%nat →
  cyc i (S k) = if decide (S (cyc i k) < len)%nat then S (cyc i k) else 0%nat.
Proof.
  intros Hn. unfold cyc. rewrite Nat.add_succ_r.
  pose proof (Nat.mod_upper_bound (i + k) len ltac:(lia)).
  rewrite <- Nat.add_1_r, <- Nat.Div0.add_mod_idemp_l.
  case_decide.
  - rewrite Nat.mod_small; lia.
  - replace ((i + k) mod len + 1)%nat with len by lia. apply Nat.Div0.mod_same.
Qed.

Lemma cyc_return i k : (i < len)%nat → (0 < k <= len)%nat → cyc i k = i → k = len.
Proof.
  unfold cyc. intros Hi Hk H. destruct (decide (k = len)); [done|].
  destruct (decide (i + k < len)%nat).
  - rewrite Nat.mod_small in H; lia.
  - replace (i + k)%nat with ((i + k - len) + 1 * len)%nat in H by lia.
    rewrite Nat.Div0.mod_add, Nat.mod_small in H; lia.
Qed.

Lemma cyc_reaches i j : (i < len)%nat → (j < len)%nat → ∃ k, (k < len)%nat ∧ cyc i k = j.
Proof.
  intros Hi Hj. unfold cyc. destruct (decide (i <= j)%nat).
  - exists (j - i)%nat. split; [lia|]. rewrite Nat.mod_small; lia.
  - exists (j + len - i)%nat. split; [lia|].
    replace (i + (j + len - i))%nat with (j + 1 * len)%nat by lia.
    rewrite Nat.Div0.mod_add, Nat.mod_small; lia.
Qed.

(** What a search started at entry [i] returns. *)
Definition search_result (p : pb_field_t → bool) (i : nat) (it : pb_field_iter_t)
    (r : bool * pb_field_iter_t) : Prop :=
  match r with
  | (true, it') => ∃ k f, (k < len)%nat ∧ fields !! cyc i k = Some f ∧ p f = true ∧
      (∀ k' f', (k' < k)%nat → fields !! cyc i k' = Some f' → p f' = false) ∧
      (if decide (k = 0%nat) then it' = it else iter_at fields dest (cyc i k) = Some it')
  | (false, it') => (∀ j f, (j < len)%nat → fields !! j = Some f → p f = false) ∧
      iter_at fields dest i = Some it'
  end.

Lemma iter_search_loop_spec p i it :
  (i < len)%nat → iter_ok fields dest i it → ∀ fuel k itk,
  (k < len)%nat → (len - k <= fuel)%nat →
  (if decide (k = 0%nat) then itk = it else iter_at fields dest (cyc i k) = Some itk) →
  (∀ k' f', (k' < k)%nat → fields !! cyc i k' = Some f' → p f' = false) →
  ∃ r, iter_search_loop fuel i p itk = Some r ∧ search_result p i it r.
Proof.
  intros Hi Hok. induction fuel as [|fuel IH]; intros k itk Hk Hfuel Hitk Hno; [lia|].
  assert (iter_ok fields dest (cyc i k) itk) as Hokk.
  { case_decide; subst; [|by apply iter_at_ok].
    unfold cyc. by rewrite Nat.add_0_r, Nat.mod_small by lia. }
  assert (cyc i k < len)%nat as Hc by (apply Nat.mod_upper_bound; lia).
  destruct (iter_ok_pos (cyc i k) itk) as (Hs & Hp & Hd); [lia|done|].
  destruct (field_lookup fields Hterm (cyc i k)) as [f Hf]; [lia|].
  cbn [iter_search_loop]. unfold cur. rewrite Hs, Hp, Hf. simpl.
  destruct (p f) eqn:Hpf.
  { eexists. split; [done|]. exists k, f. auto. }
  destruct (iter_next_ok (cyc i k) itk Hc Hokk) as (it' & Hit' & ->). simpl.
  rewrite <- cyc_step in Hit' by lia.
  assert (cyc i (S k) < len)%nat as Hc' by (apply Nat.mod_upper_bound; lia).
  destruct (iter_ok_pos (cyc i (S k)) it') as (_ & -> & _); [lia|by apply iter_at_ok|].
  assert (∀ k' f', (k' < S k)%nat → fields !! cyc i k' = Some f' → p f' = false) as Hno'.
  { intros k' f' Hk' Hf'. destruct (decide (k' = k)) as [->|]; [congruence|].
    apply (Hno k'); [lia|done]. }
  destruct (decide (cyc i (S k) = i)) as [Hback|Hback].
  - eexists. split; [done|]. simpl. apply cyc_return in Hback as Hkn; [|lia..].
    rewrite Hback in Hit'. split; [|done]. intros j g Hj Hg.
    destruct (cyc_reaches i j Hi Hj) as (k' & Hk' & <-). apply (Hno' k'); [lia|done].
  - assert (S k ≠ len).
    { intros E. apply Hback. unfold cyc. rewrite E.
      replace (i + len)%nat with (i + 1 * len)%nat by lia.
      rewrite Nat.Div0.mod_add, Nat.mod_small; lia. }
    apply (IH (S k)); [lia|lia|by rewrite decide_False by lia|done].
Qed.

Lemma iter_search_spec p i it :
  (i < len)%nat → iter_ok fields dest i it →
  ∃ r, iter_search p it = Some r ∧ search_result p i it r.
Proof.
  intros Hi Hok. destruct (iter_ok_pos i it) as (Hs & Hp & Hd); [lia|done|].
  unfold iter_search. rewrite Hs, Hp.
  apply (iter_search_loop_spec p i it Hi Hok _ 0%nat); [lia| |done|lia].
  rewrite (fields_length fields Hterm). lia.
Qed.
End search.
