(* ===== verification/PbStream.v ===== *)
(** The stream objects of nanopb ([pb_decode.h], [pb_encode.h]) and the code of
    the application that nanopb calls through pointers.

    Reading from nanopb input streams (the stream half of [pb_decode.c]): raw
    bytes, variable-length and fixed-width integers, field tags, skipping, and
    substreams; with the laws of these functions on memory buffers.

    Writing to nanopb output streams (the stream half of [pb_encode.c]): raw
    bytes, integers, tags and strings; with the laws of these functions. *)
From S2P Require Import Prelude Mem Pb.
(** * Streams

    [callback] of a stream is a function pointer: [buf_read] or [buf_write] of the
    library, or a function of the application. *)
Inductive stream_callback := CbBuf | CbUser (f : Z).

#[export] Instance stream_callback_eq_dec : EqDecision stream_callback.
Proof. solve_decision. Defined.

(** [state] of an input stream: for [buf_read] a pointer into the buffer, seen as
    the bytes from that pointer to the end of the buffer; otherwise the word the
    application's callback uses. *)
Inductive istate := IBuf (rest : list Z) | IUser (p : Z).

Record pb_istream_t := mk_istream {
  i_callback : stream_callback;
  i_state : istate;
  bytes_left : Z;
  i_errmsg : option string
}.

(** [state] of an output stream: for [buf_write] a pointer into the buffer, seen
    as the bytes already stored before it and the room from it to the end. *)
Inductive ostate := OBuf (out : list Z) (room : Z) | OUser (p : Z) | ONull.

Record pb_ostream_t := mk_ostream {
  o_callback : option stream_callback;
  o_state : ostate;
  max_size : Z;
  bytes_written : Z;
  o_errmsg : option string
}.

(** [PB_OSTREAM_SIZING]. *)
Definition PB_OSTREAM_SIZING : pb_ostream_t := mk_ostream None ONull 0 0 None.

Definition set_istate (st : istate) (s : pb_istream_t) : pb_istream_t :=
  mk_istream (i_callback s) st (bytes_left s) (i_errmsg s).
Definition set_bytes_left (n : Z) (s : pb_istream_t) : pb_istream_t :=
  mk_istream (i_callback s) (i_state s) n (i_errmsg s).
Definition set_ierrmsg (e : option string) (s : pb_istream_t) : pb_istream_t :=
  mk_istream (i_callback s) (i_state s) (bytes_left s) e.
Definition set_ostate (st : ostate) (s : pb_ostream_t) : pb_ostream_t :=
  mk_ostream (o_callback s) st (max_size s) (bytes_written s) (o_errmsg s).
Definition set_bytes_written (n : Z) (s : pb_ostream_t) : pb_ostream_t :=
  mk_ostream (o_callback s) (o_state s) (max_size s) n (o_errmsg s).
Definition set_oerrmsg (e : option string) (s : pb_ostream_t) : pb_ostream_t :=
  mk_ostream (o_callback s) (o_state s) (max_size s) (bytes_written s) e.

(** [PB_SET_ERROR] on a stream. *)
Definition ierror (msg : string) (s : pb_istream_t) : pb_istream_t :=
  set_ierrmsg (PB_SET_ERROR (i_errmsg s) msg) s.
Definition oerror (msg : string) (s : pb_ostream_t) : pb_ostream_t :=
  set_oerrmsg (PB_SET_ERROR (o_errmsg s) msg) s.

(** * The application

    Functions reached through pointers, by the value of the pointer, and the
    constant descriptor arrays that [nanopb_generator] writes, by address.
    [user_read] returns the bytes it stored in the buffer it was given. *)
Class UserCode (W : Type) := {
  user_read : Z → pb_istream_t → Z → M W (bool * pb_istream_t * list Z);
  user_write : Z → pb_ostream_t → list Z → M W (bool * pb_ostream_t);
  user_decode_field : Z → pb_istream_t → pb_field_t → Z → M W (bool * pb_istream_t);
  user_encode_field : Z → pb_ostream_t → pb_field_t → Z → M W (bool * pb_ostream_t);
  user_decode_ext : Z → pb_istream_t → Z → Z → Z → M W (bool * pb_istream_t);
  user_encode_ext : Z → pb_ostream_t → Z → M W (bool * pb_ostream_t);
  fields_at : Z → option (list pb_field_t)
}.

(** An application without callbacks, with the given descriptor arrays, and an
    allocator that grants every request at the first address past all objects. *)
Definition no_callbacks (table : Z → option (list pb_field_t)) : UserCode unit :=
  {| user_read := λ _ _ _, ub;
     user_write := λ _ _ _, ub;
     user_decode_field := λ _ _ _ _, ub;
     user_encode_field := λ _ _ _ _, ub;
     user_decode_ext := λ _ _ _ _ _, ub;
     user_encode_ext := λ _ _ _, ub;
     fields_at := table |}.

(** No callbacks and no submessages. *)
Definition no_application : UserCode unit := no_callbacks (λ _, None).

Definition bump_allocator : Allocator :=
  {| malloc_addr := λ m _ _, Some (map_fold (λ a _ hi, Z.max hi (a + 1)) 4096 m);
     malloc_fill := λ _, 0xAA |}.

(** A machine with nothing in its memory. *)
Definition empty_machine : st unit := mkst ∅ ∅ 0 ().

(** * Reading from nanopb input streams (the stream half of [pb_decode *)
(** Results: [(ok, stream, ...)] gives the value the C function returns and the
    stream object on return; an [option] stands for an output parameter that is
    only assigned when the function returns true. *)
Section read.
Context {W : Type} `{UserCode W}.

(** * Raw bytes *)

Definition buf_read (stream : pb_istream_t) (count : Z)
    : M W (bool * pb_istream_t * list Z) :=
  match i_state stream with
  | IBuf source =>
      if count <=? Z.of_nat (length source) then
        mret (true, set_istate (IBuf (drop (Z.to_nat count) source)) stream,
              take (Z.to_nat count) source)
      else ub
  | IUser _ => ub
  end.

Definition call_read (stream : pb_istream_t) (count : Z)
    : M W (bool * pb_istream_t * list Z) :=
  match i_callback stream with
  | CbBuf => buf_read stream count
  | CbUser f => user_read f stream count
  end.

(** The body of [pb_read] for a non-null buffer or a memory stream; the bytes
    returned are those stored in [buf]. *)
Definition pb_read_buf (stream : pb_istream_t) (count : Z)
    : M W (bool * pb_istream_t * list Z) :=
  if bytes_left stream <? count then mret (false, ierror "end-of-stream" stream, [])
  else
    '(ok, stream, bs) ← call_read stream count;
    if negb ok then mret (false, ierror "io error" stream, bs)
    else mret (true, set_bytes_left (u64 (bytes_left stream - count)) stream, bs).

(** Discarding input of a stream with a callback, 16 bytes at a time. *)
Fixpoint pb_read_skip (fuel : nat) (stream : pb_istream_t) (count : Z)
    : M W (bool * pb_istream_t) :=
  match fuel with
  | O => nofuel
  | S fuel' =>
      if 16 <? count then
        '(ok, stream, _) ← pb_read_buf stream 16;
        if negb ok then mret (false, stream)
        else pb_read_skip fuel' stream (count - 16)
      else
        '(ok, stream, _) ← pb_read_buf stream count;
        mret (ok, stream)
  end.

(** [pb_read(stream, NULL, count)]. *)
Definition pb_read_null (stream : pb_istream_t) (count : Z) : M W (bool * pb_istream_t) :=
  if decide (i_callback stream = CbBuf) then
    '(ok, stream, _) ← pb_read_buf stream count; mret (ok, stream)
  else pb_read_skip (S (Z.to_nat (count / 16))) stream count.

(** [pb_read]; [buf] tells whether the pointer is non-null. *)
Definition pb_read (stream : pb_istream_t) (buf : bool) (count : Z)
    : M W (bool * pb_istream_t * list Z) :=
  if buf then pb_read_buf stream count
  else '(ok, stream) ← pb_read_null stream count; mret (ok, stream, []).

Definition pb_readbyte (stream : pb_istream_t) : M W (pb_istream_t * option Z) :=
  if bytes_left stream =? 0 then mret (ierror "end-of-stream" stream, None)
  else
    '(ok, stream, bs) ← call_read stream 1;
    if negb ok then mret (ierror "io error" stream, None)
    else match bs with
         | [byte] => mret (set_bytes_left (u64 (bytes_left stream - 1)) stream, Some byte)
         | _ => ub
         end.

Definition pb_istream_from_buffer (buf : list Z) (bufsize : Z) : pb_istream_t :=
  {| i_callback := CbBuf; i_state := IBuf buf; bytes_left := bufsize; i_errmsg := None |}.

(** * Variable-length integers *)

(** The multibyte case: the [do] loop and the check that follows it. [bitpos] is
    a [uint_fast8_t], eight bits wide. *)
Fixpoint varint32_loop (fuel : nat) (stream : pb_istream_t) (result bitpos : Z)
    : M W (pb_istream_t * option Z) :=
  match fuel with
  | O => nofuel
  | S fuel' =>
      '(stream, rd) ← pb_readbyte stream;
      match rd with
      | None => mret (stream, None)
      | Some byte =>
          let sign_extension := if bitpos <? 63 then 0xFF else 0x01 in
          if (32 <=? bitpos) && negb (Z.land byte 0x7F =? 0)
             && ((Z.shiftr result 31 =? 0) || negb (byte =? sign_extension))
          then mret (ierror "varint overflow" stream, None)
          else
            let result :=
              if 32 <=? bitpos then result
              else Z.lor result (u32 (Z.shiftl (Z.land byte 0x7F) bitpos)) in
            let bitpos := u8 (bitpos + 7) in
            if negb (Z.land byte 0x80 =? 0) then varint32_loop fuel' stream result bitpos
            else if (bitpos =? 35) && negb (Z.land byte 0x70 =? 0)
            then mret (ierror "varint overflow" stream, None)
            else mret (stream, Some result)
      end
  end.

(** The third result is what the function stores through a non-null [eof], if
    it stores anything. *)
Definition pb_decode_varint32_eof (stream : pb_istream_t)
    : M W (pb_istream_t * option Z * bool) :=
  '(stream, rd) ← pb_readbyte stream;
  match rd with
  | None => mret (stream, None, bytes_left stream =? 0)
  | Some byte =>
      if Z.land byte 0x80 =? 0 then mret (stream, Some byte, false)
      else
        '(stream, r) ← varint32_loop (S (Z.to_nat (bytes_left stream))) stream
                          (Z.land byte 0x7F) 7;
        mret (stream, r, false)
  end.

Definition pb_decode_varint32 (stream : pb_istream_t) : M W (pb_istream_t * option Z) :=
  '(stream, r, _) ← pb_decode_varint32_eof stream; mret (stream, r).

Fixpoint varint_loop (fuel : nat) (stream : pb_istream_t) (result bitpos : Z)
    : M W (pb_istream_t * option Z) :=
  match fuel with
  | O => nofuel
  | S fuel' =>
      if 64 <=? bitpos then mret (ierror "varint overflow" stream, None)
      else
        '(stream, rd) ← pb_readbyte stream;
        match rd with
        | None => mret (stream, None)
        | Some byte =>
            let result := Z.lor result (u64 (Z.shiftl (Z.land byte 0x7F) bitpos)) in
            let bitpos := u8 (bitpos + 7) in
            if negb (Z.land byte 0x80 =? 0) then varint_loop fuel' stream result bitpos
            else mret (stream, Some result)
        end
  end.

(** Ten turns of the loop reach [bitpos] 70. *)
Definition pb_decode_varint (stream : pb_istream_t) : M W (pb_istream_t * option Z) :=
  varint_loop 11 stream 0 0.

Definition pb_decode_svarint (stream : pb_istream_t) : M W (pb_istream_t * option Z) :=
  '(stream, r) ← pb_decode_varint stream;
  match r with
  | None => mret (stream, None)
  | Some value =>
      if negb (Z.land value 1 =? 0)
      then mret (stream, Some (s64 (u64 (Z.lnot (Z.shiftr value 1)))))
      else mret (stream, Some (s64 (Z.shiftr value 1)))
  end.

(** * Skipping and tags *)

Fixpoint skip_varint_loop (fuel : nat) (stream : pb_istream_t) : M W (bool * pb_istream_t) :=
  match fuel with
  | O => nofuel
  | S fuel' =>
      '(ok, stream, bs) ← pb_read stream true 1;
      if negb ok then mret (false, stream)
      else match bs with
           | [byte] => if negb (Z.land byte 0x80 =? 0) then skip_varint_loop fuel' stream
                       else mret (true, stream)
           | _ => ub
           end
  end.

Definition pb_skip_varint (stream : pb_istream_t) : M W (bool * pb_istream_t) :=
  skip_varint_loop (S (Z.to_nat (bytes_left stream))) stream.

Definition pb_skip_string (stream : pb_istream_t) : M W (bool * pb_istream_t) :=
  '(stream, r) ← pb_decode_varint32 stream;
  match r with
  | None => mret (false, stream)
  | Some length => pb_read_null stream length
  end.

(** [(ok, stream, wire_type, tag, eof)]: the output parameters are always set. *)
Definition pb_decode_tag (stream : pb_istream_t)
    : M W (bool * pb_istream_t * Z * Z * bool) :=
  '(stream, r, eof) ← pb_decode_varint32_eof stream;
  match r with
  | None => mret (false, stream, 0, 0, eof)
  | Some temp =>
      if temp =? 0 then mret (false, stream, 0, 0, true)
      else mret (true, stream, Z.land temp 7, Z.shiftr temp 3, false)
  end.

Definition pb_skip_field (stream : pb_istream_t) (wire_type : Z) : M W (bool * pb_istream_t) :=
  if wire_type =? PB_WT_VARINT then pb_skip_varint stream
  else if wire_type =? PB_WT_64BIT then pb_read_null stream 8
  else if wire_type =? PB_WT_STRING then pb_skip_string stream
  else if wire_type =? PB_WT_32BIT then pb_read_null stream 4
  else mret (false, ierror "invalid wire_type" stream).

(** The varint case of [read_raw_value]: [acc] are the bytes stored so far. *)
Fixpoint raw_varint_loop (fuel : nat) (stream : pb_istream_t) (max_size : Z) (acc : list Z)
    : M W (bool * pb_istream_t * list Z) :=
  match fuel with
  | O => nofuel
  | S fuel' =>
      if max_size <? Z.of_nat (length acc) + 1 then mret (false, stream, acc)
      else
        '(ok, stream, bs) ← pb_read stream true 1;
        if negb ok then mret (false, stream, acc)
        else match bs with
             | [byte] =>
                 if negb (Z.land byte 0x80 =? 0)
                 then raw_varint_loop fuel' stream max_size (acc ++ [byte])
                 else mret (true, stream, acc ++ [byte])
             | _ => ub
             end
  end.

(** The bytes of [buf] up to [*size] on return. *)
Definition read_raw_value (stream : pb_istream_t) (wire_type max_size : Z)
    : M W (bool * pb_istream_t * list Z) :=
  if wire_type =? PB_WT_VARINT then raw_varint_loop (S (Z.to_nat max_size)) stream max_size []
  else if wire_type =? PB_WT_64BIT then pb_read stream true 8
  else if wire_type =? PB_WT_32BIT then pb_read stream true 4
  else mret (false, ierror "invalid wire_type" stream, []).

(** * Substreams *)

(** [(stream, Some substream)] when it returns true. *)
Definition pb_make_string_substream (stream : pb_istream_t)
    : M W (pb_istream_t * option pb_istream_t) :=
  '(stream, r) ← pb_decode_varint32 stream;
  match r with
  | None => mret (stream, None)
  | Some size =>
      let substream := stream in
      if bytes_left substream <? size
      then mret (ierror "parent stream too short" stream, None)
      else mret (set_bytes_left (u64 (bytes_left stream - size)) stream,
                 Some (set_bytes_left size substream))
  end.

Definition pb_close_string_substream (stream substream : pb_istream_t)
    : M W (bool * pb_istream_t) :=
  '(ok, substream) ← (if negb (bytes_left substream =? 0)
                      then pb_read_null substream (bytes_left substream)
                      else mret (true, substream));
  if negb ok then mret (false, stream)
  else mret (true, set_ierrmsg (i_errmsg substream)
                     (set_istate (i_state substream) stream)).

(** * Fixed-width integers, stored at [dest] *)

Definition pb_decode_fixed32 (stream : pb_istream_t) (dest : Z) : M W (bool * pb_istream_t) :=
  '(ok, stream, bytes) ← pb_read stream true 4;
  if negb ok then mret (false, stream)
  else match bytes with
       | [b0; b1; b2; b3] =>
           store_uint 4 dest
             (Z.lor (Z.lor (Z.lor (Z.shiftl b0 0) (Z.shiftl b1 8)) (Z.shiftl b2 16))
                (Z.shiftl b3 24));;
           mret (true, stream)
       | _ => ub
       end.

Definition pb_decode_fixed64 (stream : pb_istream_t) (dest : Z) : M W (bool * pb_istream_t) :=
  '(ok, stream, bytes) ← pb_read stream true 8;
  if negb ok then mret (false, stream)
  else match bytes with
       | [b0; b1; b2; b3; b4; b5; b6; b7] =>
           store_uint 8 dest
             (Z.lor (Z.lor (Z.lor (Z.lor (Z.lor (Z.lor (Z.lor (Z.shiftl b0 0)
               (Z.shiftl b1 8)) (Z.shiftl b2 16)) (Z.shiftl b3 24)) (Z.shiftl b4 32))
               (Z.shiftl b5 40)) (Z.shiftl b6 48)) (Z.shiftl b7 56));;
           mret (true, stream)
       | _ => ub
       end.
End read.

(** * Memory buffers

    [buf_stream rest n e]: a stream over a buffer of which [rest] is unread, with
    [n] bytes left to the end of the (sub)stream. *)
Definition buf_stream (rest : list Z) (n : Z) (e : option string) : pb_istream_t :=
  mk_istream CbBuf (IBuf rest) n e.

Section buffer.
Context {W : Type} `{UserCode W}.
Implicit Types s : st W.

Lemma pb_istream_from_buffer_buf bs n : pb_istream_from_buffer bs n = buf_stream bs n None.
Proof. done. Qed.

Lemma readbyte_buf b rest n e s :
  1 <= n < 2 ^ 64 →
  pb_readbyte (buf_stream (b :: rest) n e) s = Ok (buf_stream rest (n - 1) e, Some b, s).
Proof.
  intros Hn. unfold pb_readbyte, buf_stream. cbn [bytes_left].
  rewrite (proj2 (Z.eqb_neq n 0)) by lia.
  unfold call_read, buf_read, mbind, M_bind, mret, M_ret; cbn -[Z.sub].
  rewrite (proj2 (Z.leb_le _ _)) by lia. cbn -[Z.sub]. unfold set_bytes_left. cbn -[Z.sub].
  by rewrite u64_small by lia.
Qed.

Lemma readbyte_end rest e s :
  pb_readbyte (buf_stream rest 0 e) s =
  Ok (buf_stream rest 0 (PB_SET_ERROR e "end-of-stream"), None, s).
Proof. done. Qed.

Lemma read_buf bs rest n e s :
  Z.of_nat (length bs) <= n < 2 ^ 64 →
  pb_read_buf (buf_stream (bs ++ rest) n e) (Z.of_nat (length bs)) s =
  Ok (true, buf_stream rest (n - Z.of_nat (length bs)) e, bs, s).
Proof.
  intros Hn. unfold pb_read_buf, buf_stream. cbn [bytes_left].
  rewrite (proj2 (Z.ltb_ge n _)) by lia.
  unfold call_read, buf_read, mbind, M_bind; cbn -[Z.sub].
  rewrite (proj2 (Z.leb_le _ _)) by (rewrite length_app; lia). cbn -[Z.sub].
  unfold set_bytes_left, set_istate; cbn -[Z.sub].
  by rewrite Nat2Z.id, take_app_length, drop_app_length, u64_small by lia.
Qed.

Lemma read_buf_end rest n k e s :
  n < k →
  pb_read_buf (buf_stream rest n e) k s =
  Ok (false, buf_stream rest n (PB_SET_ERROR e "end-of-stream"), [], s).
Proof. intros Hn. unfold pb_read_buf. simpl. by rewrite (proj2 (Z.ltb_lt n k)) by lia. Qed.

Lemma read_null_buf bs rest n e s :
  Z.of_nat (length bs) <= n < 2 ^ 64 →
  pb_read_null (buf_stream (bs ++ rest) n e) (Z.of_nat (length bs)) s =
  Ok (true, buf_stream rest (n - Z.of_nat (length bs)) e, s).
Proof.
  intros Hn. unfold pb_read_null. rewrite decide_True by done.
  unfold mbind, M_bind. by rewrite read_buf by done.
Qed.
End buffer.

(** * Writing to nanopb output streams (the stream half of [pb_encode *)
(** The [buf] argument of [pb_write]: null, a local array of the caller, or bytes
    of the message, which are read when they are copied out. *)
Inductive wbuf := BNull | BLocal (bs : list Z) | BMem (a : Z).

Section write.
Context {W : Type} `{UserCode W}.

Definition read_wbuf (buf : wbuf) (count : Z) : M W (list Z) :=
  match buf with
  | BNull => if count =? 0 then mret [] else ub
  | BLocal bs => if Z.of_nat (length bs) <? count then ub else mret (take (Z.to_nat count) bs)
  | BMem a => load a (Z.to_nat count)
  end.

Definition buf_write (stream : pb_ostream_t) (bs : list Z) : M W (bool * pb_ostream_t) :=
  match o_state stream with
  | OBuf out room =>
      let count := Z.of_nat (length bs) in
      if count <=? room then mret (true, set_ostate (OBuf (out ++ bs) (room - count)) stream)
      else ub
  | _ => ub
  end.

Definition pb_ostream_from_buffer (bufsize : Z) : pb_ostream_t :=
  {| o_callback := Some CbBuf; o_state := OBuf [] bufsize; max_size := bufsize;
     bytes_written := 0; o_errmsg := None |}.

Definition pb_write (stream : pb_ostream_t) (buf : wbuf) (count : Z)
    : M W (bool * pb_ostream_t) :=
  match o_callback stream with
  | None => mret (true, set_bytes_written (u64 (bytes_written stream + count)) stream)
  | Some cb =>
      if max_size stream <? u64 (bytes_written stream + count)
      then mret (false, oerror "stream full" stream)
      else
        bs ← read_wbuf buf count;
        '(ok, stream) ← match cb with
                        | CbBuf => buf_write stream bs
                        | CbUser f => user_write f stream bs
                        end;
        if negb ok then mret (false, oerror "io error" stream)
        else mret (true, set_bytes_written (u64 (bytes_written stream + count)) stream)
  end.

(** The [while (value)] loop of [pb_encode_varint]: [buffer[0..i)] on exit. *)
Fixpoint varint_bytes_loop (fuel : nat) (value : Z) : list Z :=
  match fuel with
  | O => []
  | S fuel' =>
      if value =? 0 then []
      else Z.lor (Z.land value 0x7F) 0x80 :: varint_bytes_loop fuel' (Z.shiftr value 7)
  end.

(** [buffer[i-1] &= 0x7F]. *)
Fixpoint clear_last (bs : list Z) : list Z :=
  match bs with
  | [] => []
  | [b] => [Z.land b 0x7F]
  | b :: bs' => b :: clear_last bs'
  end.

(** [buffer] has ten elements: a 64-bit value takes at most ten turns. *)
Definition pb_encode_varint (stream : pb_ostream_t) (value : Z) : M W (bool * pb_ostream_t) :=
  if value <=? 0x7F then pb_write stream (BLocal [u8 value]) 1
  else
    let buffer := clear_last (varint_bytes_loop 10 value) in
    pb_write stream (BLocal buffer) (Z.of_nat (length buffer)).

Definition pb_encode_svarint (stream : pb_ostream_t) (value : Z) : M W (bool * pb_ostream_t) :=
  let zigzagged :=
    if value <? 0 then u64 (Z.lnot (u64 (Z.shiftl (u64 value) 1)))
    else u64 (Z.shiftl (u64 value) 1) in
  pb_encode_varint stream zigzagged.

Definition pb_encode_fixed32 (stream : pb_ostream_t) (value : Z) : M W (bool * pb_ostream_t) :=
  val ← load_uint 4 value;
  pb_write stream
    (BLocal [u8 (Z.land val 0xFF); u8 (Z.land (Z.shiftr val 8) 0xFF);
             u8 (Z.land (Z.shiftr val 16) 0xFF); u8 (Z.land (Z.shiftr val 24) 0xFF)]) 4.

Definition pb_encode_fixed64 (stream : pb_ostream_t) (value : Z) : M W (bool * pb_ostream_t) :=
  val ← load_uint 8 value;
  pb_write stream
    (BLocal [u8 (Z.land val 0xFF); u8 (Z.land (Z.shiftr val 8) 0xFF);
             u8 (Z.land (Z.shiftr val 16) 0xFF); u8 (Z.land (Z.shiftr val 24) 0xFF);
             u8 (Z.land (Z.shiftr val 32) 0xFF); u8 (Z.land (Z.shiftr val 40) 0xFF);
             u8 (Z.land (Z.shiftr val 48) 0xFF); u8 (Z.land (Z.shiftr val 56) 0xFF)]) 8.

Definition pb_encode_tag (stream : pb_ostream_t) (wiretype field_number : Z)
    : M W (bool * pb_ostream_t) :=
  let tag := Z.lor (u64 (Z.shiftl field_number 3)) wiretype in
  pb_encode_varint stream tag.

(** The wire type of a descriptor, if its LTYPE has one. *)
Definition wire_type_of (ltype : Z) : option Z :=
  if (ltype =? PB_LTYPE_VARINT) || (ltype =? PB_LTYPE_UVARINT) || (ltype =? PB_LTYPE_SVARINT)
  then Some PB_WT_VARINT
  else if ltype =? PB_LTYPE_FIXED32 then Some PB_WT_32BIT
  else if ltype =? PB_LTYPE_FIXED64 then Some PB_WT_64BIT
  else if (ltype =? PB_LTYPE_BYTES) || (ltype =? PB_LTYPE_STRING)
          || (ltype =? PB_LTYPE_SUBMESSAGE) || (ltype =? PB_LTYPE_FIXED_LENGTH_BYTES)
  then Some PB_WT_STRING
  else None.

Definition pb_encode_tag_for_field (stream : pb_ostream_t) (field : pb_field_t)
    : M W (bool * pb_ostream_t) :=
  match wire_type_of (PB_LTYPE (pf_type field)) with
  | Some wiretype => pb_encode_tag stream wiretype (pf_tag field)
  | None => mret (false, oerror "invalid field type" stream)
  end.

Definition pb_encode_string (stream : pb_ostream_t) (buffer : wbuf) (size : Z)
    : M W (bool * pb_ostream_t) :=
  '(ok, stream) ← pb_encode_varint stream size;
  if negb ok then mret (false, stream)
  else pb_write stream buffer size.
End write.
