(* ===== verification/PbDecode.v ===== *)
(** The message decoder of nanopb (the field and message half of [pb_decode.c]),
    one definition per C function.

    The C functions are mutually recursive through submessages and extensions.
    Here a function takes what it calls back into as an argument, and the knot is
    tied by fuel: [n] bounds the nesting of messages and the length of extension
    lists. Loops over input take their fuel from the bytes left, loops over
    descriptors from the length of the array. *)
From S2P Require Import Prelude Mem Pb PbIter PbStream.

Section decode.
Context {W : Type} `{UserCode W} `{Allocator}.

Definition decoder : Type := pb_istream_t → pb_field_t → Z → M W (bool * pb_istream_t).
(** The type of [pb_decode] and [pb_decode_noinit]. *)
Definition msg_decoder : Type :=
  pb_istream_t → list pb_field_t → Z → M W (bool * pb_istream_t).

Definition fail (stream : pb_istream_t) (msg : string) : M W (bool * pb_istream_t) :=
  mret (false, ierror msg stream).

(** The descriptor array at an address. *)
Definition fields_of (p : Z) : M W (list pb_field_t) := opt (fields_at p).

(** [*iter->pos]. *)
Definition field_of (it : pb_field_iter_t) : M W pb_field_t := opt (cur it).

(** Assignment to the local variable [fixed_count_size]. *)
Definition set_fixed_count_size (v : Z) : M W unit := λ s, Ok (tt, set_fixed (u32 v) s).

(** [*(pb_size_t* )iter->pSize]. *)
Definition load_pSize (it : pb_field_iter_t) : M W Z :=
  match pSize it with
  | PAddr a => load_size a
  | PFixedCountSize => gets fixed_count_size
  end.
Definition store_pSize (it : pb_field_iter_t) (v : Z) : M W unit :=
  match pSize it with
  | PAddr a => store_size a v
  | PFixedCountSize => set_fixed_count_size v
  end.
(** [*(bool* )iter->pSize = true/false]. *)
Definition store_has (it : pb_field_iter_t) (b : bool) : M W unit :=
  match pSize it with
  | PAddr a => store_bool a b
  | PFixedCountSize => ub
  end.

(** [do f(&iter) while (pb_field_iter_next(&iter))]. *)
Fixpoint iter_loop (fuel : nat) (f : pb_field_iter_t → M W unit) (it : pb_field_iter_t)
    : M W unit :=
  match fuel with
  | O => nofuel
  | S fuel' =>
      f it;;
      '(more, it) ← opt (pb_field_iter_next it);
      if (more : bool) then iter_loop fuel' f it else mret tt
  end.

(** [while (ext != NULL) f(ext), ext = ext->next]. *)
Fixpoint ext_loop (fuel : nat) (f : Z → M W unit) (ext : Z) : M W unit :=
  match fuel with
  | O => nofuel
  | S fuel' =>
      if ext =? 0 then mret tt
      else f ext;; next ← load_ptr (ext_next ext); ext_loop fuel' f next
  end.

(** * Extensions *)

Definition ext_fields (extension : Z) : M W (list pb_field_t) :=
  ty ← load_ptr (ext_type extension);
  arg ← load_ptr (ext_type_arg ty);
  fields_of arg.

Definition iter_from_extension (extension : Z) : M W pb_field_iter_t :=
  fields ← ext_fields extension;
  dest ← load_ptr (ext_dest extension);
  '(_, it) ← opt (pb_field_iter_begin fields dest);
  field ← field_of it;
  let it := set_pSize (PAddr (ext_found extension)) (set_pData dest it) in
  if PB_ATYPE (pf_type field) =? PB_ATYPE_POINTER
  then mret (set_pData (ext_dest extension) it)
  else mret it.

Definition find_extension_field (it : pb_field_iter_t) : M W (bool * pb_field_iter_t) :=
  opt (iter_search (λ f, PB_LTYPE (pf_type f) =? PB_LTYPE_EXTENSION) it).

(** * Default values *)

Definition message_set_to_defaults_with (set_default : pb_field_iter_t → M W unit)
    (fields : list pb_field_t) (dest : Z) : M W unit :=
  '(nonempty, it) ← opt (pb_field_iter_begin fields dest);
  if (nonempty : bool) then iter_loop (length fields) set_default it else mret tt.

Fixpoint pb_field_set_to_default (n : nat) (it : pb_field_iter_t) : M W unit :=
  match n with
  | O => nofuel
  | S n' =>
      field ← field_of it;
      let type := pf_type field in
      if PB_LTYPE type =? PB_LTYPE_EXTENSION then
        ext ← load_ptr (pData it);
        ext_loop n' (λ ext,
          store_bool (ext_found ext) false;;
          ext_it ← iter_from_extension ext;
          pb_field_set_to_default n' ext_it) ext
      else if PB_ATYPE type =? PB_ATYPE_STATIC then
        init_data ←
          (if (PB_HTYPE type =? PB_HTYPE_OPTIONAL)
              && negb (bool_decide (pSize it = PAddr (pData it)))
           then store_has it false;; mret true
           else if (PB_HTYPE type =? PB_HTYPE_REPEATED) || (PB_HTYPE type =? PB_HTYPE_ONEOF)
           then store_pSize it 0;; mret false
           else mret true);
        if (init_data : bool) then
          if PB_LTYPE type =? PB_LTYPE_SUBMESSAGE then
            sub ← fields_of (pf_ptr field);
            message_set_to_defaults_with (pb_field_set_to_default n') sub (pData it)
          else if negb (pf_ptr field =? 0) then
            memcpy (pData it) (pf_ptr field) (pf_data_size field)
          else memset (pData it) 0 (pf_data_size field)
        else mret tt
      else if PB_ATYPE type =? PB_ATYPE_POINTER then
        store_ptr (pData it) 0;;
        if (PB_HTYPE type =? PB_HTYPE_REPEATED) || (PB_HTYPE type =? PB_HTYPE_ONEOF)
        then store_pSize it 0
        else mret tt
      else mret tt
  end.

Definition pb_message_set_to_defaults (n : nat) : list pb_field_t → Z → M W unit :=
  message_set_to_defaults_with (pb_field_set_to_default n).

(** * Releasing allocated fields *)

Definition release_with (release_field : pb_field_iter_t → M W unit)
    (fields : list pb_field_t) (dest : Z) : M W unit :=
  if dest =? 0 then mret tt
  else
    '(nonempty, it) ← opt (pb_field_iter_begin fields dest);
    if (nonempty : bool) then iter_loop (length fields) release_field it else mret tt.

(** [while (count--)] over submessages [size] bytes apart. *)
Fixpoint release_items (count : nat) (release : Z → M W unit) (pItem size : Z) : M W unit :=
  match count with
  | O => mret tt
  | S count' => release pItem;; release_items count' release (pItem + size) size
  end.

(** [while (count--) { pb_free( *pItem); *pItem++ = NULL; }]. *)
Fixpoint free_items (count : nat) (pItem : Z) : M W unit :=
  match count with
  | O => mret tt
  | S count' =>
      p ← load_ptr pItem; free p;; store_ptr pItem 0;;
      free_items count' (pItem + sizeof_ptr)
  end.

Fixpoint pb_release_single_field (n : nat) (it : pb_field_iter_t) : M W unit :=
  match n with
  | O => nofuel
  | S n' =>
      field ← field_of it;
      let type := pf_type field in
      current ← (if PB_HTYPE type =? PB_HTYPE_ONEOF
                 then which ← load_pSize it; mret (which =? pf_tag field)
                 else mret true);
      if negb current then mret tt
      else
        (if PB_LTYPE type =? PB_LTYPE_EXTENSION then
           ext ← load_ptr (pData it);
           ext_loop n' (λ ext,
             ext_it ← iter_from_extension ext; pb_release_single_field n' ext_it) ext
         else if PB_LTYPE type =? PB_LTYPE_SUBMESSAGE then
           pItem ← (if PB_ATYPE type =? PB_ATYPE_POINTER then load_ptr (pData it)
                    else mret (pData it));
           count ←
             (if PB_HTYPE type =? PB_HTYPE_REPEATED then
                count ← (if (PB_ATYPE type =? PB_ATYPE_STATIC)
                            && bool_decide (pSize it = PAddr (pData it))
                         then mret (pf_array_size field) else load_pSize it);
                if (PB_ATYPE type =? PB_ATYPE_STATIC) && (pf_array_size field <? count)
                then mret (pf_array_size field) else mret count
              else mret 1);
           if pItem =? 0 then mret tt
           else
             sub ← fields_of (pf_ptr field);
             release_items (Z.to_nat count)
               (release_with (pb_release_single_field n') sub) pItem (pf_data_size field)
         else mret tt);;
        if PB_ATYPE type =? PB_ATYPE_POINTER then
          (if (PB_HTYPE type =? PB_HTYPE_REPEATED)
              && ((PB_LTYPE type =? PB_LTYPE_STRING) || (PB_LTYPE type =? PB_LTYPE_BYTES))
           then
             pItem ← load_ptr (pData it);
             count ← load_pSize it;
             free_items (Z.to_nat count) pItem
           else mret tt);;
          (if PB_HTYPE type =? PB_HTYPE_REPEATED then store_pSize it 0 else mret tt);;
          p ← load_ptr (pData it);
          free p;;
          store_ptr (pData it) 0
        else mret tt
  end.

Definition pb_release (n : nat) : list pb_field_t → Z → M W unit :=
  release_with (pb_release_single_field n).

Definition pb_release_union_field (n : nat) (stream : pb_istream_t) (it : pb_field_iter_t)
    : M W (bool * pb_istream_t * pb_field_iter_t) :=
  field ← field_of it;
  old_tag ← load_pSize it;
  let new_tag := pf_tag field in
  if old_tag =? 0 then mret (true, stream, it)
  else if old_tag =? new_tag then mret (true, stream, it)
  else
    '(found, it) ← opt (pb_field_iter_find it old_tag);
    if negb found then mret (false, ierror "invalid union tag" stream, it)
    else
      pb_release_single_field n it;;
      '(found, it) ← opt (pb_field_iter_find it new_tag);
      if negb found then mret (false, ierror "iterator error" stream, it)
      else mret (true, stream, it).

(** * Dynamic allocation *)

(** [sizeof(size_t)] is 8. *)
Definition allocate_field (stream : pb_istream_t) (pData data_size array_size : Z)
    : M W (bool * pb_istream_t) :=
  ptr ← load_ptr pData;
  if (data_size =? 0) || (array_size =? 0) then fail stream "invalid size"
  else
    let check_limit := Z.shiftl 1 (8 * 4) in
    let size_max := u64 (-1) in
    if ((check_limit <=? data_size) || (check_limit <=? array_size))
       && (size_max / array_size <? data_size)
    then fail stream "size too large"
    else
      ptr ← realloc ptr (u64 (array_size * data_size));
      if ptr =? 0 then fail stream "realloc failed"
      else store_ptr pData ptr;; mret (true, stream).

Definition initialize_pointer_field (n : nat) (pItem : Z) (it : pb_field_iter_t) : M W unit :=
  field ← field_of it;
  let ltype := PB_LTYPE (pf_type field) in
  if (ltype =? PB_LTYPE_STRING) || (ltype =? PB_LTYPE_BYTES) then store_ptr pItem 0
  else if ltype =? PB_LTYPE_SUBMESSAGE then
    memset pItem 0 (pf_data_size field);;
    sub ← fields_of (pf_ptr field);
    pb_message_set_to_defaults n sub pItem
  else mret tt.

(** * Field decoders *)

(** [clamped = *(intN_t* )dest = (intN_t)value], then the overflow check. *)
Definition store_clamped (stream : pb_istream_t) (size : nat) (dest clamped value : Z)
    : M W (bool * pb_istream_t) :=
  store_uint size dest clamped;;
  if negb (clamped =? value) then fail stream "integer too large" else mret (true, stream).

Definition pb_dec_varint : decoder := λ stream field dest,
  '(stream, r) ← pb_decode_varint stream;
  match r with
  | None => mret (false, stream)
  | Some value =>
      let ds := pf_data_size field in
      let svalue := if ds =? 8 then s64 value else s32 value in
      if ds =? 8 then store_clamped stream 8 dest svalue svalue
      else if ds =? 4 then store_clamped stream 4 dest (s32 svalue) svalue
      else if ds =? 2 then store_clamped stream 2 dest (s16 svalue) svalue
      else if ds =? 1 then store_clamped stream 1 dest (s8 svalue) svalue
      else fail stream "invalid data_size"
  end.

Definition pb_dec_uvarint : decoder := λ stream field dest,
  '(stream, r) ← pb_decode_varint stream;
  match r with
  | None => mret (false, stream)
  | Some value =>
      let ds := pf_data_size field in
      if ds =? 8 then store_clamped stream 8 dest value value
      else if ds =? 4 then store_clamped stream 4 dest (u32 value) value
      else if ds =? 2 then store_clamped stream 2 dest (u16 value) value
      else if ds =? 1 then store_clamped stream 1 dest (u8 value) value
      else fail stream "invalid data_size"
  end.

Definition pb_dec_svarint : decoder := λ stream field dest,
  '(stream, r) ← pb_decode_svarint stream;
  match r with
  | None => mret (false, stream)
  | Some value =>
      let ds := pf_data_size field in
      if ds =? 8 then store_clamped stream 8 dest value value
      else if ds =? 4 then store_clamped stream 4 dest (s32 value) value
      else if ds =? 2 then store_clamped stream 2 dest (s16 value) value
      else if ds =? 1 then store_clamped stream 1 dest (s8 value) value
      else fail stream "invalid data_size"
  end.

Definition pb_dec_fixed32 : decoder := λ stream _ dest, pb_decode_fixed32 stream dest.
Definition pb_dec_fixed64 : decoder := λ stream _ dest, pb_decode_fixed64 stream dest.

(** [pb_read(stream, dest, count)] into the message. *)
Definition read_into (stream : pb_istream_t) (dest count : Z) : M W (bool * pb_istream_t) :=
  '(ok, stream, bs) ← pb_read stream true count;
  store dest bs;; mret (ok, stream).

Definition pb_dec_bytes : decoder := λ stream field dest,
  '(stream, r) ← pb_decode_varint32 stream;
  match r with
  | None => mret (false, stream)
  | Some size =>
      if PB_SIZE_MAX <? size then fail stream "bytes overflow"
      else
        let alloc_size := PB_BYTES_ARRAY_T_ALLOCSIZE size in
        if alloc_size <? size then fail stream "size too large"
        else
          '(ok, stream, bdest) ←
            (if PB_ATYPE (pf_type field) =? PB_ATYPE_POINTER then
               '(ok, stream) ← allocate_field stream dest alloc_size 1;
               if negb ok then mret (false, stream, 0)
               else p ← load_ptr dest; mret (true, stream, p)
             else if pf_data_size field <? alloc_size
               then mret (false, ierror "bytes overflow" stream, 0)
               else mret (true, stream, dest));
          if negb ok then mret (false, stream)
          else
            store_size bdest size;;
            read_into stream (bdest + offsetof_bytes) size
  end.

Definition pb_dec_string : decoder := λ stream field dest,
  '(stream, r) ← pb_decode_varint32 stream;
  match r with
  | None => mret (false, stream)
  | Some size =>
      let alloc_size := u32 (size + 1) in
      if alloc_size <? size then fail stream "size too large"
      else
        '(ok, stream, dest) ←
          (if PB_ATYPE (pf_type field) =? PB_ATYPE_POINTER then
             '(ok, stream) ← allocate_field stream dest alloc_size 1;
             if negb ok then mret (false, stream, 0)
             else p ← load_ptr dest; mret (true, stream, p)
           else if pf_data_size field <? alloc_size
             then mret (false, ierror "string overflow" stream, 0)
             else mret (true, stream, dest));
        if negb ok then mret (false, stream)
        else
          '(status, stream) ← read_into stream dest size;
          store_uint 1 (dest + size) 0;;
          mret (status, stream)
  end.

Definition pb_dec_submessage (decode noinit : msg_decoder) : decoder :=
  λ stream field dest,
  '(stream, sub) ← pb_make_string_substream stream;
  match sub with
  | None => mret (false, stream)
  | Some substream =>
      if pf_ptr field =? 0 then fail stream "invalid field descriptor"
      else
        submsg_fields ← fields_of (pf_ptr field);
        '(status, substream) ←
          (if PB_HTYPE (pf_type field) =? PB_HTYPE_REPEATED
           then decode substream submsg_fields dest
           else noinit substream submsg_fields dest);
        '(ok, stream) ← pb_close_string_substream stream substream;
        if negb ok then mret (false, stream) else mret (status, stream)
  end.

Definition pb_dec_fixed_length_bytes : decoder := λ stream field dest,
  '(stream, r) ← pb_decode_varint32 stream;
  match r with
  | None => mret (false, stream)
  | Some size =>
      if PB_SIZE_MAX <? size then fail stream "bytes overflow"
      else if size =? 0 then memset dest 0 (pf_data_size field);; mret (true, stream)
      else if negb (size =? pf_data_size field)
        then fail stream "incorrect fixed length bytes size"
      else read_into stream dest (pf_data_size field)
  end.

Definition PB_DECODERS (decode noinit : msg_decoder) : list (option decoder) :=
  [Some pb_dec_varint; Some pb_dec_uvarint; Some pb_dec_svarint; Some pb_dec_fixed32;
   Some pb_dec_fixed64; Some pb_dec_bytes; Some pb_dec_string;
   Some (pb_dec_submessage decode noinit); None; Some pb_dec_fixed_length_bytes].

(** Fetching [PB_DECODERS[PB_LTYPE(type)]], and calling through the pointer. *)
Definition decoder_of (decode noinit : msg_decoder) (type : Z) : M W (option decoder) :=
  opt (PB_DECODERS decode noinit !! Z.to_nat (PB_LTYPE type)).
Definition call (func : option decoder) : decoder := λ stream field dest,
  match func with Some f => f stream field dest | None => ub end.

(** * Decoding one field *)

(** The [while] loop over a packed array in a static field. *)
Fixpoint packed_static_loop (fuel : nat) (func : option decoder) (it : pb_field_iter_t)
    (field : pb_field_t) (substream : pb_istream_t) : M W (bool * pb_istream_t) :=
  match fuel with
  | O => nofuel
  | S fuel' =>
      size ← load_pSize it;
      if (0 <? bytes_left substream) && (size <? pf_array_size field) then
        let pItem := pData it + u32 (pf_data_size field * size) in
        '(ok, substream) ← call func substream field pItem;
        if negb ok then mret (false, substream)
        else
          size ← load_pSize it;
          store_pSize it (u32 (size + 1));;
          packed_static_loop fuel' func it field substream
      else mret (true, substream)
  end.

Definition decode_static_field (n : nat) (decode noinit : msg_decoder)
    (stream : pb_istream_t) (wire_type : Z) (it : pb_field_iter_t)
    : M W (bool * pb_istream_t) :=
  field ← field_of it;
  let type := pf_type field in
  func ← decoder_of decode noinit type;
  let htype := PB_HTYPE type in
  if htype =? PB_HTYPE_REQUIRED then call func stream field (pData it)
  else if htype =? PB_HTYPE_OPTIONAL then
    (if bool_decide (pSize it = PAddr (pData it)) then mret tt else store_has it true);;
    call func stream field (pData it)
  else if htype =? PB_HTYPE_REPEATED then
    if (wire_type =? PB_WT_STRING) && (PB_LTYPE type <=? PB_LTYPE_LAST_PACKABLE) then
      '(stream, sub) ← pb_make_string_substream stream;
      match sub with
      | None => mret (false, stream)
      | Some substream =>
          '(status, substream) ←
            packed_static_loop (S (Z.to_nat (bytes_left substream))) func it field substream;
          if negb (bytes_left substream =? 0) then fail stream "array overflow"
          else
            '(ok, stream) ← pb_close_string_substream stream substream;
            if negb ok then mret (false, stream) else mret (status, stream)
      end
    else
      size ← load_pSize it;
      let pItem := pData it + u32 (pf_data_size field * size) in
      store_pSize it (u32 (size + 1));;
      if pf_array_size field <=? size then fail stream "array overflow"
      else call func stream field pItem
  else if htype =? PB_HTYPE_ONEOF then
    store_pSize it (pf_tag field);;
    (if PB_LTYPE type =? PB_LTYPE_SUBMESSAGE then
       memset (pData it) 0 (pf_data_size field);;
       sub ← fields_of (pf_ptr field);
       pb_message_set_to_defaults n sub (pData it)
     else mret tt);;
    call func stream field (pData it)
  else fail stream "invalid field type".

(** The [while] loop over a packed array in a dynamically allocated field:
    [(status, stream, substream)] on exit. *)
Fixpoint packed_pointer_loop (fuel n : nat) (func : option decoder) (it : pb_field_iter_t)
    (field : pb_field_t) (allocated_size : Z) (stream substream : pb_istream_t)
    : M W (bool * pb_istream_t * pb_istream_t) :=
  match fuel with
  | O => nofuel
  | S fuel' =>
      if bytes_left substream =? 0 then mret (true, stream, substream)
      else
        size ← load_pSize it;
        '(ok, substream, allocated_size) ←
          (if allocated_size <? size + 1 then
             if pf_data_size field =? 0 then ub
             else
               let allocated_size :=
                 u64 (allocated_size + ((bytes_left substream - 1) / pf_data_size field + 1)) in
               '(ok, substream) ←
                 allocate_field substream (pData it) (pf_data_size field) allocated_size;
               mret (ok, substream, allocated_size)
           else mret (true, substream, allocated_size));
        if negb ok then mret (false, stream, substream)
        else
          p ← load_ptr (pData it);
          size ← load_pSize it;
          let pItem := p + u32 (pf_data_size field * size) in
          initialize_pointer_field n pItem it;;
          '(ok, substream) ← call func substream field pItem;
          if negb ok then mret (false, stream, substream)
          else
            size ← load_pSize it;
            if size =? PB_SIZE_MAX
            then mret (false, set_ierrmsg (Some "too many array entries") stream, substream)
            else
              store_pSize it (u32 (size + 1));;
              packed_pointer_loop fuel' n func it field allocated_size stream substream
  end.

Definition decode_pointer_field (n : nat) (decode noinit : msg_decoder)
    (stream : pb_istream_t) (wire_type : Z) (it : pb_field_iter_t)
    : M W (bool * pb_istream_t) :=
  field ← field_of it;
  let type := pf_type field in
  func ← decoder_of decode noinit type;
  let htype := PB_HTYPE type in
  let ltype := PB_LTYPE type in
  if (htype =? PB_HTYPE_REQUIRED) || (htype =? PB_HTYPE_OPTIONAL) || (htype =? PB_HTYPE_ONEOF)
  then
    (if ltype =? PB_LTYPE_SUBMESSAGE then
       p ← load_ptr (pData it);
       if negb (p =? 0) then pb_release_single_field n it else mret tt
     else mret tt);;
    (if htype =? PB_HTYPE_ONEOF then store_pSize it (pf_tag field) else mret tt);;
    if (ltype =? PB_LTYPE_STRING) || (ltype =? PB_LTYPE_BYTES)
    then call func stream field (pData it)
    else
      '(ok, stream) ← allocate_field stream (pData it) (pf_data_size field) 1;
      if negb ok then mret (false, stream)
      else
        p ← load_ptr (pData it);
        initialize_pointer_field n p it;;
        p ← load_ptr (pData it);
        call func stream field p
  else if htype =? PB_HTYPE_REPEATED then
    if (wire_type =? PB_WT_STRING) && (ltype <=? PB_LTYPE_LAST_PACKABLE) then
      allocated_size ← load_pSize it;
      '(stream, sub) ← pb_make_string_substream stream;
      match sub with
      | None => mret (false, stream)
      | Some substream =>
          '(status, stream, substream) ←
            packed_pointer_loop (S (Z.to_nat (bytes_left substream))) n func it field
              allocated_size stream substream;
          '(ok, stream) ← pb_close_string_substream stream substream;
          if negb ok then mret (false, stream) else mret (status, stream)
      end
    else
      size ← load_pSize it;
      if size =? PB_SIZE_MAX then fail stream "too many array entries"
      else
        store_pSize it (u32 (size + 1));;
        size ← load_pSize it;
        '(ok, stream) ← allocate_field stream (pData it) (pf_data_size field) size;
        if negb ok then mret (false, stream)
        else
          p ← load_ptr (pData it);
          size ← load_pSize it;
          let pItem := p + u32 (pf_data_size field * u32 (size - 1)) in
          initialize_pointer_field n pItem it;;
          call func stream field pItem
  else fail stream "invalid field type".

(** [do { callback } while (substream.bytes_left)]: a callback that consumes
    nothing and returns true is called for ever, hence the fuel [n]. *)
Fixpoint callback_loop (n : nat) (pCallback : Z) (field : pb_field_t)
    (substream : pb_istream_t) : M W (bool * pb_istream_t) :=
  match n with
  | O => nofuel
  | S n' =>
      fn ← load_ptr (pb_callback_funcs pCallback);
      '(ok, substream) ← user_decode_field fn substream field (pb_callback_arg pCallback);
      if negb ok then mret (false, substream)
      else if negb (bytes_left substream =? 0) then callback_loop n' pCallback field substream
      else mret (true, substream)
  end.

Definition decode_callback_field (n : nat) (stream : pb_istream_t) (wire_type : Z)
    (it : pb_field_iter_t) : M W (bool * pb_istream_t) :=
  field ← field_of it;
  let pCallback := pData it in
  fn ← (if pCallback =? 0 then mret 0 else load_ptr (pb_callback_funcs pCallback));
  if fn =? 0 then pb_skip_field stream wire_type
  else if wire_type =? PB_WT_STRING then
    '(stream, sub) ← pb_make_string_substream stream;
    match sub with
    | None => mret (false, stream)
    | Some substream =>
        '(ok, substream) ← callback_loop n pCallback field substream;
        if negb ok then fail stream "callback failed"
        else pb_close_string_substream stream substream
    end
  else
    '(ok, stream, buffer) ← read_raw_value stream wire_type 10;
    if negb ok then mret (false, stream)
    else
      let substream := pb_istream_from_buffer buffer (Z.of_nat (length buffer)) in
      '(ok, _) ← user_decode_field fn substream field (pb_callback_arg pCallback);
      mret (ok, stream).

Definition decode_field (n : nat) (decode noinit : msg_decoder)
    (stream : pb_istream_t) (wire_type : Z) (it : pb_field_iter_t)
    : M W (bool * pb_istream_t * pb_field_iter_t) :=
  field ← field_of it;
  '(ok, stream, it) ←
    (if PB_HTYPE (pf_type field) =? PB_HTYPE_ONEOF
     then pb_release_union_field n stream it else mret (true, stream, it));
  if negb ok then mret (false, stream, it)
  else
    field ← field_of it;
    let atype := PB_ATYPE (pf_type field) in
    '(ok, stream) ←
      (if atype =? PB_ATYPE_STATIC then decode_static_field n decode noinit stream wire_type it
       else if atype =? PB_ATYPE_POINTER
       then decode_pointer_field n decode noinit stream wire_type it
       else if atype =? PB_ATYPE_CALLBACK then decode_callback_field n stream wire_type it
       else fail stream "invalid field type");
    mret (ok, stream, it).

Definition default_extension_decoder (n : nat) (decode noinit : msg_decoder)
    (stream : pb_istream_t) (extension tag wire_type : Z) : M W (bool * pb_istream_t) :=
  fields ← ext_fields extension;
  field ← opt (fields !! 0%nat);
  if negb (pf_tag field =? tag) then mret (true, stream)
  else
    it ← iter_from_extension extension;
    store_bool (ext_found extension) true;;
    '(ok, stream, _) ← decode_field n decode noinit stream wire_type it;
    mret (ok, stream).

Fixpoint decode_extension_loop (fuel n : nat) (decode noinit : msg_decoder)
    (stream : pb_istream_t) (tag wire_type pos extension : Z) : M W (bool * pb_istream_t) :=
  match fuel with
  | O => nofuel
  | S fuel' =>
      if negb (extension =? 0) && (pos =? bytes_left stream) then
        ty ← load_ptr (ext_type extension);
        fn ← load_ptr (ext_type_decode ty);
        '(status, stream) ←
          (if negb (fn =? 0) then user_decode_ext fn stream extension tag wire_type
           else default_extension_decoder n decode noinit stream extension tag wire_type);
        if negb status then mret (false, stream)
        else
          next ← load_ptr (ext_next extension);
          decode_extension_loop fuel' n decode noinit stream tag wire_type pos next
      else mret (true, stream)
  end.

Definition decode_extension (n : nat) (decode noinit : msg_decoder)
    (stream : pb_istream_t) (tag wire_type : Z) (it : pb_field_iter_t)
    : M W (bool * pb_istream_t) :=
  extension ← load_ptr (pData it);
  decode_extension_loop n n decode noinit stream tag wire_type (bytes_left stream) extension.

(** * Decoding all fields *)

(** The local variables of [pb_decode_noinit]; [fixed_count_field] points into
    the array [fields], and [fixed_count_size] is kept in the machine state,
    where [iter.pSize] can point at it. *)
Record decode_state := mk_decode_state {
  ds_stream : pb_istream_t;
  ds_iter : pb_field_iter_t;
  fields_seen : list Z;
  extension_range_start : Z;
  fixed_count_field : option nat
}.

(** How a turn of the main loop ends: [continue] or its end, [break], or
    [return false]. *)
Inductive turn := Continue (d : decode_state) | Break (d : decode_state)
                | ReturnFalse (stream : pb_istream_t).

(** [fixed_count_field != NULL && fixed_count_size != fixed_count_field->array_size] *)
Definition fixed_count_incomplete (fields : list pb_field_t) (fcf : option nat) : M W bool :=
  match fcf with
  | None => mret false
  | Some i =>
      f ← opt (fields !! i);
      size ← gets fixed_count_size;
      mret (negb (size =? pf_array_size f))
  end.

(** No field has this tag: extensions, or skip. *)
Definition decode_unknown (n : nat) (decode noinit : msg_decoder) (d : decode_state)
    (tag wire_type : Z) : M W turn :=
  let skip (d : decode_state) : M W turn :=
    '(ok, stream) ← pb_skip_field (ds_stream d) wire_type;
    if negb ok then mret (ReturnFalse stream)
    else mret (Continue (mk_decode_state stream (ds_iter d) (fields_seen d)
                           (extension_range_start d) (fixed_count_field d))) in
  if extension_range_start d <=? tag then
    '(found, it) ← find_extension_field (ds_iter d);
    field ← field_of it;
    let range_start := if negb found then u32 (-1) else pf_tag field in
    let d := mk_decode_state (ds_stream d) it (fields_seen d) range_start
               (fixed_count_field d) in
    if range_start <=? tag then
      let pos := bytes_left (ds_stream d) in
      '(ok, stream) ← decode_extension n decode noinit (ds_stream d) tag wire_type it;
      if negb ok then mret (ReturnFalse stream)
      else
        let d := mk_decode_state stream it (fields_seen d) range_start (fixed_count_field d) in
        if negb (pos =? bytes_left stream) then mret (Continue d) else skip d
    else skip d
  else skip d.

(** The field at the iterator has the tag. *)
Definition decode_known (n : nat) (decode noinit : msg_decoder) (fields : list pb_field_t)
    (d : decode_state) (wire_type : Z) : M W turn :=
  field ← field_of (ds_iter d);
  let it := ds_iter d in
  (* repeated fixed count field *)
  '(ok, it, fcf) ←
    (if (PB_HTYPE (pf_type field) =? PB_HTYPE_REPEATED)
        && bool_decide (pSize it = PAddr (pData it)) then
       if bool_decide (fixed_count_field d = Some (pos it)) then
         mret (true, set_pSize PFixedCountSize it, fixed_count_field d)
       else
         incomplete ← fixed_count_incomplete fields (fixed_count_field d);
         if (incomplete : bool) then mret (false, it, fixed_count_field d)
         else
           set_fixed_count_size 0;;
           mret (true, set_pSize PFixedCountSize it, Some (pos it))
     else mret (true, it, fixed_count_field d));
  if negb ok then
    mret (ReturnFalse (ierror "wrong size for fixed count field" (ds_stream d)))
  else
    seen ←
      (if (PB_HTYPE (pf_type field) =? PB_HTYPE_REQUIRED)
          && (required_field_index it <? PB_MAX_REQUIRED_FIELDS) then
         let tmp := u32 (Z.shiftl 1 (Z.land (required_field_index it) 31)) in
         let w := Z.to_nat (Z.shiftr (required_field_index it) 5) in
         v ← opt (fields_seen d !! w);
         mret (<[w := Z.lor v tmp]> (fields_seen d))
       else mret (fields_seen d));
    '(ok, stream, it) ← decode_field n decode noinit (ds_stream d) wire_type it;
    if negb ok then mret (ReturnFalse stream)
    else mret (Continue (mk_decode_state stream it seen (extension_range_start d) fcf)).

Definition decode_turn (n : nat) (decode noinit : msg_decoder) (fields : list pb_field_t)
    (d : decode_state) : M W turn :=
  '(ok, stream, wire_type, tag, eof) ← pb_decode_tag (ds_stream d);
  if negb ok then
    if (eof : bool) then
      mret (Break (mk_decode_state stream (ds_iter d) (fields_seen d)
                     (extension_range_start d) (fixed_count_field d)))
    else mret (ReturnFalse stream)
  else
    '(found, it) ← opt (pb_field_iter_find (ds_iter d) tag);
    let d := mk_decode_state stream it (fields_seen d) (extension_range_start d)
               (fixed_count_field d) in
    if negb found then decode_unknown n decode noinit d tag wire_type
    else decode_known n decode noinit fields d wire_type.

(** [while (stream->bytes_left)]: every turn consumes at least a byte. *)
Fixpoint decode_loop (fuel n : nat) (decode noinit : msg_decoder) (fields : list pb_field_t)
    (d : decode_state) : M W (bool * decode_state) :=
  match fuel with
  | O => nofuel
  | S fuel' =>
      if bytes_left (ds_stream d) =? 0 then mret (true, d)
      else
        r ← decode_turn n decode noinit fields d;
        match r with
        | Continue d => decode_loop fuel' n decode noinit fields d
        | Break d => mret (true, d)
        | ReturnFalse stream =>
            mret (false, mk_decode_state stream (ds_iter d) (fields_seen d)
                           (extension_range_start d) (fixed_count_field d))
        end
  end.

(** [do { ... } while (pb_field_iter_next(&iter))]: the required index and type
    of the last field. *)
Fixpoint last_field_loop (fuel : nat) (it : pb_field_iter_t)
    : M W (Z * Z * pb_field_iter_t) :=
  match fuel with
  | O => nofuel
  | S fuel' =>
      let req_field_count := required_field_index it in
      field ← field_of it;
      let last_type := pf_type field in
      '(more, it) ← opt (pb_field_iter_next it);
      if (more : bool) then last_field_loop fuel' it else mret (req_field_count, last_type, it)
  end.

Definition allbits : Z := u32 (Z.lnot 0).

(** The whole words of [fields_seen], from word [i] on. *)
Fixpoint words_complete (k : nat) (i : nat) (seen : list Z) : M W bool :=
  match k with
  | O => mret true
  | S k' =>
      v ← opt (seen !! i);
      if negb (v =? allbits) then mret false else words_complete k' (S i) seen
  end.

(** "Check that all required fields were present." *)
Definition required_present (fields : list pb_field_t) (it : pb_field_iter_t)
    (seen : list Z) : M W bool :=
  '(req_field_count, last_type, it) ← last_field_loop (S (length fields)) it;
  field ← field_of it;
  let req_field_count :=
    if (PB_HTYPE last_type =? PB_HTYPE_REQUIRED) && negb (pf_tag field =? 0)
    then u32 (req_field_count + 1) else req_field_count in
  let req_field_count :=
    if PB_MAX_REQUIRED_FIELDS <? req_field_count then PB_MAX_REQUIRED_FIELDS
    else req_field_count in
  if 0 <? req_field_count then
    whole ← words_complete (Z.to_nat (Z.shiftr req_field_count 5)) 0 seen;
    if negb whole then mret false
    else if negb (Z.land req_field_count 31 =? 0) then
      v ← opt (seen !! Z.to_nat (Z.shiftr req_field_count 5));
      mret (v =? Z.shiftr allbits (32 - Z.land req_field_count 31))
    else mret true
  else mret true.

(** A local variable lives as long as its activation. *)
Definition with_fixed_count_size {A} (body : M W A) : M W A := λ s,
  match body (set_fixed 0 s) with
  | Ok (a, s') => Ok (a, set_fixed (fixed_count_size s) s')
  | UB => UB
  | NoFuel => NoFuel
  end.

Definition noinit_body (n : nat) (decode noinit : msg_decoder) : msg_decoder :=
  λ stream fields dest,
  with_fixed_count_size (
    '(_, it) ← opt (pb_field_iter_begin fields dest);
    '(ok, d) ← decode_loop (S (Z.to_nat (bytes_left stream))) n decode noinit fields
                 (mk_decode_state stream it [0; 0] 0 None);
    if negb ok then mret (false, ds_stream d)
    else
      incomplete ← fixed_count_incomplete fields (fixed_count_field d);
      if (incomplete : bool)
      then fail (ds_stream d) "wrong size for fixed count field"
      else
        present ← required_present fields (ds_iter d) (fields_seen d);
        if negb present then fail (ds_stream d) "missing required field"
        else mret (true, ds_stream d)).

Definition decode_with (n : nat) (noinit : msg_decoder) : msg_decoder :=
  λ stream fields dest,
  pb_message_set_to_defaults n fields dest;;
  '(status, stream) ← noinit stream fields dest;
  (if negb status then pb_release n fields dest else mret tt);;
  mret (status, stream).

Fixpoint pb_decode_noinit (n : nat) : msg_decoder :=
  match n with
  | O => λ _ _ _, nofuel
  | S n' => noinit_body n' (decode_with n' (pb_decode_noinit n')) (pb_decode_noinit n')
  end.

Definition pb_decode (n : nat) : msg_decoder := decode_with n (pb_decode_noinit n).

(** The common body of the two delimited decoders. *)
Definition delimited (decode : msg_decoder) : msg_decoder := λ stream fields dest,
  '(stream, sub) ← pb_make_string_substream stream;
  match sub with
  | None => mret (false, stream)
  | Some substream =>
      '(status, substream) ← decode substream fields dest;
      '(ok, stream) ← pb_close_string_substream stream substream;
      if negb ok then mret (false, stream) else mret (status, stream)
  end.

Definition pb_decode_delimited_noinit (n : nat) : msg_decoder := delimited (pb_decode_noinit n).
Definition pb_decode_delimited (n : nat) : msg_decoder := delimited (pb_decode n).
Definition pb_decode_nullterminated (n : nat) : msg_decoder := pb_decode n.
End decode.
