(* ===== verification/PbEncode.v ===== *)
(** The message encoder of nanopb (the field and message half of [pb_encode.c]),
    one definition per C function; recursion through submessages is tied by the
    fuel [n], as in the decoder. *)
From S2P Require Import Prelude Mem Pb PbIter PbStream.

Section encode.
Context {W : Type} `{UserCode W}.

Definition encoder : Type := pb_ostream_t → pb_field_t → Z → M W (bool * pb_ostream_t).
(** The type of [pb_encode]. *)
Definition msg_encoder : Type :=
  pb_ostream_t → list pb_field_t → Z → M W (bool * pb_ostream_t).

Definition ofail (stream : pb_ostream_t) (msg : string) : M W (bool * pb_ostream_t) :=
  mret (false, oerror msg stream).

Definition ofields_of (p : Z) : M W (list pb_field_t) := opt (fields_at p).

(** * Submessages *)

Definition pb_encode_submessage (encode : msg_encoder) (stream : pb_ostream_t)
    (fields : list pb_field_t) (src_struct : Z) : M W (bool * pb_ostream_t) :=
  '(ok, substream) ← encode PB_OSTREAM_SIZING fields src_struct;
  if negb ok then mret (false, set_oerrmsg (o_errmsg substream) stream)
  else
    let size := bytes_written substream in
    '(ok, stream) ← pb_encode_varint stream size;
    if negb ok then mret (false, stream)
    else match o_callback stream with
    | None => pb_write stream BNull size
    | Some _ =>
        if max_size stream <? u64 (bytes_written stream + size)
        then ofail stream "stream full"
        else
          let substream := {| o_callback := o_callback stream; o_state := o_state stream;
                              max_size := size; bytes_written := 0; o_errmsg := None |} in
          '(status, substream) ← encode substream fields src_struct;
          let stream :=
            {| o_callback := o_callback stream; o_state := o_state substream;
               max_size := max_size stream;
               bytes_written := u64 (bytes_written stream + bytes_written substream);
               o_errmsg := o_errmsg substream |} in
          if negb (bytes_written substream =? size)
          then ofail stream "submsg size changed"
          else mret (status, stream)
    end.

(** * Field encoders *)

(** [*(const intN_t* )src] and [*(const uintN_t* )src]. *)
Definition load_int (size : nat) (src : Z) : M W Z :=
  v ← load_uint size src; mret (swrap (8 * Z.of_nat size) v).

Definition pb_enc_varint : encoder := λ stream field src,
  let ds := pf_data_size field in
  if ds =? 1 then value ← load_int 1 src; pb_encode_varint stream (u64 value)
  else if ds =? 2 then value ← load_int 2 src; pb_encode_varint stream (u64 value)
  else if ds =? 4 then value ← load_int 4 src; pb_encode_varint stream (u64 value)
  else if ds =? 8 then value ← load_int 8 src; pb_encode_varint stream (u64 value)
  else ofail stream "invalid data_size".

Definition pb_enc_uvarint : encoder := λ stream field src,
  let ds := pf_data_size field in
  if ds =? 1 then value ← load_uint 1 src; pb_encode_varint stream value
  else if ds =? 2 then value ← load_uint 2 src; pb_encode_varint stream value
  else if ds =? 4 then value ← load_uint 4 src; pb_encode_varint stream value
  else if ds =? 8 then value ← load_uint 8 src; pb_encode_varint stream value
  else ofail stream "invalid data_size".

Definition pb_enc_svarint : encoder := λ stream field src,
  let ds := pf_data_size field in
  if ds =? 1 then value ← load_int 1 src; pb_encode_svarint stream value
  else if ds =? 2 then value ← load_int 2 src; pb_encode_svarint stream value
  else if ds =? 4 then value ← load_int 4 src; pb_encode_svarint stream value
  else if ds =? 8 then value ← load_int 8 src; pb_encode_svarint stream value
  else ofail stream "invalid data_size".

Definition pb_enc_fixed64 : encoder := λ stream _ src, pb_encode_fixed64 stream src.
Definition pb_enc_fixed32 : encoder := λ stream _ src, pb_encode_fixed32 stream src.

Definition pb_enc_bytes : encoder := λ stream field src,
  if src =? 0 then pb_encode_string stream BNull 0
  else
    size ← load_size src;
    if (PB_ATYPE (pf_type field) =? PB_ATYPE_STATIC)
       && (pf_data_size field <? PB_BYTES_ARRAY_T_ALLOCSIZE size)
    then ofail stream "bytes size exceeded"
    else pb_encode_string stream (BMem (src + offsetof_bytes)) size.

(** The [strnlen]-like loop of [pb_enc_string], for a string that ends within
    the memory the map [mem] describes. *)
Fixpoint strnlen_loop (fuel : nat) (max_size size p : Z) : M W Z :=
  match fuel with
  | O => nofuel
  | S fuel' =>
      if size <? max_size then
        c ← load_uint 1 p;
        if negb (c =? 0) then strnlen_loop fuel' max_size (size + 1) (p + 1) else mret size
      else mret size
  end.

(** A string cannot be longer than the memory has bytes: past its last object
    the load is undefined, so the loop ends within this many turns. *)
Definition strnlen (max_size src : Z) : M W Z := λ s,
  strnlen_loop (S (base.size (mem s))) max_size 0 src s.

Definition pb_enc_string : encoder := λ stream field src,
  let max_size := if PB_ATYPE (pf_type field) =? PB_ATYPE_POINTER then u64 (-1)
                  else pf_data_size field in
  if src =? 0 then pb_encode_string stream BNull 0
  else size ← strnlen max_size src; pb_encode_string stream (BMem src) size.

Definition pb_enc_submessage (encode : msg_encoder) : encoder := λ stream field src,
  if pf_ptr field =? 0 then ofail stream "invalid field descriptor"
  else fields ← ofields_of (pf_ptr field); pb_encode_submessage encode stream fields src.

Definition pb_enc_fixed_length_bytes : encoder := λ stream field src,
  pb_encode_string stream (BMem src) (pf_data_size field).

Definition PB_ENCODERS (encode : msg_encoder) : list (option encoder) :=
  [Some pb_enc_varint; Some pb_enc_uvarint; Some pb_enc_svarint; Some pb_enc_fixed32;
   Some pb_enc_fixed64; Some pb_enc_bytes; Some pb_enc_string;
   Some (pb_enc_submessage encode); None; Some pb_enc_fixed_length_bytes].

Definition encoder_of (encode : msg_encoder) (type : Z) : M W (option encoder) :=
  opt (PB_ENCODERS encode !! Z.to_nat (PB_LTYPE type)).
Definition ecall (func : option encoder) : encoder := λ stream field src,
  match func with Some f => f stream field src | None => ub end.

(** * Arrays *)

(** [for (i = 0; i < count; i++) { func(...); p += data_size; }]. *)
Fixpoint encode_packed_items (count : nat) (func : option encoder) (stream : pb_ostream_t)
    (field : pb_field_t) (p : Z) : M W (bool * pb_ostream_t) :=
  match count with
  | O => mret (true, stream)
  | S count' =>
      '(ok, stream) ← ecall func stream field p;
      if negb ok then mret (false, stream)
      else encode_packed_items count' func stream field (p + pf_data_size field)
  end.

Fixpoint encode_items (count : nat) (func : option encoder) (stream : pb_ostream_t)
    (field : pb_field_t) (p : Z) : M W (bool * pb_ostream_t) :=
  match count with
  | O => mret (true, stream)
  | S count' =>
      '(ok, stream) ← pb_encode_tag_for_field stream field;
      if negb ok then mret (false, stream)
      else
        let type := pf_type field in
        '(ok, stream) ←
          (if (PB_ATYPE type =? PB_ATYPE_POINTER)
              && ((PB_LTYPE type =? PB_LTYPE_STRING) || (PB_LTYPE type =? PB_LTYPE_BYTES))
           then q ← load_ptr p; ecall func stream field q
           else ecall func stream field p);
        if negb ok then mret (false, stream)
        else encode_items count' func stream field (p + pf_data_size field)
  end.

Definition encode_array (stream : pb_ostream_t) (field : pb_field_t) (pData count : Z)
    (func : option encoder) : M W (bool * pb_ostream_t) :=
  let type := pf_type field in
  if count =? 0 then mret (true, stream)
  else if negb (PB_ATYPE type =? PB_ATYPE_POINTER) && (pf_array_size field <? count)
  then ofail stream "array max size exceeded"
  else if PB_LTYPE type <=? PB_LTYPE_LAST_PACKABLE then
    '(ok, stream) ← pb_encode_tag stream PB_WT_STRING (pf_tag field);
    if negb ok then mret (false, stream)
    else
      '(ok, size) ←
        (if PB_LTYPE type =? PB_LTYPE_FIXED32 then mret (true, u64 (4 * count))
         else if PB_LTYPE type =? PB_LTYPE_FIXED64 then mret (true, u64 (8 * count))
         else
           '(ok, sizestream) ←
             encode_packed_items (Z.to_nat count) func PB_OSTREAM_SIZING field pData;
           mret (ok, bytes_written sizestream));
      if negb ok then mret (false, stream)
      else
        '(ok, stream) ← pb_encode_varint stream size;
        if negb ok then mret (false, stream)
        else match o_callback stream with
        | None => pb_write stream BNull size
        | Some _ => encode_packed_items (Z.to_nat count) func stream field pData
        end
  else encode_items (Z.to_nat count) func stream field pData.

(** * Default values of proto3 *)

(** The byte-per-byte comparison with zero, from [p[i]] on. *)
Fixpoint all_zero (k : nat) (p : Z) : M W bool :=
  match k with
  | O => mret true
  | S k' =>
      c ← load_uint 1 p;
      if negb (c =? 0) then mret false else all_zero k' (p + 1)
  end.

(** [do { if (!check(iter)) return false; } while (pb_field_iter_next(&iter))]. *)
Fixpoint check_loop (fuel : nat) (check : pb_field_t → Z → M W bool) (it : pb_field_iter_t)
    : M W bool :=
  match fuel with
  | O => nofuel
  | S fuel' =>
      f ← opt (cur it);
      dflt ← check f (pData it);
      if negb dflt then mret false
      else
        '(more, it) ← opt (pb_field_iter_next it);
        if (more : bool) then check_loop fuel' check it else mret true
  end.

Fixpoint pb_check_proto3_default_value (n : nat) (field : pb_field_t) (pData : Z) : M W bool :=
  match n with
  | O => nofuel
  | S n' =>
      let type := pf_type field in
      let pSize := pData + pf_size_offset field in
      let zeros := all_zero (Z.to_nat (pf_data_size field)) pData in
      if PB_HTYPE type =? PB_HTYPE_REQUIRED then mret false
      else if PB_HTYPE type =? PB_HTYPE_REPEATED then
        count ← load_size pSize; mret (count =? 0)
      else if PB_HTYPE type =? PB_HTYPE_ONEOF then
        which ← load_size pSize; mret (which =? 0)
      else if (PB_HTYPE type =? PB_HTYPE_OPTIONAL) && negb (pf_size_offset field =? 0) then
        has ← load_bool pSize; mret (negb has)
      else if PB_ATYPE type =? PB_ATYPE_STATIC then
        if PB_LTYPE type =? PB_LTYPE_BYTES then size ← load_size pData; mret (size =? 0)
        else if PB_LTYPE type =? PB_LTYPE_STRING then
          c ← load_uint 1 pData; mret (c =? 0)
        else if PB_LTYPE type =? PB_LTYPE_FIXED_LENGTH_BYTES then
          mret (pf_data_size field =? 0)
        else if PB_LTYPE type =? PB_LTYPE_SUBMESSAGE then
          sub ← ofields_of (pf_ptr field);
          '(nonempty, it) ← opt (pb_field_iter_begin sub pData);
          if (nonempty : bool)
          then check_loop (length sub) (pb_check_proto3_default_value n') it
          else mret true
        else zeros
      else zeros
  end.

(** * Encoding one field *)

(** [pSize] is [None] where it points at the local variable [implicit_has]. *)
Definition encode_basic_field (n : nat) (encode : msg_encoder) (stream : pb_ostream_t)
    (field : pb_field_t) (pData : Z) : M W (bool * pb_ostream_t) :=
  let type := pf_type field in
  func ← encoder_of encode type;
  '(pSize, implicit_has) ←
    (if negb (pf_size_offset field =? 0)
     then mret (Some (pData + pf_size_offset field), false)
     else if PB_HTYPE type =? PB_HTYPE_OPTIONAL then
       dflt ← pb_check_proto3_default_value n field pData; mret (None, negb dflt)
     else mret (None, true));
  '(pData, implicit_has) ←
    (if PB_ATYPE type =? PB_ATYPE_POINTER then
       p ← load_ptr pData; mret (p, negb (p =? 0))
     else mret (pData, implicit_has));
  let load_has : M W bool :=
    match pSize with Some a => load_bool a | None => mret implicit_has end in
  let load_count : M W Z :=
    match pSize with Some a => load_size a | None => ub end in
  let encode_one : M W (bool * pb_ostream_t) :=
    '(ok, stream) ← pb_encode_tag_for_field stream field;
    if negb ok then mret (false, stream) else ecall func stream field pData in
  if PB_HTYPE type =? PB_HTYPE_REQUIRED then
    if pData =? 0 then ofail stream "missing required field" else encode_one
  else if PB_HTYPE type =? PB_HTYPE_OPTIONAL then
    has ← load_has; if (has : bool) then encode_one else mret (true, stream)
  else if PB_HTYPE type =? PB_HTYPE_REPEATED then
    count ← (if negb (pf_size_offset field =? 0) then load_count
             else mret (pf_array_size field));
    encode_array stream field pData count func
  else if PB_HTYPE type =? PB_HTYPE_ONEOF then
    which ← load_count;
    if which =? pf_tag field then encode_one else mret (true, stream)
  else ofail stream "invalid field type".

Definition encode_callback_field (stream : pb_ostream_t) (field : pb_field_t) (pData : Z)
    : M W (bool * pb_ostream_t) :=
  fn ← load_ptr (pb_callback_funcs pData);
  if negb (fn =? 0) then
    '(ok, stream) ← user_encode_field fn stream field (pb_callback_arg pData);
    if negb ok then ofail stream "callback error" else mret (true, stream)
  else mret (true, stream).

Definition encode_field (n : nat) (encode : msg_encoder) (stream : pb_ostream_t)
    (field : pb_field_t) (pData : Z) : M W (bool * pb_ostream_t) :=
  let atype := PB_ATYPE (pf_type field) in
  if (atype =? PB_ATYPE_STATIC) || (atype =? PB_ATYPE_POINTER)
  then encode_basic_field n encode stream field pData
  else if atype =? PB_ATYPE_CALLBACK then encode_callback_field stream field pData
  else ofail stream "invalid field type".

Definition default_extension_encoder (n : nat) (encode : msg_encoder)
    (stream : pb_ostream_t) (extension : Z) : M W (bool * pb_ostream_t) :=
  ty ← load_ptr (ext_type extension);
  arg ← load_ptr (ext_type_arg ty);
  fields ← ofields_of arg;
  field ← opt (fields !! 0%nat);
  if PB_ATYPE (pf_type field) =? PB_ATYPE_POINTER
  then encode_field n encode stream field (ext_dest extension)
  else dest ← load_ptr (ext_dest extension); encode_field n encode stream field dest.

Fixpoint encode_extension_loop (fuel n : nat) (encode : msg_encoder)
    (stream : pb_ostream_t) (extension : Z) : M W (bool * pb_ostream_t) :=
  match fuel with
  | O => nofuel
  | S fuel' =>
      if extension =? 0 then mret (true, stream)
      else
        ty ← load_ptr (ext_type extension);
        fn ← load_ptr (ext_type_encode ty);
        '(status, stream) ←
          (if negb (fn =? 0) then user_encode_ext fn stream extension
           else default_extension_encoder n encode stream extension);
        if negb status then mret (false, stream)
        else
          next ← load_ptr (ext_next extension);
          encode_extension_loop fuel' n encode stream next
  end.

Definition encode_extension_field (n : nat) (encode : msg_encoder)
    (stream : pb_ostream_t) (pData : Z) : M W (bool * pb_ostream_t) :=
  extension ← load_ptr pData;
  encode_extension_loop n n encode stream extension.

(** * Encoding all fields *)

Fixpoint encode_loop (fuel n : nat) (encode : msg_encoder) (stream : pb_ostream_t)
    (it : pb_field_iter_t) : M W (bool * pb_ostream_t) :=
  match fuel with
  | O => nofuel
  | S fuel' =>
      f ← opt (cur it);
      '(ok, stream) ←
        (if PB_LTYPE (pf_type f) =? PB_LTYPE_EXTENSION
         then encode_extension_field n encode stream (pData it)
         else encode_field n encode stream f (pData it));
      if negb ok then mret (false, stream)
      else
        '(more, it) ← opt (pb_field_iter_next it);
        if (more : bool) then encode_loop fuel' n encode stream it else mret (true, stream)
  end.

Definition encode_body (n : nat) (encode : msg_encoder) : msg_encoder :=
  λ stream fields src_struct,
  '(nonempty, it) ← opt (pb_field_iter_begin fields src_struct);
  if negb nonempty then mret (true, stream)
  else encode_loop (length fields) n encode stream it.

Fixpoint pb_encode (n : nat) : msg_encoder :=
  match n with
  | O => λ _ _ _, nofuel
  | S n' => encode_body n' (pb_encode n')
  end.

Definition pb_encode_delimited (n : nat) : msg_encoder := pb_encode_submessage (pb_encode n).

Definition pb_encode_nullterminated (n : nat) : msg_encoder := λ stream fields src_struct,
  '(ok, stream) ← pb_encode n stream fields src_struct;
  if negb ok then mret (false, stream) else pb_write stream (BLocal [0]) 1.

(** [Some size] when the function returns true. *)
Definition pb_get_encoded_size (n : nat) (fields : list pb_field_t) (src_struct : Z)
    : M W (option Z) :=
  '(ok, stream) ← pb_encode n PB_OSTREAM_SIZING fields src_struct;
  if negb ok then mret None else mret (Some (bytes_written stream)).
End encode.
