(* ===== verification/PbVarint.v ===== *)
(** Variable-length integers of the wire format: a reference encoding, the
    encoder's agreement with it, what the two decoders return on every byte
    sequence, and the round trips of integers and field tags.

    What an encoding function promises about the bytes it writes, as one
    predicate that covers the sizing stream, a buffer with enough room and a
    buffer that is too small; closed under sequencing, so that the promises of
    the encoder are assembled from those of [pb_write]. *)
From S2P Require Import Prelude Mem Pb PbStream.
(** * The wire format

    A varint is a sequence of bytes with the continuation bit set, and a last one
    without it; its value has the low seven bits of each, least significant
    first. *)
Inductive is_varint : list Z → Prop :=
  | varint_last b : 0 <= b < 128 → is_varint [b]
  | varint_more b bs : 128 <= b < 256 → is_varint bs → is_varint (b :: bs).

Fixpoint varint_value (bs : list Z) : Z :=
  match bs with
  | [] => 0
  | b :: bs' => b mod 128 + 128 * varint_value bs'
  end.

(** A shortest varint: no superfluous zero groups at the end. *)
Inductive canonical : list Z → Prop :=
  | canonical_last b : 0 <= b < 128 → canonical [b]
  | canonical_more b bs :
      128 <= b < 256 → canonical bs → varint_value bs ≠ 0 → canonical (b :: bs).

(** The shortest varint of a value below 2^(7 (k + 1)). *)
Fixpoint leb128 (k : nat) (v : Z) : list Z :=
  match k with
  | O => [v]
  | S k' => if v <? 128 then [v] else (v mod 128 + 128) :: leb128 k' (v / 128)
  end.

(** The varint of a 64-bit value. *)
Definition varint (v : Z) : list Z := leb128 9 v.

(** Zigzag: the sign in the low bit. *)
Definition zigzag (v : Z) : Z := if v <? 0 then -2 * v - 1 else 2 * v.

(** * Lemmas on the format *)

Lemma pow2_7_S k : 2 ^ (7 * Z.of_nat (S k)) = 128 * 2 ^ (7 * Z.of_nat k).
Proof.
  replace (7 * Z.of_nat (S k)) with (7 + 7 * Z.of_nat k) by lia.
  by rewrite Z.pow_add_r by lia.
Qed.

Lemma div_128_bound v k : 0 <= v < 2 ^ (7 * Z.of_nat (S k)) → 0 <= v / 128 < 2 ^ (7 * Z.of_nat k).
Proof.
  rewrite pow2_7_S. intros Hv. split; [apply Z.div_pos; lia|].
  apply Z.div_lt_upper_bound; lia.
Qed.

Lemma leb128_is_varint k v : 0 <= v < 2 ^ (7 * Z.of_nat (S k)) → is_varint (leb128 k v).
Proof.
  revert v. induction k as [|k IH]; intros v Hv; simpl.
  { apply varint_last. exact Hv. }
  destruct (Z.ltb_spec v 128); [apply varint_last; lia|].
  apply varint_more; [pose proof (Z.mod_pos_bound v 128); lia|].
  by apply IH, div_128_bound.
Qed.

Lemma leb128_value k v : 0 <= v < 2 ^ (7 * Z.of_nat (S k)) → varint_value (leb128 k v) = v.
Proof.
  revert v. induction k as [|k IH]; intros v Hv; simpl.
  { rewrite Z.mod_small by exact Hv. lia. }
  destruct (Z.ltb_spec v 128); simpl; [rewrite Z.mod_small; lia|].
  rewrite IH by by apply div_128_bound. Z.div_mod_to_equations. lia.
Qed.

Lemma leb128_canonical k v : 0 <= v < 2 ^ (7 * Z.of_nat (S k)) → canonical (leb128 k v).
Proof.
  revert v. induction k as [|k IH]; intros v Hv; simpl.
  { apply canonical_last. exact Hv. }
  destruct (Z.ltb_spec v 128); [apply canonical_last; lia|].
  pose proof (div_128_bound v (S k) Hv).
  apply canonical_more; [pose proof (Z.mod_pos_bound v 128); lia|by apply IH|].
  rewrite leb128_value by done. pose proof (Z.div_str_pos v 128). lia.
Qed.

Lemma leb128_length_bound j k v :
  0 <= v < 2 ^ (7 * Z.of_nat (S j)) → (length (leb128 k v) <= S j)%nat.
Proof.
  revert k v. induction j as [|j IH]; intros k v Hv.
  - destruct k as [|k]; simpl; [lia|]. rewrite (proj2 (Z.ltb_lt v 128)) by exact (proj2 Hv).
    simpl. lia.
  - destruct k as [|k]; simpl; [lia|]. destruct (v <? 128); simpl; [lia|].
    specialize (IH k (v / 128)). apply div_128_bound in Hv. lia.
Qed.

Lemma leb128_length k v : (1 <= length (leb128 k v) <= S k)%nat.
Proof.
  revert v. induction k as [|k IH]; intros v; simpl; [lia|].
  destruct (v <? 128); simpl; [lia|]. specialize (IH (v / 128)). lia.
Qed.

Lemma leb128_bytes k v : 0 <= v < 2 ^ (7 * Z.of_nat (S k)) → Forall is_byte (leb128 k v).
Proof.
  intros Hv. pose proof (leb128_is_varint k v Hv) as Hi. revert Hi. generalize (leb128 k v).
  induction 1; repeat constructor; try lia; done.
Qed.

Lemma varint_range_64 v : 0 <= v < 2 ^ 64 → 0 <= v < 2 ^ (7 * Z.of_nat 10).
Proof. lia. Qed.
#[local] Hint Resolve varint_range_64 : bytes.

Lemma varint_is_varint v : 0 <= v < 2 ^ 64 → is_varint (varint v).
Proof. intros. apply leb128_is_varint. auto with bytes. Qed.
Lemma varint_value_varint v : 0 <= v < 2 ^ 64 → varint_value (varint v) = v.
Proof. intros. apply leb128_value. auto with bytes. Qed.
Lemma varint_length v : (1 <= length (varint v) <= 10)%nat.
Proof. apply leb128_length. Qed.

Lemma is_varint_length bs : is_varint bs → (1 <= length bs)%nat.
Proof. destruct 1; simpl; lia. Qed.

Lemma varint_value_bound bs : 0 <= varint_value bs < 2 ^ (7 * Z.of_nat (length bs)).
Proof.
  induction bs as [|b bs IH]; [simpl; lia|]. cbn [varint_value length]. rewrite pow2_7_S.
  pose proof (Z.mod_pos_bound b 128). lia.
Qed.

Lemma is_varint_byte b bs : is_varint (b :: bs) → is_byte b.
Proof. unfold is_byte. inversion 1; lia. Qed.

(** * The encoder produces the shortest varint *)

Lemma varint_byte v :
  Z.lor (Z.land v 0x7F) 0x80 = v mod 128 + 128.
Proof.
  rewrite land_127. apply (lor_disjoint_add _ 1 7); [lia| |lia].
  apply Z.mod_pos_bound. lia.
Qed.

Lemma clear_last_loop k v :
  0 < v < 2 ^ (7 * Z.of_nat (S k)) → clear_last (varint_bytes_loop (S k) v) = leb128 k v.
Proof.
  revert v. induction k as [|k IH]; intros v Hv.
  - cbn [varint_bytes_loop]. rewrite (proj2 (Z.eqb_neq v 0)) by lia. rewrite varint_byte.
    cbn [clear_last leb128]. rewrite land_127. f_equal.
    change (2 ^ (7 * Z.of_nat 1)) with 128 in Hv. Z.div_mod_to_equations. lia.
  - cbn [varint_bytes_loop leb128]. rewrite (proj2 (Z.eqb_neq v 0)) by lia.
    rewrite varint_byte, Z.shiftr_div_pow2 by lia. change (2 ^ 7) with 128.
    destruct (Z.ltb_spec v 128).
    + rewrite (Z.div_small v 128) by lia. simpl. rewrite land_127. f_equal.
      Z.div_mod_to_equations. lia.
    + assert (0 < v / 128 < 2 ^ (7 * Z.of_nat (S k))) as Hd.
      { pose proof (div_128_bound v (S k)). pose proof (Z.div_str_pos v 128). lia. }
      rewrite <- IH by done. cbn [varint_bytes_loop].
      by rewrite (proj2 (Z.eqb_neq (v / 128) 0)) by lia.
Qed.

Section encode_varint.
Context {W : Type} `{UserCode W}.
Implicit Types s : st W.

Lemma encode_varint_write v stream s :
  0 <= v < 2 ^ 64 →
  pb_encode_varint stream v s =
  pb_write stream (BLocal (varint v)) (Z.of_nat (length (varint v))) s.
Proof.
  intros Hv. unfold pb_encode_varint. destruct (Z.leb_spec v 0x7F).
  - rewrite u8_small by lia. unfold varint. simpl.
    by rewrite (proj2 (Z.ltb_lt v 128)) by lia.
  - by rewrite clear_last_loop by (split; [lia|apply varint_range_64; lia]).
Qed.
End encode_varint.

(** * The 64-bit decoder *)

Section decode_varint.
Context {W : Type} `{UserCode W}.
Implicit Types s : st W.

(** One byte of the loop adds its seven bits, modulo 2^64. *)
Lemma varint_loop_add result b bitpos :
  0 <= bitpos <= 63 → 0 <= result < 2 ^ bitpos →
  Z.lor result (u64 (Z.shiftl (Z.land b 0x7F) bitpos)) =
  result + ((b mod 128) mod 2 ^ (64 - bitpos)) * 2 ^ bitpos.
Proof.
  intros Hb Hr. rewrite land_127.
  assert (u64 (Z.shiftl (b mod 128) bitpos) =
          Z.shiftl ((b mod 128) mod 2 ^ (64 - bitpos)) bitpos) as ->.
  { unfold u64. rewrite !Z.shiftl_mul_pow2 by lia.
    replace (2 ^ 64) with (2 ^ (64 - bitpos) * 2 ^ bitpos)
      by (rewrite <- Z.pow_add_r by lia; f_equal; lia).
    apply Z.mul_mod_distr_r; apply Z.pow_nonzero; lia. }
  apply lor_disjoint_add; [lia|done|].
  apply Z.mod_pos_bound. apply Z.pow_pos_nonneg; lia.
Qed.

Lemma varint_loop_step fuel b rest n e result bitpos s :
  is_byte b → 1 <= n < 2 ^ 64 → 0 <= bitpos <= 63 → 0 <= result < 2 ^ bitpos →
  varint_loop (S fuel) (buf_stream (b :: rest) n e) result bitpos s =
  let result' := result + ((b mod 128) mod 2 ^ (64 - bitpos)) * 2 ^ bitpos in
  if b <? 128 then Ok (buf_stream rest (n - 1) e, Some result', s)
  else varint_loop fuel (buf_stream rest (n - 1) e) result' (bitpos + 7) s.
Proof.
  intros Hb Hn Hbp Hr. cbn [varint_loop].
  rewrite (proj2 (Z.leb_gt 64 bitpos)) by lia.
  unfold mbind, M_bind. rewrite readbyte_buf by lia.
  rewrite varint_loop_add, land_128_byte, (u8_small (bitpos + 7)) by (done || lia).
  by destruct (b <? 128).
Qed.

Lemma varint_loop_spec bs : is_varint bs → ∀ k rest n e result s,
  (length bs <= k <= 10)%nat → Z.of_nat (length bs) <= n < 2 ^ 64 →
  0 <= result < 2 ^ (7 * (10 - Z.of_nat k)) →
  varint_loop (S k) (buf_stream (bs ++ rest) n e) result (7 * (10 - Z.of_nat k)) s =
  Ok (buf_stream rest (n - Z.of_nat (length bs)) e,
      Some ((result + varint_value bs * 2 ^ (7 * (10 - Z.of_nat k))) mod 2 ^ 64), s).
Proof.
  induction 1 as [b Hb|b bs Hb Hbs IH]; intros k rest n e result s Hk Hn Hr;
    cbn [length] in Hk, Hn; (destruct k as [|k]; [lia|]);
    set (bitpos := 7 * (10 - Z.of_nat (S k))) in *;
    assert (0 <= bitpos <= 63) by lia; cbn [app];
    rewrite varint_loop_step by (unfold is_byte; lia); cbv zeta.
  - rewrite (proj2 (Z.ltb_lt b 128)) by lia.
    cbn [varint_value length]. do 4 f_equal. rewrite !(Z.mod_small b 128) by lia.
    rewrite Z.mul_0_r, Z.add_0_r.
    replace (2 ^ 64) with (2 ^ bitpos * 2 ^ (64 - bitpos))
      by (rewrite <- Z.pow_add_r by lia; f_equal; lia).
    assert (0 < 2 ^ bitpos) by (apply Z.pow_pos_nonneg; lia).
    assert (0 < 2 ^ (64 - bitpos)) by (apply Z.pow_pos_nonneg; lia).
    rewrite Z.rem_mul_r, Z.mod_add, Z.div_add by lia.
    rewrite (Z.mod_small result), (Z.div_small result) by lia. rewrite Z.add_0_l. lia.
  - rewrite (proj2 (Z.ltb_ge b 128)) by lia.
    pose proof (is_varint_length bs Hbs).
    assert (bitpos + 7 = 7 * (10 - Z.of_nat k)) as E by lia. rewrite E.
    assert (2 ^ (7 * (10 - Z.of_nat k)) = 128 * 2 ^ bitpos) as E2.
    { rewrite <- E, Z.pow_add_r by lia. lia. }
    pose proof (Z.mod_pos_bound b 128 ltac:(lia)).
    rewrite (Z.mod_small (b mod 128)).
    2: { assert (2 ^ 7 <= 2 ^ (64 - bitpos)) by (apply Z.pow_le_mono_r; lia). lia. }
    rewrite IH; [|lia|lia|rewrite E2; nia]. cbn [varint_value length]. rewrite E2.
    do 3 f_equal; [f_equal; lia|]. do 2 f_equal. lia.
Qed.

(** The value is accumulated modulo 2^64: the excess bits of a tenth byte are
    dropped. *)
Lemma decode_varint_buf bs rest n e s :
  is_varint bs → (length bs <= 10)%nat → Z.of_nat (length bs) <= n < 2 ^ 64 →
  pb_decode_varint (buf_stream (bs ++ rest) n e) s =
  Ok (buf_stream rest (n - Z.of_nat (length bs)) e, Some (varint_value bs mod 2 ^ 64), s).
Proof.
  intros Hbs Hl Hn. unfold pb_decode_varint.
  etransitivity; [apply (varint_loop_spec bs Hbs 10 rest n e 0 s); simpl; lia|].
  change (2 ^ (7 * (10 - Z.of_nat 10))) with 1. by rewrite Z.mul_1_r.
Qed.

(** Ten continuation bytes in a row are an overflow. *)
Lemma varint_loop_overflow bs : Forall (λ b, 128 <= b < 256) bs → ∀ rest n e result s,
  (length bs <= 10)%nat → Z.of_nat (length bs) <= n < 2 ^ 64 →
  0 <= result < 2 ^ (7 * (10 - Z.of_nat (length bs))) →
  varint_loop (S (length bs)) (buf_stream (bs ++ rest) n e) result
    (7 * (10 - Z.of_nat (length bs))) s =
  Ok (buf_stream rest (n - Z.of_nat (length bs)) (PB_SET_ERROR e "varint overflow"), None, s).
Proof.
  induction 1 as [|b bs Hb Hbs IH]; intros rest n e result s Hk Hn Hr; cbn [length] in *.
  - cbn [varint_loop]. change (7 * (10 - Z.of_nat 0)) with 70. simpl. by rewrite Z.sub_0_r.
  - set (bitpos := 7 * (10 - Z.of_nat (S (length bs)))) in *. cbn [app].
    rewrite varint_loop_step by (unfold is_byte; lia). cbv zeta.
    rewrite (proj2 (Z.ltb_ge b 128)) by lia.
    assert (bitpos + 7 = 7 * (10 - Z.of_nat (length bs))) as E by lia. rewrite E.
    rewrite IH; [do 4 f_equal; lia|lia|lia|].
    rewrite <- E, Z.pow_add_r by lia.
    pose proof (Z.mod_pos_bound b 128 ltac:(lia)).
    pose proof (Z.mod_pos_bound (b mod 128) (2 ^ (64 - bitpos))
                  ltac:(apply Z.pow_pos_nonneg; lia)).
    pose proof (Z.mod_le (b mod 128) (2 ^ (64 - bitpos)) ltac:(lia)
                  ltac:(apply Z.pow_pos_nonneg; lia)). nia.
Qed.
End decode_varint.

(** * The 32-bit decoder *)

Section decode_varint32.
Context {W : Type} `{UserCode W}.
Implicit Types s : st W.

(** The bytes at bit positions below 32. *)
Lemma varint32_loop_low fuel b rest n e result bitpos s :
  is_byte b → 1 <= n < 2 ^ 64 → 0 <= bitpos < 32 → 0 <= result < 2 ^ bitpos →
  varint32_loop (S fuel) (buf_stream (b :: rest) n e) result bitpos s =
  let result' := result + ((b mod 128) mod 2 ^ (32 - bitpos)) * 2 ^ bitpos in
  if b <? 128 then
    if (bitpos =? 28) && (16 <=? b)
    then Ok (buf_stream rest (n - 1) (PB_SET_ERROR e "varint overflow"), None, s)
    else Ok (buf_stream rest (n - 1) e, Some result', s)
  else varint32_loop fuel (buf_stream rest (n - 1) e) result' (bitpos + 7) s.
Proof.
  intros Hb Hn Hbp Hr. cbn [varint32_loop].
  rewrite (proj2 (Z.leb_gt 32 bitpos)) by lia.
  unfold mbind, M_bind. rewrite readbyte_buf by lia. cbn [andb].
  assert (Z.lor result (u32 (Z.shiftl (Z.land b 0x7F) bitpos)) =
          result + ((b mod 128) mod 2 ^ (32 - bitpos)) * 2 ^ bitpos) as ->.
  { rewrite land_127.
    assert (u32 (Z.shiftl (b mod 128) bitpos) =
            Z.shiftl ((b mod 128) mod 2 ^ (32 - bitpos)) bitpos) as ->.
    { unfold u32. rewrite !Z.shiftl_mul_pow2 by lia.
      replace (2 ^ 32) with (2 ^ (32 - bitpos) * 2 ^ bitpos)
        by (rewrite <- Z.pow_add_r by lia; f_equal; lia).
      apply Z.mul_mod_distr_r; apply Z.pow_nonzero; lia. }
    apply lor_disjoint_add; [lia|done|].
    apply Z.mod_pos_bound. apply Z.pow_pos_nonneg; lia. }
  rewrite land_128_byte, (u8_small (bitpos + 7)) by (done || lia). cbv zeta.
  destruct (Z.ltb_spec b 128) as [Hlt|Hge]; [|done]. cbn [negb Z.eqb].
  assert ((bitpos + 7 =? 35) = (bitpos =? 28)) as -> by
    (destruct (Z.eqb_spec bitpos 28), (Z.eqb_spec (bitpos + 7) 35); lia || done).
  assert (negb (Z.land b 112 =? 0) = (16 <=? b)) as ->.
  { unfold is_byte in Hb. apply Bool.eqb_prop. revert b Hb Hlt.
    intros b [Hb _] Hlt. clear -Hb Hlt.
    apply (forall_below 128 (λ b, Bool.eqb (negb (Z.land b 112 =? 0)) (16 <=? b)));
      [by vm_compute|lia]. }
  by destruct ((bitpos =? 28) && (16 <=? b)).
Qed.

(** The bytes at bit positions from 32 on are only checked. *)
Lemma varint32_loop_high fuel b rest n e result bitpos s :
  is_byte b → 1 <= n < 2 ^ 64 → 32 <= bitpos <= 63 →
  varint32_loop (S fuel) (buf_stream (b :: rest) n e) result bitpos s =
  if negb (b mod 128 =? 0)
     && ((Z.shiftr result 31 =? 0) || negb (b =? (if bitpos <? 63 then 0xFF else 0x01)))
  then Ok (buf_stream rest (n - 1) (PB_SET_ERROR e "varint overflow"), None, s)
  else if b <? 128 then Ok (buf_stream rest (n - 1) e, Some result, s)
    else varint32_loop fuel (buf_stream rest (n - 1) e) result (bitpos + 7) s.
Proof.
  intros Hb Hn Hbp. cbn [varint32_loop].
  rewrite (proj2 (Z.leb_le 32 bitpos)) by lia.
  unfold mbind, M_bind. rewrite readbyte_buf by lia. rewrite land_127. cbn [andb].
  destruct (negb _ && _); [done|].
  rewrite land_128_byte, (u8_small (bitpos + 7)) by (done || lia).
  rewrite (proj2 (Z.eqb_neq (bitpos + 7) 35)) by lia. by destruct (b <? 128).
Qed.

Lemma varint32_loop_spec bs : is_varint bs → ∀ k fuel rest n e result s,
  (length bs <= k <= 4)%nat → (length bs <= fuel)%nat →
  Z.of_nat (length bs) <= n < 2 ^ 64 → 0 <= result < 2 ^ (7 * (5 - Z.of_nat k)) →
  varint32_loop fuel (buf_stream (bs ++ rest) n e) result (7 * (5 - Z.of_nat k)) s =
  let v := result + varint_value bs * 2 ^ (7 * (5 - Z.of_nat k)) in
  if v <? 2 ^ 32
  then Ok (buf_stream rest (n - Z.of_nat (length bs)) e, Some v, s)
  else Ok (buf_stream rest (n - Z.of_nat (length bs)) (PB_SET_ERROR e "varint overflow"),
           None, s).
Proof.
  induction 1 as [b Hb|b bs Hb Hbs IH]; intros k fuel rest n e result s Hk Hf Hn Hr;
    cbn [length] in *; (destruct k as [|k]; [lia|]); (destruct fuel as [|fuel]; [lia|]);
    set (bitpos := 7 * (5 - Z.of_nat (S k))) in *;
    assert (7 <= bitpos <= 28) by lia; cbn [app];
    rewrite varint32_loop_low by (unfold is_byte; lia); cbv zeta; cbn [varint_value].
  - rewrite (proj2 (Z.ltb_lt b 128)) by lia. rewrite (Z.mod_small b 128) by lia.
    rewrite Z.mul_0_r, Z.add_0_r.
    assert (0 < 2 ^ bitpos) by (apply Z.pow_pos_nonneg; lia).
    destruct (Z.eqb_spec bitpos 28) as [E28|NE28].
    + rewrite E28 in *. simpl. destruct (Z.leb_spec 16 b).
      * rewrite (proj2 (Z.ltb_ge _ _)) by lia. done.
      * rewrite (proj2 (Z.ltb_lt _ _)) by lia. do 4 f_equal.
        change (2 ^ (32 - 28)) with 16. rewrite Z.mod_small by lia. done.
    + simpl. assert (2 ^ (bitpos + 7) <= 2 ^ 28) by (apply Z.pow_le_mono_r; lia).
      assert (2 ^ (bitpos + 7) = 128 * 2 ^ bitpos) by (rewrite Z.pow_add_r; lia).
      rewrite (proj2 (Z.ltb_lt _ _)) by nia. do 4 f_equal.
      rewrite Z.mod_small; [done|].
      assert (2 ^ 7 <= 2 ^ (32 - bitpos)) by (apply Z.pow_le_mono_r; lia). lia.
  - rewrite (proj2 (Z.ltb_ge b 128)) by lia.
    pose proof (is_varint_length bs Hbs).
    assert (bitpos + 7 = 7 * (5 - Z.of_nat k)) as E by lia. rewrite E.
    assert (2 ^ (7 * (5 - Z.of_nat k)) = 128 * 2 ^ bitpos) as E2.
    { rewrite <- E, Z.pow_add_r by lia. lia. }
    pose proof (Z.mod_pos_bound b 128 ltac:(lia)).
    rewrite (Z.mod_small (b mod 128)).
    2: { assert (2 ^ 7 <= 2 ^ (32 - bitpos)) by (apply Z.pow_le_mono_r; lia). lia. }
    rewrite IH; [|lia|lia|lia|rewrite E2; nia]. rewrite E2. cbv zeta.
    replace (result + b mod 128 * 2 ^ bitpos + varint_value bs * (128 * 2 ^ bitpos))
      with (result + (b mod 128 + 128 * varint_value bs) * 2 ^ bitpos) by lia.
    replace (n - 1 - Z.of_nat (length bs)) with (n - Z.of_nat (S (length bs))) by lia.
    done.
Qed.

(** Up to five bytes: the value, or an overflow from 2^32 on. *)
Lemma decode_varint32_eof_buf bs rest n e s :
  is_varint bs → (length bs <= 5)%nat → Z.of_nat (length bs) <= n < 2 ^ 64 →
  pb_decode_varint32_eof (buf_stream (bs ++ rest) n e) s =
  if varint_value bs <? 2 ^ 32
  then Ok (buf_stream rest (n - Z.of_nat (length bs)) e, Some (varint_value bs), false, s)
  else Ok (buf_stream rest (n - Z.of_nat (length bs)) (PB_SET_ERROR e "varint overflow"),
           None, false, s).
Proof.
  intros Hbs Hl Hn. destruct Hbs as [b Hb|b bs Hb Hbs]; cbn [length] in *;
    unfold pb_decode_varint32_eof, mbind, M_bind; cbn [app];
    rewrite readbyte_buf by lia; rewrite land_128_byte by (unfold is_byte; lia).
  - rewrite (proj2 (Z.ltb_lt b 128)) by lia. cbn [Z.eqb varint_value].
    rewrite Z.mod_small, Z.mul_0_r, Z.add_0_r by lia.
    by rewrite (proj2 (Z.ltb_lt b _)) by lia.
  - rewrite (proj2 (Z.ltb_ge b 128)) by lia. cbn [Z.eqb bytes_left buf_stream].
    rewrite land_127.
    rewrite (varint32_loop_spec bs Hbs 4) by
      (try (change (2 ^ (7 * (5 - Z.of_nat 4))) with 128; apply Z.mod_pos_bound); lia).
    cbv zeta. change (2 ^ (7 * (5 - Z.of_nat 4))) with 128.
    cbn [varint_value]. rewrite (Z.mul_comm 128 (varint_value bs)).
    replace (n - 1 - Z.of_nat (length bs)) with (n - Z.of_nat (S (length bs))) by lia.
    by destruct (_ <? 2 ^ 32).
Qed.

(** A shortest varint longer than five bytes is rejected if it ends below bit 63. *)
Lemma varint32_loop_reject bs : canonical bs → ∀ fuel rest n e result bitpos s,
  (length bs <= fuel)%nat → Z.of_nat (length bs) <= n < 2 ^ 64 →
  35 <= bitpos → bitpos + 7 * Z.of_nat (length bs) <= 63 → varint_value bs ≠ 0 →
  ∃ stream', varint32_loop fuel (buf_stream (bs ++ rest) n e) result bitpos s =
             Ok (stream', None, s).
Proof.
  induction 1 as [b Hb|b bs Hb Hbs IH Hv']; intros fuel rest n e result bitpos s Hf Hn Hb1 Hb2 Hv;
    cbn [length varint_value] in *; (destruct fuel as [|fuel]; [lia|]); cbn [app];
    rewrite varint32_loop_high by (unfold is_byte; lia).
  - rewrite (Z.mod_small b 128) in * by lia.
    rewrite (proj2 (Z.eqb_neq b 0)) by lia. rewrite (proj2 (Z.ltb_lt bitpos 63)) by lia.
    rewrite (proj2 (Z.eqb_neq b 255)) by lia. rewrite orb_true_r. cbn [negb andb]. eauto.
  - destruct (negb (b mod 128 =? 0) && _); [by eauto|].
    rewrite (proj2 (Z.ltb_ge b 128)) by lia. apply IH; [lia..|done].
Qed.

(** Continuation bytes up to bit position 35. *)
Lemma varint32_loop_prefix bs : Forall (λ b, 128 <= b < 256) bs → ∀ fuel rest n e result s,
  (length bs <= 4)%nat → Z.of_nat (length bs) <= n < 2 ^ 64 →
  0 <= result < 2 ^ Z.min 32 (7 * (5 - Z.of_nat (length bs))) →
  varint32_loop (length bs + fuel) (buf_stream (bs ++ rest) n e) result
    (7 * (5 - Z.of_nat (length bs))) s =
  varint32_loop fuel (buf_stream rest (n - Z.of_nat (length bs)) e)
    ((result + varint_value bs * 2 ^ (7 * (5 - Z.of_nat (length bs)))) mod 2 ^ 32) 35 s.
Proof.
  induction 1 as [|b bs Hb Hbs IH]; intros fuel rest n e result s Hl Hn Hr; cbn [length] in *.
  - cbn [app varint_value Nat.add]. rewrite Z.mul_0_l, Z.add_0_r, Z.mod_small by exact Hr.
    change (7 * (5 - Z.of_nat 0)) with 35. change (Z.of_nat 0) with 0. by rewrite Z.sub_0_r.
  - set (bitpos := 7 * (5 - Z.of_nat (S (length bs)))) in *.
    assert (7 <= bitpos <= 28) by lia. rewrite Z.min_r in Hr by lia.
    cbn [app Nat.add]. rewrite varint32_loop_low by (unfold is_byte; lia). cbv zeta.
    rewrite (proj2 (Z.ltb_ge b 128)) by lia.
    assert (bitpos + 7 = 7 * (5 - Z.of_nat (length bs))) as E by lia. rewrite E.
    assert (0 < 2 ^ bitpos) by (apply Z.pow_pos_nonneg; lia).
    assert (0 < 2 ^ (32 - bitpos)) by (apply Z.pow_pos_nonneg; lia).
    pose proof (Z.mod_pos_bound b 128 ltac:(lia)) as Hb7.
    pose proof (Z.mod_pos_bound (b mod 128) (2 ^ (32 - bitpos)) ltac:(lia)) as Hbm.
    pose proof (Z.mod_le (b mod 128) (2 ^ (32 - bitpos)) ltac:(lia) ltac:(lia)) as Hble.
    assert (2 ^ 32 = 2 ^ (32 - bitpos) * 2 ^ bitpos) as E32
      by (rewrite <- Z.pow_add_r by lia; f_equal; lia).
    rewrite IH; [|lia|lia|].
    + replace (n - 1 - Z.of_nat (length bs)) with (n - Z.of_nat (S (length bs))) by lia.
      f_equal. rewrite <- E, (Z.pow_add_r 2 bitpos 7) by lia. cbn [varint_value].
      rewrite <- (Z.mod_add _ (b mod 128 / 2 ^ (32 - bitpos)) (2 ^ 32)) by lia.
      f_equal. rewrite E32. change (2 ^ 7) with 128.
      pose proof (Z.div_mod (b mod 128) (2 ^ (32 - bitpos)) ltac:(lia)). nia.
    + rewrite <- E. destruct (Z.min_spec 32 (bitpos + 7)) as [[? ->]|[? ->]].
      * assert (bitpos = 28) as -> by lia. change (2 ^ (32 - 28)) with 16 in *. lia.
      * rewrite Z.pow_add_r by lia. nia.
Qed.

(** The first five bytes, all with the continuation bit. *)
Lemma decode_varint32_eof_long b bs tail rest n e s :
  length bs = 4%nat → Forall (λ b, 128 <= b < 256) (b :: bs) →
  5 + Z.of_nat (length tail) <= n < 2 ^ 64 →
  pb_decode_varint32_eof (buf_stream ((b :: bs) ++ tail ++ rest) n e) s =
  match varint32_loop (Z.to_nat (n - 4)) (buf_stream (tail ++ rest) (n - 5) e)
          (varint_value (b :: bs) mod 2 ^ 32) 35 s with
  | Ok (stream, r, s') => Ok (stream, r, false, s')
  | UB => UB
  | NoFuel => NoFuel
  end.
Proof.
  intros Hl [Hb Hbs]%Forall_cons_1 Hn.
  unfold pb_decode_varint32_eof, mbind, M_bind. cbn [app].
  rewrite readbyte_buf by lia. rewrite land_128_byte by (unfold is_byte; lia).
  rewrite (proj2 (Z.ltb_ge b 128)) by lia. cbn [Z.eqb bytes_left buf_stream].
  replace (S (Z.to_nat (n - 1))) with (length bs + Z.to_nat (n - 4))%nat by lia.
  rewrite land_127. pose proof (Z.mod_pos_bound b 128 ltac:(lia)).
  pose proof (varint32_loop_prefix bs Hbs (Z.to_nat (n - 4)) (tail ++ rest) (n - 1) e
                (b mod 128) s) as P.
  rewrite Hl in P. change (7 * (5 - Z.of_nat 4)) with 7 in P. rewrite Hl.
  rewrite P by (change (2 ^ Z.min 32 7) with 128; lia).
  replace (n - 1 - Z.of_nat 4) with (n - 5) by lia. cbn [varint_value].
  rewrite (Z.mul_comm 128 (varint_value bs)). change (2 ^ 7) with 128.
  clear P. by destruct (varint32_loop _ _ _ _ _) as [[[? ?] ?]| |].
Qed.
End decode_varint32.

(** A list of at least five bytes splits after the fifth. *)
Lemma canonical_split5 bs :
  canonical bs → (5 < length bs)%nat →
  ∃ b hd tail, bs = (b :: hd) ++ tail ∧ length hd = 4%nat ∧
    Forall (λ b, 128 <= b < 256) (b :: hd) ∧ canonical tail ∧ varint_value tail ≠ 0.
Proof.
  intros Hc Hl.
  do 5 (destruct Hc as [|? ? ? Hc ?]; cbn [length] in Hl; [lia|]).
  eexists _, [_; _; _; _], _. split_and!; [done|done| |done|done].
  repeat constructor; lia.
Qed.

Lemma varint_value_app bs1 bs2 :
  varint_value (bs1 ++ bs2) = varint_value bs1 + varint_value bs2 * 2 ^ (7 * Z.of_nat (length bs1)).
Proof.
  induction bs1 as [|b bs1 IH]; cbn [app varint_value length]; [simpl; lia|].
  rewrite IH, pow2_7_S. lia.
Qed.

(** * What an encoding function promises about the bytes it writes, as one predicate that covers the sizing stream, a buffer with enough room and a buffer that is too small; closed under sequencing, so that the promises of the encoder are assembled from those of [pb_write] *)
Abbreviation zlen l := (Z.of_nat (length l)).

(** A stream on a buffer: [out] has been stored and [room] bytes of the buffer
    are unused. The limit of a substream may be below the room. *)
Record obuf_ok (o : pb_ostream_t) (out : list Z) (room : Z) : Prop := {
  ok_callback : o_callback o = Some CbBuf;
  ok_state : o_state o = OBuf out room;
  ok_written : 0 <= bytes_written o <= max_size o;
  ok_max : max_size o < 2 ^ 64;
  ok_room : 0 <= room;
  ok_total : bytes_written o + room < 2 ^ 64;
  ok_errmsg : o_errmsg o = None
}.

(** The bytes fit in the stream's limit and in its buffer; the limit does not
    exceed the buffer. *)
Definition fits (o : pb_ostream_t) (room : Z) (bs : list Z) : Prop :=
  bytes_written o + zlen bs <= max_size o ∧ zlen bs <= room.
Definition within (o : pb_ostream_t) (room : Z) : Prop := max_size o - bytes_written o <= room.

(** The stream after [bs] has been written to it. *)
Definition put (o : pb_ostream_t) (out : list Z) (room : Z) (bs : list Z) : pb_ostream_t :=
  mk_ostream (Some CbBuf) (OBuf (out ++ bs) (room - zlen bs)) (max_size o)
    (bytes_written o + zlen bs) None.

Definition writer (W : Type) : Type := pb_ostream_t → M W (bool * pb_ostream_t).

(** [w] writes [bs]: on a sizing stream it counts them, in a buffer with room for
    them it stores them, and in a buffer that is too small it reports so, having
    stored a prefix. *)
Record emits {W} (w : writer W) (bs : list Z) (s : st W) : Prop := {
  emits_sizing o :
    o_callback o = None → 0 <= bytes_written o < 2 ^ 64 →
    w o s = Ok (true, set_bytes_written (u64 (bytes_written o + zlen bs)) o, s);
  emits_buffer o out room :
    obuf_ok o out room → fits o room bs → w o s = Ok (true, put o out room bs, s);
  emits_full o out room :
    obuf_ok o out room → within o room → max_size o < bytes_written o + zlen bs < 2 ^ 64 →
    ∃ o' pre, w o s = Ok (false, o', s) ∧ o_errmsg o' = Some "stream full"%string ∧
      pre `prefix_of` bs ∧ o_state o' = OBuf (out ++ pre) (room - zlen pre)
}.

Section emits.
Context {W : Type}.
Implicit Types s : st W.
Implicit Types w : writer W.

Lemma put_ok o out room bs :
  obuf_ok o out room → fits o room bs →
  obuf_ok (put o out room bs) (out ++ bs) (room - zlen bs).
Proof. intros [???????] [??]. split; simpl; try done; lia. Qed.

Lemma put_within o out room bs : within o room → within (put o out room bs) (room - zlen bs).
Proof. unfold within. simpl. lia. Qed.

Lemma put_put o out room b1 b2 :
  put (put o out room b1) (out ++ b1) (room - zlen b1) b2 = put o out room (b1 ++ b2).
Proof.
  unfold put. simpl. rewrite app_assoc, length_app, Nat2Z.inj_add, Z.sub_add_distr, Z.add_assoc.
  done.
Qed.

Lemma fits_app o out room b1 b2 :
  fits o room (b1 ++ b2) ↔ fits o room b1 ∧ fits (put o out room b1) (room - zlen b1) b2.
Proof. unfold fits. rewrite length_app. simpl. lia. Qed.

Lemma emits_ext w1 w2 bs s : (∀ o, w1 o s = w2 o s) → emits w2 bs s → emits w1 bs s.
Proof. intros E [H1 H2 H3]. split; intros; rewrite E; eauto. Qed.

Lemma emits_ret s : emits (λ o, mret (true, o)) [] s.
Proof.
  split.
  - intros [cb stt mx bw e] Hc Hbw. unfold set_bytes_written. simpl in *.
    by rewrite Z.add_0_r, u64_small.
  - intros o out room [Hc Hst ???? He] _. unfold put. rewrite app_nil_r. simpl.
    rewrite Z.sub_0_r, Z.add_0_r. destruct o; simpl in *. by subst.
  - intros o out room Hok. simpl. destruct Hok. lia.
Qed.

(** Sequencing, as the encoder writes it: [k] ends a failed first part. *)
Lemma emits_seq_with w1 w2 (k : writer W) b1 b2 s :
  (∀ o, ∃ o', k o s = Ok (false, o', s) ∧ o_state o' = o_state o ∧
              (is_Some (o_errmsg o) → o_errmsg o' = o_errmsg o)) →
  emits w1 b1 s → emits w2 b2 s →
  emits (λ o, '(ok, o) ← w1 o; if negb ok then k o else w2 o) (b1 ++ b2) s.
Proof.
  intros Hk [S1 B1 F1] [S2 B2 F2].
  assert (zlen (b1 ++ b2) = zlen b1 + zlen b2) as El by (rewrite length_app; lia).
  split.
  - intros o Hc Hbw. unfold mbind, M_bind. rewrite S1 by done. cbn [negb].
    rewrite S2 by (done || apply u64_range). unfold set_bytes_written. simpl. do 4 f_equal.
    rewrite El. unfold u64. rewrite Zplus_mod_idemp_l. f_equal. lia.
  - intros o out room Hok [Hm1 Hm2]%(fits_app _ out). unfold mbind, M_bind.
    rewrite (B1 o out room) by done. cbn [negb].
    rewrite (B2 _ (out ++ b1) (room - zlen b1)); [by rewrite put_put|by apply put_ok|done].
  - intros o out room Hok Hw Hm. unfold mbind, M_bind.
    destruct (decide (bytes_written o + zlen b1 <= max_size o)) as [Hle|Hgt].
    + assert (fits o room b1) by (unfold fits, within in *; lia).
      rewrite (B1 o out room) by done. cbn [negb].
      destruct (F2 (put o out room b1) (out ++ b1) (room - zlen b1)) as (o' & pre & E & He & Hp & Hs);
        [by apply put_ok|by apply put_within|simpl; lia|].
      exists o', (b1 ++ pre). split_and!; [done|done|by apply prefix_app|].
      rewrite Hs, app_assoc. f_equal. rewrite length_app. lia.
    + destruct (F1 o out room) as (o' & pre & -> & He & Hp & Hs); [done|done|lia|].
      cbn [negb]. destruct (Hk o') as (o'' & -> & Hst & Herr).
      exists o'', pre. rewrite Hst, Herr by (rewrite He; eauto).
      split_and!; [done|done|by apply prefix_app_r|done].
Qed.

Lemma emits_seq w1 w2 b1 b2 s :
  emits w1 b1 s → emits w2 b2 s →
  emits (λ o, '(ok, o) ← w1 o; if negb ok then mret (false, o) else w2 o) (b1 ++ b2) s.
Proof. apply (emits_seq_with w1 w2 (λ o, mret (false, o))). intros o. by exists o. Qed.

Lemma emits_fits w bs s o out room :
  emits w bs s → obuf_ok o out room → fits o room bs →
  w o s = Ok (true, put o out room bs, s).
Proof. intros E. apply E. Qed.

Lemma emits_within w bs s o out room :
  emits w bs s → obuf_ok o out room → within o room → bytes_written o + zlen bs <= max_size o →
  w o s = Ok (true, put o out room bs, s).
Proof. intros E Ho Hw Hm. apply (emits_fits _ _ _ _ _ _ E Ho). unfold fits, within in *. lia. Qed.
End emits.

Section emit_wire.
Context {W : Type} `{UserCode W}.
Implicit Types s : st W.

(** The bytes [pb_write] takes from its argument. *)
Definition wbuf_is (buf : wbuf) (bs : list Z) s : Prop :=
  read_wbuf buf (zlen bs) s = Ok (bs, s).

Lemma wbuf_local bs s : wbuf_is (BLocal bs) bs s.
Proof.
  unfold wbuf_is, read_wbuf. rewrite (proj2 (Z.ltb_ge _ _)) by lia.
  by rewrite Nat2Z.id, firstn_all.
Qed.
Lemma wbuf_mem a bs s : mem_load (mem s) a (length bs) = Some bs → wbuf_is (BMem a) bs s.
Proof. intros E. unfold wbuf_is, read_wbuf, load. by rewrite Nat2Z.id, E. Qed.
Lemma wbuf_null s : wbuf_is BNull [] s.
Proof. done. Qed.

Lemma pb_write_emits buf bs s :
  wbuf_is buf bs s → emits (λ o, pb_write o buf (zlen bs)) bs s.
Proof.
  intros Hbuf. split.
  - intros o Hc Hbw. unfold pb_write. by rewrite Hc.
  - intros o out room [Hc Hst Hw Hmx Hr Ht He] [Hm Hf]. unfold pb_write. rewrite Hc.
    rewrite u64_small by lia. rewrite (proj2 (Z.ltb_ge _ _)) by lia.
    unfold mbind, M_bind. rewrite Hbuf. unfold buf_write. rewrite Hst.
    rewrite (proj2 (Z.leb_le _ _)) by lia. cbn -[u64]. unfold put, set_bytes_written, set_ostate.
    cbn -[u64]. by rewrite Hc, He, u64_small by lia.
  - intros o out room [Hc Hst Hw Hmx Hr Ht He] Hwi Hm. unfold pb_write. rewrite Hc.
    rewrite u64_small by lia. rewrite (proj2 (Z.ltb_lt _ _)) by lia.
    eexists _, []. split_and!; [reflexivity| |apply prefix_nil|].
    + simpl. by rewrite He.
    + simpl. rewrite Hst. by rewrite app_nil_r, Z.sub_0_r.
Qed.

Lemma encode_varint_emits v s :
  0 <= v < 2 ^ 64 → emits (λ o, pb_encode_varint o v) (varint v) s.
Proof.
  intros Hv. eapply emits_ext; [intros o; by apply encode_varint_write|].
  apply pb_write_emits, wbuf_local.
Qed.
End emit_wire.
