(* ===== verification/PbWireProps.v ===== *)
(** The wire format on memory buffers: what the readers of [PbStream] do with
    every input, and the round trips between its writers and its readers.

    Correctness of the wire format on memory buffers: encoding and decoding of
    integers, tags and strings, and skipping of unknown fields. *)
From S2P Require Import Prelude Mem Pb PbStream PbVarint.
(** * Payloads

    The bytes that follow a tag of wire type [wt]. *)
Inductive wire_payload : Z → list Z → Prop :=
  | payload_varint bs : is_varint bs → wire_payload PB_WT_VARINT bs
  | payload_64bit bs : length bs = 8%nat → wire_payload PB_WT_64BIT bs
  | payload_string bs : zlen bs < 2 ^ 32 → wire_payload PB_WT_STRING (varint (zlen bs) ++ bs)
  | payload_32bit bs : length bs = 4%nat → wire_payload PB_WT_32BIT bs.

(** The tag of a field on the wire. *)
Definition wire_tag (wt tag : Z) : Z := 8 * tag + wt.

(** * Shortest varints are unique *)

Lemma leb128_unique bs : canonical bs → ∀ k,
  varint_value bs < 2 ^ (7 * Z.of_nat (S k)) → leb128 k (varint_value bs) = bs.
Proof.
  induction 1 as [b Hb|b bs Hb Hbs IH Hv]; intros k Hk; cbn [varint_value] in *.
  - rewrite Z.mul_0_r, Z.add_0_r, Z.mod_small by lia.
    destruct k as [|k]; simpl; [done|]. by rewrite (proj2 (Z.ltb_lt b 128)) by lia.
  - pose proof (varint_value_bound bs) as Hp.
    pose proof (Z.mod_pos_bound b 128 ltac:(lia)) as Hm.
    destruct k as [|k].
    { change (2 ^ (7 * Z.of_nat 1)) with 128 in Hk. lia. }
    rewrite pow2_7_S in Hk. cbn [leb128]. rewrite (proj2 (Z.ltb_ge _ _)) by lia.
    rewrite (Z.mul_comm 128), Z.mod_add, Z.div_add by lia.
    rewrite Z.mod_mod, (Z.div_small (b mod 128)), Z.add_0_l by lia.
    rewrite IH by lia. f_equal. Z.div_mod_to_equations. lia.
Qed.

(** * Reading *)

Lemma varint_prefix_cases (m : nat) (input : list Z) :
  Forall is_byte input →
  (∃ bs rest, input = bs ++ rest ∧ is_varint bs ∧ (length bs <= m)%nat) ∨
  (∃ bs rest, input = bs ++ rest ∧ Forall (λ b, 128 <= b < 256) bs ∧
    (length bs = m ∨ (length bs < m)%nat ∧ rest = [])).
Proof.
  revert input. unfold is_byte. induction m as [|m IH]; intros input Hin.
  { right. exists [], input. split_and!; [done|constructor|by left]. }
  destruct Hin as [|b input Hb Hin].
  { right. exists [], []. split_and!; [done|constructor|right; simpl; split; [lia|done]]. }
  destruct (decide (b < 128)).
  { left. exists [b], input. split_and!; [done|constructor; lia|simpl; lia]. }
  destruct (IH input Hin) as [(bs & rest & -> & Hv & Hl)|(bs & rest & -> & Hf & Hl)].
  - left. exists (b :: bs), rest. split_and!; [done|constructor; [lia|done]|simpl; lia].
  - right. exists (b :: bs), rest. split_and!; [done|constructor; [lia|done]|].
    simpl. destruct Hl as [->|[? ->]]; [by left|right; split; [lia|done]].
Qed.

Section reading.
Context {W : Type} `{UserCode W}.
Implicit Types s : st W.

(** Continuation bytes up to the end of the stream. *)
Lemma varint_loop_end bs : Forall (λ b, 128 <= b < 256) bs → ∀ fuel rest e result bitpos s,
  0 <= bitpos → bitpos + 7 * zlen bs <= 63 → 0 <= result < 2 ^ bitpos →
  varint_loop (S (length bs + fuel)) (buf_stream (bs ++ rest) (zlen bs) e) result bitpos s =
  Ok (buf_stream rest 0 (PB_SET_ERROR e "end-of-stream"), None, s).
Proof.
  induction 1 as [|b bs Hb Hbs IH]; intros fuel rest e result bitpos s H0 Hl Hr; cbn [length] in *.
  - cbn [varint_loop app Nat.add]. rewrite (proj2 (Z.leb_gt 64 bitpos)) by lia. done.
  - cbn [app Nat.add]. rewrite varint_loop_step by (unfold is_byte; lia). cbv zeta.
    rewrite (proj2 (Z.ltb_ge b 128)) by lia.
    replace (Z.of_nat (S (length bs)) - 1) with (zlen bs) by lia.
    apply IH; [lia|lia|]. rewrite Z.pow_add_r by lia.
    pose proof (Z.mod_pos_bound b 128 ltac:(lia)).
    assert (0 < 2 ^ (64 - bitpos)) by (apply Z.pow_pos_nonneg; lia).
    pose proof (Z.mod_pos_bound (b mod 128) (2 ^ (64 - bitpos)) ltac:(lia)).
    pose proof (Z.mod_le (b mod 128) (2 ^ (64 - bitpos)) ltac:(lia) ltac:(lia)). nia.
Qed.

Lemma decode_varint_overflow bs rest n e s :
  Forall (λ b, 128 <= b < 256) bs → length bs = 10%nat → 10 <= n < 2 ^ 64 →
  pb_decode_varint (buf_stream (bs ++ rest) n e) s =
  Ok (buf_stream rest (n - 10) (PB_SET_ERROR e "varint overflow"), None, s).
Proof.
  intros Hb Hl Hn. pose proof (varint_loop_overflow bs Hb rest n e 0 s) as P.
  rewrite Hl in P. change (7 * (10 - Z.of_nat 10)) with 0 in P. apply P; simpl; lia.
Qed.

Lemma decode_varint32_eof_canonical v rest n e s :
  0 <= v < 2 ^ 32 → zlen (varint v) <= n < 2 ^ 64 →
  pb_decode_varint32_eof (buf_stream (varint v ++ rest) n e) s =
  Ok (buf_stream rest (n - zlen (varint v)) e, Some v, false, s).
Proof.
  intros Hv Hn. rewrite decode_varint32_eof_buf; [|apply varint_is_varint; lia| |done].
  - rewrite varint_value_varint by lia. by rewrite (proj2 (Z.ltb_lt v _)) by lia.
  - apply (leb128_length_bound 4). simpl. lia.
Qed.

Lemma decode_varint32_canonical v rest n e s :
  0 <= v < 2 ^ 32 → zlen (varint v) <= n < 2 ^ 64 →
  pb_decode_varint32 (buf_stream (varint v ++ rest) n e) s =
  Ok (buf_stream rest (n - zlen (varint v)) e, Some v, s).
Proof.
  intros Hv Hn. unfold pb_decode_varint32, mbind, M_bind.
  by rewrite decode_varint32_eof_canonical by done.
Qed.

Lemma decode_tag_buf wt tag rest n e s :
  0 <= wt < 8 → 0 < tag < 2 ^ 29 → zlen (varint (wire_tag wt tag)) <= n < 2 ^ 64 →
  pb_decode_tag (buf_stream (varint (wire_tag wt tag) ++ rest) n e) s =
  Ok (true, buf_stream rest (n - zlen (varint (wire_tag wt tag))) e, wt, tag, false, s).
Proof.
  unfold wire_tag. intros Hw Ht Hn. unfold pb_decode_tag, mbind, M_bind.
  rewrite decode_varint32_eof_canonical by lia. rewrite (proj2 (Z.eqb_neq _ 0)) by lia.
  rewrite (Z.land_ones _ 3), Z.shiftr_div_pow2 by lia. change (2 ^ 3) with 8.
  replace (8 * tag + wt) with (wt + tag * 8) by lia.
  rewrite Z.mod_add, Z.div_add by lia. by rewrite Z.mod_small, Z.div_small by lia.
Qed.

Lemma make_substream_buf bs rest n e s :
  zlen bs < 2 ^ 32 → zlen (varint (zlen bs)) + zlen bs <= n < 2 ^ 64 →
  pb_make_string_substream (buf_stream (varint (zlen bs) ++ bs ++ rest) n e) s =
  Ok (buf_stream (bs ++ rest) (n - zlen (varint (zlen bs)) - zlen bs) e,
      Some (buf_stream (bs ++ rest) (zlen bs) e), s).
Proof.
  intros Hb Hn. unfold pb_make_string_substream, mbind, M_bind.
  rewrite decode_varint32_canonical by lia. cbn [bytes_left buf_stream].
  rewrite (proj2 (Z.ltb_ge _ _)) by lia. unfold set_bytes_left, buf_stream.
  cbn [bytes_left i_callback i_state i_errmsg]. by rewrite u64_small by lia.
Qed.

(** Closing skips what is left of the substream. *)
Lemma close_substream_buf any bs rest n e e' s :
  zlen bs < 2 ^ 64 →
  pb_close_string_substream (buf_stream any n e)
    (buf_stream (bs ++ rest) (zlen bs) e') s =
  Ok (true, buf_stream rest n e', s).
Proof.
  intros Hb. unfold pb_close_string_substream, mbind, M_bind.
  cbn [bytes_left buf_stream]. destruct (Z.eqb_spec (zlen bs) 0) as [E|E]; cbn [negb].
  - by rewrite (nil_length_inv bs) by lia.
  - by rewrite read_null_buf by lia.
Qed.

Lemma skip_varint_buf bs : is_varint bs → ∀ fuel rest n e s,
  (length bs <= fuel)%nat → zlen bs <= n < 2 ^ 64 →
  skip_varint_loop fuel (buf_stream (bs ++ rest) n e) s =
  Ok (true, buf_stream rest (n - zlen bs) e, s).
Proof.
  induction 1 as [b Hb|b bs Hb Hbs IH]; intros fuel rest n e s Hf Hn; cbn [length] in *;
    (destruct fuel as [|fuel]; [lia|]); cbn [skip_varint_loop app];
    unfold mbind, M_bind, pb_read; change (b :: ?l) with ([b] ++ l);
    (rewrite (read_buf [b]) by (simpl; lia)); cbn [negb];
    rewrite land_128_byte by (unfold is_byte; lia).
  - by rewrite (proj2 (Z.ltb_lt b 128)) by lia.
  - rewrite (proj2 (Z.ltb_ge b 128)) by lia. cbn [length Z.eqb negb].
    rewrite IH by lia. do 3 f_equal. f_equal. lia.
Qed.

Lemma skip_field_buf wt bs rest n e s :
  wire_payload wt bs → zlen bs <= n < 2 ^ 64 →
  pb_skip_field (buf_stream (bs ++ rest) n e) wt s =
  Ok (true, buf_stream rest (n - zlen bs) e, s).
Proof.
  intros Hp Hn. unfold pb_skip_field. destruct Hp as [bs Hv|bs Hl|bs Hl|bs Hl];
    cbn [Z.eqb Pos.eqb PB_WT_VARINT PB_WT_64BIT PB_WT_STRING PB_WT_32BIT].
  - unfold pb_skip_varint. apply skip_varint_buf; [done| |done]. cbn [bytes_left buf_stream]. lia.
  - replace 8 with (zlen bs) by lia. by apply read_null_buf.
  - unfold pb_skip_string, mbind, M_bind.
    rewrite length_app in *. rewrite <- app_assoc.
    rewrite decode_varint32_canonical by lia. rewrite read_null_buf by lia.
    do 3 f_equal. f_equal. lia.
  - replace 4 with (zlen bs) by lia. by apply read_null_buf.
Qed.
End reading.

(** * Fixed-width integers *)

Lemma byte_of_shift v k n :
  n = 8 * k → 0 <= k → u8 (Z.land (Z.shiftr v n) 0xFF) = (v / 256 ^ k) mod 256.
Proof.
  intros -> Hk. rewrite land_255, Z.shiftr_div_pow2 by lia. unfold u8.
  change (2 ^ 8) with 256. rewrite Z.mod_mod by lia.
  by rewrite (Z.pow_mul_r 2 8 k) by lia.
Qed.

Lemma shifts_le_bytes v :
  [u8 (Z.land v 0xFF); u8 (Z.land (Z.shiftr v 8) 0xFF); u8 (Z.land (Z.shiftr v 16) 0xFF);
   u8 (Z.land (Z.shiftr v 24) 0xFF)] = le_bytes 4 v.
Proof.
  pose proof (byte_of_shift v 0 0 ltac:(lia) ltac:(lia)) as E0. rewrite Z.shiftr_0_r in E0. rewrite E0.
  rewrite (byte_of_shift v 1 8), (byte_of_shift v 2 16), (byte_of_shift v 3 24) by lia.
  cbn [le_bytes]. rewrite !Z.div_div by lia. by rewrite Z.div_1_r.
Qed.

Lemma le_bytes_app n m v :
  le_bytes (n + m) v = le_bytes n v ++ le_bytes m (v / 256 ^ Z.of_nat n).
Proof.
  revert v. induction n as [|n IH]; intros v.
  { simpl. by rewrite Z.div_1_r. }
  cbn [Nat.add le_bytes app]. f_equal. rewrite IH. do 2 f_equal.
  rewrite Z.div_div by (try apply Z.pow_pos_nonneg; lia). f_equal.
  rewrite Nat2Z.inj_succ, Z.pow_succ_r by lia. lia.
Qed.

Lemma shifts_le_bytes_64 v :
  [u8 (Z.land v 0xFF); u8 (Z.land (Z.shiftr v 8) 0xFF); u8 (Z.land (Z.shiftr v 16) 0xFF);
   u8 (Z.land (Z.shiftr v 24) 0xFF); u8 (Z.land (Z.shiftr v 32) 0xFF);
   u8 (Z.land (Z.shiftr v 40) 0xFF); u8 (Z.land (Z.shiftr v 48) 0xFF);
   u8 (Z.land (Z.shiftr v 56) 0xFF)] = le_bytes 8 v.
Proof.
  rewrite (le_bytes_app 4 4). change (256 ^ Z.of_nat 4) with (2 ^ 32).
  rewrite <- !shifts_le_bytes, <- !Z.shiftr_div_pow2 by lia. by rewrite !Z.shiftr_shiftr by lia.
Qed.

(** A little-endian number one byte at a time, from [acc] of [n] bits. *)
Lemma lor_byte acc b n :
  0 <= n → 0 <= acc < 2 ^ n → is_byte b →
  Z.lor acc (Z.shiftl b n) = acc + b * 2 ^ n ∧ 0 <= acc + b * 2 ^ n < 2 ^ (n + 8).
Proof.
  unfold is_byte. intros Hn Ha Hb. split; [apply lor_disjoint_add; lia|].
  rewrite Z.pow_add_r by lia. nia.
Qed.

Lemma lor_le_of_bytes_32 b0 b1 b2 b3 :
  Forall is_byte [b0; b1; b2; b3] →
  Z.lor (Z.lor (Z.lor (Z.shiftl b0 0) (Z.shiftl b1 8)) (Z.shiftl b2 16)) (Z.shiftl b3 24) =
  le_of_bytes [b0; b1; b2; b3].
Proof.
  intros Hb. repeat (apply Forall_cons_1 in Hb as [? Hb]). rewrite Z.shiftl_0_r.
  destruct (lor_byte b0 b1 8) as [-> ?]; [lia|done|done|].
  destruct (lor_byte (b0 + b1 * 2 ^ 8) b2 16) as [-> ?]; [lia|done|done|].
  destruct (lor_byte (b0 + b1 * 2 ^ 8 + b2 * 2 ^ 16) b3 24) as [-> ?]; [lia|done|done|].
  cbn [le_of_bytes]. lia.
Qed.

Lemma lor_le_of_bytes_64 b0 b1 b2 b3 b4 b5 b6 b7 :
  Forall is_byte [b0; b1; b2; b3; b4; b5; b6; b7] →
  Z.lor (Z.lor (Z.lor (Z.lor (Z.lor (Z.lor (Z.lor (Z.shiftl b0 0) (Z.shiftl b1 8))
    (Z.shiftl b2 16)) (Z.shiftl b3 24)) (Z.shiftl b4 32)) (Z.shiftl b5 40))
    (Z.shiftl b6 48)) (Z.shiftl b7 56) =
  le_of_bytes [b0; b1; b2; b3; b4; b5; b6; b7].
Proof.
  intros Hb. pose proof Hb as Hb'. repeat (apply Forall_cons_1 in Hb as [? Hb]).
  rewrite lor_le_of_bytes_32 by forall_list.
  set (lo := le_of_bytes [b0; b1; b2; b3]).
  assert (0 <= lo < 2 ^ 32) by (apply (le_of_bytes_bound [b0; b1; b2; b3]); forall_list).
  destruct (lor_byte lo b4 32) as [-> ?]; [lia|done|done|].
  destruct (lor_byte (lo + b4 * 2 ^ 32) b5 40) as [-> ?]; [lia|done|done|].
  destruct (lor_byte (lo + b4 * 2 ^ 32 + b5 * 2 ^ 40) b6 48) as [-> ?]; [lia|done|done|].
  destruct (lor_byte (lo + b4 * 2 ^ 32 + b5 * 2 ^ 40 + b6 * 2 ^ 48) b7 56) as [-> ?];
    [lia|done|done|].
  unfold lo. cbn [le_of_bytes]. lia.
Qed.

(** * Zigzag *)

Lemma zigzag_range v : - 2 ^ 63 <= v < 2 ^ 63 → 0 <= zigzag v < 2 ^ 64.
Proof. unfold zigzag. destruct (Z.ltb_spec v 0); lia. Qed.

Lemma zigzag_encode v :
  - 2 ^ 63 <= v < 2 ^ 63 →
  (if v <? 0 then u64 (Z.lnot (u64 (Z.shiftl (u64 v) 1))) else u64 (Z.shiftl (u64 v) 1))
  = zigzag v.
Proof.
  intros Hv. rewrite Z.shiftl_mul_pow2 by lia. unfold zigzag, u64, Z.lnot.
  destruct (Z.ltb_spec v 0); Z.div_mod_to_equations; lia.
Qed.

Lemma zigzag_decode v :
  - 2 ^ 63 <= v < 2 ^ 63 →
  (if negb (Z.land (zigzag v) 1 =? 0) then s64 (u64 (Z.lnot (Z.shiftr (zigzag v) 1)))
   else s64 (Z.shiftr (zigzag v) 1)) = v.
Proof.
  intros Hv. rewrite (Z.land_ones _ 1), Z.shiftr_div_pow2 by lia. change (2 ^ 1) with 2.
  unfold s64, zigzag, Z.lnot. destruct (Z.ltb_spec v 0).
  - replace ((-2 * v - 1) mod 2) with 1 by (Z.div_mod_to_equations; lia). cbn [Z.eqb negb].
    replace ((-2 * v - 1) / 2) with (- v - 1) by (Z.div_mod_to_equations; lia).
    replace (Z.pred (- (- v - 1))) with v by lia. unfold u64, swrap.
    rewrite Z.add_mod_idemp_l by lia. fold (swrap 64 v). apply swrap_small; lia.
  - replace ((2 * v) mod 2) with 0 by (Z.div_mod_to_equations; lia). cbn [Z.eqb negb].
    replace (2 * v / 2) with v by (Z.div_mod_to_equations; lia). apply swrap_small; lia.
Qed.

(** * Writing *)

Lemma obuf_fresh n : 0 <= n < 2 ^ 64 → obuf_ok (pb_ostream_from_buffer n) [] n.
Proof. intros Hn. split; simpl; try done; lia. Qed.

Lemma within_fresh n : within (pb_ostream_from_buffer n) n.
Proof. unfold within. simpl. lia. Qed.

Lemma varint_zlen v : 1 <= zlen (varint v) <= 10.
Proof. pose proof (varint_length v). lia. Qed.

Section writing.
Context {W : Type} `{UserCode W}.
Implicit Types s : st W.

Lemma encode_svarint_emits v s :
  - 2 ^ 63 <= v < 2 ^ 63 → emits (λ o, pb_encode_svarint o v) (varint (zigzag v)) s.
Proof.
  intros Hv. eapply emits_ext; [|apply encode_varint_emits, zigzag_range, Hv].
  intros o. unfold pb_encode_svarint. by rewrite zigzag_encode by done.
Qed.

Lemma encode_tag_emits wt tag s :
  0 <= wt < 8 → 0 <= tag < 2 ^ 61 →
  emits (λ o, pb_encode_tag o wt tag) (varint (wire_tag wt tag)) s.
Proof.
  intros Hw Ht. eapply emits_ext; [|apply encode_varint_emits; unfold wire_tag; lia].
  intros o. unfold pb_encode_tag, wire_tag. f_equal.
  rewrite Z.lor_comm, u64_small by (rewrite Z.shiftl_mul_pow2; lia).
  rewrite lor_disjoint_add by (simpl; lia). lia.
Qed.

Lemma encode_string_emits buf bs s :
  wbuf_is buf bs s → zlen bs < 2 ^ 64 →
  emits (λ o, pb_encode_string o buf (zlen bs)) (varint (zlen bs) ++ bs) s.
Proof.
  intros Hbuf Hl.
  apply (emits_seq (λ o, pb_encode_varint o (zlen bs)) (λ o, pb_write o buf (zlen bs))).
  - apply encode_varint_emits. lia.
  - by apply pb_write_emits.
Qed.

Lemma encode_fixed32_emits a bs s :
  mem_load (mem s) a 4 = Some bs → Forall is_byte bs →
  emits (λ o, pb_encode_fixed32 o a) bs s.
Proof.
  intros Hl Hb. pose proof (mem_load_length _ _ _ _ Hl) as Hlen.
  eapply emits_ext; [|apply (pb_write_emits (BLocal bs)), wbuf_local].
  intros o. unfold pb_encode_fixed32, load_uint, load, mbind, M_bind, mret, M_ret.
  rewrite Hl, shifts_le_bytes, Hlen. rewrite <- (le_bytes_le_of_bytes bs Hb) at 2.
  by rewrite Hlen.
Qed.

Lemma encode_fixed64_emits a bs s :
  mem_load (mem s) a 8 = Some bs → Forall is_byte bs →
  emits (λ o, pb_encode_fixed64 o a) bs s.
Proof.
  intros Hl Hb. pose proof (mem_load_length _ _ _ _ Hl) as Hlen.
  eapply emits_ext; [|apply (pb_write_emits (BLocal bs)), wbuf_local].
  intros o. unfold pb_encode_fixed64, load_uint, load, mbind, M_bind, mret, M_ret.
  rewrite Hl, shifts_le_bytes_64, Hlen. rewrite <- (le_bytes_le_of_bytes bs Hb) at 2.
  by rewrite Hlen.
Qed.

(** The fixed-width readers store the bytes they read. *)
Lemma decode_fixed32_buf bs rest n e dest s m' :
  length bs = 4%nat → Forall is_byte bs → 4 <= n < 2 ^ 64 →
  mem_store (mem s) dest bs = Some m' →
  pb_decode_fixed32 (buf_stream (bs ++ rest) n e) dest s =
  Ok (true, buf_stream rest (n - 4) e, set_mem m' s).
Proof.
  intros Hl Hb Hn Hm. unfold pb_decode_fixed32, pb_read, mbind, M_bind.
  replace 4 with (zlen bs) at 1 by lia. rewrite read_buf by lia. cbn [negb].
  destruct bs as [|b0 [|b1 [|b2 [|b3 [|? ?]]]]]; try done.
  rewrite lor_le_of_bytes_32 by done. unfold store_uint, store.
  pose proof (le_bytes_le_of_bytes _ Hb) as E. cbn [length] in E. by rewrite E, Hm.
Qed.

Lemma decode_fixed64_buf bs rest n e dest s m' :
  length bs = 8%nat → Forall is_byte bs → 8 <= n < 2 ^ 64 →
  mem_store (mem s) dest bs = Some m' →
  pb_decode_fixed64 (buf_stream (bs ++ rest) n e) dest s =
  Ok (true, buf_stream rest (n - 8) e, set_mem m' s).
Proof.
  intros Hl Hb Hn Hm. unfold pb_decode_fixed64, pb_read, mbind, M_bind.
  replace 8 with (zlen bs) at 1 by lia. rewrite read_buf by lia. cbn [negb].
  destruct bs as [|b0 [|b1 [|b2 [|b3 [|b4 [|b5 [|b6 [|b7 [|? ?]]]]]]]]]; try done.
  rewrite lor_le_of_bytes_64 by done. unfold store_uint, store.
  pose proof (le_bytes_le_of_bytes _ Hb) as E. cbn [length] in E. by rewrite E, Hm.
Qed.

Lemma decode_svarint_buf v rest n e s :
  - 2 ^ 63 <= v < 2 ^ 63 → zlen (varint (zigzag v)) <= n < 2 ^ 64 →
  pb_decode_svarint (buf_stream (varint (zigzag v) ++ rest) n e) s =
  Ok (buf_stream rest (n - zlen (varint (zigzag v))) e, Some v, s).
Proof.
  intros Hv Hn. pose proof (zigzag_range v Hv) as Hz.
  unfold pb_decode_svarint, mbind, M_bind.
  rewrite decode_varint_buf by
    (try apply varint_is_varint; try apply varint_length; done).
  rewrite varint_value_varint, Z.mod_small by done.
  pose proof (zigzag_decode v Hv) as D. destruct (negb _); by rewrite D.
Qed.
End writing.

(** * Sign-extended 32-bit values

    The tail of the varint of a value with the top 33 bits set. *)
Lemma decode_varint32_sign_extended {W} `{UserCode W} v rest n e (s : st W) :
  2 ^ 64 - 2 ^ 31 <= v < 2 ^ 64 → 10 <= n < 2 ^ 64 →
  pb_decode_varint32_eof (buf_stream (varint v ++ rest) n e) s =
  Ok (buf_stream rest (n - 10) e, Some (v mod 2 ^ 32), false, s).
Proof.
  intros Hv Hn.
  pose proof (varint_value_varint v ltac:(lia)) as Ev.
  assert (5 < length (varint v))%nat as Hlen.
  { pose proof (varint_value_bound (varint v)) as B. rewrite Ev in B.
    destruct (decide (5 < length (varint v))%nat); [done|].
    assert (2 ^ (7 * zlen (varint v)) <= 2 ^ 35) by (apply Z.pow_le_mono_r; lia). lia. }
  destruct (canonical_split5 (varint v)) as (b & hd & tail & E & Hhd & Hf & Hc & Ht);
    [apply leb128_canonical; lia|done|].
  assert (varint_value tail = 2 ^ 29 - 1 ∧ varint_value (b :: hd) mod 2 ^ 32 = v mod 2 ^ 32)
    as [Et Eh].
  { rewrite E, varint_value_app in Ev. pose proof (varint_value_bound (b :: hd)) as B.
    cbn [length] in Ev, B. rewrite Hhd in Ev, B.
    change (2 ^ (7 * Z.of_nat 5)) with (2 ^ 35) in Ev, B. set (h := varint_value (b :: hd)) in *.
    split; [lia|]. rewrite <- Ev. replace (2 ^ 35) with (8 * 2 ^ 32) by lia.
    by rewrite Z.mul_assoc, Z.mod_add by lia. }
  assert (tail = [255; 255; 255; 255; 1]) as ->.
  { rewrite <- (leb128_unique tail Hc 9) by (rewrite Et; lia). by rewrite Et. }
  rewrite E, <- app_assoc.
  rewrite (decode_varint32_eof_long b hd) by (done || (simpl; lia)).
  rewrite Eh. set (r := v mod 2 ^ 32).
  assert ((Z.shiftr r 31 =? 0) = false) as Er.
  { rewrite Z.shiftr_div_pow2 by lia. unfold r. apply Z.eqb_neq.
    Z.div_mod_to_equations. lia. }
  replace (Z.to_nat (n - 4)) with (5 + Z.to_nat (n - 9))%nat by lia. cbn [app Nat.add].
  repeat (rewrite varint32_loop_high by (unfold is_byte; lia); rewrite Er; cbn [orb];
    match goal with |- context [if ?c then Ok (_, None, _) else _] =>
      change c with false; cbn [Z.ltb Z.compare Pos.compare Pos.compare_cont] end; cbn iota).
  do 3 f_equal. f_equal. f_equal. lia.
Qed.

Lemma decode_varint32_refused {W} `{UserCode W} v rest n e (s : st W) :
  2 ^ 32 <= v < 2 ^ 63 → 10 <= n < 2 ^ 64 →
  ∃ stream, pb_decode_varint32_eof (buf_stream (varint v ++ rest) n e) s =
            Ok (stream, None, false, s).
Proof.
  intros Hv Hn. pose proof (varint_value_varint v ltac:(lia)) as Ev.
  destruct (decide (length (varint v) <= 5)%nat) as [Hl|Hl].
  { rewrite decode_varint32_eof_buf by (try apply varint_is_varint; lia).
    rewrite Ev, (proj2 (Z.ltb_ge v _)) by lia. eauto. }
  pose proof (leb128_length_bound 8 9 v ltac:(simpl; lia)) as B. fold (varint v) in B.
  destruct (canonical_split5 (varint v)) as (b & hd & tail & E & Hhd & Hf & Hc & Ht);
    [apply leb128_canonical; lia|lia|].
  rewrite E, <- app_assoc. rewrite E, length_app in B. cbn [length] in B.
  rewrite (decode_varint32_eof_long b hd) by (done || lia).
  destruct (varint32_loop_reject tail Hc (Z.to_nat (n - 4)) rest (n - 5) e
              (varint_value (b :: hd) mod 2 ^ 32) 35 s) as [stream ->]; [lia..|done|eauto].
Qed.

Lemma zigzag_bound v k :
  1 <= k → - 2 ^ (k - 1) <= v < 2 ^ (k - 1) → 0 <= zigzag v < 2 ^ k.
Proof.
  intros Hk Hv. assert (2 ^ k = 2 * 2 ^ (k - 1)).
  { replace k with (1 + (k - 1)) at 1 by lia. rewrite Z.pow_add_r by lia. lia. }
  unfold zigzag. destruct (Z.ltb_spec v 0); lia.
Qed.

(** * Correctness of the wire format on memory buffers *)
Section wire.
Context {W : Type} `{UserCode W}.
Implicit Types s : st W.

(** C21: a 64-bit value written by [pb_encode_varint] to a buffer with room for it
    takes one to ten bytes, and [pb_decode_varint] reads exactly these bytes back
    as the same value, whatever follows them. *)
Theorem varint_roundtrip v o out room s :
  0 <= v < 2 ^ 64 → obuf_ok o out room → within o room → bytes_written o + 10 <= max_size o →
  ∃ bs, pb_encode_varint o v s = Ok (true, put o out room bs, s) ∧ 1 <= zlen bs <= 10 ∧
    ∀ rest n e, zlen bs <= n < 2 ^ 64 →
      pb_decode_varint (buf_stream (bs ++ rest) n e) s =
      Ok (buf_stream rest (n - zlen bs) e, Some v, s).
Proof.
  intros Hv Ho Hwi Hm. pose proof (varint_zlen v). exists (varint v). split_and!; [|lia|lia|].
  - apply (emits_within _ _ s _ _ _ (encode_varint_emits v s Hv) Ho Hwi). lia.
  - intros rest n e Hn. rewrite decode_varint_buf;
      [|by apply varint_is_varint|apply varint_length|done].
    by rewrite varint_value_varint, Z.mod_small by done.
Qed.

(** [pb_encode_varint] writes the one shortest varint of its argument (no
    superfluous continuation bytes), on a sizing stream, in a buffer, and in part
    nothing where the buffer is full. *)
Theorem encode_varint_shortest v bs s :
  0 <= v < 2 ^ 64 → canonical bs → varint_value bs = v →
  emits (λ o, pb_encode_varint o v) bs s.
Proof.
  intros Hv Hc <-. pose proof (encode_varint_emits (varint_value bs) s Hv) as E.
  unfold varint in E. rewrite leb128_unique in E; [exact E|done|].
  change (2 ^ (7 * Z.of_nat 10)) with (2 ^ 70). lia.
Qed.

(** On every buffer [pb_decode_varint] does one of three things: it reads a
    varint of at most ten bytes and returns its value modulo 2^64; it stops after
    ten continuation bytes with "varint overflow"; or it runs into the end of the
    stream. *)
Theorem decode_varint_total input s :
  Forall is_byte input → zlen input < 2 ^ 64 →
  (∃ bs rest, input = bs ++ rest ∧ is_varint bs ∧ (length bs <= 10)%nat ∧
     pb_decode_varint (pb_istream_from_buffer input (zlen input)) s =
     Ok (buf_stream rest (zlen rest) None, Some (varint_value bs mod 2 ^ 64), s)) ∨
  (∃ bs rest, input = bs ++ rest ∧ Forall (λ b, 128 <= b < 256) bs ∧ length bs = 10%nat ∧
     pb_decode_varint (pb_istream_from_buffer input (zlen input)) s =
     Ok (buf_stream rest (zlen rest) (Some "varint overflow"%string), None, s)) ∨
  ((length input < 10)%nat ∧ Forall (λ b, 128 <= b < 256) input ∧
     pb_decode_varint (pb_istream_from_buffer input (zlen input)) s =
     Ok (buf_stream [] 0 (Some "end-of-stream"%string), None, s)).
Proof.
  intros Hb Hl. rewrite pb_istream_from_buffer_buf.
  destruct (varint_prefix_cases 10 input Hb)
    as [(bs & rest & -> & Hv & Hn)|(bs & rest & -> & Hf & [Hn|[Hn ->]])];
    rewrite length_app in *.
  - left. exists bs, rest. split_and!; try done.
    rewrite decode_varint_buf by (done || lia). do 3 f_equal. f_equal. lia.
  - right; left. exists bs, rest. split_and!; try done.
    rewrite decode_varint_overflow by (done || lia). do 3 f_equal. f_equal. lia.
  - right; right. rewrite !app_nil_r in *. cbn [length] in *. rewrite Nat.add_0_r in *.
    split_and!; [lia|done|]. unfold pb_decode_varint.
    pose proof (varint_loop_end bs Hf (10 - length bs) [] None 0 0 s) as P.
    rewrite app_nil_r in P. replace (length bs + (10 - length bs))%nat with 10%nat in P by lia.
    apply P; simpl; lia.
Qed.

(** The 32-bit reader accepts the shortest varint of every value below 2^32
    and of every sign-extended negative 32-bit value, which it truncates to 32
    bits, and refuses the shortest varint of every value in [2^32, 2^63). *)
Theorem decode_varint32_values v rest n e s :
  0 <= v < 2 ^ 64 → 10 <= n < 2 ^ 64 →
  let stream := buf_stream (varint v ++ rest) n e in
  let stream' := buf_stream rest (n - zlen (varint v)) e in
  (v < 2 ^ 32 → pb_decode_varint32 stream s = Ok (stream', Some v, s)) ∧
  (2 ^ 32 <= v < 2 ^ 63 → ∃ stream'', pb_decode_varint32 stream s = Ok (stream'', None, s)) ∧
  (2 ^ 64 - 2 ^ 31 <= v → ∃ stream'',
     pb_decode_varint32 stream s = Ok (stream'', Some (v mod 2 ^ 32), s) ∧
     i_state stream'' = IBuf rest).
Proof.
  intros Hv Hn stream stream'. pose proof (varint_zlen v). split_and!.
  - intros Hlt. apply decode_varint32_canonical; lia.
  - intros Hm. unfold pb_decode_varint32, mbind, M_bind, stream.
    by destruct (decode_varint32_refused v rest n e s) as [? ->]; [lia|lia|eexists].
  - intros Hge. unfold pb_decode_varint32, mbind, M_bind, stream.
    rewrite decode_varint32_sign_extended by lia. eexists. by split.
Qed.

(** Signed values of 64 bits survive [pb_encode_svarint] and
    [pb_decode_svarint], and a value of small magnitude takes a short encoding: at
    most [k] bytes below magnitude 2^(7k-1). *)
Theorem svarint_roundtrip v o out room s :
  - 2 ^ 63 <= v < 2 ^ 63 → obuf_ok o out room → within o room → bytes_written o + 10 <= max_size o →
  ∃ bs, pb_encode_svarint o v s = Ok (true, put o out room bs, s) ∧
    (∀ k, 1 <= k → - 2 ^ (7 * k - 1) <= v < 2 ^ (7 * k - 1) → zlen bs <= k) ∧
    ∀ rest n e, zlen bs <= n < 2 ^ 64 →
      pb_decode_svarint (buf_stream (bs ++ rest) n e) s =
      Ok (buf_stream rest (n - zlen bs) e, Some v, s).
Proof.
  intros Hv Ho Hwi Hm. pose proof (varint_zlen (zigzag v)). exists (varint (zigzag v)). split_and!.
  - apply (emits_within _ _ s _ _ _ (encode_svarint_emits v s Hv) Ho Hwi). lia.
  - intros k Hk Hvk. pose proof (leb128_length_bound (Z.to_nat (k - 1)) 9 (zigzag v)) as B.
    unfold varint in *. replace (S (Z.to_nat (k - 1))) with (Z.to_nat k) in B by lia.
    rewrite Z2Nat.id in B by lia. specialize (zigzag_bound v (7 * k) ltac:(lia) Hvk). lia.
  - intros rest n e Hn. by apply decode_svarint_buf.
Qed.

(** The tag of every field number below 2^29 and every wire type survives
    [pb_encode_tag] and [pb_decode_tag]. *)
Theorem tag_roundtrip wt tag o out room s :
  0 <= wt < 8 → 0 < tag < 2 ^ 29 → obuf_ok o out room → within o room → bytes_written o + 5 <= max_size o →
  ∃ bs, pb_encode_tag o wt tag s = Ok (true, put o out room bs, s) ∧
    ∀ rest n e, zlen bs <= n < 2 ^ 64 →
      pb_decode_tag (buf_stream (bs ++ rest) n e) s =
      Ok (true, buf_stream rest (n - zlen bs) e, wt, tag, false, s).
Proof.
  intros Hw Ht Ho Hwi Hm. exists (varint (wire_tag wt tag)). split.
  - apply (emits_within _ _ s _ _ _ (encode_tag_emits wt tag s Hw ltac:(lia)) Ho Hwi).
    pose proof (leb128_length_bound 4 9 (wire_tag wt tag)) as B. unfold wire_tag in *.
    change (2 ^ (7 * Z.of_nat 5)) with (2 ^ 35) in B. unfold varint. lia.
  - intros rest n e Hn. by apply decode_tag_buf.
Qed.

(** Four or eight bytes of memory written by [pb_encode_fixed32] or
    [pb_encode_fixed64] and read back by the decoder into another object arrive
    unchanged, and no other byte of the memory changes. *)
Theorem fixed_roundtrip (wide : bool) src dest bs o out room rest n e s :
  let size := if wide then 8%nat else 4%nat in
  mem_load (mem s) src size = Some bs → Forall is_byte bs →
  mem_valid (mem s) dest (Z.of_nat size) →
  obuf_ok o out room → within o room → bytes_written o + Z.of_nat size <= max_size o →
  Z.of_nat size <= n < 2 ^ 64 →
  (if wide then pb_encode_fixed64 else pb_encode_fixed32) o src s =
    Ok (true, put o out room bs, s) ∧
  ∃ m', (if wide then pb_decode_fixed64 else pb_decode_fixed32)
          (buf_stream (bs ++ rest) n e) dest s =
        Ok (true, buf_stream rest (n - Z.of_nat size) e, set_mem m' s) ∧
    mem_load m' dest size = Some bs ∧
    mem_same_outside (mem s) m' dest (Z.of_nat size).
Proof.
  intros size Hl Hb Hv Ho Hwi Hm Hn. pose proof (mem_load_length _ _ _ _ Hl) as Hlen.
  rewrite <- Hlen in Hv |- *. destruct (proj2 (mem_store_valid (mem s) dest bs) Hv) as [m' E].
  split.
  - destruct wide; [apply (emits_within _ _ s _ _ _ (encode_fixed64_emits src bs s Hl Hb) Ho Hwi)
                   |apply (emits_within _ _ s _ _ _ (encode_fixed32_emits src bs s Hl Hb) Ho Hwi)]; lia.
  - exists m'. split_and!; [|by eapply mem_load_store_same|by eapply mem_store_same_outside].
    rewrite Hlen.
    destruct wide; [by apply decode_fixed64_buf|by apply decode_fixed32_buf].
Qed.

(** A length-prefixed string written by [pb_encode_string] is handed out by
    [pb_make_string_substream] as a substream of exactly its bytes, and
    [pb_close_string_substream] resumes after it, however much of the substream
    was read. *)
Theorem string_roundtrip buf bs o out room s :
  wbuf_is buf bs s → zlen bs < 2 ^ 32 →
  obuf_ok o out room → within o room → bytes_written o + 10 + zlen bs <= max_size o →
  ∃ enc, pb_encode_string o buf (zlen bs) s = Ok (true, put o out room enc, s) ∧
    ∀ rest n e, zlen enc <= n < 2 ^ 64 →
      ∃ stream, pb_make_string_substream (buf_stream (enc ++ rest) n e) s =
          Ok (stream, Some (buf_stream (bs ++ rest) (zlen bs) e), s) ∧
        ∀ read unread e', bs = read ++ unread →
          pb_close_string_substream stream (buf_stream (unread ++ rest) (zlen unread) e') s =
          Ok (true, buf_stream rest (n - zlen enc) e', s).
Proof.
  intros Hbuf Hl Ho Hwi Hm. pose proof (varint_zlen (zlen bs)) as Hz.
  exists (varint (zlen bs) ++ bs). rewrite length_app, Nat2Z.inj_add. split.
  - apply (emits_within _ _ s _ _ _ (encode_string_emits buf bs s Hbuf ltac:(lia)) Ho Hwi).
    rewrite length_app. lia.
  - intros rest n e Hn. rewrite <- app_assoc.
    exists (buf_stream (bs ++ rest) (n - zlen (varint (zlen bs)) - zlen bs) e).
    split; [apply make_substream_buf; lia|]. intros read unread e' ->. rewrite length_app in *.
    rewrite close_substream_buf by lia. do 3 f_equal. f_equal. lia.
Qed.

(** [pb_skip_field] consumes exactly the payload of a field of any of the four
    wire types, and refuses the others without consuming anything. *)
Theorem skip_field_exact wt bs rest n e s :
  0 <= wt < 8 → zlen bs <= n < 2 ^ 64 →
  (wire_payload wt bs →
   pb_skip_field (buf_stream (bs ++ rest) n e) wt s =
   Ok (true, buf_stream rest (n - zlen bs) e, s)) ∧
  (wt ∉ [PB_WT_VARINT; PB_WT_64BIT; PB_WT_STRING; PB_WT_32BIT] →
   pb_skip_field (buf_stream (bs ++ rest) n e) wt s =
   Ok (false, ierror "invalid wire_type" (buf_stream (bs ++ rest) n e), s)).
Proof.
  intros Hw Hn. split; [intros Hp; by apply skip_field_buf|].
  intros Hni. unfold pb_skip_field.
  do 4 (apply not_elem_of_cons in Hni as [? Hni]).
  by rewrite !(proj2 (Z.eqb_neq _ _)) by done.
Qed.
End wire.

(** * Instances *)

#[local] Existing Instance no_application.
Abbreviation machine := empty_machine.
Abbreviation buffer16 := (pb_ostream_from_buffer 16).

Lemma varint_roundtrip_witness :
  ∃ bs, pb_encode_varint buffer16 300 machine = Ok (true, put buffer16 [] 16 bs, machine) ∧
    pb_decode_varint (buf_stream (bs ++ []) 10 None) machine =
    Ok (buf_stream [] (10 - zlen bs) None, Some 300, machine).
Proof.
  destruct (varint_roundtrip 300 buffer16 [] 16 machine) as (bs & E & L & D);
    [lia|apply obuf_fresh; lia|apply within_fresh|simpl; lia|].
  exists bs. split; [exact E|apply D; lia].
Defined.

Lemma encode_varint_shortest_witness :
  emits (λ o, pb_encode_varint o 300) [172; 2] machine.
Proof.
  apply (encode_varint_shortest 300 [172; 2] machine); [lia| |reflexivity].
  apply canonical_more; [lia|apply canonical_last; lia|discriminate].
Defined.

Lemma decode_varint_total_witness :
  Forall is_byte [172; 2; 7] ∧
  ((∃ bs rest, [172; 2; 7] = bs ++ rest ∧ is_varint bs) ∨
   (∃ bs rest, [172; 2; 7] = bs ++ rest ∧ length bs = 10%nat) ∨ (length [172; 2; 7] < 10)%nat).
Proof.
  assert (Forall is_byte [172; 2; 7]) as Hb by (unfold is_byte; forall_list).
  split; [exact Hb|].
  destruct (decode_varint_total [172; 2; 7] machine Hb)
    as [(bs & rest & E & Hv & _)|[(bs & rest & E & _ & Hl & _)|[Hl _]]]; [simpl; lia|..].
  - left. exists bs, rest. by split.
  - right; left. exists bs, rest. by split.
  - right; right. exact Hl.
Defined.

Lemma decode_varint32_values_witness :
  pb_decode_varint32 (buf_stream (varint 300 ++ []) 10 None) machine =
    Ok (buf_stream [] (10 - zlen (varint 300)) None, Some 300, machine) ∧
  ∃ stream, pb_decode_varint32 (buf_stream (varint (2 ^ 64 - 5) ++ []) 10 None) machine =
    Ok (stream, Some ((2 ^ 64 - 5) mod 2 ^ 32), machine).
Proof.
  split.
  - apply (decode_varint32_values 300 [] 10 None machine); lia.
  - destruct (decode_varint32_values (2 ^ 64 - 5) [] 10 None machine) as (_ & _ & P); [lia..|].
    destruct P as (stream & E & _); [lia|]. exists stream. exact E.
Defined.

Lemma svarint_roundtrip_witness :
  ∃ bs, pb_encode_svarint buffer16 (-5) machine = Ok (true, put buffer16 [] 16 bs, machine) ∧
    zlen bs <= 1 ∧
    pb_decode_svarint (buf_stream (bs ++ []) 10 None) machine =
    Ok (buf_stream [] (10 - zlen bs) None, Some (-5), machine).
Proof.
  destruct (svarint_roundtrip (-5) buffer16 [] 16 machine) as (bs & E & L & D);
    [lia|apply obuf_fresh; lia|apply within_fresh|simpl; lia|].
  assert (zlen bs <= 1) by (apply L; simpl; lia).
  exists bs. split; [exact E|]. split; [done|apply D; lia].
Defined.

Lemma tag_roundtrip_witness :
  ∃ bs, pb_encode_tag buffer16 PB_WT_STRING 4 machine = Ok (true, put buffer16 [] 16 bs, machine) ∧
    (zlen bs <= 10 → pb_decode_tag (buf_stream (bs ++ []) 10 None) machine =
      Ok (true, buf_stream [] (10 - zlen bs) None, PB_WT_STRING, 4, false, machine)).
Proof.
  destruct (tag_roundtrip PB_WT_STRING 4 buffer16 [] 16 machine) as (bs & E & D);
    [vm_compute; split; congruence|lia|apply obuf_fresh; lia|apply within_fresh|simpl; lia|].
  exists bs. split; [exact E|]. intros Hl. apply D. lia.
Defined.

(** Four bytes at 100 and room for four at 200. *)
Definition two_words : st unit :=
  mkst (mem_map (mem_map ∅ 100 [1; 2; 3; 4]) 200 [0; 0; 0; 0]) ∅ 0 ().

Lemma fixed_roundtrip_witness :
  mem_load (mem two_words) 100 4 = Some [1; 2; 3; 4] ∧
  pb_encode_fixed32 buffer16 100 two_words =
    Ok (true, put buffer16 [] 16 [1; 2; 3; 4], two_words) ∧
  ∃ m', pb_decode_fixed32 (buf_stream ([1; 2; 3; 4] ++ []) 4 None) 200 two_words =
          Ok (true, buf_stream [] (4 - 4) None, set_mem m' two_words) ∧
        mem_load m' 200 4 = Some [1; 2; 3; 4].
Proof.
  assert (mem_load (mem two_words) 100 4 = Some [1; 2; 3; 4]) as L by (vm_compute; reflexivity).
  split; [exact L|].
  destruct (fixed_roundtrip false 100 200 [1; 2; 3; 4] buffer16 [] 16 [] 4 None two_words)
    as (E & m' & D & M & _).
  - exact L.
  - unfold is_byte. forall_list.
  - apply (proj1 (mem_load_valid (mem two_words) 200 4)). vm_compute. by eexists.
  - apply obuf_fresh. lia.
  - apply within_fresh.
  - simpl. lia.
  - simpl. lia.
  - split; [exact E|]. exists m'. split; [exact D|exact M].
Defined.

Lemma string_roundtrip_witness :
  ∃ enc, pb_encode_string buffer16 (BLocal [104; 105]) 2 machine =
      Ok (true, put buffer16 [] 16 enc, machine) ∧
    (zlen enc <= 12 → ∃ stream,
      pb_make_string_substream (buf_stream (enc ++ []) 12 None) machine =
      Ok (stream, Some (buf_stream ([104; 105] ++ []) 2 None), machine)).
Proof.
  destruct (string_roundtrip (BLocal [104; 105]) [104; 105] buffer16 [] 16 machine)
    as (enc & E & D); [apply wbuf_local|simpl; lia|apply obuf_fresh; lia|apply within_fresh|simpl; lia|].
  exists enc. split; [exact E|]. intros Hl. destruct (D [] 12 None) as (stream & S & _); [lia|].
  exists stream. exact S.
Defined.

Lemma skip_field_exact_witness :
  pb_skip_field (buf_stream ([172; 2] ++ [9]) 3 None) PB_WT_VARINT machine =
  Ok (true, buf_stream [9] (3 - 2) None, machine).
Proof.
  apply (skip_field_exact PB_WT_VARINT [172; 2] [9] 3 None machine);
    [vm_compute; split; congruence|simpl; lia|].
  apply payload_varint, varint_more; [lia|]. apply varint_last. lia.
Defined.
