(* ===== verification/Base64.v ===== *)
(** The Base64 codec of the database client ([fbase64.c] of SocketRocket):
    [f_b64_ntop] and [f_b64_pton] on their buffers, the reference encoding of
    RFC 1521, and the lemmas that relate the code to it. *)
From S2P Require Import Prelude.
From Stdlib Require Import Ascii.

(** * The code *)

Definition char_codes (s : string) : list Z :=
  (λ c, Z.of_N (N_of_ascii c)) <$> String.list_ascii_of_string s.

(** [Base64] is a C string: its last element is the terminator. *)
Definition Base64 : list Z :=
  char_codes "ABCDEFGHIJKLMNOPQRSTUVWXYZabcdefghijklmnopqrstuvwxyz0123456789+/" ++ [0].
Definition Pad64 : Z := 61.

(** [target[i] = b]; outside of the buffer it is undefined. *)
Definition put_byte (target : list Z) (i b : Z) : res (list Z) :=
  if (0 <=? i) && (i <? Z.of_nat (length target))
  then Ok (<[Z.to_nat i := b]> target) else UB.
Definition get_byte (target : list Z) (i : Z) : res Z :=
  if 0 <=? i then of_option (target !! Z.to_nat i) else UB.

(** [target[datalength++] = Base64[o]], for the elements of [output]. *)
Fixpoint put_digits (target : list Z) (datalength : Z) (output : list Z)
    : res (list Z * Z) :=
  match output with
  | [] => Ok (target, datalength)
  | o :: output' =>
      c ← get_byte Base64 o;
      target ← put_byte target datalength c;
      put_digits target (datalength + 1) output'
  end.

(** The [while (2 < srclength)] loop; the first result tells whether it ended
    without [return (-1)]. *)
Fixpoint ntop_loop (src : list Z) (srclength datalength : Z) (target : list Z) (targsize : Z)
    : res (bool * list Z * Z * Z * list Z) :=
  if 2 <? srclength then
    match src with
    | i0 :: i1 :: i2 :: src' =>
        let srclength := srclength - 3 in
        let o0 := u8 (Z.shiftr i0 2) in
        let o1 := u8 (Z.shiftl (Z.land i0 0x03) 4 + Z.shiftr i1 4) in
        let o2 := u8 (Z.shiftl (Z.land i1 0x0f) 2 + Z.shiftr i2 6) in
        let o3 := u8 (Z.land i2 0x3f) in
        if targsize <? u64 (datalength + 4)
        then Ok (false, src', srclength, datalength, target)
        else
          '(target, datalength) ← put_digits target datalength [o0; o1; o2; o3];
          ntop_loop src' srclength datalength target targsize
    | _ => UB
    end
  else Ok (true, src, srclength, datalength, target).

(** "Now we worry about padding": the [if (0 != srclength)]. *)
Definition ntop_tail (src : list Z) (srclength datalength : Z) (target : list Z)
    (targsize : Z) : res (bool * Z * list Z) :=
  if negb (srclength =? 0) then
    i0 ← of_option (src !! 0%nat);
    i1 ← (if 1 <? srclength then of_option (src !! 1%nat) else Ok 0);
    let o0 := u8 (Z.shiftr i0 2) in
    let o1 := u8 (Z.shiftl (Z.land i0 0x03) 4 + Z.shiftr i1 4) in
    let o2 := u8 (Z.shiftl (Z.land i1 0x0f) 2 + Z.shiftr 0 6) in
    if targsize <? u64 (datalength + 4) then Ok (false, datalength, target)
    else
      '(target, datalength) ← put_digits target datalength [o0; o1];
      '(target, datalength) ←
        (if srclength =? 1
         then target ← put_byte target datalength Pad64; Ok (target, datalength + 1)
         else put_digits target datalength [o2]);
      target ← put_byte target datalength Pad64;
      Ok (true, datalength + 1, target)
  else Ok (true, datalength, target).

(** [target] has the contents of the buffer of [targsize] bytes; the result is
    the value returned and the buffer. *)
Definition f_b64_ntop (src : list Z) (srclength : Z) (target : list Z) (targsize : Z)
    : res (Z * list Z) :=
  '(ok, src, srclength, datalength, target) ← ntop_loop src srclength 0 target targsize;
  if negb ok then Ok (-1, target)
  else
    '(ok, datalength, target) ← ntop_tail src srclength datalength target targsize;
    if negb ok then Ok (-1, target)
    else if targsize <=? datalength then Ok (-1, target)
    else
      target ← put_byte target datalength 0;
      Ok (s32 datalength, target).

(** [isspace] of the C library in the "C" locale: its argument is an [unsigned
    char] or [EOF] (-1), anything else is undefined. *)
Definition isspace (ch : Z) : res bool :=
  if ch =? -1 then Ok false
  else if (0 <=? ch) && (ch <? 256) then Ok ((ch =? 32) || ((9 <=? ch) && (ch <=? 13)))
  else UB.

(** [strchr(s, ch) - s]. *)
Fixpoint strchr (s : list Z) (ch : Z) : option Z :=
  match s with
  | [] => None
  | c :: s' => if c =? ch then Some 0 else Z.succ <$> strchr s' ch
  end.

(** [target[i] = f(target[i])], for an optional target of [targsize] bytes. *)
Definition or_byte (target : list Z) (i b : Z) : res (list Z) :=
  t ← get_byte target i; put_byte target i (u8 (Z.lor t b)).

(** One digit of value [pos - Base64]: the [switch (state)] of the loop. The
    first result is false on [return (-1)]; the others are the variables. *)
Definition pton_digit (target : option (list Z)) (targsize tarindex state v : Z)
    : res (bool * option (list Z) * Z * Z) :=
  let at_target (limit : Z) (f : list Z → res (list Z)) (tarindex' state' : Z)
      : res (bool * option (list Z) * Z * Z) :=
    match target with
    | None => Ok (true, None, tarindex', state')
    | Some t =>
        if targsize <=? limit then Ok (false, target, tarindex, state)
        else t ← f t; Ok (true, Some t, tarindex', state')
    end in
  if state =? 0 then
    at_target tarindex (λ t, put_byte t tarindex (u8 (Z.shiftl v 2))) tarindex 1
  else if state =? 1 then
    at_target (u32 (tarindex + 1)) (λ t,
      t ← or_byte t tarindex (Z.shiftr v 4);
      put_byte t (u32 (tarindex + 1)) (u8 (Z.shiftl (Z.land v 0x0f) 4))) (u32 (tarindex + 1)) 2
  else if state =? 2 then
    at_target (u32 (tarindex + 1)) (λ t,
      t ← or_byte t tarindex (Z.shiftr v 2);
      put_byte t (u32 (tarindex + 1)) (u8 (Z.shiftl (Z.land v 0x03) 6))) (u32 (tarindex + 1)) 3
  else if state =? 3 then
    at_target tarindex (λ t, or_byte t tarindex v) (u32 (tarindex + 1)) 0
  else Ok (true, target, tarindex, state).

(** The main loop, from the string [src]: whether it ends without [return (-1)],
    the last [ch], the rest of the string and the variables. [char] is signed. *)
Fixpoint pton_loop (src : list Z) (target : option (list Z)) (targsize tarindex state : Z)
    : res (bool * Z * list Z * option (list Z) * Z * Z) :=
  match src with
  | [] => UB
  | c :: src' =>
      let ch := s8 c in
      if ch =? 0 then Ok (true, ch, src', target, tarindex, state)
      else
        space ← isspace ch;
        if (space : bool) then pton_loop src' target targsize tarindex state
        else if ch =? Pad64 then Ok (true, ch, src', target, tarindex, state)
        else
          match strchr Base64 ch with
          | None => Ok (false, ch, src', target, tarindex, state)
          | Some v =>
              '(ok, target, tarindex, state) ← pton_digit target targsize tarindex state v;
              if negb ok then Ok (false, ch, src', target, tarindex, state)
              else pton_loop src' target targsize tarindex state
          end
  end.

(** [for (; ch != 0; ch = *src++) if (!isspace(ch)) break;]: [ch] and [src] on
    exit. *)
Fixpoint skip_spaces (ch : Z) (src : list Z) : res (Z * list Z) :=
  if ch =? 0 then Ok (ch, src)
  else
    space ← isspace ch;
    if negb space then Ok (ch, src)
    else match src with
         | [] => UB
         | c :: src' => skip_spaces (s8 c) src'
         end.

(** [*src++]. *)
Definition next_char (src : list Z) : res (Z * list Z) :=
  match src with [] => UB | c :: src' => Ok (s8 c, src') end.

(** "Is there anything but whitespace after it?", then the check of the extra
    bits. *)
Definition pton_tail (ch : Z) (src : list Z) (target : option (list Z)) (tarindex : Z)
    : res Z :=
  '(ch, _) ← skip_spaces ch src;
  if negb (ch =? 0) then Ok (-1)
  else
    match target with
    | None => Ok (s32 tarindex)
    | Some t =>
        extra ← get_byte t tarindex;
        if negb (extra =? 0) then Ok (-1) else Ok (s32 tarindex)
    end.

(** After the loop: padding, or the end of the string. *)
Definition pton_end (ch : Z) (src : list Z) (target : option (list Z)) (tarindex state : Z)
    : res Z :=
  if ch =? Pad64 then
    '(ch, src) ← next_char src;
    if (state =? 0) || (state =? 1) then Ok (-1)
    else if state =? 2 then
      '(ch, src) ← skip_spaces ch src;
      if negb (ch =? Pad64) then Ok (-1)
      else '(ch, src) ← next_char src; pton_tail ch src target tarindex
    else if state =? 3 then pton_tail ch src target tarindex
    else Ok (s32 tarindex)
  else if negb (state =? 0) then Ok (-1)
  else Ok (s32 tarindex).

(** The value returned and the target. *)
Definition f_b64_pton (src : list Z) (target : option (list Z)) (targsize : Z)
    : res (Z * option (list Z)) :=
  '(ok, ch, src, target, tarindex, state) ← pton_loop src target targsize 0 0;
  if negb ok then Ok (-1, target)
  else r ← pton_end ch src target tarindex state; Ok (r, target).

(** * The reference encoding *)

(** The character of a six-bit value. *)
Definition digit (v : Z) : Z := nth (Z.to_nat v) Base64 0.

Fixpoint b64 (bs : list Z) : list Z :=
  match bs with
  | [] => []
  | [a] => [digit (a / 4); digit ((a mod 4) * 16); Pad64; Pad64]
  | [a; b] => [digit (a / 4); digit ((a mod 4) * 16 + b / 16); digit ((b mod 16) * 4); Pad64]
  | a :: b :: c :: bs' =>
      digit (a / 4) :: digit ((a mod 4) * 16 + b / 16) :: digit ((b mod 16) * 4 + c / 64)
        :: digit (c mod 64) :: b64 bs'
  end.

(** Whitespace of the "C" locale. *)
Definition is_space (c : Z) : bool := (c =? 32) || ((9 <=? c) && (c <=? 13)).
Definition not_space (c : Z) : Prop := is_space c = false.
#[export] Instance not_space_dec c : Decision (not_space c).
Proof. unfold not_space. apply _. Defined.

(** Seven-bit characters other than the terminator. *)
Definition is_text (c : Z) : Prop := 0 < c < 128.
