(* ===== verification/Base64Props.v ===== *)
(** Lemmas on the Base64 codec: the digits, the encoder's loop, and the
    invariant of the decoder's loop.

    Correctness of the Base64 codec: what the encoder writes, what the decoder
    accepts, and the round trip. *)
From S2P Require Import Prelude Base64.
Abbreviation zlen l := (Z.of_nat (length l)).

(** * Digits *)

Lemma digit_lookup v : 0 <= v < 64 → Base64 !! Z.to_nat v = Some (digit v).
Proof.
  intros Hv. destruct (lookup_lt_is_Some_2 Base64 (Z.to_nat v)) as [x Hx].
  { change (length Base64) with 65%nat. lia. }
  rewrite Hx. f_equal. symmetry. by apply nth_lookup_Some.
Qed.

(** What the loops of both directions need of a digit. *)
Definition digit_ok (v : Z) : bool :=
  (match strchr Base64 (digit v) with Some v' => v' =? v | None => false end)
  && (0 <? digit v) && (digit v <? 128) && negb (is_space (digit v)) && negb (digit v =? Pad64).

Lemma digit_ok_all v : 0 <= v < 64 → digit_ok v = true.
Proof. apply (forall_below 64 digit_ok). by vm_compute. Qed.

Lemma digit_facts v :
  0 <= v < 64 → strchr Base64 (digit v) = Some v ∧ is_text (digit v) ∧
  not_space (digit v) ∧ digit v ≠ Pad64.
Proof.
  intros Hv%digit_ok_all. unfold digit_ok in Hv. rewrite !andb_true_iff in Hv.
  destruct Hv as ((((H1 & H2) & H3) & H4) & H5). unfold is_text, not_space.
  destruct (strchr Base64 (digit v)) as [v'|]; [|done].
  split_and!; [f_equal; lia|lia|lia|by destruct (is_space _)|].
  intros E. by rewrite E in H5.
Qed.

(** A character of the alphabet is the digit of its index. *)
Lemma strchr_spec s c v : strchr s c = Some v → 0 <= v < zlen s ∧ s !! Z.to_nat v = Some c.
Proof.
  revert v. induction s as [|d s IH]; intros v; simpl; [done|].
  destruct (Z.eqb_spec d c) as [->|]; [intros [= <-]; split; [lia|done]|].
  destruct (strchr s c) as [w|]; simpl; [|done]. intros [= <-].
  destruct (IH w eq_refl) as [Hw E]. split; [lia|].
  by replace (Z.to_nat (Z.succ w)) with (S (Z.to_nat w)) by lia.
Qed.

Lemma strchr_digit c v : c ≠ 0 → strchr Base64 c = Some v → 0 <= v < 64 ∧ c = digit v.
Proof.
  intros Hc [Hv E]%strchr_spec. change (zlen Base64) with 65 in Hv.
  destruct (decide (v = 64)) as [->|].
  { vm_compute in E. congruence. }
  split; [lia|]. rewrite digit_lookup in E by lia. congruence.
Qed.

(** * Buffers *)

Lemma put_byte_app out x rest b :
  put_byte (out ++ x :: rest) (zlen out) b = Ok (out ++ b :: rest).
Proof.
  unfold put_byte. rewrite length_app. cbn [length].
  rewrite (proj2 (Z.leb_le 0 _)), (proj2 (Z.ltb_lt _ _)) by lia. simpl.
  rewrite Nat2Z.id. f_equal. by rewrite insert_app_r_alt, Nat.sub_diag by lia.
Qed.

(** The same with the bytes before split in two. *)
Lemma put_byte_at i out mid x rest b :
  i = zlen out + zlen mid →
  put_byte (out ++ mid ++ x :: rest) i b = Ok (out ++ mid ++ b :: rest).
Proof.
  intros ->. rewrite !(app_assoc out). rewrite <- put_byte_app with (x := x).
  f_equal. rewrite length_app. lia.
Qed.

Lemma put_byte_second out a x rest b :
  put_byte (out ++ a :: x :: rest) (zlen out + 1) b = Ok (out ++ a :: b :: rest).
Proof. apply (put_byte_at _ out [a]). done. Qed.

Lemma get_byte_app out x rest : get_byte (out ++ x :: rest) (zlen out) = Ok x.
Proof.
  unfold get_byte. rewrite (proj2 (Z.leb_le 0 _)), Nat2Z.id by lia.
  by rewrite list_lookup_middle.
Qed.

Lemma or_byte_app out x rest b :
  or_byte (out ++ x :: rest) (zlen out) b = Ok (out ++ u8 (Z.lor x b) :: rest).
Proof. unfold or_byte. rewrite get_byte_app. apply put_byte_app. Qed.

Lemma put_digits_app output out rest :
  Forall (λ o, 0 <= o < 64) output → (length output <= length rest)%nat →
  put_digits (out ++ rest) (zlen out) output =
  Ok (out ++ (digit <$> output) ++ drop (length output) rest, zlen out + zlen output).
Proof.
  revert out rest. induction output as [|o output IH]; intros out rest Ho Hl.
  { simpl. by rewrite drop_0, Z.add_0_r. }
  apply Forall_cons_1 in Ho as [Ho Hos]. destruct rest as [|x rest]; simpl in Hl; [lia|].
  cbn [put_digits]. unfold get_byte. rewrite (proj2 (Z.leb_le 0 o)) by lia.
  rewrite digit_lookup by lia. cbn [of_option].
  unfold mbind, res_bind. rewrite put_byte_app.
  pose proof (IH (out ++ [digit o]) rest Hos ltac:(lia)) as E.
  rewrite length_app, <- !app_assoc in E. cbn [length app] in E.
  replace (zlen out + 1) with (Z.of_nat (length out + 1)) by lia.
  rewrite E. cbn [fmap list_fmap length drop app]. do 2 f_equal. lia.
Qed.

(** * The encoder *)

Lemma list_ind3 (P : list Z → Prop) :
  P [] → (∀ a, P [a]) → (∀ a b, P [a; b]) →
  (∀ a b c bs, P bs → P (a :: b :: c :: bs)) → ∀ bs, P bs.
Proof.
  intros H0 H1 H2 H3 bs. enough (∀ n bs, (length bs <= n)%nat → P bs) by eauto.
  clear bs. induction n as [|n IH]; intros bs Hl.
  - destruct bs; [done|simpl in Hl; lia].
  - destruct bs as [|a [|b [|c bs]]]; auto. apply H3, IH. simpl in Hl. lia.
Qed.

Lemma b64_length bs : zlen (b64 bs) = 4 * ((zlen bs + 2) / 3).
Proof.
  induction bs using list_ind3; try done. cbn [b64 length].
  replace (Z.of_nat (S (S (S (length bs)))) + 2) with (zlen bs + 2 + 1 * 3) by lia.
  rewrite Z.div_add by lia. lia.
Qed.

Lemma digits_of_bytes a b c :
  is_byte a → is_byte b → is_byte c →
  u8 (Z.shiftr a 2) = a / 4 ∧
  u8 (Z.shiftl (Z.land a 0x03) 4 + Z.shiftr b 4) = (a mod 4) * 16 + b / 16 ∧
  u8 (Z.shiftl (Z.land b 0x0f) 2 + Z.shiftr c 6) = (b mod 16) * 4 + c / 64 ∧
  u8 (Z.land c 0x3f) = c mod 64 ∧
  0 <= a / 4 < 64 ∧ 0 <= (a mod 4) * 16 + b / 16 < 64 ∧ 0 <= (b mod 16) * 4 + c / 64 < 64 ∧
  0 <= c mod 64 < 64.
Proof.
  unfold is_byte. intros Ha Hb Hc.
  rewrite !Z.shiftr_div_pow2, !Z.shiftl_mul_pow2 by lia.
  rewrite land_3, land_15, land_63.
  change (2 ^ 2) with 4. change (2 ^ 4) with 16. change (2 ^ 6) with 64.
  rewrite !u8_small by (Z.div_mod_to_equations; lia).
  split_and!; Z.div_mod_to_equations; lia.
Qed.

(** The complete groups of the input, and what the loop leaves. *)
Fixpoint groups (bs : list Z) : list Z :=
  match bs with
  | a :: b :: c :: bs' =>
      digit (a / 4) :: digit ((a mod 4) * 16 + b / 16) :: digit ((b mod 16) * 4 + c / 64)
        :: digit (c mod 64) :: groups bs'
  | _ => []
  end.
Fixpoint leftover (bs : list Z) : list Z :=
  match bs with
  | _ :: _ :: _ :: bs' => leftover bs'
  | _ => bs
  end.

Lemma b64_split bs :
  b64 bs = groups bs ++ b64 (leftover bs) ∧ (length (leftover bs) < 3)%nat ∧
  zlen bs = zlen (leftover bs) + 3 * (zlen (groups bs) / 4) ∧ zlen (groups bs) mod 4 = 0.
Proof.
  induction bs as [| | |a b c bs (E & Hl & Hn & Hm)] using list_ind3;
    try (split_and!; simpl; (done || lia)).
  cbn [b64 groups leftover length]. rewrite E. split_and!; [done|done| |].
  - replace (Z.of_nat (S (S (S (S (length (groups bs))))))) with (zlen (groups bs) + 1 * 4) by lia.
    rewrite Z.div_add by lia. lia.
  - replace (Z.of_nat (S (S (S (S (length (groups bs))))))) with (zlen (groups bs) + 1 * 4) by lia.
    rewrite Z.mod_add by lia. done.
Qed.

Lemma ntop_loop_spec bs : Forall is_byte bs → ∀ out rest,
  zlen out + zlen rest < 2 ^ 63 →
  let targsize := zlen out + zlen rest in
  if zlen (groups bs) <=? zlen rest then
    ntop_loop bs (zlen bs) (zlen out) (out ++ rest) targsize =
    Ok (true, leftover bs, zlen (leftover bs), zlen out + zlen (groups bs),
        out ++ groups bs ++ drop (length (groups bs)) rest)
  else ∃ src' n' d' t', ntop_loop bs (zlen bs) (zlen out) (out ++ rest) targsize =
         Ok (false, src', n', d', t') ∧ length t' = (length out + length rest)%nat.
Proof.
  induction bs as [|a|a b|a b c bs IH] using list_ind3; intros Hb out rest Hs targsize;
    try (rewrite (proj2 (Z.leb_le _ _)) by (simpl; lia); simpl; by rewrite Z.add_0_r, drop_0).
  do 3 apply Forall_cons_1 in Hb as [? Hb].
  destruct (digits_of_bytes a b c) as (E0 & E1 & E2 & E3 & ? & ? & ? & ?); [done..|].
  cbn [ntop_loop groups leftover length].
  rewrite (proj2 (Z.ltb_lt 2 _)) by lia. rewrite E0, E1, E2, E3.
  rewrite u64_small by lia. unfold targsize in *.
  destruct (Z.ltb_spec (zlen out + zlen rest) (zlen out + 4)).
  - rewrite (proj2 (Z.leb_gt _ _)) by lia. eexists _, _, _, _. split; [done|].
    by rewrite length_app.
  - unfold mbind, res_bind.
    rewrite put_digits_app; [|forall_list|simpl; lia]. cbn [length fmap list_fmap].
    set (ds := [_; _; _; _]). specialize (IH Hb (out ++ ds) (drop 4 rest)).
    rewrite length_app, length_drop in IH. change (length ds) with 4%nat in IH.
    replace (Z.of_nat (S (S (S (length bs)))) - 3) with (zlen bs) by lia.
    replace (zlen out + Z.of_nat 4) with (Z.of_nat (length out + 4)) by lia.
    replace (zlen out + zlen rest) with
      (Z.of_nat (length out + 4) + Z.of_nat (length rest - 4)) by lia.
    rewrite app_assoc. cbv zeta in IH. specialize (IH ltac:(lia)).
    destruct (Z.leb_spec (zlen (groups bs)) (Z.of_nat (length rest - 4))).
    + rewrite (proj2 (Z.leb_le _ _)) by lia. rewrite IH, drop_drop.
      replace (Z.of_nat (length out + 4) + zlen (groups bs)) with
        (zlen out + Z.of_nat (S (S (S (S (length (groups bs))))))) by lia.
      by rewrite <- app_assoc.
    + rewrite (proj2 (Z.leb_gt _ _)) by lia. destruct IH as (? & ? & ? & ? & -> & Hl).
      eexists _, _, _, _. split; [done|]. lia.
Qed.

Lemma ntop_tail_spec bs out rest :
  (length bs < 3)%nat → Forall is_byte bs → zlen out + zlen rest < 2 ^ 63 →
  ntop_tail bs (zlen bs) (zlen out) (out ++ rest) (zlen out + zlen rest) =
  if zlen (b64 bs) <=? zlen rest
  then Ok (true, zlen out + zlen (b64 bs), out ++ b64 bs ++ drop (length (b64 bs)) rest)
  else Ok (false, zlen out, out ++ rest).
Proof.
  intros Hl Hb Ht. unfold ntop_tail, mbind, res_bind.
  destruct bs as [|a [|b [|? ?]]]; [| | |simpl in Hl; lia]; cbn [length b64 lookup list_lookup
    of_option].
  - change (Z.of_nat 0) with 0. rewrite (proj2 (Z.leb_le 0 _)) by lia. cbn [Z.eqb negb].
    by rewrite Z.add_0_r, drop_0, app_nil_l.
  - change (Z.of_nat 1) with 1. change (Z.of_nat 4) with 4. cbn [Z.eqb Pos.eqb negb].
    change (1 <? 1) with false. apply Forall_cons_1 in Hb as [Ha _].
    destruct (digits_of_bytes a 0 0) as (-> & -> & _ & _ & ? & ? & _); [unfold is_byte in *; lia..|].
    rewrite Z.add_0_r in *. rewrite u64_small by lia.
    destruct (Z.ltb_spec (zlen out + zlen rest) (zlen out + 4));
      [by rewrite (proj2 (Z.leb_gt _ _)) by lia|].
    rewrite (proj2 (Z.leb_le _ _)) by lia.
    destruct rest as [|r0 [|r1 [|r2 [|r3 rest]]]]; [simpl in *; lia..|].
    rewrite put_digits_app by (simpl; (lia || forall_list)). cbn [length drop fmap list_fmap].
    rewrite (put_byte_at _ out [_; _]) by (simpl; lia).
    set (d0 := digit (a / 4)). set (d1 := digit _).
    change ([d0; d1] ++ Pad64 :: r3 :: rest) with ([d0; d1; Pad64] ++ r3 :: rest).
    rewrite put_byte_at by (simpl; lia). do 3 f_equal. simpl. lia.
  - change (Z.of_nat 2) with 2. change (Z.of_nat 4) with 4. cbn [Z.eqb Pos.eqb negb].
    change (1 <? 2) with true. apply Forall_cons_1 in Hb as [Ha [Hb _]%Forall_cons_1].
    cbn [of_option].
    destruct (digits_of_bytes a b 0) as (-> & -> & -> & _ & ? & ? & ? & _);
      [unfold is_byte in *; lia..|].
    change (0 / 64) with 0 in *. rewrite Z.add_0_r in *. rewrite u64_small by lia.
    destruct (Z.ltb_spec (zlen out + zlen rest) (zlen out + 4));
      [by rewrite (proj2 (Z.leb_gt _ _)) by lia|].
    rewrite (proj2 (Z.leb_le _ _)) by lia.
    destruct rest as [|r0 [|r1 [|r2 [|r3 rest]]]]; [simpl in *; lia..|].
    rewrite put_digits_app by (simpl; (lia || forall_list)). cbn [length drop fmap list_fmap].
    set (two := [_; _]). replace (zlen out + Z.of_nat 2) with (zlen (out ++ two))
      by (rewrite length_app; simpl; lia).
    rewrite app_assoc, put_digits_app by (simpl; (lia || forall_list)).
    rewrite length_app. cbn [length drop fmap list_fmap].
    rewrite <- app_assoc.
    set (d2 := digit _). change (two ++ [d2] ++ r3 :: rest) with ((two ++ [d2]) ++ r3 :: rest).
    rewrite put_byte_at by (simpl; lia). do 3 f_equal. simpl. lia.
Qed.

(** [f_b64_ntop] writes the reference encoding and a terminator, if they fit. *)
Lemma ntop_spec bs target :
  Forall is_byte bs → zlen target < 2 ^ 63 →
  if zlen (b64 bs) <? zlen target then
    f_b64_ntop bs (zlen bs) target (zlen target) =
    Ok (s32 (zlen (b64 bs)), b64 bs ++ 0 :: drop (S (length (b64 bs))) target)
  else ∃ t', f_b64_ntop bs (zlen bs) target (zlen target) = Ok (-1, t') ∧
             length t' = length target.
Proof.
  intros Hb Ht. pose proof (ntop_loop_spec bs Hb [] target) as L. cbn [length app] in L.
  change (Z.of_nat 0) with 0 in L. rewrite !Z.add_0_l in L. cbv zeta in L. specialize (L Ht).
  destruct (b64_split bs) as (E & Hl & Hn & Hm). rewrite E, length_app.
  unfold f_b64_ntop, mbind, res_bind.
  destruct (Z.leb_spec (zlen (groups bs)) (zlen target)) as [Hg|Hg].
  2: { rewrite (proj2 (Z.ltb_ge _ _)) by lia. destruct L as (? & ? & ? & ? & -> & L).
       cbn [negb]. eauto. }
  rewrite L. cbn [negb]. clear L.
  assert (Forall is_byte (leftover bs)) as Hlb.
  { clear -Hb. induction bs using list_ind3; try done.
    do 3 apply Forall_cons_1 in Hb as [_ Hb]. auto. }
  set (out := groups bs) in *. set (rest := drop (length out) target).
  assert (zlen target = zlen out + zlen rest) as Et by (unfold rest; rewrite length_drop; lia).
  assert (drop (S (length out + length (b64 (leftover bs)))) target =
          drop (S (length (b64 (leftover bs)))) rest) as ->.
  { unfold rest. rewrite drop_drop. f_equal. lia. }
  rewrite Et in *. rewrite ntop_tail_spec by done. set (tail := b64 (leftover bs)).
  destruct (Z.leb_spec (zlen tail) (zlen rest)).
  2: { rewrite (proj2 (Z.ltb_ge _ _)) by lia. eexists. split; [done|]. rewrite length_app. lia. }
  destruct (Z.ltb_spec (Z.of_nat (length out + length tail)) (zlen out + zlen rest)).
  - rewrite (proj2 (Z.leb_gt _ _)) by lia.
    destruct (drop (length tail) rest) as [|x rest'] eqn:Ed.
    { apply (f_equal length) in Ed. rewrite length_drop in Ed. simpl in Ed. lia. }
    rewrite put_byte_at by lia. replace (drop (S (length tail)) rest) with rest'.
    2: { rewrite <- Nat.add_1_r, <- drop_drop, Ed. done. }
    cbn [negb]. rewrite <- app_assoc. do 3 f_equal. lia.
  - rewrite (proj2 (Z.leb_le _ _)) by lia. eexists. split; [done|].
    rewrite !length_app, length_drop. lia.
Qed.

(** * The decoder *)

Lemma lor_high_low hi lo m n :
  m = 2 ^ n → 0 <= n → 0 <= lo < m → 0 <= hi → Z.lor (hi * m) lo = hi * m + lo.
Proof.
  intros -> Hn Hlo Hhi. rewrite Z.lor_comm, <- Z.shiftl_mul_pow2, lor_disjoint_add by lia.
  rewrite Z.shiftl_mul_pow2; lia.
Qed.

(** The digits of a group, one lemma per state. Each states what happens with
    room for the next byte; [pton_digit_full] that there is none. *)
Lemma pton_digit_0 out x rest size v :
  0 <= v < 64 → zlen out < size →
  pton_digit (Some (out ++ x :: rest)) size (zlen out) 0 v =
  Ok (true, Some (out ++ v * 4 :: rest), zlen out, 1).
Proof.
  intros Hv Hs. unfold pton_digit. cbn [Z.eqb]. rewrite (proj2 (Z.leb_gt _ _)) by lia.
  unfold mbind, res_bind. rewrite put_byte_app, Z.shiftl_mul_pow2, u8_small by lia. done.
Qed.

Lemma pton_digit_1 out v0 y rest size v :
  0 <= v0 < 64 → 0 <= v < 64 → zlen out + 1 < size → size < 2 ^ 32 →
  pton_digit (Some (out ++ v0 * 4 :: y :: rest)) size (zlen out) 1 v =
  Ok (true, Some ((out ++ [v0 * 4 + v / 16]) ++ (v mod 16) * 16 :: rest),
      zlen (out ++ [v0 * 4 + v / 16]), 2).
Proof.
  intros Hv0 Hv Hs Hlt. unfold pton_digit. cbn [Z.eqb Pos.eqb].
  rewrite u32_small, (proj2 (Z.leb_gt _ _)) by lia. unfold mbind, res_bind.
  rewrite or_byte_app, Z.shiftr_div_pow2, land_15, Z.shiftl_mul_pow2 by lia.
  change (2 ^ 4) with 16. rewrite (lor_high_low v0 (v / 16) 4 2) by (Z.div_mod_to_equations; lia).
  rewrite !u8_small by (Z.div_mod_to_equations; lia).
  rewrite put_byte_second.
  rewrite <- app_assoc, length_app. do 3 f_equal. simpl. lia.
Qed.

Lemma pton_digit_2 out p y rest size v :
  0 <= p < 16 → 0 <= v < 64 → zlen out + 1 < size → size < 2 ^ 32 →
  pton_digit (Some (out ++ p * 16 :: y :: rest)) size (zlen out) 2 v =
  Ok (true, Some ((out ++ [p * 16 + v / 4]) ++ (v mod 4) * 64 :: rest),
      zlen (out ++ [p * 16 + v / 4]), 3).
Proof.
  intros Hp Hv Hs Hlt. unfold pton_digit. cbn [Z.eqb Pos.eqb].
  rewrite u32_small, (proj2 (Z.leb_gt _ _)) by lia. unfold mbind, res_bind.
  rewrite or_byte_app, Z.shiftr_div_pow2, land_3, Z.shiftl_mul_pow2 by lia.
  change (2 ^ 2) with 4. change (2 ^ 6) with 64.
  rewrite (lor_high_low p (v / 4) 16 4) by (Z.div_mod_to_equations; lia).
  rewrite !u8_small by (Z.div_mod_to_equations; lia).
  rewrite put_byte_second.
  rewrite <- app_assoc, length_app. do 3 f_equal. simpl. lia.
Qed.

Lemma pton_digit_3 out p rest size v :
  0 <= p < 4 → 0 <= v < 64 → zlen out < size → size < 2 ^ 32 →
  pton_digit (Some (out ++ p * 64 :: rest)) size (zlen out) 3 v =
  Ok (true, Some ((out ++ [p * 64 + v]) ++ rest), zlen (out ++ [p * 64 + v]), 0).
Proof.
  intros Hp Hv Hs Hlt. unfold pton_digit. cbn [Z.eqb Pos.eqb].
  rewrite (proj2 (Z.leb_gt _ _)) by lia. unfold mbind, res_bind.
  rewrite or_byte_app, (lor_high_low p v 64 6), u8_small, u32_small by lia.
  rewrite <- app_assoc, length_app. do 3 f_equal. simpl. lia.
Qed.

Lemma pton_digit_full t size tarindex state v :
  0 <= tarindex → 0 <= state < 3 → size < 2 ^ 32 →
  size <= (if state =? 0 then tarindex else u32 (tarindex + 1)) →
  pton_digit (Some t) size tarindex state v = Ok (false, Some t, tarindex, state).
Proof.
  intros Ht Hs Hlt Hf. unfold pton_digit.
  destruct (Z.eqb_spec state 0) as [->|]; [by rewrite (proj2 (Z.leb_le _ _)) by lia|].
  rewrite (proj2 (Z.leb_le size (u32 (tarindex + 1)))) by lia.
  destruct (Z.eqb_spec state 1) as [->|]; [done|].
  destruct (Z.eqb_spec state 2) as [->|]; [done|lia].
Qed.

(** One character of the text. *)
Lemma s8_text c : 0 <= c < 128 → s8 c = c.
Proof. intros. apply swrap_small; lia. Qed.

Lemma isspace_text c : 0 <= c < 128 → isspace c = Ok (is_space c).
Proof.
  intros Hc. unfold isspace. rewrite (proj2 (Z.eqb_neq c (-1))) by lia.
  by rewrite (proj2 (Z.leb_le 0 c)), (proj2 (Z.ltb_lt c 256)) by lia.
Qed.

Lemma pton_loop_char c src target size ti st :
  is_text c →
  pton_loop (c :: src) target size ti st =
  if is_space c then pton_loop src target size ti st
  else if c =? Pad64 then Ok (true, c, src, target, ti, st)
  else match strchr Base64 c with
       | None => Ok (false, c, src, target, ti, st)
       | Some v =>
           '(ok, target, ti, st) ← pton_digit target size ti st v;
           if negb ok then Ok (false, c, src, target, ti, st)
           else pton_loop src target size ti st
       end.
Proof.
  unfold is_text. intros Hc. cbn [pton_loop]. rewrite s8_text by lia.
  rewrite (proj2 (Z.eqb_neq c 0)) by lia. unfold mbind at 1, res_bind at 1.
  by rewrite isspace_text by lia.
Qed.

(** The next digit after any whitespace. *)
Lemma pton_loop_digit text cs v rest target size ti st target' ti' st' :
  Forall is_text text → filter not_space text = digit v :: cs → 0 <= v < 64 →
  pton_digit target size ti st v = Ok (true, target', ti', st') →
  ∃ text', Forall is_text text' ∧ filter not_space text' = cs ∧
    pton_loop (text ++ rest) target size ti st = pton_loop (text' ++ rest) target' size ti' st'.
Proof.
  intros Ht Hf Hv Hd. induction Ht as [|c text Hc Ht IH]; [done|].
  cbn [app]. rewrite pton_loop_char by done. rewrite filter_cons in Hf.
  destruct (decide (not_space c)) as [Hn|Hn]; unfold not_space in Hn.
  - injection Hf as -> Hf. destruct (digit_facts v Hv) as (E & _ & _ & Hp).
    rewrite Hn, (proj2 (Z.eqb_neq _ _) Hp), E. unfold mbind, res_bind. rewrite Hd. cbn [negb].
    by exists text.
  - destruct (is_space c); [|done]. auto.
Qed.

(** The complete groups of a text. *)
Lemma pton_loop_groups bs : Forall is_byte bs → ∀ text cs end_ out rest size,
  Forall is_text text → filter not_space text = groups bs ++ cs →
  zlen out + zlen rest = size → size < 2 ^ 32 →
  zlen bs - zlen (leftover bs) <= zlen rest →
  ∃ text' full rest', bs = full ++ leftover bs ∧ length rest = (length full + length rest')%nat ∧
    Forall is_text text' ∧ filter not_space text' = cs ∧
    rest' = drop (length full) rest ∧
    pton_loop (text ++ end_) (Some (out ++ rest)) size (zlen out) 0 =
    pton_loop (text' ++ end_) (Some ((out ++ full) ++ rest')) size (zlen (out ++ full)) 0.
Proof.
  induction bs as [|a|a b|a b c bs IH] using list_ind3;
    intros Hb text cs end_ out rest size Ht Hf Hs Hlt Hr;
    [exists text, [], rest; rewrite (app_nil_r out); by split_and!..|].
  do 3 apply Forall_cons_1 in Hb as [? Hb]. cbn [groups app leftover length] in *.
  destruct (b64_split bs) as (_ & _ & Hlen & _).
  assert (zlen (leftover bs) <= zlen bs) by (Z.div_mod_to_equations; lia).
  destruct rest as [|r0 [|r1 [|r2 rest]]]; [cbn [length] in *; lia..|]. cbn [length] in *.
  destruct (digits_of_bytes a b c) as (_ & _ & _ & _ & D0 & D1 & D2 & D3); [done..|].
  unfold is_byte in H, H0, H1.
  destruct (pton_loop_digit text _ _ end_ _ size _ _ _ _ _ Ht Hf D0
              (pton_digit_0 out r0 (r1 :: r2 :: rest) size _ D0 ltac:(lia))) as (t1 & T1 & F1 & ->).
  destruct (pton_loop_digit t1 _ _ end_ _ size _ _ _ _ _ T1 F1 D1
              (pton_digit_1 out (a / 4) r1 (r2 :: rest) size _ D0 D1 ltac:(lia) Hlt)) as (t2 & T2 & F2 & ->).
  replace (a / 4 * 4 + (a mod 4 * 16 + b / 16) / 16) with a by (Z.div_mod_to_equations; lia).
  replace ((a mod 4 * 16 + b / 16) mod 16) with (b / 16) by (Z.div_mod_to_equations; lia).
  pose proof (length_app out [a]) as L1. cbn [length] in L1.
  destruct (pton_loop_digit t2 _ _ end_ _ size _ _ _ _ _ T2 F2 D2
              (pton_digit_2 (out ++ [a]) (b / 16) r2 rest size _
                 ltac:(Z.div_mod_to_equations; lia) D2 ltac:(lia) Hlt)) as (t3 & T3 & F3 & ->).
  replace (b / 16 * 16 + (b mod 16 * 4 + c / 64) / 4) with b by (Z.div_mod_to_equations; lia).
  replace ((b mod 16 * 4 + c / 64) mod 4) with (c / 64) by (Z.div_mod_to_equations; lia).
  pose proof (length_app (out ++ [a]) [b]) as L2. cbn [length] in L2.
  destruct (pton_loop_digit t3 _ _ end_ _ size _ _ _ _ _ T3 F3 D3
              (pton_digit_3 ((out ++ [a]) ++ [b]) (c / 64) rest size _
                 ltac:(Z.div_mod_to_equations; lia) D3 ltac:(lia) Hlt)) as (t4 & T4 & F4 & ->).
  replace (c / 64 * 64 + c mod 64) with c by (Z.div_mod_to_equations; lia).
  rewrite <- !app_assoc. cbn [app].
  destruct (IH Hb t4 cs end_ (out ++ [a; b; c]) rest size T4 F4) as
    (t5 & full & rest' & Efull & Hl & T5 & F5 & Er & E5);
    [rewrite length_app; simpl; lia|done|lia|].
  exists t5, (a :: b :: c :: full), rest'. split_and!; [by rewrite Efull at 1|simpl; lia|done|done|done|].
  rewrite <- !app_assoc in E5. cbn [app] in E5. rewrite <- !app_assoc. exact E5.
Qed.

(** Spaces, padding, and the end of the text. *)
Lemma pton_loop_spaces text src target size ti st :
  Forall is_text text → filter not_space text = [] →
  pton_loop (text ++ src) target size ti st = pton_loop src target size ti st.
Proof.
  induction 1 as [|c text Hc Ht IH]; intros Hf; [done|]. cbn [app].
  rewrite pton_loop_char by done. rewrite filter_cons in Hf.
  destruct (decide (not_space c)) as [Hn|Hn]; [done|]. unfold not_space in Hn.
  destruct (is_space c); [auto|done].
Qed.

Lemma pton_loop_pad text cs src target size ti st :
  Forall is_text text → filter not_space text = Pad64 :: cs →
  ∃ text', Forall is_text text' ∧ filter not_space text' = cs ∧
    pton_loop (text ++ src) target size ti st =
    Ok (true, Pad64, text' ++ src, target, ti, st).
Proof.
  induction 1 as [|c text Hc Ht IH]; intros Hf; [done|]. cbn [app].
  rewrite pton_loop_char by done. rewrite filter_cons in Hf.
  destruct (decide (not_space c)) as [Hn|Hn]; unfold not_space in Hn.
  - injection Hf as -> Hf. rewrite Hn. cbn [Z.eqb Pos.eqb Pad64]. eauto.
  - destruct (is_space c); [auto|done].
Qed.

(** What [ch = *src++] and the skipping of spaces find in a text. *)
Lemma skip_spaces_spec text junk :
  Forall is_text text →
  ∃ ch src, next_char (text ++ 0 :: junk) = Ok (ch, src) ∧
    match filter not_space text with
    | [] => skip_spaces ch src = Ok (0, junk)
    | c :: cs => ∃ text', Forall is_text text' ∧ filter not_space text' = cs ∧
        skip_spaces ch src = Ok (c, text' ++ 0 :: junk)
    end.
Proof.
  induction 1 as [|c text Hc Ht IH].
  { exists 0, junk. split; [done|]. by destruct junk. }
  unfold is_text in Hc. cbn [next_char app]. rewrite s8_text by lia.
  eexists _, _. split; [done|].
  assert (skip_spaces c (text ++ 0 :: junk) =
          if is_space c then '(ch, src) ← next_char (text ++ 0 :: junk); skip_spaces ch src
          else Ok (c, text ++ 0 :: junk)) as ->.
  { destruct text as [|d text]; cbn [app skip_spaces next_char];
      rewrite (proj2 (Z.eqb_neq c 0)), isspace_text by lia;
      unfold mbind, res_bind; by destruct (is_space c). }
  rewrite filter_cons. destruct (decide (not_space c)) as [Hn|Hn]; unfold not_space in Hn.
  - rewrite Hn. eauto.
  - destruct (is_space c); [|done]. destruct IH as (ch & src & -> & IH). exact IH.
Qed.

Lemma groups_app ds l : zlen ds mod 3 = 0 → groups (ds ++ l) = groups ds ++ groups l.
Proof.
  induction ds as [| | |a b c ds IH] using list_ind3; try done. intros Hm. cbn [app groups].
  rewrite IH; [done|]. cbn [length] in Hm.
  replace (Z.of_nat (S (S (S (length ds))))) with (zlen ds + 1 * 3) in Hm by lia.
  by rewrite Z.mod_add in Hm by lia.
Qed.

Lemma b64_app ds l : zlen ds mod 3 = 0 → b64 (ds ++ l) = groups ds ++ b64 l.
Proof.
  induction ds as [| | |a b c ds IH] using list_ind3; try done. intros Hm. cbn [app groups b64].
  rewrite IH; [done|]. cbn [length] in Hm.
  replace (Z.of_nat (S (S (S (length ds))))) with (zlen ds + 1 * 3) in Hm by lia.
  by rewrite Z.mod_add in Hm by lia.
Qed.

Lemma leftover_full bs full : bs = full ++ leftover bs → zlen full mod 3 = 0.
Proof.
  intros E. destruct (b64_split bs) as (_ & _ & Hn & _).
  apply (f_equal length) in E. rewrite length_app in E.
  replace (zlen full) with ((zlen (groups bs) / 4) * 3) by lia. apply Z.mod_mul. lia.
Qed.

(** A text that spells the encoding of [bs], with whitespace anywhere, is decoded
    to [bs]; a partial last group needs one more byte of room, left zero. *)
Definition decoded_target (bs target : list Z) : list Z :=
  bs ++ if zlen bs mod 3 =? 0 then drop (length bs) target
        else 0 :: drop (S (length bs)) target.

Lemma decoded_target_partial bs full rest k l target :
  bs = full ++ l → zlen full mod 3 = 0 → (0 < length l < 3)%nat →
  k = length l → drop (length full) target = rest →
  decoded_target bs target = bs ++ 0 :: drop (S k) rest.
Proof.
  intros -> Hm Hl -> <-. unfold decoded_target. rewrite length_app.
  rewrite Nat2Z.inj_add, <- Zplus_mod_idemp_l, Hm, Z.add_0_l, Z.mod_small by lia.
  rewrite (proj2 (Z.eqb_neq _ 0)) by lia. rewrite drop_drop. do 3 f_equal. lia.
Qed.

(** The end of the text after a group of one or of two bytes. *)
Lemma pton_tail_zero bs text junk rest :
  Forall is_text text → filter not_space text = [] → zlen bs < 2 ^ 31 →
  ∃ ch src, next_char (text ++ 0 :: junk) = Ok (ch, src) ∧
    pton_tail ch src (Some (bs ++ 0 :: rest)) (zlen bs) = Ok (zlen bs).
Proof.
  intros Ht Hf Hl. destruct (skip_spaces_spec text junk Ht) as (ch & src & E & K).
  rewrite Hf in K. exists ch, src. split; [done|].
  unfold pton_tail, mbind, res_bind. rewrite K. cbn [negb Z.eqb]. rewrite get_byte_app.
  cbn [negb Z.eqb]. unfold s32. by rewrite swrap_small by lia.
Qed.

Lemma pton_end_one bs text junk rest :
  Forall is_text text → filter not_space text = [Pad64] → zlen bs < 2 ^ 31 →
  pton_end Pad64 (text ++ 0 :: junk) (Some (bs ++ 0 :: rest)) (zlen bs) 2 = Ok (zlen bs).
Proof.
  intros Ht Hf Hl. unfold pton_end, mbind, res_bind. cbn [Z.eqb Pos.eqb orb Pad64].
  destruct (skip_spaces_spec text junk Ht) as (ch & src & -> & K). rewrite Hf in K.
  destruct K as (t' & T' & F' & ->). cbn [negb Z.eqb Pos.eqb Pad64].
  by destruct (pton_tail_zero bs t' junk rest T' F' Hl) as (ch' & src' & -> & ->).
Qed.

Lemma pton_end_two bs text junk rest :
  Forall is_text text → filter not_space text = [] → zlen bs < 2 ^ 31 →
  pton_end Pad64 (text ++ 0 :: junk) (Some (bs ++ 0 :: rest)) (zlen bs) 3 = Ok (zlen bs).
Proof.
  intros Ht Hf Hl. unfold pton_end, mbind, res_bind. cbn [Z.eqb Pos.eqb orb Pad64].
  by destruct (pton_tail_zero bs text junk rest Ht Hf Hl) as (ch' & src' & -> & ->).
Qed.

Lemma pton_complete bs text junk target :
  Forall is_byte bs → Forall is_text text → filter not_space text = b64 bs →
  zlen bs + (if zlen bs mod 3 =? 0 then 0 else 1) <= zlen target < 2 ^ 31 →
  f_b64_pton (text ++ 0 :: junk) (Some target) (zlen target) =
  Ok (zlen bs, Some (decoded_target bs target)).
Proof.
  intros Hb Ht Hf Hn. destruct (b64_split bs) as (E & Hl & Hlen & _).
  assert (zlen (leftover bs) <= zlen bs) by (Z.div_mod_to_equations; lia).
  rewrite E in Hf.
  destruct (pton_loop_groups bs Hb text (b64 (leftover bs)) (0 :: junk) [] target (zlen target))
    as (text' & full & rest & Efull & Hrl & Ht' & Hf' & Hrest & Eloop);
    [done|done|done|lia|destruct (_ =? 0) in Hn; lia|].
  cbn [app length] in Eloop. change (Z.of_nat 0) with 0 in Eloop.
  unfold f_b64_pton, mbind, res_bind. rewrite Eloop. clear Eloop.
  pose proof (leftover_full _ _ Efull) as Hm.
  assert (Forall is_byte (leftover bs)) as Hlb.
  { rewrite Efull in Hb. by apply Forall_app in Hb as [_ Hb]. }
  assert (zlen bs = zlen full + zlen (leftover bs)) as Hbl.
  { rewrite Efull at 1. rewrite length_app. lia. }
  set (l := leftover bs) in *. assert (l = leftover bs) as El by done. clearbody l.
  destruct (decide (l = [])) as [->|Hne].
  { rewrite app_nil_r in Efull. subst full. rewrite pton_loop_spaces by done.
    cbn [pton_loop]. rewrite s8_text by lia. unfold pton_end.
    cbn [Z.eqb negb Pad64]. unfold s32. rewrite swrap_small by lia.
    unfold decoded_target. rewrite Hm. cbn [Z.eqb]. by rewrite Hrest. }
  assert (0 < length l)%nat as Hl0 by (destruct l; [done|simpl; lia]).
  rewrite (decoded_target_partial bs full rest (length l) l target) by done.
  assert ((zlen bs mod 3 =? 0) = false) as Hm3.
  { rewrite Hbl, <- Zplus_mod_idemp_l, Hm, Z.mod_small by lia. lia. }
  rewrite Hm3 in Hn. destruct rest as [|r0 [|r1 rest]]; [cbn [length] in *; lia..|].
  destruct l as [|a [|b [|? ?]]]; [done| | |simpl in Hl; lia]; cbn [b64 length drop] in *;
    apply Forall_cons_1 in Hlb as [Ha Hlb]; unfold is_byte in Ha.
  - assert (0 <= a / 4 < 64 ∧ 0 <= a mod 4 * 16 < 64) as [D0 D1]
      by (Z.div_mod_to_equations; lia).
    destruct (pton_loop_digit text' _ _ (0 :: junk) _ (zlen target) _ _ _ _ _ Ht' Hf' D0
      (pton_digit_0 full r0 (r1 :: rest) (zlen target) _ D0 ltac:(lia))) as (t1 & T1 & F1 & ->).
    destruct (pton_loop_digit t1 _ _ (0 :: junk) _ (zlen target) _ _ _ _ _ T1 F1 D1
      (pton_digit_1 full (a / 4) r1 rest (zlen target) _ D0 D1 ltac:(lia) ltac:(lia))) as (t2 & T2 & F2 & ->).
    replace (a / 4 * 4 + a mod 4 * 16 / 16) with a by (Z.div_mod_to_equations; lia).
    replace ((a mod 4 * 16) mod 16 * 16) with 0 by (Z.div_mod_to_equations; lia).
    rewrite <- Efull.
    destruct (pton_loop_pad t2 _ (0 :: junk) (Some (bs ++ 0 :: rest)) (zlen target) (zlen bs) 2
                T2 F2) as (t3 & T3 & F3 & ->).
    cbn [negb]. by rewrite pton_end_one by (done || lia).
  - apply Forall_cons_1 in Hlb as [Hb' _]. unfold is_byte in Hb'.
    destruct rest as [|r2 rest]; [cbn [length] in *; lia|]. cbn [length] in *.
    assert (0 <= a / 4 < 64 ∧ 0 <= a mod 4 * 16 + b / 16 < 64 ∧ 0 <= b mod 16 * 4 < 64)
      as (D0 & D1 & D2) by (Z.div_mod_to_equations; lia).
    destruct (pton_loop_digit text' _ _ (0 :: junk) _ (zlen target) _ _ _ _ _ Ht' Hf' D0
      (pton_digit_0 full r0 (r1 :: r2 :: rest) (zlen target) _ D0 ltac:(lia))) as (t1 & T1 & F1 & ->).
    destruct (pton_loop_digit t1 _ _ (0 :: junk) _ (zlen target) _ _ _ _ _ T1 F1 D1
      (pton_digit_1 full (a / 4) r1 (r2 :: rest) (zlen target) _ D0 D1 ltac:(lia) ltac:(lia)))
      as (t2 & T2 & F2 & ->).
    replace (a / 4 * 4 + (a mod 4 * 16 + b / 16) / 16) with a by (Z.div_mod_to_equations; lia).
    replace ((a mod 4 * 16 + b / 16) mod 16) with (b / 16) by (Z.div_mod_to_equations; lia).
    pose proof (length_app full [a]) as L1. cbn [length] in L1.
    destruct (pton_loop_digit t2 _ _ (0 :: junk) _ (zlen target) _ _ _ _ _ T2 F2 D2
      (pton_digit_2 (full ++ [a]) (b / 16) r2 rest (zlen target) _ ltac:(Z.div_mod_to_equations; lia) D2
         ltac:(lia) ltac:(lia))) as (t3 & T3 & F3 & ->).
    replace (b / 16 * 16 + b mod 16 * 4 / 4) with b by (Z.div_mod_to_equations; lia).
    replace ((b mod 16 * 4) mod 4 * 64) with 0 by (Z.div_mod_to_equations; lia).
    rewrite <- (app_assoc full). cbn [app]. rewrite <- Efull.
    destruct (pton_loop_pad t3 _ (0 :: junk) (Some (bs ++ 0 :: rest)) (zlen target) (zlen bs) 3
                T3 F3) as (t4 & T4 & F4 & ->).
    cbn [negb]. by rewrite pton_end_two by (done || lia).
Qed.

(** * The invariant of the decoder's loop

    [decoded state ds p cs]: having read the characters [cs], whitespace left
    out, the decoder is in [state], has completed the bytes [ds], and holds [p] in
    the byte after them. *)
Inductive decoded : Z → list Z → list Z → list Z → Prop :=
  | decoded_0 ds : zlen ds mod 3 = 0 → decoded 0 ds [] (groups ds)
  | decoded_1 ds v : zlen ds mod 3 = 0 → 0 <= v < 64 →
      decoded 1 ds [v * 4] (groups ds ++ [digit v])
  | decoded_2 ds a p : zlen ds mod 3 = 0 → is_byte a → 0 <= p < 16 →
      decoded 2 (ds ++ [a]) [p * 16]
        (groups ds ++ [digit (a / 4); digit (a mod 4 * 16 + p)])
  | decoded_3 ds a b p : zlen ds mod 3 = 0 → is_byte a → is_byte b → 0 <= p < 4 →
      decoded 3 ((ds ++ [a]) ++ [b]) [p * 64]
        (groups ds ++ [digit (a / 4); digit (a mod 4 * 16 + b / 16);
                       digit (b mod 16 * 4 + p)]).

Lemma decoded_digit st ds p cs rest size v :
  decoded st ds p cs → 0 <= v < 64 → zlen ds + zlen p + zlen rest = size → size < 2 ^ 32 →
  let t := ds ++ p ++ rest in
  pton_digit (Some t) size (zlen ds) st v = Ok (false, Some t, zlen ds, st) ∨
  ∃ st' ds' p' rest', decoded st' ds' p' (cs ++ [digit v]) ∧
    length (ds' ++ p' ++ rest') = length t ∧
    pton_digit (Some t) size (zlen ds) st v = Ok (true, Some (ds' ++ p' ++ rest'), zlen ds', st').
Proof.
  intros Hd Hv Hs Hlt.
  destruct Hd as [ds Hm|ds v0 Hm Hv0|ds a p Hm Ha Hp|ds a b p Hm Ha Hb Hp];
    unfold is_byte in *; cbn [app length] in *;
    try (destruct rest as [|x rest]; [left; apply pton_digit_full; cbn [length Z.eqb Pos.eqb] in *;
      rewrite ?u32_small; lia|]; cbn [length] in *).
  - right. rewrite pton_digit_0 by lia.
    eexists 1, ds, [v * 4], rest. split_and!; [by constructor| |done].
    rewrite !length_app. simpl. lia.
  - right. rewrite pton_digit_1 by lia. set (a := v0 * 4 + v / 16).
    eexists 2, (ds ++ [a]), [v mod 16 * 16], rest.
    split_and!; [|rewrite !length_app; simpl; lia|done].
    rewrite <- (app_assoc (groups ds)). cbn [app].
    replace v0 with (a / 4) by (unfold a; Z.div_mod_to_equations; lia).
    replace (digit v) with (digit (a mod 4 * 16 + v mod 16))
      by (f_equal; unfold a; Z.div_mod_to_equations; lia).
    constructor; [done|unfold is_byte, a|]; Z.div_mod_to_equations; lia.
  - right. rewrite length_app in Hs. cbn [length] in Hs.
    rewrite pton_digit_2 by (rewrite ?length_app; cbn [length]; lia).
    set (b := p * 16 + v / 4).
    eexists 3, ((ds ++ [a]) ++ [b]), [v mod 4 * 64], rest.
    split_and!; [|rewrite !length_app; simpl; lia|done].
    rewrite <- (app_assoc (groups ds)). cbn [app].
    replace p with (b / 16) by (unfold b; Z.div_mod_to_equations; lia).
    replace (digit v) with (digit (b mod 16 * 4 + v mod 4))
      by (f_equal; unfold b; Z.div_mod_to_equations; lia).
    constructor; [done|done|unfold is_byte, b|]; Z.div_mod_to_equations; lia.
  - right. rewrite !length_app in Hs. cbn [length] in Hs.
    rewrite pton_digit_3 by (rewrite ?length_app; cbn [length]; lia).
    set (c := p * 64 + v).
    eexists 0, (((ds ++ [a]) ++ [b]) ++ [c]), [], rest.
    split_and!; [|rewrite !length_app; simpl; lia|done].
    rewrite <- (app_assoc (groups ds)), <- !(app_assoc ds). cbn [app].
    replace p with (c / 64) by (unfold c; Z.div_mod_to_equations; lia).
    replace (digit v) with (digit (c mod 64))
      by (f_equal; unfold c; Z.div_mod_to_equations; lia).
    change ([_; _; _; _]) with (groups [a; b; c]) at 1. rewrite <- groups_app by done.
    constructor. rewrite length_app. cbn [length].
    by rewrite Nat2Z.inj_add, <- Zplus_mod_idemp_l, Hm.
Qed.

(** How the loop ends on a text: at its terminator or at a padding character,
    with what it read before decoded; or by [return (-1)]. *)
Lemma pton_loop_sound text : Forall is_text text → ∀ junk st ds p cs rest size,
  decoded st ds p cs → zlen ds + zlen p + zlen rest = size → size < 2 ^ 32 →
  let t := ds ++ p ++ rest in
  ∃ ok ch src' t' ti' st',
    pton_loop (text ++ 0 :: junk) (Some t) size (zlen ds) st = Ok (ok, ch, src', Some t', ti', st') ∧
    length t' = length t ∧
    (ok = true → ∃ pre ds' p' rest', t' = ds' ++ p' ++ rest' ∧ ti' = zlen ds' ∧
      decoded st' ds' p' (cs ++ filter not_space pre) ∧ Forall is_text pre ∧
      ((ch = 0 ∧ text = pre) ∨
       (ch = Pad64 ∧ ∃ text', text = pre ++ Pad64 :: text' ∧ src' = text' ++ 0 :: junk))).
Proof.
  induction 1 as [|c text Hc Ht IH]; intros junk st ds p cs rest size Hd Hs Hlt t.
  - eexists true, 0, junk, t, (zlen ds), st. split; [done|]. split; [done|]. intros _.
    exists [], ds, p, rest. rewrite app_nil_r. split_and!; auto.
  - cbn [app]. rewrite pton_loop_char by done. destruct (is_space c) eqn:Hsp.
    + destruct (IH junk st ds p cs rest size Hd Hs Hlt)
        as (ok & ch & src' & t' & ti' & st' & E & Hl & Hok).
      exists ok, ch, src', t', ti', st'. split; [exact E|]. split; [done|]. intros Hok'.
      destruct (Hok Hok') as (pre & ds' & p' & rest' & -> & -> & Hd' & Hpre & Hend).
      exists (c :: pre), ds', p', rest'. rewrite filter_cons_False by (unfold not_space; congruence).
      split_and!; [done|done|done|by constructor|].
      destruct Hend as [[-> ->]|[-> (text' & -> & ->)]]; [by left|right; eauto].
    + destruct (Z.eqb_spec c Pad64) as [->|Hpad].
      * eexists true, Pad64, _, t, (zlen ds), st. split; [done|]. split; [done|]. intros _.
        exists [], ds, p, rest. rewrite app_nil_r. split_and!; auto. right. eauto.
      * destruct (strchr Base64 c) as [v|] eqn:Ev.
        2: { eexists false, c, _, t, (zlen ds), st. by split_and!. }
        unfold is_text in Hc. destruct (strchr_digit c v ltac:(lia) Ev) as [Hv Ec].
        unfold mbind, res_bind, t.
        destruct (decoded_digit st ds p cs rest size v Hd Hv Hs Hlt)
          as [->|(st' & ds' & p' & rest' & Hd' & Hl' & ->)]; cbn [negb].
        { eexists false, c, _, _, (zlen ds), st. by split_and!. }
        destruct (IH junk st' ds' p' (cs ++ [digit v]) rest' size Hd')
          as (ok & ch & src' & t' & ti' & st'' & E & Hl & Hok);
          [rewrite !length_app in Hl'; lia|done|].
        exists ok, ch, src', t', ti', st''. split; [exact E|]. split; [congruence|].
        intros Hok'.
        destruct (Hok Hok') as (pre & ds2 & p2 & rest2 & -> & -> & Hd2 & Hpre & Hend).
        exists (c :: pre), ds2, p2, rest2. rewrite filter_cons_True by done.
        rewrite <- app_assoc in Hd2. cbn [app] in Hd2. rewrite <- Ec in Hd2.
        split_and!; [done|done|done|by constructor|].
        destruct Hend as [[-> ->]|[-> (text' & -> & ->)]]; [by left|right; eauto].
Qed.

(** The check after the padding: nothing but spaces, and no extra bits. *)
Lemma pton_tail_sound text junk t ti ch src :
  Forall is_text text → (Z.to_nat ti < length t)%nat → 0 <= ti →
  next_char (text ++ 0 :: junk) = Ok (ch, src) →
  pton_tail ch src (Some t) ti = Ok (-1) ∨
  pton_tail ch src (Some t) ti = Ok (s32 ti) ∧ filter not_space text = [] ∧
    t !! Z.to_nat ti = Some 0.
Proof.
  intros Ht Hl Hti E. destruct (skip_spaces_spec text junk Ht) as (ch' & src' & E' & K).
  rewrite E in E'. injection E' as <- <-. unfold pton_tail, mbind, res_bind.
  destruct (filter not_space text) as [|c cs] eqn:F.
  - rewrite K. cbn [negb Z.eqb]. unfold get_byte. rewrite (proj2 (Z.leb_le _ _)) by lia.
    destruct (lookup_lt_is_Some_2 t (Z.to_nat ti) Hl) as [x ->]. cbn [of_option].
    destruct (Z.eqb_spec x 0) as [->|]; auto.
  - destruct K as (text' & _ & _ & ->).
    assert (c ≠ 0).
    { assert (c ∈ text) as Hin by (apply (list_elem_of_filter not_space); rewrite F; left).
      apply list_elem_of_lookup in Hin as [i Hi].
      pose proof (Forall_lookup_1 _ _ _ _ Ht Hi) as Hc. unfold is_text in Hc. lia. }
    rewrite (proj2 (Z.eqb_neq c 0)) by done. by left.
Qed.

(** What comes after the first padding character, in each state. *)
Lemma pton_padded_sound text junk st ds p cs rest :
  Forall is_text text → decoded st ds p cs → zlen ds < 2 ^ 31 →
  ∃ r, pton_end Pad64 (text ++ 0 :: junk) (Some (ds ++ p ++ rest)) (zlen ds) st = Ok r ∧
    (r = -1 ∨ r = zlen ds ∧ b64 ds = cs ++ Pad64 :: filter not_space text).
Proof.
  intros Ht Hd Hl. unfold pton_end, mbind, res_bind.
  destruct (skip_spaces_spec text junk Ht) as (ch & src & E & K). rewrite E.
  assert (s32 (zlen ds) = zlen ds) as Es by (unfold s32; apply swrap_small; lia).
  cbn [Z.eqb Pos.eqb Pad64].
  destruct Hd as [ds Hm|ds v Hm Hv|ds a q Hm Ha Hq|ds a b q Hm Ha Hb Hq];
    cbn [Z.eqb Pos.eqb orb]; [by eauto|by eauto| |]; unfold is_byte in *.
  - destruct (filter not_space text) as [|c l] eqn:F; [rewrite K; by eauto|].
    destruct K as (text' & Ht' & F' & ->). destruct (Z.eqb_spec c Pad64) as [->|]; cbn [negb];
      [|by eauto].
    destruct (skip_spaces_spec text' junk Ht') as (ch' & src' & E' & _). rewrite E'.
    destruct (pton_tail_sound text' junk ((ds ++ [a]) ++ [q * 16] ++ rest) (zlen (ds ++ [a]))
                ch' src') as [->|(-> & F2 & Hz)];
      [done|rewrite (length_app (ds ++ [a])); simpl; lia|lia|done|by eauto|].
    rewrite Nat2Z.id in Hz. cbn [app] in Hz. rewrite list_lookup_middle in Hz by done.
    eexists. split; [done|]. right. split; [done|].
    assert (q = 0) as -> by (injection Hz; lia). rewrite b64_app by done.
    rewrite <- app_assoc, <- F', F2. cbn [b64 app]. by rewrite Z.add_0_r.
  - destruct (pton_tail_sound text junk (((ds ++ [a]) ++ [b]) ++ [q * 64] ++ rest)
                (zlen ((ds ++ [a]) ++ [b])) ch src) as [->|(-> & F2 & Hz)];
      [done|rewrite (length_app ((ds ++ [a]) ++ [b])); simpl; lia|lia|done|by eauto|].
    rewrite Nat2Z.id in Hz. cbn [app] in Hz. rewrite list_lookup_middle in Hz by done.
    eexists. split; [done|]. right. split; [done|].
    assert (q = 0) as -> by (injection Hz; lia).
    rewrite <- (app_assoc ds), b64_app by done.
    rewrite <- app_assoc, F2. cbn [b64 app]. by rewrite Z.add_0_r.
Qed.

(** What the decoder accepts: on every text it returns, stays within the target,
    and if it succeeds the text spells the reference encoding of the result. *)
Lemma pton_sound text junk target :
  Forall is_text text → zlen target < 2 ^ 31 →
  ∃ r t', f_b64_pton (text ++ 0 :: junk) (Some target) (zlen target) = Ok (r, Some t') ∧
    length t' = length target ∧
    (r = -1 ∨ ∃ ds rest, r = zlen ds ∧ t' = ds ++ rest ∧ filter not_space text = b64 ds).
Proof.
  intros Ht Hl.
  destruct (pton_loop_sound text Ht junk 0 [] [] [] target (zlen target))
    as (ok & ch & src & t' & ti & st & E & Hlen & Hok); [by constructor|simpl; lia|lia|].
  cbn [app length] in E, Hlen. unfold f_b64_pton, mbind, res_bind. change (Z.of_nat 0) with 0 in E.
  rewrite E. destruct ok; cbn [negb]; [|eexists _, _; split_and!; [done|done|by left]].
  destruct (Hok eq_refl) as (pre & ds & p & rest & -> & -> & Hd & Hpre & Hend). clear Hok E.
  cbn [app] in Hd. rewrite !length_app in Hlen.
  destruct Hend as [[-> ->]|[-> (text' & -> & ->)]].
  - unfold pton_end. cbn [Z.eqb Pad64]. destruct (Z.eqb_spec st 0) as [->|]; cbn [negb];
      [|eexists _, _; split_and!; [done|by rewrite !length_app|by left]].
    assert (zlen ds mod 3 = 0 ∧ p = [] ∧ filter not_space pre = groups ds) as (Hm & -> & ->)
      by (by inversion Hd).
    unfold s32. rewrite swrap_small by lia.
    eexists _, _. split_and!; [done|by rewrite !length_app|]. right. exists ds, rest.
    split_and!; [done|done|]. rewrite <- (app_nil_r ds) at 2. by rewrite b64_app, app_nil_r by done.
  - rewrite list.filter_app, filter_cons_True by done.
    apply Forall_app in Ht as [_ Ht]. apply Forall_cons_1 in Ht as [_ Ht'].
    assert (zlen ds < 2 ^ 31) as Hds by lia.
    destruct (pton_padded_sound text' junk st ds p _ rest Ht' Hd Hds) as (r & -> & Hr).
    exists r, (ds ++ p ++ rest). split_and!; [done|by rewrite !length_app|].
    destruct Hr as [->|[-> Hr]]; [by left|right]. exists ds, (p ++ rest). by split_and!.
Qed.

(** The encoding is a text without whitespace. *)
Lemma b64_chars bs :
  Forall is_byte bs → Forall (λ c, is_text c ∧ not_space c) (b64 bs).
Proof.
  assert (∀ v, 0 <= v < 64 → is_text (digit v) ∧ not_space (digit v)) as D.
  { intros v Hv. destruct (digit_facts v Hv) as (_ & ? & ? & _). auto. }
  assert (is_text Pad64 ∧ not_space Pad64) as P by (by unfold is_text, Pad64).
  induction bs as [|a|a b|a b c bs IH] using list_ind3; intros Hb; cbn [b64];
    repeat (apply Forall_cons_1 in Hb as [? Hb]); unfold is_byte in *;
    repeat (apply List.Forall_cons; [first [exact P|apply D; Z.div_mod_to_equations; lia]|]); auto.
Qed.

Lemma b64_text bs : Forall is_byte bs → Forall is_text (b64 bs).
Proof. intros Hb%b64_chars. induction Hb; constructor; tauto. Qed.

Lemma b64_not_space bs : Forall is_byte bs → filter not_space (b64 bs) = b64 bs.
Proof.
  intros Hb%b64_chars. induction Hb as [|c cs [_ Hc] _ IH]; [done|].
  by rewrite filter_cons_True, IH by done.
Qed.

(** * Correctness of the Base64 codec *)
(** C22: [f_b64_ntop] writes exactly the RFC 1521 encoding of its input and a
    terminating NUL when they fit in the target, returns the length without the
    NUL, and leaves the rest of the target alone; it returns -1, having written
    nothing outside of the target, exactly when they do not fit. *)
Theorem ntop_exact bs target :
  Forall is_byte bs → zlen bs < 2 ^ 30 → zlen target < 2 ^ 63 →
  let len := 4 * ((zlen bs + 2) / 3) in
  if len <? zlen target then
    f_b64_ntop bs (zlen bs) target (zlen target) =
    Ok (len, b64 bs ++ 0 :: drop (S (Z.to_nat len)) target)
  else ∃ t', f_b64_ntop bs (zlen bs) target (zlen target) = Ok (-1, t') ∧
             length t' = length target.
Proof.
  intros Hb Hs Ht len. pose proof (ntop_spec bs target Hb Ht) as P.
  pose proof (b64_length bs) as L. fold len in L.
  assert (0 <= len < 2 ^ 31) by (unfold len; Z.div_mod_to_equations; lia).
  rewrite L in P. destruct (len <? zlen target); [|exact P].
  unfold s32 in P. rewrite swrap_small in P by lia. by rewrite P, <- L, Nat2Z.id.
Qed.

(** C23: [f_b64_pton] decodes every text that spells the RFC 1521 encoding of
    [bs], wherever whitespace is inserted: it returns the number of bytes and
    stores them at the start of the target. The target needs one byte more than
    the data when the last group is partial; that byte is left zero. *)
Theorem pton_accepts bs text junk target :
  Forall is_byte bs → Forall is_text text → filter not_space text = b64 bs →
  zlen bs + (if zlen bs mod 3 =? 0 then 0 else 1) <= zlen target < 2 ^ 31 →
  f_b64_pton (text ++ 0 :: junk) (Some target) (zlen target) =
  Ok (zlen bs, Some (decoded_target bs target)) ∧
  take (length bs) (decoded_target bs target) = bs.
Proof.
  intros Hb Ht Hf Hn. split; [by apply pton_complete|].
  unfold decoded_target. apply take_app_length.
Qed.

(** C16: on every seven-bit C string and every target [f_b64_pton] returns
    without touching a byte outside of the target or past the terminator, and if
    it does not return -1 then the string, whitespace removed, is the RFC 1521
    encoding of the bytes it stored: misplaced padding, characters outside of the
    alphabet and nonzero trailing bits are all refused. *)
Theorem pton_rejects_others text junk target :
  Forall is_text text → zlen target < 2 ^ 31 →
  ∃ r t', f_b64_pton (text ++ 0 :: junk) (Some target) (zlen target) = Ok (r, Some t') ∧
    length t' = length target ∧
    (r = -1 ∨ 0 <= r <= zlen target ∧ filter not_space text = b64 (take (Z.to_nat r) t')).
Proof.
  intros Ht Hl. destruct (pton_sound text junk target Ht Hl) as (r & t' & E & Hlen & Hr).
  exists r, t'. split_and!; [done|done|]. destruct Hr as [->|(ds & rest & -> & -> & F)]; [by left|].
  right. rewrite length_app in Hlen. rewrite Nat2Z.id, take_app_length. split; [lia|done].
Qed.

(** Bytes encoded by [f_b64_ntop] and decoded from the resulting C string by
    [f_b64_pton] arrive unchanged. *)
Theorem b64_roundtrip bs target1 target2 :
  Forall is_byte bs → zlen bs < 2 ^ 30 →
  4 * ((zlen bs + 2) / 3) < zlen target1 < 2 ^ 63 → zlen bs < zlen target2 < 2 ^ 31 →
  ∃ len text, f_b64_ntop bs (zlen bs) target1 (zlen target1) = Ok (len, text) ∧
    ∃ t', f_b64_pton text (Some target2) (zlen target2) = Ok (zlen bs, Some t') ∧
      take (length bs) t' = bs.
Proof.
  intros Hb Hs H1 H2. pose proof (ntop_spec bs target1 Hb ltac:(lia)) as P.
  rewrite b64_length, (proj2 (Z.ltb_lt _ _)) in P by lia.
  eexists _, _. split; [exact P|]. exists (decoded_target bs target2). split.
  - apply pton_complete; [done|by apply b64_text|by apply b64_not_space|].
    destruct (zlen bs mod 3 =? 0); lia.
  - unfold decoded_target. apply take_app_length.
Qed.

(** * Instances *)

(** "Man" is "TWFu". *)
Lemma ntop_exact_witness :
  f_b64_ntop [77; 97; 110] 3 [1; 1; 1; 1; 1] 5 = Ok (4, [84; 87; 70; 117; 0]).
Proof.
  exact (ntop_exact [77; 97; 110] [1; 1; 1; 1; 1]
           ltac:(unfold is_byte; forall_list) ltac:(simpl; lia) ltac:(simpl; lia)).
Defined.

(** "TQ =\n=" is "M". *)
Lemma pton_accepts_witness :
  f_b64_pton [84; 81; 32; 61; 10; 61; 0] (Some [7; 7; 7]) 3 = Ok (1, Some [77; 0; 7]).
Proof.
  refine (proj1 (pton_accepts [77] [84; 81; 32; 61; 10; 61] [] [7; 7; 7] _ _ _ _)).
  - unfold is_byte. forall_list.
  - unfold is_text. forall_list.
  - vm_compute. reflexivity.
  - simpl. lia.
Defined.

(** The trailing bits of "TR==" are not zero. *)
Lemma pton_rejects_others_witness :
  ∃ r t', f_b64_pton ([84; 82; 61; 61] ++ 0 :: []) (Some [7; 7]) 2 = Ok (r, Some t') ∧
    length t' = 2%nat ∧ (r = -1 ∨ 0 <= r <= 2).
Proof.
  destruct (pton_rejects_others [84; 82; 61; 61] [] [7; 7]) as (r & t' & E & L & C).
  - unfold is_text. forall_list.
  - simpl. lia.
  - exists r, t'. split; [exact E|]. split; [exact L|]. destruct C as [->|[C _]]; [by left|by right].
Defined.

Lemma b64_roundtrip_witness :
  ∃ len text, f_b64_ntop [1; 255] 2 (replicate 5 0) 5 = Ok (len, text) ∧
    ∃ t', f_b64_pton text (Some [7; 7; 7]) 3 = Ok (2, Some t') ∧ take 2 t' = [1; 255].
Proof.
  apply (b64_roundtrip [1; 255] (replicate 5 0) [7; 7; 7]).
  - unfold is_byte. forall_list.
  - simpl. lia.
  - vm_compute. split; reflexivity.
  - vm_compute. split; reflexivity.
Defined.

(** * Deviations *)

(** A target of exactly the size of the data is refused if the last group is
    partial. *)
Lemma pton_exact_size : f_b64_pton [84; 81; 61; 61; 0] (Some [0]) 1 = Ok (-1, Some [76]).
Proof. reflexivity. Qed.

(** Without a target the trailing bits are not checked. *)
Lemma pton_null_target :
  f_b64_pton [84; 82; 61; 61; 0] None 0 = Ok (1, None) ∧
  f_b64_pton [84; 82; 61; 61; 0] (Some [0; 0]) 2 = Ok (-1, Some [77; 16]).
Proof. split; reflexivity. Qed.

(** A byte from 128 on is a negative [char], outside of the domain of [isspace]. *)
Lemma pton_negative_char : f_b64_pton [195; 169; 0] (Some [0; 0]) 2 = UB.
Proof. reflexivity. Qed.
