(* ===== verification/PbStable.v ===== *)
(** The encoder writes the same bytes whatever it writes them to. [stable] is
    the promise each encoding function makes: if it succeeds on some buffer, there
    are bytes that it writes on every stream ([emits]). It is closed under the
    ways the encoder composes its functions, and required of the callbacks of the
    application. *)
From S2P Require Import Prelude Mem Pb PbIter PbStream PbVarint PbWireProps.
From S2P Require Import PbEncode.

(** The members of a descriptor are in the range of their C types. *)
Record field_typed (f : pb_field_t) : Prop := {
  typed_tag : 0 <= pf_tag f < 2 ^ 32;
  typed_type : 0 <= pf_type f < 256;
  typed_data_size : 0 <= pf_data_size f < 2 ^ 32;
  typed_array_size : 0 <= pf_array_size f < 2 ^ 32
}.

(** A computation that leaves the machine as it is. *)
Definition readonly {W A} (m : M W A) : Prop := ∀ s a s', m s = Ok (a, s') → s' = s.

Record stable {W} (w : writer W) (s : st W) : Prop := {
  stable_sizing o b o' s' :
    o_callback o = None → 0 <= bytes_written o < 2 ^ 64 → w o s = Ok (b, o', s') →
    s' = s ∧ o_callback o' = None ∧ 0 <= bytes_written o' < 2 ^ 64;
  stable_buffer o out room o' s' :
    obuf_ok o out room → w o s = Ok (true, o', s') → ∃ bs, emits w bs s ∧ fits o room bs
}.

(** What the encoder asks of the application: its callbacks write the same bytes
    each time, and change nothing. *)
Class EncoderApp (W : Type) `{UserCode W} : Prop := {
  app_field fn field arg (s : st W) : stable (λ o, user_encode_field fn o field arg) s;
  app_ext fn ext (s : st W) : stable (λ o, user_encode_ext fn o ext) s;
  app_fields p fields : fields_at p = Some fields → Forall field_typed fields
}.

(** * Read-only computations *)

Section readonly.
Context {W : Type}.
Implicit Types s : st W.

Lemma readonly_ret {A} (a : A) : readonly (W := W) (mret a).
Proof. by intros s a' s' [= <- <-]. Qed.
Lemma readonly_ub {A} : readonly (W := W) (@ub W A).
Proof. by intros s a s'. Qed.
Lemma readonly_nofuel {A} : readonly (W := W) (@nofuel W A).
Proof. by intros s a s'. Qed.
Lemma readonly_opt {A} (o : option A) : readonly (W := W) (opt o).
Proof. destruct o; [apply readonly_ret|apply readonly_ub]. Qed.
Lemma readonly_bind {A B} (m : M W A) (f : A → M W B) :
  readonly m → (∀ a, readonly (f a)) → readonly (m ≫= f).
Proof.
  intros Hm Hf s b s'. unfold mbind, M_bind. destruct (m s) as [[a s1]| |] eqn:E; [|done..].
  apply Hm in E as ->. apply Hf.
Qed.
Lemma readonly_load a n : readonly (W := W) (load a n).
Proof. intros s bs s'. unfold load. destruct (mem_load _ _ _); [by intros [= <- <-]|done]. Qed.
End readonly.

Create HintDb readonly.
#[export] Hint Resolve readonly_ret readonly_ub readonly_nofuel readonly_opt readonly_load : readonly.
#[export] Hint Extern 1 (readonly (_ ≫= _)) => apply readonly_bind; [|intros] : readonly.
#[export] Hint Extern 1 (readonly (load_uint _ _)) => unfold load_uint : readonly.
#[export] Hint Extern 1 (readonly (load_ptr _)) => unfold load_ptr : readonly.
#[export] Hint Extern 1 (readonly (load_bool _)) => unfold load_bool : readonly.
#[export] Hint Extern 1 (readonly (load_size _)) => unfold load_size : readonly.
#[export] Hint Extern 1 (readonly (load_int _ _)) => unfold load_int : readonly.
#[export] Hint Extern 1 (readonly (ofields_of _)) => unfold ofields_of : readonly.
#[export] Hint Extern 1 (readonly (encoder_of _ _)) => unfold encoder_of : readonly.
#[export] Hint Extern 2 (readonly (if ?b then _ else _)) => destruct b : readonly.
#[export] Hint Extern 2 (readonly (match ?x with _ => _ end)) => destruct x : readonly.

(** * Closure *)

Section closure.
Context {W : Type}.
Implicit Types s : st W.
Implicit Types w : writer W.

Lemma stable_ext w1 w2 s : (∀ o, w1 o s = w2 o s) → stable w2 s → stable w1 s.
Proof.
  intros E [H1 H2]. split; intros *; rewrite E; [apply H1|].
  intros Ho Hw. destruct (H2 _ _ _ _ _ Ho Hw) as (bs & Hbs & Hf).
  exists bs. split; [by apply (emits_ext w1 w2)|done].
Qed.

Lemma stable_ret s : stable (λ o, mret (true, o)) s.
Proof.
  split.
  - by intros o b o' s' Hc Hb [= <- <- <-].
  - intros o out room o' s' Ho _. exists []. split; [apply emits_ret|].
    destruct Ho. unfold fits. simpl. lia.
Qed.

Lemma stable_fail msg s : stable (λ o, ofail o msg) s.
Proof.
  split; [|by intros].
  intros o b o' s' Hc Hb [= <- <- <-]. auto.
Qed.

Lemma stable_ub s : stable (λ _, ub) s.
Proof. by split. Qed.
Lemma stable_nofuel s : stable (λ _, nofuel) s.
Proof. by split. Qed.

Lemma stable_read_at {A} (m : M W A) (w : A → writer W) s :
  (∀ a s', m s = Ok (a, s') → s' = s ∧ stable (w a) s) → stable (λ o, a ← m; w a o) s.
Proof.
  intros Hw. destruct (m s) as [[a s']| |] eqn:E.
  - destruct (Hw _ _ eq_refl) as [-> Hs]. apply stable_ext with (w2 := w a); [|auto].
    intros o. unfold mbind, M_bind. by rewrite E.
  - apply stable_ext with (w2 := λ _, ub); [|apply stable_ub].
    intros o. unfold mbind, M_bind. by rewrite E.
  - apply stable_ext with (w2 := λ _, nofuel); [|apply stable_nofuel].
    intros o. unfold mbind, M_bind. by rewrite E.
Qed.

Lemma stable_read {A} (m : M W A) (w : A → writer W) s :
  readonly m → (∀ a, m s = Ok (a, s) → stable (w a) s) → stable (λ o, a ← m; w a o) s.
Proof.
  intros Hm Hw. apply stable_read_at. intros a s' E. pose proof (Hm _ _ _ E) as ->. auto.
Qed.

Lemma stable_read_pair {A B} (m : M W (A * B)) (w : A → B → writer W) s :
  (∀ a b s', m s = Ok (a, b, s') → s' = s ∧ stable (w a b) s) →
  stable (λ o, '(a, b) ← m; w a b o) s.
Proof.
  intros Hw. apply (stable_ext _ (λ o, p ← m; w p.1 p.2 o)).
  - intros o. unfold mbind, M_bind. by destruct (m s) as [[[a b] s']| |].
  - apply (stable_read_at m (λ p, w p.1 p.2)). by intros [a b] s' E; apply Hw.
Qed.

Lemma stable_false (f : pb_ostream_t → pb_ostream_t) s :
  (∀ o, o_callback (f o) = o_callback o ∧ bytes_written (f o) = bytes_written o) →
  stable (λ o, mret (false, f o)) s.
Proof.
  intros Hf. split; [|by intros].
  intros o b o' s' Hc Hb [= <- <- <-]. destruct (Hf o) as [-> ->]. auto.
Qed.

(** What a failed first part is followed by: [return false]. *)
Definition returns_false (k : writer W) : Prop := ∀ o s, ∃ o',
  k o s = Ok (false, o', s) ∧ o_state o' = o_state o ∧ o_callback o' = o_callback o ∧
  bytes_written o' = bytes_written o ∧ (is_Some (o_errmsg o) → o_errmsg o' = o_errmsg o).

Lemma returns_false_ret : returns_false (λ o, mret (false, o)).
Proof. intros o s. by exists o. Qed.
Lemma returns_false_fail msg : returns_false (λ o, ofail o msg).
Proof.
  intros o s. exists (oerror msg o). split_and!; try done.
  intros [e He]. simpl. by rewrite He.
Qed.

Lemma stable_seq_with w1 w2 (k : writer W) s :
  returns_false k → stable w1 s → stable w2 s →
  stable (λ o, '(ok, o) ← w1 o; if negb ok then k o else w2 o) s.
Proof.
  intros Hk [Z1 B1] [Z2 B2]. split.
  - intros o b o' s' Hc Hb. unfold mbind, M_bind.
    destruct (w1 o s) as [[[b1 o1] s1]| |] eqn:E1; [|done..].
    destruct (Z1 _ _ _ _ Hc Hb E1) as (-> & Hc1 & Hb1). destruct b1; cbn [negb]; [eauto|].
    destruct (Hk o1 s) as (o2 & -> & _ & Hc2 & Hb2 & _). intros [= <- <- <-].
    rewrite Hc2, Hb2. auto.
  - intros o out room o' s' Ho. unfold mbind at 1, M_bind at 1.
    destruct (w1 o s) as [[[b1 o1] s1]| |] eqn:E1; [|done..].
    destruct b1; cbn [negb]; [|by destruct (Hk o1 s1) as (o2 & -> & _)].
    intros E2. destruct (B1 _ _ _ _ _ Ho E1) as (b1 & Hb1 & Hf1).
    rewrite (emits_fits _ _ _ _ _ _ Hb1 Ho Hf1) in E1. injection E1 as <- <-.
    destruct (B2 _ _ _ _ _ (put_ok _ _ _ _ Ho Hf1) E2) as (b2 & Hb2 & Hf2).
    exists (b1 ++ b2). split; [|by apply (fits_app _ out)].
    apply emits_seq_with; [|done|done]. intros o0.
    destruct (Hk o0 s) as (o2 & H1 & H2 & _ & _ & H3). eauto.
Qed.

Lemma stable_seq w1 w2 s :
  stable w1 s → stable w2 s →
  stable (λ o, '(ok, o) ← w1 o; if negb ok then mret (false, o) else w2 o) s.
Proof. apply stable_seq_with, returns_false_ret. Qed.

(** A function known to write given bytes keeps the promise. *)
Lemma stable_emits w bs s :
  emits w bs s →
  (∀ o out room o' s', obuf_ok o out room → w o s = Ok (true, o', s') → fits o room bs) →
  stable w s.
Proof.
  intros He Hf. split; [|eauto].
  intros o b o' s' Hc Hb. rewrite (emits_sizing _ _ _ He) by done. intros [= <- <- <-].
  split; [done|]. split; [done|apply u64_range].
Qed.
End closure.

(** * The writers of the wire format *)

Section wire.
Context {W : Type} `{UserCode W}.
Implicit Types s : st W.

Lemma read_wbuf_spec buf count s bs s' :
  0 <= count → read_wbuf buf count s = Ok (bs, s') →
  s' = s ∧ zlen bs = count ∧ wbuf_is buf bs s.
Proof.
  intros Hc. assert (zlen bs = count → read_wbuf buf count s = Ok (bs, s) → wbuf_is buf bs s) as Hw.
  { intros Hl. unfold wbuf_is. by rewrite Hl. }
  intros E. assert (s' = s ∧ zlen bs = count) as [-> Hl]; [|auto].
  destruct buf as [|l|a]; simpl in E.
  - destruct (Z.eqb_spec count 0); [|done]. by injection E as <- <-.
  - destruct (Z.ltb_spec (zlen l) count); [done|]. injection E as <- <-.
    split; [done|]. rewrite length_take. lia.
  - unfold load in E. destruct (mem_load _ _ _) eqn:El; [|done]. injection E as <- <-.
    apply mem_load_length in El. split; [done|lia].
Qed.

Lemma pb_write_stable buf count s : 0 <= count → stable (λ o, pb_write o buf count) s.
Proof.
  intros Hc. split.
  - intros o b o' s' Hcb Hb. unfold pb_write. rewrite Hcb. intros [= <- <- <-].
    split; [done|]. split; [done|apply u64_range].
  - intros o out room o' s' Ho Hw.
    assert (∃ bs, read_wbuf buf count s = Ok (bs, s) ∧ zlen bs = count ∧ wbuf_is buf bs s ∧
                  count <= room ∧ u64 (bytes_written o + count) <= max_size o)
      as (bs & _ & Hl & Hbuf & Hr & Hm).
    { unfold pb_write in Hw. rewrite (ok_callback _ _ _ Ho) in Hw.
      destruct (Z.ltb_spec (max_size o) (u64 (bytes_written o + count))); [done|].
      unfold mbind, M_bind in Hw.
      destruct (read_wbuf buf count s) as [[bs s1]| |] eqn:E; [|done..].
      destruct (read_wbuf_spec _ _ _ _ _ Hc E) as (-> & Hl & Hbuf).
      exists bs. split_and!; try done. unfold buf_write in Hw. rewrite (ok_state _ _ _ Ho) in Hw.
      destruct (Z.leb_spec (zlen bs) room); [lia|done]. }
    exists bs. destruct Ho. rewrite u64_small in Hm by lia. split; [|unfold fits; lia].
    rewrite <- Hl. by apply pb_write_emits.
Qed.

Lemma encode_varint_stable v s : 0 <= v < 2 ^ 64 → stable (λ o, pb_encode_varint o v) s.
Proof.
  intros Hv. eapply stable_ext; [intros o; by apply encode_varint_write|].
  apply pb_write_stable. lia.
Qed.

Lemma encode_svarint_stable v s : - 2 ^ 63 <= v < 2 ^ 63 → stable (λ o, pb_encode_svarint o v) s.
Proof.
  intros Hv. eapply stable_ext; [|apply encode_varint_stable, zigzag_range, Hv].
  intros o. unfold pb_encode_svarint. by rewrite zigzag_encode by done.
Qed.

Lemma encode_tag_stable wt tag s :
  0 <= wt < 8 → stable (λ o, pb_encode_tag o wt tag) s.
Proof.
  intros Hw. apply encode_varint_stable.
  pose proof (u64_range (Z.shiftl tag 3)) as Hr. set (x := u64 _) in *.
  split; [apply Z.lor_nonneg; lia|].
  destruct (decide (Z.lor x wt = 0)) as [->|]; [lia|].
  apply Z.log2_lt_pow2; [pose proof (Z.lor_nonneg x wt); lia|].
  rewrite Z.log2_lor by lia. apply Z.max_lub_lt.
  - destruct (decide (x = 0)) as [->|]; [done|]. apply Z.log2_lt_pow2; lia.
  - destruct (decide (wt = 0)) as [->|]; [done|]. apply Z.log2_lt_pow2; lia.
Qed.

Lemma wire_type_of_range ltype wt : wire_type_of ltype = Some wt → 0 <= wt < 8.
Proof.
  unfold wire_type_of. repeat (destruct (_ || _) || destruct (_ =? _));
    intros [= <-]; unfold PB_WT_VARINT, PB_WT_32BIT, PB_WT_64BIT, PB_WT_STRING; lia.
Qed.

Lemma encode_tag_for_field_stable field s : stable (λ o, pb_encode_tag_for_field o field) s.
Proof.
  unfold pb_encode_tag_for_field. destruct (wire_type_of _) as [wt|] eqn:E.
  - by apply encode_tag_stable, (wire_type_of_range _ _ E).
  - apply stable_fail.
Qed.

Lemma encode_string_stable buf size s :
  0 <= size < 2 ^ 64 → stable (λ o, pb_encode_string o buf size) s.
Proof.
  intros Hs. apply (stable_seq (λ o, pb_encode_varint o size) (λ o, pb_write o buf size)).
  - by apply encode_varint_stable.
  - apply pb_write_stable. lia.
Qed.

Lemma encode_fixed32_stable a s : stable (λ o, pb_encode_fixed32 o a) s.
Proof.
  apply (stable_read (load_uint 4 a) (λ val o, _)); [auto with readonly|]. intros v _.
  apply pb_write_stable. lia.
Qed.

Lemma encode_fixed64_stable a s : stable (λ o, pb_encode_fixed64 o a) s.
Proof.
  apply (stable_read (load_uint 8 a) (λ val o, _)); [auto with readonly|]. intros v _.
  apply pb_write_stable. lia.
Qed.
End wire.

(** * Values read from the message *)

Section values.
Context {W : Type}.
Implicit Types s : st W.

Lemma load_uint_range n a s v s' :
  mem_bytes (mem s) → load_uint n a s = Ok (v, s') → 0 <= v < 2 ^ (8 * Z.of_nat n).
Proof.
  intros Hm. unfold load_uint, load, mbind, M_bind.
  destruct (mem_load (mem s) a n) as [bs|] eqn:E; [|done]. intros [= <- <-].
  rewrite <- (mem_load_length _ _ _ _ E). apply le_of_bytes_bound. eapply mem_load_bytes; eauto.
Qed.

Lemma load_int_range n a s v s' :
  (0 < n)%nat → load_int n a s = Ok (v, s') →
  - 2 ^ (8 * Z.of_nat n - 1) <= v < 2 ^ (8 * Z.of_nat n - 1).
Proof.
  intros Hn. unfold load_int, mbind, M_bind.
  destruct (load_uint n a s) as [[u s1]| |]; [|done..]. intros [= <- <-].
  apply swrap_range. lia.
Qed.
End values.

(** * The field encoders *)

Section encoders.
Context {W : Type} `{EncoderApp W}.
Context (s : st W) (Hbytes : mem_bytes (mem s)).

Definition stable_encoder (e : encoder) : Prop :=
  ∀ field src, field_typed field → stable (λ o, e o field src) s.

Lemma u64_stable v : stable (λ o, pb_encode_varint o (u64 v)) s.
Proof. apply encode_varint_stable, u64_range. Qed.

Lemma enc_varint_stable : stable_encoder pb_enc_varint.
Proof.
  intros field src Hf. unfold pb_enc_varint.
  repeat (destruct (_ =? _);
    [apply (stable_read _ (λ v o, pb_encode_varint o (u64 v)));
       [auto with readonly|intros; apply u64_stable]|]).
  apply stable_fail.
Qed.

Lemma enc_uvarint_stable : stable_encoder pb_enc_uvarint.
Proof.
  intros field src Hf. unfold pb_enc_uvarint.
  repeat (destruct (_ =? _);
    [apply (stable_read _ (λ v o, pb_encode_varint o v)); [auto with readonly|intros v E;
       apply encode_varint_stable; apply (load_uint_range _ _ _ _ _ Hbytes) in E; lia]|]).
  apply stable_fail.
Qed.

Lemma enc_svarint_stable : stable_encoder pb_enc_svarint.
Proof.
  intros field src Hf. unfold pb_enc_svarint.
  repeat (destruct (_ =? _);
    [apply (stable_read _ (λ v o, pb_encode_svarint o v)); [auto with readonly|intros v E;
       apply encode_svarint_stable; apply load_int_range in E; lia]|]).
  apply stable_fail.
Qed.

Lemma enc_fixed32_stable : stable_encoder pb_enc_fixed32.
Proof. intros field src Hf. apply encode_fixed32_stable. Qed.
Lemma enc_fixed64_stable : stable_encoder pb_enc_fixed64.
Proof. intros field src Hf. apply encode_fixed64_stable. Qed.

Lemma enc_bytes_stable : stable_encoder pb_enc_bytes.
Proof.
  intros field src Hf. unfold pb_enc_bytes. destruct (src =? 0).
  { apply encode_string_stable. lia. }
  apply (stable_read (load_size src)); [auto with readonly|]. intros size E.
  apply (load_uint_range _ _ _ _ _ Hbytes) in E.
  destruct (_ && _); [apply stable_fail|]. apply encode_string_stable. lia.
Qed.

Lemma strnlen_loop_spec fuel max_size size p (s0 : st W) n s' :
  0 <= size → strnlen_loop fuel max_size size p s0 = Ok (n, s') →
  s' = s0 ∧ size <= n ∧ n <= Z.max size max_size.
Proof.
  revert size p. induction fuel as [|fuel IH]; intros size p Hs; cbn [strnlen_loop]; [done|].
  destruct (Z.ltb_spec size max_size) as [Hlt|Hge].
  - unfold mbind, M_bind. destruct (load_uint 1 p s0) as [[c s1]| |] eqn:E; [|done..].
    assert (readonly (load_uint (W := W) 1 p)) as Hr by auto with readonly.
    apply Hr in E as ->.
    destruct (negb (c =? 0)).
    + intros [-> Hn]%IH; [|lia]. split; [done|lia].
    + intros [= <- <-]. split; [done|lia].
  - intros [= <- <-]. split; [done|lia].
Qed.

Lemma enc_string_stable : stable_encoder pb_enc_string.
Proof.
  intros field src Hf. unfold pb_enc_string. destruct (src =? 0).
  { apply encode_string_stable. lia. }
  set (max_size := if _ =? PB_ATYPE_POINTER then _ else _).
  assert (0 <= max_size < 2 ^ 64).
  { unfold max_size. destruct (_ =? _); [apply u64_range|]. destruct Hf. lia. }
  apply (stable_read_at (strnlen max_size src) (λ size o, pb_encode_string o (BMem src) size)).
  intros n s' E. unfold strnlen in E. apply strnlen_loop_spec in E; [|lia].
  destruct E as [-> Hn]. split; [done|]. apply encode_string_stable. lia.
Qed.

Lemma enc_fixed_length_bytes_stable : stable_encoder pb_enc_fixed_length_bytes.
Proof. intros field src Hf. apply encode_string_stable. destruct Hf. lia. Qed.

(** * Length-prefixed parts *)

(** On a sizing stream only the size of the part is added. *)
Definition sized (size : Z) (body : writer W) : writer W := λ stream,
  match o_callback stream with
  | None => pb_write stream BNull size
  | Some _ => body stream
  end.

Lemma sized_emits size body bs :
  zlen bs = size →
  (∀ o out room, obuf_ok o out room → fits o room bs → body o s = Ok (true, put o out room bs, s)) →
  (∀ o out room, obuf_ok o out room → within o room → max_size o < bytes_written o + size < 2 ^ 64 →
     ∃ o' pre, body o s = Ok (false, o', s) ∧ o_errmsg o' = Some "stream full"%string ∧
       pre `prefix_of` bs ∧ o_state o' = OBuf (out ++ pre) (room - zlen pre)) →
  emits (sized size body) bs s.
Proof.
  intros <- Hb Hf. unfold sized. split.
  - intros o Hc Hbw. unfold pb_write. by rewrite Hc.
  - intros o out room Ho Hfi. rewrite (ok_callback _ _ _ Ho). auto.
  - intros o out room Ho Hw Hm. rewrite (ok_callback _ _ _ Ho). auto.
Qed.

Lemma sized_stable_with size body :
  (∀ o out room o' s', obuf_ok o out room → body o s = Ok (true, o', s') →
     ∃ bs, emits (sized size body) bs s ∧ fits o room bs) →
  stable (sized size body) s.
Proof.
  intros Hb. split.
  - intros o b o' s' Hc Hbw. unfold sized, pb_write. rewrite Hc. intros [= <- <- <-].
    split; [done|]. split; [done|apply u64_range].
  - intros o out room o' s' Ho. unfold sized at 1. rewrite (ok_callback _ _ _ Ho). eauto.
Qed.

Lemma sized_stable size body :
  stable body s → (∀ bs, emits body bs s → zlen bs < 2 ^ 64 → zlen bs = size) →
  stable (sized size body) s.
Proof.
  intros Hb Hsz. apply sized_stable_with. intros o out room o' s' Ho E.
  destruct (stable_buffer _ _ Hb _ _ _ _ _ Ho E) as (bs & He & Hf). exists bs.
  split; [|done]. assert (zlen bs = size) as <-.
  { apply Hsz; [done|]. destruct Ho, Hf. lia. }
  apply sized_emits; [done|apply He|apply He].
Qed.

(** The size found by a sizing run is the number of bytes written. *)
Lemma sizing_length w bs o' s' :
  emits w bs s → zlen bs < 2 ^ 64 → w PB_OSTREAM_SIZING s = Ok (true, o', s') →
  zlen bs = bytes_written o'.
Proof.
  intros He Hl. rewrite (emits_sizing _ _ _ He) by (simpl; (done || lia)). intros [= <- <-].
  simpl. rewrite u64_small; lia.
Qed.

(** * Arrays *)

Lemma packed_items_stable count func field p :
  stable_encoder (ecall func) → field_typed field →
  stable (λ o, encode_packed_items count func o field p) s.
Proof.
  intros Hf Ht. revert p. induction count as [|count IH]; intros p; cbn [encode_packed_items].
  - apply stable_ret.
  - apply (stable_seq (λ o, ecall func o field p)
             (λ o, encode_packed_items count func o field (p + pf_data_size field)));
      [by apply Hf|apply IH].
Qed.

Lemma items_stable count func field p :
  stable_encoder (ecall func) → field_typed field →
  stable (λ o, encode_items count func o field p) s.
Proof.
  intros Hf Ht. revert p. induction count as [|count IH]; intros p; cbn [encode_items].
  { apply stable_ret. }
  apply (stable_seq (λ o, pb_encode_tag_for_field o field)
    (λ o, '(ok, o) ← (if (PB_ATYPE (pf_type field) =? PB_ATYPE_POINTER)
             && ((PB_LTYPE (pf_type field) =? PB_LTYPE_STRING)
                 || (PB_LTYPE (pf_type field) =? PB_LTYPE_BYTES))
          then q ← load_ptr p; ecall func o field q
          else ecall func o field p);
          if negb ok then mret (false, o)
          else encode_items count func o field (p + pf_data_size field)));
    [apply encode_tag_for_field_stable|].
  apply (stable_seq (λ o, if (PB_ATYPE (pf_type field) =? PB_ATYPE_POINTER)
             && ((PB_LTYPE (pf_type field) =? PB_LTYPE_STRING)
                 || (PB_LTYPE (pf_type field) =? PB_LTYPE_BYTES))
          then q ← load_ptr p; ecall func o field q
          else ecall func o field p)
          (λ o, encode_items count func o field (p + pf_data_size field))); [|apply IH].
  destruct (_ && _); [|by apply Hf].
  apply (stable_read _ (λ q o, ecall func o field q)); [auto with readonly|]. intros q _.
  by apply Hf.
Qed.

(** Fixed-width items have the size that [encode_array] computes. *)
Definition fixed_width (k : Z) (func : option encoder) : Prop :=
  ∀ o field src o' s', o_callback o = None →
    ecall func o field src s = Ok (true, o', s') →
    s' = s ∧ o_callback o' = None ∧ bytes_written o' = u64 (bytes_written o + k).

Lemma packed_items_width k func field :
  0 <= k → fixed_width k func → ∀ count p o o' s',
  o_callback o = None → 0 <= bytes_written o < 2 ^ 64 →
  encode_packed_items count func o field p s = Ok (true, o', s') →
  bytes_written o' = u64 (bytes_written o + k * Z.of_nat count).
Proof.
  intros Hk Hf. induction count as [|count IH]; intros p o o' s' Hc Hb; cbn [encode_packed_items].
  - intros [= <- <-]. by rewrite Z.mul_0_r, Z.add_0_r, u64_small.
  - unfold mbind at 1, M_bind at 1.
    destruct (ecall func o field p s) as [[[ok o1] s1]| |] eqn:E; [|done..].
    destruct ok; cbn [negb]; [|done].
    destruct (Hf _ _ _ _ _ Hc E) as (-> & Hc1 & Hb1). intros E2.
    apply IH in E2; [|done|rewrite Hb1; apply u64_range]. rewrite E2, Hb1.
    unfold u64. rewrite Zplus_mod_idemp_l. f_equal. lia.
Qed.

Lemma fixed32_width : fixed_width 4 (Some pb_enc_fixed32).
Proof.
  intros o field src o' s' Hc. unfold ecall, pb_enc_fixed32, pb_encode_fixed32, load_uint, load.
  unfold mbind, M_bind, mret, M_ret. destruct (mem_load (mem s) src 4); [|done].
  unfold pb_write. rewrite Hc. by intros [= <- <-].
Qed.

Lemma fixed64_width : fixed_width 8 (Some pb_enc_fixed64).
Proof.
  intros o field src o' s' Hc. unfold ecall, pb_enc_fixed64, pb_encode_fixed64, load_uint, load.
  unfold mbind, M_bind, mret, M_ret. destruct (mem_load (mem s) src 8); [|done].
  unfold pb_write. rewrite Hc. by intros [= <- <-].
Qed.

(** The computation of the size of a packed array. *)
Definition packed_size (func : option encoder) (field : pb_field_t) (pData count : Z)
    : M W (bool * Z) :=
  if PB_LTYPE (pf_type field) =? PB_LTYPE_FIXED32 then mret (true, u64 (4 * count))
  else if PB_LTYPE (pf_type field) =? PB_LTYPE_FIXED64 then mret (true, u64 (8 * count))
  else
    '(ok, sizestream) ←
      encode_packed_items (Z.to_nat count) func PB_OSTREAM_SIZING field pData;
    mret (ok, bytes_written sizestream).

Lemma packed_size_spec func field pData count b size s' :
  stable_encoder (ecall func) → field_typed field → 0 <= count < 2 ^ 32 →
  (PB_LTYPE (pf_type field) = PB_LTYPE_FIXED32 → fixed_width 4 func) →
  (PB_LTYPE (pf_type field) = PB_LTYPE_FIXED64 → fixed_width 8 func) →
  packed_size func field pData count s = Ok (b, size, s') →
  s' = s ∧ 0 <= size < 2 ^ 64 ∧ (b = true → ∀ bs,
    emits (λ o, encode_packed_items (Z.to_nat count) func o field pData) bs s →
    zlen bs < 2 ^ 64 → zlen bs = size).
Proof.
  intros Hf Ht Hc H4 H8. pose proof (packed_items_stable (Z.to_nat count) func field pData Hf Ht) as Hst.
  assert (∀ k bs, 0 <= k <= 8 → fixed_width k func →
    emits (λ o, encode_packed_items (Z.to_nat count) func o field pData) bs s →
    zlen bs < 2 ^ 64 → zlen bs = u64 (k * count)) as Hw.
  { intros k bs Hk Hwk He Hl.
    pose proof (emits_sizing _ _ _ He PB_OSTREAM_SIZING eq_refl ltac:(simpl; lia)) as E.
    apply (packed_items_width k) in E; [|lia|done|done|simpl; lia]. simpl in E.
    assert (0 <= k * count < 2 ^ 36) by nia. rewrite Z2Nat.id in E by lia.
    rewrite !u64_small in E by lia. rewrite u64_small by lia. lia. }
  unfold packed_size. destruct (Z.eqb_spec (PB_LTYPE (pf_type field)) PB_LTYPE_FIXED32).
  { intros [= <- <- <-]. split; [done|]. split; [apply u64_range|].
    intros _ bs. apply Hw; [lia|auto]. }
  destruct (Z.eqb_spec (PB_LTYPE (pf_type field)) PB_LTYPE_FIXED64).
  { intros [= <- <- <-]. split; [done|]. split; [apply u64_range|].
    intros _ bs. apply Hw; [lia|auto]. }
  unfold mbind, M_bind.
  destruct (encode_packed_items _ _ PB_OSTREAM_SIZING _ _ _) as [[[ok o1] s1]| |] eqn:E; [|done..].
  intros [= <- <- <-].
  destruct (stable_sizing _ _ Hst PB_OSTREAM_SIZING _ _ _ eq_refl ltac:(simpl; lia) E)
    as (-> & _ & Hb). split_and!; [done|lia|lia|].
  intros -> bs He Hl. by eapply sizing_length.
Qed.

Lemma array_stable field pData count func :
  stable_encoder (ecall func) → field_typed field → 0 <= count < 2 ^ 32 →
  (PB_LTYPE (pf_type field) = PB_LTYPE_FIXED32 → fixed_width 4 func) →
  (PB_LTYPE (pf_type field) = PB_LTYPE_FIXED64 → fixed_width 8 func) →
  stable (λ o, encode_array o field pData count func) s.
Proof.
  intros Hf Ht Hc H4 H8. unfold encode_array. destruct (count =? 0); [apply stable_ret|].
  destruct (_ && _); [apply stable_fail|].
  destruct (_ <=? _); [|by apply items_stable].
  apply (stable_seq (λ o, pb_encode_tag o PB_WT_STRING (pf_tag field)) (λ o,
    '(ok, size) ← packed_size func field pData count;
    if negb ok then mret (false, o)
    else '(ok, o) ← pb_encode_varint o size;
         if negb ok then mret (false, o)
         else sized size (λ o, encode_packed_items (Z.to_nat count) func o field pData) o));
    [apply encode_tag_stable; unfold PB_WT_STRING; lia|].
  apply (stable_read_pair (packed_size func field pData count) (λ ok size o,
    if negb ok then mret (false, o)
    else '(ok, o) ← pb_encode_varint o size;
         if negb ok then mret (false, o)
         else sized size (λ o, encode_packed_items (Z.to_nat count) func o field pData) o)).
  intros b size s' E. apply packed_size_spec in E as (-> & Hs & Hsz); [|done..].
  split; [done|]. destruct b; cbn [negb]; [|by apply (stable_false (λ o, o))].
  apply (stable_seq (λ o, pb_encode_varint o size)); [by apply encode_varint_stable|].
  apply sized_stable; [by apply packed_items_stable|auto].
Qed.

(** * Submessages *)

Definition stable_message (encode : msg_encoder) : Prop :=
  ∀ fields src, Forall field_typed fields → stable (λ o, encode o fields src) s.

(** [pb_encode_submessage] after the length. *)
Definition submessage_body (encode : msg_encoder) (fields : list pb_field_t) (src size : Z)
    : writer W := λ stream,
  if max_size stream <? u64 (bytes_written stream + size)
  then ofail stream "stream full"
  else
    '(status, substream) ←
      encode (mk_ostream (o_callback stream) (o_state stream) size 0 None) fields src;
    if negb (bytes_written substream =? size)
    then ofail (mk_ostream (o_callback stream) (o_state substream) (max_size stream)
                  (u64 (bytes_written stream + bytes_written substream)) (o_errmsg substream))
           "submsg size changed"
    else mret (status, mk_ostream (o_callback stream) (o_state substream) (max_size stream)
                 (u64 (bytes_written stream + bytes_written substream)) (o_errmsg substream)).

Lemma substream_ok o out room size :
  obuf_ok o out room → 0 <= size < 2 ^ 64 →
  obuf_ok (mk_ostream (o_callback o) (o_state o) size 0 None) out room.
Proof. intros [] Hs. split; simpl; (done || lia). Qed.

Lemma submessage_body_emits encode fields src bs :
  zlen bs < 2 ^ 64 → emits (λ o, encode o fields src) bs s →
  emits (sized (zlen bs) (submessage_body encode fields src (zlen bs))) bs s.
Proof.
  intros Hl He. apply sized_emits; [done|..].
  - intros o out room Ho [Hm Hr]. unfold submessage_body.
    pose proof (substream_ok o out room (zlen bs) Ho ltac:(lia)) as Hs.
    destruct Ho as [Hc Hst Hw Hmx Hrm Ht Herr].
    rewrite u64_small, (proj2 (Z.ltb_ge _ _)) by lia. unfold mbind, M_bind.
    rewrite (emits_fits _ _ _ _ _ _ He Hs) by (unfold fits; simpl; lia).
    cbn [bytes_written put]. rewrite Z.add_0_l, Z.eqb_refl. cbn [negb put o_state o_errmsg].
    by rewrite u64_small, Hc by lia.
  - intros o out room Ho Hw Hm. unfold submessage_body.
    destruct Ho as [Hc Hst Hwr Hmx Hrm Ht Herr].
    rewrite u64_small, (proj2 (Z.ltb_lt _ _)) by lia.
    eexists _, []. split_and!; [done|simpl; by rewrite Herr|apply prefix_nil|].
    simpl. by rewrite Hst, app_nil_r, Z.sub_0_r.
Qed.

Lemma submessage_emits encode fields src bs :
  zlen bs < 2 ^ 64 → emits (λ o, encode o fields src) bs s →
  emits (λ o, pb_encode_submessage encode o fields src) (varint (zlen bs) ++ bs) s.
Proof.
  intros Hl He. apply (emits_ext _ (λ o, '(ok, o) ← pb_encode_varint o (zlen bs);
    if negb ok then mret (false, o)
    else sized (zlen bs) (submessage_body encode fields src (zlen bs)) o)).
  - intros o. unfold pb_encode_submessage. unfold mbind at 1, M_bind at 1.
    rewrite (emits_sizing _ _ _ He) by (simpl; (done || lia)).
    cbn [negb set_bytes_written bytes_written PB_OSTREAM_SIZING]. by rewrite u64_small by lia.
  - apply (emits_seq (λ o, pb_encode_varint o (zlen bs)));
      [apply encode_varint_emits; lia|by apply submessage_body_emits].
Qed.

Lemma submessage_body_stable encode fields src size :
  stable (λ o, encode o fields src) s → 0 <= size < 2 ^ 64 →
  stable (sized size (submessage_body encode fields src size)) s.
Proof.
  intros Hst Hs. apply sized_stable_with. intros o out room o' s' Ho E.
  unfold submessage_body in E.
  destruct (Z.ltb_spec (max_size o) (u64 (bytes_written o + size))) as [|Hm]; [done|].
  pose proof (substream_ok o out room size Ho Hs) as Hs'. unfold mbind, M_bind in E.
  destruct (encode _ fields src s) as [[[st sub] s1]| |] eqn:E1; [|done..].
  destruct (Z.eqb_spec (bytes_written sub) size) as [Eb|]; cbn [negb] in E; [|done].
  injection E as -> _ _.
  destruct (stable_buffer _ _ Hst _ _ _ _ _ Hs' E1) as (bs & He & Hf).
  rewrite (emits_fits _ _ _ _ _ _ He Hs' Hf) in E1. injection E1 as <- <-.
  simpl in Eb. destruct Ho, Hf as [_ Hf]. subst size. rewrite u64_small in Hm by lia.
  exists bs. split; [apply submessage_body_emits; [lia|done]|unfold fits; lia].
Qed.

Lemma submessage_stable encode fields src :
  stable_message encode → Forall field_typed fields →
  stable (λ o, pb_encode_submessage encode o fields src) s.
Proof.
  intros He Hf. apply (stable_read_pair (encode PB_OSTREAM_SIZING fields src) (λ ok sub o,
    if negb ok then mret (false, set_oerrmsg (o_errmsg sub) o)
    else '(ok, o) ← pb_encode_varint o (bytes_written sub);
         if negb ok then mret (false, o)
         else sized (bytes_written sub)
                (submessage_body encode fields src (bytes_written sub)) o)).
  intros b sub s' E. pose proof (He fields src Hf) as Hst.
  destruct (stable_sizing _ _ Hst PB_OSTREAM_SIZING _ _ _ eq_refl ltac:(simpl; lia) E)
    as (-> & _ & Hb). split; [done|].
  destruct b; cbn [negb]; [|by apply stable_false].
  apply (stable_seq (λ o, pb_encode_varint o (bytes_written sub)));
    [by apply encode_varint_stable|by apply submessage_body_stable].
Qed.

(** * Fields and messages *)

Lemma ofields_of_typed p fields s' :
  ofields_of p s = Ok (fields, s') → Forall field_typed fields.
Proof.
  unfold ofields_of. destruct (fields_at p) as [fs|] eqn:E; [|done]. intros [= <- <-].
  eapply app_fields, E.
Qed.

Lemma enc_submessage_stable encode :
  stable_message encode → stable_encoder (pb_enc_submessage encode).
Proof.
  intros He field src Hf. unfold pb_enc_submessage. destruct (_ =? 0); [apply stable_fail|].
  apply (stable_read (ofields_of (pf_ptr field)) (λ fields o,
    pb_encode_submessage encode o fields src)); [auto with readonly|].
  intros fields E. apply submessage_stable; [done|by eapply ofields_of_typed].
Qed.

(** The table of encoders. *)
Lemma encoder_of_spec encode type func s' :
  stable_message encode → encoder_of encode type s = Ok (func, s') →
  stable_encoder (ecall func) ∧
  (PB_LTYPE type = PB_LTYPE_FIXED32 → fixed_width 4 func) ∧
  (PB_LTYPE type = PB_LTYPE_FIXED64 → fixed_width 8 func).
Proof.
  intros He. unfold encoder_of. set (i := PB_LTYPE type). clearbody i.
  destruct (PB_ENCODERS encode !! Z.to_nat i) as [f|] eqn:E; [|done]. intros [= <- <-].
  unfold PB_LTYPE_FIXED32, PB_LTYPE_FIXED64.
  destruct (Z.to_nat i) as [|[|[|[|[|[|[|[|[|[|k]]]]]]]]]] eqn:Ei;
    (discriminate E || injection E as <-);
    (split; [|split; intros Hw; try (exfalso; lia)]);
    try exact fixed32_width; try exact fixed64_width.
  - apply enc_varint_stable.
  - apply enc_uvarint_stable.
  - apply enc_svarint_stable.
  - apply enc_fixed32_stable.
  - apply enc_fixed64_stable.
  - apply enc_bytes_stable.
  - apply enc_string_stable.
  - by apply enc_submessage_stable.
  - intros field src Hf. apply stable_ub.
  - apply enc_fixed_length_bytes_stable.
Qed.

Lemma all_zero_readonly k p : readonly (W := W) (all_zero k p).
Proof. revert p. induction k; intros p; cbn [all_zero]; auto 30 with readonly. Qed.
#[local] Hint Resolve all_zero_readonly : readonly.

Lemma check_loop_readonly fuel check it :
  (∀ f p, readonly (W := W) (check f p)) → readonly (check_loop fuel check it).
Proof.
  intros Hc. revert it. induction fuel; intros it; cbn [check_loop]; auto 30 with readonly.
Qed.

Lemma check_proto3_readonly n field pData :
  readonly (W := W) (pb_check_proto3_default_value n field pData).
Proof.
  revert field pData. induction n as [|n IH]; intros field pData;
    cbn [pb_check_proto3_default_value]; [auto 30 with readonly|].
  pose proof (λ fuel it, check_loop_readonly fuel _ it IH). auto 30 with readonly.
Qed.

#[local] Hint Resolve check_proto3_readonly : readonly.

(** The part of [encode_basic_field] after the location of the count or presence
    and of the data are known. *)
Definition basic_body (field : pb_field_t) (func : option encoder) (pSize : option Z)
    (pData : Z) (implicit_has : bool) : writer W := λ stream,
  let type := pf_type field in
  let load_has : M W bool :=
    match pSize with Some a => load_bool a | None => mret implicit_has end in
  let load_count : M W Z :=
    match pSize with Some a => load_size a | None => ub end in
  let encode_one : M W (bool * pb_ostream_t) :=
    '(ok, stream) ← pb_encode_tag_for_field stream field;
    if negb ok then mret (false, stream) else ecall func stream field pData in
  if PB_HTYPE type =? PB_HTYPE_REQUIRED then
    if pData =? 0 then ofail stream "missing required field" else encode_one
  else if PB_HTYPE type =? PB_HTYPE_OPTIONAL then
    has ← load_has; if (has : bool) then encode_one else mret (true, stream)
  else if PB_HTYPE type =? PB_HTYPE_REPEATED then
    count ← (if negb (pf_size_offset field =? 0) then load_count
             else mret (pf_array_size field));
    encode_array stream field pData count func
  else if PB_HTYPE type =? PB_HTYPE_ONEOF then
    which ← load_count;
    if which =? pf_tag field then encode_one else mret (true, stream)
  else ofail stream "invalid field type".

Lemma basic_body_stable field func pSize pData has :
  field_typed field → stable_encoder (ecall func) →
  (PB_LTYPE (pf_type field) = PB_LTYPE_FIXED32 → fixed_width 4 func) →
  (PB_LTYPE (pf_type field) = PB_LTYPE_FIXED64 → fixed_width 8 func) →
  stable (basic_body field func pSize pData has) s.
Proof.
  intros Ht Hf H4 H8.
  pose (one := λ o, '(ok, o) ← pb_encode_tag_for_field o field;
                     if negb ok then mret (false, o) else ecall func o field pData).
  assert (stable one s) as Hone.
  { apply (stable_seq (λ o, pb_encode_tag_for_field o field));
      [apply encode_tag_for_field_stable|by apply Hf]. }
  unfold basic_body. destruct (_ =? PB_HTYPE_REQUIRED).
  { destruct (pData =? 0); [apply stable_fail|exact Hone]. }
  destruct (_ =? PB_HTYPE_OPTIONAL).
  { apply (stable_read (match pSize with Some a => load_bool a | None => mret has end)
             (λ (b : bool) o, if b then one o else mret (true, o)));
      [destruct pSize; auto with readonly|].
    intros [] _; [exact Hone|apply stable_ret]. }
  destruct (_ =? PB_HTYPE_REPEATED).
  { apply (stable_read _ (λ count o, encode_array o field pData count func));
      [destruct (negb _), pSize; auto with readonly|].
    intros count E. apply array_stable; [done|done| |done|done].
    destruct (negb _); [|injection E as <-; by apply typed_array_size].
    destruct pSize; [|done]. by apply (load_uint_range _ _ _ _ _ Hbytes) in E. }
  destruct (_ =? PB_HTYPE_ONEOF); [|apply stable_fail].
  apply (stable_read (match pSize with Some a => load_size a | None => ub end)
           (λ which o, if which =? pf_tag field then one o else mret (true, o)));
    [destruct pSize; auto with readonly|].
  intros which _. destruct (which =? pf_tag field); [exact Hone|apply stable_ret].
Qed.

Lemma basic_field_stable n encode field pData :
  stable_message encode → field_typed field →
  stable (λ o, encode_basic_field n encode o field pData) s.
Proof.
  intros He Ht.
  apply (stable_read (encoder_of encode (pf_type field)) (λ func o,
    '(pSize, implicit_has) ←
      (if negb (pf_size_offset field =? 0)
       then mret (Some (pData + pf_size_offset field), false)
       else if PB_HTYPE (pf_type field) =? PB_HTYPE_OPTIONAL then
         dflt ← pb_check_proto3_default_value n field pData; mret (None, negb dflt)
       else mret (None, true));
    '(pData, implicit_has) ←
      (if PB_ATYPE (pf_type field) =? PB_ATYPE_POINTER then
         p ← load_ptr pData; mret (p, negb (p =? 0))
       else mret (pData, implicit_has));
    basic_body field func pSize pData implicit_has o)); [auto with readonly|].
  intros func E. apply encoder_of_spec in E as (Hf & H4 & H8); [|done].
  apply (stable_read_pair _ (λ pSize implicit_has o,
    '(pData, implicit_has) ←
      (if PB_ATYPE (pf_type field) =? PB_ATYPE_POINTER then
         p ← load_ptr pData; mret (p, negb (p =? 0))
       else mret (pData, implicit_has));
    basic_body field func pSize pData implicit_has o)).
  intros pSize has s' E. split.
  { revert E. match goal with |- ?m s = _ → _ =>
      apply (ltac:(auto 30 with readonly) : readonly m) end. }
  apply (stable_read_pair _ (λ pData has o, basic_body field func pSize pData has o)).
  intros pData' has' s'' E'. split.
  { revert E'. match goal with |- ?m s = _ → _ =>
      apply (ltac:(auto 30 with readonly) : readonly m) end. }
  by apply basic_body_stable.
Qed.

Lemma field_stable n encode field pData :
  stable_message encode → field_typed field → stable (λ o, encode_field n encode o field pData) s.
Proof.
  intros He Ht. unfold encode_field. destruct (_ || _); [by apply basic_field_stable|].
  destruct (_ =? _); [|apply stable_fail].
  apply (stable_read (load_ptr (pb_callback_funcs pData)) (λ fn o,
    if negb (fn =? 0) then
      '(ok, o) ← user_encode_field fn o field (pb_callback_arg pData);
      if negb ok then ofail o "callback error" else mret (true, o)
    else mret (true, o))); [auto with readonly|].
  intros fn _. destruct (negb _); [|apply stable_ret].
  apply (stable_seq_with (λ o, user_encode_field fn o field (pb_callback_arg pData))
           (λ o, mret (true, o)) (λ o, ofail o "callback error"));
    [apply returns_false_fail|apply app_field|apply stable_ret].
Qed.

Lemma default_extension_stable n encode ext :
  stable_message encode → stable (λ o, default_extension_encoder n encode o ext) s.
Proof.
  intros He. unfold default_extension_encoder.
  apply (stable_read (load_ptr (ext_type ext)) (λ ty o, _)); [auto with readonly|intros ty _].
  apply (stable_read (load_ptr (ext_type_arg ty)) (λ arg o, _)); [auto with readonly|intros arg _].
  apply (stable_read (ofields_of arg) (λ fields o, _)); [auto with readonly|intros fields Ef].
  apply ofields_of_typed in Ef.
  apply (stable_read (opt (fields !! 0%nat)) (λ field o, _)); [auto with readonly|intros field E].
  destruct (fields !! 0%nat) as [f|] eqn:Ef0; [|done]. injection E as <-.
  assert (field_typed f) by (by eapply Forall_lookup_1).
  destruct (_ =? _); [by apply field_stable|].
  apply (stable_read (load_ptr (ext_dest ext)) (λ dest o, _)); [auto with readonly|intros dest _].
  by apply field_stable.
Qed.

Lemma extension_loop_stable fuel n encode ext :
  stable_message encode → stable (λ o, encode_extension_loop fuel n encode o ext) s.
Proof.
  intros He. revert ext. induction fuel as [|fuel IH]; intros ext; cbn [encode_extension_loop];
    [apply stable_nofuel|].
  destruct (ext =? 0); [apply stable_ret|].
  apply (stable_read (load_ptr (ext_type ext)) (λ ty o, _)); [auto with readonly|intros ty _].
  apply (stable_read (load_ptr (ext_type_encode ty)) (λ fn o, _)); [auto with readonly|intros fn _].
  apply (stable_seq
    (λ o, if negb (fn =? 0) then user_encode_ext fn o ext
          else default_extension_encoder n encode o ext)
    (λ o, next ← load_ptr (ext_next ext); encode_extension_loop fuel n encode o next)).
  - destruct (negb _); [apply app_ext|by apply default_extension_stable].
  - apply (stable_read (load_ptr (ext_next ext)) (λ next o, _)); [auto with readonly|intros next _].
    apply IH.
Qed.

Lemma iter_next_typed it more it' :
  pb_field_iter_next it = Some (more, it') → start it' = start it.
Proof.
  unfold pb_field_iter_next, cur. destruct (start it !! pos it) as [f|]; simpl; [|done].
  destruct (pf_tag f =? 0); [by intros [= <- <-]|].
  destruct (start it !! S (pos it)) as [g|]; simpl; [|done].
  destruct (pf_tag g =? 0).
  - unfold pb_field_iter_begin. destruct (start it !! 0%nat); simpl; [|done]. by intros [= <- <-].
  - destruct (_ && _); by intros [= <- <-].
Qed.

Lemma encode_loop_stable fuel n encode it :
  stable_message encode → Forall field_typed (start it) →
  stable (λ o, encode_loop fuel n encode o it) s.
Proof.
  intros He. revert it. induction fuel as [|fuel IH]; intros it Ht; cbn [encode_loop];
    [apply stable_nofuel|].
  apply (stable_read (opt (cur it)) (λ f o, _)); [auto with readonly|intros f E].
  unfold cur in E. destruct (start it !! pos it) as [f'|] eqn:Ef; [|done]. injection E as <-.
  assert (field_typed f') by (by eapply Forall_lookup_1).
  apply (stable_seq
    (λ o, if PB_LTYPE (pf_type f') =? PB_LTYPE_EXTENSION
          then encode_extension_field n encode o (pData it)
          else encode_field n encode o f' (pData it))
    (λ o, '(more, it) ← opt (pb_field_iter_next it);
          if (more : bool) then encode_loop fuel n encode o it else mret (true, o))).
  - destruct (_ =? _); [|by apply field_stable].
    apply (stable_read (load_ptr (pData it)) (λ ext o, encode_extension_loop n n encode o ext));
      [auto with readonly|intros ext _]. by apply extension_loop_stable.
  - apply (stable_read_pair (opt (pb_field_iter_next it)) (λ (more : bool) it o,
      if more then encode_loop fuel n encode o it else mret (true, o))).
    intros more it' s' E. destruct (pb_field_iter_next it) as [[more' it'']|] eqn:En; [|done].
    injection E; intros; subst. split; [done|]. destruct more; [|apply stable_ret].
    apply IH. by rewrite (iter_next_typed _ _ _ En).
Qed.

(** [pb_encode] writes the same bytes on every stream. *)
Lemma pb_encode_stable n : stable_message (pb_encode n).
Proof.
  induction n as [|n IH]; intros fields src Hf; cbn [pb_encode]; [apply stable_nofuel|].
  unfold encode_body. apply (stable_read_pair (opt (pb_field_iter_begin fields src))
    (λ nonempty it o, if negb nonempty then mret (true, o)
                      else encode_loop (length fields) n (pb_encode n) o it)).
  intros nonempty it s' E. destruct (pb_field_iter_begin fields src) as [[b it']|] eqn:Eb; [|done].
  injection E; intros; subst. split; [done|]. destruct nonempty; cbn [negb]; [|apply stable_ret].
  apply encode_loop_stable; [done|]. unfold pb_field_iter_begin in Eb.
  destruct (fields !! 0%nat); simpl in Eb; [|done]. by injection Eb; intros; subst.
Qed.
End encoders.
