(* ===== verification/PbExample.v ===== *)
(** A message type for the instances of the theorems: descriptors built with the
    macros of [pb.h] for the structs

<<
    struct Sub { int32_t x; };
    struct Msg { int32_t a; bool has_b; uint32_t b; Sub c;
                 pb_size_t d_count; int32_t d[3]; char e[6]; };
>>
    laid out as the target's compiler does, and a machine with one [Msg]. *)
From S2P Require Import Prelude Mem Pb PbIter PbStream.

Definition Sub_fields : list pb_field_t :=
  let x := mk_member 0 4 4 in
  [PB_FIELD 1 INT32 REQUIRED STATIC FIRST x x 0; PB_LAST_FIELD].

Definition Sub_fields_address : Z := 100.

Definition Msg_fields : list pb_field_t :=
  let a := mk_member 0 4 4 in
  let has_b := mk_member 4 1 1 in
  let b := mk_member 8 4 4 in
  let c := mk_member 12 4 4 in
  let d_count := mk_member 16 4 4 in
  let d := mk_member 20 12 4 in
  let e := mk_member 32 6 1 in
  [PB_FIELD 1 INT32 REQUIRED STATIC FIRST a a 0;
   PB_FIELD 2 UINT32 (OPTIONAL has_b) STATIC OTHER b a 0;
   PB_FIELD 3 MESSAGE REQUIRED STATIC OTHER c b Sub_fields_address;
   PB_FIELD 4 SINT32 (REPEATED d_count) STATIC OTHER d c 0;
   PB_FIELD 5 STRING SINGULAR STATIC OTHER e d 0;
   PB_LAST_FIELD].

Definition sizeof_Msg : Z := 40.

Definition example_table (p : Z) : option (list pb_field_t) :=
  if p =? Sub_fields_address then Some Sub_fields else None.

Definition example_app : UserCode unit := no_callbacks example_table.

(** [struct Msg m = { 1, true, 5, { 7 }, 3, { -1, 1, -2 }, "hi" }] at 1000. *)
Definition Msg_bytes : list Z :=
  [1; 0; 0; 0; 1; 0; 0; 0; 5; 0; 0; 0; 7; 0; 0; 0; 3; 0; 0; 0;
   255; 255; 255; 255; 1; 0; 0; 0; 254; 255; 255; 255; 104; 105; 0; 0; 0; 0; 0; 0].
Definition Msg_address : Z := 1000.
Definition example_machine : st unit := mkst (mem_map ∅ Msg_address Msg_bytes) ∅ 0 ().

(** The same object before it is filled in. *)
Definition blank_machine : st unit :=
  mkst (mem_map ∅ Msg_address (replicate (Z.to_nat sizeof_Msg) 77)) ∅ 0 ().

(** Its encoding. *)
Definition Msg_wire : list Z := [8; 1; 16; 5; 26; 2; 8; 7; 34; 3; 1; 2; 3; 42; 2; 104; 105].
