(* ===== verification/PbIterProps.v ===== *)
(** Correctness of the field iterator, and of the descriptor macros as the
    iterator reads them. *)
From S2P Require Import Prelude Mem Pb PbIter PbExample.

(** * Searching *)

(** The fields of a message type. *)
Definition message_fields (fields : list pb_field_t) : list pb_field_t :=
  take (n_fields fields) fields.

Lemma existsb_fields p fields :
  existsb p (message_fields fields) = true ↔
  ∃ j f, (j < n_fields fields)%nat ∧ fields !! j = Some f ∧ p f = true.
Proof.
  unfold message_fields. rewrite existsb_exists. split.
  - intros (f & Hf%list_elem_of_In & Hp). apply list_elem_of_lookup in Hf as [j Hj].
    apply lookup_take_Some in Hj as [Hj ?]. by exists j, f.
  - intros (j & f & Hj & Hf & Hp). exists f. split; [|done].
    apply list_elem_of_In, list_elem_of_lookup. exists j. by apply lookup_take_Some.
Qed.

(** Started on any field, [pb_field_iter_find] stops on the next field in
    cyclic order that has the tag (and is no extension range), with the addresses
    of that field; if no field has the tag it comes back to where it started. *)
Theorem iter_find_correct fields dest i it tag :
  terminated fields = true → (i < n_fields fields)%nat → iter_at fields dest i = Some it →
  if existsb (has_tag tag) (message_fields fields) then
    ∃ k f it', (k < n_fields fields)%nat ∧
      pb_field_iter_find it tag = Some (true, it') ∧
      iter_at fields dest ((i + k) mod n_fields fields) = Some it' ∧
      fields !! ((i + k) mod n_fields fields)%nat = Some f ∧ has_tag tag f = true ∧
      (∀ j g, (j < k)%nat → fields !! ((i + j) mod n_fields fields)%nat = Some g →
         has_tag tag g = false)
  else pb_field_iter_find it tag = Some (false, it).
Proof.
  intros Ht Hi E.
  destruct (iter_search_spec fields Ht dest (has_tag tag) i it Hi (iter_at_ok _ _ _ _ E))
    as ([b it'] & Hs & Hr). unfold pb_field_iter_find. rewrite Hs.
  destruct (existsb (has_tag tag) (message_fields fields)) eqn:Ex; destruct b; cbn in Hr.
  - destruct Hr as (k & f & Hk & Hf & Hp & Hno & Hit). exists k, f, it'.
    split_and!; [done|done| |done|done|exact Hno].
    case_decide as Hk0; [|done]. subst. by rewrite Nat.add_0_r, Nat.mod_small.
  - apply existsb_fields in Ex as (j & f & Hj & Hf & Hp). destruct Hr as [Hno _].
    by rewrite (Hno j f Hj Hf) in Hp.
  - destruct Hr as (k & f & Hk & Hf & Hp & _).
    assert (existsb (has_tag tag) (message_fields fields) = true) as Ex'; [|congruence].
    apply existsb_fields. exists (cyc fields i k), f. split_and!; [|done|done].
    apply Nat.mod_upper_bound. lia.
  - destruct Hr as [_ E']. congruence.
Qed.

(** * Layout *)

(** An ordinary field as [nanopb_generator] declares it: no union member, no
    fixed-count array and no extension. *)
Record decl := mk_decl {
  d_tag : Z;
  d_type : proto_type;
  d_rules : rules;
  d_alloc : allocation;
  d_member : member;
  d_ptr : Z
}.

Definition descriptor (p : placement) (d prev : decl) : pb_field_t :=
  PB_FIELD (d_tag d) (d_type d) (d_rules d) (d_alloc d) p (d_member d) (d_member prev) (d_ptr d).

Fixpoint other_fields (prev : decl) (ds : list decl) : list pb_field_t :=
  match ds with
  | [] => [PB_LAST_FIELD]
  | d :: ds' => descriptor OTHER d prev :: other_fields d ds'
  end.

(** The descriptor array of a message type, as the generator writes it. *)
Definition struct_fields (ds : list decl) : list pb_field_t :=
  match ds with
  | [] => [PB_LAST_FIELD]
  | d :: ds' => descriptor FIRST d d :: other_fields d ds'
  end.

Definition companion (d : decl) : option member :=
  match d_rules d, d_alloc d with
  | OPTIONAL has_m, STATIC => Some has_m
  | REPEATED m_count, (STATIC | POINTER) => Some m_count
  | _, _ => None
  end.

(** The member has the type that the rule and the allocation call for, and lies
    in a struct of less than 2 GB. *)
Record decl_ok (d : decl) : Prop := {
  decl_tag : 0 < d_tag d < 2 ^ 32;
  decl_offset : 0 <= m_offset (d_member d);
  decl_size : 0 <= m_size (d_member d);
  decl_end : m_offset (d_member d) + m_size (d_member d) < 2 ^ 31;
  decl_pointer : d_alloc d = POINTER → m_size (d_member d) = sizeof_ptr;
  decl_array m : d_alloc d = STATIC → d_rules d = REPEATED m →
    0 < m_elem (d_member d) ∧ (m_elem (d_member d) | m_size (d_member d));
  decl_rules : d_rules d ≠ OPTEXT;
  decl_companion m : companion d = Some m → 0 <= m_offset m < 2 ^ 31
}.

(** Members in the order of their declaration, without overlap. *)
Fixpoint laid_out (prev : decl) (ds : list decl) : Prop :=
  match ds with
  | [] => True
  | d :: ds' =>
      m_offset (d_member prev) + m_size (d_member prev) <= m_offset (d_member d) ∧
      laid_out d ds'
  end.
Definition struct_ok (ds : list decl) : Prop :=
  Forall decl_ok ds ∧ match ds with [] => True | d :: ds' => laid_out d ds' end.

Lemma other_fields_lookup ds : ∀ prev i d p,
  ds !! i = Some d → (match i with O => Some prev | S j => ds !! j end) = Some p →
  other_fields prev ds !! i = Some (descriptor OTHER d p).
Proof.
  induction ds as [|d0 ds IH]; intros prev i d p Hd Hp; [done|]. destruct i as [|i]; cbn in *.
  - congruence.
  - apply IH; [done|]. by destruct i.
Qed.

Lemma laid_out_lookup ds : ∀ prev i d p,
  laid_out prev ds → ds !! i = Some d →
  (match i with O => Some prev | S j => ds !! j end) = Some p →
  m_offset (d_member p) + m_size (d_member p) <= m_offset (d_member d).
Proof.
  induction ds as [|d0 ds IH]; intros prev i d p Hl Hd Hp; [done|]. destruct Hl as [H1 H2].
  destruct i as [|i]; cbn in *; [congruence|]. eapply (IH d0 i); [done|done|]. by destruct i.
Qed.

Lemma descriptor_htype p d prev : PB_HTYPE (pf_type (descriptor p d prev)) =
  match d_rules d with
  | REQUIRED => PB_HTYPE_REQUIRED
  | REPEATED _ => PB_HTYPE_REPEATED
  | OPTEXT => match d_alloc d with STATIC => PB_HTYPE_REQUIRED | _ => PB_HTYPE_OPTIONAL end
  | _ => PB_HTYPE_OPTIONAL
  end.
Proof. unfold descriptor. by destruct (d_rules d), (d_alloc d), (d_type d). Qed.

Lemma descriptor_atype p d prev : PB_ATYPE (pf_type (descriptor p d prev)) =
  match d_alloc d with
  | STATIC => PB_ATYPE_STATIC | POINTER => PB_ATYPE_POINTER | CALLBACK => PB_ATYPE_CALLBACK
  end.
Proof. unfold descriptor. by destruct (d_rules d), (d_alloc d), (d_type d). Qed.

Lemma descriptor_offset p d prev :
  d_rules d ≠ OPTEXT →
  pf_data_offset (descriptor p d prev) = u32 (PB_DATAOFFSET p (d_member d) (d_member prev)).
Proof. intros. unfold descriptor. by destruct (d_rules d), (d_alloc d). Qed.

(** The iterator steps over exactly the member. *)
Lemma descriptor_stride p d prev : decl_ok d → stride (descriptor p d prev) = m_size (d_member d).
Proof.
  intros Hd. pose proof (decl_size _ Hd). pose proof (decl_end _ Hd).
  pose proof (decl_offset _ Hd). unfold stride. rewrite descriptor_atype, descriptor_htype.
  destruct (d_alloc d) eqn:Ea; cbn.
  - destruct (d_rules d) as [|h| |mc|] eqn:Er; cbn -[u64 Z.mul];
      try (unfold descriptor; rewrite Er, Ea; cbn; by rewrite u32_small by (unfold pb_membersize; lia)).
    + destruct (decl_array _ Hd mc Ea Er) as [Hpos [k Hk]].
      unfold descriptor. rewrite Er, Ea. cbn -[u64 u32 Z.mul Z.div].
      unfold pb_arraysize. rewrite Hk, Z.div_mul by lia.
      assert (0 <= k) by nia. destruct (decide (k = 0)) as [->|].
      { rewrite (u32_small 0), Z.mul_0_r by lia. done. }
      assert (k <= m_size (d_member d)) by nia.
      assert (m_elem (d_member d) <= m_size (d_member d)) by nia.
      rewrite !u32_small by lia. rewrite u64_small; lia.
  - by rewrite (decl_pointer _ Hd Ea).
  - unfold descriptor. rewrite Ea.
    destruct (d_rules d) eqn:Er; cbn; rewrite u32_small by (unfold pb_membersize; lia); done.
Qed.

Lemma not_in_union p p' d d' prev prev' :
  in_union (descriptor p d prev) (descriptor p' d' prev') = false.
Proof.
  unfold in_union, is_oneof. rewrite !descriptor_htype. by destruct (d_rules d), (d_alloc d).
Qed.

(** The [has_] or [_count] member of a field. *)
Lemma descriptor_size_offset p d prev m :
  decl_ok d → companion d = Some m →
  pf_size_offset (descriptor p d prev) = m_offset m - m_offset (d_member d).
Proof.
  intros Hd Hc. pose proof (decl_companion _ Hd m Hc). pose proof (decl_end _ Hd).
  pose proof (decl_offset _ Hd). pose proof (decl_size _ Hd).
  assert (pf_size_offset (descriptor p d prev) = s32 (pb_delta m (d_member d))) as ->.
  { unfold descriptor, companion in *.
    destruct (d_rules d), (d_alloc d); try discriminate; injection Hc as ->; done. }
  unfold pb_delta, s32. rewrite (swrap_small 32 (m_offset m)) by (change (2 ^ (32 - 1)) with (2 ^ 31); lia).
  rewrite (swrap_small 32 (m_offset (d_member d))) by (change (2 ^ (32 - 1)) with (2 ^ 31); lia).
  apply swrap_small; [lia|]. change (2 ^ (32 - 1)) with (2 ^ 31). lia.
Qed.

Lemma struct_fields_lookup ds i d :
  ds !! i = Some d →
  ∃ p prev, struct_fields ds !! i = Some (descriptor p d prev) ∧
    match i with
    | O => p = FIRST
    | S j => p = OTHER ∧ ds !! j = Some prev
    end.
Proof.
  destruct ds as [|d0 ds]; [done|]. destruct i as [|i]; cbn.
  - intros [= <-]. by exists FIRST, d0.
  - intros Hd. destruct (lookup_lt_is_Some_2 (d0 :: ds) i) as [q Hq].
    { apply lookup_lt_Some in Hd. cbn. lia. }
    exists OTHER, q. split; [|by split]. apply other_fields_lookup; [done|].
    by destruct i.
Qed.


(** * Instances *)

Lemma iter_find_correct_witness :
  ∃ it f it' k, iter_at Msg_fields Msg_address 3 = Some it ∧
    pb_field_iter_find it 2 = Some (true, it') ∧
    Msg_fields !! ((3 + k) mod 5)%nat = Some f ∧ has_tag 2 f = true.
Proof.
  destruct (iter_at Msg_fields Msg_address 3) as [it|] eqn:E; [|discriminate].
  pose proof (iter_find_correct Msg_fields Msg_address 3 it 2 ltac:(reflexivity)
                ltac:(unfold n_fields; cbn; lia) E) as (k & f & it' & _ & Hf & _ & Hg & Ht & _).
  exists it, f, it', k. split; [reflexivity|]. split; [exact Hf|]. split; [exact Hg|exact Ht].
Defined.

Definition Msg_decls : list decl :=
  let a := mk_member 0 4 4 in
  let b := mk_member 8 4 4 in
  let c := mk_member 12 4 4 in
  let d := mk_member 20 12 4 in
  let e := mk_member 32 6 1 in
  [mk_decl 1 INT32 REQUIRED STATIC a 0;
   mk_decl 2 UINT32 (OPTIONAL (mk_member 4 1 1)) STATIC b 0;
   mk_decl 3 MESSAGE REQUIRED STATIC c Sub_fields_address;
   mk_decl 4 SINT32 (REPEATED (mk_member 16 4 4)) STATIC d 0;
   mk_decl 5 STRING SINGULAR STATIC e 0].

Lemma Msg_decls_ok : struct_ok Msg_decls.
Proof.
  split; [|cbn; lia].
  repeat (apply List.Forall_cons; [split; cbn; try (done || lia); try (intros; discriminate);
    try (by intros ? [= <-]; cbn; lia)|]); [|apply List.Forall_nil].
  intros m _ _. split; [lia|]. by exists 3.
Qed.

