(* ===== verification/PbFieldProps.v ===== *)
(** Field values survive encoding and decoding: the entry of [PB_DECODERS] undoes
    the entry of [PB_ENCODERS] for every scalar type and width. *)
From S2P Require Import Prelude Mem Pb PbStream PbVarint PbWireProps PbDecode PbEncode PbIter PbExample.

(** * Integers of a given width *)

Lemma swrap_congr w a b : a mod 2 ^ w = b mod 2 ^ w → swrap w a = swrap w b.
Proof.
  intros E. unfold swrap. f_equal. rewrite <- Zplus_mod_idemp_l, E. apply Zplus_mod_idemp_l.
Qed.

(** A signed value is recovered from its 64-bit two's complement. *)
Lemma swrap_u64 w z :
  0 < w <= 64 → - 2 ^ (w - 1) <= z < 2 ^ (w - 1) → swrap w (u64 z) = z.
Proof.
  intros Hw Hz. rewrite (swrap_congr w _ z); [apply swrap_small; [lia|done]|].
  unfold u64. apply Z.mod_mod_divide. exists (2 ^ (64 - w)).
  rewrite <- Z.pow_add_r by lia. f_equal. lia.
Qed.

Lemma le_bytes_mod k z : le_bytes k (z mod 2 ^ (8 * Z.of_nat k)) = le_bytes k z.
Proof.
  rewrite <- le_of_bytes_le_bytes.
  pose proof (le_bytes_le_of_bytes _ (le_bytes_are_bytes k z)) as E.
  by rewrite length_le_bytes in E.
Qed.

(** The bytes of an object, read as a signed integer and stored again. *)
Lemma le_bytes_swrap bs k :
  Forall is_byte bs → length bs = k → (0 < k)%nat →
  le_bytes k (swrap (8 * Z.of_nat k) (le_of_bytes bs)) = bs.
Proof.
  intros Hb <- Hk. rewrite <- le_bytes_mod, swrap_mod, le_bytes_mod by lia.
  by apply le_bytes_le_of_bytes.
Qed.

(** * Scalar fields *)

(** The types and sizes of plain members: integers, enums, booleans and floating
    point numbers, and byte arrays of fixed length. *)
Definition scalar (f : pb_field_t) : bool :=
  let ltype := PB_LTYPE (pf_type f) in
  let ds := pf_data_size f in
  if ltype <=? PB_LTYPE_SVARINT
  then (ds =? 1) || (ds =? 2) || (ds =? 4) || (ds =? 8)
  else if ltype =? PB_LTYPE_FIXED32 then ds =? 4
  else if ltype =? PB_LTYPE_FIXED64 then ds =? 8
  else (ltype =? PB_LTYPE_FIXED_LENGTH_BYTES) && (0 <? ds) && (ds <? 2 ^ 32).

Section scalar.
Context {W : Type} `{UserCode W} `{Allocator}.
Implicit Types s : st W.

(** [dec] stores the bytes that [enc] was given, from the bytes [enc] wrote. *)
Definition carries (enc : encoder) (dec : decoder) (f : pb_field_t) : Prop :=
  ∀ src bs s, mem_load (mem s) src (Z.to_nat (pf_data_size f)) = Some bs → Forall is_byte bs →
  ∃ wire, emits (λ o, enc o f src) wire s ∧ zlen wire <= pf_data_size f + 10 ∧
    ∀ dest rest n e s', mem_valid (mem s') dest (pf_data_size f) → zlen wire <= n < 2 ^ 64 →
    ∃ m', mem_store (mem s') dest bs = Some m' ∧
      dec (buf_stream (wire ++ rest) n e) f dest s' =
      Ok (true, buf_stream rest (n - zlen wire) e, set_mem m' s').

(** Storing an integer that was not clamped. *)
Lemma store_clamped_same stream k dest v bs s m' :
  le_bytes k v = bs → mem_store (mem s) dest bs = Some m' →
  store_clamped stream k dest v v s = Ok (true, stream, set_mem m' s).
Proof.
  intros Hle Hm. unfold store_clamped, store_uint, store, mbind, M_bind.
  by rewrite Hle, Hm, Z.eqb_refl.
Qed.

Lemma load_int_ok k src bs s :
  mem_load (mem s) src k = Some bs →
  load_int k src s = Ok (swrap (8 * Z.of_nat k) (le_of_bytes bs), s).
Proof. intros E. unfold load_int, load_uint, load, mbind, M_bind. by rewrite E. Qed.

Lemma load_uint_le k src bs s :
  mem_load (mem s) src k = Some bs → load_uint k src s = Ok (le_of_bytes bs, s).
Proof. intros E. unfold load_uint, load, mbind, M_bind. by rewrite E. Qed.

Lemma store_valid s dest (bs : list Z) ds :
  mem_valid (mem s) dest ds → zlen bs = ds → ∃ m', mem_store (mem s) dest bs = Some m'.
Proof. intros Hv <-. apply mem_store_valid in Hv as [m' E]. by exists m'. Qed.

Definition int_width (k : nat) : Prop := k = 1%nat ∨ k = 2%nat ∨ k = 4%nat ∨ k = 8%nat.

(** The reading half of the integer types: what is left once the varint has
    been read. *)
Lemma decode_value_buf v rest n e s :
  0 <= v < 2 ^ 64 → zlen (varint v) <= n < 2 ^ 64 →
  pb_decode_varint (buf_stream (varint v ++ rest) n e) s =
  Ok (buf_stream rest (n - zlen (varint v)) e, Some v, s).
Proof.
  intros Hv Hn. rewrite decode_varint_buf;
    [by rewrite varint_value_varint, Z.mod_small|by apply varint_is_varint|apply varint_length|done].
Qed.

(** A signed member of [k] bytes, as a number. *)
Lemma signed_member bs k :
  Forall is_byte bs → length bs = k → (0 < k <= 8)%nat →
  let v := swrap (8 * Z.of_nat k) (le_of_bytes bs) in
  - 2 ^ 63 <= v < 2 ^ 63 ∧ swrap (8 * Z.of_nat k) (u64 v) = v ∧
  swrap (8 * Z.of_nat k) v = v ∧ le_bytes k v = bs.
Proof.
  intros Hb Hl Hk v. pose proof (swrap_range (8 * Z.of_nat k) (le_of_bytes bs) ltac:(lia)) as R.
  fold v in R.
  assert (2 ^ (8 * Z.of_nat k - 1) <= 2 ^ 63) by (apply Z.pow_le_mono_r; lia).
  split_and!; [lia..|apply swrap_u64; lia|apply swrap_small; lia|apply le_bytes_swrap; (done || lia)].
Qed.

Lemma s32_of_narrow w v : 0 < w <= 32 → - 2 ^ (w - 1) <= v < 2 ^ (w - 1) → s32 (u64 v) = v.
Proof.
  intros Hw Hv. assert (2 ^ (w - 1) <= 2 ^ 31) by (apply Z.pow_le_mono_r; lia).
  apply (swrap_u64 32); [lia|]. change (2 ^ (32 - 1)) with (2 ^ 31). lia.
Qed.

Ltac width_cases Hk Hds :=
  destruct Hk as [->|[->|[->| ->]]];
  match type of Hds with _ = ?z => let z' := eval vm_compute in z in change z with z' in Hds end;
  rewrite Hds; cbn [Z.eqb Pos.eqb]; unfold mbind, M_bind.

Ltac store_same Hs bs :=
  match goal with |- store_clamped _ _ _ ?c ?v _ = _ => replace c with v by (symmetry; exact Hs) end;
  apply (store_clamped_same _ _ _ _ bs).

Lemma int_width_bound k : int_width k → (0 < k <= 8)%nat.
Proof. unfold int_width. lia. Qed.

(** The common shape of the three integer types: [v] is the value of the member
    and [code v] the varint that carries it. *)
Lemma int_carries enc dec f k (value : list Z → Z) (code : Z → Z) :
  pf_data_size f = Z.of_nat k → (∀ v, 0 <= code v < 2 ^ 64) →
  (∀ src bs s o, mem_load (mem s) src k = Some bs → Forall is_byte bs →
     enc o f src s = pb_encode_varint o (code (value bs)) s) →
  (∀ bs rest n e dest s m', Forall is_byte bs → length bs = k →
     zlen (varint (code (value bs))) <= n < 2 ^ 64 → mem_store (mem s) dest bs = Some m' →
     dec (buf_stream (varint (code (value bs)) ++ rest) n e) f dest s =
     Ok (true, buf_stream rest (n - zlen (varint (code (value bs)))) e, set_mem m' s)) →
  carries enc dec f.
Proof.
  intros Hds Hcode Henc Hdec src bs s Hl Hb. rewrite Hds, Nat2Z.id in Hl.
  pose proof (mem_load_length _ _ _ _ Hl) as Hlen. pose proof (varint_zlen (code (value bs))).
  exists (varint (code (value bs))). split_and!; [|lia|].
  - eapply emits_ext; [|apply encode_varint_emits, Hcode]. intros o. by apply Henc.
  - intros dest rest n e s' Hv Hn. destruct (store_valid s' dest bs _ Hv) as [m' Hm]; [lia|].
    exists m'. split; [done|]. by apply Hdec.
Qed.

Lemma varint_carries f k :
  int_width k → pf_data_size f = Z.of_nat k → carries pb_enc_varint pb_dec_varint f.
Proof.
  intros Hk Hds. pose proof (int_width_bound k Hk) as Hb.
  apply (int_carries _ _ _ k (λ bs, swrap (8 * Z.of_nat k) (le_of_bytes bs)) u64 Hds).
  - apply u64_range.
  - intros src bs s o Hl _. unfold pb_enc_varint.
    width_cases Hk Hds; by rewrite (load_int_ok _ _ _ _ Hl).
  - intros bs rest n e dest s m' Hbs Hlen Hn Hm. unfold pb_dec_varint, mbind, M_bind.
    rewrite decode_value_buf by (done || apply u64_range).
    destruct (signed_member bs k Hbs Hlen Hb) as (Hr & Hu & Hs & Hle).
    pose proof (swrap_range (8 * Z.of_nat k) (le_of_bytes bs) ltac:(lia)) as Hrange.
    set (v := swrap (8 * Z.of_nat k) (le_of_bytes bs)) in *.
    assert (s64 (u64 v) = v) as H64 by (apply (swrap_u64 64); [lia|exact Hr]).
    assert ((k <= 4)%nat → s32 (u64 v) = v) as H32
      by (intros; apply (s32_of_narrow (8 * Z.of_nat k)); [lia|exact Hrange]).
    width_cases Hk Hds.
    4: by rewrite H64; apply (store_clamped_same _ _ _ _ bs).
    all: rewrite H32 by lia.
    all: by store_same Hs bs.
Qed.

Lemma uvarint_carries f k :
  int_width k → pf_data_size f = Z.of_nat k → carries pb_enc_uvarint pb_dec_uvarint f.
Proof.
  intros Hk Hds. pose proof (int_width_bound k Hk) as Hb.
  apply (int_carries _ _ _ k le_of_bytes u64 Hds).
  - apply u64_range.
  - intros src bs s o Hl Hbs. pose proof (le_of_bytes_bound bs Hbs) as B.
    rewrite (mem_load_length _ _ _ _ Hl) in B.
    assert (2 ^ (8 * Z.of_nat k) <= 2 ^ 64) by (apply Z.pow_le_mono_r; lia).
    rewrite u64_small by lia. unfold pb_enc_uvarint.
    width_cases Hk Hds; by rewrite (load_uint_le _ _ _ _ Hl).
  - intros bs rest n e dest s m' Hbs Hlen Hn Hm. unfold pb_dec_uvarint, mbind, M_bind.
    rewrite decode_value_buf by (done || apply u64_range).
    pose proof (le_of_bytes_bound bs Hbs) as B. rewrite Hlen in B.
    assert (2 ^ (8 * Z.of_nat k) <= 2 ^ 64) by (apply Z.pow_le_mono_r; lia).
    rewrite (u64_small (le_of_bytes bs)) by lia.
    pose proof (le_bytes_le_of_bytes bs Hbs) as Hle. rewrite Hlen in Hle.
    width_cases Hk Hds.
    4: by apply (store_clamped_same _ _ _ _ bs).
    all: rewrite ?u32_small, ?u16_small, ?u8_small by exact B;
      by apply (store_clamped_same _ _ _ _ bs).
Qed.

Lemma svarint_carries f k :
  int_width k → pf_data_size f = Z.of_nat k → carries pb_enc_svarint pb_dec_svarint f.
Proof.
  intros Hk Hds. pose proof (int_width_bound k Hk) as Hb.
  apply (int_carries _ _ _ k (λ bs, swrap (8 * Z.of_nat k) (le_of_bytes bs)) (λ v, u64 (zigzag v)) Hds).
  - intros v. apply u64_range.
  - intros src bs s o Hl Hbs.
    destruct (signed_member bs k Hbs (mem_load_length _ _ _ _ Hl) Hb) as (Hr & _).
    rewrite u64_small by (by apply zigzag_range). rewrite <- zigzag_encode by done.
    unfold pb_enc_svarint. width_cases Hk Hds; by rewrite (load_int_ok _ _ _ _ Hl).
  - intros bs rest n e dest s m' Hbs Hlen Hn Hm.
    destruct (signed_member bs k Hbs Hlen Hb) as (Hr & Hu & Hs & Hle).
    set (v := swrap (8 * Z.of_nat k) (le_of_bytes bs)) in *.
    rewrite (u64_small (zigzag v)) in * by (by apply zigzag_range).
    unfold pb_dec_svarint, mbind, M_bind. rewrite decode_svarint_buf by done.
    width_cases Hk Hds.
    4: by apply (store_clamped_same _ _ _ _ bs).
    all: by store_same Hs bs.
Qed.

Lemma fixed32_carries f : pf_data_size f = 4 → carries pb_enc_fixed32 pb_dec_fixed32 f.
Proof.
  intros Hds src bs s Hl Hb. rewrite Hds in Hl |- *. pose proof (mem_load_length _ _ _ _ Hl) as Hlen.
  change (Z.to_nat 4) with 4%nat in *. exists bs.
  split_and!; [by apply encode_fixed32_emits|lia|]. intros dest rest n e s' Hv Hn.
  destruct (store_valid s' dest bs _ Hv) as [m' Hm]; [lia|]. exists m'. split; [done|].
  unfold pb_dec_fixed32. rewrite Hlen in *. by apply decode_fixed32_buf.
Qed.

Lemma fixed64_carries f : pf_data_size f = 8 → carries pb_enc_fixed64 pb_dec_fixed64 f.
Proof.
  intros Hds src bs s Hl Hb. rewrite Hds in Hl |- *. pose proof (mem_load_length _ _ _ _ Hl) as Hlen.
  change (Z.to_nat 8) with 8%nat in *. exists bs.
  split_and!; [by apply encode_fixed64_emits|lia|]. intros dest rest n e s' Hv Hn.
  destruct (store_valid s' dest bs _ Hv) as [m' Hm]; [lia|]. exists m'. split; [done|].
  unfold pb_dec_fixed64. rewrite Hlen in *. by apply decode_fixed64_buf.
Qed.

Lemma fixed_length_bytes_carries f :
  0 < pf_data_size f < 2 ^ 32 → carries pb_enc_fixed_length_bytes pb_dec_fixed_length_bytes f.
Proof.
  intros Hds src bs s Hl Hb. pose proof (mem_load_length _ _ _ _ Hl) as Hlen.
  assert (zlen bs = pf_data_size f) as Ez by lia. pose proof (varint_zlen (zlen bs)).
  exists (varint (zlen bs) ++ bs). rewrite length_app, Nat2Z.inj_add. split_and!; [|lia|].
  - unfold pb_enc_fixed_length_bytes. rewrite <- Ez. apply encode_string_emits; [|lia].
    apply wbuf_mem. by rewrite Hlen.
  - intros dest rest n e s' Hv Hn. destruct (store_valid s' dest bs _ Hv Ez) as [m' Hm].
    exists m'. split; [done|]. unfold pb_dec_fixed_length_bytes, mbind, M_bind.
    rewrite <- app_assoc, decode_varint32_canonical by lia.
    unfold PB_SIZE_MAX. change (u32 (-1)) with (2 ^ 32 - 1).
    rewrite (proj2 (Z.ltb_ge _ _)), (proj2 (Z.eqb_neq _ _)) by lia.
    rewrite <- Ez, Z.eqb_refl. cbn [negb]. unfold read_into, pb_read, mbind, M_bind.
    rewrite read_buf by lia. unfold store. rewrite Hm. by rewrite Z.sub_add_distr.
Qed.

(** C25: for every scalar field, of whatever type and width, the decoder the library
    calls stores in the destination exactly the bytes of the member that the
    encoder it calls was given, consumes exactly the encoding, and changes nothing
    else; the encoding takes at most ten bytes more than the member. *)
Theorem scalar_roundtrip encode decode noinit f :
  scalar f = true →
  ∃ enc dec,
    PB_ENCODERS encode !! Z.to_nat (PB_LTYPE (pf_type f)) = Some (Some enc) ∧
    PB_DECODERS decode noinit !! Z.to_nat (PB_LTYPE (pf_type f)) = Some (Some dec) ∧
    carries enc dec f.
Proof.
  intros Hf. pose proof (ltype_range (pf_type f)) as Hr. unfold scalar in Hf.
  destruct (Z.leb_spec (PB_LTYPE (pf_type f)) PB_LTYPE_SVARINT) as [Hle|_].
  { unfold PB_LTYPE_SVARINT in Hle.
    assert (∃ k, int_width k ∧ pf_data_size f = Z.of_nat k) as (k & Hk & Hds).
    { exists (Z.to_nat (pf_data_size f)). unfold int_width. lia. }
    assert (PB_LTYPE (pf_type f) = 0 ∨ PB_LTYPE (pf_type f) = 1 ∨ PB_LTYPE (pf_type f) = 2)
      as [->|[->| ->]] by lia; eexists _, _; (split; [done|split; [done|]]);
      [eapply varint_carries|eapply uvarint_carries|eapply svarint_carries]; done. }
  destruct (Z.eqb_spec (PB_LTYPE (pf_type f)) PB_LTYPE_FIXED32) as [->|_].
  { eexists _, _. split; [done|split; [done|]]. apply fixed32_carries. lia. }
  destruct (Z.eqb_spec (PB_LTYPE (pf_type f)) PB_LTYPE_FIXED64) as [->|_].
  { eexists _, _. split; [done|split; [done|]]. apply fixed64_carries. lia. }
  destruct (Z.eqb_spec (PB_LTYPE (pf_type f)) PB_LTYPE_FIXED_LENGTH_BYTES) as [->|_]; [|done].
  eexists _, _. split; [done|split; [done|]]. apply fixed_length_bytes_carries. lia.
Qed.
End scalar.

(** * Instances *)

#[local] Existing Instance no_application.
#[local] Existing Instance bump_allocator.

(** The field [d] of the example, three [sint32_t], item by item. *)
Lemma scalar_roundtrip_witness :
  ∃ f enc dec, Msg_fields !! 3%nat = Some f ∧
    PB_ENCODERS (λ o _ _, mret (true, o)) !! Z.to_nat (PB_LTYPE (pf_type f)) = Some (Some enc) ∧
    PB_DECODERS (λ i _ _, mret (true, i)) (λ i _ _, mret (true, i))
      !! Z.to_nat (PB_LTYPE (pf_type f)) = Some (Some dec) ∧ carries enc dec f.
Proof.
  destruct (Msg_fields !! 3%nat) as [f|] eqn:E; [|discriminate].
  destruct (scalar_roundtrip (λ o _ _, mret (true, o)) (λ i _ _, mret (true, i))
    (λ i _ _, mret (true, i)) f) as (enc & dec & He & Hd & Hc).
  - injection E as <-. reflexivity.
  - exists f, enc, dec. split; [reflexivity|]. split; [exact He|]. split; [exact Hd|exact Hc].
Defined.
