(* ===== verification/PbEncodeProps.v ===== *)
(** Correctness of the message encoder: sizes, buffers, framing. *)
From S2P Require Import Prelude Mem Pb PbIter PbStream PbVarint PbWireProps.
From S2P Require Import PbEncode PbStable PbExample.

Section encode.
Context {W : Type} `{EncoderApp W}.
Implicit Types s : st W.

(** What a fresh buffer of [size] bytes holds after [bs] was written to it. *)
Definition written (size : Z) (bs : list Z) : pb_ostream_t :=
  put (pb_ostream_from_buffer size) [] size bs.

(** A writer that succeeds on a fresh buffer, on every fresh buffer. *)
Lemma stable_fresh (w : writer W) s size o' s' :
  stable w s → 0 <= size < 2 ^ 64 →
  w (pb_ostream_from_buffer size) s = Ok (true, o', s') →
  ∃ bs, emits w bs s ∧ s' = s ∧ o' = written size bs ∧ zlen bs <= size.
Proof.
  intros Hst Hs E. pose proof (obuf_fresh size Hs) as Ho.
  destruct (stable_buffer _ _ Hst _ _ _ _ _ Ho E) as (bs & He & Hf).
  rewrite (emits_fits _ _ _ _ _ _ He Ho Hf) in E. injection E as <- <-.
  exists bs. destruct Hf. by split_and!.
Qed.

Lemma emits_fresh (w : writer W) bs s size :
  emits w bs s → 0 <= size < 2 ^ 64 → zlen bs < 2 ^ 64 →
  if zlen bs <=? size then w (pb_ostream_from_buffer size) s = Ok (true, written size bs, s)
  else ∃ o' pre, w (pb_ostream_from_buffer size) s = Ok (false, o', s) ∧
    o_errmsg o' = Some "stream full"%string ∧ pre `prefix_of` bs ∧
    o_state o' = OBuf pre (size - zlen pre).
Proof.
  intros He Hs Hl. pose proof (obuf_fresh size Hs) as Ho. destruct (Z.leb_spec (zlen bs) size).
  - apply (emits_fits _ _ _ _ _ _ He Ho). split; simpl; lia.
  - apply (emits_full _ _ _ He _ _ _ Ho (within_fresh size)). simpl. lia.
Qed.

(** C10: if [pb_encode] succeeds on some buffer, then [pb_get_encoded_size] returns
    exactly the number of bytes it wrote; every buffer of at least that size
    receives exactly the same bytes; and on every smaller buffer [pb_encode]
    returns false with "stream full", having stored a proper prefix and nothing
    outside of the buffer. The message and all other memory stay as they are. *)
Theorem encode_exact n fields src size o' s s' :
  mem_bytes (mem s) → Forall field_typed fields → 0 <= size < 2 ^ 64 →
  pb_encode n (pb_ostream_from_buffer size) fields src s = Ok (true, o', s') →
  ∃ bs, s' = s ∧ o' = written size bs ∧ zlen bs <= size ∧
    pb_get_encoded_size n fields src s = Ok (Some (zlen bs), s) ∧
    ∀ size', 0 <= size' < 2 ^ 64 →
      if zlen bs <=? size'
      then pb_encode n (pb_ostream_from_buffer size') fields src s = Ok (true, written size' bs, s)
      else ∃ o'' pre, pb_encode n (pb_ostream_from_buffer size') fields src s = Ok (false, o'', s) ∧
        o_errmsg o'' = Some "stream full"%string ∧ pre `prefix_of` bs ∧
        o_state o'' = OBuf pre (size' - zlen pre).
Proof.
  intros Hm Hf Hs E. pose proof (pb_encode_stable s Hm n fields src Hf) as Hst.
  destruct (stable_fresh _ _ _ _ _ Hst Hs E) as (bs & He & -> & -> & Hl).
  exists bs. split_and!; [done|done|done| |].
  - unfold pb_get_encoded_size, mbind, M_bind.
    rewrite (emits_sizing _ _ _ He) by (simpl; (done || lia)). simpl.
    by rewrite u64_small by lia.
  - intros size' Hs'. apply (emits_fresh (λ o, pb_encode n o fields src)); [done|done|lia].
Qed.

(** C24: [pb_encode_delimited] writes the length of the message as the shortest
    varint and then the bytes of [pb_encode]; [pb_encode_nullterminated] writes
    the bytes of [pb_encode] and a zero byte. *)
Theorem encode_framing n fields src size o' s s' :
  mem_bytes (mem s) → Forall field_typed fields → 0 <= size < 2 ^ 63 →
  pb_encode n (pb_ostream_from_buffer size) fields src s = Ok (true, o', s') →
  ∃ bs, o' = written size bs ∧ ∀ size', size + 10 <= size' < 2 ^ 64 →
    pb_encode_delimited n (pb_ostream_from_buffer size') fields src s =
      Ok (true, written size' (varint (zlen bs) ++ bs), s) ∧
    pb_encode_nullterminated n (pb_ostream_from_buffer size') fields src s =
      Ok (true, written size' (bs ++ [0]), s).
Proof.
  intros Hm Hf Hs E. pose proof (pb_encode_stable s Hm n fields src Hf) as Hst.
  destruct (stable_fresh _ s size o' s' Hst ltac:(lia) E) as (bs & He & -> & -> & Hl).
  exists bs. split; [done|]. intros size' Hs'. pose proof (varint_zlen (zlen bs)) as Hv. split.
  - pose proof (submessage_emits s (pb_encode n) fields src bs ltac:(lia) He) as D.
    pose proof (emits_fresh _ _ _ size' D ltac:(lia)) as F. rewrite length_app in F.
    rewrite (proj2 (Z.leb_le _ _)) in F by lia. apply F. lia.
  - pose proof (emits_seq (λ o, pb_encode n o fields src) (λ o, pb_write o (BLocal [0]) (zlen [0]))
                  bs [0] s He (pb_write_emits _ _ s (wbuf_local _ _))) as D.
    pose proof (emits_fresh _ _ _ size' D ltac:(lia)) as F. rewrite length_app in F.
    cbn [length] in F. rewrite (proj2 (Z.leb_le _ _)) in F by lia. apply F. lia.
Qed.
End encode.

(** * Instances *)

#[local] Existing Instance example_app.

Lemma PB_LAST_FIELD_typed : field_typed PB_LAST_FIELD.
Proof. by repeat split. Qed.

Lemma Sub_fields_typed : Forall field_typed Sub_fields.
Proof. repeat constructor; by vm_compute. Qed.
Lemma Msg_fields_typed : Forall field_typed Msg_fields.
Proof. repeat constructor; by vm_compute. Qed.

#[local] Instance example_encoder_app : EncoderApp unit.
Proof.
  split; [intros; apply stable_ub..|]. intros p fields. simpl. unfold example_table.
  destruct (_ =? _); [|done]. intros [= <-]. apply Sub_fields_typed.
Qed.

Lemma example_machine_bytes : mem_bytes (mem example_machine).
Proof.
  apply map_Forall_to_list. vm_compute. repeat constructor; discriminate.
Qed.

Lemma encode_exact_witness :
  ∃ bs, pb_get_encoded_size 2 Msg_fields Msg_address example_machine =
      Ok (Some (zlen bs), example_machine) ∧
    pb_encode 2 (pb_ostream_from_buffer 20) Msg_fields Msg_address example_machine =
      Ok (true, written 20 bs, example_machine).
Proof.
  destruct (encode_exact 2 Msg_fields Msg_address 17 (written 17 Msg_wire)
              example_machine example_machine) as (bs & _ & E & Hl & Hs & Hb).
  - apply example_machine_bytes.
  - apply Msg_fields_typed.
  - lia.
  - vm_compute. reflexivity.
  - exists bs. split; [exact Hs|]. specialize (Hb 20 ltac:(lia)).
    rewrite (proj2 (Z.leb_le _ _)) in Hb by lia. exact Hb.
Defined.

Lemma encode_framing_witness :
  ∃ bs, pb_encode_delimited 2 (pb_ostream_from_buffer 30) Msg_fields Msg_address example_machine =
    Ok (true, written 30 (varint (zlen bs) ++ bs), example_machine).
Proof.
  destruct (encode_framing 2 Msg_fields Msg_address 17 (written 17 Msg_wire)
              example_machine example_machine) as (bs & _ & Hb).
  - apply example_machine_bytes.
  - apply Msg_fields_typed.
  - lia.
  - vm_compute. reflexivity.
  - exists bs. apply (Hb 30). lia.
Defined.
