(* ===== verification/PbSafe.v ===== *)
(** Reading never goes wrong: on a buffer, or on a callback that keeps the
    contract of [pb_istream_t], every reader of [PbStream] returns, leaves the
    message alone, and leaves the stream in a state from which reading can go on.

    What the decoder may touch: memory frames, and the decoders of single values
    (the [pb_dec_*] functions of [pb_decode.c]), each of which stays inside of
    the [data_size] bytes it is given. *)
From S2P Require Import Prelude Mem Pb PbIter PbStream PbDecode.
Abbreviation zlen l := (Z.of_nat (length l)).

(** The machine up to the state of the application. *)
Definition unchanged {W} (s s' : st W) : Prop :=
  mem s' = mem s ∧ heap s' = heap s ∧ fixed_count_size s' = fixed_count_size s.

(** The contract of a stream callback: it is asked for no more bytes than the
    stream has left, stores at most that many in its buffer, all of them if it
    returns true, and does not raise [bytes_left]. *)
Class Readers (W : Type) `{UserCode W} : Prop := {
  user_read_ok f stream count (s : st W) :
    i_callback stream = CbUser f → 0 <= count <= bytes_left stream →
    wp (user_read f stream count) (λ '(ok, stream', bs) s',
      unchanged s s' ∧ i_callback stream' = CbUser f ∧
      0 <= bytes_left stream' <= bytes_left stream ∧
      Forall is_byte bs ∧ zlen bs <= count ∧
      (ok = true → zlen bs = count ∧ bytes_left stream' = bytes_left stream)) s
}.

(** A stream from which all the bytes it has left can be read. *)
Record stream_ok (stream : pb_istream_t) : Prop := {
  stream_left : 0 <= bytes_left stream < 2 ^ 64;
  stream_buf : i_callback stream = CbBuf →
    ∃ rest, i_state stream = IBuf rest ∧ Forall is_byte rest ∧ bytes_left stream <= zlen rest
}.

(** The unread bytes of a buffer that do not belong to the (sub)stream. *)
Definition slack (stream : pb_istream_t) : Z :=
  match i_state stream with IBuf rest => zlen rest - bytes_left stream | IUser _ => 0 end.

(** The stream after some reading. *)
Record advances (stream stream' : pb_istream_t) : Prop := {
  adv_callback : i_callback stream' = i_callback stream;
  adv_left : 0 <= bytes_left stream' <= bytes_left stream;
  adv_buf : i_callback stream = CbBuf →
    ∃ rest, i_state stream' = IBuf rest ∧ Forall is_byte rest ∧
            slack stream <= zlen rest - bytes_left stream'
}.

#[export] Instance unchanged_preorder W : PreOrder (@unchanged W).
Proof.
  split.
  - by intros s.
  - intros s1 s2 s3 (A1 & A2 & A3) (B1 & B2 & B3). repeat split; congruence.
Qed.

Lemma advances_refl stream : stream_ok stream → advances stream stream.
Proof.
  intros [Hl Hb]. split; [done|lia|]. intros Hc. destruct (Hb Hc) as (rest & E & ? & ?).
  exists rest. unfold slack. rewrite E. split_and!; (done || lia).
Qed.

Lemma advances_trans s1 s2 s3 : advances s1 s2 → advances s2 s3 → advances s1 s3.
Proof.
  intros [C1 L1 B1] [C2 L2 B2]. split; [congruence|lia|]. intros Hc.
  destruct (B1 Hc) as (r1 & E1 & _ & K1). destruct (B2 ltac:(congruence)) as (r2 & E2 & ? & K2).
  exists r2. split_and!; [done|done|]. unfold slack in *. rewrite E1 in K2. lia.
Qed.

Lemma advances_ok s1 s2 : stream_ok s1 → advances s1 s2 → stream_ok s2.
Proof.
  intros [L1 B1] [C2 L2 B2]. split; [lia|]. intros Hc. rewrite C2 in Hc.
  destruct (B1 Hc) as (r1 & E1 & _ & K1). destruct (B2 Hc) as (r2 & E2 & ? & K2).
  exists r2. split_and!; [done|done|]. unfold slack in K2. rewrite E1 in K2. lia.
Qed.

(** An error message does not matter. *)
Lemma advances_error msg s1 s2 : advances s1 s2 → advances s1 (ierror msg s2).
Proof. by intros []; split. Qed.

Create HintDb safe.
#[export] Hint Resolve advances_refl advances_ok advances_error : safe.

Section reading.
Context {W : Type} `{Readers W}.
Implicit Types s : st W.

(** The result of a reading function: the stream has advanced, by [k] bytes at
    least if [ok]. *)
Definition reads (stream : pb_istream_t) (s : st W) (ok : bool) (k : Z)
    (stream' : pb_istream_t) (s' : st W) : Prop :=
  unchanged s s' ∧ advances stream stream' ∧
  (ok = true → bytes_left stream' <= bytes_left stream - k).

Lemma reads_refl stream s ok : stream_ok stream → reads stream s ok 0 stream s.
Proof. intros Hs. split_and!; [done|by apply advances_refl|lia]. Qed.

Lemma reads_fail stream s k j stream' s' msg ok :
  reads stream s ok k stream' s' → reads stream s false j (ierror msg stream') s'.
Proof. intros (? & ? & _). split_and!; [done|by apply advances_error|done]. Qed.

Lemma reads_false stream s k j stream' s' ok :
  reads stream s ok k stream' s' → reads stream s false j stream' s'.
Proof. intros (? & ? & _). by split_and!. Qed.

Lemma reads_trans t0 t1 t2 s0 s1 s2 b k j :
  reads t0 s0 true k t1 s1 → reads t1 s1 b j t2 s2 → reads t0 s0 b (k + j) t2 s2.
Proof.
  intros (U1 & A1 & L1) (U2 & A2 & L2). split_and!; [by etrans|by eapply advances_trans|].
  intros Hb. specialize (L1 eq_refl). specialize (L2 Hb). lia.
Qed.

Lemma pb_read_buf_ok stream count s :
  stream_ok stream → 0 <= count →
  wp (pb_read_buf stream count) (λ '(ok, stream', bs) s',
    reads stream s ok count stream' s' ∧ Forall is_byte bs ∧ zlen bs <= count ∧
    (ok = true → zlen bs = count)) s.
Proof.
  intros Hok Hc. unfold pb_read_buf. destruct (Z.ltb_spec (bytes_left stream) count).
  { apply wp_ret. split_and!; [|done|simpl; lia|done].
    by eapply (reads_fail _ _ _ _ _ _ _ true), reads_refl. }
  destruct Hok as [Hl Hb]. apply wp_bind. unfold call_read.
  destruct (i_callback stream) as [|f] eqn:Ecb.
  - destruct (Hb eq_refl) as (rest & E & Hr & Hlen). unfold buf_read. rewrite E.
    rewrite (proj2 (Z.leb_le _ _)) by lia. apply wp_ret. cbn [negb]. apply wp_ret.
    rewrite length_take. split_and!; [|by apply Forall_take|lia|lia].
    unfold set_bytes_left, set_istate. cbn [bytes_left].
    rewrite u64_small by lia. split_and!; [done| |simpl; lia]. split; cbn; [done|lia|]. intros _.
    eexists. split; [done|]. rewrite length_drop. unfold slack. rewrite E.
    split; [by apply Forall_drop|lia].
  - eapply wp_mono; [apply user_read_ok; [done|lia]|].
    intros [[ok stream'] bs] s' (U & Hcb & Hle & Hbs & Hbl & Hok). destruct ok; cbn [negb].
    + destruct (Hok eq_refl) as [Hl1 Hl2]. apply wp_ret. cbn [bytes_left].
      split_and!; [|done|done|done]. unfold set_bytes_left. rewrite u64_small by lia.
      split_and!; [done| |simpl; lia]. split; cbn; [congruence|lia|congruence].
    + apply wp_ret. split_and!; [|done|done|done]. split_and!; [done| |done].
      split; cbn; [congruence|lia|congruence].
Qed.

Lemma pb_readbyte_ok stream s :
  stream_ok stream →
  wp (pb_readbyte stream) (λ '(stream', r) s',
    reads stream s (bool_decide (is_Some r)) 1 stream' s' ∧
    match r with Some b => is_byte b | None => True end) s.
Proof.
  intros Hok. pose proof (pb_read_buf_ok stream 1 s Hok ltac:(lia)) as P.
  unfold pb_read_buf in P. unfold pb_readbyte.
  destruct (Z.eqb_spec (bytes_left stream) 0) as [E|E].
  - apply wp_ret. split; [|done]. by eapply (reads_fail _ _ _ _ _ _ _ true), reads_refl.
  - destruct Hok as [Hl _]. rewrite (proj2 (Z.ltb_ge _ _)) in P by lia.
    unfold wp, mbind, M_bind in P |- *.
    destruct (call_read stream 1 s) as [[[[ok stream'] bs] s']| |]; [|done..].
    destruct ok; cbn [negb] in *.
    + destruct P as (R & Hb & _ & Hl1). specialize (Hl1 eq_refl).
      destruct bs as [|b [|? ?]]; simpl in Hl1; [lia| |lia]. simpl.
      apply Forall_cons_1 in Hb as [Hb _]. by split.
    + destruct P as (R & _). by split.
Qed.

Lemma pb_read_skip_ok fuel : ∀ stream count s,
  stream_ok stream → 0 <= count → (Z.to_nat (count / 16) < fuel)%nat →
  wp (pb_read_skip fuel stream count) (λ '(ok, stream') s', reads stream s ok count stream' s') s.
Proof.
  induction fuel as [|fuel IH]; intros stream count s Hok Hc Hf; [lia|]. cbn [pb_read_skip].
  destruct (Z.ltb_spec 16 count); apply wp_bind;
    (eapply wp_mono; [apply pb_read_buf_ok; [done|lia]|]);
    intros [[ok stream'] bs] s' (R & _).
  - destruct ok; cbn [negb].
    + eapply wp_mono; [apply IH|].
      * destruct R as (_ & A & _). by eapply advances_ok.
      * lia.
      * assert (count / 16 = (count - 16) / 16 + 1) by (Z.div_mod_to_equations; lia).
        assert (0 <= (count - 16) / 16) by (apply Z.div_pos; lia). lia.
      * intros [ok stream''] s'' R'. replace count with (16 + (count - 16)) by lia.
        by eapply reads_trans.
    + apply wp_ret. destruct R as (? & ? & _). by split_and!.
  - by apply wp_ret.
Qed.

Lemma pb_read_null_ok stream count s :
  stream_ok stream → 0 <= count →
  wp (pb_read_null stream count) (λ '(ok, stream') s', reads stream s ok count stream' s') s.
Proof.
  intros Hok Hc. unfold pb_read_null. destruct (decide _).
  - apply wp_bind. eapply wp_mono; [by apply pb_read_buf_ok|].
    intros [[ok stream'] bs] s' (R & _). by apply wp_ret.
  - apply pb_read_skip_ok; [done|done|lia].
Qed.

(** The result of reading an integer: at least one byte is gone if there is one. *)
Definition yields (stream : pb_istream_t) (s : st W) (P : Z → Prop)
    : pb_istream_t * option Z → st W → Prop := λ '(stream', r) s',
  reads stream s (bool_decide (is_Some r)) 1 stream' s' ∧ from_option P True r.

Lemma yields_none stream s P k stream' s' ok :
  reads stream s ok k stream' s' → yields stream s P (stream', None) s'.
Proof. intros (? & ? & _). by split_and!. Qed.

Lemma yields_error stream s P k stream' s' ok msg :
  reads stream s ok k stream' s' → yields stream s P (ierror msg stream', None) s'.
Proof. intros (? & ? & _). split; [|done]. split_and!; [done|by apply advances_error|done]. Qed.

Lemma yields_some stream s (P : Z → Prop) stream' s' v :
  reads stream s true 1 stream' s' → P v → yields stream s P (stream', Some v) s'.
Proof. by split. Qed.

Lemma reads_weaken t0 t1 s0 s1 b k j : j <= k → reads t0 s0 b k t1 s1 → reads t0 s0 b j t1 s1.
Proof. intros Hk (? & ? & L). split_and!; [done..|]. intros Hb. specialize (L Hb). lia. Qed.

(** Reading an integer after some bytes have been read. *)
Lemma yields_after t0 t1 s0 s1 P r s2 :
  reads t0 s0 true 1 t1 s1 → yields t1 s1 P r s2 → yields t0 s0 P r s2.
Proof.
  destruct r as [t2 r]. intros R [R' HP]. split; [|done].
  apply (reads_weaken _ _ _ _ _ (1 + 1)); [lia|]. by eapply reads_trans.
Qed.

Lemma reads_stream_ok t0 t1 s0 s1 b k : stream_ok t0 → reads t0 s0 b k t1 s1 → stream_ok t1.
Proof. intros Ht (_ & A & _). by eapply advances_ok. Qed.

(** The bytes left bound the number of reads of one byte. *)
Lemma reads_fuel t0 t1 s0 s1 fuel :
  reads t0 s0 true 1 t1 s1 → (Z.to_nat (bytes_left t0) < S fuel)%nat →
  (Z.to_nat (bytes_left t1) < fuel)%nat.
Proof. intros (_ & [_ L _] & P) Hf. specialize (P eq_refl). lia. Qed.

Lemma varint32_loop_ok fuel : ∀ stream result bitpos s,
  stream_ok stream → 0 <= result < 2 ^ 32 → 0 <= bitpos →
  (Z.to_nat (bytes_left stream) < fuel)%nat →
  wp (varint32_loop fuel stream result bitpos) (yields stream s (λ v, 0 <= v < 2 ^ 32)) s.
Proof.
  induction fuel as [|fuel IH]; intros stream result bitpos s Hok Hr Hp Hf; [lia|].
  cbn [varint32_loop]. eapply wp_seq; [by apply pb_readbyte_ok|].
  intros [t [b|]] s1 [R Hb]; [|by eapply wp_ret, yields_none].
  destruct (_ && _ && _); [by eapply wp_ret, yields_error|].
  assert (0 <= (if 32 <=? bitpos then result
                else Z.lor result (u32 (Z.shiftl (Z.land b 127) bitpos))) < 2 ^ 32) as Hr'.
  { destruct (32 <=? bitpos); [done|]. apply lor_bound; [lia|done|apply u32_range]. }
  destruct (negb (Z.land b 128 =? 0)).
  - eapply wp_mono; [apply IH; [by eapply reads_stream_ok|done| |by eapply reads_fuel]|].
    + by apply u8_range.
    + intros r s2. by eapply yields_after.
  - destruct (_ && _); [by eapply wp_ret, yields_error|]. by apply wp_ret, yields_some.
Qed.

Lemma byte_land_127 b : 0 <= Z.land b 127 < 128.
Proof. rewrite land_127. by apply Z.mod_pos_bound. Qed.

Lemma pb_decode_varint32_eof_ok stream s :
  stream_ok stream →
  wp (pb_decode_varint32_eof stream)
     (λ '(t, r, _) s', yields stream s (λ v, 0 <= v < 2 ^ 32) (t, r) s') s.
Proof.
  intros Hok. unfold pb_decode_varint32_eof. eapply wp_seq; [by apply pb_readbyte_ok|].
  intros [t [b|]] s1 [R Hb]; [|by eapply wp_ret, yields_none].
  unfold is_byte in Hb. destruct (_ =? 0); [apply wp_ret, yields_some; [done|lia]|].
  pose proof (byte_land_127 b). eapply wp_seq.
  - apply varint32_loop_ok; [by eapply reads_stream_ok|lia|lia|lia].
  - intros [t' r] s2 Y. apply wp_ret. by eapply yields_after.
Qed.

Lemma pb_decode_varint32_ok stream s :
  stream_ok stream →
  wp (pb_decode_varint32 stream) (yields stream s (λ v, 0 <= v < 2 ^ 32)) s.
Proof.
  intros Hok. eapply wp_seq; [by apply pb_decode_varint32_eof_ok|].
  intros [[t r] e] s1 Y. by apply wp_ret.
Qed.

(** [bitpos] is a multiple of seven below 64 in every turn but the last. *)
Lemma varint_loop_ok fuel : ∀ stream result bitpos s,
  stream_ok stream → 0 <= result < 2 ^ 64 → 0 <= bitpos → (1 <= fuel)%nat →
  64 <= bitpos + 7 * Z.of_nat fuel - 7 →
  wp (varint_loop fuel stream result bitpos) (yields stream s (λ v, 0 <= v < 2 ^ 64)) s.
Proof.
  induction fuel as [|fuel IH]; intros stream result bitpos s Hok Hr Hp Hf1 Hf; [lia|].
  cbn [varint_loop]. destruct (Z.leb_spec 64 bitpos).
  - eapply wp_ret, yields_error. by apply (reads_refl _ _ true).
  - eapply wp_seq; [by apply pb_readbyte_ok|].
    intros [t [b|]] s1 [R Hb]; [|by eapply wp_ret, yields_none].
    assert (0 <= Z.lor result (u64 (Z.shiftl (Z.land b 127) bitpos)) < 2 ^ 64)
      by (apply lor_bound; [lia|done|apply u64_range]).
    destruct (negb _); [|by apply wp_ret, yields_some].
    rewrite u8_small by lia.
    eapply wp_mono; [apply IH; [by eapply reads_stream_ok|done|lia|lia|lia]|].
    + intros r s2. by eapply yields_after.
Qed.

Lemma pb_decode_varint_ok stream s :
  stream_ok stream → wp (pb_decode_varint stream) (yields stream s (λ v, 0 <= v < 2 ^ 64)) s.
Proof. intros Hok. apply varint_loop_ok; (done || lia). Qed.

Lemma pb_decode_svarint_ok stream s :
  stream_ok stream → wp (pb_decode_svarint stream) (yields stream s (λ _, True)) s.
Proof.
  intros Hok. eapply wp_seq; [by apply pb_decode_varint_ok|].
  intros [t [v|]] s1 [R _]; [|by apply wp_ret]. by destruct (negb _); apply wp_ret.
Qed.

(** * Skipping and tags *)

Lemma skip_varint_loop_ok fuel : ∀ stream s,
  stream_ok stream → (Z.to_nat (bytes_left stream) < fuel)%nat →
  wp (skip_varint_loop fuel stream) (λ '(ok, t) s', reads stream s ok 1 t s') s.
Proof.
  induction fuel as [|fuel IH]; intros stream s Hok Hf; [lia|]. cbn [skip_varint_loop].
  eapply wp_seq; [by apply (pb_read_buf_ok stream 1)|].
  intros [[ok t] bs] s1 (R & _ & _ & Hl). destruct ok; cbn [negb].
  - specialize (Hl eq_refl). destruct bs as [|b [|? ?]]; simpl in Hl; [lia| |lia].
    destruct (negb _); [|by apply wp_ret].
    eapply wp_mono; [apply IH; [by eapply reads_stream_ok|by eapply reads_fuel]|].
    intros [ok t'] s2 R'. apply (reads_weaken _ _ _ _ _ (1 + 1)); [lia|]. by eapply reads_trans.
  - apply wp_ret. destruct R as (? & ? & _). by split_and!.
Qed.

Lemma pb_skip_string_ok stream s :
  stream_ok stream → wp (pb_skip_string stream) (λ '(ok, t) s', reads stream s ok 1 t s') s.
Proof.
  intros Hok. eapply wp_seq; [by apply pb_decode_varint32_ok|].
  intros [t [v|]] s1 [R Hv]; simpl in Hv; [|by apply wp_ret].
  eapply wp_mono; [apply pb_read_null_ok; [by eapply reads_stream_ok|lia]|].
  intros [ok t'] s2 R'. apply (reads_weaken _ _ _ _ _ (1 + v)); [lia|]. by eapply reads_trans.
Qed.

Lemma pb_skip_field_ok stream wire_type s :
  stream_ok stream →
  wp (pb_skip_field stream wire_type) (λ '(ok, t) s', reads stream s ok 1 t s') s.
Proof.
  intros Hok. unfold pb_skip_field.
  destruct (_ =? _). { apply skip_varint_loop_ok; [done|lia]. }
  destruct (_ =? _).
  { eapply wp_mono; [by apply (pb_read_null_ok stream 8)|]. intros [ok t] s1.
    by apply reads_weaken. }
  destruct (_ =? _). { by apply pb_skip_string_ok. }
  destruct (_ =? _).
  { eapply wp_mono; [by apply (pb_read_null_ok stream 4)|]. intros [ok t] s1.
    by apply reads_weaken. }
  by eapply wp_ret, reads_fail, (reads_refl _ _ true).
Qed.

(** A tag that was read is at most 29 bits wide, as is no terminator of a search. *)
Lemma pb_decode_tag_ok stream s :
  stream_ok stream →
  wp (pb_decode_tag stream) (λ '(ok, t, wt, tag, _) s',
    reads stream s ok 1 t s' ∧ (ok = true → 0 <= wt < 8 ∧ 0 <= tag < 2 ^ 29)) s.
Proof.
  intros Hok. eapply wp_seq; [by apply pb_decode_varint32_eof_ok|].
  intros [[t [v|]] e] s1 [R Hv]; simpl in Hv; [|by apply wp_ret].
  destruct (v =? 0); apply wp_ret; [split; [by eapply reads_false|done]|].
  split; [done|]. intros _. split.
  - change 7 with (Z.ones 3). rewrite Z.land_ones by lia. by apply Z.mod_pos_bound.
  - rewrite Z.shiftr_div_pow2 by lia. split; [apply Z.div_pos; lia|].
    apply Z.div_lt_upper_bound; lia.
Qed.

(** * Substreams *)

(** [sub] is a part of [stream], and [parent] what remains after it. *)
Record splits (stream parent sub : pb_istream_t) : Prop := {
  split_parent : advances stream parent;
  split_sub : stream_ok sub;
  split_callback : i_callback sub = i_callback stream;
  split_left : bytes_left sub + bytes_left parent < bytes_left stream;
  split_slack : i_callback stream = CbBuf → slack stream <= slack sub - bytes_left parent
}.

Lemma pb_make_string_substream_ok stream s :
  stream_ok stream →
  wp (pb_make_string_substream stream) (λ '(parent, sub) s',
    unchanged s s' ∧
    match sub with
    | None => advances stream parent
    | Some sub => splits stream parent sub
    end) s.
Proof.
  intros Hok. eapply wp_seq; [by apply pb_decode_varint32_ok|].
  intros [t [v|]] s1 [R Hv]; simpl in Hv; [|by apply wp_ret; destruct R as (? & ? & _)].
  pose proof (reads_stream_ok _ _ _ _ _ _ Hok R) as Ht.
  destruct R as (U & A & L). specialize (L eq_refl). pose proof (adv_left _ _ A).
  cbn beta iota zeta. destruct (Z.ltb_spec (bytes_left t) v); apply wp_ret; (split; [done|]).
  { by apply advances_error. }
  pose proof (stream_left _ Ht). unfold set_bytes_left. rewrite u64_small by lia.
  assert (i_callback stream = CbBuf → ∃ rest, i_state t = IBuf rest ∧ Forall is_byte rest ∧
            slack stream <= zlen rest - bytes_left t ∧ bytes_left t <= zlen rest) as Hb.
  { intros Hc. destruct (adv_buf _ _ A Hc) as (rest & E & Hr & K). exists rest.
    split_and!; [done..|]. destruct (stream_buf _ Ht) as (rest' & E' & _ & ?).
    - by rewrite (adv_callback _ _ A).
    - congruence. }
  split; cbn.
  - split; cbn; [apply A|lia|]. intros Hc. destruct (Hb Hc) as (rest & E & ? & ? & ?).
    exists rest. split_and!; [done..|lia].
  - split; cbn; [lia|]. rewrite (adv_callback _ _ A). intros Hc.
    destruct (Hb Hc) as (rest & E & ? & ? & ?). exists rest. split_and!; [done..|lia].
  - apply A.
  - lia.
  - intros Hc. destruct (Hb Hc) as (rest & E & ? & ? & ?).
    unfold slack in *. cbn. rewrite E. lia.
Qed.

Lemma pb_close_string_substream_ok stream parent sub sub' s :
  splits stream parent sub → advances sub sub' →
  wp (pb_close_string_substream parent sub') (λ '(ok, t) s', reads stream s ok 1 t s') s.
Proof.
  intros [Hp Hs Hc Hl Hk] A. pose proof (advances_ok _ _ Hs A) as Hok.
  unfold pb_close_string_substream. eapply wp_seq with (P := λ '(ok, t) s',
    unchanged s s' ∧ advances sub t ∧ (ok = true → bytes_left t = 0)).
  { destruct (Z.eqb_spec (bytes_left sub') 0) as [E|E]; cbn [negb].
    { by apply wp_ret. }
    pose proof (stream_left _ Hok). eapply wp_mono; [apply pb_read_null_ok; [done|lia]|].
    intros [ok t] s1 (U & A' & L). split_and!; [done|by eapply advances_trans|].
    intros ->. specialize (L eq_refl). pose proof (adv_left _ _ A'). lia. }
  intros [[|] t] s1 (U & A' & L); cbn [negb]; apply wp_ret; [|by split_and!].
  specialize (L eq_refl). split_and!; [done| |].
  - destruct Hp as [Hp1 Hp2 Hp3]. destruct A' as [A1 A2 A3].
    split; unfold set_ierrmsg, set_istate; cbn; [done|done|]. intros Hcb.
    destruct A3 as (rest & E & ? & ?); [congruence|]. exists rest.
    split_and!; [done..|]. specialize (Hk Hcb). lia.
  - intros _. unfold set_ierrmsg, set_istate; cbn. pose proof (stream_left _ Hs). lia.
Qed.
End reading.

(** * What the decoder may touch *)
(** * Frames *)

Section frames.
Context {W : Type}.
Implicit Types s : st W.

(** The constants that default values point at: [ro p n] if there are [n] bytes
    at [p]. *)
Context (ro : Z → Z → bool).

Record sane (s : st W) : Prop := {
  sane_bytes : mem_bytes (mem s);
  sane_fixed : 0 <= fixed_count_size s < 2 ^ 32;
  sane_ro p n : ro p n = true → mem_valid (mem s) p n
}.

(** Nothing but the [n] bytes at [a] has changed. *)
Record frame (a n : Z) (s s' : st W) : Prop := {
  frame_sane : sane s';
  frame_mem : mem_same_outside (mem s) (mem s') a n;
  frame_heap : heap s' = heap s
}.

Lemma frame_refl a n s : sane s → frame a n s s.
Proof. intros Hs. split; [done|apply mem_same_outside_refl|done]. Qed.

Lemma frame_trans a n s1 s2 s3 : frame a n s1 s2 → frame a n s2 s3 → frame a n s1 s3.
Proof.
  intros [S1 M1 H1] [S2 M2 H2]. split; [done|by eapply mem_same_outside_trans|congruence].
Qed.

Lemma frame_weaken a n b k s s' : frame a n s s' → b <= a → a + n <= b + k → frame b k s s'.
Proof. intros [S M H] ??. split; [done|by eapply mem_same_outside_weaken|done]. Qed.

Lemma frame_valid a n b k s s' : frame a n s s' → mem_valid (mem s) b k → mem_valid (mem s') b k.
Proof. intros [_ M _]. by eapply mem_same_outside_valid. Qed.

Lemma unchanged_sane s s' : sane s → unchanged s s' → sane s'.
Proof. intros [B F R] (E1 & _ & E3). split; [by rewrite E1|by rewrite E3|by rewrite E1]. Qed.

Lemma frame_unchanged a n s s' : sane s → unchanged s s' → frame a n s s'.
Proof.
  intros Hs U. split; [by eapply unchanged_sane| |apply U].
  destruct U as (-> & _). apply mem_same_outside_refl.
Qed.

(** * Accesses *)

Lemma load_ok a n s :
  sane s → mem_valid (mem s) a (Z.of_nat n) →
  wp (load a n) (λ bs s', s' = s ∧ Forall is_byte bs ∧ length bs = n) s.
Proof.
  intros Hs Hv. destruct (proj2 (mem_load_valid _ _ _) Hv) as [bs E].
  eapply wp_intro; [unfold load; by rewrite E|].
  split_and!; [done|eapply mem_load_bytes; [apply Hs|done]|by eapply mem_load_length].
Qed.

Lemma load_uint_ok n a s :
  sane s → mem_valid (mem s) a (Z.of_nat n) →
  wp (load_uint n a) (λ v s', s' = s ∧ 0 <= v < 2 ^ (8 * Z.of_nat n)) s.
Proof.
  intros Hs Hv. eapply wp_seq; [by apply load_ok|]. intros bs s' (-> & Hb & <-).
  apply wp_ret. split; [done|by apply le_of_bytes_bound].
Qed.

Lemma store_ok a bs s :
  sane s → mem_valid (mem s) a (Z.of_nat (length bs)) → Forall is_byte bs →
  wp (store a bs) (λ _ s', frame a (Z.of_nat (length bs)) s s') s.
Proof.
  intros Hs Hv Hb. destruct (proj2 (mem_store_valid _ _ _) Hv) as [m' E].
  eapply wp_intro; [unfold store; by rewrite E|].
  pose proof (mem_store_same_outside _ _ _ _ E) as Ho.
  split; [|done|done]. destruct Hs as [B ? R]. split; [|done|].
  - intros i b. cbn. rewrite (mem_store_lookup _ _ _ _ i E). case_decide; [|apply B].
    by apply Forall_lookup_1.
  - intros p n Hro. eapply mem_same_outside_valid; [done|by apply R].
Qed.

Lemma store_in a n b bs s :
  sane s → mem_valid (mem s) a n → a <= b → b + Z.of_nat (length bs) <= a + n →
  Forall is_byte bs → wp (store b bs) (λ _ s', frame a n s s') s.
Proof.
  intros Hs Hv H1 H2 Hb. eapply wp_mono.
  - apply store_ok; [done|by eapply mem_valid_sub|done].
  - intros u s' F. exact (frame_weaken _ _ _ _ _ _ F H1 H2).
Qed.

Lemma store_uint_in a n b k v s :
  sane s → mem_valid (mem s) a n → a <= b → b + Z.of_nat k <= a + n →
  wp (store_uint k b v) (λ _ s', frame a n s s') s.
Proof.
  intros. apply store_in; [done..|by rewrite length_le_bytes|apply le_bytes_are_bytes].
Qed.

Lemma memset_in a n b k s :
  sane s → mem_valid (mem s) a n → a <= b → 0 <= k → b + k <= a + n →
  wp (memset b 0 k) (λ _ s', frame a n s s') s.
Proof.
  intros. apply store_in; [done..| |].
  - rewrite length_replicate. lia.
  - by apply Forall_replicate.
Qed.

Lemma memcpy_in a n b src k s :
  sane s → mem_valid (mem s) a n → a <= b → 0 <= k → b + k <= a + n →
  mem_valid (mem s) src k → wp (memcpy b src k) (λ _ s', frame a n s s') s.
Proof.
  intros Hs Hv ??? Hsrc. eapply wp_seq; [apply load_ok; [done|by rewrite Z2Nat.id]|].
  intros bs s' (-> & Hb & Hl). apply store_in; [done..|lia|done].
Qed.
End frames.

#[export] Hint Resolve frame_refl frame_sane frame_valid : safe.

(** * Reading into a message *)

(** The result of a decoding function on the [n] bytes at [a]. *)
Definition ran {W} (ro : Z → Z → bool) (a n : Z) (stream : pb_istream_t) (s : st W)
    (ok : bool) (k : Z) (t : pb_istream_t) (s' : st W) : Prop :=
  frame ro a n s s' ∧ advances stream t ∧
  (ok = true → bytes_left t <= bytes_left stream - k).

Section ran.
Context {W : Type} (ro : Z → Z → bool).
Implicit Types s : st W.

Lemma ran_reads a n stream s ok k t s' :
  sane ro s → reads stream s ok k t s' → ran ro a n stream s ok k t s'.
Proof. intros Hs (U & A & L). split_and!; [by apply frame_unchanged|done|done]. Qed.

Lemma ran_frame a n stream s ok k t s1 s2 :
  ran ro a n stream s ok k t s1 → frame ro a n s1 s2 → ran ro a n stream s ok k t s2.
Proof. intros (F & A & L) F'. split_and!; [by eapply frame_trans|done|done]. Qed.

Lemma ran_error a n stream s ok k j t s' msg :
  ran ro a n stream s ok k t s' → ran ro a n stream s false j (ierror msg t) s'.
Proof. intros (F & A & L). split_and!; [done|by apply advances_error|done]. Qed.

Lemma ran_false a n stream s ok k j t s' :
  ran ro a n stream s ok k t s' → ran ro a n stream s false j t s'.
Proof. intros (F & A & L). by split_and!. Qed.

Lemma ran_weaken a n b m stream s ok k j t s' :
  ran ro a n stream s ok k t s' → b <= a → a + n <= b + m → j <= k →
  ran ro b m stream s ok j t s'.
Proof.
  intros (F & A & L) ???. split_and!; [by eapply frame_weaken|done|].
  intros Hb. specialize (L Hb). lia.
Qed.

Lemma ran_trans a n t0 t1 t2 s0 s1 s2 ok k j :
  ran ro a n t0 s0 true k t1 s1 → ran ro a n t1 s1 ok j t2 s2 → ran ro a n t0 s0 ok (k + j) t2 s2.
Proof.
  intros (F1 & A1 & L1) (F2 & A2 & L2). split_and!; [by eapply frame_trans|by eapply advances_trans|].
  intros Hb. specialize (L1 eq_refl). specialize (L2 Hb). lia.
Qed.

(** A step that only changes memory, before a decoding function. *)
Lemma ran_after a n stream s1 s2 s3 ok k t :
  frame ro a n s1 s2 → ran ro a n stream s2 ok k t s3 → ran ro a n stream s1 ok k t s3.
Proof. intros F (F' & A & L). split_and!; [by eapply frame_trans|done|done]. Qed.

Lemma ran_stream_ok a n t0 s ok k t s' :
  stream_ok t0 → ran ro a n t0 s ok k t s' → stream_ok t.
Proof. intros Ht (_ & A & _). by eapply advances_ok. Qed.
Lemma ran_sane a n t0 s ok k t s' : ran ro a n t0 s ok k t s' → sane ro s'.
Proof. intros (F & _). by eapply frame_sane. Qed.
End ran.

#[export] Hint Resolve ran_reads ran_stream_ok ran_sane : safe.

(** * The decoders of single values *)

Section dec.
Context {W : Type} {UC : UserCode W} {RD : Readers W} {AL : Allocator} (ro : Z → Z → bool).
Implicit Types s : st W.

(** On a field of this descriptor, [d] stays inside of the [data_size] bytes it
    is given, and consumes input if it succeeds. *)
Definition decoder_safe (d : decoder) (f : pb_field_t) : Prop := ∀ stream dest s,
  stream_ok stream → sane ro s → mem_valid (mem s) dest (pf_data_size f) →
  wp (d stream f dest) (λ '(ok, t) s', ran ro dest (pf_data_size f) stream s ok 1 t s') s.

Lemma store_clamped_ok a n stream s k t s1 size dest clamped value :
  ran ro a n stream s true k t s1 → mem_valid (mem s1) a n →
  a <= dest → dest + Z.of_nat size <= a + n →
  wp (store_clamped t size dest clamped value) (λ '(ok, t) s', ran ro a n stream s ok k t s') s1.
Proof.
  intros R Hv H1 H2. pose proof (ran_sane _ _ _ _ _ _ _ _ _ R) as Hs.
  eapply wp_seq; [by apply (store_uint_in ro a n)|]. intros u s2 F.
  destruct (negb _); apply wp_ret; [eapply ran_error|]; by eapply ran_frame.
Qed.

(** The four widths of an integer member. *)
Lemma store_width_ok a ds stream s k t s1 (c8 c4 c2 c1 v8 v4 v2 v1 : Z) :
  ran ro a ds stream s true k t s1 → mem_valid (mem s1) a ds →
  wp (if ds =? 8 then store_clamped t 8 a c8 v8
      else if ds =? 4 then store_clamped t 4 a c4 v4
      else if ds =? 2 then store_clamped t 2 a c2 v2
      else if ds =? 1 then store_clamped t 1 a c1 v1
      else fail t "invalid data_size")
    (λ '(ok, t) s', ran ro a ds stream s ok k t s') s1.
Proof.
  intros R Hv. repeat match goal with
  | |- wp (if ds =? ?c then _ else _) _ _ =>
      destruct (Z.eqb_spec ds c); [eapply store_clamped_ok; [done|done|lia|lia]|]
  end.
  by eapply wp_ret, ran_error.
Qed.

Lemma pb_dec_varint_safe f : decoder_safe pb_dec_varint f.
Proof.
  intros stream dest s Hok Hs Hv. eapply wp_seq; [by apply pb_decode_varint_ok|].
  intros [t [v|]] s1 [R _]; [|by apply wp_ret, ran_reads].
  apply (store_width_ok _ _ stream s 1); [by apply ran_reads|by destruct R as ((-> & _) & _)].
Qed.

Lemma pb_dec_uvarint_safe f : decoder_safe pb_dec_uvarint f.
Proof.
  intros stream dest s Hok Hs Hv. eapply wp_seq; [by apply pb_decode_varint_ok|].
  intros [t [v|]] s1 [R _]; [|by apply wp_ret, ran_reads].
  apply (store_width_ok _ _ stream s 1); [by apply ran_reads|by destruct R as ((-> & _) & _)].
Qed.

Lemma pb_dec_svarint_safe f : decoder_safe pb_dec_svarint f.
Proof.
  intros stream dest s Hok Hs Hv. eapply wp_seq; [by apply pb_decode_svarint_ok|].
  intros [t [v|]] s1 [R _]; [|by apply wp_ret, ran_reads].
  apply (store_width_ok _ _ stream s 1); [by apply ran_reads|by destruct R as ((-> & _) & _)].
Qed.

(** Reading into the region. *)
Lemma read_into_ok a n dest count t0 s0 k t s :
  ran ro a n t0 s0 true k t s → stream_ok t → mem_valid (mem s) a n → 0 <= count →
  a <= dest → dest + count <= a + n →
  wp (read_into t dest count) (λ '(ok, t') s', ran ro a n t0 s0 ok k t' s') s.
Proof.
  intros R Hok Hv Hc H1 H2. pose proof (ran_sane _ _ _ _ _ _ _ _ _ R) as Hs.
  eapply wp_seq; [by apply pb_read_buf_ok|]. intros [[ok t'] bs] s1 (R' & Hb & Hl & _).
  pose proof (ran_reads ro a n _ _ _ _ _ _ Hs R') as R1.
  eapply wp_seq.
  - apply (store_in ro a n); [by eapply ran_sane| |done|lia|done].
    destruct R1 as (F & _). by eapply frame_valid.
  - intros u s2 F. apply wp_ret. eapply ran_frame; [|exact F].
    apply (ran_weaken _ a n _ _ _ _ _ (k + count)); [|lia..]. by eapply ran_trans.
Qed.

Lemma pb_dec_fixed32_safe f : 4 <= pf_data_size f → decoder_safe pb_dec_fixed32 f.
Proof.
  intros Hd stream dest s Hok Hs Hv. unfold pb_dec_fixed32, pb_decode_fixed32.
  eapply wp_seq; [by apply (pb_read_buf_ok stream 4)|].
  intros [[ok t] bs] s1 (R & _ & _ & Hl). destruct ok; cbn [negb].
  - specialize (Hl eq_refl). destruct bs as [|b0 [|b1 [|b2 [|b3 [|]]]]]; cbn [length] in Hl; try lia.
    eapply wp_seq.
    { apply (store_uint_in ro dest (pf_data_size f)); [by destruct R; eapply unchanged_sane| |lia|lia].
      by destruct R as ((-> & _) & _). }
    intros u s2 F. apply wp_ret. eapply ran_frame; [|exact F].
    apply (ran_weaken ro dest (pf_data_size f) _ _ _ _ _ 4); [by apply ran_reads|lia..].
  - apply wp_ret. by eapply ran_false, ran_reads.
Qed.

Lemma pb_dec_fixed64_safe f : 8 <= pf_data_size f → decoder_safe pb_dec_fixed64 f.
Proof.
  intros Hd stream dest s Hok Hs Hv. unfold pb_dec_fixed64, pb_decode_fixed64.
  eapply wp_seq; [by apply (pb_read_buf_ok stream 8)|].
  intros [[ok t] bs] s1 (R & _ & _ & Hl). destruct ok; cbn [negb].
  - specialize (Hl eq_refl).
    destruct bs as [|b0 [|b1 [|b2 [|b3 [|b4 [|b5 [|b6 [|b7 [|]]]]]]]]]; cbn [length] in Hl; try lia.
    eapply wp_seq.
    { apply (store_uint_in ro dest (pf_data_size f)); [by destruct R; eapply unchanged_sane| |lia|lia].
      by destruct R as ((-> & _) & _). }
    intros u s2 F. apply wp_ret. eapply ran_frame; [|exact F].
    apply (ran_weaken ro dest (pf_data_size f) _ _ _ _ _ 8); [by apply ran_reads|lia..].
  - apply wp_ret. by eapply ran_false, ran_reads.
Qed.

(** A region stays valid while reading. *)
Lemma ran_valid a n b k t0 s0 ok j t s :
  ran ro a n t0 s0 ok j t s → mem_valid (mem s0) b k → mem_valid (mem s) b k.
Proof. intros (F & _). by eapply frame_valid. Qed.

Lemma static_not_pointer f :
  PB_ATYPE (pf_type f) = PB_ATYPE_STATIC → (PB_ATYPE (pf_type f) =? PB_ATYPE_POINTER) = false.
Proof. by intros ->. Qed.

Lemma pb_dec_bytes_safe f :
  PB_ATYPE (pf_type f) = PB_ATYPE_STATIC → decoder_safe pb_dec_bytes f.
Proof.
  intros Hst stream dest s Hok Hs Hv. eapply wp_seq; [by apply pb_decode_varint32_ok|].
  intros [t [v|]] s1 [R Hr]; simpl in Hr; [|by apply wp_ret, ran_reads].
  apply (ran_reads ro dest (pf_data_size f)) in R; [|done]. cbn beta iota.
  destruct (PB_SIZE_MAX <? v); [by eapply wp_ret, ran_error|]. cbv zeta.
  unfold PB_BYTES_ARRAY_T_ALLOCSIZE, offsetof_bytes. rewrite u64_small by lia.
  destruct (v + 4 <? v); [by eapply wp_ret, ran_error|].
  rewrite static_not_pointer by done. destruct (Z.ltb_spec (pf_data_size f) (v + 4)).
  { apply wp_bind, wp_ret. cbn. by eapply wp_ret, ran_error. }
  apply wp_bind, wp_ret. cbn [negb]. eapply wp_seq.
  { apply (store_uint_in ro dest (pf_data_size f)); [by eapply ran_sane| |lia|lia].
    by eapply ran_valid. }
  intros u s2 F. pose proof (ran_frame _ _ _ _ _ _ _ _ _ _ R F) as R2.
  eapply read_into_ok; [exact R2|by eapply ran_stream_ok|by eapply ran_valid|lia|lia|lia].
Qed.

Lemma pb_dec_string_safe f :
  PB_ATYPE (pf_type f) = PB_ATYPE_STATIC → decoder_safe pb_dec_string f.
Proof.
  intros Hst stream dest s Hok Hs Hv. eapply wp_seq; [by apply pb_decode_varint32_ok|].
  intros [t [v|]] s1 [R Hr]; simpl in Hr; [|by apply wp_ret, ran_reads].
  apply (ran_reads ro dest (pf_data_size f)) in R; [|done]. cbn beta iota zeta.
  destruct (Z.ltb_spec (u32 (v + 1)) v) as [|Hno]; [by eapply wp_ret, ran_error|].
  assert (u32 (v + 1) = v + 1) as E.
  { destruct (decide (v = 2 ^ 32 - 1)) as [->|]; [done|]. apply u32_small. lia. }
  rewrite E, static_not_pointer by done. destruct (Z.ltb_spec (pf_data_size f) (v + 1)).
  { apply wp_bind, wp_ret. cbn. by eapply wp_ret, ran_error. }
  apply wp_bind, wp_ret. cbn [negb]. eapply wp_seq.
  { eapply read_into_ok; [exact R|by eapply ran_stream_ok|by eapply ran_valid|lia|lia|lia]. }
  intros [ok t'] s2 R2. eapply wp_seq.
  { apply (store_uint_in ro dest (pf_data_size f)); [by eapply ran_sane| |lia|lia].
    by eapply ran_valid. }
  intros u s3 F. by eapply wp_ret, ran_frame.
Qed.

Lemma pb_dec_fixed_length_bytes_safe f :
  0 <= pf_data_size f → decoder_safe pb_dec_fixed_length_bytes f.
Proof.
  intros Hds stream dest s Hok Hs Hv. eapply wp_seq; [by apply pb_decode_varint32_ok|].
  intros [t [v|]] s1 [R Hr]; simpl in Hr; [|by apply wp_ret, ran_reads].
  apply (ran_reads ro dest (pf_data_size f)) in R; [|done]. cbn beta iota zeta.
  destruct (PB_SIZE_MAX <? v); [by eapply wp_ret, ran_error|]. destruct (v =? 0).
  { eapply wp_seq.
    { apply (memset_in ro dest (pf_data_size f)); [by eapply ran_sane| |lia..].
      by eapply ran_valid. }
    intros u s2 F. by eapply wp_ret, ran_frame. }
  destruct (negb _); [by eapply wp_ret, ran_error|].
  eapply read_into_ok; [exact R|by eapply ran_stream_ok|by eapply ran_valid|lia|lia|lia].
Qed.

(** * Submessages *)

(** A message decoder stays inside of the [size] bytes of the message. *)
Definition msg_safe (d : msg_decoder) (fields : list pb_field_t) (size : Z) : Prop :=
  ∀ stream dest s, stream_ok stream → sane ro s → mem_valid (mem s) dest size →
  wp (d stream fields dest) (λ '(ok, t) s', ran ro dest size stream s ok 0 t s') s.

(** Returning to the parent stream. *)
Lemma ran_close a n stream parent sub sub' s s1 s2 b k :
  splits stream parent sub → frame ro a n s s1 → ran ro a n sub s1 b k sub' s2 →
  wp (pb_close_string_substream parent sub')
     (λ '(ok, t) s', ran ro a n stream s ok 1 t s') s2.
Proof.
  intros A F (F2 & A2 & _).
  eapply wp_mono; [eapply pb_close_string_substream_ok; [exact A|exact A2]|].
  intros [ok t] s3 R. eapply ran_after; [exact F|]. eapply ran_after; [exact F2|].
  apply ran_reads; [by eapply frame_sane|]. by destruct R.
Qed.

Lemma ran_status a n stream s ok status k t s' :
  ran ro a n stream s ok k t s' →
  wp (if negb ok then mret (false, t) else mret (status, t))
     (λ '(ok, t) s', ran ro a n stream s ok k t s') s'.
Proof.
  intros R. destruct ok; cbn [negb]; apply wp_ret; [|done].
  destruct status; [done|by eapply ran_false].
Qed.

Lemma pb_dec_submessage_safe decode noinit f fields :
  fields_at (pf_ptr f) = Some fields →
  msg_safe decode fields (pf_data_size f) → msg_safe noinit fields (pf_data_size f) →
  decoder_safe (pb_dec_submessage decode noinit) f.
Proof.
  intros Hf Hd Hn stream dest s Hok Hs Hv. eapply wp_seq; [by apply pb_make_string_substream_ok|].
  intros [t [sub|]] s1 [U A].
  2:{ apply wp_ret. split_and!; [by apply frame_unchanged|done|done]. }
  pose proof (frame_unchanged ro dest (pf_data_size f) _ _ Hs U) as F.
  destruct (pf_ptr f =? 0).
  { apply wp_ret. split_and!; [done|by apply advances_error, split_parent with sub|done]. }
  unfold fields_of. rewrite Hf. apply wp_bind, wp_ret. cbn beta.
  eapply wp_seq with (P := λ '(ok, t) s', ran ro dest (pf_data_size f) sub s1 ok 0 t s').
  { destruct (_ =? _); [apply Hd|apply Hn]; try apply A; by eauto with safe. }
  intros [status sub'] s2 R. eapply wp_seq; [by eapply ran_close|].
  intros [ok t'] s3 R3. by apply ran_status.
Qed.
End dec.
