(* ===== verification/PbSafeInit.v ===== *)
(** Well-formed descriptors: the arrays [nanopb_generator] writes for message
    types without pointer, callback and extension fields, as a decidable
    property; and what it says about the iterators over such an array.

    The iterator, the default values and the release of a well-formed message:
    [pb_message_set_to_defaults] writes inside of the message only, and
    [pb_release] of a message without pointers changes nothing. *)
From S2P Require Import Prelude Mem Pb PbIter PbStream PbDecode PbSafe.
(** [n] bytes at offset [a] of a struct of [size] bytes. *)
Definition inside (size a n : Z) : bool := (0 <=? a) && (a + n <=? size).

(** The number of items of an array member. *)
Definition item_count (f : pb_field_t) : Z :=
  if PB_HTYPE (pf_type f) =? PB_HTYPE_REPEATED then pf_array_size f else 1.

Section wf.
Context {W : Type} {UC : UserCode W} (ro : Z → Z → bool).

(** The [has_], [_count] or [which_] member that goes with a field. *)
Definition size_word_ok (size : Z) (f : pb_field_t) (it : pb_field_iter_t) : bool :=
  let htype := PB_HTYPE (pf_type f) in
  match pSize it with
  | PFixedCountSize => false
  | PAddr a =>
      if htype =? PB_HTYPE_OPTIONAL then (a =? pData it) || inside size a 1
      else if (htype =? PB_HTYPE_REPEATED) || (htype =? PB_HTYPE_ONEOF) then inside size a 4
      else true
  end.

(** The size of the member suits the type, and [ptr] points at the descriptors
    of the submessage or at a default value. *)
Definition type_ok (sub : Z → Z → bool) (f : pb_field_t) : bool :=
  let ltype := PB_LTYPE (pf_type f) in
  let ds := pf_data_size f in
  if ltype =? PB_LTYPE_SUBMESSAGE then sub (pf_ptr f) ds
  else ((pf_ptr f =? 0) || ro (pf_ptr f) ds) &&
    (if ltype =? PB_LTYPE_FIXED32 then 4 <=? ds
     else if ltype =? PB_LTYPE_FIXED64 then 8 <=? ds
     else (ltype <=? PB_LTYPE_STRING) || (ltype =? PB_LTYPE_FIXED_LENGTH_BYTES)).

(** The member of a field, found at [it] in a message at address 0. *)
Definition wf_field (sub : Z → Z → bool) (size : Z) (f : pb_field_t) (it : pb_field_iter_t)
    : bool :=
  (PB_ATYPE (pf_type f) =? PB_ATYPE_STATIC) && (0 <=? pf_data_size f) && (0 <=? pf_array_size f)
  && inside size (pData it) (pf_data_size f * item_count f)
  && size_word_ok size f it && type_ok sub f.

(** The entries that an iterator stands on: those before the terminator, or the
    terminator of an empty message type. *)
Definition entries (fields : list pb_field_t) : nat := Nat.max 1 (n_fields fields).

(** [rank] bounds the nesting of message types. *)
Fixpoint wf_msg (rank : nat) (size : Z) (fields : list pb_field_t) : bool :=
  match rank with
  | O => false
  | S rank' =>
      let sub p n := match fields_at p with Some sf => wf_msg rank' n sf | None => false end in
      terminated fields && bool_decide (fields !! n_fields fields = Some PB_LAST_FIELD) &&
      forallb (λ i, match fields !! i, iter_at fields 0 i with
                    | Some f, Some it => wf_field sub size f it
                    | _, _ => false
                    end) (seq 0 (entries fields))
  end.

(** The message types that a submessage field may point at. *)
Definition sub_ok (rank : nat) (p n : Z) : bool :=
  match fields_at p with Some sf => wf_msg rank n sf | None => false end.

(** * The iterator over a message at [dest] *)

Definition shift (dest : Z) (it : pb_field_iter_t) : pb_field_iter_t :=
  mk_iter (start it) (pos it) (required_field_index it) dest (dest + pData it)
    (match pSize it with PAddr a => PAddr (dest + a) | p => p end).

Lemma iter_at_shift fields dest i :
  iter_at fields dest i = shift dest <$> iter_at fields 0 i.
Proof.
  induction i as [|j IH]; cbn [iter_at].
  - unfold pb_field_iter_begin. destruct (fields !! 0%nat); [|done]. cbn. f_equal.
    unfold shift. cbn. f_equal. f_equal. lia.
  - rewrite IH. destruct (iter_at fields 0 j) as [it|]; cbn; [|done].
    destruct (fields !! j) as [prev|]; cbn; [|done].
    destruct (fields !! S j) as [f|]; cbn; [|done].
    destruct (in_union prev f); cbn; f_equal; unfold shift; cbn; f_equal; [lia|]. f_equal. lia.
Qed.

Lemma iter_at_required fields dest i it :
  iter_at fields dest i = Some it → 0 <= required_field_index it.
Proof.
  revert it. induction i as [|j IH]; intros it; cbn [iter_at].
  - unfold pb_field_iter_begin. destruct (fields !! 0%nat); [|done]. by intros [= <-].
  - destruct (iter_at fields dest j) as [it'|]; cbn; [|done]. specialize (IH _ eq_refl).
    destruct (fields !! j) as [prev|]; cbn; [|done].
    destruct (fields !! S j) as [f|]; cbn; [|done].
    destruct (in_union prev f); intros [= <-]; cbn; [done|].
    destruct (is_required prev); [apply u32_range|done].
Qed.

(** What a decoding function knows of the field it is called for. *)
Record placed (sub : Z → Z → bool) (dest size : Z) (f : pb_field_t) (it : pb_field_iter_t)
    : Prop := {
  placed_cur : cur it = Some f;
  placed_static : PB_ATYPE (pf_type f) = PB_ATYPE_STATIC;
  placed_data_size : 0 <= pf_data_size f;
  placed_array_size : 0 <= pf_array_size f;
  placed_data : dest <= pData it ∧ pData it + pf_data_size f * item_count f <= dest + size;
  placed_has a : pSize it = PAddr a → PB_HTYPE (pf_type f) = PB_HTYPE_OPTIONAL →
    a = pData it ∨ (dest <= a ∧ a + 1 <= dest + size);
  placed_count a : pSize it = PAddr a →
    PB_HTYPE (pf_type f) = PB_HTYPE_REPEATED ∨ PB_HTYPE (pf_type f) = PB_HTYPE_ONEOF →
    dest <= a ∧ a + 4 <= dest + size;
  placed_fixed : pSize it = PFixedCountSize → PB_HTYPE (pf_type f) = PB_HTYPE_REPEATED;
  placed_type : type_ok sub f = true;
  placed_required : 0 <= required_field_index it
}.

(** An iterator of a message at [dest] that stands on an entry. *)
Definition on_entry (fields : list pb_field_t) (dest : Z) (it : pb_field_iter_t) : Prop :=
  ∃ i, (i < entries fields)%nat ∧ iter_ok fields dest i it.

Section msg.
Context (rank : nat) (size : Z) (fields : list pb_field_t).
Context (Hwf : wf_msg (S rank) size fields = true).

Lemma wf_terminated : terminated fields = true.
Proof. cbn in Hwf. by apply andb_prop in Hwf as [[? _]%andb_prop _]. Qed.

Lemma wf_entry_pos i : (i < entries fields)%nat → (i <= n_fields fields)%nat.
Proof. unfold entries. lia. Qed.

Lemma wf_entry i :
  (i < entries fields)%nat →
  ∃ f it, fields !! i = Some f ∧ iter_at fields 0 i = Some it ∧
    wf_field (sub_ok rank) size f it = true.
Proof.
  intros Hi. cbn in Hwf. apply andb_prop in Hwf as [_ H]. rewrite forallb_forall in H.
  specialize (H i ltac:(apply in_seq; lia)).
  destruct (fields !! i) as [f|]; [|done]. destruct (iter_at fields 0 i) as [it|]; [|done].
  by exists f, it.
Qed.

Lemma wf_last : fields !! n_fields fields = Some PB_LAST_FIELD.
Proof.
  cbn in Hwf. by apply andb_prop in Hwf as [[_ H%bool_decide_eq_true]%andb_prop _].
Qed.

(** Every iterator over the message is on a field that lies in the struct. *)
Lemma wf_placed dest it :
  on_entry fields dest it → ∃ f, placed (sub_ok rank) dest size f it.
Proof.
  intros (i & Hi & it0 & E & Hit). destruct (wf_entry i Hi) as (f & itz & Hf & Ez & Hw).
  exists f. unfold wf_field, size_word_ok, inside in Hw.
  apply andb_prop in Hw as [[[[[Ha%Z.eqb_eq Hd%Z.leb_le]%andb_prop Hz%Z.leb_le]%andb_prop
    [Hlo%Z.leb_le Hhi%Z.leb_le]%andb_prop]%andb_prop Hsize]%andb_prop Hty].
  pose proof E as E'. rewrite iter_at_shift, Ez in E'. injection E' as <-.
  pose proof (iter_at_required _ _ _ _ E) as Hreq.
  destruct (iter_at_total fields wf_terminated 0 i (wf_entry_pos i Hi)) as (itz' & Ez' & Hs & Hp & _).
  rewrite Ez in Ez'. injection Ez' as <-.
  destruct (pSize itz) as [a|] eqn:Ep; [|done].
  destruct Hit as [->|[-> (g & Hg & Hr)]]; cbn in Hreq; split; cbn; rewrite ?Ep;
    try (done || lia || (unfold cur; cbn; congruence)).
  - intros b [= <-] Ho. rewrite Ho in Hsize. cbn -[Z.add] in Hsize. clear - Hsize. lia.
  - intros b [= <-] Ho. clear - Hsize Ho. destruct Ho as [Ho|Ho]; rewrite Ho in Hsize;
      cbn -[Z.add] in Hsize; lia.
Qed.
End msg.
End wf.

(** * The iterator, the default values and the release of a well-formed message *)
Section iterating.
Context {W : Type} {UC : UserCode W} (ro : Z → Z → bool).
Context (rank : nat) (size : Z) (fields : list pb_field_t).
Context (Hwf : wf_msg ro (S rank) size fields = true).
Implicit Types s : st W.

Lemma iter_at_entry dest i it :
  (i < entries fields)%nat → iter_at fields dest i = Some it → on_entry fields dest it.
Proof. intros Hi E. exists i. split; [done|by apply iter_at_ok]. Qed.

(** A search stops on an entry, on one with the property if it succeeds. *)
Lemma search_on_entry dest p it :
  on_entry fields dest it →
  ∃ b it', iter_search p it = Some (b, it') ∧ on_entry fields dest it' ∧
    (b = true → ∃ f, cur it' = Some f ∧ p f = true).
Proof.
  pose proof (wf_terminated _ _ _ _ Hwf) as Ht. intros (i & Hi & Hit).
  destruct (decide (i < n_fields fields)%nat) as [Hlt|Hge].
  - destruct (iter_search_spec fields Ht dest p i it Hlt Hit) as ([b it'] & E & Hr).
    exists b, it'. split; [done|]. destruct b; cbn in Hr.
    + destruct Hr as (k & f & Hk & Hf & Hp & _ & Hit').
      assert (cyc fields i k < n_fields fields)%nat by (apply Nat.mod_upper_bound; lia).
      assert (iter_ok fields dest (cyc fields i k) it') as Hok.
      { case_decide as Hk0; [|by apply iter_at_ok]. subst. unfold cyc.
        by rewrite Nat.add_0_r, Nat.mod_small by lia. }
      split; [exists (cyc fields i k); split; [unfold entries; lia|done]|].
      intros _. exists f. split; [|done].
      destruct (iter_ok_pos fields Ht dest (cyc fields i k) it') as (Hs & Hp' & _);
        [lia|done|]. unfold cur. by rewrite Hs, Hp'.
    + destruct Hr as [_ E']. split; [by eapply iter_at_entry|done].
  - assert (n_fields fields = 0%nat) as H0 by (unfold entries in Hi; lia).
    assert (i = 0%nat) as -> by (unfold entries in Hi; lia).
    pose proof (wf_last _ _ _ _ Hwf) as Hl. rewrite H0 in Hl.
    destruct Hit as (it0 & E & [->|[_ (f & Hf & Hr)]]);
      [|rewrite Hl in Hf; by injection Hf as <-].
    destruct (iter_at_total fields Ht dest 0) as (it1 & E1 & Hs & Hp & _); [lia|].
    rewrite E in E1. injection E1 as <-.
    pose proof (iter_next_empty fields dest it0 Ht H0 E) as Hn.
    unfold iter_search. cbn [iter_search_loop]. unfold cur. rewrite Hs, Hp, Hl. cbn.
    destruct (p PB_LAST_FIELD) eqn:Epl.
    + exists true, it0. split; [done|]. split; [by eapply iter_at_entry|]. intros _.
      exists PB_LAST_FIELD. rewrite Hs, Hp. by split.
    + rewrite Hn. cbn. rewrite Hp, decide_True by done. exists false, it0.
      split; [done|]. split; [by eapply iter_at_entry|done].
Qed.

(** No field is an extension range. *)
Lemma no_extension dest it :
  on_entry fields dest it →
  ∃ it', iter_search (λ f, PB_LTYPE (pf_type f) =? PB_LTYPE_EXTENSION) it = Some (false, it') ∧
    on_entry fields dest it'.
Proof.
  intros Hit.
  destruct (search_on_entry dest (λ f, PB_LTYPE (pf_type f) =? PB_LTYPE_EXTENSION) it Hit) as (b & it' & E & Hit' & Hb).
  destruct b; [|by exists it']. destruct (Hb eq_refl) as (f & Hf & Hp%Z.eqb_eq).
  destruct (wf_placed _ _ _ _ Hwf dest it' Hit') as (g & Hg).
  pose proof (placed_cur _ _ _ _ _ _ Hg) as Hc. rewrite Hf in Hc. injection Hc as <-.
  pose proof (placed_type _ _ _ _ _ _ Hg) as Ht. unfold type_ok in Ht. rewrite Hp in Ht.
  by destruct (_ || _) in Ht.
Qed.

(** A loop over all the fields, each of whose turns keeps [I]. *)
Lemma iter_loop_ok dest (f : pb_field_iter_t → M W unit) (I : st W → Prop) :
  (∀ it s, on_entry fields dest it → I s → wp (f it) (λ _ s', I s') s) →
  ∀ fuel i it s, (i < n_fields fields)%nat → (n_fields fields - i <= fuel)%nat →
    iter_at fields dest i = Some it → I s → wp (iter_loop fuel f it) (λ _ s', I s') s.
Proof.
  pose proof (wf_terminated _ _ _ _ Hwf) as Ht. intros Hf.
  induction fuel as [|fuel IH]; intros i it s Hi Hfuel E Hs; [lia|]. cbn [iter_loop].
  eapply wp_seq; [apply Hf; [|done]|].
  { apply (iter_at_entry dest i); [unfold entries; lia|done]. }
  intros u s1 Hs1. destruct (iter_next_at fields Ht dest i it Hi E) as (it' & E' & ->).
  apply wp_bind, wp_ret. case_decide as Hlt.
  - rewrite bool_decide_true by done. eapply IH; [exact Hlt|lia|done|done].
  - rewrite bool_decide_false by done. by apply wp_ret.
Qed.

Lemma begin_entry dest :
  ∃ b it, pb_field_iter_begin fields dest = Some (b, it) ∧ iter_at fields dest 0 = Some it ∧
    (b = true → (0 < n_fields fields)%nat).
Proof.
  pose proof (wf_terminated _ _ _ _ Hwf) as Ht.
  destruct (iter_at_total fields Ht dest 0) as (it & E & _); [lia|].
  cbn [iter_at] in E. destruct (pb_field_iter_begin fields dest) as [[b it']|] eqn:Eb; [|done].
  injection E as ->. exists b, it. split; [done|]. split; [cbn [iter_at]; by rewrite Eb|].
  intros ->. destruct (n_fields fields) eqn:En; [|lia]. exfalso.
  pose proof (wf_last _ _ _ _ Hwf) as Hl. rewrite En in Hl.
  unfold pb_field_iter_begin in Eb. by rewrite Hl in Eb.
Qed.
End iterating.

Section fields.
Context {W : Type} {UC : UserCode W} {AL : Allocator} (ro : Z → Z → bool).
Implicit Types s : st W.

(** * The count, [has_] or [which_] member of a field *)

Section placed.
Context (sub : Z → Z → bool) (dest size : Z) (f : pb_field_t) (it : pb_field_iter_t).
Context (Hp : placed ro sub dest size f it).

Lemma frame_set_fixed a n s v : sane ro s → frame ro a n s (set_fixed (u32 v) s).
Proof.
  intros [B F R]. split; [|apply mem_same_outside_refl|done]. split; [done|apply u32_range|done].
Qed.

Lemma load_pSize_ok s :
  PB_HTYPE (pf_type f) = PB_HTYPE_REPEATED ∨ PB_HTYPE (pf_type f) = PB_HTYPE_ONEOF →
  sane ro s → mem_valid (mem s) dest size →
  wp (load_pSize it) (λ v s', s' = s ∧ 0 <= v < 2 ^ 32) s.
Proof.
  intros Hh Hs Hv. unfold load_pSize. destruct (pSize it) as [a|] eqn:E.
  - destruct (placed_count _ _ _ _ _ _ Hp a E Hh).
    eapply wp_mono; [apply (load_uint_ok ro 4); [done|]|done].
    by eapply mem_valid_sub; [exact Hv|..].
  - apply wp_gets. split; [done|apply Hs].
Qed.

Lemma store_pSize_ok s v :
  PB_HTYPE (pf_type f) = PB_HTYPE_REPEATED ∨ PB_HTYPE (pf_type f) = PB_HTYPE_ONEOF →
  sane ro s → mem_valid (mem s) dest size →
  wp (store_pSize it v) (λ _ s', frame ro dest size s s') s.
Proof.
  intros Hh Hs Hv. unfold store_pSize. destruct (pSize it) as [a|] eqn:E.
  - destruct (placed_count _ _ _ _ _ _ Hp a E Hh). by apply store_uint_in.
  - eapply wp_intro; [done|]. by apply frame_set_fixed.
Qed.

Lemma store_has_ok s b :
  PB_HTYPE (pf_type f) = PB_HTYPE_OPTIONAL → pSize it ≠ PAddr (pData it) →
  sane ro s → mem_valid (mem s) dest size →
  wp (store_has it b) (λ _ s', frame ro dest size s s') s.
Proof.
  intros Hh Hne Hs Hv. unfold store_has. destruct (pSize it) as [a|] eqn:E.
  - destruct (placed_has _ _ _ _ _ _ Hp a E Hh) as [->|[? ?]]; [done|].
    by apply store_uint_in.
  - by rewrite (placed_fixed _ _ _ _ _ _ Hp E) in Hh.
Qed.

Lemma field_of_ok (Q : pb_field_t → st W → Prop) s : Q f s → wp (field_of it) Q s.
Proof. apply wp_opt, Hp. Qed.

(** A field that is no array is one item. *)
Lemma placed_one :
  PB_HTYPE (pf_type f) ≠ PB_HTYPE_REPEATED →
  dest <= pData it ∧ pData it + pf_data_size f <= dest + size.
Proof.
  intros Hh. pose proof (placed_data _ _ _ _ _ _ Hp) as Hd. unfold item_count in Hd.
  rewrite (proj2 (Z.eqb_neq _ _) Hh) in Hd. lia.
Qed.

(** Item [i] of an array. *)
Lemma placed_item i :
  PB_HTYPE (pf_type f) = PB_HTYPE_REPEATED → 0 <= i < pf_array_size f →
  dest <= pData it + pf_data_size f * i ∧
  pData it + pf_data_size f * i + pf_data_size f <= dest + size.
Proof.
  intros Hh Hi. pose proof (placed_data _ _ _ _ _ _ Hp) as Hd. unfold item_count in Hd.
  rewrite Hh in Hd. change (PB_HTYPE_REPEATED =? PB_HTYPE_REPEATED) with true in Hd.
  cbn in Hd. pose proof (placed_data_size _ _ _ _ _ _ Hp). nia.
Qed.

(** The address computation of an item wraps to an earlier one, if at all. *)
Lemma placed_item_wrap i :
  PB_HTYPE (pf_type f) = PB_HTYPE_REPEATED → 0 <= i < pf_array_size f →
  dest <= pData it + u32 (pf_data_size f * i) ∧
  pData it + u32 (pf_data_size f * i) + pf_data_size f <= dest + size.
Proof.
  intros Hh Hi. destruct (placed_item i Hh Hi). pose proof (placed_data _ _ _ _ _ _ Hp).
  pose proof (placed_data_size _ _ _ _ _ _ Hp).
  pose proof (u32_range (pf_data_size f * i)).
  assert (u32 (pf_data_size f * i) <= pf_data_size f * i) by (apply Z.mod_le; nia). lia.
Qed.
End placed.

(** * Default values *)

Definition defaults_safe (n : nat) (fields : list pb_field_t) (size : Z) : Prop :=
  ∀ dest s, sane ro s → mem_valid (mem s) dest size →
  wp (pb_message_set_to_defaults n fields dest) (λ _ s', frame ro dest size s s') s.

(** The type of a field that is not an extension. *)
Lemma type_ok_not_extension sub f :
  type_ok ro sub f = true → (PB_LTYPE (pf_type f) =? PB_LTYPE_EXTENSION) = false.
Proof.
  intros Ht. apply Z.eqb_neq. intros E. unfold type_ok in Ht. rewrite E in Ht.
  by destruct (_ || _) in Ht.
Qed.

Lemma type_ok_submessage sub f :
  type_ok ro sub f = true → PB_LTYPE (pf_type f) = PB_LTYPE_SUBMESSAGE →
  sub (pf_ptr f) (pf_data_size f) = true.
Proof. intros Ht E. unfold type_ok in Ht. by rewrite E in Ht. Qed.

Lemma type_ok_default sub f :
  type_ok ro sub f = true → PB_LTYPE (pf_type f) ≠ PB_LTYPE_SUBMESSAGE → pf_ptr f ≠ 0 →
  ro (pf_ptr f) (pf_data_size f) = true.
Proof.
  intros Ht E Hp. unfold type_ok in Ht. rewrite (proj2 (Z.eqb_neq _ _) E) in Ht.
  apply andb_prop in Ht as [[Ht|Ht]%orb_prop _]; [by apply Z.eqb_eq in Ht|done].
Qed.

(** The promise for the message types that a field may contain. *)
Definition subs_defaults (n : nat) (sub : Z → Z → bool) : Prop := ∀ p size, sub p size = true →
  ∃ sf, fields_at p = Some sf ∧ defaults_safe n sf size.

(** Writing the default value of the data itself. *)
Lemma init_data_ok n sub dest size f it s :
  subs_defaults n sub → placed ro sub dest size f it → PB_HTYPE (pf_type f) ≠ PB_HTYPE_REPEATED →
  sane ro s → mem_valid (mem s) dest size →
  wp (if PB_LTYPE (pf_type f) =? PB_LTYPE_SUBMESSAGE then
        sub ← fields_of (pf_ptr f);
        message_set_to_defaults_with (pb_field_set_to_default n) sub (pData it)
      else if negb (pf_ptr f =? 0) then memcpy (pData it) (pf_ptr f) (pf_data_size f)
      else memset (pData it) 0 (pf_data_size f)) (λ _ s', frame ro dest size s s') s.
Proof.
  intros Hsub Hp Hh Hs Hv. destruct (placed_one _ _ _ _ _ Hp Hh) as [H1 H2].
  pose proof (placed_data_size _ _ _ _ _ _ Hp). pose proof (placed_type _ _ _ _ _ _ Hp) as Ht.
  destruct (Z.eqb_spec (PB_LTYPE (pf_type f)) PB_LTYPE_SUBMESSAGE) as [E|E].
  - destruct (Hsub _ _ (type_ok_submessage _ _ Ht E)) as (sf & Hsf & Hd).
    unfold fields_of. rewrite Hsf. apply wp_bind, wp_ret.
    eapply wp_mono; [apply Hd; [done|by eapply mem_valid_sub]|].
    intros u s' F. exact (frame_weaken _ _ _ _ _ _ _ F H1 H2).
  - destruct (Z.eqb_spec (pf_ptr f) 0) as [E0|E0]; cbn [negb].
    + by apply memset_in.
    + apply memcpy_in; [done..|]. apply Hs. by eapply type_ok_default.
Qed.

Lemma field_default_ok n sub dest size f it s :
  subs_defaults n sub → placed ro sub dest size f it →
  sane ro s → mem_valid (mem s) dest size →
  wp (pb_field_set_to_default (S n) it) (λ _ s', frame ro dest size s s') s.
Proof.
  intros Hsub Hp Hs Hv. cbn [pb_field_set_to_default]. apply wp_bind. eapply field_of_ok; [done|].
  rewrite (type_ok_not_extension sub) by apply Hp.
  rewrite (placed_static _ _ _ _ _ _ Hp). cbn [Z.eqb].
  destruct (Z.eqb_spec (PB_HTYPE (pf_type f)) PB_HTYPE_OPTIONAL) as [Eo|Eo]; cbn [andb].
  - eapply wp_seq with (P := λ b s', frame ro dest size s s' ∧ b = true).
    { case_bool_decide as Ep; cbn [negb].
      - rewrite Eo. change ((PB_HTYPE_OPTIONAL =? PB_HTYPE_REPEATED)
          || (PB_HTYPE_OPTIONAL =? PB_HTYPE_ONEOF)) with false.
        apply wp_ret. split; [by apply frame_refl|done].
      - eapply wp_seq; [by eapply store_has_ok|]. intros u s' F. by apply wp_ret. }
    intros b s1 [F ->]. eapply wp_mono.
    { eapply init_data_ok; [done|done|by rewrite Eo|by eapply frame_sane|by eapply frame_valid]. }
    intros u s2 F2. by eapply frame_trans.
  - destruct ((PB_HTYPE (pf_type f) =? PB_HTYPE_REPEATED)
      || (PB_HTYPE (pf_type f) =? PB_HTYPE_ONEOF)) eqn:Eh.
    + eapply wp_seq with (P := λ b s', frame ro dest size s s' ∧ b = false).
      { eapply wp_seq; [eapply store_pSize_ok; [done| |done|done]|].
        - apply orb_prop in Eh as [?%Z.eqb_eq|?%Z.eqb_eq]; auto.
        - intros u s1 F. by apply wp_ret. }
      intros b s1 [F ->]. by apply wp_ret.
    + apply wp_bind, wp_ret. eapply init_data_ok; [done|done| |done|done].
      intros E. by rewrite E in Eh.
Qed.

(** [pb_message_set_to_defaults] on a well-formed message. *)
Lemma message_set_to_defaults_ok rank : ∀ n size fields,
  wf_msg ro rank size fields = true → (rank <= n)%nat → defaults_safe n fields size.
Proof.
  induction rank as [|rank IH]; [done|]. intros [|n] size fields Hwf Hn dest s Hs Hv; [lia|].
  destruct (begin_entry _ _ _ _ Hwf dest) as (b & it & E & E0 & Hb).
  unfold pb_message_set_to_defaults, message_set_to_defaults_with. rewrite E.
  apply wp_bind, wp_ret. destruct b; [|by apply wp_ret, frame_refl].
  eapply (iter_loop_ok _ _ _ _ Hwf dest _ (frame ro dest size s));
    [|by apply Hb| |done|by apply frame_refl].
  - intros it' s' Hit F. destruct (wf_placed _ _ _ _ Hwf dest it' Hit) as (f & Hp).
    eapply wp_mono.
    + eapply field_default_ok; [|exact Hp|by eapply frame_sane|by eapply frame_valid].
      intros p sz Hsub. unfold sub_ok in Hsub. destruct (fields_at p) as [sf|]; [|done].
      exists sf. split; [done|]. apply IH; [done|lia].
    + intros u s2 F2. by eapply frame_trans.
  - unfold n_fields. lia.
Qed.

(** * Release *)

Definition release_safe (n : nat) (fields : list pb_field_t) (size : Z) : Prop :=
  ∀ dest s, sane ro s → mem_valid (mem s) dest size →
  wp (pb_release n fields dest) (λ _ s', s' = s) s.

Definition subs_release (n : nat) (sub : Z → Z → bool) : Prop := ∀ p size, sub p size = true →
  ∃ sf, fields_at p = Some sf ∧ release_safe n sf size.

Lemma release_items_ok n sf a n_bytes size s :
  release_safe n sf size → 0 <= size → sane ro s → mem_valid (mem s) a n_bytes → ∀ count pItem,
  a <= pItem → pItem + size * Z.of_nat count <= a + n_bytes →
  wp (release_items count (pb_release n sf) pItem size) (λ _ s', s' = s) s.
Proof.
  intros Hr Hsz Hs Hv. induction count as [|count IH]; intros pItem H1 H2; cbn [release_items].
  { by apply wp_ret. }
  eapply wp_seq; [apply Hr; [done|]|].
  - eapply mem_valid_sub; [exact Hv|lia|nia].
  - intros u s' ->. apply IH; [lia|nia].
Qed.

(** The number of submessages to release. *)
Lemma release_count_ok sub dest size f it s :
  placed ro sub dest size f it → sane ro s → mem_valid (mem s) dest size →
  wp (if PB_HTYPE (pf_type f) =? PB_HTYPE_REPEATED then
        count ← (if (PB_ATYPE (pf_type f) =? PB_ATYPE_STATIC)
                    && bool_decide (pSize it = PAddr (pData it))
                 then mret (pf_array_size f) else load_pSize it);
        if (PB_ATYPE (pf_type f) =? PB_ATYPE_STATIC) && (pf_array_size f <? count)
        then mret (pf_array_size f) else mret count
      else mret 1) (λ v s', s' = s ∧ 0 <= v <= item_count f) s.
Proof.
  intros Hp Hs Hv. unfold item_count. pose proof (placed_array_size _ _ _ _ _ _ Hp).
  destruct (Z.eqb_spec (PB_HTYPE (pf_type f)) PB_HTYPE_REPEATED) as [Eh|Eh]; [|by apply wp_ret].
  rewrite (placed_static _ _ _ _ _ _ Hp). cbn [Z.eqb andb].
  eapply wp_seq with (P := λ v s', s' = s ∧ 0 <= v).
  - case_bool_decide; [by apply wp_ret|]. eapply wp_mono; [eapply load_pSize_ok; eauto|].
    intros v s' [-> ?]. split; [done|lia].
  - intros v s' [-> Hv0]. destruct (Z.ltb_spec (pf_array_size f) v); apply wp_ret; (split; [done|lia]).
Qed.

Lemma release_field_ok n sub dest size f it s :
  subs_release n sub → placed ro sub dest size f it →
  sane ro s → mem_valid (mem s) dest size →
  wp (pb_release_single_field (S n) it) (λ _ s', s' = s) s.
Proof.
  intros Hsub Hp Hs Hv. cbn [pb_release_single_field]. apply wp_bind. eapply field_of_ok; [done|].
  cbv zeta. eapply wp_seq with (P := λ _ s', s' = s).
  { destruct (Z.eqb_spec (PB_HTYPE (pf_type f)) PB_HTYPE_ONEOF) as [E|E]; [|by apply wp_ret].
    eapply wp_seq; [eapply load_pSize_ok; eauto|]. intros v s' [-> _]. by apply wp_ret. }
  intros current s' ->. destruct current; cbn [negb]; [|by apply wp_ret].
  rewrite (type_ok_not_extension sub) by apply Hp.
  rewrite (static_not_pointer f) by apply Hp.
  eapply wp_seq with (P := λ _ s', s' = s); [|intros u s' ->; by apply wp_ret].
  destruct (Z.eqb_spec (PB_LTYPE (pf_type f)) PB_LTYPE_SUBMESSAGE) as [E|E]; [|by apply wp_ret].
  apply wp_bind, wp_ret. eapply wp_seq; [by eapply release_count_ok|].
  intros count s' [-> Hc]. destruct (pData it =? 0); [by apply wp_ret|].
  destruct (Hsub _ _ (type_ok_submessage _ _ (placed_type _ _ _ _ _ _ Hp) E)) as (sf & Hsf & Hr).
  unfold fields_of. rewrite Hsf. apply wp_bind, wp_ret.
  destruct (placed_data _ _ _ _ _ _ Hp). pose proof (placed_data_size _ _ _ _ _ _ Hp).
  eapply release_items_ok; [done|done|done|exact Hv|done|]. rewrite Z2Nat.id by lia. nia.
Qed.

Lemma message_release_ok rank : ∀ n size fields,
  wf_msg ro rank size fields = true → (rank <= n)%nat → release_safe n fields size.
Proof.
  induction rank as [|rank IH]; [done|]. intros [|n] size fields Hwf Hn dest s Hs Hv; [lia|].
  unfold pb_release, release_with. destruct (dest =? 0); [by apply wp_ret|].
  destruct (begin_entry _ _ _ _ Hwf dest) as (b & it & E & E0 & Hb). rewrite E.
  apply wp_bind, wp_ret. destruct b; [|by apply wp_ret].
  eapply (iter_loop_ok _ _ _ _ Hwf dest _ (λ s', s' = s)); [|by apply Hb| |done|done].
  - intros it' s' Hit ->. destruct (wf_placed _ _ _ _ Hwf dest it' Hit) as (f & Hp).
    eapply release_field_ok; [|exact Hp|done|done].
    intros p sz Hsub. unfold sub_ok in Hsub. destruct (fields_at p) as [sf|]; [|done].
    exists sf. split; [done|]. apply IH; [done|lia].
  - unfold n_fields. lia.
Qed.
End fields.
