(* ===== verification/PbDecodeProps.v ===== *)
(** Decoding one field of a well-formed message stays inside of the message.

    Decoding a well-formed message: the main loop of [pb_decode_noinit], the
    check for required fields, and [pb_decode].

    Correctness of the message decoder: memory safety and termination. *)
From S2P Require Import Prelude Mem Pb PbIter PbStream PbDecode PbExample PbSafe PbSafeInit.
Section field.
Context {W : Type} {UC : UserCode W} {RD : Readers W} {AL : Allocator} (ro : Z → Z → bool).
Implicit Types s : st W.

(** What [pb_decode_noinit] calls back into, and its promise for the message
    types that a field may contain. *)
Context (n : nat) (decode noinit : msg_decoder (W := W)) (sub : Z → Z → bool).
Context (Hsubs : ∀ p size, sub p size = true → ∃ sf, fields_at p = Some sf ∧
  msg_safe ro decode sf size ∧ msg_safe ro noinit sf size ∧ defaults_safe ro n sf size).

Lemma subs_defaults_ok : subs_defaults ro n sub.
Proof. intros p size Hp. destruct (Hsubs p size Hp) as (sf & ? & _ & _ & ?). by exists sf. Qed.

(** The entry of [PB_DECODERS] for a field. *)
Lemma decoder_of_ok f :
  type_ok ro sub f = true → PB_ATYPE (pf_type f) = PB_ATYPE_STATIC → 0 <= pf_data_size f →
  ∃ d, PB_DECODERS decode noinit !! Z.to_nat (PB_LTYPE (pf_type f)) = Some (Some d) ∧
    decoder_safe ro d f.
Proof.
  intros Ht Hst Hds. pose proof (ltype_range (pf_type f)) as Hr. unfold type_ok in Ht.
  destruct (Z.eqb_spec (PB_LTYPE (pf_type f)) PB_LTYPE_SUBMESSAGE) as [E|E1].
  { rewrite E. destruct (Hsubs _ _ Ht) as (sf & Hsf & Hd & Hn & _). eexists. split; [done|].
    by eapply pb_dec_submessage_safe. }
  apply andb_prop in Ht as [_ Ht].
  destruct (Z.eqb_spec (PB_LTYPE (pf_type f)) PB_LTYPE_FIXED32) as [E|E2].
  { rewrite E. eexists. split; [done|]. apply pb_dec_fixed32_safe. lia. }
  destruct (Z.eqb_spec (PB_LTYPE (pf_type f)) PB_LTYPE_FIXED64) as [E|E3].
  { rewrite E. eexists. split; [done|]. apply pb_dec_fixed64_safe. lia. }
  unfold PB_LTYPE_STRING, PB_LTYPE_FIXED_LENGTH_BYTES, PB_LTYPE_SUBMESSAGE, PB_LTYPE_FIXED32,
    PB_LTYPE_FIXED64 in *.
  assert (PB_LTYPE (pf_type f) ∈ [0; 1; 2; 5; 6; 9]) as Hin.
  { rewrite !elem_of_cons. lia. }
  repeat (apply elem_of_cons in Hin as [E|Hin]; [rewrite E; eexists; (split; [done|])|]);
    [..|by apply not_elem_of_nil in Hin].
  - apply pb_dec_varint_safe.
  - apply pb_dec_uvarint_safe.
  - apply pb_dec_svarint_safe.
  - by apply pb_dec_bytes_safe.
  - by apply pb_dec_string_safe.
  - by apply pb_dec_fixed_length_bytes_safe.
Qed.

Context (dest size : Z) (f : pb_field_t) (it : pb_field_iter_t).
Context (Hp : placed ro sub dest size f it).

Lemma call_ok d a stream s :
  decoder_safe ro d f → dest <= a → a + pf_data_size f <= dest + size →
  stream_ok stream → sane ro s → mem_valid (mem s) dest size →
  wp (call (Some d) stream f a) (λ '(ok, t) s', ran ro dest size stream s ok 1 t s') s.
Proof.
  intros Hd H1 H2 Hok Hs Hv. eapply wp_mono; [apply Hd; [done|done|by eapply mem_valid_sub]|].
  intros [ok t] s' R. eapply ran_weaken; [exact R|done|done|lia].
Qed.

Lemma packed_static_loop_ok d :
  decoder_safe ro d f → PB_HTYPE (pf_type f) = PB_HTYPE_REPEATED → ∀ fuel stream s,
  (Z.to_nat (bytes_left stream) < fuel)%nat →
  stream_ok stream → sane ro s → mem_valid (mem s) dest size →
  wp (packed_static_loop fuel (Some d) it f stream)
     (λ '(ok, t) s', ran ro dest size stream s ok 0 t s') s.
Proof.
  intros Hd Hh. induction fuel as [|fuel IH]; intros stream s Hf Hok Hs Hv; [lia|].
  cbn [packed_static_loop]. eapply wp_seq; [eapply load_pSize_ok; eauto|].
  intros count s' [-> Hc]. destruct ((0 <? bytes_left stream) && (count <? pf_array_size f)) eqn:E.
  2:{ apply wp_ret. split_and!; [by apply frame_refl|by apply advances_refl|lia]. }
  apply andb_prop in E as [_ Hlt%Z.ltb_lt].
  destruct (placed_item_wrap _ _ _ _ _ _ Hp count Hh ltac:(lia)) as [H1 H2].
  cbv zeta. eapply wp_seq; [by eapply call_ok|]. intros [ok t] s1 R.
  destruct ok; cbn [negb]; [|by eapply wp_ret, ran_false].
  assert (sane ro s1 ∧ mem_valid (mem s1) dest size) as [Hs1 Hv1]
    by (split; [by eapply ran_sane|by eapply ran_valid]).
  eapply wp_seq; [eapply load_pSize_ok; eauto|]. intros count' s' [-> _].
  eapply wp_seq; [eapply store_pSize_ok; eauto|]. intros u s2 F.
  pose proof (ran_frame _ _ _ _ _ _ _ _ _ _ R F) as R2. destruct R2 as (F2 & A & L).
  eapply wp_mono; [apply IH|].
  - specialize (L eq_refl). pose proof (adv_left _ _ A). lia.
  - by eapply advances_ok.
  - by eapply frame_sane.
  - by eapply frame_valid.
  - intros [ok' t'] s3 R3. apply (ran_weaken _ dest size _ _ _ _ _ (1 + 0)); [|lia..].
    eapply ran_trans; [|exact R3]. by split_and!.
Qed.

(** The packed case of an array. *)
Lemma packed_static_ok d stream s :
  decoder_safe ro d f → PB_HTYPE (pf_type f) = PB_HTYPE_REPEATED →
  stream_ok stream → sane ro s → mem_valid (mem s) dest size →
  wp ('(stream, sub) ← pb_make_string_substream stream;
      match sub with
      | None => mret (false, stream)
      | Some substream =>
          '(status, substream) ←
            packed_static_loop (S (Z.to_nat (bytes_left substream))) (Some d) it f substream;
          if negb (bytes_left substream =? 0) then fail stream "array overflow"
          else
            '(ok, stream) ← pb_close_string_substream stream substream;
            if negb ok then mret (false, stream) else mret (status, stream)
      end) (λ '(ok, t) s', ran ro dest size stream s ok 0 t s') s.
Proof.
  intros Hd Hh Hok Hs Hv. eapply wp_seq; [by apply pb_make_string_substream_ok|].
  intros [t [ss|]] s1 [U A]; pose proof (frame_unchanged ro dest size _ _ Hs U) as F.
  2:{ apply wp_ret. by split_and!. }
  eapply wp_seq.
  { apply packed_static_loop_ok; [done|done|lia|apply A|by eapply frame_sane|by eapply frame_valid]. }
  intros [status ss'] s2 R. destruct (negb _).
  { apply wp_ret. split_and!; [|by apply advances_error, split_parent with ss|done].
    destruct R as (F2 & _). by eapply frame_trans. }
  eapply wp_seq; [by eapply ran_close|]. intros [ok t'] s3 R3.
  eapply wp_mono; [by apply ran_status|]. intros [ok' t''] s4 R4.
  apply (ran_weaken _ dest size _ _ _ _ _ 1); [done|lia..].
Qed.

(** The next item of an array. *)
Lemma next_item_ok d stream s :
  decoder_safe ro d f → PB_HTYPE (pf_type f) = PB_HTYPE_REPEATED →
  stream_ok stream → sane ro s → mem_valid (mem s) dest size →
  wp (size ← load_pSize it;
      store_pSize it (u32 (size + 1));;
      if pf_array_size f <=? size then fail stream "array overflow"
      else call (Some d) stream f (pData it + u32 (pf_data_size f * size)))
     (λ '(ok, t) s', ran ro dest size stream s ok 0 t s') s.
Proof.
  intros Hd Hh Hok Hs Hv. eapply wp_seq; [eapply load_pSize_ok; eauto|]. intros count s' [-> Hc].
  eapply wp_seq; [eapply store_pSize_ok; eauto|]. intros u s1 F. cbn beta in F.
  destruct (Z.leb_spec (pf_array_size f) count).
  { apply wp_ret. split_and!; [done|by apply advances_error, advances_refl|done]. }
  destruct (placed_item_wrap _ _ _ _ _ _ Hp count Hh ltac:(lia)) as [H1 H2].
  eapply wp_mono; [eapply call_ok; [done|done|done|done|by eapply frame_sane|by eapply frame_valid]|].
  intros [ok t] s2 R. eapply ran_after; [exact F|].
  apply (ran_weaken _ dest size _ _ _ _ _ 1); [done|lia..].
Qed.

Lemma ran_weaken_left stream s ok k t s' :
  0 <= k → ran ro dest size stream s ok k t s' → ran ro dest size stream s ok 0 t s'.
Proof. intros Hk R. eapply ran_weaken; [exact R|lia..]. Qed.

(** One item, after a step that set the [has_] or [which_] member. *)
Lemma call_after d stream s s1 :
  decoder_safe ro d f → PB_HTYPE (pf_type f) ≠ PB_HTYPE_REPEATED →
  stream_ok stream → mem_valid (mem s) dest size → frame ro dest size s s1 →
  wp (call (Some d) stream f (pData it))
     (λ '(ok, t) s', ran ro dest size stream s ok 0 t s') s1.
Proof.
  intros Hd Hh Hok Hv F. destruct (placed_one _ _ _ _ _ _ Hp Hh) as [H1 H2].
  eapply wp_mono; [eapply call_ok; [done..|by eapply frame_sane|by eapply frame_valid]|].
  intros [ok t] s2 R. eapply ran_after; [exact F|]. by apply (ran_weaken_left _ _ _ 1).
Qed.

Lemma decode_static_ok stream wire_type s :
  stream_ok stream → sane ro s → mem_valid (mem s) dest size →
  wp (decode_static_field n decode noinit stream wire_type it)
     (λ '(ok, t) s', ran ro dest size stream s ok 0 t s') s.
Proof.
  intros Hok Hs Hv. unfold decode_static_field. apply wp_bind. eapply field_of_ok; [done|].
  destruct (decoder_of_ok f) as (d & Hd & Hsafe); [apply Hp..|].
  cbv zeta. unfold decoder_of. rewrite Hd. apply wp_bind, wp_ret.
  destruct (Z.eqb_spec (PB_HTYPE (pf_type f)) PB_HTYPE_REQUIRED) as [Eh|_].
  { apply call_after; [done|by rewrite Eh|done|done|by apply frame_refl]. }
  destruct (Z.eqb_spec (PB_HTYPE (pf_type f)) PB_HTYPE_OPTIONAL) as [Eh|_].
  { eapply wp_seq with (P := λ _ s', frame ro dest size s s').
    - case_bool_decide; [by apply wp_ret, frame_refl|]. by eapply store_has_ok.
    - intros u s1 F. apply call_after; [done|by rewrite Eh|done|done|exact F]. }
  destruct (Z.eqb_spec (PB_HTYPE (pf_type f)) PB_HTYPE_REPEATED) as [Eh|_].
  { destruct (_ && _); [by apply packed_static_ok|by apply next_item_ok]. }
  destruct (Z.eqb_spec (PB_HTYPE (pf_type f)) PB_HTYPE_ONEOF) as [Eh|_].
  2:{ apply wp_ret. split_and!; [by apply frame_refl|by apply advances_error, advances_refl|done]. }
  eapply wp_seq; [eapply store_pSize_ok; eauto|]. intros u s1 F. cbn beta in F.
  assert (PB_HTYPE (pf_type f) ≠ PB_HTYPE_REPEATED) as Hh by (by rewrite Eh).
  destruct (placed_one _ _ _ _ _ _ Hp Hh) as [H1 H2].
  pose proof (placed_data_size _ _ _ _ _ _ Hp).
  eapply wp_seq with (P := λ _ s', frame ro dest size s s').
  2:{ intros u2 s2 F2. by apply call_after. }
  destruct (Z.eqb_spec (PB_LTYPE (pf_type f)) PB_LTYPE_SUBMESSAGE) as [E|E]; [|by apply wp_ret].
  destruct (Hsubs _ _ (type_ok_submessage _ _ _ (placed_type _ _ _ _ _ _ Hp) E))
    as (sf & Hsf & _ & _ & Hdef).
  eapply wp_seq.
  { apply (memset_in ro dest size); [by eapply frame_sane|by eapply frame_valid|done..]. }
  intros u2 s2 F2. cbn beta in F2. unfold fields_of. rewrite Hsf. apply wp_bind, wp_ret.
  pose proof (frame_trans _ _ _ _ _ _ F F2) as F3.
  eapply wp_mono; [apply Hdef; [by eapply frame_sane|]|].
  - eapply mem_valid_sub; [by eapply (frame_valid _ _ _ dest size); [exact F3|]|done|done].
  - intros u3 s3 F4. eapply frame_trans; [exact F3|]. by eapply frame_weaken; [exact F4|..].
Qed.
End field.

(** * A field of the message being decoded *)

Section message.
Context {W : Type} {UC : UserCode W} {RD : Readers W} {AL : Allocator} (ro : Z → Z → bool).
Implicit Types s : st W.
Context (rank n : nat) (size : Z) (fields : list pb_field_t) (dest : Z).
Context (decode noinit : msg_decoder (W := W)).
Context (Hwf : wf_msg ro (S rank) size fields = true) (Hn : (S rank <= n)%nat).
Context (Hdecode : ∀ size sf, wf_msg ro rank size sf = true → msg_safe ro decode sf size).
Context (Hnoinit : ∀ size sf, wf_msg ro rank size sf = true → msg_safe ro noinit sf size).

Lemma subs_ok p sz : sub_ok ro rank p sz = true → ∃ sf, fields_at p = Some sf ∧
  msg_safe ro decode sf sz ∧ msg_safe ro noinit sf sz ∧ defaults_safe ro n sf sz.
Proof.
  unfold sub_ok. destruct (fields_at p) as [sf|]; [|done]. intros Hsub. exists sf.
  split_and!; [done|by apply Hdecode|by apply Hnoinit|].
  by apply (message_set_to_defaults_ok _ rank); [|lia].
Qed.

Lemma subs_release_ok : subs_release ro (pred n) (sub_ok ro rank).
Proof.
  intros p sz. unfold sub_ok. destruct (fields_at p) as [sf|]; [|done]. intros Hsub. exists sf.
  split; [done|]. by apply (message_release_ok _ rank); [|lia].
Qed.

(** After the release of the union member: the message is as it was, and the
    iterator on an entry again. *)
Definition union_released (stream : pb_istream_t) (s : st W)
    : bool * pb_istream_t * pb_field_iter_t → st W → Prop := λ '(ok, t, it') s',
  s' = s ∧ on_entry fields dest it' ∧
  t = (if ok then stream else t) ∧ (ok = false → ∃ msg, t = ierror msg stream).

Lemma union_field_ok stream it s :
  on_entry fields dest it → (∃ f, cur it = Some f ∧ PB_HTYPE (pf_type f) = PB_HTYPE_ONEOF) →
  sane ro s → mem_valid (mem s) dest size →
  wp (pb_release_union_field n stream it) (union_released stream s) s.
Proof.
  intros Hit (g & Hg & Eh) Hs Hv. destruct (wf_placed _ _ _ _ Hwf dest it Hit) as (f & Hp).
  rewrite (placed_cur _ _ _ _ _ _ Hp) in Hg. injection Hg as <-.
  unfold pb_release_union_field. apply wp_bind. eapply field_of_ok; [done|].
  eapply wp_seq; [eapply load_pSize_ok; eauto|]. intros old s' [-> _]. cbv zeta.
  destruct (old =? 0); [by apply wp_ret|]. destruct (old =? pf_tag f); [by apply wp_ret|].
  destruct (search_on_entry _ _ _ _ Hwf dest (has_tag old) it Hit) as (b & it1 & E & Hit1 & _).
  unfold pb_field_iter_find. rewrite E. apply wp_bind, wp_ret. destruct b; cbn [negb].
  2:{ apply wp_ret. split_and!; [done|done|done|by eexists]. }
  destruct (wf_placed _ _ _ _ Hwf dest it1 Hit1) as (f1 & Hp1).
  eapply wp_seq with (P := λ _ s', s' = s).
  { replace n with (S (pred n)) by lia. eapply release_field_ok; [apply subs_release_ok|done..]. }
  intros u s' ->.
  destruct (search_on_entry _ _ _ _ Hwf dest (has_tag (pf_tag f)) it1 Hit1)
    as (b & it2 & E2 & Hit2 & _).
  rewrite E2. apply wp_bind, wp_ret. destruct b; cbn [negb]; apply wp_ret; [done|].
  split_and!; [done|done|done|by eexists].
Qed.

Lemma decode_field_ok stream wire_type it s :
  on_entry fields dest it → stream_ok stream → sane ro s → mem_valid (mem s) dest size →
  wp (decode_field n decode noinit stream wire_type it) (λ '(ok, t, it') s',
    ran ro dest size stream s ok 0 t s' ∧ on_entry fields dest it') s.
Proof.
  intros Hit Hok Hs Hv. destruct (wf_placed _ _ _ _ Hwf dest it Hit) as (f & Hp).
  unfold decode_field. apply wp_bind. eapply field_of_ok; [done|].
  eapply wp_seq with (P := union_released stream s).
  { destruct (Z.eqb_spec (PB_HTYPE (pf_type f)) PB_HTYPE_ONEOF) as [E|E]; [|by apply wp_ret].
    apply union_field_ok; [done| |done|done]. exists f. split; [apply Hp|done]. }
  intros [[ok t] it1] s' (-> & Hit1 & Ht & Hmsg). destruct ok; cbn [negb].
  2:{ apply wp_ret. destruct (Hmsg eq_refl) as [msg ->]. split; [|done].
      split_and!; [by apply frame_refl|by apply advances_error, advances_refl|done]. }
  subst t. destruct (wf_placed _ _ _ _ Hwf dest it1 Hit1) as (f1 & Hp1).
  apply wp_bind. eapply field_of_ok; [done|]. cbv zeta.
  rewrite (placed_static _ _ _ _ _ _ Hp1). cbn [Z.eqb].
  eapply wp_seq; [eapply decode_static_ok; [apply subs_ok|exact Hp1|done..]|].
  intros [ok t] s1 R. by apply wp_ret.
Qed.
End message.

(** * Decoding a well-formed message *)
Section message.
Context {W : Type} {UC : UserCode W} {RD : Readers W} {AL : Allocator} (ro : Z → Z → bool).
Implicit Types s : st W.
Context (rank n : nat) (size : Z) (fields : list pb_field_t) (dest : Z).
Context (decode noinit : msg_decoder (W := W)).
Context (Hwf : wf_msg ro (S rank) size fields = true) (Hn : (S rank <= n)%nat).
Context (Hdecode : ∀ size sf, wf_msg ro rank size sf = true → msg_safe ro decode sf size).
Context (Hnoinit : ∀ size sf, wf_msg ro rank size sf = true → msg_safe ro noinit sf size).

(** The stream and the machine at the start of the activation. *)
Context (t0 : pb_istream_t) (s0 : st W).
Context (Ht0 : stream_ok t0) (Hvalid : mem_valid (mem s0) dest size).

(** The invariant of the main loop. *)
Record loop_ok (d : decode_state) (s : st W) : Prop := {
  loop_frame : frame ro dest size s0 s;
  loop_stream : advances t0 (ds_stream d);
  loop_iter : on_entry fields dest (ds_iter d);
  loop_seen : length (fields_seen d) = 2%nat;
  loop_fixed i : fixed_count_field d = Some i → is_Some (fields !! i)
}.

Definition turn_ok (left : Z) (r : turn) (s : st W) : Prop :=
  match r with
  | Continue d => loop_ok d s ∧ bytes_left (ds_stream d) < left
  | Break d => loop_ok d s
  | ReturnFalse t => frame ro dest size s0 s ∧ advances t0 t
  end.

Lemma loop_stream_ok d s : loop_ok d s → stream_ok (ds_stream d).
Proof. intros L. eapply advances_ok; [exact Ht0|apply L]. Qed.
Lemma loop_sane d s : loop_ok d s → sane ro s.
Proof. intros L. eapply frame_sane, L. Qed.
Lemma loop_valid d s : loop_ok d s → mem_valid (mem s) dest size.
Proof. intros L. eapply frame_valid; [apply L|done]. Qed.

(** After reading from the stream of the loop. *)
Lemma loop_ran d s ok k t s' :
  loop_ok d s → ran ro dest size (ds_stream d) s ok k t s' →
  frame ro dest size s0 s' ∧ advances t0 t.
Proof.
  intros L (F & A & _). split; [eapply frame_trans; [apply L|done]|].
  eapply advances_trans; [apply L|done].
Qed.

Lemma on_entry_pos it : on_entry fields dest it → is_Some (fields !! pos it).
Proof.
  intros (i & Hi & Hit). pose proof (wf_terminated _ _ _ _ Hwf) as Ht.
  pose proof (wf_entry_pos _ _ Hi) as Hle.
  destruct (iter_ok_pos fields Ht dest i it Hle Hit) as (_ & -> & _). by apply field_lookup.
Qed.

Lemma on_entry_redirect it f :
  on_entry fields dest it → cur it = Some f → PB_HTYPE (pf_type f) = PB_HTYPE_REPEATED →
  on_entry fields dest (set_pSize PFixedCountSize it).
Proof.
  intros (i & Hi & Hit) Hc Hh. exists i. split; [done|].
  pose proof (wf_terminated _ _ _ _ Hwf) as Ht. pose proof (wf_entry_pos _ _ Hi) as Hle.
  destruct (iter_ok_pos fields Ht dest i it Hle Hit) as (Hs & Hp & _).
  destruct Hit as (it0 & E & Hit). exists it0. split; [done|]. right.
  split; [by destruct Hit as [->|[-> _]]|]. exists f. split; [|done].
  rewrite <- Hs, <- Hp. exact Hc.
Qed.

Lemma fixed_count_incomplete_ok fcf s :
  (∀ i, fcf = Some i → is_Some (fields !! i)) →
  wp (fixed_count_incomplete fields fcf) (λ _ s', s' = s) s.
Proof.
  intros Hf. destruct fcf as [i|]; [|by apply wp_ret]. cbn.
  destruct (Hf i eq_refl) as [f ->]. apply wp_bind, wp_ret. apply wp_bind, wp_gets.
  by apply wp_ret.
Qed.

Lemma skip_turn_ok d wire_type left s :
  loop_ok d s → bytes_left (ds_stream d) < left →
  wp ('(ok, stream) ← pb_skip_field (ds_stream d) wire_type;
      if negb ok then mret (ReturnFalse stream)
      else mret (Continue (mk_decode_state stream (ds_iter d) (fields_seen d)
                             (extension_range_start d) (fixed_count_field d))))
     (turn_ok left) s.
Proof.
  intros L Hl. eapply wp_seq; [by eapply pb_skip_field_ok, loop_stream_ok|].
  intros [ok t] s1 R. apply (ran_reads ro dest size) in R; [|by eapply loop_sane].
  destruct (loop_ran _ _ _ _ _ _ L R) as [F A].
  destruct ok; cbn [negb]; apply wp_ret; [|by split].
  split; cbn; [split; [done|done|apply L..]|]. destruct R as (_ & _ & Hle).
  specialize (Hle eq_refl). lia.
Qed.

Lemma decode_unknown_ok d tag wire_type left s :
  loop_ok d s → bytes_left (ds_stream d) < left → tag < 2 ^ 29 →
  wp (decode_unknown n decode noinit d tag wire_type) (turn_ok left) s.
Proof.
  intros L Hl Htag. unfold decode_unknown. destruct (_ <=? tag); [|by apply skip_turn_ok].
  destruct (no_extension _ _ _ _ Hwf dest _ (loop_iter _ _ L)) as (it & E & Hit).
  unfold find_extension_field. rewrite E. apply wp_bind, wp_ret. cbn [negb].
  destruct (wf_placed _ _ _ _ Hwf dest it Hit) as (f & Hp).
  apply wp_bind. eapply field_of_ok; [done|]. cbv zeta.
  change (u32 (-1)) with (2 ^ 32 - 1). rewrite (proj2 (Z.leb_gt _ _)) by lia.
  apply (skip_turn_ok (mk_decode_state _ it _ _ _)); [|done]. by destruct L.
Qed.

(** Starting or continuing a fixed-count array. *)
Definition redirected (s : st W) : bool * pb_field_iter_t * option nat → st W → Prop :=
  λ '(ok, it, fcf) s',
    frame ro dest size s s' ∧ on_entry fields dest it ∧
    (∀ i, fcf = Some i → is_Some (fields !! i)).

Lemma fixed_count_turn_ok d f s :
  loop_ok d s → cur (ds_iter d) = Some f →
  wp (if (PB_HTYPE (pf_type f) =? PB_HTYPE_REPEATED)
         && bool_decide (pSize (ds_iter d) = PAddr (pData (ds_iter d))) then
        if bool_decide (fixed_count_field d = Some (pos (ds_iter d))) then
          mret (true, set_pSize PFixedCountSize (ds_iter d), fixed_count_field d)
        else
          incomplete ← fixed_count_incomplete fields (fixed_count_field d);
          if (incomplete : bool) then mret (false, ds_iter d, fixed_count_field d)
          else
            set_fixed_count_size 0;;
            mret (true, set_pSize PFixedCountSize (ds_iter d), Some (pos (ds_iter d)))
      else mret (true, ds_iter d, fixed_count_field d)) (redirected s) s.
Proof.
  intros L Hc. pose proof (loop_sane _ _ L) as Hs. pose proof (frame_refl ro dest size s Hs) as F.
  destruct (_ && _) eqn:E; [|by apply wp_ret; split_and!; [|apply L..]].
  apply andb_prop in E as [Eh%Z.eqb_eq _].
  pose proof (on_entry_redirect _ _ (loop_iter _ _ L) Hc Eh) as Hr.
  case_bool_decide as Ef; [by apply wp_ret; split_and!; [| |apply L]|].
  eapply wp_seq; [apply fixed_count_incomplete_ok, L|]. intros inc s' ->.
  destruct inc; [by apply wp_ret; split_and!; [|apply L..]|].
  eapply wp_seq with (P := λ _ s', frame ro dest size s s').
  { eapply wp_intro; [done|]. by apply frame_set_fixed. }
  intros u s1 F1. apply wp_ret. split_and!; [done|done|]. intros i [= <-].
  apply on_entry_pos, L.
Qed.

(** Recording a required field. *)
Lemma seen_ok it f seen s :
  length seen = 2%nat → 0 <= required_field_index it →
  wp (if (PB_HTYPE (pf_type f) =? PB_HTYPE_REQUIRED)
         && (required_field_index it <? PB_MAX_REQUIRED_FIELDS) then
        let tmp := u32 (Z.shiftl 1 (Z.land (required_field_index it) 31)) in
        let w := Z.to_nat (Z.shiftr (required_field_index it) 5) in
        v ← opt (seen !! w);
        mret (<[w := Z.lor v tmp]> seen)
      else mret seen) (λ seen' s', s' = s ∧ length seen' = 2%nat) s.
Proof.
  intros Hl H0. destruct (_ && _) eqn:E; [|by apply wp_ret].
  apply andb_prop in E as [_ Hlt%Z.ltb_lt]. unfold PB_MAX_REQUIRED_FIELDS in Hlt. cbv zeta.
  rewrite Z.shiftr_div_pow2 by lia. change (2 ^ 5) with 32.
  assert (required_field_index it / 32 < 2) by (apply Z.div_lt_upper_bound; lia).
  assert (0 <= required_field_index it / 32) by (apply Z.div_pos; lia).
  destruct (lookup_lt_is_Some_2 seen (Z.to_nat (required_field_index it / 32))) as [v ->]; [lia|].
  apply wp_bind, wp_ret, wp_ret. by rewrite length_insert.
Qed.

Lemma decode_known_ok d wire_type left s :
  loop_ok d s → bytes_left (ds_stream d) < left →
  wp (decode_known n decode noinit fields d wire_type) (turn_ok left) s.
Proof.
  intros L Hl. destruct (wf_placed _ _ _ _ Hwf dest _ (loop_iter _ _ L)) as (f & Hp).
  unfold decode_known. apply wp_bind. eapply field_of_ok; [done|]. cbv zeta.
  eapply wp_seq; [eapply fixed_count_turn_ok; [done|apply Hp]|].
  intros [[ok it] fcf] s1 (F1 & Hit & Hfcf).
  assert (frame ro dest size s0 s1) as F2 by (eapply frame_trans; [apply L|done]).
  destruct ok; cbn [negb].
  2:{ apply wp_ret. split; [done|by apply advances_error, L]. }
  destruct (wf_placed _ _ _ _ Hwf dest _ Hit) as (f' & Hp').
  eapply wp_seq; [apply (seen_ok it f (fields_seen d)); [apply L|apply Hp']|].
  intros seen s' [-> Hseen]. eapply wp_seq.
  { eapply decode_field_ok; [done..|by eapply loop_stream_ok|by eapply frame_sane|].
    by eapply frame_valid. }
  intros [[ok t] it'] s2 [R Hit'].
  assert (frame ro dest size s0 s2 ∧ advances t0 t) as [F3 A3].
  { eapply loop_ran; [exact L|]. eapply ran_after; [exact F1|exact R]. }
  destruct ok; cbn [negb]; apply wp_ret; [|by split].
  split; [by split|]. cbn. destruct R as (_ & A & _). pose proof (adv_left _ _ A). lia.
Qed.

Lemma decode_turn_ok d s :
  loop_ok d s →
  wp (decode_turn n decode noinit fields d) (turn_ok (bytes_left (ds_stream d))) s.
Proof.
  intros L. eapply wp_seq; [by eapply pb_decode_tag_ok, loop_stream_ok|].
  intros [[[[ok t] wt] tag] eof] s1 [R Hb].
  apply (ran_reads ro dest size) in R; [|by eapply loop_sane].
  destruct (loop_ran _ _ _ _ _ _ L R) as [F A]. destruct ok; cbn [negb].
  2:{ destruct eof; apply wp_ret; [|by split]. split; cbn; [done|done|apply L..]. }
  destruct (Hb eq_refl) as [_ Htag].
  destruct (search_on_entry _ _ _ _ Hwf dest (has_tag tag) _ (loop_iter _ _ L))
    as (b & it & E & Hit & _).
  unfold pb_field_iter_find. rewrite E. apply wp_bind, wp_ret. cbv zeta.
  assert (loop_ok (mk_decode_state t it (fields_seen d) (extension_range_start d)
            (fixed_count_field d)) s1) as L1 by (split; cbn; [done|done|done|apply L..]).
  destruct R as (_ & _ & Hlt). specialize (Hlt eq_refl).
  destruct b; cbn [negb]; [apply decode_known_ok|apply decode_unknown_ok]; cbn; (done || lia).
Qed.

(** Every turn takes a byte at least, so the loop ends. *)
Lemma decode_loop_ok fuel : ∀ d s,
  loop_ok d s → (Z.to_nat (bytes_left (ds_stream d)) < fuel)%nat →
  wp (decode_loop fuel n decode noinit fields d) (λ '(ok, d') s',
    frame ro dest size s0 s' ∧ advances t0 (ds_stream d') ∧ (ok = true → loop_ok d' s')) s.
Proof.
  induction fuel as [|fuel IH]; intros d s L Hf; [lia|]. cbn [decode_loop].
  destruct (Z.eqb_spec (bytes_left (ds_stream d)) 0).
  { apply wp_ret. split_and!; [apply L|apply L|done]. }
  eapply wp_seq; [by apply decode_turn_ok|]. intros [d'|d'|t] s1 T.
  - destruct T as [L1 Hlt]. apply IH; [done|].
    pose proof (adv_left _ _ (loop_stream _ _ L1)). lia.
  - apply wp_ret. split_and!; [apply T|apply T|done].
  - apply wp_ret. destruct T. by split_and!.
Qed.

(** * The check for required fields *)

Lemma next_on_entry it :
  on_entry fields dest it →
  ∃ b it', pb_field_iter_next it = Some (b, it') ∧ on_entry fields dest it' ∧
    (b = true → (pos it < pos it' <= n_fields fields)%nat).
Proof.
  pose proof (wf_terminated _ _ _ _ Hwf) as Ht. intros (i & Hi & Hit).
  pose proof (wf_entry_pos _ _ Hi) as Hle.
  destruct (iter_ok_pos fields Ht dest i it Hle Hit) as (_ & Hpos & _).
  destruct (decide (i < n_fields fields)%nat) as [Hlt|Hge].
  - destruct (iter_next_ok fields Ht dest i it Hlt Hit) as (it' & E & ->).
    eexists _, it'. split; [done|]. case_decide as Hnext.
    + split; [exists (S i); split; [unfold entries; lia|by apply iter_at_ok]|]. intros _.
      destruct (iter_at_total fields Ht dest (S i)) as (it1 & E1 & _ & Hp1 & _); [lia|].
      rewrite E in E1. injection E1 as <-. lia.
    + split; [exists 0%nat; split; [unfold entries; lia|by apply iter_at_ok]|].
      by rewrite bool_decide_false by done.
  - unfold entries in Hi. assert (n_fields fields = 0%nat) as H0 by lia. assert (i = 0%nat) as -> by lia.
    pose proof (wf_last _ _ _ _ Hwf) as Hl. rewrite H0 in Hl.
    destruct Hit as (it0 & E & [->|[_ (f & Hf & Hr)]]);
      [|rewrite Hl in Hf; by injection Hf as <-].
    rewrite (iter_next_empty fields dest it0) by done. exists false, it0. split; [done|].
    split; [exists 0%nat; split; [done|by apply iter_at_ok]|done].
Qed.

Lemma last_field_loop_ok fuel : ∀ it s,
  on_entry fields dest it → (n_fields fields - pos it < fuel)%nat →
  wp (last_field_loop fuel it) (λ '(count, _, it') s',
    s' = s ∧ 0 <= count ∧ on_entry fields dest it') s.
Proof.
  induction fuel as [|fuel IH]; intros it s Hit Hf; [lia|]. cbn [last_field_loop].
  destruct (wf_placed _ _ _ _ Hwf dest it Hit) as (f & Hp).
  apply wp_bind. eapply field_of_ok; [done|]. cbv zeta.
  destruct (next_on_entry it Hit) as (b & it' & -> & Hit' & Hb). apply wp_bind, wp_ret.
  destruct b; [|by apply wp_ret; split_and!; [|apply Hp|]].
  apply IH; [done|]. specialize (Hb eq_refl). lia.
Qed.

Lemma words_complete_ok k : ∀ i seen s,
  (i + k <= length seen)%nat → wp (words_complete k i seen) (λ _ s', s' = s) s.
Proof.
  induction k as [|k IH]; intros i seen s Hl; cbn [words_complete]; [by apply wp_ret|].
  destruct (lookup_lt_is_Some_2 seen i) as [v ->]; [lia|]. apply wp_bind, wp_ret.
  destruct (negb _); [by apply wp_ret|]. apply IH. lia.
Qed.

Lemma required_present_ok it seen s :
  on_entry fields dest it → length seen = 2%nat →
  wp (required_present fields it seen) (λ _ s', s' = s) s.
Proof.
  intros Hit Hl. unfold required_present. eapply wp_seq.
  { apply last_field_loop_ok; [done|unfold n_fields; lia]. }
  intros [[count ty] it'] s' (-> & Hc & Hit').
  destruct (wf_placed _ _ _ _ Hwf dest it' Hit') as (f & Hp).
  apply wp_bind. eapply field_of_ok; [done|]. cbv zeta.
  set (c1 := if _ && _ then u32 (count + 1) else count).
  assert (0 <= c1) as H1 by (subst c1; destruct (_ && _); [apply u32_range|done]).
  clearbody c1. set (c2 := if PB_MAX_REQUIRED_FIELDS <? c1 then _ else c1).
  assert (0 <= c2 <= 64) as H2.
  { subst c2. unfold PB_MAX_REQUIRED_FIELDS. destruct (Z.ltb_spec 64 c1); lia. }
  clearbody c2. destruct (0 <? c2); [|by apply wp_ret].
  rewrite (Z.shiftr_div_pow2 c2 5) by lia. change (2 ^ 5) with 32.
  change 31 with (Z.ones 5). rewrite Z.land_ones by lia. change (2 ^ 5) with 32.
  eapply wp_seq.
  { apply words_complete_ok. rewrite Hl.
    assert (c2 / 32 <= 2) by (apply Z.div_le_upper_bound; lia). lia. }
  intros whole s' ->. destruct (negb whole); [by apply wp_ret|].
  destruct (Z.eqb_spec (c2 mod 32) 0) as [|Hm]; cbn [negb]; [by apply wp_ret|].
  destruct (lookup_lt_is_Some_2 seen (Z.to_nat (c2 / 32))) as [v ->].
  { rewrite Hl. assert (c2 / 32 < 2) by (Z.div_mod_to_equations; lia). lia. }
  apply wp_bind, wp_ret. by apply wp_ret.
Qed.
End message.

(** * Whole messages *)

Section decode.
Context {W : Type} {UC : UserCode W} {RD : Readers W} {AL : Allocator} (ro : Z → Z → bool).
Implicit Types s : st W.

Lemma with_fixed_count_size_ok a size stream s (m : M W (bool * pb_istream_t)) k :
  sane ro s →
  wp m (λ '(ok, t) s', ran ro a size stream (set_fixed 0 s) ok k t s') (set_fixed 0 s) →
  wp (with_fixed_count_size m) (λ '(ok, t) s',
    ran ro a size stream s ok k t s' ∧ fixed_count_size s' = fixed_count_size s) s.
Proof.
  intros Hs. unfold wp, with_fixed_count_size.
  destruct (m (set_fixed 0 s)) as [[[ok t] s']| |]; [|done..].
  intros ([[B F R] M H] & A & L). split; [|done]. split_and!; [|done|done].
  split; [|done|done]. split; [done|apply Hs|done].
Qed.

(** A message decoder that stays inside and restores the caller's variables. *)
Definition msg_framed (d : msg_decoder) (fields : list pb_field_t) (size : Z) : Prop :=
  ∀ stream dest s, stream_ok stream → sane ro s → mem_valid (mem s) dest size →
  wp (d stream fields dest) (λ '(ok, t) s',
    ran ro dest size stream s ok 0 t s' ∧ fixed_count_size s' = fixed_count_size s) s.

Lemma msg_framed_safe d fields size : msg_framed d fields size → msg_safe ro d fields size.
Proof.
  intros Hd stream dest s Hok Hs Hv. eapply wp_mono; [by apply Hd|]. by intros [ok t] s' [R _].
Qed.

Lemma noinit_body_ok rank n size fields decode noinit :
  wf_msg ro (S rank) size fields = true → (S rank <= n)%nat →
  (∀ size sf, wf_msg ro rank size sf = true → msg_safe ro decode sf size) →
  (∀ size sf, wf_msg ro rank size sf = true → msg_safe ro noinit sf size) →
  msg_framed (noinit_body n decode noinit) fields size.
Proof.
  intros Hwf Hn Hd Hni stream dest s Hok Hs Hv. apply with_fixed_count_size_ok; [done|].
  assert (sane ro (set_fixed 0 s)) as Hs0 by (destruct Hs; by split).
  destruct (begin_entry _ _ _ _ Hwf dest) as (b & it & E & E0 & _).
  rewrite E. apply wp_bind, wp_ret. eapply wp_seq.
  { eapply (decode_loop_ok ro rank n size fields dest decode noinit Hwf Hn Hd Hni stream
      (set_fixed 0 s) Hok Hv); [|cbn; lia].
    split; cbn; [by apply frame_refl|by apply advances_refl| |done|done].
    exists 0%nat. split; [unfold entries; lia|by apply iter_at_ok]. }
  intros [ok d] s1 (F & A & L). destruct ok; cbn [negb]; [|by apply wp_ret].
  specialize (L eq_refl).
  eapply wp_seq; [by eapply fixed_count_incomplete_ok, L|]. intros inc s' ->.
  destruct inc; [apply wp_ret; split_and!; [done|by apply advances_error|done]|].
  eapply wp_seq; [eapply required_present_ok; [exact Hwf|exact Hn|apply L|apply L]|]. intros present s' ->.
  pose proof (adv_left _ _ A).
  destruct present; cbn [negb]; apply wp_ret.
  - split_and!; [done|done|lia].
  - split_and!; [done|by apply advances_error|done].
Qed.

Lemma decode_with_ok rank n size fields noinit :
  wf_msg ro rank size fields = true → (rank <= n)%nat →
  msg_framed noinit fields size → msg_safe ro (decode_with n noinit) fields size.
Proof.
  intros Hwf Hn Hni stream dest s Hok Hs Hv. unfold decode_with.
  eapply wp_seq; [by eapply message_set_to_defaults_ok|]. intros u s1 F. cbn beta in F.
  eapply wp_seq; [apply Hni; [done|by eapply frame_sane|by eapply frame_valid]|].
  intros [ok t] s2 [R _].
  eapply wp_seq with (P := λ _ s', s' = s2).
  { destruct ok; [by apply wp_ret|]. eapply message_release_ok; [done|done|by eapply ran_sane|].
    eapply ran_valid; [exact R|]. by eapply frame_valid. }
  intros u' s' ->. apply wp_ret. by eapply ran_after.
Qed.

Lemma pb_decode_noinit_ok rank : ∀ n size fields,
  wf_msg ro rank size fields = true → (S rank <= n)%nat →
  msg_framed (pb_decode_noinit n) fields size.
Proof.
  induction rank as [|rank IH]; [done|]. intros [|n] size fields Hwf Hn; [lia|].
  cbn [pb_decode_noinit]. eapply noinit_body_ok; [exact Hwf|lia|..]; intros sz sf Hsf.
  - eapply (decode_with_ok rank); [done|lia|]. apply IH; [done|lia].
  - apply msg_framed_safe, IH; [done|lia].
Qed.

Lemma pb_decode_ok rank n size fields :
  wf_msg ro rank size fields = true → (S rank <= n)%nat →
  msg_safe ro (pb_decode n) fields size.
Proof.
  intros Hwf Hn. apply (decode_with_ok rank); [done|lia|]. by eapply pb_decode_noinit_ok.
Qed.
End decode.

(** * Correctness of the message decoder *)
Abbreviation zlen l := (Z.of_nat (length l)).


(** An application whose streams are endless zeros, with the example's types. *)
Definition zeros_app : UserCode unit :=
  {| user_read := λ _ stream count, mret (true, stream, replicate (Z.to_nat count) 0);
     user_write := λ _ _ _, ub;
     user_decode_field := λ _ _ _ _, ub;
     user_encode_field := λ _ _ _ _, ub;
     user_decode_ext := λ _ _ _ _ _, ub;
     user_encode_ext := λ _ _ _, ub;
     fields_at := example_table |}.

#[local] Existing Instance zeros_app.
#[local] Existing Instance bump_allocator.

#[local] Instance zeros_readers : @Readers unit zeros_app.
Proof.
  split. intros f stream count s Hc Hl. apply wp_ret. rewrite length_replicate.
  split_and!; [done|done|lia|lia| |lia|lia]. by apply Forall_replicate.
Qed.

Lemma blank_sane : sane (λ _ _, false) blank_machine.
Proof.
  split; [|done|done].
  apply map_Forall_to_list. vm_compute. repeat constructor; discriminate.
Qed.

Lemma blank_valid : mem_valid (mem blank_machine) Msg_address sizeof_Msg.
Proof. apply (mem_load_valid _ _ 40). by vm_compute; eexists. Qed.

Lemma Msg_wire_ok : stream_ok (pb_istream_from_buffer Msg_wire (zlen Msg_wire)).
Proof.
  split; [by vm_compute|]. intros _. exists Msg_wire. split; [done|].
  split; [by forall_list|cbn; lia].
Qed.

