(* ===== verification/LdbSkip.v ===== *)
(** LevelDB's pseudo-random generator ([util/random.h]), the source of the heights
    of the skip list.

    LevelDB's skip list ([db/skiplist.h]), the structure of its memtable: nodes in
    an arena, the searches, insertion as a sequence of stores, and the iterator.

    A search may run while another thread inserts. So the searches take a
    [view]: the arena as the search finds it at each of its loads. A search
    alone sees the same arena all the time. *)
From S2P Require Import Prelude.
Module Random.

(** The modulus and the multiplier of [Next]. *)
Definition M : Z := 2147483647.
Definition A : Z := 16807.

(** The constructor; the state of a generator is its [seed_]. *)
Definition init (s : Z) : Z :=
  let seed := Z.land s 0x7fffffff in
  if (seed =? 0) || (seed =? 2147483647) then 1 else seed.

(** The value returned is the new [seed_]. *)
Definition Next (seed : Z) : Z :=
  let product := u64 (seed * A) in
  let seed := u32 (u64 (Z.shiftr product 31 + Z.land product M)) in
  if M <? seed then u32 (seed - M) else seed.

(** [(value, seed_)]; a division by zero has no value. *)
Definition Uniform (seed n : Z) : option (Z * Z) :=
  let r := Next seed in
  if u32 n =? 0 then None else Some (r mod u32 n, r).

Definition OneIn (seed n : Z) : option (bool * Z) :=
  '(v, r) ← Uniform seed n; Some (v =? 0, r).

(** [1 << k] is an [int]: undefined from 31 on. *)
Definition Skewed (seed max_log : Z) : option (Z * Z) :=
  '(k, seed) ← Uniform seed (max_log + 1);
  if 30 <? k then None else Uniform seed (Z.shiftl 1 k).

(** The seeds that [Next] never leaves. *)
Definition good (seed : Z) : Prop := 1 <= seed < M.

Lemma init_good s : good (init s).
Proof.
  unfold init, good, M. change 0x7fffffff with (Z.ones 31). rewrite Z.land_ones by lia. change (Z.ones 31) with 2147483647.
  pose proof (Z.mod_pos_bound s (2 ^ 31) ltac:(lia)).
  destruct (Z.eqb_spec (s mod 2 ^ 31) 0); [cbn [orb]; lia|].
  destruct (Z.eqb_spec (s mod 2 ^ 31) 2147483647); cbn [orb]; lia.
Qed.

Lemma good_seed_coprime seed : good seed → (seed * A) mod M ≠ 0.
Proof.
  unfold good, M, A. intros Hs H.
  apply Z.mod_divide in H; [|lia]. rewrite Z.mul_comm in H.
  apply Z.gauss in H; [|reflexivity]. destruct H as [q Hq]. nia.
Qed.

(** On every seed the constructor can produce, the shift-and-add of [Next] is
    multiplication by [A] modulo [M], and leads to such a seed again: the
    sums do not overflow and the comment's claim that [M] itself cannot occur
    holds. *)
Theorem next_exact seed :
  good seed → Next seed = (seed * A) mod M ∧ good (Next seed).
Proof.
  intros Hs. pose proof (good_seed_coprime seed Hs) as Hne.
  pose proof (Z.mod_pos_bound (seed * A) M ltac:(unfold M; lia)) as Hm.
  assert (Next seed = (seed * A) mod M) as E.
  { unfold Next, good in *. unfold A, M in Hne, Hm, Hs |- *.
    rewrite (u64_small (seed * 16807)) by lia. rewrite Z.shiftr_div_pow2 by lia.
    set (p := seed * 16807) in *.
    assert (Z.land p 2147483647 = p mod 2 ^ 31) as -> by (apply (Z.land_ones p 31); lia).
    pose proof (Z.div_mod p (2 ^ 31) ltac:(lia)) as Hp.
    pose proof (Z.mod_pos_bound p (2 ^ 31) ltac:(lia)) as Hr.
    assert (0 <= p / 2 ^ 31 < 16807) as Hq
      by (split; [apply Z.div_pos; lia|apply Z.div_lt_upper_bound; lia]).
    set (q := p / 2 ^ 31) in *. set (r := p mod 2 ^ 31) in *.
    rewrite u64_small, u32_small by lia.
    assert (p mod 2147483647 = (q + r) mod 2147483647) as Ep.
    { rewrite Hp. replace (2 ^ 31 * q + r) with (q + r + q * 2147483647) by lia.
      by rewrite Z.mod_add by lia. }
    rewrite Ep in *. destruct (Z.ltb_spec 2147483647 (q + r)) as [Hlt|Hge].
    - rewrite u32_small by lia. apply (Zmod_unique _ _ 1); lia.
    - assert (q + r ≠ 2147483647) by (intros Heq; by rewrite Heq in Hne).
      symmetry. apply Z.mod_small. lia. }
  split; [done|]. rewrite E. unfold good. lia.
Qed.

Lemma next_exact_witness : good (init 0xdeadbeef) ∧ good (Next (init 0xdeadbeef)).
Proof. split; [exact (init_good _)|]. apply (next_exact _ (init_good _)). Defined.
End Random.

(** * LevelDB's skip list ([db/skiplist *)
(** The comparator: a three-way comparison of keys. *)
Class Comparator (K : Type) := compare_ : K → K → Z.

Module SkipList.

Definition kMaxHeight : nat := 12.

(** A pointer to a node is its number in the arena; [None] is [NULL]. *)
Abbreviation ptr := (option nat).

(** An entry of [next_] is [None] until the first store to it. *)
Record Node (K : Type) := mkNode { node_key : K; next_ : list (option ptr) }.
Arguments mkNode {K} _ _.
Arguments node_key {K} _.
Arguments next_ {K} _.

(** [nodes] is the part of the arena in use; [rnd_] the seed of the generator. *)
Record SkipList (K : Type) := mkList { nodes : list (Node K); max_height_ : nat; rnd_ : Z }.
Arguments mkList {K} _ _ _.
Arguments nodes {K} _.
Arguments max_height_ {K} _.
Arguments rnd_ {K} _.

(** The first node of the arena. *)
Definition head_ : nat := 0.

(** A failed assertion ends the program. *)
Definition assert_ (b : bool) : res unit := if b then Ok tt else UB.

Section skiplist.
Context {K : Type} `{Comparator K}.

(** * Nodes

    [Next] and [SetNext] of a node, and their variants without a barrier, which
    are the same here: stores become visible in the order of the program. *)
Definition Next (l : list (Node K)) (x n : nat) : res ptr :=
  of_option (nd ← l !! x; p ← next_ nd !! n; p).

Definition SetNext (l : list (Node K)) (x n : nat) (p : ptr) : res (list (Node K)) :=
  match l !! x with
  | Some nd =>
      if decide (n < length (next_ nd))%nat
      then Ok (<[x := mkNode (node_key nd) (<[n := Some p]> (next_ nd))]> l)
      else UB
  | None => UB
  end.

Definition key_of (l : list (Node K)) (x : nat) : res K := of_option (node_key <$> l !! x).

(** The new node is the next of the arena; its links are not written yet. *)
Definition NewNode (l : list (Node K)) (key : K) (height : nat) : list (Node K) * nat :=
  (l ++ [mkNode key (replicate height None)], length l).

Definition Equal (a b : K) : bool := compare_ a b =? 0.

Definition KeyIsAfterNode (l : list (Node K)) (key : K) (n : ptr) : res bool :=
  match n with
  | None => Ok false
  | Some x => k ← key_of l x; Ok (compare_ k key <? 0)
  end.

(** * Searches *)

(** What a search finds in the arena when it has [i] units of fuel left: the
    index goes down as time goes on. *)
Definition view : Type := nat → list (Node K).
Definition alone (l : list (Node K)) : view := λ _, l.

(** The array [prev], if the pointer is not null. *)
Definition prev_array : Type := option (list ptr).
Definition set_prev (prev : prev_array) (level x : nat) : res prev_array :=
  match prev with
  | None => Ok None
  | Some a => if decide (level < length a)%nat then Ok (Some (<[level := Some x]> a)) else UB
  end.

(** The [while] loop of [FindGreaterOrEqual]. *)
Fixpoint find_ge_loop (fuel : nat) (v : view) (key : K) (x level : nat) (prev : prev_array)
    : res (ptr * prev_array) :=
  match fuel with
  | O => NoFuel
  | S fuel' =>
      let l := v fuel in
      next ← Next l x level;
      after ← KeyIsAfterNode l key next;
      if (after : bool) then
        match next with
        | Some y => find_ge_loop fuel' v key y level prev
        | None => UB
        end
      else
        prev ← set_prev prev level x;
        match level with
        | O => Ok (next, prev)
        | S level' => find_ge_loop fuel' v key x level' prev
        end
  end.

Definition FindGreaterOrEqual (fuel : nat) (v : view) (max_height : nat) (key : K)
    (prev : prev_array) : res (ptr * prev_array) :=
  find_ge_loop fuel v key head_ (max_height - 1) prev.

Fixpoint find_lt_loop (fuel : nat) (v : view) (key : K) (x level : nat) : res nat :=
  match fuel with
  | O => NoFuel
  | S fuel' =>
      let l := v fuel in
      kx ← key_of l x;
      assert_ ((x =? head_)%nat || (compare_ kx key <? 0));;
      next ← Next l x level;
      stop ← (match next with
              | None => Ok true
              | Some y => ky ← key_of l y; Ok (0 <=? compare_ ky key)
              end);
      if (stop : bool) then
        match level with O => Ok x | S level' => find_lt_loop fuel' v key x level' end
      else
        match next with
        | Some y => find_lt_loop fuel' v key y level
        | None => UB
        end
  end.

Definition FindLessThan (fuel : nat) (v : view) (max_height : nat) (key : K) : res nat :=
  find_lt_loop fuel v key head_ (max_height - 1).

Fixpoint find_last_loop (fuel : nat) (v : view) (x level : nat) : res nat :=
  match fuel with
  | O => NoFuel
  | S fuel' =>
      next ← Next (v fuel) x level;
      match next with
      | None => match level with O => Ok x | S level' => find_last_loop fuel' v x level' end
      | Some y => find_last_loop fuel' v y level
      end
  end.

Definition FindLast (fuel : nat) (v : view) (max_height : nat) : res nat :=
  find_last_loop fuel v head_ (max_height - 1).

(** A search alone makes at most one step per node and one per level. *)
Definition search_fuel (s : SkipList K) : nat := S (length (nodes s) + max_height_ s).

Definition Contains (fuel : nat) (v : view) (max_height : nat) (key : K) : res bool :=
  '(x, _) ← FindGreaterOrEqual fuel v max_height key None;
  match x with
  | None => Ok false
  | Some x => k ← key_of (v 0%nat) x; Ok (Equal key k)
  end.

(** * Construction and insertion *)

Fixpoint random_height_loop (fuel : nat) (height : nat) (seed : Z) : res (nat * Z) :=
  match fuel with
  | O => NoFuel
  | S fuel' =>
      if decide (height < kMaxHeight)%nat then
        let seed := Random.Next seed in
        if seed mod 4 =? 0 then random_height_loop fuel' (S height) seed else Ok (height, seed)
      else Ok (height, seed)
  end.

(** At most eleven turns; the assertions on the result. *)
Definition RandomHeight (seed : Z) : res (nat * Z) :=
  '(height, seed) ← random_height_loop kMaxHeight 1 seed;
  assert_ (bool_decide (0 < height)%nat);;
  assert_ (bool_decide (height <= kMaxHeight)%nat);;
  Ok (height, seed).

(** [for (int i = 0; i < kMaxHeight; i++) head_->SetNext(i, NULL);] *)
Fixpoint null_loop (k i : nat) (l : list (Node K)) : res (list (Node K)) :=
  match k with
  | O => Ok l
  | S k' => l ← SetNext l head_ i None; null_loop k' (S i) l
  end.

(** The constructor; [any] is the key of the head node. *)
Definition init (any : K) : res (SkipList K) :=
  let '(l, _) := NewNode [] any kMaxHeight in
  l ← null_loop kMaxHeight 0 l;
  Ok (mkList l 1 (Random.init 0xdeadbeef)).

(** [for (int i = GetMaxHeight(); i < height; i++) prev[i] = head_;] *)
Fixpoint fill_prev (k i : nat) (prev : list ptr) : res (list ptr) :=
  match k with
  | O => Ok prev
  | S k' =>
      if decide (i < length prev)%nat
      then fill_prev k' (S i) (<[i := Some head_]> prev) else UB
  end.

(** The two stores of a turn of the linking loop: the arena after each. *)
Definition link_stores (l : list (Node K)) (x : nat) (prev : list ptr) (i : nat)
    : res (list (Node K) * list (Node K)) :=
  p ← of_option (mjoin (prev !! i));
  next ← Next l p i;
  l1 ← SetNext l x i next;
  l2 ← SetNext l1 p i (Some x);
  Ok (l1, l2).

(** The arenas after each store of the linking loop, from level [i] on. *)
Fixpoint link_loop (k i : nat) (l : list (Node K)) (x : nat) (prev : list ptr)
    : res (list (list (Node K))) :=
  match k with
  | O => Ok []
  | S k' =>
      '(l1, l2) ← link_stores l x prev i;
      ls ← link_loop k' (S i) l2 x prev;
      Ok (l1 :: l2 :: ls)
  end.

(** [x == NULL || !Equal(key, x->key)]. *)
Definition is_fresh (l : list (Node K)) (key : K) (x : ptr) : res bool :=
  match x with
  | None => Ok true
  | Some x => k ← key_of l x; Ok (negb (Equal key k))
  end.

(** [Insert]: the successive values of the arena and of [max_height_], the list
    before the call first, and the final seed. *)
Definition Insert_trace (s : SkipList K) (key : K)
    : res (list (list (Node K) * nat) * Z) :=
  '(x, prev) ← FindGreaterOrEqual (search_fuel s) (alone (nodes s)) (max_height_ s) key
                 (Some (replicate kMaxHeight None));
  prev ← of_option prev;
  fresh ← is_fresh (nodes s) key x;
  assert_ fresh;;
  '(height, seed) ← RandomHeight (rnd_ s);
  prev ← (if decide (max_height_ s < height)%nat
          then fill_prev (height - max_height_ s) (max_height_ s) prev else Ok prev);
  let max_height := if decide (max_height_ s < height)%nat then height else max_height_ s in
  let '(l, x) := NewNode (nodes s) key height in
  ls ← link_loop height 0 l x prev;
  Ok ((nodes s, max_height_ s) :: (nodes s, max_height) :: (l, max_height)
        :: ((λ l, (l, max_height)) <$> ls), seed).

(** The list after the call. *)
Definition Insert (s : SkipList K) (key : K) : res (SkipList K) :=
  '(trace, seed) ← Insert_trace s key;
  match trace !! pred (length trace) with
  | Some (l, max_height) => Ok (mkList l max_height seed)
  | None => UB
  end.

(** * The iterator: its [node_] *)

Definition Iterator_Valid (node : ptr) : bool := bool_decide (node ≠ None).

Definition Iterator_key (l : list (Node K)) (node : ptr) : res K :=
  match node with Some x => key_of l x | None => UB end.

Definition Iterator_Next (l : list (Node K)) (node : ptr) : res ptr :=
  match node with Some x => Next l x 0 | None => UB end.

(** [if (node_ == list_->head_) node_ = NULL;] *)
Definition not_head (x : nat) : ptr := if (x =? head_)%nat then None else Some x.

Definition Iterator_Prev (s : SkipList K) (node : ptr) : res ptr :=
  match node with
  | Some x =>
      k ← key_of (nodes s) x;
      y ← FindLessThan (search_fuel s) (alone (nodes s)) (max_height_ s) k;
      Ok (not_head y)
  | None => UB
  end.

Definition Iterator_Seek (s : SkipList K) (target : K) : res ptr :=
  '(x, _) ← FindGreaterOrEqual (search_fuel s) (alone (nodes s)) (max_height_ s) target None;
  Ok x.

Definition Iterator_SeekToFirst (s : SkipList K) : res ptr := Next (nodes s) head_ 0.

Definition Iterator_SeekToLast (s : SkipList K) : res ptr :=
  x ← FindLast (search_fuel s) (alone (nodes s)) (max_height_ s);
  Ok (not_head x).
End skiplist.
End SkipList.
