(* ===== verification/LdbSkipLemmas.v ===== *)
(** The representation invariant of the skip list, and the searches: what they
    find, alone and while an insertion is going on.

    Insertion into the skip list: every store of the linking loop keeps the
    invariant. *)
From Stdlib Require Import Sorted.
From S2P Require Import Prelude LdbSkip.
Import SkipList.

(** What the skip list relies on: the comparator is a strict weak order. *)
Class Order (K : Type) `{Comparator K} : Prop := {
  cmp_swap a b : compare_ a b < 0 ↔ 0 < compare_ b a;
  cmp_trans a b c : compare_ a b < 0 → compare_ b c < 0 → compare_ a c < 0;
  cmp_eq a b c : compare_ a b = 0 → compare_ b c < 0 → compare_ a c < 0
}.

Section invariant.
Context {K : Type} `{Order K}.
Implicit Types l : list (Node K).

(** * Keys *)

Definition key_lt l (x y : nat) : Prop :=
  ∃ kx ky, key_of l x = Ok kx ∧ key_of l y = Ok ky ∧ compare_ kx ky < 0.

Definition before l (k : K) (x : nat) : Prop := ∃ kx, key_of l x = Ok kx ∧ compare_ kx k < 0.

Lemma cmp_irrefl a : ¬ compare_ a a < 0.
Proof. intros Ha. apply cmp_swap in Ha as Hb. lia. Qed.

Lemma key_lt_trans l x y z : key_lt l x y → key_lt l y z → key_lt l x z.
Proof.
  intros (a & b & Ea & Eb & L1) (b' & c & Eb' & Ec & L2). rewrite Eb in Eb'. injection Eb' as <-.
  exists a, c. split_and!; [done|done|by eapply cmp_trans].
Qed.

Lemma key_lt_irrefl l x : ¬ key_lt l x x.
Proof.
  intros (a & b & Ea & Eb & L). rewrite Ea in Eb. injection Eb as <-. by eapply cmp_irrefl.
Qed.

Lemma before_lt l k x y : key_lt l x y → before l k y → before l k x.
Proof.
  intros (a & b & Ea & Eb & L) (b' & Eb' & L2). rewrite Eb in Eb'. injection Eb' as <-.
  exists a. split; [done|by eapply cmp_trans].
Qed.

(** * Chains

    The nodes that follow node [x] at level [i]. *)
Fixpoint path l (i x : nat) (c : list nat) : Prop :=
  match c with
  | [] => Next l x i = Ok None
  | y :: c' => Next l x i = Ok (Some y) ∧ path l i y c'
  end.

(** The last node of a chain that starts after [x]. *)
Fixpoint end_of (x : nat) (c : list nat) : nat :=
  match c with [] => x | y :: c' => end_of y c' end.

(** The arena [l] holds a skip list whose level [i] is the chain [C i]. *)
Record rep l (C : nat → list nat) : Prop := {
  rep_path i : (i < kMaxHeight)%nat → path l i head_ (C i);
  rep_sorted i : StronglySorted (key_lt l) (C i);
  rep_levels i x : x ∈ C (S i) → x ∈ C i;
  rep_head : head_ ∉ C 0%nat
}.

Lemma path_end l i x c d : path l i x (c ++ d) → path l i (end_of x c) d.
Proof. revert x. induction c as [|y c IH]; intros x; [done|]. intros [_ Hp]. by apply IH. Qed.

Lemma end_of_app x c y d : end_of x (c ++ y :: d) = end_of y d.
Proof. revert x. induction c as [|z c IH]; intros x; [done|]. apply IH. Qed.

Lemma end_of_in x c : end_of x c = x ∧ c = [] ∨ end_of x c ∈ c.
Proof.
  revert x. induction c as [|y c IH]; intros x; [by left|]. right. cbn.
  destruct (IH y) as [[-> ->]|Hin]; [by left|by right].
Qed.

(** The nodes of a chain exist. *)
Lemma path_key l i x c y : path l i x c → y ∈ c → ∃ k, key_of l y = Ok k.
Proof.
  revert x. induction c as [|z c IH]; intros x; [by intros _ ?%not_elem_of_nil|].
  intros [_ Hp] [->|Hin]%elem_of_cons; [|by eapply IH].
  assert (∃ p, Next l z i = Ok p) as [p Hn] by (destruct c; [|destruct Hp as [Hp _]]; eauto).
  unfold Next, key_of in *. destruct (l !! z) as [nd|]; [|done]. by eexists.
Qed.

Lemma rep_levels_le l C i j x : rep l C → (i <= j)%nat → x ∈ C j → x ∈ C i.
Proof.
  intros Hr Hle. induction Hle as [|j _ IH]; [done|]. intros Hx. by apply IH, (rep_levels _ _ Hr).
Qed.

Lemma rep_not_head l C i x : rep l C → x ∈ C i → x ≠ head_.
Proof.
  intros Hr Hx ->. apply (rep_head _ _ Hr). eapply rep_levels_le; [done| |done]. lia.
Qed.

(** A node of a chain is followed by the rest of the chain. *)
Lemma rep_suffix l C i x :
  rep l C → (i < kMaxHeight)%nat → x = head_ ∨ x ∈ C i →
  ∃ pre suf, C i = pre ++ suf ∧ end_of head_ pre = x ∧ path l i x suf.
Proof.
  intros Hr Hi [->|Hx].
  - exists [], (C i). split_and!; [done|done|by apply (rep_path _ _ Hr)].
  - apply list_elem_of_split in Hx as (c & d & E). exists (c ++ [x]), d.
    rewrite <- app_assoc. cbn. rewrite end_of_app. split_and!; [done|done|].
    pose proof (rep_path _ _ Hr i Hi) as Hp. rewrite E in Hp.
    change (x :: d) with ([x] ++ d) in Hp. rewrite app_assoc in Hp.
    apply path_end in Hp. by rewrite end_of_app in Hp.
Qed.

(** What precedes a node in a sorted chain is smaller. *)
Lemma sorted_app_lt l c x d :
  StronglySorted (key_lt l) (c ++ x :: d) → ∀ y, y ∈ c → key_lt l y x.
Proof.
  intros Hs y Hy. induction c as [|z c IH]; [by apply not_elem_of_nil in Hy|].
  cbn in Hs. apply StronglySorted_inv in Hs as [Hs Hf].
  apply elem_of_cons in Hy as [->|Hy]; [|by apply IH].
  rewrite List.Forall_forall in Hf. apply Hf, in_or_app. right. by left.
Qed.

Lemma sorted_cons_lt l x d :
  StronglySorted (key_lt l) (x :: d) → ∀ y, y ∈ d → key_lt l x y.
Proof.
  intros Hs y Hy. apply StronglySorted_inv in Hs as [_ Hf]. rewrite List.Forall_forall in Hf.
  by apply Hf, list_elem_of_In.
Qed.

Lemma sorted_app_r l c d : StronglySorted (key_lt l) (c ++ d) → StronglySorted (key_lt l) d.
Proof. induction c as [|z c IH]; [done|]. intros [Hs _]%StronglySorted_inv. by apply IH. Qed.

Lemma sorted_app_l l c d : StronglySorted (key_lt l) (c ++ d) → StronglySorted (key_lt l) c.
Proof.
  induction c as [|z c IH]; intros Hs; [constructor|]. cbn in Hs.
  apply StronglySorted_inv in Hs as [Hs Hf]. constructor; [by apply IH|].
  rewrite List.Forall_app in Hf. apply Hf.
Qed.

(** A chain splits into the nodes before a key and the others. *)
Definition splits_at l (k : K) (c pre suf : list nat) : Prop :=
  c = pre ++ suf ∧ Forall (before l k) pre ∧ Forall (λ y, ¬ before l k y) suf.

Lemma splits_intro l k pre suf :
  StronglySorted (key_lt l) (pre ++ suf) →
  pre = [] ∨ before l k (end_of head_ pre) →
  (∀ y d, suf = y :: d → ¬ before l k y) → splits_at l k (pre ++ suf) pre suf.
Proof.
  intros Hs Hpre Hsuf. split_and!; [done| |].
  - destruct Hpre as [->|Hb]; [constructor|].
    destruct pre as [|z c _] using rev_ind; [constructor|]. rewrite end_of_app in Hb. cbn in Hb.
    apply List.Forall_app. split; [|by repeat constructor].
    apply List.Forall_forall. intros y Hy%list_elem_of_In. rewrite <- app_assoc in Hs.
    eapply before_lt; [by eapply sorted_app_lt|done].
  - destruct suf as [|y d]; [constructor|]. specialize (Hsuf y d eq_refl).
    apply sorted_app_r in Hs. constructor; [done|]. apply List.Forall_forall.
    intros z Hz%list_elem_of_In Hb. apply Hsuf. eapply before_lt; [by eapply sorted_cons_lt|done].
Qed.

(** * Position in a chain, the measure of a search *)

Definition at_pos (F : list nat) (x p : nat) : Prop :=
  match p with O => x = head_ | S q => F !! q = Some x end.

Lemma at_pos_bound F x p : at_pos F x p → (p <= length F)%nat.
Proof. destruct p; [lia|]. intros Hp%lookup_lt_Some. lia. Qed.

Lemma sorted_lookup_lt l c i j x y :
  StronglySorted (key_lt l) c → c !! i = Some x → c !! j = Some y → (i < j)%nat → key_lt l x y.
Proof.
  intros Hs Hi Hj Hlt. rewrite <- (take_drop_middle c j y Hj) in Hs.
  eapply sorted_app_lt; [exact Hs|]. apply list_elem_of_lookup. exists i.
  by rewrite lookup_take_lt.
Qed.

Lemma at_pos_step l F x p y :
  StronglySorted (key_lt l) F → at_pos F x p → y ∈ F → x = head_ ∨ key_lt l x y →
  head_ ∉ F → ∃ q, (p < q)%nat ∧ at_pos F y q.
Proof.
  intros Hs Hp Hy Hxy Hh. apply list_elem_of_lookup in Hy as [j Hj]. exists (S j).
  split; [|done]. destruct p as [|i]; [lia|]. cbn in Hp.
  destruct Hxy as [->|Hlt]; [by destruct Hh; eapply list_elem_of_lookup_2|].
  destruct (decide (i < j)%nat); [lia|]. exfalso.
  destruct (decide (i = j)) as [->|].
  - rewrite Hp in Hj. injection Hj as ->. by eapply key_lt_irrefl.
  - eapply (key_lt_irrefl l x), key_lt_trans; [exact Hlt|].
    eapply (sorted_lookup_lt l F j i); [done|done|done|lia].
Qed.

(** * Searches

    While a search runs, nodes may be added to the chains, and nothing else
    changes. *)
Record growing (v : view) (D : nat → nat → list nat) : Prop := {
  grow_rep t : rep (v t) (D t);
  grow_chain t i x : x ∈ D (S t) i → x ∈ D t i;
  grow_key t x k : key_of (v (S t)) x = Ok k → key_of (v t) x = Ok k
}.

Lemma growing_alone l C : rep l C → growing (alone l) (λ _, C).
Proof. by split. Qed.

Section search.
Context (v : view) (D : nat → nat → list nat) (Hg : growing v D) (key : K).

Lemma grow_chain_le t t' i x : (t' <= t)%nat → x ∈ D t i → x ∈ D t' i.
Proof. induction 1 as [|t _ IH]; [done|]. intros Hx. by apply IH, (grow_chain _ _ Hg). Qed.

Lemma grow_key_le t t' x k : (t' <= t)%nat → key_of (v t) x = Ok k → key_of (v t') x = Ok k.
Proof. induction 1 as [|t _ IH]; [done|]. intros Hx. by apply IH, (grow_key _ _ Hg). Qed.

Lemma grow_before t t' x : (t' <= t)%nat → before (v t) key x → before (v t') key x.
Proof. intros Hle (k & Ek & L). exists k. split; [by eapply grow_key_le|done]. Qed.

Lemma grow_key_lt t t' x y : (t' <= t)%nat → key_lt (v t) x y → key_lt (v t') x y.
Proof.
  intros Hle (a & b & Ea & Eb & L). exists a, b. split_and!; [by eapply grow_key_le..|done].
Qed.

(** A node the search has reached at a level. *)
Definition reached (t x level : nat) : Prop := x = head_ ∨ (x ∈ D t level ∧ before (v t) key x).

Lemma reached_later t t' x level : (t' <= t)%nat → reached t x level → reached t' x level.
Proof.
  intros Hle [->|[Hx Hb]]; [by left|right]. split; [by eapply grow_chain_le|by eapply grow_before].
Qed.

Lemma reached_down t x level : reached t x (S level) → reached t x level.
Proof. intros [->|[Hx Hb]]; [by left|right]. split; [by apply (rep_levels _ _ (grow_rep _ _ Hg t))|done]. Qed.

(** One load of a search: the node it stands on and what follows. *)
Lemma search_load t x level :
  (level < kMaxHeight)%nat → reached t x level →
  ∃ pre suf, D t level = pre ++ suf ∧ end_of head_ pre = x ∧ path (v t) level x suf ∧
    (pre = [] ∨ before (v t) key (end_of head_ pre)) ∧
    Next (v t) x level = Ok (head suf) ∧
    (∀ y d, suf = y :: d → y ∈ D t level ∧ (∃ k, key_of (v t) y = Ok k) ∧
       (x = head_ ∨ key_lt (v t) x y)).
Proof.
  intros Hi Hx. pose proof (grow_rep _ _ Hg t) as Hr.
  assert (x = head_ ∨ x ∈ D t level) as Hx' by (destruct Hx as [?|[? _]]; auto).
  destruct (rep_suffix _ _ _ _ Hr Hi Hx') as (pre & suf & E & He & Hp).
  exists pre, suf. split_and!; [done|done|done| |by destruct suf as [|y d]; [|destruct Hp]|].
  - destruct (end_of_in head_ pre) as [[_ ->]|Hin]; [by left|]. right.
    destruct Hx as [->|[_ Hb]]; [|by rewrite He]. exfalso.
    eapply (rep_not_head _ _ level); [exact Hr| |exact He]. rewrite E. apply elem_of_app. by left.
  - intros y d ->. split_and!.
    + rewrite E. apply elem_of_app. right. by left.
    + eapply path_key; [exact Hp|by left].
    + destruct (end_of_in head_ pre) as [[Eh _]|Hin]; [left; congruence|right].
      pose proof (rep_sorted _ _ Hr level) as Hs. rewrite E in Hs.
      eapply sorted_app_lt; [exact Hs|]. by rewrite <- He.
Qed.

(** Moving forward brings the search closer to the end of level 0. *)
Lemma reached_step t t' x level y p :
  (t' <= t)%nat → at_pos (D 0%nat 0%nat) x p → y ∈ D t level → x = head_ ∨ key_lt (v t) x y →
  ∃ q, (p < q)%nat ∧ at_pos (D 0%nat 0%nat) y q.
Proof.
  intros Hle Hp Hy Hxy. pose proof (grow_rep _ _ Hg 0%nat) as Hr.
  eapply (at_pos_step (v 0%nat)); [apply (rep_sorted _ _ Hr)|exact Hp| | |apply (rep_head _ _ Hr)].
  - eapply grow_chain_le; [|eapply (rep_levels_le _ _ 0 level); [apply (grow_rep _ _ Hg)| |exact Hy]]; lia.
  - destruct Hxy as [->|Hlt]; [by left|right]. eapply grow_key_lt; [|exact Hlt]. lia.
Qed.

(** The entries of [prev] that a search from [level] down has filled in. *)
Definition prev_filled (level : nat) (prev prev' : prev_array) : Prop :=
  match prev, prev' with
  | None, None => True
  | Some a, Some a' =>
      length a' = length a ∧ (∀ i, (level < i)%nat → a' !! i = a !! i) ∧
      ∀ i, (i <= level)%nat → ∃ t pre suf,
        splits_at (v t) key (D t i) pre suf ∧ a' !! i = Some (Some (end_of head_ pre))
  | _, _ => False
  end.

Definition has_room (level : nat) (prev : prev_array) : Prop :=
  match prev with Some a => (level < length a)%nat | None => True end.

Lemma set_prev_ok level x prev t pre suf :
  has_room level prev → splits_at (v t) key (D t level) pre suf → end_of head_ pre = x →
  ∃ prev1, set_prev prev level x = Ok prev1 ∧
    (∀ j, (j < level)%nat → has_room j prev1) ∧
    (level = 0%nat → prev_filled level prev prev1) ∧
    (∀ j prev', level = S j → prev_filled j prev1 prev' → prev_filled level prev prev').
Proof.
  intros Hroom Hsp <-. destruct prev as [a|]; cbn in *.
  2:{ exists None. split_and!; try done. }
  rewrite decide_True by done. eexists. split; [done|].
  split_and!; [intros j Hj; cbn; rewrite length_insert; lia|..].
  - intros ->. split_and!; [apply length_insert| |].
    + intros i Hi. apply list_lookup_insert_ne. lia.
    + intros i Hi. assert (i = 0%nat) as -> by lia. exists t, pre, suf. split; [done|].
      by apply list_lookup_insert_eq.
  - intros j prev' -> Hf. destruct prev' as [a'|]; [|done]. destruct Hf as (Hl & Hhi & Hlo).
    rewrite length_insert in Hl. split_and!; [done| |].
    + intros i Hi. rewrite Hhi by lia. apply list_lookup_insert_ne. lia.
    + intros i Hi. destruct (decide (i = S j)) as [->|]; [|apply Hlo; lia].
      exists t, pre, suf. split; [done|]. rewrite Hhi by lia. by apply list_lookup_insert_eq.
Qed.

(** [FindGreaterOrEqual] returns the first node that is not before the key, as of
    its last load; [prev] is the last node before the key at each level. *)
Lemma find_ge_loop_ok fuel : ∀ x level p prev,
  (level < kMaxHeight)%nat → at_pos (D 0%nat 0%nat) x p →
  (level + (length (D 0%nat 0%nat) - p) < fuel)%nat → reached fuel x level → has_room level prev →
  ∃ t pre suf prev', find_ge_loop fuel v key x level prev = Ok (head suf, prev') ∧
    (t <= fuel)%nat ∧ splits_at (v t) key (D t 0%nat) pre suf ∧ prev_filled level prev prev'.
Proof.
  induction fuel as [|fuel IH]; intros x level p prev Hi Hp Hf Hx Hroom; [lia|].
  destruct (search_load _ _ _ Hi Hx) as (pre & suf & E & He & Hpath & Hpre & Hnext & Hsuf).
  cbn [find_ge_loop]. rewrite Hnext. unfold mbind, res_bind.
  assert ((∀ y d, suf = y :: d → ¬ before (v (S fuel)) key y) →
    splits_at (v (S fuel)) key (D (S fuel) level) pre suf) as Hsplit.
  { intros Hno. rewrite E. apply splits_intro; [|done|done].
    rewrite <- E. apply (rep_sorted _ _ (grow_rep _ _ Hg _)). }
  assert (splits_at (v (S fuel)) key (D (S fuel) level) pre suf →
    ∃ t pre0 suf0 prev', match set_prev prev level x with
      | Ok prev => match level with
                   | O => Ok (head suf, prev)
                   | S level' => find_ge_loop fuel v key x level' prev
                   end
      | UB => UB | NoFuel => NoFuel end = Ok (head suf0, prev') ∧
    (t <= S fuel)%nat ∧ splits_at (v t) key (D t 0%nat) pre0 suf0 ∧ prev_filled level prev prev')
    as Hdown.
  { intros Hsp. destruct (set_prev_ok level x prev _ _ _ Hroom Hsp He)
      as (prev1 & -> & Hroom1 & Hfill0 & Hfill). destruct level as [|level].
    - exists (S fuel), pre, suf, prev1. split_and!; [done|lia|done|by apply Hfill0].
    - destruct (IH x level p prev1) as (t & pre0 & suf0 & prev' & -> & Ht & Hs0 & Hf0);
        [lia|done|lia| |apply Hroom1; lia|].
      { apply reached_down. eapply (reached_later (S fuel)); [lia|done]. }
      exists t, pre0, suf0, prev'. split_and!; [done|lia|done|by eapply Hfill]. }
  destruct suf as [|y d]; cbn [head KeyIsAfterNode].
  { apply Hdown, Hsplit. by intros. }
  destruct (Hsuf y d eq_refl) as (Hy & [ky Hky] & Hlt).
  rewrite Hky. unfold mbind, res_bind.
  destruct (Z.ltb_spec (compare_ ky key) 0) as [Hb|Hb].
  - destruct (reached_step (S fuel) fuel x level y p ltac:(lia) Hp Hy Hlt) as (q & Hq & Hpos).
    pose proof (at_pos_bound _ _ _ Hpos).
    destruct (IH y level q prev) as (t & pre0 & suf0 & prev' & -> & Ht & Hs0 & Hf0);
      [done|done|lia| |done|].
    { apply (reached_later (S fuel)); [lia|]. right. split; [done|by exists ky]. }
    exists t, pre0, suf0, prev'. split_and!; [done|lia|done|done].
  - apply Hdown, Hsplit. intros y' d' [= <- <-] (k & Ek & Lk). rewrite Hky in Ek.
    injection Ek as <-. lia.
Qed.

Lemma next_key l x i p : Next l x i = Ok p → ∃ k, key_of l x = Ok k.
Proof. unfold Next, key_of. destruct (l !! x); [by eexists|done]. Qed.

Lemma reached_key t x level k :
  reached t x level → key_of (v t) x = Ok k →
  ((x =? head_)%nat || (compare_ k key <? 0)) = true.
Proof.
  intros [->|[_ (k' & Ek & L)]] E; [done|]. rewrite Ek in E. injection E as <-.
  apply orb_true_intro. right. by apply Z.ltb_lt.
Qed.

(** [FindLessThan] returns the last node before the key. *)
Lemma find_lt_loop_ok fuel : ∀ x level p,
  (level < kMaxHeight)%nat → at_pos (D 0%nat 0%nat) x p →
  (level + (length (D 0%nat 0%nat) - p) < fuel)%nat → reached fuel x level →
  ∃ t pre suf, find_lt_loop fuel v key x level = Ok (end_of head_ pre) ∧
    (t <= fuel)%nat ∧ splits_at (v t) key (D t 0%nat) pre suf.
Proof.
  induction fuel as [|fuel IH]; intros x level p Hi Hp Hf Hx; [lia|].
  destruct (search_load _ _ _ Hi Hx) as (pre & suf & E & He & Hpath & Hpre & Hnext & Hsuf).
  destruct (next_key _ _ _ _ Hnext) as [kx Hkx]. cbn [find_lt_loop].
  rewrite Hkx. unfold mbind, res_bind. rewrite (reached_key _ _ _ _ Hx Hkx), Hnext. cbn [assert_].
  assert ((∀ y d, suf = y :: d → ¬ before (v (S fuel)) key y) →
    ∃ t pre0 suf0, match level with O => Ok x | S level' => find_lt_loop fuel v key x level' end
      = Ok (end_of head_ pre0) ∧
    (t <= S fuel)%nat ∧ splits_at (v t) key (D t 0%nat) pre0 suf0) as Hdown.
  { intros Hno. destruct level as [|level].
    - exists (S fuel), pre, suf. split_and!; [by rewrite He|lia|]. rewrite E.
      apply splits_intro; [|done|done]. rewrite <- E. apply (rep_sorted _ _ (grow_rep _ _ Hg _)).
    - destruct (IH x level p) as (t & pre0 & suf0 & -> & Ht & Hs0); [lia|done|lia| |].
      { apply reached_down. eapply (reached_later (S fuel)); [lia|done]. }
      exists t, pre0, suf0. split_and!; [done|lia|done]. }
  destruct suf as [|y d]; cbn [head]; [apply Hdown; by intros|].
  destruct (Hsuf y d eq_refl) as (Hy & [ky Hky] & Hlt). rewrite Hky.
  destruct (Z.leb_spec 0 (compare_ ky key)) as [Hb|Hb].
  - apply Hdown. intros y' d' [= <- <-] (k & Ek & Lk). rewrite Hky in Ek. injection Ek as <-. lia.
  - destruct (reached_step (S fuel) fuel x level y p ltac:(lia) Hp Hy Hlt) as (q & Hq & Hpos).
    pose proof (at_pos_bound _ _ _ Hpos).
    destruct (IH y level q) as (t & pre0 & suf0 & -> & Ht & Hs0); [done|done|lia| |].
    { apply (reached_later (S fuel)); [lia|]. right. split; [done|by exists ky]. }
    exists t, pre0, suf0. split_and!; [done|lia|done].
Qed.
End search.

(** [FindLast] returns the last node of level 0. *)
Lemma find_last_loop_ok v D fuel : growing v D → ∀ x level p,
  (level < kMaxHeight)%nat → at_pos (D 0%nat 0%nat) x p →
  (level + (length (D 0%nat 0%nat) - p) < fuel)%nat → x = head_ ∨ x ∈ D fuel level →
  ∃ t, find_last_loop fuel v x level = Ok (end_of head_ (D t 0%nat)) ∧ (t <= fuel)%nat.
Proof.
  intros Hg. induction fuel as [|fuel IH]; intros x level p Hi Hp Hf Hx; [lia|].
  pose proof (grow_rep _ _ Hg (S fuel)) as Hr.
  destruct (rep_suffix _ _ _ _ Hr Hi Hx) as (pre & suf & E & He & Hpath).
  cbn [find_last_loop]. destruct suf as [|y d].
  - cbn in Hpath. rewrite Hpath. unfold mbind, res_bind. rewrite app_nil_r in E.
    destruct level as [|level].
    + exists (S fuel). rewrite E, He. split; [done|lia].
    + destruct (IH x level p) as (t & -> & Ht); [lia|done|lia| |exists t; split; [done|lia]].
      destruct Hx as [->|Hx]; [by left|right]. by apply (grow_chain _ _ Hg), (rep_levels _ _ Hr).
  - destruct Hpath as [Hn _]. rewrite Hn. unfold mbind, res_bind.
    assert (y ∈ D (S fuel) level) as Hy by (rewrite E; apply elem_of_app; right; by left).
    assert (x = head_ ∨ key_lt (v (S fuel)) x y) as Hlt.
    { destruct (end_of_in head_ pre) as [[Eh _]|Hin]; [left; congruence|right].
      pose proof (rep_sorted _ _ Hr level) as Hs. rewrite E in Hs.
      eapply sorted_app_lt; [exact Hs|]. by rewrite <- He. }
    destruct (reached_step v D Hg (S fuel) fuel x level y p ltac:(lia) Hp Hy Hlt) as (q & Hq & Hpos).
    pose proof (at_pos_bound _ _ _ Hpos).
    destruct (IH y level q) as (t & -> & Ht); [done|done|lia| |exists t; split; [done|lia]].
    right. by apply (grow_chain _ _ Hg).
Qed.
End invariant.

(** * Insertion into the skip list *)
Import SkipList.

Section insert.
Context {K : Type} `{Order K}.
Implicit Types l : list (Node K).

(** * Stores *)

Definition height_of l (x : nat) : option nat := (λ nd, length (next_ nd)) <$> l !! x.

(** The arena after a store to link [n] of node [x]. *)
Record stored l l' (x n : nat) (p : ptr) : Prop := {
  stored_next y m : Next l' y m = if decide (y = x ∧ m = n) then Ok p else Next l y m;
  stored_key y : key_of l' y = key_of l y;
  stored_height y : height_of l' y = height_of l y
}.

Lemma set_next_ok l x n p h :
  height_of l x = Some h → (n < h)%nat → ∃ l', SetNext l x n p = Ok l' ∧ stored l l' x n p.
Proof.
  unfold height_of, SetNext. destruct (l !! x) as [nd|] eqn:E; cbn; [|done].
  intros [= <-] Hn. rewrite decide_True by done. eexists. split; [done|].
  assert (x < length l)%nat as Hx by (by eapply lookup_lt_Some).
  split; intros y; [intros m|..]; unfold Next, key_of, height_of;
    (destruct (decide (y = x)) as [->|Hne];
     [rewrite list_lookup_insert_eq by done|rewrite list_lookup_insert_ne by done]); cbn.
  - rewrite E. cbn. destruct (decide (m = n)) as [->|Hm].
    + rewrite decide_True by done. by rewrite list_lookup_insert_eq.
    + rewrite decide_False by (by intros [_ ?]). by rewrite list_lookup_insert_ne by done.
  - by rewrite decide_False by (by intros [? _]).
  - by rewrite E.
  - done.
  - rewrite E. cbn. by rewrite length_insert.
  - done.
Qed.

Lemma next_height l x n p : Next l x n = Ok p → ∃ h, height_of l x = Some h ∧ (n < h)%nat.
Proof.
  unfold Next, height_of. destruct (l !! x) as [nd|]; cbn; [|done].
  destruct (next_ nd !! n) as [q|] eqn:E; cbn; [|done]. intros _. eexists. split; [done|].
  by eapply lookup_lt_Some.
Qed.

(** * Paths after a store *)

Lemma path_ext l l' i x c :
  (∀ y, y = x ∨ y ∈ c → Next l' y i = Next l y i) → path l i x c → path l' i x c.
Proof.
  revert x. induction c as [|y c IH]; intros x Hn; cbn.
  - intros Hp. rewrite Hn; [done|by left].
  - intros [Hx Hp]. split; [rewrite Hn; [done|by left]|]. apply IH; [|done].
    intros z [->|Hz]; apply Hn; right; [by left|by right].
Qed.

Lemma path_link l l' i h x pre suf :
  path l i h (pre ++ suf) → NoDup (h :: pre ++ suf) → Next l' x i = Ok (head suf) →
  Next l' (end_of h pre) i = Ok (Some x) → x ∉ h :: pre ++ suf →
  (∀ y, y ≠ x → y ≠ end_of h pre → Next l' y i = Next l y i) → path l' i h (pre ++ x :: suf).
Proof.
  revert h. induction pre as [|z pre IH]; intros h Hp Hnd Hx He Hni Hn; cbn in *.
  - split; [done|]. assert (path l' i h suf → path l' i x suf) as Hswap.
    { destruct suf as [|y d]; cbn; [by rewrite Hx|]. rewrite Hx. by intros [_ ?]. }
    apply list.NoDup_cons in Hnd as [Hh Hnd]. apply not_elem_of_cons in Hni as [Hxh Hxs].
    destruct suf as [|y d]; [by cbn|]. cbn. split; [done|]. destruct Hp as [_ Hp].
    apply (path_ext l); [|done]. intros w Hw.
    assert (w ∈ y :: d) as Hin by (by apply elem_of_cons). apply Hn; intros ->; done.
  - destruct Hp as [Hz Hp]. apply list.NoDup_cons in Hnd as [Hh Hnd].
    apply not_elem_of_cons in Hni as [Hxh Hxs]. split; [|by apply IH].
    rewrite Hn; [done|congruence|]. intros ->. apply Hh.
    destruct (end_of_in z pre) as [[-> _]|Hin]; [by left|]. right. apply elem_of_app. by left.
Qed.

(** * Sorted chains *)

Lemma sorted_nodup l c : StronglySorted (key_lt l) c → NoDup c.
Proof.
  induction 1 as [|x c Hs IH Hf]; [constructor|]. constructor; [|done].
  intros Hx. rewrite List.Forall_forall in Hf. eapply (key_lt_irrefl l x), Hf.
  by apply list_elem_of_In.
Qed.

Lemma sorted_insert l pre x suf :
  StronglySorted (key_lt l) (pre ++ suf) → (∀ y, y ∈ pre → key_lt l y x) →
  (∀ z, z ∈ suf → key_lt l x z) → StronglySorted (key_lt l) (pre ++ x :: suf).
Proof.
  induction pre as [|y pre IH]; cbn; intros Hs Hpre Hsuf.
  - constructor; [done|]. apply List.Forall_forall. intros z Hz%list_elem_of_In. by apply Hsuf.
  - apply StronglySorted_inv in Hs as [Hs Hf]. constructor.
    + apply IH; [done| |done]. intros w Hw. apply Hpre. by right.
    + apply List.Forall_app in Hf as [Hf1 Hf2]. apply List.Forall_app. split; [done|].
      constructor; [|done]. apply Hpre. by left.
Qed.

Lemma sorted_ext l l' c :
  (∀ y, key_of l' y = key_of l y) → StronglySorted (key_lt l) c → StronglySorted (key_lt l') c.
Proof.
  intros Hk. induction 1 as [|x c Hs IH Hf]; constructor; [done|].
  eapply List.Forall_impl; [|exact Hf]. intros y (a & b & Ea & Eb & L). exists a, b.
  by rewrite !Hk.
Qed.

(** Where a key belongs in a chain. *)
Definition beforeb l (k : K) (x : nat) : bool :=
  match key_of l x with Ok kx => compare_ kx k <? 0 | _ => false end.

Lemma beforeb_spec l k x : beforeb l k x = true ↔ before l k x.
Proof.
  unfold beforeb, before. destruct (key_of l x) as [kx| |]; [|by split; [|intros (? & ? & _)]..].
  rewrite Z.ltb_lt. split; [by exists kx|]. intros (k' & [= <-] & L). done.
Qed.

Fixpoint cut l (k : K) (c : list nat) : list nat * list nat :=
  match c with
  | [] => ([], [])
  | x :: c' => if beforeb l k x then let '(pre, suf) := cut l k c' in (x :: pre, suf)
               else ([], c)
  end.

Lemma splits_at_cut l k c pre suf : splits_at l k c pre suf → cut l k c = (pre, suf).
Proof.
  intros (-> & Hpre & Hsuf). induction Hpre as [|x pre Hx Hpre IH]; cbn.
  - destruct Hsuf as [|y suf Hy _]; [done|]. cbn. destruct (beforeb l k y) eqn:E; [|done].
    by apply beforeb_spec in E.
  - apply beforeb_spec in Hx as ->. by rewrite IH.
Qed.

Lemma cut_splits l k c :
  StronglySorted (key_lt l) c → splits_at l k c (cut l k c).1 (cut l k c).2.
Proof.
  induction 1 as [|x c Hs IH Hf]; [by repeat constructor|]. cbn.
  destruct (beforeb l k x) eqn:E.
  - destruct (cut l k c) as [pre suf]. destruct IH as (Ec & Hpre & Hsuf). cbn in *.
    split_and!; [by rewrite Ec|constructor; [by apply beforeb_spec|done]|done].
  - split_and!; cbn; [done|constructor|]. constructor.
    + intros Hb. apply beforeb_spec in Hb. congruence.
    + rewrite List.Forall_forall in Hf. apply List.Forall_forall. intros y Hy Hb.
      assert (before l k x) as Hbx by (eapply before_lt; [by apply Hf|done]).
      apply beforeb_spec in Hbx. congruence.
Qed.

(** * Linking *)

Definition inserted l (k : K) (x : nat) (c : list nat) : list nat :=
  (cut l k c).1 ++ x :: (cut l k c).2.

(** The chains once the levels below [i] are linked. *)
Definition partial l (k : K) (x : nat) (C : nat → list nat) (i : nat) : nat → list nat :=
  λ j, if decide (j < i)%nat then inserted l k x (C j) else C j.

Section link.
(** The arena with the new node, not linked yet. *)
Context (l0 : list (Node K)) (C : nat → list nat) (key : K) (x h : nat).
Context (Hrep : rep l0 C) (Hkey : key_of l0 x = Ok key) (Hxh : x ≠ head_) (Hxc : x ∉ C 0%nat).
Context (Hfresh : ∀ y ky, y ∈ C 0%nat → key_of l0 y = Ok ky → compare_ ky key ≠ 0).
Context (Hh : (h <= kMaxHeight)%nat).

Abbreviation pre i := (cut l0 key (C i)).1.
Abbreviation suf i := (cut l0 key (C i)).2.

Lemma chain_cut i : splits_at l0 key (C i) (pre i) (suf i).
Proof. apply cut_splits, (rep_sorted _ _ Hrep). Qed.

Lemma chain_zero i y : y ∈ C i → y ∈ C 0%nat.
Proof. apply (rep_levels_le l0 C 0 i y Hrep). lia. Qed.

Lemma new_not_in i : x ∉ C i.
Proof. intros Hx. by apply Hxc, (chain_zero i). Qed.

Lemma inserted_in i y : y ∈ inserted l0 key x (C i) ↔ y = x ∨ y ∈ C i.
Proof.
  unfold inserted. destruct (chain_cut i) as (E & _). rewrite E at 3.
  rewrite !elem_of_app, elem_of_cons. tauto.
Qed.

Lemma partial_in i j y : y ∈ C j → y ∈ partial l0 key x C i j.
Proof. unfold partial. case_decide; [|done]. intros Hy. apply inserted_in. by right. Qed.

Lemma inserted_sorted i : StronglySorted (key_lt l0) (inserted l0 key x (C i)).
Proof.
  destruct (chain_cut i) as (E & Hpre & Hsuf). unfold inserted. apply sorted_insert.
  - rewrite <- E. apply (rep_sorted _ _ Hrep).
  - intros y Hy. rewrite list.Forall_forall in Hpre. destruct (Hpre y Hy) as (ky & Eky & L).
    by exists ky, key.
  - intros z Hz. rewrite list.Forall_forall in Hsuf. specialize (Hsuf z Hz).
    assert (z ∈ C i) as Hzc by (rewrite E; apply elem_of_app; by right).
    apply chain_zero in Hzc as Hz0.
    destruct (path_key l0 0 head_ (C 0%nat) z) as [kz Ekz];
      [by apply (rep_path _ _ Hrep); unfold kMaxHeight; lia|done|].
    exists key, kz. split_and!; [done|done|]. apply cmp_swap.
    pose proof (Hfresh z kz Hz0 Ekz).
    destruct (Z.lt_ge_cases (compare_ kz key) 0); [|lia]. destruct Hsuf. by exists kz.
Qed.

(** The invariant of the linking loop, before level [i]. *)
Record linked (i : nat) l : Prop := {
  linked_rep : rep l (partial l0 key x C i);
  linked_key y : key_of l y = key_of l0 y;
  linked_height : height_of l x = Some h
}.

Lemma partial_levels i j y : y ∈ partial l0 key x C i (S j) → y ∈ partial l0 key x C i j.
Proof.
  unfold partial. do 2 case_decide; try lia; intros Hy.
  - apply inserted_in. apply inserted_in in Hy as [->|Hy]; [by left|right].
    by apply (rep_levels _ _ Hrep).
  - apply inserted_in. right. by apply (rep_levels _ _ Hrep).
  - by apply (rep_levels _ _ Hrep).
Qed.

Lemma partial_head i : head_ ∉ partial l0 key x C i 0.
Proof.
  unfold partial. case_decide; [|apply (rep_head _ _ Hrep)].
  intros [He|Hin]%inserted_in; [by apply Hxh|by apply (rep_head _ _ Hrep)].
Qed.

Lemma partial_sorted i j l :
  (∀ y, key_of l y = key_of l0 y) → StronglySorted (key_lt l) (partial l0 key x C i j).
Proof.
  intros Hk. apply (sorted_ext l0); [done|]. unfold partial.
  case_decide; [apply inserted_sorted|apply (rep_sorted _ _ Hrep)].
Qed.

(** A store to level [i] of a node that is not in a chain does not change it. *)
Lemma stored_path l l' y i p j z c :
  stored l l' y i p → (j = i → y ≠ z ∧ y ∉ c) → path l j z c → path l' j z c.
Proof.
  intros Hst Hne. apply path_ext. intros w Hw. rewrite (stored_next _ _ _ _ _ Hst).
  rewrite decide_False; [done|]. intros [-> ->]. destruct (Hne eq_refl) as [H1 H2].
  by destruct Hw as [->|Hw].
Qed.

(** The two stores of a turn. *)
Lemma link_stores_ok i l prev :
  (i < h)%nat → linked i l → prev !! i = Some (Some (end_of head_ (pre i))) →
  ∃ l1 l2, link_stores l x prev i = Ok (l1, l2) ∧ linked i l1 ∧ linked (S i) l2.
Proof.
  intros Hi [Hr Hk Hht] Hp. destruct (chain_cut i) as (E & _). unfold link_stores.
  assert (partial l0 key x C i i = C i) as Ei by (unfold partial; by rewrite decide_False by lia).
  pose proof (rep_path _ _ Hr i ltac:(lia)) as Hpath. rewrite Ei, E in Hpath.
  assert (Next l (end_of head_ (pre i)) i = Ok (head (suf i))) as Hnext.
  { apply path_end in Hpath. by destruct (suf i); [|destruct Hpath]. }
  rewrite Hp. cbn [mjoin option_join of_option]. unfold mbind, res_bind. rewrite Hnext.
  destruct (set_next_ok l x i (head (suf i)) h Hht Hi) as (l1 & -> & St1).
  destruct (next_height _ _ _ _ Hnext) as (hp & Ehp & Hip).
  rewrite <- (stored_height _ _ _ _ _ St1) in Ehp.
  destruct (set_next_ok l1 (end_of head_ (pre i)) i (Some x) hp Ehp Hip) as (l2 & -> & St2).
  assert (end_of head_ (pre i) ≠ x) as Hpx.
  { destruct (end_of_in head_ (pre i)) as [[-> _]|Hin]; [by apply not_eq_sym|]. intros Ex.
    apply (new_not_in i). rewrite E, <- Ex. apply elem_of_app. by left. }
  assert (∀ y, key_of l1 y = key_of l0 y) as Hk1 by (intros y; by rewrite (stored_key _ _ _ _ _ St1)).
  assert (∀ y, key_of l2 y = key_of l0 y) as Hk2 by (intros y; by rewrite (stored_key _ _ _ _ _ St2)).
  exists l1, l2. split_and!; [done|split|split].
  - split; [|intros j; by apply partial_sorted|intros j; apply partial_levels|apply partial_head].
    intros j Hj. eapply stored_path; [exact St1| |by apply (rep_path _ _ Hr)].
    intros ->. rewrite Ei. split; [done|apply new_not_in].
  - done.
  - by rewrite (stored_height _ _ _ _ _ St1).
  - split; [|intros j; by apply partial_sorted|intros j; apply partial_levels|apply partial_head].
    intros j Hj. destruct (decide (j = i)) as [->|Hne].
    + unfold partial. rewrite decide_True by lia. apply (path_link l); [done| | | | |].
      * rewrite <- E. apply list.NoDup_cons. split; [|eapply sorted_nodup, (rep_sorted _ _ Hrep)].
        intros Hin. by apply (rep_head _ _ Hrep), (chain_zero i).
      * rewrite (stored_next _ _ _ _ _ St2), decide_False by (by intros [? _]).
        by rewrite (stored_next _ _ _ _ _ St1), decide_True.
      * by rewrite (stored_next _ _ _ _ _ St2), decide_True.
      * rewrite <- E. apply not_elem_of_cons. split; [done|apply new_not_in].
      * intros y Hyx Hyp. rewrite (stored_next _ _ _ _ _ St2), decide_False by (by intros [? _]).
        by rewrite (stored_next _ _ _ _ _ St1), decide_False by (by intros [? _]).
    + assert (partial l0 key x C (S i) j = partial l0 key x C i j) as ->.
      { unfold partial. do 2 case_decide; (done || lia). }
      eapply stored_path; [exact St2|by intros ->|].
      eapply stored_path; [exact St1|by intros ->|]. by apply (rep_path _ _ Hr).
  - done.
  - by rewrite (stored_height _ _ _ _ _ St2), (stored_height _ _ _ _ _ St1).
Qed.

(** [P] holds of the chains of every arena of a sequence, and chains and keys
    only grow along it. *)
Fixpoint evolves (P : (nat → list nat) → Prop) l (D : nat → list nat) (ls : list (list (Node K)))
    : Prop :=
  match ls with
  | [] => True
  | l' :: ls' => ∃ D', rep l' D' ∧ P D' ∧ (∀ j y, y ∈ D j → y ∈ D' j) ∧
      (∀ y k, key_of l y = Ok k → key_of l' y = Ok k) ∧ evolves P l' D' ls'
  end.

Fixpoint last_arena l (ls : list (list (Node K))) : list (Node K) :=
  match ls with [] => l | l' :: ls' => last_arena l' ls' end.

(** Level 0 has the old nodes, or the old ones and the new one. *)
Definition old_or_new (D : nat → list nat) : Prop :=
  D 0%nat = C 0%nat ∨ D 0%nat = inserted l0 key x (C 0%nat).

Lemma partial_old_or_new i : old_or_new (partial l0 key x C i).
Proof. unfold old_or_new, partial. case_decide; [by right|by left]. Qed.

Lemma partial_next i j y : y ∈ partial l0 key x C i j → y ∈ partial l0 key x C (S i) j.
Proof.
  unfold partial. do 2 case_decide; try (done || lia). intros Hy. apply inserted_in. by right.
Qed.

Lemma link_loop_ok prev : ∀ k i l,
  (k + i = h)%nat → linked i l →
  (∀ j, (j < h)%nat → prev !! j = Some (Some (end_of head_ (pre j)))) →
  ∃ ls, link_loop k i l x prev = Ok ls ∧ evolves old_or_new l (partial l0 key x C i) ls ∧
    linked h (last_arena l ls).
Proof.
  induction k as [|k IH]; intros i l Hki Hl Hprev; cbn [link_loop].
  { exists []. split_and!; [done|done|]. cbn. by replace h with i by lia. }
  destruct (link_stores_ok i l prev ltac:(lia) Hl (Hprev i ltac:(lia)))
    as (l1 & l2 & -> & Hl1 & Hl2). unfold mbind, res_bind.
  destruct (IH (S i) l2 ltac:(lia) Hl2 Hprev) as (ls & -> & Hev & Hend).
  exists (l1 :: l2 :: ls). split_and!; [done| |done].
  exists (partial l0 key x C i). split_and!; [apply Hl1|apply partial_old_or_new|done| |].
  { intros y ky. by rewrite (linked_key _ _ Hl), (linked_key _ _ Hl1). }
  exists (partial l0 key x C (S i)).
  split_and!; [apply Hl2|apply partial_old_or_new|apply partial_next| |done].
  intros y ky. by rewrite (linked_key _ _ Hl1), (linked_key _ _ Hl2).
Qed.
End link.

(** * A new node *)

Lemma key_of_app l nd y k : key_of l y = Ok k → key_of (l ++ [nd]) y = Ok k.
Proof.
  unfold key_of. destruct (l !! y) as [n|] eqn:E; [|done]. by rewrite (lookup_app_l_Some _ _ _ _ E).
Qed.

Lemma next_app l nd y i p : Next l y i = Ok p → Next (l ++ [nd]) y i = Ok p.
Proof.
  unfold Next. destruct (l !! y) as [n|] eqn:E; [|done]. by rewrite (lookup_app_l_Some _ _ _ _ E).
Qed.

Lemma path_app_node l nd i x c : path l i x c → path (l ++ [nd]) i x c.
Proof.
  revert x. induction c as [|y c IH]; intros x; cbn; [apply next_app|].
  intros [Hn Hp]. split; [by apply next_app|by apply IH].
Qed.

Lemma key_lt_mono l l' x y :
  (∀ y k, key_of l y = Ok k → key_of l' y = Ok k) → key_lt l x y → key_lt l' x y.
Proof. intros Hk (a & b & Ea & Eb & L). exists a, b. split_and!; auto. Qed.

Lemma rep_app l nd C : rep l C → rep (l ++ [nd]) C.
Proof.
  intros [Hp Hs Hl Hh]. split; [|intros i|done|done].
  - intros i Hi. by apply path_app_node, Hp.
  - specialize (Hs i). induction Hs as [|x c Hs IH Hf]; constructor; [done|].
    eapply List.Forall_impl; [|exact Hf]. intros y. apply key_lt_mono. apply key_of_app.
Qed.

Lemma rep_bound l C i y : rep l C → (i < kMaxHeight)%nat → y ∈ C i → (y < length l)%nat.
Proof.
  intros Hr Hi Hy. destruct (path_key l i head_ (C i) y) as [k Ek]; [by apply (rep_path _ _ Hr)|done|].
  unfold key_of in Ek. destruct (l !! y) eqn:E; [|done]. by eapply lookup_lt_Some.
Qed.

(** Level 0 is not longer than the arena. *)
Lemma rep_length l C : rep l C → (length (C 0%nat) <= length l)%nat.
Proof.
  intros Hr. assert (length (C 0%nat) <= length (seq 0 (length l)))%nat as Hle;
    [|by rewrite length_seq in Hle].
  apply (List.NoDup_incl_length (A := nat)).
  - apply NoDup_ListNoDup. eapply sorted_nodup, (rep_sorted _ _ Hr).
  - intros y Hy%list_elem_of_In. apply in_seq.
    pose proof (rep_bound l C 0 y Hr ltac:(unfold kMaxHeight; lia) Hy). lia.
Qed.

(** Where the key belongs does not depend on other nodes of the arena. *)
Lemma splits_at_mono l l' k C i pre suf :
  (∀ y k, key_of l y = Ok k → key_of l' y = Ok k) → rep l C → (i < kMaxHeight)%nat →
  splits_at l k (C i) pre suf → splits_at l' k (C i) pre suf.
Proof.
  intros Hk Hr Hi (E & Hpre & Hsuf). split_and!; [done| |].
  - eapply list.Forall_impl; [exact Hpre|]. intros y (ky & Ey & L). exists ky. split; auto.
  - apply list.Forall_forall. intros y Hy (ky & Ey & L). rewrite list.Forall_forall in Hsuf.
    apply (Hsuf y Hy). destruct (path_key l i head_ (C i) y) as [k' Ek'].
    + by apply (rep_path _ _ Hr).
    + rewrite E. apply elem_of_app. by right.
    + exists ky. split; [|done]. rewrite (Hk _ _ Ek') in Ey. congruence.
Qed.

(** * The height of the new node *)

Lemma random_height_loop_ok fuel : ∀ height seed,
  (1 <= height <= kMaxHeight)%nat → (kMaxHeight < height + fuel)%nat →
  ∃ h seed', random_height_loop fuel height seed = Ok (h, seed') ∧ (1 <= h <= kMaxHeight)%nat.
Proof.
  induction fuel as [|fuel IH]; intros height seed Hh Hf; [lia|]. cbn [random_height_loop].
  destruct (decide (height < kMaxHeight)%nat) as [Hlt|Hge]; [|by exists height, seed].
  destruct (_ =? _); [apply IH; lia|by eexists _, _].
Qed.

Lemma RandomHeight_ok seed :
  ∃ h seed', RandomHeight seed = Ok (h, seed') ∧ (1 <= h <= kMaxHeight)%nat.
Proof.
  destruct (random_height_loop_ok kMaxHeight 1 seed) as (h & seed' & E & Hh);
    [unfold kMaxHeight; lia..|]. exists h, seed'. split; [|done].
  unfold RandomHeight. rewrite E. unfold mbind, res_bind.
  by rewrite !bool_decide_true by lia.
Qed.

Lemma fill_prev_ok k : ∀ i prev,
  (i + k <= length prev)%nat → ∃ prev', fill_prev k i prev = Ok prev' ∧
    ∀ j, prev' !! j = if decide (i <= j < i + k)%nat then Some (Some head_) else prev !! j.
Proof.
  induction k as [|k IH]; intros i prev Hl; cbn [fill_prev].
  { exists prev. split; [done|]. intros j. case_decide; [lia|done]. }
  rewrite decide_True by lia.
  destruct (IH (S i) (<[i := Some head_]> prev)) as (prev' & -> & Hj); [rewrite length_insert; lia|].
  exists prev'. split; [done|]. intros j. rewrite Hj.
  destruct (decide (j = i)) as [->|Hne].
  - rewrite decide_False by lia. rewrite decide_True by lia. apply list_lookup_insert_eq. lia.
  - rewrite list_lookup_insert_ne by done. repeat case_decide; (done || lia).
Qed.

Lemma rep_ext l C D : (∀ i, D i = C i) → rep l C → rep l D.
Proof.
  intros E [Hp Hs Hl Hh]. split.
  - intros i Hi. rewrite E. by apply Hp.
  - intros i. rewrite E. apply Hs.
  - intros i x. rewrite !E. apply Hl.
  - by rewrite E.
Qed.
End insert.
