(* ===== verification/LdbSkipProps.v ===== *)
(** Correctness of the skip list: it is a sorted set of keys, and stays one in the
    eyes of a reader that runs while a key is inserted. *)
From Stdlib Require Import Sorted.
From S2P Require Import Prelude LdbSkip LdbSkipLemmas.
Import SkipList.

Section props.
Context {K : Type} `{Order K}.
Implicit Types l : list (Node K).
Implicit Types s : SkipList K.

(** * The abstract value: a sorted list of keys *)

Definition contents l (c : list nat) (ks : list K) : Prop :=
  Forall2 (λ x k, key_of l x = Ok k) c ks.

Record sk_ok s (C : nat → list nat) : Prop := {
  sk_rep : rep (nodes s) C;
  sk_height : (1 <= max_height_ s <= kMaxHeight)%nat;
  sk_empty i : (max_height_ s <= i)%nat → C i = []
}.

(** The list [s] holds the keys [ks], in this order. *)
Definition represents s (ks : list K) : Prop :=
  ∃ C, sk_ok s C ∧ contents (nodes s) (C 0%nat) ks.

Fixpoint insert_key (key : K) (ks : list K) : list K :=
  match ks with
  | [] => [key]
  | k :: ks' => if compare_ k key <? 0 then k :: insert_key key ks' else key :: ks
  end.

Lemma insert_key_app key k1 k2 :
  Forall (λ k, compare_ k key < 0) k1 → (∀ k d, k2 = k :: d → 0 <= compare_ k key) →
  insert_key key (k1 ++ k2) = k1 ++ key :: k2.
Proof.
  intros H1 H2. induction H1 as [|k k1 Hk H1 IH]; cbn.
  - destruct k2 as [|k d]; [done|]. cbn. by rewrite (proj2 (Z.ltb_ge _ _)) by (by eapply H2).
  - by rewrite (proj2 (Z.ltb_lt _ _)), IH by done.
Qed.

Lemma contents_mono l l' c ks :
  (∀ y k, key_of l y = Ok k → key_of l' y = Ok k) → contents l c ks → contents l' c ks.
Proof. intros Hk Hc. eapply list.Forall2_impl; [exact Hc|]. intros y k. apply Hk. Qed.

(** The keys of the two parts of a chain. *)
Lemma contents_split l k c pre suf ks :
  splits_at l k c pre suf → contents l c ks →
  ∃ k1 k2, ks = k1 ++ k2 ∧ contents l pre k1 ∧ contents l suf k2 ∧
    Forall (λ k', compare_ k' k < 0) k1 ∧ Forall (λ k', 0 <= compare_ k' k) k2.
Proof.
  intros (-> & Hpre & Hsuf) Hc. apply list.Forall2_app_inv_l in Hc as (k1 & k2 & C1 & C2 & ->).
  exists k1, k2. split_and!; [done|done|done| |].
  - clear -C1 Hpre. induction C1 as [|y ky ys ks Hy C1 IH]; [constructor|].
    apply list.Forall_cons in Hpre as [(k' & Ek & L) Hpre]. constructor; [|by apply IH].
    rewrite Hy in Ek. by injection Ek as ->.
  - clear -C2 Hsuf. induction C2 as [|y ky ys ks Hy C2 IH]; [constructor|].
    apply list.Forall_cons in Hsuf as [Hb Hsuf]. constructor; [|by apply IH].
    destruct (Z.lt_ge_cases (compare_ ky k) 0); [|done]. destruct Hb. by exists ky.
Qed.

(** * Membership *)

Lemma equal_swap a b : Equal a b = (compare_ b a =? 0).
Proof.
  unfold Equal. apply eq_true_iff_eq. rewrite !Z.eqb_eq.
  pose proof (cmp_swap a b). pose proof (cmp_swap b a). lia.
Qed.

Lemma existsb_before k ks : Forall (λ k', compare_ k' k < 0) ks → existsb (Equal k) ks = false.
Proof.
  induction 1 as [|k' ks Hk _ IH]; [done|]. cbn. rewrite equal_swap, IH.
  by rewrite (proj2 (Z.eqb_neq _ _)) by lia.
Qed.

(** In a sorted chain the first node that is not before a key decides. *)
Lemma first_decides l k c pre suf ks :
  StronglySorted (key_lt l) c → splits_at l k c pre suf → contents l c ks →
  match head suf with
  | None => existsb (Equal k) ks = false
  | Some y => ∀ ky, key_of l y = Ok ky → existsb (Equal k) ks = Equal k ky
  end.
Proof.
  intros Hs Hsp Hc. destruct (contents_split _ _ _ _ _ _ Hsp Hc) as (k1 & k2 & -> & C1 & C2 & F1 & F2).
  destruct Hsp as (-> & _ & _). rewrite existsb_app, (existsb_before k k1) by done.
  destruct C2 as [|y ky ys ks Hy C2]; [done|]. cbn. intros k' Ek. rewrite Hy in Ek.
  injection Ek as ->. destruct (Equal k k') eqn:E; [done|]. cbn.
  apply sorted_app_r in Hs. apply list.Forall_cons in F2 as [Hky _].
  rewrite equal_swap in E. apply Z.eqb_neq in E.
  assert (compare_ k k' < 0) as Hlt by (apply cmp_swap; lia).
  assert (∀ z, z ∈ ys → key_lt l y z) as Hgt by (by apply sorted_cons_lt).
  clear -C2 Hgt Hy Hlt H0. induction C2 as [|z kz zs kzs Hz C2 IH]; [done|]. cbn.
  rewrite IH by (intros w Hw; apply Hgt; by right).
  destruct (Hgt z ltac:(by left)) as (a & b & Ea & Eb & L). rewrite Hy in Ea. rewrite Hz in Eb.
  injection Ea as <-. injection Eb as <-. unfold Equal.
  pose proof (cmp_trans _ _ _ Hlt L). by rewrite (proj2 (Z.eqb_neq _ _)) by lia.
Qed.

(** The fuel of a search that runs alone. *)
Lemma search_fuel_ok s C :
  sk_ok s C → (max_height_ s - 1 + (length (C 0%nat) - 0) < search_fuel s)%nat.
Proof.
  intros [Hr Hh _]. pose proof (rep_length _ _ Hr). unfold search_fuel. lia.
Qed.

(** [Contains] answers whether the key is in the list. *)
Theorem contains_correct s ks key :
  represents s ks →
  Contains (search_fuel s) (alone (nodes s)) (max_height_ s) key = Ok (existsb (Equal key) ks).
Proof.
  intros (C & Hsk & Hc). pose proof (growing_alone _ _ (sk_rep _ _ Hsk)) as Hg.
  pose proof (sk_height _ _ Hsk).
  destruct (find_ge_loop_ok (alone (nodes s)) (λ _, C) Hg key (search_fuel s) head_
              (max_height_ s - 1) 0 None) as (t & pre & suf & prev' & E & _ & Hsp & _);
    [lia|done|by apply search_fuel_ok|by left|done|].
  unfold Contains, FindGreaterOrEqual. rewrite E. unfold mbind, res_bind.
  pose proof (first_decides _ _ _ _ _ _ (rep_sorted _ _ (sk_rep _ _ Hsk) 0%nat) Hsp Hc) as D.
  destruct (head suf) as [y|] eqn:Eh; [|by rewrite D].
  destruct suf as [|y' d]; [done|]. injection Eh as ->.
  destruct (path_key (nodes s) 0 head_ (C 0%nat) y) as [ky Eky].
  - apply (rep_path _ _ (sk_rep _ _ Hsk)). unfold kMaxHeight. lia.
  - destruct Hsp as (-> & _). apply elem_of_app. right. by left.
  - unfold alone. rewrite Eky. by rewrite (D ky).
Qed.

(** * Insertion *)

Definition fresh l (C : nat → list nat) (key : K) : Prop :=
  ∀ y ky, y ∈ C 0%nat → key_of l y = Ok ky → compare_ ky key ≠ 0.

(** The [prev] array with which the linking loop starts. *)
Lemma find_prev s C key :
  sk_ok s C →
  ∃ y prev, FindGreaterOrEqual (search_fuel s) (alone (nodes s)) (max_height_ s) key
      (Some (replicate kMaxHeight None)) = Ok (y, Some prev) ∧
    length prev = kMaxHeight ∧ (∀ x, y = Some x → x ∈ C 0%nat) ∧
    ∀ i, (i < max_height_ s)%nat →
      prev !! i = Some (Some (end_of head_ (cut (nodes s) key (C i)).1)).
Proof.
  intros Hsk. pose proof (growing_alone _ _ (sk_rep _ _ Hsk)) as Hg.
  pose proof (sk_height _ _ Hsk) as Hh.
  destruct (find_ge_loop_ok (alone (nodes s)) (λ _, C) Hg key (search_fuel s) head_
              (max_height_ s - 1) 0 (Some (replicate kMaxHeight None)))
    as (t & pre & suf & prev' & E & _ & Hsp & Hprev);
    [lia|done|by apply search_fuel_ok|by left|unfold has_room; rewrite length_replicate; lia|].
  destruct prev' as [prev|]; [|done]. destruct Hprev as (Hl & _ & Hp).
  exists (head suf), prev. split_and!; [exact E|by rewrite Hl, length_replicate| |].
  - intros x Ex. destruct Hsp as (-> & _). apply elem_of_app. right.
    destruct suf as [|z d]; [done|]. injection Ex as ->. by left.
  - intros i Hi. destruct (Hp i ltac:(lia)) as (t' & pre' & suf' & Hsp' & ->).
    unfold alone in Hsp'. by rewrite (splits_at_cut _ _ _ _ _ Hsp').
Qed.

Lemma find_fresh s C key y :
  sk_ok s C → fresh (nodes s) C key → (∀ x, y = Some x → x ∈ C 0%nat) →
  is_fresh (nodes s) key y = Ok true.
Proof.
  intros Hsk Hf Hy. unfold is_fresh. destruct y as [x|]; [|done]. specialize (Hy x eq_refl).
  destruct (path_key (nodes s) 0 head_ (C 0%nat) x) as [k Ek];
    [by apply (rep_path _ _ (sk_rep _ _ Hsk)); unfold kMaxHeight; lia|done|].
  rewrite Ek. unfold mbind, res_bind. rewrite equal_swap.
  by rewrite (proj2 (Z.eqb_neq _ _)) by (by apply (Hf x k)).
Qed.

(** The arrays of the code, for the levels of the new node. *)
Lemma full_prev s C key h prev l0 :
  sk_ok s C → (h <= kMaxHeight)%nat → length prev = kMaxHeight →
  (∀ y k, key_of (nodes s) y = Ok k → key_of l0 y = Ok k) →
  (∀ i, (i < max_height_ s)%nat →
     prev !! i = Some (Some (end_of head_ (cut (nodes s) key (C i)).1))) →
  ∃ prev', (if decide (max_height_ s < h)%nat
            then fill_prev (h - max_height_ s) (max_height_ s) prev else Ok prev) = Ok prev' ∧
    ∀ i, (i < h)%nat → prev' !! i = Some (Some (end_of head_ (cut l0 key (C i)).1)).
Proof.
  intros Hsk Hh Hl Hk Hp. pose proof (sk_height _ _ Hsk).
  assert (∀ i, (i < max_height_ s)%nat →
    prev !! i = Some (Some (end_of head_ (cut l0 key (C i)).1))) as Hp0.
  { intros i Hi. rewrite (Hp i Hi).
    pose proof (cut_splits (nodes s) key (C i) (rep_sorted _ _ (sk_rep _ _ Hsk) i)) as Hsp.
    eapply splits_at_mono in Hsp; [|exact Hk|apply Hsk|lia].
    by rewrite (splits_at_cut _ _ _ _ _ Hsp). }
  case_decide as Hlt.
  - destruct (fill_prev_ok (h - max_height_ s) (max_height_ s) prev) as (prev' & E & Hj); [lia|].
    exists prev'. split; [done|]. intros i Hi. rewrite Hj. case_decide; [|apply Hp0; lia].
    by rewrite (sk_empty _ _ Hsk) by lia.
  - exists prev. split; [done|]. intros i Hi. apply Hp0. lia.
Qed.

(** The course of an insertion. *)
Lemma Insert_trace_ok s C key :
  sk_ok s C → fresh (nodes s) C key →
  ∃ l0 x h mh ls seed,
    Insert_trace s key = Ok ((nodes s, max_height_ s) :: (nodes s, mh) :: (l0, mh)
                               :: ((λ l, (l, mh)) <$> ls), seed) ∧
    l0 = nodes s ++ [mkNode key (replicate h None)] ∧ x = length (nodes s) ∧
    (1 <= h <= mh)%nat ∧ (max_height_ s <= mh <= kMaxHeight)%nat ∧
    evolves (old_or_new l0 C key x) l0 (partial l0 key x C 0) ls ∧
    linked l0 C key x h h (last_arena l0 ls) ∧ rep l0 C ∧ key_of l0 x = Ok key ∧
    fresh l0 C key.
Proof.
  intros Hsk Hf. pose proof (sk_height _ _ Hsk) as Hmh. pose proof (sk_rep _ _ Hsk) as Hr.
  destruct (find_prev s C key Hsk) as (y & prev & E & Hl & Hy & Hp).
  destruct (RandomHeight_ok (rnd_ s)) as (h & seed & Erh & Hh).
  set (nd := mkNode key (replicate h None)). set (x := length (nodes s)).
  set (l0 := nodes s ++ [nd]).
  assert (∀ z k, key_of (nodes s) z = Ok k → key_of l0 z = Ok k) as Hk by (intros; by apply key_of_app).
  destruct (full_prev s C key h prev l0 Hsk ltac:(lia) Hl Hk Hp) as (prev' & Ep & Hp').
  assert (l0 !! x = Some nd) as Hnd by (by apply list_lookup_middle).
  assert (key_of l0 x = Ok key) as Hkey by (unfold key_of; by rewrite Hnd).
  assert (rep l0 C) as Hr0 by (by apply rep_app).
  assert (x ∉ C 0%nat) as Hxc.
  { intros Hx. pose proof (rep_bound _ _ 0 _ Hr ltac:(unfold kMaxHeight; lia) Hx). subst x. lia. }
  assert (x ≠ head_) as Hxh.
  { pose proof (rep_path _ _ Hr 0 ltac:(unfold kMaxHeight; lia)) as Hpath.
    assert (∃ p, Next (nodes s) head_ 0 = Ok p) as [p Hn]
      by (destruct (C 0%nat); [|destruct Hpath]; eauto).
    subst x. unfold Next in Hn. destruct (nodes s); [done|]. done. }
  assert (fresh l0 C key) as Hf0.
  { intros z kz Hz Ek. destruct (path_key (nodes s) 0 head_ (C 0%nat) z) as [k' Ek'];
      [by apply (rep_path _ _ Hr); unfold kMaxHeight; lia|done|].
    pose proof (Hk _ _ Ek') as E2. rewrite Ek in E2. injection E2 as ->. by apply (Hf z). }
  assert (linked l0 C key x h 0 l0) as Hlinked.
  { split; [by apply (rep_ext _ C)|done|].
    unfold height_of. rewrite Hnd. cbn. by rewrite length_replicate. }
  destruct (link_loop_ok l0 C key x h Hr0 Hkey Hxh Hxc Hf0 ltac:(lia) prev' h 0 l0 ltac:(lia)
              Hlinked Hp') as (ls & El & Hev & Hend).
  exists l0, x, h, (if decide (max_height_ s < h)%nat then h else max_height_ s), ls, seed.
  split_and!; try done; [|case_decide; lia..].
  unfold Insert_trace. rewrite E. unfold mbind, res_bind. cbn [of_option].
  rewrite (find_fresh s C key y Hsk Hf Hy). cbn [assert_]. rewrite Erh, Ep. cbn [NewNode].
  fold nd l0 x. by rewrite El.
Qed.

Lemma last_arena_lookup l ls : (l :: ls) !! length ls = Some (last_arena l ls).
Proof. revert l. induction ls as [|l' ls IH]; intros l; [done|]. apply IH. Qed.

Lemma contents_fresh l C key ks :
  contents l (C 0%nat) ks → Forall (λ k, compare_ k key ≠ 0) ks → fresh l C key.
Proof.
  intros Hc Hf y ky Hy Ek. apply list_elem_of_lookup in Hy as [j Hj].
  destruct (Forall2_lookup_l _ _ _ _ _ Hc Hj) as (k & Hkj & Hk).
  rewrite Ek in Hk. injection Hk as ->. eapply Forall_lookup_1 in Hf; [exact Hf|exact Hkj].
Qed.

(** The keys of level 0 after the insertion. *)
Lemma inserted_contents l C key x ks :
  rep l C → key_of l x = Ok key → contents l (C 0%nat) ks →
  contents l (inserted l key x (C 0%nat)) (insert_key key ks).
Proof.
  intros Hr Hk Hc. pose proof (cut_splits l key (C 0%nat) (rep_sorted _ _ Hr 0%nat)) as Hsp.
  destruct (contents_split _ _ _ _ _ _ Hsp Hc) as (k1 & k2 & -> & C1 & C2 & F1 & F2).
  rewrite insert_key_app; [|done|].
  - unfold inserted, contents. apply List.Forall2_app; [exact C1|]. by constructor.
  - intros k d ->. by apply list.Forall_cons in F2 as [? _].
Qed.

Lemma insert_result s C key :
  sk_ok s C → fresh (nodes s) C key →
  ∃ s' C', Insert s key = Ok s' ∧ sk_ok s' C' ∧
    ∀ ks, contents (nodes s) (C 0%nat) ks → contents (nodes s') (C' 0%nat) (insert_key key ks).
Proof.
  intros Hsk Hf.
  destruct (Insert_trace_ok s C key Hsk Hf) as (l0 & x & h & mh & ls & seed & E & El0 & Ex & Hh & Hmh
    & Hev & Hend & Hr0 & Hkey & Hf0).
  exists (mkList (last_arena l0 ls) mh seed), (partial l0 key x C h). split_and!.
  - unfold Insert. rewrite E. unfold mbind, res_bind. cbn [length pred].
    rewrite length_fmap.
    assert (∀ a b : list (Node K) * nat, (a :: b :: (l0, mh) :: ((λ l, (l, mh)) <$> ls))
      !! S (S (length ls)) = Some (last_arena l0 ls, mh)) as ->; [|done].
    intros a b. change (((λ l, (l, mh)) <$> (l0 :: ls)) !! length ls = Some (last_arena l0 ls, mh)).
    by rewrite list_lookup_fmap, last_arena_lookup.
  - pose proof (sk_height _ _ Hsk). split; cbn; [apply Hend|lia|]. intros i Hi. unfold partial.
    rewrite decide_False by lia. apply (sk_empty _ _ Hsk). lia.
  - intros ks Hc. cbn. unfold partial.
    rewrite decide_True by lia.
    apply (contents_mono l0); [intros y k; by rewrite (linked_key _ _ _ _ _ _ _ Hend)|].
    apply inserted_contents; [done|done|]. eapply contents_mono; [|exact Hc].
    intros y k Ek. rewrite El0. by apply key_of_app.
Qed.

Lemma represents_init any : ∃ s0, init any = Ok s0 ∧ represents s0 [].
Proof.
  eexists. split; [cbn; reflexivity|]. exists (λ _, []). split; [|constructor].
  split; cbn; [|unfold kMaxHeight; lia|done].
  split; [|intros ?; constructor|done|by apply not_elem_of_nil].
  intros i Hi. unfold kMaxHeight in Hi. do 12 (destruct i as [|i]; [done|]). lia.
Qed.

Lemma represents_insert s ks key :
  represents s ks → Forall (λ k, compare_ k key ≠ 0) ks →
  ∃ s', Insert s key = Ok s' ∧ represents s' (insert_key key ks).
Proof.
  intros (C & Hsk & Hc) Hf. destruct (insert_result s C key Hsk) as (s' & C' & E & Hsk' & Hc');
    [by eapply contents_fresh|]. exists s'. split; [done|]. exists C'. split; [done|by apply Hc'].
Qed.

Lemma represents_sorted s ks : represents s ks → StronglySorted (λ a b, compare_ a b < 0) ks.
Proof.
  intros Hrep.
  destruct Hrep as (C & Hsk & Hc).
  pose proof (rep_sorted _ _ (sk_rep _ _ Hsk) 0%nat) as Hs. clear Hsk.
  revert Hs. induction Hc as [|x k c ks Hx Hc IH]; [constructor|].
  intros [Hs Hf]%StronglySorted_inv. constructor; [by apply IH|].
  clear IH Hs. induction Hc as [|y ky c ks Hy Hc IH]; [constructor|].
  apply list.Forall_cons in Hf as [(a & b & Ea & Eb & L) Hf]. constructor; [|by apply IH].
  rewrite Hx in Ea. rewrite Hy in Eb. by injection Ea as <-; injection Eb as <-.
Qed.

(** C26: [Insert] of a key that is not in the list succeeds and puts it in its
    place in the order, leaving the others as they are; the constructor makes the
    empty list; the keys of a list are always strictly increasing. *)
Theorem insert_correct any s ks key :
  (∃ s0, init any = Ok s0 ∧ represents s0 []) ∧
  (represents s ks → StronglySorted (λ a b, compare_ a b < 0) ks ∧
     (Forall (λ k, compare_ k key ≠ 0) ks →
      ∃ s', Insert s key = Ok s' ∧ represents s' (insert_key key ks))).
Proof.
  split; [apply represents_init|]. intros Hrep. split; [|by apply represents_insert].
  by eapply represents_sorted.
Qed.

(** * The iterator *)

(** The keys an iterator visits from [node] on, with [next]. *)
Fixpoint collect (n : nat) (next : ptr → res ptr) l (node : ptr) : res (list K) :=
  if Iterator_Valid node then
    match n with
    | O => NoFuel
    | S n' =>
        k ← Iterator_key l node;
        node ← next node;
        ks ← collect n' next l node;
        Ok (k :: ks)
    end
  else Ok [].

Lemma collect_forward l x c ks :
  path l 0 x c → contents l c ks → collect (length ks) (Iterator_Next l) l (head c) = Ok ks.
Proof.
  intros Hp Hc. revert x Hp. induction Hc as [|y k c ks Hy Hc IH]; intros x Hp; [done|].
  destruct Hp as [_ Hp]. cbn. rewrite Hy. unfold mbind, res_bind.
  assert (Next l y 0 = Ok (head c)) as -> by (by destruct c; [|destruct Hp]).
  by rewrite (IH y Hp).
Qed.

(** The last node of a chain, as the backward steps return it. *)
Lemma not_head_end (c : list nat) :
  head_ ∉ c → not_head (end_of head_ c) = match c with [] => None | _ => Some (end_of head_ c) end.
Proof.
  intros Hc. unfold not_head. destruct c as [|y c]; [done|].
  destruct (end_of_in head_ (y :: c)) as [[_ ?]|Hin]; [done|].
  destruct (Nat.eqb_spec (end_of head_ (y :: c)) head_) as [E|]; [|done].
  rewrite E in Hin. done.
Qed.

Lemma prev_of s C c y d :
  sk_ok s C → C 0%nat = c ++ y :: d → Iterator_Prev s (Some y) = Ok (not_head (end_of head_ c)).
Proof.
  intros Hsk E. pose proof (sk_rep _ _ Hsk) as Hr. pose proof (sk_height _ _ Hsk).
  destruct (path_key (nodes s) 0 head_ (C 0%nat) y) as [k Ek].
  { apply (rep_path _ _ Hr). unfold kMaxHeight. lia. }
  { rewrite E. apply elem_of_app. right. by left. }
  destruct (find_lt_loop_ok (alone (nodes s)) (λ _, C) (growing_alone _ _ Hr) k (search_fuel s)
    head_ (max_height_ s - 1) 0) as (t & pre & suf & Ef & _ & Hsp);
    [lia|done|by apply search_fuel_ok|by left|].
  unfold Iterator_Prev, FindLessThan. rewrite Ek. unfold mbind, res_bind. rewrite Ef.
  assert (splits_at (nodes s) k (C 0%nat) c (y :: d)) as Hsp'.
  { pose proof (rep_sorted _ _ Hr 0%nat) as Hs. rewrite E in Hs |- *. split_and!; [done| |].
    - apply list.Forall_forall. intros z Hz. destruct (sorted_app_lt _ _ _ _ Hs z Hz)
        as (a & b & Ea & Eb & L). rewrite Ek in Eb. injection Eb as <-. by exists a.
    - apply sorted_app_r in Hs. apply list.Forall_forall.
      intros z Hz (kz & Ez & L). apply elem_of_cons in Hz as [->|Hz].
      + rewrite Ek in Ez. injection Ez as <-. by eapply cmp_irrefl.
      + destruct (sorted_cons_lt _ _ _ Hs z Hz) as (a & b & Ea & Eb & L2).
        rewrite Ek in Ea. injection Ea as <-. rewrite Ez in Eb. injection Eb as <-.
        eapply cmp_irrefl, cmp_trans; [exact L|exact L2]. }
  apply splits_at_cut in Hsp. apply splits_at_cut in Hsp'. unfold alone in Hsp. congruence.
Qed.

Lemma collect_backward s C c ks : ∀ d,
  sk_ok s C → C 0%nat = c ++ d → contents (nodes s) c ks →
  collect (length ks) (Iterator_Prev s) (nodes s) (not_head (end_of head_ c)) = Ok (reverse ks).
Proof.
  intros d Hsk. revert ks d. induction c as [|y c IH] using rev_ind; intros ks d E Hc.
  { apply Forall2_nil_inv_l in Hc as ->. done. }
  apply list.Forall2_app_inv_l in Hc as (k1 & k2 & C1 & C2 & ->).
  apply Forall2_cons_inv_l in C2 as (k & k2' & Hy & C2 & ->).
  apply Forall2_nil_inv_l in C2 as ->.
  pose proof (rep_head _ _ (sk_rep _ _ Hsk)) as Hh. rewrite E in Hh.
  assert (head_ ∉ c ++ [y]) as Hh1 by (intros Hin; apply Hh; apply elem_of_app; by left).
  rewrite not_head_end by done. rewrite end_of_app. cbn [end_of].
  rewrite <- app_assoc in E. cbn in E.
  rewrite length_app, Nat.add_comm. destruct (c ++ [y]) eqn:Ecy; [by destruct c|].
  cbn [length Nat.add collect]. unfold Iterator_Valid. rewrite bool_decide_true by done.
  cbn [Iterator_key]. rewrite Hy. unfold mbind at 1, res_bind at 1.
  rewrite (prev_of s C c y d Hsk E). unfold mbind, res_bind. rewrite (IH k1 (y :: d) E C1).
  by rewrite reverse_app.
Qed.

(** [Seek] finds the first key that is not before the target. *)
Lemma seek_split s ks target :
  represents s ks →
  ∃ x suf k1 k2, Iterator_Seek s target = Ok (head suf) ∧ ks = k1 ++ k2 ∧
    Forall (λ k, compare_ k target < 0) k1 ∧ Forall (λ k, 0 <= compare_ k target) k2 ∧
    path (nodes s) 0 x suf ∧ contents (nodes s) suf k2.
Proof.
  intros (C & Hsk & Hc). pose proof (sk_rep _ _ Hsk) as Hr. pose proof (sk_height _ _ Hsk).
  destruct (find_ge_loop_ok (alone (nodes s)) (λ _, C) (growing_alone _ _ Hr) target
    (search_fuel s) head_ (max_height_ s - 1) 0 None) as (t & pre & suf & prev' & E & _ & Hsp & _);
    [lia|done|by apply search_fuel_ok|by left|done|].
  destruct (contents_split _ _ _ _ _ _ Hsp Hc) as (k1 & k2 & -> & C1 & C2 & F1 & F2).
  pose proof (rep_path _ _ Hr 0 ltac:(unfold kMaxHeight; lia)) as Hp.
  destruct Hsp as (Ec & _). rewrite Ec in Hp. apply path_end in Hp.
  exists (end_of head_ pre), suf, k1, k2. split_and!; [|done..].
  unfold Iterator_Seek, FindGreaterOrEqual. by rewrite E.
Qed.

(** An iterator visits exactly the keys of the list: in increasing order from
    [SeekToFirst] with [Next], in decreasing order from [SeekToLast] with [Prev],
    and from [Seek] the keys that are not before the target. *)
Theorem iterator_correct s ks target :
  represents s ks →
  (∃ node, Iterator_SeekToFirst s = Ok node ∧
     collect (length ks) (Iterator_Next (nodes s)) (nodes s) node = Ok ks) ∧
  (∃ node, Iterator_SeekToLast s = Ok node ∧
     collect (length ks) (Iterator_Prev s) (nodes s) node = Ok (reverse ks)) ∧
  (∃ node k1 k2, Iterator_Seek s target = Ok node ∧ ks = k1 ++ k2 ∧
     Forall (λ k, compare_ k target < 0) k1 ∧ Forall (λ k, 0 <= compare_ k target) k2 ∧
     collect (length k2) (Iterator_Next (nodes s)) (nodes s) node = Ok k2).
Proof.
  intros (C & Hsk & Hc). pose proof (sk_rep _ _ Hsk) as Hr. pose proof (sk_height _ _ Hsk).
  pose proof (rep_path _ _ Hr 0 ltac:(unfold kMaxHeight; lia)) as Hp. split_and!.
  - exists (head (C 0%nat)). split; [|by eapply collect_forward].
    unfold Iterator_SeekToFirst. by destruct (C 0%nat); [|destruct Hp].
  - destruct (find_last_loop_ok (alone (nodes s)) (λ _, C) (search_fuel s) (growing_alone _ _ Hr)
      head_ (max_height_ s - 1) 0) as (t & E & _);
      [lia|done|by apply search_fuel_ok|by left|].
    eexists. split; [unfold Iterator_SeekToLast, FindLast; rewrite E; reflexivity|].
    apply (collect_backward s C (C 0%nat) ks []); [done|by rewrite app_nil_r|done].
  - destruct (seek_split s ks target) as (x & suf & k1 & k2 & E & -> & F1 & F2 & Hp2 & C2);
      [by exists C|]. exists (head suf), k1, k2. split_and!; [done..|by eapply collect_forward].
Qed.

(** * Readers during an insertion *)

(** The chains of the arenas of a sequence, by their position in it. *)
Lemma evolves_index l0 C key x ls : ∀ l D,
  evolves (old_or_new l0 C key x) l D ls →
  ∃ E, ∀ j l', ls !! j = Some l' →
    rep l' (E j) ∧ old_or_new l0 C key x (E j) ∧
    (∀ i y, y ∈ D i → y ∈ E j i) ∧ (∀ y k, key_of l y = Ok k → key_of l' y = Ok k) ∧
    ∀ j' l'', (j <= j')%nat → ls !! j' = Some l'' →
      (∀ i y, y ∈ E j i → y ∈ E j' i) ∧ (∀ y k, key_of l' y = Ok k → key_of l'' y = Ok k).
Proof.
  induction ls as [|l1 ls IH]; intros l D Hev; [by exists (λ _, D)|].
  destruct Hev as (D1 & Hr1 & Ho1 & Hc1 & Hk1 & Hev). destruct (IH l1 D1 Hev) as (E & HE).
  exists (λ j, match j with O => D1 | S j => E j end). intros j l' Hj.
  destruct j as [|j]; cbn in Hj.
  - injection Hj as <-. split_and!; [done..|]. intros [|j'] l'' _ Hj'; cbn in Hj'.
    + injection Hj' as <-. by split.
    + destruct (HE j' l'' Hj') as (_ & _ & Hc & Hk & _). by split.
  - destruct (HE j l' Hj) as (Hr & Ho & Hc & Hk & Hnext).
    split_and!; [done|done|by intros i y ?%Hc1; apply Hc|by intros y k ?%Hk1; apply Hk|].
    intros [|j'] l'' Hle Hj'; [lia|]. apply (Hnext j'); [lia|done].
Qed.

(** A reader that overlaps with an insertion: at each of its loads it sees one of
    the arenas the insertion goes through, never an earlier one after a later one. *)
Definition schedule (trace : list (list (Node K) * nat)) (f : nat → nat) : view :=
  λ t, from_option fst [] (trace !! f t).

Lemma schedule_lookup s l0 mh ls f t :
  let trace := (nodes s, max_height_ s) :: (nodes s, mh) :: (l0, mh) :: ((λ l, (l, mh)) <$> ls) in
  (f t < length trace)%nat →
  (nodes s :: nodes s :: l0 :: ls) !! f t = Some (schedule trace f t).
Proof.
  intros trace Hf. unfold schedule.
  assert (nodes s :: nodes s :: l0 :: ls = fst <$> trace) as ->.
  { unfold trace. cbn. rewrite <- list_fmap_compose. cbn. by rewrite list_fmap_id. }
  destruct (lookup_lt_is_Some_2 trace (f t) Hf) as [a Ha].
  by rewrite list_lookup_fmap, Ha.
Qed.

(** C14: a reader that runs while a key is being inserted, its loads interleaved
    in any way with the stores, and whichever of the values of [max_height_] it
    read: [Contains] terminates, reads no link before it is written, and
    answers as before or as after the insertion. *)
Theorem contains_during_insert s ks key target trace seed f mh fuel :
  represents s ks → Forall (λ k, compare_ k key ≠ 0) ks →
  Insert_trace s key = Ok (trace, seed) →
  (∀ t, (f (S t) <= f t)%nat) → (∀ t, (f t < length trace)%nat) →
  (1 <= mh <= kMaxHeight)%nat → (S (length (nodes s)) + mh < fuel)%nat →
  ∃ b, Contains fuel (schedule trace f) mh target = Ok b ∧
    (b = existsb (Equal target) ks ∨ b = existsb (Equal target) (insert_key key ks)).
Proof.
  intros (C & Hsk & Hc) Hfr Etr Hf Hlen Hmh Hfuel.
  destruct (Insert_trace_ok s C key Hsk) as (l0 & x & h & mh' & ls & seed' & E & El0 & Ex & Hh & Hmh'
    & Hev & Hend & Hr0 & Hkey & Hf0); [by eapply contents_fresh|].
  rewrite Etr in E. injection E as -> ->.
  set (trace := _ :: _) in *. set (v := schedule trace f).
  assert (∀ y k, key_of (nodes s) y = Ok k → key_of l0 y = Ok k) as Hk0
    by (intros y k; rewrite El0; apply key_of_app).
  assert (evolves (old_or_new l0 C key x) (nodes s) C (nodes s :: nodes s :: l0 :: ls)) as Hall.
  { pose proof (sk_rep _ _ Hsk). exists C. split_and!; [done|by left|done|done|].
    exists C. split_and!; [done|by left|done|done|]. exists (partial l0 key x C 0).
    split_and!; [by apply (rep_ext _ C)|by left|done|done|done]. }
  destruct (evolves_index _ _ _ _ _ _ _ Hall) as (E & HE).
  assert (∀ t, (nodes s :: nodes s :: l0 :: ls) !! f t = Some (v t)) as Hv.
  { intros t. apply (schedule_lookup s l0 mh' ls f t), Hlen. }
  set (last_l := last_arena l0 ls).
  assert ((nodes s :: nodes s :: l0 :: ls) !! S (S (length ls)) = Some last_l) as Hlast
    by apply last_arena_lookup.
  assert (∀ t, (f t <= S (S (length ls)))%nat) as Hle.
  { intros t. specialize (Hlen t). unfold trace in Hlen. cbn in Hlen. rewrite length_fmap in Hlen. lia. }
  assert (growing v (λ t, E (f t))) as Hg.
  { split.
    - intros t. apply (HE _ _ (Hv t)).
    - intros t i y. apply (HE _ _ (Hv (S t))) with (v t); [done|apply Hv].
    - intros t y k. apply (HE _ _ (Hv (S t))) with (f t); [apply Hf|apply Hv]. }
  assert (∀ t y k, key_of (v t) y = Ok k → key_of last_l y = Ok k) as Hkl.
  { intros t y k. eapply (HE _ _ (Hv t)); [apply Hle|exact Hlast]. }
  assert (length (E (f 0%nat) 0%nat) <= S (length (nodes s)))%nat as HlenE.
  { destruct (HE _ _ (Hv 0%nat)) as (_ & [-> | ->] & _).
    - pose proof (rep_length _ _ (sk_rep _ _ Hsk)). lia.
    - unfold inserted. destruct (chain_cut l0 C key Hr0 0%nat) as (Ec & _).
      pose proof (rep_length _ _ (sk_rep _ _ Hsk)) as Hl. rewrite Ec in Hl.
      rewrite length_app in *. cbn. lia. }
  destruct (find_ge_loop_ok v _ Hg target fuel head_ (mh - 1) 0 None)
    as (t & pre & suf & prev' & Ef & _ & Hsp & _); [lia|done|lia|by left|done|].
  destruct (HE _ _ (Hv t)) as (Hrt & Hold & _).
  eapply splits_at_mono in Hsp; [|apply (Hkl t)|exact Hrt|unfold kMaxHeight; lia].
  assert (∃ ks', contents last_l (E (f t) 0%nat) ks' ∧ (ks' = ks ∨ ks' = insert_key key ks))
    as (ks' & Hc' & Hks').
  { assert (∀ y k, key_of l0 y = Ok k → key_of last_l y = Ok k) as Hl0.
    { intros y k. by rewrite (linked_key _ _ _ _ _ _ _ Hend). }
    assert (contents l0 (C 0%nat) ks) as Hc0 by (by eapply contents_mono).
    destruct Hold as [-> | ->].
    - exists ks. split; [by eapply contents_mono|by left].
    - exists (insert_key key ks). split; [|by right].
      eapply contents_mono; [exact Hl0|]. by apply inserted_contents. }
  assert (StronglySorted (key_lt last_l) (E (f t) 0%nat)) as Hst.
  { pose proof (rep_sorted _ _ Hrt 0%nat) as Hs. clear -Hs Hkl.
    induction Hs as [|a c Hs IH Hfa]; constructor; [done|].
    eapply List.Forall_impl; [|exact Hfa]. intros b. apply key_lt_mono, Hkl. }
  pose proof (first_decides _ _ _ _ _ _ Hst Hsp Hc') as D.
  exists (existsb (Equal target) ks'). split; [|by destruct Hks' as [-> | ->]; [left|right]].
  unfold Contains, FindGreaterOrEqual. fold v. rewrite Ef. unfold mbind, res_bind.
  destruct suf as [|y d]; cbn [head] in *; [by rewrite D|].
  destruct (path_key (v t) 0 head_ (E (f t) 0%nat) y) as [ky Eky].
  - apply (rep_path _ _ Hrt). unfold kMaxHeight. lia.
  - destruct Hsp as (-> & _). apply elem_of_app. right. by left.
  - rewrite (grow_key_le v _ Hg t 0 y ky ltac:(lia) Eky). by rewrite (D ky (Hkl _ _ _ Eky)).
Qed.
End props.

(** * Instances *)

#[local] Instance Z_comparator : Comparator Z := λ a b, a - b.
#[local] Instance Z_order : Order Z.
Proof. split; unfold compare_, Z_comparator; lia. Qed.

Definition list_of (ks : list Z) : res (SkipList Z) :=
  foldl (λ r k, s ← r; Insert s k) (init 0) ks.

Lemma list_of_represents : ∃ s, list_of [5; 3; 9] = Ok s ∧ represents s [3; 5; 9].
Proof.
  destruct (represents_init (K := Z) 0) as (s0 & E0 & R0).
  destruct (represents_insert s0 [] 5 R0) as (s1 & E1 & R1); [constructor|].
  destruct (represents_insert s1 _ 3 R1) as (s2 & E2 & R2); [by repeat constructor|].
  destruct (represents_insert s2 _ 9 R2) as (s3 & E3 & R3); [by repeat constructor|].
  exists s3. split; [|exact R3]. unfold list_of. cbn [foldl]. unfold mbind, res_bind.
  by rewrite E0, E1, E2.
Qed.

Lemma contains_correct_witness :
  ∃ s, list_of [5; 3; 9] = Ok s ∧
    Contains (search_fuel s) (alone (nodes s)) (max_height_ s) 9 = Ok true.
Proof.
  destruct list_of_represents as (s & E & R). exists s. split; [exact E|].
  exact (contains_correct s [3; 5; 9] 9 R).
Defined.

Lemma insert_correct_witness :
  ∃ s s', list_of [5; 3; 9] = Ok s ∧ Insert s 7 = Ok s' ∧ represents s' [3; 5; 7; 9].
Proof.
  destruct list_of_represents as (s & E & R).
  destruct (insert_correct 0 s [3; 5; 9] 7) as [_ [_ Hi]]; [exact R|].
  destruct Hi as (s' & E' & R'); [by repeat constructor|].
  exists s, s'. split; [exact E|]. split; [exact E'|exact R'].
Defined.

Lemma iterator_correct_witness :
  ∃ s node, list_of [5; 3; 9] = Ok s ∧ Iterator_SeekToLast s = Ok node ∧
    collect 3 (Iterator_Prev s) (nodes s) node = Ok [9; 5; 3].
Proof.
  destruct list_of_represents as (s & E & R).
  destruct (iterator_correct s [3; 5; 9] 4 R) as (_ & (node & En & Hc) & _).
  exists s, node. split; [exact E|]. split; [exact En|exact Hc].
Defined.

(** A reader that looks for 7 and sees every store of its insertion. *)
Lemma contains_during_insert_witness :
  ∃ s trace seed b, list_of [5; 3; 9] = Ok s ∧ Insert_trace s 7 = Ok (trace, seed) ∧
    Contains 20 (schedule trace (λ t, pred (length trace) - t)%nat) 1 7 = Ok b.
Proof.
  destruct list_of_represents as (s & E & R).
  assert (length (nodes s) = 4%nat) as El.
  { vm_compute in E. injection E as <-. reflexivity. }
  destruct (Insert_trace s 7) as [[trace seed]| |] eqn:Et.
  2-3: vm_compute in E; injection E as <-; vm_compute in Et; discriminate.
  assert (0 < length trace)%nat as Hl.
  { vm_compute in E. injection E as <-. vm_compute in Et. injection Et as <- _. cbn. lia. }
  destruct (contains_during_insert s [3; 5; 9] 7 7 trace seed (λ t, pred (length trace) - t)%nat 1 20 R)
    as (b & Hb & _); [by repeat constructor|exact Et|intros t; lia|intros t; lia
    |unfold kMaxHeight; lia|rewrite El; lia|].
  exists s, trace, seed, b. split; [exact E|]. split; [exact Et|exact Hb].
Defined.
