(* ===== verification/LdbFormat.v ===== *)
(** LevelDB's byte strings and keys: slices ([include/leveldb/slice.h]), the
    endian-neutral codings ([util/coding.h], [util/coding.cc]), the bytewise
    comparator ([util/comparator.cc]) and internal keys ([db/dbformat.h],
    [db/dbformat.cc]).

    A [std::string] and the bytes a slice refers to are lists of bytes. A pointer
    into a buffer that is only read is the list of the bytes from it to the limit. *)
From S2P Require Import Prelude LdbSkip.

Abbreviation bytes := (list Z).

(** [Status] ([include/leveldb/status.h]): [None] is success. *)
Module Status.

Inductive Code := kNotFound | kCorruption | kNotSupported | kInvalidArgument | kIOError.
Definition Status : Type := option (Code * string).
Definition OK : Status := None.
Definition NotFound (msg : string) : Status := Some (kNotFound, msg).
Definition Corruption (msg : string) : Status := Some (kCorruption, msg).
Definition InvalidArgument (msg : string) : Status := Some (kInvalidArgument, msg).
Definition IOError (msg : string) : Status := Some (kIOError, msg).
Definition ok (s : Status) : bool := match s with None => true | Some _ => false end.
End Status.

Module Slice.

Definition size (s : bytes) : Z := Z.of_nat (length s).
Definition empty (s : bytes) : bool := size s =? 0.

(** A [char] is signed on the targets. *)
Definition index (s : bytes) (n : Z) : res Z :=
  if n <? size s then b ← of_option (s !! Z.to_nat n); Ok (s8 b) else UB.

Definition clear (s : bytes) : bytes := [].

Definition remove_prefix (s : bytes) (n : Z) : res bytes :=
  if n <=? size s then Ok (drop (Z.to_nat n) s) else UB.

Definition ToString (s : bytes) : bytes := s.

(** The sign of [memcmp(a, b, n)]: the standard fixes no more. *)
Fixpoint memcmp (n : nat) (a b : bytes) : res Z :=
  match n with
  | O => Ok 0
  | S n' =>
      match a, b with
      | x :: a', y :: b' => if x <? y then Ok (-1) else if y <? x then Ok 1 else memcmp n' a' b'
      | _, _ => UB
      end
  end.

Definition starts_with (s x : bytes) : res bool :=
  if size x <=? size s then r ← memcmp (length x) s x; Ok (r =? 0) else Ok false.

Definition eqb (x y : bytes) : res bool :=
  if size x =? size y then r ← memcmp (length x) x y; Ok (r =? 0) else Ok false.
Definition neqb (x y : bytes) : res bool := r ← eqb x y; Ok (negb r).

Definition compare (a b : bytes) : res Z :=
  let min_len := if size a <? size b then length a else length b in
  r ← memcmp min_len a b;
  if r =? 0 then
    if size a <? size b then Ok (-1) else if size b <? size a then Ok 1 else Ok r
  else Ok r.
End Slice.

Module Coding.

(** [EncodeFixed32] and [EncodeFixed64]: the bytes stored at [dst]. *)
Definition EncodeFixed32 (value : Z) : bytes := le_bytes 4 value.
Definition EncodeFixed64 (value : Z) : bytes := le_bytes 8 value.

Definition PutFixed32 (dst : bytes) (value : Z) : bytes := dst ++ EncodeFixed32 value.
Definition PutFixed64 (dst : bytes) (value : Z) : bytes := dst ++ EncodeFixed64 value.

Definition DecodeFixed32 (ptr : bytes) : res Z :=
  if (4 <=? length ptr)%nat then Ok (le_of_bytes (take 4 ptr)) else UB.
Definition DecodeFixed64 (ptr : bytes) : res Z :=
  if (8 <=? length ptr)%nat then Ok (le_of_bytes (take 8 ptr)) else UB.

(** The bytes [EncodeVarint32] stores; a store keeps the low eight bits. *)
Definition EncodeVarint32 (v : Z) : bytes :=
  let B := 128 in
  if v <? Z.shiftl 1 7 then [u8 v]
  else if v <? Z.shiftl 1 14 then [u8 (Z.lor v B); u8 (Z.shiftr v 7)]
  else if v <? Z.shiftl 1 21 then
    [u8 (Z.lor v B); u8 (Z.lor (Z.shiftr v 7) B); u8 (Z.shiftr v 14)]
  else if v <? Z.shiftl 1 28 then
    [u8 (Z.lor v B); u8 (Z.lor (Z.shiftr v 7) B); u8 (Z.lor (Z.shiftr v 14) B);
     u8 (Z.shiftr v 21)]
  else
    [u8 (Z.lor v B); u8 (Z.lor (Z.shiftr v 7) B); u8 (Z.lor (Z.shiftr v 14) B);
     u8 (Z.lor (Z.shiftr v 21) B); u8 (Z.shiftr v 28)].

(** The loop of [EncodeVarint64]: ten turns at most. *)
Fixpoint encode_varint64_loop (fuel : nat) (v : Z) : res bytes :=
  match fuel with
  | O => NoFuel
  | S fuel' =>
      if 128 <=? v then
        rest ← encode_varint64_loop fuel' (Z.shiftr v 7);
        Ok (u8 (Z.lor (Z.land v 127) 128) :: rest)
      else Ok [u8 v]
  end.
Definition EncodeVarint64 (v : Z) : res bytes := encode_varint64_loop 10 v.

Definition PutVarint32 (dst : bytes) (v : Z) : bytes := dst ++ EncodeVarint32 v.
Definition PutVarint64 (dst : bytes) (v : Z) : res bytes := e ← EncodeVarint64 v; Ok (dst ++ e).
Definition PutLengthPrefixedSlice (dst value : bytes) : bytes :=
  PutVarint32 dst (u32 (Slice.size value)) ++ value.

Fixpoint varint_length_loop (fuel : nat) (v len : Z) : res Z :=
  match fuel with
  | O => NoFuel
  | S fuel' => if 128 <=? v then varint_length_loop fuel' (Z.shiftr v 7) (len + 1) else Ok len
  end.
Definition VarintLength (v : Z) : res Z := varint_length_loop 10 v 1.

(** The loops of [GetVarint32PtrFallback] and [GetVarint64Ptr], whose shifts go up
    to [last], in a variable of [w] bits; [None] is [NULL]. *)
Fixpoint get_varint_loop (fuel : nat) (w last : Z) (p : bytes) (shift result : Z)
    : res (option (Z * bytes)) :=
  match fuel with
  | O => NoFuel
  | S fuel' =>
      if last <? shift then Ok None
      else match p with
      | [] => Ok None
      | byte :: p =>
          if negb (Z.land byte 128 =? 0) then
            get_varint_loop fuel' w last p (shift + 7)
              (Z.lor result (Z.shiftl (Z.land byte 127) shift mod 2 ^ w))
          else Ok (Some (Z.lor result (Z.shiftl byte shift mod 2 ^ w), p))
      end
  end.

(** Shifts 0 to 28. *)
Definition GetVarint32PtrFallback (p : bytes) : res (option (Z * bytes)) :=
  get_varint_loop 6 32 28 p 0 0.

Definition GetVarint32Ptr (p : bytes) : res (option (Z * bytes)) :=
  match p with
  | byte :: q => if Z.land byte 128 =? 0 then Ok (Some (byte, q)) else GetVarint32PtrFallback p
  | [] => GetVarint32PtrFallback p
  end.

(** Shifts 0 to 63. *)
Definition GetVarint64Ptr (p : bytes) : res (option (Z * bytes)) :=
  get_varint_loop 11 64 63 p 0 0.

(** [(value, *input)] when they return true. *)
Definition GetVarint32 (input : bytes) : res (option (Z * bytes)) := GetVarint32Ptr input.
Definition GetVarint64 (input : bytes) : res (option (Z * bytes)) := GetVarint64Ptr input.

Definition GetLengthPrefixedSlice (input : bytes) : res (option (bytes * bytes)) :=
  r ← GetVarint32 input;
  match r with
  | Some (len, input) =>
      if len <=? Slice.size input then
        rest ← Slice.remove_prefix input len;
        Ok (Some (take (Z.to_nat len) input, rest))
      else Ok None
  | None => Ok None
  end.
End Coding.

(** * Comparators ([include/leveldb/comparator.h])

    The virtual functions of a comparator that act on keys. *)
Class SliceComparator := {
  Compare : bytes → bytes → res Z;
  FindShortestSeparator : bytes → bytes → res bytes;
  FindShortSuccessor : bytes → res bytes
}.

Module Bytewise.

(** The length of the common prefix, at most [n]: the first loop of
    [FindShortestSeparator]. *)
Fixpoint common (n : nat) (a b : bytes) (i : nat) : res nat :=
  match n with
  | O => Ok i
  | S n' =>
      x ← of_option (a !! i); y ← of_option (b !! i);
      if s8 x =? s8 y then common n' a b (S i) else Ok i
  end.

Definition find_separator (start limit : bytes) : res bytes :=
  let min_length := Nat.min (length start) (length limit) in
  diff_index ← common min_length start limit 0;
  if decide (min_length <= diff_index)%nat then Ok start
  else
    diff_byte ← of_option (start !! diff_index);
    l ← of_option (limit !! diff_index);
    if (diff_byte <? 0xff) && (diff_byte + 1 <? l) then
      let start := take (diff_index + 1) (<[diff_index := u8 (diff_byte + 1)]> start) in
      r ← Slice.compare start limit;
      SkipList.assert_ (r <? 0);;
      Ok start
    else Ok start.

(** From index [i] on, [n] bytes. *)
Fixpoint successor_loop (n i : nat) (key : bytes) : res bytes :=
  match n with
  | O => Ok key
  | S n' =>
      byte ← of_option (key !! i);
      if negb (byte =? 0xff) then Ok (take (i + 1) (<[i := u8 (byte + 1)]> key))
      else successor_loop n' (S i) key
  end.

Definition find_successor (key : bytes) : res bytes := successor_loop (length key) 0 key.

Definition BytewiseComparator : SliceComparator := {|
  Compare := Slice.compare;
  FindShortestSeparator := find_separator;
  FindShortSuccessor := find_successor
|}.
End Bytewise.

Module Internal.

Inductive ValueType := kTypeDeletion | kTypeValue.
Definition type_code (t : ValueType) : Z :=
  match t with kTypeDeletion => 0 | kTypeValue => 1 end.
Definition kValueTypeForSeek : ValueType := kTypeValue.
Definition kMaxSequenceNumber : Z := Z.shiftl 1 56 - 1.

Record ParsedInternalKey := mkParsed { user_key : bytes; sequence : Z; type : ValueType }.

Definition InternalKeyEncodingLength (key : ParsedInternalKey) : Z :=
  Slice.size (user_key key) + 8.

Definition PackSequenceAndType (seq : Z) (t : ValueType) : res Z :=
  SkipList.assert_ (seq <=? kMaxSequenceNumber);;
  SkipList.assert_ (type_code t <=? type_code kValueTypeForSeek);;
  Ok (Z.lor (u64 (Z.shiftl seq 8)) (type_code t)).

Definition AppendInternalKey (result : bytes) (key : ParsedInternalKey) : res bytes :=
  num ← PackSequenceAndType (sequence key) (type key);
  Ok (Coding.PutFixed64 (result ++ user_key key) num).

(** The last eight bytes as a number. *)
Definition tag_of (internal_key : bytes) : res Z :=
  Coding.DecodeFixed64 (drop (length internal_key - 8) internal_key).

(** [None] when it returns false. A type byte above [kTypeValue] is no type. *)
Definition ParseInternalKey (internal_key : bytes) : res (option ParsedInternalKey) :=
  let n := length internal_key in
  if decide (n < 8)%nat then Ok None
  else
    num ← tag_of internal_key;
    let c := Z.land num 0xff in
    let key t := mkParsed (take (n - 8) internal_key) (Z.shiftr num 8) t in
    Ok (if c =? 0 then Some (key kTypeDeletion)
        else if c =? 1 then Some (key kTypeValue)
        else None).

Definition ExtractUserKey (internal_key : bytes) : res bytes :=
  SkipList.assert_ (8 <=? Slice.size internal_key);;
  Ok (take (length internal_key - 8) internal_key).

(** The value of the type byte. *)
Definition ExtractValueType (internal_key : bytes) : res Z :=
  SkipList.assert_ (8 <=? Slice.size internal_key);;
  num ← tag_of internal_key;
  Ok (Z.land num 0xff).

(** Class [InternalKey]: its [rep_]. *)
Definition new (user_key : bytes) (s : Z) (t : ValueType) : res bytes :=
  AppendInternalKey [] (mkParsed user_key s t).
Definition DecodeFrom (s : bytes) : bytes := s.
Definition Encode (rep_ : bytes) : res bytes :=
  SkipList.assert_ (negb (Slice.empty rep_));; Ok rep_.
Definition SetFrom (p : ParsedInternalKey) : res bytes := AppendInternalKey [] p.

(** * The comparator of internal keys *)
Section comparator.
Context (user_comparator_ : SliceComparator).

Definition compare (akey bkey : bytes) : res Z :=
  a ← ExtractUserKey akey;
  b ← ExtractUserKey bkey;
  r ← Compare (SliceComparator := user_comparator_) a b;
  if r =? 0 then
    anum ← tag_of akey;
    bnum ← tag_of bkey;
    if bnum <? anum then Ok (-1) else if anum <? bnum then Ok 1 else Ok r
  else Ok r.

Definition find_separator (start limit : bytes) : res bytes :=
  user_start ← ExtractUserKey start;
  user_limit ← ExtractUserKey limit;
  tmp ← FindShortestSeparator (SliceComparator := user_comparator_) user_start user_limit;
  r ← (if Slice.size tmp <? Slice.size user_start
       then Compare (SliceComparator := user_comparator_) user_start tmp else Ok 0);
  if r <? 0 then
    num ← PackSequenceAndType kMaxSequenceNumber kValueTypeForSeek;
    let tmp := Coding.PutFixed64 tmp num in
    r1 ← compare start tmp;
    SkipList.assert_ (r1 <? 0);;
    r2 ← compare tmp limit;
    SkipList.assert_ (r2 <? 0);;
    Ok tmp
  else Ok start.

Definition find_successor (key : bytes) : res bytes :=
  user_key ← ExtractUserKey key;
  tmp ← FindShortSuccessor (SliceComparator := user_comparator_) user_key;
  r ← (if Slice.size tmp <? Slice.size user_key
       then Compare (SliceComparator := user_comparator_) user_key tmp else Ok 0);
  if r <? 0 then
    num ← PackSequenceAndType kMaxSequenceNumber kValueTypeForSeek;
    let tmp := Coding.PutFixed64 tmp num in
    r1 ← compare key tmp;
    SkipList.assert_ (r1 <? 0);;
    Ok tmp
  else Ok key.

Definition InternalKeyComparator : SliceComparator := {|
  Compare := compare;
  FindShortestSeparator := find_separator;
  FindShortSuccessor := find_successor
|}.
End comparator.

(** * Lookup keys

    The bytes from [start_] to [end_], and the offset of [kstart_]. *)
Record LookupKey := mkLookup { buffer : bytes; kstart : nat }.

(** The stores at [dst] must stay in the array, [space_] or a new one. *)
Definition lookup_key (user_key : bytes) (s : Z) : res LookupKey :=
  let usize := Slice.size user_key in
  let needed := u64 (usize + 13) in
  let room := if needed <=? 200 then 200 else needed in
  let len := Coding.EncodeVarint32 (u32 (u64 (usize + 8))) in
  num ← PackSequenceAndType s kValueTypeForSeek;
  let out := len ++ user_key ++ Coding.EncodeFixed64 num in
  if Slice.size out <=? room then Ok (mkLookup out (length len)) else UB.

Definition memtable_key (k : LookupKey) : bytes := buffer k.
Definition internal_key (k : LookupKey) : bytes := drop (kstart k) (buffer k).
Definition lookup_user_key (k : LookupKey) : bytes :=
  take (length (buffer k) - kstart k - 8) (drop (kstart k) (buffer k)).
End Internal.
