(* ===== verification/LdbCodingProps.v ===== *)
(** Slices and codings of LevelDB: what the decoders return on every input, their
    round trips with the encoders, and the order of slices. *)
From S2P Require Import Prelude PbVarint LdbSkip LdbSkipLemmas LdbFormat.

(** * The order of byte strings *)

Fixpoint lex (a b : bytes) : Z :=
  match a, b with
  | [], [] => 0
  | [], _ :: _ => -1
  | _ :: _, [] => 1
  | x :: a', y :: b' => if x <? y then -1 else if y <? x then 1 else lex a' b'
  end.

Lemma lex_app p a b : lex (p ++ a) (p ++ b) = lex a b.
Proof. induction p as [|x p IH]; [done|]. cbn. by rewrite Z.ltb_irrefl. Qed.

Lemma lex_eq a b : lex a b = 0 ↔ a = b.
Proof.
  split; [|intros ->; by rewrite <- (app_nil_r b), lex_app].
  revert b. induction a as [|x a IH]; intros [|y b]; cbn; [done..|].
  destruct (Z.ltb_spec x y), (Z.ltb_spec y x); [done..|]. intros E.
  f_equal; [lia|by apply IH].
Qed.

Lemma lex_swap a b : lex b a = - lex a b.
Proof.
  revert b. induction a as [|x a IH]; intros [|y b]; cbn; [done..|].
  destruct (Z.ltb_spec x y), (Z.ltb_spec y x); [lia|done|done|apply IH].
Qed.

Lemma lex_trans a b c : lex a b < 0 → lex b c < 0 → lex a c < 0.
Proof.
  revert b c. induction a as [|x a IH]; intros [|y b] [|z c]; cbn; try lia.
  destruct (Z.ltb_spec x y), (Z.ltb_spec y x), (Z.ltb_spec y z), (Z.ltb_spec z y),
    (Z.ltb_spec x z), (Z.ltb_spec z x); try lia. apply IH.
Qed.

(** The order of [BytewiseComparator]. *)
#[export] Instance bytewise_order : Comparator bytes := lex.
#[export] Instance bytewise_Order : Order bytes (H := bytewise_order).
Proof.
  split; unfold compare_, bytewise_order.
  - intros a b. rewrite (lex_swap b a). lia.
  - apply lex_trans.
  - intros a b c E%lex_eq. by subst.
Qed.

Lemma memcmp_lex n a b :
  (n <= length a)%nat → (n <= length b)%nat →
  Slice.memcmp n a b = Ok (lex (take n a) (take n b)).
Proof.
  revert a b. induction n as [|n IH]; intros [|x a] [|y b] Ha Hb; cbn in *; try (done || lia).
  destruct (x <? y); [done|]. destruct (y <? x); [done|]. apply IH; lia.
Qed.

Lemma lex_prefix a b :
  lex (take (length b) a) b = 0 → (length b < length a)%nat → lex a b = 1.
Proof.
  revert b. induction a as [|x a IH]; intros [|y b]; cbn; try (done || lia).
  destruct (x <? y); [done|]. destruct (y <? x); [done|]. intros. apply IH; [done|lia].
Qed.

Lemma lex_prefix_ne a b :
  lex (take (length b) a) b ≠ 0 → (length b <= length a)%nat → lex a b = lex (take (length b) a) b.
Proof.
  revert b. induction a as [|x a IH]; intros [|y b]; cbn; try (done || lia).
  destruct (x <? y); [done|]. destruct (y <? x); [done|]. intros. apply IH; [done|lia].
Qed.

Lemma compare_lex a b : Slice.compare a b = Ok (lex a b).
Proof.
  unfold Slice.compare, Slice.size, mbind, res_bind.
  destruct (Z.ltb_spec (Z.of_nat (length a)) (Z.of_nat (length b))) as [L|L].
  - rewrite memcmp_lex by lia. rewrite firstn_all. rewrite (lex_swap b a).
    destruct (Z.eqb_spec (lex a (take (length a) b)) 0) as [E|E].
    + rewrite lex_prefix; [done| |lia]. rewrite lex_swap. lia.
    + rewrite (lex_prefix_ne b a); [f_equal; rewrite lex_swap; lia| |lia]. rewrite lex_swap. lia.
  - rewrite memcmp_lex by lia. rewrite firstn_all.
    destruct (Z.eqb_spec (lex (take (length b) a) b) 0) as [E|E].
    + destruct (Z.ltb_spec (Z.of_nat (length b)) (Z.of_nat (length a))).
      * by rewrite lex_prefix by (done || lia).
      * rewrite firstn_all2 in E by lia. by rewrite firstn_all2, E by lia.
    + by rewrite (lex_prefix_ne a b) by (done || lia).
Qed.

(** * Variable-length integers *)

(** A byte sequence split after the varint it starts with, of at most [n] bytes. *)
Fixpoint split_varint (n : nat) (p : bytes) : option (bytes * bytes) :=
  match n, p with
  | S n', b :: p' =>
      if b <? 128 then Some ([b], p')
      else match split_varint n' p' with
           | Some (bs, rest) => Some (b :: bs, rest)
           | None => None
           end
  | _, _ => None
  end.

(** A varint of at most [n] bytes, read into [w] bits. *)
Definition parse_varint (n : nat) (w : Z) (p : bytes) : option (Z * bytes) :=
  match split_varint n p with
  | Some (bs, rest) => Some (varint_value bs mod 2 ^ w, rest)
  | None => None
  end.

Lemma split_varint_app n bs rest :
  is_varint bs → (length bs <= n)%nat → split_varint n (bs ++ rest) = Some (bs, rest).
Proof.
  intros H. revert n. induction H as [b Hb|b bs Hb H IH]; intros [|n] Hn; cbn in *; try lia.
  - by rewrite (proj2 (Z.ltb_lt _ _)) by lia.
  - by rewrite (proj2 (Z.ltb_ge _ _)), IH by lia.
Qed.

Lemma encode_varint64_loop_ok k v :
  0 <= v < 2 ^ (7 * Z.of_nat (S k)) → Coding.encode_varint64_loop (S k) v = Ok (leb128 k v).
Proof.
  revert v. induction k as [|k IH]; intros v Hv; cbn [Coding.encode_varint64_loop leb128];
    rewrite Z.leb_antisym.
  { rewrite (proj2 (Z.ltb_lt v 128)) by exact (proj2 Hv). cbn [negb]. rewrite u8_small; [done|].
    change (2 ^ (7 * Z.of_nat 1)) with 128 in Hv. lia. }
  destruct (Z.ltb_spec v 128); cbn [negb]; [by rewrite u8_small by lia|].
  rewrite Z.shiftr_div_pow2 by lia. change (2 ^ 7) with 128.
  pose proof (div_128_bound v (S k) Hv) as Hd. specialize (IH _ Hd).
  cbn [Coding.encode_varint64_loop] in IH. rewrite IH. unfold mbind, res_bind.
  rewrite varint_byte. rewrite u8_small; [done|]. pose proof (Z.mod_pos_bound v 128). lia.
Qed.

Lemma EncodeVarint64_varint v : 0 <= v < 2 ^ 64 → Coding.EncodeVarint64 v = Ok (varint v).
Proof. intros. apply encode_varint64_loop_ok. lia. Qed.

(** A byte with the continuation bit, without the other masks. *)
Lemma varint32_byte v : u8 (Z.lor v 128) = v mod 128 + 128.
Proof.
  change (u8 (Z.lor v 128)) with (Z.lor v 128 mod 2 ^ 8). rewrite <- Z.land_ones by lia.
  rewrite Z.land_lor_distr_l, Z.land_ones by lia. change (Z.land 128 (Z.ones 8)) with 128.
  change (2 ^ 8) with 256.
  rewrite <- (Z.mod_mod_divide v 256 128) by (by exists 2).
  apply Z.eqb_eq. generalize (Z.mod_pos_bound v 256 ltac:(lia)). generalize (v mod 256).
  apply (forall_below 256 (λ b, Z.lor b 128 =? b mod 128 + 128)). by vm_compute.
Qed.

Lemma EncodeVarint32_varint v : 0 <= v < 2 ^ 32 → Coding.EncodeVarint32 v = varint v.
Proof.
  intros Hv. unfold Coding.EncodeVarint32, varint. rewrite !varint32_byte.
  change (Z.shiftl 1 7) with 128. change (Z.shiftl 1 14) with (128 * 128).
  change (Z.shiftl 1 21) with (128 * 16384). change (Z.shiftl 1 28) with (128 * 2097152).
  rewrite !Z.shiftr_div_pow2 by lia.
  change (2 ^ 7) with 128. change (2 ^ 14) with (128 * 128).
  change (2 ^ 21) with (128 * 128 * 128). change (2 ^ 28) with (128 * 128 * 128 * 128).
  rewrite <- !Z.div_div by lia. cbn [leb128].
  repeat match goal with
  | |- context [if ?a <? ?b then _ else _] => destruct (Z.ltb_spec a b)
  end; try (rewrite ?u8_small by (Z.div_mod_to_equations; lia); done);
    exfalso; Z.div_mod_to_equations; lia.
Qed.

Lemma varint_length_loop_ok k v len :
  0 <= v < 2 ^ (7 * Z.of_nat (S k)) →
  Coding.varint_length_loop (S k) v len = Ok (len + Z.of_nat (length (leb128 k v)) - 1).
Proof.
  revert v len. induction k as [|k IH]; intros v len Hv; cbn [Coding.varint_length_loop leb128];
    rewrite Z.leb_antisym.
  { rewrite (proj2 (Z.ltb_lt v 128)) by exact (proj2 Hv). cbn [negb length]. f_equal. lia. }
  destruct (Z.ltb_spec v 128); cbn [negb length]; [f_equal; lia|].
  rewrite Z.shiftr_div_pow2 by lia. change (2 ^ 7) with 128.
  pose proof (div_128_bound v (S k) Hv) as Hd. specialize (IH _ (len + 1) Hd).
  cbn [Coding.varint_length_loop] in IH. rewrite IH. f_equal. lia.
Qed.

Lemma VarintLength_ok v :
  0 <= v < 2 ^ 64 → Coding.VarintLength v = Ok (Z.of_nat (length (varint v))).
Proof.
  intros. unfold Coding.VarintLength. rewrite varint_length_loop_ok by lia. f_equal. unfold varint. lia.
Qed.

(** One byte of the loop, in a variable of [w] bits. *)
Lemma get_varint_add w shift result c :
  0 <= shift < w → 0 <= result < 2 ^ shift → 0 <= c →
  Z.lor result (Z.shiftl c shift mod 2 ^ w) = result + (c mod 2 ^ (w - shift)) * 2 ^ shift.
Proof.
  intros Hs Hr Hc.
  assert (Z.shiftl c shift mod 2 ^ w = Z.shiftl (c mod 2 ^ (w - shift)) shift) as ->.
  { rewrite !Z.shiftl_mul_pow2 by lia.
    replace (2 ^ w) with (2 ^ (w - shift) * 2 ^ shift)
      by (rewrite <- Z.pow_add_r by lia; f_equal; lia).
    apply Z.mul_mod_distr_r; apply Z.pow_nonzero; lia. }
  apply lor_disjoint_add; [lia|done|]. apply Z.mod_pos_bound. lia.
Qed.

(** Adding the last group: what does not fit is dropped. *)
Lemma get_varint_last w shift result c :
  0 <= shift < w → 0 <= result < 2 ^ shift →
  result + (c mod 2 ^ (w - shift)) * 2 ^ shift = (result + c * 2 ^ shift) mod 2 ^ w.
Proof.
  intros Hs Hr.
  assert (2 ^ w = 2 ^ (w - shift) * 2 ^ shift) as E
    by (rewrite <- Z.pow_add_r by lia; f_equal; lia).
  pose proof (Z.mod_pos_bound c (2 ^ (w - shift)) ltac:(lia)).
  rewrite <- (Z.mod_small (result + c mod 2 ^ (w - shift) * 2 ^ shift) (2 ^ w)) by nia.
  rewrite E, <- Z.mul_mod_distr_r by lia. by rewrite Zplus_mod_idemp_r.
Qed.

Lemma split_varint_value n p bs rest : split_varint n p = Some (bs, rest) → bs ≠ [].
Proof.
  destruct n as [|n], p as [|b p]; [done..|]. cbn. destruct (b <? 128).
  - by intros [= <- <-].
  - destruct (split_varint n p) as [[? ?]|]; [|done]. by intros [= <- <-].
Qed.

(** What the loops return on every sequence of bytes. *)
Lemma get_varint_loop_ok w last (Hw : last < w) n :
  ∀ p shift result, Forall is_byte p → shift + 7 * Z.of_nat n = last + 7 →
  0 <= shift → 0 <= result < 2 ^ shift →
  Coding.get_varint_loop (S n) w last p shift result =
  Ok (match split_varint n p with
      | Some (bs, rest) => Some ((result + varint_value bs * 2 ^ shift) mod 2 ^ w, rest)
      | None => None
      end).
Proof.
  induction n as [|n IH]; intros p shift result Hp Hs H0 Hr.
  { cbn. by rewrite (proj2 (Z.ltb_lt _ _)) by lia. }
  change (Coding.get_varint_loop (S (S n)) w last p shift result) with
    (if last <? shift then Ok None
     else match p with
     | [] => Ok None
     | byte :: p =>
         if negb (Z.land byte 128 =? 0) then
           Coding.get_varint_loop (S n) w last p (shift + 7)
             (Z.lor result (Z.shiftl (Z.land byte 127) shift mod 2 ^ w))
         else Ok (Some (Z.lor result (Z.shiftl byte shift mod 2 ^ w), p))
     end).
  rewrite (proj2 (Z.ltb_ge _ _)) by lia. destruct p as [|b p]; [done|].
  apply list.Forall_cons in Hp as [Hb Hp]. rewrite land_128_byte by done. cbn [split_varint].
  unfold is_byte in Hb. destruct (Z.ltb_spec b 128) as [Lb|Lb]; cbn [negb Z.eqb].
  - rewrite get_varint_add, get_varint_last by lia. cbn [varint_value].
    rewrite (Z.mod_small b 128) by lia. by rewrite Z.mul_0_r, Z.add_0_r.
  - rewrite land_127. pose proof (Z.mod_pos_bound b 128 ltac:(lia)).
    rewrite get_varint_add by lia.
    assert (0 <= result + b mod 128 * 2 ^ shift < 2 ^ (shift + 7)) as grow
      by (rewrite Z.pow_add_r by lia; nia).
    destruct (split_varint n p) as [[bs rest]|] eqn:E.
    + assert (shift + 7 <= w) as H7.
      { destruct n; [done|]. lia. }
      assert (b mod 128 < 2 ^ (w - shift)).
      { apply Z.lt_le_trans with (2 ^ 7); [lia|]. apply Z.pow_le_mono_r; lia. }
      rewrite (Z.mod_small (b mod 128) (2 ^ (w - shift))) by lia.
      rewrite IH by (done || lia || by apply grow). rewrite E.
      rewrite Z.pow_add_r by lia. cbn [varint_value]. do 4 f_equal. lia.
    + destruct n as [|n].
      * cbn. by rewrite (proj2 (Z.ltb_lt _ _)) by lia.
      * assert (b mod 128 < 2 ^ (w - shift)).
        { apply Z.lt_le_trans with (2 ^ 7); [lia|]. apply Z.pow_le_mono_r; lia. }
        rewrite (Z.mod_small (b mod 128) (2 ^ (w - shift))) by lia.
        rewrite IH by (done || lia || by apply grow). by rewrite E.
Qed.

Lemma GetVarint64_ok p :
  Forall is_byte p → Coding.GetVarint64 p = Ok (parse_varint 10 64 p).
Proof.
  intros Hp. unfold Coding.GetVarint64, Coding.GetVarint64Ptr, parse_varint.
  rewrite get_varint_loop_ok by (done || lia).
  destruct (split_varint 10 p) as [[bs rest]|]; [|done]. by rewrite Z.mul_1_r.
Qed.

Lemma GetVarint32_ok p :
  Forall is_byte p → Coding.GetVarint32 p = Ok (parse_varint 5 32 p).
Proof.
  intros Hp. unfold Coding.GetVarint32, Coding.GetVarint32Ptr, Coding.GetVarint32PtrFallback.
  assert (Coding.get_varint_loop 6 32 28 p 0 0 = Ok (parse_varint 5 32 p)) as E.
  { unfold parse_varint. rewrite get_varint_loop_ok by (done || lia).
    destruct (split_varint 5 p) as [[bs rest]|]; [|done]. by rewrite Z.mul_1_r. }
  destruct p as [|b p]; [exact E|].
  destruct (Z.eqb_spec (Z.land b 128) 0) as [E0|_]; [|exact E].
  apply list.Forall_cons in Hp as [Hb _]. rewrite land_128_byte in E0 by done.
  unfold parse_varint. cbn [split_varint]. destruct (Z.ltb_spec b 128); [|done].
  unfold is_byte in Hb. cbn [varint_value]. rewrite (Z.mod_small b 128), Z.mul_0_r, Z.add_0_r, Z.mod_small by lia. done.
Qed.

Lemma varint_length_32 v : 0 <= v < 2 ^ 32 → (length (varint v) <= 5)%nat.
Proof. intros. apply (leb128_length_bound 4). lia. Qed.

Lemma parse_varint_varint n w v rest :
  0 <= v < 2 ^ w → 0 <= v < 2 ^ 64 → (length (varint v) <= n)%nat →
  parse_varint n w (varint v ++ rest) = Some (v, rest).
Proof.
  intros Hw Hv Hl. unfold parse_varint. rewrite split_varint_app by (by try apply varint_is_varint).
  by rewrite varint_value_varint, Z.mod_small.
Qed.

(** * Fixed-width integers and length-prefixed slices *)

Lemma DecodeFixed64_app v rest :
  Coding.DecodeFixed64 (Coding.EncodeFixed64 v ++ rest) = Ok (v mod 2 ^ 64).
Proof.
  unfold Coding.DecodeFixed64, Coding.EncodeFixed64. rewrite length_app, length_le_bytes.
  cbn [Nat.leb Nat.add]. rewrite take_app_length' by by rewrite length_le_bytes.
  by rewrite le_of_bytes_le_bytes.
Qed.

Lemma DecodeFixed32_app v rest :
  Coding.DecodeFixed32 (Coding.EncodeFixed32 v ++ rest) = Ok (v mod 2 ^ 32).
Proof.
  unfold Coding.DecodeFixed32, Coding.EncodeFixed32. rewrite length_app, length_le_bytes.
  cbn [Nat.leb Nat.add]. rewrite take_app_length' by by rewrite length_le_bytes.
  by rewrite le_of_bytes_le_bytes.
Qed.

(** * Arrays of 32-bit words *)

Lemma DecodeFixed32_ok data :
  4 <= Slice.size data → Coding.DecodeFixed32 data = Ok (le_of_bytes (take 4 data)).
Proof.
  intros H. unfold Coding.DecodeFixed32. unfold Slice.size in H.
  by rewrite (proj2 (Nat.leb_le _ _)) by lia.
Qed.

Definition words (l : list Z) : bytes := concat (le_bytes 4 <$> l).

Lemma fold_PutFixed32 l : ∀ dst, fold_left Coding.PutFixed32 l dst = dst ++ words l.
Proof.
  induction l as [|x l IH]; intros dst; cbn [fold_left]; [by rewrite app_nil_r|].
  rewrite IH. unfold Coding.PutFixed32, Coding.EncodeFixed32. by rewrite <- app_assoc.
Qed.

Lemma words_app a b : words (a ++ b) = words a ++ words b.
Proof. unfold words. by rewrite fmap_app, concat_app. Qed.

Lemma length_words l : length (words l) = (4 * length l)%nat.
Proof.
  induction l as [|x l IH]; [done|]. unfold words in *. cbn [fmap list_fmap concat length].
  rewrite length_app, length_le_bytes, IH. lia.
Qed.

Lemma drop_words l i w t :
  l !! i = Some w → ∃ t', drop (4 * i) (words l ++ t) = le_bytes 4 w ++ t'.
Proof.
  intros Hi. rewrite <- (take_drop_middle l i w Hi), words_app, <- app_assoc.
  rewrite drop_app_length' by (rewrite length_words, length_take_le; [done|];
    apply lookup_lt_Some in Hi; lia).
  unfold words at 1. cbn [fmap list_fmap concat]. rewrite <- app_assoc. eauto.
Qed.

Lemma DecodeFixed32_word w t : 0 <= w < 2 ^ 32 → Coding.DecodeFixed32 (le_bytes 4 w ++ t) = Ok w.
Proof.
  intros Hw. rewrite DecodeFixed32_ok by (unfold Slice.size; rewrite length_app, length_le_bytes; lia).
  rewrite take_app_length' by by rewrite length_le_bytes.
  rewrite le_of_bytes_le_bytes. by rewrite Z.mod_small.
Qed.

(** The form of a slice in a length-prefixed coding, and its parsing. *)
Definition prefixed (value : bytes) : bytes := varint (Slice.size value) ++ value.

Definition parse_prefixed (p : bytes) : option (bytes * bytes) :=
  match parse_varint 5 32 p with
  | Some (len, rest) =>
      if len <=? Slice.size rest then Some (take (Z.to_nat len) rest, drop (Z.to_nat len) rest)
      else None
  | None => None
  end.

Lemma PutLengthPrefixedSlice_ok dst value :
  Slice.size value < 2 ^ 32 → Coding.PutLengthPrefixedSlice dst value = dst ++ prefixed value.
Proof.
  intros H. unfold Coding.PutLengthPrefixedSlice, Coding.PutVarint32, prefixed, Slice.size in *.
  rewrite u32_small, EncodeVarint32_varint by lia. by rewrite app_assoc.
Qed.

Lemma parse_varint_size v rest :
  Slice.size v < 2 ^ 32 →
  parse_varint 5 32 (varint (Slice.size v) ++ rest) = Some (Slice.size v, rest).
Proof.
  unfold Slice.size. intros. apply parse_varint_varint; [lia|lia|]. apply varint_length_32. lia.
Qed.

Lemma parse_prefixed_app value rest :
  Slice.size value < 2 ^ 32 → parse_prefixed (prefixed value ++ rest) = Some (value, rest).
Proof.
  intros H. unfold parse_prefixed, prefixed. rewrite <- app_assoc, parse_varint_size by done.
  unfold Slice.size in *. rewrite length_app, (proj2 (Z.leb_le _ _)) by lia. rewrite Nat2Z.id.
  by rewrite take_app_length, drop_app_length.
Qed.

Lemma GetLengthPrefixedSlice_ok p :
  Forall is_byte p → Coding.GetLengthPrefixedSlice p = Ok (parse_prefixed p).
Proof.
  intros Hp. unfold Coding.GetLengthPrefixedSlice, parse_prefixed. rewrite GetVarint32_ok by done.
  unfold mbind, res_bind. destruct (parse_varint 5 32 p) as [[len rest]|]; [|done].
  destruct (Z.leb_spec len (Slice.size rest)); [|done]. unfold Slice.remove_prefix.
  by rewrite (proj2 (Z.leb_le _ _)).
Qed.

Lemma split_varint_concat n p bs rest : split_varint n p = Some (bs, rest) → p = bs ++ rest.
Proof.
  revert p bs. induction n as [|n IH]; intros [|b p] bs; cbn; [done..|]. destruct (b <? 128).
  - by intros [= <- <-].
  - destruct (split_varint n p) as [[bs' rest']|] eqn:E; [|done]. intros [= <- <-].
    by rewrite (IH _ _ E).
Qed.

(** Parsing leaves a proper suffix of the input. *)
Lemma parse_prefixed_shorter p v rest :
  parse_prefixed p = Some (v, rest) → (length rest < length p)%nat ∧ ∃ hd, p = hd ++ v ++ rest.
Proof.
  unfold parse_prefixed, parse_varint. destruct (split_varint 5 p) as [[bs q]|] eqn:E; [|done].
  destruct (_ <=? _); [|done]. intros [= <- <-]. pose proof (split_varint_value _ _ _ _ E) as Hn.
  apply split_varint_concat in E as ->. rewrite length_app, length_drop.
  destruct bs; [done|]. cbn [length]. split; [lia|]. eexists. by rewrite take_drop.
Qed.

(** * Properties *)

(** On every sequence of bytes [GetVarint32] and [GetVarint64] return: the
    value of the varint the input starts with, modulo the width, and the rest, or
    false when the input starts with no varint of at most five or ten bytes;
    [GetLengthPrefixedSlice] the slice of that length, or false when the input is
    too short. None of them reads outside of the input. *)
Theorem coding_decoders p :
  Forall is_byte p →
  Coding.GetVarint32 p = Ok (parse_varint 5 32 p) ∧
  Coding.GetVarint64 p = Ok (parse_varint 10 64 p) ∧
  Coding.GetLengthPrefixedSlice p = Ok (parse_prefixed p).
Proof.
  intros Hp. split_and!;
    [by apply GetVarint32_ok|by apply GetVarint64_ok|by apply GetLengthPrefixedSlice_ok].
Qed.

Lemma coding_decoders_witness :
  Coding.GetVarint32 [0xFF; 0xFF; 0xFF; 0xFF; 0x1F; 7] = Ok (Some (0xFFFFFFFF, [7])).
Proof. apply (coding_decoders [0xFF; 0xFF; 0xFF; 0xFF; 0x1F; 7]). forall_list. Defined.

(** The codings of LevelDB round-trip: [PutVarint32] and [PutVarint64] append
    the shortest varint, the same that nanopb's encoder makes, of the length that
    [VarintLength] tells, and the decoders return the value and what follows; so
    do fixed-width integers and length-prefixed slices. *)
Theorem coding_roundtrip dst rest v w value :
  0 <= v < 2 ^ 32 → 0 <= w < 2 ^ 64 → Slice.size value < 2 ^ 32 →
  Forall is_byte rest → Forall is_byte value →
  Coding.PutVarint32 dst v = dst ++ varint v ∧
  Coding.PutVarint64 dst w = Ok (dst ++ varint w) ∧
  Coding.VarintLength w = Ok (Z.of_nat (length (varint w))) ∧
  Coding.GetVarint32 (varint v ++ rest) = Ok (Some (v, rest)) ∧
  Coding.GetVarint64 (varint w ++ rest) = Ok (Some (w, rest)) ∧
  Coding.DecodeFixed32 (Coding.PutFixed32 [] v ++ rest) = Ok v ∧
  Coding.DecodeFixed64 (Coding.PutFixed64 [] w ++ rest) = Ok w ∧
  Coding.GetLengthPrefixedSlice (Coding.PutLengthPrefixedSlice [] value ++ rest) =
    Ok (Some (value, rest)).
Proof.
  intros Hv Hw Hs Hr Hb.
  assert (∀ x, 0 <= x < 2 ^ 64 → Forall is_byte (varint x ++ rest)) as Hx.
  { intros x ?. apply List.Forall_app. split; [|done]. apply leb128_bytes. lia. }
  split_and!.
  - unfold Coding.PutVarint32. by rewrite EncodeVarint32_varint.
  - unfold Coding.PutVarint64. by rewrite EncodeVarint64_varint.
  - by apply VarintLength_ok.
  - rewrite GetVarint32_ok, parse_varint_varint; [done..|lia|by apply varint_length_32|].
    apply Hx. lia.
  - rewrite GetVarint64_ok by by apply Hx.
    rewrite parse_varint_varint; [done..|]. apply varint_length.
  - unfold Coding.PutFixed32. by rewrite app_nil_l, DecodeFixed32_app, Z.mod_small.
  - unfold Coding.PutFixed64. by rewrite app_nil_l, DecodeFixed64_app, Z.mod_small.
  - rewrite PutLengthPrefixedSlice_ok, app_nil_l by done.
    rewrite GetLengthPrefixedSlice_ok, parse_prefixed_app; [done..|].
    unfold prefixed. rewrite <- app_assoc. apply List.Forall_app. split.
    + apply leb128_bytes. unfold Slice.size in *. lia.
    + by apply List.Forall_app.
Qed.

Lemma coding_roundtrip_witness :
  Coding.GetVarint64 (varint 0x1234567890 ++ [5]) = Ok (Some (0x1234567890, [5])).
Proof.
  apply (coding_roundtrip [] [5] 300 0x1234567890 [1; 2]); [lia|lia|done| |]; forall_list.
Defined.

(** Slices are ordered lexicographically as sequences of unsigned bytes:
    [compare] returns the order's result, zero exactly for equal slices, its sign
    changes when the arguments are swapped, and it is transitive; [operator==] is
    equality and [starts_with] the prefix relation. *)
Theorem slice_order a b c :
  Slice.compare a b = Ok (lex a b) ∧
  (Slice.compare a b = Ok 0 ↔ a = b) ∧
  lex b a = - lex a b ∧
  (lex a b < 0 → lex b c < 0 → lex a c < 0) ∧
  Slice.eqb a b = Ok (bool_decide (a = b)) ∧
  Slice.starts_with a b = Ok (bool_decide (b `prefix_of` a)).
Proof.
  split_and!; [apply compare_lex| |apply lex_swap|apply lex_trans| |].
  - rewrite compare_lex, <- lex_eq. split; congruence.
  - unfold Slice.eqb, Slice.size, mbind, res_bind.
    destruct (Z.eqb_spec (Z.of_nat (length a)) (Z.of_nat (length b))) as [L|L].
    + rewrite memcmp_lex, firstn_all, firstn_all2 by lia. f_equal.
      apply eq_true_iff_eq. by rewrite Z.eqb_eq, lex_eq, bool_decide_eq_true.
    + rewrite bool_decide_eq_false_2; [done|]. intros ->. done.
  - unfold Slice.starts_with, Slice.size, mbind, res_bind.
    destruct (Z.leb_spec (Z.of_nat (length b)) (Z.of_nat (length a))) as [L|L].
    + rewrite memcmp_lex, firstn_all by lia. f_equal.
      apply eq_true_iff_eq. rewrite Z.eqb_eq, lex_eq, bool_decide_eq_true. split.
      * intros <-. exists (drop (length b) a). by rewrite take_drop.
      * intros [k ->]. apply take_app_length.
    + rewrite bool_decide_eq_false_2; [done|]. intros [k ->]. rewrite length_app in L. lia.
Qed.
