(* ===== verification/LdbOrder.v ===== *)
(** The contract of LevelDB's comparators ([include/leveldb/comparator.h]), that the
    bytewise comparator keeps it, and that the comparator of internal keys keeps
    it when the user's comparator does. *)
From S2P Require Import Prelude LdbSkip LdbSkipLemmas LdbFormat LdbCodingProps.

(** * The contract

    On the slices it can compare ([dom]) a comparator answers with a fixed order;
    for [valid] keys a separator is the key itself or one between the two, and a
    successor is no smaller than the key. *)
Class Lawful (C : SliceComparator) (dom valid : bytes → Prop) (ord : Comparator bytes) : Prop := {
  lawful_order :: Order bytes (H := ord);
  lawful_dom k : valid k → dom k;
  lawful_compare a b : dom a → dom b → Compare a b = Ok (compare_ a b);
  lawful_separator start limit :
    valid start → valid limit →
    ∃ r, FindShortestSeparator start limit = Ok r ∧ valid r ∧
      (r = start ∨ compare_ start r <= 0 ∧ compare_ r limit < 0);
  lawful_successor key :
    valid key → ∃ r, FindShortSuccessor key = Ok r ∧ valid r ∧ compare_ key r <= 0
}.

(** * Orders made from orders *)

(** Orders through a partial decoding; what has none comes first. *)
Definition via {A B} (dec : A → option B) (cmp : B → B → Z) (a b : A) : Z :=
  match dec a, dec b with
  | Some x, Some y => cmp x y
  | Some _, None => 1
  | None, Some _ => -1
  | None, None => 0
  end.

Lemma via_order {A B} (dec : A → option B) (cmp : B → B → Z) :
  Order B (H := cmp) → Order A (H := via dec cmp).
Proof.
  intros HB. split; unfold compare_, via; intros a b.
  - destruct (dec a), (dec b); [apply (cmp_swap (H := cmp))|lia..].
  - intros c. destruct (dec a), (dec b), (dec c); try lia. apply (cmp_trans (H := cmp)).
  - intros c. destruct (dec a), (dec b), (dec c); try lia. apply (cmp_eq (H := cmp)).
Qed.

(** Increasing first component, then decreasing second component. *)
Definition then_down {A} (cmp : A → A → Z) (a b : A * Z) : Z :=
  let r := cmp a.1 b.1 in
  if r =? 0 then if b.2 <? a.2 then -1 else if a.2 <? b.2 then 1 else 0 else r.

Section order.
Context {A : Type} `{Order A}.

Lemma cmp_zero_swap a b : compare_ a b = 0 ↔ compare_ b a = 0.
Proof. pose proof (cmp_swap a b). pose proof (cmp_swap b a). lia. Qed.

Lemma cmp_eq_r a b c : compare_ a b < 0 → compare_ b c = 0 → compare_ a c < 0.
Proof.
  intros L E. apply cmp_zero_swap in E.
  destruct (Z.lt_trichotomy (compare_ a c) 0) as [|[E'|G]]; [done| |].
  - apply cmp_zero_swap in E'. pose proof (cmp_eq _ _ _ E' L). lia.
  - apply cmp_swap in G. pose proof (cmp_trans _ _ _ G L). lia.
Qed.

Lemma cmp_zero_trans a b c : compare_ a b = 0 → compare_ b c = 0 → compare_ a c = 0.
Proof.
  intros E1 E2. destruct (Z.lt_trichotomy (compare_ a c) 0) as [L|[E'|G]]; [|done|].
  - apply cmp_zero_swap in E1. pose proof (cmp_eq _ _ _ E1 L). lia.
  - apply cmp_swap in G. pose proof (cmp_eq_r _ _ _ G E1). apply cmp_zero_swap in E2. lia.
Qed.

Lemma cmp_refl a : compare_ a a = 0.
Proof. pose proof (cmp_swap a a). lia. Qed.

Lemma then_down_order : Order (A * Z) (H := then_down compare_).
Proof.
  split; intros [a x] [b y]; change (@compare_ (A * Z) _) with (then_down (@compare_ A _)).
  - cbv [then_down fst snd]. pose proof (cmp_swap a b). pose proof (cmp_zero_swap a b).
    destruct (Z.eqb_spec (compare_ a b) 0), (Z.eqb_spec (compare_ b a) 0); try lia.
    destruct (Z.ltb_spec x y), (Z.ltb_spec y x); lia.
  - intros [c z]. cbv [then_down fst snd]. pose proof (cmp_trans a b c). pose proof (cmp_eq a b c).
    pose proof (cmp_eq_r a b c). pose proof (cmp_zero_trans a b c).
    destruct (Z.eqb_spec (compare_ a b) 0), (Z.eqb_spec (compare_ b c) 0),
      (Z.eqb_spec (compare_ a c) 0); try lia.
    destruct (Z.ltb_spec x y), (Z.ltb_spec y x), (Z.ltb_spec y z), (Z.ltb_spec z y),
      (Z.ltb_spec x z), (Z.ltb_spec z x); lia.
  - intros [c z]. cbv [then_down fst snd]. pose proof (cmp_eq a b c). pose proof (cmp_zero_trans a b c).
    destruct (Z.eqb_spec (compare_ a b) 0), (Z.eqb_spec (compare_ b c) 0),
      (Z.eqb_spec (compare_ a c) 0); try lia.
    destruct (Z.ltb_spec x y), (Z.ltb_spec y x), (Z.ltb_spec y z), (Z.ltb_spec z y),
      (Z.ltb_spec x z), (Z.ltb_spec z x); lia.
Qed.
End order.

(** * The bytewise comparator *)

Lemma s8_inj x y : is_byte x → is_byte y → s8 x = s8 y → x = y.
Proof.
  unfold is_byte, s8. intros Hx Hy E. apply (f_equal (λ z, z mod 2 ^ 8)) in E.
  rewrite !swrap_mod in E by lia. rewrite !Z.mod_small in E by lia. done.
Qed.

(** The first index at which the strings differ, if there is one. *)
Lemma common_ok a b : Forall is_byte a → Forall is_byte b → ∀ n i,
  (i + n = Nat.min (length a) (length b))%nat → take i a = take i b →
  ∃ j, Bytewise.common n a b i = Ok j ∧ (j <= i + n)%nat ∧ take j a = take j b ∧
    ((j < i + n)%nat → ∃ x y, a !! j = Some x ∧ b !! j = Some y ∧ x ≠ y).
Proof.
  intros Ha Hb. induction n as [|n IH]; intros i Hi Hp.
  { exists i. split_and!; [done|lia|done|lia]. }
  destruct (lookup_lt_is_Some_2 a i) as [x Hx]; [lia|].
  destruct (lookup_lt_is_Some_2 b i) as [y Hy]; [lia|].
  cbn [Bytewise.common]. rewrite Hx, Hy. unfold mbind, res_bind. cbn [of_option].
  destruct (Z.eqb_spec (s8 x) (s8 y)) as [E|E].
  - apply s8_inj in E as ->;
      [|by eapply Forall_lookup_1 in Hx|by eapply Forall_lookup_1 in Hy].
    destruct (IH (S i)) as (j & E & Hj & Ht & Hd); [lia| |].
    { by rewrite (take_S_r _ _ _ Hx), (take_S_r _ _ _ Hy), Hp. }
    exists j. split_and!; [done|lia|done|]. intros. apply Hd. lia.
  - exists i. split_and!; [done|lia|done|]. intros _. exists x, y. split_and!; [done..|congruence].
Qed.

Lemma lex_at a b c i x :
  take i a = take i b → a !! i = Some x → lex a (take i b ++ c) = lex (drop i a) c.
Proof. intros E Hx. rewrite <- (take_drop i a) at 1. by rewrite E, lex_app. Qed.

Lemma take_insert_last (a : bytes) i z :
  (i < length a)%nat → take (i + 1) (<[i := z]> a) = take i a ++ [z].
Proof.
  intros Hi. rewrite Nat.add_1_r, (take_S_r _ _ z) by by apply list_lookup_insert_eq.
  by rewrite take_insert_ge.
Qed.

Lemma byte_take n (a : bytes) : Forall is_byte a → Forall is_byte (take n a).
Proof. apply Forall_take. Qed.
Lemma byte_drop n (a : bytes) : Forall is_byte a → Forall is_byte (drop n a).
Proof. apply Forall_drop. Qed.
#[local] Hint Resolve byte_take byte_drop : bytes.

Lemma bytewise_separator start limit :
  Forall is_byte start → Forall is_byte limit →
  ∃ r, Bytewise.find_separator start limit = Ok r ∧ Forall is_byte r ∧
    (r = start ∨ lex start r <= 0 ∧ lex r limit < 0).
Proof.
  intros Hs Hl. unfold Bytewise.find_separator.
  destruct (common_ok start limit Hs Hl (Nat.min (length start) (length limit)) 0)
    as (j & E & Hj & Ht & Hd); [lia|done|]. rewrite E. unfold mbind, res_bind.
  case_decide as Hm; [exists start; split_and!; [done..|by left]|].
  destruct Hd as (x & y & Hx & Hy & Hn); [lia|]. rewrite Hx, Hy. cbn [of_option].
  assert (is_byte x) as Bx by by eapply Forall_lookup_1 in Hx.
  assert (is_byte y) as By by by eapply Forall_lookup_1 in Hy. unfold is_byte in Bx, By.
  destruct (Z.ltb_spec x 0xff); cbn [andb]; [|exists start; split_and!; [done..|by left]].
  destruct (Z.ltb_spec (x + 1) y); [|exists start; split_and!; [done..|by left]].
  rewrite u8_small, take_insert_last by lia. rewrite compare_lex.
  assert (lex (take j start ++ [x + 1]) limit < 0) as L.
  { rewrite Ht. rewrite <- (take_drop j limit) at 2. rewrite lex_app, (drop_S limit y j) by done. cbn.
    by rewrite (proj2 (Z.ltb_lt _ _)). }
  rewrite (proj2 (Z.ltb_lt _ _)) by done. cbn [SkipList.assert_].
  eexists. split_and!; [done| |].
  - apply List.Forall_app. split; [auto with bytes|]. constructor; [unfold is_byte; lia|done].
  - right. split; [|done]. rewrite (lex_at start start _ j x), (drop_S start x j) by done. cbn.
    by rewrite (proj2 (Z.ltb_lt _ _)) by lia.
Qed.

Lemma bytewise_successor key n i :
  Forall is_byte key → (i + n = length key)%nat →
  ∃ r, Bytewise.successor_loop n i key = Ok r ∧ Forall is_byte r ∧ lex key r <= 0.
Proof.
  intros Hk. revert i. induction n as [|n IH]; intros i Hi.
  { exists key. split_and!; [done..|]. by rewrite (proj2 (lex_eq key key)). }
  destruct (lookup_lt_is_Some_2 key i) as [x Hx]; [lia|].
  cbn [Bytewise.successor_loop]. rewrite Hx. unfold mbind, res_bind. cbn [of_option].
  assert (is_byte x) as Bx by by eapply Forall_lookup_1 in Hx. unfold is_byte in Bx.
  destruct (Z.eqb_spec x 0xff); cbn [negb]; [apply IH; lia|].
  rewrite u8_small, take_insert_last by lia. eexists. split_and!; [done| |].
  - apply List.Forall_app. split; [auto with bytes|]. constructor; [unfold is_byte; lia|done].
  - rewrite (lex_at key key _ i x), (drop_S key x i) by done. cbn.
    by rewrite (proj2 (Z.ltb_lt _ _)) by lia.
Qed.

#[export] Instance bytewise_lawful :
  Lawful Bytewise.BytewiseComparator (λ _, True) (Forall is_byte) bytewise_order.
Proof.
  split.
  - apply bytewise_Order.
  - done.
  - intros a b _ _. apply compare_lex.
  - intros start limit. apply bytewise_separator.
  - intros key Hk. by apply bytewise_successor.
Qed.

(** * Internal keys *)

(** An internal key: the user key and the number after it. *)
Definition split_internal (k : bytes) : option (bytes * Z) :=
  if decide (8 <= length k)%nat
  then Some (take (length k - 8) k, le_of_bytes (drop (length k - 8) k))
  else None.

Definition internal (u : bytes) (num : Z) : bytes := u ++ le_bytes 8 num.

(** The number: sequence number and type. *)
Definition pack (seq : Z) (t : Internal.ValueType) : Z := seq * 256 + Internal.type_code t.

Lemma pack_range seq t : 0 <= seq < 2 ^ 56 → 0 <= pack seq t < 2 ^ 64.
Proof. unfold pack. destruct t; cbn; lia. Qed.

Lemma PackSequenceAndType_ok seq t :
  0 <= seq < 2 ^ 56 → Internal.PackSequenceAndType seq t = Ok (pack seq t).
Proof.
  intros H. unfold Internal.PackSequenceAndType, pack, mbind, res_bind.
  change Internal.kMaxSequenceNumber with (2 ^ 56 - 1).
  rewrite (proj2 (Z.leb_le seq _)) by lia. cbn [SkipList.assert_].
  assert ((Internal.type_code t <=? Internal.type_code Internal.kValueTypeForSeek) = true) as ->
    by by destruct t.
  cbn [SkipList.assert_]. f_equal. rewrite Z.shiftl_mul_pow2 by lia. change (2 ^ 8) with 256.
  rewrite u64_small, Z.lor_comm by lia. change 256 with (2 ^ 8).
  rewrite <- Z.shiftl_mul_pow2, lor_disjoint_add by (try (destruct t; cbn); lia).
  rewrite ?Z.shiftl_mul_pow2 by lia. lia.
Qed.

Lemma length_internal u num : length (internal u num) = (length u + 8)%nat.
Proof. unfold internal. by rewrite length_app, length_le_bytes. Qed.

Lemma split_internal_internal u num :
  0 <= num < 2 ^ 64 → split_internal (internal u num) = Some (u, num).
Proof.
  intros Hn. unfold split_internal. rewrite length_internal, decide_True by lia.
  replace (length u + 8 - 8)%nat with (length u) by lia. unfold internal.
  rewrite take_app_length, drop_app_length, le_of_bytes_le_bytes. by rewrite Z.mod_small.
Qed.

Lemma split_internal_Some k u num :
  split_internal k = Some (u, num) →
  Internal.ExtractUserKey k = Ok u ∧ Internal.tag_of k = Ok num ∧ (8 <= length k)%nat ∧
  length u = (length k - 8)%nat.
Proof.
  unfold split_internal. case_decide as H8; [|done]. intros [= <- <-].
  unfold Internal.ExtractUserKey, Internal.tag_of, Coding.DecodeFixed64, Slice.size, mbind, res_bind.
  rewrite (proj2 (Z.leb_le _ _)) by lia. rewrite length_drop.
  rewrite (proj2 (Nat.leb_le _ _)) by lia. split_and!; [done| |done|rewrite length_take; lia].
  rewrite firstn_all2; [done|]. rewrite length_drop. lia.
Qed.

Lemma split_internal_long k :
  (8 <= length k)%nat →
  split_internal k = Some (take (length k - 8) k, le_of_bytes (drop (length k - 8) k)).
Proof. intros. unfold split_internal. by rewrite decide_True. Qed.

Definition internal_order (ord : Comparator bytes) : Comparator bytes :=
  via split_internal (then_down (@compare_ bytes ord)).

(** Valid: with a valid user key, and eight bytes after it. *)
Definition valid_internal (valid : bytes → Prop) (k : bytes) : Prop :=
  ∃ u num, split_internal k = Some (u, num) ∧ valid u ∧ 0 <= num < 2 ^ 64.

(** Comparable: with a comparable user key. *)
Definition dom_internal (dom : bytes → Prop) (k : bytes) : Prop :=
  ∃ u num, split_internal k = Some (u, num) ∧ dom u.

Section internal.
Context (C : SliceComparator) (dom valid : bytes → Prop) (ord : Comparator bytes)
  `{!Lawful C dom valid ord}.

Lemma internal_compare a b u x v y :
  split_internal a = Some (u, x) → split_internal b = Some (v, y) → dom u → dom v →
  Internal.compare C a b = Ok (then_down (@compare_ bytes ord) (u, x) (v, y)).
Proof.
  intros Ha Hb Hu Hv. destruct (split_internal_Some _ _ _ Ha) as (Eu & Ex & _).
  destruct (split_internal_Some _ _ _ Hb) as (Ev & Ey & _).
  unfold Internal.compare, mbind, res_bind, then_down. rewrite Eu, Ev.
  rewrite lawful_compare by done. cbn [fst snd].
  destruct (Z.eqb_spec (compare_ u v) 0) as [E|_]; [|done].
  rewrite Ex, Ey. destruct (y <? x); [done|]. destruct (x <? y); [done|]. by rewrite E.
Qed.

Definition earliest : Z := pack Internal.kMaxSequenceNumber Internal.kValueTypeForSeek.

Lemma earliest_ok :
  Internal.PackSequenceAndType Internal.kMaxSequenceNumber Internal.kValueTypeForSeek = Ok earliest
  ∧ 0 <= earliest < 2 ^ 64.
Proof. by split. Qed.

(** The shortened keys pass the assertions. *)
Lemma internal_separator start limit :
  valid_internal valid start → valid_internal valid limit →
  ∃ r, Internal.find_separator C start limit = Ok r ∧ valid_internal valid r ∧
    (r = start ∨ internal_order ord start r <= 0 ∧ internal_order ord r limit < 0).
Proof.
  intros (u & x & Ha & Hu & Hx) (v & y & Hb & Hv & Hy).
  destruct (split_internal_Some _ _ _ Ha) as (Eu & Ex & _).
  destruct (split_internal_Some _ _ _ Hb) as (Ev & Ey & _).
  pose proof (lawful_dom u Hu). pose proof (lawful_dom v Hv).
  destruct (lawful_separator u v Hu Hv) as (t & Et & Ht & Hcase).
  pose proof (lawful_dom t Ht).
  unfold Internal.find_separator, mbind, res_bind. rewrite Eu, Ev, Et.
  assert (∃ r, Ok start = Ok r ∧ valid_internal valid r ∧
    (r = start ∨ internal_order ord start r <= 0 ∧ internal_order ord r limit < 0)) as Hsame.
  { exists start. split_and!; [done|by exists u, x|by left]. }
  destruct (Z.ltb_spec (Slice.size t) (Slice.size u)) as [Lt|_]; [|rewrite Z.ltb_irrefl; exact Hsame].
  rewrite lawful_compare by done.
  destruct (Z.ltb_spec (compare_ u t) 0) as [Ls|_]; [|exact Hsame].
  destruct Hcase as [->|[_ Ll]]; [lia|]. destruct earliest_ok as [-> He].
  change (Coding.PutFixed64 t earliest) with (internal t earliest).
  pose proof (split_internal_internal t earliest He) as Hr.
  assert (then_down compare_ (u, x) (t, earliest) < 0) as L1.
  { unfold then_down. cbn [fst snd]. by rewrite (proj2 (Z.eqb_neq _ _)) by lia. }
  assert (then_down compare_ (t, earliest) (v, y) < 0) as L2.
  { unfold then_down. cbn [fst snd]. by rewrite (proj2 (Z.eqb_neq _ _)) by lia. }
  rewrite (internal_compare _ _ _ _ _ _ Ha Hr) by done.
  rewrite (proj2 (Z.ltb_lt _ _)) by done. cbn [SkipList.assert_].
  rewrite (internal_compare _ _ _ _ _ _ Hr Hb) by done.
  rewrite (proj2 (Z.ltb_lt _ _)) by done. cbn [SkipList.assert_].
  eexists. split_and!; [done|by exists t, earliest|]. right. unfold internal_order, via.
  rewrite Ha, Hr, Hb. lia.
Qed.

Lemma internal_successor key :
  valid_internal valid key →
  ∃ r, Internal.find_successor C key = Ok r ∧ valid_internal valid r ∧
    internal_order ord key r <= 0.
Proof.
  intros (u & x & Ha & Hu & Hx). destruct (split_internal_Some _ _ _ Ha) as (Eu & Ex & _).
  destruct (lawful_successor u Hu) as (t & Et & Ht & _).
  pose proof (lawful_dom u Hu). pose proof (lawful_dom t Ht).
  unfold Internal.find_successor, mbind, res_bind. rewrite Eu, Et.
  assert (∃ r, Ok key = Ok r ∧ valid_internal valid r ∧ internal_order ord key r <= 0) as Hsame.
  { exists key. split_and!; [done|by exists u, x|]. unfold internal_order, via. rewrite Ha.
    pose proof (cmp_refl (H0 := then_down_order (H0 := lawful_order)) (u, x)) as R.
    unfold compare_ at 1 in R. lia. }
  destruct (Z.ltb_spec (Slice.size t) (Slice.size u)) as [Lt|_]; [|rewrite Z.ltb_irrefl; exact Hsame].
  rewrite lawful_compare by done.
  destruct (Z.ltb_spec (compare_ u t) 0) as [Ls|_]; [|exact Hsame].
  destruct earliest_ok as [-> He].
  change (Coding.PutFixed64 t earliest) with (internal t earliest).
  pose proof (split_internal_internal t earliest He) as Hr.
  assert (then_down compare_ (u, x) (t, earliest) < 0) as L1.
  { unfold then_down. cbn [fst snd]. by rewrite (proj2 (Z.eqb_neq _ _)) by lia. }
  rewrite (internal_compare _ _ _ _ _ _ Ha Hr) by done.
  rewrite (proj2 (Z.ltb_lt _ _)) by done. cbn [SkipList.assert_].
  eexists. split_and!; [done|by exists t, earliest|]. unfold internal_order, via. rewrite Ha, Hr. lia.
Qed.

#[export] Instance internal_lawful :
  Lawful (Internal.InternalKeyComparator C) (dom_internal dom) (valid_internal valid)
    (internal_order ord).
Proof.
  split.
  - apply via_order, then_down_order.
  - intros k (u & x & Ha & Hu & _). exists u, x. split; [done|by apply lawful_dom].
  - intros a b (u & x & Ha & Hu) (v & y & Hb & Hv).
    cbn [Compare Internal.InternalKeyComparator]. rewrite (internal_compare _ _ _ _ _ _ Ha Hb) by done.
    unfold compare_ at 2, internal_order, via. by rewrite Ha, Hb.
  - apply internal_separator.
  - apply internal_successor.
Qed.
End internal.
