(* ===== verification/LdbKeyProps.v ===== *)
(** Correctness of internal keys and lookup keys. *)
From S2P Require Import Prelude PbVarint LdbSkip LdbSkipLemmas LdbFormat LdbCodingProps LdbOrder.
Import Internal.

Lemma AppendInternalKey_ok dst k :
  0 <= sequence k < 2 ^ 56 →
  AppendInternalKey dst k = Ok (dst ++ internal (user_key k) (pack (sequence k) (type k))).
Proof.
  intros Hs. unfold AppendInternalKey, mbind, res_bind. rewrite PackSequenceAndType_ok by done.
  unfold Coding.PutFixed64, internal, Coding.EncodeFixed64. by rewrite app_assoc.
Qed.

(** A number gives back its parts. *)
Lemma unpack seq t :
  0 <= seq < 2 ^ 56 →
  Z.land (pack seq t) 0xff = type_code t ∧ Z.shiftr (pack seq t) 8 = seq.
Proof.
  intros Hs. rewrite land_255, Z.shiftr_div_pow2 by lia. change (2 ^ 8) with 256.
  unfold pack. destruct t; cbn [type_code]; split; Z.div_mod_to_equations; lia.
Qed.

Lemma pack_unpack num c t :
  0 <= num < 2 ^ 64 → Z.land num 0xff = c → c = type_code t →
  0 <= Z.shiftr num 8 < 2 ^ 56 ∧ pack (Z.shiftr num 8) t = num.
Proof.
  rewrite land_255, Z.shiftr_div_pow2 by lia. change (2 ^ 8) with 256. unfold pack.
  intros. Z.div_mod_to_equations. lia.
Qed.

Lemma ParseInternalKey_internal k :
  0 <= sequence k < 2 ^ 56 →
  ParseInternalKey (internal (user_key k) (pack (sequence k) (type k))) = Ok (Some k).
Proof.
  intros Hs. pose proof (split_internal_internal (user_key k) _ (pack_range _ (type k) Hs)) as E.
  destruct (split_internal_Some _ _ _ E) as (_ & Et & H8 & _).
  unfold ParseInternalKey, mbind, res_bind. rewrite decide_False, Et by lia.
  destruct (unpack _ (type k) Hs) as [-> ->]. rewrite length_internal.
  replace (_ + 8 - 8)%nat with (length (user_key k)) by lia. unfold internal.
  rewrite take_app_length. destruct k as [u s []]; done.
Qed.

Lemma ParseInternalKey_Some s r :
  Forall is_byte s → ParseInternalKey s = Ok r →
  ∀ k, r = Some k → 0 <= sequence k < 2 ^ 56 ∧
    internal (user_key k) (pack (sequence k) (type k)) = s.
Proof.
  intros Hb. unfold ParseInternalKey. case_decide as H8; [by intros [= <-]|].
  unfold tag_of, Coding.DecodeFixed64, mbind, res_bind. rewrite length_drop.
  rewrite (proj2 (Nat.leb_le _ _)) by lia.
  assert (length (drop (length s - 8) s) = 8%nat) as L by (rewrite length_drop; lia).
  rewrite (firstn_all2 (n := 8)) by lia. set (d := drop (length s - 8) s) in *.
  assert (Forall is_byte d) as Hd by by apply Forall_drop.
  pose proof (le_of_bytes_bound d Hd) as Hn. rewrite L in Hn.
  assert (∀ t, Z.land (le_of_bytes d) 0xff = type_code t →
    0 <= Z.shiftr (le_of_bytes d) 8 < 2 ^ 56 ∧
    internal (take (length s - 8) s) (pack (Z.shiftr (le_of_bytes d) 8) t) = s) as P.
  { intros t E. destruct (pack_unpack _ _ t Hn eq_refl E) as [? ->]. split; [done|].
    unfold internal.
    pose proof (le_bytes_le_of_bytes d Hd) as Q. rewrite L in Q. rewrite Q. apply take_drop. }
  destruct (Z.eqb_spec (Z.land (le_of_bytes d) 0xff) 0) as [E0|_];
    [intros [= <-] k [= <-]; exact (P kTypeDeletion E0)|].
  destruct (Z.eqb_spec (Z.land (le_of_bytes d) 0xff) 1) as [E1|_];
    [intros [= <-] k [= <-]; exact (P kTypeValue E1)|]. by intros [= <-].
Qed.

Lemma ParseInternalKey_total s : ∃ r, ParseInternalKey s = Ok r.
Proof.
  unfold ParseInternalKey. case_decide as H8; [by eexists|].
  unfold tag_of, Coding.DecodeFixed64, mbind, res_bind. rewrite length_drop.
  rewrite (proj2 (Nat.leb_le _ _)) by lia. by eexists.
Qed.

(** Internal keys round-trip. [AppendInternalKey] appends the user key and
    eight bytes, as [InternalKeyEncodingLength] tells, and [ParseInternalKey] and
    the extractors give back the parts; conversely [ParseInternalKey] returns on
    every sequence of bytes, and what it accepts is the encoding of its result. *)
Theorem internal_key_roundtrip dst k s :
  0 <= sequence k < 2 ^ 56 → Forall is_byte s →
  (∃ e, AppendInternalKey dst k = Ok (dst ++ e) ∧
    Slice.size e = InternalKeyEncodingLength k ∧ ParseInternalKey e = Ok (Some k) ∧
    ExtractUserKey e = Ok (user_key k) ∧ ExtractValueType e = Ok (type_code (type k))) ∧
  ∃ r, ParseInternalKey s = Ok r ∧ ∀ k', r = Some k' → SetFrom k' = Ok s.
Proof.
  intros Hs Hb. split.
  - pose proof (split_internal_internal (user_key k) _ (pack_range _ (type k) Hs)) as E.
    destruct (split_internal_Some _ _ _ E) as (Eu & Et & H8 & _).
    eexists. split_and!; [by apply AppendInternalKey_ok| |by apply ParseInternalKey_internal|done|].
    + unfold Slice.size, InternalKeyEncodingLength, Slice.size. rewrite length_internal. lia.
    + unfold ExtractValueType, Slice.size, mbind, res_bind.
      rewrite (proj2 (Z.leb_le _ _)), Et by lia. cbn [SkipList.assert_].
      by destruct (unpack _ (type k) Hs) as [-> _].
  - destruct (ParseInternalKey_total s) as [r E]. exists r. split; [done|]. intros k' Hk.
    destruct (ParseInternalKey_Some _ _ Hb E _ Hk) as [Hr Hi]. unfold SetFrom.
    by rewrite AppendInternalKey_ok, app_nil_l, Hi.
Qed.

Lemma internal_key_roundtrip_witness :
  ∃ r, ParseInternalKey [107; 1; 5; 0; 0; 0; 0; 0; 0] = Ok r ∧
    ∀ k', r = Some k' → SetFrom k' = Ok [107; 1; 5; 0; 0; 0; 0; 0; 0].
Proof.
  apply (internal_key_roundtrip [] (mkParsed [107] 5 kTypeValue)); [done|]. forall_list.
Defined.

(** C28: for a comparator that keeps the contract of comparators, the comparator
    of internal keys keeps it: it is a strict order on internal keys, by increasing
    user key, then decreasing sequence number, then decreasing type; separators are
    the key or lie between the keys, short successors are no smaller, and the
    assertions of both functions hold. *)
Theorem internal_key_order C dom valid ord u s t v s' t' :
  Lawful C dom valid ord → valid u → valid v → 0 <= s < 2 ^ 56 → 0 <= s' < 2 ^ 56 →
  Lawful (InternalKeyComparator C) (dom_internal dom) (valid_internal valid)
    (internal_order ord) ∧
  ∃ a b, new u s t = Ok a ∧ new v s' t' = Ok b ∧
    valid_internal valid a ∧ valid_internal valid b ∧
    Compare (SliceComparator := InternalKeyComparator C) a b =
      Ok (let r := @compare_ bytes ord u v in
          if negb (r =? 0) then r
          else if negb (s =? s') then (if s' <? s then -1 else 1)
          else if negb (type_code t =? type_code t') then
            (if type_code t' <? type_code t then -1 else 1)
          else 0).
Proof.
  intros HC Hu Hv Hs Hs'. split; [by apply internal_lawful|].
  pose proof (split_internal_internal u _ (pack_range _ t Hs)) as Ea.
  pose proof (split_internal_internal v _ (pack_range _ t' Hs')) as Eb.
  exists (internal u (pack s t)), (internal v (pack s' t')). split_and!.
  - unfold new. by rewrite AppendInternalKey_ok.
  - unfold new. by rewrite AppendInternalKey_ok.
  - exists u, (pack s t). split_and!; [done..|apply pack_range; done|]. by apply pack_range.
  - exists v, (pack s' t'). split_and!; [done..|apply pack_range; done|]. by apply pack_range.
  - cbn [Compare InternalKeyComparator]. rewrite (internal_compare C dom valid ord _ _ _ _ _ _ Ea Eb) by by apply lawful_dom.
    f_equal. unfold then_down, pack. cbn [fst snd].
    destruct (compare_ u v =? 0) eqn:E; cbn [negb]; [|done].
    assert (0 <= type_code t <= 1 ∧ 0 <= type_code t' <= 1) as [] by (by destruct t, t').
    destruct (Z.ltb_spec (s' * 256 + type_code t') (s * 256 + type_code t)),
      (Z.ltb_spec (s * 256 + type_code t) (s' * 256 + type_code t')), (Z.eqb_spec s s'),
      (Z.ltb_spec s' s), (Z.eqb_spec (type_code t) (type_code t')),
      (Z.ltb_spec (type_code t') (type_code t)); cbn [negb]; lia.
Qed.

Lemma internal_key_order_witness :
  Lawful (InternalKeyComparator Bytewise.BytewiseComparator) (dom_internal (λ _, True))
    (valid_internal (Forall is_byte)) (internal_order bytewise_order).
Proof.
  apply (internal_key_order _ _ _ _ [107] 5 kTypeValue [108] 7 kTypeDeletion bytewise_lawful);
    [forall_list|forall_list|done|done].
Defined.

(** * Lookup keys *)

Lemma lookup_key_ok u s :
  Slice.size u + 8 < 2 ^ 32 → 0 <= s < 2 ^ 56 →
  lookup_key u s =
  Ok (mkLookup (prefixed (internal u (pack s kTypeValue)))
        (length (varint (Slice.size u + 8)))).
Proof.
  intros Hu Hs. unfold lookup_key, mbind, res_bind. unfold kValueTypeForSeek.
  rewrite PackSequenceAndType_ok by done.
  assert (0 <= Slice.size u) as H0 by (unfold Slice.size; lia).
  rewrite (u64_small (Slice.size u + 8)), (u64_small (Slice.size u + 13)), u32_small by lia.
  rewrite EncodeVarint32_varint by lia.
  assert (Slice.size (internal u (pack s kTypeValue)) = Slice.size u + 8) as E
    by (unfold Slice.size; rewrite length_internal; lia).
  assert (varint (Slice.size u + 8) ++ u ++ Coding.EncodeFixed64 (pack s kTypeValue) =
    prefixed (internal u (pack s kTypeValue))) as -> by (unfold prefixed; by rewrite E).
  rewrite (proj2 (Z.leb_le _ _)); [done|].
  unfold prefixed. unfold Slice.size at 1. rewrite length_app, length_internal, E.
  pose proof (varint_length_32 (Slice.size u + 8) ltac:(lia)).
  unfold Slice.size in *. destruct (Z.leb_spec (Z.of_nat (length u) + 13) 200); lia.
Qed.

(** Its views. *)
Lemma lookup_key_views u num n :
  n = Slice.size u + 8 →
  let k := mkLookup (prefixed (internal u num)) (length (varint n)) in
  internal_key k = internal u num ∧ lookup_user_key k = u.
Proof.
  intros ->. unfold internal_key, lookup_user_key. cbn [buffer kstart].
  assert (Slice.size (internal u num) = Slice.size u + 8) as E
    by (unfold Slice.size; rewrite length_internal; lia).
  unfold prefixed. rewrite E, drop_app_length. split; [done|]. rewrite length_app.
  replace (_ + _ - _ - 8)%nat with (length u) by (rewrite length_internal; lia).
  unfold internal. apply take_app_length.
Qed.

(** A lookup key fits in its buffer, for every user key, and holds the length,
    the user key and the number for the sequence number given and the type that
    comes first; its three views are the key of the memory table, the internal key
    and the user key. *)
Theorem lookup_key_layout u s :
  Slice.size u + 8 < 2 ^ 32 → 0 <= s < 2 ^ 56 →
  ∃ k, lookup_key u s = Ok k ∧
    memtable_key k = prefixed (internal u (pack s kTypeValue)) ∧
    new u s kValueTypeForSeek = Ok (internal_key k) ∧
    lookup_user_key k = u ∧
    parse_prefixed (memtable_key k) = Some (internal_key k, []).
Proof.
  intros Hu Hs. rewrite lookup_key_ok by done. eexists. split; [done|].
  destruct (lookup_key_views u (pack s kTypeValue) (Slice.size u + 8) eq_refl) as [-> ->].
  split_and!; [done| |done|].
  - unfold new. by rewrite AppendInternalKey_ok.
  - unfold memtable_key. cbn [buffer].
    rewrite <- (app_nil_r (prefixed _)). apply parse_prefixed_app.
    unfold Slice.size in *. rewrite length_internal. lia.
Qed.

Lemma lookup_key_layout_witness :
  ∃ k, lookup_key [107] 5 = Ok k ∧
    memtable_key k = prefixed (internal [107] (pack 5 kTypeValue)) ∧
    new [107] 5 kValueTypeForSeek = Ok (internal_key k) ∧
    lookup_user_key k = [107] ∧
    parse_prefixed (memtable_key k) = Some (internal_key k, []).
Proof. by apply (lookup_key_layout [107] 5). Defined.
