(* ===== verification/LdbMemTable.v ===== *)
(** LevelDB's memory table ([db/memtable.h], [db/memtable.cc]), a skip list of
    encoded entries, and its write batches ([db/write_batch.cc]).

    The buffer of an entry, once written, does not change: a pointer to it is the
    list of its bytes. *)
From S2P Require Import Prelude LdbSkip LdbFormat.

Module MemTable.

(** [GetLengthPrefixedSlice(const char* data)]: the slice and what follows it. *)
Definition prefixed_slice (data : bytes) : res (bytes * bytes) :=
  r ← Coding.GetVarint32Ptr (take 5 data);
  match r with
  | Some (len, rest) =>
      let p := drop (length (take 5 data) - length rest) data in
      if len <=? Slice.size p then Ok (take (Z.to_nat len) p, drop (Z.to_nat len) p) else UB
  | None => UB
  end.

Definition GetLengthPrefixedSlice (data : bytes) : res bytes :=
  '(s, _) ← prefixed_slice data; Ok s.

Section memtable.
(** The user's comparator. *)
Context (user_comparator : SliceComparator).

(** [KeyComparator::operator()]. *)
Definition compare_entries (aptr bptr : bytes) : res Z :=
  a ← GetLengthPrefixedSlice aptr;
  b ← GetLengthPrefixedSlice bptr;
  Internal.compare user_comparator a b.

(** The internal key of an entry, if it is one. *)
Definition entry_key (ptr : bytes) : option bytes :=
  match GetLengthPrefixedSlice ptr with
  | Ok k => if decide (8 <= length k)%nat then Some k else None
  | _ => None
  end.

(** The comparator the table works with. The code does not compare pointers that
    are no entries; here they come first. *)
Definition table_compare (a b : bytes) : Z :=
  match entry_key a, entry_key b with
  | None, None => 0
  | None, Some _ => -1
  | Some _, None => 1
  | Some _, Some _ => match compare_entries a b with Ok r => r | _ => 0 end
  end.

#[local] Instance table_comparator : Comparator bytes := table_compare.

Record MemTable := mkMem { refs_ : Z; table_ : SkipList.SkipList bytes }.

(** The constructor. *)
Definition new : res MemTable :=
  table ← SkipList.init [];
  Ok (mkMem 0 table).

Definition Ref (m : MemTable) : MemTable := mkMem (refs_ m + 1) (table_ m).

(** [None] when the table is deleted. *)
Definition Unref (m : MemTable) : res (option MemTable) :=
  let m := mkMem (refs_ m - 1) (table_ m) in
  SkipList.assert_ (0 <=? refs_ m);;
  Ok (if refs_ m <=? 0 then None else Some m).

(** [EncodeKey]. *)
Definition EncodeKey (target : bytes) : bytes :=
  Coding.PutVarint32 [] (u32 (Slice.size target)) ++ target.

(** [Add]: the stores at [buf] fill the room allocated, no more and no less. *)
Definition Add (m : MemTable) (s : Z) (type : Internal.ValueType) (key value : bytes)
    : res MemTable :=
  let key_size := Slice.size key in
  let val_size := Slice.size value in
  let internal_key_size := u64 (key_size + 8) in
  l1 ← Coding.VarintLength internal_key_size;
  l2 ← Coding.VarintLength val_size;
  let encoded_len := u64 (l1 + internal_key_size + l2 + val_size) in
  let buf :=
    Coding.EncodeVarint32 (u32 internal_key_size) ++ key ++
    Coding.EncodeFixed64 (Z.lor (u64 (Z.shiftl s 8)) (Internal.type_code type)) ++
    Coding.EncodeVarint32 (u32 val_size) ++ value in
  SkipList.assert_ (Slice.size buf =? encoded_len);;
  table ← SkipList.Insert (table_ m) buf;
  Ok (mkMem (refs_ m) table).

(** What [Get] finds: the value, that the key was deleted, or nothing. *)
Inductive Found := g_value (v : bytes) | g_deleted | g_none.

Definition Get (m : MemTable) (key : Internal.LookupKey) : res Found :=
  iter ← SkipList.Iterator_Seek (table_ m) (Internal.memtable_key key);
  if SkipList.Iterator_Valid iter then
    entry ← SkipList.Iterator_key (SkipList.nodes (table_ m)) iter;
    r ← Coding.GetVarint32Ptr (take 5 entry);
    match r with
    | None => UB
    | Some (key_length, rest) =>
        let key_ptr := drop (length (take 5 entry) - length rest) entry in
        let n := u32 (key_length - 8) in
        if Slice.size key_ptr <? n then UB
        else
          c ← Compare (SliceComparator := user_comparator) (take (Z.to_nat n) key_ptr)
                (Internal.lookup_user_key key);
          if c =? 0 then
            tag ← Coding.DecodeFixed64 (drop (Z.to_nat n) key_ptr);
            let t := Z.land tag 0xff in
            if t =? Internal.type_code Internal.kTypeValue then
              v ← GetLengthPrefixedSlice (drop (Z.to_nat key_length) key_ptr);
              Ok (g_value v)
            else if t =? Internal.type_code Internal.kTypeDeletion then Ok g_deleted
            else Ok g_none
          else Ok g_none
    end
  else Ok g_none.

(** * [MemTableIterator], over the iterator of the skip list *)

Definition iter_Seek (m : MemTable) (k : bytes) : res SkipList.ptr :=
  SkipList.Iterator_Seek (table_ m) (EncodeKey k).

Definition iter_key (m : MemTable) (node : SkipList.ptr) : res bytes :=
  entry ← SkipList.Iterator_key (SkipList.nodes (table_ m)) node;
  GetLengthPrefixedSlice entry.

Definition iter_value (m : MemTable) (node : SkipList.ptr) : res bytes :=
  entry ← SkipList.Iterator_key (SkipList.nodes (table_ m)) node;
  '(_, after) ← prefixed_slice entry;
  GetLengthPrefixedSlice after.
End memtable.
End MemTable.

Module WriteBatch.

Import Status.

Definition kHeader : nat := 12.

(** A batch is its [rep_]. *)
Definition Clear : bytes := replicate kHeader 0.

(** Stores of a fixed-width integer into the header. *)
Definition store_header (rep : bytes) (i : nat) (bs : bytes) : res bytes :=
  if decide (i + length bs <= length rep)%nat
  then Ok (take i rep ++ bs ++ drop (i + length bs) rep) else UB.

(** An [int]. *)
Definition Count (rep : bytes) : res Z := n ← Coding.DecodeFixed32 (drop 8 rep); Ok (s32 n).
Definition SetCount (rep : bytes) (n : Z) : res bytes :=
  store_header rep 8 (Coding.EncodeFixed32 (u32 n)).
Definition Sequence (rep : bytes) : res Z := Coding.DecodeFixed64 rep.
Definition SetSequence (rep : bytes) (seq : Z) : res bytes :=
  store_header rep 0 (Coding.EncodeFixed64 seq).

(** [Count(this) + 1] in an [int]. *)
Definition incr_count (rep : bytes) : res bytes :=
  n ← Count rep;
  if n =? 2 ^ 31 - 1 then UB else SetCount rep (n + 1).

Definition Put (rep key value : bytes) : res bytes :=
  rep ← incr_count rep;
  Ok (Coding.PutLengthPrefixedSlice
        (Coding.PutLengthPrefixedSlice (rep ++ [Internal.type_code Internal.kTypeValue]) key) value).

Definition Delete (rep key : bytes) : res bytes :=
  rep ← incr_count rep;
  Ok (Coding.PutLengthPrefixedSlice (rep ++ [Internal.type_code Internal.kTypeDeletion]) key).

Definition Contents (rep : bytes) : bytes := rep.
Definition ByteSize (rep : bytes) : Z := Slice.size rep.
Definition SetContents (contents : bytes) : res bytes :=
  SkipList.assert_ (Z.of_nat kHeader <=? Slice.size contents);; Ok contents.

(** [Count(dst) + Count(src)] in an [int]. *)
Definition Append (dst src : bytes) : res bytes :=
  a ← Count dst; b ← Count src;
  if decide (- 2 ^ 31 <= a + b < 2 ^ 31) then
    dst ← SetCount dst (a + b);
    SkipList.assert_ (Z.of_nat kHeader <=? Slice.size src);;
    Ok (dst ++ drop kHeader src)
  else UB.

(** The handler that [Iterate] calls; [W] is what it acts on. *)
Class Handler (W : Type) := {
  handle_Put : bytes → bytes → W → res W;
  handle_Delete : bytes → W → res W
}.

Section iterate.
Context {W : Type} `{Handler W}.

(** The loop over the records: [inl] the number of records, [inr] the error. *)
Fixpoint iterate_loop (fuel : nat) (input : bytes) (found : Z) (w : W) : res ((Z + Status) * W) :=
  match fuel with
  | O => NoFuel
  | S fuel' =>
      if Slice.empty input then Ok (inl found, w)
      else if found =? 2 ^ 31 - 1 then UB
      else
        let found := found + 1 in
        tag ← Slice.index input 0;
        input ← Slice.remove_prefix input 1;
        if tag =? Internal.type_code Internal.kTypeValue then
          k ← Coding.GetLengthPrefixedSlice input;
          match k with
          | Some (key, input) =>
              v ← Coding.GetLengthPrefixedSlice input;
              match v with
              | Some (value, input) =>
                  w ← handle_Put key value w;
                  iterate_loop fuel' input found w
              | None => Ok (inr (Corruption "bad WriteBatch Put"), w)
              end
          | None => Ok (inr (Corruption "bad WriteBatch Put"), w)
          end
        else if tag =? Internal.type_code Internal.kTypeDeletion then
          k ← Coding.GetLengthPrefixedSlice input;
          match k with
          | Some (key, input) =>
              w ← handle_Delete key w;
              iterate_loop fuel' input found w
          | None => Ok (inr (Corruption "bad WriteBatch Delete"), w)
          end
        else Ok (inr (Corruption "unknown WriteBatch tag"), w)
  end.

(** A turn takes at least a byte of the input. *)
Definition Iterate (rep : bytes) (w : W) : res (Status * W) :=
  if Slice.size rep <? Z.of_nat kHeader
  then Ok (Corruption "malformed WriteBatch (too small)", w)
  else
    input ← Slice.remove_prefix rep (Z.of_nat kHeader);
    '(r, w) ← iterate_loop (S (length input)) input 0 w;
    match r with
    | inr status => Ok (status, w)
    | inl found =>
        n ← Count rep;
        Ok (if negb (found =? n) then Corruption "WriteBatch has wrong count" else OK, w)
    end.
End iterate.

Section insert_into.
Context (user_comparator : SliceComparator).

(** [MemTableInserter]: [sequence_] and [mem_]. *)
#[local] Instance MemTableInserter : Handler (Z * MemTable.MemTable) := {|
  handle_Put key value '(seq, mem) :=
    mem ← MemTable.Add user_comparator mem seq Internal.kTypeValue key value;
    Ok (u64 (seq + 1), mem);
  handle_Delete key '(seq, mem) :=
    mem ← MemTable.Add user_comparator mem seq Internal.kTypeDeletion key [];
    Ok (u64 (seq + 1), mem)
|}.

Definition InsertInto (rep : bytes) (memtable : MemTable.MemTable)
    : res (Status * MemTable.MemTable) :=
  seq ← Sequence rep;
  '(status, (_, mem)) ← Iterate rep (seq, memtable);
  Ok (status, mem).
End insert_into.
End WriteBatch.
