(* ===== verification/LdbMemTableProps.v ===== *)
(** Correctness of the memory table: it is a multi-version map, in which a lookup
    finds the newest entry of the key that the snapshot sees. *)
From Stdlib Require Import Sorted.
From S2P Require Import Prelude PbVarint LdbSkip LdbSkipLemmas LdbSkipProps LdbFormat LdbCodingProps LdbOrder LdbKeyProps LdbMemTable.
Import MemTable.

(** * Entries *)

(** The length before a slice, read from the first five bytes. *)
Lemma length_prefix k rest :
  Slice.size k < 2 ^ 32 → Forall is_byte k → Forall is_byte rest →
  let data := prefixed k ++ rest in
  ∃ q, Coding.GetVarint32Ptr (take 5 data) = Ok (Some (Slice.size k, q)) ∧
    drop (length (take 5 data) - length q) data = k ++ rest.
Proof.
  intros Hk Hb Hr data. assert (0 <= Slice.size k) as H0 by (unfold Slice.size; lia).
  pose proof (varint_length_32 (Slice.size k) ltac:(lia)) as Hl.
  set (x := varint (Slice.size k)) in *. set (y := k ++ rest).
  assert (data = x ++ y) as -> by (unfold data, prefixed, x, y; by rewrite app_assoc).
  assert (Forall is_byte x) as Hx by (apply leb128_bytes; lia).
  assert (Forall is_byte y) as Hy by by apply List.Forall_app.
  exists (take (5 - length x) y). rewrite take_app_ge by done. split.
  - change (Coding.GetVarint32 (x ++ take (5 - length x) y) =
      Ok (Some (Slice.size k, take (5 - length x) y))).
    rewrite GetVarint32_ok by (apply List.Forall_app; split; [done|by apply Forall_take]).
    unfold x. by rewrite parse_varint_size.
  - rewrite length_app. replace (_ + _ - _)%nat with (length x) by lia. apply drop_app_length.
Qed.

Lemma prefixed_slice_ok k rest :
  Slice.size k < 2 ^ 32 → Forall is_byte k → Forall is_byte rest →
  prefixed_slice (prefixed k ++ rest) = Ok (k, rest).
Proof.
  intros Hk Hb Hr. destruct (length_prefix k rest Hk Hb Hr) as (q & E & D).
  unfold prefixed_slice. rewrite E. unfold mbind, res_bind. rewrite D. unfold Slice.size.
  rewrite (proj2 (Z.leb_le _ _)) by (rewrite length_app; lia).
  by rewrite Nat2Z.id, take_app_length, drop_app_length.
Qed.

Record entry := mkEntry { e_key : bytes; e_seq : Z; e_type : Internal.ValueType; e_value : bytes }.

Definition e_num (e : entry) : Z := pack (e_seq e) (e_type e).
Definition e_internal (e : entry) : bytes := internal (e_key e) (e_num e).

(** The buffer of an entry. *)
Definition encode_entry (e : entry) : bytes := prefixed (e_internal e) ++ prefixed (e_value e).

(** The entries the format has room for. *)
Record fits (e : entry) : Prop := {
  fits_key : Slice.size (e_key e) + 8 < 2 ^ 32;
  fits_value : Slice.size (e_value e) < 2 ^ 32;
  fits_seq : 0 <= e_seq e < 2 ^ 56;
  fits_key_bytes : Forall is_byte (e_key e);
  fits_value_bytes : Forall is_byte (e_value e)
}.

Lemma prefixed_bytes k : Slice.size k < 2 ^ 32 → Forall is_byte k → Forall is_byte (prefixed k).
Proof.
  intros Hk Hb. unfold prefixed, Slice.size in *. apply List.Forall_app. split; [|done].
  apply leb128_bytes. lia.
Qed.

Lemma internal_bytes u num : Forall is_byte u → Forall is_byte (internal u num).
Proof. intros Hu. apply List.Forall_app. split; [done|apply le_bytes_are_bytes]. Qed.

Lemma size_internal u num : Slice.size (internal u num) = Slice.size u + 8.
Proof. unfold Slice.size. rewrite length_internal. lia. Qed.

Lemma encode_entry_slice e :
  fits e → prefixed_slice (encode_entry e) = Ok (e_internal e, prefixed (e_value e)).
Proof.
  intros [Hk Hv Hs Hkb Hvb]. apply prefixed_slice_ok; [|by apply internal_bytes|by apply prefixed_bytes].
  unfold e_internal. rewrite size_internal. lia.
Qed.

Lemma prefixed_only k :
  Slice.size k < 2 ^ 32 → Forall is_byte k → GetLengthPrefixedSlice (prefixed k) = Ok k.
Proof.
  intros Hk Hb. unfold GetLengthPrefixedSlice. rewrite <- (app_nil_r (prefixed k)).
  by rewrite prefixed_slice_ok by done.
Qed.

(** * The order of the table *)

Section memtable.
Context (U : SliceComparator) (valid : bytes → Prop) (ord : Comparator bytes)
  `{!Lawful U (λ _, True) valid ord}.
#[local] Hint Extern 0 (Comparator bytes) => exact (table_comparator U) : typeclass_instances.

Definition entry_split (ptr : bytes) : option (bytes * Z) :=
  match entry_key ptr with Some k => split_internal k | None => None end.

Lemma entry_key_split ptr k :
  entry_key ptr = Some k → GetLengthPrefixedSlice ptr = Ok k ∧ ∃ p, split_internal k = Some p.
Proof.
  unfold entry_key. destruct (GetLengthPrefixedSlice ptr) as [k'| |]; [|done..].
  case_decide; [|done]. intros [= ->]. split; [done|]. eexists. by apply split_internal_long.
Qed.

Lemma table_compare_via a b :
  table_compare U a b = via entry_split (then_down (@compare_ bytes ord)) a b.
Proof.
  unfold table_compare, via, entry_split, compare_entries.
  destruct (entry_key a) as [ka|] eqn:Ea.
  - destruct (entry_key_split _ _ Ea) as (Ga & [u x] & Sa). rewrite Sa.
    destruct (entry_key b) as [kb|] eqn:Eb; [|done].
    destruct (entry_key_split _ _ Eb) as (Gb & [v y] & Sb). rewrite Sb.
    rewrite Ga, Gb. unfold mbind, res_bind.
    by rewrite (internal_compare U (λ _, True) valid ord _ _ _ _ _ _ Sa Sb).
  - destruct (entry_key b) as [kb|] eqn:Eb; [|done].
    destruct (entry_key_split _ _ Eb) as (_ & p & Sb). by rewrite Sb.
Qed.

Lemma order_ext {A} (c d : Comparator A) :
  (∀ a b, @compare_ A c a b = @compare_ A d a b) → Order A (H := d) → Order A (H := c).
Proof.
  intros E HO. split; intros a b; try intros c'; rewrite !E.
  - apply (cmp_swap (H := d)).
  - apply (cmp_trans (H := d)).
  - apply (cmp_eq (H := d)).
Qed.

#[local] Instance table_order : Order bytes (H := table_comparator U).
Proof.
  apply (order_ext _ (via entry_split (then_down (@compare_ bytes ord))));
    [exact table_compare_via|]. apply via_order, then_down_order.
Qed.

Lemma encode_entry_split e :
  fits e → entry_split (encode_entry e) = Some (e_key e, e_num e).
Proof.
  intros He. unfold entry_split, entry_key, GetLengthPrefixedSlice.
  rewrite (encode_entry_slice e He). unfold mbind, res_bind.
  rewrite decide_True by (unfold e_internal; rewrite length_internal; lia).
  apply split_internal_internal, pack_range, He.
Qed.

(** Comparing entries: the user's order, then newer first. *)
Definition entry_cmp (a b : entry) : Z :=
  then_down (@compare_ bytes ord) (e_key a, e_num a) (e_key b, e_num b).

Lemma compare_encoded a b :
  fits a → fits b → compare_ (encode_entry a) (encode_entry b) = entry_cmp a b.
Proof.
  intros Ha Hb. unfold compare_, table_comparator. rewrite table_compare_via.
  unfold via. by rewrite (encode_entry_split a Ha), (encode_entry_split b Hb).
Qed.

(** The table holds the entries [es], whatever their order. *)
Definition holds (m : MemTable) (es : list entry) : Prop :=
  ∃ sorted, represents (table_ m) (encode_entry <$> sorted) ∧ sorted ≡ₚ es ∧ Forall fits es.

(** No entry of the same key, number and type. *)
Definition fresh_entry (e : entry) (es : list entry) : Prop :=
  Forall (λ e', ¬ (@compare_ bytes ord (e_key e') (e_key e) = 0 ∧ e_num e' = e_num e)) es.

Lemma entry_cmp_zero a b :
  entry_cmp a b = 0 ↔ @compare_ bytes ord (e_key a) (e_key b) = 0 ∧ e_num a = e_num b.
Proof.
  unfold entry_cmp, then_down. cbn [fst snd].
  destruct (Z.eqb_spec (@compare_ bytes ord (e_key a) (e_key b)) 0); [|lia].
  destruct (Z.ltb_spec (e_num b) (e_num a)), (Z.ltb_spec (e_num a) (e_num b)); lia.
Qed.

(** * Adding *)

Fixpoint insert_entry (e : entry) (l : list entry) : list entry :=
  match l with
  | [] => [e]
  | a :: l' => if entry_cmp a e <? 0 then a :: insert_entry e l' else e :: l
  end.

Lemma insert_entry_perm e l : insert_entry e l ≡ₚ e :: l.
Proof.
  induction l as [|a l IH]; [done|]. cbn. destruct (entry_cmp a e <? 0); [|done].
  rewrite IH. apply Permutation_swap.
Qed.

Lemma insert_key_entry e l :
  fits e → Forall fits l → insert_key (encode_entry e) (encode_entry <$> l) = encode_entry <$> insert_entry e l.
Proof.
  intros He. induction 1 as [|a l Ha Hl IH]; [done|].
  cbn [fmap list_fmap insert_key insert_entry]. fold (fmap (M := list) encode_entry l).
  rewrite (compare_encoded a e Ha He). destruct (entry_cmp a e <? 0); [|done]. by rewrite IH.
Qed.

(** The stores of [Add] are the encoding of the entry. *)
Lemma Add_insert m e :
  fits e →
  Add U m (e_seq e) (e_type e) (e_key e) (e_value e) =
  (table ← SkipList.Insert (table_ m) (encode_entry e); Ok (mkMem (refs_ m) table)).
Proof.
  intros [Hk Hv Hs Hkb Hvb]. unfold Add.
  assert (0 <= Slice.size (e_key e) ∧ 0 <= Slice.size (e_value e)) as [] by (unfold Slice.size; lia).
  rewrite (u64_small (Slice.size (e_key e) + 8)), !VarintLength_ok by lia.
  unfold mbind, res_bind. rewrite !u32_small, !EncodeVarint32_varint by lia.
  assert (Z.lor (u64 (Z.shiftl (e_seq e) 8)) (Internal.type_code (e_type e)) = e_num e) as ->.
  { pose proof (PackSequenceAndType_ok (e_seq e) (e_type e) Hs) as P. unfold e_num.
    unfold Internal.PackSequenceAndType, mbind, res_bind in P.
    destruct (SkipList.assert_ _); [|done..]. destruct (SkipList.assert_ _); [|done..].
    by injection P. }
  assert (varint (Slice.size (e_key e) + 8) ++ e_key e ++ Coding.EncodeFixed64 (e_num e) ++
    varint (Slice.size (e_value e)) ++ e_value e = encode_entry e) as ->.
  { unfold encode_entry, prefixed. unfold e_internal at 1. rewrite size_internal.
    unfold e_internal, internal. by rewrite <- !app_assoc. }
  assert (Slice.size (encode_entry e) =
    Z.of_nat (length (varint (Slice.size (e_key e) + 8))) + (Slice.size (e_key e) + 8) +
    Z.of_nat (length (varint (Slice.size (e_value e)))) + Slice.size (e_value e)) as E.
  { unfold encode_entry, prefixed, e_internal. rewrite size_internal.
    unfold Slice.size in *. rewrite !length_app, length_internal. lia. }
  rewrite E. pose proof (varint_length (Slice.size (e_key e) + 8)).
  pose proof (varint_length (Slice.size (e_value e))).
  rewrite u64_small, Z.eqb_refl by lia. done.
Qed.

Lemma fresh_entry_sorted e sorted es :
  sorted ≡ₚ es → fits e → Forall fits sorted → fresh_entry e es →
  Forall (λ k, compare_ k (encode_entry e) ≠ 0) (encode_entry <$> sorted).
Proof.
  intros P He Hs Hf. unfold fresh_entry in Hf. rewrite <- P in Hf.
  apply list.Forall_fmap. apply list.Forall_forall. intros a Ha.
  change (compare_ (encode_entry a) (encode_entry e) ≠ 0).
  rewrite list.Forall_forall in Hs, Hf. rewrite compare_encoded by auto.
  rewrite entry_cmp_zero. by apply Hf.
Qed.

Lemma holds_new : ∃ m, new = Ok m ∧ holds m [] ∧ refs_ m = 0.
Proof.
  unfold new. destruct (represents_init (K := bytes) []) as (s & E & Hs). rewrite E.
  eexists. split_and!; [done| |done]. by exists [].
Qed.

Lemma holds_add m es e :
  holds m es → fits e → fresh_entry e es →
  ∃ m', Add U m (e_seq e) (e_type e) (e_key e) (e_value e) = Ok m' ∧ holds m' (e :: es) ∧
    refs_ m' = refs_ m.
Proof.
  intros (sorted & Hr & P & Hfit) He Hf.
  assert (Forall fits sorted) as Hfs by by rewrite P.
  destruct (represents_insert _ _ (encode_entry e) Hr) as (t & E & Hr');
    [by eapply fresh_entry_sorted|].
  rewrite Add_insert, E by done. eexists. split_and!; [done| |done].
  exists (insert_entry e sorted). rewrite insert_key_entry in Hr' by done.
  split_and!; [done|by rewrite insert_entry_perm, P|by constructor].
Qed.

(** * Lookup *)

(** The entries of the key that a snapshot sees. *)
Definition visible (u : bytes) (s : Z) (e : entry) : Prop :=
  @compare_ bytes ord (e_key e) u = 0 ∧ e_seq e <= s.

Definition found (e : entry) : Found :=
  match e_type e with
  | Internal.kTypeValue => g_value (e_value e)
  | Internal.kTypeDeletion => g_deleted
  end.

(** What a lookup must answer: the newest visible entry. *)
Inductive answers (es : list entry) (u : bytes) (s : Z) : Found → Prop :=
  | answers_none : Forall (λ e, ¬ visible u s e) es → answers es u s g_none
  | answers_found e :
      e ∈ es → visible u s e → (∀ e', e' ∈ es → visible u s e' → e' = e ∨ e_num e' < e_num e) →
      answers es u s (found e).

Lemma answers_det es u s r r' : answers es u s r → answers es u s r' → r = r'.
Proof.
  intros [Hn|e He Hv Hmax] [Hn'|e' He' Hv' Hmax']; [done| | |].
  - rewrite list.Forall_forall in Hn. by destruct (Hn e' He').
  - rewrite list.Forall_forall in Hn'. by destruct (Hn' e He).
  - destruct (Hmax e' He' Hv') as [->|L]; [done|]. destruct (Hmax' e He Hv) as [->|L']; [done|lia].
Qed.

Lemma answers_perm es es' u s r : es ≡ₚ es' → answers es u s r → answers es' u s r.
Proof.
  intros P [Hn|e He Hv Hmax]; [apply answers_none; by rewrite <- P|].
  apply answers_found; [by rewrite <- P|done|]. intros e' He'. apply Hmax. by rewrite P.
Qed.

(** The key a lookup seeks. *)
Definition seek_num (s : Z) : Z := pack s Internal.kTypeValue.

Lemma target_split u s :
  Slice.size u + 8 < 2 ^ 32 → Forall is_byte u → 0 <= s < 2 ^ 56 →
  entry_split (prefixed (internal u (seek_num s))) = Some (u, seek_num s).
Proof.
  intros Hu Hb Hs. unfold entry_split, entry_key.
  rewrite prefixed_only by (rewrite ?size_internal; try lia; by apply internal_bytes).
  rewrite decide_True by (rewrite length_internal; lia).
  by apply split_internal_internal, pack_range.
Qed.

Definition to_target (u : bytes) (s : Z) (e : entry) : Z :=
  then_down (@compare_ bytes ord) (e_key e, e_num e) (u, seek_num s).

Lemma seq_num e s : e_seq e <= s ↔ e_num e <= seek_num s.
Proof. unfold e_num, seek_num, pack. destruct (e_type e); cbn [Internal.type_code]; lia. Qed.

Lemma visible_target u s e :
  visible u s e → 0 <= to_target u s e.
Proof.
  intros [E Hs]. apply seq_num in Hs. unfold to_target, then_down. cbn [fst snd].
  rewrite E. cbn [Z.eqb]. rewrite (proj2 (Z.ltb_ge _ _)) by done. destruct (_ <? _); lia.
Qed.

Lemma target_visible u s e :
  0 <= to_target u s e → @compare_ bytes ord (e_key e) u = 0 → visible u s e.
Proof.
  intros Ht E. split; [done|]. apply seq_num. unfold to_target, then_down in Ht. cbn [fst snd] in Ht.
  rewrite E in Ht. cbn [Z.eqb] in Ht. destruct (Z.ltb_spec (seek_num s) (e_num e)); lia.
Qed.

(** The first entry that is not before the target decides. *)
Lemma first_answers sorted1 sorted2 u s :
  StronglySorted (λ a b, entry_cmp a b < 0) sorted2 →
  Forall (λ e, to_target u s e < 0) sorted1 → Forall (λ e, 0 <= to_target u s e) sorted2 →
  answers (sorted1 ++ sorted2) u s
    (match sorted2 with
     | e :: _ => if @compare_ bytes ord (e_key e) u =? 0 then found e else g_none
     | [] => g_none
     end).
Proof.
  intros Hs F1 F2.
  assert (∀ e, e ∈ sorted1 → ¬ visible u s e) as N1.
  { intros e He Hv%visible_target. rewrite list.Forall_forall in F1. specialize (F1 e He). lia. }
  destruct sorted2 as [|e l]; [rewrite app_nil_r; by apply answers_none, list.Forall_forall|].
  apply StronglySorted_inv in Hs as [_ Hs]. apply list.Forall_cons in F2 as [Fe F2].
  rewrite list.Forall_forall in Hs.
  destruct (Z.eqb_spec (@compare_ bytes ord (e_key e) u) 0) as [E|E].
  - apply answers_found; [apply elem_of_app; right; by left|by apply target_visible|].
    intros e' He' Hv. apply elem_of_app in He' as [He'|He']; [by destruct (N1 e' He')|].
    apply elem_of_cons in He' as [->|He']; [by left|]. right.
    specialize (Hs e' He'). destruct Hv as [E' _]. unfold entry_cmp, then_down in Hs. cbn [fst snd] in Hs.
    assert (@compare_ bytes ord (e_key e) (e_key e') = 0) as Ee.
    { eapply (cmp_zero_trans (H0 := lawful_order)); [exact E|].
      by apply (cmp_zero_swap (H0 := lawful_order)). }
    rewrite Ee in Hs. cbn [Z.eqb] in Hs.
    destruct (Z.ltb_spec (e_num e') (e_num e)); [done|]. destruct (_ <? _); lia.
  - apply answers_none, list.Forall_forall. intros e' He' Hv.
    apply elem_of_app in He' as [He'|He']; [by destruct (N1 e' He')|].
    apply elem_of_cons in He' as [->|He']; [by destruct Hv|]. specialize (Hs e' He').
    unfold to_target, then_down in Fe. unfold entry_cmp, then_down in Hs. cbn [fst snd] in *.
    rewrite (proj2 (Z.eqb_neq _ _)) in Fe by done. destruct Hv as [E' _].
    destruct (Z.eqb_spec (@compare_ bytes ord (e_key e) (e_key e')) 0) as [E2|E2].
    + destruct E. by eapply (cmp_zero_trans (H0 := lawful_order)).
    + pose proof (cmp_eq_r (H0 := lawful_order) _ _ _ Hs E'). lia.
Qed.

Lemma compare_target u s e :
  fits e → Slice.size u + 8 < 2 ^ 32 → Forall is_byte u → 0 <= s < 2 ^ 56 →
  compare_ (encode_entry e) (prefixed (internal u (seek_num s))) = to_target u s e.
Proof.
  intros He Hu Hb Hs. unfold compare_, table_comparator. rewrite table_compare_via.
  unfold via. by rewrite (encode_entry_split e He), target_split.
Qed.

(** What [Get] does with the entry that the search found. *)
Lemma Get_entry m k node u e :
  fits e → Slice.size u + 8 < 2 ^ 32 → Internal.lookup_user_key k = u →
  SkipList.Iterator_Seek (table_ m) (Internal.memtable_key k) = Ok (Some node) →
  SkipList.key_of (SkipList.nodes (table_ m)) node = Ok (encode_entry e) →
  Get U m k = Ok (if @compare_ bytes ord (e_key e) u =? 0 then found e else g_none).
Proof.
  intros He Hu Hk Es Ee. pose proof He as [Hks Hv Hs Hkb Hvb].
  unfold Get. rewrite Es. unfold mbind, res_bind. cbn [SkipList.Iterator_Valid].
  unfold SkipList.Iterator_Valid. rewrite bool_decide_true by done.
  cbn [SkipList.Iterator_key]. rewrite Ee.
  destruct (length_prefix (e_internal e) (prefixed (e_value e))) as (q & Eq & D);
    [unfold e_internal; rewrite size_internal; lia|by apply internal_bytes|by apply prefixed_bytes|].
  unfold encode_entry. rewrite Eq, D.
  assert (Slice.size (e_internal e) = Slice.size (e_key e) + 8) as -> by apply size_internal.
  assert (0 <= Slice.size (e_key e)) as H0 by (unfold Slice.size; lia).
  rewrite u32_small by lia. replace (Slice.size (e_key e) + 8 - 8) with (Slice.size (e_key e)) by lia.
  assert (e_internal e ++ prefixed (e_value e) =
    e_key e ++ Coding.EncodeFixed64 (e_num e) ++ prefixed (e_value e)) as ->.
  { unfold e_internal, internal. by rewrite <- app_assoc. }
  rewrite (proj2 (Z.ltb_ge _ _)) by (unfold Slice.size in *; rewrite length_app; lia).
  assert (Z.to_nat (Slice.size (e_key e)) = length (e_key e)) as -> by (unfold Slice.size; lia).
  rewrite take_app_length, drop_app_length, Hk. rewrite (lawful_compare _ _ I I).
  destruct (@compare_ bytes ord (e_key e) u =? 0); [|done].
  rewrite DecodeFixed64_app, Z.mod_small by by apply pack_range.
  destruct (unpack (e_seq e) (e_type e) Hs) as [Et _]. fold (e_num e) in Et. rewrite Et.
  assert (drop (Z.to_nat (Slice.size (e_key e) + 8))
    (e_key e ++ Coding.EncodeFixed64 (e_num e) ++ prefixed (e_value e)) = prefixed (e_value e)) as ->.
  { rewrite app_assoc, drop_app_length'; [done|]. rewrite length_app.
    unfold Coding.EncodeFixed64, Slice.size. rewrite length_le_bytes. lia. }
  unfold found. destruct (e_type e); [done|]. cbn [Internal.type_code Z.eqb].
  by rewrite prefixed_only.
Qed.

Lemma sorted_entries l :
  Forall fits l → StronglySorted (λ a b, compare_ a b < 0) (encode_entry <$> l) →
  StronglySorted (λ a b, entry_cmp a b < 0) l.
Proof.
  intros Hf. induction Hf as [|a l Ha Hl IH]; intros Hs; [constructor|].
  apply StronglySorted_inv in Hs as [Hs Hall]. constructor; [by apply IH|].
  apply list.Forall_fmap in Hall. rewrite list.Forall_forall in Hall, Hl.
  apply list.Forall_forall. intros b Hb. specialize (Hall b Hb).
  change (compare_ (encode_entry a) (encode_entry b) < 0) in Hall. by rewrite compare_encoded in Hall by auto.
Qed.

Lemma holds_get m es u s :
  holds m es → Slice.size u + 8 < 2 ^ 32 → Forall is_byte u → 0 <= s < 2 ^ 56 →
  ∃ k r, Internal.lookup_key u s = Ok k ∧ Get U m k = Ok r ∧ answers es u s r.
Proof.
  intros (sorted & Hr & P & Hfit) Hu Hb Hs.
  assert (Forall fits sorted) as Hfs by by rewrite P.
  rewrite lookup_key_ok by done. eexists. set (k := Internal.mkLookup _ _).
  assert (Internal.lookup_user_key k = u) as Hk
    by apply (lookup_key_views u _ (Slice.size u + 8) eq_refl).
  pose proof (represents_sorted _ _ Hr) as Hso.
  destruct (seek_split _ _ (prefixed (internal u (seek_num s))) Hr)
    as (x & suf & k1 & k2 & E & Ek & F1 & F2 & _ & C2).
  apply fmap_app_inv in Ek as (s1 & s2 & -> & -> & ->).
  rewrite fmap_app in Hso. apply list.Forall_app in Hfs as [Hf1 Hf2].
  assert (StronglySorted (λ a b, compare_ a b < 0) (encode_entry <$> s2)) as Hso2.
  { clear -Hso. induction s1 as [|a s1 IH]; [done|]. apply IH. by apply StronglySorted_inv in Hso as [? _]. }
  rewrite list.Forall_fmap in F1; rewrite list.Forall_fmap in F2. rewrite list.Forall_forall in Hf1, Hf2, F1, F2.
  assert (answers (s1 ++ s2) u s
    (match s2 with
     | e :: _ => if @compare_ bytes ord (e_key e) u =? 0 then found e else g_none
     | [] => g_none
     end)) as Ha.
  { apply first_answers.
    - apply sorted_entries; [by apply list.Forall_forall|done].
    - apply list.Forall_forall. intros e He. rewrite <- compare_target by auto. by apply F1.
    - apply list.Forall_forall. intros e He. rewrite <- compare_target by auto. by apply F2. }
  eexists. split_and!; [done| |by eapply answers_perm].
  destruct s2 as [|e l].
  - apply Forall2_nil_inv_r in C2 as ->. cbn [head] in E. unfold Get.
    change (Internal.memtable_key _) with (prefixed (internal u (seek_num s))). by rewrite E.
  - apply Forall2_cons_inv_r in C2 as (node & suf' & Hn & _ & ->).
    eapply Get_entry; [apply Hf2; by left|done|done|exact E|exact Hn].
Qed.

(** * Iteration *)

(** The keys and values an iterator visits from [node] on. *)
Fixpoint scan (n : nat) (m : MemTable) (node : SkipList.ptr) : res (list (bytes * bytes)) :=
  if SkipList.Iterator_Valid node then
    match n with
    | O => NoFuel
    | S n' =>
        k ← iter_key m node;
        v ← iter_value m node;
        node ← SkipList.Iterator_Next (SkipList.nodes (table_ m)) node;
        rest ← scan n' m node;
        Ok ((k, v) :: rest)
    end
  else Ok [].

Definition pair_of (e : entry) : bytes * bytes := (e_internal e, e_value e).

Lemma scan_path m x suf l :
  path (SkipList.nodes (table_ m)) 0 x suf → Forall fits l →
  contents (SkipList.nodes (table_ m)) suf (encode_entry <$> l) →
  scan (length l) m (head suf) = Ok (pair_of <$> l).
Proof.
  intros Hp Hf. revert x suf Hp. induction Hf as [|e l He Hl IH]; intros x suf Hp Hc.
  { by apply Forall2_nil_inv_r in Hc as ->. }
  apply Forall2_cons_inv_r in Hc as (y & suf' & Hy & Hc & ->). destruct Hp as [_ Hp].
  cbn [length scan head]. unfold SkipList.Iterator_Valid. rewrite bool_decide_true by done.
  unfold iter_key, iter_value. cbn [SkipList.Iterator_key SkipList.Iterator_Next]. rewrite Hy.
  unfold mbind, res_bind. unfold GetLengthPrefixedSlice at 1. rewrite encode_entry_slice by done.
  unfold mbind, res_bind. rewrite prefixed_only by apply He.
  assert (SkipList.Next (SkipList.nodes (table_ m)) y 0 = Ok (head suf')) as ->
    by (by destruct suf'; [|destruct Hp]).
  by rewrite (IH y suf' Hp Hc).
Qed.

Lemma holds_scan m es :
  holds m es →
  ∃ sorted, sorted ≡ₚ es ∧ StronglySorted (λ a b, entry_cmp a b < 0) sorted ∧
    (∃ node, SkipList.Iterator_SeekToFirst (table_ m) = Ok node ∧
       scan (length sorted) m node = Ok (pair_of <$> sorted)) ∧
    ∀ u s, Slice.size u + 8 < 2 ^ 32 → Forall is_byte u → 0 <= s < 2 ^ 56 →
      ∃ node s1 s2, iter_Seek U m (internal u (seek_num s)) = Ok node ∧ sorted = s1 ++ s2 ∧
        Forall (λ e, to_target u s e < 0) s1 ∧ Forall (λ e, 0 <= to_target u s e) s2 ∧
        scan (length s2) m node = Ok (pair_of <$> s2).
Proof.
  intros (sorted & Hr & P & Hfit). assert (Forall fits sorted) as Hfs by by rewrite P.
  exists sorted. split_and!; [done|apply sorted_entries; [done|by eapply represents_sorted]| |].
  - destruct Hr as (C & Hsk & Hc). exists (head (C 0%nat)).
    pose proof (rep_path _ _ (sk_rep _ _ Hsk) 0 ltac:(unfold SkipList.kMaxHeight; lia)) as Hp. split.
    + unfold SkipList.Iterator_SeekToFirst. by destruct (C 0%nat); [|destruct Hp].
    + by eapply scan_path.
  - intros u s Hu Hb Hs.
    destruct (seek_split _ _ (prefixed (internal u (seek_num s))) Hr)
      as (x & suf & k1 & k2 & E & Ek & F1 & F2 & Hp & C2).
    apply fmap_app_inv in Ek as (s1 & s2 & -> & -> & ->).
    apply list.Forall_app in Hfs as [Hf1 Hf2].
    rewrite list.Forall_fmap in F1; rewrite list.Forall_fmap in F2.
    assert (0 <= Slice.size u) by (unfold Slice.size; lia).
    exists (head suf), s1, s2. split_and!; [|done| | |by eapply scan_path].
    + unfold iter_Seek, EncodeKey, Coding.PutVarint32. rewrite size_internal.
      rewrite u32_small, EncodeVarint32_varint by lia.
      unfold prefixed in E. rewrite size_internal in E. rewrite app_nil_l. by rewrite E.
    + rewrite list.Forall_forall in F1, Hf1. apply list.Forall_forall. intros e He.
      rewrite <- compare_target by auto. by apply F1.
    + rewrite list.Forall_forall in F2, Hf2. apply list.Forall_forall. intros e He.
      rewrite <- compare_target by auto. by apply F2.
Qed.
End memtable.

(** References do not count. *)
Lemma holds_table C m m' es : table_ m' = table_ m → holds C m es → holds C m' es.
Proof. unfold holds. by intros ->. Qed.

(** * Properties *)

(** C12: the memory table is a multi-version map. The constructor makes an empty
    one; [Add] of an entry whose key, number and type are new succeeds, fills
    exactly the memory it asked for, and adds the entry; [Get] at a snapshot
    answers with the newest entry of the key that the snapshot sees: its value,
    that it was deleted, or nothing when there is none. *)
Theorem memtable_correct U valid ord m es e u s :
  Lawful U (λ _, True) valid ord →
  (∃ m0, new = Ok m0 ∧ holds U m0 []) ∧
  (holds U m es → fits e → fresh_entry ord e es →
   ∃ m', Add U m (e_seq e) (e_type e) (e_key e) (e_value e) = Ok m' ∧ holds U m' (e :: es)) ∧
  (holds U m es → Slice.size u + 8 < 2 ^ 32 → Forall is_byte u → 0 <= s < 2 ^ 56 →
   ∃ k r, Internal.lookup_key u s = Ok k ∧ Get U m k = Ok r ∧ answers ord es u s r).
Proof.
  intros HU. split_and!.
  - destruct (holds_new U) as (m0 & E & Hm & _). by exists m0.
  - intros Hm He Hf. destruct (holds_add U valid ord m es e Hm He Hf) as (m' & E & Hm' & _).
    by exists m'.
  - intros. by eapply holds_get.
Qed.

(** A table with one entry. *)
Definition example_entry : entry := mkEntry [107] 7 Internal.kTypeValue [118; 119].

Lemma example_fits : fits example_entry.
Proof. split; cbn; first [done | forall_list]. Qed.

Lemma memtable_correct_witness :
  ∃ m0 m k r, new = Ok m0 ∧
    Add Bytewise.BytewiseComparator m0 7 Internal.kTypeValue [107] [118; 119] = Ok m ∧
    Internal.lookup_key [107] 9 = Ok k ∧ Get Bytewise.BytewiseComparator m k = Ok r ∧
    answers bytewise_order [example_entry] [107] 9 r.
Proof.
  destruct (memtable_correct Bytewise.BytewiseComparator _ _ (mkMem 0 (SkipList.mkList [] 0 0)) []
    example_entry [] 0 bytewise_lawful) as ((m0 & E0 & H0) & _ & _).
  destruct (memtable_correct Bytewise.BytewiseComparator _ _ m0 [] example_entry [] 0 bytewise_lawful)
    as (_ & Hadd & _).
  destruct (Hadd H0 example_fits (list.Forall_nil_2 _)) as (m & E & Hm).
  destruct (memtable_correct Bytewise.BytewiseComparator _ _ m [example_entry] example_entry [107] 9
    bytewise_lawful) as (_ & _ & Hget).
  destruct (Hget Hm) as (k & r & Ek & Er & Ha); [done|forall_list|done|].
  exists m0, m, k, r. split_and!; done.
Defined.

(** An iterator of the memory table visits the entries by increasing user key,
    and the newest first for each key, with their internal keys and values; [Seek]
    to a key and a snapshot starts at the first entry of the key that the snapshot
    sees, or at the next key. *)
Theorem memtable_iterator U valid ord m es :
  Lawful U (λ _, True) valid ord → holds U m es →
  ∃ sorted, sorted ≡ₚ es ∧ StronglySorted (λ a b, entry_cmp ord a b < 0) sorted ∧
    (∃ node, SkipList.Iterator_SeekToFirst (table_ m) = Ok node ∧
       scan (length sorted) m node = Ok (pair_of <$> sorted)) ∧
    ∀ u s, Slice.size u + 8 < 2 ^ 32 → Forall is_byte u → 0 <= s < 2 ^ 56 →
      ∃ node s1 s2, iter_Seek U m (internal u (seek_num s)) = Ok node ∧ sorted = s1 ++ s2 ∧
        Forall (λ e, to_target ord u s e < 0) s1 ∧ Forall (λ e, 0 <= to_target ord u s e) s2 ∧
        scan (length s2) m node = Ok (pair_of <$> s2).
Proof. intros HU. by eapply holds_scan. Qed.

Lemma memtable_iterator_witness :
  ∃ m node, Add Bytewise.BytewiseComparator
      match new with Ok m0 => m0 | _ => mkMem 0 (SkipList.mkList [] 0 0) end
      7 Internal.kTypeValue [107] [118; 119] = Ok m ∧
    SkipList.Iterator_SeekToFirst (table_ m) = Ok node ∧
    scan 1 m node = Ok [pair_of example_entry].
Proof.
  destruct (holds_new Bytewise.BytewiseComparator) as (m0 & E0 & H0 & _).
  destruct (holds_add Bytewise.BytewiseComparator _ _ m0 [] example_entry H0 example_fits
    (list.Forall_nil_2 _)) as (m & E & Hm & _).
  destruct (memtable_iterator Bytewise.BytewiseComparator _ _ m [example_entry] bytewise_lawful Hm)
    as (sorted & P & _ & (node & En & Hs) & _).
  apply Permutation_singleton_r in P as ->. exists m, node. rewrite E0. split_and!; done.
Defined.
