(* ===== verification/LdbBatchProps.v ===== *)
(** Correctness of write batches: they record operations in order, iterating over
    any sequence of bytes is safe, and inserting a batch into a memory table makes
    its operations visible, the last one of each key. *)
From S2P Require Import Prelude PbVarint LdbSkip LdbSkipLemmas LdbFormat LdbCodingProps LdbOrder LdbMemTable LdbMemTableProps.
Import WriteBatch.

(** * Operations and their encoding *)

Inductive op := op_put (key value : bytes) | op_delete (key : bytes).

Definition op_key (o : op) : bytes := match o with op_put k _ => k | op_delete k => k end.

Definition slice_fits (k : bytes) : Prop := Slice.size k < 2 ^ 32 ∧ Forall is_byte k.
Definition op_fits (o : op) : Prop :=
  match o with op_put k v => slice_fits k ∧ slice_fits v | op_delete k => slice_fits k end.

Definition encode_op (o : op) : bytes :=
  match o with
  | op_put k v => 1 :: prefixed k ++ prefixed v
  | op_delete k => 0 :: prefixed k
  end.
Definition encode_ops (ops : list op) : bytes := concat (encode_op <$> ops).

(** [rep] is the batch of the operations [ops], to be applied from [seq] on. *)
Record batch (rep : bytes) (seq : Z) (ops : list op) : Prop := {
  batch_rep : rep = le_bytes 8 seq ++ le_bytes 4 (Z.of_nat (length ops)) ++ encode_ops ops;
  batch_seq : 0 <= seq < 2 ^ 64;
  batch_count : Z.of_nat (length ops) < 2 ^ 31;
  batch_fits : Forall op_fits ops
}.

Lemma encode_op_bytes o : op_fits o → Forall is_byte (encode_op o).
Proof.
  assert (is_byte 0 ∧ is_byte 1) as [? ?] by (unfold is_byte; lia).
  destruct o as [k v|k]; cbn; [intros [[] []]|intros []]; constructor; try done.
  - apply List.Forall_app. split; by apply prefixed_bytes.
  - by apply prefixed_bytes.
Qed.

Lemma encode_ops_bytes ops : Forall op_fits ops → Forall is_byte (encode_ops ops).
Proof.
  induction 1 as [|o ops Ho _ IH]; [constructor|]. apply List.Forall_app.
  split; [by apply encode_op_bytes|done].
Qed.

Lemma encode_ops_app a b : encode_ops (a ++ b) = encode_ops a ++ encode_ops b.
Proof. unfold encode_ops. by rewrite fmap_app, concat_app. Qed.

Lemma length_encode_ops ops : (length ops <= length (encode_ops ops))%nat.
Proof.
  induction ops as [|o ops IH]; [done|]. change (encode_ops (o :: ops)) with (encode_op o ++ encode_ops ops).
  rewrite length_app. destruct o; cbn [encode_op length]; lia.
Qed.

(** * The header *)

Lemma Count_header a n body :
  length a = 8%nat → Count (a ++ le_bytes 4 n ++ body) = Ok (s32 (n mod 2 ^ 32)).
Proof.
  intros Ha. unfold Count. rewrite drop_app_length' by done.
  change (le_bytes 4 n ++ body) with (Coding.EncodeFixed32 n ++ body).
  by rewrite DecodeFixed32_app.
Qed.

Lemma SetCount_header a n body x :
  length a = 8%nat → SetCount (a ++ le_bytes 4 n ++ body) x = Ok (a ++ le_bytes 4 (u32 x) ++ body).
Proof.
  intros Ha. unfold SetCount, store_header, Coding.EncodeFixed32.
  rewrite !length_app, !length_le_bytes, decide_True by lia.
  rewrite take_app_length' by done. rewrite (app_assoc a (le_bytes 4 n)), drop_app_length'; [done|].
  rewrite length_app, length_le_bytes. lia.
Qed.

Lemma batch_Count rep seq ops : batch rep seq ops → Count rep = Ok (Z.of_nat (length ops)).
Proof.
  intros [-> _ Hc _]. rewrite Count_header by apply length_le_bytes. f_equal.
  rewrite Z.mod_small by lia. apply swrap_small; lia.
Qed.

Lemma batch_Sequence rep seq ops : batch rep seq ops → Sequence rep = Ok seq.
Proof.
  intros [-> Hs _ _]. unfold Sequence.
  change (le_bytes 8 seq ++ ?r) with (Coding.EncodeFixed64 seq ++ r).
  by rewrite DecodeFixed64_app, Z.mod_small.
Qed.

Lemma batch_SetSequence rep seq ops s :
  batch rep seq ops → 0 <= s < 2 ^ 64 → ∃ rep', SetSequence rep s = Ok rep' ∧ batch rep' s ops.
Proof.
  intros [-> Hs Hc Hf] H. unfold SetSequence, store_header, Coding.EncodeFixed64.
  rewrite !length_app, !length_le_bytes, decide_True by lia. eexists. split; [done|].
  split; [|done..]. cbn [take Nat.add]. by rewrite drop_app_length' by by rewrite length_le_bytes.
Qed.

Lemma batch_Clear : batch Clear 0 [].
Proof. split; [done|lia|cbn; lia|constructor]. Qed.

(** Appending an operation. *)
Lemma batch_snoc rep seq ops o :
  batch rep seq ops → op_fits o → Z.of_nat (length ops) + 1 < 2 ^ 31 →
  ∃ rep1, incr_count rep = Ok rep1 ∧ batch (rep1 ++ encode_op o) seq (ops ++ [o]).
Proof.
  intros Hb Ho Hc. pose proof (batch_Count _ _ _ Hb) as Ec. destruct Hb as [-> Hs _ Hf].
  unfold incr_count. rewrite Ec. unfold mbind, res_bind. rewrite (proj2 (Z.eqb_neq _ _)) by lia.
  rewrite SetCount_header by apply length_le_bytes. eexists. split; [done|]. split.
  - rewrite encode_ops_app, length_app, Nat2Z.inj_add, u32_small by lia.
    assert (encode_ops [o] = encode_op o) as -> by apply app_nil_r. by rewrite <- !app_assoc.
  - done.
  - rewrite length_app. cbn. lia.
  - apply list.Forall_app. split; [done|by constructor].
Qed.

Lemma batch_Put rep seq ops k v :
  batch rep seq ops → op_fits (op_put k v) → Z.of_nat (length ops) + 1 < 2 ^ 31 →
  ∃ rep', Put rep k v = Ok rep' ∧ batch rep' seq (ops ++ [op_put k v]).
Proof.
  intros Hb Ho Hc. destruct (batch_snoc _ _ _ _ Hb Ho Hc) as (r & E & Hr). destruct Ho as [[] []].
  unfold Put. rewrite E. unfold mbind, res_bind. rewrite !PutLengthPrefixedSlice_ok by done.
  eexists. split; [done|]. by rewrite <- !app_assoc.
Qed.

Lemma batch_Delete rep seq ops k :
  batch rep seq ops → op_fits (op_delete k) → Z.of_nat (length ops) + 1 < 2 ^ 31 →
  ∃ rep', Delete rep k = Ok rep' ∧ batch rep' seq (ops ++ [op_delete k]).
Proof.
  intros Hb Ho Hc. destruct (batch_snoc _ _ _ _ Hb Ho Hc) as (r & E & Hr). destruct Ho as [].
  unfold Delete. rewrite E. unfold mbind, res_bind. rewrite !PutLengthPrefixedSlice_ok by done.
  eexists. split; [done|]. by rewrite <- !app_assoc.
Qed.

Lemma batch_Append dst src seq seq' ops ops' :
  batch dst seq ops → batch src seq' ops' →
  Z.of_nat (length ops) + Z.of_nat (length ops') < 2 ^ 31 →
  ∃ rep, Append dst src = Ok rep ∧ batch rep seq (ops ++ ops').
Proof.
  intros Hb Hb' Hc. unfold Append. rewrite (batch_Count _ _ _ Hb), (batch_Count _ _ _ Hb').
  unfold mbind, res_bind. rewrite decide_True by lia. destruct Hb as [-> Hs _ Hf].
  destruct Hb' as [-> _ _ Hf']. rewrite SetCount_header by apply length_le_bytes.
  unfold Slice.size. rewrite !length_app, !length_le_bytes.
  rewrite (proj2 (Z.leb_le _ _)) by (unfold kHeader; lia). cbn [SkipList.assert_].
  eexists. split; [done|]. split.
  - rewrite encode_ops_app, length_app, Nat2Z.inj_add, u32_small by lia.
    rewrite (app_assoc (le_bytes 8 seq')), drop_app_length'
      by (rewrite length_app, !length_le_bytes; done).
    by rewrite <- !app_assoc.
  - done.
  - rewrite length_app. lia.
  - by apply list.Forall_app.
Qed.

(** * Iteration *)

Section iterate.
Context {W : Type} `{Handler W}.
Implicit Types w : W.

(** The calls of the handler. *)
Fixpoint run (ops : list op) w : res W :=
  match ops with
  | [] => Ok w
  | op_put k v :: ops' => w ← handle_Put k v w; run ops' w
  | op_delete k :: ops' => w ← handle_Delete k w; run ops' w
  end.

Lemma bind_assoc {A B C} (m : res A) (f : A → res B) (g : B → res C) :
  (b ← (a ← m; f a); g b) = (a ← m; b ← f a; g b).
Proof. by destruct m. Qed.

Lemma iterate_step fuel b input found w :
  is_byte b → Forall is_byte input → found < 2 ^ 31 - 1 →
  iterate_loop (S fuel) (b :: input) found w =
  if b =? 1 then
    match parse_prefixed input with
    | Some (key, input) =>
        match parse_prefixed input with
        | Some (value, input) => w ← handle_Put key value w; iterate_loop fuel input (found + 1) w
        | None => Ok (inr (Status.Corruption "bad WriteBatch Put"), w)
        end
    | None => Ok (inr (Status.Corruption "bad WriteBatch Put"), w)
    end
  else if b =? 0 then
    match parse_prefixed input with
    | Some (key, input) => w ← handle_Delete key w; iterate_loop fuel input (found + 1) w
    | None => Ok (inr (Status.Corruption "bad WriteBatch Delete"), w)
    end
  else Ok (inr (Status.Corruption "unknown WriteBatch tag"), w).
Proof.
  intros Hb Hin Hf. cbn [iterate_loop]. unfold Slice.empty, Slice.size.
  rewrite (proj2 (Z.eqb_neq (Z.of_nat (length (b :: input))) 0)) by (cbn [length]; lia).
  rewrite (proj2 (Z.eqb_neq found _)) by lia.
  unfold Slice.index, Slice.remove_prefix, Slice.size.
  rewrite (proj2 (Z.ltb_lt 0 _)), (proj2 (Z.leb_le 1 _)) by (cbn [length]; lia).
  change (Z.to_nat 0) with 0%nat. change (Z.to_nat 1) with 1%nat. cbn [lookup list_lookup of_option].
  unfold mbind, res_bind. change (drop 1 (b :: input)) with input.
  cbn [Internal.type_code]. unfold is_byte in Hb.
  assert ((s8 b =? 1) = (b =? 1)) as ->.
  { unfold s8. rewrite swrap_unsigned by lia. change (2 ^ (8 - 1)) with 128. change (2 ^ 8) with 256.
    destruct (Z.ltb_spec b 128), (Z.eqb_spec b 1); lia. }
  assert ((s8 b =? 0) = (b =? 0)) as ->.
  { unfold s8. rewrite swrap_unsigned by lia. change (2 ^ (8 - 1)) with 128. change (2 ^ 8) with 256.
    destruct (Z.ltb_spec b 128), (Z.eqb_spec b 0); lia. }
  rewrite GetLengthPrefixedSlice_ok by done. destruct (b =? 1).
  - destruct (parse_prefixed input) as [[key q]|] eqn:E; [|done].
    rewrite GetLengthPrefixedSlice_ok; [by destruct (parse_prefixed q) as [[]|]|].
    apply parse_prefixed_shorter in E as (_ & hd & ->).
    apply List.Forall_app in Hin as [_ Hin]. by apply List.Forall_app in Hin as [_ ?].
  - destruct (b =? 0); [|done]. by destruct (parse_prefixed input) as [[]|].
Qed.

Lemma iterate_ops ops : ∀ fuel found w,
  Forall op_fits ops → (length ops < fuel)%nat → 0 <= found →
  found + Z.of_nat (length ops) < 2 ^ 31 →
  iterate_loop fuel (encode_ops ops) found w =
  (w' ← run ops w; Ok (inl (found + Z.of_nat (length ops)), w')).
Proof.
  induction ops as [|o ops IH]; intros [|fuel] found w Hf Hl H0 Hc; cbn [length] in *; try lia.
  { cbn. by rewrite Z.add_0_r. }
  apply list.Forall_cons in Hf as [Ho Hf]. pose proof (encode_ops_bytes ops Hf) as Hb.
  change (encode_ops (o :: ops)) with (encode_op o ++ encode_ops ops).
  pose proof (encode_op_bytes o Ho) as Hob.
  replace (found + Z.of_nat (S (length ops))) with (found + 1 + Z.of_nat (length ops)) by lia.
  destruct o as [k v|k]; cbn [encode_op app] in *; apply list.Forall_cons in Hob as [_ Hob];
    (rewrite iterate_step;
      [|unfold is_byte; lia|by apply List.Forall_app|lia]); cbn [Z.eqb run].
  - destruct Ho as [[] []]. rewrite <- app_assoc, parse_prefixed_app, parse_prefixed_app by done.
    rewrite bind_assoc. destruct (handle_Put k v w); [|done..].
    unfold mbind at 1, res_bind at 1. rewrite IH by (done || lia). done.
  - destruct Ho. rewrite parse_prefixed_app by done.
    rewrite bind_assoc. destruct (handle_Delete k w); [|done..].
    unfold mbind at 1, res_bind at 1. rewrite IH by (done || lia). done.
Qed.

Lemma batch_Iterate rep seq ops w :
  batch rep seq ops → Iterate rep w = (w' ← run ops w; Ok (Status.OK, w')).
Proof.
  intros Hb. pose proof (batch_Count _ _ _ Hb) as Ec. destruct Hb as [-> Hs Hc Hf].
  unfold Iterate, Slice.remove_prefix. unfold Slice.size. rewrite !length_app, !length_le_bytes.
  rewrite (proj2 (Z.ltb_ge _ _)), (proj2 (Z.leb_le _ _)) by (unfold kHeader; lia).
  unfold mbind at 1, res_bind at 1.
  assert (drop (Z.to_nat (Z.of_nat kHeader))
    (le_bytes 8 seq ++ le_bytes 4 (Z.of_nat (length ops)) ++ encode_ops ops) = encode_ops ops) as ->.
  { rewrite app_assoc. apply drop_app_length'. by rewrite length_app, !length_le_bytes. }
  pose proof (length_encode_ops ops). rewrite iterate_ops by (done || lia).
  rewrite bind_assoc. destruct (run ops w); [|done..]. unfold mbind, res_bind.
  rewrite Ec, Z.add_0_l, Z.eqb_refl. done.
Qed.

(** On any bytes: some operations are passed to the handler, in order, and then the
    loop ends with their number or an error. *)
Lemma iterate_any fuel : ∀ input found,
  Forall is_byte input → (length input < fuel)%nat → 0 <= found →
  found + Z.of_nat (length input) < 2 ^ 31 →
  ∃ ops r, (∀ w, iterate_loop fuel input found w = (w' ← run ops w; Ok (r, w'))) ∧
    Z.of_nat (length ops) <= Z.of_nat (length input) ∧
    (r = inl (found + Z.of_nat (length ops)) ∨ ∃ msg, r = inr (Status.Corruption msg)).
Proof.
  induction fuel as [|fuel IH]; intros input found Hb Hl H0 Hc; [lia|].
  destruct input as [|b input].
  { exists [], (inl found). split_and!; [done|done|left; f_equal; cbn; lia]. }
  apply list.Forall_cons in Hb as [Hb Hin]. cbn [length] in *.
  assert (∀ msg, ∃ ops r, (∀ w : W, Ok (inr (Status.Corruption msg), w) = (w' ← run ops w; Ok (r, w'))) ∧
    Z.of_nat (length ops) <= Z.of_nat (S (length input)) ∧
    (r = inl (found + Z.of_nat (length ops)) ∨ ∃ msg, r = inr (Status.Corruption msg))) as Herr.
  { intros msg. exists [], (inr (Status.Corruption msg)). split_and!; [done|cbn; lia|by right; exists msg]. }
  setoid_rewrite iterate_step; [|done|done|lia..].
  destruct (b =? 1); [|destruct (b =? 0)]; [| |apply Herr];
    (destruct (parse_prefixed input) as [[key q]|] eqn:E1; [|apply Herr]);
    destruct (parse_prefixed_shorter _ _ _ E1) as (L1 & hd & ->);
    apply List.Forall_app in Hin as [_ Hin]; apply List.Forall_app in Hin as [_ Hin].
  - destruct (parse_prefixed q) as [[value q']|] eqn:E2; [|apply Herr].
    destruct (parse_prefixed_shorter _ _ _ E2) as (L2 & hd' & ->).
    apply List.Forall_app in Hin as [_ Hin]. apply List.Forall_app in Hin as [_ Hin].
    destruct (IH q' (found + 1) Hin ltac:(lia) ltac:(lia) ltac:(lia)) as (ops & r & E & Hn & Hr).
    exists (op_put key value :: ops), r. split_and!; [|cbn [length]; lia|].
    + intros w. cbn [run]. rewrite bind_assoc. destruct (handle_Put key value w); [|done..].
      unfold mbind at 1, res_bind at 1. rewrite E. done.
    + destruct Hr as [->|Hr]; [left; f_equal; cbn [length]; lia|by right].
  - destruct (IH q (found + 1) Hin ltac:(lia) ltac:(lia) ltac:(lia)) as (ops & r & E & Hn & Hr).
    exists (op_delete key :: ops), r. split_and!; [|cbn [length]; lia|].
    + intros w. cbn [run]. rewrite bind_assoc. destruct (handle_Delete key w); [|done..].
      unfold mbind at 1, res_bind at 1. rewrite E. done.
    + destruct Hr as [->|Hr]; [left; f_equal; cbn [length]; lia|by right].
Qed.

Lemma Iterate_any rep :
  Forall is_byte rep → Slice.size rep < 2 ^ 31 →
  ∃ ops status, (∀ w, Iterate rep w = (w' ← run ops w; Ok (status, w'))) ∧
    (status = Status.OK → Count rep = Ok (Z.of_nat (length ops))).
Proof.
  intros Hb Hs. unfold Iterate. destruct (Z.ltb_spec (Slice.size rep) (Z.of_nat kHeader)) as [L|L].
  { by exists [], (Status.Corruption "malformed WriteBatch (too small)"). }
  unfold Slice.remove_prefix. rewrite (proj2 (Z.leb_le _ _)) by done.
  unfold mbind at 1, res_bind at 1. set (input := drop _ rep).
  assert (length input <= length rep)%nat by (unfold input; rewrite length_drop; lia).
  unfold Slice.size in *.
  destruct (iterate_any (S (length input)) input 0) as (ops & r & E & Hn & Hr);
    [by apply Forall_drop|lia|lia|lia|].
  assert (∃ n, Count rep = Ok n) as [n Ec].
  { unfold Count, Coding.DecodeFixed32. rewrite length_drop, (proj2 (Nat.leb_le _ _)) by (unfold kHeader in L; lia).
    by eexists. }
  destruct Hr as [->|[msg ->]].
  - exists ops, (if negb (0 + Z.of_nat (length ops) =? n) then Status.Corruption "WriteBatch has wrong count" else Status.OK).
    split.
    + intros w. rewrite E, bind_assoc. destruct (run ops w); [|done..]. unfold mbind, res_bind.
      by rewrite Ec.
    + destruct (Z.eqb_spec (0 + Z.of_nat (length ops)) n) as [<-|]; [|done]. intros _. by rewrite Ec.
  - exists ops, (Status.Corruption msg). split; [|done].
    intros w. rewrite E, bind_assoc. by destruct (run ops w).
Qed.
End iterate.

(** * Insertion into the memory table *)

(** The entry of an operation with sequence number [seq]. *)
Definition op_entry (seq : Z) (o : op) : entry :=
  match o with
  | op_put k v => mkEntry k seq Internal.kTypeValue v
  | op_delete k => mkEntry k seq Internal.kTypeDeletion []
  end.

(** The entries of a table after the operations. *)
Fixpoint apply_ops (seq : Z) (ops : list op) (es : list entry) : list entry :=
  match ops with
  | [] => es
  | o :: ops' => apply_ops (seq + 1) ops' (op_entry seq o :: es)
  end.

(** Operations small enough for the entries of the table. *)
Definition op_small (o : op) : Prop := op_fits o ∧ Slice.size (op_key o) + 8 < 2 ^ 32.

Definition older (seq : Z) (es : list entry) : Prop := Forall (λ e, e_seq e < seq) es.

Section insert_into.
Context (U : SliceComparator) (valid : bytes → Prop) (ord : Comparator bytes)
  `{!Lawful U (λ _, True) valid ord}.
#[local] Existing Instance MemTableInserter.

Lemma op_entry_fits seq o : op_small o → 0 <= seq < 2 ^ 56 → fits (op_entry seq o).
Proof. intros [Ho Hk] Hs. destruct o; [destruct Ho as [[] []]|destruct Ho]; by split. Qed.

Lemma op_entry_seq seq o : e_seq (op_entry seq o) = seq.
Proof. by destruct o. Qed.
Lemma op_entry_key seq o : e_key (op_entry seq o) = op_key o.
Proof. by destruct o. Qed.

Lemma fresh_older seq o es : older seq es → fresh_entry ord (op_entry seq o) es.
Proof.
  intros H. eapply list.Forall_impl; [exact H|]. cbn. intros e He [_ E].
  unfold e_num, pack in E. rewrite op_entry_seq in E.
  destruct (e_type e), (e_type (op_entry seq o)); cbn in E; lia.
Qed.

Lemma older_cons seq o es : older seq es → older (seq + 1) (op_entry seq o :: es).
Proof.
  intros H. constructor; [rewrite op_entry_seq; lia|].
  eapply list.Forall_impl; [exact H|]. cbn. lia.
Qed.

Lemma run_insert ops : ∀ seq es m,
  holds U m es → older seq es → Forall op_small ops → 0 <= seq →
  seq + Z.of_nat (length ops) <= 2 ^ 56 →
  ∃ m', run ops (seq, m) = Ok (seq + Z.of_nat (length ops), m') ∧
    holds U m' (apply_ops seq ops es).
Proof.
  induction ops as [|o ops IH]; intros seq es m Hm Ho Hf Hs Hc.
  { exists m. split; [|done]. cbn. by rewrite Z.add_0_r. }
  apply list.Forall_cons in Hf as [Hof Hf]. cbn [length] in *.
  destruct (holds_add U valid ord m es (op_entry seq o) Hm) as (m1 & E & Hm1 & _);
    [apply op_entry_fits; [done|lia]|by apply fresh_older|].
  destruct (IH (seq + 1) _ m1 Hm1 (older_cons _ _ _ Ho) Hf) as (m' & E' & Hm'); [lia|lia|].
  exists m'. split; [|done].
  replace (seq + Z.of_nat (S (length ops))) with (seq + 1 + Z.of_nat (length ops)) by lia.
  rewrite <- E'. destruct o as [k v|k]; cbn [run]; unfold handle_Put, handle_Delete, MemTableInserter;
    cbn [op_entry e_seq e_type e_key e_value] in E; rewrite E; unfold mbind, res_bind;
    by rewrite u64_small by lia.
Qed.

Lemma InsertInto_ok rep seq ops m es :
  batch rep seq ops → holds U m es → older seq es → Forall op_small ops →
  seq + Z.of_nat (length ops) <= 2 ^ 56 →
  ∃ m', InsertInto U rep m = Ok (Status.OK, m') ∧ holds U m' (apply_ops seq ops es).
Proof.
  intros Hb Hm Ho Hf Hc. pose proof (batch_seq _ _ _ Hb) as Hs.
  destruct (run_insert ops seq es m Hm Ho Hf ltac:(lia) Hc) as (m' & E & Hm').
  exists m'. split; [|done]. unfold InsertInto. rewrite (batch_Sequence _ _ _ Hb).
  unfold mbind, res_bind. rewrite (batch_Iterate _ _ _ _ Hb). unfold mbind, res_bind. by rewrite E.
Qed.

(** * What a snapshot sees afterwards *)

(** The last operation on a key. *)
Fixpoint last_op (u : bytes) (ops : list op) : option op :=
  match ops with
  | [] => None
  | o :: ops' =>
      match last_op u ops' with
      | Some x => Some x
      | None => if @compare_ bytes ord (op_key o) u =? 0 then Some o else None
      end
  end.

Definition result_of (o : op) : MemTable.Found :=
  match o with op_put _ v => MemTable.g_value v | op_delete _ => MemTable.g_deleted end.

(** An entry newer than all others hides those of its key. *)
Lemma answers_cons e es u s r :
  Forall (λ e', e_seq e' < e_seq e) es → e_seq e <= s → answers ord es u s r →
  answers ord (e :: es) u s (if @compare_ bytes ord (e_key e) u =? 0 then found e else r).
Proof.
  intros Ho Hs Ha. rewrite list.Forall_forall in Ho.
  assert (∀ e', e' ∈ es → e_num e' < e_num e) as Hn.
  { intros e' He'. specialize (Ho e' He'). unfold e_num, pack.
    destruct (e_type e'), (e_type e); cbn [Internal.type_code]; lia. }
  destruct (Z.eqb_spec (@compare_ bytes ord (e_key e) u) 0) as [E|E].
  - apply answers_found; [by left|by split|]. intros e' [->|He']%elem_of_cons _; [by left|].
    right. by apply Hn.
  - destruct Ha as [Hnone|e' He' Hv Hmax].
    + apply answers_none. constructor; [by intros []|done].
    + apply answers_found; [by right|done|].
      intros e2 [->|He2]%elem_of_cons Hv2; [by destruct Hv2|by apply Hmax].
Qed.

Lemma apply_ops_answers u s r ops : ∀ seq es,
  older seq es → seq + Z.of_nat (length ops) - 1 <= s → answers ord es u s r →
  answers ord (apply_ops seq ops es) u s
    (match last_op u ops with Some o => result_of o | None => r end).
Proof.
  revert r. induction ops as [|o ops IH]; intros r seq es Ho Hs Ha; [done|].
  cbn [length] in Hs. cbn [apply_ops last_op].
  assert (answers ord (op_entry seq o :: es) u s
    (if @compare_ bytes ord (op_key o) u =? 0 then result_of o else r)) as Ha1.
  { pose proof (answers_cons (op_entry seq o) es u s r) as A. rewrite op_entry_seq, op_entry_key in A.
    assert (found (op_entry seq o) = result_of o) as Ef by by destruct o. rewrite Ef in A.
    apply A; [done|lia|done]. }
  specialize (IH _ (seq + 1) _ (older_cons _ o _ Ho) ltac:(lia) Ha1).
  destruct (last_op u ops); [done|]. by destruct (_ =? 0).
Qed.
End insert_into.

(** Entries newer than the snapshot are not seen. *)
Lemma apply_ops_hidden ord u s r ops : ∀ seq es,
  s < seq → answers ord es u s r → answers ord (apply_ops seq ops es) u s r.
Proof.
  induction ops as [|o ops IH]; intros seq es Hs Ha; [done|]. cbn [apply_ops].
  apply IH; [lia|]. assert (¬ visible ord u s (op_entry seq o)) as Hn.
  { intros [_ H]. rewrite op_entry_seq in H. lia. }
  destruct Ha as [Hnone|e He Hv Hmax]; [by apply answers_none; constructor|].
  apply answers_found; [by right|done|].
  intros e' [->|He']%elem_of_cons Hv'; [done|by apply Hmax].
Qed.

(** A batch with one operation, and the empty table. *)
Definition example_ops : list op := [op_put [107] [118; 119]; op_delete [107]].
Definition example_rep : bytes :=
  [9; 0; 0; 0; 0; 0; 0; 0; 2; 0; 0; 0; 1; 1; 107; 2; 118; 119; 0; 1; 107].

Lemma example_batch : batch example_rep 9 example_ops.
Proof.
  split; [done|lia|done|]. unfold example_ops.
  repeat constructor; cbn; first [done | lia].
Qed.

(** * Properties *)

(** The operations of a batch are those that were put into it, in order. The
    constructor makes an empty batch; [Put], [Delete] and [Append] add operations at
    the end, [SetSequence] changes the sequence number, [Count] and [Sequence] read
    the header; and [Iterate] calls the handler once for each operation and
    returns success when the calls do. *)
Theorem batch_roundtrip {W} `{Handler W} rep seq ops rep' seq' ops' o s (w : W) :
  batch rep seq ops → batch rep' seq' ops' → op_fits o → 0 <= s < 2 ^ 64 →
  Z.of_nat (length ops) + 1 < 2 ^ 31 →
  Z.of_nat (length ops) + Z.of_nat (length ops') < 2 ^ 31 →
  batch Clear 0 [] ∧
  (∃ r, (match o with op_put k v => Put rep k v | op_delete k => Delete rep k end) = Ok r ∧
     batch r seq (ops ++ [o])) ∧
  (∃ r, Append rep rep' = Ok r ∧ batch r seq (ops ++ ops')) ∧
  (∃ r, SetSequence rep s = Ok r ∧ batch r s ops) ∧
  Count rep = Ok (Z.of_nat (length ops)) ∧ Sequence rep = Ok seq ∧
  Iterate rep w = (w' ← run ops w; Ok (Status.OK, w')).
Proof.
  intros Hb Hb' Ho Hs Hc Hc'. split_and!.
  - apply batch_Clear.
  - destruct o; [by apply batch_Put|by apply batch_Delete].
  - by eapply batch_Append.
  - by eapply batch_SetSequence.
  - by eapply batch_Count.
  - by eapply batch_Sequence.
  - by apply (batch_Iterate rep seq).
Qed.

(** A handler that records its calls. *)
#[export] Instance recorder : Handler (list op) := {|
  handle_Put k v w := Ok (w ++ [op_put k v]);
  handle_Delete k w := Ok (w ++ [op_delete k])
|}.

Lemma batch_roundtrip_witness : Iterate example_rep [] = Ok (Status.OK, example_ops).
Proof.
  change (Iterate example_rep [] = (w' ← run example_ops ([] : list op); Ok (Status.OK, w'))).
  apply (batch_roundtrip example_rep 9 example_ops Clear 0 [] (op_delete [107]) 5 ([] : list op)
    example_batch batch_Clear); [|done|done|done].
  split; [done|forall_list].
Defined.

(** C27: iterating over any sequence of bytes as a batch is safe: [Iterate] returns,
    reads nothing outside of it, calls the handler for some operations in order, and
    reports success only when their number is the count of the header. *)
Theorem batch_iterate_safe {W} `{Handler W} rep :
  Forall is_byte rep → Slice.size rep < 2 ^ 31 →
  ∃ ops status, (∀ w : W, Iterate rep w = (w' ← run ops w; Ok (status, w'))) ∧
    (status = Status.OK → Count rep = Ok (Z.of_nat (length ops))).
Proof. apply Iterate_any. Qed.

Lemma batch_iterate_safe_witness :
  ∃ ops status,
    (∀ w : list op, Iterate [0; 0; 0; 0; 0; 0; 0; 0; 1; 0; 0; 0; 1; 200] w =
       (w' ← run ops w; Ok (status, w'))) ∧
    (status = Status.OK →
     Count [0; 0; 0; 0; 0; 0; 0; 0; 1; 0; 0; 0; 1; 200] = Ok (Z.of_nat (length ops))).
Proof. apply batch_iterate_safe; [forall_list|done]. Defined.

(** C17: inserting a batch into a memory table whose entries are older succeeds, and
    applies it: at a snapshot from its last sequence number on, a key that the batch
    touches has the result of the last operation on it, and every other key the
    answer it had; at a snapshot before the batch nothing changes. *)
Theorem batch_applied U valid ord rep seq ops m es u s :
  Lawful U (λ _, True) valid ord →
  batch rep seq ops → Forall op_small ops → seq + Z.of_nat (length ops) <= 2 ^ 56 →
  holds U m es → older seq es →
  Slice.size u + 8 < 2 ^ 32 → Forall is_byte u → 0 <= s < 2 ^ 56 →
  ∃ m' k before after, InsertInto U rep m = Ok (Status.OK, m') ∧ Internal.lookup_key u s = Ok k ∧
    MemTable.Get U m k = Ok before ∧ MemTable.Get U m' k = Ok after ∧
    (seq + Z.of_nat (length ops) - 1 <= s →
     after = match last_op ord u ops with Some o => result_of o | None => before end) ∧
    (s < seq → after = before).
Proof.
  intros HU Hb Hf Hc Hm Ho Hu Hub Hs.
  destruct (InsertInto_ok U valid ord rep seq ops m es Hb Hm Ho Hf Hc) as (m' & E & Hm').
  destruct (holds_get U valid ord m es u s Hm Hu Hub Hs) as (k & before & Ek & Eb & Ab).
  destruct (holds_get U valid ord m' _ u s Hm' Hu Hub Hs) as (k' & after & Ek' & Ea & Aa).
  rewrite Ek in Ek'. injection Ek' as <-. exists m', k, before, after.
  split_and!; [done..| |].
  - intros Hl. eapply answers_det; [exact Aa|]. by apply apply_ops_answers.
  - intros Hl. eapply answers_det; [exact Aa|]. by apply apply_ops_hidden.
Qed.

Lemma batch_applied_witness :
  ∃ m0 m' k before after, MemTable.new = Ok m0 ∧
    InsertInto Bytewise.BytewiseComparator example_rep m0 = Ok (Status.OK, m') ∧
    Internal.lookup_key [107] 20 = Ok k ∧
    MemTable.Get Bytewise.BytewiseComparator m0 k = Ok before ∧
    MemTable.Get Bytewise.BytewiseComparator m' k = Ok after ∧
    (10 <= 20 → after = MemTable.g_deleted) ∧ (20 < 9 → after = before).
Proof.
  destruct (holds_new Bytewise.BytewiseComparator) as (m0 & E0 & H0 & _).
  exists m0.
  destruct (batch_applied Bytewise.BytewiseComparator _ _ example_rep 9 example_ops m0 [] [107] 20
    bytewise_lawful example_batch) as (m' & k & before & after & P); [|done|done|constructor|done| |done|].
  - unfold example_ops, op_small. repeat constructor; cbn; first [done | lia].
  - forall_list.
  - exists m', k, before, after. split; [done|exact P].
Defined.
