(* ===== verification/LdbCrcProps.v ===== *)
(** The table-driven checksum computes CRC-32C, whatever the alignment of the data;
    masking it is a bijection; and it tells apart any two strings that differ in one
    byte. *)
From S2P Require Import Prelude LdbFormat LdbCrc.
Import Crc32c.

(** * CRC-32C bit by bit

    The register is shifted right; when a one leaves it the reversed polynomial of
    Castagnoli is added. *)
Definition poly : Z := 0x82f63b78.
Definition crc_bit (x : Z) : Z := Z.lxor (Z.shiftr x 1) (if Z.odd x then poly else 0).
Fixpoint crc_bits (n : nat) (x : Z) : Z :=
  match n with O => x | S n' => crc_bits n' (crc_bit x) end.
Definition crc_byte (l b : Z) : Z := crc_bits 8 (Z.lxor l b).

(** The register starts and ends inverted. *)
Definition crc32c (crc : Z) (data : bytes) : Z :=
  Z.lxor (fold_left crc_byte data (Z.lxor crc 0xffffffff)) 0xffffffff.

(** * Linearity *)

Lemma crc_bit_lxor x y : crc_bit (Z.lxor x y) = Z.lxor (crc_bit x) (crc_bit y).
Proof.
  unfold crc_bit. rewrite Z.shiftr_lxor.
  assert (Z.odd (Z.lxor x y) = xorb (Z.odd x) (Z.odd y)) as ->
    by (rewrite <- !Z.bit0_odd; apply Z.lxor_spec).
  assert (∀ a b p q, Z.lxor (Z.lxor a p) (Z.lxor b q) = Z.lxor (Z.lxor a b) (Z.lxor p q)) as E.
  { intros. rewrite !Z.lxor_assoc. f_equal. rewrite <- !Z.lxor_assoc. f_equal. apply Z.lxor_comm. }
  rewrite E. f_equal. by destruct (Z.odd x), (Z.odd y).
Qed.

Lemma crc_bits_lxor n x y : crc_bits n (Z.lxor x y) = Z.lxor (crc_bits n x) (crc_bits n y).
Proof. revert x y. induction n as [|n IH]; intros x y; [done|]. cbn. by rewrite crc_bit_lxor, IH. Qed.

Lemma crc_bits_add n m x : crc_bits (n + m) x = crc_bits m (crc_bits n x).
Proof. revert x. induction n as [|n IH]; intros x; [done|]. cbn. by rewrite IH. Qed.

(** Zeros only shift. *)
Lemma crc_bits_shiftl n x : crc_bits n (Z.shiftl x (Z.of_nat n)) = x.
Proof.
  induction n as [|n IH]; [apply Z.shiftl_0_r|]. cbn [crc_bits].
  assert (crc_bit (Z.shiftl x (Z.of_nat (S n))) = Z.shiftl x (Z.of_nat n)) as ->; [|done].
  unfold crc_bit. assert (Z.odd (Z.shiftl x (Z.of_nat (S n))) = false) as ->
    by (rewrite <- Z.bit0_odd; apply Z.shiftl_spec_low; lia).
  rewrite Z.lxor_0_r, Z.shiftr_shiftl_l by lia. f_equal. lia.
Qed.

Lemma crc_bits_shift8 x : crc_bits 8 (Z.shiftl x 8) = x.
Proof. exact (crc_bits_shiftl 8 x). Qed.

(** * The tables *)

Definition table_ok (k : nat) (t : list Z) : bool :=
  forallb (λ i, bool_decide (t !! i = Some (crc_bits (8 * k) (Z.of_nat i)))) (seq 0 256).

Lemma table_lookup k t c :
  table_ok k t = true → 0 <= c < 256 → t !! Z.to_nat c = Some (crc_bits (8 * k) c).
Proof.
  unfold table_ok. rewrite forallb_forall. intros H Hc.
  specialize (H (Z.to_nat c)). rewrite bool_decide_eq_true, Z2Nat.id in H by lia.
  apply H, in_seq. lia.
Qed.

Lemma table0_ok : table_ok 1 table0_ = true.
Proof. by vm_compute. Qed.
Lemma table1_ok : table_ok 2 table1_ = true.
Proof. by vm_compute. Qed.
Lemma table2_ok : table_ok 3 table2_ = true.
Proof. by vm_compute. Qed.
Lemma table3_ok : table_ok 4 table3_ = true.
Proof. by vm_compute. Qed.

(** * The steps *)

Lemma lxor_bound n a b : 0 <= n → 0 <= a < 2 ^ n → 0 <= b < 2 ^ n → 0 <= Z.lxor a b < 2 ^ n.
Proof.
  intros Hn [Ha1 Ha2] [Hb1 Hb2]. assert (0 <= Z.lxor a b) as H0 by by apply Z.lxor_nonneg.
  split; [done|]. apply Z.bounded_iff_bits_nonneg; [done..|]. intros i Hi.
  rewrite Z.lxor_spec. rewrite Z.bounded_iff_bits_nonneg in Ha2, Hb2 by done.
  by rewrite Ha2, Hb2.
Qed.

Lemma split_byte x : x = Z.lxor (Z.land x 0xff) (Z.shiftl (Z.shiftr x 8) 8).
Proof.
  apply Z.bits_inj'. intros i Hi. change 0xff with (Z.ones 8).
  rewrite Z.lxor_spec, Z.land_spec, Z.testbit_ones_nonneg by lia.
  destruct (Z.ltb_spec i 8).
  - rewrite Z.shiftl_spec_low by done. by rewrite andb_true_r, xorb_false_r.
  - rewrite Z.shiftl_spec_high, Z.shiftr_spec by lia. rewrite andb_false_r, xorb_false_l.
    f_equal. lia.
Qed.

Lemma low_byte x : 0 <= Z.land x 0xff < 256.
Proof. rewrite land_255. apply Z.mod_pos_bound. lia. Qed.

Lemma crc_bits_byte n x :
  crc_bits (8 + n) x = Z.lxor (crc_bits (8 + n) (Z.land x 0xff)) (crc_bits n (Z.shiftr x 8)).
Proof.
  rewrite (split_byte x) at 1. rewrite crc_bits_lxor. f_equal.
  by rewrite crc_bits_add, crc_bits_shift8.
Qed.

Lemma crc_bit_range x : 0 <= x < 2 ^ 32 → 0 <= crc_bit x < 2 ^ 32.
Proof.
  intros Hx. unfold crc_bit. apply lxor_bound; [lia| |by destruct (Z.odd x)].
  rewrite Z.shiftr_div_pow2 by lia. change (2 ^ 1) with 2. Z.div_mod_to_equations. lia.
Qed.

Lemma crc_bits_range n x : 0 <= x < 2 ^ 32 → 0 <= crc_bits n x < 2 ^ 32.
Proof. revert x. induction n as [|n IH]; intros x Hx; [done|]. by apply IH, crc_bit_range. Qed.

Lemma crc_byte_range l b : 0 <= l < 2 ^ 32 → is_byte b → 0 <= crc_byte l b < 2 ^ 32.
Proof. unfold is_byte. intros. apply crc_bits_range, lxor_bound; lia. Qed.

#[local] Opaque crc_bits crc_byte.

Lemma fold_left_cons {A B} (f : A → B → A) b p l :
  fold_left f (b :: p) l = fold_left f p (f l b).
Proof. reflexivity. Qed.
Definition crc_fold_cons b p l := fold_left_cons crc_byte b p l.
Lemma crc_byte_unfold l b : crc_byte l b = crc_bits 8 (Z.lxor l b).
Proof. reflexivity. Qed.

Lemma crc_fold_range p l :
  0 <= l < 2 ^ 32 → Forall is_byte p → 0 <= fold_left crc_byte p l < 2 ^ 32.
Proof.
  intros Hl Hp. revert l Hl. induction Hp as [|b p Hb Hp IH]; intros l Hl; [done|].
  rewrite crc_fold_cons. apply IH. by apply crc_byte_range.
Qed.

Lemma step1_ok l b p :
  0 <= l < 2 ^ 32 → is_byte b → step1 l (b :: p) = Ok (crc_byte l b, p).
Proof.
  intros Hl Hb. unfold is_byte in Hb. unfold step1.
  rewrite (table_lookup 1 _ _ table0_ok)
    by (apply (lxor_bound 8); [lia|apply low_byte|change (2 ^ 8) with 256; lia]).
  unfold mbind, res_bind. cbn [of_option]. do 2 f_equal. rewrite crc_byte_unfold.
  assert (Z.lxor l b = Z.lxor (Z.lxor (Z.land l 255) b) (Z.shiftl (Z.shiftr l 8) 8)) as ->.
  { rewrite (split_byte l) at 1. rewrite !Z.lxor_assoc. f_equal. apply Z.lxor_comm. }
  rewrite (crc_bits_lxor 8 (Z.lxor (Z.land l 255) b)), crc_bits_shift8. reflexivity.
Qed.

(** Several bytes at once. *)
Lemma lxor_disjoint b m : is_byte b → 0 <= m → b + 256 * m = Z.lxor b (Z.shiftl m 8).
Proof.
  unfold is_byte. intros Hb Hm. rewrite <- Z.add_nocarry_lxor.
  - rewrite Z.shiftl_mul_pow2 by lia. lia.
  - apply Z.bits_inj'. intros i Hi. rewrite Z.land_spec, Z.bits_0.
    destruct (Z.lt_ge_cases i 8); [by rewrite Z.shiftl_spec_low, andb_false_r|].
    assert (b < 2 ^ 8) as H8 by lia. rewrite Z.bounded_iff_bits_nonneg in H8 by lia.
    by rewrite H8.
Qed.

Lemma le_of_bytes_nonneg bs : Forall is_byte bs → 0 <= le_of_bytes bs.
Proof. intros. by apply le_of_bytes_bound. Qed.

Lemma crc_fold_word bs l :
  Forall is_byte bs →
  fold_left crc_byte bs l = crc_bits (8 * length bs) (Z.lxor l (le_of_bytes bs)).
Proof.
  intros Hb. revert l. induction Hb as [|b bs Hb Hbs IH]; intros l; [cbn; by rewrite Z.lxor_0_r|].
  rewrite crc_fold_cons, IH, crc_byte_unfold. cbn [le_of_bytes length].
  rewrite lxor_disjoint by (done || by apply le_of_bytes_nonneg).
  replace (8 * S (length bs))%nat with (8 + 8 * length bs)%nat by lia.
  rewrite crc_bits_add. f_equal.
  rewrite <- Z.lxor_assoc, (crc_bits_lxor 8 (Z.lxor l b)), crc_bits_shift8. reflexivity.
Qed.

Lemma step4_ok l b0 b1 b2 b3 p :
  0 <= l < 2 ^ 32 → Forall is_byte [b0; b1; b2; b3] →
  step4 l (b0 :: b1 :: b2 :: b3 :: p) = Ok (fold_left crc_byte [b0; b1; b2; b3] l, p).
Proof.
  intros Hl Hb. unfold step4, LE_LOAD32, Coding.DecodeFixed32. cbn [length Nat.leb take drop].
  rewrite crc_fold_word by done. set (w := le_of_bytes [b0; b1; b2; b3]).
  pose proof (le_of_bytes_bound _ Hb) as Hw. fold w in Hw.
  change (2 ^ (8 * Z.of_nat (length [b0; b1; b2; b3]))) with (2 ^ 32) in Hw.
  unfold mbind at 1, res_bind at 1. set (c := Z.lxor l w).
  pose proof (lxor_bound 32 l w ltac:(lia) Hl Hw) as Hc. fold c in Hc.
  rewrite (table_lookup 4 _ _ table3_ok), (table_lookup 3 _ _ table2_ok),
    (table_lookup 2 _ _ table1_ok) by apply low_byte.
  assert (0 <= Z.shiftr c 24 < 256) as H24.
  { rewrite Z.shiftr_div_pow2 by lia. change (2 ^ 24) with 16777216. Z.div_mod_to_equations. lia. }
  rewrite (table_lookup 1 _ _ table0_ok) by done.
  unfold mbind, res_bind. cbn [of_option length]. do 2 f_equal.
  pose proof (crc_bits_byte 24 c) as P1. pose proof (crc_bits_byte 16 (Z.shiftr c 8)) as P2.
  pose proof (crc_bits_byte 8 (Z.shiftr c 16)) as P3.
  rewrite Z.shiftr_shiftr in P2, P3 by lia.
  change (8 * 4)%nat with (8 + 24)%nat. rewrite P1. change (8 + 16)%nat with 24%nat in P2.
  rewrite P2. change (8 + 8)%nat with 16%nat in P3. change (8 + 8) with 16. rewrite P3.
  by rewrite !Z.lxor_assoc.
Qed.

(** * The routine *)

Definition runs (l : Z) (p : bytes) (l' : Z) (p' : bytes) : Prop :=
  ∃ q, p = q ++ p' ∧ l' = fold_left crc_byte q l ∧ 0 <= l' < 2 ^ 32 ∧ Forall is_byte p'.

Lemma runs_trans l p l' p' l'' p'' : runs l p l' p' → runs l' p' l'' p'' → runs l p l'' p''.
Proof.
  intros (q & -> & -> & _) (q' & -> & -> & H & Hb). exists (q ++ q').
  by rewrite fold_left_app, app_assoc.
Qed.

Lemma runs_refl l p : 0 <= l < 2 ^ 32 → Forall is_byte p → runs l p l p.
Proof. intros. by exists []. Qed.

Lemma steps1_ok n l p :
  0 <= l < 2 ^ 32 → Forall is_byte p → (n <= length p)%nat →
  ∃ l' p', steps1 n l p = Ok (l', p') ∧ runs l p l' p' ∧ length p' = (length p - n)%nat.
Proof.
  revert l p. induction n as [|n IH]; intros l p Hl Hp Hn.
  { exists l, p. split_and!; [done|by apply runs_refl|lia]. }
  destruct p as [|b p]; [cbn in Hn; lia|]. apply list.Forall_cons in Hp as [Hb Hp].
  cbn [steps1]. rewrite step1_ok by done. unfold mbind, res_bind.
  destruct (IH (crc_byte l b) p (crc_byte_range l b Hl Hb) Hp) as (l' & p' & E & R & L);
    [cbn in Hn; lia|].
  exists l', p'. split_and!; [done| |cbn [length]; lia].
  eapply runs_trans; [|exact R]. exists [b]. rewrite crc_fold_cons.
  split_and!; [done|done| | |done]; by apply crc_byte_range.
Qed.

Lemma step4_runs l p :
  0 <= l < 2 ^ 32 → Forall is_byte p → (4 <= length p)%nat →
  ∃ l' p', step4 l p = Ok (l', p') ∧ runs l p l' p' ∧ length p' = (length p - 4)%nat.
Proof.
  intros Hl Hp Hn. destruct p as [|b0 [|b1 [|b2 [|b3 p]]]]; cbn in Hn; try lia.
  change (b0 :: b1 :: b2 :: b3 :: p) with ([b0; b1; b2; b3] ++ p) in Hp.
  apply List.Forall_app in Hp as [Hb Hp]. eexists _, p. split_and!; [by apply step4_ok| |cbn; lia].
  exists [b0; b1; b2; b3]. split_and!; [done|done| | |done]; by apply crc_fold_range.
Qed.

Lemma loop4_ok fuel : ∀ l p,
  0 <= l < 2 ^ 32 → Forall is_byte p → (length p < fuel)%nat →
  ∃ l' p', loop4 fuel l p = Ok (l', p') ∧ runs l p l' p'.
Proof.
  induction fuel as [|fuel IH]; intros l p Hl Hp Hn; [lia|]. cbn [loop4]. case_decide as H4.
  - destruct (step4_runs l p Hl Hp H4) as (l1 & p1 & E & R & L). rewrite E. unfold mbind, res_bind.
    destruct R as (q & Eq & El & Hl1 & Hp1).
    destruct (IH l1 p1 Hl1 Hp1 ltac:(lia)) as (l' & p' & E' & R'). exists l', p'. split; [done|].
    eapply runs_trans; [|exact R']. by exists q.
  - exists l, p. split; [done|by apply runs_refl].
Qed.

Lemma loop16_ok fuel : ∀ l p,
  0 <= l < 2 ^ 32 → Forall is_byte p → (length p < fuel)%nat →
  ∃ l' p', loop16 fuel l p = Ok (l', p') ∧ runs l p l' p'.
Proof.
  induction fuel as [|fuel IH]; intros l p Hl Hp Hn; [lia|]. cbn [loop16]. case_decide as H16.
  - destruct (step4_runs l p Hl Hp ltac:(lia)) as (l1 & p1 & E1 & R1 & L1).
    pose proof R1 as (_ & _ & _ & Hl1 & Hp1).
    destruct (step4_runs l1 p1 Hl1 Hp1 ltac:(lia)) as (l2 & p2 & E2 & R2 & L2).
    pose proof R2 as (_ & _ & _ & Hl2 & Hp2).
    destruct (step4_runs l2 p2 Hl2 Hp2 ltac:(lia)) as (l3 & p3 & E3 & R3 & L3).
    pose proof R3 as (_ & _ & _ & Hl3 & Hp3).
    destruct (step4_runs l3 p3 Hl3 Hp3 ltac:(lia)) as (l4 & p4 & E4 & R4 & L4).
    pose proof R4 as (_ & _ & _ & Hl4 & Hp4).
    destruct (IH l4 p4 Hl4 Hp4 ltac:(lia)) as (l' & p' & E' & R').
    exists l', p'. unfold mbind, res_bind. rewrite E1, E2, E3, E4. split; [done|].
    eauto using runs_trans.
  - exists l, p. split; [done|by apply runs_refl].
Qed.

Lemma Extend_ok pval crc buf :
  0 <= crc < 2 ^ 32 → Forall is_byte buf → 0 <= pval →
  Extend pval crc buf = Ok (crc32c crc buf).
Proof.
  intros Hc Hb Hpv. unfold Extend. change CanAccelerateCRC32C with false. cbv iota.
  assert (0 <= Z.lxor crc 4294967295 < 2 ^ 32) as Hl by (apply lxor_bound; lia).
  set (l := Z.lxor crc 4294967295) in *. set (x := Z.shiftl (Z.shiftr (pval + 3) 2) 2).
  assert (pval <= x) as Hx.
  { unfold x. rewrite Z.shiftl_mul_pow2, Z.shiftr_div_pow2 by lia. change (2 ^ 2) with 4.
    Z.div_mod_to_equations. lia. }
  assert (∃ l1 p1, (if x <=? pval + Slice.size buf then steps1 (Z.to_nat (x - pval)) l buf
    else Ok (l, buf)) = Ok (l1, p1) ∧ runs l buf l1 p1) as (l1 & p1 & E1 & R1).
  { destruct (Z.leb_spec x (pval + Slice.size buf)).
    - destruct (steps1_ok (Z.to_nat (x - pval)) l buf Hl Hb) as (l1 & p1 & E & R & _);
        [unfold Slice.size in *; lia|]. by exists l1, p1.
    - exists l, buf. split; [done|by apply runs_refl]. }
  rewrite E1. unfold mbind, res_bind. pose proof R1 as (q1 & Eq1 & _ & Hl1 & Hp1).
  assert (length p1 <= length buf)%nat by (rewrite Eq1, length_app; lia).
  destruct (loop16_ok (S (length buf)) l1 p1 Hl1 Hp1 ltac:(lia)) as (l2 & p2 & E2 & R2).
  rewrite E2. pose proof R2 as (q2 & Eq2 & _ & Hl2 & Hp2).
  assert (length p2 <= length p1)%nat by (rewrite Eq2, length_app; lia).
  destruct (loop4_ok (S (length buf)) l2 p2 Hl2 Hp2 ltac:(lia)) as (l3 & p3 & E3 & R3).
  rewrite E3. pose proof R3 as (_ & _ & _ & Hl3 & Hp3).
  destruct (steps1_ok (length p3) l3 p3 Hl3 Hp3 ltac:(lia)) as (l4 & p4 & E4 & R4 & L4).
  rewrite E4. destruct p4; [|cbn in L4; lia].
  destruct (runs_trans _ _ _ _ _ _ R1 (runs_trans _ _ _ _ _ _ R2 (runs_trans _ _ _ _ _ _ R3 R4)))
    as (q & Eq & El & _). rewrite app_nil_r in Eq. subst q. unfold crc32c. fold l. by rewrite El.
Qed.

(** * Concatenation, and strings that differ *)

Lemma crc32c_app crc a b : crc32c (crc32c crc a) b = crc32c crc (a ++ b).
Proof.
  unfold crc32c. rewrite fold_left_app. do 2 f_equal.
  by rewrite Z.lxor_assoc, Z.lxor_nilpotent, Z.lxor_0_r.
Qed.

Lemma crc32c_range crc p :
  0 <= crc < 2 ^ 32 → Forall is_byte p → 0 <= crc32c crc p < 2 ^ 32.
Proof.
  intros. apply lxor_bound; [lia| |lia]. apply crc_fold_range; [apply lxor_bound; lia|done].
Qed.

Lemma crc_bit_zero z : 0 <= z < 2 ^ 32 → crc_bit z = 0 → z = 0.
Proof.
  intros Hz E. unfold crc_bit in E. apply Z.lxor_eq in E.
  rewrite Z.shiftr_div_pow2 in E by lia. change (2 ^ 1) with 2 in E.
  pose proof (Zodd_mod z). pose proof (Zmod_even z). rewrite <- Z.negb_odd in *.
  destruct (Z.odd z); [|Z.div_mod_to_equations; cbn in *; lia].
  unfold poly in E. Z.div_mod_to_equations. lia.
Qed.

Lemma lxor_inj l x y : Z.lxor l x = Z.lxor l y → x = y.
Proof.
  intros E. apply (f_equal (Z.lxor l)) in E.
  by rewrite <- !Z.lxor_assoc, Z.lxor_nilpotent, !Z.lxor_0_l in E.
Qed.

Lemma crc_bit_inj x y : 0 <= x < 2 ^ 32 → 0 <= y < 2 ^ 32 → crc_bit x = crc_bit y → x = y.
Proof.
  intros Hx Hy E. apply Z.lxor_eq, crc_bit_zero; [apply lxor_bound; lia|].
  by rewrite crc_bit_lxor, E, Z.lxor_nilpotent.
Qed.

#[local] Transparent crc_bits.
Lemma crc_bits_inj n x y :
  0 <= x < 2 ^ 32 → 0 <= y < 2 ^ 32 → crc_bits n x = crc_bits n y → x = y.
Proof.
  revert x y. induction n as [|n IH]; intros x y Hx Hy E; [done|].
  apply crc_bit_inj; [done..|]. apply IH; [by apply crc_bit_range..|exact E].
Qed.
#[local] Opaque crc_bits.

Lemma crc_fold_inj q x y :
  Forall is_byte q → 0 <= x < 2 ^ 32 → 0 <= y < 2 ^ 32 →
  fold_left crc_byte q x = fold_left crc_byte q y → x = y.
Proof.
  intros Hq. revert x y. induction Hq as [|b q Hb Hq IH]; intros x y Hx Hy E; [done|].
  rewrite !crc_fold_cons in E. apply IH in E; [|by apply crc_byte_range..].
  rewrite !crc_byte_unfold in E. unfold is_byte in Hb.
  apply crc_bits_inj in E; [|apply lxor_bound; lia..].
  rewrite !(Z.lxor_comm _ b) in E. by apply lxor_inj in E.
Qed.

(** A change within four consecutive bytes always shows. *)
Lemma crc_burst crc p a b q :
  0 <= crc < 2 ^ 32 → Forall is_byte (p ++ a ++ q) → Forall is_byte b →
  length a = length b → (length a <= 4)%nat → a ≠ b →
  crc32c crc (p ++ a ++ q) ≠ crc32c crc (p ++ b ++ q).
Proof.
  intros Hc Hpaq Hb Hl H4 Hne E. apply Hne.
  apply List.Forall_app in Hpaq as [Hp Haq]. apply List.Forall_app in Haq as [Ha Hq].
  unfold crc32c in E. rewrite !fold_left_app in E.
  assert (0 <= Z.lxor crc 4294967295 < 2 ^ 32) as H0 by (apply lxor_bound; lia).
  rewrite !(Z.lxor_comm _ 4294967295) in E. apply lxor_inj in E. rewrite Z.lxor_comm in E.
  set (l := fold_left crc_byte p (Z.lxor crc 4294967295)) in *.
  assert (0 <= l < 2 ^ 32) as Hlr by by apply crc_fold_range.
  apply crc_fold_inj in E; [|done|by apply crc_fold_range..].
  rewrite !crc_fold_word in E by done. rewrite <- Hl in E.
  assert (∀ w, Forall is_byte w → length w = length a → 0 <= le_of_bytes w < 2 ^ 32) as Hw.
  { intros w Hwb Ew. pose proof (le_of_bytes_bound w Hwb) as B. rewrite Ew in B.
    assert (2 ^ (8 * Z.of_nat (length a)) <= 2 ^ 32) by (apply Z.pow_le_mono_r; lia). lia. }
  apply crc_bits_inj in E; [|apply lxor_bound; [lia|done|by apply Hw]..].
  apply lxor_inj in E. rewrite <- (le_bytes_le_of_bytes a), <- (le_bytes_le_of_bytes b) by done.
  by rewrite E, Hl.
Qed.

(** * Masking *)

Lemma rotate r k :
  0 <= r < 2 ^ 32 → 0 < k < 32 →
  Z.lor (Z.shiftr r k) (u32 (Z.shiftl r (32 - k))) = r / 2 ^ k + (r mod 2 ^ k) * 2 ^ (32 - k).
Proof.
  intros Hr Hk. rewrite Z.shiftr_div_pow2 by lia. unfold u32. rewrite Z.shiftl_mul_pow2 by lia.
  assert (2 ^ 32 = 2 ^ k * 2 ^ (32 - k)) as E by (rewrite <- Z.pow_add_r by lia; f_equal; lia).
  rewrite E at 1. rewrite Z.mul_mod_distr_r by (apply Z.pow_nonzero; lia).
  rewrite <- (Z.shiftl_mul_pow2 (r mod 2 ^ k)) by lia. rewrite lor_disjoint_add; [by rewrite Z.shiftl_mul_pow2 by lia|lia| |].
  - split; [apply Z.div_pos; lia|]. apply Z.div_lt_upper_bound; lia.
  - apply Z.mod_pos_bound. lia.
Qed.

Lemma Unmask_Mask crc : 0 <= crc < 2 ^ 32 → Unmask (Mask crc) = crc ∧ 0 <= Mask crc < 2 ^ 32.
Proof.
  intros Hc. split; [|apply u32_range]. unfold Mask, Unmask.
  pose proof (rotate crc 15 Hc ltac:(lia)) as R1. change (32 - 15) with 17 in R1. rewrite R1.
  change (2 ^ 15) with 32768. change (2 ^ 17) with 131072.
  set (r := crc / 32768 + crc mod 32768 * 131072).
  assert (0 <= r < 2 ^ 32) as Hr by (unfold r; Z.div_mod_to_equations; lia).
  assert (u32 (u32 (r + kMaskDelta) - kMaskDelta) = r) as ->.
  { unfold u32. rewrite Zminus_mod_idemp_l. replace (r + kMaskDelta - kMaskDelta) with r by lia.
    by apply Z.mod_small. }
  pose proof (rotate r 17 Hr ltac:(lia)) as R2. change (32 - 17) with 15 in R2. rewrite R2.
  change (2 ^ 17) with 131072. change (2 ^ 15) with 32768.
  assert (r / 131072 = crc mod 32768) as ->.
  { unfold r. rewrite Z.div_add by lia. rewrite Z.div_small; [lia|]. Z.div_mod_to_equations. lia. }
  assert (r mod 131072 = crc / 32768) as ->.
  { unfold r. rewrite Z.mod_add by lia. apply Z.mod_small. Z.div_mod_to_equations. lia. }
  Z.div_mod_to_equations. lia.
Qed.

Lemma Mask_Unmask m : 0 <= m < 2 ^ 32 → Mask (Unmask m) = m ∧ 0 <= Unmask m < 2 ^ 32.
Proof.
  intros Hm. unfold Mask, Unmask. pose proof (u32_range (m - kMaskDelta)) as Hr.
  set (r := u32 (m - kMaskDelta)) in *.
  pose proof (rotate r 17 Hr ltac:(lia)) as R2. change (32 - 17) with 15 in R2. rewrite R2.
  change (2 ^ 17) with 131072. change (2 ^ 15) with 32768.
  set (c := r / 131072 + r mod 131072 * 32768).
  assert (0 <= c < 2 ^ 32) as Hc by (unfold c; Z.div_mod_to_equations; lia).
  split; [|done]. pose proof (rotate c 15 Hc ltac:(lia)) as R1. change (32 - 15) with 17 in R1.
  rewrite R1. change (2 ^ 17) with 131072. change (2 ^ 15) with 32768.
  assert (c / 32768 = r mod 131072) as ->.
  { unfold c. rewrite Z.div_add by lia. rewrite Z.div_small; [lia|]. Z.div_mod_to_equations. lia. }
  assert (c mod 32768 = r / 131072) as ->.
  { unfold c. rewrite Z.mod_add by lia. apply Z.mod_small. Z.div_mod_to_equations. lia. }
  replace (r mod 131072 + r / 131072 * 131072) with r by (Z.div_mod_to_equations; lia).
  unfold r, u32. rewrite Zplus_mod_idemp_l. replace (m - kMaskDelta + kMaskDelta) with m by lia.
  by apply Z.mod_small.
Qed.

(** * Properties *)

(** C18: the routine of the code, sixteen or four bytes at a time with four tables,
    returns the CRC-32C of the bytes computed bit by bit, for every length and every
    alignment, and reads nothing outside of them; extending the checksum of a string
    by another gives that of their concatenation; [Unmask] undoes [Mask]. *)
Theorem crc_exact pval crc a b :
  0 <= pval → 0 <= crc < 2 ^ 32 → Forall is_byte a → Forall is_byte b →
  Extend pval crc a = Ok (crc32c crc a) ∧
  (c ← Value pval a; Extend (pval + Slice.size a) c b) = Value pval (a ++ b) ∧
  Unmask (Mask crc) = crc.
Proof.
  intros Hpv Hc Ha Hb.
  assert (Value pval a = Ok (crc32c 0 a)) as Ev by by apply Extend_ok.
  assert (Value pval (a ++ b) = Ok (crc32c 0 (a ++ b))) as Eab
    by (apply Extend_ok; [done|by apply List.Forall_app|done]).
  split_and!; [by apply Extend_ok| |by apply Unmask_Mask].
  rewrite Ev, Eab. unfold mbind, res_bind. unfold Slice.size.
  rewrite Extend_ok; [by rewrite crc32c_app|by apply crc32c_range|done|lia].
Qed.

(** The check value of the standard. *)
Lemma crc_exact_witness :
  Extend 3 0 [49; 50; 51; 52; 53; 54; 55; 56; 57] = Ok 0xE3069283.
Proof.
  change 0xE3069283 with (crc32c 0 [49; 50; 51; 52; 53; 54; 55; 56; 57]).
  apply (crc_exact 3 0 [49; 50; 51; 52; 53; 54; 55; 56; 57] []); [done|done| |done]. forall_list.
Defined.

(** Two strings that differ only within four consecutive bytes have different
    checksums. *)
Theorem crc_detects_bursts pval p a b q :
  0 <= pval → Forall is_byte (p ++ a ++ q) → Forall is_byte (p ++ b ++ q) →
  length a = length b → (length a <= 4)%nat → a ≠ b →
  Value pval (p ++ a ++ q) ≠ Value pval (p ++ b ++ q).
Proof.
  intros Hpv Ha Hb Hl H4 Hne. unfold Value. rewrite !Extend_ok by done. intros E.
  injection E as E. revert E.
  apply List.Forall_app in Hb as [_ Hb]. apply List.Forall_app in Hb as [Hb _].
  by apply crc_burst.
Qed.

Lemma crc_detects_bursts_witness : Value 0 ([7] ++ [1; 2] ++ [9]) ≠ Value 0 ([7] ++ [3; 2] ++ [9]).
Proof. apply crc_detects_bursts; [done|forall_list|forall_list|done|cbn; lia|done]. Defined.
