(* ===== verification/LdbLog.v ===== *)
(** LevelDB's log files ([db/log_format.h], [db/log_writer.h], [db/log_writer.cc],
    [db/log_reader.h], [db/log_reader.cc]): records of any length, in fragments that
    do not cross the blocks of the file, each with a checksum.

    The files are virtual classes ([include/leveldb/env.h]): type classes here. *)
From stdpp Require Import pretty.
From S2P Require Import Prelude LdbSkip LdbFormat LdbCrc.
Import Status.

Class WritableFile (F : Type) := {
  Append : bytes → F → Status * F;
  Flush : F → Status * F
}.

(** [Read] returns the data it read, no more than asked for. *)
Class SequentialFile (F : Type) := {
  Read : Z → F → Status * bytes * F;
  Skip : Z → F → Status * F
}.

Module Log.

(** [RecordType]; the reader treats the types as numbers. *)
Definition kZeroType : Z := 0.
Definition kFullType : Z := 1.
Definition kFirstType : Z := 2.
Definition kMiddleType : Z := 3.
Definition kLastType : Z := 4.
Definition kMaxRecordType : Z := kLastType.

Definition kBlockSize : Z := 32768.
Definition kHeaderSize : Z := 4 + 2 + 1.

Section log.
(** Where the bytes of a slice are: the checksum looks at the alignment. *)
Context (address : bytes → Z).

(** * Writing *)
Section writer.
Context {F : Type} `{WritableFile F}.

Record Writer := mkWriter { block_offset_ : Z; type_crc_ : list Z }.

Fixpoint init_type_crc (n : nat) (i : Z) : res (list Z) :=
  match n with
  | O => Ok []
  | S n' =>
      c ← Crc32c.Value (address [u8 i]) [u8 i];
      rest ← init_type_crc n' (i + 1);
      Ok (c :: rest)
  end.
Definition InitTypeCrc : res (list Z) := init_type_crc (Z.to_nat (kMaxRecordType + 1)) 0.

(** The constructors: of an empty file, or of one of the given length. *)
Definition Writer_new (dest_length : Z) : res Writer :=
  c ← InitTypeCrc;
  Ok (mkWriter (dest_length mod kBlockSize) c).

Definition EmitPhysicalRecord (w : Writer) (dest : F) (t : Z) (ptr : bytes)
    : res (Status * Writer * F) :=
  let n := Slice.size ptr in
  SkipList.assert_ (n <=? 0xffff);;
  SkipList.assert_ (block_offset_ w + kHeaderSize + n <=? kBlockSize);;
  c ← of_option (type_crc_ w !! Z.to_nat t);
  crc ← Crc32c.Extend (address ptr) c ptr;
  let crc := Crc32c.Mask crc in
  let buf := Coding.EncodeFixed32 crc ++ [u8 (Z.land n 0xff); u8 (Z.shiftr n 8); u8 t] in
  let '(s, dest) := Append buf dest in
  let '(s, dest) :=
    (if ok s then
       let '(s, dest) := Append ptr dest in
       if ok s then Flush dest else (s, dest)
     else (s, dest)) in
  Ok (s, mkWriter (block_offset_ w + kHeaderSize + n) (type_crc_ w), dest).

(** [data] is what is left of the record. *)
Fixpoint add_record_loop (fuel : nat) (w : Writer) (dest : F) (begin : bool) (data : bytes)
    : res (Status * Writer * F) :=
  match fuel with
  | O => NoFuel
  | S fuel' =>
      let leftover := kBlockSize - block_offset_ w in
      SkipList.assert_ (0 <=? leftover);;
      let '(w, dest) :=
        (if leftover <? kHeaderSize then
           let dest :=
             (if 0 <? leftover then snd (Append (replicate (Z.to_nat leftover) 0) dest) else dest) in
           (mkWriter 0 (type_crc_ w), dest)
         else (w, dest)) in
      SkipList.assert_ (0 <=? kBlockSize - block_offset_ w - kHeaderSize);;
      let left := Slice.size data in
      let avail := kBlockSize - block_offset_ w - kHeaderSize in
      let fragment_length := if left <? avail then left else avail in
      let end_ := left =? fragment_length in
      let type :=
        (if begin && end_ then kFullType
         else if begin then kFirstType
         else if end_ then kLastType
         else kMiddleType) in
      '(s, w, dest) ← EmitPhysicalRecord w dest type (take (Z.to_nat fragment_length) data);
      let data := drop (Z.to_nat fragment_length) data in
      if ok s && (0 <? Slice.size data) then add_record_loop fuel' w dest false data
      else Ok (s, w, dest)
  end.

(** A turn that takes nothing of the data is followed by one that does. *)
Definition AddRecord (w : Writer) (dest : F) (slice : bytes) : res (Status * Writer * F) :=
  add_record_loop (2 * length slice + 2) w dest true slice.
End writer.

(** * Reading *)
Section reader.
Context {F : Type} `{SequentialFile F}.

(** [reporter_ != NULL], [checksum_] and [initial_offset_] do not change. *)
Context (reporter_ checksum_ : bool) (initial_offset_ : Z).

(** [reports] are the calls of the reporter, the last one first. *)
Record Reader := mkReader {
  file_ : F;
  buffer_ : bytes;
  eof_ : bool;
  last_record_offset_ : Z;
  end_of_buffer_offset_ : Z;
  resyncing_ : bool;
  reports : list (Z * Status)
}.

Definition Reader_new (file : F) : Reader :=
  mkReader file [] false 0 0 (0 <? initial_offset_) [].

Definition set_buffer (r : Reader) (b : bytes) : Reader :=
  mkReader (file_ r) b (eof_ r) (last_record_offset_ r) (end_of_buffer_offset_ r) (resyncing_ r)
    (reports r).
Definition set_eof (r : Reader) : Reader :=
  mkReader (file_ r) (buffer_ r) true (last_record_offset_ r) (end_of_buffer_offset_ r)
    (resyncing_ r) (reports r).
Definition set_end (r : Reader) (o : Z) : Reader :=
  mkReader (file_ r) (buffer_ r) (eof_ r) (last_record_offset_ r) o (resyncing_ r) (reports r).
Definition set_file (r : Reader) (f : F) : Reader :=
  mkReader f (buffer_ r) (eof_ r) (last_record_offset_ r) (end_of_buffer_offset_ r) (resyncing_ r)
    (reports r).
Definition set_resyncing (r : Reader) (b : bool) : Reader :=
  mkReader (file_ r) (buffer_ r) (eof_ r) (last_record_offset_ r) (end_of_buffer_offset_ r) b
    (reports r).
Definition set_last (r : Reader) (o : Z) : Reader :=
  mkReader (file_ r) (buffer_ r) (eof_ r) o (end_of_buffer_offset_ r) (resyncing_ r) (reports r).
Definition add_report (r : Reader) (n : Z) (s : Status) : Reader :=
  mkReader (file_ r) (buffer_ r) (eof_ r) (last_record_offset_ r) (end_of_buffer_offset_ r)
    (resyncing_ r) ((n, s) :: reports r).

Definition kEof : Z := kMaxRecordType + 1.
Definition kBadRecord : Z := kMaxRecordType + 2.

Definition ReportDrop (r : Reader) (n : Z) (reason : Status) : Reader :=
  if reporter_ && (initial_offset_ <=? u64 (end_of_buffer_offset_ r - Slice.size (buffer_ r) - n))
  then add_report r n reason else r.

Definition ReportCorruption (r : Reader) (n : Z) (reason : string) : Reader :=
  ReportDrop r n (Corruption reason).

Definition SkipToInitialBlock (r : Reader) : bool * Reader :=
  let offset_in_block := initial_offset_ mod kBlockSize in
  let block_start_location := u64 (initial_offset_ - offset_in_block) in
  let block_start_location :=
    if kBlockSize - 6 <? offset_in_block then u64 (block_start_location + kBlockSize)
    else block_start_location in
  let r := set_end r block_start_location in
  if 0 <? block_start_location then
    let '(s, f) := Skip block_start_location (file_ r) in
    let r := set_file r f in
    if ok s then (true, r) else (false, ReportDrop r block_start_location s)
  else (true, r).

(** The next block of the file, when the buffer has no room for a header. *)
Definition read_block (r : Reader) : bool * Reader :=
  let '(s, b, f) := Read kBlockSize (file_ r) in
  let r := set_file (set_buffer r b) f in
  let r := set_end r (u64 (end_of_buffer_offset_ r + Slice.size b)) in
  if negb (ok s) then (false, set_eof (ReportDrop (set_buffer r []) kBlockSize s))
  else (true, if Slice.size b <? kBlockSize then set_eof r else r).

(** The type or one of the special values, and [*result], which keeps its value
    when nothing is stored to it. The buffer is filled once at most. *)
Fixpoint read_physical_loop (fuel : nat) (r : Reader) (result : bytes) : res (Z * bytes * Reader) :=
  match fuel with
  | O => NoFuel
  | S fuel' =>
      if Slice.size (buffer_ r) <? kHeaderSize then
        if negb (eof_ r) then
          let '(good, r) := read_block (set_buffer r []) in
          if good then read_physical_loop fuel' r result else Ok (kEof, result, r)
        else Ok (kEof, result, set_buffer r [])
      else
        let header := buffer_ r in
        a ← of_option (header !! 4%nat);
        b ← of_option (header !! 5%nat);
        c ← of_option (header !! 6%nat);
        let a := Z.land (u32 (s8 a)) 0xff in
        let b := Z.land (u32 (s8 b)) 0xff in
        let type := u32 (s8 c) in
        let length := Z.lor a (Z.shiftl b 8) in
        if Slice.size (buffer_ r) <? kHeaderSize + length then
          let drop_size := Slice.size (buffer_ r) in
          let r := set_buffer r [] in
          if negb (eof_ r)
          then Ok (kBadRecord, result, ReportCorruption r drop_size "bad record length")
          else Ok (kEof, result, r)
        else if (type =? kZeroType) && (length =? 0)
        then Ok (kBadRecord, result, set_buffer r [])
        else
          good ← (if checksum_ then
                    masked ← Coding.DecodeFixed32 header;
                    let payload := take (Z.to_nat (1 + length)) (drop 6 header) in
                    actual_crc ← Crc32c.Value (address payload) payload;
                    Ok (actual_crc =? Crc32c.Unmask masked)
                  else Ok true);
          if negb good then
            let drop_size := Slice.size (buffer_ r) in
            Ok (kBadRecord, result,
                ReportCorruption (set_buffer r []) drop_size "checksum mismatch")
          else
            rest ← Slice.remove_prefix (buffer_ r) (kHeaderSize + length);
            let r := set_buffer r rest in
            if u64 (end_of_buffer_offset_ r - Slice.size (buffer_ r) - kHeaderSize - length)
                 <? initial_offset_
            then Ok (kBadRecord, [], r)
            else Ok (type, take (Z.to_nat length) (drop (Z.to_nat kHeaderSize) header), r)
  end.
Definition ReadPhysicalRecord (r : Reader) (result : bytes) : res (Z * bytes * Reader) :=
  read_physical_loop 3 r result.

(** The loop of [ReadRecord]: [Some record] when it returns true. *)
Fixpoint read_record_loop (fuel : nat) (r : Reader) (fragment scratch : bytes)
    (in_fragmented_record : bool) (prospective_record_offset : Z) : res (option bytes * Reader) :=
  match fuel with
  | O => NoFuel
  | S fuel' =>
      '(record_type, fragment, r) ← ReadPhysicalRecord r fragment;
      let physical_record_offset :=
        u64 (end_of_buffer_offset_ r - Slice.size (buffer_ r) - kHeaderSize - Slice.size fragment) in
      if resyncing_ r && (record_type =? kMiddleType) then
        read_record_loop fuel' r fragment scratch in_fragmented_record prospective_record_offset
      else if resyncing_ r && (record_type =? kLastType) then
        read_record_loop fuel' (set_resyncing r false) fragment scratch in_fragmented_record
          prospective_record_offset
      else
        let r := set_resyncing r false in
        if record_type =? kFullType then
          let r :=
            if in_fragmented_record && negb (Slice.empty scratch)
            then ReportCorruption r (Slice.size scratch) "partial record without end(1)" else r in
          Ok (Some fragment, set_last r physical_record_offset)
        else if record_type =? kFirstType then
          let r :=
            if in_fragmented_record && negb (Slice.empty scratch)
            then ReportCorruption r (Slice.size scratch) "partial record without end(2)" else r in
          read_record_loop fuel' r fragment fragment true physical_record_offset
        else if record_type =? kMiddleType then
          if negb in_fragmented_record then
            read_record_loop fuel'
              (ReportCorruption r (Slice.size fragment) "missing start of fragmented record(1)")
              fragment scratch in_fragmented_record prospective_record_offset
          else
            read_record_loop fuel' r fragment (scratch ++ fragment) in_fragmented_record
              prospective_record_offset
        else if record_type =? kLastType then
          if negb in_fragmented_record then
            read_record_loop fuel'
              (ReportCorruption r (Slice.size fragment) "missing start of fragmented record(2)")
              fragment scratch in_fragmented_record prospective_record_offset
          else Ok (Some (scratch ++ fragment), set_last r prospective_record_offset)
        else if record_type =? kEof then Ok (None, r)
        else if record_type =? kBadRecord then
          if in_fragmented_record then
            read_record_loop fuel'
              (ReportCorruption r (Slice.size scratch) "error in middle of record")
              fragment [] false prospective_record_offset
          else
            read_record_loop fuel' r fragment scratch in_fragmented_record prospective_record_offset
        else
          read_record_loop fuel'
            (ReportCorruption r
               (Slice.size fragment + (if in_fragmented_record then Slice.size scratch else 0))
               ("unknown record type " +:+ pretty record_type))
            fragment [] false prospective_record_offset
  end.

(** Every turn takes bytes of the buffer or of the file. *)
Definition ReadRecord (fuel : nat) (r : Reader) : res (option bytes * Reader) :=
  let '(go, r) :=
    (if last_record_offset_ r <? initial_offset_ then SkipToInitialBlock r else (true, r)) in
  if go then read_record_loop fuel r [] [] false 0 else Ok (None, r).

Definition LastRecordOffset (r : Reader) : Z := last_record_offset_ r.
End reader.
End log.
End Log.
