(* ===== verification/LdbLogProps.v ===== *)
(** Correctness of log files: what was written is read back, a file that ends
    anywhere is read up to its last complete record, and reading is safe on files
    with any contents. *)
From S2P Require Import Prelude LdbSkip LdbFormat LdbCodingProps LdbCrc LdbCrcProps LdbLog.
Import Log.

(** * Files in memory: the contents, or what is left of them *)

#[export] Instance mem_writable : WritableFile bytes := {|
  Append data f := (Status.OK, f ++ data);
  Flush f := (Status.OK, f)
|}.

#[export] Instance mem_sequential : SequentialFile bytes := {|
  Read n f := (Status.OK, take (Z.to_nat n) f, drop (Z.to_nat n) f);
  Skip n f := (Status.OK, drop (Z.to_nat n) f)
|}.

(** * The format *)

(** A physical record. *)
Definition phys (t : Z) (p : bytes) : bytes :=
  le_bytes 4 (Crc32c.Mask (crc32c 0 (t :: p))) ++
  [Z.land (Slice.size p) 0xff; Z.shiftr (Slice.size p) 8; t] ++ p.

Lemma length_phys t p : length (phys t p) = (7 + length p)%nat.
Proof. unfold phys. rewrite !length_app, length_le_bytes. done. Qed.

(** At offset [off] of a block: the bytes that fill it, and where the next record
    starts. *)
Definition pad (off : Z) : bytes :=
  if 32768 - off <? 7 then replicate (Z.to_nat (32768 - off)) 0 else [].
Definition base (off : Z) : Z := if 32768 - off <? 7 then 0 else off.

(** [frags off begin data out off']: the record's rest [data], written at [off], is
    [out], and ends at [off']. *)
Inductive frags : Z → bool → bytes → bytes → Z → Prop :=
  | frag_end off begin data :
      7 + Slice.size data <= 32768 - base off →
      frags off begin data (pad off ++ phys (if begin then 1 else 4) data)
        (base off + 7 + Slice.size data)
  | frag_more off begin data n out off' :
      Z.of_nat n = 32768 - base off - 7 → Z.of_nat n < Slice.size data →
      frags 32768 false (drop n data) out off' →
      frags off begin data (pad off ++ phys (if begin then 2 else 3) (take n data) ++ out) off'.

(** A sequence of records. *)
Inductive log_of : Z → list bytes → bytes → Z → Prop :=
  | log_nil off : log_of off [] [] off
  | log_cons off data rs out out' off' off'' :
      frags off true data out off' → log_of off' rs out' off'' →
      log_of off (data :: rs) (out ++ out') off''.

Lemma base_range off : 0 <= off <= 32768 → 0 <= base off <= 32761.
Proof. unfold base. destruct (Z.ltb_spec (32768 - off) 7); lia. Qed.

Lemma frags_det off begin data out off' out2 off2 :
  frags off begin data out off' → frags off begin data out2 off2 → out2 = out ∧ off2 = off'.
Proof.
  intros H. revert out2 off2.
  induction H as [off begin data Hs|off begin data n out off' Hn Hs H IH]; intros out2 off2 H2;
    inversion H2; subst; try lia; [done|].
  assert (n0 = n) as -> by lia.
  match goal with H5 : frags 32768 false _ _ _ |- _ => by destruct (IH _ _ H5) as [-> ->] end.
Qed.

Lemma frags_off off begin data out off' : 0 <= off <= 32768 → frags off begin data out off' → 0 <= off' <= 32768.
Proof.
  intros Ho H. induction H as [off begin data Hs|off begin data n out off' Hn Hs H IH].
  - pose proof (base_range off Ho). unfold Slice.size in *. lia.
  - apply IH. lia.
Qed.

(** * Writing *)

Section writing.
Context (address : bytes → Z) (Haddr : ∀ b, 0 <= address b).

Definition type_crcs : list Z := (λ t, crc32c 0 [t]) <$> [0; 1; 2; 3; 4].

Lemma InitTypeCrc_ok : InitTypeCrc address = Ok type_crcs.
Proof.
  unfold InitTypeCrc. change (Z.to_nat (kMaxRecordType + 1)) with 5%nat.
  assert (∀ i, 0 <= i < 256 → Crc32c.Value (address [u8 i]) [u8 i] = Ok (crc32c 0 [u8 i])) as E.
  { intros i Hi. apply Extend_ok; [lia| |apply Haddr]. constructor; [apply u8_range|done]. }
  cbn [init_type_crc]. unfold mbind, res_bind. rewrite !E by lia. done.
Qed.

Lemma EmitPhysicalRecord_ok off dest t p :
  1 <= t <= 4 → 0 <= off → off + 7 + Slice.size p <= 32768 → Forall is_byte p →
  EmitPhysicalRecord address (mkWriter off type_crcs) dest t p =
  Ok (Status.OK, mkWriter (off + 7 + Slice.size p) type_crcs, dest ++ phys t p).
Proof.
  intros Ht Ho Hs Hp. unfold EmitPhysicalRecord. cbn [block_offset_ type_crc_].
  assert (0 <= Slice.size p) by (unfold Slice.size; lia).
  change kHeaderSize with 7. change kBlockSize with 32768.
  rewrite (proj2 (Z.leb_le (Slice.size p) _)) by lia.
  rewrite (proj2 (Z.leb_le (off + 7 + Slice.size p) _)) by lia. cbn [SkipList.assert_].
  assert (type_crcs !! Z.to_nat t = Some (crc32c 0 [t])) as ->.
  { assert (t = 1 ∨ t = 2 ∨ t = 3 ∨ t = 4) as [-> | [-> | [-> | ->]]] by lia; done. }
  assert (Forall is_byte [t]) as Hb by (constructor; [unfold is_byte; lia|done]).
  unfold mbind, res_bind. cbn [of_option].
  rewrite Extend_ok by (done || by apply crc32c_range). rewrite crc32c_app. cbn [app].
  cbn [Append mem_writable Status.ok Status.OK Flush]. unfold phys, Coding.EncodeFixed32.
  rewrite !u8_small; [|lia| |].
  - by rewrite <- !app_assoc.
  - rewrite Z.shiftr_div_pow2 by lia. change (2 ^ 8) with 256. Z.div_mod_to_equations. lia.
  - rewrite land_255. apply Z.mod_pos_bound. lia.
Qed.

Lemma add_record_loop_ok fuel : ∀ off dest begin data,
  0 <= off <= 32768 → Forall is_byte data →
  (2 * length data + (if decide (base off = 32761)%Z then 2 else 1) <= fuel)%nat →
  ∃ out off', frags off begin data out off' ∧
    add_record_loop address fuel (mkWriter off type_crcs) dest begin data =
    Ok (Status.OK, mkWriter off' type_crcs, dest ++ out).
Proof.
  induction fuel as [|fuel IH]; intros off dest begin data Ho Hd Hf; [case_decide; lia|].
  pose proof (base_range off Ho) as Hb. assert (0 <= Slice.size data) by (unfold Slice.size; lia).
  cbn [add_record_loop]. cbn [block_offset_ type_crc_].
  change kHeaderSize with 7. change kBlockSize with 32768.
  rewrite (proj2 (Z.leb_le 0 (32768 - off))) by lia. cbn [SkipList.assert_].
  unfold mbind at 1, res_bind at 1.
  assert ((if 32768 - off <? 7
    then (mkWriter 0 type_crcs,
      if 0 <? 32768 - off then snd (Append (replicate (Z.to_nat (32768 - off)) 0) dest) else dest)
    else (mkWriter off type_crcs, dest)) = (mkWriter (base off) type_crcs, dest ++ pad off)) as ->.
  { unfold base, pad. destruct (Z.ltb_spec (32768 - off) 7); [|by rewrite app_nil_r].
    destruct (Z.ltb_spec 0 (32768 - off)); [done|]. replace (32768 - off) with 0 by lia.
    cbn. by rewrite app_nil_r. }
  cbn [block_offset_]. rewrite (proj2 (Z.leb_le 0 (32768 - base off - 7))) by lia.
  cbn [SkipList.assert_]. unfold mbind at 1, res_bind at 1. set (avail := 32768 - base off - 7).
  destruct (Z.ltb_spec (Slice.size data) avail) as [L|L].
  - (* the end, with room left *)
    rewrite Z.eqb_refl, !andb_true_r.
    assert (take (Z.to_nat (Slice.size data)) data = data) as ->
      by (apply firstn_all2; unfold Slice.size; lia).
    rewrite EmitPhysicalRecord_ok; [|by destruct begin|lia|lia|done].
    unfold mbind, res_bind. cbn [Status.ok Status.OK andb].
    assert (drop (Z.to_nat (Slice.size data)) data = []) as ->
      by (apply skipn_all2; unfold Slice.size; lia).
    eexists _, _. split; [apply frag_end; lia|]. cbn. rewrite <- app_assoc. by destruct begin.
  - assert (0 <= avail) by lia. set (n := Z.to_nat avail).
    assert (Slice.size (take n data) = avail) as Et
      by (unfold Slice.size in *; rewrite length_take; lia).
    assert (1 <= (if begin && (Slice.size data =? avail) then kFullType else if begin then kFirstType
      else if Slice.size data =? avail then kLastType else kMiddleType) <= 4) as Ht
      by by destruct begin, (Slice.size data =? avail).
    rewrite EmitPhysicalRecord_ok; [|exact Ht|lia|lia|by apply Forall_take].
    rewrite Et. replace (base off + 7 + avail) with 32768 by lia.
    unfold mbind, res_bind. cbn [Status.ok Status.OK andb].
    destruct (Z.eqb_spec (Slice.size data) avail) as [E|E].
    + assert (drop n data = []) as -> by (apply skipn_all2; unfold Slice.size in E; lia).
      assert (take n data = data) as -> by (apply firstn_all2; unfold Slice.size in E; lia).
      cbn [Slice.size length Z.of_nat Z.ltb]. eexists _, _. split; [apply frag_end; lia|].
      cbn. rewrite <- app_assoc. rewrite E. replace (base off + 7 + avail) with 32768 by lia.
      by destruct begin.
    + assert (Slice.size (drop n data) = Slice.size data - avail) as Ed
        by (unfold Slice.size in *; rewrite length_drop; lia).
      rewrite (proj2 (Z.ltb_lt 0 _)) by lia. cbn [andb].
      destruct (IH 32768 ((dest ++ pad off) ++ phys (if begin then 2 else 3) (take n data)) false
        (drop n data)) as (out & off' & H' & E'); [lia|by apply Forall_drop| |].
      { rewrite length_drop. unfold Slice.size in *. rewrite decide_False by done.
        revert Hf. case_decide; lia. }
      eexists _, off'. split; [apply (frag_more off begin data n out off'); [lia|lia|exact H']|].
      rewrite andb_false_r. rewrite !app_assoc. by destruct begin.
Qed.

(** A sequence of records, one after the other. *)
Fixpoint write_loop (w : Writer) (dest : bytes) (rs : list bytes) : res bytes :=
  match rs with
  | [] => Ok dest
  | r :: rs => '(_, w, dest) ← AddRecord address w dest r; write_loop w dest rs
  end.
Definition write_all (rs : list bytes) : res bytes :=
  w ← Writer_new address 0; write_loop w [] rs.

Lemma write_loop_ok rs : ∀ off dest,
  0 <= off <= 32768 → Forall (Forall is_byte) rs →
  ∃ out off', log_of off rs out off' ∧ write_loop (mkWriter off type_crcs) dest rs = Ok (dest ++ out).
Proof.
  induction rs as [|r rs IH]; intros off dest Ho Hf.
  { exists [], off. split; [constructor|]. by rewrite app_nil_r. }
  apply list.Forall_cons in Hf as [Hr Hf].
  destruct (add_record_loop_ok (2 * length r + 2) off dest true r Ho Hr) as (out & off' & H & E);
    [case_decide; lia|].
  destruct (IH off' (dest ++ out) (frags_off _ _ _ _ _ Ho H) Hf) as (out' & off2 & H' & E').
  exists (out ++ out'), off2. split; [by eapply log_cons|].
  cbn [write_loop]. unfold AddRecord. rewrite E. unfold mbind, res_bind.
  by rewrite E', app_assoc.
Qed.

Lemma write_all_ok rs :
  Forall (Forall is_byte) rs → ∃ out off', log_of 0 rs out off' ∧ write_all rs = Ok out.
Proof.
  intros Hf. destruct (write_loop_ok rs 0 [] ltac:(lia) Hf) as (out & off' & H & E).
  exists out, off'. split; [done|]. unfold write_all, Writer_new. rewrite InitTypeCrc_ok.
  unfold mbind, res_bind. change (0 mod kBlockSize) with 0. by rewrite E.
Qed.
End writing.

Lemma log_of_det off rs out off' out2 off2 :
  log_of off rs out off' → log_of off rs out2 off2 → out2 = out ∧ off2 = off'.
Proof.
  intros H. revert out2 off2.
  induction H as [off|off data rs out out' o1 o2 Hf H IH]; intros out2 off2 H2; inversion H2; subst;
    [done|].
  match goal with H5 : frags off true data _ _ |- _ =>
    destruct (frags_det _ _ _ _ _ _ _ Hf H5) as [-> ->] end.
  match goal with H6 : log_of o1 rs _ _ |- _ => by destruct (IH _ _ H6) as [-> ->] end.
Qed.

(** * Reading *)

(** The header of a physical record. *)
Lemma phys_bytes t p :
  is_byte t → Slice.size p < 65536 → Forall is_byte p → Forall is_byte (phys t p).
Proof.
  intros Ht Hs Hp. assert (0 <= Slice.size p) by (unfold Slice.size; lia).
  unfold phys. apply List.Forall_app. split; [apply le_bytes_are_bytes|].
  constructor; [rewrite land_255; apply Z.mod_pos_bound; lia|].
  constructor; [|by constructor].
  rewrite Z.shiftr_div_pow2 by lia. change (2 ^ 8) with 256. unfold is_byte.
  Z.div_mod_to_equations. lia.
Qed.

(** Sign extension and the mask. *)
Lemma char_byte b : is_byte b → Z.land (u32 (s8 b)) 0xff = b.
Proof.
  unfold is_byte. intros Hb. rewrite land_255. unfold u32, s8.
  rewrite swrap_unsigned by lia. change (2 ^ (8 - 1)) with 128. change (2 ^ 8) with 256.
  destruct (Z.ltb_spec b 128).
  - rewrite (Z.mod_small b (2 ^ 32)) by lia. apply Z.mod_small. lia.
  - rewrite <- (Z.mod_add (b - 256) 1 (2 ^ 32)) by lia. rewrite (Z.mod_small _ (2 ^ 32)) by lia.
    replace (b - 256 + 1 * 2 ^ 32) with (b + 16777215 * 256) by lia.
    rewrite Z.mod_add by lia. apply Z.mod_small. lia.
Qed.

Lemma char_small b : 0 <= b < 128 → u32 (s8 b) = b.
Proof.
  intros Hb. unfold u32, s8. rewrite swrap_small by lia. apply Z.mod_small. lia.
Qed.

Lemma two_bytes n : 0 <= n < 65536 → Z.lor (Z.land n 0xff) (Z.shiftl (Z.shiftr n 8) 8) = n.
Proof.
  intros Hn. rewrite lor_disjoint_add; [|lia|rewrite land_255; apply Z.mod_pos_bound; lia|].
  - rewrite land_255, Z.shiftr_div_pow2 by lia. change (2 ^ 8) with 256.
    pose proof (Z.div_mod n 256). lia.
  - apply Z.shiftr_nonneg. lia.
Qed.

Lemma block_nat : Z.to_nat kBlockSize = Z.to_nat (32768 - 0).
Proof. by apply (f_equal Z.to_nat). Qed.

Lemma block_start : pad 32768 = pad 0 ∧ base 32768 = base 0.
Proof. done. Qed.

#[local] Opaque Z.to_nat.

(** Two ways to cut a list: the first part of one cut is in the first part of the
    other, or goes beyond it. *)
Lemma app_split {A} (a o y z : list A) :
  a ++ o = y ++ z → (∃ y1, y = a ++ y1 ∧ o = y1 ++ z) ∨ (∃ z1, z1 ≠ [] ∧ a = y ++ z1).
Proof.
  intros E. apply List.app_eq_app in E as (l & [[-> ->]|[-> ->]]).
  - destruct l as [|x l]; [left; exists []; by rewrite !app_nil_r|right; by exists (x :: l)].
  - left. by exists l.
Qed.

Section reading.
Context (address : bytes → Z) (Haddr : ∀ b, 0 <= address b).
Context (reporter checksum : bool).
Abbreviation R := (Reader (F := bytes)).
Implicit Types r : R.

(** The reader is at offset [off] of a block, and [rest] is what follows in the
    file; at 32768 the next block is not read yet. *)
Record at_off r (off : Z) (rest : bytes) : Prop := {
  at_range : 0 <= off <= 32768;
  at_buffer : buffer_ r = take (Z.to_nat (32768 - off)) rest;
  at_file : file_ r = drop (Z.to_nat (32768 - off)) rest;
  at_eof : eof_ r = bool_decide (Slice.size rest < 32768 - off);
  at_resync : resyncing_ r = false;
  at_last : 0 <= last_record_offset_ r
}.

(** After the end of the file. *)
Definition at_end r : Prop := buffer_ r = [] ∧ eof_ r = true ∧ resyncing_ r = false.

Lemma at_off_new file : at_off (Reader_new 0 file) 32768 file.
Proof. split; try done. by rewrite bool_decide_eq_false_2 by (unfold Slice.size; lia). Qed.

(** Every offset is at least the initial one. *)
Lemma u64_not_before z : (u64 z <? 0) = false.
Proof. apply Z.ltb_ge, u64_range. Qed.

Lemma read_physical_end n r res :
  at_end r → read_physical_loop address reporter checksum 0 (S n) r res = Ok (kEof, res, set_buffer r []).
Proof. intros (Hb & He & _). cbn [read_physical_loop]. by rewrite Hb, He. Qed.

(** The trailer of a block is skipped. *)
Lemma read_physical_trailer n r off rest res :
  at_off r off rest → 32768 - off < 7 → 32768 - off <= Slice.size rest →
  ∃ r', read_physical_loop address reporter checksum 0 (S n) r res =
    read_physical_loop address reporter checksum 0 n r' res ∧
    at_off r' 0 (drop (Z.to_nat (32768 - off)) rest) ∧ reports r' = reports r.
Proof.
  intros [Hr Hb Hf He Hy Hla] H7 Hs. cbn [read_physical_loop].
  assert (Slice.size (buffer_ r) = 32768 - off) as El
    by (rewrite Hb; unfold Slice.size in *; rewrite length_take; lia).
  rewrite El, (proj2 (Z.ltb_lt _ _)) by (unfold kHeaderSize; lia).
  rewrite He, bool_decide_eq_false_2 by lia. cbn [negb read_block Read mem_sequential].
  cbn [Status.ok Status.OK negb set_buffer file_].
  eexists. split; [done|]. rewrite Hf. set (x := drop _ rest).
  rewrite block_nat. split.
  - destruct (Z.ltb_spec (Slice.size (take (Z.to_nat (32768 - 0)) x)) kBlockSize) as [L|L];
      (split; cbn; [lia|done|done| |done|done]).
    + rewrite bool_decide_eq_true_2; [done|]. unfold Slice.size, kBlockSize in *.
      rewrite length_take in L. lia.
    + rewrite He. rewrite bool_decide_eq_false_2, bool_decide_eq_false_2; [done| |lia].
      unfold Slice.size, kBlockSize in *. rewrite length_take in L. lia.
  - by destruct (_ <? kBlockSize).
Qed.

(** The parsed fields of a physical record at the front of the buffer. *)
Lemma phys_fields t p x :
  1 <= t <= 4 → Slice.size p < 65536 →
  let buf := phys t p ++ x in
  buf !! 4%nat = Some (Z.land (Slice.size p) 0xff) ∧ buf !! 5%nat = Some (Z.shiftr (Slice.size p) 8) ∧
  buf !! 6%nat = Some t ∧ take 4 buf = le_bytes 4 (Crc32c.Mask (crc32c 0 (t :: p))) ∧
  drop 6 buf = (t :: p) ++ x ∧ drop 7 buf = p ++ x.
Proof. done. Qed.

Lemma phys_length_fields p :
  Slice.size p < 65536 →
  is_byte (Z.land (Slice.size p) 0xff) ∧ is_byte (Z.shiftr (Slice.size p) 8).
Proof.
  intros H. assert (0 <= Slice.size p) by (unfold Slice.size; lia). split.
  - rewrite land_255. apply Z.mod_pos_bound. lia.
  - rewrite Z.shiftr_div_pow2 by lia. change (2 ^ 8) with 256. unfold is_byte.
    Z.div_mod_to_equations. lia.
Qed.

(** A whole physical record is returned. *)
Lemma read_physical_whole n r off t p x res :
  at_off r off (phys t p ++ x) → 1 <= t <= 4 → off + 7 + Slice.size p <= 32768 → Forall is_byte p →
  ∃ r', read_physical_loop address reporter checksum 0 (S n) r res = Ok (t, p, r') ∧
    at_off r' (off + 7 + Slice.size p) x ∧ reports r' = reports r.
Proof.
  intros [Hr Hb Hf He Hy Hla] Ht Hs Hp. assert (0 <= Slice.size p) as H0 by (unfold Slice.size; lia).
  assert (buffer_ r = phys t p ++ take (Z.to_nat (32768 - (off + 7 + Slice.size p))) x) as Eb.
  { rewrite Hb, take_app, length_phys. unfold Slice.size in *.
    rewrite firstn_all2 by (rewrite length_phys; lia). do 2 f_equal. lia. }
  set (y := take _ x) in Eb.
  destruct (phys_fields t p y Ht ltac:(lia)) as (F4 & F5 & F6 & F03 & D6 & D7).
  destruct (phys_length_fields p ltac:(lia)) as [B4 B5].
  assert (Slice.size (phys t p ++ y) = 7 + Slice.size p + Slice.size y) as El
    by (unfold Slice.size; rewrite length_app, length_phys; lia).
  assert (0 <= Slice.size y) by (unfold Slice.size; lia).
  cbn [read_physical_loop]. rewrite Eb, El. change kHeaderSize with 7.
  rewrite (proj2 (Z.ltb_ge _ 7)) by lia. rewrite F4, F5, F6. unfold mbind, res_bind. cbn [of_option].
  rewrite !char_byte, two_bytes, char_small by (done || lia).
  rewrite (proj2 (Z.ltb_ge _ (7 + Slice.size p))) by lia.
  change kZeroType with 0. rewrite (proj2 (Z.eqb_neq t 0)) by lia. cbn [andb].
  assert ((if checksum
    then match Coding.DecodeFixed32 (phys t p ++ y) with
         | Ok a =>
             match Crc32c.Value (address (take (Z.to_nat (1 + Slice.size p)) (drop 6 (phys t p ++ y))))
                     (take (Z.to_nat (1 + Slice.size p)) (drop 6 (phys t p ++ y))) with
             | Ok a0 => Ok (a0 =? Crc32c.Unmask a) | UB => UB | NoFuel => NoFuel
             end
         | UB => UB | NoFuel => NoFuel
         end
    else Ok true) = Ok true) as ->.
  { destruct checksum; [|done]. unfold Coding.DecodeFixed32.
    rewrite (proj2 (Nat.leb_le _ _)) by (rewrite length_app, length_phys; lia).
    rewrite F03, le_of_bytes_le_bytes, D6.
    assert (take (Z.to_nat (1 + Slice.size p)) ((t :: p) ++ y) = t :: p) as ->
      by (apply take_app_length'; cbn; unfold Slice.size; lia).
    assert (Forall is_byte (t :: p)) as Hb' by (constructor; [unfold is_byte; lia|done]).
    unfold Crc32c.Value. rewrite Extend_ok by (done || apply Haddr).
    pose proof (crc32c_range 0 (t :: p) ltac:(lia) Hb') as Hc.
    destruct (Unmask_Mask _ Hc) as [Hu Hm]. change (8 * Z.of_nat 4) with 32.
    by rewrite (Z.mod_small _ (2 ^ 32)), Hu, Z.eqb_refl. }
  cbn [negb]. unfold Slice.remove_prefix. rewrite El, (proj2 (Z.leb_le _ _)) by lia.
  rewrite u64_not_before.
  assert (drop (Z.to_nat (7 + Slice.size p)) (phys t p ++ y) = y) as ->
    by (apply drop_app_length'; rewrite length_phys; unfold Slice.size; lia).
  assert (take (Z.to_nat (Slice.size p)) (drop (Z.to_nat 7) (phys t p ++ y)) = p) as ->.
  { change (Z.to_nat 7) with 7%nat. rewrite D7. apply take_app_length'. unfold Slice.size. lia. }
  eexists. split; [done|]. split; [|done]. split; cbn; [lia|done| | |done|done].
  - rewrite Hf, drop_app, length_phys. unfold Slice.size in *.
    rewrite skipn_all2 by (rewrite length_phys; lia). cbn. f_equal. lia.
  - rewrite He. apply bool_decide_ext. unfold Slice.size in *. rewrite length_app, length_phys. lia.
Qed.

(** A physical record that the file ends in is the end. *)
Lemma read_physical_cut n r off t p y z res :
  at_off r off y → phys t p = y ++ z → z ≠ [] → 1 <= t <= 4 → off + 7 + Slice.size p <= 32768 →
  Forall is_byte p →
  ∃ r', read_physical_loop address reporter checksum 0 (S n) r res = Ok (kEof, res, r') ∧
    at_end r' ∧ reports r' = reports r.
Proof.
  intros [Hr Hb Hf He Hy Hla] Ep Hz Ht Hs Hp. assert (0 <= Slice.size p) as H0 by (unfold Slice.size; lia).
  assert (Slice.size y < 7 + Slice.size p) as Ly.
  { apply (f_equal length) in Ep. rewrite length_phys, length_app in Ep.
    unfold Slice.size. destruct z; [done|]. cbn [length] in Ep. lia. }
  assert (buffer_ r = y) as Eb by (rewrite Hb; apply firstn_all2; unfold Slice.size in *; lia).
  rewrite bool_decide_eq_true_2 in He by lia.
  cbn [read_physical_loop]. rewrite Eb, He. change kHeaderSize with 7. cbn [negb].
  destruct (Z.ltb_spec (Slice.size y) 7) as [L|L]; [eexists; by split|].
  assert (∀ i b, (phys t p ++ []) !! i = Some b → (i < 7)%nat → y !! i = Some b) as Hl.
  { intros i b E Hi. rewrite app_nil_r, Ep, lookup_app_l in E; [done|]. unfold Slice.size in L. lia. }
  destruct (phys_fields t p [] Ht ltac:(lia)) as (F4 & F5 & F6 & _).
  destruct (phys_length_fields p ltac:(lia)) as [B4 B5].
  rewrite (Hl _ _ F4), (Hl _ _ F5), (Hl _ _ F6) by lia. unfold mbind, res_bind. cbn [of_option].
  rewrite !char_byte, two_bytes by (done || lia).
  rewrite (proj2 (Z.ltb_lt _ (7 + Slice.size p))) by lia. change (eof_ (set_buffer r [])) with (eof_ r). rewrite He. cbn [negb]. eexists. split; [done|]. by split.
Qed.

(** * One call of [ReadPhysicalRecord] *)

Lemma length_pad off : 0 <= off <= 32768 → Slice.size (pad off) = if 32768 - off <? 7 then 32768 - off else 0.
Proof.
  intros Ho. unfold pad, Slice.size. destruct (_ <? _); [|done]. rewrite length_replicate. lia.
Qed.

(** A sequence of bytes that ends in a trailer, at the end. *)
Lemma read_physical_short n r off y res :
  at_off r off y → 32768 - off < 7 → Slice.size y < 32768 - off →
  ∃ r', read_physical_loop address reporter checksum 0 (S n) r res = Ok (kEof, res, r') ∧
    at_end r' ∧ reports r' = reports r.
Proof.
  intros [Hr Hb Hf He Hy Hla] H7 Hs. cbn [read_physical_loop].
  assert (buffer_ r = y) as Eb by (rewrite Hb; apply firstn_all2; unfold Slice.size in *; lia).
  rewrite Eb, (proj2 (Z.ltb_lt _ _)) by (unfold kHeaderSize; lia).
  rewrite He, bool_decide_eq_true_2 by lia. eexists. split; [done|]. split; [|done].
  split; [done|]. split; [|done]. cbn. rewrite He. by apply bool_decide_eq_true_2.
Qed.

Lemma ReadPhysicalRecord_whole r off t p x res :
  at_off r off (pad off ++ phys t p ++ x) → 1 <= t <= 4 → base off + 7 + Slice.size p <= 32768 →
  Forall is_byte p →
  ∃ r', ReadPhysicalRecord address reporter checksum 0 r res = Ok (t, p, r') ∧
    at_off r' (base off + 7 + Slice.size p) x ∧ reports r' = reports r.
Proof.
  intros Ha Ht Hs Hp. pose proof (at_range _ _ _ Ha) as Ho. unfold ReadPhysicalRecord.
  pose proof (length_pad off Ho) as Hpad. unfold base in *.
  destruct (Z.ltb_spec (32768 - off) 7) as [L|L].
  - destruct (read_physical_trailer 2 r off _ res Ha L) as (r1 & E & Ha1 & Er).
    { unfold Slice.size in *. rewrite length_app. lia. }
    rewrite E. rewrite drop_app_length' in Ha1 by (unfold Slice.size in Hpad; lia).
    destruct (read_physical_whole 1 r1 0 t p x res Ha1 Ht Hs Hp) as (r' & E' & Ha' & Er').
    exists r'. by rewrite Er'.
  - unfold pad in Ha. rewrite (proj2 (Z.ltb_ge _ _)) in Ha by lia.
    by apply (read_physical_whole 2).
Qed.

Lemma ReadPhysicalRecord_cut r off t p y z res :
  at_off r off y → pad off ++ phys t p = y ++ z → z ≠ [] → 1 <= t <= 4 →
  base off + 7 + Slice.size p <= 32768 → Forall is_byte p →
  ∃ r', ReadPhysicalRecord address reporter checksum 0 r res = Ok (kEof, res, r') ∧
    at_end r' ∧ reports r' = reports r.
Proof.
  intros Ha Ep Hz Ht Hs Hp. pose proof (at_range _ _ _ Ha) as Ho. unfold ReadPhysicalRecord.
  pose proof (length_pad off Ho) as Hpad. unfold base in *.
  destruct (Z.ltb_spec (32768 - off) 7) as [L|L].
  - destruct (Z.lt_ge_cases (Slice.size y) (32768 - off)) as [Ls|Ls];
      [by apply (read_physical_short 2 r off y res)|].
    destruct (read_physical_trailer 2 r off _ res Ha L Ls) as (r1 & E & Ha1 & Er). rewrite E.
    assert (phys t p = drop (Z.to_nat (32768 - off)) y ++ z) as Ep1.
    { apply (f_equal (drop (length (pad off)))) in Ep. rewrite drop_app_length in Ep. rewrite Ep.
      rewrite drop_app_le by (unfold Slice.size in *; lia). do 2 f_equal. unfold Slice.size in *. lia. }
    destruct (read_physical_cut 1 r1 0 t p _ z res Ha1 Ep1 Hz Ht Hs Hp) as (r' & E' & Ha' & Er').
    exists r'. by rewrite Er'.
  - unfold pad in Ep. rewrite (proj2 (Z.ltb_ge _ _)) in Ep by lia.
    by apply (read_physical_cut 2 r off t p y z).
Qed.

(** * One call of [ReadRecord] *)

(** The fragments of a record that is there are put together. *)
Lemma read_frags off begin data out off' :
  frags off begin data out off' → ∀ fuel r x fragment scratch pos,
  at_off r off (out ++ x) → 0 <= pos → Forall is_byte data → (length out < fuel)%nat →
  (begin = true → scratch = []) →
  ∃ r', read_record_loop address reporter checksum 0 fuel r fragment scratch (negb begin) pos =
      Ok (Some (scratch ++ data), r') ∧ at_off r' off' x ∧ reports r' = reports r.
Proof.
  induction 1 as [off begin data Hs|off begin data n out off' Hn Hs H IH];
    intros fuel r x fragment scratch pos Ha Hpos Hd Hf Hb; (destruct fuel as [|fuel]; [lia|]);
    rewrite <- !app_assoc in Ha.
  - destruct (ReadPhysicalRecord_whole r off (if begin then 1 else 4) data x fragment Ha)
      as (r' & E & Ha' & Er); [by destruct begin|lia|done|].
    cbn [read_record_loop]. rewrite E. unfold mbind, res_bind. rewrite (at_resync _ _ _ Ha').
    cbn [andb]. destruct begin; cbn [negb].
    + rewrite (Hb eq_refl). eexists. split; [done|]. split; [|done].
      destruct Ha'. split; try done. apply u64_range.
    + eexists. split; [done|]. split; [|done]. by destruct Ha'.
  - assert (Slice.size (take n data) = Z.of_nat n) as Et
      by (unfold Slice.size in *; rewrite length_take; lia).
    destruct (ReadPhysicalRecord_whole r off (if begin then 2 else 3) (take n data) (out ++ x) fragment Ha)
      as (r' & E & Ha' & Er); [by destruct begin|lia|by apply Forall_take|].
    rewrite Et in Ha'. replace (base off + 7 + Z.of_nat n) with 32768 in Ha' by lia.
    cbn [read_record_loop]. rewrite E. unfold mbind, res_bind. rewrite (at_resync _ _ _ Ha').
    cbn [andb].
    assert (at_off (set_resyncing r' false) 32768 (out ++ x)) as Ha2 by (by destruct Ha').
    rewrite !length_app, length_phys in Hf.
    destruct begin; cbn [negb].
    + rewrite (Hb eq_refl). cbn [app].
      destruct (IH fuel (set_resyncing r' false) x (take n data) (take n data)
        (u64 (end_of_buffer_offset_ r' - Slice.size (buffer_ r') - kHeaderSize - Slice.size (take n data)))
        Ha2) as (r2 & E2 & Ha3 & Er2); [apply u64_range|by apply Forall_drop|lia|done|].
      rewrite take_drop in E2. exists r2. split; [exact E2|]. split; [done|]. by rewrite Er2.
    + destruct (IH fuel (set_resyncing r' false) x (take n data) (scratch ++ take n data) pos Ha2)
        as (r2 & E2 & Ha3 & Er2); [done|by apply Forall_drop|lia|done|].
      rewrite <- app_assoc, take_drop in E2. exists r2. split; [exact E2|]. split; [done|]. by rewrite Er2.
Qed.

(** A record that the file ends in is not returned, nor reported. *)
Lemma read_frags_cut off begin data out off' :
  frags off begin data out off' → ∀ fuel r y z fragment scratch pos,
  at_off r off y → out = y ++ z → z ≠ [] → Forall is_byte data → (length y < fuel)%nat →
  (begin = true → scratch = []) →
  ∃ r', read_record_loop address reporter checksum 0 fuel r fragment scratch (negb begin) pos =
      Ok (None, r') ∧ at_end r' ∧ reports r' = reports r.
Proof.
  induction 1 as [off begin data Hs|off begin data n out off' Hn Hs H IH];
    intros fuel r y z fragment scratch pos Ha Eo Hz Hd Hf Hb; (destruct fuel as [|fuel]; [lia|]).
  - destruct (ReadPhysicalRecord_cut r off (if begin then 1 else 4) data y z fragment Ha Eo Hz)
      as (r' & E & He & Er); [by destruct begin|lia|done|].
    cbn [read_record_loop]. rewrite E. unfold mbind, res_bind. destruct He as (He1 & He2 & He3).
    rewrite He3. cbn [andb]. eexists. split; [done|]. by split.
  - assert (Slice.size (take n data) = Z.of_nat n) as Et
      by (unfold Slice.size in *; rewrite length_take; lia).
    set (t := if begin then 2 else 3) in *. set (p := take n data) in *.
    assert (1 <= t <= 4) as Ht by (unfold t; destruct begin; lia).
    assert (Forall is_byte p) as Hp by by apply Forall_take.
    rewrite app_assoc in Eo. apply app_split in Eo as [(y1 & -> & ->)|(z1 & Hz1 & Ep)].
    + rewrite <- app_assoc in Ha.
      destruct (ReadPhysicalRecord_whole r off t p y1 fragment Ha Ht) as (r' & E & Ha' & Er);
        [lia|done|].
      rewrite Et in Ha'. replace (base off + 7 + Z.of_nat n) with 32768 in Ha' by lia.
      cbn [read_record_loop]. rewrite E. unfold mbind, res_bind. rewrite (at_resync _ _ _ Ha').
      cbn [andb].
      assert (at_off (set_resyncing r' false) 32768 y1) as Ha2 by (by destruct Ha').
      rewrite !length_app, length_phys in Hf. unfold t, p in *.
      destruct begin; cbn [negb].
      * rewrite (Hb eq_refl). cbn [app].
        destruct (IH fuel (set_resyncing r' false) y1 z (take n data) (take n data)
          (u64 (end_of_buffer_offset_ r' - Slice.size (buffer_ r') - kHeaderSize - Slice.size (take n data)))
          Ha2) as (r2 & E2 & Ha3 & Er2); [done|done|by apply Forall_drop|lia|done|].
        exists r2. split; [exact E2|]. split; [done|]. by rewrite Er2.
      * destruct (IH fuel (set_resyncing r' false) y1 z (take n data) (scratch ++ take n data) pos Ha2)
          as (r2 & E2 & Ha3 & Er2); [done|done|by apply Forall_drop|lia|done|].
        exists r2. split; [exact E2|]. split; [done|]. by rewrite Er2.
    + destruct (ReadPhysicalRecord_cut r off t p y z1 fragment Ha Ep Hz1 Ht)
        as (r' & E & He & Er); [lia|done|].
      cbn [read_record_loop]. rewrite E. unfold mbind, res_bind. destruct He as (He1 & He2 & He3).
      rewrite He3. cbn [andb]. eexists. split; [done|]. by split.
Qed.


(** * All records of a file *)

Lemma ReadRecord_at fuel r off y :
  at_off r off y →
  ReadRecord address reporter checksum 0 fuel r =
  read_record_loop address reporter checksum 0 fuel r [] [] false 0.
Proof. intros Ha. unfold ReadRecord. by rewrite (proj2 (Z.ltb_ge _ 0)) by apply Ha. Qed.

(** Until [ReadRecord] returns false. *)
Fixpoint read_all (initial : Z) (n fuel : nat) r : res (list bytes * R) :=
  match n with
  | O => NoFuel
  | S n' =>
      '(record, r) ← ReadRecord address reporter checksum initial fuel r;
      match record with
      | None => Ok ([], r)
      | Some record => '(records, r) ← read_all initial n' fuel r; Ok (record :: records, r)
      end
  end.

Lemma read_at_eof fuel r off :
  at_off r off [] →
  ∃ r', ReadRecord address reporter checksum 0 (S fuel) r = Ok (None, r') ∧ reports r' = reports r.
Proof.
  intros Ha. pose proof (base_range off (at_range _ _ _ Ha)).
  destruct (read_frags_cut off true [] (pad off ++ phys 1 []) _
    (frag_end off true [] ltac:(change (Slice.size []) with 0; lia)) (S fuel) r [] (pad off ++ phys 1 []) [] [] 0 Ha)
    as (r' & E & _ & Er); [done| |done|cbn; lia|done|].
  - by destruct (pad off).
  - exists r'. split; [|done]. rewrite (ReadRecord_at _ _ _ _ Ha). exact E.
Qed.

(** The records are read, one after the other, and then the end, without a report. *)
Inductive reads (fuel : nat) : R → list bytes → Prop :=
  | reads_end r r' : ReadRecord address reporter checksum 0 fuel r = Ok (None, r') → reports r' = reports r → reads fuel r []
  | reads_more r r' x xs : ReadRecord address reporter checksum 0 fuel r = Ok (Some x, r') → reports r' = reports r → reads fuel r' xs → reads fuel r (x :: xs).

Lemma reads_all fuel r xs : reads fuel r xs → ∀ n, (length xs < n)%nat → ∃ r', read_all 0 n fuel r = Ok (xs, r') ∧ reports r' = reports r.
Proof.
  induction 1 as [r r' E Er|r r' x xs E Er H IH]; intros n Hn; (destruct n as [|n]; [cbn in Hn; lia|]); cbn [read_all]; rewrite E; unfold mbind, res_bind; [by exists r'|].
  destruct (IH n) as (r2 & -> & Er2); [cbn in Hn; lia|]. exists r2. split; [done|]. by rewrite Er2.
Qed.

(** Reading stops at the last record that is there as a whole. *)
Lemma read_log_steps off rs out off' :
  log_of off rs out off' → ∀ fuel r y z,
  at_off r off y → out = y ++ z → Forall (Forall is_byte) rs → (length y < fuel)%nat →
  ∃ j, reads fuel r (take j rs) ∧ (j <= length rs)%nat ∧
    (∃ outj offj, log_of off (take j rs) outj offj ∧ (length outj <= length y)%nat) ∧
    ((j < length rs)%nat → ∀ out2 off2, log_of off (take (S j) rs) out2 off2 → (length y < length out2)%nat).
Proof.
  induction 1 as [off|off data rs out out' off1 off2 Hf H IH]; intros fuel r y z Ha Eo Hb Hl.
  - symmetry in Eo. apply app_eq_nil in Eo as [-> ->]. destruct fuel as [|fuel]; [cbn in Hl; lia|].
    destruct (read_at_eof fuel r off Ha) as (r' & E & Er).
    exists 0%nat. split; [by eapply reads_end|]. split; [done|]. split; [|cbn; lia]. exists [], off. split; [constructor|done].
  - apply list.Forall_cons in Hb as [Hd Hb].
    apply app_split in Eo as [(y1 & -> & ->)|(z1 & Hz1 & ->)].
    + rewrite length_app in Hl.
      destruct (read_frags _ _ _ _ _ Hf fuel r y1 [] [] 0 Ha) as (r1 & E & Ha1 & Er1);
        [lia|done|lia|done|].
      destruct (IH fuel r1 y1 z Ha1 eq_refl Hb ltac:(lia)) as (j & Hrd & Hj & (oj & fj & Hlj & Hoj) & Hmax).
      exists (S j). cbn [negb] in E. cbn [length take]. split; [|split; [lia|split]].
      * eapply reads_more; [by rewrite (ReadRecord_at _ _ _ _ Ha)|done|exact Hrd].
      * exists (out ++ oj), fj. split; [by eapply log_cons|]. rewrite !length_app. lia.
      * intros Hlt out2 off3 H2. inversion H2; subst.
        match goal with H5 : frags off true data _ _ |- _ =>
          destruct (frags_det _ _ _ _ _ _ _ Hf H5) as [-> ->] end.
        match goal with H6 : log_of off1 _ _ _ |- _ => apply Hmax in H6; [|lia] end.
        rewrite !length_app. lia.
    + destruct (read_frags_cut _ _ _ _ _ Hf fuel r y z1 [] [] 0 Ha eq_refl Hz1 Hd ltac:(lia))
        as (r' & E & _ & Er); [done|].
      exists 0%nat. cbn [negb] in E. cbn [length take]. split; [|split; [lia|split]].
      * eapply reads_end; [by rewrite (ReadRecord_at _ _ _ _ Ha)|done].
      * exists [], off. split; [constructor|cbn; lia].
      * intros _ out2 off2' H2. inversion H2; subst.
        match goal with H5 : frags off true data _ _ |- _ =>
          destruct (frags_det _ _ _ _ _ _ _ Hf H5) as [-> ->] end.
        rewrite !length_app. destruct z1; [done|]. cbn. lia.
Qed.

Lemma read_log off rs out off' :
  log_of off rs out off' → ∀ fuel r y z,
  at_off r off y → out = y ++ z → Forall (Forall is_byte) rs → (length y < fuel)%nat →
  ∃ j r', read_all 0 (S (length rs)) fuel r = Ok (take j rs, r') ∧ reports r' = reports r ∧
    (j <= length rs)%nat ∧
    (∃ outj offj, log_of off (take j rs) outj offj ∧ (length outj <= length y)%nat) ∧
    ((j < length rs)%nat → ∀ out2 off2, log_of off (take (S j) rs) out2 off2 → (length y < length out2)%nat).
Proof.
  intros H fuel r y z Ha Eo Hb Hl. destruct (read_log_steps _ _ _ _ H fuel r y z Ha Eo Hb Hl) as (j & Hrd & Hj & Ho).
  destruct (reads_all _ _ _ Hrd (S (length rs))) as (r' & E & Er); [rewrite length_take; lia|]. by exists j, r'.
Qed.

(** A file starts like the end of a block. *)
Lemma log_start rs out off : log_of 0 rs out off → ∃ off', log_of 32768 rs out off'.
Proof.
  destruct block_start as [Ep Eb]. inversion 1; subst; [eexists; constructor|].
  match goal with H5 : frags 0 _ _ _ _ |- _ => inversion H5; subst end.
  - eexists. eapply log_cons; [|eassumption]. rewrite <- Ep, <- Eb. apply frag_end. by rewrite Eb.
  - eexists. eapply log_cons; [|eassumption]. rewrite <- Ep. eapply frag_more; [by rewrite Eb|done|done].
Qed.
End reading.

Lemma log_of_take off rs out off' j :
  log_of off rs out off' →
  ∃ outj offj, log_of off (take j rs) outj offj ∧ (length outj <= length out)%nat.
Proof.
  intros H. revert j. induction H as [off|off data rs out out' o1 o2 Hf H IH]; intros j.
  { rewrite take_nil. exists [], off. split; [constructor|done]. }
  destruct j as [|j]; [exists [], off; split; [constructor|cbn; lia]|].
  destruct (IH j) as (oj & fj & Hj & Hl). exists (out ++ oj), fj.
  split; [by eapply log_cons|]. rewrite !length_app. lia.
Qed.

Lemma write_all_log address rs out :
  (∀ b, 0 <= address b) → Forall (Forall is_byte) rs → write_all address rs = Ok out →
  ∃ off', log_of 32768 rs out off'.
Proof.
  intros Ha Hb E. destruct (write_all_ok address Ha rs Hb) as (out' & off' & H & E').
  rewrite E in E'. injection E' as ->. by eapply log_start.
Qed.

(** C11: crash safety of the log. Records of any bytes, of any length, are appended
    to a new file; wherever the file is cut, the reader returns a prefix of the
    records and then the end, without a report: all records up to the last one that
    is there as a whole, so all of them if nothing is missing. *)
Theorem log_crash_safe (address : bytes → Z) (reporter checksum : bool) (rs : list bytes) :
  (∀ b, 0 <= address b) → Forall (Forall is_byte) rs →
  ∃ L, write_all address rs = Ok L ∧
    ∀ k, (k <= length L)%nat →
      ∃ j r', read_all address reporter checksum 0 (S (length rs)) (S k) (Reader_new 0 (take k L)) =
          Ok (take j rs, r') ∧ reports r' = [] ∧ (j <= length rs)%nat ∧
        (k = length L → j = length rs) ∧
        (∃ Lj, write_all address (take j rs) = Ok Lj ∧ (length Lj <= k)%nat) ∧
        ((j < length rs)%nat →
          ∃ L', write_all address (take (S j) rs) = Ok L' ∧ (k < length L')%nat).
Proof.
  intros Ha Hb. destruct (write_all_ok address Ha rs Hb) as (L & off0 & H0 & E).
  exists L. split; [done|]. intros k Hk. destruct (log_start _ _ _ H0) as [off' H].
  destruct (read_log address Ha reporter checksum _ _ _ _ H (S k) (Reader_new 0 (take k L)) (take k L) (drop k L)
    (at_off_new _)) as (j & r' & E' & Er & Hj & (oj & fj & Hlj & Hoj) & Hmax);
    [by rewrite take_drop|done|rewrite length_take; lia|].
  rewrite length_take in Hoj. assert (∀ i, Forall (Forall is_byte) (take i rs)) as Hbi
    by (intros; by apply Forall_take).
  assert ((j < length rs)%nat →
    ∃ L', write_all address (take (S j) rs) = Ok L' ∧ (k < length L')%nat) as Hnext.
  { intros Hlt. destruct (write_all_ok address Ha _ (Hbi (S j))) as (L' & o' & H' & E2).
    exists L'. split; [done|]. destruct (log_start _ _ _ H') as [o2 H2].
    apply Hmax in H2; [|done]. rewrite length_take in H2. lia. }
  exists j, r'. split_and!; [done|done|done| | |done].
  - intros ->. destruct (decide (j < length rs)%nat) as [Hlt|]; [exfalso|lia].
    destruct (Hnext Hlt) as (L' & E2 & Hl2).
    destruct (write_all_log _ _ _ Ha (Hbi _) E2) as [o2 H2].
    destruct (log_of_take _ _ _ _ (S j) H) as (o3 & f3 & H3 & Hl3).
    destruct (log_of_det _ _ _ _ _ _ H2 H3) as [-> _]. lia.
  - destruct (write_all_ok address Ha _ (Hbi j)) as (Lj & o' & H' & E2).
    exists Lj. split; [done|]. destruct (log_start _ _ _ H') as [o2 H2].
    destruct (log_of_det _ _ _ _ _ _ Hlj H2) as [-> _]. lia.
Qed.

Lemma log_crash_safe_witness :
  (∀ b : bytes, 0 <= (λ _, 3) b) ∧ Forall (Forall is_byte) [[7; 8]; []] ∧
  ∃ L, write_all (λ _, 3) [[7; 8]; []] = Ok L ∧ length L = 16%nat ∧
    ∃ j r', read_all (λ _, 3) true true 0 3 12 (Reader_new 0 (take 11 L)) = Ok (take j [[7; 8]; []], r') ∧
      reports r' = [].
Proof.
  assert (Forall (Forall is_byte) [[7; 8]; []]) as Hb by (repeat constructor; unfold is_byte; lia).
  split; [intros; lia|]. split; [exact Hb|].
  destruct (log_crash_safe (λ _, 3) true true [[7; 8]; []] ltac:(intros; lia) Hb) as (L & E & HL).
  assert (length L = 16%nat) as El by (vm_compute in E; by injection E as <-).
  exists L. split; [exact E|]. split; [exact El|].
  destruct (HL 11%nat ltac:(lia)) as (j & r' & E' & Er & _). by exists j, r'.
Defined.
