(* ===== verification/LdbLogSafe.v ===== *)
(** Reading a log file with any contents: it ends, reads nothing outside of the
    buffer, and returns records made of physical records whose checksums hold. *)
From S2P Require Import Prelude LdbSkip LdbFormat LdbCodingProps LdbCrc LdbCrcProps LdbLog LdbLogProps.
Import Log.

(** * Intact physical records *)

(** Physical records that are in the file, at increasing positions. *)
Inductive pieces : bytes → list (Z * bytes) → Prop :=
  | pieces_nil L : pieces L []
  | pieces_cons pre t p post ps :
      pieces post ps → pieces (pre ++ phys t p ++ post) ((t, p) :: ps).

(** The record that physical records make: a full one, or a first one, middle ones
    and a last one. *)
Inductive whole : list (Z * bytes) → bytes → Prop :=
  | whole_full p : whole [(kFullType, p)] p
  | whole_frags p mids q :
      whole ((kFirstType, p) :: (pair kMiddleType <$> mids) ++ [(kLastType, q)]) (p ++ concat mids ++ q).

Inductive assembled : list (Z * bytes) → list bytes → Prop :=
  | assembled_nil : assembled [] []
  | assembled_cons qs ps d rs : whole qs d → assembled ps rs → assembled (qs ++ ps) (d :: rs).

Lemma pieces_skip pre L ps : pieces L ps → pieces (pre ++ L) ps.
Proof.
  destruct 1 as [|pre' t p post ps H]; [constructor|]. rewrite app_assoc. by constructor.
Qed.

Lemma pieces_drop n L ps : pieces (drop n L) ps → pieces L ps.
Proof. intros H. rewrite <- (take_drop n L). by apply pieces_skip. Qed.

Lemma pieces_app a b x y : pieces a x → pieces b y → pieces (a ++ b) (x ++ y).
Proof.
  induction 1 as [a|pre t p post ps H IH]; intros Hy; cbn [app]; [by apply pieces_skip|].
  rewrite <- !app_assoc. constructor. by apply IH.
Qed.

Section safe.
Context (address : bytes → Z) (Haddr : ∀ b, 0 <= address b).
Context (reporter checksum : bool) (initial : Z).
Abbreviation R := (Reader (F := bytes)).
Implicit Types r : R.

(** The reader holds bytes, so many of them. *)
Definition holds r : Prop := Forall is_byte (buffer_ r) ∧ Forall is_byte (file_ r).
Definition size r : nat := length (buffer_ r) + length (file_ r).

(** The physical records that are still to come. *)
Definition ahead r (ps : list (Z * bytes)) : Prop :=
  ∃ a b, ps = a ++ b ∧ pieces (buffer_ r) a ∧ pieces (file_ r) b.

(** What was read between [r] and [r']. *)
Definition between r r' (qs : list (Z * bytes)) : Prop :=
  ∀ ps, ahead r' ps → ahead r (qs ++ ps).

Lemma between_trans r1 r2 r3 q1 q2 : between r1 r2 q1 → between r2 r3 q2 → between r1 r3 (q1 ++ q2).
Proof. intros H1 H2 ps Hp. rewrite <- app_assoc. by apply H1, H2. Qed.

Lemma between_same r r1 r2 qs :
  buffer_ r1 = buffer_ r2 → file_ r1 = file_ r2 → between r r1 qs → between r r2 qs.
Proof. intros Eb Ef H ps (a & b & E & Ha & Hb). apply H. exists a, b. by rewrite Eb, Ef. Qed.

(** Dropping bytes. *)
Lemma between_drop r r' n m :
  buffer_ r' = drop n (buffer_ r) → file_ r' = drop m (file_ r) → between r r' [].
Proof.
  intros Eb Ef ps (a & b & -> & Ha & Hb). exists a, b. rewrite Eb in Ha. rewrite Ef in Hb.
  split; [done|]. split; by eapply pieces_drop.
Qed.

Lemma between_clear r r' :
  buffer_ r' = [] → file_ r' = file_ r → between r r' [].
Proof.
  intros Eb Ef. apply (between_drop _ _ (length (buffer_ r)) 0); [by rewrite drop_all|done].
Qed.

Lemma report_buffer r n s : buffer_ (ReportCorruption reporter initial r n s) = buffer_ r.
Proof. unfold ReportCorruption, ReportDrop. by destruct (_ && _). Qed.

Lemma report_file r n s : file_ (ReportCorruption reporter initial r n s) = file_ r.
Proof. unfold ReportCorruption, ReportDrop. by destruct (_ && _). Qed.

(** * One physical record *)

Record outcome r (t : Z) (fragment : bytes) r' : Prop := {
  outcome_holds : holds r';
  outcome_size : (size r' <= size r)%nat;
  outcome_less : t ≠ kEof → (size r' < size r)%nat;
  outcome_between : between r r' [];
  outcome_piece : checksum = true → 1 <= t <= 4 → between r r' [(t, fragment)]
}.

Lemma outcome_bad r r' fragment :
  holds r → (length (buffer_ r') < length (buffer_ r))%nat → Forall is_byte (buffer_ r') →
  file_ r' = file_ r → between r r' [] → outcome r kBadRecord fragment r'.
Proof.
  intros [_ Hf] Hl Hb Ef Hbt. unfold size. split; unfold size; rewrite ?Ef; try lia.
  - split; [done|by rewrite Ef].
  - done.
  - unfold kBadRecord, kMaxRecordType, kLastType. lia.
Qed.

Lemma outcome_cleared r r' t fragment :
  t = kBadRecord ∨ t = kEof → holds r → buffer_ r' = [] → file_ r' = file_ r →
  (0 < length (buffer_ r) ∨ t = kEof)%nat → outcome r t fragment r'.
Proof.
  intros Ht [_ Hf] Eb Ef Hl. unfold size. split; unfold size; rewrite ?Eb, ?Ef; cbn [length].
  - split; [by rewrite Eb|by rewrite Ef].
  - lia.
  - intros. destruct Hl; [lia|done].
  - by apply between_clear.
  - unfold kBadRecord, kEof, kMaxRecordType, kLastType in Ht. lia.
Qed.

Ltac cleared Eb :=
  (apply outcome_cleared; [auto|done|by rewrite ?report_buffer|by rewrite ?report_file|left; rewrite Eb; cbn; lia]).

(** A header whose checksum holds is that of a physical record. *)
Lemma header_phys a0 a1 a2 a3 a4 a5 t q :
  Forall is_byte [a0; a1; a2; a3; a4; a5; t] → Slice.size q = Z.lor a4 (Z.shiftl a5 8) →
  crc32c 0 (t :: q) = Crc32c.Unmask (le_of_bytes [a0; a1; a2; a3]) →
  [a0; a1; a2; a3; a4; a5; t] ++ q = phys t q.
Proof.
  intros Hb Hs Hc. rewrite !list.Forall_cons in Hb. destruct Hb as (B0 & B1 & B2 & B3 & B4 & B5 & _).
  assert (Forall is_byte [a0; a1; a2; a3]) as H4 by (by rewrite !list.Forall_cons).
  unfold phys. rewrite Hc. pose proof (le_of_bytes_bound _ H4) as Hm.
  change (2 ^ (8 * Z.of_nat (length [a0; a1; a2; a3]))) with (2 ^ 32) in Hm.
  rewrite (proj1 (Mask_Unmask _ Hm)). change 4%nat with (length [a0; a1; a2; a3]).
  rewrite le_bytes_le_of_bytes by done. unfold is_byte in B4, B5.
  rewrite (lor_disjoint_add a4 a5 8) in Hs by lia. change (2 ^ 8) with 256 in Hs.
  rewrite Hs, land_255, Z.shiftr_div_pow2 by lia. change (2 ^ 8) with 256.
  assert ((a4 + a5 * 256) mod 256 = a4) as -> by (Z.div_mod_to_equations; lia).
  assert ((a4 + a5 * 256) / 256 = a5) as -> by (Z.div_mod_to_equations; lia).
  done.
Qed.

Lemma char_type c : is_byte c → 1 <= u32 (s8 c) <= 4 → u32 (s8 c) = c.
Proof.
  unfold is_byte. intros Hc. destruct (Z.lt_ge_cases c 128) as [L|L]; [rewrite char_small by lia; lia|].
  unfold u32, s8. rewrite swrap_unsigned by lia. change (2 ^ (8 - 1)) with 128. change (2 ^ 8) with 256.
  rewrite (proj2 (Z.ltb_ge c 128)) by lia.
  rewrite <- (Z.mod_add (c - 256) 1 (2 ^ 32)), (Z.mod_small _ (2 ^ 32)) by lia. lia.
Qed.

(** With a header in the buffer, no block is read. *)
Lemma read_physical_header n r res :
  holds r → (7 <= length (buffer_ r))%nat →
  ∃ t fragment r', read_physical_loop address reporter checksum initial (S n) r res = Ok (t, fragment, r') ∧
    outcome r t fragment r'.
Proof.
  intros Hh Hl. pose proof Hh as [Hb Hf]. cbn [read_physical_loop].
  rewrite (proj2 (Z.ltb_ge _ kHeaderSize)) by (unfold Slice.size, kHeaderSize; lia).
  destruct (buffer_ r) as [|a0 [|a1 [|a2 [|a3 [|a4 [|a5 [|c y]]]]]]] eqn:Eb; cbn [length] in Hl; try lia.
  set (header := a0 :: a1 :: a2 :: a3 :: a4 :: a5 :: c :: y) in *.
  assert (Forall is_byte [a0; a1; a2; a3; a4; a5; c] ∧ Forall is_byte y) as [H7 Hy]
    by (apply (List.Forall_app is_byte [a0; a1; a2; a3; a4; a5; c] y); exact Hb).
  pose proof H7 as H7'. rewrite !list.Forall_cons in H7. destruct H7 as (B0 & B1 & B2 & B3 & B4 & B5 & B6 & _).
  change (header !! 4%nat) with (Some a4). change (header !! 5%nat) with (Some a5).
  change (header !! 6%nat) with (Some c). unfold mbind, res_bind. cbn [of_option].
  rewrite !char_byte by done. set (len := Z.lor a4 (Z.shiftl a5 8)).
  assert (0 <= len) as Hlen
    by (apply Z.lor_nonneg; unfold is_byte in *; rewrite Z.shiftl_nonneg; lia).
  destruct (Z.ltb_spec (Slice.size header) (kHeaderSize + len)) as [L|L].
  - destruct (negb _); eexists _, _, _; (split; [reflexivity|]); cleared Eb.
  - destruct (_ && _) eqn:Ez.
    { eexists _, _, _. split; [reflexivity|]. cleared Eb. }
    set (payload := take (Z.to_nat (1 + len)) (drop 6 header)).
    set (q := take (Z.to_nat len) y).
    assert (Slice.size header = 7 + Slice.size y) as Esz by (unfold Slice.size, header; cbn [length]; lia).
    assert (Slice.size q = len) as Eq
      by (unfold Slice.size, q, kHeaderSize in *; rewrite length_take; lia).
    assert (payload = c :: q) as Ep.
    { unfold payload, q. change (drop 6 header) with (c :: y).
      replace (Z.to_nat (1 + len)) with (S (Z.to_nat len)) by lia. done. }
    assert (Forall is_byte payload) as Hp by (rewrite Ep; constructor; [done|by apply Forall_take]).
    assert (Coding.DecodeFixed32 header = Ok (le_of_bytes [a0; a1; a2; a3])) as -> by done.
    unfold Crc32c.Value. rewrite Extend_ok by (done || apply Haddr).
    set (good := if checksum then _ else _).
    assert (∃ g, good = Ok g ∧ (checksum = true → g = true →
      crc32c 0 payload = Crc32c.Unmask (le_of_bytes [a0; a1; a2; a3]))) as (g & -> & Hg).
    { unfold good. destruct checksum; eexists; (split; [reflexivity|]); [|done].
      intros _ Hg. by apply Z.eqb_eq. }
    destruct g; cbn [negb].
    2:{ eexists _, _, _. split; [reflexivity|]. cleared Eb. }
    unfold Slice.remove_prefix. rewrite (proj2 (Z.leb_le _ _)) by done.
    set (rest := drop (Z.to_nat (kHeaderSize + len)) header).
    assert (rest = drop (Z.to_nat len) y) as Er.
    { unfold rest, kHeaderSize. replace (Z.to_nat (4 + 2 + 1 + len)) with (7 + Z.to_nat len)%nat by lia. done. }
    assert (Forall is_byte rest) as Hrest by (rewrite Er; by apply Forall_drop).
    assert (length rest < length (buffer_ r))%nat as Hless.
    { rewrite Er, Eb, length_drop. cbn [length header]. unfold header. cbn [length]. lia. }
    assert (between r (set_buffer r rest) []) as Hbt.
    { apply (between_drop _ _ (Z.to_nat (kHeaderSize + len)) 0); [cbn; by rewrite Eb|done]. }
    destruct (_ <? initial).
    { eexists _, _, _. split; [reflexivity|]. by apply outcome_bad. }
    eexists _, _, _. split; [reflexivity|].
    change (drop (Z.to_nat kHeaderSize) header) with y. fold q.
    split; unfold size; cbn [set_buffer buffer_ file_]; try lia; [|done|].
    + split; [exact Hrest|exact Hf].
    + intros Hck Ht ps (x & z & -> & Hx & Hz). rewrite (char_type c B6 Ht).
      exists ((c, q) :: x), z. split; [done|]. split; [|exact Hz]. rewrite Eb.
      enough (header = [] ++ phys c q ++ rest) as Eh by (rewrite Eh; by constructor).
      cbn [app]. rewrite <- (header_phys a0 a1 a2 a3 a4 a5 c q H7' Eq).
      * rewrite Er. unfold header, q. cbn [app]. by rewrite take_drop.
      * rewrite <- Ep. by apply Hg.
Qed.

Lemma read_physical_more n r res :
  read_physical_loop address reporter checksum initial (S n) r res =
  if Slice.size (buffer_ r) <? kHeaderSize then
    if negb (eof_ r) then
      let '(good, r) := read_block reporter initial (set_buffer r []) in
      if good then read_physical_loop address reporter checksum initial n r res else Ok (kEof, res, r)
    else Ok (kEof, res, set_buffer r [])
  else read_physical_loop address reporter checksum initial (S n) r res.
Proof. cbn [read_physical_loop]. by destruct (_ <? _). Qed.

(** A call returns, whatever the file holds. *)
Lemma ReadPhysicalRecord_any r res :
  holds r →
  ∃ t fragment r', ReadPhysicalRecord address reporter checksum initial r res = Ok (t, fragment, r') ∧
    outcome r t fragment r'.
Proof.
  intros Hh. unfold ReadPhysicalRecord.
  destruct (decide (7 <= length (buffer_ r))%nat) as [L|L]; [by apply read_physical_header|].
  assert (∀ r0, (length (buffer_ r0) < 7)%nat → (Slice.size (buffer_ r0) <? kHeaderSize) = true) as Hs.
  { intros r0 H0. apply Z.ltb_lt. unfold Slice.size, kHeaderSize. lia. }
  pose proof Hh as [Hb Hf].
  destruct (eof_ r) eqn:Ee.
  { cbn [read_physical_loop]. rewrite Hs by lia. rewrite Ee. eexists _, _, _. split; [reflexivity|].
    apply outcome_cleared; auto. }
  assert (∃ r1, holds r1 ∧ (size r1 <= size r)%nat ∧ between r r1 [] ∧
    ((length (buffer_ r1) < 7)%nat → eof_ r1 = true) ∧
    read_physical_loop address reporter checksum initial 3 r res =
    read_physical_loop address reporter checksum initial 2 r1 res) as (r1 & H1 & Hz & Hbt & He & E).
  { rewrite read_physical_more. rewrite (Hs r) by lia. rewrite Ee. cbn [negb read_block Read mem_sequential].
    cbn [Status.ok Status.OK negb set_buffer file_]. generalize (Z.to_nat kBlockSize) as m. intros m.
    set (r1 := set_end _ _).
    exists (if Slice.size (take m (file_ r)) <? kBlockSize then set_eof r1 else r1).
    assert (file_ r1 = drop m (file_ r) ∧ buffer_ r1 = take m (file_ r)) as [Ef Eb] by done.
    assert (between r r1 []) as Hbt.
    { intros ps (x & z & -> & Hx & Hz). exists [], (x ++ z). split; [done|]. split; [constructor|].
      rewrite Ef in Hz. rewrite Eb in Hx. rewrite <- (take_drop m (file_ r)). by apply pieces_app. }
    assert (holds r1) as H1
      by (split; [rewrite Eb; by apply Forall_take|rewrite Ef; by apply Forall_drop]).
    assert (size r1 <= size r)%nat as Hz
      by (unfold size; rewrite Eb, Ef, length_take, length_drop; lia).
    destruct (Z.ltb_spec (Slice.size (take m (file_ r))) kBlockSize) as [L1|L1].
    - split; [exact H1|]. split; [exact Hz|]. split; [exact Hbt|]. split; intros; reflexivity.
    - split; [exact H1|]. split; [exact Hz|]. split; [exact Hbt|]. split; [|reflexivity].
      intros H7. exfalso. rewrite Eb in H7. apply (Z.lt_irrefl kBlockSize).
      eapply Z.le_lt_trans; [exact L1|]. unfold Slice.size, kBlockSize. lia. }
  rewrite E. destruct (decide (7 <= length (buffer_ r1))%nat) as [L1|L1].
  - destruct (read_physical_header 1 r1 res H1 L1) as (t & fragment & r' & E' & [O1 O2 O3 O4 O5]).
    exists t, fragment, r'. split; [done|]. split; [done|lia|intros Ht; apply O3 in Ht; lia| |].
    + apply (between_trans r r1 r' [] []); done.
    + intros Hc Ht. apply (between_trans r r1 r' [] _); auto.
  - cbn [read_physical_loop]. rewrite (Hs r1) by lia. rewrite He by lia.
    eexists _, _, _. split; [reflexivity|]. pose proof H1 as [_ Hf1].
    split; [split; [constructor|done]|unfold size in *; cbn; lia|done| |].
    + apply (between_trans r r1 _ [] []); [done|]. by apply between_clear.
    + unfold kEof, kMaxRecordType, kLastType. lia.
Qed.

(** * One record *)

(** What ends a record of which [scratch] was read. *)
Definition ends (in_fragmented : bool) (scratch : bytes) (qs : list (Z * bytes)) (d : bytes) : Prop :=
  whole qs d ∨
  (in_fragmented = true ∧ ∃ mids q,
    qs = (pair kMiddleType <$> mids) ++ [(kLastType, q)] ∧ d = scratch ++ concat mids ++ q).

Record post in_fragmented scratch r (o : option bytes) r' : Prop := {
  post_holds : holds r';
  post_size : (size r' <= size r)%nat;
  post_less : o ≠ None → (size r' < size r)%nat;
  post_pieces : checksum = true → ∀ d, o = Some d →
    ∃ qs, between r r' qs ∧ ends in_fragmented scratch qs d
}.

Lemma post_turn i1 s1 i2 s2 r t fragment r1 r2 o r' :
  outcome r t fragment r1 → t ≠ kEof → buffer_ r1 = buffer_ r2 → file_ r1 = file_ r2 →
  (∀ qs d, ends i2 s2 qs d → ends i1 s1 qs d ∨ (1 <= t <= 4 ∧ ends i1 s1 ((t, fragment) :: qs) d)) →
  post i2 s2 r2 o r' → post i1 s1 r o r'.
Proof.
  intros [O1 O2 O3 O4 O5] Ht Eb Ef He [P1 P2 P3 P4].
  assert (size r2 = size r1) as Es by (unfold size; by rewrite Eb, Ef).
  apply O3 in Ht. split; [done|lia|lia|]. intros Hc d Ed. destruct (P4 Hc d Ed) as (qs & Hbt & Hq).
  destruct (He qs d Hq) as [H|[H14 H]].
  - exists qs. split; [|done]. apply (between_trans r r2 r' [] qs); [|done].
    by apply (between_same r r1 r2).
  - exists ((t, fragment) :: qs). split; [|done]. apply (between_trans r r2 r' [_] qs); [|done].
    apply (between_same r r1 r2); auto.
Qed.

(** The last turn. *)
Lemma post_last i s r t fragment r1 r2 d :
  outcome r t fragment r1 → t ≠ kEof → 1 <= t <= 4 → buffer_ r1 = buffer_ r2 → file_ r1 = file_ r2 →
  ends i s [(t, fragment)] d → post i s r (Some d) r2.
Proof.
  intros [[O1 O1'] O2 O3 O4 O5] Ht H14 Eb Ef He. apply O3 in Ht.
  assert (size r2 = size r1) as Es by (unfold size; by rewrite Eb, Ef).
  split; [split; by rewrite <- ?Eb, <- ?Ef|lia|lia|]. intros Hc d' [= <-].
  exists [(t, fragment)]. split; [|done]. apply (between_same r r1 r2); auto.
Qed.

Lemma ends_first qs d s p i :
  ends true p qs d → ends i s qs d ∨ (1 <= kFirstType <= 4 ∧ ends i s ((kFirstType, p) :: qs) d).
Proof.
  intros [H|(_ & mids & q & -> & ->)]; [by left; left|right].
  split; [unfold kFirstType; lia|]. left. apply whole_frags.
Qed.

Lemma ends_middle qs d s p :
  ends true (s ++ p) qs d →
  ends true s qs d ∨ (1 <= kMiddleType <= 4 ∧ ends true s ((kMiddleType, p) :: qs) d).
Proof.
  intros [H|(_ & mids & q & -> & ->)]; [by left; left|right].
  split; [unfold kMiddleType; lia|]. right. split; [done|]. exists (p :: mids), q.
  split; [done|]. cbn. by rewrite <- !app_assoc.
Qed.

Lemma ends_none qs d i s : ends false [] qs d → ends i s qs d.
Proof. intros [H|[? _]]; [by left|done]. Qed.

Lemma read_record_any fuel : ∀ r fragment scratch i pos,
  holds r → (size r < fuel)%nat →
  ∃ o r', read_record_loop address reporter checksum initial fuel r fragment scratch i pos = Ok (o, r') ∧
    post i scratch r o r'.
Proof.
  induction fuel as [|fuel IH]; intros r fragment scratch i pos Hh Hz; [lia|].
  destruct (ReadPhysicalRecord_any r fragment Hh) as (t & f & r1 & E & O).
  cbn [read_record_loop]. rewrite E. unfold mbind, res_bind.
  set (pos' := u64 _). clearbody pos'.
  assert (∀ r2 f2 s2 i2 p2, t ≠ kEof → buffer_ r1 = buffer_ r2 → file_ r1 = file_ r2 →
    (∀ qs d, ends i2 s2 qs d → ends i scratch qs d ∨ (1 <= t <= 4 ∧ ends i scratch ((t, f) :: qs) d)) →
    ∃ o r', read_record_loop address reporter checksum initial fuel r2 f2 s2 i2 p2 = Ok (o, r') ∧
      post i scratch r o r') as Hturn.
  { intros r2 f2 s2 i2 p2 Ht Eb Ef He. pose proof O as [[Oh Oh'] _ Ol _ _]. apply Ol in Ht as Hl.
    destruct (IH r2 f2 s2 i2 p2) as (o & r' & E2 & P);
      [split; by rewrite <- ?Eb, <- ?Ef|unfold size in *; rewrite <- Eb, <- Ef; lia|].
    exists o, r'. split; [done|]. by eapply post_turn. }
  assert (∀ n s, buffer_ r1 = buffer_ (ReportCorruption reporter initial (set_resyncing r1 false) n s))
    as Hrb by (intros; by rewrite report_buffer).
  assert (∀ n s, file_ r1 = file_ (ReportCorruption reporter initial (set_resyncing r1 false) n s))
    as Hrf by (intros; by rewrite report_file).
  destruct (resyncing_ r1 && (t =? kMiddleType)) eqn:R1.
  { apply andb_true_iff in R1 as [_ ->%Z.eqb_eq]. apply Hturn; auto. }
  destruct (resyncing_ r1 && (t =? kLastType)) eqn:R2.
  { apply andb_true_iff in R2 as [_ ->%Z.eqb_eq]. apply Hturn; auto. }
  destruct (Z.eqb_spec t kFullType) as [->|N1].
  { eexists _, _. split; [reflexivity|]. eapply post_last; [exact O|done|unfold kFullType; lia| | |].
    - destruct (i && negb (Slice.empty scratch)); [apply Hrb|done].
    - destruct (i && negb (Slice.empty scratch)); [apply Hrf|done].
    - left. constructor. }
  destruct (Z.eqb_spec t kFirstType) as [->|N2].
  { apply Hturn; [done|destruct (i && negb (Slice.empty scratch)); [apply Hrb|done]|destruct (i && negb (Slice.empty scratch)); [apply Hrf|done]|]. intros qs d. apply ends_first. }
  destruct (Z.eqb_spec t kMiddleType) as [->|N3].
  { destruct i; cbn [negb]; apply Hturn; auto; try done.
    intros qs d. apply ends_middle. }
  destruct (Z.eqb_spec t kLastType) as [->|N4].
  { destruct i; cbn [negb].
    - eexists _, _. split; [reflexivity|]. eapply post_last; [exact O|done|unfold kLastType; lia|done|done|].
      right. split; [done|]. by exists [], f.
    - apply Hturn; auto; done. }
  destruct (Z.eqb_spec t kEof) as [->|N5].
  { eexists _, _. split; [reflexivity|]. destruct O as [O1 O2 O3 O4 O5]. by split. }
  destruct (t =? kBadRecord).
  - destruct i; apply Hturn; auto. intros qs d H. left. by apply ends_none.
  - apply Hturn; auto. intros qs d H. left. by apply ends_none.
Qed.

(** * All records *)

Lemma ReadRecord_any fuel r :
  holds r → (size r < fuel)%nat →
  ∃ o r', ReadRecord address reporter checksum initial fuel r = Ok (o, r') ∧ post false [] r o r'.
Proof.
  intros Hh Hz. unfold ReadRecord.
  destruct (_ <? initial); [|by apply read_record_any].
  unfold SkipToInitialBlock.
  set (start := if _ <? _ then u64 _ else u64 _). clearbody start.
  destruct (0 <? start); cbn [Skip mem_sequential Status.ok Status.OK].
  - set (r1 := set_file _ _).
    assert (buffer_ r1 = buffer_ r ∧ file_ r1 = drop (Z.to_nat start) (file_ r)) as [Eb Ef] by done.
    pose proof Hh as [Hb Hf].
    assert (size r1 <= size r)%nat as Hz1 by (unfold size; rewrite Eb, Ef, length_drop; lia).
    destruct (read_record_any fuel r1 [] [] false 0) as (o & r' & E & [P1 P2 P3 P4]);
      [split; [by rewrite Eb|rewrite Ef; by apply Forall_drop]|lia|].
    exists o, r'. split; [exact E|]. split; [done|lia|intros Ho; apply P3 in Ho; lia|].
    intros Hc d Ed. destruct (P4 Hc d Ed) as (qs & Hbt & Hq). exists qs. split; [|done].
    apply (between_trans r r1 r' [] qs); [|done]. by apply (between_drop r r1 0 (Z.to_nat start)).
  - destruct (read_record_any fuel (set_end r start) [] [] false 0 Hh Hz) as (o & r' & E & [P1 P2 P3 P4]).
    exists o, r'. split; [exact E|]. split; [exact P1|exact P2|exact P3|exact P4].
Qed.

Lemma read_all_any n : ∀ fuel r,
  holds r → (size r < n)%nat → (size r < fuel)%nat →
  ∃ records r', read_all address reporter checksum initial n fuel r = Ok (records, r') ∧ holds r' ∧
    (checksum = true → ∃ ps, ahead r ps ∧ assembled ps records).
Proof.
  induction n as [|n IH]; intros fuel r Hh Hn Hf; [lia|].
  destruct (ReadRecord_any fuel r Hh Hf) as (o & r1 & E & [P1 P2 P3 P4]).
  cbn [read_all]. rewrite E. unfold mbind, res_bind. destruct o as [d|].
  - assert (size r1 < size r)%nat by by apply P3.
    destruct (IH fuel r1 P1) as (records & r' & E' & Hh' & Hps); [lia..|].
    exists (d :: records), r'. rewrite E'. split; [done|]. split; [done|]. intros Hc.
    destruct (P4 Hc d eq_refl) as (qs & Hbt & [Hq|[? _]]); [|done].
    destruct (Hps Hc) as (ps & Ha & Has). exists (qs ++ ps). split; [by apply Hbt|by constructor].
  - exists [], r1. split; [done|]. split; [done|]. intros Hc. exists []. split; [|constructor].
    exists [], []. split; [done|]. split; constructor.
Qed.
End safe.

(** C19: reading is safe and honest whatever the log file holds and wherever reading
    starts. It ends, after at most as many records and as many turns as there are
    bytes, without an access outside of the buffer; and when checksums are checked,
    the records returned are those that physical records of the file make, at
    increasing positions, each with the checksum of its type and contents: a full
    one, or a first one, middle ones and a last one, put together in this order. *)
Theorem log_read_any (address : bytes → Z) (reporter checksum : bool) (initial : Z) (file : bytes) :
  (∀ b, 0 <= address b) → Forall is_byte file →
  ∃ records r', read_all address reporter checksum initial (S (length file)) (S (length file))
      (Reader_new initial file) = Ok (records, r') ∧
    (checksum = true → ∃ ps, pieces file ps ∧ assembled ps records).
Proof.
  intros Ha Hb.
  destruct (read_all_any address Ha reporter checksum initial (S (length file)) (S (length file))
    (Reader_new initial file)) as (records & r' & E & _ & Hps); [split; [constructor|done]|cbn; lia..|].
  exists records, r'. split; [done|]. intros Hc. destruct (Hps Hc) as (ps & (x & y & -> & Hx & Hy) & Has).
  exists (x ++ y). split; [|done]. by apply (pieces_app []).
Qed.

Lemma log_read_any_witness :
  (∀ b : bytes, 0 <= (λ _, 3) b) ∧ Forall is_byte (phys 1 [7; 8] ++ phys 3 [9] ++ [1; 2; 3]) ∧
  ∃ records r', read_all (λ _, 3) true true 0 20 20
      (Reader_new 0 (phys 1 [7; 8] ++ phys 3 [9] ++ [1; 2; 3])) = Ok (records, r') ∧
    records = [[7; 8]] ∧ reports r' = [(1, Status.Corruption "missing start of fragmented record(1)")].
Proof.
  assert (Forall is_byte (phys 1 [7; 8] ++ phys 3 [9] ++ [1; 2; 3])) as Hb
    by (apply List.Forall_forall; intros x Hx; vm_compute in Hx; decompose [or] Hx; subst; done).
  split; [intros; lia|]. split; [exact Hb|].
  destruct (log_read_any (λ _, 3) true true 0 _ ltac:(intros; lia) Hb) as (records & r' & E & _).
  change (S (length (phys 1 [7; 8] ++ phys 3 [9] ++ [1; 2; 3]))) with 21%nat in E.
  exists records, r'.
  split; [rewrite <- E; vm_compute; reflexivity|]. vm_compute in E. injection E as <- <-. split; reflexivity.
Defined.

(** A stored type that is one of the reader's own special values is taken for it: a
    record of type 5 with a right checksum ends the log without a report, while one
    of type 7 is reported and skipped. *)
Example stored_special_type :
  ∃ r1 r2, read_all (λ _, 3) true true 0 3 30 (Reader_new 0 (phys 5 [9] ++ phys 1 [7])) = Ok ([], r1) ∧
    reports r1 = [] ∧
    read_all (λ _, 3) true true 0 3 30 (Reader_new 0 (phys 7 [9] ++ phys 1 [7])) = Ok ([[7]], r2) ∧
    reports r2 = [(1, Status.Corruption "unknown record type 7")].
Proof. eexists _, _. vm_compute. repeat split. Qed.
