(* ===== verification/LdbFilter.v ===== *)
(** LevelDB's filters ([util/hash.cc], [util/bloom.cc], [include/leveldb/filter_policy.h],
    [table/filter_block.h], [table/filter_block.cc] and [InternalFilterPolicy] of
    [db/dbformat.cc]): which data blocks of a table cannot hold a key. *)
From S2P Require Import Prelude LdbSkip LdbFormat.

Module Hash.

Definition m : Z := 0xc6a4a793.
Definition r : Z := 24.

(** Four bytes at a time; what is left is shorter. *)
Fixpoint words (fuel : nat) (data : bytes) (h : Z) : res (Z * bytes) :=
  match fuel with
  | O => NoFuel
  | S fuel' =>
      if 4 <=? Slice.size data then
        w ← Coding.DecodeFixed32 data;
        let h := u32 (h + w) in
        let h := u32 (h * m) in
        let h := Z.lxor h (Z.shiftr h 16) in
        words fuel' (drop 4 data) h
      else Ok (h, data)
  end.

(** The [switch], whose cases fall through. *)
Definition tail (data : bytes) (h : Z) : res Z :=
  let n := Slice.size data in
  h ← (if n =? 3 then b ← of_option (data !! 2%nat); Ok (u32 (h + Z.shiftl b 16)) else Ok h);
  h ← (if (n =? 3) || (n =? 2) then b ← of_option (data !! 1%nat); Ok (u32 (h + Z.shiftl b 8)) else Ok h);
  if (n =? 3) || (n =? 2) || (n =? 1) then
    b ← of_option (data !! 0%nat);
    let h := u32 (h + b) in
    let h := u32 (h * m) in
    Ok (Z.lxor h (Z.shiftr h r))
  else Ok h.

Definition Hash (data : bytes) (seed : Z) : res Z :=
  let n := Slice.size data in
  let h := u32 (Z.lxor seed (u64 (n * m))) in
  '(h, data) ← words (S (length data)) data h;
  tail data h.
End Hash.

(** A policy appends the filter of some keys, and asks a filter about a key. *)
Class FilterPolicy := {
  CreateFilter : list bytes → bytes → res bytes;
  KeyMayMatch : bytes → bytes → res bool
}.

Module Bloom.

Definition BloomHash (key : bytes) : res Z := Hash.Hash key 0xbc9f1d34.

Record BloomFilterPolicy := mkBloom { bits_per_key_ : Z; k_ : Z }.

(** [bits_per_key * 0.69] in floating point, cut off. Below 31 the products by the
    [double] next to 0.69 have the same integer parts as those by 69/100, except
    that no conversion is defined for products of -1 and less. *)
Definition BloomFilterPolicy_new (bits_per_key : Z) : res BloomFilterPolicy :=
  if bits_per_key * 69 <=? -100 then UB
  else
    let k := Z.quot (bits_per_key * 69) 100 in
    let k := if k <? 1 then 1 else k in
    let k := if 30 <? k then 30 else k in
    Ok (mkBloom (u64 bits_per_key) k).

Definition rotate (h : Z) : Z := Z.lor (Z.shiftr h 17) (u32 (Z.shiftl h 15)).

(** [h % bits], as 32 bits. *)
Definition modulo (h bits : Z) : res Z := if bits =? 0 then UB else Ok (u32 (h mod bits)).

(** The probes of one key. *)
Fixpoint set_bits (k : nat) (array : bytes) (bits h delta : Z) : res bytes :=
  match k with
  | O => Ok array
  | S k' =>
      bitpos ← modulo h bits;
      b ← of_option (array !! Z.to_nat (bitpos / 8));
      let array := <[Z.to_nat (bitpos / 8) := u8 (Z.lor b (Z.shiftl 1 (bitpos mod 8)))]> array in
      set_bits k' array bits (u32 (h + delta)) delta
  end.

Fixpoint add_keys (k : Z) (keys : list bytes) (array : bytes) (bits : Z) : res bytes :=
  match keys with
  | [] => Ok array
  | key :: keys =>
      h ← BloomHash key;
      array ← set_bits (Z.to_nat k) array bits h (rotate h);
      add_keys k keys array bits
  end.

(** The array is the end of [*dst]; the probes are before its last byte. *)
Definition create (p : BloomFilterPolicy) (keys : list bytes) (dst : bytes) : res bytes :=
  let bits := u64 (Z.of_nat (length keys) * bits_per_key_ p) in
  let bits := if bits <? 64 then 64 else bits in
  let bytes := u64 (bits + 7) / 8 in
  let bits := u64 (bytes * 8) in
  array ← add_keys (k_ p) keys (replicate (Z.to_nat bytes) 0 ++ [u8 (k_ p)]) bits;
  Ok (dst ++ array).

Fixpoint test_bits (k : nat) (array : bytes) (bits h delta : Z) : res bool :=
  match k with
  | O => Ok true
  | S k' =>
      bitpos ← modulo h bits;
      b ← of_option (array !! Z.to_nat (bitpos / 8));
      if Z.land (s8 b) (Z.shiftl 1 (bitpos mod 8)) =? 0 then Ok false
      else test_bits k' array bits (u32 (h + delta)) delta
  end.

(** A [char] that is negative becomes a large [size_t]. *)
Definition may_match (key bloom_filter : bytes) : res bool :=
  let len := Slice.size bloom_filter in
  if len <? 2 then Ok false
  else
    let bits := u64 ((len - 1) * 8) in
    c ← of_option (bloom_filter !! Z.to_nat (len - 1));
    let k := u64 (s8 c) in
    if 30 <? k then Ok true
    else
      h ← BloomHash key;
      test_bits (Z.to_nat k) bloom_filter bits h (rotate h).

Definition policy (p : BloomFilterPolicy) : FilterPolicy :=
  {| CreateFilter := create p; KeyMayMatch := may_match |}.
End Bloom.

(** [InternalFilterPolicy]: the user's policy on the user keys of internal keys. *)
Fixpoint user_keys (keys : list bytes) : res (list bytes) :=
  match keys with
  | [] => Ok []
  | key :: keys => k ← Internal.ExtractUserKey key; rest ← user_keys keys; Ok (k :: rest)
  end.
Definition InternalFilterPolicy (user_policy_ : FilterPolicy) : FilterPolicy := {|
  CreateFilter keys dst := mkey ← user_keys keys; CreateFilter mkey dst;
  KeyMayMatch key f := k ← Internal.ExtractUserKey key; KeyMayMatch k f
|}.

Module FilterBlock.
Section filter_block.
Context {policy_ : FilterPolicy}.

Definition kFilterBaseLg : Z := 11.
Definition kFilterBase : Z := Z.shiftl 1 kFilterBaseLg.

(** * Building *)

(** [filter_offsets_] holds 32-bit integers. *)
Record FilterBlockBuilder := mkBuilder {
  keys_ : bytes; start_ : list Z; result_ : bytes; filter_offsets_ : list Z
}.
Definition Builder_new : FilterBlockBuilder := mkBuilder [] [] [] [].

(** The keys, from the flattened ones and their starting indices. *)
Fixpoint split_keys (keys : bytes) (start : list Z) : res (list bytes) :=
  match start with
  | s :: (s' :: _) as rest =>
      let length := u64 (s' - s) in
      if s + length <=? Slice.size keys then
        tmp_keys ← split_keys keys rest;
        Ok (take (Z.to_nat length) (drop (Z.to_nat s) keys) :: tmp_keys)
      else UB
  | _ => Ok []
  end.

Definition GenerateFilter (b : FilterBlockBuilder) : res FilterBlockBuilder :=
  let num_keys := length (start_ b) in
  let offsets := filter_offsets_ b ++ [u32 (Slice.size (result_ b))] in
  match num_keys with
  | O => Ok (mkBuilder (keys_ b) (start_ b) (result_ b) offsets)
  | _ =>
      tmp_keys_ ← split_keys (keys_ b) (start_ b ++ [Slice.size (keys_ b)]);
      result ← CreateFilter tmp_keys_ (result_ b);
      Ok (mkBuilder [] [] result offsets)
  end.

(** A filter per turn, until there are [filter_index]. *)
Fixpoint start_block_loop (n : nat) (filter_index : Z) (b : FilterBlockBuilder)
    : res FilterBlockBuilder :=
  if Z.of_nat (length (filter_offsets_ b)) <? filter_index then
    match n with
    | O => NoFuel
    | S n' => b ← GenerateFilter b; start_block_loop n' filter_index b
    end
  else Ok b.

Definition StartBlock (b : FilterBlockBuilder) (block_offset : Z) : res FilterBlockBuilder :=
  let filter_index := block_offset / kFilterBase in
  SkipList.assert_ (Z.of_nat (length (filter_offsets_ b)) <=? filter_index);;
  start_block_loop (Z.to_nat filter_index) filter_index b.

Definition AddKey (b : FilterBlockBuilder) (key : bytes) : FilterBlockBuilder :=
  mkBuilder (keys_ b ++ key) (start_ b ++ [Slice.size (keys_ b)]) (result_ b) (filter_offsets_ b).

Definition Finish (b : FilterBlockBuilder) : res bytes :=
  b ← (match start_ b with [] => Ok b | _ => GenerateFilter b end);
  let array_offset := u32 (Slice.size (result_ b)) in
  let result := fold_left Coding.PutFixed32 (filter_offsets_ b) (result_ b) in
  Ok (Coding.PutFixed32 result array_offset ++ [kFilterBaseLg]).

(** * Reading *)

(** [data_] and [offset_] are NULL while there are no filters ([num_ = 0]). *)
Record FilterBlockReader := mkReader { data_ : bytes; offset_ : Z; num_ : Z; base_lg_ : Z }.

Definition Reader_new (contents : bytes) : res FilterBlockReader :=
  let n := Slice.size contents in
  if n <? 5 then Ok (mkReader [] 0 0 0)
  else
    c ← of_option (contents !! Z.to_nat (n - 1));
    let base_lg := u64 (s8 c) in
    last_word ← Coding.DecodeFixed32 (drop (Z.to_nat (n - 5)) contents);
    if n - 5 <? last_word then Ok (mkReader [] 0 0 base_lg)
    else Ok (mkReader contents last_word ((n - 5 - last_word) / 4) base_lg).

(** A shift by the width or more is undefined. *)
Definition KeyMayMatch (r : FilterBlockReader) (block_offset : Z) (key : bytes) : res bool :=
  if 64 <=? base_lg_ r then UB
  else
    let index := Z.shiftr block_offset (base_lg_ r) in
    if index <? num_ r then
      start ← Coding.DecodeFixed32 (drop (Z.to_nat (offset_ r + index * 4)) (data_ r));
      limit ← Coding.DecodeFixed32 (drop (Z.to_nat (offset_ r + index * 4 + 4)) (data_ r));
      if (start <=? limit) && (limit <=? offset_ r) then
        let filter := take (Z.to_nat (limit - start)) (drop (Z.to_nat start) (data_ r)) in
        LdbFilter.KeyMayMatch key filter
      else if start =? limit then Ok false
      else Ok true
    else Ok true.
End filter_block.
End FilterBlock.
