(* ===== verification/LdbFilterProps.v ===== *)
(** Filters have no false negatives: a Bloom filter says yes to every key it was
    made of, and so does the filter block of a table to every key of each data
    block; asking a filter block of any contents is safe. *)
From Stdlib Require Import Sorting.Sorted.
From S2P Require Import Prelude LdbSkip LdbFormat LdbCodingProps LdbCrcProps LdbFilter.

(** * What a policy promises *)

(** On the keys of [dom]; a filter is made of fewer than 2^31 keys. *)
Class FilterLaws (P : FilterPolicy) (dom : bytes → Prop) : Prop := {
  no_false_negatives : ∀ keys dst,
    Forall dom keys → Z.of_nat (length keys) < 2 ^ 31 →
    ∃ f, CreateFilter keys dst = Ok (dst ++ f) ∧ Forall is_byte f ∧
      ∀ key, key ∈ keys → LdbFilter.KeyMayMatch key f = Ok true;
  may_match_total : ∀ key f,
    dom key → Forall is_byte f → Slice.size f < 2 ^ 60 → ∃ b, LdbFilter.KeyMayMatch key f = Ok b
}.

(** * Hashing *)

Lemma xor_shift h n : 0 <= n → 0 <= h < 2 ^ 32 → 0 <= Z.lxor h (Z.shiftr h n) < 2 ^ 32.
Proof.
  intros Hn Hh. apply lxor_bound; [lia|done|]. rewrite Z.shiftr_div_pow2 by done. split.
  - apply Z.div_pos; lia.
  - apply Z.div_lt_upper_bound; nia.
Qed.

Lemma words_total fuel : ∀ data h,
  (length data < fuel)%nat → 0 <= h < 2 ^ 32 →
  ∃ h' data', Hash.words fuel data h = Ok (h', data') ∧ 0 <= h' < 2 ^ 32 ∧ Slice.size data' < 4.
Proof.
  induction fuel as [|fuel IH]; intros data h Hf Hh; [lia|]. cbn [Hash.words].
  destruct (Z.leb_spec 4 (Slice.size data)) as [L|L]; [|by exists h, data].
  rewrite DecodeFixed32_ok by done. unfold mbind, res_bind. unfold Slice.size in L.
  apply IH; [rewrite length_drop; lia|]. apply xor_shift; [lia|]. apply u32_range.
Qed.

Lemma Hash_total data seed :
  0 <= seed < 2 ^ 32 → ∃ h, Hash.Hash data seed = Ok h ∧ 0 <= h < 2 ^ 32.
Proof.
  intros Hs. unfold Hash.Hash.
  destruct (words_total (S (length data)) data (u32 (Z.lxor seed (u64 (Slice.size data * Hash.m)))))
    as (h & rest & -> & Hh & Hr); [lia|apply u32_range|].
  unfold mbind, res_bind, Hash.tail, Slice.size in *.
  pose proof (u32_range) as Hu. pose proof (λ x, xor_shift (u32 x) Hash.r ltac:(done) (Hu x)) as Hx.
  destruct rest as [|a [|b [|c [|d rest]]]]; cbn [length Z.of_nat] in *; [..|lia];
    eexists; (split; [reflexivity|]); auto.
Qed.

Lemma BloomHash_total key : ∃ h, Bloom.BloomHash key = Ok h ∧ 0 <= h < 2 ^ 32.
Proof. apply Hash_total. lia. Qed.

(** * Bloom filters *)

(** Bits are added to the first [n] bytes. *)
Record grows (n : nat) (a a' : bytes) : Prop := {
  grows_length : length a' = length a;
  grows_bytes : Forall is_byte a';
  grows_bits : ∀ i b, a !! i = Some b →
    ∃ b', a' !! i = Some b' ∧ (∀ j, Z.testbit b j = true → Z.testbit b' j = true) ∧
      ((n <= i)%nat → b' = b)
}.

Lemma grows_refl n a : Forall is_byte a → grows n a a.
Proof. split; try done. intros i b Hi. by exists b. Qed.

Lemma grows_trans n a b c : grows n a b → grows n b c → grows n a c.
Proof.
  intros [L1 B1 G1] [L2 B2 G2]. split; [congruence|done|]. intros i x Hi.
  destruct (G1 i x Hi) as (y & Hy & T1 & E1). destruct (G2 i y Hy) as (z & Hz & T2 & E2).
  exists z. split; [done|]. split; [auto|]. intros Hn. by rewrite E2, E1.
Qed.

Lemma char_bit b j :
  is_byte b → 0 <= j < 8 → (Z.land (s8 b) (Z.shiftl 1 j) =? 0) = negb (Z.testbit b j).
Proof.
  intros Hb Hj.
  assert (Z.testbit (s8 b) j = Z.testbit b j) as Et.
  { rewrite <- (Z.mod_pow2_bits_low (s8 b) 8) by lia. unfold s8. rewrite swrap_mod by lia.
    by rewrite Z.mod_pow2_bits_low by lia. }
  assert (Z.land (s8 b) (Z.shiftl 1 j) = if Z.testbit b j then Z.shiftl 1 j else 0) as ->.
  { apply Z.bits_inj'. intros i Hi. rewrite Z.land_spec, Z.shiftl_1_l.
    rewrite Z.pow2_bits_eqb by lia. destruct (Z.eqb_spec j i) as [->|N].
    - rewrite Et, andb_true_r. destruct (Z.testbit b i); [|by rewrite Z.bits_0].
      by rewrite Z.pow2_bits_true.
    - rewrite andb_false_r. destruct (Z.testbit b j); [|by rewrite Z.bits_0].
      by rewrite Z.pow2_bits_false by lia. }
  destruct (Z.testbit b j); [|done]. cbn [negb]. apply Z.eqb_neq.
  rewrite Z.shiftl_1_l. pose proof (Z.pow_pos_nonneg 2 j). lia.
Qed.

Lemma set_bit_byte b j :
  is_byte b → 0 <= j < 8 →
  let b' := u8 (Z.lor b (Z.shiftl 1 j)) in
  is_byte b' ∧ Z.testbit b' j = true ∧ ∀ i, Z.testbit b i = true → Z.testbit b' i = true.
Proof.
  intros Hb Hj b'. unfold is_byte in *.
  assert (2 ^ j < 2 ^ 8) by (apply Z.pow_lt_mono_r; lia).
  assert (0 <= Z.lor b (Z.shiftl 1 j) < 2 ^ 8) as Hr
    by (rewrite Z.shiftl_1_l; apply lor_bound; [lia|lia|split; [apply Z.pow_nonneg; lia|done]]).
  assert (b' = Z.lor b (Z.shiftl 1 j)) as -> by (apply u8_small; lia).
  split; [lia|]. split.
  - by rewrite Z.lor_spec, Z.shiftl_1_l, Z.pow2_bits_true, orb_true_r by lia.
  - intros i Hi. by rewrite Z.lor_spec, Hi.
Qed.

Section probes.
Context (n : nat) (bits : Z) (Hbits : bits = 8 * Z.of_nat n) (Hn : (0 < n)%nat).

Lemma modulo_ok h : 0 <= h < 2 ^ 32 → Bloom.modulo h bits = Ok (h mod bits) ∧ 0 <= h mod bits < bits.
Proof.
  intros Hh. assert (0 <= h mod bits < bits) as Hm by (apply Z.mod_pos_bound; lia).
  split; [|done]. unfold Bloom.modulo. rewrite (proj2 (Z.eqb_neq bits 0)) by lia.
  rewrite u32_small; [done|]. split; [lia|]. apply Z.le_lt_trans with h; [|lia]. apply Z.mod_le; lia.
Qed.

Lemma probe_index p : 0 <= p < bits → (Z.to_nat (p / 8) < n)%nat.
Proof. intros Hp. Z.div_mod_to_equations. lia. Qed.

(** What was probed while setting is found while testing. *)
Lemma set_test k : ∀ a h delta,
  0 <= h < 2 ^ 32 → Forall is_byte a → (n < length a)%nat →
  ∃ a', Bloom.set_bits k a bits h delta = Ok a' ∧ grows n a a' ∧
    ∀ a2, grows n a' a2 → Bloom.test_bits k a2 bits h delta = Ok true.
Proof.
  induction k as [|k IH]; intros a h delta Hh Ha Hl.
  { exists a. split; [done|]. split; [by apply grows_refl|done]. }
  destruct (modulo_ok h Hh) as [Em Hp]. set (p := h mod bits) in *.
  pose proof (probe_index p Hp) as Hi. set (i := Z.to_nat (p / 8)) in *.
  destruct (lookup_lt_is_Some_2 a i ltac:(lia)) as [b Hb].
  assert (is_byte b) as Bb by (eapply list.Forall_lookup_1; eassumption).
  assert (0 <= p mod 8 < 8) as Hj by (apply Z.mod_pos_bound; lia).
  destruct (set_bit_byte b (p mod 8) Bb Hj) as (B' & T' & M'). set (b' := u8 _) in *.
  assert (grows n a (<[i := b']> a)) as G1.
  { split; [by rewrite length_insert|by apply list.Forall_insert|]. intros i' x Hx.
    destruct (decide (i' = i)) as [->|Ni].
    - exists b'. rewrite list_lookup_insert_eq by lia. rewrite Hb in Hx. injection Hx as <-.
      split; [done|]. split; [done|lia].
    - exists x. by rewrite list_lookup_insert_ne. }
  destruct (IH (<[i := b']> a) (u32 (h + delta)) delta (u32_range _)) as (a' & E & G2 & T);
    [by apply G1|by rewrite length_insert|].
  exists a'. cbn [Bloom.set_bits]. rewrite Em. unfold mbind, res_bind. fold i. rewrite Hb. cbn [of_option].
  split; [exact E|]. split; [by eapply grows_trans|]. intros a2 G3.
  cbn [Bloom.test_bits]. rewrite Em. unfold mbind, res_bind. fold i.
  destruct (grows_bits _ _ _ (grows_trans _ _ _ _ G2 G3) i b') as (c & Hc & Tc & _);
    [by rewrite list_lookup_insert_eq by lia|]. rewrite Hc. cbn [of_option].
  rewrite char_bit; [|by eapply list.Forall_lookup_1; [eapply grows_bytes|]|done].
  rewrite (Tc _ T'). cbn [negb]. by apply T.
Qed.

Lemma test_total k : ∀ a h delta,
  0 <= h < 2 ^ 32 → (n < length a)%nat → ∃ b, Bloom.test_bits k a bits h delta = Ok b.
Proof.
  induction k as [|k IH]; intros a h delta Hh Hl; [by exists true|]. cbn [Bloom.test_bits].
  destruct (modulo_ok h Hh) as [-> Hp]. unfold mbind, res_bind. pose proof (probe_index _ Hp).
  destruct (lookup_lt_is_Some_2 a (Z.to_nat (h mod bits / 8)) ltac:(lia)) as [b ->]. cbn [of_option].
  destruct (_ =? 0); [by exists false|]. apply IH; [apply u32_range|done].
Qed.

(** One key after the other. *)
Lemma add_keys_test k keys : ∀ a,
  Forall is_byte a → (n < length a)%nat →
  ∃ a', Bloom.add_keys k keys a bits = Ok a' ∧ grows n a a' ∧
    ∀ key a2 h, key ∈ keys → grows n a' a2 → Bloom.BloomHash key = Ok h →
      Bloom.test_bits (Z.to_nat k) a2 bits h (Bloom.rotate h) = Ok true.
Proof.
  induction keys as [|key keys IH]; intros a Ha Hl.
  { exists a. split; [done|]. split; [by apply grows_refl|]. intros key a2 h H. by apply not_elem_of_nil in H. }
  destruct (BloomHash_total key) as (h & Eh & Hh).
  destruct (set_test (Z.to_nat k) a h (Bloom.rotate h) Hh Ha Hl) as (a1 & E1 & G1 & T1).
  destruct (IH a1) as (a' & E2 & G2 & T2); [by apply G1|by rewrite (grows_length _ _ _ G1)|].
  exists a'. cbn [Bloom.add_keys]. rewrite Eh. unfold mbind, res_bind. rewrite E1.
  split; [exact E2|]. split; [by eapply grows_trans|].
  intros key' a2 h' Hin G3 Eh'. apply elem_of_cons in Hin as [->|Hin]; [|by eapply T2].
  rewrite Eh in Eh'. injection Eh' as <-. apply T1. by eapply grows_trans.
Qed.
End probes.

Lemma policy_new bits_per_key :
  0 <= bits_per_key < 2 ^ 31 →
  ∃ p, Bloom.BloomFilterPolicy_new bits_per_key = Ok p ∧
    Bloom.bits_per_key_ p = bits_per_key ∧ 1 <= Bloom.k_ p <= 30.
Proof.
  intros Hb. unfold Bloom.BloomFilterPolicy_new. rewrite (proj2 (Z.leb_gt _ _)) by lia.
  eexists. split; [reflexivity|]. cbn [Bloom.bits_per_key_ Bloom.k_].
  split; [apply u64_small; lia|]. set (q := Z.quot _ _). clearbody q.
  destruct (Z.ltb_spec q 1); [rewrite (proj2 (Z.ltb_ge 30 1)); lia|]. destruct (Z.ltb_spec 30 q); lia.
Qed.

(** The size of a filter. *)
Lemma filter_size keys bits_per_key :
  0 <= bits_per_key < 2 ^ 31 → 0 <= keys < 2 ^ 31 →
  let bits := u64 (keys * bits_per_key) in
  let bits := if bits <? 64 then 64 else bits in
  let bytes := u64 (bits + 7) / 8 in
  8 <= bytes < 2 ^ 60 ∧ u64 (bytes * 8) = 8 * Z.of_nat (Z.to_nat bytes).
Proof.
  intros Hb Hk. assert (0 <= keys * bits_per_key < 2 ^ 62) as Hm by nia.
  rewrite (u64_small (keys * _)) by lia. intros bits bits1 bytes.
  assert (64 <= bits1 < 2 ^ 62) as H1 by (unfold bits1, bits; destruct (Z.ltb_spec (keys * bits_per_key) 64); lia).
  assert (8 <= bytes < 2 ^ 60) as H2.
  { unfold bytes. rewrite u64_small by lia. Z.div_mod_to_equations. lia. }
  split; [done|]. rewrite u64_small by lia. lia.
Qed.

#[export] Instance bloom_laws bits_per_key p :
  0 <= bits_per_key < 2 ^ 31 → Bloom.BloomFilterPolicy_new bits_per_key = Ok p →
  FilterLaws (Bloom.policy p) (λ _, True).
Proof.
  intros Hb Ep. destruct (policy_new bits_per_key Hb) as (p' & Ep' & Eb & Hk).
  rewrite Ep in Ep'. injection Ep' as <-. split.
  - intros keys dst _ Hl. cbn [CreateFilter Bloom.policy]. unfold Bloom.create. rewrite Eb.
    destruct (filter_size (Z.of_nat (length keys)) bits_per_key Hb ltac:(lia)) as [Hs Eu]. revert Hs Eu.
    cbv zeta. set (bits := if _ <? 64 then _ else _). set (bytes := u64 (bits + 7) / 8). intros Hs Eu.
    set (n := Z.to_nat bytes) in *. assert (0 < n)%nat as Hn by (unfold n; lia).
    set (a := replicate n 0 ++ [u8 (Bloom.k_ p)]).
    assert (Forall is_byte a) as Ha.
    { apply List.Forall_app. split; [|by repeat constructor; apply u8_range].
      apply list.Forall_replicate. done. }
    assert (length a = S n) as La by (unfold a; rewrite length_app, length_replicate; cbn; lia).
    destruct (add_keys_test n (u64 (bytes * 8)) Eu Hn (Bloom.k_ p) keys a Ha ltac:(lia)) as (a' & E & G & T).
    rewrite E. unfold mbind, res_bind. exists a'. split; [done|]. split; [by apply G|].
    intros key Hin. cbn [LdbFilter.KeyMayMatch Bloom.policy]. unfold Bloom.may_match.
    pose proof (grows_length _ _ _ G) as L'. rewrite La in L'.
    assert (Slice.size a' = bytes + 1) as Es by (unfold Slice.size; rewrite L'; unfold n; lia).
    rewrite Es, (proj2 (Z.ltb_ge _ 2)) by lia. replace (bytes + 1 - 1) with bytes by lia.
    fold n. destruct (grows_bits _ _ _ G n (u8 (Bloom.k_ p))) as (c & Hc & _ & Ec).
    { unfold a. rewrite lookup_app_r by (rewrite length_replicate; lia).
      by rewrite length_replicate, Nat.sub_diag. }
    rewrite Hc, Ec by lia. cbn [of_option]. unfold mbind, res_bind.
    rewrite u8_small by lia. unfold s8. rewrite swrap_small by lia. rewrite u64_small by lia.
    rewrite (proj2 (Z.ltb_ge 30 _)) by lia.
    destruct (BloomHash_total key) as (h & Eh & Hh). rewrite Eh. rewrite Eu.
    rewrite <- Eu. apply (T key a' h Hin); [|done]. apply grows_refl, G.
  - intros key f _ Hf Hs. cbn [LdbFilter.KeyMayMatch Bloom.policy]. unfold Bloom.may_match.
    destruct (Z.ltb_spec (Slice.size f) 2) as [L|L]; [by exists false|].
    destruct (lookup_lt_is_Some_2 f (Z.to_nat (Slice.size f - 1))) as [c ->];
      [unfold Slice.size in *; lia|]. cbn [of_option]. unfold mbind, res_bind.
    destruct (30 <? _); [by exists true|].
    destruct (BloomHash_total key) as (h & -> & Hh).
    unfold Slice.size in *. apply (test_total (length f - 1)%nat); [|lia..].
    rewrite u64_small by lia. lia.
Qed.

(** * Filters on internal keys *)

Definition user_of (key : bytes) : bytes := take (length key - 8) key.
Definition internal_dom (dom : bytes → Prop) (key : bytes) : Prop :=
  8 <= Slice.size key ∧ dom (user_of key).

Lemma ExtractUserKey_ok key : 8 <= Slice.size key → Internal.ExtractUserKey key = Ok (user_of key).
Proof.
  intros H. unfold Internal.ExtractUserKey, user_of. unfold Slice.size in *.
  by rewrite (proj2 (Z.leb_le _ _)) by done.
Qed.

Lemma user_keys_ok dom keys :
  Forall (internal_dom dom) keys → user_keys keys = Ok (user_of <$> keys) ∧ Forall dom (user_of <$> keys).
Proof.
  induction 1 as [|key keys [H8 Hd] _ [IH1 IH2]]; [done|]. cbn [user_keys fmap list_fmap].
  rewrite ExtractUserKey_ok by done. unfold mbind, res_bind. rewrite IH1. split; [done|by constructor].
Qed.

#[export] Instance internal_laws P dom : FilterLaws P dom → FilterLaws (InternalFilterPolicy P) (internal_dom dom).
Proof.
  intros L. split.
  - intros keys dst Hk Hl. cbn [CreateFilter InternalFilterPolicy].
    destruct (user_keys_ok dom keys Hk) as [-> Hd]. unfold mbind at 1, res_bind at 1.
    destruct (no_false_negatives (user_of <$> keys) dst Hd) as (f & E & Hf & Hm); [by rewrite length_fmap|].
    exists f. split; [done|]. split; [done|]. intros key Hin. cbn [LdbFilter.KeyMayMatch InternalFilterPolicy].
    assert (8 <= Slice.size key) by by (rewrite list.Forall_forall in Hk; apply Hk).
    rewrite ExtractUserKey_ok by done. unfold mbind, res_bind. apply Hm. by apply list_elem_of_fmap_2.
  - intros key f [H8 Hd] Hf Hs. cbn [LdbFilter.KeyMayMatch InternalFilterPolicy].
    rewrite ExtractUserKey_ok by done. unfold mbind, res_bind. by apply may_match_total.
Qed.

(** * Building the filter block *)

Section block.
Context (P : FilterPolicy) (dom : bytes → Prop) (HL : FilterLaws P dom).
Import FilterBlock.

(** The keys of a filter, and the filter: nothing for no keys. *)
Abbreviation group := (list bytes * bytes)%type.
Definition group_ok (g : group) : Prop :=
  Forall is_byte g.2 ∧ ∀ key, key ∈ g.1 → LdbFilter.KeyMayMatch key g.2 = Ok true.

(** Where the parts of a concatenation start. *)
Fixpoint starts (o : Z) (l : list bytes) : list Z :=
  match l with [] => [] | x :: l => o :: starts (o + Slice.size x) l end.

Lemma starts_snoc l : ∀ o x, starts o (l ++ [x]) = starts o l ++ [o + Slice.size (concat l)].
Proof.
  induction l as [|y l IH]; intros o x; cbn [app starts concat]; [by rewrite Z.add_0_r|].
  rewrite IH. unfold Slice.size. rewrite length_app, Nat2Z.inj_add. cbn [app]. by rewrite Z.add_assoc.
Qed.

Lemma length_starts l : ∀ o, length (starts o l) = length l.
Proof. induction l as [|x l IH]; intros o; [done|]. cbn. by rewrite IH. Qed.

(** The builder holds the filters of [gs] and the keys [pending]. *)
Record holds (b : FilterBlockBuilder) (gs : list group) (pending : list bytes) : Prop := {
  holds_keys : keys_ b = concat pending;
  holds_start : start_ b = starts 0 pending;
  holds_result : result_ b = concat (gs.*2);
  holds_offsets : filter_offsets_ b = u32 <$> starts 0 (gs.*2);
  holds_groups : Forall group_ok gs
}.

Lemma builder_holds_new : holds Builder_new [] [].
Proof. by split. Qed.

Lemma holds_AddKey b gs pending key : holds b gs pending → holds (AddKey b key) gs (pending ++ [key]).
Proof.
  intros [H1 H2 H3 H4 H5]. split; cbn; try done.
  - rewrite H1, concat_app. cbn. by rewrite app_nil_r.
  - rewrite starts_snoc, H1, H2. done.
Qed.

(** The flattened keys are taken apart again. *)
Lemma split_keys_ok pending : ∀ pre,
  Slice.size (pre ++ concat pending) < 2 ^ 64 →
  split_keys (pre ++ concat pending) (starts (Slice.size pre) pending ++ [Slice.size (pre ++ concat pending)]) =
  Ok pending.
Proof.
  induction pending as [|key pending IH]; intros pre Hs; [done|].
  cbn [starts concat app] in *. specialize (IH (pre ++ key)). rewrite <- app_assoc in IH.
  assert (Slice.size (pre ++ key) = Slice.size pre + Slice.size key) as Es
    by (unfold Slice.size; rewrite length_app; lia).
  rewrite Es in IH. specialize (IH Hs).
  set (rest := starts _ pending ++ _) in *.
  assert (∃ tl, rest = (Slice.size pre + Slice.size key) :: tl) as [tl Etl].
  { unfold rest. destruct pending as [|k' pending]; cbn [starts app]; [|eauto].
    exists []. cbn [concat]. rewrite app_nil_r. by rewrite Es. }
  rewrite Etl in *. cbn [split_keys] in *.
  assert (0 <= Slice.size pre ∧ 0 <= Slice.size key) as [? ?] by (unfold Slice.size; lia).
  assert (Slice.size pre + Slice.size key <= Slice.size (pre ++ key ++ concat pending)) as Hle
    by (unfold Slice.size; rewrite !length_app; lia).
  replace (Slice.size pre + Slice.size key - Slice.size pre) with (Slice.size key) by lia.
  rewrite u64_small by lia. rewrite (proj2 (Z.leb_le _ _)) by lia.
  rewrite IH. unfold mbind, res_bind. do 2 f_equal.
  unfold Slice.size. rewrite !Nat2Z.id, drop_app_length. by rewrite take_app_length.
Qed.

(** Keys that fit in a filter. *)
Definition ready (keys : list bytes) : Prop :=
  Forall dom keys ∧ Z.of_nat (length keys) < 2 ^ 31 ∧ Slice.size (concat keys) < 2 ^ 64.

Lemma ready_app a b : ready (a ++ b) → ready a ∧ ready b.
Proof.
  unfold ready. rewrite concat_app. unfold Slice.size. rewrite !length_app.
  intros (Hf & Hl & Hs). apply List.Forall_app in Hf as [? ?]. split; (split; [done|lia]).
Qed.

Lemma ready_sublist a b : sublist a b → ready b → ready a.
Proof.
  intros Hs (Hf & Hl & Hz). unfold ready, Slice.size in *. split; [rewrite list.Forall_forall in Hf |- *; intros k Hk; apply Hf; by eapply elem_of_sublist|].
  pose proof (sublist_length _ _ Hs). split; [lia|]. enough (length (concat a) <= length (concat b))%nat by lia.
  clear - Hs. induction Hs as [|k a b Hs IH|k a b Hs IH]; cbn; rewrite ?length_app; lia.
Qed.

Lemma ready_perm a b : a ≡ₚ b → ready a → ready b.
Proof.
  intros Hp (Hf & Hl & Hz). unfold ready, Slice.size in *. by rewrite <- Hp.
Qed.

Lemma holds_GenerateFilter b gs pending :
  holds b gs pending → ready pending →
  ∃ b' f, GenerateFilter b = Ok b' ∧ holds b' (gs ++ [(pending, f)]) [].
Proof.
  intros [H1 H2 H3 H4 H5] (Hd & Hl & Hs). unfold GenerateFilter. rewrite H2, length_starts.
  destruct pending as [|key pending]; [|set (ks := key :: pending) in *].
  - eexists _, []. split; [reflexivity|]. split; cbn [keys_ start_ result_ filter_offsets_].
    + by rewrite H1.
    + done.
    + by rewrite fmap_app, concat_app, H3, app_nil_r.
    + rewrite fmap_app. cbn [fmap list_fmap snd]. by rewrite starts_snoc, fmap_app, H4, H3.
    + apply List.Forall_app. split; [done|]. constructor; [|done]. split; [constructor|].
      intros k Hk. by apply not_elem_of_nil in Hk.
  - cbn [length].
    assert (split_keys (keys_ b) (starts 0 ks ++ [Slice.size (keys_ b)]) = Ok ks) as ->
      by (rewrite H1; apply (split_keys_ok ks []); done).
    destruct (no_false_negatives ks (result_ b) Hd Hl) as (f & E & Hf & Hm).
    unfold mbind, res_bind. rewrite E. eexists _, f. split; [reflexivity|].
    split; cbn [keys_ start_ result_ filter_offsets_].
    + done.
    + done.
    + rewrite fmap_app, concat_app, H3. cbn. by rewrite app_nil_r.
    + rewrite fmap_app. cbn [fmap list_fmap snd]. by rewrite starts_snoc, fmap_app, H4, H3.
    + apply List.Forall_app. split; [done|]. by constructor.
Qed.

(** The key is, or will be, in the filter of number [i]. *)
Definition recorded (gs : list group) (pending : list bytes) (i : nat) (key : bytes) : Prop :=
  (∃ g, gs !! i = Some g ∧ key ∈ g.1) ∨ (i = length gs ∧ key ∈ pending).

Lemma recorded_generate gs pending f i key :
  recorded gs pending i key → recorded (gs ++ [(pending, f)]) [] i key.
Proof.
  intros [(g & Hg & Hk)|[-> Hk]]; left.
  - exists g. split; [|done]. by apply lookup_app_l_Some.
  - exists (pending, f). split; [|done]. by apply list_lookup_middle.
Qed.

Lemma holds_StartBlock b gs pending off :
  holds b gs pending → ready pending → Z.of_nat (length gs) <= off / 2048 →
  ∃ b' gs' pending', StartBlock b off = Ok b' ∧ holds b' gs' pending' ∧
    Z.of_nat (length gs') = off / 2048 ∧ (pending' = pending ∨ pending' = []) ∧
    ∀ i key, recorded gs pending i key → recorded gs' pending' i key.
Proof.
  intros Hb Hr Hle. unfold StartBlock. change kFilterBase with 2048.
  assert (∀ b gs pending, holds b gs pending → length (filter_offsets_ b) = length gs) as Hlen.
  { intros b0 gs0 p0 H0. by rewrite (holds_offsets _ _ _ H0), length_fmap, length_starts, length_fmap. }
  rewrite (Hlen _ _ _ Hb), (proj2 (Z.leb_le _ _)) by done. cbn [SkipList.assert_].
  unfold mbind, res_bind. set (idx := off / 2048) in *.
  assert (idx - Z.of_nat (length gs) <= Z.of_nat (Z.to_nat idx)) as Hn by lia.
  revert Hn. generalize (Z.to_nat idx) as n. intros n. revert b gs pending Hb Hr Hle.
  induction n as [|n IH]; intros b gs pending Hb Hr Hle Hn; cbn [start_block_loop];
    rewrite (Hlen _ _ _ Hb); destruct (Z.ltb_spec (Z.of_nat (length gs)) idx) as [L|L]; try lia;
    try (exists b, gs, pending; split; [done|split; [done|split; [lia|by split; [left|]]]]).
  destruct (holds_GenerateFilter b gs pending Hb Hr) as (b1 & f & -> & Hb1). unfold mbind, res_bind.
  destruct (IH b1 (gs ++ [(pending, f)]) [] Hb1) as (b' & gs' & p' & E & Hb' & El & Ep & Hrec);
    [by split|rewrite length_app; cbn; lia|rewrite length_app; cbn; lia|].
  exists b', gs', p'. split; [done|]. split; [done|]. split; [done|].
  split; [right; by destruct Ep|]. intros i key Hi. by apply Hrec, recorded_generate.
Qed.

(** Blocks, each with its keys. *)
Fixpoint add_blocks (b : FilterBlockBuilder) (blocks : list (Z * list bytes)) : res FilterBlockBuilder :=
  match blocks with
  | [] => Ok b
  | (off, keys) :: blocks => b ← StartBlock b off; add_blocks (fold_left AddKey keys b) blocks
  end.

Lemma holds_AddKeys keys : ∀ b gs pending,
  holds b gs pending → holds (fold_left AddKey keys b) gs (pending ++ keys).
Proof.
  induction keys as [|key keys IH]; intros b gs pending Hb; cbn [fold_left]; [by rewrite app_nil_r|].
  rewrite (cons_middle key pending keys), app_assoc. by apply IH, holds_AddKey.
Qed.

Lemma recorded_more gs pending keys i key : recorded gs pending i key → recorded gs (pending ++ keys) i key.
Proof. intros [H|[-> H]]; [by left|right]. split; [done|]. apply elem_of_app. by left. Qed.

Lemma holds_add_blocks blocks : ∀ b gs pending,
  holds b gs pending → ready (pending ++ concat (blocks.*2)) →
  Forall (λ bl, Z.of_nat (length gs) <= bl.1 / 2048) blocks → StronglySorted Z.le (blocks.*1) →
  ∃ b' gs' pending', add_blocks b blocks = Ok b' ∧ holds b' gs' pending' ∧ ready pending' ∧
    (∀ i key, recorded gs pending i key → recorded gs' pending' i key) ∧
    ∀ off keys key, (off, keys) ∈ blocks → key ∈ keys →
      recorded gs' pending' (Z.to_nat (off / 2048)) key.
Proof.
  induction blocks as [|[off keys] blocks IH]; intros b gs pending Hb Hr Hlo Hs.
  { exists b, gs, pending. cbn in Hr. rewrite app_nil_r in Hr. split_and!; try done.
    intros off keys key Hin. by apply not_elem_of_nil in Hin. }
  cbn [fmap list_fmap fst snd concat add_blocks] in *. apply list.Forall_cons in Hlo as [Hoff _].
  inversion Hs as [|? ? Hs' Hall]; subst.
  destruct (ready_app _ _ Hr) as [Hrp _].
  destruct (holds_StartBlock b gs pending off Hb Hrp Hoff) as (b1 & gs1 & p1 & -> & Hb1 & El & Ep & Hrec).
  unfold mbind, res_bind.
  destruct (IH (fold_left AddKey keys b1) gs1 (p1 ++ keys)) as (b' & gs' & p' & E & Hb' & Hr' & Hrec' & Hall').
  - by apply holds_AddKeys.
  - rewrite <- app_assoc. destruct Ep as [->| ->]; [done|]. by destruct (ready_app _ _ Hr).
  - rewrite El. rewrite list.Forall_fmap in Hall. eapply list.Forall_impl; [exact Hall|].
    intros [o ks] Ho. cbn in *. apply Z.div_le_mono; lia.
  - done.
  - exists b', gs', p'. split; [done|]. split; [done|]. split; [done|]. split.
    + intros i key Hi. by apply Hrec', recorded_more, Hrec.
    + intros o ks key Hin Hk. apply elem_of_cons in Hin as [[= -> ->]|Hin]; [|by eapply Hall'].
      apply Hrec'. right. split; [lia|]. apply elem_of_app. by right.
Qed.

(** * Reading the filter block *)

Lemma starts_lookup l : ∀ o i,
  (i < length l)%nat → starts o l !! i = Some (o + Slice.size (concat (take i l))).
Proof.
  induction l as [|x l IH]; intros o i Hi; cbn [length] in Hi; [lia|].
  destruct i as [|i]; [cbn; by rewrite Z.add_0_r|]. cbn [starts lookup list_lookup take concat].
  change ((o :: starts (o + Slice.size x) l) !! S i) with (starts (o + Slice.size x) l !! i).
  rewrite IH by lia. f_equal. unfold Slice.size. rewrite length_app. lia.
Qed.

(** The layout of a filter block. *)
Lemma Finish_ok b gs pending :
  holds b gs pending → ready pending →
  ∃ gs', Finish b = Ok (concat (gs'.*2) ++ words (u32 <$> starts 0 (gs'.*2 ++ [[]])) ++ [kFilterBaseLg]) ∧
    Forall group_ok gs' ∧ ∀ i key, recorded gs pending i key → ∃ g, gs' !! i = Some g ∧ key ∈ g.1.
Proof.
  intros Hb Hr.
  assert (∃ b' gs', (match start_ b with [] => Ok b | _ => GenerateFilter b end) = Ok b' ∧ holds b' gs' [] ∧
    ∀ i key, recorded gs pending i key → recorded gs' [] i key) as (b' & gs' & E & Hb' & Hrec).
  { rewrite (holds_start _ _ _ Hb). destruct pending as [|key pending]; cbn [starts].
    - by exists b, gs.
    - destruct (holds_GenerateFilter b gs _ Hb Hr) as (b' & f & E & Hb').
      exists b', (gs ++ [(key :: pending, f)]). split; [done|]. split; [done|].
      intros i k. apply recorded_generate. }
  exists gs'. unfold Finish. rewrite E. unfold mbind, res_bind. destruct Hb' as [H1 H2 H3 H4 H5].
  rewrite fold_PutFixed32. unfold Coding.PutFixed32 at 1, Coding.EncodeFixed32.
  split.
  - rewrite H4, H3, starts_snoc, fmap_app, words_app. cbn [fmap list_fmap words concat].
    rewrite app_nil_r, Z.add_0_l, <- !app_assoc. do 3 f_equal.
  - split; [done|]. intros i key Hi. destruct (Hrec i key Hi) as [Hg|[_ Hk]]; [done|].
    by apply not_elem_of_nil in Hk.
Qed.

Lemma take_drop_part (l : list bytes) i f t :
  l !! i = Some f →
  take (length f) (drop (length (concat (take i l))) (concat l ++ t)) = f.
Proof.
  intros Hi. rewrite <- (take_drop_middle l i f Hi) at 2. rewrite concat_app, <- app_assoc.
  rewrite drop_app_length. cbn [concat]. by rewrite <- app_assoc, take_app_length.
Qed.

Lemma KeyMayMatch_found (gs : list group) i g off key :
  let contents := concat (gs.*2) ++ words (u32 <$> starts 0 (gs.*2 ++ [[]])) ++ [kFilterBaseLg] in
  Slice.size contents < 2 ^ 32 → 0 <= off → gs !! i = Some g → Z.of_nat i = off / 2048 →
  ∃ r, Reader_new contents = Ok r ∧
    KeyMayMatch (policy_ := P) r off key = LdbFilter.KeyMayMatch key g.2.
Proof.
  intros contents Hs Ho Hg Hi. set (fs := gs.*2) in *. set (R := concat fs).
  set (W := u32 <$> starts 0 (fs ++ [[]])) in *.
  assert (contents = R ++ words W ++ [kFilterBaseLg]) as Ec by done. clearbody contents.
  assert (length W = S (length gs)) as LW
    by (unfold W, fs; rewrite length_fmap, length_starts, length_app, length_fmap; cbn; lia).
  assert (Slice.size contents = Slice.size R + 4 * Z.of_nat (length gs) + 5) as Es.
  { rewrite Ec. unfold Slice.size. rewrite !length_app, length_words, LW. cbn [length]. lia. }
  assert (0 <= Slice.size R) as HR by (unfold Slice.size; lia).
  assert (∀ j w, W !! j = Some w →
    Coding.DecodeFixed32 (drop (Z.to_nat (Slice.size R + Z.of_nat j * 4)) contents) = Ok w) as Hword.
  { intros j w Hj. replace (Z.to_nat (Slice.size R + Z.of_nat j * 4)) with (length R + 4 * j)%nat
      by (unfold Slice.size; lia).
    rewrite Ec, <- drop_drop, drop_app_length.
    destruct (drop_words W j w [kFilterBaseLg] Hj) as [t' ->]. apply DecodeFixed32_word.
    unfold W in Hj. apply list_lookup_fmap_Some in Hj as (x & -> & _). apply u32_range. }
  assert (∀ j, (j <= length gs)%nat → W !! j = Some (Slice.size (concat (take j fs)))) as HW.
  { intros j Hj. unfold W. rewrite list_lookup_fmap, starts_lookup
      by (rewrite length_app; unfold fs; rewrite length_fmap; cbn; lia).
    cbn [fmap option_fmap option_map]. f_equal. rewrite take_app_le by (unfold fs; rewrite length_fmap; lia).
    rewrite Z.add_0_l. apply u32_small. split; [unfold Slice.size; lia|].
    assert (Slice.size (concat (take j fs)) <= Slice.size R); [|lia].
    unfold R, Slice.size. rewrite <- (take_drop j fs) at 2. rewrite concat_app, length_app. lia. }
  pose proof (lookup_lt_Some _ _ _ Hg) as Hlt.
  unfold Reader_new. rewrite (proj2 (Z.ltb_ge _ 5)) by lia.
  assert (contents !! Z.to_nat (Slice.size contents - 1) = Some kFilterBaseLg) as ->.
  { rewrite Es, Ec, app_assoc. apply list_lookup_middle.
    rewrite length_app, length_words, LW. unfold Slice.size. lia. }
  cbn [of_option]. unfold mbind, res_bind. change (u64 (s8 kFilterBaseLg)) with 11.
  replace (Slice.size contents - 5) with (Slice.size R + Z.of_nat (length gs) * 4) by lia.
  rewrite (Hword (length gs) _ (HW _ (le_n _))).
  assert (take (length gs) fs = fs) as -> by (apply firstn_all2; unfold fs; by rewrite length_fmap).
  fold R. rewrite (proj2 (Z.ltb_ge _ _)) by lia.
  replace ((Slice.size R + Z.of_nat (length gs) * 4 - Slice.size R) / 4) with (Z.of_nat (length gs))
    by (replace (Slice.size R + _ - _) with (Z.of_nat (length gs) * 4) by lia; by rewrite Z.div_mul).
  eexists. split; [reflexivity|]. unfold KeyMayMatch. cbn [base_lg_ num_ offset_ data_].
  change (64 <=? 11) with false. cbv iota.
  rewrite Z.shiftr_div_pow2 by lia. change (2 ^ 11) with 2048. rewrite <- Hi.
  rewrite (proj2 (Z.ltb_lt _ _)) by lia.
  rewrite (Hword i _ (HW i ltac:(lia))). unfold mbind, res_bind.
  replace (Slice.size R + Z.of_nat i * 4 + 4) with (Slice.size R + Z.of_nat (S i) * 4) by lia.
  rewrite (Hword (S i) _ (HW (S i) ltac:(lia))).
  assert (fs !! i = Some g.2) as Hf by (unfold fs; by rewrite list_lookup_fmap, Hg).
  rewrite (take_S_r _ _ _ Hf), concat_app. cbn [concat]. rewrite app_nil_r.
  assert (Slice.size (concat (take i fs) ++ g.2) = Slice.size (concat (take i fs)) + Slice.size g.2) as ->
    by (unfold Slice.size; rewrite length_app; lia).
  assert (Slice.size (concat (take i fs)) + Slice.size g.2 <= Slice.size R).
  { unfold R, Slice.size. rewrite <- (take_drop_middle fs i _ Hf) at 2. rewrite concat_app, length_app.
    cbn [concat]. rewrite length_app. lia. }
  assert (0 <= Slice.size g.2) by (unfold Slice.size; lia).
  rewrite (proj2 (Z.leb_le _ _)), (proj2 (Z.leb_le _ _)) by lia. cbn [andb]. f_equal.
  replace (Z.to_nat _) with (length g.2) by (unfold Slice.size; lia).
  unfold Slice.size. rewrite Nat2Z.id, Ec. by apply take_drop_part.
Qed.
End block.

Import FilterBlock.

(** C29: no false negatives, policy by policy. A Bloom filter made by
    [BloomFilterPolicy::CreateFilter] for any list of keys is appended to the string,
    and matches each of the keys; asking it, or any other bytes, about any key returns.
    The same holds of internal keys with the policy that looks at their user keys. *)
Theorem bloom_filter bits_per_key :
  0 <= bits_per_key < 2 ^ 31 →
  ∃ p, Bloom.BloomFilterPolicy_new bits_per_key = Ok p ∧
    FilterLaws (Bloom.policy p) (λ _, True) ∧
    FilterLaws (InternalFilterPolicy (Bloom.policy p)) (λ key, 8 <= Slice.size key).
Proof.
  intros Hb. destruct (policy_new bits_per_key Hb) as (p & Ep & _). exists p. split; [done|].
  pose proof (bloom_laws bits_per_key p Hb Ep) as HL. split; [done|].
  destruct (internal_laws _ _ HL) as [H1 H2]. split.
  - intros keys dst Hk. apply H1. eapply list.Forall_impl; [exact Hk|]. by split.
  - intros key f Hk. apply H2. by split.
Qed.

Lemma bloom_filter_witness :
  0 <= 10 < 2 ^ 31 ∧ ∃ p, Bloom.BloomFilterPolicy_new 10 = Ok p ∧ Bloom.k_ p = 6 ∧
    ∃ f, Bloom.create p [[1; 2]; [3; 4; 5; 6; 7]] [9] = Ok ([9] ++ f) ∧ length f = 9%nat ∧
      Bloom.may_match [1; 2] f = Ok true ∧ Bloom.may_match [1; 3] f = Ok false.
Proof.
  split; [lia|]. destruct (bloom_filter 10 ltac:(lia)) as (p & Ep & [H1 _] & _).
  exists p. split; [exact Ep|]. vm_compute in Ep. injection Ep as <-. split; [reflexivity|].
  destruct (H1 [[1; 2]; [3; 4; 5; 6; 7]] [9]) as (f & E & _ & Hm);
    [repeat constructor|reflexivity|].
  exists f. split; [exact E|]. assert (Bloom.may_match [1; 2] f = Ok true) as E1 by (apply Hm; left).
  vm_compute in E. injection E as <-. split; [reflexivity|]. split; [exact E1|reflexivity].
Defined.

Lemma Reader_new_any contents :
  Forall is_byte contents → ∃ r, Reader_new contents = Ok r ∧
    0 <= base_lg_ r ∧ (0 < num_ r → data_ r = contents ∧ 0 <= offset_ r ∧
      offset_ r + 4 * num_ r + 5 <= Slice.size contents).
Proof.
  intros Hb. unfold Reader_new. destruct (Z.ltb_spec (Slice.size contents) 5) as [L|L].
  { eexists. split; [reflexivity|]. cbn. split; lia. }
  destruct (lookup_lt_is_Some_2 contents (Z.to_nat (Slice.size contents - 1))) as [c ->];
    [unfold Slice.size in *; lia|]. cbn [of_option]. unfold mbind, res_bind.
  rewrite DecodeFixed32_ok by (unfold Slice.size in *; rewrite length_drop; lia).
  set (w := take 4 _). assert (Forall is_byte w) as Hw by (by apply Forall_take, Forall_drop).
  pose proof (le_of_bytes_bound w Hw) as Hr. set (last_word := le_of_bytes w) in *.
  pose proof (u64_range (s8 c)).
  destruct (Z.ltb_spec (Slice.size contents - 5) last_word) as [L1|L1];
    (eexists; split; [reflexivity|]); cbn [base_lg_ num_ data_ offset_]; (split; [lia|]); intros Hn;
    [lia|].
  split; [done|]. split; [lia|]. Z.div_mod_to_equations. lia.
Qed.

Lemma KeyMayMatch_any P dom (HL : FilterLaws P dom) contents r off key :
  Forall is_byte contents → Slice.size contents < 2 ^ 60 → Reader_new contents = Ok r →
  base_lg_ r < 64 → 0 <= off → dom key → ∃ b, KeyMayMatch (policy_ := P) r off key = Ok b.
Proof.
  intros Hb Hs Er H64 Ho Hk. destruct (Reader_new_any contents Hb) as (r' & Er' & Hlg & Hnum).
  rewrite Er in Er'. injection Er' as <-. unfold KeyMayMatch.
  rewrite (proj2 (Z.leb_gt _ _)) by lia.
  assert (0 <= Z.shiftr off (base_lg_ r)) as Hi by by apply Z.shiftr_nonneg.
  set (i := Z.shiftr off (base_lg_ r)) in *.
  destruct (Z.ltb_spec i (num_ r)) as [L|L]; [|by exists true].
  destruct (Hnum ltac:(lia)) as (Ed & H0 & Hn).
  rewrite !DecodeFixed32_ok by (rewrite Ed; unfold Slice.size in *; rewrite length_drop; lia).
  unfold mbind, res_bind. set (start := le_of_bytes _). set (limit := le_of_bytes _).
  destruct (_ && _) eqn:E; [|destruct (start =? limit); eauto].
  apply (may_match_total (FilterLaws := HL)); [done| |].
  - apply Forall_take, Forall_drop. by rewrite Ed.
  - unfold Slice.size in *. rewrite length_take, length_drop, Ed. lia.
Qed.

(** The filter block of a table. The keys of the data blocks are given to the
    builder block by block, at growing offsets, under any policy with the promise of
    policies. The builder ends; and a reader of the block it made answers yes for each
    key of a data block at the block's offset. A reader of any contents whatever
    returns for every offset and key, unless the parameter in the last byte
    is 64 or more, for which the shift of the code is undefined. *)
Theorem filter_block_correct (P : FilterPolicy) (dom : bytes → Prop) (blocks : list (Z * list bytes)) :
  FilterLaws P dom →
  Forall (λ bl, 0 <= bl.1) blocks → StronglySorted Z.le (blocks.*1) →
  Forall dom (concat (blocks.*2)) → Z.of_nat (length (concat (blocks.*2))) < 2 ^ 31 →
  Slice.size (concat (concat (blocks.*2))) < 2 ^ 64 →
  (∃ b contents, add_blocks P Builder_new blocks = Ok b ∧ Finish (policy_ := P) b = Ok contents ∧
    (Slice.size contents < 2 ^ 32 →
      ∀ off keys key, (off, keys) ∈ blocks → key ∈ keys →
        ∃ r, Reader_new contents = Ok r ∧ KeyMayMatch (policy_ := P) r off key = Ok true)) ∧
  ∀ contents, Forall is_byte contents → Slice.size contents < 2 ^ 60 →
    ∃ r, Reader_new contents = Ok r ∧
      (base_lg_ r < 64 → ∀ off key, 0 <= off → dom key →
        ∃ b, KeyMayMatch (policy_ := P) r off key = Ok b).
Proof.
  intros HL Hoff Hs Hd Hl Hsz. split.
  - destruct (holds_add_blocks P dom HL blocks Builder_new [] [] (builder_holds_new P)) as
      (b & gs & pending & E & Hb & Hr & _ & Hrec); [done| |done|].
    { eapply list.Forall_impl; [exact Hoff|]. intros [off keys] Ho. cbn in *. by apply Z.div_pos. }
    destruct (Finish_ok P dom HL b gs pending Hb Hr) as (gs' & Ef & Hg & Hin).
    eexists b, _. split; [done|]. split; [exact Ef|]. intros Hsize off keys key Hbl Hk.
    destruct (Hin _ _ (Hrec off keys key Hbl Hk)) as (g & Hgi & Hkg).
    assert (0 <= off) as Ho by (rewrite list.Forall_forall in Hoff; apply (Hoff _ Hbl)).
    destruct (KeyMayMatch_found P gs' (Z.to_nat (off / 2048)) g off key Hsize Ho Hgi) as (r & Er & E2).
    { rewrite Z2Nat.id; [done|]. by apply Z.div_pos. }
    exists r. split; [done|]. rewrite E2. rewrite list.Forall_forall in Hg.
    apply (Hg g); [|done]. by eapply list_elem_of_lookup_2.
  - intros contents Hb Hsz'. destruct (Reader_new_any contents Hb) as (r & Er & _).
    exists r. split; [done|]. intros. by eapply KeyMayMatch_any.
Qed.

Definition example_policy : FilterPolicy := Bloom.policy (Bloom.mkBloom 10 6).
Definition example_blocks : list (Z * list bytes) := [(0, [[1; 2]]); (100, [[3]]); (5000, [[4]; [5]])].

Lemma filter_block_correct_witness :
  FilterLaws example_policy (λ _, True) ∧
  ∃ b contents, add_blocks example_policy Builder_new example_blocks = Ok b ∧
    Finish (policy_ := example_policy) b = Ok contents ∧ length contents = 35%nat ∧
    (∃ r, Reader_new contents = Ok r ∧ KeyMayMatch (policy_ := example_policy) r 100 [3] = Ok true) ∧
    ∃ r, Reader_new contents = Ok r ∧ KeyMayMatch (policy_ := example_policy) r 100 [4] = Ok false.
Proof.
  assert (FilterLaws example_policy (λ _, True)) as HL by (by apply (bloom_laws 10)).
  split; [exact HL|].
  destruct (filter_block_correct example_policy (λ _, True) example_blocks HL) as [(b & contents & E & Ef & Hm) _];
    [repeat constructor; cbn; lia|repeat constructor; cbn; lia|repeat constructor|reflexivity|reflexivity|].
  exists b, contents. split; [exact E|]. split; [exact Ef|].
  assert (length contents = 35%nat) as El.
  { vm_compute in E. injection E as <-. vm_compute in Ef. by injection Ef as <-. }
  split; [exact El|]. split.
  - apply (Hm ltac:(unfold Slice.size; rewrite El; reflexivity) 100 [[3]] [3]);
      [by right; left|by left].
  - vm_compute in E. injection E as <-. vm_compute in Ef. injection Ef as <-.
    eexists. split; [reflexivity|]. vm_compute. reflexivity.
Defined.
