(* ===== verification/LdbIterator.v ===== *)
(** LevelDB's iterators ([include/leveldb/iterator.h], [table/iterator.cc]): the
    interface, what it promises, and the empty iterator. *)
From S2P Require Import Prelude LdbSkip LdbSkipLemmas LdbFormat.
Import Status.

(** The virtual functions. *)
Class Iterator (I : Type) := {
  Valid : I → bool;
  SeekToFirst : I → res I;
  SeekToLast : I → res I;
  Seek : bytes → I → res I;
  Next : I → res I;
  Prev : I → res I;
  key : I → res bytes;
  value : I → res bytes;
  status : I → Status
}.

#[export] Hint Mode Iterator ! : typeclass_instances.

Record EmptyIterator := mkEmpty { status_ : Status }.

#[export] Instance empty_iterator : Iterator EmptyIterator := {|
  Valid _ := false;
  SeekToFirst s := Ok s;
  SeekToLast s := Ok s;
  Seek _ s := Ok s;
  Next _ := UB;
  Prev _ := UB;
  key _ := UB;
  value _ := UB;
  status s := status_ s
|}.

Definition NewEmptyIterator : EmptyIterator := mkEmpty OK.
Definition NewErrorIterator (s : Status) : EmptyIterator := mkEmpty s.

(** A pointer to an iterator of one class or another. *)
#[export] Instance sum_iterator {A B} `{Iterator A, Iterator B} : Iterator (A + B) := {|
  Valid s := match s with inl s => Valid s | inr s => Valid s end;
  SeekToFirst s := match s with inl s => s ← SeekToFirst s; Ok (inl s) | inr s => s ← SeekToFirst s; Ok (inr s) end;
  SeekToLast s := match s with inl s => s ← SeekToLast s; Ok (inl s) | inr s => s ← SeekToLast s; Ok (inr s) end;
  Seek t s := match s with inl s => s ← Seek t s; Ok (inl s) | inr s => s ← Seek t s; Ok (inr s) end;
  Next s := match s with inl s => s ← Next s; Ok (inl s) | inr s => s ← Next s; Ok (inr s) end;
  Prev s := match s with inl s => s ← Prev s; Ok (inl s) | inr s => s ← Prev s; Ok (inr s) end;
  key s := match s with inl s => key s | inr s => key s end;
  value s := match s with inl s => value s | inr s => value s end;
  status s := match s with inl s => status s | inr s => status s end
|}.

(** * The contract

    An iterator over the entries [l], ordered by their keys, is at an entry or at
    none ([at_]); from any state that is [ready] it can be positioned. *)
Abbreviation entries := (list (bytes * bytes)).

Definition pos_at (l : entries) (i : nat) : option nat :=
  if bool_decide (i < length l)%nat then Some i else None.
Definition pos_before (i : nat) : option nat := match i with O => None | S j => Some j end.

Section contract.
Context `{ord : Comparator bytes}.

(** How many entries come before [t]. *)
Fixpoint seek_index (l : entries) (t : bytes) : nat :=
  match l with
  | [] => 0
  | e :: l => if compare_ e.1 t <? 0 then S (seek_index l t) else 0
  end.

Definition ascending (l : entries) : Prop := Sorted.StronglySorted (λ a b, compare_ a b < 0) (l.*1).

Class Iterates (I : Type) `{Iterator I} (l : entries) (target : bytes → Prop)
    (ready : I → Prop) (at_ : I → option nat → Prop) : Prop := {
  it_ready s p : at_ s p → ready s;
  it_status s : ready s → status s = OK;
  it_valid s p : at_ s p → Valid s = bool_decide (is_Some p);
  it_entry s i : at_ s (Some i) → ∃ e, l !! i = Some e ∧ key s = Ok e.1 ∧ value s = Ok e.2;
  it_first s : ready s → ∃ s', SeekToFirst s = Ok s' ∧ at_ s' (pos_at l 0);
  it_last s : ready s → ∃ s', SeekToLast s = Ok s' ∧ at_ s' (pos_before (length l));
  it_seek s t : ready s → target t → ∃ s', Seek t s = Ok s' ∧ at_ s' (pos_at l (seek_index l t));
  it_next s i : at_ s (Some i) → ∃ s', Next s = Ok s' ∧ at_ s' (pos_at l (S i));
  it_prev s i : at_ s (Some i) → ∃ s', Prev s = Ok s' ∧ at_ s' (pos_before i)
}.

#[export] Instance empty_iterates target :
  Iterates EmptyIterator [] target (λ s, status_ s = OK) (λ s p, status_ s = OK ∧ p = None).
Proof.
  split; cbn.
  - by intros s p [].
  - done.
  - by intros s p [_ ->].
  - by intros s i [].
  - intros s Hs. by exists s.
  - intros s Hs. by exists s.
  - intros s t Hs _. by exists s.
  - by intros s i [].
  - by intros s i [].
Qed.

Lemma pos_at_lt l i : (i < length l)%nat → pos_at l i = Some i.
Proof. intros. unfold pos_at. by rewrite bool_decide_eq_true_2. Qed.

Lemma pos_at_ge l i : (length l <= i)%nat → pos_at l i = None.
Proof. intros. unfold pos_at. rewrite bool_decide_eq_false_2; [done|lia]. Qed.

(** * What a client sees of an iterator that keeps it *)
Section client.
Context {I : Type} `{Iterates I l target ready at_}.

(** The entries from here on, and from here back. *)
Fixpoint forward (n : nat) (s : I) : res entries :=
  match n with
  | O => NoFuel
  | S n' =>
      if Valid s then
        k ← key s; v ← value s; s ← Next s; rest ← forward n' s; Ok ((k, v) :: rest)
      else Ok []
  end.
Fixpoint backward (n : nat) (s : I) : res entries :=
  match n with
  | O => NoFuel
  | S n' =>
      if Valid s then
        k ← key s; v ← value s; s ← Prev s; rest ← backward n' s; Ok ((k, v) :: rest)
      else Ok []
  end.

Lemma forward_from n : ∀ s i, at_ s (pos_at l i) → (length l - i < n)%nat → forward n s = Ok (drop i l).
Proof.
  induction n as [|n IH]; intros s i Ha Hn; [lia|]. cbn [forward]. rewrite (it_valid s _ Ha).
  destruct (decide (i < length l)%nat) as [L|L].
  - rewrite pos_at_lt in Ha |- * by done. rewrite bool_decide_eq_true_2 by done.
    destruct (it_entry s i Ha) as (e & He & -> & ->). unfold mbind, res_bind.
    destruct (it_next s i Ha) as (s' & -> & Ha'). rewrite (IH s' (S i) Ha') by lia.
    rewrite (drop_S _ _ _ He). by destruct e.
  - rewrite pos_at_ge by lia. by rewrite skipn_all2 by lia.
Qed.

Lemma backward_from n : ∀ s i,
  at_ s (pos_before i) → (i <= length l)%nat → (i < n)%nat → backward n s = Ok (reverse (take i l)).
Proof.
  induction n as [|n IH]; intros s i Ha Hi Hn; [lia|]. cbn [backward]. rewrite (it_valid s _ Ha).
  destruct i as [|i]; [done|]. cbn [pos_before] in *.
  destruct (it_entry s i Ha) as (e & He & -> & ->). unfold mbind, res_bind.
  destruct (it_prev s i Ha) as (s' & -> & Ha'). rewrite (IH s' i Ha') by lia.
  rewrite (take_S_r _ _ _ He), reverse_app. by destruct e.
Qed.

(** All entries in both directions, and those not before a target. *)
Lemma forward_all s : ready s → ∃ s', SeekToFirst s = Ok s' ∧ forward (S (length l)) s' = Ok l.
Proof.
  intros Hr. destruct (it_first s Hr) as (s' & E & Ha). exists s'. split; [done|].
  by rewrite (forward_from _ s' 0 Ha) by lia.
Qed.

Lemma backward_all s : ready s → ∃ s', SeekToLast s = Ok s' ∧ backward (S (length l)) s' = Ok (reverse l).
Proof.
  intros Hr. destruct (it_last s Hr) as (s' & E & Ha). exists s'. split; [done|].
  rewrite (backward_from _ s' (length l) Ha) by lia. by rewrite firstn_all.
Qed.

Lemma forward_seek s t :
  ready s → target t →
  ∃ s', Seek t s = Ok s' ∧ forward (S (length l)) s' = Ok (drop (seek_index l t) l).
Proof.
  intros Hr Ht. destruct (it_seek s t Hr Ht) as (s' & E & Ha). exists s'. split; [done|].
  by rewrite (forward_from _ s' _ Ha) by lia.
Qed.
End client.

(** * Any sequence of calls

    A cursor is the reference: a position in the entries. *)
Inductive cursor_call := CallFirst | CallLast | CallSeek (t : bytes) | CallNext | CallPrev.

Definition cursor_step (l : entries) (p : option nat) (c : cursor_call) : option (option nat) :=
  match c, p with
  | CallFirst, _ => Some (pos_at l 0)
  | CallLast, _ => Some (pos_before (length l))
  | CallSeek t, _ => Some (pos_at l (seek_index l t))
  | CallNext, Some i => Some (pos_at l (S i))
  | CallPrev, Some i => Some (pos_before i)
  | _, None => None
  end.

(** What it shows after each call; [None] when a call needs an entry and there is none. *)
Fixpoint cursor_calls (l : entries) (p : option nat) (cs : list cursor_call) : option (list (option (bytes * bytes))) :=
  match cs with
  | [] => Some []
  | c :: cs => p ← cursor_step l p c; r ← cursor_calls l p cs; Some ((i ← p; l !! i) :: r)
  end.

Definition call_step {I} `{Iterator I} (c : cursor_call) (s : I) : res I :=
  match c with
  | CallFirst => SeekToFirst s
  | CallLast => SeekToLast s
  | CallSeek t => Seek t s
  | CallNext => Next s
  | CallPrev => Prev s
  end.
Definition shown {I} `{Iterator I} (s : I) : res (option (bytes * bytes)) :=
  if Valid s then k ← key s; v ← value s; Ok (Some (k, v)) else Ok None.
Fixpoint run_calls {I} `{Iterator I} (cs : list cursor_call) (s : I) : res (list (option (bytes * bytes))) :=
  match cs with
  | [] => Ok []
  | c :: cs => s ← call_step c s; e ← shown s; r ← run_calls cs s; Ok (e :: r)
  end.

Definition call_target (target : bytes → Prop) (c : cursor_call) : Prop :=
  match c with CallSeek t => target t | _ => True end.

Section calls.
Context {I : Type} `{Iterates I l target ready at_}.

Lemma shown_at s p : at_ s p → shown s = Ok (i ← p; l !! i).
Proof.
  intros Ha. unfold shown. rewrite (it_valid s p Ha). destruct p as [i|]; [|done].
  rewrite bool_decide_eq_true_2 by done. destruct (it_entry s i Ha) as (e & He & -> & ->).
  unfold mbind, res_bind, option_bind. rewrite He. by destruct e.
Qed.

Lemma call_step_ok s p c p' :
  at_ s p ∨ p = None ∧ ready s → call_target target c → cursor_step l p c = Some p' →
  ∃ s', call_step c s = Ok s' ∧ at_ s' p'.
Proof.
  intros Hs Ht Hc. assert (ready s) as Hr by (destruct Hs as [Ha|[_ Hr]]; [by eapply it_ready|done]).
  destruct c; cbn in Hc |- *; try (injection Hc as <-).
  - by apply it_first.
  - by apply it_last.
  - by apply it_seek.
  - destruct p as [i|]; [|done]. injection Hc as <-. destruct Hs as [Ha|[]]; [|done]. by apply it_next.
  - destruct p as [i|]; [|done]. injection Hc as <-. destruct Hs as [Ha|[]]; [|done]. by apply it_prev.
Qed.

Lemma run_calls_ok cs : ∀ s p r,
  at_ s p ∨ p = None ∧ ready s → Forall (call_target target) cs →
  cursor_calls l p cs = Some r → run_calls cs s = Ok r.
Proof.
  induction cs as [|c cs IH]; intros s p r Hs Ht; cbn [cursor_calls run_calls]; [by intros [= <-]|].
  apply list.Forall_cons in Ht as [Hc Ht]. destruct (cursor_step l p c) as [p'|] eqn:Ep; [|done].
  destruct (call_step_ok s p c p' Hs Hc Ep) as (s' & -> & Ha). cbn [mbind option_bind].
  destruct (cursor_calls l p' cs) as [r'|] eqn:Er; [|done]. intros [= <-].
  unfold mbind, res_bind. rewrite (shown_at s' p' Ha), (IH s' p' r'); [done|by left|done|done].
Qed.
End calls.

Lemma run_calls_inl {A B} `{Iterator A, Iterator B} cs (s : A) :
  run_calls cs (inl s : A + B) = run_calls cs s.
Proof.
  revert s. induction cs as [|c cs IH]; intros s; [done|]. cbn [run_calls].
  assert (call_step c (inl s : A + B) = (s' ← call_step c s; Ok (inl s'))) as -> by (by destruct c).
  destruct (call_step c s) as [s'| |]; try done. unfold mbind, res_bind. by rewrite IH.
Qed.

Lemma run_calls_inr {A B} `{Iterator A, Iterator B} cs (s : B) :
  run_calls cs (inr s : A + B) = run_calls cs s.
Proof.
  revert s. induction cs as [|c cs IH]; intros s; [done|]. cbn [run_calls].
  assert (call_step c (inr s : A + B) = (s' ← call_step c s; Ok (inr s'))) as -> by (by destruct c).
  destruct (call_step c s) as [s'| |]; try done. unfold mbind, res_bind. by rewrite IH.
Qed.

(** * The reference iterator: a cursor in a list *)
Record ListIterator := mkListIterator { list_entries : entries; list_pos : option nat }.

Definition list_entry (s : ListIterator) : res (bytes * bytes) :=
  of_option (i ← list_pos s; list_entries s !! i).

#[export] Instance list_iterator : Iterator ListIterator := {|
  Valid s := bool_decide (is_Some (list_pos s));
  SeekToFirst s := Ok (mkListIterator (list_entries s) (pos_at (list_entries s) 0));
  SeekToLast s := Ok (mkListIterator (list_entries s) (pos_before (length (list_entries s))));
  Seek t s := Ok (mkListIterator (list_entries s) (pos_at (list_entries s) (seek_index (list_entries s) t)));
  Next s := i ← of_option (list_pos s); Ok (mkListIterator (list_entries s) (pos_at (list_entries s) (S i)));
  Prev s := i ← of_option (list_pos s); Ok (mkListIterator (list_entries s) (pos_before i));
  key s := e ← list_entry s; Ok e.1;
  value s := e ← list_entry s; Ok e.2;
  status _ := OK
|}.

#[export] Instance list_iterates l target :
  Iterates ListIterator l target (λ s, list_entries s = l)
    (λ s p, list_entries s = l ∧ list_pos s = p ∧ (∀ i, p = Some i → (i < length l)%nat)).
Proof.
  assert (∀ i, ∀ j, pos_at l i = Some j → (j < length l)%nat) as Hat.
  { intros i j. unfold pos_at. case_bool_decide; [by intros [= <-]|done]. }
  split.
  - by intros s p [E _].
  - done.
  - by intros s p (_ & <- & _).
  - intros s i (E & Ep & Hi). destruct (lookup_lt_is_Some_2 l i (Hi i eq_refl)) as [e He]. exists e.
    cbn. unfold list_entry. rewrite Ep, E. cbn. by rewrite He.
  - intros s <-. eexists. split; [done|]. split; [done|]. split; [done|]. apply Hat.
  - intros s <-. eexists. split; [done|]. split; [done|]. split; [done|]. intros i. cbn.
    destruct (length (list_entries s)); [done|]. intros [= <-]. lia.
  - intros s t <- _. eexists. split; [done|]. split; [done|]. split; [done|]. apply Hat.
  - intros s i (E & Ep & Hi). cbn. rewrite Ep. unfold mbind, res_bind. cbn. eexists. split; [done|]. cbn.
    rewrite E. split; [done|]. split; [done|]. apply Hat.
  - intros s i (E & Ep & Hi). cbn. rewrite Ep. unfold mbind, res_bind. cbn. eexists. split; [done|]. cbn.
    split; [done|]. split; [done|]. specialize (Hi i eq_refl). intros j. destruct i; [done|]. intros [= <-]. lia.
Qed.

(** Seeking splits ordered entries in those before the target and the others. *)
Lemma seek_index_le l t : (seek_index l t <= length l)%nat.
Proof. induction l as [|e l IH]; cbn; [lia|]. destruct (_ <? 0); lia. Qed.

Lemma seek_index_before l t i e : (i < seek_index l t)%nat → l !! i = Some e → compare_ e.1 t < 0.
Proof.
  revert i. induction l as [|e' l IH]; intros i Hi; cbn in Hi; [lia|].
  destruct (Z.ltb_spec (compare_ e'.1 t) 0); [|lia].
  destruct i as [|i]; cbn; [by intros [= <-]|]. apply IH. lia.
Qed.

Lemma seek_index_at l t e : l !! seek_index l t = Some e → 0 <= compare_ e.1 t.
Proof.
  induction l as [|e' l IH]; [done|]. cbn. destruct (Z.ltb_spec (compare_ e'.1 t) 0); cbn; [done|].
  by intros [= <-].
Qed.

Lemma seek_index_unique l t i :
  (i <= length l)%nat → (∀ k e, (k < i)%nat → l !! k = Some e → compare_ e.1 t < 0) →
  (∀ e, l !! i = Some e → 0 <= compare_ e.1 t) → seek_index l t = i.
Proof.
  revert i. induction l as [|e l IH]; intros i Hi Hb Ha; cbn in *; [lia|].
  destruct i as [|i].
  - specialize (Ha e eq_refl). by rewrite (proj2 (Z.ltb_ge _ _)).
  - rewrite (proj2 (Z.ltb_lt _ _)) by (apply (Hb 0%nat); [lia|done]). f_equal. apply IH; [lia| |done].
    intros k e' Hk He. apply (Hb (S k)); [lia|done].
Qed.

Lemma ascending_lt l i j a b :
  ascending l → l !! i = Some a → l !! j = Some b → (i < j)%nat → compare_ a.1 b.1 < 0.
Proof.
  unfold ascending. revert i j. induction l as [|e l IH]; intros i j Hs Hi Hj Hij; [done|].
  inversion Hs as [|? ? Hs' Hall]; subst. destruct j as [|j]; [lia|]. destruct i as [|i]; cbn in Hi, Hj.
  - injection Hi as ->. rewrite list.Forall_fmap, list.Forall_forall in Hall.
    apply (Hall b). by eapply list_elem_of_lookup_2.
  - apply (IH i j); [done..|lia].
Qed.

Context `{!Order bytes}.

Lemma ascending_inj l i j a b :
  ascending l → l !! i = Some a → l !! j = Some b → a.1 = b.1 → i = j.
Proof.
  intros Hs Hi Hj E. destruct (Nat.lt_trichotomy i j) as [L|[|L]]; [|done|]; exfalso.
  - pose proof (ascending_lt l i j a b Hs Hi Hj L) as H1. rewrite E in H1. by apply cmp_irrefl in H1.
  - pose proof (ascending_lt l j i b a Hs Hj Hi L) as H1. rewrite E in H1. by apply cmp_irrefl in H1.
Qed.

(** The order of the keys is that of the positions. *)
Lemma ascending_iff l i j a b :
  ascending l → l !! i = Some a → l !! j = Some b → (i < j)%nat ↔ compare_ a.1 b.1 < 0.
Proof.
  intros Hs Hi Hj. split; intros L; [by eapply ascending_lt|].
  destruct (Nat.lt_trichotomy i j) as [|[->|L2]]; [done|exfalso..].
  - rewrite Hi in Hj. injection Hj as ->. by apply cmp_irrefl in L.
  - pose proof (ascending_lt l j i b a Hs Hj Hi L2) as L3. pose proof (cmp_trans _ _ _ L L3) as L4.
    by apply cmp_irrefl in L4.
Qed.

(** What comes before an entry that is before [t] is before [t]. *)
Lemma ascending_before l i j a b t :
  ascending l → l !! i = Some a → l !! j = Some b → (i <= j)%nat → compare_ b.1 t < 0 → compare_ a.1 t < 0.
Proof.
  intros Hs Hi Hj Hij Hlt. destruct (decide (i = j)) as [->|N].
  - rewrite Hi in Hj. by injection Hj as <-.
  - pose proof (ascending_lt l i j a b Hs Hi Hj ltac:(lia)) as H1. by eapply cmp_trans.
Qed.

Lemma ascending_unique l l' : ascending l → ascending l' → (∀ e, e ∈ l ↔ e ∈ l') → l = l'.
Proof.
  unfold ascending. revert l'. induction l as [|a l IH]; intros [|b l'] Hs Hs' He; [done| | |].
  - exfalso. by apply (not_elem_of_nil b), He, list_elem_of_here.
  - exfalso. by apply (not_elem_of_nil a), He, list_elem_of_here.
  - assert (∀ (L : entries) x y, Sorted.StronglySorted (λ u v, compare_ u v < 0) ((x :: L).*1) → y ∈ x :: L →
      y = x ∨ y ∈ L ∧ compare_ x.1 y.1 < 0) as Hhd.
    { intros L x y HS [->|Hy]%elem_of_cons; [by left|right]. split; [done|].
      inversion HS as [|? ? _ Hall]; subst. rewrite list.Forall_fmap, list.Forall_forall in Hall. by apply Hall. }
    assert (a = b) as <-.
    { destruct (Hhd l' b a Hs' (proj1 (He a) (list_elem_of_here _ _))) as [|[_ L1]]; [done|].
      destruct (Hhd l a b Hs (proj2 (He b) (list_elem_of_here _ _))) as [|[_ L2]]; [done|].
      pose proof (cmp_trans _ _ _ L1 L2) as L3. by apply cmp_irrefl in L3. }
    f_equal. apply IH; [by inversion Hs|by inversion Hs'|]. intros e.
    assert (∀ L L' : entries, Sorted.StronglySorted (λ u v, compare_ u v < 0) ((a :: L).*1) →
      (e ∈ a :: L → e ∈ a :: L') → e ∈ L → e ∈ L') as Hsub.
    { intros L L' HS Hi Hin. destruct (proj1 (elem_of_cons _ _ _) (Hi (list_elem_of_further _ _ _ Hin))) as [->|]; [|done].
      exfalso. inversion HS as [|? ? _ Hall]; subst. rewrite list.Forall_fmap, list.Forall_forall in Hall.
      apply Hall in Hin. cbn in Hin. by apply cmp_irrefl in Hin. }
    split; [apply (Hsub l l' Hs), He|apply (Hsub l' l Hs'), He].
Qed.

Lemma seek_index_after l t i e :
  ascending l → (seek_index l t <= i)%nat → l !! i = Some e → 0 <= compare_ e.1 t.
Proof.
  unfold ascending. revert i. induction l as [|e' l IH]; intros i Hs Hi; [done|]. cbn in *.
  inversion Hs as [|? ? Hs' Hall]; subst. destruct (Z.ltb_spec (compare_ e'.1 t) 0) as [L|L].
  - destruct i as [|i]; [lia|]. cbn. apply IH; [done|lia].
  - destruct i as [|i]; cbn; [by intros [= <-]|]. intros He.
    rewrite list.Forall_fmap, list.Forall_forall in Hall.
    pose proof (Hall _ (list_elem_of_lookup_2 _ _ _ He)) as H1. cbn in H1.
    destruct (Z.lt_ge_cases (compare_ e.1 t) 0) as [L'|]; [|done].
    pose proof (cmp_trans _ _ _ H1 L'). lia.
Qed.
End contract.
