(* ===== verification/LdbBlock.v ===== *)
(** LevelDB's table blocks ([table/block_builder.h], [table/block_builder.cc],
    [table/block.h], [table/block.cc]): sorted entries whose keys share prefixes, with
    restart points where a key is whole, and the iterator over them.

    A pointer into a block is an offset; only accesses are checked. *)
From S2P Require Import Prelude LdbSkip LdbFormat LdbIterator.
Import Status.

Module BlockBuilder.
Section builder.

(** The options that the builder looks at. *)
Context {comparator : SliceComparator} (block_restart_interval : Z).

Record BlockBuilder := mkBuilder {
  buffer_ : bytes; restarts_ : list Z; counter_ : Z; finished_ : bool; last_key_ : bytes
}.

Definition Reset : BlockBuilder := mkBuilder [] [0] 0 false [].
Definition new : res BlockBuilder := SkipList.assert_ (1 <=? block_restart_interval);; Ok Reset.

Definition CurrentSizeEstimate (b : BlockBuilder) : Z :=
  u64 (Slice.size (buffer_ b) + Z.of_nat (length (restarts_ b)) * 4 + 4).

Definition Finish (b : BlockBuilder) : bytes * BlockBuilder :=
  let buffer := fold_left Coding.PutFixed32 (restarts_ b) (buffer_ b) in
  let buffer := Coding.PutFixed32 buffer (u32 (Z.of_nat (length (restarts_ b)))) in
  (buffer, mkBuilder buffer (restarts_ b) (counter_ b) true (last_key_ b)).

(** The length of the prefix two keys share, from [shared] on. *)
Fixpoint shared_loop (n : nat) (last key : bytes) (shared : nat) : res nat :=
  match n with
  | O => Ok shared
  | S n' =>
      a ← Slice.index last (Z.of_nat shared);
      b ← Slice.index key (Z.of_nat shared);
      if a =? b then shared_loop n' last key (S shared) else Ok shared
  end.

Definition Add (b : BlockBuilder) (key value : bytes) : res BlockBuilder :=
  let last_key_piece := last_key_ b in
  SkipList.assert_ (negb (finished_ b));;
  SkipList.assert_ (counter_ b <=? block_restart_interval);;
  larger ← (if Slice.empty (buffer_ b) then Ok true
            else c ← Compare key last_key_piece; Ok (0 <? c));
  SkipList.assert_ larger;;
  '(shared, restarts, counter) ←
    (if counter_ b <? block_restart_interval then
       shared ← shared_loop (Nat.min (length last_key_piece) (length key)) last_key_piece key 0;
       Ok (shared, restarts_ b, counter_ b)
     else Ok (O, restarts_ b ++ [u32 (Slice.size (buffer_ b))], 0));
  let non_shared := Slice.size key - Z.of_nat shared in
  let buffer := Coding.PutVarint32 (buffer_ b) (u32 (Z.of_nat shared)) in
  let buffer := Coding.PutVarint32 buffer (u32 non_shared) in
  let buffer := Coding.PutVarint32 buffer (u32 (Slice.size value)) in
  let buffer := buffer ++ drop shared key in
  let buffer := buffer ++ value in
  let last := take shared last_key_piece ++ drop shared key in
  e ← Slice.eqb last key;
  SkipList.assert_ e;;
  Ok (mkBuilder buffer restarts (counter + 1) (finished_ b) last).
End builder.
End BlockBuilder.

Module Block.

(** [owned_] and the destructor only manage memory. [restart_offset_] is not set
    for a block marked as bad by [size_ = 0]. *)
Record Block := mkBlock { data_ : bytes; size_ : Z; restart_offset_ : Z }.

Definition num_restarts_of (data : bytes) (size : Z) : res Z :=
  SkipList.assert_ (4 <=? size);; Coding.DecodeFixed32 (drop (Z.to_nat (size - 4)) data).
Definition NumRestarts (b : Block) : res Z := num_restarts_of (data_ b) (size_ b).

Definition new (contents : bytes) : res Block :=
  let size := Slice.size contents in
  if size <? 4 then Ok (mkBlock contents 0 0)
  else
    let max_restarts_allowed := (size - 4) / 4 in
    n ← num_restarts_of contents size;
    if max_restarts_allowed <? n then Ok (mkBlock contents 0 0)
    else Ok (mkBlock contents size (u32 (size - u32 (1 + n) * 4))).

(** The three lengths, and where the key's delta starts. *)
Definition DecodeEntry (data : bytes) (p limit : Z) : res (option (Z * Z * Z * Z)) :=
  if limit - p <? 3 then Ok None
  else
    let entry := take (Z.to_nat (limit - p)) (drop (Z.to_nat p) data) in
    shared ← of_option (entry !! 0%nat);
    non_shared ← of_option (entry !! 1%nat);
    value_length ← of_option (entry !! 2%nat);
    r ← (if Z.lor (Z.lor shared non_shared) value_length <? 128 then
           Ok (Some (shared, non_shared, value_length, p + 3))
         else
           r1 ← Coding.GetVarint32Ptr entry;
           match r1 with
           | None => Ok None
           | Some (shared, p1) =>
               r2 ← Coding.GetVarint32Ptr p1;
               match r2 with
               | None => Ok None
               | Some (non_shared, p2) =>
                   r3 ← Coding.GetVarint32Ptr p2;
                   match r3 with
                   | None => Ok None
                   | Some (value_length, p3) =>
                       Ok (Some (shared, non_shared, value_length, limit - Slice.size p3))
                   end
               end
           end);
    match r with
    | None => Ok None
    | Some (shared, non_shared, value_length, p) =>
        if u32 (limit - p) <? u32 (non_shared + value_length) then Ok None
        else Ok (Some (shared, non_shared, value_length, p))
    end.

(** The bytes [p, p + n) of a block. *)
Definition part (data : bytes) (p n : Z) : res bytes :=
  if p + n <=? Slice.size data then Ok (take (Z.to_nat n) (drop (Z.to_nat p) data)) else UB.

Section iter.
Context {comparator_ : SliceComparator}.

(** [value_] is an offset and a length, or nothing when it does not point into the
    block. *)
Record Iter := mkIter {
  iter_data_ : bytes; restarts_ : Z; num_restarts_ : Z;
  current_ : Z; restart_index_ : Z; key_ : bytes; value_ : option (Z * Z); status_ : Status
}.

Definition set_entry (it : Iter) (current : Z) (key : bytes) (value : option (Z * Z)) : Iter :=
  mkIter (iter_data_ it) (restarts_ it) (num_restarts_ it) current (restart_index_ it) key value
    (status_ it).
Definition set_index (it : Iter) (i : Z) : Iter :=
  mkIter (iter_data_ it) (restarts_ it) (num_restarts_ it) (current_ it) i (key_ it) (value_ it)
    (status_ it).
(** No entry. *)
Definition set_end (it : Iter) : Iter :=
  set_index (set_entry it (restarts_ it) (key_ it) (value_ it)) (num_restarts_ it).

Definition Iter_new (data : bytes) (restarts num_restarts : Z) : res Iter :=
  SkipList.assert_ (0 <? num_restarts);;
  Ok (mkIter data restarts num_restarts restarts num_restarts [] None OK).

Definition NextEntryOffset (it : Iter) : res Z :=
  '(offset, len) ← of_option (value_ it); Ok (u32 (offset + len)).

Definition GetRestartPoint (it : Iter) (index : Z) : res Z :=
  SkipList.assert_ (index <? num_restarts_ it);;
  Coding.DecodeFixed32 (drop (Z.to_nat (restarts_ it + index * 4)) (iter_data_ it)).

Definition SeekToRestartPoint (it : Iter) (index : Z) : res Iter :=
  offset ← GetRestartPoint it index;
  Ok (set_index (set_entry it (current_ it) [] (Some (offset, 0))) index).

Definition iter_Valid (it : Iter) : bool := current_ it <? restarts_ it.
Definition iter_key (it : Iter) : res bytes := SkipList.assert_ (iter_Valid it);; Ok (key_ it).
Definition iter_value (it : Iter) : res bytes :=
  SkipList.assert_ (iter_Valid it);;
  '(offset, len) ← of_option (value_ it); part (iter_data_ it) offset len.

Definition CorruptionError (it : Iter) : Iter :=
  mkIter (iter_data_ it) (restarts_ it) (num_restarts_ it) (restarts_ it) (num_restarts_ it) [] None
    (Corruption "bad entry in block").

(** [restart_index_] moves up to the entry; it stays below [num_restarts_]. *)
Fixpoint index_loop (n : nat) (it : Iter) : res Iter :=
  match n with
  | O => NoFuel
  | S n' =>
      if u32 (restart_index_ it + 1) <? num_restarts_ it then
        r ← GetRestartPoint it (u32 (restart_index_ it + 1));
        if r <? current_ it then index_loop n' (set_index it (u32 (restart_index_ it + 1)))
        else Ok it
      else Ok it
  end.

Definition ParseNextKey (it : Iter) : res (bool * Iter) :=
  current ← NextEntryOffset it;
  let it := set_entry it current (key_ it) (value_ it) in
  if restarts_ it <=? current then Ok (false, set_end it)
  else
    r ← DecodeEntry (iter_data_ it) current (restarts_ it);
    match r with
    | None => Ok (false, CorruptionError it)
    | Some (shared, non_shared, value_length, p) =>
        if Slice.size (key_ it) <? shared then Ok (false, CorruptionError it)
        else
          delta ← part (iter_data_ it) p non_shared;
          let key := take (Z.to_nat shared) (key_ it) ++ delta in
          let it := set_entry it current key (Some (p + non_shared, value_length)) in
          it ← index_loop (S (Z.to_nat (num_restarts_ it))) it;
          Ok (true, it)
    end.

Definition iter_Next (it : Iter) : res Iter :=
  SkipList.assert_ (iter_Valid it);;
  r ← ParseNextKey it; Ok r.2.

(** The restart point before [original], if there is one. *)
Fixpoint prev_restart (n : nat) (it : Iter) (original : Z) : res (bool * Iter) :=
  match n with
  | O => NoFuel
  | S n' =>
      r ← GetRestartPoint it (restart_index_ it);
      if original <=? r then
        if restart_index_ it =? 0 then Ok (false, set_end it)
        else prev_restart n' (set_index it (u32 (restart_index_ it - 1))) original
      else Ok (true, it)
  end.

(** [do ... while (ParseNextKey() && NextEntryOffset() < bound)]. An entry takes
    bytes of the block, so that there are no more turns than bytes. *)
Fixpoint parse_until (n : nat) (it : Iter) (bound : Z) : res Iter :=
  match n with
  | O => NoFuel
  | S n' =>
      r ← ParseNextKey it;
      let '(found, it) := r in
      if (found : bool) then
        next ← NextEntryOffset it;
        if next <? bound then parse_until n' it bound else Ok it
      else Ok it
  end.
Definition parse_fuel (it : Iter) : nat := S (length (iter_data_ it)).

Definition iter_Prev (it : Iter) : res Iter :=
  SkipList.assert_ (iter_Valid it);;
  let original := current_ it in
  r ← prev_restart (S (Z.to_nat (num_restarts_ it))) it original;
  let '(found, it) := r in
  if (found : bool) then
    it ← SeekToRestartPoint it (restart_index_ it);
    parse_until (parse_fuel it) it original
  else Ok it.

(** The binary search; [None] after an error. *)
Fixpoint seek_restart (n : nat) (it : Iter) (target : bytes) (left right : Z)
    : res (option Z) :=
  if left <? right then
    match n with
    | O => NoFuel
    | S n' =>
        let mid := u32 (left + right + 1) / 2 in
        region_offset ← GetRestartPoint it mid;
        r ← DecodeEntry (iter_data_ it) region_offset (restarts_ it);
        match r with
        | None => Ok None
        | Some (shared, non_shared, _, key_ptr) =>
            if negb (shared =? 0) then Ok None
            else
              mid_key ← part (iter_data_ it) key_ptr non_shared;
              c ← Compare mid_key target;
              if c <? 0 then seek_restart n' it target mid right
              else seek_restart n' it target left (mid - 1)
        end
    end
  else Ok (Some left).

Fixpoint seek_loop (n : nat) (it : Iter) (target : bytes) : res Iter :=
  match n with
  | O => NoFuel
  | S n' =>
      r ← ParseNextKey it;
      let '(found, it) := r in
      if negb found then Ok it
      else
        c ← Compare (key_ it) target;
        if 0 <=? c then Ok it else seek_loop n' it target
  end.

Definition iter_Seek (target : bytes) (it : Iter) : res Iter :=
  r ← seek_restart (Z.to_nat (num_restarts_ it)) it target 0 (num_restarts_ it - 1);
  match r with
  | None => Ok (CorruptionError it)
  | Some index =>
      it ← SeekToRestartPoint it index;
      seek_loop (parse_fuel it) it target
  end.

Definition iter_SeekToFirst (it : Iter) : res Iter :=
  it ← SeekToRestartPoint it 0;
  r ← ParseNextKey it; Ok r.2.

Definition iter_SeekToLast (it : Iter) : res Iter :=
  it ← SeekToRestartPoint it (num_restarts_ it - 1);
  parse_until (parse_fuel it) it (restarts_ it).

#[export] Instance block_iter : Iterator Iter := {|
  Valid := iter_Valid;
  SeekToFirst := iter_SeekToFirst;
  SeekToLast := iter_SeekToLast;
  Seek := iter_Seek;
  Next := iter_Next;
  Prev := iter_Prev;
  key := iter_key;
  value := iter_value;
  status := status_
|}.

Definition NewIterator (b : Block) : res (EmptyIterator + Iter) :=
  if size_ b <? 4 then Ok (inl (NewErrorIterator (Corruption "bad block contents")))
  else
    n ← NumRestarts b;
    if n =? 0 then Ok (inl NewEmptyIterator)
    else it ← Iter_new (data_ b) (restart_offset_ b) n; Ok (inr it).
End iter.
End Block.
