(* ===== verification/LdbBlockProps.v ===== *)
(** The layout of table blocks, and the iterator on it: a builder given ascending
    entries makes a block whose iterator keeps the contract of iterators on these
    entries. *)
From Stdlib Require Import Sorting.Sorted.
From S2P Require Import Prelude PbVarint LdbSkip LdbSkipLemmas LdbFormat LdbCodingProps LdbOrder LdbIterator LdbBlock.
Import Block.

(** * The layout *)

(** An entry: how much of its key is shared with the entry before, the key, and the
    value. *)
Record item := mkItem { i_shared : nat; i_key : bytes; i_value : bytes }.

Definition i_delta (e : item) : bytes := drop (i_shared e) (i_key e).
Definition i_header (e : item) : bytes :=
  varint (u32 (Z.of_nat (i_shared e))) ++ varint (u32 (Slice.size (i_delta e))) ++
  varint (u32 (Slice.size (i_value e))).
Definition encode_item (e : item) : bytes := i_header e ++ i_delta e ++ i_value e.
Definition body (l : list item) : bytes := concat (encode_item <$> l).

(** The offset of entry [i]. *)
Definition off (l : list item) (i : nat) : Z := Slice.size (body (take i l)).

(** Each key starts with what it shares with the key before. *)
Fixpoint linked (last : bytes) (l : list item) : Prop :=
  match l with
  | [] => True
  | e :: l =>
      (i_shared e <= length last)%nat ∧ (i_shared e <= length (i_key e))%nat ∧
      take (i_shared e) last = take (i_shared e) (i_key e) ∧ linked (i_key e) l
  end.

Definition item_bytes (e : item) : Prop := Forall is_byte (i_key e) ∧ Forall is_byte (i_value e).

(** Restart points are entries whose keys are whole; the first is the first entry. *)
Record restarts_ok (l : list item) (rs : list nat) : Prop := {
  rs_first : rs !! 0%nat = Some 0%nat;
  rs_whole m j : rs !! m = Some j → ∀ e, l !! j = Some e → i_shared e = 0%nat;
  rs_inside m j : rs !! m = Some j → (j < length l)%nat ∨ (j = 0%nat ∧ m = 0%nat)
}.

(** The whole block. *)
Definition block_of (l : list item) (rs : list nat) : bytes :=
  body l ++ words ((λ j, u32 (off l j)) <$> rs) ++ le_bytes 4 (Z.of_nat (length rs)).

Lemma body_app a b : body (a ++ b) = body a ++ body b.
Proof. unfold body. by rewrite fmap_app, concat_app. Qed.

Lemma body_cons e l : body (e :: l) = encode_item e ++ body l.
Proof. done. Qed.

Lemma length_header e : (3 <= length (i_header e))%nat.
Proof.
  unfold i_header. rewrite !length_app.
  pose proof (varint_length (u32 (Z.of_nat (i_shared e)))).
  pose proof (varint_length (u32 (Slice.size (i_delta e)))).
  pose proof (varint_length (u32 (Slice.size (i_value e)))). lia.
Qed.

Lemma length_encode_item e :
  length (encode_item e) = (length (i_header e) + length (i_delta e) + length (i_value e))%nat.
Proof. unfold encode_item. rewrite !length_app. lia. Qed.

Lemma off_S l i e : l !! i = Some e → off l (S i) = off l i + Slice.size (encode_item e).
Proof.
  intros He. unfold off, Slice.size. rewrite (take_S_r _ _ _ He), body_app, length_app.
  unfold body at 2. cbn. rewrite app_nil_r. lia.
Qed.

Lemma off_mono l i j : (i <= j)%nat → off l i <= off l j.
Proof.
  intros Hij. unfold off, Slice.size. rewrite <- (take_drop i (take j l)).
  rewrite take_take, Nat.min_l by done. rewrite body_app, length_app. lia.
Qed.

Lemma off_lt l i j : (i < j)%nat → (i < length l)%nat → off l i + 3 <= off l j.
Proof.
  intros Hij Hi. destruct (lookup_lt_is_Some_2 l i Hi) as [e He].
  pose proof (off_mono l (S i) j ltac:(lia)) as H. rewrite (off_S _ _ _ He) in H.
  unfold Slice.size in H. rewrite length_encode_item in H. pose proof (length_header e). lia.
Qed.

Lemma off_0 l : off l 0 = 0.
Proof. done. Qed.

Lemma off_all l : off l (length l) = Slice.size (body l).
Proof. unfold off. by rewrite firstn_all. Qed.

Lemma off_nonneg l i : 0 <= off l i.
Proof. unfold off, Slice.size. lia. Qed.

(** What is at the offset of an entry. *)
Lemma drop_body l i e t :
  l !! i = Some e → drop (Z.to_nat (off l i)) (body l ++ t) = encode_item e ++ body (drop (S i) l) ++ t.
Proof.
  intros He. rewrite <- (take_drop_middle l i e He) at 2. rewrite body_app. unfold off, Slice.size.
  rewrite Nat2Z.id, <- app_assoc, drop_app_length. unfold body at 1. cbn. by rewrite <- app_assoc.
Qed.

(** * Keys are no longer than the block *)

Lemma off_cons e l i : off (e :: l) (S i) = Slice.size (encode_item e) + off l i.
Proof. unfold off, Slice.size, body. cbn. rewrite length_app. lia. Qed.

Lemma linked_key l : ∀ last i e,
  linked last l → l !! i = Some e → Slice.size (i_key e) <= Slice.size last + off l (S i).
Proof.
  induction l as [|e' l IH]; intros last i e Hl He; [done|]. destruct Hl as (H1 & H2 & H3 & Hl).
  assert (Slice.size (i_key e') <= Slice.size last + Slice.size (encode_item e')) as Hk.
  { unfold Slice.size. rewrite length_encode_item. unfold i_delta. rewrite length_drop. lia. }
  rewrite off_cons. destruct i as [|i]; cbn in He.
  - injection He as <-. rewrite off_0. lia.
  - pose proof (IH _ _ _ Hl He). lia.
Qed.

Lemma linked_lookup l : ∀ last i e,
  linked last l → l !! i = Some e →
  let prev := match i with O => last | S j => match l !! j with Some p => i_key p | None => [] end end in
  (i_shared e <= length prev)%nat ∧ (i_shared e <= length (i_key e))%nat ∧
  take (i_shared e) prev = take (i_shared e) (i_key e).
Proof.
  induction l as [|e' l IH]; intros last i e Hl He; [done|]. destruct Hl as (H1 & H2 & H3 & Hl).
  destruct i as [|i]; cbn in He; [by injection He as <-|].
  pose proof (IH _ _ _ Hl He) as H. by destruct i as [|i].
Qed.

(** * Decoding an entry *)

Lemma small_shift a : 0 <= a → (a <? 128) = (Z.shiftr a 7 =? 0).
Proof.
  intros Ha. rewrite Z.shiftr_div_pow2 by lia. change (2 ^ 7) with 128.
  destruct (Z.ltb_spec a 128); symmetry; [apply Z.eqb_eq; apply Z.div_small; lia|].
  apply Z.eqb_neq. Z.div_mod_to_equations. lia.
Qed.

Lemma lor_small x y z :
  0 <= x → 0 <= y → 0 <= z → (Z.lor (Z.lor x y) z <? 128) = (x <? 128) && (y <? 128) && (z <? 128).
Proof.
  intros Hx Hy Hz. rewrite !small_shift by (done || rewrite !Z.lor_nonneg; auto).
  rewrite !Z.shiftr_lor.
  destruct (Z.eqb_spec (Z.shiftr x 7) 0) as [->|N]; cbn [andb].
  2:{ apply Z.eqb_neq. rewrite !Z.lor_eq_0_iff. tauto. }
  destruct (Z.eqb_spec (Z.shiftr y 7) 0) as [->|N]; cbn [andb].
  2:{ apply Z.eqb_neq. rewrite !Z.lor_eq_0_iff. tauto. }
  by rewrite Z.lor_0_l.
Qed.

Lemma varint_first v :
  0 <= v < 2 ^ 64 →
  ∃ x t, varint v = x :: t ∧ 0 <= x ∧ ((v < 128 ∧ x = v ∧ t = []) ∨ (128 <= v ∧ 128 <= x)).
Proof.
  intros Hv. unfold varint. cbn [leb128]. destruct (Z.ltb_spec v 128) as [L|L].
  - exists v, []. split; [done|]. split; [lia|]. by left.
  - eexists _, _. split; [reflexivity|]. pose proof (Z.mod_pos_bound v 128). split; [lia|]. right. lia.
Qed.

Lemma GetVarint32Ptr_varint v rest :
  0 <= v < 2 ^ 32 → Forall is_byte rest → Coding.GetVarint32Ptr (varint v ++ rest) = Ok (Some (v, rest)).
Proof.
  intros Hv Hr. change Coding.GetVarint32Ptr with Coding.GetVarint32.
  rewrite GetVarint32_ok.
  - by rewrite parse_varint_varint by (done || lia || by apply varint_length_32).
  - apply List.Forall_app. split; [|done]. apply leb128_bytes, varint_range_64. lia.
Qed.

(** The header at the front of the bytes left. *)
Lemma decode_header a b c rest :
  0 <= a < 2 ^ 32 → 0 <= b < 2 ^ 32 → 0 <= c < 2 ^ 32 → Forall is_byte rest →
  let entry := varint a ++ varint b ++ varint c ++ rest in
  ∃ x y z, entry !! 0%nat = Some x ∧ entry !! 1%nat = Some y ∧ entry !! 2%nat = Some z ∧
    (if Z.lor (Z.lor x y) z <? 128 then
       x = a ∧ y = b ∧ z = c ∧ (length (varint a ++ varint b ++ varint c) = 3)%nat
     else
       Coding.GetVarint32Ptr entry = Ok (Some (a, varint b ++ varint c ++ rest)) ∧
       Coding.GetVarint32Ptr (varint b ++ varint c ++ rest) = Ok (Some (b, varint c ++ rest)) ∧
       Coding.GetVarint32Ptr (varint c ++ rest) = Ok (Some (c, rest))).
Proof.
  intros Ha Hb Hc Hr entry.
  assert (Forall is_byte (varint c ++ rest)) as Hr2.
  { apply List.Forall_app. split; [|done]. apply leb128_bytes, varint_range_64. lia. }
  assert (Forall is_byte (varint b ++ varint c ++ rest)) as Hr1.
  { apply List.Forall_app. split; [|done]. apply leb128_bytes, varint_range_64. lia. }
  pose proof (GetVarint32Ptr_varint a _ Ha Hr1) as Ea. fold entry in Ea.
  pose proof (GetVarint32Ptr_varint b _ Hb Hr2) as Eb. pose proof (GetVarint32Ptr_varint c _ Hc Hr) as Ec.
  destruct (varint_first a ltac:(lia)) as (xa & ta & Va & Pa & Ca).
  destruct (varint_first b ltac:(lia)) as (xb & tb & Vb & Pb & Cb).
  destruct (varint_first c ltac:(lia)) as (xc & tc & Vc & Pc & Cc).
  assert (Forall (λ x, 0 <= x) entry) as Hn.
  { apply list.Forall_impl with is_byte; [|unfold is_byte; lia]. apply List.Forall_app. split; [|done].
    apply leb128_bytes, varint_range_64. lia. }
  assert (3 <= length entry)%nat as L3 by (unfold entry; rewrite Va, Vb, Vc; cbn; rewrite !length_app; cbn; rewrite ?length_app; cbn; lia).
  destruct entry as [|x [|y [|z entry']]] eqn:Een; cbn [length] in L3; [lia..|].
  exists x, y, z. rewrite !list.Forall_cons in Hn. destruct Hn as (P0 & P1 & P2 & _).
  split; [done|]. split; [done|]. split; [done|]. rewrite lor_small by done.
  assert ((x <? 128) && (y <? 128) && (z <? 128) = true →
    x = a ∧ y = b ∧ z = c ∧ (length (varint a ++ varint b ++ varint c) = 3)%nat) as Hfast.
  { rewrite !andb_true_iff, !Z.ltb_lt. intros [[Lx Ly] Lz].
    unfold entry in Een. rewrite Va, Vb, Vc in Een |- *. injection Een as Ex Een.
    destruct Ca as [(La & -> & ->)|(La & Lxa)]; [|lia]. injection Een as Ey Een.
    destruct Cb as [(Lb & -> & ->)|(Lb & Lxb)]; [|lia]. injection Een as Ez Een.
    destruct Cc as [(Lc & -> & ->)|(Lc & Lxc)]; [|lia]. done. }
  destruct (_ && _); [by apply Hfast|]. split; [exact Ea|]. split; [exact Eb|exact Ec].
Qed.

Section layout.
Context (l : list item) (rs : list nat).
Context (Hl : linked [] l) (Hr : restarts_ok l rs) (Hb : Forall item_bytes l).
Context (Hs : Slice.size (block_of l rs) < 2 ^ 32).

#[local] Abbreviation data := (block_of l rs).
#[local] Abbreviation limit := (Slice.size (body l)).

Lemma block_size : Slice.size data = limit + 4 * Z.of_nat (length rs) + 4.
Proof. unfold block_of, Slice.size. rewrite !length_app, length_words, length_fmap, length_le_bytes. lia. Qed.

Lemma off_small i : 0 <= off l i <= limit ∧ limit < 2 ^ 32.
Proof.
  pose proof block_size. pose proof (off_nonneg l i). split; [|lia]. split; [done|].
  unfold off, Slice.size. rewrite <- (take_drop i l) at 2. rewrite body_app, length_app. lia.
Qed.

Lemma item_small i e :
  l !! i = Some e →
  Slice.size (i_key e) < 2 ^ 32 ∧ Slice.size (i_value e) < 2 ^ 32 ∧
  (i_shared e <= length (i_key e))%nat ∧ Slice.size (i_delta e) = Slice.size (i_key e) - Z.of_nat (i_shared e).
Proof.
  intros He. pose proof (linked_key _ _ _ _ Hl He) as Hk. change (Slice.size []) with 0 in Hk.
  destruct (linked_lookup _ _ _ _ Hl He) as (_ & H2 & _).
  pose proof (off_small (S i)) as Ho. pose proof (off_S _ _ _ He) as Eo. pose proof (off_nonneg l i).
  unfold Slice.size in *. rewrite length_encode_item in Eo. unfold i_delta in *. rewrite length_drop in *.
  split_and!; lia.
Qed.

(** The bytes of the entries, from entry [i] on. *)
Lemma entry_bytes i e :
  l !! i = Some e →
  take (Z.to_nat (limit - off l i)) (drop (Z.to_nat (off l i)) data) =
  i_header e ++ i_delta e ++ i_value e ++ body (drop (S i) l).
Proof.
  intros He. unfold block_of. rewrite (drop_body _ _ _ _ He).
  assert (limit = off l i + Slice.size (encode_item e ++ body (drop (S i) l))) as El.
  { unfold off. rewrite <- (take_drop_middle l i e He) at 1. rewrite body_app. unfold Slice.size.
    rewrite !length_app. unfold body at 2. cbn. rewrite length_app. unfold body. lia. }
  rewrite app_assoc. rewrite take_app_length'.
  - unfold encode_item. by rewrite <- !app_assoc.
  - rewrite El. unfold Slice.size. lia.
Qed.

Lemma body_bytes (l' : list item) : Forall item_bytes l' → Forall is_byte (body l').
Proof.
  induction 1 as [|e l' [Hk Hv] _ IH]; [constructor|]. rewrite body_cons.
  apply List.Forall_app. split; [|done]. unfold encode_item, i_header, i_delta.
  rewrite !List.Forall_app. split_and!; try done; try (apply leb128_bytes, varint_range_64;
    pose proof (u32_range (Z.of_nat (i_shared e))); pose proof (u32_range (Slice.size (drop (i_shared e) (i_key e))));
    pose proof (u32_range (Slice.size (i_value e))); lia).
  by apply Forall_drop.
Qed.

Lemma DecodeEntry_ok i e :
  l !! i = Some e →
  DecodeEntry data (off l i) limit =
  Ok (Some (Z.of_nat (i_shared e), Slice.size (i_delta e), Slice.size (i_value e),
            off l i + Slice.size (i_header e))).
Proof.
  intros He. destruct (item_small i e He) as (Sk & Sv & Sl & Sd).
  assert (Slice.size (encode_item e) = Slice.size (i_header e) + Slice.size (i_delta e) + Slice.size (i_value e)) as Es
    by (unfold Slice.size; rewrite length_encode_item; lia).
  pose proof (off_S l i e He) as Eo. destruct (off_small (S i)) as [[_ Ho] Hlim].
  pose proof (length_header e) as H3.
  assert (0 <= Slice.size (i_delta e) ∧ 0 <= Slice.size (i_value e)) as [P1 P2] by (unfold Slice.size; lia).
  assert (Z.of_nat (i_shared e) < 2 ^ 32) as Ss by (unfold Slice.size in Sk; lia).
  assert (item_bytes e) as [Hk Hv] by (eapply list.Forall_lookup_1; eassumption).
  set (rest := i_delta e ++ i_value e ++ body (drop (S i) l)).
  assert (Forall is_byte rest) as Hrest.
  { unfold rest, i_delta. rewrite !List.Forall_app. split_and!; [by apply Forall_drop|done|].
    by apply body_bytes, Forall_drop. }
  assert (limit = off l i + Slice.size (i_header e) + Slice.size rest) as El.
  { unfold off. rewrite <- (take_drop_middle l i e He) at 1. rewrite body_app, body_cons.
    unfold Slice.size, rest. rewrite !length_app, length_encode_item. lia. }
  assert (i_header e = varint (Z.of_nat (i_shared e)) ++ varint (Slice.size (i_delta e)) ++ varint (Slice.size (i_value e)))
    as Eh by (unfold i_header; rewrite !u32_small by lia; done).
  unfold DecodeEntry. rewrite (proj2 (Z.ltb_ge _ 3)) by (unfold Slice.size in *; lia).
  rewrite (entry_bytes i e He). fold rest. rewrite Eh, <- !app_assoc.
  destruct (decode_header (Z.of_nat (i_shared e)) (Slice.size (i_delta e)) (Slice.size (i_value e)) rest)
    as (x & y & z & E0 & E1 & E2 & Hif); [lia..|done|].
  rewrite E0, E1, E2. unfold mbind, res_bind. cbn [of_option].
  assert ((u32 (limit - (off l i + Slice.size (i_header e))) <? u32 (Slice.size (i_delta e) + Slice.size (i_value e))) = false)
    as Hlast.
  { apply Z.ltb_ge. assert (Slice.size (i_delta e) + Slice.size (i_value e) <= Slice.size rest)
      by (unfold rest, Slice.size; rewrite !length_app; lia).
    pose proof (off_nonneg l i). assert (0 <= Slice.size (i_header e)) by (unfold Slice.size; lia).
    rewrite !u32_small by lia. lia. }
  rewrite <- Eh. destruct (Z.lor (Z.lor x y) z <? 128).
  - destruct Hif as (-> & -> & -> & H3').
    assert (off l i + 3 = off l i + Slice.size (i_header e)) as ->
      by (rewrite <- Eh in H3'; unfold Slice.size; lia).
    by rewrite Hlast.
  - destruct Hif as (-> & -> & ->).
    replace (limit - Slice.size rest) with (off l i + Slice.size (i_header e)) by lia.
    by rewrite Hlast.
Qed.

(** The restart array. *)
Lemma GetRestartPoint_ok it m j :
  iter_data_ it = data → restarts_ it = limit → num_restarts_ it = Z.of_nat (length rs) →
  rs !! m = Some j → GetRestartPoint it (Z.of_nat m) = Ok (off l j).
Proof.
  intros Ed El En Hm. unfold GetRestartPoint. rewrite Ed, El, En.
  pose proof (lookup_lt_Some _ _ _ Hm). rewrite (proj2 (Z.ltb_lt _ _)) by lia. cbn [SkipList.assert_].
  unfold mbind, res_bind. unfold block_of.
  replace (Z.to_nat (limit + Z.of_nat m * 4)) with (length (body l) + 4 * m)%nat by (unfold Slice.size; lia).
  rewrite <- drop_drop, drop_app_length.
  destruct (drop_words ((λ j, u32 (off l j)) <$> rs) m (u32 (off l j)) (le_bytes 4 (Z.of_nat (length rs))))
    as [t' ->]; [by rewrite list_lookup_fmap, Hm|].
  rewrite DecodeFixed32_word by apply u32_range. f_equal. apply u32_small.
  pose proof (off_small j). lia.
Qed.

(** * States of the iterator *)

Record shape (it : Iter) : Prop := {
  shape_data : iter_data_ it = data;
  shape_restarts : restarts_ it = limit;
  shape_num : num_restarts_ it = Z.of_nat (length rs);
  shape_status : status_ it = Status.OK
}.

(** Just before entry [i]: what [ParseNextKey] starts from. *)
Record gap (it : Iter) (i : nat) : Prop := {
  gap_shape : shape it;
  gap_index : 0 <= restart_index_ it < Z.of_nat (length rs);
  gap_value : ∃ o n, value_ it = Some (o, n) ∧ o + n = off l i;
  gap_key e : l !! i = Some e →
    (i_shared e <= length (key_ it))%nat ∧ take (i_shared e) (key_ it) = take (i_shared e) (i_key e)
}.

(** At entry [i]. *)
Record entry (it : Iter) (i : nat) (e : item) : Prop := {
  entry_shape : shape it;
  entry_index : 0 <= restart_index_ it < Z.of_nat (length rs);
  entry_item : l !! i = Some e;
  entry_current : current_ it = off l i;
  entry_key : key_ it = i_key e;
  entry_value : value_ it = Some (off l (S i) - Slice.size (i_value e), Slice.size (i_value e))
}.

Definition at_end (it : Iter) : Prop := shape it ∧ current_ it = limit.

Definition at_pos (it : Iter) (p : option nat) : Prop :=
  match p with Some i => ∃ e, entry it i e | None => at_end it end.

Lemma rs_positive : (0 < length rs)%nat.
Proof. apply lookup_lt_is_Some. rewrite (rs_first _ _ Hr). eauto. Qed.

Lemma rs_small : Z.of_nat (length rs) < 2 ^ 30.
Proof. pose proof block_size. assert (0 <= limit) by (unfold Slice.size; lia). lia. Qed.

Lemma index_loop_ok n : ∀ it,
  shape it → 0 <= restart_index_ it < Z.of_nat (length rs) →
  (length rs - Z.to_nat (restart_index_ it) <= n)%nat →
  ∃ k, index_loop n it = Ok (set_index it k) ∧ 0 <= k < Z.of_nat (length rs).
Proof.
  pose proof rs_small as Hsm.
  induction n as [|n IH]; intros it Hsh Hi Hn; [lia|]. cbn [index_loop].
  rewrite u32_small by lia. rewrite (shape_num _ Hsh).
  assert (set_index it (restart_index_ it) = it) as Eid by by destruct it.
  destruct (Z.ltb_spec (restart_index_ it + 1) (Z.of_nat (length rs))) as [L|L].
  2:{ exists (restart_index_ it). by rewrite Eid. }
  destruct (lookup_lt_is_Some_2 rs (Z.to_nat (restart_index_ it + 1)) ltac:(lia)) as [j Hj].
  assert (restart_index_ it + 1 = Z.of_nat (Z.to_nat (restart_index_ it + 1))) as Em by lia.
  assert (GetRestartPoint it (restart_index_ it + 1) = Ok (off l j)) as ->.
  { rewrite Em. apply GetRestartPoint_ok; [apply Hsh..|done]. }
  unfold mbind, res_bind. destruct (_ <? current_ it).
  - destruct (IH (set_index it (restart_index_ it + 1))) as (k & E & Hk);
      [by destruct Hsh|cbn; lia|cbn; lia|]. by exists k.
  - exists (restart_index_ it). by rewrite Eid.
Qed.

Lemma part_delta i e :
  l !! i = Some e → part data (off l i + Slice.size (i_header e)) (Slice.size (i_delta e)) = Ok (i_delta e).
Proof.
  intros He. destruct (off_small (S i)) as [[_ P] _]. pose proof (off_S l i e He) as Eo.
  pose proof block_size as Bs. unfold part.
  assert (Slice.size (encode_item e) = Slice.size (i_header e) + Slice.size (i_delta e) + Slice.size (i_value e)) as Es
    by (unfold Slice.size; rewrite length_encode_item; lia).
  assert (0 <= Slice.size (i_value e)) by (unfold Slice.size; lia).
  rewrite (proj2 (Z.leb_le _ _)) by lia. f_equal. pose proof (off_nonneg l i).
  replace (Z.to_nat (off l i + Slice.size (i_header e))) with (Z.to_nat (off l i) + length (i_header e))%nat
    by (unfold Slice.size; lia).
  unfold block_of. rewrite <- drop_drop, (drop_body _ _ _ _ He). unfold encode_item.
  rewrite <- !app_assoc, drop_app_length. unfold Slice.size. by rewrite Nat2Z.id, take_app_length.
Qed.

Lemma ParseNextKey_entry it i e :
  gap it i → l !! i = Some e → ∃ it', ParseNextKey it = Ok (true, it') ∧ entry it' i e.
Proof.
  intros [Hsh Hi (o & n & Hv & Ho) Hk] He. destruct (Hk e He) as [K1 K2].
  destruct (off_small i) as [[P1 _] Plim]. destruct (off_small (S i)) as [[_ P2] _].
  pose proof (off_S l i e He) as Eo. destruct (item_small i e He) as (S1 & S2 & S3 & S4).
  assert (Slice.size (encode_item e) = Slice.size (i_header e) + Slice.size (i_delta e) + Slice.size (i_value e)) as Es
    by (unfold Slice.size; rewrite length_encode_item; lia).
  pose proof (length_header e) as H3.
  assert (off l i < limit) as Hlt by (unfold Slice.size in *; lia).
  unfold ParseNextKey, NextEntryOffset. rewrite Hv. unfold mbind, res_bind. cbn [of_option].
  rewrite Ho, (u32_small (off l i)) by lia. cbn [set_entry restarts_ iter_data_ key_].
  rewrite (shape_restarts _ Hsh), (shape_data _ Hsh), (proj2 (Z.leb_gt _ _)) by lia.
  rewrite (DecodeEntry_ok i e He).
  rewrite (proj2 (Z.ltb_ge _ _)) by (unfold Slice.size; lia).
  rewrite (part_delta i e He).
  assert (take (Z.to_nat (Z.of_nat (i_shared e))) (key_ it) ++ i_delta e = i_key e) as ->.
  { rewrite Nat2Z.id, K2. unfold i_delta. apply take_drop. }
  set (it1 := mkIter data limit (num_restarts_ it) (off l i) (restart_index_ it) (i_key e)
    (Some (off l i + Slice.size (i_header e) + Slice.size (i_delta e), Slice.size (i_value e))) (status_ it)).
  destruct (index_loop_ok (S (Z.to_nat (num_restarts_ it1))) it1) as (k & E & Hkk);
    [by destruct Hsh|done|cbn; rewrite (shape_num _ Hsh); lia|].
  assert (∀ x y, set_entry (set_entry it (off l i) x y) (off l i) (i_key e)
    (Some (off l i + Slice.size (i_header e) + Slice.size (i_delta e), Slice.size (i_value e))) = it1) as ->.
  { intros x y. unfold set_entry, it1. cbn. by rewrite (shape_data _ Hsh), (shape_restarts _ Hsh). }
  change (num_restarts_ (set_entry it _ _ _)) with (num_restarts_ it1) in *.
  rewrite E. eexists. split; [reflexivity|]. split; try done.
  - destruct Hsh. by split.
  - cbn [value_ set_index set_entry it1].
    by replace (off l (S i) - Slice.size (i_value e))
      with (off l i + Slice.size (i_header e) + Slice.size (i_delta e)) by lia.
Qed.

Lemma ParseNextKey_end it :
  gap it (length l) → ∃ it', ParseNextKey it = Ok (false, it') ∧ at_end it'.
Proof.
  intros [Hsh Hi (o & n & Hv & Ho) Hk]. rewrite off_all in Ho. destruct (off_small 0) as [[_ P] Plim].
  unfold ParseNextKey, NextEntryOffset. rewrite Hv. unfold mbind, res_bind. cbn [of_option].
  rewrite Ho, u32_small by (unfold Slice.size in *; lia). cbn [set_entry restarts_].
  rewrite (shape_restarts _ Hsh), Z.leb_refl. eexists. split; [reflexivity|].
  destruct Hsh. split; [by split|]. done.
Qed.

Lemma entry_gap it i e : entry it i e → gap it (S i).
Proof.
  intros [H1 H2 H3 H4 H5 H6]. split; [done|done| |].
  - eexists _, _. split; [done|]. lia.
  - intros e' He'. destruct (linked_lookup _ _ _ _ Hl He') as (L1 & L2 & L3). cbn in L1, L3.
    rewrite H3 in L1, L3. by rewrite H5.
Qed.

(** From a restart point, whatever was read before. *)
Lemma SeekToRestartPoint_ok it m j :
  shape it → rs !! m = Some j →
  ∃ it', SeekToRestartPoint it (Z.of_nat m) = Ok it' ∧ gap it' j ∧ (j <= length l)%nat.
Proof.
  intros Hsh Hm. unfold SeekToRestartPoint.
  rewrite (GetRestartPoint_ok it m j) by (done || apply Hsh). unfold mbind, res_bind.
  pose proof (lookup_lt_Some _ _ _ Hm). eexists. split; [reflexivity|]. split.
  - split.
    + destruct Hsh. by split.
    + cbn. lia.
    + exists (off l j), 0. split; [done|lia].
    + intros e He. rewrite (rs_whole _ _ Hr m j Hm e He). cbn. by split; [lia|].
  - destruct (rs_inside _ _ Hr m j Hm); lia.
Qed.

(** * The operations *)

Lemma entry_next it i e : entry it i e → NextEntryOffset it = Ok (off l (S i)).
Proof.
  intros [H1 H2 H3 H4 H5 H6]. unfold NextEntryOffset. rewrite H6. cbn [of_option].
  unfold mbind, res_bind. pose proof (off_small (S i)). f_equal. rewrite u32_small by lia. lia.
Qed.

Lemma entry_valid it i e : entry it i e → iter_Valid it = true.
Proof.
  intros [H1 H2 H3 H4 H5 H6]. unfold iter_Valid. rewrite H4, (shape_restarts _ H1). apply Z.ltb_lt.
  pose proof (off_lt l i (S i) ltac:(lia) (lookup_lt_Some _ _ _ H3)). pose proof (off_small (S i)). lia.
Qed.

Lemma end_valid it : at_end it → iter_Valid it = false.
Proof. intros [H1 H2]. unfold iter_Valid. rewrite H2, (shape_restarts _ H1). apply Z.ltb_irrefl. Qed.

Lemma entry_read it i e : entry it i e → iter_key it = Ok (i_key e) ∧ iter_value it = Ok (i_value e).
Proof.
  intros He. pose proof (entry_valid _ _ _ He) as Hv. destruct He as [H1 H2 H3 H4 H5 H6].
  unfold iter_key, iter_value. rewrite Hv, H5, H6. split; [done|]. cbn [SkipList.assert_ of_option].
  unfold mbind, res_bind. rewrite (shape_data _ H1). unfold part.
  pose proof block_size. destruct (off_small (S i)) as [[_ P] _]. pose proof (off_S l i e H3) as Eo.
  rewrite (proj2 (Z.leb_le _ _)) by lia. f_equal.
  replace (Z.to_nat (off l (S i) - Slice.size (i_value e)))
    with (Z.to_nat (off l i) + (length (i_header e) + length (i_delta e)))%nat.
  - unfold block_of. rewrite <- drop_drop, (drop_body _ _ _ _ H3). unfold encode_item.
    rewrite <- drop_drop, <- !app_assoc, !drop_app_length. unfold Slice.size. by rewrite Nat2Z.id, take_app_length.
  - rewrite Eo. pose proof (off_nonneg l i). unfold Slice.size in *. rewrite length_encode_item. lia.
Qed.

Lemma parse_fuel_ok it : shape it → (length l < parse_fuel it)%nat.
Proof.
  intros Hsh. unfold parse_fuel. rewrite (shape_data _ Hsh).
  assert (∀ k, (k <= length l)%nat → 3 * Z.of_nat k <= off l k) as H.
  { induction k as [|k IH]; intros Hk; [done|].
    pose proof (off_lt l k (S k) ltac:(lia) ltac:(lia)). specialize (IH ltac:(lia)). lia. }
  specialize (H (length l) (le_n _)). rewrite off_all in H. pose proof block_size as B.
  unfold Slice.size in *. lia.
Qed.

Lemma parse_until_ok n : ∀ it j b,
  gap it j → (j < b <= length l)%nat → (b - j <= n)%nat →
  ∃ it' e, parse_until n it (off l b) = Ok it' ∧ entry it' (b - 1) e.
Proof.
  induction n as [|n IH]; intros it j b Hg Hjb Hn; [lia|]. cbn [parse_until].
  destruct (lookup_lt_is_Some_2 l j ltac:(lia)) as [e He].
  destruct (ParseNextKey_entry it j e Hg He) as (it' & -> & H'). unfold mbind, res_bind.
  rewrite (entry_next _ _ _ H'). destruct (decide (S j = b)) as [<-|N].
  - rewrite Z.ltb_irrefl. exists it', e. replace (S j - 1)%nat with j by lia. done.
  - pose proof (off_lt l (S j) b ltac:(lia) ltac:(lia)). rewrite (proj2 (Z.ltb_lt _ _)) by lia.
    apply (IH it' (S j)); [by eapply entry_gap|lia|lia].
Qed.

Lemma ParseNextKey_at it i :
  gap it i → (i <= length l)%nat →
  ∃ b it', ParseNextKey it = Ok (b, it') ∧ at_pos it' (if bool_decide (i < length l)%nat then Some i else None).
Proof.
  intros Hg Hi. destruct (decide (i < length l)%nat) as [L|L].
  - rewrite bool_decide_eq_true_2 by done. destruct (lookup_lt_is_Some_2 l i L) as [e He].
    destruct (ParseNextKey_entry it i e Hg He) as (it' & E & H'). exists true, it'. split; [done|]. by exists e.
  - rewrite bool_decide_eq_false_2 by done. assert (i = length l) as -> by lia.
    destruct (ParseNextKey_end it Hg) as (it' & E & H'). by exists false, it'.
Qed.

Lemma SeekToLast_ok it :
  shape it → ∃ it', iter_SeekToLast it = Ok it' ∧ at_pos it' (pos_before (length l)).
Proof.
  intros Hsh. unfold iter_SeekToLast. pose proof rs_positive.
  destruct (lookup_lt_is_Some_2 rs (length rs - 1) ltac:(lia)) as [j Hj].
  rewrite (shape_num _ Hsh). replace (Z.of_nat (length rs) - 1) with (Z.of_nat (length rs - 1)) by lia.
  destruct (SeekToRestartPoint_ok it _ j Hsh Hj) as (it' & -> & Hg & Hjl). unfold mbind, res_bind.
  rewrite (shape_restarts _ (gap_shape _ _ Hg)).
  destruct (rs_inside _ _ Hr _ _ Hj) as [L|[-> E0]].
  - pose proof (parse_fuel_ok it' (gap_shape _ _ Hg)).
    destruct (parse_until_ok (parse_fuel it') it' j (length l) Hg ltac:(lia) ltac:(lia)) as (it2 & e & E & H').
    rewrite off_all in E. exists it2. split; [done|].
    destruct (length l) as [|k] eqn:El; [lia|]. cbn [pos_before]. replace (S k - 1)%nat with k in H' by lia.
    by exists e.
  - unfold parse_fuel. cbn [parse_until].
    destruct (decide (0 < length l)%nat) as [L|L].
    + pose proof (parse_fuel_ok it' (gap_shape _ _ Hg)) as Hf.
      destruct (parse_until_ok (parse_fuel it') it' 0 (length l) Hg ltac:(lia) ltac:(lia)) as (it2 & e & E & H').
      rewrite off_all in E. exists it2. split; [exact E|].
      destruct (length l) as [|k] eqn:El; [lia|]. cbn [pos_before]. replace (S k - 1)%nat with k in H' by lia.
      by exists e.
    + assert (length l = 0%nat) as E by lia. rewrite <- E in Hg.
      destruct (ParseNextKey_end it' Hg) as (it2 & -> & H'). exists it2. split; [done|]. by rewrite E.
Qed.

Lemma prev_restart_ok n : ∀ it i,
  shape it → 0 <= restart_index_ it < Z.of_nat (length rs) → (i < length l)%nat →
  (Z.to_nat (restart_index_ it) < n)%nat →
  ∃ b it', prev_restart n it (off l i) = Ok (b, it') ∧
    if b then shape it' ∧ ∃ m j, restart_index_ it' = Z.of_nat m ∧ rs !! m = Some j ∧ (j < i)%nat
    else i = 0%nat ∧ at_end it'.
Proof.
  pose proof rs_small as Hsm.
  induction n as [|n IH]; intros it i Hsh Hi Hil Hn; [lia|]. cbn [prev_restart].
  destruct (lookup_lt_is_Some_2 rs (Z.to_nat (restart_index_ it)) ltac:(lia)) as [j Hj].
  assert (restart_index_ it = Z.of_nat (Z.to_nat (restart_index_ it))) as Em by lia.
  assert (GetRestartPoint it (restart_index_ it) = Ok (off l j)) as ->
    by (rewrite Em; apply GetRestartPoint_ok; [apply Hsh..|done]).
  unfold mbind, res_bind. destruct (Z.leb_spec (off l i) (off l j)) as [L|L].
  - destruct (Z.eqb_spec (restart_index_ it) 0) as [E0|N0].
    + exists false. eexists. split; [reflexivity|]. rewrite E0 in Hj. change (Z.to_nat 0) with 0%nat in Hj.
      rewrite (rs_first _ _ Hr) in Hj. injection Hj as <-. rewrite off_0 in L. split.
      * destruct i as [|i]; [done|]. pose proof (off_lt l i (S i) ltac:(lia) ltac:(lia)).
        pose proof (off_nonneg l i). lia.
      * destruct Hsh. by split; [split|].
    + rewrite u32_small by lia. apply IH; [by destruct Hsh|cbn; lia|done|cbn; lia].
  - exists true, it. split; [done|]. split; [done|]. exists (Z.to_nat (restart_index_ it)), j.
    split; [done|]. split; [done|].
    destruct (decide (j < i)%nat); [done|]. pose proof (off_mono l i j ltac:(lia)). lia.
Qed.

Lemma Prev_ok it i e : entry it i e → ∃ it', iter_Prev it = Ok it' ∧ at_pos it' (pos_before i).
Proof.
  intros He. unfold iter_Prev. rewrite (entry_valid _ _ _ He). cbn [SkipList.assert_].
  unfold mbind at 1, res_bind at 1. pose proof He as [H1 H2 H3 H4 H5 H6]. rewrite H4.
  pose proof (lookup_lt_Some _ _ _ H3) as Hil.
  destruct (prev_restart_ok (S (Z.to_nat (num_restarts_ it))) it i H1 H2 Hil) as (b & it' & -> & Hp);
    [rewrite (shape_num _ H1); lia|].
  unfold mbind at 1, res_bind at 1. destruct b.
  - destruct Hp as [Hsh (m & j & Em & Hm & Hji)]. rewrite Em.
    destruct (SeekToRestartPoint_ok it' m j Hsh Hm) as (it2 & -> & Hg & _). unfold mbind, res_bind.
    pose proof (parse_fuel_ok it2 (gap_shape _ _ Hg)).
    destruct (parse_until_ok (parse_fuel it2) it2 j i Hg ltac:(lia) ltac:(lia)) as (it3 & e' & E & H').
    exists it3. split; [done|]. destruct i as [|k]; [lia|]. cbn [pos_before].
    replace (S k - 1)%nat with k in H' by lia. by exists e'.
  - destruct Hp as [-> Hp]. by exists it'.
Qed.

(** * Seeking *)

Section seek.
Context {C : SliceComparator} {dom valid : bytes → Prop} {ord : Comparator bytes}.
Context (HC : Lawful C dom valid ord) (Hdom : Forall (λ e, dom (i_key e)) l).

Definition item_entry (e : item) : bytes * bytes := (i_key e, i_value e).
#[local] Abbreviation es := (item_entry <$> l).
Context (Hasc : ascending (ord := ord) es).

Lemma item_compare i e t : l !! i = Some e → dom t → Compare (i_key e) t = Ok (compare_ (i_key e) t).
Proof.
  intros He Ht. apply lawful_compare; [|done].
  by apply (list.Forall_lookup_1 _ _ _ _ Hdom He).
Qed.

Lemma es_lookup i e : l !! i = Some e → es !! i = Some (item_entry e).
Proof. intros He. by rewrite list_lookup_fmap, He. Qed.

Lemma seek_restart_ok n : ∀ it t (a b : nat),
  shape it → dom t → (a <= b < length rs)%nat → (b - a <= n)%nat →
  (a = 0%nat ∨ ∃ j e, rs !! a = Some j ∧ l !! j = Some e ∧ compare_ (i_key e) t < 0) →
  ∃ m, seek_restart n it t (Z.of_nat a) (Z.of_nat b) = Ok (Some (Z.of_nat m)) ∧ (m < length rs)%nat ∧
    (m = 0%nat ∨ ∃ j e, rs !! m = Some j ∧ l !! j = Some e ∧ compare_ (i_key e) t < 0).
Proof.
  pose proof rs_small as Hsm.
  induction n as [|n IH]; intros it t a b Hsh Ht Hab Hn Hinv.
  { assert (a = b) as -> by lia. exists b. cbn. rewrite Z.ltb_irrefl. split; [done|]. split; [lia|done]. }
  cbn [seek_restart]. destruct (Z.ltb_spec (Z.of_nat a) (Z.of_nat b)) as [L|L].
  2:{ exists a. split; [done|]. split; [lia|done]. }
  set (m := ((a + b + 1) / 2)%nat).
  assert (a < m <= b)%nat as Hm by (unfold m; split; [apply Nat.div_le_lower_bound; lia|];
    apply Nat.Div0.div_le_upper_bound; lia).
  assert (u32 (Z.of_nat a + Z.of_nat b + 1) / 2 = Z.of_nat m) as ->.
  { rewrite u32_small by lia. unfold m. rewrite Nat2Z.inj_div. f_equal. lia. }
  destruct (lookup_lt_is_Some_2 rs m ltac:(lia)) as [j Hj].
  rewrite (GetRestartPoint_ok it m j) by (done || apply Hsh). unfold mbind at 1, res_bind at 1.
  destruct (rs_inside _ _ Hr m j Hj) as [Hjl|[_ ->]]; [|lia].
  destruct (lookup_lt_is_Some_2 l j Hjl) as [e He].
  rewrite (shape_data _ Hsh), (shape_restarts _ Hsh), (DecodeEntry_ok j e He).
  unfold mbind at 1, res_bind at 1. rewrite (rs_whole _ _ Hr m j Hj e He). cbn [Z.of_nat Z.eqb negb].
  rewrite (part_delta j e He). unfold mbind, res_bind.
  assert (i_delta e = i_key e) as -> by (unfold i_delta; by rewrite (rs_whole _ _ Hr m j Hj e He)).
  rewrite (item_compare j e t He Ht). destruct (Z.ltb_spec (compare_ (i_key e) t) 0) as [Lt|Lt].
  - apply IH; [done|done|lia|lia|]. right. by exists j, e.
  - replace (Z.of_nat m - 1) with (Z.of_nat (m - 1)) by lia. apply IH; [done|done|lia|lia|done].
Qed.

Lemma seek_loop_ok n : ∀ it i t,
  gap it i → (i <= length l)%nat → dom t → (length l - i < n)%nat →
  (∀ k e, (k < i)%nat → l !! k = Some e → compare_ (i_key e) t < 0) →
  ∃ it', seek_loop n it t = Ok it' ∧ at_pos it' (pos_at es (seek_index es t)).
Proof.
  assert (length es = length l) as Les by apply length_fmap.
  induction n as [|n IH]; intros it i t Hg Hi Ht Hn Hbef; [lia|]. cbn [seek_loop].
  assert (∀ k e, (k < i)%nat → es !! k = Some e → compare_ e.1 t < 0) as Hbef'.
  { intros k e Hk He. apply list_lookup_fmap_Some in He as (x & -> & Hx). by eapply Hbef. }
  destruct (decide (i < length l)%nat) as [L|L].
  - destruct (lookup_lt_is_Some_2 l i L) as [e He].
    destruct (ParseNextKey_entry it i e Hg He) as (it' & -> & H'). unfold mbind, res_bind. cbn [negb].
    rewrite (entry_key _ _ _ H'), (item_compare i e t He Ht).
    destruct (Z.leb_spec 0 (compare_ (i_key e) t)) as [Lt|Lt].
    + exists it'. split; [done|]. rewrite (seek_index_unique es t i), pos_at_lt; [by exists e|lia|lia|done|].
      intros e' He'. rewrite (es_lookup _ _ He) in He'. by injection He' as <-.
    + apply (IH it' (S i)); [by eapply entry_gap|lia|done|lia|]. intros k e' Hk He'.
      destruct (decide (k = i)) as [->|N]; [|apply (Hbef k); [lia|done]].
      rewrite He in He'. by injection He' as <-.
  - assert (i = length l) as -> by lia. destruct (ParseNextKey_end it Hg) as (it' & -> & H').
    unfold mbind, res_bind. cbn [negb]. exists it'. split; [done|].
    rewrite (seek_index_unique es t (length l)), pos_at_ge; [done|lia|lia|done|].
    intros e' He'. apply lookup_lt_Some in He'. lia.
Qed.

Lemma Seek_ok it t :
  shape it → dom t → ∃ it', iter_Seek t it = Ok it' ∧ at_pos it' (pos_at es (seek_index es t)).
Proof.
  intros Hsh Ht. pose proof rs_positive. unfold iter_Seek. rewrite (shape_num _ Hsh).
  replace (Z.of_nat (length rs) - 1) with (Z.of_nat (length rs - 1)) by lia.
  destruct (seek_restart_ok (Z.to_nat (Z.of_nat (length rs))) it t 0 (length rs - 1) Hsh Ht)
    as (m & E & Hm & Hinv); [lia|lia|by left|].
  change (Z.of_nat 0) with 0 in E. rewrite E. unfold mbind at 1, res_bind at 1.
  destruct (lookup_lt_is_Some_2 rs m Hm) as [j Hj].
  destruct (SeekToRestartPoint_ok it m j Hsh Hj) as (it' & -> & Hg & Hjl). unfold mbind, res_bind.
  pose proof (parse_fuel_ok it' (gap_shape _ _ Hg)).
  assert (∀ k e, (k < j)%nat → l !! k = Some e → compare_ (i_key e) t < 0) as Hbef.
  { intros k e Hk He. destruct Hinv as [->|(j' & e' & Hj' & He' & Hlt)].
    - rewrite (rs_first _ _ Hr) in Hj. injection Hj as <-. lia.
    - rewrite Hj in Hj'. injection Hj' as <-.
      apply (ascending_before (Order0 := lawful_order) es k j (item_entry e) (item_entry e')); auto using es_lookup.
      lia. }
  apply (seek_loop_ok (parse_fuel it') it' j t); [done|done|done|lia|done].
Qed.

(** The iterator keeps the contract of iterators. *)
#[export] Instance block_iterates : Iterates (ord := ord) Iter es dom shape at_pos.
Proof.
  assert (length es = length l) as Les by apply length_fmap.
  split.
  - intros it [i|]; [by intros (e & [])|by intros []].
  - intros it H. apply H.
  - intros it [i|]; [intros (e & He); cbn; by rewrite (entry_valid _ _ _ He)|].
    intros He. cbn. by rewrite (end_valid _ He).
  - intros it i (e & He). destruct (entry_read _ _ _ He) as [E1 E2].
    exists (item_entry e). split; [apply es_lookup, He|done].
  - intros it H. cbn. unfold iter_SeekToFirst.
    destruct (SeekToRestartPoint_ok it 0 0 H (rs_first _ _ Hr)) as (it' & E & Hg & _).
    change (Z.of_nat 0) with 0 in E. rewrite E. unfold mbind, res_bind.
    destruct (ParseNextKey_at it' 0 Hg ltac:(lia)) as (b & it2 & -> & H2).
    exists it2. split; [done|]. unfold pos_at. by rewrite Les.
  - intros it H. cbn. rewrite Les. by apply SeekToLast_ok.
  - intros it t H Ht. by apply Seek_ok.
  - intros it i (e & He). cbn. unfold iter_Next. rewrite (entry_valid _ _ _ He).
    cbn [SkipList.assert_]. unfold mbind, res_bind.
    pose proof (lookup_lt_Some _ _ _ (entry_item _ _ _ He)).
    destruct (ParseNextKey_at it (S i) (entry_gap _ _ _ He) ltac:(lia)) as (b & it2 & -> & H2).
    exists it2. split; [done|]. unfold pos_at. by rewrite Les.
  - intros it i (e & He). by apply (Prev_ok it i e).
Qed.
End seek.
End layout.

(** * Opening a block *)

Section opening.
Context (l : list item) (rs : list nat).
Context (Hl : linked [] l) (Hr : restarts_ok l rs) (Hb : Forall item_bytes l).
Context (Hs : Slice.size (block_of l rs) < 2 ^ 32).

Lemma NumRestarts_ok :
  num_restarts_of (block_of l rs) (Slice.size (block_of l rs)) = Ok (Z.of_nat (length rs)).
Proof.
  pose proof (block_size l rs) as B. pose proof (rs_small l rs Hs) as Hsm.
  assert (0 <= Slice.size (body l)) by (unfold Slice.size; lia).
  unfold num_restarts_of. rewrite (proj2 (Z.leb_le 4 _)) by lia. cbn [SkipList.assert_].
  unfold mbind, res_bind. rewrite B. unfold block_of at 1.
  replace (Z.to_nat _) with (length (body l) + length (words ((λ j, u32 (off l j)) <$> rs)))%nat
    by (rewrite length_words, length_fmap; unfold Slice.size; lia).
  rewrite <- drop_drop, !drop_app_length. rewrite <- (app_nil_r (le_bytes _ _)).
  apply DecodeFixed32_word. lia.
Qed.

Lemma open_block {C : SliceComparator} :
  ∃ blk it, Block.new (block_of l rs) = Ok blk ∧ NewIterator blk = Ok (inr it) ∧ at_pos l rs it None.
Proof.
  pose proof (block_size l rs) as B. pose proof (rs_small l rs Hs) as Hsm.
  pose proof (rs_positive l rs Hr). assert (0 <= Slice.size (body l)) by (unfold Slice.size; lia).
  unfold Block.new. rewrite (proj2 (Z.ltb_ge _ 4)) by lia. rewrite NumRestarts_ok.
  unfold mbind, res_bind. rewrite (proj2 (Z.ltb_ge _ _)) by (Z.div_mod_to_equations; lia).
  eexists _, _. split; [reflexivity|]. unfold NewIterator, NumRestarts. cbn [size_ data_ restart_offset_].
  rewrite (proj2 (Z.ltb_ge _ 4)) by lia. rewrite NumRestarts_ok. unfold mbind, res_bind.
  rewrite (proj2 (Z.eqb_neq _ 0)) by lia. unfold Iter_new. rewrite (proj2 (Z.ltb_lt 0 _)) by lia.
  split; [reflexivity|].
  assert (u32 (Slice.size (block_of l rs) - u32 (1 + Z.of_nat (length rs)) * 4) = Slice.size (body l)) as E.
  { rewrite (u32_small (1 + _)) by lia. rewrite B, u32_small by lia. lia. }
  split; [split|]; cbn; done.
Qed.
End opening.

(** * Building a block *)

Section building.
Context {C : SliceComparator} {dom valid : bytes → Prop} {ord : Comparator bytes}.
Context (HC : Lawful C dom valid ord) (interval : Z) (Hint : 1 <= interval).
Import BlockBuilder.

Definition last_of (l : list item) : bytes := match list.last l with Some e => i_key e | None => [] end.

Record building (b : BlockBuilder) (l : list item) (rs : list nat) : Prop := {
  bu_buffer : buffer_ b = body l;
  bu_restarts : BlockBuilder.restarts_ b = (λ j, u32 (off l j)) <$> rs;
  bu_counter : 0 <= counter_ b <= interval;
  bu_empty : l = [] → counter_ b = 0;
  bu_finished : finished_ b = false;
  bu_last : last_key_ b = last_of l;
  bu_linked : linked [] l;
  bu_ok : restarts_ok l rs;
  bu_bytes : Forall item_bytes l
}.

Lemma building_new : ∃ b, BlockBuilder.new interval = Ok b ∧ building b [] [0%nat].
Proof.
  unfold BlockBuilder.new. rewrite (proj2 (Z.leb_le _ _)) by done. eexists. split; [reflexivity|].
  split; try done; [cbn; lia|]. split; [done|done|].
  intros m j Hm. right. destruct m as [|m]; [by injection Hm as <-|by destruct m].
Qed.

Lemma shared_loop_ok n : ∀ (a b : bytes) (s : nat),
  Forall is_byte a → Forall is_byte b → (s + n <= length a)%nat → (s + n <= length b)%nat →
  take s a = take s b →
  ∃ s', shared_loop n a b s = Ok s' ∧ (s' <= s + n)%nat ∧ take s' a = take s' b.
Proof.
  induction n as [|n IH]; intros a b s Ha Hb La Lb E; [exists s; split; [done|split; [lia|done]]|].
  cbn [shared_loop]. unfold Slice.index. rewrite !(proj2 (Z.ltb_lt _ _)) by (unfold Slice.size; lia).
  rewrite Nat2Z.id.
  destruct (lookup_lt_is_Some_2 a s ltac:(lia)) as [x Hx]. destruct (lookup_lt_is_Some_2 b s ltac:(lia)) as [y Hy].
  rewrite Hx, Hy. cbn [of_option]. unfold mbind, res_bind. destruct (Z.eqb_spec (s8 x) (s8 y)) as [Exy|].
  - assert (x = y) as ->.
    { apply s8_inj; [exact (list.Forall_lookup_1 _ _ _ _ Ha Hx)|exact (list.Forall_lookup_1 _ _ _ _ Hb Hy)|done]. }
    destruct (IH a b (S s)) as (s' & Es & Hle & Et); [done|done|lia|lia| |].
    { by rewrite (take_S_r _ _ _ Hx), (take_S_r _ _ _ Hy), E. }
    exists s'. split; [done|]. split; [lia|done].
  - exists s. split; [done|]. split; [lia|done].
Qed.

Lemma off_app l e j : (j <= length l)%nat → off (l ++ [e]) j = off l j.
Proof. intros Hj. unfold off. by rewrite take_app_le. Qed.

Lemma linked_snoc l : ∀ k e,
  linked k l → let p := match list.last l with Some x => i_key x | None => k end in
  (i_shared e <= length p)%nat → (i_shared e <= length (i_key e))%nat →
  take (i_shared e) p = take (i_shared e) (i_key e) → linked k (l ++ [e]).
Proof.
  induction l as [|x l IH]; intros k e Hl p H1 H2 H3; [done|].
  destruct Hl as (L1 & L2 & L3 & Hl). cbn [app linked]. split_and!; try done.
  assert (match list.last l with Some y => i_key y | None => i_key x end = p) as Ep.
  { unfold p. rewrite list.last_cons. by destruct (list.last l). }
  apply IH; by rewrite ?Ep.
Qed.

Lemma restarts_snoc l rs e :
  restarts_ok l rs → (l = [] → i_shared e = 0%nat) → restarts_ok (l ++ [e]) rs.
Proof.
  intros [H1 H2 H3] He. split; [done| |].
  - intros m j Hm e' He'. destruct (H3 m j Hm) as [L|[-> ->]].
    + rewrite lookup_app_l in He' by done. by eapply H2.
    + destruct l as [|x l]; [injection He' as <-; by apply He|]. cbn in He'. injection He' as <-.
      by apply (H2 0%nat 0%nat).
  - intros m j Hm. left. rewrite length_app. cbn. destruct (H3 m j Hm) as [L|[-> ->]]; lia.
Qed.

Lemma restarts_push l rs e :
  restarts_ok l rs → l ≠ [] → i_shared e = 0%nat → restarts_ok (l ++ [e]) (rs ++ [length l]).
Proof.
  intros H Hne He. destruct (restarts_snoc l rs e H ltac:(done)) as [H1 H2 H3]. split.
  - by apply lookup_app_l_Some.
  - intros m j Hm e' He'. apply lookup_app_Some in Hm as [Hm|[_ Hm]]; [by eapply H2|].
    apply list_lookup_singleton_Some in Hm as [_ <-]. rewrite list_lookup_middle in He' by done.
    by injection He' as <-.
  - intros m j Hm. apply lookup_app_Some in Hm as [Hm|[_ Hm]]; [by eapply H3|].
    apply list_lookup_singleton_Some in Hm as [_ <-]. left. rewrite length_app. cbn. lia.
Qed.

Lemma eqb_refl k : Slice.eqb k k = Ok true.
Proof.
  destruct (slice_order k k k) as (_ & _ & _ & _ & E & _). rewrite E. by rewrite bool_decide_eq_true_2.
Qed.

(** One entry more. *)
Lemma Add_ok b l rs k v :
  building b l rs → dom k → Forall is_byte k → Forall is_byte v →
  Forall (λ e, dom (i_key e)) l → (∀ e, list.last l = Some e → compare_ (i_key e) k < 0) →
  ∃ b' e rs', BlockBuilder.Add interval b k v = Ok b' ∧ building b' (l ++ [e]) rs' ∧ item_entry e = (k, v).
Proof.
  intros [H1 H2 H3 H0 H4 H5 H6 H7 H8] Hk Bk Bv Hdom Hlast. unfold BlockBuilder.Add.
  rewrite H4, (proj2 (Z.leb_le _ _)) by lia. cbn [negb SkipList.assert_].
  unfold mbind at 1 2, res_bind at 1 2.
  assert ((if Slice.empty (buffer_ b) then Ok true else c ← Compare k (last_key_ b); Ok (0 <? c)) = Ok true) as ->.
  { destruct (Slice.empty (buffer_ b)) eqn:Ee; [done|]. rewrite H5. unfold last_of.
    destruct (list.last l) as [e|] eqn:El.
    - assert (dom (i_key e)) as He.
      { apply list.last_Some in El as [l' ->]. apply List.Forall_app in Hdom as [_ Hdom].
        by apply list.Forall_cons in Hdom as [? _]. }
      rewrite (lawful_compare k (i_key e) Hk He). unfold mbind, res_bind. f_equal. apply Z.ltb_lt.
      apply (cmp_swap (Order := lawful_order)). by apply Hlast.
    - apply list.last_None in El as ->. rewrite H1 in Ee. done. }
  unfold mbind at 1, res_bind at 1. cbn [SkipList.assert_]. unfold mbind at 1, res_bind at 1.
  assert (Forall is_byte (last_key_ b)) as Bl.
  { rewrite H5. unfold last_of. destruct (list.last l) as [e|] eqn:El; [|constructor].
    apply list.last_Some in El as [l' ->]. apply List.Forall_app in H8 as [_ H8].
    apply list.Forall_cons in H8 as [[? _] _]. done. }
  (* the shared prefix *)
  assert (∃ s rs' c', (if counter_ b <? interval
      then shared ← shared_loop (Nat.min (length (last_key_ b)) (length k)) (last_key_ b) k 0;
        Ok (shared, BlockBuilder.restarts_ b, counter_ b)
      else Ok (0%nat, BlockBuilder.restarts_ b ++ [u32 (Slice.size (buffer_ b))], 0)) =
      Ok (s, (λ j, u32 (off (l ++ [mkItem s k v]) j)) <$> rs', c') ∧
    (s <= length (last_key_ b))%nat ∧ (s <= length k)%nat ∧ take s (last_key_ b) = take s k ∧
    restarts_ok (l ++ [mkItem s k v]) rs' ∧ 0 <= c' < interval) as (s & rs' & c' & -> & S1 & S2 & S3 & Hr' & Hc').
  { assert (∀ s', (λ j, u32 (off (l ++ [mkItem s' k v]) j)) <$> rs = BlockBuilder.restarts_ b) as Ers.
    { intros s'. rewrite H2. apply list_fmap_ext. intros m j Hm. rewrite off_app; [done|].
      destruct (rs_inside _ _ H7 m j Hm); lia. }
    destruct (Z.ltb_spec (counter_ b) interval) as [L|L].
    - destruct (shared_loop_ok (Nat.min (length (last_key_ b)) (length k)) (last_key_ b) k 0 Bl Bk)
        as (s & -> & Hs & Et); [lia|lia|done|]. unfold mbind, res_bind.
      exists s, rs, (counter_ b). rewrite Ers. split; [done|]. split; [lia|]. split; [lia|]. split; [done|].
      split; [|lia]. apply restarts_snoc; [done|]. intros ->. rewrite H5 in Hs. cbn in Hs. cbn. lia.
    - destruct l as [|x l'] eqn:El.
      + (* the first entry is never a new restart point *)
        rewrite (H0 eq_refl) in L. lia.
      + rewrite <- El in *. exists 0%nat, (rs ++ [length l]), 0.
        rewrite fmap_app, Ers. cbn [fmap list_fmap]. rewrite off_app, off_all, H1 by done.
        split; [done|]. split; [lia|]. split; [lia|]. split; [done|]. split; [|lia].
        apply restarts_push; [done|by rewrite El|done]. }
  unfold mbind at 1, res_bind at 1. set (e := mkItem s k v) in *.
  assert (Slice.size k - Z.of_nat s = Slice.size (i_delta e)) as ->
    by (unfold Slice.size, i_delta; cbn; rewrite length_drop; lia).
  assert (take s (last_key_ b) ++ drop s k = k) as -> by (rewrite S3; apply take_drop).
  rewrite eqb_refl. unfold mbind, res_bind. cbn [SkipList.assert_].
  eexists _, e, rs'. split; [reflexivity|]. split; [|done].
  split; cbn [buffer_ BlockBuilder.restarts_ counter_ finished_ last_key_].
  - rewrite body_app, H1. unfold Coding.PutVarint32. rewrite !EncodeVarint32_varint by apply u32_range.
    assert (body [e] = encode_item e) as -> by apply app_nil_r. unfold encode_item, i_header, e.
    cbn [i_shared i_value]. by rewrite <- !app_assoc.
  - done.
  - lia.
  - by destruct l.
  - done.
  - unfold last_of. by rewrite list.last_snoc.
  - apply linked_snoc; [done|..]; cbn [i_shared i_key e]; unfold last_of in H5; rewrite H5 in *;
      by destruct (list.last l).
  - done.
  - apply List.Forall_app. split; [done|]. by repeat constructor.
Qed.

Fixpoint add_all (b : BlockBuilder) (kvs : entries) : res BlockBuilder :=
  match kvs with
  | [] => Ok b
  | (k, v) :: kvs => b ← BlockBuilder.Add interval b k v; add_all b kvs
  end.

Definition entry_ok (kv : bytes * bytes) : Prop := dom kv.1 ∧ Forall is_byte kv.1 ∧ Forall is_byte kv.2.

Lemma add_all_ok kvs : ∀ b l rs,
  building b l rs → Forall entry_ok kvs → Forall (λ e, dom (i_key e)) l →
  ascending (ord := ord) ((item_entry <$> l) ++ kvs) →
  ∃ b' l' rs', add_all b kvs = Ok b' ∧ building b' l' rs' ∧ item_entry <$> l' = (item_entry <$> l) ++ kvs ∧
    Forall (λ e, dom (i_key e)) l'.
Proof.
  induction kvs as [|[k v] kvs IH]; intros b l rs Hb Hok Hdom Hasc.
  { exists b, l, rs. by rewrite app_nil_r. }
  apply list.Forall_cons in Hok as [(Dk & Bk & Bv) Hok]. cbn [fst snd] in *.
  destruct (Add_ok b l rs k v Hb Dk Bk Bv Hdom) as (b1 & e & rs1 & E & Hb1 & Ee).
  { intros e0 He0. apply list.last_Some in He0 as [l' ->]. rewrite fmap_app in Hasc. cbn in Hasc.
    rewrite <- app_assoc in Hasc.
    apply (ascending_lt _ (length (item_entry <$> l')) (S (length (item_entry <$> l'))) (item_entry e0) (k, v) Hasc);
      [by apply list_lookup_middle| |lia].
    rewrite lookup_app_r by lia. by replace (S _ - _)%nat with 1%nat by lia. }
  cbn [add_all]. rewrite E. unfold mbind, res_bind.
  assert (item_entry <$> l ++ [e] = (item_entry <$> l) ++ [(k, v)]) as Ef by (rewrite fmap_app; cbn; by rewrite Ee).
  destruct (IH b1 (l ++ [e]) rs1 Hb1 Hok) as (b' & l' & rs' & E' & Hb' & El' & Hd').
  - apply List.Forall_app. split; [done|]. constructor; [|done]. unfold item_entry in Ee. by injection Ee as -> _.
  - by rewrite Ef, <- app_assoc.
  - exists b', l', rs'. rewrite El', Ef, <- app_assoc. done.
Qed.

Lemma Finish_block b l rs : building b l rs → Z.of_nat (length rs) < 2 ^ 32 → (Finish b).1 = block_of l rs.
Proof.
  intros [H1 H2 _ _ _ _ _ _ _] Hn. unfold Finish, block_of. cbn [fst].
  rewrite fold_PutFixed32, H1, H2, length_fmap. unfold Coding.PutFixed32, Coding.EncodeFixed32.
  rewrite <- app_assoc. by rewrite u32_small by lia.
Qed.

Lemma Finish_size b l rs :
  building b l rs → Slice.size (Finish b).1 = Slice.size (body l) + 4 * Z.of_nat (length rs) + 4.
Proof.
  intros [H1 H2 _ _ _ _ _ _ _]. unfold Finish. cbn [fst]. rewrite fold_PutFixed32, H1, H2.
  unfold Coding.PutFixed32, Coding.EncodeFixed32, Slice.size.
  rewrite !length_app, length_words, length_fmap, length_le_bytes. lia.
Qed.
End building.

(** C30: blocks. A block is built from entries in ascending order, under any lawful
    comparator and any restart interval. Adding succeeds; the estimate of the size is
    exact; and of a block below 4 GiB, the iterator keeps the contract of iterators:
    it enumerates the entries from the first one and, backwards, from the last one,
    and seeking finds the first entry that is not before the target, from every
    state. *)
Theorem block_correct (C : SliceComparator) dom valid ord interval (kvs : entries) :
  Lawful C dom valid ord → 1 <= interval →
  Forall (entry_ok (dom := dom)) kvs → ascending (ord := ord) kvs →
  ∃ b0 b, BlockBuilder.new interval = Ok b0 ∧ add_all interval b0 kvs = Ok b ∧
    let contents := (BlockBuilder.Finish b).1 in
    BlockBuilder.CurrentSizeEstimate b = u64 (Slice.size contents) ∧
    (Slice.size contents < 2 ^ 32 →
      ∃ blk it ready at_, Block.new contents = Ok blk ∧ NewIterator blk = Ok (inr it) ∧ ready it ∧
        Iterates (ord := ord) Iter kvs dom ready at_ ∧
        (∃ s, iter_SeekToFirst it = Ok s ∧ forward (S (length kvs)) s = Ok kvs) ∧
        (∃ s, iter_SeekToLast it = Ok s ∧ backward (S (length kvs)) s = Ok (reverse kvs)) ∧
        ∀ t, dom t → ∃ s, iter_Seek t it = Ok s ∧
          forward (S (length kvs)) s = Ok (drop (seek_index (ord := ord) kvs t) kvs)).
Proof.
  intros HC Hint Hok Hasc. destruct (building_new interval Hint) as (b0 & E0 & H0).
  destruct (add_all_ok HC interval Hint kvs b0 [] [0%nat] H0 Hok) as (b & l & rs & E & Hb & El & Hd); [done|done|].
  exists b0, b. split; [done|]. split; [done|]. intros contents.
  pose proof (Finish_size interval b l rs Hb) as Hsz. fold contents in Hsz.
  split.
  { unfold BlockBuilder.CurrentSizeEstimate. destruct Hb as [H1 H2 _ _ _ _ _ _ _].
    rewrite H1, H2, length_fmap, Hsz. do 2 f_equal. lia. }
  intros Hs. pose proof Hb as [_ _ _ _ _ _ H6 H7 H8].
  assert (contents = block_of l rs) as Ec.
  { apply (Finish_block interval); [done|]. unfold Slice.size in *. lia. }
  rewrite Ec in Hs |- *. cbn [fmap list_fmap app] in El.
  assert (ascending (ord := ord) (item_entry <$> l)) as Hasc' by by rewrite El.
  destruct (open_block l rs H7 Hs) as (blk & it & En & Ei & [Hsh _]).
  pose proof (block_iterates l rs H6 H7 H8 Hs HC Hd Hasc') as HI. rewrite El in HI.
  exists blk, it, (shape l rs), (at_pos l rs). split; [done|]. split; [done|]. split; [done|]. split; [done|].
  split; [by apply (forward_all (H0 := HI))|]. split; [by apply (backward_all (H0 := HI))|].
  intros t Ht. by apply (forward_seek (H0 := HI)).
Qed.

Definition example_entries : entries :=
  [([1; 2; 3], [10]); ([1; 2; 4], [11; 12]); ([1; 2; 4; 0], []); ([1; 3], [13]); ([2], [14])].

Lemma block_correct_witness :
  Lawful Bytewise.BytewiseComparator (λ _, True) (Forall is_byte) bytewise_order ∧ 1 <= 2 ∧
  Forall (entry_ok (dom := λ _, True)) example_entries ∧ ascending (ord := bytewise_order) example_entries ∧
  ∃ b0 b it s, BlockBuilder.new 2 = Ok b0 ∧
    add_all (C := Bytewise.BytewiseComparator) 2 b0 example_entries = Ok b ∧
    length (BlockBuilder.Finish b).1 = 46%nat ∧
    iter_Seek (comparator_ := Bytewise.BytewiseComparator) [1; 2; 4; 0; 0] it = Ok s ∧
    forward (H := block_iter (comparator_ := Bytewise.BytewiseComparator)) 6 s = Ok [([1; 3], [13]); ([2], [14])].
Proof.
  split; [apply bytewise_lawful|]. split; [lia|].
  assert (Forall (entry_ok (dom := λ _, True)) example_entries) as Hok
    by (repeat constructor; unfold is_byte; cbn; lia).
  assert (ascending (ord := bytewise_order) example_entries) as Ha by (repeat constructor).
  split; [exact Hok|]. split; [exact Ha|].
  destruct (block_correct Bytewise.BytewiseComparator (λ _, True) (Forall is_byte) bytewise_order 2 example_entries
    bytewise_lawful ltac:(lia) Hok Ha) as (b0 & b & E0 & E & _ & Hopen).
  assert (length (BlockBuilder.Finish b).1 = 46%nat) as El.
  { vm_compute in E0. injection E0 as <-. vm_compute in E. injection E as <-. reflexivity. }
  destruct (Hopen ltac:(unfold Slice.size; rewrite El; reflexivity)) as (blk & it & _ & _ & En & Ei & _ & _ & _ & _ & Hseek).
  destruct (Hseek [1; 2; 4; 0; 0] I) as (s & Es & Ef).
  exists b0, b, it, s. split; [exact E0|]. split; [exact E|]. split; [exact El|]. split; [exact Es|].
  refine (eq_trans Ef _). vm_compute. reflexivity.
Defined.

(** An entry whose two lengths add up to 2^32 and a little passes the check of
    [DecodeEntry], and the key is read beyond the block. *)
Example lengths_wrap :
  let contents := [0; 0xfe; 0xff; 0xff; 0xff; 0x0f; 2; 0; 0; 0; 0; 0; 0; 0; 0; 0; 1; 0; 0; 0] in
  ∃ blk it, Block.new contents = Ok blk ∧
    NewIterator blk = Ok (inr it) ∧
    iter_SeekToFirst it = UB.
Proof. eexists _, _. split; [reflexivity|]. split; [reflexivity|]. vm_compute. reflexivity. Qed.
