(* ===== verification/LdbBlockSafe.v ===== *)
(** The iterator of a block with any contents: every operation returns, reads nothing
    outside of the block, and leaves the iterator usable, as long as no entry has
    lengths whose sum wraps around. *)
From S2P Require Import Prelude LdbSkip LdbFormat LdbCodingProps LdbIterator LdbBlock LdbBlockProps.
Import Block.

Lemma split_varint_bytes n : ∀ p bs rest,
  split_varint n p = Some (bs, rest) → p = bs ++ rest ∧ (1 <= length bs)%nat.
Proof.
  intros p bs rest E. split; [by eapply split_varint_concat|].
  apply split_varint_value in E. destruct bs; [done|]. cbn. lia.
Qed.

(** A varint is a nonnegative number below 2^32 and takes at least a byte. *)
Lemma GetVarint32Ptr_any p :
  Forall is_byte p →
  ∃ r, Coding.GetVarint32Ptr p = Ok r ∧
    match r with
    | None => True
    | Some (v, rest) => 0 <= v < 2 ^ 32 ∧ Forall is_byte rest ∧ Slice.size rest + 1 <= Slice.size p
    end.
Proof.
  intros Hp. change Coding.GetVarint32Ptr with Coding.GetVarint32. rewrite GetVarint32_ok by done.
  eexists. split; [reflexivity|]. unfold parse_varint.
  destruct (split_varint 5 p) as [[bs rest]|] eqn:E; [|done].
  apply split_varint_bytes in E as [-> Hl]. apply List.Forall_app in Hp as [_ Hr].
  split; [apply Z.mod_pos_bound; lia|]. split; [done|]. unfold Slice.size. rewrite length_app. lia.
Qed.

Section safe.
Context {C : SliceComparator} (HC : ∀ a b, ∃ c, Compare a b = Ok c).
Context (data : bytes) (limit num : Z).
Context (Hb : Forall is_byte data) (Hlim : 0 <= limit) (Hnum : 0 < num).
Context (Hsize : limit + 4 * num <= Slice.size data) (Hsmall : Slice.size data < 2 ^ 32).

(** No entry anywhere in the block has lengths that wrap around. *)
Definition no_wrap : Prop := ∀ p s n v q,
  0 <= p → DecodeEntry data p limit = Ok (Some (s, n, v, q)) → n + v < 2 ^ 32.
Context (Hw : no_wrap).

Lemma DecodeEntry_any p :
  0 <= p →
  ∃ r, DecodeEntry data p limit = Ok r ∧
    match r with
    | None => True
    | Some (s, n, v, q) => 0 <= s ∧ 0 <= n ∧ 0 <= v ∧ p + 3 <= q ∧ q + n + v <= limit
    end.
Proof.
  intros Hp.
  assert (∃ r, DecodeEntry data p limit = Ok r ∧
    match r with
    | None => True
    | Some (s, n, v, q) => 0 <= s ∧ 0 <= n ∧ 0 <= v ∧ p + 3 <= q ∧ q <= limit ∧ u32 (n + v) <= u32 (limit - q)
    end) as (r & E & Hr).
  { unfold DecodeEntry. destruct (Z.ltb_spec (limit - p) 3) as [L|L]; [by exists None|].
    set (e := take _ _).
    assert (Forall is_byte e) as He by (by apply Forall_take, Forall_drop).
    assert (Slice.size e = limit - p) as Le.
    { unfold e, Slice.size in *. rewrite length_take, length_drop. lia. }
    assert (∀ i, (i < 3)%nat → ∃ b, e !! i = Some b ∧ is_byte b) as Hi.
    { intros i Hi. destruct (lookup_lt_is_Some_2 e i) as [b Eb]; [unfold Slice.size in Le; lia|].
      exists b. split; [done|]. exact (list.Forall_lookup_1 _ _ _ _ He Eb). }
    destruct (Hi 0%nat) as (x & -> & Bx); [lia|]. destruct (Hi 1%nat) as (y & -> & By); [lia|].
    destruct (Hi 2%nat) as (z & -> & Bz); [lia|]. unfold is_byte in *.
    unfold mbind, res_bind. cbn [of_option].
    assert (∀ s n v q, 0 <= s → 0 <= n → 0 <= v → p + 3 <= q → q <= limit →
      ∃ r, (if u32 (limit - q) <? u32 (n + v) then Ok None else Ok (Some (s, n, v, q))) = Ok r ∧
        match r with
        | None => True
        | Some (s, n, v, q) => 0 <= s ∧ 0 <= n ∧ 0 <= v ∧ p + 3 <= q ∧ q <= limit ∧ u32 (n + v) <= u32 (limit - q)
        end) as Hlast.
    { intros s n v q *. intros. destruct (Z.ltb_spec (u32 (limit - q)) (u32 (n + v))); eexists; (split; [reflexivity|]); [done|].
      split_and!; lia. }
    destruct (_ <? 128); [apply Hlast; lia|].
    destruct (GetVarint32Ptr_any e He) as (r1 & -> & H1). destruct r1 as [[s p1]|]; [|by exists None].
    destruct H1 as (V1 & B1 & L1).
    destruct (GetVarint32Ptr_any p1 B1) as (r2 & -> & H2). destruct r2 as [[n p2]|]; [|by exists None].
    destruct H2 as (V2 & B2 & L2).
    destruct (GetVarint32Ptr_any p2 B2) as (r3 & -> & H3). destruct r3 as [[v p3]|]; [|by exists None].
    destruct H3 as (V3 & B3 & L3). assert (0 <= Slice.size p3) by (unfold Slice.size; lia).
    apply Hlast; lia. }
  exists r. split; [done|]. destruct r as [[[[s n] v] q]|]; [|done].
  pose proof (Hw _ _ _ _ _ Hp E) as Hnv. destruct Hr as (Hs & Hn & Hv & Hq & Hql & Hu).
  rewrite !u32_small in Hu by lia. split_and!; lia.
Qed.

(** * States *)

Record sane (it : Iter) : Prop := {
  sane_data : iter_data_ it = data;
  sane_restarts : restarts_ it = limit;
  sane_num : num_restarts_ it = num;
  sane_valid : current_ it < limit →
    0 <= current_ it ∧ 0 <= restart_index_ it < num ∧
    ∃ o n, value_ it = Some (o, n) ∧ 0 <= o ∧ 0 <= n ∧ current_ it + 3 <= o + n ∧ o + n <= limit
}.

(** Before [ParseNextKey]: the next entry is at [x]. *)
Record parsing (it : Iter) (x : Z) : Prop := {
  parsing_data : iter_data_ it = data;
  parsing_restarts : restarts_ it = limit;
  parsing_num : num_restarts_ it = num;
  parsing_index : 0 <= restart_index_ it < num;
  parsing_value : ∃ o n, value_ it = Some (o, n) ∧ 0 <= o ∧ 0 <= n ∧ o + n = x ∧ x < 2 ^ 32
}.

Lemma sane_parsing it : sane it → current_ it < limit → ∃ x, parsing it x ∧ current_ it + 3 <= x.
Proof.
  intros [H1 H2 H3 H4] Hc. destruct (H4 Hc) as (H5 & H6 & o & n & H7 & Ho & Hn & H8 & H9).
  exists (o + n). split; [|done]. split; try done. exists o, n. split_and!; try done. lia.
Qed.

Lemma restart_any it m : iter_data_ it = data → restarts_ it = limit → num_restarts_ it = num → 0 <= m < num →
  ∃ x, GetRestartPoint it m = Ok x ∧ 0 <= x < 2 ^ 32.
Proof.
  intros H1 H2 H3 Hm. unfold GetRestartPoint. rewrite H1, H2, H3, (proj2 (Z.ltb_lt _ _)) by lia.
  cbn [SkipList.assert_]. unfold mbind, res_bind.
  rewrite DecodeFixed32_ok by (unfold Slice.size in *; rewrite length_drop; lia).
  eexists. split; [reflexivity|].
  assert (Forall is_byte (take 4 (drop (Z.to_nat (limit + m * 4)) data))) as Hf
    by (by apply Forall_take, Forall_drop).
  pose proof (le_of_bytes_bound _ Hf) as B.
  assert (length (take 4 (drop (Z.to_nat (limit + m * 4)) data)) <= 4)%nat by (rewrite length_take; lia).
  assert (2 ^ (8 * Z.of_nat (length (take 4 (drop (Z.to_nat (limit + m * 4)) data)))) <= 2 ^ 32)
    by (apply Z.pow_le_mono_r; lia). lia.
Qed.

Lemma index_loop_any n : ∀ it,
  iter_data_ it = data → restarts_ it = limit → num_restarts_ it = num → 0 <= restart_index_ it < num →
  (Z.to_nat (num - restart_index_ it) <= n)%nat →
  ∃ k, index_loop n it = Ok (set_index it k) ∧ 0 <= k < num.
Proof.
  induction n as [|n IH]; intros it H1 H2 H3 Hi Hn; [lia|]. cbn [index_loop].
  rewrite u32_small by lia. rewrite H3.
  assert (set_index it (restart_index_ it) = it) as Eid by by destruct it.
  destruct (Z.ltb_spec (restart_index_ it + 1) num) as [L|L].
  2:{ exists (restart_index_ it). by rewrite Eid. }
  destruct (restart_any it (restart_index_ it + 1) H1 H2 H3) as (x & -> & _); [lia|].
  unfold mbind, res_bind. destruct (x <? current_ it).
  - destruct (IH (set_index it (restart_index_ it + 1))) as (k & E & Hk); [done..|cbn; lia|cbn; lia|]. by exists k.
  - exists (restart_index_ it). by rewrite Eid.
Qed.

Lemma sane_end it : iter_data_ it = data → restarts_ it = limit → num_restarts_ it = num → limit <= current_ it → sane it.
Proof. intros. split; try done. lia. Qed.

Lemma ParseNextKey_any it x :
  parsing it x →
  ∃ b it', ParseNextKey it = Ok (b, it') ∧ sane it' ∧
    (b = true → current_ it' = x ∧ x < limit).
Proof.
  intros [H1 H2 H3 H4 (o & n & Hv & Ho & Hn & Hx & Hx2)].
  unfold ParseNextKey, NextEntryOffset. rewrite Hv. unfold mbind, res_bind. cbn [of_option].
  rewrite Hx, (u32_small x) by lia. cbn [set_entry restarts_ iter_data_]. rewrite H1, H2.
  destruct (Z.leb_spec limit x) as [L|L].
  { eexists _, _. split; [reflexivity|]. split; [|done]. apply sane_end; cbn; [done..|lia]. }
  destruct (DecodeEntry_any x ltac:(lia)) as (r & -> & Hr).
  destruct r as [[[[s m] v] q]|].
  2:{ eexists _, _. split; [reflexivity|]. split; [|done]. apply sane_end; cbn; [done..|lia]. }
  destruct Hr as (Hs & Hm & Hvl & Hq & Hend). cbn [set_entry key_].
  destruct (Slice.size (key_ it) <? s).
  { eexists _, _. split; [reflexivity|]. split; [|done]. apply sane_end; cbn; [done..|lia]. }
  unfold part. rewrite (proj2 (Z.leb_le _ _)) by lia. cbv beta iota.
  match goal with |- context [index_loop ?n ?i] =>
    destruct (index_loop_any n i) as (k & E & Hk); [done..|cbn; lia|] end.
  rewrite E. eexists _, _. split; [reflexivity|]. split; [|done].
  split; [done..|]. cbn. intros _. split; [lia|]. split; [lia|]. exists (q + m), v. split; [done|]. lia.
Qed.

Lemma Valid_spec it : sane it → iter_Valid it = (current_ it <? limit).
Proof. intros H. unfold iter_Valid. by rewrite (sane_restarts _ H). Qed.

Lemma NextEntryOffset_any it : sane it → current_ it < limit →
  ∃ x, NextEntryOffset it = Ok x ∧ parsing it x ∧ current_ it + 3 <= x.
Proof.
  intros Hs Hc. destruct (sane_parsing it Hs Hc) as (x & Hp & Hx). exists x. split; [|done].
  destruct Hp as [_ _ _ _ (o & n & Hv & Ho & Hn & <- & H32)]. unfold NextEntryOffset. rewrite Hv.
  cbn [of_option]. unfold mbind, res_bind. by rewrite u32_small by lia.
Qed.

Lemma parse_until_any n : ∀ it x bound,
  parsing it x → 0 <= x → (Z.to_nat (limit - x) < n)%nat →
  ∃ it', parse_until n it bound = Ok it' ∧ sane it'.
Proof.
  induction n as [|n IH]; intros it x bound Hp Hx Hn; [lia|]. cbn [parse_until].
  destruct (ParseNextKey_any it x Hp) as (b & it' & -> & Hs & Ht). unfold mbind, res_bind.
  destruct b; [|by exists it']. destruct (Ht eq_refl) as [Hc Hl].
  destruct (NextEntryOffset_any it' Hs ltac:(lia)) as (x' & -> & Hp' & Hx').
  destruct (x' <? bound); [|by exists it']. apply (IH it' x'); [done|lia|lia].
Qed.

Lemma seek_loop_any n : ∀ it x t,
  parsing it x → 0 <= x → (Z.to_nat (limit - x) < n)%nat →
  ∃ it', seek_loop n it t = Ok it' ∧ sane it'.
Proof.
  induction n as [|n IH]; intros it x t Hp Hx Hn; [lia|]. cbn [seek_loop].
  destruct (ParseNextKey_any it x Hp) as (b & it' & -> & Hs & Ht). unfold mbind, res_bind.
  destruct b; cbn [negb]; [|by exists it']. destruct (Ht eq_refl) as [Hc Hl].
  destruct (HC (key_ it') t) as [c ->]. destruct (0 <=? c); [by exists it'|].
  destruct (sane_parsing it' Hs ltac:(lia)) as (x' & Hp' & Hx'). apply (IH it' x'); [done|lia|lia].
Qed.

Lemma SeekToRestartPoint_any it m :
  iter_data_ it = data → restarts_ it = limit → num_restarts_ it = num → 0 <= m < num →
  ∃ it' x, SeekToRestartPoint it m = Ok it' ∧ parsing it' x ∧ 0 <= x.
Proof.
  intros H1 H2 H3 Hm. unfold SeekToRestartPoint. destruct (restart_any it m H1 H2 H3 Hm) as (x & -> & Hx).
  unfold mbind, res_bind. eexists _, x. split; [reflexivity|]. split; [|lia].
  split; try done. exists x, 0. cbn. split_and!; [done|lia..].
Qed.

Lemma parse_fuel_any it x : iter_data_ it = data → 0 <= x → (Z.to_nat (limit - x) < parse_fuel it)%nat.
Proof. intros H1 Hx. unfold parse_fuel. rewrite H1. unfold Slice.size in *. lia. Qed.

Lemma prev_restart_any n : ∀ it original,
  iter_data_ it = data → restarts_ it = limit → num_restarts_ it = num → 0 <= restart_index_ it < num →
  (Z.to_nat (restart_index_ it) < n)%nat →
  ∃ b it', prev_restart n it original = Ok (b, it') ∧ iter_data_ it' = data ∧ restarts_ it' = limit ∧
    num_restarts_ it' = num ∧ if b then 0 <= restart_index_ it' < num else sane it'.
Proof.
  induction n as [|n IH]; intros it original H1 H2 H3 Hi Hn; [lia|]. cbn [prev_restart].
  destruct (restart_any it (restart_index_ it) H1 H2 H3 Hi) as (x & -> & _). unfold mbind, res_bind.
  destruct (original <=? x).
  - destruct (Z.eqb_spec (restart_index_ it) 0) as [E|E].
    + exists false. eexists. split; [reflexivity|]. split; [done|]. split; [done|]. split; [done|].
      apply sane_end; cbn; [done..|lia].
    + rewrite u32_small by lia. apply IH; [done..|cbn; lia|cbn; lia].
  - by exists true, it.
Qed.

Lemma seek_restart_any n : ∀ it t a b,
  iter_data_ it = data → restarts_ it = limit → num_restarts_ it = num →
  0 <= a → a <= b < num → (Z.to_nat (b - a) <= n)%nat →
  ∃ r, seek_restart n it t a b = Ok r ∧ match r with None => True | Some m => 0 <= m < num end.
Proof.
  induction n as [|n IH]; intros it t a b H1 H2 H3 Ha Hab Hn; cbn [seek_restart];
    (destruct (Z.ltb_spec a b) as [L|L]; [|exists (Some a); split; [done|lia]]); [lia|].
  rewrite u32_small by lia. set (mid := (a + b + 1) / 2).
  assert (a < mid <= b) as Hm by (unfold mid; Z.div_mod_to_equations; lia).
  destruct (restart_any it mid H1 H2 H3) as (x & -> & Hx); [lia|]. unfold mbind at 1, res_bind at 1.
  rewrite H1, H2. destruct (DecodeEntry_any x ltac:(lia)) as (r & -> & Hr). unfold mbind at 1, res_bind at 1.
  destruct r as [[[[s m] v] q]|]; [|by exists None]. destruct Hr as (Hs & Hm' & Hvl & Hq & Hend).
  destruct (negb _); [by exists None|]. unfold part. rewrite (proj2 (Z.leb_le _ _)) by lia.
  unfold mbind, res_bind. destruct (HC (take (Z.to_nat m) (drop (Z.to_nat q) data)) t) as [c ->].
  destruct (c <? 0); apply IH; try done; lia.
Qed.

(** * The operations *)

Lemma SeekToFirst_any it : sane it → ∃ it', iter_SeekToFirst it = Ok it' ∧ sane it'.
Proof.
  intros [H1 H2 H3 _]. unfold iter_SeekToFirst.
  destruct (SeekToRestartPoint_any it 0 H1 H2 H3) as (it' & x & -> & Hp & _); [lia|]. unfold mbind, res_bind.
  destruct (ParseNextKey_any it' x Hp) as (b & it2 & -> & Hs & _). by exists it2.
Qed.

Lemma SeekToLast_any it : sane it → ∃ it', iter_SeekToLast it = Ok it' ∧ sane it'.
Proof.
  intros [H1 H2 H3 _]. unfold iter_SeekToLast. rewrite H3.
  destruct (SeekToRestartPoint_any it (num - 1) H1 H2 H3) as (it' & x & -> & Hp & Hx); [lia|]. unfold mbind, res_bind.
  apply (parse_until_any (parse_fuel it') it' x); [done|done|]. apply parse_fuel_any; [apply Hp|done].
Qed.

Lemma Seek_any it t : sane it → ∃ it', iter_Seek t it = Ok it' ∧ sane it'.
Proof.
  intros [H1 H2 H3 _]. unfold iter_Seek. rewrite H3.
  destruct (seek_restart_any (Z.to_nat num) it t 0 (num - 1) H1 H2 H3) as (r & -> & Hr); [lia..|].
  unfold mbind at 1, res_bind at 1. destruct r as [m|].
  - destruct (SeekToRestartPoint_any it m H1 H2 H3 Hr) as (it' & x & -> & Hp & Hx). unfold mbind, res_bind.
    apply (seek_loop_any (parse_fuel it') it' x); [done|done|]. apply parse_fuel_any; [apply Hp|done].
  - eexists. split; [reflexivity|]. apply sane_end; cbn; [done..|lia].
Qed.

Lemma Next_any it : sane it → iter_Valid it = true → ∃ it', iter_Next it = Ok it' ∧ sane it'.
Proof.
  intros Hs Hv. unfold iter_Next. rewrite Hv. cbn [SkipList.assert_]. unfold mbind, res_bind.
  rewrite Valid_spec in Hv by done. apply Z.ltb_lt in Hv.
  destruct (sane_parsing it Hs Hv) as (x & Hp & _).
  destruct (ParseNextKey_any it x Hp) as (b & it2 & -> & Hs2 & _). by exists it2.
Qed.

Lemma Prev_any it : sane it → iter_Valid it = true → ∃ it', iter_Prev it = Ok it' ∧ sane it'.
Proof.
  intros Hs Hv. unfold iter_Prev. rewrite Hv. cbn [SkipList.assert_]. unfold mbind at 1, res_bind at 1.
  rewrite Valid_spec in Hv by done. apply Z.ltb_lt in Hv. pose proof Hs as [H1 H2 H3 H4].
  destruct (H4 Hv) as (_ & Hi & _).
  destruct (prev_restart_any (S (Z.to_nat (num_restarts_ it))) it (current_ it) H1 H2 H3 Hi)
    as (b & it' & -> & D1 & D2 & D3 & Hb'); [lia|].
  unfold mbind at 1, res_bind at 1. destruct b; [|by exists it'].
  destruct (SeekToRestartPoint_any it' (restart_index_ it') D1 D2 D3 Hb') as (it2 & x & -> & Hp & Hx).
  unfold mbind, res_bind.
  apply (parse_until_any (parse_fuel it2) it2 x); [done|done|]. apply parse_fuel_any; [apply Hp|done].
Qed.

Lemma read_any it : sane it → iter_Valid it = true → ∃ k v, iter_key it = Ok k ∧ iter_value it = Ok v.
Proof.
  intros Hs Hv. unfold iter_key, iter_value. rewrite Hv. cbn [SkipList.assert_]. unfold mbind, res_bind.
  rewrite Valid_spec in Hv by done. apply Z.ltb_lt in Hv. pose proof Hs as [H1 H2 H3 H4].
  destruct (H4 Hv) as (_ & _ & o & n & -> & Ho & Hn & _ & He). cbn [of_option]. rewrite H1. unfold part.
  rewrite (proj2 (Z.leb_le _ _)) by lia. by eexists _, _.
Qed.
End safe.

(** * Opening any block *)

Lemma open_any contents :
  Forall is_byte contents → Slice.size contents < 2 ^ 32 →
  ∃ blk r, Block.new contents = Ok blk ∧ NewIterator blk = Ok r ∧
    ∀ it, r = inr it → 0 <= restarts_ it ∧ ∃ num, 0 < num ∧
      restarts_ it + 4 * num <= Slice.size contents ∧ sane contents (restarts_ it) num it.
Proof.
  intros Hb Hs. unfold Block.new. assert (0 <= Slice.size contents) as H0 by (unfold Slice.size; lia).
  destruct (Z.ltb_spec (Slice.size contents) 4) as [L|L].
  { eexists _, _. split; [reflexivity|]. split; [reflexivity|]. done. }
  assert (∃ n, num_restarts_of contents (Slice.size contents) = Ok n ∧ 0 <= n < 2 ^ 32) as (n & En & Hn).
  { unfold num_restarts_of. rewrite (proj2 (Z.leb_le 4 _)) by lia. cbn [SkipList.assert_].
    unfold mbind, res_bind. rewrite DecodeFixed32_ok by (unfold Slice.size in *; rewrite length_drop; lia).
    eexists. split; [reflexivity|].
    assert (Forall is_byte (take 4 (drop (Z.to_nat (Slice.size contents - 4)) contents))) as Hf
      by (by apply Forall_take, Forall_drop).
    pose proof (le_of_bytes_bound _ Hf) as B. rewrite length_take in B.
    assert (2 ^ (8 * Z.of_nat (4 `min` length (drop (Z.to_nat (Slice.size contents - 4)) contents))) <= 2 ^ 32)
      by (apply Z.pow_le_mono_r; lia). lia. }
  rewrite En. unfold mbind at 1, res_bind at 1.
  destruct (Z.ltb_spec ((Slice.size contents - 4) / 4) n) as [L1|L1].
  { eexists _, _. split; [reflexivity|]. split; [reflexivity|]. done. }
  eexists. unfold NewIterator, NumRestarts.
  destruct (Z.eq_dec n 0) as [E0|N0].
  { eexists. split; [reflexivity|]. cbn [size_ data_ restart_offset_].
    rewrite (proj2 (Z.ltb_ge _ 4)) by lia. rewrite En. unfold mbind, res_bind.
    rewrite (proj2 (Z.eqb_eq n 0)) by done. split; [reflexivity|]. done. }
  eexists. split; [reflexivity|]. cbn [size_ data_ restart_offset_].
  rewrite (proj2 (Z.ltb_ge _ 4)) by lia. rewrite En. unfold mbind, res_bind.
  rewrite (proj2 (Z.eqb_neq n 0)) by done.
  unfold Iter_new. rewrite (proj2 (Z.ltb_lt 0 _)) by lia. split; [reflexivity|].
  intros it [= <-]. cbn [restarts_].
  assert (4 * (n + 1) <= Slice.size contents) by (Z.div_mod_to_equations; lia).
  rewrite (u32_small (1 + n)) by lia. rewrite u32_small by lia.
  split; [lia|]. exists n. split; [lia|]. split; [lia|]. apply sane_end; cbn; [done..|lia].
Qed.

(** What a client can do: position the iterator, move it and read the entry while
    it is valid. *)
Inductive client_op := ToFirst | ToLast | ToTarget (t : bytes) | ToNext | ToPrev.

Definition client_step {C : SliceComparator} (o : client_op) (it : Iter) : res Iter :=
  it ← (match o with
        | ToFirst => iter_SeekToFirst it
        | ToLast => iter_SeekToLast it
        | ToTarget t => iter_Seek t it
        | ToNext => if iter_Valid it then iter_Next it else Ok it
        | ToPrev => if iter_Valid it then iter_Prev it else Ok it
        end);
  if iter_Valid it then _ ← iter_key it; _ ← iter_value it; Ok it else Ok it.

Fixpoint client {C : SliceComparator} (ops : list client_op) (it : Iter) : res Iter :=
  match ops with [] => Ok it | o :: ops => it ← client_step o it; client ops it end.

(** C31: blocks with any contents. A block of any bytes below 4 GiB can be opened, and
    whatever the client does with the iterator, under any comparator that returns,
    each operation returns without reading outside of the block, unless the block
    has an entry whose two lengths add up to 2^32 or more. *)
Theorem block_iter_any (C : SliceComparator) (contents : bytes) :
  (∀ a b, ∃ c, Compare a b = Ok c) → Forall is_byte contents → Slice.size contents < 2 ^ 32 →
  ∃ blk r, Block.new contents = Ok blk ∧ NewIterator blk = Ok r ∧
    ∀ it, r = inr it → no_wrap contents (restarts_ it) →
      ∀ ops, ∃ it', client ops it = Ok it'.
Proof.
  intros HC Hb Hs. destruct (open_any contents Hb Hs) as (blk & r & E1 & E2 & Hr).
  exists blk, r. split; [done|]. split; [done|]. intros it Eit Hw.
  destruct (Hr it Eit) as (H0 & num & Hn & Hsz & Hsane). set (limit := restarts_ it) in *. clearbody limit.
  intros ops. clear E2 Hr Eit. revert it Hsane. induction ops as [|o ops IH]; intros it Hsane; [by exists it|].
  cbn [client]. unfold client_step.
  assert (∃ it', (match o with
    | ToFirst => iter_SeekToFirst it | ToLast => iter_SeekToLast it | ToTarget t => iter_Seek t it
    | ToNext => if iter_Valid it then iter_Next it else Ok it
    | ToPrev => if iter_Valid it then iter_Prev it else Ok it end) = Ok it' ∧ sane contents limit num it') as (it' & -> & Hs').
  { destruct o.
    - by eapply SeekToFirst_any.
    - by eapply SeekToLast_any.
    - by eapply Seek_any.
    - destruct (iter_Valid it) eqn:Ev; [by eapply Next_any|by exists it].
    - destruct (iter_Valid it) eqn:Ev; [by eapply Prev_any|by exists it]. }
  unfold mbind, res_bind. destruct (iter_Valid it') eqn:Ev; [|by apply IH].
  destruct (read_any contents limit num Hsz it' Hs' Ev) as (k & v & -> & ->). by apply IH.
Qed.

Lemma block_iter_any_witness :
  let contents := [0; 1; 1; 7; 9; 200; 1; 1; 1; 0; 0; 0; 0; 0; 1; 0; 0; 0] in
  (∀ a b, ∃ c, Compare (SliceComparator := Bytewise.BytewiseComparator) a b = Ok c) ∧
  Forall is_byte contents ∧ Slice.size contents < 2 ^ 32 ∧
  ∃ blk it it', Block.new contents = Ok blk ∧ NewIterator blk = Ok (inr it) ∧
    client (C := Bytewise.BytewiseComparator) [ToFirst; ToNext; ToLast; ToTarget [3]] it = Ok it' ∧
    status_ it' = Status.Corruption "bad entry in block".
Proof.
  intros contents.
  assert (∀ a b, ∃ c, Compare (SliceComparator := Bytewise.BytewiseComparator) a b = Ok c) as HC
    by (intros a b; exists (lex a b); apply compare_lex).
  assert (Forall is_byte contents) as Hb by (repeat constructor; unfold is_byte; lia).
  split; [exact HC|]. split; [exact Hb|]. split; [reflexivity|].
  destruct (block_iter_any Bytewise.BytewiseComparator contents HC Hb eq_refl) as (blk & r & E1 & E2 & H).
  vm_compute in E1. injection E1 as <-. vm_compute in E2. injection E2 as <-.
  eexists _, _. destruct (H _ eq_refl) with (ops := [ToFirst; ToNext; ToLast; ToTarget [3]]) as (it' & E).
  - intros p s n v q Hp. cbn [restarts_].
    destruct (Z.le_gt_cases 8 p) as [L|L].
    { unfold DecodeEntry. rewrite (proj2 (Z.ltb_lt (_ - p) 3)) by lia. discriminate. }
    assert (p = 0 ∨ p = 1 ∨ p = 2 ∨ p = 3 ∨ p = 4 ∨ p = 5 ∨ p = 6 ∨ p = 7) as Hcases by lia.
    decompose [or] Hcases; subst p; intros E; vm_compute in E;
      (discriminate E || (injection E as <- <- <- <-; reflexivity)).
  - exists it'. split; [reflexivity|]. split; [reflexivity|]. split; [exact E|].
    vm_compute in E. injection E as <-. reflexivity.
Defined.
