(* ===== verification/LdbMerger.v ===== *)
(** LevelDB's merging iterator ([table/merger.h], [table/merger.cc]) and the wrapper of
    its children ([table/iterator_wrapper.h]). *)
From S2P Require Import Prelude LdbSkip LdbFormat LdbIterator.
Import Status.

(** * The wrapper: an iterator with its cached [Valid()] and [key()] *)
Section wrapper.
Context {I : Type} `{Iterator I}.

Record IteratorWrapper := mkWrapper { iter_ : I; valid_ : bool; key_ : bytes }.

Definition Update (w : IteratorWrapper) (it : I) : res IteratorWrapper :=
  if Valid it then k ← key it; Ok (mkWrapper it true k) else Ok (mkWrapper it false (key_ w)).

(** [Set] of an iterator that is not NULL. *)
Definition Set_ (it : I) : res IteratorWrapper :=
  if Valid it then k ← key it; Ok (mkWrapper it true k) else Ok (mkWrapper it false []).

#[export] Instance wrapper_iterator : Iterator IteratorWrapper := {|
  Valid := valid_;
  SeekToFirst w := it ← SeekToFirst (iter_ w); Update w it;
  SeekToLast w := it ← SeekToLast (iter_ w); Update w it;
  Seek k w := it ← Seek k (iter_ w); Update w it;
  Next w := it ← Next (iter_ w); Update w it;
  Prev w := it ← Prev (iter_ w); Update w it;
  key w := SkipList.assert_ (valid_ w);; Ok (key_ w);
  value w := SkipList.assert_ (valid_ w);; value (iter_ w);
  status w := status (iter_ w)
|}.
End wrapper.
Arguments IteratorWrapper : clear implicits.

Module Merger.
Section merger.
Context {I : Type} `{Iterator I} {comparator_ : SliceComparator}.

Inductive Direction := kForward | kReverse.

(** [current_] is an index of a child. *)
Record MergingIterator := mkMerging {
  children_ : list (IteratorWrapper I); current_ : option nat; direction_ : Direction
}.

Fixpoint map_children (f : IteratorWrapper I → res (IteratorWrapper I)) (cs : list (IteratorWrapper I))
    : res (list (IteratorWrapper I)) :=
  match cs with
  | [] => Ok []
  | c :: cs => c ← f c; cs ← map_children f cs; Ok (c :: cs)
  end.

(** The children but the one with index [skip]; [i] is the index of the first. *)
Fixpoint map_others (f : IteratorWrapper I → res (IteratorWrapper I)) (skip i : nat)
    (cs : list (IteratorWrapper I)) : res (list (IteratorWrapper I)) :=
  match cs with
  | [] => Ok []
  | c :: cs =>
      c ← (if Nat.eqb i skip then Ok c else f c);
      cs ← map_others f skip (S i) cs;
      Ok (c :: cs)
  end.

Fixpoint set_children (its : list I) : res (list (IteratorWrapper I)) :=
  match its with [] => Ok [] | it :: its => c ← Set_ it; cs ← set_children its; Ok (c :: cs) end.
Definition new (children : list I) : res MergingIterator :=
  cs ← set_children children; Ok (mkMerging cs None kForward).

(** [better c d] tells whether key [c] is to replace key [d]. *)
Fixpoint find_child (better : Z → bool) (cs : list (IteratorWrapper I)) (order : list nat)
    (found : option nat) : res (option nat) :=
  match order with
  | [] => Ok found
  | i :: order =>
      child ← of_option (cs !! i);
      if Valid child then
        match found with
        | None => find_child better cs order (Some i)
        | Some j =>
            best ← of_option (cs !! j);
            k ← key child; k' ← key best; c ← Compare k k';
            find_child better cs order (if better c then Some i else found)
        end
      else find_child better cs order found
  end.

Definition FindSmallest (m : MergingIterator) : res MergingIterator :=
  c ← find_child (λ c, c <? 0) (children_ m) (seq 0 (length (children_ m))) None;
  Ok (mkMerging (children_ m) c (direction_ m)).
Definition FindLargest (m : MergingIterator) : res MergingIterator :=
  c ← find_child (λ c, 0 <? c) (children_ m) (reverse (seq 0 (length (children_ m)))) None;
  Ok (mkMerging (children_ m) c (direction_ m)).

Definition set_direction (m : MergingIterator) (d : Direction) : MergingIterator :=
  mkMerging (children_ m) (current_ m) d.

Definition current_child (m : MergingIterator) : res (nat * IteratorWrapper I) :=
  i ← of_option (current_ m); c ← of_option (children_ m !! i); Ok (i, c).

Definition merging_Valid (m : MergingIterator) : bool :=
  match current_ m with Some _ => true | None => false end.
Definition merging_key (m : MergingIterator) : res bytes := '(_, c) ← current_child m; key c.
Definition merging_value (m : MergingIterator) : res bytes := '(_, c) ← current_child m; value c.
Definition merging_status (m : MergingIterator) : Status :=
  fold_left (λ s c, if ok s then status c else s) (children_ m) OK.

Definition merging_SeekToFirst (m : MergingIterator) : res MergingIterator :=
  cs ← map_children SeekToFirst (children_ m);
  m ← FindSmallest (mkMerging cs (current_ m) (direction_ m));
  Ok (set_direction m kForward).
Definition merging_SeekToLast (m : MergingIterator) : res MergingIterator :=
  cs ← map_children SeekToLast (children_ m);
  m ← FindLargest (mkMerging cs (current_ m) (direction_ m));
  Ok (set_direction m kReverse).
Definition merging_Seek (target : bytes) (m : MergingIterator) : res MergingIterator :=
  cs ← map_children (Seek target) (children_ m);
  m ← FindSmallest (mkMerging cs (current_ m) (direction_ m));
  Ok (set_direction m kForward).

(** A child that was not current, moved after and before the current key. *)
Definition move_after (k : bytes) (child : IteratorWrapper I) : res (IteratorWrapper I) :=
  child ← Seek k child;
  if Valid child then
    k' ← key child; c ← Compare k k';
    if c =? 0 then Next child else Ok child
  else Ok child.
Definition move_before (k : bytes) (child : IteratorWrapper I) : res (IteratorWrapper I) :=
  child ← Seek k child;
  if Valid child then Prev child else SeekToLast child.

Definition merging_Next (m : MergingIterator) : res MergingIterator :=
  '(i, _) ← current_child m;
  m ← (match direction_ m with
       | kForward => Ok m
       | kReverse =>
           k ← merging_key m;
           cs ← map_others (move_after k) i 0 (children_ m);
           Ok (mkMerging cs (current_ m) kForward)
       end);
  '(i, c) ← current_child m;
  c ← Next c;
  FindSmallest (mkMerging (<[i := c]> (children_ m)) (current_ m) (direction_ m)).

Definition merging_Prev (m : MergingIterator) : res MergingIterator :=
  '(i, _) ← current_child m;
  m ← (match direction_ m with
       | kReverse => Ok m
       | kForward =>
           k ← merging_key m;
           cs ← map_others (move_before k) i 0 (children_ m);
           Ok (mkMerging cs (current_ m) kReverse)
       end);
  '(i, c) ← current_child m;
  c ← Prev c;
  FindLargest (mkMerging (<[i := c]> (children_ m)) (current_ m) (direction_ m)).

#[export] Instance merging_iterator : Iterator MergingIterator := {|
  Valid := merging_Valid;
  SeekToFirst := merging_SeekToFirst;
  SeekToLast := merging_SeekToLast;
  Seek := merging_Seek;
  Next := merging_Next;
  Prev := merging_Prev;
  key := merging_key;
  value := merging_value;
  status := merging_status
|}.

Definition NewMergingIterator (list : list I) : res (EmptyIterator + (I + MergingIterator)) :=
  match list with
  | [] => Ok (inl NewEmptyIterator)
  | [it] => Ok (inr (inl it))
  | _ => m ← new list; Ok (inr (inr m))
  end.
End merger.
End Merger.
