(* ===== verification/LdbMergerProps.v ===== *)
(** The merging iterator keeps the contract of iterators, on the merged entries, when
    its children keep it. *)
From Stdlib Require Import Sorting.Sorted.
From S2P Require Import Prelude LdbSkip LdbSkipLemmas LdbFormat LdbCodingProps LdbOrder LdbIterator LdbMerger.
Import Merger.

(** * The wrapper *)

Section wrapper.
Context {I : Type} `{Iterator I} {ord : Comparator bytes}.
Context (l : entries) (target : bytes → Prop) (ready : I → Prop) (at_ : I → option nat → Prop).
Context (HI : Iterates (ord := ord) I l target ready at_).

Record wrapped (w : IteratorWrapper I) (p : option nat) : Prop := {
  wrapped_at : at_ (iter_ w) p;
  wrapped_valid : valid_ w = bool_decide (is_Some p);
  wrapped_key i e : p = Some i → l !! i = Some e → key_ w = e.1
}.

Lemma Update_ok w it p : at_ it p → ∃ w', Update w it = Ok w' ∧ wrapped w' p.
Proof.
  intros Ha. unfold Update. rewrite (it_valid it p Ha). destruct p as [i|].
  - destruct (it_entry it i Ha) as (e & He & Ek & _). rewrite bool_decide_eq_true_2 by done.
    rewrite Ek. unfold mbind, res_bind. eexists. split; [reflexivity|]. split; [done|done|].
    cbn. intros i' e' [= <-] He'. rewrite He in He'. by injection He' as <-.
  - eexists. split; [reflexivity|]. by split.
Qed.

#[export] Instance wrapper_iterates :
  Iterates (ord := ord) (IteratorWrapper I) l target (λ w, ready (iter_ w)) wrapped.
Proof.
  split.
  - intros w p [Ha _ _]. by apply (it_ready (iter_ w) p).
  - intros w Hr. cbn. by apply it_status.
  - intros w p [_ Hv _]. done.
  - intros w i [Ha Hv Hk]. destruct (it_entry _ _ Ha) as (e & He & _ & Ev). exists e. split; [done|].
    cbn. rewrite Hv, bool_decide_eq_true_2 by done. cbn [SkipList.assert_]. unfold mbind, res_bind.
    split; [by rewrite (Hk i e)|done].
  - intros w Hr. destruct (it_first _ Hr) as (it & E & Ha). cbn. rewrite E. unfold mbind, res_bind.
    by apply Update_ok.
  - intros w Hr. destruct (it_last _ Hr) as (it & E & Ha). cbn. rewrite E. unfold mbind, res_bind.
    by apply Update_ok.
  - intros w t Hr Ht. destruct (it_seek _ t Hr Ht) as (it & E & Ha). cbn. rewrite E. unfold mbind, res_bind.
    by apply Update_ok.
  - intros w i [Ha _ _]. destruct (it_next _ _ Ha) as (it & E & Ha'). cbn. rewrite E. unfold mbind, res_bind.
    by apply Update_ok.
  - intros w i [Ha _ _]. destruct (it_prev _ _ Ha) as (it & E & Ha'). cbn. rewrite E. unfold mbind, res_bind.
    by apply Update_ok.
Qed.

(** The wrapper of an iterator that is not at an entry yet. *)
Lemma Set_ok it : ready it → Valid it = false → ∃ w, Set_ it = Ok w ∧ ready (iter_ w).
Proof. intros Hr Hv. unfold Set_. rewrite Hv. by eexists. Qed.
End wrapper.

(** * Merged entries

    All entries of the lists, in order; no two lists share a key. *)
Record merges `{Comparator bytes} (ls : list entries) (M : entries) : Prop := {
  merges_ascending : ascending M;
  merges_parts : Forall ascending ls;
  merges_all e : e ∈ M ↔ ∃ l, l ∈ ls ∧ e ∈ l;
  merges_apart i j li lj a b :
    ls !! i = Some li → ls !! j = Some lj → a ∈ li → b ∈ lj → compare_ a.1 b.1 = 0 → i = j
}.

Section merging.
Context {I : Type} `{Iterator I}.
Context {C : SliceComparator} {dom valid : bytes → Prop} {ord : Comparator bytes}.
Context (HC : Lawful C dom valid ord).
Context (ls : list entries) (M : entries) (HM : merges ls M).
Context (target : bytes → Prop) (Hkeys : Forall (λ e, dom e.1 ∧ target e.1) M).
Context (ready : nat → I → Prop) (at_ : nat → I → option nat → Prop).
Context (Hch : ∀ j l, ls !! j = Some l → Iterates (ord := ord) I l target (ready j) (at_ j)).

#[local] Instance order_ : Order bytes := lawful_order.

(** How many entries of [l] come before position [p] of the merged ones. *)
Definition idx (l : entries) (p : nat) : nat :=
  match M !! p with Some e => seek_index l e.1 | None => length l end.

Lemma part_in_all j l i x : ls !! j = Some l → l !! i = Some x → ∃ q, M !! q = Some x.
Proof.
  intros Hl Hx. apply list_elem_of_lookup. apply (merges_all _ _ HM).
  exists l. split; by eapply list_elem_of_lookup_2.
Qed.

Lemma all_in_part p e : M !! p = Some e → ∃ j l i, ls !! j = Some l ∧ l !! i = Some e.
Proof.
  intros He. apply list_elem_of_lookup_2, (merges_all _ _ HM) in He as (l & Hl & Hx).
  apply list_elem_of_lookup in Hl as [j Hj]. apply list_elem_of_lookup in Hx as [i Hi]. by exists j, l, i.
Qed.

Lemma part_ascending j l : ls !! j = Some l → ascending l.
Proof. intros Hl. exact (list.Forall_lookup_1 _ _ _ _ (merges_parts _ _ HM) Hl). Qed.

(** Positions and keys. *)
Lemma pos_lt q p x e : M !! q = Some x → M !! p = Some e → (q < p)%nat ↔ compare_ x.1 e.1 < 0.
Proof. apply ascending_iff, HM. Qed.

Lemma idx_le l p : (idx l p <= length l)%nat.
Proof. unfold idx. destruct (M !! p); [apply seek_index_le|done]. Qed.

Lemma idx_spec j l i x q p :
  ls !! j = Some l → l !! i = Some x → M !! q = Some x → (i < idx l p)%nat ↔ (q < p)%nat.
Proof.
  intros Hl Hx Hq. unfold idx. destruct (M !! p) as [e|] eqn:Hp.
  - rewrite (pos_lt q p x e Hq Hp). split; intros L; [by eapply seek_index_before|].
    destruct (decide (i < seek_index l e.1)%nat) as [|N]; [done|].
    pose proof (seek_index_after l e.1 i x (part_ascending _ _ Hl) ltac:(lia) Hx). lia.
  - apply lookup_lt_Some in Hx, Hq. apply lookup_ge_None in Hp. lia.
Qed.

Lemma idx_unique l p n :
  (n <= length l)%nat → (∀ i, (i < length l)%nat → (i < n)%nat ↔ (i < idx l p)%nat) → n = idx l p.
Proof.
  intros Hn Hi. pose proof (idx_le l p). destruct (Nat.lt_trichotomy n (idx l p)) as [L|[E|L]]; [|done|].
  - specialize (Hi n ltac:(lia)). lia.
  - specialize (Hi (idx l p) ltac:(lia)). lia.
Qed.

(** One position further: only the list that holds the entry moves. *)
Lemma idx_S_other j l p e :
  ls !! j = Some l → M !! p = Some e → e ∉ l → idx l (S p) = idx l p.
Proof.
  intros Hl Hp He. symmetry. apply idx_unique; [apply idx_le|]. intros i Hi.
  destruct (lookup_lt_is_Some_2 l i Hi) as [x Hx]. destruct (part_in_all j l i x Hl Hx) as [q Hq].
  rewrite !(idx_spec j l i x q) by done.
  assert (q ≠ p); [|lia]. intros ->. rewrite Hp in Hq. injection Hq as <-. apply He. by eapply list_elem_of_lookup_2.
Qed.

Lemma idx_S_here j l p e i :
  ls !! j = Some l → M !! p = Some e → l !! i = Some e → idx l p = i ∧ idx l (S p) = S i.
Proof.
  intros Hl Hp He. pose proof (part_ascending _ _ Hl) as Ha. pose proof (lookup_lt_Some _ _ _ He) as Hi.
  assert (∀ k x q, l !! k = Some x → M !! q = Some x →
    ((k < i)%nat ↔ (q < p)%nat) ∧ ((i < k)%nat ↔ (p < q)%nat)) as Hk.
  { intros k x q Hx Hq. rewrite (pos_lt q p x e Hq Hp), (pos_lt p q e x Hp Hq).
    by rewrite (ascending_iff l k i x e Ha Hx He), (ascending_iff l i k e x Ha He Hx). }
  split; symmetry; apply idx_unique; try lia; intros k Hkl;
    destruct (lookup_lt_is_Some_2 l k Hkl) as [x Hx]; destruct (part_in_all j l k x Hl Hx) as [q Hq];
    rewrite (idx_spec j l k x q) by done; destruct (Hk k x q Hx Hq) as [H1 H2]; lia.
Qed.

(** * The children *)

Abbreviation W := (IteratorWrapper I).

Lemma map_children_ok (f : W → res W) (P Q : nat → W → Prop) cs :
  (∀ j w, P j w → ∃ w', f w = Ok w' ∧ Q j w') → ∀ i, (∀ k w, cs !! k = Some w → P (i + k)%nat w) →
  ∃ cs', map_children f cs = Ok cs' ∧ length cs' = length cs ∧ ∀ k w, cs' !! k = Some w → Q (i + k)%nat w.
Proof.
  intros Hf. induction cs as [|c cs IH]; intros i Hcs; [by exists []|].
  destruct (Hf (i + 0)%nat c (Hcs 0%nat c eq_refl)) as (c' & E & HQ).
  destruct (IH (S i)) as (cs' & E' & El & HQ').
  { intros k w Hk. replace (S i + k)%nat with (i + S k)%nat by lia. by apply Hcs. }
  exists (c' :: cs'). cbn [map_children]. rewrite E. unfold mbind, res_bind. rewrite E'.
  split; [done|]. split; [cbn; by rewrite El|]. intros [|k] w Hk; [by injection Hk as <-|].
  replace (i + S k)%nat with (S i + k)%nat by lia. by apply HQ'.
Qed.

Lemma map_others_ok (f : W → res W) skip (P Q : nat → W → Prop) cs :
  (∀ j w, j ≠ skip → P j w → ∃ w', f w = Ok w' ∧ Q j w') → ∀ i, (∀ k w, cs !! k = Some w → P (i + k)%nat w) →
  ∃ cs', map_others f skip i cs = Ok cs' ∧ length cs' = length cs ∧
    ∀ k w, cs' !! k = Some w → if decide ((i + k)%nat = skip) then cs !! k = Some w else Q (i + k)%nat w.
Proof.
  intros Hf. induction cs as [|c cs IH]; intros i Hcs; [by exists []|].
  assert (∃ c', (if Nat.eqb i skip then Ok c else f c) = Ok c' ∧ if decide (i = skip) then c' = c else Q i c')
    as (c' & E & HQ).
  { destruct (Nat.eqb_spec i skip) as [->|N]; [exists c; split; [done|by rewrite decide_True]|].
    pose proof (Hcs 0%nat c eq_refl) as H0. rewrite Nat.add_0_r in H0.
    destruct (Hf i c N H0) as (c' & E & HQ). exists c'. split; [done|]. by rewrite decide_False. }
  destruct (IH (S i)) as (cs' & E' & El & HQ').
  { intros k w Hk. replace (S i + k)%nat with (i + S k)%nat by lia. by apply Hcs. }
  exists (c' :: cs'). cbn [map_others]. rewrite E. unfold mbind, res_bind. rewrite E'.
  split; [done|]. split; [cbn; by rewrite El|]. intros [|k] w Hk.
  - injection Hk as <-. rewrite Nat.add_0_r. case_decide; [by rewrite HQ|done].
  - replace (i + S k)%nat with (S i + k)%nat by lia. by apply HQ'.
Qed.

(** The valid children and their keys. *)
Definition keyed (cs : list W) (K : nat → option bytes) : Prop :=
  ∀ j, (j < length cs)%nat → ∃ w, cs !! j = Some w ∧ Valid w = bool_decide (is_Some (K j)) ∧
    ∀ k, K j = Some k → key w = Ok k ∧ dom k.

Lemma find_child_best better cs K c kc :
  keyed cs K → K c = Some kc →
  (∀ j kj, (j < length cs)%nat → K j = Some kj → j ≠ c →
    better (compare_ kj kc) = false ∧ better (compare_ kc kj) = true) →
  ∀ order found, Forall (λ j, (j < length cs)%nat) order →
    (∀ j, found = Some j → (j < length cs)%nat ∧ is_Some (K j)) → (found = Some c ∨ c ∈ order) →
    find_child better cs order found = Ok (Some c).
Proof.
  intros HK Hc Hbest. induction order as [|i order IH]; intros found Ho Hf Hin.
  { destruct Hin as [->|Hin]; [done|]. by apply not_elem_of_nil in Hin. }
  apply list.Forall_cons in Ho as [Hi Ho]. cbn [find_child].
  destruct (HK i Hi) as (w & -> & Hv & Hk). unfold mbind, res_bind. cbn [of_option]. rewrite Hv.
  destruct (K i) as [ki|] eqn:Ki.
  - rewrite bool_decide_eq_true_2 by done. destruct (Hk ki eq_refl) as [Ek Dk].
    destruct found as [j|].
    + destruct (Hf j eq_refl) as [Hj [kj Kj]]. destruct (HK j Hj) as (w' & -> & _ & Hk').
      destruct (Hk' kj Kj) as [Ek' Dk']. cbn [of_option]. rewrite Ek, Ek', (lawful_compare ki kj Dk Dk').
      apply IH; [done| |].
      * intros j' Hj'. destruct (better _); injection Hj' as <-; [by rewrite Ki|by rewrite Kj].
      * destruct (decide (j = c)) as [->|Nj].
        { left. rewrite Hc in Kj. injection Kj as <-. destruct (decide (i = c)) as [->|Ni]; [by destruct (better _)|].
          by rewrite (proj1 (Hbest i ki Hi Ki Ni)). }
        destruct Hin as [[= ->]|Hin]; [done|]. apply elem_of_cons in Hin as [<-|Hin]; [|by right].
        left. rewrite Hc in Ki. injection Ki as <-. by rewrite (proj2 (Hbest j kj Hj Kj Nj)).
    + apply IH; [done| |].
      * intros j' [= <-]. by rewrite Ki.
      * destruct Hin as [?|Hin]; [done|]. apply elem_of_cons in Hin as [->|Hin]; [by left|by right].
  - rewrite bool_decide_eq_false_2 by (intros []; done). apply IH; [done|done|].
    destruct Hin as [?|Hin]; [by left|]. apply elem_of_cons in Hin as [->|Hin]; [|by right].
    by rewrite Ki in Hc.
Qed.

Lemma find_child_none better cs K order :
  keyed cs K → (∀ j, (j < length cs)%nat → K j = None) → Forall (λ j, (j < length cs)%nat) order →
  find_child better cs order None = Ok None.
Proof.
  intros HK Hn. induction 1 as [|i order Hi Ho IH]; [done|]. cbn [find_child].
  destruct (HK i Hi) as (w & -> & Hv & _). unfold mbind, res_bind. cbn [of_option].
  rewrite Hv, (Hn i Hi). by rewrite bool_decide_eq_false_2 by (intros []; done).
Qed.

(** * The positions of the children *)

Definition kid (f : entries → option nat) (j : nat) (w : W) : Prop :=
  ∃ l, ls !! j = Some l ∧ wrapped l (at_ j) w (f l).
Definition kid_ready (j : nat) (w : W) : Prop := ∃ l, ls !! j = Some l ∧ ready j (iter_ w).

Definition all_kids (P : nat → W → Prop) (cs : list W) : Prop :=
  length cs = length ls ∧ ∀ j w, cs !! j = Some w → P j w.

(** At the first entries from position [p] on, and at the last ones before it. *)
Definition front (p : nat) (l : entries) : option nat := pos_at l (idx l p).
Definition back (p : nat) (l : entries) : option nat := pos_before (idx l p).

Definition kid_key (f : entries → option nat) (j : nat) : option bytes :=
  l ← ls !! j; i ← f l; e ← l !! i; Some e.1.

Lemma kid_iterates j l : ls !! j = Some l →
  Iterates (ord := ord) W l target (λ w, ready j (iter_ w)) (wrapped l (at_ j)).
Proof. intros Hl. apply wrapper_iterates. by apply Hch. Qed.

Lemma kid_is_ready f j w : kid f j w → kid_ready j w.
Proof. intros (l & Hl & [Ha _ _]). exists l. split; [done|]. by eapply (it_ready (Iterates := Hch j l Hl)). Qed.

Lemma kids_keyed f cs : all_kids (kid f) cs → keyed cs (kid_key f).
Proof.
  intros [Hlen Hk] j Hj. destruct (lookup_lt_is_Some_2 cs j Hj) as [w Hw]. exists w. split; [done|].
  destruct (Hk j w Hw) as (l & Hl & Ha). pose proof (kid_iterates j l Hl) as HI.
  rewrite (it_valid (Iterates := HI) w _ Ha). unfold kid_key. rewrite Hl. cbn [mbind option_bind].
  destruct (f l) as [i|]; cbn [mbind option_bind].
  - destruct (it_entry (Iterates := HI) w i Ha) as (e & He & Ek & _). rewrite He. cbn. split; [done|].
    intros k [= <-]. split; [done|]. destruct (part_in_all j l i e Hl He) as [q Hq].
    exact (proj1 (list.Forall_lookup_1 _ _ _ _ Hkeys Hq)).
  - by split.
Qed.

Lemma kid_key_inv f j k :
  kid_key f j = Some k → ∃ l i x q, ls !! j = Some l ∧ f l = Some i ∧ l !! i = Some x ∧ M !! q = Some x ∧ k = x.1.
Proof.
  unfold kid_key. destruct (ls !! j) as [l|] eqn:Hl; [|done]. cbn. destruct (f l) as [i|] eqn:Hf; [|done]. cbn.
  destruct (l !! i) as [x|] eqn:Hx; [|done]. cbn. intros [= <-].
  destruct (part_in_all j l i x Hl Hx) as [q Hq]. by exists l, i, x, q.
Qed.

Lemma apart_ne j j' l l' x e :
  ls !! j = Some l → ls !! j' = Some l' → x ∈ l → e ∈ l' → j ≠ j' → x.1 ≠ e.1.
Proof.
  intros Hl Hl' Hx He N E. apply N. eapply (merges_apart _ _ HM); [done..|]. rewrite E. apply cmp_refl.
Qed.

(** The child that holds an entry. *)
Definition holder (c : nat) (p : nat) : Prop :=
  ∃ l e, ls !! c = Some l ∧ M !! p = Some e ∧ l !! idx l p = Some e ∧ idx l (S p) = S (idx l p).

Lemma holder_exists p : (p < length M)%nat → ∃ c, holder c p ∧ (c < length ls)%nat.
Proof.
  intros Hp. destruct (lookup_lt_is_Some_2 M p Hp) as [e He].
  destruct (all_in_part p e He) as (c & l & i & Hl & Hi). exists c. split; [|by eapply lookup_lt_Some].
  exists l, e. destruct (idx_S_here c l p e i Hl He Hi) as [-> ->]. done.
Qed.

Lemma holder_other c p j l : holder c p → ls !! j = Some l → j ≠ c → idx l (S p) = idx l p.
Proof.
  intros (lc & e & Hlc & He & Hi & _) Hl N. apply (idx_S_other j l p e Hl He). intros Hin.
  eapply (apart_ne j c l lc e e); [done|done|done|by eapply list_elem_of_lookup_2|done|done].
Qed.

Lemma smallest_ok cs p c :
  all_kids (kid (front p)) cs → holder c p →
  find_child (λ c, c <? 0) cs (seq 0 (length cs)) None = Ok (Some c).
Proof.
  intros Hk (l & e & Hl & He & Hi & _). pose proof (kids_keyed _ _ Hk) as HK.
  assert (kid_key (front p) c = Some e.1) as Hc.
  { unfold kid_key, front. rewrite Hl. cbn. rewrite pos_at_lt by by eapply lookup_lt_Some. cbn. by rewrite Hi. }
  apply (find_child_best _ cs _ c _ HK Hc).
  - intros j kj Hj Kj N. destruct (kid_key_inv _ _ _ Kj) as (l' & i & x & q & Hl' & Hf & Hx & Hq & ->).
    assert (i = idx l' p) as ->.
    { unfold front in Hf. destruct (decide (idx l' p < length l')%nat);
        [rewrite pos_at_lt in Hf by done; congruence|by rewrite pos_at_ge in Hf by lia]. }
    assert (¬ (q < p)%nat) as Hqp by (rewrite <- (idx_spec j l' (idx l' p) x q p) by done; lia).
    assert (q ≠ p) as Nq.
    { intros ->. rewrite He in Hq. injection Hq as <-.
      eapply (apart_ne j c l' l e e); [done|done|by eapply list_elem_of_lookup_2..|done|done]. }
    assert (compare_ e.1 x.1 < 0) as Hlt by (apply (pos_lt p q); [done|done|lia]).
    split; [|by apply Z.ltb_lt]. apply Z.ltb_ge. apply cmp_swap in Hlt. lia.
  - apply list.Forall_forall. intros j Hj. apply list_elem_of_In, in_seq in Hj. lia.
  - done.
  - right. apply list_elem_of_In, in_seq. destruct Hk as [Hlen _]. apply lookup_lt_Some in Hl. lia.
Qed.

Lemma largest_ok cs p c :
  all_kids (kid (back (S p))) cs → holder c p →
  find_child (λ c, 0 <? c) cs (reverse (seq 0 (length cs))) None = Ok (Some c).
Proof.
  intros Hk (l & e & Hl & He & Hi & HS). pose proof (kids_keyed _ _ Hk) as HK.
  assert (kid_key (back (S p)) c = Some e.1) as Hc.
  { unfold kid_key, back. rewrite Hl. cbn. rewrite HS. cbn. by rewrite Hi. }
  apply (find_child_best _ cs _ c _ HK Hc).
  - intros j kj Hj Kj N. destruct (kid_key_inv _ _ _ Kj) as (l' & i & x & q & Hl' & Hf & Hx & Hq & ->).
    assert (S i = idx l' (S p)) as Ei.
    { unfold back in Hf. destruct (idx l' (S p)); [done|]. cbn in Hf. congruence. }
    assert (q < S p)%nat as Hqp by (rewrite <- (idx_spec j l' i x q (S p)) by done; lia).
    assert (q ≠ p) as Nq.
    { intros ->. rewrite He in Hq. injection Hq as <-.
      eapply (apart_ne j c l' l e e); [done|done|by eapply list_elem_of_lookup_2..|done|done]. }
    assert (compare_ x.1 e.1 < 0) as Hlt by (apply (pos_lt q p); [done|done|lia]).
    split; [apply Z.ltb_ge; lia|]. apply Z.ltb_lt. by apply cmp_swap.
  - apply list.Forall_forall. intros j Hj. rewrite elem_of_reverse in Hj. apply list_elem_of_In, in_seq in Hj. lia.
  - done.
  - right. rewrite elem_of_reverse. apply list_elem_of_In, in_seq. destruct Hk as [Hlen _]. apply lookup_lt_Some in Hl. lia.
Qed.

Lemma none_front cs order p :
  all_kids (kid (front p)) cs → (length M <= p)%nat → Forall (λ j, (j < length cs)%nat) order → ∀ better,
  find_child better cs order None = Ok None.
Proof.
  intros Hk Hp Ho better. apply (find_child_none _ _ _ _ (kids_keyed _ _ Hk)); [|done].
  intros j Hj. unfold kid_key. destruct (ls !! j) as [l|]; [|done]. cbn. unfold front, idx.
  rewrite lookup_ge_None_2 by done. by rewrite pos_at_ge.
Qed.

Lemma none_back cs order :
  all_kids (kid (back 0)) cs → Forall (λ j, (j < length cs)%nat) order → ∀ better,
  find_child better cs order None = Ok None.
Proof.
  intros Hk Ho better. apply (find_child_none _ _ _ _ (kids_keyed _ _ Hk)); [|done].
  intros j Hj. unfold kid_key. destruct (ls !! j) as [l|] eqn:Hl; [|done]. cbn. unfold back.
  destruct (idx l 0) as [|i] eqn:Ei; [done|]. exfalso. pose proof (idx_le l 0) as Hle. rewrite Ei in Hle.
  destruct (lookup_lt_is_Some_2 l i Hle) as [x Hx]. destruct (part_in_all j l i x Hl Hx) as [q Hq].
  pose proof (idx_spec j l i x q 0 Hl Hx Hq). lia.
Qed.

(** * The state *)

Definition ready_m (m : @MergingIterator I) : Prop := all_kids kid_ready (children_ m).

(** The current child holds the entry; the others are at their next entries, or at
    their previous ones. *)
Definition at_m (m : @MergingIterator I) (p : option nat) : Prop :=
  match p with
  | None => current_ m = None ∧ ready_m m
  | Some p => ∃ c, current_ m = Some c ∧ holder c p ∧
      match direction_ m with
      | kForward => all_kids (kid (front p)) (children_ m)
      | kReverse => all_kids (kid (back (S p))) (children_ m)
      end
  end.

Lemma kids_ready f cs : all_kids (kid f) cs → all_kids kid_ready cs.
Proof. intros [El Hk]. split; [done|]. intros j w Hw. by eapply kid_is_ready, Hk. Qed.

Lemma at_ready m p : at_m m p → ready_m m.
Proof.
  unfold ready_m. destruct p as [p|]; [|by intros []]. intros (c & _ & _ & Hk).
  destruct (direction_ m); by eapply kids_ready.
Qed.

Lemma in_order {A} (cs : list A) : Forall (λ j, (j < length cs)%nat) (seq 0 (length cs)).
Proof. apply list.Forall_forall. intros j Hj. apply list_elem_of_In, in_seq in Hj. lia. Qed.

Lemma find_front cs p cur d :
  all_kids (kid (front p)) cs →
  ∃ c, FindSmallest (mkMerging cs cur d) = Ok (mkMerging cs c d) ∧ at_m (mkMerging cs c kForward) (pos_at M p).
Proof.
  intros Hk. unfold FindSmallest. cbn [children_ direction_]. destruct (decide (p < length M)%nat) as [L|L].
  - destruct (holder_exists p L) as (c & Hc & _). rewrite (smallest_ok cs p c Hk Hc), pos_at_lt by done.
    exists (Some c). split; [done|]. by exists c.
  - rewrite (none_front cs _ p Hk), pos_at_ge by (lia || apply in_order).
    exists None. split; [done|]. split; [done|]. by eapply kids_ready.
Qed.

Lemma find_back cs p cur d :
  all_kids (kid (back p)) cs → (p <= length M)%nat →
  ∃ c, FindLargest (mkMerging cs cur d) = Ok (mkMerging cs c d) ∧ at_m (mkMerging cs c kReverse) (pos_before p).
Proof.
  intros Hk Hp. unfold FindLargest. cbn [children_ direction_]. destruct p as [|p].
  - rewrite (none_back cs _ Hk) by (rewrite Forall_reverse; apply in_order).
    exists None. split; [done|]. split; [done|]. by eapply kids_ready.
  - destruct (holder_exists p Hp) as (c & Hc & _). rewrite (largest_ok cs p c Hk Hc).
    exists (Some c). split; [done|]. by exists c.
Qed.

(** ** The positions reached by seeking *)

Lemma idx_first j l : ls !! j = Some l → idx l 0 = 0%nat.
Proof.
  intros Hl. symmetry. apply idx_unique; [lia|]. intros i Hi.
  destruct (lookup_lt_is_Some_2 l i Hi) as [x Hx]. destruct (part_in_all j l i x Hl Hx) as [q Hq].
  rewrite (idx_spec j l i x q 0) by done. lia.
Qed.

Lemma idx_last l : idx l (length M) = length l.
Proof. unfold idx. by rewrite lookup_ge_None_2. Qed.

Lemma idx_seek j l t : ls !! j = Some l → idx l (seek_index M t) = seek_index l t.
Proof.
  intros Hl. symmetry. apply idx_unique; [apply seek_index_le|]. intros i Hi.
  destruct (lookup_lt_is_Some_2 l i Hi) as [x Hx]. destruct (part_in_all j l i x Hl Hx) as [q Hq].
  rewrite (idx_spec j l i x q _ Hl Hx Hq). pose proof (part_ascending _ _ Hl) as Ha.
  assert (∀ L k, ascending L → L !! k = Some x → (k < seek_index L t)%nat ↔ compare_ x.1 t < 0) as Hs.
  { intros L k HL Hk. split; intros Hlt; [by eapply seek_index_before|].
    destruct (decide (k < seek_index L t)%nat) as [|N]; [done|].
    pose proof (seek_index_after L t k x HL ltac:(lia) Hk). lia. }
  by rewrite (Hs l i Ha Hx), (Hs M q (merges_ascending _ _ HM) Hq).
Qed.

Lemma seek_kids f g cs :
  all_kids kid_ready cs →
  (∀ j l w, ls !! j = Some l → ready j (iter_ w) → ∃ w', f w = Ok w' ∧ wrapped l (at_ j) w' (g l)) →
  ∃ cs', map_children f cs = Ok cs' ∧ all_kids (kid g) cs'.
Proof.
  intros [El Hk] Hf.
  destruct (map_children_ok f kid_ready (kid g) cs) with (i := 0%nat) as (cs' & E & El' & Hk'); [|done|].
  - intros j w (l & Hl & Hr). destruct (Hf j l w Hl Hr) as (w' & E & Hw). exists w'. split; [done|]. by exists l.
  - exists cs'. split; [done|]. split; [by rewrite El'|done].
Qed.

Lemma move_kid f g cs c l w w' :
  all_kids (kid f) cs → ls !! c = Some l → cs !! c = Some w → wrapped l (at_ c) w' (g l) →
  (∀ j l, ls !! j = Some l → j ≠ c → g l = f l) → all_kids (kid g) (<[c := w']> cs).
Proof.
  intros [El Hk] Hl Hw Hw' Ho. split; [by rewrite length_insert|]. intros j x Hx.
  destruct (decide (c = j)) as [<-|N].
  - rewrite list_lookup_insert_eq in Hx by (by eapply lookup_lt_Some). injection Hx as <-. by exists l.
  - rewrite list_lookup_insert_ne in Hx by done. destruct (Hk j x Hx) as (l' & Hl' & Hx').
    exists l'. split; [done|]. by rewrite (Ho j l').
Qed.

Lemma turn_kids h f g cs c :
  all_kids (kid f) cs → (∀ l, ls !! c = Some l → g l = f l) →
  (∀ j l w, j ≠ c → ls !! j = Some l → ready j (iter_ w) → ∃ w', h w = Ok w' ∧ wrapped l (at_ j) w' (g l)) →
  ∃ cs', map_others h c 0 cs = Ok cs' ∧ all_kids (kid g) cs'.
Proof.
  intros [El Hk] Hc Hh.
  destruct (map_others_ok h c kid_ready (kid g) cs) with (i := 0%nat) as (cs' & E & El' & Hk').
  - intros j w N (l & Hl & Hr). destruct (Hh j l w N Hl Hr) as (w' & E & Hw). exists w'. split; [done|]. by exists l.
  - intros k w Hw. by eapply kid_is_ready, Hk.
  - exists cs'. split; [done|]. split; [by rewrite El'|]. intros j w Hw. specialize (Hk' j w Hw). cbn in Hk'.
    destruct (decide (j = c)) as [->|N]; [|done]. destruct (Hk c w Hk') as (l & Hl & Hw').
    exists l. split; [done|]. by rewrite Hc.
Qed.

(** ** The current child *)

Definition side (d : Direction) (p : nat) : entries → option nat :=
  match d with kForward => front p | kReverse => back (S p) end.

Lemma side_current d p l e : l !! idx l p = Some e → idx l (S p) = S (idx l p) → side d p l = Some (idx l p).
Proof.
  intros He HS. destruct d; cbn; unfold front, back.
  - rewrite pos_at_lt; [done|]. by eapply lookup_lt_Some.
  - by rewrite HS.
Qed.

Lemma at_current cs c p d :
  all_kids (kid (side d p)) cs → holder c p →
  ∃ l e w, current_child (mkMerging cs (Some c) d) = Ok (c, w) ∧ cs !! c = Some w ∧ ls !! c = Some l ∧
    M !! p = Some e ∧ l !! idx l p = Some e ∧ idx l (S p) = S (idx l p) ∧ wrapped l (at_ c) w (Some (idx l p)) ∧
    key w = Ok e.1 ∧ value w = Ok e.2.
Proof.
  intros [El Hk] (l & e & Hl & He & Hi & HS).
  destruct (lookup_lt_is_Some_2 cs c) as [w Hw]; [rewrite El; by eapply lookup_lt_Some|].
  exists l, e, w. unfold current_child. cbn [current_ children_ of_option]. unfold mbind, res_bind. rewrite Hw.
  destruct (Hk c w Hw) as (l' & Hl' & Ha). rewrite Hl in Hl'. injection Hl' as <-.
  rewrite (side_current d p l e Hi HS) in Ha.
  destruct (it_entry (Iterates := kid_iterates c l Hl) w _ Ha) as (e' & He' & Ek & Ev).
  rewrite Hi in He'. injection He' as <-. done.
Qed.

Lemma at_m_side m p : at_m m (Some p) →
  ∃ cs c d, m = mkMerging cs (Some c) d ∧ holder c p ∧ all_kids (kid (side d p)) cs.
Proof.
  destruct m as [cs cur d]. intros (c & Hc & Hh & Hk). cbn in Hc, Hk. subst cur. exists cs, c, d. by destruct d.
Qed.

Lemma key_in_M p e : M !! p = Some e → dom e.1 ∧ target e.1.
Proof. intros He. exact (list.Forall_lookup_1 _ _ _ _ Hkeys He). Qed.

(** ** Turning round *)

Lemma move_after_ok c p e j l w :
  holder c p → M !! p = Some e → j ≠ c → ls !! j = Some l → ready j (iter_ w) →
  ∃ w', move_after e.1 w = Ok w' ∧ wrapped l (at_ j) w' (front p l).
Proof.
  intros Hh He N Hl Hr. pose proof (kid_iterates j l Hl) as HI.
  destruct (it_seek (Iterates := HI) w e.1 Hr (proj2 (key_in_M p e He))) as (w' & E & Ha).
  assert (seek_index l e.1 = idx l p) as Ei by (unfold idx; by rewrite He).
  exists w'. rewrite Ei in Ha. split; [|done]. unfold move_after. rewrite E. unfold mbind, res_bind.
  rewrite (it_valid (Iterates := HI) w' _ Ha). destruct (decide (idx l p < length l)%nat) as [L|L].
  - rewrite pos_at_lt in Ha |- * by done. rewrite bool_decide_eq_true_2 by done.
    destruct (it_entry (Iterates := HI) w' _ Ha) as (x & Hx & -> & _).
    destruct (part_in_all j l _ x Hl Hx) as [q Hq].
    rewrite (lawful_compare e.1 x.1 (proj1 (key_in_M p e He)) (proj1 (key_in_M q x Hq))).
    destruct (Z.eqb_spec (compare_ e.1 x.1) 0) as [E0|]; [|done]. exfalso.
    destruct Hh as (lc & e' & Hlc & He' & Hi & _). rewrite He in He'. injection He' as <-. apply N. symmetry.
    eapply (merges_apart _ _ HM c j lc l); [done|done|by eapply list_elem_of_lookup_2..|done].
  - by rewrite pos_at_ge by lia.
Qed.

Lemma move_before_ok c p e j l w :
  holder c p → M !! p = Some e → j ≠ c → ls !! j = Some l → ready j (iter_ w) →
  ∃ w', move_before e.1 w = Ok w' ∧ wrapped l (at_ j) w' (back (S p) l).
Proof.
  intros Hh He N Hl Hr. pose proof (kid_iterates j l Hl) as HI. unfold back. rewrite (holder_other c p j l Hh Hl N).
  destruct (it_seek (Iterates := HI) w e.1 Hr (proj2 (key_in_M p e He))) as (w' & E & Ha).
  assert (seek_index l e.1 = idx l p) as Ei by (unfold idx; by rewrite He). rewrite Ei in Ha.
  unfold move_before. rewrite E. unfold mbind, res_bind. rewrite (it_valid (Iterates := HI) w' _ Ha).
  destruct (decide (idx l p < length l)%nat) as [L|L].
  - rewrite pos_at_lt in Ha |- * by done. rewrite bool_decide_eq_true_2 by done.
    exact (it_prev (Iterates := HI) w' _ Ha).
  - rewrite pos_at_ge in Ha |- * by lia. rewrite bool_decide_eq_false_2 by (by intros []).
    pose proof (idx_le l p). replace (idx l p) with (length l) by lia.
    apply (it_last (Iterates := HI)), (it_ready (Iterates := HI) _ _ Ha).
Qed.

(** ** The operations *)

Lemma next_ok m p : at_m m (Some p) → ∃ m', merging_Next m = Ok m' ∧ at_m m' (pos_at M (S p)).
Proof.
  intros (cs & c & d & -> & Hh & Hk)%at_m_side.
  destruct (at_current cs c p d Hk Hh) as (l & e & w & Ec & Hw & Hl & He & Hi & HS & Ha & Ekey & _).
  assert (∃ cs' w', (match d with
       | kForward => Ok (mkMerging cs (Some c) d)
       | kReverse => k ← merging_key (mkMerging cs (Some c) d);
           cs' ← map_others (move_after k) c 0 cs; Ok (mkMerging cs' (Some c) kForward)
       end) = Ok (mkMerging cs' (Some c) kForward) ∧ all_kids (kid (front p)) cs' ∧
       current_child (mkMerging cs' (Some c) kForward) = Ok (c, w') ∧ cs' !! c = Some w' ∧
       wrapped l (at_ c) w' (Some (idx l p))) as (cs' & w' & E & Hk' & Ec' & Hw' & Ha').
  { destruct d; [by exists cs, w|].
    destruct (turn_kids (move_after e.1) _ (front p) cs c Hk) as (cs' & E & Hk').
    - intros l' Hl'. rewrite Hl in Hl'. injection Hl' as <-. rewrite (side_current kReverse p l e Hi HS).
      exact (side_current kForward p l e Hi HS).
    - intros j l' w' N Hl' Hr. by eapply move_after_ok.
    - destruct (at_current cs' c p kForward Hk' Hh) as (l' & e' & w' & Ec' & Hw' & Hl' & _ & _ & _ & Ha' & _).
      rewrite Hl in Hl'. injection Hl' as <-. exists cs', w'. unfold merging_key. rewrite Ec.
      unfold mbind, res_bind. rewrite Ekey, E. done. }
  unfold merging_Next. rewrite Ec. unfold mbind, res_bind in E |- *. cbn [direction_ children_ current_]. rewrite E, Ec'.
  destruct (it_next (Iterates := kid_iterates c l Hl) w' _ Ha') as (w'' & -> & Ha''). cbn [children_ current_ direction_].
  destruct (find_front (<[c := w'']> cs') (S p) (Some c) kForward) as (c' & -> & Hat).
  - eapply move_kid; [exact Hk'|exact Hl|exact Hw'| |].
    + unfold front. by rewrite HS.
    + intros j l' Hl' N. unfold front. by rewrite (holder_other c p j l').
  - eexists. split; [reflexivity|done].
Qed.

Lemma prev_ok m p : at_m m (Some p) → ∃ m', merging_Prev m = Ok m' ∧ at_m m' (pos_before p).
Proof.
  intros (cs & c & d & -> & Hh & Hk)%at_m_side.
  destruct (at_current cs c p d Hk Hh) as (l & e & w & Ec & Hw & Hl & He & Hi & HS & Ha & Ekey & _).
  assert (∃ cs' w', (match d with
       | kReverse => Ok (mkMerging cs (Some c) d)
       | kForward => k ← merging_key (mkMerging cs (Some c) d);
           cs' ← map_others (move_before k) c 0 cs; Ok (mkMerging cs' (Some c) kReverse)
       end) = Ok (mkMerging cs' (Some c) kReverse) ∧ all_kids (kid (back (S p))) cs' ∧
       current_child (mkMerging cs' (Some c) kReverse) = Ok (c, w') ∧ cs' !! c = Some w' ∧
       wrapped l (at_ c) w' (Some (idx l p))) as (cs' & w' & E & Hk' & Ec' & Hw' & Ha').
  { destruct d; [|by exists cs, w].
    destruct (turn_kids (move_before e.1) _ (back (S p)) cs c Hk) as (cs' & E & Hk').
    - intros l' Hl'. rewrite Hl in Hl'. injection Hl' as <-. rewrite (side_current kForward p l e Hi HS).
      exact (side_current kReverse p l e Hi HS).
    - intros j l' w' N Hl' Hr. by eapply move_before_ok.
    - destruct (at_current cs' c p kReverse Hk' Hh) as (l' & e' & w' & Ec' & Hw' & Hl' & _ & _ & _ & Ha' & _).
      rewrite Hl in Hl'. injection Hl' as <-. exists cs', w'. unfold merging_key. rewrite Ec.
      unfold mbind, res_bind. rewrite Ekey, E. done. }
  unfold merging_Prev. rewrite Ec. unfold mbind, res_bind in E |- *. cbn [direction_ children_ current_]. rewrite E, Ec'.
  destruct (it_prev (Iterates := kid_iterates c l Hl) w' _ Ha') as (w'' & -> & Ha''). cbn [children_ current_ direction_].
  destruct (find_back (<[c := w'']> cs') p (Some c) kReverse) as (c' & -> & Hat).
  - eapply move_kid; [exact Hk'|exact Hl|exact Hw'|done|].
    intros j l' Hl' N. unfold back. by rewrite (holder_other c p j l').
  - apply lookup_lt_Some in He. lia.
  - eexists. split; [reflexivity|done].
Qed.

#[export] Instance merging_iterates : Iterates (ord := ord) MergingIterator M target ready_m at_m.
Proof.
  split.
  - apply at_ready.
  - intros m [El Hk]. cbn. unfold merging_status. remember (children_ m) as cs eqn:Ecs. clear Ecs.
    assert (Forall (λ w, status w = Status.OK) cs) as Hs.
    { apply Forall_lookup_2. intros j w Hw. destruct (Hk j w Hw) as (l & Hl & Hr).
      by apply (it_status (Iterates := kid_iterates j l Hl)). }
    clear El Hk. induction Hs as [|w cs Hw Hs IH]; [done|]. cbn [fold_left Status.ok]. by rewrite Hw.
  - intros m [p|] Hm; [by destruct Hm as (c & Hc & _); cbn; unfold merging_Valid; rewrite Hc|].
    destruct Hm as [Hc _]. cbn. unfold merging_Valid. by rewrite Hc.
  - intros m p (cs & c & d & -> & Hh & Hk)%at_m_side.
    destruct (at_current cs c p d Hk Hh) as (l & e & w & Ec & _ & _ & He & _ & _ & _ & Ek & Ev).
    exists e. split; [done|]. cbn [key value merging_iterator]. unfold merging_key, merging_value.
    by rewrite Ec.
  - intros m Hr. destruct (seek_kids SeekToFirst (front 0) (children_ m) Hr) as (cs & E & Hk).
    { intros j l w Hl Hw. unfold front. rewrite (idx_first j l Hl).
      exact (it_first (Iterates := kid_iterates j l Hl) w Hw). }
    destruct (find_front cs 0 (current_ m) (direction_ m) Hk) as (c & Ef & Ha).
    cbn. unfold merging_SeekToFirst. rewrite E. unfold mbind, res_bind. rewrite Ef. by eexists.
  - intros m Hr. destruct (seek_kids SeekToLast (back (length M)) (children_ m) Hr) as (cs & E & Hk).
    { intros j l w Hl Hw. unfold back. rewrite idx_last.
      exact (it_last (Iterates := kid_iterates j l Hl) w Hw). }
    destruct (find_back cs (length M) (current_ m) (direction_ m) Hk (le_n _)) as (c & Ef & Ha).
    cbn. unfold merging_SeekToLast. rewrite E. unfold mbind, res_bind. rewrite Ef. by eexists.
  - intros m t Hr Ht. destruct (seek_kids (Seek t) (front (seek_index M t)) (children_ m) Hr) as (cs & E & Hk).
    { intros j l w Hl Hw. unfold front. rewrite (idx_seek j l t Hl).
      exact (it_seek (Iterates := kid_iterates j l Hl) w t Hw Ht). }
    destruct (find_front cs _ (current_ m) (direction_ m) Hk) as (c & Ef & Ha).
    cbn. unfold merging_Seek. rewrite E. unfold mbind, res_bind. rewrite Ef. by eexists.
  - apply next_ok.
  - apply prev_ok.
Qed.
End merging.

(** * The merging iterator *)

Section claim.
Context {I : Type} `{Iterator I} {C : SliceComparator} {dom valid : bytes → Prop} {ord : Comparator bytes}.
Context (HC : Lawful C dom valid ord).

Lemma set_children_ok (ready : nat → I → Prop) its (ls : list entries) :
  Forall (λ it, Valid it = false) its → length its = length ls → ∀ i,
  (∀ j it, its !! j = Some it → ready (i + j)%nat it) →
  ∃ cs, set_children its = Ok cs ∧ length cs = length ls ∧
    ∀ j w, cs !! j = Some w → ready (i + j)%nat (iter_ w).
Proof.
  intros Hv. revert ls. induction Hv as [|it its Hv Hvs IH]; intros [|l ls] El i Hr; try done; [by exists []|].
  destruct (IH ls ltac:(by injection El) (S i)) as (cs & E & Elen & Hcs).
  { intros j x Hx. replace (S i + j)%nat with (i + S j)%nat by lia. by apply Hr. }
  cbn [set_children]. unfold Set_. rewrite Hv. unfold mbind, res_bind. rewrite E.
  eexists. split; [reflexivity|]. split; [cbn; by rewrite Elen|]. intros [|j] w Hw.
  - injection Hw as <-. cbn. by apply (Hr 0%nat).
  - replace (i + S j)%nat with (S i + j)%nat by lia. by apply Hcs.
Qed.

Lemma merges_none M : merges [] M → M = [].
Proof.
  intros HM. destruct M as [|e M]; [done|]. exfalso.
  destruct (proj1 (merges_all _ _ HM e) (list_elem_of_here _ _)) as (l & Hl & _). by apply not_elem_of_nil in Hl.
Qed.

Lemma merges_one l M : merges [l] M → M = l.
Proof.
  intros HM. pose proof (@lawful_order _ _ _ _ HC) as HO. apply ascending_unique; [apply HM| |].
  - pose proof (merges_parts _ _ HM) as Hp. by inversion Hp.
  - intros e. rewrite (merges_all _ _ HM e). split.
    + intros (l' & Hl' & He). by apply list_elem_of_singleton in Hl' as ->.
    + intros He. exists l. split; [by apply list_elem_of_singleton|done].
Qed.
End claim.

(** C15: The merging iterator is one iterator over all entries of its children.
    Children that keep the contract of iterators on lists of which no two share a key,
    and that are not positioned yet: any sequence of calls (seeks, steps and changes of
    direction) of the iterator that [NewMergingIterator] returns shows what a cursor in
    the merged list shows. *)
Theorem merging_correct {I} `{Iterator I} (C : SliceComparator) dom valid ord
    (ls : list entries) (M : entries) target ready at_ (its : list I) cs r :
  Lawful C dom valid ord → merges (H := ord) ls M → Forall (λ e, dom e.1 ∧ target e.1) M →
  (∀ j l, ls !! j = Some l → Iterates (ord := ord) I l target (ready j) (at_ j)) →
  length its = length ls → (∀ j it, its !! j = Some it → ready j it) → Forall (λ it, Valid it = false) its →
  Forall (call_target target) cs → cursor_calls (ord := ord) M None cs = Some r →
  ∃ m, NewMergingIterator its = Ok m ∧ status m = Status.OK ∧ run_calls cs m = Ok r.
Proof.
  intros HC HM Hk Hch El Hr Hv Ht Hc. destruct its as [|it [|it2 its]].
  - destruct ls; [|done]. pose proof (merges_none M HM) as ->.
    exists (inl NewEmptyIterator). split; [done|]. split; [done|]. rewrite run_calls_inl.
    eapply (run_calls_ok (H0 := empty_iterates (ord := ord) target)); [by right|done|done].
  - destruct ls as [|l [|]]; try done. pose proof (merges_one HC l M HM) as ->. pose proof (Hch 0%nat l eq_refl) as HI.
    pose proof (Hr 0%nat it eq_refl) as Hrit.
    exists (inr (inl it)). split; [done|]. split; [exact (it_status (Iterates := HI) it Hrit)|].
    rewrite run_calls_inr, run_calls_inl. eapply (run_calls_ok (H0 := HI)); [by right|done|done].
  - destruct (set_children_ok ready (it :: it2 :: its) ls Hv El 0 Hr) as (ws & E & Elen & Hws).
    pose proof (merging_iterates HC ls M HM target Hk ready at_ Hch) as HI.
    assert (ready_m ls ready (mkMerging ws None kForward)) as Hrm.
    { split; [done|]. intros j w Hw. destruct (lookup_lt_is_Some_2 ls j) as [l Hl].
      { rewrite <- Elen. by eapply lookup_lt_Some. }
      exists l. split; [done|]. by apply (Hws j w). }
    exists (inr (inr (mkMerging ws None kForward))). unfold NewMergingIterator, new. rewrite E.
    split; [done|]. split; [exact (it_status (Iterates := HI) _ Hrm)|].
    rewrite !run_calls_inr. eapply (run_calls_ok (H0 := HI)); [by right|done|done].
Qed.

Definition example_lists : list entries :=
  [[([1], [10]); ([3], [11]); ([7; 0], [12])]; [([2], [20]); ([7], [])]; []; [([4], [30])]].
Definition example_merged : entries :=
  [([1], [10]); ([2], [20]); ([3], [11]); ([4], [30]); ([7], []); ([7; 0], [12])].
Definition example_calls : list cursor_call :=
  [CallFirst; CallNext; CallNext; CallPrev; CallPrev; CallNext; CallSeek [5]; CallPrev; CallPrev; CallNext;
   CallLast; CallPrev; CallNext; CallNext].

Definition example_shown : list (option (bytes * bytes)) :=
  [Some ([1], [10]); Some ([2], [20]); Some ([3], [11]); Some ([2], [20]);
   Some ([1], [10]); Some ([2], [20]); Some ([7], []); Some ([4], [30]); Some ([3], [11]); Some ([4], [30]);
   Some ([7; 0], [12]); Some ([7], []); Some ([7; 0], [12]); None].

Lemma example_merges : merges (H := bytewise_order) example_lists example_merged.
Proof.
  split.
  - repeat constructor.
  - repeat constructor.
  - intros e. rewrite <- (list.Exists_exists (λ l, e ∈ l)). unfold example_lists, example_merged.
    rewrite !List.Exists_cons, List.Exists_nil, ?elem_of_cons, ?elem_of_nil. tauto.
  - intros i j li lj a b Hi Hj. unfold example_lists in Hi, Hj.
    destruct i as [|[|[|[|i]]]]; try done; destruct j as [|[|[|[|j]]]]; try done; cbn in Hi, Hj;
      injection Hi as <-; injection Hj as <-; rewrite ?elem_of_cons, ?elem_of_nil; intros Ha Hb E; exfalso;
      repeat match goal with O : _ ∨ _ |- _ => destruct O as [O|O] end; subst; done.
Qed.

Lemma merging_correct_witness :
  ∃ m, NewMergingIterator (H := list_iterator (ord := bytewise_order))
      ((λ l, mkListIterator l None) <$> example_lists) = Ok m ∧
    run_calls (H := sum_iterator (H0 := sum_iterator
      (H := list_iterator (ord := bytewise_order))
      (H0 := merging_iterator (H := list_iterator (ord := bytewise_order))
        (comparator_ := Bytewise.BytewiseComparator)))) example_calls m = Ok example_shown.
Proof.
  destruct (merging_correct (H := list_iterator (ord := bytewise_order)) Bytewise.BytewiseComparator (λ _, True)
    (Forall is_byte) bytewise_order example_lists example_merged (λ _, True)
    (λ j s, list_entries s = example_lists !!! j)
    (λ j s p, list_entries s = example_lists !!! j ∧ list_pos s = p ∧
      ∀ i, p = Some i → (i < length (example_lists !!! j))%nat)
    ((λ l, mkListIterator l None) <$> example_lists) example_calls example_shown) as (m & E & _ & Er).
  - exact bytewise_lawful.
  - exact example_merges.
  - repeat constructor.
  - intros j l Hl. rewrite (list_lookup_total_correct _ _ _ Hl). apply list_iterates.
  - reflexivity.
  - intros j it. rewrite list_lookup_fmap. destruct (example_lists !! j) as [l|] eqn:Hl; [|done].
    intros [= <-]. by rewrite (list_lookup_total_correct _ _ _ Hl).
  - repeat constructor.
  - repeat constructor.
  - vm_compute. reflexivity.
  - exists m. split; [exact E|exact Er].
Defined.
