(* ===== verification/LdbDbIter.v ===== *)
(** LevelDB's iterator over the user's view of the data ([db/db_iter.cc]): it walks an
    iterator over internal keys and shows, at a snapshot, the newest value of each
    user key. *)
From S2P Require Import Prelude LdbSkip LdbFormat LdbIterator.
Import Status Internal.

Module DbIter.
Section db_iter.

(** The internal iterator, and a bound on the turns of the loops that walk it. *)
Context {I : Type} `{Iterator I} {user_comparator_ : SliceComparator} (fuel : nat).

Inductive Direction := kForward | kReverse.

(** [samples_] are the calls of [RecordReadSample] of the database. *)
Record DBIter := mkDBIter {
  iter_ : I; sequence_ : Z; status_ : Status; saved_key_ : bytes; saved_value_ : bytes;
  direction_ : Direction; valid_ : bool; rnd_ : Z; bytes_counter_ : Z; samples_ : list bytes
}.

Definition set_iter (d : DBIter) (it : I) : DBIter :=
  mkDBIter it (sequence_ d) (status_ d) (saved_key_ d) (saved_value_ d) (direction_ d) (valid_ d)
    (rnd_ d) (bytes_counter_ d) (samples_ d).
Definition set_status (d : DBIter) (s : Status) : DBIter :=
  mkDBIter (iter_ d) (sequence_ d) s (saved_key_ d) (saved_value_ d) (direction_ d) (valid_ d)
    (rnd_ d) (bytes_counter_ d) (samples_ d).
Definition SaveKey (d : DBIter) (k : bytes) : DBIter :=
  mkDBIter (iter_ d) (sequence_ d) (status_ d) k (saved_value_ d) (direction_ d) (valid_ d)
    (rnd_ d) (bytes_counter_ d) (samples_ d).
Definition save_value (d : DBIter) (v : bytes) : DBIter :=
  mkDBIter (iter_ d) (sequence_ d) (status_ d) (saved_key_ d) v (direction_ d) (valid_ d)
    (rnd_ d) (bytes_counter_ d) (samples_ d).
Definition set_direction (d : DBIter) (x : Direction) : DBIter :=
  mkDBIter (iter_ d) (sequence_ d) (status_ d) (saved_key_ d) (saved_value_ d) x (valid_ d)
    (rnd_ d) (bytes_counter_ d) (samples_ d).
Definition set_valid (d : DBIter) (v : bool) : DBIter :=
  mkDBIter (iter_ d) (sequence_ d) (status_ d) (saved_key_ d) (saved_value_ d) (direction_ d) v
    (rnd_ d) (bytes_counter_ d) (samples_ d).
Definition set_sampling (d : DBIter) (rnd counter : Z) (samples : list bytes) : DBIter :=
  mkDBIter (iter_ d) (sequence_ d) (status_ d) (saved_key_ d) (saved_value_ d) (direction_ d) (valid_ d)
    rnd counter samples.

(** How much memory the string keeps is not modelled. *)
Definition ClearSavedValue (d : DBIter) : DBIter := save_value d [].

Definition kReadBytesPeriod : Z := 1048576.
Definition RandomPeriod (rnd : Z) : res (Z * Z) := of_option (Random.Uniform rnd (2 * kReadBytesPeriod)).

Definition new (iter : I) (s seed : Z) : res DBIter :=
  '(period, rnd) ← RandomPeriod (Random.init seed);
  Ok (mkDBIter iter s OK [] [] kForward false rnd period []).

(** The samples of one key; two draws in a row are not both zero. *)
Definition sample_fuel (counter : Z) : nat := S (2 * Z.to_nat (- counter)).
Fixpoint sample_loop (n : nat) (k : bytes) (rnd counter : Z) (samples : list bytes) : res (Z * Z * list bytes) :=
  match n with
  | O => NoFuel
  | S n' =>
      if counter <? 0 then
        '(period, rnd) ← RandomPeriod rnd;
        sample_loop n' k rnd (counter + period) (samples ++ [k])
      else Ok (rnd, counter, samples)
  end.

(** [None] when it returns false. *)
Definition ParseKey (d : DBIter) : res (option ParsedInternalKey * DBIter) :=
  k ← key (iter_ d);
  v ← value (iter_ d);
  let n := s64 (u64 (Slice.size k + Slice.size v)) in
  let counter := bytes_counter_ d - n in
  '(rnd, counter, samples) ← sample_loop (sample_fuel counter) k (rnd_ d) counter (samples_ d);
  let d := set_sampling d rnd counter samples in
  r ← ParseInternalKey k;
  match r with
  | None => Ok (None, set_status d (Corruption "corrupted internal key in DBIter"))
  | Some ikey => Ok (Some ikey, d)
  end.

(** One turn of [FindNextUserEntry]: it returns, or goes on with [skipping]. The skipped
    key is always [saved_key_]. *)
Definition next_turn (skipping : bool) (d : DBIter) : res (DBIter + bool * DBIter) :=
  '(r, d) ← ParseKey d;
  match r with
  | Some ikey =>
      if sequence ikey <=? sequence_ d then
        match type ikey with
        | kTypeDeletion => Ok (inr (true, SaveKey d (user_key ikey)))
        | kTypeValue =>
            hidden ← (if skipping : bool then c ← Compare (user_key ikey) (saved_key_ d); Ok (c <=? 0)
                      else Ok false);
            if hidden : bool then Ok (inr (skipping, d)) else Ok (inl (SaveKey (set_valid d true) []))
        end
      else Ok (inr (skipping, d))
  | None => Ok (inr (skipping, d))
  end.

Fixpoint find_next_loop (n : nat) (skipping : bool) (d : DBIter) : res DBIter :=
  match n with
  | O => NoFuel
  | S n' =>
      r ← next_turn skipping d;
      match r with
      | inl d => Ok d
      | inr (skipping, d) =>
          it ← Next (iter_ d);
          let d := set_iter d it in
          if Valid it then find_next_loop n' skipping d
          else Ok (set_valid (SaveKey d []) false)
      end
  end.

Definition FindNextUserEntry (skipping : bool) (d : DBIter) : res DBIter :=
  SkipList.assert_ (Valid (iter_ d));;
  SkipList.assert_ (match direction_ d with kForward => true | kReverse => false end);;
  find_next_loop fuel skipping d.

Definition db_Next (d : DBIter) : res DBIter :=
  SkipList.assert_ (valid_ d);;
  match direction_ d with
  | kReverse =>
      let d := set_direction d kForward in
      it ← (if Valid (iter_ d) then Next (iter_ d) else SeekToFirst (iter_ d));
      let d := set_iter d it in
      if Valid it then FindNextUserEntry true d
      else Ok (SaveKey (set_valid d false) [])
  | kForward =>
      k ← key (iter_ d);
      u ← ExtractUserKey k;
      FindNextUserEntry true (SaveKey d u)
  end.

(** One turn of [FindPrevUserEntry]: whether it breaks, the new [value_type]. *)
Definition prev_turn (value_type : ValueType) (d : DBIter) : res (bool * ValueType * DBIter) :=
  '(r, d) ← ParseKey d;
  match r with
  | Some ikey =>
      if sequence ikey <=? sequence_ d then
        break ← (match value_type with
                 | kTypeDeletion => Ok false
                 | kTypeValue => c ← Compare (user_key ikey) (saved_key_ d); Ok (c <? 0)
                 end);
        if break : bool then Ok (true, value_type, d)
        else
          match type ikey with
          | kTypeDeletion => Ok (false, kTypeDeletion, ClearSavedValue (SaveKey d []))
          | kTypeValue =>
              raw_value ← value (iter_ d);
              k ← key (iter_ d);
              u ← ExtractUserKey k;
              Ok (false, kTypeValue, save_value (SaveKey d u) raw_value)
          end
      else Ok (false, value_type, d)
  | None => Ok (false, value_type, d)
  end.

Fixpoint find_prev_loop (n : nat) (value_type : ValueType) (d : DBIter) : res (ValueType * DBIter) :=
  match n with
  | O => NoFuel
  | S n' =>
      '(break, value_type, d) ← prev_turn value_type d;
      if break : bool then Ok (value_type, d)
      else
        it ← Prev (iter_ d);
        let d := set_iter d it in
        if Valid it then find_prev_loop n' value_type d else Ok (value_type, d)
  end.

Definition FindPrevUserEntry (d : DBIter) : res DBIter :=
  SkipList.assert_ (match direction_ d with kForward => false | kReverse => true end);;
  '(value_type, d) ← (if Valid (iter_ d) then find_prev_loop fuel kTypeDeletion d
                      else Ok (kTypeDeletion, d));
  match value_type with
  | kTypeDeletion => Ok (set_direction (ClearSavedValue (SaveKey (set_valid d false) [])) kForward)
  | kTypeValue => Ok (set_valid d true)
  end.

(** Back to the last entry whose key is smaller than the saved one; whether there is one. *)
Fixpoint switch_loop (n : nat) (d : DBIter) : res (bool * DBIter) :=
  match n with
  | O => NoFuel
  | S n' =>
      it ← Prev (iter_ d);
      let d := set_iter d it in
      if Valid it then
        k ← key it;
        u ← ExtractUserKey k;
        c ← Compare u (saved_key_ d);
        if c <? 0 then Ok (true, d) else switch_loop n' d
      else Ok (false, d)
  end.

Definition db_Prev (d : DBIter) : res DBIter :=
  SkipList.assert_ (valid_ d);;
  match direction_ d with
  | kForward =>
      SkipList.assert_ (Valid (iter_ d));;
      k ← key (iter_ d);
      u ← ExtractUserKey k;
      '(found, d) ← switch_loop fuel (SaveKey d u);
      if found : bool then FindPrevUserEntry (set_direction d kReverse)
      else Ok (ClearSavedValue (SaveKey (set_valid d false) []))
  | kReverse => FindPrevUserEntry d
  end.

Definition db_Seek (target : bytes) (d : DBIter) : res DBIter :=
  let d := SaveKey (ClearSavedValue (set_direction d kForward)) [] in
  k ← AppendInternalKey (saved_key_ d) (mkParsed target (sequence_ d) kValueTypeForSeek);
  let d := SaveKey d k in
  it ← Seek (saved_key_ d) (iter_ d);
  let d := set_iter d it in
  if Valid it then FindNextUserEntry false d else Ok (set_valid d false).

Definition db_SeekToFirst (d : DBIter) : res DBIter :=
  let d := ClearSavedValue (set_direction d kForward) in
  it ← SeekToFirst (iter_ d);
  let d := set_iter d it in
  if Valid it then FindNextUserEntry false d else Ok (set_valid d false).

Definition db_SeekToLast (d : DBIter) : res DBIter :=
  let d := ClearSavedValue (set_direction d kReverse) in
  it ← SeekToLast (iter_ d);
  FindPrevUserEntry (set_iter d it).

Definition db_key (d : DBIter) : res bytes :=
  SkipList.assert_ (valid_ d);;
  match direction_ d with
  | kForward => k ← key (iter_ d); ExtractUserKey k
  | kReverse => Ok (saved_key_ d)
  end.
Definition db_value (d : DBIter) : res bytes :=
  SkipList.assert_ (valid_ d);;
  match direction_ d with kForward => value (iter_ d) | kReverse => Ok (saved_value_ d) end.
Definition db_status (d : DBIter) : Status := if ok (status_ d) then status (iter_ d) else status_ d.

#[local] Instance db_iterator : Iterator DBIter := {|
  Valid := valid_;
  SeekToFirst := db_SeekToFirst;
  SeekToLast := db_SeekToLast;
  Seek := db_Seek;
  Next := db_Next;
  Prev := db_Prev;
  key := db_key;
  value := db_value;
  status := db_status
|}.

Definition NewDBIterator (internal_iter : I) (sequence seed : Z) : res DBIter := new internal_iter sequence seed.
End db_iter.
Arguments DBIter : clear implicits.
End DbIter.

(** * The user's view

    The specification: of the entries that a snapshot sees, the first one of each user
    key, if it is a value. *)
Section user_view.
Context `{ord : Comparator bytes} (s : Z).

Abbreviation version := (ParsedInternalKey * bytes)%type.

Definition visible (e : version) : bool := sequence e.1 <=? s.
Definition same_key (a b : version) : bool := compare_ (user_key a.1) (user_key b.1) =? 0.
Definition is_value (e : version) : bool :=
  match type e.1 with kTypeValue => true | kTypeDeletion => false end.

(** Whether [e] is shown, after the entries [before]. *)
Definition shows (before : list version) (e : version) : bool :=
  visible e && is_value e && negb (existsb (λ x, visible x && same_key x e) before).

Fixpoint view_from (before es : list version) : entries :=
  match es with
  | [] => []
  | e :: es => (if shows before e then [(user_key e.1, e.2)] else []) ++ view_from (before ++ [e]) es
  end.
Definition user_view (es : list version) : entries := view_from [] es.
End user_view.
