(* ===== verification/LdbDbIterProps.v ===== *)
(** The iterator of the database keeps the contract of iterators on the user's view,
    when the internal iterator keeps it on the internal keys. *)
From Stdlib Require Import Sorting.Sorted.
From S2P Require Import Prelude LdbSkip LdbSkipLemmas LdbFormat LdbCodingProps LdbOrder LdbKeyProps LdbIterator LdbDbIter.
Import Internal DbIter.

(** * Sampling *)

Definition draw (rnd : Z) : Z := Random.Next rnd mod 2097152.

(** Two draws in a row are not both zero. *)
Lemma draw_nonzero rnd : Random.good rnd → draw rnd = 0 → draw (Random.Next rnd) ≠ 0.
Proof.
  intros Hg. unfold draw. destruct (Random.next_exact rnd Hg) as [_ Hg'].
  remember (Random.Next rnd) as x eqn:Ex. clear Ex Hg rnd. destruct (Random.next_exact x Hg') as [-> Hg''].
  unfold Random.good, Random.M, Random.A in *. intros H1 H2.
  pose proof (Z.div_mod (x * 16807) 2147483647 ltac:(lia)) as Ed.
  pose proof (Z.mod_pos_bound (x * 16807) 2147483647 ltac:(lia)) as Hy.
  assert (0 <= x * 16807 / 2147483647 < 16807) as Hq
    by (split; [apply Z.div_pos; lia|apply Z.div_lt_upper_bound; lia]).
  remember (x * 16807 / 2147483647) as q eqn:Eq. remember ((x * 16807) mod 2147483647) as y eqn:Ey.
  clear Eq Ey. Z.div_mod_to_equations. lia.
Qed.

Lemma RandomPeriod_ok rnd : Random.good rnd →
  RandomPeriod rnd = Ok (draw rnd, Random.Next rnd) ∧ Random.good (Random.Next rnd) ∧ 0 <= draw rnd.
Proof.
  intros Hg. split; [done|]. split; [by apply Random.next_exact|]. unfold draw. by apply Z.mod_pos_bound.
Qed.

Lemma sample_loop_ok k n : ∀ rnd counter samples,
  Random.good rnd → (1 <= n)%nat →
  2 * - counter + (if draw rnd =? 0 then 1 else 0) <= Z.of_nat n →
  ∃ rnd' counter' samples', sample_loop n k rnd counter samples = Ok (rnd', counter', samples') ∧
    Random.good rnd' ∧ 0 <= counter'.
Proof.
  induction n as [|n IH]; intros rnd counter samples Hg H1 Hn; [lia|]. cbn [sample_loop].
  destruct (Z.ltb_spec counter 0) as [L|L]; [|by eexists _, _, _].
  destruct (RandomPeriod_ok rnd Hg) as (-> & Hg' & Hd). unfold mbind, res_bind.
  pose proof (draw_nonzero rnd Hg) as Hz. apply IH; [done| |].
  - destruct (Z.eqb_spec (draw rnd) 0); lia.
  - destruct (Z.eqb_spec (draw rnd) 0) as [E|E].
    + rewrite (proj2 (Z.eqb_neq _ 0)) by by apply Hz. lia.
    + destruct (_ =? 0); lia.
Qed.

(** * The view *)

Section view_lemmas.
Context `{ord : Comparator bytes} (s : Z) (es : list (ParsedInternalKey * bytes)).

Lemma view_from_snoc before l e :
  view_from s before (l ++ [e]) = view_from s before l ++
    (if shows s (before ++ l) e then [(user_key e.1, e.2)] else []).
Proof.
  revert before. induction l as [|x l IH]; intros before; cbn.
  - by rewrite !app_nil_r.
  - by rewrite IH, <- !app_assoc.
Qed.

(** How many entries of the view come from the first [i] entries. *)
Definition rank (i : nat) : nat := length (user_view s (take i es)).

Lemma view_S i e : es !! i = Some e →
  user_view s (take (S i) es) = user_view s (take i es) ++
    (if shows s (take i es) e then [(user_key e.1, e.2)] else []).
Proof. intros He. rewrite (take_S_r _ _ _ He). unfold user_view. by rewrite view_from_snoc. Qed.

Lemma rank_S i e : es !! i = Some e →
  rank (S i) = (rank i + if shows s (take i es) e then 1 else 0)%nat.
Proof. intros He. unfold rank. rewrite (view_S i e He), length_app. by destruct (shows _ _ _). Qed.

Lemma view_prefix i k : ∃ r, user_view s (take (i + k) es) = user_view s (take i es) ++ r.
Proof.
  induction k as [|k [r IH]]; [exists []; by rewrite Nat.add_0_r, app_nil_r|].
  destruct (es !! (i + k)%nat) as [e|] eqn:He.
  - rewrite Nat.add_succ_r, (view_S _ e He), IH, <- app_assoc. by eexists.
  - apply lookup_ge_None in He. rewrite Nat.add_succ_r, take_ge by lia. exists r.
    by rewrite <- IH, take_ge by lia.
Qed.

Lemma view_all i : ∃ r, user_view s es = user_view s (take i es) ++ r.
Proof.
  destruct (view_prefix i (length es)) as [r E]. rewrite (take_ge es (i + length es)) in E by lia. by exists r.
Qed.

Lemma rank_0 : rank 0 = 0%nat.
Proof. done. Qed.

Lemma rank_end i : (length es <= i)%nat → rank i = length (user_view s es).
Proof. intros. unfold rank. by rewrite take_ge. Qed.

Lemma rank_mono i j : (i <= j)%nat → (rank i <= rank j)%nat.
Proof.
  intros L. destruct (view_prefix i (j - i)) as [r E]. replace (i + (j - i))%nat with j in E by lia.
  unfold rank. rewrite E, length_app. lia.
Qed.

Lemma view_lookup i e : es !! i = Some e → shows s (take i es) e = true →
  user_view s es !! rank i = Some (user_key e.1, e.2).
Proof.
  intros He Hs. destruct (view_all (S i)) as [r ->]. rewrite (view_S i e He), Hs, <- app_assoc.
  cbn [app]. by rewrite list_lookup_middle.
Qed.

(** Every entry of the view comes from somewhere. *)
Lemma view_from_entry p x : user_view s es !! p = Some x →
  ∃ i e, es !! i = Some e ∧ shows s (take i es) e = true ∧ rank i = p ∧ x = (user_key e.1, e.2).
Proof.
  intros Hx. assert (∀ n, (n <= length es)%nat → (p < rank n)%nat →
    ∃ i e, es !! i = Some e ∧ shows s (take i es) e = true ∧ rank i = p) as Hn.
  { induction n as [|n IH]; [rewrite rank_0; lia|]. intros Hl Hp.
    destruct (lookup_lt_is_Some_2 es n) as [e He]; [lia|]. rewrite (rank_S n e He) in Hp.
    destruct (decide (p < rank n)%nat) as [L|L]; [apply IH; [lia|done]|].
    exists n, e. destruct (shows s (take n es) e); [|lia]. split; [done|]. split; [done|]. lia. }
  destruct (Hn (length es)) as (i & e & He & Hs & <-); [lia| |].
  - rewrite rank_end by lia. by apply lookup_lt_Some in Hx.
  - exists i, e. rewrite (view_lookup i e He Hs) in Hx. by injection Hx as <-.
Qed.

Lemma shows_iff i e :
  shows s (take i es) e = true ↔ visible s e = true ∧ is_value e = true ∧
    ∀ j x, (j < i)%nat → es !! j = Some x → visible s x = true → same_key x e = false.
Proof.
  unfold shows. rewrite !andb_true_iff, negb_true_iff, <- not_true_iff_false, List.existsb_exists. split.
  - intros [[Hv Ht] Hn]. split; [done|]. split; [done|]. intros j x Hj Hx Hvx.
    apply not_true_iff_false. intros E. apply Hn. exists x. split; [|by rewrite Hvx, E].
    apply list_elem_of_In, list_elem_of_lookup. exists j. by rewrite lookup_take_lt.
  - intros (Hv & Ht & Hn). split; [done|]. intros (x & Hin & E). apply andb_true_iff in E as [Hvx E].
    apply list_elem_of_In, list_elem_of_lookup in Hin as [j Hj]. apply lookup_take_Some in Hj as [Hj L].
    by rewrite (Hn j x L Hj Hvx) in E.
Qed.

Definition quiet (i c : nat) : Prop := ∀ j x, (i <= j < c)%nat → es !! j = Some x → visible s x = false.

Lemma not_visible_not_shown l e : visible s e = false → shows s l e = false.
Proof. unfold shows. by intros ->. Qed.

Lemma not_value_not_shown l e : is_value e = false → shows s l e = false.
Proof. unfold shows. intros ->. by rewrite andb_false_r. Qed.

Lemma quiet_rank i c : quiet i c → (i <= c)%nat → (c <= length es)%nat → rank i = rank c.
Proof.
  intros Hq. induction c as [|c IH]; intros Hi Hc; [by replace i with 0%nat by lia|].
  destruct (decide (i = S c)) as [->|N]; [done|].
  destruct (lookup_lt_is_Some_2 es c) as [x Hx]; [lia|].
  rewrite (rank_S c x Hx), not_visible_not_shown by (apply (Hq c x); [lia|done]).
  rewrite IH; [lia| |lia|lia]. intros j y Hj. apply Hq. lia.
Qed.
End view_lemmas.

(** * The iterator *)

Section db_iter.
Context {I : Type} `{Iterator I}.
Context {C : SliceComparator} {dom valid : bytes → Prop} {ord : Comparator bytes} (HC : Lawful C dom valid ord).
Context (s : Z) (Hs : 0 <= s < 2 ^ 56) (es : list (ParsedInternalKey * bytes)).

Definition enc (e : ParsedInternalKey * bytes) : bytes * bytes :=
  (internal (user_key e.1) (pack (sequence e.1) (type e.1)), e.2).
Definition fits (e : ParsedInternalKey * bytes) : Prop := 0 <= sequence e.1 < 2 ^ 56 ∧ dom (user_key e.1).

Context (Hes : Forall fits es) (HM : ascending (ord := internal_order ord) (enc <$> es)).
Context (target : bytes → Prop) (ready : I → Prop) (at_ : I → option nat → Prop).
Context (HI : Iterates (ord := internal_order ord) I (enc <$> es) target ready at_).
Abbreviation i_ready := (it_ready (Iterates := HI)).
Abbreviation i_status := (it_status (Iterates := HI)).
Abbreviation i_valid := (it_valid (Iterates := HI)).
Abbreviation i_entry := (it_entry (Iterates := HI)).
Abbreviation i_first := (it_first (Iterates := HI)).
Abbreviation i_last := (it_last (Iterates := HI)).
Abbreviation i_seek := (it_seek (Iterates := HI)).
Abbreviation i_next := (it_next (Iterates := HI)).
Abbreviation i_prev := (it_prev (Iterates := HI)).
Context (fuel : nat) (Hfuel : (length es < fuel)%nat).

#[local] Instance order_ : Order bytes := lawful_order.
#[local] Existing Instance db_iterator.

Abbreviation rank := (rank s es).
Abbreviation quiet := (quiet s es).
Abbreviation view := (user_view s es).
Abbreviation head i e := (shows s (take i es) e = true).
Abbreviation user e := (user_key (fst e)).

Lemma entry_fits i e : es !! i = Some e → fits e.
Proof. intros He. exact (list.Forall_lookup_1 _ _ _ _ Hes He). Qed.

Lemma entry_dom i e : es !! i = Some e → dom (user e).
Proof. intros He. apply (entry_fits i e He). Qed.

Lemma enc_split e : fits e → split_internal (enc e).1 = Some (user e, pack (sequence e.1) (type e.1)).
Proof. intros [Hq _]. apply split_internal_internal. by apply pack_range. Qed.

(** The entries are ordered by user key. *)
Lemma users_ascending i j a b : es !! i = Some a → es !! j = Some b → (i < j)%nat → compare_ (user a) (user b) <= 0.
Proof.
  intros Ha Hb L. assert (∀ k x, es !! k = Some x → (enc <$> es) !! k = Some (enc x)) as Hm
    by (intros k x Hk; by rewrite list_lookup_fmap, Hk).
  pose proof (ascending_lt (ord := internal_order ord) _ i j _ _ HM (Hm _ _ Ha) (Hm _ _ Hb) L) as Hlt.
  unfold compare_, internal_order, via in Hlt.
  rewrite (enc_split a (entry_fits _ _ Ha)), (enc_split b (entry_fits _ _ Hb)) in Hlt.
  unfold then_down in Hlt. cbn [fst snd] in Hlt. destruct (Z.eqb_spec (compare_ (user a) (user b)) 0); lia.
Qed.

Lemma same_key_iff a b : same_key (ord := ord) a b = true ↔ compare_ (user a) (user b) = 0.
Proof. unfold same_key. apply Z.eqb_eq. Qed.

(** What stays the same while the iterator works. *)
Record basics (dir : Direction) (d : DBIter I) : Prop := {
  basics_seq : sequence_ d = s;
  basics_status : DbIter.status_ d = Status.OK;
  basics_rnd : Random.good (rnd_ d);
  basics_dir : direction_ d = dir
}.

(** At an entry of the internal iterator. *)
Lemma at_entry d i e : at_ (iter_ d) (Some i) → es !! i = Some e →
  Valid (iter_ d) = true ∧ key (iter_ d) = Ok (enc e).1 ∧ value (iter_ d) = Ok e.2 ∧
  ExtractUserKey (enc e).1 = Ok (user e).
Proof.
  intros Ha He. rewrite (i_valid _ _ Ha), bool_decide_eq_true_2 by done.
  destruct (i_entry _ _ Ha) as (x & Hx & -> & ->). rewrite list_lookup_fmap, He in Hx. injection Hx as <-.
  split; [done|]. split; [done|]. split; [done|].
  by destruct (split_internal_Some _ _ _ (enc_split e (entry_fits _ _ He))) as [E _].
Qed.

Lemma ParseKey_ok dir d i e : basics dir d → at_ (iter_ d) (Some i) → es !! i = Some e →
  ∃ rnd counter samples, ParseKey d = Ok (Some e.1, DbIter.set_sampling d rnd counter samples) ∧
    basics dir (DbIter.set_sampling d rnd counter samples).
Proof.
  intros [H1 H2 H3 H4] Ha He. destruct (at_entry d i e Ha He) as (_ & Ek & Ev & _).
  unfold ParseKey. rewrite Ek, Ev. unfold mbind, res_bind.
  set (counter := bytes_counter_ d - _).
  destruct (sample_loop_ok (enc e).1 (sample_fuel counter) (rnd_ d) counter (samples_ d))
    as (rnd & counter' & samples & -> & Hg & _); [done|unfold sample_fuel; lia| |].
  { unfold sample_fuel. destruct (_ =? 0); lia. }
  unfold enc at 1. cbn [fst]. rewrite ParseInternalKey_internal by apply (entry_fits _ _ He).
  by exists rnd, counter', samples.
Qed.

(** ** The state

    Going forward the internal iterator is at the entry that is shown; going back it is
    before it, and the entries in between are not visible. *)
Definition at_d (d : DBIter I) (p : option nat) : Prop :=
  ready (iter_ d) ∧ (∃ dir, basics dir d) ∧
  match p with
  | None => valid_ d = false
  | Some p => valid_ d = true ∧ ∃ c e, es !! c = Some e ∧ head c e ∧ rank c = p ∧
      match direction_ d with
      | kForward => at_ (iter_ d) (Some c)
      | kReverse => saved_key_ d = user e ∧ saved_value_ d = e.2 ∧
          ∃ i, at_ (iter_ d) (pos_before i) ∧ (i <= c)%nat ∧ quiet i c
      end
  end.

Definition ready_d (d : DBIter I) : Prop := ready (iter_ d) ∧ ∃ dir, basics dir d.

(** ** Going forward

    Entries from [i] on are hidden by [skip] exactly if their user key has been seen. *)
Definition hides (skipping : bool) (skip : bytes) (e : ParsedInternalKey * bytes) : Prop :=
  skipping = true ∧ compare_ (user e) skip <= 0.

Definition inv (i : nat) (skipping : bool) (skip : bytes) : Prop :=
  (skipping = true → dom skip) ∧ ∀ k e, (i <= k)%nat → es !! k = Some e → visible s e = true → is_value e = true →
    (¬ hides skipping skip e → ∀ j x, (j < i)%nat → es !! j = Some x → visible s x = true → same_key (ord := ord) x e = false) ∧
    (hides skipping skip e → ¬ head k e).

Definition run_next (n : nat) (skipping : bool) (d : DBIter I) (p : option nat) : Prop :=
  ∃ d', find_next_loop n skipping d = Ok d' ∧ at_d d' p.

Lemma next_continue n i sk sk' d d1 r :
  next_turn sk d = Ok (inr (sk', d1)) → at_ (iter_ d1) (Some i) → basics kForward d1 →
  (∀ it, (S i < length es)%nat → at_ it (Some (S i)) → run_next n sk' (DbIter.set_iter d1 it) (pos_at view r)) →
  ((length es <= S i)%nat → (length view <= r)%nat) →
  run_next (S n) sk d (pos_at view r).
Proof.
  intros E Ha Hb Hgo Hend. unfold run_next. cbn [find_next_loop]. rewrite E. unfold mbind, res_bind.
  destruct (i_next _ _ Ha) as (it & -> & Ha'). destruct (decide (S i < length es)%nat) as [L|L].
  - rewrite pos_at_lt in Ha' by by rewrite length_fmap. rewrite (i_valid _ _ Ha'), bool_decide_eq_true_2 by done.
    by apply Hgo.
  - rewrite pos_at_ge in Ha' by (rewrite length_fmap; lia). rewrite (i_valid _ _ Ha'), bool_decide_eq_false_2 by (by intros []).
    eexists. split; [reflexivity|]. rewrite pos_at_ge by (apply Hend; lia). split; [by eapply i_ready|].
    split; [|done]. exists kForward. by destruct Hb.
Qed.

(** One turn at a visible value whose key is skipped. *)
Lemma turn_hidden d i e skip :
  basics kForward d → at_ (iter_ d) (Some i) → es !! i = Some e → dom skip → saved_key_ d = skip →
  visible s e = true → is_value e = true → compare_ (user e) skip <= 0 →
  ∃ rnd counter samples, next_turn true d = Ok (inr (true, DbIter.set_sampling d rnd counter samples)) ∧
    basics kForward (DbIter.set_sampling d rnd counter samples).
Proof.
  intros Hb Ha He Hd Es Hv Ht Hc. destruct (ParseKey_ok _ d i e Hb Ha He) as (rnd & counter & samples & E & Hb').
  exists rnd, counter, samples. split; [|done]. unfold next_turn. rewrite E. unfold mbind, res_bind.
  cbn [sequence_ DbIter.set_sampling]. rewrite (basics_seq _ _ Hb). unfold visible in Hv. rewrite Hv.
  unfold is_value in Ht. destruct (type e.1); [done|]. cbn [saved_key_ DbIter.set_sampling]. rewrite Es.
  rewrite lawful_compare by (done || apply (entry_fits _ _ He)). by rewrite (proj2 (Z.leb_le _ _)).
Qed.

Lemma turn_invisible d i e sk :
  basics kForward d → at_ (iter_ d) (Some i) → es !! i = Some e → visible s e = false →
  ∃ rnd counter samples, next_turn sk d = Ok (inr (sk, DbIter.set_sampling d rnd counter samples)) ∧
    basics kForward (DbIter.set_sampling d rnd counter samples).
Proof.
  intros Hb Ha He Hv. destruct (ParseKey_ok _ d i e Hb Ha He) as (rnd & counter & samples & E & Hb').
  exists rnd, counter, samples. split; [|done]. unfold next_turn. rewrite E. unfold mbind, res_bind.
  cbn [sequence_ DbIter.set_sampling]. rewrite (basics_seq _ _ Hb). unfold visible in Hv. by rewrite Hv.
Qed.

(** What the loop does with the invariant. *)
Lemma inv_invisible i e sk skip : es !! i = Some e → visible s e = false → inv i sk skip → inv (S i) sk skip.
Proof.
  intros He Hv [Hd Hi]. split; [done|]. intros k x Hk Hx Hvx Htx. destruct (Hi k x ltac:(lia) Hx Hvx Htx) as [H1 H2].
  split; [|done]. intros Hh j y Hj Hy Hvy. destruct (decide (j = i)) as [->|N].
  - rewrite He in Hy. injection Hy as <-. by rewrite Hv in Hvy.
  - apply (H1 Hh j y); [lia|done|done].
Qed.

Lemma inv_seen i e skip :
  es !! i = Some e → visible s e = true → (∀ k x, (i < k)%nat → es !! k = Some x → compare_ (user x) skip <= 0 → compare_ (user e) (user x) = 0) →
  dom skip → (∀ x : ParsedInternalKey * bytes, compare_ (user e) (user x) = 0 → compare_ (user x) skip <= 0) →
  (∀ j x k y, (j < i)%nat → es !! j = Some x → visible s x = true → (i < k)%nat → es !! k = Some y →
     same_key (ord := ord) x y = true → compare_ (user y) skip <= 0) →
  inv (S i) true skip.
Proof.
  intros He Hv Hle Hd Hge Hj. split; [done|]. intros k x Hk Hx Hvx Htx. split.
  - intros Hh j y Hji Hy Hvy. apply not_true_iff_false. intros E. apply Hh. split; [done|].
    destruct (decide (j = i)) as [->|N].
    + rewrite He in Hy. injection Hy as <-. apply Hge. by apply same_key_iff.
    + by apply (Hj j y k x); [lia|done|done|lia|done|done].
  - intros [_ Hh]. rewrite shows_iff. intros (_ & _ & Hn).
    specialize (Hn i e ltac:(lia) He Hv). apply not_true_iff_false in Hn. apply Hn, same_key_iff.
    by apply (Hle k x); [lia|done|done].
Qed.

(** After a visible entry all of its key is skipped by its own key. *)
Lemma inv_skip i e : es !! i = Some e → visible s e = true → inv (S i) true (user e).
Proof.
  intros He Hv. apply (inv_seen i e); [done|done| |by apply (entry_fits _ _ He)| |].
  - intros k x Hk Hx Hc. pose proof (users_ascending i k e x He Hx Hk) as L.
    pose proof (cmp_swap (user e) (user x)). lia.
  - intros x E. apply cmp_zero_swap in E. lia.
  - intros j x k y Hj Hx _ Hk Hy E%same_key_iff.
    pose proof (users_ascending j i x e Hx He Hj) as L1. pose proof (users_ascending i k e y He Hy Hk) as L2.
    destruct (Z.eq_dec (compare_ (user e) (user y)) 0) as [E'|N]; [apply cmp_zero_swap in E'; lia|].
    exfalso. assert (compare_ (user e) (user y) < 0) as L by lia.
    destruct (Z.eq_dec (compare_ (user x) (user e)) 0) as [E2|N2].
    + pose proof (cmp_eq _ _ _ E2 L). lia.
    + assert (compare_ (user x) (user e) < 0) as L3 by lia. pose proof (cmp_trans _ _ _ L3 L). lia.
Qed.

Lemma rank_le_view i : (rank i <= length view)%nat.
Proof. rewrite <- (rank_end s es (i + length es)) by lia. apply rank_mono. lia. Qed.

Lemma rank_after i : (length es <= S i)%nat → (length view <= rank (S i))%nat.
Proof. intros. by rewrite rank_end by done. Qed.

Lemma head_rank i e : es !! i = Some e → head i e → rank (S i) = S (rank i) ∧ (rank i < length view)%nat.
Proof.
  intros He Hh. pose proof (view_lookup s es i e He Hh) as Hv. apply lookup_lt_Some in Hv.
  rewrite (rank_S s es i e He), Hh. lia.
Qed.

Lemma inv_hidden i e skip :
  es !! i = Some e → compare_ (user e) skip <= 0 → inv i true skip → inv (S i) true skip.
Proof.
  intros He Hc [Hd Hi]. split; [done|]. intros k x Hk Hx Hvx Htx. destruct (Hi k x ltac:(lia) Hx Hvx Htx) as [H1 H2].
  split; [|done]. intros Hh j y Hj Hy Hvy. destruct (decide (j = i)) as [->|N]; [|by apply (H1 Hh j y); [lia|..]].
  rewrite He in Hy. injection Hy as <-. apply not_true_iff_false. intros E%same_key_iff%cmp_zero_swap. apply Hh.
  split; [done|]. destruct (Z.eq_dec (compare_ (user e) skip) 0) as [E2|N2].
  - by rewrite (cmp_zero_trans _ _ _ E E2).
  - assert (compare_ (user e) skip < 0) as L by lia. pose proof (cmp_eq _ _ _ E L). lia.
Qed.

(** The turns at visible entries that are not skipped. *)
Lemma turn_shown sk d i e :
  basics kForward d → at_ (iter_ d) (Some i) → es !! i = Some e → (sk = true → dom (saved_key_ d)) →
  visible s e = true → is_value e = true → ¬ hides sk (saved_key_ d) e →
  ∃ d', next_turn sk d = Ok (inl d') ∧ iter_ d' = iter_ d ∧ basics kForward d' ∧ valid_ d' = true.
Proof.
  intros Hb Ha He Hd Hv Ht Hh. destruct (ParseKey_ok _ d i e Hb Ha He) as (rnd & co & sm & E & [H1 H2 H3 H4]).
  unfold next_turn. rewrite E. unfold mbind, res_bind. rewrite H1. unfold visible in Hv. rewrite Hv.
  unfold is_value in Ht. destruct (type e.1); [done|]. cbn [saved_key_ DbIter.set_sampling].
  assert ((if sk : bool then match Compare (user e) (saved_key_ d) with
      | Ok c => Ok (c <=? 0) | UB => UB | NoFuel => NoFuel end else Ok false) = Ok false) as ->.
  { destruct sk; [|done]. rewrite lawful_compare by (by apply Hd || apply (entry_fits _ _ He)).
    rewrite (proj2 (Z.leb_gt _ _)); [done|]. destruct (Z.lt_ge_cases 0 (compare_ (user e) (saved_key_ d))); [done|].
    by exfalso; apply Hh. }
  by eexists.
Qed.

Lemma turn_deleted sk d i e :
  basics kForward d → at_ (iter_ d) (Some i) → es !! i = Some e → visible s e = true → is_value e = false →
  ∃ d', next_turn sk d = Ok (inr (true, d')) ∧ iter_ d' = iter_ d ∧ basics kForward d' ∧ saved_key_ d' = user e.
Proof.
  intros Hb Ha He Hv Ht. destruct (ParseKey_ok _ d i e Hb Ha He) as (rnd & co & sm & E & [H1 H2 H3 H4]).
  unfold next_turn. rewrite E. unfold mbind, res_bind. rewrite H1. unfold visible in Hv. rewrite Hv.
  unfold is_value in Ht. destruct (type e.1); [|done]. by eexists.
Qed.

Lemma find_next_loop_ok n : ∀ i sk d,
  at_ (iter_ d) (Some i) → (i < length es)%nat → (length es - i < n)%nat → basics kForward d →
  inv i sk (saved_key_ d) → run_next n sk d (pos_at view (rank i)).
Proof.
  induction n as [|n IH]; intros i sk d Ha Hi Hn Hb Hinv; [lia|].
  destruct (lookup_lt_is_Some_2 es i Hi) as [e He]. pose proof (rank_S s es i e He) as Er.
  destruct (visible s e) eqn:Hv.
  2:{ destruct (turn_invisible d i e sk Hb Ha He Hv) as (rnd & co & sm & E & Hb').
      rewrite not_visible_not_shown, Nat.add_0_r in Er by done. rewrite <- Er.
      eapply next_continue; [exact E|exact Ha|exact Hb'| |apply rank_after].
      intros it L Hit. apply IH; [done|done|lia|by destruct Hb'|]. by apply (inv_invisible i e). }
  destruct (is_value e) eqn:Ht.
  2:{ destruct (turn_deleted sk d i e Hb Ha He Hv Ht) as (d' & E & Ei & Hb' & Es).
      rewrite not_value_not_shown, Nat.add_0_r in Er by done. rewrite <- Er.
      eapply next_continue; [exact E|by rewrite Ei|exact Hb'| |apply rank_after].
      intros it L Hit. apply IH; [done|done|lia|by destruct Hb'|]. cbn. rewrite Es. by apply inv_skip. }
  destruct (decide (sk = true ∧ compare_ (user e) (saved_key_ d) <= 0)) as [[-> Hc]|Hc].
  - pose proof Hinv as [Hd Hinv'].
    destruct (turn_hidden d i e _ Hb Ha He (Hd eq_refl) eq_refl Hv Ht Hc) as (rnd & co & sm & E & Hb').
    destruct (Hinv' i e (le_n i) He Hv Ht) as [_ H2]. specialize (H2 (conj eq_refl Hc)).
    apply not_true_iff_false in H2. rewrite H2, Nat.add_0_r in Er. rewrite <- Er.
    eapply next_continue; [exact E|exact Ha|exact Hb'| |apply rank_after].
    intros it L Hit. apply IH; [done|done|lia|by destruct Hb'|]. by apply (inv_hidden i e).
  - destruct Hinv as [Hd Hinv']. destruct (Hinv' i e (le_n i) He Hv Ht) as [H1 _]. specialize (H1 Hc).
    destruct (turn_shown sk d i e Hb Ha He Hd Hv Ht Hc) as (d' & E & Ei & Hb' & Hvd).
    assert (head i e) as Hh by by apply shows_iff.
    destruct (head_rank i e He Hh) as [_ L]. rewrite pos_at_lt by done.
    exists d'. cbn [find_next_loop]. rewrite E. split; [done|]. split; [rewrite Ei; by eapply i_ready|].
    split; [by exists kForward|]. split; [done|]. exists i, e. split; [done|]. split; [done|]. split; [done|].
    by rewrite (basics_dir _ _ Hb'), Ei.
Qed.

(** From before a shown entry to what comes after it. *)
Lemma skip_current c e : es !! c = Some e → head c e → ∀ n i d,
  at_ (iter_ d) (Some i) → (i <= c)%nat → quiet i c → (length es - i < n)%nat → basics kForward d →
  saved_key_ d = user e → run_next n true d (pos_at view (S (rank c))).
Proof.
  intros He Hh. destruct (head_rank c e He Hh) as [<- _]. pose proof (lookup_lt_Some _ _ _ He) as Hc.
  pose proof Hh as (Hv & Ht & _)%shows_iff. pose proof (entry_fits c e He) as [_ Hd].
  induction n as [|n IH]; intros i d Ha Hi Hq Hn Hb Hsk; [lia|].
  destruct (decide (i = c)) as [->|N].
  - destruct (turn_hidden d c e _ Hb Ha He Hd Hsk Hv Ht ltac:(by rewrite cmp_refl)) as (rnd & co & sm & E & Hb').
    eapply next_continue; [exact E|exact Ha|exact Hb'| |apply rank_after].
    intros it L Hit. apply find_next_loop_ok; [done|done|lia|by destruct Hb'|]. cbn. rewrite Hsk. by apply inv_skip.
  - destruct (lookup_lt_is_Some_2 es i) as [x Hx]; [lia|].
    destruct (turn_invisible d i x true Hb Ha Hx (Hq i x ltac:(lia) Hx)) as (rnd & co & sm & E & Hb').
    eapply next_continue; [exact E|exact Ha|exact Hb'| |lia].
    intros it L Hit. apply (IH (S i)); [done|lia| |lia|by destruct Hb'|done]. intros j y Hj. apply Hq. lia.
Qed.

Lemma FindNextUserEntry_ok sk d i p :
  at_ (iter_ d) (Some i) → basics kForward d →
  run_next fuel sk d p → ∃ d', FindNextUserEntry fuel sk d = Ok d' ∧ at_d d' p.
Proof.
  intros Ha Hb Hr. unfold FindNextUserEntry. rewrite (i_valid _ _ Ha), bool_decide_eq_true_2, (basics_dir _ _ Hb) by done.
  exact Hr.
Qed.
(** ** Going back

    [r] entries of the view are before the place where the search began; the candidate is
    the entry [c], and nothing visible lies between it and the internal iterator. *)
Definition candidate (i : nat) (d : DBIter I) (r : nat) (c : nat) (e : ParsedInternalKey * bytes) : Prop :=
  (i <= c)%nat ∧ es !! c = Some e ∧ visible s e = true ∧ is_value e = true ∧ quiet i c ∧ rank (S c) = r ∧
  saved_key_ d = user e ∧ saved_value_ d = e.2.

Definition pinv (i : nat) (vt : ValueType) (d : DBIter I) (r : nat) : Prop :=
  match vt with
  | kTypeDeletion => rank i = r
  | kTypeValue => ∃ c e, candidate i d r c e
  end.

(** What the search ends with. *)
Definition found (vt : ValueType) (d : DBIter I) (r : nat) : Prop :=
  basics kReverse d ∧ ready (iter_ d) ∧
  match vt with
  | kTypeDeletion => r = 0%nat
  | kTypeValue => ∃ i c e, candidate i d r c e ∧ head c e ∧ at_ (iter_ d) (pos_before i)
  end.

Lemma pinv_rank i vt d r : (i <= length es)%nat → pinv i vt d r →
  (∀ c e, vt = kTypeValue → candidate i d r c e → ¬ head c e) → rank i = r.
Proof.
  intros Hi. destruct vt; [done|]. intros (c & e & Hc) Hn. pose proof Hc as (Hic & He & Hv & Ht & Hq & Hr & _).
  specialize (Hn c e eq_refl Hc). apply not_true_iff_false in Hn.
  pose proof (rank_S s es c e He) as Er. rewrite Hn, Nat.add_0_r, Hr in Er. rewrite Er.
  apply quiet_rank; [done|done|]. apply lookup_lt_Some in He. lia.
Qed.

Lemma prev_turn_ok i x vt d r :
  at_ (iter_ d) (Some i) → es !! i = Some x → basics kReverse d → pinv (S i) vt d r →
  ∃ b vt' d', prev_turn vt d = Ok (b, vt', d') ∧ iter_ d' = iter_ d ∧ basics kReverse d' ∧
    if b : bool then found vt' d' r else pinv i vt' d' r.
Proof.
  intros Ha Hx Hb Hp. pose proof (lookup_lt_Some _ _ _ Hx) as Hi.
  destruct (ParseKey_ok _ d i x Hb Ha Hx) as (rnd & co & sm & E & Hb').
  destruct (at_entry d i x Ha Hx) as (_ & Ek & Ev & Eu).
  unfold prev_turn. rewrite E. unfold mbind, res_bind. cbn [sequence_ DbIter.set_sampling iter_].
  rewrite (basics_seq _ _ Hb). fold (visible s x). pose proof (rank_S s es i x Hx) as Er.
  destruct (visible s x) eqn:Hv.
  2:{ exists false, vt, (DbIter.set_sampling d rnd co sm). split; [done|]. split; [done|]. split; [done|].
      rewrite not_visible_not_shown, Nat.add_0_r in Er by done. unfold pinv in *. destruct vt; [by rewrite <- Er|].
      destruct Hp as (c & e & Hic & He & Hve & Hte & Hq & Hr). exists c, e. split; [lia|].
      split; [done|]. split; [done|]. split; [done|]. split; [|done].
      intros j y Hj Hy. destruct (decide (j = i)) as [->|N]; [rewrite Hx in Hy; by injection Hy as <-|].
      apply (Hq j y); [lia|done]. }
  (* the new candidate or none *)
  assert (rank (S i) = r → ∃ vt' d', (match type x.1 with
      | kTypeDeletion => Ok (false, kTypeDeletion,
          ClearSavedValue (SaveKey (DbIter.set_sampling d rnd co sm) []))
      | kTypeValue => match value (iter_ d) with
          | Ok raw => match key (iter_ d) with
             | Ok k => match ExtractUserKey k with
                | Ok u => Ok (false, kTypeValue, save_value (SaveKey (DbIter.set_sampling d rnd co sm) u) raw)
                | UB => UB | NoFuel => NoFuel end
             | UB => UB | NoFuel => NoFuel end
          | UB => UB | NoFuel => NoFuel end
      end) = Ok (false, vt', d') ∧ iter_ d' = iter_ d ∧ basics kReverse d' ∧ pinv i vt' d' r) as Hnew.
  { intros Hr. destruct (type x.1) eqn:Et.
    - eexists _, _. split; [reflexivity|]. split; [done|]. split; [by destruct Hb'|]. cbn.
      rewrite not_value_not_shown, Nat.add_0_r in Er by (unfold is_value; by rewrite Et). by rewrite <- Er.
    - rewrite Ev, Ek, Eu. eexists _, _. split; [reflexivity|]. split; [done|]. split; [by destruct Hb'|].
      exists i, x. split; [done|]. split; [done|]. split; [done|]. split; [unfold is_value; by rewrite Et|].
      split; [intros j y Hj; lia|]. done. }
  destruct vt.
  - destruct (Hnew Hp) as (vt' & d' & E' & Hd). exists false, vt', d'. by split.
  - pose proof Hp as (c & e & Hc). pose proof Hc as (Hic & He & Hve & Hte & Hq & Hr & Hsk & Hsv).
    cbn [saved_key_ DbIter.set_sampling]. rewrite Hsk, lawful_compare by eauto using entry_dom.
    destruct (Z.ltb_spec (compare_ (user x) (user e)) 0) as [L|L].
    + exists true, kTypeValue, (DbIter.set_sampling d rnd co sm). split; [done|]. split; [done|]. split; [done|].
      split; [done|]. split; [by eapply i_ready|]. exists (S i), c, e. split; [done|]. split; [|done].
      apply shows_iff. split; [done|]. split; [done|]. intros j y Hj Hy Hvy.
      destruct (decide (S i <= j)%nat) as [G|G]; [by rewrite (Hq j y (conj G Hj) Hy) in Hvy|].
      apply not_true_iff_false. intros E2%same_key_iff.
      destruct (decide (j = i)) as [->|N]; [rewrite Hx in Hy; injection Hy as <-; lia|].
      pose proof (users_ascending j i y x Hy Hx ltac:(lia)) as L2.
      destruct (Z.eq_dec (compare_ (user y) (user x)) 0) as [E3|N3].
      * pose proof (cmp_eq _ _ _ E3 L). lia.
      * assert (compare_ (user y) (user x) < 0) as L3 by lia. pose proof (cmp_trans _ _ _ L3 L). lia.
    + destruct Hnew as (vt' & d' & E' & Hd); [|exists false, vt', d'; by split].
      apply (pinv_rank (S i) kTypeValue d r); [lia|done|]. intros c' e' _ (Hic' & He' & Hv' & Ht' & Hq' & Hr' & Hsk' & _).
      rewrite shows_iff. intros (_ & _ & Hn). specialize (Hn i x ltac:(lia) Hx Hv).
      apply not_true_iff_false in Hn. apply Hn, same_key_iff. rewrite <- Hsk', Hsk.
      pose proof (users_ascending i c x e Hx He ltac:(lia)). lia.
Qed.

Lemma find_prev_loop_ok n : ∀ i vt d r,
  at_ (iter_ d) (Some i) → (i < length es)%nat → (i < n)%nat → basics kReverse d → pinv (S i) vt d r →
  ∃ vt' d', find_prev_loop n vt d = Ok (vt', d') ∧ found vt' d' r.
Proof.
  induction n as [|n IH]; intros i vt d r Ha Hi Hn Hb Hp; [lia|].
  destruct (lookup_lt_is_Some_2 es i Hi) as [x Hx]. cbn [find_prev_loop].
  destruct (prev_turn_ok i x vt d r Ha Hx Hb Hp) as (b & vt' & d' & -> & Ei & Hb' & Hd). unfold mbind, res_bind.
  destruct b; [by exists vt', d'|]. rewrite Ei. destruct (i_prev _ _ Ha) as (it & -> & Ha').
  rewrite (i_valid _ _ Ha'). destruct i as [|i].
  - rewrite bool_decide_eq_false_2 by (by intros []). exists vt', (DbIter.set_iter d' it). split; [done|].
    split; [by destruct Hb'|]. split; [by eapply i_ready|]. destruct vt'; [cbn in Hd; by rewrite <- Hd|].
    destruct Hd as (c & e & Hc). pose proof Hc as (_ & He & Hv & Ht & Hq & _). exists 0%nat, c, e. split; [done|]. split; [|done].
    apply shows_iff. split; [done|]. split; [done|]. intros j y Hj Hy Hvy. rewrite (Hq j y ltac:(lia) Hy) in Hvy. done.
  - rewrite bool_decide_eq_true_2 by done. apply (IH i); [done|lia|lia|by destruct Hb'|by destruct vt'].
Qed.

Lemma FindPrevUserEntry_ok d i :
  at_ (iter_ d) (pos_before i) → (i <= length es)%nat → basics kReverse d →
  ∃ d', FindPrevUserEntry fuel d = Ok d' ∧ at_d d' (pos_before (rank i)).
Proof.
  intros Ha Hi Hb. unfold FindPrevUserEntry. rewrite (basics_dir _ _ Hb), (i_valid _ _ Ha). cbn [SkipList.assert_].
  unfold mbind, res_bind.
  assert (∃ vt d', (if bool_decide (is_Some (pos_before i)) then find_prev_loop fuel kTypeDeletion d
    else Ok (kTypeDeletion, d)) = Ok (vt, d') ∧ found vt d' (rank i)) as (vt & d' & -> & Hf).
  { destruct i as [|i].
    - eexists _, _. split; [reflexivity|]. split; [done|]. split; [by eapply i_ready|done].
    - rewrite bool_decide_eq_true_2 by done. apply (find_prev_loop_ok fuel i); [done|lia|lia|done|done]. }
  destruct Hf as (Hb' & Hr & Hf). destruct vt; eexists; (split; [reflexivity|]).
  - rewrite Hf. split; [done|]. split; [|done]. exists kForward. by destruct Hb'.
  - destruct Hf as (j & c & e & (Hjc & He & Hv & Ht & Hq & <- & Hsk & Hsv) & Hh & Hj).
    destruct (head_rank c e He Hh) as [-> _]. split; [done|]. split; [exists kReverse; by destruct Hb'|]. split; [done|].
    exists c, e. split; [done|]. split; [done|]. split; [done|]. cbn [direction_ DbIter.set_valid].
    rewrite (basics_dir _ _ Hb'). split; [done|]. split; [done|]. by exists j.
Qed.

(** Turning round: back over the entries of the current key. *)
Lemma switch_loop_ok c e : es !! c = Some e → head c e → ∀ n i d,
  at_ (iter_ d) (Some i) → (i <= c)%nat → (i < n)%nat → basics kForward d → saved_key_ d = user e → rank i = rank c →
  ∃ b d', switch_loop n d = Ok (b, d') ∧ basics kForward d' ∧
    if b : bool then ∃ j, at_ (iter_ d') (pos_before j) ∧ (j <= length es)%nat ∧ rank j = rank c
    else ready (iter_ d') ∧ rank c = 0%nat.
Proof.
  intros He Hh. pose proof (lookup_lt_Some _ _ _ He) as Hc. pose proof (proj1 (shows_iff s es c e) Hh) as (_ & _ & Hn).
  induction n as [|n IH]; intros i d Ha Hi Hin Hb Hsk Hr; [lia|]. cbn [switch_loop].
  destruct (i_prev _ _ Ha) as (it & -> & Ha'). unfold mbind, res_bind. rewrite (i_valid _ _ Ha'). destruct i as [|i].
  - rewrite bool_decide_eq_false_2 by (by intros []). eexists _, _. split; [reflexivity|]. split; [by destruct Hb|].
    split; [by eapply i_ready|]. by rewrite <- Hr.
  - rewrite bool_decide_eq_true_2 by done. destruct (lookup_lt_is_Some_2 es i) as [x Hx]; [lia|].
    destruct (at_entry (DbIter.set_iter d it) i x Ha' Hx) as (_ & Ek & _ & Eu). cbn [iter_ DbIter.set_iter] in Ek.
    rewrite Ek, Eu. cbn [saved_key_ DbIter.set_iter].
    rewrite Hsk, lawful_compare by eauto using entry_dom.
    destruct (Z.ltb_spec (compare_ (user x) (user e)) 0) as [L|L].
    + eexists _, _. split; [reflexivity|]. split; [by destruct Hb|]. exists (S i). split; [done|]. split; [lia|done].
    + apply (IH i); [done|lia|lia|by destruct Hb|done|]. rewrite <- Hr, (rank_S s es i x Hx).
      assert (shows s (take i es) x = false) as ->; [|lia]. apply not_true_iff_false. intros (Hvx & _)%shows_iff.
      specialize (Hn i x ltac:(lia) Hx Hvx). apply not_true_iff_false in Hn. apply Hn, same_key_iff.
      pose proof (users_ascending i c x e Hx He ltac:(lia)). lia.
Qed.
(** ** The operations *)

Definition user_target (t : bytes) : Prop := dom t ∧ target (internal t (pack s kValueTypeForSeek)).

Lemma ready_at d p : at_d d p → ready_d d.
Proof. by intros (Hr & Hb & _). Qed.

Lemma first_or_none sk d i r :
  at_ (iter_ d) (pos_at (enc <$> es) i) → basics kForward d → rank i = r → inv i sk (saved_key_ d) →
  ∃ d', (if Valid (iter_ d) then FindNextUserEntry fuel sk d else Ok (DbIter.set_valid d false)) = Ok d' ∧
    at_d d' (pos_at view r).
Proof.
  intros Ha Hb <- Hinv. rewrite (i_valid _ _ Ha). destruct (decide (i < length es)%nat) as [L|L].
  - rewrite pos_at_lt in Ha |- * by by rewrite length_fmap. rewrite bool_decide_eq_true_2 by done.
    apply (FindNextUserEntry_ok sk d i); [done|done|]. apply find_next_loop_ok; [done|done|lia|done|done].
  - rewrite pos_at_ge in Ha |- * by (rewrite length_fmap; lia). rewrite bool_decide_eq_false_2 by (by intros []).
    eexists. split; [reflexivity|]. rewrite pos_at_ge by (rewrite rank_end by lia; done).
    split; [by eapply i_ready|]. split; [exists kForward; by destruct Hb|done].
Qed.

Lemma db_first d : ready_d d → ∃ d', db_SeekToFirst fuel d = Ok d' ∧ at_d d' (pos_at view 0).
Proof.
  intros Hd. destruct (i_first _ (proj1 Hd)) as (it & E & Ha). unfold db_SeekToFirst, ClearSavedValue.
  cbn [iter_ save_value DbIter.set_direction]. rewrite E. unfold mbind, res_bind.
  apply (first_or_none false (DbIter.set_iter (save_value (DbIter.set_direction d kForward) []) it) 0); [exact Ha|by destruct Hd as (_ & ? & [])|done|].
  split; [done|]. intros k e _ _ _ _. split; [lia|]. by intros [].
Qed.

Lemma db_last d : ready_d d → ∃ d', db_SeekToLast fuel d = Ok d' ∧ at_d d' (pos_before (length view)).
Proof.
  intros Hd. destruct (i_last _ (proj1 Hd)) as (it & E & Ha). unfold db_SeekToLast, ClearSavedValue.
  cbn [iter_ save_value DbIter.set_direction]. rewrite E. unfold mbind, res_bind.
  rewrite <- (rank_end s es (length es)) by done. rewrite length_fmap in Ha.
  apply FindPrevUserEntry_ok; [exact Ha|done|]. by destruct Hd as (_ & ? & []).
Qed.

(** The place where a seek ends in the internal entries and in the view. *)
Lemma before_target e t : fits e →
  @compare_ _ (internal_order ord) (enc e).1 (internal t (pack s kValueTypeForSeek)) < 0 ↔
  compare_ (user e) t < 0 ∨ compare_ (user e) t = 0 ∧ visible s e = false.
Proof.
  intros Hf. pose proof Hf as [Hq _]. unfold compare_ at 1, internal_order, via.
  rewrite (enc_split e Hf), (split_internal_internal t _ (pack_range _ _ Hs)). unfold then_down. cbn [fst snd].
  unfold visible, pack. rewrite Z.leb_gt. change (type_code kValueTypeForSeek) with 1.
  assert (0 <= type_code (type e.1) <= 1) by by destruct (type e.1).
  destruct (Z.eqb_spec (compare_ (user e) t) 0); [|lia].
  destruct (Z.ltb_spec (s * 256 + 1) (sequence e.1 * 256 + type_code (type e.1))); [lia|].
  destruct (_ <? _); lia.
Qed.

Lemma db_seek_split t i : i = seek_index (ord := internal_order ord) (enc <$> es) (internal t (pack s kValueTypeForSeek)) →
  (i <= length es)%nat ∧
  (∀ j x, (j < i)%nat → es !! j = Some x → visible s x = true → compare_ (user x) t < 0) ∧
  (∀ k e, (i <= k)%nat → es !! k = Some e → 0 <= compare_ (user e) t).
Proof.
  intros ->. split; [rewrite <- (length_fmap enc es); apply seek_index_le|].
  assert (∀ k x, es !! k = Some x → (enc <$> es) !! k = Some (enc x)) as Hm
    by (intros k x Hk; by rewrite list_lookup_fmap, Hk).
  split.
  - intros j x Hj Hx Hv. pose proof (seek_index_before (ord := internal_order ord) _ _ _ _ Hj (Hm _ _ Hx)) as L.
    apply (before_target x t (entry_fits _ _ Hx)) in L as [L|[_ L]]; [done|]. by rewrite Hv in L.
  - intros k e Hk He. destruct (Z.lt_ge_cases (compare_ (user e) t) 0) as [L|]; [|done]. exfalso.
    pose proof (proj2 (before_target e t (entry_fits _ _ He)) (or_introl L)) as L2.
    pose proof (@lawful_order _ _ _ _ (internal_lawful C dom valid ord)) as HO.
    pose proof (seek_index_after (ord := internal_order ord) _ _ _ _ HM Hk (Hm _ _ He)). lia.
Qed.

Lemma seek_rank t i :
  i = seek_index (ord := internal_order ord) (enc <$> es) (internal t (pack s kValueTypeForSeek)) →
  rank i = seek_index view t.
Proof.
  intros Hi. destruct (db_seek_split t i Hi) as (Hl & H1 & H2). symmetry. apply seek_index_unique.
  - apply rank_le_view.
  - intros p x Hp Hx. destruct (view_from_entry s es p x Hx) as (j & e & He & Hh & <- & ->). cbn [fst].
    apply (H1 j); [|done|by apply (shows_iff s es j e)]. destruct (decide (i <= j)%nat) as [L|]; [|lia].
    pose proof (rank_mono s es i j L). lia.
  - intros x Hx. destruct (view_from_entry s es _ x Hx) as (j & e & He & Hh & Hr & ->). cbn [fst].
    apply (H2 j); [|done]. destruct (decide (i <= j)%nat) as [|L]; [done|].
    destruct (head_rank j e He Hh) as [E _]. pose proof (rank_mono s es (S j) i ltac:(lia)). lia.
Qed.

Lemma db_seek d t : ready_d d → user_target t →
  ∃ d', db_Seek fuel t d = Ok d' ∧ at_d d' (pos_at view (seek_index view t)).
Proof.
  intros Hd [Ht Hti]. destruct (i_seek _ _ (proj1 Hd) Hti) as (it & E & Ha).
  unfold db_Seek, ClearSavedValue. cbn [saved_key_ SaveKey sequence_ save_value DbIter.set_direction iter_].
  assert (sequence_ d = s) as -> by by destruct Hd as (_ & ? & []).
  rewrite AppendInternalKey_ok by done. cbn [user_key sequence type app]. unfold mbind, res_bind. rewrite E.
  destruct (db_seek_split t _ eq_refl) as (_ & H1 & H2).
  apply (first_or_none false (DbIter.set_iter (SaveKey (SaveKey (save_value (DbIter.set_direction d kForward) []) []) _) it) _ _ Ha); [by destruct Hd as (_ & ? & [])|by apply seek_rank|].
  split; [done|]. intros k e Hk He _ _. split; [|by intros []]. intros _ j x Hj Hx Hv.
  apply not_true_iff_false. intros E2%same_key_iff. specialize (H1 j x Hj Hx Hv). specialize (H2 k e Hk He).
  apply cmp_zero_swap in E2. pose proof (cmp_eq _ _ _ E2 H1). lia.
Qed.

Lemma db_next d p : at_d d (Some p) → ∃ d', db_Next fuel d = Ok d' ∧ at_d d' (pos_at view (S p)).
Proof.
  intros (Hr & (dir & Hb) & Hv & c & e & He & Hh & <- & Hd). unfold db_Next. rewrite Hv. cbn [SkipList.assert_].
  unfold mbind, res_bind. pose proof (lookup_lt_Some _ _ _ He) as Hc. destruct (direction_ d) eqn:Edir.
  - destruct (at_entry d c e Hd He) as (_ & -> & _ & ->).
    apply (FindNextUserEntry_ok true _ c); [done|by destruct Hb|].
    apply (skip_current c e He Hh fuel c); [done|done|intros j x Hj; lia|lia|by destruct Hb|done].
  - destruct Hd as (Hsk & _ & i & Hi & Hic & Hq). cbn [iter_ DbIter.set_direction].
    assert (∃ it, (if Valid (iter_ d) then Next (iter_ d) else SeekToFirst (iter_ d)) = Ok it ∧ at_ it (Some i)) as (it & -> & Ha).
    { rewrite (i_valid _ _ Hi). destruct i as [|i].
      - rewrite bool_decide_eq_false_2 by (by intros []). destruct (i_first _ Hr) as (it & E & Ha). exists it.
        split; [done|]. by rewrite pos_at_lt in Ha by (rewrite length_fmap; lia).
      - rewrite bool_decide_eq_true_2 by done. destruct (i_next _ _ Hi) as (it & E & Ha). exists it.
        split; [done|]. by rewrite pos_at_lt in Ha by (rewrite length_fmap; lia). }
    rewrite (i_valid _ _ Ha), bool_decide_eq_true_2 by done.
    apply (FindNextUserEntry_ok true _ i); [done|by destruct Hb|].
    apply (skip_current c e He Hh fuel i); [done|done|done|lia|by destruct Hb|done].
Qed.

Lemma db_prev d p : at_d d (Some p) → ∃ d', db_Prev fuel d = Ok d' ∧ at_d d' (pos_before p).
Proof.
  intros (Hr & (dir & Hb) & Hv & c & e & He & Hh & <- & Hd). unfold db_Prev. rewrite Hv. cbn [SkipList.assert_].
  unfold mbind, res_bind. pose proof (lookup_lt_Some _ _ _ He) as Hc. destruct (direction_ d) eqn:Edir.
  - destruct (at_entry d c e Hd He) as (-> & -> & _ & ->). cbn [SkipList.assert_].
    destruct (switch_loop_ok c e He Hh fuel c (SaveKey d (user e))) as (b & d' & -> & Hb' & Hres);
      [done|done|lia|by destruct Hb|done|done|]. destruct b.
    + destruct Hres as (j & Hj & Hl & <-). apply FindPrevUserEntry_ok; [done|done|by destruct Hb'].
    + destruct Hres as [Hr' ->]. eexists. split; [reflexivity|]. split; [done|]. split; [|done].
      exists kForward. by destruct Hb'.
  - destruct Hd as (_ & _ & i & Hi & Hic & Hq). rewrite <- (quiet_rank s es i c Hq Hic) by lia.
    apply FindPrevUserEntry_ok; [done|lia|]. by destruct Hb.
Qed.

#[local] Instance db_iterates :
  Iterates (ord := ord) (DBIter I) (H := db_iterator fuel) view user_target ready_d at_d.
Proof.
  split.
  - apply ready_at.
  - intros d [Hr (dir & Hb)]. cbn. unfold db_status. rewrite (basics_status _ _ Hb). by apply i_status.
  - intros d [p|] (_ & _ & Hv); cbn; [by destruct Hv as [-> _]|done].
  - intros d p (_ & _ & Hv & c & e & He & Hh & <- & Hd). exists (user e, e.2). split; [by apply view_lookup|].
    cbn. unfold db_key, db_value. rewrite Hv. cbn [SkipList.assert_]. unfold mbind, res_bind.
    destruct (direction_ d); [|by destruct Hd as (-> & -> & _)].
    by destruct (at_entry d c e Hd He) as (_ & -> & -> & ->).
  - apply db_first.
  - apply db_last.
  - apply db_seek.
  - apply db_next.
  - apply db_prev.
Qed.
End db_iter.

(** C13: The iterator of the database shows the user's view. When the internal iterator
    keeps the contract of iterators on internal keys in order, the iterator that
    [NewDBIterator] makes for a snapshot shows, after any sequence of seeks, steps and
    changes of direction, what a cursor shows in the list of the newest visible values
    of the user keys; the loops over hidden entries and samples end, within as many turns
    as there are entries. *)
Theorem db_iterator_correct {I} `{Iterator I} (C : SliceComparator) dom valid ord
    s seed es target ready at_ (it : I) fuel cs r :
  Lawful C dom valid ord → 0 <= s < 2 ^ 56 →
  Forall (fits (dom := dom)) es → ascending (ord := internal_order ord) (enc <$> es) →
  Iterates (ord := internal_order ord) I (enc <$> es) target ready at_ → ready it →
  (length es < fuel)%nat → Forall (call_target (user_target (dom := dom) s target)) cs →
  cursor_calls (ord := ord) (user_view (ord := ord) s es) None cs = Some r →
  ∃ d, NewDBIterator it s seed = Ok d ∧ db_status d = Status.OK ∧
    run_calls (H := db_iterator fuel) cs d = Ok r.
Proof.
  intros HC Hs Hes HM HI Hr Hf Ht Hc. pose proof (db_iterates HC s Hs es Hes HM target ready at_ HI fuel Hf) as HD.
  destruct (RandomPeriod_ok (Random.init seed) (Random.init_good seed)) as (E & Hg & _).
  unfold NewDBIterator, new. rewrite E. eexists. split; [reflexivity|].
  assert (ready_d s ready (mkDBIter it s Status.OK [] [] kForward false (Random.Next (Random.init seed))
    (draw (Random.init seed)) [])) as Hrd by (split; [done|by exists kForward]).
  split; [exact (it_status (Iterates := HD) _ Hrd)|].
  eapply (run_calls_ok (H0 := HD)); [by right|done|done].
Qed.

Definition example_versions : list (ParsedInternalKey * bytes) :=
  [(mkParsed [1] 9 kTypeValue, [19]); (mkParsed [1] 3 kTypeValue, [13]); (mkParsed [2] 4 kTypeDeletion, []);
   (mkParsed [2] 2 kTypeValue, [22]); (mkParsed [3] 8 kTypeDeletion, []); (mkParsed [3] 5 kTypeValue, [35]);
   (mkParsed [3] 1 kTypeValue, [31]); (mkParsed [4] 6 kTypeValue, [46]); (mkParsed [5] 2 kTypeValue, [52])].
Definition example_calls : list cursor_call :=
  [CallFirst; CallNext; CallPrev; CallNext; CallNext; CallPrev; CallPrev; CallNext; CallSeek [2]; CallPrev;
   CallLast; CallPrev; CallPrev; CallPrev].
Definition example_shown : list (option (bytes * bytes)) :=
  [Some ([1], [13]); Some ([3], [35]); Some ([1], [13]); Some ([3], [35]); Some ([5], [52]); Some ([3], [35]);
   Some ([1], [13]); Some ([3], [35]); Some ([3], [35]); Some ([1], [13]); Some ([5], [52]); Some ([3], [35]);
   Some ([1], [13]); None].

Lemma db_iterator_correct_witness :
  ∃ d, NewDBIterator (mkListIterator (enc <$> example_versions) None) 5 301 = Ok d ∧
    run_calls (H := db_iterator (H := list_iterator (ord := internal_order bytewise_order))
      (user_comparator_ := Bytewise.BytewiseComparator) 10) example_calls d = Ok example_shown.
Proof.
  destruct (db_iterator_correct (H := list_iterator (ord := internal_order bytewise_order))
    Bytewise.BytewiseComparator (λ _, True) (Forall is_byte) bytewise_order 5 301 example_versions (λ _, True)
    (λ l, list_entries l = enc <$> example_versions)
    (λ l p, list_entries l = enc <$> example_versions ∧ list_pos l = p ∧
      ∀ i, p = Some i → (i < length (enc <$> example_versions))%nat)
    (mkListIterator (enc <$> example_versions) None) 10 example_calls example_shown) as (d & E & _ & Er).
  - exact bytewise_lawful.
  - lia.
  - repeat constructor; cbn; lia.
  - repeat constructor.
  - apply list_iterates.
  - reflexivity.
  - cbn. lia.
  - repeat constructor.
  - vm_compute. reflexivity.
  - exists d. split; [exact E|exact Er].
Defined.
