(* ===== verification/LdbTwoLevel.v ===== *)
(** LevelDB's two-level iterator ([table/two_level_iterator.h],
    [table/two_level_iterator.cc]): an index iterator whose values name blocks, and
    iterators over the blocks. *)
From S2P Require Import Prelude LdbSkip LdbFormat LdbIterator LdbMerger.
Import Status.

Module TwoLevel.
Section two_level.

(** The index iterator, the data iterators, the object that owns the blocks, the function
    that opens a block of it, and a bound on the turns of the loops over empty blocks. *)
Context {X D A : Type} `{Iterator X} `{Iterator D} (block_function : A → bytes → res (D * A)) (fuel : nat).

(** [None]: the iterator of [data_iter_] is NULL. Opening a block may change what [arg_]
    points to. *)
Record TwoLevelIterator := mkTwoLevel {
  arg_ : A; status_ : Status; index_iter_ : IteratorWrapper X; data_iter_ : option (IteratorWrapper D);
  data_block_handle_ : bytes
}.

Definition set_index_iter (t : TwoLevelIterator) (x : IteratorWrapper X) : TwoLevelIterator :=
  mkTwoLevel (arg_ t) (status_ t) x (data_iter_ t) (data_block_handle_ t).
Definition set_data_iter (t : TwoLevelIterator) (w : option (IteratorWrapper D)) : TwoLevelIterator :=
  mkTwoLevel (arg_ t) (status_ t) (index_iter_ t) w (data_block_handle_ t).
(** Opening a block of the handle [h]. *)
Definition set_handle (t : TwoLevelIterator) (a : A) (h : bytes) : TwoLevelIterator :=
  mkTwoLevel a (status_ t) (index_iter_ t) (data_iter_ t) h.

Definition new (index_iter : X) (arg : A) : res TwoLevelIterator :=
  x ← Set_ index_iter; Ok (mkTwoLevel arg OK x None []).

Definition SaveError (t : TwoLevelIterator) (s : Status) : TwoLevelIterator :=
  if ok (status_ t) && negb (ok s)
  then mkTwoLevel (arg_ t) s (index_iter_ t) (data_iter_ t) (data_block_handle_ t) else t.

Definition SetDataIterator (t : TwoLevelIterator) (data_iter : option D) : res TwoLevelIterator :=
  let t := match data_iter_ t with Some w => SaveError t (status w) | None => t end in
  match data_iter with
  | Some d => w ← Set_ d; Ok (set_data_iter t (Some w))
  | None => Ok (set_data_iter t None)
  end.

Definition InitDataBlock (t : TwoLevelIterator) : res TwoLevelIterator :=
  if Valid (index_iter_ t) then
    handle ← value (index_iter_ t);
    same ← match data_iter_ t with
           | Some _ => c ← Slice.compare handle (data_block_handle_ t); Ok (c =? 0)
           | None => Ok false
           end;
    if same : bool then Ok t
    else
      '(iter, arg) ← block_function (arg_ t) handle;
      SetDataIterator (set_handle t arg handle) (Some iter)
  else SetDataIterator t None.

(** [if (data_iter_.iter() != NULL) data_iter_.op()] *)
Definition if_data (op : IteratorWrapper D → res (IteratorWrapper D)) (t : TwoLevelIterator) : res TwoLevelIterator :=
  match data_iter_ t with
  | Some w => w ← op w; Ok (set_data_iter t (Some w))
  | None => Ok t
  end.

Definition data_valid (t : TwoLevelIterator) : bool :=
  match data_iter_ t with Some w => Valid w | None => false end.

Fixpoint SkipEmptyDataBlocksForward (n : nat) (t : TwoLevelIterator) : res TwoLevelIterator :=
  match n with
  | O => NoFuel
  | S n' =>
      if data_valid t then Ok t
      else if Valid (index_iter_ t) then
        x ← Next (index_iter_ t);
        t ← InitDataBlock (set_index_iter t x);
        t ← if_data SeekToFirst t;
        SkipEmptyDataBlocksForward n' t
      else SetDataIterator t None
  end.

Fixpoint SkipEmptyDataBlocksBackward (n : nat) (t : TwoLevelIterator) : res TwoLevelIterator :=
  match n with
  | O => NoFuel
  | S n' =>
      if data_valid t then Ok t
      else if Valid (index_iter_ t) then
        x ← Prev (index_iter_ t);
        t ← InitDataBlock (set_index_iter t x);
        t ← if_data SeekToLast t;
        SkipEmptyDataBlocksBackward n' t
      else SetDataIterator t None
  end.

Definition two_Seek (target : bytes) (t : TwoLevelIterator) : res TwoLevelIterator :=
  x ← Seek target (index_iter_ t);
  t ← InitDataBlock (set_index_iter t x);
  t ← if_data (Seek target) t;
  SkipEmptyDataBlocksForward fuel t.
Definition two_SeekToFirst (t : TwoLevelIterator) : res TwoLevelIterator :=
  x ← SeekToFirst (index_iter_ t);
  t ← InitDataBlock (set_index_iter t x);
  t ← if_data SeekToFirst t;
  SkipEmptyDataBlocksForward fuel t.
Definition two_SeekToLast (t : TwoLevelIterator) : res TwoLevelIterator :=
  x ← SeekToLast (index_iter_ t);
  t ← InitDataBlock (set_index_iter t x);
  t ← if_data SeekToLast t;
  SkipEmptyDataBlocksBackward fuel t.
Definition two_Next (t : TwoLevelIterator) : res TwoLevelIterator :=
  SkipList.assert_ (data_valid t);;
  t ← if_data Next t;
  SkipEmptyDataBlocksForward fuel t.
Definition two_Prev (t : TwoLevelIterator) : res TwoLevelIterator :=
  SkipList.assert_ (data_valid t);;
  t ← if_data Prev t;
  SkipEmptyDataBlocksBackward fuel t.

Definition two_key (t : TwoLevelIterator) : res bytes :=
  SkipList.assert_ (data_valid t);;
  w ← of_option (data_iter_ t); key w.
Definition two_value (t : TwoLevelIterator) : res bytes :=
  SkipList.assert_ (data_valid t);;
  w ← of_option (data_iter_ t); value w.
Definition two_status (t : TwoLevelIterator) : Status :=
  if negb (ok (status (index_iter_ t))) then status (index_iter_ t)
  else match data_iter_ t with
       | Some w => if negb (ok (status w)) then status w else status_ t
       | None => status_ t
       end.

#[local] Instance two_level_iterator : Iterator TwoLevelIterator := {|
  Valid := data_valid;
  SeekToFirst := two_SeekToFirst;
  SeekToLast := two_SeekToLast;
  Seek := two_Seek;
  Next := two_Next;
  Prev := two_Prev;
  key := two_key;
  value := two_value;
  status := two_status
|}.

Definition NewTwoLevelIterator (index_iter : X) (arg : A) : res TwoLevelIterator := new index_iter arg.
End two_level.
Arguments TwoLevelIterator : clear implicits.
End TwoLevel.
