(* ===== verification/LdbTwoLevelProps.v ===== *)
(** The two-level iterator keeps the contract of iterators on the entries of its blocks
    in a row. *)
From Stdlib Require Import Sorting.Sorted.
From S2P Require Import Prelude LdbSkip LdbSkipLemmas LdbFormat LdbCodingProps LdbIterator LdbMerger LdbMergerProps LdbTwoLevel.
Import TwoLevel.

(** * Entries in blocks *)

Section blocks.
Context (bs : list entries).

(** The position of the first entry of block [j]. *)
Definition start (j : nat) : nat := length (concat (take j bs)).

Lemma start_S j b : bs !! j = Some b → start (S j) = (start j + length b)%nat.
Proof. intros Hb. unfold start. rewrite (take_S_r _ _ _ Hb), concat_app, length_app. cbn. by rewrite app_nil_r. Qed.

Lemma start_end j : (length bs <= j)%nat → start j = length (concat bs).
Proof. intros. unfold start. by rewrite take_ge. Qed.

Lemma concat_at j b : bs !! j = Some b → concat bs = concat (take j bs) ++ b ++ concat (drop (S j) bs).
Proof. intros Hb. pose proof (take_drop_middle _ _ _ Hb) as E. apply (f_equal (@concat _)) in E. by rewrite concat_app in E. Qed.

Lemma at_start j b i e : bs !! j = Some b → b !! i = Some e → concat bs !! (start j + i)%nat = Some e.
Proof.
  intros Hb He. rewrite (concat_at j b Hb). unfold start. rewrite lookup_app_r by lia.
  replace (_ + i - _)%nat with i by lia. by apply lookup_app_l_Some.
Qed.

Lemma start_bound j b : bs !! j = Some b → (start j + length b <= length (concat bs))%nat.
Proof. intros Hb. rewrite (concat_at j b Hb), !length_app. unfold start. lia. Qed.

(** Every position lies in a block. *)
Lemma start_inv p e : concat bs !! p = Some e →
  ∃ j b i, bs !! j = Some b ∧ b !! i = Some e ∧ p = (start j + i)%nat.
Proof.
  unfold start. revert p. induction bs as [|b l IH]; intros p Hp; [done|]. cbn in Hp.
  apply lookup_app_Some in Hp as [Hp|[L Hp]]; [by exists 0%nat, b, p|].
  destruct (IH _ Hp) as (j & b' & i & Hb & Hi & Ep). exists (S j), b', i. split; [done|]. split; [done|].
  cbn [take concat]. rewrite length_app. lia.
Qed.

Lemma start_mono j k : (j <= k)%nat → (start j <= start k)%nat.
Proof.
  intros L. induction L as [|k L IH]; [done|]. destruct (bs !! k) as [b|] eqn:Hb.
  - rewrite (start_S k b Hb). lia.
  - apply lookup_ge_None in Hb. rewrite (start_end (S k)) by lia. by rewrite (start_end k) in IH by lia.
Qed.
End blocks.

(** Each block has an entry in the index: its key is no smaller than the keys of the
    block and smaller than those of later blocks. *)
Record indexes `{Comparator bytes} (ix : entries) (bs : list entries) : Prop := {
  indexes_length : length ix = length bs;
  indexes_last j k b e : ix !! j = Some k → bs !! j = Some b → e ∈ b → compare_ e.1 k.1 <= 0;
  indexes_next j j' k b e : ix !! j = Some k → bs !! j' = Some b → (j < j')%nat → e ∈ b → compare_ k.1 e.1 < 0;
  indexes_handles j j' k k' : ix !! j = Some k → ix !! j' = Some k' → k.2 = k'.2 → j = j'
}.

Section two_level.
Context {X D A : Type} `{Iterator X} `{Iterator D} {ord : Comparator bytes} (HO : Order bytes).
Context (block_function : A → bytes → res (D * A)) (owner : A → Prop) (ix : entries) (bs : list entries) (Hix : indexes ix bs).
Context (target : bytes → Prop).
Context (ready : X → Prop) (at_ : X → option nat → Prop) (HX : Iterates (ord := ord) X ix target ready at_).
Context (ready_b : nat → D → Prop) (at_b : nat → D → option nat → Prop).
Context (HD : ∀ j b, bs !! j = Some b → Iterates (ord := ord) D b target (ready_b j) (at_b j)).
Context (Hopen : ∀ a j k, owner a → ix !! j = Some k →
  ∃ d a', block_function a k.2 = Ok (d, a') ∧ owner a' ∧ ready_b j d ∧ Valid d = false).

Abbreviation M := (concat bs).
Abbreviation start := (start bs).
Abbreviation T := (TwoLevelIterator X D A).

Definition HWX := wrapper_iterates ix target ready at_ HX.
Definition HWD j b (Hb : bs !! j = Some b) := wrapper_iterates b target (ready_b j) (at_b j) (HD j b Hb).

(** The data iterator, if there is one, is of the block that the handle names. *)
Definition data_ready (t : T) : Prop :=
  match data_iter_ t with
  | Some w => ∃ j k, ix !! j = Some k ∧ data_block_handle_ t = k.2 ∧ ready_b j (iter_ w)
  | None => True
  end.

Definition owned (t : T) : Prop := owner (arg_ t) ∧ status_ t = Status.OK.

Definition ready_t (t : T) : Prop :=
  owned t ∧ ready (iter_ (index_iter_ t)) ∧ data_ready t.

(** The data iterator is at [q] in block [j]. *)
Definition in_block (t : T) (j : nat) (q : option nat) : Prop :=
  owned t ∧ wrapped ix at_ (index_iter_ t) (Some j) ∧
  ∃ b k w, bs !! j = Some b ∧ ix !! j = Some k ∧ data_block_handle_ t = k.2 ∧
    data_iter_ t = Some w ∧ wrapped b (at_b j) w q.

Definition at_t (t : T) (p : option nat) : Prop :=
  match p with
  | Some p => ∃ j i, in_block t j (Some i) ∧ p = (start j + i)%nat
  | None => owned t ∧ ready (iter_ (index_iter_ t)) ∧ data_iter_ t = None
  end.

Lemma block_of_index j k : ix !! j = Some k → ∃ b, bs !! j = Some b.
Proof. intros Hk. apply lookup_lt_is_Some_2. rewrite <- (indexes_length _ _ Hix). by eapply lookup_lt_Some. Qed.

Lemma index_of_block j b : bs !! j = Some b → ∃ k, ix !! j = Some k.
Proof. intros Hk. apply lookup_lt_is_Some_2. rewrite (indexes_length _ _ Hix). by eapply lookup_lt_Some. Qed.

Lemma data_status t w : data_ready t → data_iter_ t = Some w → status w = Status.OK.
Proof.
  unfold data_ready. intros Hd Ew. rewrite Ew in Hd. destruct Hd as (j & k & Hk & _ & Hr).
  destruct (block_of_index j k Hk) as [b Hb]. exact (it_status (Iterates := HWD j b Hb) w Hr).
Qed.

Lemma in_block_ready t j q : in_block t j q → ready_t t.
Proof.
  intros (Hs & Hi & b & k & w & Hb & Hk & Eh & Ew & Hw). split; [done|].
  split; [exact (it_ready (Iterates := HWX) _ _ Hi)|]. unfold data_ready. rewrite Ew. exists j, k.
  split; [done|]. split; [done|]. exact (it_ready (Iterates := HWD j b Hb) _ _ Hw).
Qed.

(** ** Moving between blocks *)

Lemma SetDataIterator_none t : owned t → data_ready t →
  SetDataIterator t None = Ok (set_data_iter t None).
Proof.
  intros [_ Hs] Hd. unfold SetDataIterator. destruct (data_iter_ t) as [w|] eqn:Ew; [|done].
  unfold SaveError. rewrite Hs, (data_status t w Hd Ew). done.
Qed.

Lemma InitDataBlock_none t : wrapped ix at_ (index_iter_ t) None → owned t → data_ready t →
  InitDataBlock block_function t = Ok (set_data_iter t None).
Proof.
  intros Hi Hs Hd. unfold InitDataBlock. rewrite (it_valid (Iterates := HWX) _ _ Hi).
  rewrite bool_decide_eq_false_2 by (by intros []). by apply SetDataIterator_none.
Qed.

Lemma InitDataBlock_ok t j k : wrapped ix at_ (index_iter_ t) (Some j) → ix !! j = Some k →
  owned t → data_ready t →
  ∃ w a, InitDataBlock block_function t = Ok (mkTwoLevel a (status_ t) (index_iter_ t) (Some w) k.2) ∧
    owner a ∧ ready_b j (iter_ w).
Proof.
  intros Hi Hk Hs Hd. unfold InitDataBlock. rewrite (it_valid (Iterates := HWX) _ _ Hi).
  rewrite bool_decide_eq_true_2 by done. destruct (it_entry (Iterates := HWX) _ _ Hi) as (k' & Hk' & _ & Ev).
  rewrite Hk in Hk'. injection Hk' as <-. rewrite Ev. unfold mbind, res_bind.
  destruct (block_of_index j k Hk) as [b Hb]. destruct (Hopen (arg_ t) j k (proj1 Hs) Hk) as (d & a & Eo & Ho & Hr & Hv).
  assert (∃ w a, match block_function (arg_ t) k.2 with
    | Ok (iter, arg) => SetDataIterator (set_handle t arg k.2) (Some iter) | UB => UB | NoFuel => NoFuel end =
    Ok (mkTwoLevel a (status_ t) (index_iter_ t) (Some w) k.2) ∧ owner a ∧ ready_b j (iter_ w)) as Hnew.
  { rewrite Eo. unfold SetDataIterator. cbn [data_iter_ set_handle]. unfold Set_. rewrite Hv.
    destruct (data_iter_ t) as [w|] eqn:Ew.
    - unfold SaveError. rewrite (data_status t w Hd Ew). cbn [Status.ok negb]. rewrite andb_false_r. by eexists _, a.
    - by eexists _, a. }
  destruct (data_iter_ t) as [w|] eqn:Ew; [|exact Hnew]. rewrite compare_lex.
  destruct (Z.eqb_spec (lex k.2 (data_block_handle_ t)) 0) as [E|E]; [|exact Hnew].
  apply lex_eq in E. unfold data_ready in Hd. rewrite Ew in Hd. destruct Hd as (j' & k' & Hk' & Eh & Hr').
  rewrite Eh in E. rewrite <- (indexes_handles _ _ Hix j j' k k' Hk Hk' E) in Hr'.
  exists w, (arg_ t). split; [|by destruct Hs]. destruct t as [a' s x w' h]. cbn in *. congruence.
Qed.

(** A block is opened at the place of the index, and the data iterator is moved. *)
Lemma open_ok (op : IteratorWrapper D → res (IteratorWrapper D)) t j b q :
  wrapped ix at_ (index_iter_ t) (Some j) → bs !! j = Some b → owned t → data_ready t →
  (∀ w, ready_b j (iter_ w) → ∃ w', op w = Ok w' ∧ wrapped b (at_b j) w' q) →
  ∃ t', (t ← InitDataBlock block_function t; if_data op t) = Ok t' ∧ in_block t' j q.
Proof.
  intros Hi Hb Hs Hd Hop. destruct (index_of_block j b Hb) as [k Hk].
  destruct (InitDataBlock_ok t j k Hi Hk Hs Hd) as (w & a & -> & Ha & Hr). unfold mbind, res_bind, if_data. cbn [data_iter_].
  destruct (Hop w Hr) as (w' & -> & Hw). eexists. split; [reflexivity|]. split; [by destruct Hs|]. split; [done|].
  by exists b, k, w'.
Qed.

Lemma data_valid_ok t j q : in_block t j q → data_valid t = bool_decide (is_Some q).
Proof.
  intros (_ & _ & b & k & w & Hb & _ & _ & Ew & Hw). unfold data_valid. rewrite Ew.
  exact (it_valid (Iterates := HWD j b Hb) w q Hw).
Qed.

Lemma skip_end t :
  owned t → wrapped ix at_ (index_iter_ t) None → data_ready t → ∀ op n,
  ∃ t', (t ← InitDataBlock block_function t; t ← if_data op t; SkipEmptyDataBlocksForward block_function (S n) t) = Ok t' ∧
    (t ← InitDataBlock block_function t; t ← if_data op t; SkipEmptyDataBlocksBackward block_function (S n) t) = Ok t' ∧
    at_t t' None.
Proof.
  intros Hs Hi Hd op n. rewrite (InitDataBlock_none t Hi Hs Hd). unfold mbind, res_bind, if_data.
  cbn [data_iter_ set_data_iter SkipEmptyDataBlocksForward SkipEmptyDataBlocksBackward data_valid index_iter_].
  rewrite (it_valid (Iterates := HWX) _ _ Hi), bool_decide_eq_false_2 by (by intros []).
  eexists. split; [reflexivity|]. split; [reflexivity|]. split; [done|]. split; [|done].
  exact (it_ready (Iterates := HWX) _ _ Hi).
Qed.
(** ** Over empty blocks *)

Abbreviation forwards := (SkipEmptyDataBlocksForward block_function).
Abbreviation backwards := (SkipEmptyDataBlocksBackward block_function).

(** From a place in a block, perhaps behind its last entry. *)
Lemma forward_ok n : ∀ t j b i, in_block t j (pos_at b i) → bs !! j = Some b → (i <= length b)%nat →
  (length bs - j < n)%nat → ∃ t', forwards n t = Ok t' ∧ at_t t' (pos_at M (start j + i)).
Proof.
  induction n as [|n IH]; intros t j b i Ht Hb Hi Hn; [lia|]. cbn [SkipEmptyDataBlocksForward].
  rewrite (data_valid_ok t j _ Ht). pose proof (start_bound bs j b Hb) as HM. destruct (decide (i < length b)%nat) as [L|L].
  - rewrite (pos_at_lt b i L) in Ht |- *. rewrite bool_decide_eq_true_2 by done. exists t. split; [done|].
    rewrite pos_at_lt by lia. by exists j, i.
  - rewrite (pos_at_ge b i) in Ht |- * by lia. rewrite bool_decide_eq_false_2 by (by intros []).
    pose proof (in_block_ready t j _ Ht) as (Hs & _ & Hd). destruct Ht as (_ & Hij & _).
    rewrite (it_valid (Iterates := HWX) _ _ Hij), bool_decide_eq_true_2 by done.
    destruct (it_next (Iterates := HWX) _ _ Hij) as (x & -> & Hx). unfold mbind at 1, res_bind at 1.
    replace (start j + i)%nat with (start (S j) + 0)%nat by (rewrite (start_S bs j b Hb); lia).
    destruct (bs !! S j) as [b'|] eqn:Hb'.
    + rewrite pos_at_lt in Hx by (rewrite (indexes_length _ _ Hix); by eapply lookup_lt_Some).
      destruct (open_ok SeekToFirst (set_index_iter t x) (S j) b' (pos_at b' 0) Hx Hb' Hs Hd) as (t' & E & Ht').
      { intros w Hr. exact (it_first (Iterates := HWD (S j) b' Hb') w Hr). }
      unfold mbind, res_bind in E |- *. destruct (InitDataBlock block_function (set_index_iter t x)) as [t1| |]; [|done..].
      rewrite E. apply (IH t' (S j) b' 0%nat); [done|done|lia|]. apply lookup_lt_Some in Hb'. lia.
    + apply lookup_ge_None in Hb'. rewrite pos_at_ge in Hx by (rewrite (indexes_length _ _ Hix); lia).
      destruct n as [|n]; [apply lookup_lt_Some in Hb; lia|].
      destruct (skip_end (set_index_iter t x) Hs Hx Hd SeekToFirst n) as (t' & E & _ & Ht'). exists t'.
      split; [exact E|]. by rewrite pos_at_ge by (rewrite start_end by lia; lia).
Qed.

(** From before a place in a block. *)
Lemma backward_ok n : ∀ t j b i, in_block t j (pos_before i) → bs !! j = Some b → (i <= length b)%nat →
  (S j < n)%nat → ∃ t', backwards n t = Ok t' ∧ at_t t' (pos_before (start j + i)).
Proof.
  induction n as [|n IH]; intros t j b i Ht Hb Hi Hn; [lia|]. cbn [SkipEmptyDataBlocksBackward].
  rewrite (data_valid_ok t j _ Ht). destruct i as [|i].
  - rewrite bool_decide_eq_false_2 by (by intros []). pose proof (in_block_ready t j _ Ht) as (Hs & _ & Hd).
    destruct Ht as (_ & Hij & _). rewrite (it_valid (Iterates := HWX) _ _ Hij), bool_decide_eq_true_2 by done.
    destruct (it_prev (Iterates := HWX) _ _ Hij) as (x & -> & Hx). unfold mbind at 1, res_bind at 1.
    rewrite Nat.add_0_r. destruct j as [|j].
    + destruct n as [|n]; [lia|]. destruct (skip_end (set_index_iter t x) Hs Hx Hd SeekToLast n) as (t' & _ & E & Ht').
      by exists t'.
    + destruct (lookup_lt_is_Some_2 bs j) as [b' Hb']; [apply lookup_lt_Some in Hb; lia|].
      rewrite (start_S bs j b' Hb'). cbn [pos_before] in Hx.
      destruct (open_ok SeekToLast (set_index_iter t x) j b' (pos_before (length b')) Hx Hb' Hs Hd) as (t' & E & Ht').
      { intros w Hr. exact (it_last (Iterates := HWD j b' Hb') w Hr). }
      unfold mbind, res_bind in E |- *. destruct (InitDataBlock block_function (set_index_iter t x)) as [t1| |]; [|done..].
      rewrite E. apply (IH t' j b' (length b')); [done|done|lia|lia].
  - rewrite bool_decide_eq_true_2 by done. exists t. split; [done|]. rewrite Nat.add_succ_r. by exists j, i.
Qed.

(** Seeking and the order of the blocks. *)
Lemma seek_after_blocks t : seek_index ix t = length ix → seek_index M t = length M.
Proof.
  intros E. apply seek_index_unique; [done| |]; [|intros e He; apply lookup_lt_Some in He; lia].
  intros p e _ He. destruct (start_inv bs p e He) as (j & b & i & Hb & Hi & _).
  destruct (index_of_block j b Hb) as [k Hk].
  pose proof (indexes_last _ _ Hix j k b e Hk Hb ltac:(by eapply list_elem_of_lookup_2)) as L.
  pose proof (seek_index_before ix t j k ltac:(rewrite E; by eapply lookup_lt_Some) Hk) as L2.
  destruct (Z.eq_dec (compare_ e.1 k.1) 0) as [E2|N].
  - by apply (cmp_eq _ _ _ E2 L2).
  - assert (compare_ e.1 k.1 < 0) as L3 by lia. by apply (cmp_trans _ _ _ L3 L2).
Qed.

Lemma seek_in_block t j b : seek_index ix t = j → bs !! j = Some b → seek_index M t = (start j + seek_index b t)%nat.
Proof.
  intros Ej Hb. pose proof (seek_index_le b t) as Hle. pose proof (start_bound bs j b Hb) as HM.
  destruct (index_of_block j b Hb) as [k Hk].
  pose proof (seek_index_at ix t k ltac:(by rewrite Ej)) as Hat.
  assert (∀ p e, M !! p = Some e → ∃ j' b' i, bs !! j' = Some b' ∧ b' !! i = Some e ∧ p = (start j' + i)%nat ∧ e ∈ b') as Hinv.
  { intros p e He. destruct (start_inv bs p e He) as (j' & b' & i & Hb' & Hi & Ep). exists j', b', i.
    split_and!; [done..|by eapply list_elem_of_lookup_2]. }
  apply seek_index_unique; [lia| |].
  - intros p e Hp He. destruct (Hinv p e He) as (j' & b' & i & Hb' & Hi & -> & Hin). pose proof (lookup_lt_Some _ _ _ Hi) as Li.
    destruct (Nat.lt_trichotomy j' j) as [L|[->|L]].
    + destruct (index_of_block j' b' Hb') as [k' Hk'].
      pose proof (indexes_last _ _ Hix j' k' b' e Hk' Hb' Hin) as L1.
      pose proof (seek_index_before ix t j' k' ltac:(by rewrite Ej) Hk') as L2.
      destruct (Z.eq_dec (compare_ e.1 k'.1) 0) as [E2|N]; [by apply (cmp_eq _ _ _ E2 L2)|].
      assert (compare_ e.1 k'.1 < 0) as L3 by lia. by apply (cmp_trans _ _ _ L3 L2).
    + rewrite Hb in Hb'. injection Hb' as <-. apply (seek_index_before b t i); [lia|done].
    + pose proof (start_mono bs (S j) j' L) as L1. rewrite (start_S bs j b Hb) in L1. lia.
  - intros e He. destruct (Hinv _ e He) as (j' & b' & i & Hb' & Hi & Ep & Hin). pose proof (lookup_lt_Some _ _ _ Hi) as Li.
    destruct (Nat.lt_trichotomy j' j) as [L|[->|L]].
    + pose proof (start_mono bs (S j') j L) as L1. rewrite (start_S bs j' b' Hb') in L1. lia.
    + rewrite Hb in Hb'. injection Hb' as <-. apply (seek_index_at b t). by replace (seek_index b t) with i by lia.
    + pose proof (indexes_next _ _ Hix j j' k b' e Hk Hb' L Hin) as L1.
      destruct (Z.lt_ge_cases (compare_ e.1 t) 0) as [L2|]; [|done]. pose proof (cmp_trans _ _ _ L1 L2). lia.
Qed.

Context (fuel : nat) (Hfuel : (length bs < fuel)%nat).

(** ** The operations *)

Lemma move_forward t j b k i (op : IteratorWrapper D → res (IteratorWrapper D)) :
  in_block t j (Some k) → bs !! j = Some b → (i <= length b)%nat →
  (∀ w, wrapped b (at_b j) w (Some k) → ∃ w', op w = Ok w' ∧ wrapped b (at_b j) w' (pos_at b i)) →
  ∃ t', (t ← if_data op t; forwards fuel t) = Ok t' ∧ at_t t' (pos_at M (start j + i)).
Proof.
  intros (Hs & Hi & b' & h & w & Hb' & Hh & Eh & Ew & Hw) Hb L Hop. rewrite Hb in Hb'. injection Hb' as <-.
  unfold if_data. rewrite Ew. destruct (Hop w Hw) as (w' & -> & Hw'). unfold mbind, res_bind.
  apply (forward_ok fuel _ j b i); [|done|done|lia]. split; [done|]. split; [done|]. by exists b, h, w'.
Qed.

Lemma move_backward t j b k i (op : IteratorWrapper D → res (IteratorWrapper D)) :
  in_block t j (Some k) → bs !! j = Some b → (i <= length b)%nat →
  (∀ w, wrapped b (at_b j) w (Some k) → ∃ w', op w = Ok w' ∧ wrapped b (at_b j) w' (pos_before i)) →
  ∃ t', (t ← if_data op t; backwards fuel t) = Ok t' ∧ at_t t' (pos_before (start j + i)).
Proof.
  intros (Hs & Hi & b' & h & w & Hb' & Hh & Eh & Ew & Hw) Hb L Hop. rewrite Hb in Hb'. injection Hb' as <-.
  unfold if_data. rewrite Ew. destruct (Hop w Hw) as (w' & -> & Hw'). unfold mbind, res_bind.
  apply (backward_ok fuel _ j b i); [|done|done|]. { split; [done|]. split; [done|]. by exists b, h, w'. }
  apply lookup_lt_Some in Hb. lia.
Qed.

Lemma at_block t p : at_t t (Some p) → ∃ j b i e w, in_block t j (Some i) ∧ bs !! j = Some b ∧ p = (start j + i)%nat ∧
  b !! i = Some e ∧ data_iter_ t = Some w ∧ key w = Ok e.1 ∧ value w = Ok e.2.
Proof.
  intros (j & i & Ht & ->). pose proof Ht as (Hs & Hi & b & k & w & Hb & Hk & Eh & Ew & Hw).
  destruct (it_entry (Iterates := HWD j b Hb) w i Hw) as (e & He & Ek & Ev). by exists j, b, i, e, w.
Qed.

Lemma place t x j b q (op : IteratorWrapper D → res (IteratorWrapper D)) :
  ready_t t → wrapped ix at_ x (Some j) → bs !! j = Some b →
  (∀ w, ready_b j (iter_ w) → ∃ w', op w = Ok w' ∧ wrapped b (at_b j) w' q) →
  ∃ t1 t2, InitDataBlock block_function (set_index_iter t x) = Ok t1 ∧ if_data op t1 = Ok t2 ∧ in_block t2 j q.
Proof.
  intros (Hs & _ & Hd) Hx Hb Hop. destruct (open_ok op (set_index_iter t x) j b q Hx Hb Hs Hd Hop) as (t2 & E & Ht2).
  unfold mbind, res_bind in E. destruct (InitDataBlock block_function (set_index_iter t x)) as [t1| |]; [|done..]. by exists t1, t2.
Qed.

#[local] Instance two_level_iterates :
  Iterates (ord := ord) T (H := two_level_iterator block_function fuel) M target ready_t at_t.
Proof.
  assert (length ix = length bs) as El by apply Hix.
  split.
  - intros t [p|]; [intros (j & i & Ht & _); by apply (in_block_ready t j (Some i))|].
    intros (Hs & Hr & Hd). split; [done|]. split; [done|]. unfold data_ready. by rewrite Hd.
  - intros t ([_ Hs] & Hr & Hd). cbn [status two_level_iterator]. unfold two_status. rewrite (it_status (Iterates := HWX) _ Hr). cbn [Status.ok negb].
    destruct (data_iter_ t) as [w|] eqn:Ew; [|done]. by rewrite (data_status t w Hd Ew).
  - intros t [p|] Ht.
    + destruct Ht as (j & i & Ht & _). exact (data_valid_ok t j _ Ht).
    + destruct Ht as (_ & _ & Hd). cbn. unfold data_valid. by rewrite Hd.
  - intros t p Ht. destruct (at_block t p Ht) as (j & b & i & e & w & Hin & Hb & -> & He & Ew & Ek & Ev).
    exists e. split; [by apply (at_start bs j b)|]. cbn [key value two_level_iterator]. unfold two_key, two_value.
    rewrite (data_valid_ok t j _ Hin), bool_decide_eq_true_2, Ew by done. cbn [SkipList.assert_ of_option].
    unfold mbind, res_bind. by rewrite Ek, Ev.
  - intros t Ht. cbn [SeekToFirst two_level_iterator]. unfold two_SeekToFirst. destruct (it_first (Iterates := HWX) (index_iter_ t)) as (x & -> & Hx); [apply Ht|].
    unfold mbind at 1, res_bind at 1. destruct (bs !! 0%nat) as [b|] eqn:Hb.
    + rewrite pos_at_lt in Hx by (rewrite El; by eapply lookup_lt_Some).
      destruct (place t x 0 b (pos_at b 0) SeekToFirst Ht Hx Hb) as (t1 & t2 & -> & E2 & Ht2).
      { intros w Hr. exact (it_first (Iterates := HWD 0 b Hb) w Hr). }
      unfold mbind, res_bind. rewrite E2. apply (forward_ok fuel t2 0 b 0); [done|done|lia|lia].
    + apply lookup_ge_None in Hb. rewrite pos_at_ge in Hx by lia. assert (∃ n, fuel = S n) as [n En] by (exists (pred fuel); lia). rewrite En.
      destruct Ht as (Hs & _ & Hd). destruct (skip_end (set_index_iter t x) Hs Hx Hd SeekToFirst n) as (t' & E & _ & Ht').
      exists t'. split; [exact E|]. by rewrite pos_at_ge by (destruct bs; [done|cbn in Hb; lia]).
  - intros t Ht. cbn [SeekToLast two_level_iterator]. unfold two_SeekToLast. destruct (it_last (Iterates := HWX) (index_iter_ t)) as (x & -> & Hx); [apply Ht|].
    unfold mbind at 1, res_bind at 1. rewrite El in Hx. destruct (Nat.eq_dec (length bs) 0%nat) as [Ej|N].
    + rewrite Ej in Hx. assert (∃ n, fuel = S n) as [n En] by (exists (pred fuel); lia). rewrite En. destruct Ht as (Hs & _ & Hd).
      destruct (skip_end (set_index_iter t x) Hs Hx Hd SeekToLast n) as (t' & _ & E & Ht'). exists t'.
      split; [exact E|]. by apply nil_length_inv in Ej as ->.
    + destruct (proj1 (Nat.neq_0_r _) N) as [j Ej]. rewrite Ej in Hx. cbn [pos_before] in Hx.
      destruct (lookup_lt_is_Some_2 bs j) as [b Hb]; [lia|].
      destruct (place t x j b (pos_before (length b)) SeekToLast Ht Hx Hb) as (t1 & t2 & -> & E2 & Ht2).
      { intros w Hr. exact (it_last (Iterates := HWD j b Hb) w Hr). }
      unfold mbind, res_bind. rewrite E2. rewrite <- (start_end bs (S j)), (start_S bs j b Hb) by lia.
      apply (backward_ok fuel t2 j b (length b)); [done|done|lia|lia].
  - intros t key Ht Hkey. cbn [Seek two_level_iterator]. unfold two_Seek.
    destruct (it_seek (Iterates := HWX) (index_iter_ t) key) as (x & -> & Hx); [apply Ht|done|].
    unfold mbind at 1, res_bind at 1. pose proof (seek_index_le ix key) as Hle.
    destruct (bs !! seek_index ix key) as [b|] eqn:Hb.
    + rewrite pos_at_lt in Hx by (rewrite El; by eapply lookup_lt_Some).
      destruct (place t x _ b (pos_at b (seek_index b key)) (Seek key) Ht Hx Hb) as (t1 & t2 & -> & E2 & Ht2).
      { intros w Hr. exact (it_seek (Iterates := HWD _ b Hb) w key Hr Hkey). }
      unfold mbind, res_bind. rewrite E2, (seek_in_block key _ b eq_refl Hb).
      apply (forward_ok fuel t2 _ b); [done|done|apply seek_index_le|lia].
    + apply lookup_ge_None in Hb. rewrite pos_at_ge in Hx by lia. assert (∃ n, fuel = S n) as [n En] by (exists (pred fuel); lia). rewrite En.
      destruct Ht as (Hs & _ & Hd). destruct (skip_end (set_index_iter t x) Hs Hx Hd (Seek key) n) as (t' & E & _ & Ht').
      exists t'. split; [exact E|]. by rewrite seek_after_blocks, pos_at_ge by lia.
  - intros t p Ht. destruct (at_block t p Ht) as (j & b & i & e & w & Hin & Hb & -> & He & _).
    cbn [Next two_level_iterator]. unfold two_Next. rewrite (data_valid_ok t j _ Hin), bool_decide_eq_true_2 by done.
    cbn [SkipList.assert_]. unfold mbind at 1, res_bind at 1. rewrite <- Nat.add_succ_r.
    apply (move_forward t j b i (S i)); [done|done|by eapply lookup_lt_Some|].
    intros w' Hw'. exact (it_next (Iterates := HWD j b Hb) w' i Hw').
  - intros t p Ht. destruct (at_block t p Ht) as (j & b & i & e & w & Hin & Hb & -> & He & _).
    cbn [Prev two_level_iterator]. unfold two_Prev. rewrite (data_valid_ok t j _ Hin), bool_decide_eq_true_2 by done.
    cbn [SkipList.assert_]. unfold mbind at 1, res_bind at 1.
    apply (move_backward t j b i i); [done|done|apply lookup_lt_Some in He; lia|].
    intros w' Hw'. exact (it_prev (Iterates := HWD j b Hb) w' i Hw').
Qed.
End two_level.

(** C32: The two-level iterator is one iterator over the blocks that the index names.
    When the index iterator keeps the contract of iterators, the index entries separate
    the blocks, and the function that opens blocks gives iterators that keep the contract,
    any sequence of calls shows what a cursor in the entries of all blocks in a row
    shows, empty blocks included; the loops over empty blocks end. *)
Theorem two_level_correct {X D A} `{Iterator X} `{Iterator D} ord (block_function : A → bytes → res (D * A)) owner arg
    (ix : entries) (bs : list entries) target ready at_ ready_b at_b (x : X) fuel cs r :
  Order bytes (H := ord) → indexes (H := ord) ix bs →
  Iterates (ord := ord) X ix target ready at_ → ready x → Valid x = false →
  (∀ j b, bs !! j = Some b → Iterates (ord := ord) D b target (ready_b j) (at_b j)) →
  (∀ a j k, owner a → ix !! j = Some k →
    ∃ d a', block_function a k.2 = Ok (d, a') ∧ owner a' ∧ ready_b j d ∧ Valid d = false) → owner arg →
  (length bs < fuel)%nat → Forall (call_target target) cs →
  cursor_calls (ord := ord) (concat bs) None cs = Some r →
  ∃ t, NewTwoLevelIterator (D := D) x arg = Ok t ∧ two_status t = Status.OK ∧
    run_calls (H := two_level_iterator block_function fuel) cs t = Ok r.
Proof.
  intros HO Hix HX Hr Hv HD Hopen Ho Hf Ht Hc.
  pose proof (two_level_iterates HO block_function owner ix bs Hix target ready at_ HX ready_b at_b HD Hopen fuel Hf) as HT.
  unfold NewTwoLevelIterator, new, Set_. rewrite Hv. eexists. split; [reflexivity|].
  match goal with |- two_status ?t = _ ∧ _ => assert (ready_t owner ix ready ready_b t) as Hrt by done end.
  split; [exact (it_status (Iterates := HT) _ Hrt)|].
  eapply (run_calls_ok (H0 := HT)); [by right|done|done].
Qed.

Definition example_index : entries := [([2; 1], [0]); ([4], [1]); ([5], [2]); ([9], [3])].
Definition example_blocks : list entries :=
  [[([1], [10]); ([2], [11])]; []; [([5], [12])]; [([6], [13]); ([8], [14])]].
(** The owner counts the blocks it opens. *)
Definition example_open (opened : nat) (h : bytes) : res (ListIterator * nat) :=
  match h with [j] => Ok (mkListIterator (example_blocks !!! Z.to_nat j) None, S opened) | _ => UB end.
Definition example_calls : list cursor_call :=
  [CallFirst; CallNext; CallNext; CallPrev; CallNext; CallNext; CallSeek [2; 0]; CallPrev; CallSeek [7]; CallNext;
   CallLast; CallPrev; CallPrev; CallPrev].
Definition example_shown : list (option (bytes * bytes)) :=
  [Some ([1], [10]); Some ([2], [11]); Some ([5], [12]); Some ([2], [11]); Some ([5], [12]); Some ([6], [13]);
   Some ([5], [12]); Some ([2], [11]); Some ([8], [14]); None; Some ([8], [14]); Some ([6], [13]); Some ([5], [12]);
   Some ([2], [11])].

Lemma example_indexes : indexes (H := bytewise_order) example_index example_blocks.
Proof.
  assert (∀ {A} (a b c d : A) j x, [a; b; c; d] !! j = Some x →
    j = 0%nat ∧ x = a ∨ j = 1%nat ∧ x = b ∨ j = 2%nat ∧ x = c ∨ j = 3%nat ∧ x = d) as Hc.
  { intros A a b c d j x. destruct j as [|[|[|[|j]]]]; cbn; intros [= <-]; tauto. }
  split; unfold example_index, example_blocks.
  - reflexivity.
  - intros j k b e Hk%Hc Hb%Hc He.
    destruct Hk as [[-> ->]|[[-> ->]|[[-> ->]|[-> ->]]]], Hb as [[? ->]|[[? ->]|[[? ->]|[? ->]]]]; try done;
      rewrite ?elem_of_cons, ?elem_of_nil in He;
      repeat match goal with O : _ ∨ _ |- _ => destruct O as [O|O] end; subst; done.
  - intros j j' k b e Hk%Hc Hb%Hc Hj He.
    destruct Hk as [[-> ->]|[[-> ->]|[[-> ->]|[-> ->]]]], Hb as [[-> ->]|[[-> ->]|[[-> ->]|[-> ->]]]];
      try (exfalso; lia); rewrite ?elem_of_cons, ?elem_of_nil in He;
      repeat match goal with O : _ ∨ _ |- _ => destruct O as [O|O] end; subst; done.
  - intros j j' k k' Hk%Hc Hk'%Hc.
    destruct Hk as [[-> ->]|[[-> ->]|[[-> ->]|[-> ->]]]], Hk' as [[-> ->]|[[-> ->]|[[-> ->]|[-> ->]]]]; done.
Qed.

Lemma two_level_correct_witness :
  ∃ t, NewTwoLevelIterator (H := list_iterator (ord := bytewise_order)) (D := ListIterator)
      (mkListIterator example_index None) 0%nat = Ok t ∧
    run_calls (H := two_level_iterator (H := list_iterator (ord := bytewise_order))
      (H0 := list_iterator (ord := bytewise_order)) example_open 5) example_calls t = Ok example_shown.
Proof.
  destruct (two_level_correct (H := list_iterator (ord := bytewise_order)) (H0 := list_iterator (ord := bytewise_order))
    bytewise_order example_open (λ _, True) 0%nat example_index example_blocks (λ _, True)
    (λ s, list_entries s = example_index)
    (λ s p, list_entries s = example_index ∧ list_pos s = p ∧ ∀ i, p = Some i → (i < length example_index)%nat)
    (λ j s, list_entries s = example_blocks !!! j)
    (λ j s p, list_entries s = example_blocks !!! j ∧ list_pos s = p ∧
      ∀ i, p = Some i → (i < length (example_blocks !!! j))%nat)
    (mkListIterator example_index None) 5 example_calls example_shown) as (t & E & _ & Er).
  - exact bytewise_Order.
  - exact example_indexes.
  - apply list_iterates.
  - reflexivity.
  - reflexivity.
  - intros j b Hb. rewrite (list_lookup_total_correct _ _ _ Hb). apply list_iterates.
  - intros a j k _. unfold example_index. destruct j as [|[|[|[|j]]]]; cbn; intros [= <-]; by eexists _, _.
  - done.
  - cbn. lia.
  - repeat constructor.
  - vm_compute. reflexivity.
  - exists t. split; [exact E|exact Er].
Defined.
