(* ===== verification/LdbTable.v ===== *)
(** The pieces of LevelDB's table files ([table/format.h], [table/format.cc]): handles of
    blocks, the footer, and the blocks with their type and checksum.

    LevelDB's table builder ([table/table_builder.cc]): entries in order become blocks of
    a file, followed by the filter, the metaindex, the index and the footer.

    LevelDB's tables ([table/table.cc]): opening a file that a table builder wrote, its
    iterator, and the lookup of one key. *)
From S2P Require Import Prelude LdbSkip LdbFormat LdbCrc LdbLog LdbFilter LdbIterator LdbBlock LdbMerger LdbTwoLevel.
Import Status.

(** [RandomAccessFile] of [include/leveldb/env.h]: [pread offset n] returns the data, and
    whether it is in the scratch buffer of the caller. *)
Class RandomAccessFile (F : Type) := { pread : Z → Z → F → Status * bytes * bool }.

Module Format.

(** [Snappy] as compiled: without the library. *)
Definition Snappy_Compress (input : bytes) : option bytes := None.
Definition Snappy_GetUncompressedLength (input : bytes) : option Z := None.
Definition Snappy_Uncompress (input : bytes) : option bytes := None.

Inductive CompressionType := kNoCompression | kSnappyCompression.
Definition compression_code (t : CompressionType) : Z :=
  match t with kNoCompression => 0 | kSnappyCompression => 1 end.

Record BlockHandle := mkHandle { offset_ : Z; size_ : Z }.

(** The value of a handle that is not set. *)
Definition unset : Z := 2 ^ 64 - 1.
Definition BlockHandle_new : BlockHandle := mkHandle unset unset.

Definition EncodeTo (h : BlockHandle) (dst : bytes) : res bytes :=
  SkipList.assert_ (negb (offset_ h =? unset));;
  SkipList.assert_ (negb (size_ h =? unset));;
  dst ← Coding.PutVarint64 dst (offset_ h);
  Coding.PutVarint64 dst (size_ h).

(** The status, the handle and the rest of the input. *)
Definition DecodeFrom (h : BlockHandle) (input : bytes) : res (Status * BlockHandle * bytes) :=
  r ← Coding.GetVarint64 input;
  match r with
  | None => Ok (Corruption "bad block handle", h, input)
  | Some (offset, input) =>
      let h := mkHandle offset (size_ h) in
      r ← Coding.GetVarint64 input;
      match r with
      | None => Ok (Corruption "bad block handle", h, input)
      | Some (size, input) => Ok (OK, mkHandle offset size, input)
      end
  end.

Definition kMaxEncodedLength : Z := 10 + 10.

Record Footer := mkFooter { metaindex_handle_ : BlockHandle; index_handle_ : BlockHandle }.
Definition Footer_new : Footer := mkFooter BlockHandle_new BlockHandle_new.
Definition kEncodedLength : Z := 2 * kMaxEncodedLength + 8.
Definition kTableMagicNumber : Z := 0xdb4775248b80fb57.

(** [std::string::resize] *)
Definition resize (n : nat) (s : bytes) : bytes := take n s ++ replicate (n - length s) 0.

Definition Footer_EncodeTo (f : Footer) (dst : bytes) : res bytes :=
  let original_size := Slice.size dst in
  dst ← EncodeTo (metaindex_handle_ f) dst;
  dst ← EncodeTo (index_handle_ f) dst;
  let dst := resize (Z.to_nat (2 * kMaxEncodedLength)) dst in
  let dst := Coding.PutFixed32 dst (u32 (Z.land kTableMagicNumber 0xffffffff)) in
  let dst := Coding.PutFixed32 dst (u32 (Z.shiftr kTableMagicNumber 32)) in
  SkipList.assert_ (Slice.size dst =? u64 (original_size + kEncodedLength));;
  Ok dst.

Definition Footer_DecodeFrom (f : Footer) (input : bytes) : res (Status * Footer * bytes) :=
  let magic_ptr := drop (Z.to_nat (kEncodedLength - 8)) input in
  magic_lo ← Coding.DecodeFixed32 magic_ptr;
  magic_hi ← Coding.DecodeFixed32 (drop 4 magic_ptr);
  let magic := Z.lor (u64 (Z.shiftl magic_hi 32)) magic_lo in
  if negb (magic =? kTableMagicNumber) then
    Ok (Corruption "not an sstable (bad magic number)", f, input)
  else
    '(result, h, rest) ← DecodeFrom (metaindex_handle_ f) input;
    let f := mkFooter h (index_handle_ f) in
    if negb (ok result) then Ok (result, f, rest)
    else
      '(result, h, rest) ← DecodeFrom (index_handle_ f) rest;
      let f := mkFooter (metaindex_handle_ f) h in
      if negb (ok result) then Ok (result, f, rest)
      else Ok (result, f, drop 8 magic_ptr).

(** 1-byte type + 32-bit crc *)
Definition kBlockTrailerSize : Z := 5.

Record BlockContents := mkContents { data : bytes; cachable : bool; heap_allocated : bool }.
Definition no_contents : BlockContents := mkContents [] false false.

Section read.
(** Where the bytes of a slice are: the checksum looks at the alignment. *)
Context (address : bytes → Z) {F : Type} `{RandomAccessFile F}.

(** The first [n] bytes of [data], all of which must be there, and the others. *)
Definition prefix (data : bytes) (n : Z) : res bytes :=
  if n <=? Slice.size data then Ok (take (Z.to_nat n) data) else UB.
Definition suffix (data : bytes) (n : Z) : res bytes :=
  if n <=? Slice.size data then Ok (drop (Z.to_nat n) data) else UB.

Definition ReadBlock (file : F) (verify_checksums : bool) (handle : BlockHandle)
    : res (Status * BlockContents) :=
  let n := size_ handle in
  let '(s, contents, in_buf) := pread (offset_ handle) (u64 (n + kBlockTrailerSize)) file in
  if negb (ok s) then Ok (s, no_contents)
  else if negb (Slice.size contents =? u64 (n + kBlockTrailerSize)) then
    Ok (Corruption "truncated block read", no_contents)
  else
    bad ← (if verify_checksums : bool then
             stored ← suffix contents (n + 1);
             w ← Coding.DecodeFixed32 stored;
             let crc := Crc32c.Unmask w in
             checked ← prefix contents (u64 (n + 1));
             actual ← Crc32c.Value (address checked) checked;
             Ok (negb (actual =? crc))
           else Ok false);
    if bad : bool then Ok (Corruption "block checksum mismatch", no_contents)
    else
      data ← prefix contents n;
      t ← of_option (contents !! Z.to_nat n);
      if s8 t =? compression_code kNoCompression then
        Ok (OK, if in_buf then mkContents data true true else mkContents data false false)
      else if s8 t =? compression_code kSnappyCompression then
        match Snappy_GetUncompressedLength data with
        | None => Ok (Corruption "corrupted compressed block contents", no_contents)
        | Some _ =>
            match Snappy_Uncompress data with
            | None => Ok (Corruption "corrupted compressed block contents", no_contents)
            | Some ubuf => Ok (OK, mkContents ubuf true true)
            end
        end
      else Ok (Corruption "bad block type", no_contents).
End read.
End Format.

(** * LevelDB's table builder ([table/table_builder *)
Import Status Format.

(** The options that tables look at, but the comparator and the filter policy. *)
Record Options := mkOptions {
  block_size : Z; block_restart_interval : Z; compression : CompressionType; paranoid_checks : bool
}.

(** A filter policy with its name, or NULL. *)
Definition NamedPolicy : Type := option (FilterPolicy * bytes).

Module TableBuilder.
Section table_builder.
Context (address : bytes → Z) {F : Type} `{WritableFile F}.
Context {comparator : SliceComparator} (filter_policy : NamedPolicy).

(** [Rep]. The buffer of compressed data is scratch. *)
Record TableBuilder := mkTable {
  options : Options; file : F; offset : Z; status : Status;
  data_block : BlockBuilder.BlockBuilder; index_block : BlockBuilder.BlockBuilder;
  last_key : bytes; num_entries : Z; closed : bool;
  filter_block : option FilterBlock.FilterBlockBuilder;
  pending_index_entry : bool; pending_handle : BlockHandle
}.

Definition set_options (t : TableBuilder) (o : Options) : TableBuilder :=
  mkTable o (file t) (offset t) (status t) (data_block t) (index_block t) (last_key t) (num_entries t)
    (closed t) (filter_block t) (pending_index_entry t) (pending_handle t).
Definition set_output (t : TableBuilder) (f : F) (off : Z) (s : Status) : TableBuilder :=
  mkTable (options t) f off s (data_block t) (index_block t) (last_key t) (num_entries t)
    (closed t) (filter_block t) (pending_index_entry t) (pending_handle t).
Definition set_data_block (t : TableBuilder) (b : BlockBuilder.BlockBuilder) : TableBuilder :=
  mkTable (options t) (file t) (offset t) (status t) b (index_block t) (last_key t) (num_entries t)
    (closed t) (filter_block t) (pending_index_entry t) (pending_handle t).
Definition set_index_block (t : TableBuilder) (b : BlockBuilder.BlockBuilder) : TableBuilder :=
  mkTable (options t) (file t) (offset t) (status t) (data_block t) b (last_key t) (num_entries t)
    (closed t) (filter_block t) (pending_index_entry t) (pending_handle t).
Definition set_last_key (t : TableBuilder) (k : bytes) : TableBuilder :=
  mkTable (options t) (file t) (offset t) (status t) (data_block t) (index_block t) k (num_entries t)
    (closed t) (filter_block t) (pending_index_entry t) (pending_handle t).
Definition count_entry (t : TableBuilder) : TableBuilder :=
  mkTable (options t) (file t) (offset t) (status t) (data_block t) (index_block t) (last_key t)
    (num_entries t + 1) (closed t) (filter_block t) (pending_index_entry t) (pending_handle t).
Definition set_closed (t : TableBuilder) : TableBuilder :=
  mkTable (options t) (file t) (offset t) (status t) (data_block t) (index_block t) (last_key t)
    (num_entries t) true (filter_block t) (pending_index_entry t) (pending_handle t).
Definition set_filter_block (t : TableBuilder) (b : option FilterBlock.FilterBlockBuilder) : TableBuilder :=
  mkTable (options t) (file t) (offset t) (status t) (data_block t) (index_block t) (last_key t)
    (num_entries t) (closed t) b (pending_index_entry t) (pending_handle t).
Definition set_pending (t : TableBuilder) (p : bool) (h : BlockHandle) : TableBuilder :=
  mkTable (options t) (file t) (offset t) (status t) (data_block t) (index_block t) (last_key t)
    (num_entries t) (closed t) (filter_block t) p h.

(** The step of the filter block builder, if there is one. *)
Definition with_filter (t : TableBuilder)
    (f : FilterBlock.FilterBlockBuilder → res FilterBlock.FilterBlockBuilder) : res TableBuilder :=
  match filter_block t with
  | Some b => b ← f b; Ok (set_filter_block t (Some b))
  | None => Ok t
  end.
Definition start_filter (t : TableBuilder) (off : Z) : res TableBuilder :=
  match filter_policy with
  | Some (policy, _) => with_filter t (λ b, FilterBlock.StartBlock (policy_ := policy) b off)
  | None => Ok t
  end.

Definition new (options : Options) (file : F) : res TableBuilder :=
  data ← BlockBuilder.new (block_restart_interval options);
  index ← BlockBuilder.new 1;
  let filter := match filter_policy with Some _ => Some FilterBlock.Builder_new | None => None end in
  start_filter (mkTable options file 0 OK data index [] 0 false filter false BlockHandle_new) 0.

(** Whether the comparator is the same one, and the new options. *)
Definition ChangeOptions (same_comparator : bool) (o : Options) (t : TableBuilder) : Status * TableBuilder :=
  if same_comparator then (OK, set_options t o)
  else (Some (kInvalidArgument, "changing comparator while building table"%string), t).

Definition WriteRawBlock (block_contents : bytes) (type : CompressionType) (t : TableBuilder)
    : res (BlockHandle * TableBuilder) :=
  let handle := mkHandle (offset t) (Slice.size block_contents) in
  let '(s, f) := Append block_contents (file t) in
  if ok s then
    crc ← Crc32c.Value (address block_contents) block_contents;
    crc ← Crc32c.Extend (address [compression_code type]) crc [compression_code type];
    let trailer := compression_code type :: Coding.EncodeFixed32 (Crc32c.Mask crc) in
    let '(s, f) := Append trailer f in
    let off := if ok s then u64 (offset t + u64 (Slice.size block_contents + kBlockTrailerSize)) else offset t in
    Ok (handle, set_output t f off s)
  else Ok (handle, set_output t f (offset t) s).

(** The handle, the table and the block made empty again. *)
Definition WriteBlock (block : BlockBuilder.BlockBuilder) (t : TableBuilder)
    : res (BlockHandle * TableBuilder * BlockBuilder.BlockBuilder) :=
  SkipList.assert_ (ok (status t));;
  let raw := (BlockBuilder.Finish block).1 in
  let '(block_contents, type) :=
    match compression (options t) with
    | kNoCompression => (raw, kNoCompression)
    | kSnappyCompression =>
        match Snappy_Compress raw with
        | Some compressed =>
            if Slice.size compressed <? Slice.size raw - Slice.size raw / 8 then (compressed, kSnappyCompression)
            else (raw, kNoCompression)
        | None => (raw, kNoCompression)
        end
    end in
  '(handle, t) ← WriteRawBlock block_contents type t;
  Ok (handle, t, BlockBuilder.Reset).

Definition block_empty (b : BlockBuilder.BlockBuilder) : bool := Slice.empty (BlockBuilder.buffer_ b).

Definition FlushBlock (t : TableBuilder) : res TableBuilder :=
  SkipList.assert_ (negb (closed t));;
  if negb (ok (status t)) then Ok t
  else if block_empty (data_block t) then Ok t
  else
    SkipList.assert_ (negb (pending_index_entry t));;
    '(handle, t, block) ← WriteBlock (data_block t) t;
    let t := set_pending (set_data_block t block) (pending_index_entry t) handle in
    let t := (if ok (status t) then
                let t := set_pending t true handle in
                let '(s, f) := Flush (file t) in set_output t f (offset t) s
              else t) in
    start_filter t (offset t).

(** The index entry of the last block, under the key [k]. *)
Definition add_index_entry (t : TableBuilder) (k : bytes) : res TableBuilder :=
  let t := set_last_key t k in
  handle_encoding ← EncodeTo (pending_handle t) [];
  block ← BlockBuilder.Add 1 (index_block t) (last_key t) handle_encoding;
  Ok (set_pending (set_index_block t block) false (pending_handle t)).

Definition Add (t : TableBuilder) (key value : bytes) : res TableBuilder :=
  SkipList.assert_ (negb (closed t));;
  if negb (ok (status t)) then Ok t
  else
    larger ← (if 0 <? num_entries t then c ← Compare key (last_key t); Ok (0 <? c) else Ok true);
    SkipList.assert_ larger;;
    t ← (if pending_index_entry t then
           SkipList.assert_ (block_empty (data_block t));;
           k ← FindShortestSeparator (last_key t) key;
           add_index_entry t k
         else Ok t);
    t ← with_filter t (λ b, Ok (FilterBlock.AddKey b key));
    let t := count_entry (set_last_key t key) in
    block ← BlockBuilder.Add (block_restart_interval (options t)) (data_block t) key value;
    let t := set_data_block t block in
    if block_size (options t) <=? BlockBuilder.CurrentSizeEstimate block then FlushBlock t else Ok t.

(** [filter.] and the name of the policy. *)
Definition filter_key (name : bytes) : bytes := [102; 105; 108; 116; 101; 114; 46] ++ name.

(** The parts of [Finish], each with the handle of what it has written. *)
Definition write_filter_block (t : TableBuilder) : res (BlockHandle * TableBuilder) :=
  match filter_policy, filter_block t with
  | Some (policy, _), Some b =>
      if ok (status t) then
        contents ← FilterBlock.Finish (policy_ := policy) b;
        WriteRawBlock contents kNoCompression t
      else Ok (BlockHandle_new, t)
  | _, _ => Ok (BlockHandle_new, t)
  end.

Definition metaindex_block (filter_handle : BlockHandle) (t : TableBuilder) : res BlockBuilder.BlockBuilder :=
  meta ← BlockBuilder.new (block_restart_interval (options t));
  match filter_policy, filter_block t with
  | Some (_, name), Some _ =>
      handle_encoding ← EncodeTo filter_handle [];
      BlockBuilder.Add (block_restart_interval (options t)) meta (filter_key name) handle_encoding
  | _, _ => Ok meta
  end.

Definition write_metaindex_block (filter_handle : BlockHandle) (t : TableBuilder) : res (BlockHandle * TableBuilder) :=
  if ok (status t) then
    meta ← metaindex_block filter_handle t;
    '(handle, t, _) ← WriteBlock meta t;
    Ok (handle, t)
  else Ok (BlockHandle_new, t).

Definition last_index_entry (t : TableBuilder) : res TableBuilder :=
  if pending_index_entry t then
    k ← FindShortSuccessor (last_key t);
    add_index_entry t k
  else Ok t.

Definition write_index_block (t : TableBuilder) : res (BlockHandle * TableBuilder) :=
  if ok (status t) then
    t ← last_index_entry t;
    '(handle, t, block) ← WriteBlock (index_block t) t;
    Ok (handle, set_index_block t block)
  else Ok (BlockHandle_new, t).

Definition write_footer (metaindex_handle index_handle : BlockHandle) (t : TableBuilder) : res TableBuilder :=
  if ok (status t) then
    footer_encoding ← Footer_EncodeTo (mkFooter metaindex_handle index_handle) [];
    let '(s, f) := LdbLog.Append footer_encoding (file t) in
    let off := if ok s then u64 (offset t + Slice.size footer_encoding) else offset t in
    Ok (set_output t f off s)
  else Ok t.

Definition Finish (t : TableBuilder) : res (Status * TableBuilder) :=
  t ← FlushBlock t;
  SkipList.assert_ (negb (closed t));;
  let t := set_closed t in
  '(filter_handle, t) ← write_filter_block t;
  '(metaindex_handle, t) ← write_metaindex_block filter_handle t;
  '(index_handle, t) ← write_index_block t;
  t ← write_footer metaindex_handle index_handle t;
  Ok (status t, t).

Definition Abandon (t : TableBuilder) : res TableBuilder :=
  SkipList.assert_ (negb (closed t));; Ok (set_closed t).
Definition NumEntries (t : TableBuilder) : Z := num_entries t.
Definition FileSize (t : TableBuilder) : Z := offset t.
End table_builder.
Arguments TableBuilder : clear implicits.
End TableBuilder.

(** * LevelDB's tables ([table/table *)
Import Status Format.

(** The cache of blocks, which is shared and changes under lookups: what tables use of
    [include/leveldb/cache.h]. The charge of an entry is its size; a handle is released
    when the iterator that uses the block is destroyed, which is not modelled. *)
Class BlockCache (K : Type) := {
  NewId : K → Z * K;
  CacheLookup : bytes → K → option Block.Block * K;
  CacheInsert : bytes → Block.Block → Z → K → K
}.

Module Table.
Section table.
Context (address : bytes → Z) {F : Type} `{RandomAccessFile F} {K : Type} `{BlockCache K}.
Context {comparator : SliceComparator} (filter_policy : NamedPolicy) (fuel : nat).

(** [Rep], with the cache that the options name. *)
Record Table := mkTable {
  options : Options; block_cache : option K; file : F; cache_id : Z;
  filter : option FilterBlock.FilterBlockReader;
  metaindex_handle : BlockHandle; index_block : Block.Block
}.

Definition set_filter (t : Table) (f : FilterBlock.FilterBlockReader) : Table :=
  mkTable (options t) (block_cache t) (file t) (cache_id t) (Some f) (metaindex_handle t) (index_block t).
Definition set_cache (t : Table) (c : option K) : Table :=
  mkTable (options t) c (file t) (cache_id t) (filter t) (metaindex_handle t) (index_block t).

Definition ReadFilter (filter_handle_value : bytes) (t : Table) : res Table :=
  '(s, filter_handle, _) ← DecodeFrom BlockHandle_new filter_handle_value;
  if negb (ok s) then Ok t
  else
    '(s, block) ← ReadBlock address (file t) (paranoid_checks (options t)) filter_handle;
    if negb (ok s) then Ok t
    else r ← FilterBlock.Reader_new (data block); Ok (set_filter t r).

(** The iterators over the metaindex block. *)
Definition meta_iterator : Iterator (EmptyIterator + Block.Iter) :=
  sum_iterator (H0 := Block.block_iter (comparator_ := Bytewise.BytewiseComparator)).

Definition ReadMeta (footer : Footer) (t : Table) : res Table :=
  match filter_policy with
  | None => Ok t
  | Some (_, name) =>
      '(s, contents) ← ReadBlock address (file t) (paranoid_checks (options t)) (metaindex_handle_ footer);
      if negb (ok s) then Ok t
      else
        meta ← Block.new (data contents);
        iter ← Block.NewIterator meta;
        iter ← Seek (Iterator := meta_iterator) (TableBuilder.filter_key name) iter;
        if Valid (Iterator := meta_iterator) iter then
          k ← key (Iterator := meta_iterator) iter;
          same ← Slice.eqb k (TableBuilder.filter_key name);
          if same : bool then v ← value (Iterator := meta_iterator) iter; ReadFilter v t else Ok t
        else Ok t
  end.

(** [*table] is NULL when it is not opened. *)
Definition Open (o : Options) (cache : option K) (f : F) (size : Z) : res (Status * option Table) :=
  if size <? kEncodedLength then Ok (Corruption "file is too short to be an sstable", None)
  else
    let '(s, footer_input, _) := pread (size - kEncodedLength) kEncodedLength f in
    if negb (ok s) then Ok (s, None)
    else
      '(s, footer, _) ← Footer_DecodeFrom Footer_new footer_input;
      if negb (ok s) then Ok (s, None)
      else
        '(s, contents) ← ReadBlock address f (paranoid_checks o) (index_handle_ footer);
        if negb (ok s) then Ok (s, None)
        else
          index ← Block.new (data contents);
          let '(id, cache) := match cache with Some c => let '(id, c) := NewId c in (id, Some c) | None => (0, None) end in
          t ← ReadMeta footer (mkTable o cache f id None (metaindex_handle_ footer) index);
          Ok (s, Some t).

(** [ReadOptions] *)
Record ReadOptions := mkRead { verify_checksums : bool; fill_cache : bool }.

Definition cache_key (t : Table) (off : Z) : bytes :=
  Coding.EncodeFixed64 (cache_id t) ++ Coding.EncodeFixed64 off.

(** The block, if there is one, with the status and the table whose cache has changed. *)
Definition find_block (o : ReadOptions) (h : BlockHandle) (t : Table) : res (Status * option Block.Block * Table) :=
  let from_file :=
    '(s, contents) ← ReadBlock address (file t) (verify_checksums o) h;
    if ok s then block ← Block.new (data contents); Ok (s, Some block, cachable contents)
    else Ok (s, None, false) in
  match block_cache t with
  | Some c =>
      let k := cache_key t (offset_ h) in
      let '(r, c) := CacheLookup k c in
      match r with
      | Some block => Ok (OK, Some block, set_cache t (Some c))
      | None =>
          '(s, block, cachable) ← from_file;
          let c := match block with
                   | Some b => if cachable && fill_cache o then CacheInsert k b (Block.size_ b) c else c
                   | None => c
                   end in
          Ok (s, block, set_cache t (Some c))
      end
  | None => '(s, block, _) ← from_file; Ok (s, block, t)
  end.

Definition BlockReader (o : ReadOptions) (t : Table) (index_value : bytes) : res ((EmptyIterator + Block.Iter) * Table) :=
  '(s, handle, _) ← DecodeFrom BlockHandle_new index_value;
  '(s, block, t) ← (if ok s then find_block o handle t else Ok (s, None, t));
  match block with
  | Some block => iter ← Block.NewIterator block; Ok (iter, t)
  | None => Ok (inl (NewErrorIterator s), t)
  end.

(** The iterators over blocks, with the comparator of the options. *)
#[local] Instance data_iterator : Iterator (EmptyIterator + Block.Iter) :=
  sum_iterator (H0 := Block.block_iter (comparator_ := comparator)).

Definition TableIterator : Type := TwoLevel.TwoLevelIterator (EmptyIterator + Block.Iter) (EmptyIterator + Block.Iter) Table.
Definition NewIterator (o : ReadOptions) (t : Table) : res TableIterator :=
  index_iter ← Block.NewIterator (index_block t);
  TwoLevel.NewTwoLevelIterator index_iter t.
Definition table_iterator (o : ReadOptions) : Iterator TableIterator :=
  TwoLevel.two_level_iterator (BlockReader o) fuel.

(** [saver] is called at most once: with the entry that is returned. *)
Definition InternalGet (o : ReadOptions) (k : bytes) (t : Table) : res (Status * option (bytes * bytes) * Table) :=
  iiter ← Block.NewIterator (index_block t);
  iiter ← Seek k iiter;
  if Valid iiter then
    handle_value ← value iiter;
    excluded ← match filter t, filter_policy with
               | Some filter, Some (policy, _) =>
                   '(s, handle, _) ← DecodeFrom BlockHandle_new handle_value;
                   if ok s then
                     b ← FilterBlock.KeyMayMatch (policy_ := policy) filter (offset_ handle) k;
                     Ok (negb b)
                   else Ok false
               | _, _ => Ok false
               end;
    if excluded : bool then Ok (status iiter, None, t)
    else
      '(block_iter, t) ← BlockReader o t handle_value;
      block_iter ← Seek k block_iter;
      saved ← (if Valid block_iter then k ← key block_iter; v ← value block_iter; Ok (Some (k, v)) else Ok None);
      let s := status block_iter in
      Ok (if ok s then status iiter else s, saved, t)
  else Ok (status iiter, None, t).

Definition ApproximateOffsetOf (k : bytes) (t : Table) : res Z :=
  index_iter ← Block.NewIterator (index_block t);
  index_iter ← Seek k index_iter;
  if Valid index_iter then
    input ← value index_iter;
    '(s, handle, _) ← DecodeFrom BlockHandle_new input;
    Ok (if ok s then offset_ handle else offset_ (metaindex_handle t))
  else Ok (offset_ (metaindex_handle t)).
End table.
Arguments Table : clear implicits.
Arguments TableIterator : clear implicits.
End Table.
