(* ===== verification/LdbTableFileProps.v ===== *)
(** Handles, footers and stored blocks: what was written is read back.

    What the table builder writes, on a file that may refuse to write.

    The state of the table builder while entries are added, and the file that it leaves. *)
From Stdlib Require Import Sorting.Sorted.
From stdpp Require Import sorting.
From S2P Require Import Prelude PbVarint LdbSkip LdbSkipLemmas LdbFormat LdbCodingProps LdbOrder LdbCrc LdbCrcProps LdbLog LdbFilter LdbFilterProps LdbIterator LdbBlock LdbBlockProps LdbTwoLevelProps LdbTable.
Import Format.

(** * Files with contents

    A read of bytes that are there returns them. *)
Class FileContents (F : Type) `{RandomAccessFile F} (contents : F → bytes) : Prop := {
  pread_contents f off n :
    0 <= off → 0 <= n → off + n <= Slice.size (contents f) →
    ∃ in_buf, pread off n f = (Status.OK, take (Z.to_nat n) (drop (Z.to_nat off) (contents f)), in_buf)
}.

(** A file in memory; it returns what there is. *)
#[export] Instance mem_random : RandomAccessFile bytes := {|
  pread off n f :=
    (Status.OK, take (Z.to_nat (Z.min n (Slice.size f))) (drop (Z.to_nat (Z.min off (Slice.size f))) f), true)
|}.
#[export] Instance mem_contents : FileContents bytes id.
Proof.
  split. intros f off n Ho Hn Hs. exists true. cbn. unfold id in *. by rewrite !Z.min_l by lia.
Qed.

(** * Handles *)

Lemma varint_are_bytes v : 0 <= v < 2 ^ 64 → Forall is_byte (varint v).
Proof.
  intros Hv. pose proof (varint_is_varint v Hv) as H. induction H; constructor; unfold is_byte; try lia; done.
Qed.

Record handle_ok (h : BlockHandle) : Prop := {
  handle_offset : 0 <= offset_ h < unset;
  handle_size : 0 <= size_ h < unset
}.

Definition handle_bytes (h : BlockHandle) : bytes := varint (offset_ h) ++ varint (size_ h).

Lemma handle_are_bytes h : handle_ok h → Forall is_byte (handle_bytes h).
Proof.
  intros [H1 H2]. unfold unset in *. apply List.Forall_app. split; apply varint_are_bytes; lia.
Qed.

Lemma EncodeTo_ok h dst : handle_ok h → EncodeTo h dst = Ok (dst ++ handle_bytes h).
Proof.
  intros [H1 H2]. unfold EncodeTo, Coding.PutVarint64, handle_bytes.
  rewrite !(proj2 (Z.eqb_neq _ _)) by lia. cbn [negb SkipList.assert_]. unfold unset, mbind, res_bind in *.
  rewrite !EncodeVarint64_varint by lia. by rewrite app_assoc.
Qed.

Lemma DecodeFrom_ok h h0 rest :
  handle_ok h → Forall is_byte rest → DecodeFrom h0 (handle_bytes h ++ rest) = Ok (Status.OK, h, rest).
Proof.
  intros Hh Hr. pose proof (handle_are_bytes h Hh) as Hb. destruct Hh as [H1 H2]. unfold unset in *.
  unfold DecodeFrom, handle_bytes in *. apply List.Forall_app in Hb as [Hb1 Hb2].
  assert (∀ v, (length (varint v) <= 10)%nat) as Hl by (intros v; apply varint_length).
  rewrite <- app_assoc, GetVarint64_ok by (rewrite !List.Forall_app; done).
  rewrite parse_varint_varint by (apply Hl || lia). unfold mbind, res_bind.
  rewrite GetVarint64_ok by (by rewrite List.Forall_app).
  rewrite parse_varint_varint by (apply Hl || lia). by destruct h.
Qed.

Lemma handle_inj h h' : handle_ok h → handle_ok h' → handle_bytes h = handle_bytes h' → h = h'.
Proof.
  intros Hh Hh' E. pose proof (DecodeFrom_ok h BlockHandle_new [] Hh (list.Forall_nil_2 _)) as E1.
  rewrite E in E1. rewrite (DecodeFrom_ok h' _ [] Hh') in E1 by done. by injection E1.
Qed.

Lemma handle_bytes_length h : (2 <= length (handle_bytes h) <= 20)%nat.
Proof.
  unfold handle_bytes. rewrite length_app. pose proof (varint_length (offset_ h)). pose proof (varint_length (size_ h)). lia.
Qed.

(** * The footer *)

Definition magic_bytes : bytes := [0x57; 0xfb; 0x80; 0x8b; 0x24; 0x75; 0x47; 0xdb].

Definition footer_handles (f : Footer) : bytes := handle_bytes (metaindex_handle_ f) ++ handle_bytes (index_handle_ f).
Definition footer_bytes (f : Footer) : bytes :=
  footer_handles f ++ replicate (40 - length (footer_handles f)) 0 ++ magic_bytes.

Lemma footer_handles_length f : (length (footer_handles f) <= 40)%nat.
Proof.
  unfold footer_handles. rewrite length_app. pose proof (handle_bytes_length (metaindex_handle_ f)).
  pose proof (handle_bytes_length (index_handle_ f)). lia.
Qed.

Lemma footer_length f : length (footer_bytes f) = 48%nat.
Proof.
  pose proof (footer_handles_length f). unfold footer_bytes. rewrite !length_app, length_replicate.
  change (length magic_bytes) with 8%nat. lia.
Qed.

Lemma Footer_EncodeTo_ok f : handle_ok (metaindex_handle_ f) → handle_ok (index_handle_ f) →
  Footer_EncodeTo f [] = Ok (footer_bytes f).
Proof.
  intros Hm Hi. unfold Footer_EncodeTo. rewrite EncodeTo_ok by done. unfold mbind, res_bind.
  rewrite EncodeTo_ok by done. cbn [app]. fold (footer_handles f). pose proof (footer_handles_length f) as Hl.
  assert (Coding.PutFixed32 (Coding.PutFixed32 (resize (Z.to_nat (2 * kMaxEncodedLength)) (footer_handles f))
    (u32 (Z.land kTableMagicNumber 0xffffffff))) (u32 (Z.shiftr kTableMagicNumber 32)) = footer_bytes f) as ->.
  { unfold Coding.PutFixed32, resize, footer_bytes. change (Z.to_nat (2 * kMaxEncodedLength)) with 40%nat.
    rewrite take_ge by lia. by rewrite <- !app_assoc. }
  unfold Slice.size. rewrite footer_length. cbn. done.
Qed.

Lemma Footer_DecodeFrom_ok f f0 : handle_ok (metaindex_handle_ f) → handle_ok (index_handle_ f) →
  Footer_DecodeFrom f0 (footer_bytes f) = Ok (Status.OK, f, []).
Proof.
  intros Hm Hi. pose proof (footer_handles_length f) as Hl. unfold Footer_DecodeFrom.
  assert (drop (Z.to_nat (kEncodedLength - 8)) (footer_bytes f) = magic_bytes) as ->.
  { unfold footer_bytes. rewrite app_assoc. apply drop_app_length'. rewrite length_app, length_replicate.
    change (Z.to_nat (kEncodedLength - 8)) with 40%nat. lia. }
  assert (Coding.DecodeFixed32 magic_bytes = Ok 0x8b80fb57 ∧ Coding.DecodeFixed32 (drop 4 magic_bytes) = Ok 0xdb477524) as [-> ->] by done.
  unfold mbind, res_bind. change (Z.lor (u64 (Z.shiftl 0xdb477524 32)) 0x8b80fb57 =? kTableMagicNumber) with true.
  cbn [negb]. assert (∀ n, Forall is_byte (replicate n 0 ++ magic_bytes)) as Hrest.
  { intros n. apply List.Forall_app. split; [|repeat constructor; unfold is_byte; lia].
    apply Forall_replicate. unfold is_byte. lia. }
  unfold footer_bytes, footer_handles. rewrite <- app_assoc, DecodeFrom_ok;
    [|done|apply List.Forall_app; split; [by apply handle_are_bytes|apply Hrest]].
  cbn [Status.ok negb]. rewrite DecodeFrom_ok by (done || apply Hrest). by destruct f.
Qed.

(** * Blocks in a file *)

Definition stored (contents : bytes) : bytes :=
  contents ++ [0] ++ le_bytes 4 (Crc32c.Mask (crc32c 0 (contents ++ [0]))).

Lemma stored_length contents : Slice.size (stored contents) = Slice.size contents + 5.
Proof. unfold stored, Slice.size. rewrite !length_app, length_le_bytes. cbn. lia. Qed.

Lemma stored_are_bytes contents : Forall is_byte contents → Forall is_byte (stored contents).
Proof.
  intros H. unfold stored. rewrite !List.Forall_app. split; [done|].
  split; [by repeat constructor|apply le_bytes_are_bytes].
Qed.

Section read.
Context (address : bytes → Z) (Haddr : ∀ b, 0 <= address b) {F : Type} `{FileContents F contents}.

Lemma ReadBlock_ok f verify h before data after :
  contents f = before ++ stored data ++ after → Forall is_byte data →
  offset_ h = Slice.size before → size_ h = Slice.size data → Slice.size (contents f) < 2 ^ 64 →
  ∃ c, ReadBlock address f verify h = Ok (Status.OK, c) ∧ Format.data c = data.
Proof.
  intros Ec Hb Eo Es Hsz. unfold ReadBlock. rewrite Eo, Es. pose proof (stored_length data) as Ls.
  assert (Slice.size (contents f) = Slice.size before + Slice.size (stored data) + Slice.size after) as Lc
    by (rewrite Ec; unfold Slice.size; rewrite !length_app; lia).
  assert (0 <= Slice.size before ∧ 0 <= Slice.size data ∧ 0 <= Slice.size after) as (P1 & P2 & P3) by (unfold Slice.size; lia).
  unfold kBlockTrailerSize. rewrite u64_small by lia.
  destruct (pread_contents f (Slice.size before) (Slice.size data + 5)) as (in_buf & ->); [lia..|].
  assert (take (Z.to_nat (Slice.size data + 5)) (drop (Z.to_nat (Slice.size before)) (contents f)) = stored data) as ->.
  { rewrite Ec. rewrite drop_app_length' by (unfold Slice.size; lia). apply take_app_length'. unfold Slice.size in *. lia. }
  cbn [Status.ok negb]. rewrite Ls, Z.eqb_refl. cbn [negb].
  assert (prefix (stored data) (Slice.size data) = Ok data) as Ep.
  { unfold prefix. rewrite (proj2 (Z.leb_le _ _)) by lia. f_equal. unfold stored. apply take_app_length'. unfold Slice.size. lia. }
  assert (stored data !! Z.to_nat (Slice.size data) = Some 0) as Et.
  { unfold stored. apply list_lookup_middle. unfold Slice.size. lia. }
  assert (Forall is_byte (data ++ [0])) as Hb0 by (apply List.Forall_app; split; [done|by repeat constructor]).
  pose proof (crc32c_range 0 (data ++ [0]) ltac:(lia) Hb0) as Hcr. destruct (Unmask_Mask _ Hcr) as [Hu Hm].
  assert ((if verify then
      crc ← suffix (stored data) (Slice.size data + 1); w ← Coding.DecodeFixed32 crc;
      checked ← prefix (stored data) (u64 (Slice.size data + 1));
      actual ← Crc32c.Value (address checked) checked; Ok (negb (actual =? Crc32c.Unmask w)) else Ok false) = Ok false) as Ev.
  { destruct verify; [|done]. unfold suffix, prefix. rewrite u64_small by lia. rewrite !(proj2 (Z.leb_le _ _)) by lia.
    unfold mbind, res_bind, stored. rewrite app_assoc.
    assert (Z.to_nat (Slice.size data + 1) = length (data ++ [0])) as -> by (unfold Slice.size; rewrite length_app; cbn; lia).
    rewrite drop_app_length, take_app_length.
    rewrite <- (app_nil_r (le_bytes 4 _)), DecodeFixed32_word by done. unfold Crc32c.Value.
    rewrite Extend_ok by (done || apply Haddr). by rewrite Hu, Z.eqb_refl. }
  unfold mbind, res_bind in Ev |- *. rewrite Ev, Ep, Et. cbn [of_option].
  change (s8 0 =? compression_code kNoCompression) with true. cbv iota. destruct in_buf; by eexists.
Qed.
End read.

(** * What the table builder writes, on a file that may refuse to write *)
Import Format TableBuilder.

(** * Files

    An operation succeeds, or the file has refused it; it holds less than 4 GiB. *)
Class Device (F : Type) `{WritableFile F} (written : F → bytes) (refused : F → Prop) : Prop := {
  device_append data f : ∃ s f', Append data f = (s, f') ∧
    (s = Status.OK ∧ written f' = written f ++ data ∧ Slice.size (written f') < 2 ^ 32 ∨
     s ≠ Status.OK ∧ refused f');
  device_flush f : ∃ s f', Flush f = (s, f') ∧
    (s = Status.OK ∧ written f' = written f ∨ s ≠ Status.OK ∧ refused f')
}.

Lemma ok_iff s : Status.ok s = true ↔ s = Status.OK.
Proof. by destruct s. Qed.
Lemma ok_false s : Status.ok s = false ↔ s ≠ Status.OK.
Proof. by destruct s. Qed.

(** * Blocks *)

Definition dblk : Type := list item * list nat.
Definition contents_of (d : dblk) : bytes := block_of d.1 d.2.
Definition ents_of (d : dblk) : entries := item_entry <$> d.1.

(** The blocks in the file, and the handles of blocks that start at [o]. *)
Definition file_of (ds : list dblk) : bytes := concat ((λ d, stored (contents_of d)) <$> ds).
Fixpoint handles (o : Z) (ds : list dblk) : list BlockHandle :=
  match ds with
  | [] => []
  | d :: ds => mkHandle o (Slice.size (contents_of d)) :: handles (o + Slice.size (stored (contents_of d))) ds
  end.
(** Their offsets and keys. *)
Fixpoint block_keys (o : Z) (ds : list dblk) : list (Z * list bytes) :=
  match ds with
  | [] => []
  | d :: ds => (o, (ents_of d).*1) :: block_keys (o + Slice.size (stored (contents_of d))) ds
  end.

Lemma size_app a b : Slice.size (a ++ b) = Slice.size a + Slice.size b.
Proof. unfold Slice.size. rewrite length_app. lia. Qed.
Lemma size_nonneg a : 0 <= Slice.size a.
Proof. unfold Slice.size. lia. Qed.

Lemma file_of_app a b : file_of (a ++ b) = file_of a ++ file_of b.
Proof. unfold file_of. by rewrite fmap_app, concat_app. Qed.
Lemma file_of_one d : file_of [d] = stored (contents_of d).
Proof. unfold file_of. cbn. by rewrite app_nil_r. Qed.

Lemma handles_snoc ds d : ∀ o, handles o (ds ++ [d]) =
  handles o ds ++ [mkHandle (o + Slice.size (file_of ds)) (Slice.size (contents_of d))].
Proof.
  induction ds as [|x ds IH]; intros o; cbn [app handles].
  - by rewrite Z.add_0_r.
  - rewrite IH. do 4 f_equal. change (file_of (x :: ds)) with (stored (contents_of x) ++ file_of ds). rewrite size_app. lia.
Qed.

Lemma block_keys_snoc ds d : ∀ o, block_keys o (ds ++ [d]) =
  block_keys o ds ++ [(o + Slice.size (file_of ds), (ents_of d).*1)].
Proof.
  induction ds as [|x ds IH]; intros o; cbn [app block_keys].
  - by rewrite Z.add_0_r.
  - rewrite IH. do 4 f_equal. change (file_of (x :: ds)) with (stored (contents_of x) ++ file_of ds). rewrite size_app. lia.
Qed.

Lemma length_handles ds : ∀ o, length (handles o ds) = length ds.
Proof. induction ds as [|d ds IH]; intros o; cbn; [done|]. by rewrite IH. Qed.

Lemma handles_lookup ds : ∀ o j h, handles o ds !! j = Some h →
  ∃ d, ds !! j = Some d ∧ h = mkHandle (o + Slice.size (file_of (take j ds))) (Slice.size (contents_of d)).
Proof.
  induction ds as [|d ds IH]; intros o j h; [done|]. destruct j as [|j]; cbn [handles lookup list_lookup].
  - intros [= <-]. exists d. split; [done|]. by rewrite Z.add_0_r.
  - intros Hj. destruct (IH _ _ _ Hj) as (d' & Hd & ->). exists d'. split; [done|]. f_equal. cbn [take].
    change (file_of (d :: take j ds)) with (stored (contents_of d) ++ file_of (take j ds)). rewrite size_app. lia.
Qed.

Lemma file_of_at ds j d : ds !! j = Some d →
  file_of ds = file_of (take j ds) ++ stored (contents_of d) ++ file_of (drop (S j) ds).
Proof.
  intros Hd. rewrite <- (take_drop_middle _ _ _ Hd) at 1.
  rewrite file_of_app. change (d :: drop (S j) ds) with ([d] ++ drop (S j) ds).
  by rewrite file_of_app, file_of_one.
Qed.

Lemma file_of_take_le ds j : Slice.size (file_of (take j ds)) <= Slice.size (file_of ds).
Proof.
  rewrite <- (take_drop j ds) at 2. rewrite file_of_app, size_app. pose proof (size_nonneg (file_of (drop j ds))). lia.
Qed.

Lemma handles_ok ds j h : Slice.size (file_of ds) < 2 ^ 32 → handles 0 ds !! j = Some h → handle_ok h.
Proof.
  intros Hs Hh. destruct (handles_lookup ds 0 j h Hh) as (d & Hd & ->).
  pose proof (file_of_at ds j d Hd) as E. apply (f_equal Slice.size) in E. rewrite !size_app, stored_length in E.
  pose proof (size_nonneg (file_of (take j ds))). pose proof (size_nonneg (contents_of d)).
  pose proof (size_nonneg (file_of (drop (S j) ds))). split; cbn; unfold unset; lia.
Qed.

(** Blocks of one table start at different places. *)
Lemma handles_inj ds j j' h h' : handles 0 ds !! j = Some h → handles 0 ds !! j' = Some h' → offset_ h = offset_ h' → j = j'.
Proof.
  assert (∀ a b g g', (a < b)%nat → handles 0 ds !! a = Some g → handles 0 ds !! b = Some g' → offset_ g = offset_ g' → False) as Hlt.
  { intros a b g g' L Ha Hb Eo. destruct (handles_lookup ds 0 a g Ha) as (d & Hd & ->).
    destruct (handles_lookup ds 0 b g' Hb) as (d' & Hd' & ->). cbn [offset_] in Eo.
    assert (take b ds = take a ds ++ [d] ++ drop (S a) (take b ds)) as E.
    { assert (take b ds !! a = Some d) as Hd2 by by rewrite lookup_take_lt.
      pose proof (take_drop_middle _ _ _ Hd2) as E. rewrite take_take, Nat.min_l in E by lia. by rewrite <- E at 1. }
    rewrite E, !file_of_app, !size_app, file_of_one, stored_length in Eo.
    pose proof (size_nonneg (contents_of d)). pose proof (size_nonneg (file_of (drop (S a) (take b ds)))). lia. }
  intros Ha Hb Eo. destruct (Nat.lt_trichotomy j j') as [L|[|L]]; [|done|]; exfalso; eauto.
Qed.

(** * Bytes *)

Lemma words_are_bytes l : Forall is_byte (words l).
Proof.
  unfold words. induction l as [|w l IH]; [done|]. rewrite fmap_cons. cbn [concat].
  apply List.Forall_app. split; [apply le_bytes_are_bytes|done].
Qed.

Lemma body_are_bytes l : Forall item_bytes l → Forall is_byte (body l).
Proof.
  induction 1 as [|e l [Hk Hv] Hl IH]; [done|]. rewrite body_cons. apply List.Forall_app. split; [|done].
  unfold encode_item, i_header, i_delta. rewrite !List.Forall_app.
  assert (∀ z, Forall is_byte (varint (u32 z))) as Hu.
  { intros z. apply varint_are_bytes. pose proof (u32_range z). unfold u32 in *. lia. }
  split_and!; try apply Hu; [by apply Forall_drop|done].
Qed.

Lemma block_are_bytes l rs : Forall item_bytes l → Forall is_byte (block_of l rs).
Proof.
  intros Hl. unfold block_of. rewrite !List.Forall_app.
  split_and!; [by apply body_are_bytes|apply words_are_bytes|apply le_bytes_are_bytes].
Qed.

Lemma Finish_are_bytes interval b l rs : building interval b l rs → Forall is_byte (BlockBuilder.Finish b).1.
Proof.
  intros [H1 _ _ _ _ _ _ _ H8]. unfold BlockBuilder.Finish. cbn [fst]. rewrite fold_PutFixed32, H1.
  unfold Coding.PutFixed32, Coding.EncodeFixed32. rewrite !List.Forall_app.
  split_and!; [by apply body_are_bytes|apply words_are_bytes|apply le_bytes_are_bytes].
Qed.

(** * The filter block *)

Lemma Reader_base contents r : FilterBlock.Reader_new contents = Ok r →
  list.last contents = Some FilterBlock.kFilterBaseLg → FilterBlock.base_lg_ r < 64.
Proof.
  unfold FilterBlock.Reader_new. intros E (l & ->)%list.last_Some. destruct (_ <? 5) eqn:El; [by injection E as <-|].
  rewrite list_lookup_middle in E by (unfold Slice.size; rewrite length_app; cbn; lia). cbn [of_option] in E.
  unfold mbind, res_bind in E. destruct (Coding.DecodeFixed32 _) as [w| |]; [|done..].
  destruct (_ <? w); by injection E as <-.
Qed.

Section filter.
Context (pol : NamedPolicy) (fdom : bytes → Prop) (all : list bytes).
Context (Hpol : match pol with
  | Some (P, _) => FilterLaws P fdom ∧ ready fdom all
  | None => True
  end).

Lemma pol_cases : pol = None ∨ ∃ P name, pol = Some (P, name).
Proof. destruct pol as [[P name]|]; [right; by eexists _, _|by left]. Qed.

(** The builder has been given the blocks. *)
Definition filter_ok (fb : option FilterBlock.FilterBlockBuilder) (blocks : list (Z * list bytes)) : Prop :=
  match pol with
  | Some (P, _) => ∃ b, fb = Some b ∧ add_blocks P FilterBlock.Builder_new blocks = Ok b
  | None => fb = None
  end.

Definition blocks_fit (blocks : list (Z * list bytes)) : Prop :=
  StronglySorted Z.le (blocks.*1) ∧ Forall (λ bl, 0 <= bl.1) blocks ∧ ∃ rest, all = concat (blocks.*2) ++ rest.

Lemma add_blocks_snoc P blocks off keys : ∀ b,
  add_blocks P b (blocks ++ [(off, keys)]) =
  (b ← add_blocks P b blocks; b ← FilterBlock.StartBlock (policy_ := P) b off; Ok (fold_left FilterBlock.AddKey keys b)).
Proof.
  induction blocks as [|[o ks] blocks IH]; intros b; cbn [app add_blocks].
  - done.
  - unfold mbind, res_bind. destruct (FilterBlock.StartBlock b o); [|done..]. apply IH.
Qed.

Lemma holds_blocks P name blocks : pol = Some (P, name) → blocks_fit blocks →
  ∃ b gs pending, add_blocks P FilterBlock.Builder_new blocks = Ok b ∧ holds P b gs pending ∧
    ready fdom pending ∧ ∀ off keys key, (off, keys) ∈ blocks → key ∈ keys → recorded gs pending (Z.to_nat (off / 2048)) key.
Proof.
  intros Ep (Hs & Ho & rest & Er). rewrite Ep in Hpol. destruct Hpol as [HL Hr]. rewrite Er in Hr.
  destruct (ready_app _ _ _ Hr) as [Hr' _].
  destruct (holds_add_blocks P fdom HL blocks FilterBlock.Builder_new [] [] (builder_holds_new P)) as
    (b & gs & pending & E & Hb & Hrp & _ & Hrec); [done| |done|by exists b, gs, pending].
  eapply list.Forall_impl; [exact Ho|]. intros [off keys] H. cbn in *. by apply Z.div_pos.
Qed.

Lemma filter_start fb blocks off : filter_ok fb blocks → blocks_fit (blocks ++ [(off, [])]) →
  ∃ fb', (match pol with
    | Some (P, _) => match fb with Some b => b ← FilterBlock.StartBlock (policy_ := P) b off; Ok (Some b) | None => Ok None end
    | None => Ok fb end) = Ok fb' ∧ filter_ok fb' (blocks ++ [(off, [])]).
Proof.
  unfold filter_ok. intros Hf Hfit. destruct pol_cases as [Ep|(P & name & Ep)]; rewrite Ep in Hf |- *;
    [by exists None; rewrite Hf|].
  destruct Hf as (b & -> & E). destruct (holds_blocks P name _ Ep Hfit) as (b' & _ & _ & E' & _).
  pose proof (add_blocks_snoc P blocks off [] FilterBlock.Builder_new) as Es. rewrite E' in Es.
  unfold mbind, res_bind in *. rewrite E in Es. destruct (FilterBlock.StartBlock b off) as [b''| |] eqn:Eb; try done.
  injection Es as ->. exists (Some b''). split; [done|]. by exists b''.
Qed.

Lemma filter_key_added fb blocks off keys key : filter_ok fb (blocks ++ [(off, keys)]) →
  ∃ fb', (match fb with Some b => Ok (Some (FilterBlock.AddKey b key)) | None => Ok None end) = Ok fb' ∧
    filter_ok fb' (blocks ++ [(off, keys ++ [key])]).
Proof.
  unfold filter_ok. intros Hf. destruct pol as [[P name]|]; [|by exists None; rewrite Hf].
  destruct Hf as (b & -> & E). eexists. split; [done|]. eexists. split; [done|].
  rewrite add_blocks_snoc in E |- *. unfold mbind, res_bind in *.
  destruct (add_blocks P FilterBlock.Builder_new blocks) as [b1| |]; try done.
  destruct (FilterBlock.StartBlock b1 off) as [b2| |]; try done. injection E as <-. by rewrite fold_left_app.
Qed.

(** The finished filter block answers yes for each key at its block's offset. *)
Lemma filter_finish P name fb blocks : pol = Some (P, name) → filter_ok fb blocks → blocks_fit blocks →
  ∃ b contents, fb = Some b ∧ FilterBlock.Finish (policy_ := P) b = Ok contents ∧ Forall is_byte contents ∧
    (Slice.size contents < 2 ^ 32 → ∃ r, FilterBlock.Reader_new contents = Ok r ∧
      FilterBlock.base_lg_ r < 64 ∧ ∀ off keys key, (off, keys) ∈ blocks → key ∈ keys → FilterBlock.KeyMayMatch (policy_ := P) r off key = Ok true).
Proof.
  intros Ep Hf Hfit. pose proof (holds_blocks P name blocks Ep Hfit) as (b & gs & pending & E & Hb & Hr & Hrec).
  unfold filter_ok in Hf. rewrite Ep in Hf. destruct Hf as (b' & -> & E'). rewrite E in E'. injection E' as <-.
  rewrite Ep in Hpol. destruct Hpol as [HL _].
  destruct (Finish_ok P fdom HL b gs pending Hb Hr) as (gs' & Ef & Hg & Hin).
  assert (Forall is_byte (concat (gs'.*2) ++ words (u32 <$> starts 0 (gs'.*2 ++ [[]])) ++ [FilterBlock.kFilterBaseLg])) as Hbytes.
  { rewrite !List.Forall_app. split_and!; [|apply words_are_bytes|by repeat constructor].
    apply Forall_concat, list.Forall_fmap. eapply list.Forall_impl; [exact Hg|]. by intros g [? _]. }
  eexists b, _. split; [done|]. split; [exact Ef|]. split; [exact Hbytes|].
  intros Hsize. destruct (Reader_new_any _ Hbytes) as (r & Er & _). exists r. split; [exact Er|].
  split; [apply (Reader_base _ _ Er); by rewrite app_assoc, last_snoc|].
  intros off keys key Hbl Hk. destruct (Hin _ _ (Hrec off keys key Hbl Hk)) as (g & Hgi & Hkg).
  destruct Hfit as (_ & Ho & _). rewrite list.Forall_forall in Ho. pose proof (Ho _ Hbl) as Hoff. cbn in Hoff.
  destruct (KeyMayMatch_found P gs' (Z.to_nat (off / 2048)) g off key Hsize Hoff Hgi) as (r' & Er' & E2).
  { rewrite Z2Nat.id; [done|]. by apply Z.div_pos. }
  rewrite Er in Er'. injection Er' as <-. rewrite E2. rewrite list.Forall_forall in Hg.
  apply (Hg g); [|done]. by eapply list_elem_of_lookup_2.
Qed.
End filter.

(** * The state of the table builder while entries are added, and the file that it leaves *)
Import Format TableBuilder.

Section build.
Context (address : bytes → Z) (Haddr : ∀ b, 0 <= address b) {F : Type} `{Device F written refused}.
Context {C : SliceComparator} {dom valid : bytes → Prop} {ord : Comparator bytes} (HC : Lawful C dom valid ord).
Context (Hvb : ∀ k, valid k → Forall is_byte k).
Context (o : Options) (Hint : 1 <= block_restart_interval o) (pol : NamedPolicy).
Context (all : entries) (Hall : Forall (λ e, valid e.1 ∧ Forall is_byte e.2) all) (Hasc : ascending (ord := ord) all).
Context (fdom : bytes → Prop).
Context (Hpol : match pol with Some (P, _) => FilterLaws P fdom ∧ ready fdom (all.*1) | None => True end).

#[local] Instance order_ : Order bytes := lawful_order.

(** ** Writing blocks *)

(** What a write leaves: the bytes, or an error. *)
Definition wrote (t t' : TableBuilder F) (data : bytes) : Prop :=
  (∃ f off s, t' = set_output t f off s) ∧
  (status t' = Status.OK ∧ written (file t') = written (file t) ++ data ∧
     offset t' = Slice.size (written (file t')) ∧ Slice.size (written (file t')) < 2 ^ 32 ∨
   status t' ≠ Status.OK ∧ refused (file t') ∧ offset t' = offset t).

Lemma WriteRawBlock_ok t data :
  offset t = Slice.size (written (file t)) → Slice.size (written (file t)) < 2 ^ 32 → Forall is_byte data →
  ∃ t', WriteRawBlock address data kNoCompression t = Ok (mkHandle (offset t) (Slice.size data), t') ∧
    wrote t t' (stored data).
Proof.
  intros Ho Hs Hb. unfold WriteRawBlock, wrote.
  destruct (device_append data (file t)) as (s & f & -> & [(-> & Ew & Hsz)|[Hn Hr]]).
  2:{ rewrite (proj2 (ok_false s) Hn). eexists. split; [reflexivity|]. split; [by eexists _, _, _|]. by right. }
  cbn [Status.ok]. unfold Crc32c.Value.
  rewrite (Extend_ok _ 0 data) by (done || apply Haddr). unfold mbind, res_bind.
  rewrite Extend_ok by (first [apply crc32c_range; [done|done]|by repeat constructor|apply Haddr]).
  rewrite crc32c_app. change [compression_code kNoCompression] with [0].
  destruct (device_append (compression_code kNoCompression :: Coding.EncodeFixed32 (Crc32c.Mask (crc32c 0 (data ++ [0])))) f)
    as (s' & f' & -> & [(-> & Ew' & Hsz')|[Hn Hr]]).
  - eexists. split; [reflexivity|]. split; [by eexists _, _, _|]. left. cbn [status file offset set_output Status.ok].
    rewrite Ew in Ew'. assert (written f' = written (file t) ++ stored data) as E.
    { rewrite Ew'. unfold stored. by rewrite <- !app_assoc. }
    assert (Slice.size (written f') = offset t + (Slice.size data + 5)) as Es by (rewrite E, size_app, stored_length, Ho; lia).
    pose proof (size_nonneg data). pose proof (size_nonneg (written (file t))).
    split; [done|]. split; [done|]. split; [|done]. rewrite Es in Hsz' |- *.
    rewrite (u64_small (_ + kBlockTrailerSize)) by (unfold kBlockTrailerSize; lia).
    unfold kBlockTrailerSize. by rewrite u64_small by lia.
  - rewrite (proj2 (ok_false s') Hn). eexists. split; [reflexivity|]. split; [by eexists _, _, _|]. by right.
Qed.

Lemma WriteBlock_ok t interval b l rs :
  status t = Status.OK → offset t = Slice.size (written (file t)) → Slice.size (written (file t)) < 2 ^ 32 →
  building interval b l rs →
  ∃ t', WriteBlock address b t = Ok (mkHandle (offset t) (Slice.size (BlockBuilder.Finish b).1), t', BlockBuilder.Reset) ∧
    wrote t t' (stored (BlockBuilder.Finish b).1) ∧
    (status t' = Status.OK → (BlockBuilder.Finish b).1 = block_of l rs).
Proof.
  intros Hst Ho Hs Hb. unfold WriteBlock. rewrite Hst. cbn [Status.ok SkipList.assert_].
  destruct (WriteRawBlock_ok t (BlockBuilder.Finish b).1 Ho Hs (Finish_are_bytes _ _ _ _ Hb)) as (t' & E & Hw).
  exists t'. split.
  - unfold mbind, res_bind. by destruct (compression (options t)); cbn [Snappy_Compress]; rewrite E.
  - split; [done|]. intros Hok. destruct Hw as [_ [(_ & Ew & _ & Hsz)|[? _]]]; [|done].
    apply (Finish_block interval); [done|]. pose proof (Finish_size interval b l rs Hb) as Ef.
    rewrite Ew, size_app, stored_length, Ef in Hsz.
    pose proof (size_nonneg (body l)). pose proof (size_nonneg (written (file t))). lia.
Qed.

(** ** The state *)

Record good_block (d : dblk) : Prop := {
  gb_linked : linked [] d.1;
  gb_restarts : restarts_ok d.1 d.2;
  gb_bytes : Forall item_bytes d.1;
  gb_some : d.1 ≠ []
}.

Definition cur_of (lc : list item) : entries := item_entry <$> lc.

(** The keys [ks] separate the blocks. *)
Record separates (ks : list bytes) (bs : list entries) : Prop := {
  sep_last j k b e : ks !! j = Some k → bs !! j = Some b → e ∈ b → compare_ e.1 k <= 0;
  sep_next j j' k b e : ks !! j = Some k → bs !! j' = Some b → (j < j')%nat → e ∈ b → compare_ k e.1 < 0
}.

Definition index_entries (ks : list bytes) (ds : list dblk) : entries :=
  zip ks (handle_bytes <$> handles 0 ds).

Definition filter_blocks (ds : list dblk) (cur : entries) : list (Z * list bytes) :=
  block_keys 0 ds ++ [(Slice.size (file_of ds), cur.*1)].

Record full (t : TableBuilder F) (ents : entries) (ds : list dblk) (lc : list item) (ks : list bytes) : Prop := {
  full_ents : ents = concat (ents_of <$> ds) ++ cur_of lc;
  full_count : num_entries t = Z.of_nat (length ents);
  full_blocks : Forall good_block ds;
  full_data : ∃ rs, building (block_restart_interval o) (data_block t) lc rs;
  full_index : ∃ il rs, building 1 (index_block t) il rs ∧ item_entry <$> il = index_entries ks ds;
  full_written : written (file t) = file_of ds;
  full_offset : offset t = Slice.size (file_of ds);
  full_small : Slice.size (file_of ds) < 2 ^ 32;
  full_filter : filter_ok pol (filter_block t) (filter_blocks ds (cur_of lc));
  full_last e : list.last ents = Some e → last_key t = e.1;
  full_valid : Forall valid ks;
  full_seps : separates ks ((ents_of <$> ds) ++ [cur_of lc]);
  full_pending :
    if pending_index_entry t then
      lc = [] ∧ (∃ h, list.last (handles 0 ds) = Some h ∧ pending_handle t = h) ∧ length ds = S (length ks)
    else length ds = length ks ∧ (lc = [] → ds = [])
}.

Record inv (t : TableBuilder F) (ents : entries) : Prop := {
  inv_options : options t = o;
  inv_closed : closed t = false;
  inv_ok : status t = Status.OK → ∃ ds lc ks, full t ents ds lc ks;
  inv_refused : status t ≠ Status.OK → refused (file t)
}.

(** Entries so far: a part of all entries. *)
Lemma table_part_ascending ents rest : all = ents ++ rest → ascending (ord := ord) ents.
Proof.
  intros E. unfold ascending in *. rewrite E, fmap_app in Hasc. by apply StronglySorted_app_1_l in Hasc.
Qed.

Lemma sorted_offsets ds : ∀ q, StronglySorted Z.le ((block_keys q ds).*1 ++ [q + Slice.size (file_of ds)]) ∧
  Forall (λ bl, q <= bl.1) (block_keys q ds).
Proof.
  induction ds as [|d ds IH]; intros q; [split; [by repeat constructor|done]|].
  cbn [block_keys fmap list_fmap app fst]. destruct (IH (q + Slice.size (stored (contents_of d)))) as [IH1 IH2].
  change (file_of (d :: ds)) with (stored (contents_of d) ++ file_of ds). rewrite size_app, Z.add_assoc.
  pose proof (size_nonneg (stored (contents_of d))). pose proof (size_nonneg (file_of ds)).
  assert (Forall (λ bl : Z * list bytes, q <= bl.1) (block_keys (q + Slice.size (stored (contents_of d))) ds)) as Hq
    by (eapply list.Forall_impl; [exact IH2|]; intros bl Hbl; cbn in *; lia).
  split; [|constructor; [cbn; lia|done]]. constructor; [done|]. apply List.Forall_app. split; [|constructor; [lia|done]].
  rewrite list.Forall_fmap. eapply list.Forall_impl; [exact Hq|]. done.
Qed.

Lemma block_keys_keys ds : ∀ q, concat ((block_keys q ds).*2) = (concat (ents_of <$> ds)).*1.
Proof. induction ds as [|d ds IH]; intros q; [done|]. cbn. by rewrite IH, fmap_app. Qed.

Lemma filter_blocks_fit ds cur ents rest : all = ents ++ rest → ents = concat (ents_of <$> ds) ++ cur →
  blocks_fit (all.*1) (filter_blocks ds cur).
Proof.
  intros Ea Ee. unfold filter_blocks. destruct (sorted_offsets ds 0) as [H1 H2]. pose proof (size_nonneg (file_of ds)).
  split; [by rewrite fmap_app|]. split; [apply List.Forall_app; split; [done|by repeat constructor]|].
  exists (rest.*1). rewrite fmap_app, concat_app, block_keys_keys. cbn. rewrite app_nil_r.
  by rewrite <- fmap_app, <- Ee, <- fmap_app, <- Ea.
Qed.

(** ** The filter block of the state *)

Lemma start_filter_ok (t : TableBuilder F) blocks off :
  filter_ok pol (filter_block t) blocks → blocks_fit (all.*1) (blocks ++ [(off, [])]) →
  ∃ fb, start_filter pol t off = Ok (set_filter_block t fb) ∧ filter_ok pol fb (blocks ++ [(off, [])]).
Proof.
  intros Hf Hfit. destruct (filter_start pol fdom (all.*1) Hpol _ _ _ Hf Hfit) as (fb & E & Hfb). exists fb.
  split; [|done]. unfold start_filter, with_filter. unfold filter_ok in Hf. clear Hfb Hpol.
  destruct pol as [[P name]|].
  - destruct Hf as (b & Eb & _). rewrite Eb in E |- *. unfold mbind, res_bind in *.
    destruct (FilterBlock.StartBlock b off); try done. by injection E as <-.
  - injection E as <-. by destruct t.
Qed.

Lemma add_filter_key_ok (t : TableBuilder F) blocks off keys key :
  filter_ok pol (filter_block t) (blocks ++ [(off, keys)]) →
  ∃ fb, with_filter t (λ b, Ok (FilterBlock.AddKey b key)) = Ok (set_filter_block t fb) ∧
    filter_ok pol fb (blocks ++ [(off, keys ++ [key])]).
Proof.
  intros Hf. destruct (filter_key_added pol fdom (all.*1) Hpol _ _ _ _ key Hf) as (fb & E & Hfb). exists fb. split; [|done].
  unfold with_filter. destruct t as [? ? ? ? ? ? ? ? ? fb0 ? ?]. cbn in *. by destruct fb0; injection E as <-.
Qed.

(** ** A new builder *)

Lemma new_ok f : written f = [] → ∃ t, new pol o f = Ok t ∧ inv t [] ∧ status t = Status.OK.
Proof.
  intros Hf. unfold new. destruct (building_new (block_restart_interval o) Hint) as (b & -> & Hb).
  destruct (building_new 1 ltac:(lia)) as (bi & -> & Hbi). unfold mbind, res_bind.
  set (t0 := mkTable _ _ _ _ _ _ _ _ _ _ _ _).
  destruct (start_filter_ok t0 [] 0) as (fb & E & Hfb).
  { unfold filter_ok, t0. cbn. destruct pol as [[P name]|]; [by eexists|done]. }
  { split; [by repeat constructor|]. split; [by repeat constructor|]. by eexists. }
  exists (set_filter_block t0 fb). split; [done|]. split; [|done]. split; [done|done| |done].
  intros _. exists [], [], []. split; try done.
  - by eexists.
  - by exists [], [0%nat].
Qed.

(** ** An entry of the index *)

(** The last entry is that of the last block. *)
Lemma last_in_block ents ds : ents = concat (ents_of <$> ds) → Forall good_block ds →
  match list.last ds with
  | Some d => ∃ e, list.last (ents_of d) = Some e ∧ list.last ents = Some e
  | None => ents = []
  end.
Proof.
  intros -> Hg. destruct ds as [|d ds _] using rev_ind; [done|]. rewrite last_snoc. rewrite fmap_app, concat_app. cbn.
  rewrite app_nil_r. apply List.Forall_app in Hg as [_ [Hd _]%list.Forall_cons]. pose proof (gb_some _ Hd) as Hne.
  destruct d as [l rs]. cbn in *. destruct l as [|x l _] using rev_ind; [done|].
  exists (item_entry x). unfold ents_of. cbn. rewrite fmap_app. cbn. rewrite last_snoc. split; [done|].
  rewrite app_assoc. by rewrite last_snoc.
Qed.

Lemma all_entry ents rest e : all = ents ++ rest → e ∈ ents → valid e.1 ∧ Forall is_byte e.2.
Proof. intros E He. rewrite list.Forall_forall in Hall. apply Hall. rewrite E. apply elem_of_app. by left. Qed.

(** Entries are before later ones. *)
Lemma ascending_app a b x y : ascending (ord := ord) (a ++ b) → x ∈ a → y ∈ b → compare_ x.1 y.1 < 0.
Proof.
  intros Hs Hx Hy. unfold ascending in Hs. rewrite fmap_app in Hs.
  by apply (StronglySorted_app_1_elem_of _ _ _ _ _ Hs); apply list_elem_of_fmap_2.
Qed.

Lemma ascending_last a e x : ascending (ord := ord) a → list.last a = Some e → x ∈ a → compare_ x.1 e.1 <= 0.
Proof.
  intros Hs (a' & ->)%last_Some Hx. apply elem_of_app in Hx as [Hx|Hx%list_elem_of_singleton].
  - pose proof (ascending_app a' [e] x e Hs Hx ltac:(by apply list_elem_of_singleton)). lia.
  - subst x. rewrite cmp_refl. done.
Qed.

Lemma le_lt a b c : compare_ a b <= 0 → compare_ b c < 0 → compare_ a c < 0.
Proof.
  intros L1 L2. destruct (Z.eq_dec (compare_ a b) 0) as [E|N]; [by apply (cmp_eq _ _ _ E L2)|].
  assert (compare_ a b < 0) as L by lia. by apply (cmp_trans _ _ _ L L2).
Qed.
Lemma lt_le a b c : compare_ a b < 0 → compare_ b c <= 0 → compare_ a c < 0.
Proof.
  intros L1 L2. destruct (Z.eq_dec (compare_ b c) 0) as [E|N]; [by apply (cmp_eq_r _ _ _ L1 E)|].
  assert (compare_ b c < 0) as L by lia. by apply (cmp_trans _ _ _ L1 L).
Qed.
Lemma le_le a b c : compare_ a b <= 0 → compare_ b c <= 0 → compare_ a c <= 0.
Proof.
  intros L1 L2. destruct (Z.eq_dec (compare_ b c) 0) as [E|N].
  - destruct (Z.eq_dec (compare_ a b) 0) as [E1|N1]; [by rewrite (cmp_zero_trans _ _ _ E1 E)|].
    assert (compare_ a b < 0) as L by lia. pose proof (cmp_eq_r _ _ _ L E). lia.
  - assert (compare_ b c < 0) as L by lia. pose proof (le_lt a b c L1 L). lia.
Qed.

Lemma zip_snoc {A B} (a : list A) : ∀ (b : list B) x y, length a = length b → zip (a ++ [x]) (b ++ [y]) = zip a b ++ [(x, y)].
Proof. induction a as [|u a IH]; intros [|v b] x y El; try done. cbn. rewrite IH; [done|by injection El]. Qed.

(** The entry of the last block is added under a key that separates it from what follows. *)
Lemma add_index_ok t ents ds ks k rest :
  full t ents ds [] ks → pending_index_entry t = true → all = ents ++ rest →
  valid k → (∀ e, list.last ents = Some e → compare_ e.1 k <= 0) →
  ∃ b, add_index_entry t k = Ok (set_pending (set_index_block (set_last_key t k) b) false (pending_handle t)) ∧
    (∃ il rs, building 1 b il rs ∧ item_entry <$> il = index_entries (ks ++ [k]) ds) ∧
    length ds = length (ks ++ [k]) ∧ Forall valid (ks ++ [k]) ∧
    ∀ cur, Forall (λ e, compare_ k e.1 < 0) cur → ascending (ord := ord) (ents ++ cur) →
      separates (ks ++ [k]) ((ents_of <$> ds) ++ [cur]).
Proof.
  intros [E1 _ Hg _ (il & rs & Hb & El) Hw Ho Hsm _ _ Hv Hse Hp] Hpe Ea Hk Hlast. rewrite Hpe in Hp.
  destruct Hp as (_ & (h & Hh & Ehp) & Eds). destruct ds as [|d ds _] using rev_ind; [done|].
  rewrite length_app in Eds. cbn in Eds. assert (length ks = length ds) as Lk by lia.
  rewrite app_nil_r in E1. pose proof (last_in_block _ _ E1 Hg) as Hl. rewrite last_snoc in Hl.
  destruct Hl as (e & Ed & Ee). specialize (Hlast e Ee).
  assert (handle_ok h) as Hho.
  { apply list.last_Some in Hh as [l' El']. eapply (handles_ok (ds ++ [d]) (length l')); [done|].
    rewrite El'. by apply list_lookup_middle. }
  assert (h = mkHandle (0 + Slice.size (file_of ds)) (Slice.size (contents_of d))) as Eh
    by (rewrite handles_snoc, last_snoc in Hh; congruence).
  assert (index_entries ks (ds ++ [d]) = index_entries ks ds) as Eix.
  { unfold index_entries. rewrite handles_snoc, fmap_app. rewrite <- (app_nil_r ks) at 1.
    rewrite zip_with_app by (rewrite length_fmap, length_handles; lia). by rewrite app_nil_r. }
  assert (index_entries (ks ++ [k]) (ds ++ [d]) = index_entries ks ds ++ [(k, handle_bytes h)]) as Eix2.
  { unfold index_entries. rewrite handles_snoc, fmap_app, Eh. cbn.
    rewrite zip_with_app by (rewrite length_fmap, length_handles; lia). done. }
  assert (∀ x, x ∈ il → i_key x ∈ ks) as Hil.
  { intros x Hx. assert (item_entry x ∈ index_entries ks ds) as Hin
      by (rewrite <- Eix, <- El; by apply list_elem_of_fmap_2).
    unfold index_entries in Hin. apply elem_of_zip_l in Hin. done. }
  destruct (Add_ok HC 1 ltac:(lia) (index_block t) il rs k (handle_bytes h) Hb (lawful_dom k Hk) (Hvb k Hk)
    (handle_are_bytes h Hho)) as (b & e' & rs' & Eb & Hb' & Ee').
  { apply list.Forall_forall. intros x Hx. apply lawful_dom. rewrite list.Forall_forall in Hv. by apply Hv, Hil. }
  { intros x Hx. apply (lt_le _ e.1); [|done].
    assert (list.last ks = Some (i_key x)) as Hlk.
    { apply list.last_Some in Hx as [l' ->]. rewrite fmap_app in El. cbn in El. rewrite Eix in El.
      unfold index_entries in El. apply (f_equal (fmap fst)) in El.
      rewrite fst_zip in El by (rewrite length_fmap, length_handles; lia).
      rewrite <- El, fmap_app. cbn. by rewrite last_snoc. }
    rewrite last_lookup in Hlk. apply (sep_next _ _ Hse (Nat.pred (length ks)) (length ds) (i_key x) (ents_of d)); [done| | |].
    - rewrite fmap_app, <- app_assoc. apply list_lookup_middle. by rewrite length_fmap.
    - apply lookup_lt_Some in Hlk. lia.
    - apply list.last_Some in Ed as [l' ->]. apply elem_of_app. right. by apply list_elem_of_singleton. }
  exists b. split; [|split; [|split; [|split]]].
  - unfold add_index_entry. cbn [pending_handle set_last_key index_block last_key].
    rewrite Ehp, EncodeTo_ok by done. unfold mbind, res_bind. cbn [app]. by rewrite Eb, <- ?Ehp.
  - exists (il ++ [e']), rs'. split; [done|]. rewrite fmap_app, El, Eix, Eix2. cbn. by rewrite Ee'.
  - rewrite !length_app. cbn. lia.
  - apply List.Forall_app. split; [done|by constructor].
  - intros cur Hc Hs2. split.
    + intros j k' b' x Hj Hb2 Hx. apply lookup_app_Some in Hj as [Hj|[Hj1 Hj2]].
      * rewrite lookup_app_l in Hb2 by (rewrite length_fmap, length_app; cbn; apply lookup_lt_Some in Hj; lia).
        apply (sep_last _ _ Hse j k' b'); [done| |done]. by apply lookup_app_l_Some.
      * apply list_lookup_singleton_Some in Hj2 as [Hj2 <-].
        rewrite lookup_app_l in Hb2 by (rewrite length_fmap, length_app; cbn; lia).
        replace j with (length ds) in Hb2 by lia. rewrite fmap_app in Hb2. cbn [fmap list_fmap] in Hb2.
        rewrite list_lookup_middle in Hb2 by by rewrite length_fmap.
        injection Hb2 as <-. apply (le_le _ e.1); [|done].
        apply (ascending_last (ents_of d)); [|done|done].
        pose proof (table_part_ascending _ _ Ea) as Hents. rewrite E1, fmap_app, concat_app in Hents. cbn in Hents.
        rewrite app_nil_r in Hents. unfold ascending in *. rewrite fmap_app in Hents.
        by apply StronglySorted_app_1_r in Hents.
    + intros j j' k' b' x Hj Hb2 Hjj Hx. apply lookup_app_Some in Hb2 as [Hb2|[Hb1 Hb2]].
      * apply lookup_app_Some in Hj as [Hj|[Hj1 Hj2]].
        { apply (sep_next _ _ Hse j j' k' b'); [done| |done|done]. by apply lookup_app_l_Some. }
        apply list_lookup_singleton_Some in Hj2 as [Hj2 _]. apply lookup_lt_Some in Hb2.
        rewrite length_fmap, length_app in Hb2. cbn in Hb2. lia.
      * apply list_lookup_singleton_Some in Hb2 as [_ <-]. rewrite list.Forall_forall in Hc. specialize (Hc x Hx).
        apply lookup_app_Some in Hj as [Hj|[Hj1 Hj2]].
        { (* an earlier separator is before the last entry *)
          assert (compare_ k' e.1 < 0) as L.
          { apply (sep_next _ _ Hse j (length ds) k' (ents_of d)); [done| |apply lookup_lt_Some in Hj; lia|].
            - rewrite fmap_app, <- app_assoc. apply list_lookup_middle. by rewrite length_fmap.
            - apply list.last_Some in Ed as [l' ->]. apply elem_of_app. right. by apply list_elem_of_singleton. }
          apply (cmp_trans _ e.1); [done|]. apply (le_lt _ k); done. }
        by apply list_lookup_singleton_Some in Hj2 as [_ <-].
Qed.
(** ** Flushing *)

Lemma building_reset interval : 1 <= interval → building interval BlockBuilder.Reset [] [0%nat].
Proof.
  intros Hi. destruct (building_new interval Hi) as (b & E & Hb). unfold BlockBuilder.new in E.
  rewrite (proj2 (Z.leb_le _ _)) in E by done. by injection E as <-.
Qed.

Lemma block_empty_iff interval b l rs : building interval b l rs → block_empty b = true ↔ l = [].
Proof.
  intros Hb. unfold block_empty. rewrite (bu_buffer _ _ _ _ Hb). split; [|by intros ->].
  destruct l as [|e l]; [done|]. rewrite body_cons. unfold encode_item, i_header.
  pose proof (varint_length (u32 (Z.of_nat (i_shared e)))). destruct (varint (u32 (Z.of_nat (i_shared e)))); cbn in *; [lia|].
  done.
Qed.

Lemma filter_blocks_more ds cur ents rest off :
  all = ents ++ rest → ents = concat (ents_of <$> ds) ++ cur → Slice.size (file_of ds) <= off →
  blocks_fit (all.*1) (filter_blocks ds cur ++ [(off, [])]).
Proof.
  intros Ea Ee Ho. destruct (filter_blocks_fit ds cur ents rest Ea Ee) as (H1 & H2 & r & H3).
  pose proof (size_nonneg (file_of ds)). split; [|split].
  - rewrite fmap_app. apply StronglySorted_app. split; [|split; [done|by repeat constructor]].
    intros x y Hx Hy%list_elem_of_singleton. cbn in Hy. subst y. unfold filter_blocks in *. rewrite fmap_app in *.
    apply elem_of_app in Hx as [Hx|Hx%list_elem_of_singleton]; [|by subst x].
    pose proof (StronglySorted_app_1_elem_of _ _ _ x (Slice.size (file_of ds)) H1 Hx ltac:(by apply list_elem_of_singleton)). lia.
  - apply List.Forall_app. split; [done|]. constructor; [cbn; lia|done].
  - exists r. rewrite fmap_app, concat_app. cbn. by rewrite app_nil_r.
Qed.

Lemma FlushBlock_ok t ents rest : inv t ents → all = ents ++ rest →
  ∃ t', FlushBlock address pol t = Ok t' ∧ inv t' ents ∧
    (status t' = Status.OK → ∃ ds ks, full t' ents ds [] ks) ∧ (status t ≠ Status.OK → t' = t).
Proof.
  intros Hi Ea. pose proof Hi as [I1 I2 I3 I4]. unfold FlushBlock. rewrite I2. cbn [negb SkipList.assert_].
  destruct (Status.ok (status t)) eqn:Es; cbn [negb].
  2:{ apply ok_false in Es. exists t. split; [done|]. split; [done|]. by split. }
  apply ok_iff in Es. destruct (I3 Es) as (ds & lc & ks & Hf). pose proof Hf as [E1 E2 Hg (rs & Hb) Hx Hw Ho Hsm Hfi Hl Hv Hse Hp].
  destruct (block_empty (data_block t)) eqn:Ee.
  { apply (block_empty_iff _ _ _ _ Hb) in Ee as ->. exists t. split; [done|]. split; [done|].
    split; [intros _; by exists ds, ks|done]. }
  assert (lc ≠ []) as Hne by (intros ->; pose proof (proj2 (block_empty_iff _ _ _ _ Hb) eq_refl); congruence).
  destruct (pending_index_entry t) eqn:Epe; [by destruct Hp as (-> & _)|]. cbn [negb SkipList.assert_].
  destruct Hp as [Eds _].
  destruct (WriteBlock_ok t _ (data_block t) lc rs Es ltac:(by rewrite Hw) ltac:(by rewrite Hw) Hb) as (t1 & E & Hwr & Hblk).
  unfold mbind at 1 2, res_bind at 1 2. rewrite E. unfold mbind at 1, res_bind at 1.
  destruct Hwr as [(f1 & off1 & s1 & ->) Hcase].
  set (h := mkHandle (offset t) (Slice.size (BlockBuilder.Finish (data_block t)).1)) in *.
  cbn [status file offset set_output set_data_block set_pending pending_index_entry filter_block options closed] in Hcase, Hblk |- *.
  destruct Hcase as [(-> & Hw1 & Ho1 & Hsz1)|(Hn1 & Hr1 & Ho1)].
  - specialize (Hblk eq_refl). set (d := (lc, rs) : dblk). cbn [Status.ok].
    assert (written f1 = file_of (ds ++ [d])) as Ew1 by (rewrite Hw1, Hw, file_of_app, file_of_one, Hblk; done).
    rewrite Ew1 in Ho1, Hsz1.
    assert (∀ f2 s2, ∃ fb, start_filter pol (set_output (set_pending (set_pending (set_data_block (set_output t f1 off1 Status.OK)
      BlockBuilder.Reset) false h) true h) f2 off1 s2) off1 =
      Ok (set_filter_block (set_output (set_pending (set_pending (set_data_block (set_output t f1 off1 Status.OK)
      BlockBuilder.Reset) false h) true h) f2 off1 s2) fb) ∧ filter_ok pol fb (filter_blocks (ds ++ [d]) [])) as Hsf.
    { intros f2 s2. destruct (start_filter_ok (set_output (set_pending (set_pending (set_data_block (set_output t f1 off1 Status.OK)
        BlockBuilder.Reset) false h) true h) f2 off1 s2) (filter_blocks ds (cur_of lc)) off1) as (fb & Efb & Hfb); [done| |].
      - apply (filter_blocks_more _ _ ents rest); [done|done|]. rewrite Ho1, file_of_app, size_app.
        pose proof (size_nonneg (file_of [d])). lia.
      - exists fb. split; [done|]. unfold filter_blocks in *. by rewrite block_keys_snoc, Z.add_0_l, Ho1 in *. }
    destruct (device_flush f1) as (s2 & f2 & -> & Hfl). rewrite ?Epe. change (Status.ok Status.OK) with true.
    cbn [offset set_output]. destruct (Hsf f2 s2) as (fb & -> & Hfb).
    eexists. split; [reflexivity|].
    assert (status t ≠ Status.OK → False) as Hno by done.
    destruct Hfl as [(-> & Hw2)|[Hn2 Hr2]].
    + match goal with |- inv ?t' _ ∧ _ => assert (full t' ents (ds ++ [d]) [] ks) as Hfull end.
      { split; cbn; try done.
        - rewrite fmap_app, concat_app. cbn. by rewrite !app_nil_r.
        - apply List.Forall_app. split; [done|]. constructor; [|done].
          split; [apply Hb|apply Hb|apply Hb|done].
        - exists [0%nat]. by apply building_reset.
        - destruct Hx as (il & irs & Hbi & El). exists il, irs. split; [done|]. rewrite El. unfold index_entries.
          rewrite handles_snoc, fmap_app. rewrite <- (app_nil_r ks) at 2.
          rewrite zip_with_app by (rewrite length_fmap, length_handles; lia). by rewrite app_nil_r.
        - by rewrite Hw2.
        - destruct Hse as [S1 S2].
          assert (∀ j b, ((ents_of <$> ds ++ [d]) ++ [[]]) !! j = Some b → ∀ e, e ∈ b →
            ((ents_of <$> ds) ++ [cur_of lc]) !! j = Some b) as Hbs.
          { intros j b Hj e He. rewrite fmap_app in Hj. apply lookup_app_Some in Hj as [Hj|[_ Hj]]; [done|].
            apply list_lookup_singleton_Some in Hj as [_ <-]. by apply not_elem_of_nil in He. }
          split; [intros j k b e Hj Hb' He; eauto|intros j j' k b e Hj Hb' L He; eauto].
        - split; [done|]. rewrite handles_snoc, last_snoc, length_app. cbn. split; [|lia].
          eexists. split; [done|]. unfold h. rewrite Hblk, Ho. done. }
      split; [|by split; [intros _; by exists (ds ++ [d]), ks|]].
      split; [done|done|intros _; by exists (ds ++ [d]), [], ks|done].
    + split; [by split|]. split; [|done]. cbn. done.
  - rewrite (proj2 (ok_false s1) Hn1).
    destruct (start_filter_ok (set_pending (set_data_block (set_output t f1 off1 s1) BlockBuilder.Reset) false h)
      (filter_blocks ds (cur_of lc)) off1) as (fb & Efb & Hfb); [done| |].
    { apply (filter_blocks_more _ _ ents rest); [done|done|]. by rewrite Ho1, Ho. }
    cbn [offset set_pending set_data_block set_output]. rewrite ?Epe, Efb. eexists. split; [reflexivity|].
    split; [by split|]. split; [|done]. cbn. done.
Qed.
End build.
