(* ===== verification/LdbTableReadProps.v ===== *)
(** Adding entries to a table, and finishing it.

    Finishing a table: what the file holds.

    Reading a table file: opening it, its blocks through a cache, and its index. *)
From Stdlib Require Import Sorting.Sorted.
From stdpp Require Import sorting.
From S2P Require Import Prelude PbVarint LdbSkip LdbSkipLemmas LdbFormat LdbCodingProps LdbOrder LdbCrc LdbCrcProps LdbLog LdbFilter LdbFilterProps LdbIterator LdbBlock LdbBlockProps LdbTwoLevel LdbTwoLevelProps LdbTable LdbTableFileProps.
Import Format TableBuilder.

Section adding.
Context (address : bytes → Z) (Haddr : ∀ b, 0 <= address b) {F : Type} `{Device F written refused}.
Context {C : SliceComparator} {dom valid : bytes → Prop} {ord : Comparator bytes} (HC : Lawful C dom valid ord).
Context (Hvb : ∀ k, valid k → Forall is_byte k).
Context (o : Options) (Hint : 1 <= block_restart_interval o) (pol : NamedPolicy).
Context (all : entries) (Hall : Forall (λ e, valid e.1 ∧ Forall is_byte e.2) all) (Hasc : ascending (ord := ord) all).
Context (fdom : bytes → Prop).
Context (Hpol : match pol with Some (P, _) => FilterLaws P fdom ∧ ready fdom (all.*1) | None => True end).

#[local] Instance order_ : Order bytes := lawful_order.
Abbreviation full := (full (written := written) (valid := valid) (ord := ord) o pol).
Abbreviation inv := (inv (written := written) (refused := refused) (valid := valid) (ord := ord) o pol).

(** The entries up to the next one. *)
Lemma next_ascending ents e rest : all = ents ++ e :: rest → ascending (ord := ord) (ents ++ [e]).
Proof.
  intros E. unfold ascending in *. rewrite E in Hasc. change (e :: rest) with ([e] ++ rest) in Hasc.
  rewrite app_assoc, fmap_app in Hasc. by apply StronglySorted_app_1_l in Hasc.
Qed.

Lemma next_greater ents e rest x : all = ents ++ e :: rest → x ∈ ents → compare_ x.1 e.1 < 0.
Proof.
  intros E Hx. eapply (ascending_app ents [e]); [by eapply next_ascending|done|by apply list_elem_of_singleton].
Qed.

Lemma next_valid ents e rest : all = ents ++ e :: rest → valid e.1 ∧ Forall is_byte e.2.
Proof. intros E. rewrite E in Hall. apply List.Forall_app in Hall as [_ [? _]%list.Forall_cons]. done. Qed.

Lemma larger_ok t ents ds lc ks e rest : full t ents ds lc ks → all = ents ++ e :: rest →
  (if 0 <? num_entries t then c ← Compare e.1 (last_key t); Ok (0 <? c) else Ok true) = Ok true.
Proof.
  intros Hf Ea. rewrite (full_count _ _ _ _ _ _ _ Hf).
  destruct ents as [|x ents _] using rev_ind; [done|]. rewrite length_app, (proj2 (Z.ltb_lt _ _)) by (cbn; lia).
  rewrite (full_last _ _ _ _ _ _ _ Hf x) by by rewrite last_snoc.
  destruct (next_valid _ _ _ Ea) as [Hv _].
  assert (valid x.1) as Hx by (eapply (all_entry all Hall); [exact Ea|apply elem_of_app; right; by apply list_elem_of_singleton]).
  rewrite lawful_compare by (by apply lawful_dom). unfold mbind, res_bind.
  pose proof (next_greater _ _ _ x Ea ltac:(apply elem_of_app; right; by apply list_elem_of_singleton)) as L.
  apply cmp_swap in L. by rewrite (proj2 (Z.ltb_lt _ _)) by lia.
Qed.

(** The pending index entry is added before the next entry. *)
Lemma separate_ok t ents ds lc ks e rest : full t ents ds lc ks → all = ents ++ e :: rest →
  ∃ lk b ks2, (if pending_index_entry t then
      SkipList.assert_ (block_empty (data_block t));;
      k ← FindShortestSeparator (last_key t) e.1;
      add_index_entry t k
    else Ok t) = Ok (set_pending (set_index_block (set_last_key t lk) b) false (pending_handle t)) ∧
    (∃ il rs, building 1 b il rs ∧ item_entry <$> il = index_entries ks2 ds) ∧
    length ds = length ks2 ∧ Forall valid ks2 ∧
    separates ks2 ((ents_of <$> ds) ++ [cur_of lc ++ [e]]).
Proof.
  intros Hf Ea. pose proof (full_pending _ _ _ _ _ _ _ Hf) as Hp.
  destruct (pending_index_entry t) eqn:Epe.
  - destruct Hp as (-> & (h & Hh & _) & Hlen). destruct (full_data _ _ _ _ _ _ _ Hf) as (rs & Hb).
    rewrite (proj2 (block_empty_iff _ _ _ _ Hb) eq_refl). cbn [SkipList.assert_].
    pose proof (full_ents _ _ _ _ _ _ _ Hf) as Ee. rewrite app_nil_r in Ee.
    pose proof (last_in_block _ _ Ee (full_blocks _ _ _ _ _ _ _ Hf)) as Hl.
    destruct (list.last ds) as [d|] eqn:El;
      [|by apply last_None in El; subst ds]. destruct Hl as (x & _ & Ex).
    rewrite (full_last _ _ _ _ _ _ _ Hf x Ex).
    assert (x ∈ ents) as Hx by (apply list.last_Some in Ex as [? ->]; apply elem_of_app; right; by apply list_elem_of_singleton).
    destruct (all_entry all Hall _ _ _ Ea Hx) as [Hvx _]. destruct (next_valid _ _ _ Ea) as [Hve _].
    pose proof (next_greater _ _ _ x Ea Hx) as L.
    destruct (lawful_separator x.1 e.1 Hvx Hve) as (k & Ek & Hvk & Hk).
    assert (compare_ x.1 k <= 0 ∧ compare_ k e.1 < 0) as [K1 K2].
    { destruct Hk as [->|[? ?]]; [|done]. by rewrite cmp_refl. }
    unfold mbind at 1 2, res_bind at 1 2. rewrite Ek.
    destruct (add_index_ok HC Hvb o pol all Hasc t ents ds ks k (e :: rest) Hf Epe Ea Hvk) as (b & E & Hi & Hlen2 & Hvs & Hsep).
    { intros y Hy. rewrite Ex in Hy. injection Hy as <-. done. }
    exists k, b, (ks ++ [k]). split; [done|]. split; [done|]. split; [done|]. split; [done|].
    apply Hsep; [by repeat constructor|]. by eapply next_ascending.
  - destruct Hp as [Hlen Hlc]. exists (last_key t), (index_block t), ks. split; [by destruct t; cbn in *; subst|].
    split; [apply Hf|]. split; [done|]. split; [apply Hf|].
    pose proof (full_ents _ _ _ _ _ _ _ Hf) as Ee. destruct (full_seps _ _ _ _ _ _ _ Hf) as [S1 S2].
    assert (∀ j, ((ents_of <$> ds) ++ [cur_of lc]) !! j = ((ents_of <$> ds) ++ [cur_of lc ++ [e]]) !! j ∨ j = length ds) as Hj.
    { intros j. destruct (decide (j = length ds)) as [|N]; [by right|left].
      destruct (decide (j < length ds)%nat); [by rewrite !lookup_app_l by (rewrite length_fmap; lia)|].
      rewrite !lookup_ge_None_2; [done|rewrite length_app, length_fmap; cbn; lia..]. }
    assert (((ents_of <$> ds) ++ [cur_of lc ++ [e]]) !! length ds = Some (cur_of lc ++ [e])) as Hat
      by (apply list_lookup_middle; by rewrite length_fmap).
    assert (((ents_of <$> ds) ++ [cur_of lc]) !! length ds = Some (cur_of lc)) as Hat'
      by (apply list_lookup_middle; by rewrite length_fmap).
    split.
    + intros j k b x Hk Hb Hx. destruct (Hj j) as [Ej| ->]; [rewrite <- Ej in Hb; by eapply S1|].
      apply lookup_lt_Some in Hk. lia.
    + intros j j' k b x Hk Hb L Hx. destruct (Hj j') as [Ej| ->]; [rewrite <- Ej in Hb; by eapply S2|].
      rewrite Hat in Hb. injection Hb as <-. apply elem_of_app in Hx as [Hx|Hx%list_elem_of_singleton]; [by eapply S2|].
      subst x. destruct (cur_of lc) as [|y cur] eqn:Ec.
      { destruct lc; [|done]. rewrite Hlc in Hlen by done. apply lookup_lt_Some in Hk. cbn in Hlen. lia. }
      assert (y ∈ ents) as Hy by (rewrite Ee, elem_of_app; right; by left).
      apply (cmp_trans _ y.1); [eapply S2; [done|exact Hat'|done|by left]|]. by eapply next_greater.
Qed.

(** One entry more. *)
Lemma table_add_ok t ents e rest : inv t ents → all = ents ++ e :: rest →
  ∃ t', TableBuilder.Add address pol t e.1 e.2 = Ok t' ∧ inv t' (ents ++ [e]).
Proof.
  intros Hi Ea. pose proof Hi as [I1 I2 I3 I4]. unfold TableBuilder.Add. rewrite I2. cbn [negb SkipList.assert_].
  destruct (Status.ok (status t)) eqn:Es; cbn [negb]; [|exists t; apply ok_false in Es; by split].
  apply ok_iff in Es. destruct (I3 Es) as (ds & lc & ks & Hf).
  unfold mbind at 1 2, res_bind at 1 2. rewrite (larger_ok _ _ _ _ _ _ _ Hf Ea). cbn [SkipList.assert_].
  destruct (separate_ok _ _ _ _ _ _ _ Hf Ea) as (lk & bi & ks2 & E & Hx2 & Hlen2 & Hv2 & Hs2).
  unfold mbind at 1, res_bind at 1. rewrite E. unfold mbind at 1, res_bind at 1.
  pose proof Hf as [E1 E2 Hg (rs & Hb) _ Hw Ho Hsm Hfi _ _ _ _]. clear E.
  set (t1 := set_pending _ _ _).
  destruct (add_filter_key_ok pol all fdom Hpol t1 (block_keys 0 ds) (Slice.size (file_of ds)) ((cur_of lc).*1) e.1) as (fb & -> & Hfb);
    [exact Hfi|]. unfold mbind at 1, res_bind at 1.
  destruct (next_valid _ _ _ Ea) as [Hve Hbe].
  assert (∀ x, x ∈ lc → item_entry x ∈ ents) as Hin.
  { intros x Hx. rewrite E1. apply elem_of_app. right. by apply list_elem_of_fmap_2. }
  destruct (Add_ok HC _ Hint (data_block t) lc rs e.1 e.2 Hb (lawful_dom _ Hve) (Hvb _ Hve) Hbe) as (b' & x & rs' & Eb & Hb' & Ex).
  { apply list.Forall_forall. intros x Hx. apply lawful_dom. apply (all_entry all Hall _ _ _ Ea (Hin x Hx)). }
  { intros x Hx. apply (next_greater _ _ _ (item_entry x) Ea). apply Hin. apply list.last_Some in Hx as [? ->].
    apply elem_of_app. right. by apply list_elem_of_singleton. }
  subst t1. cbn [count_entry set_last_key set_filter_block set_pending set_index_block data_block options]. rewrite I1, Eb.
  unfold mbind at 1, res_bind at 1. cbn [set_data_block data_block options]. rewrite ?I1.
  assert (e = item_entry x) as Ee by (rewrite Ex; by destruct e).
  match goal with |- context [if _ <=? _ then FlushBlock address pol ?t' else _] => set (t2 := t') end.
  assert (inv t2 (ents ++ [e])) as Hi2.
  { split; [done|done| |done]. intros _. exists ds, (lc ++ [x]), ks2. split; cbn; try done.
    - unfold cur_of. rewrite E1, fmap_app, Ee, app_assoc. done.
    - rewrite (full_count _ _ _ _ _ _ _ Hf), length_app. cbn. lia.
    - by exists rs'.
    - unfold filter_blocks, cur_of. rewrite fmap_app. cbn [fmap list_fmap]. rewrite <- Ee, fmap_app. done.
    - intros y. rewrite last_snoc. by intros [= <-].
    - unfold cur_of. rewrite fmap_app. cbn [fmap list_fmap]. by rewrite <- Ee.
    - split; [done|]. by destruct lc. }
  match goal with |- context [if ?c then FlushBlock _ _ _ else _] => destruct c; [|by exists t2] end.
  destruct (FlushBlock_ok address Haddr o Hint pol all fdom Hpol t2 (ents ++ [e]) rest Hi2) as (t' & E' & Hi' & _);
    [by rewrite <- app_assoc|]. by exists t'.
Qed.

Definition add_entries (t : TableBuilder F) (kvs : entries) : res (TableBuilder F) :=
  foldl (λ r e, t ← r; TableBuilder.Add address pol t e.1 e.2) (Ok t) kvs.

Lemma add_entries_ok kvs : ∀ t ents, inv t ents → all = ents ++ kvs →
  ∃ t', add_entries t kvs = Ok t' ∧ inv t' all.
Proof.
  unfold add_entries. induction kvs as [|e kvs IH]; intros t ents Hi Ea.
  - rewrite app_nil_r in Ea. exists t. split; [done|]. by rewrite Ea.
  - destruct (table_add_ok t ents e kvs Hi Ea) as (t1 & E & Hi1). cbn [foldl].
    unfold mbind at 2, res_bind at 2. rewrite E. apply (IH t1 (ents ++ [e])); [done|]. by rewrite <- app_assoc.
Qed.
End adding.

(** * Finishing a table *)
Import Format TableBuilder.

(** * The file *)

(** A block that can be read: the entries and the restart points. *)
Record readable (d : dblk) (es : entries) : Prop := {
  rd_linked : linked [] d.1;
  rd_restarts : restarts_ok d.1 d.2;
  rd_bytes : Forall item_bytes d.1;
  rd_entries : ents_of d = es
}.

Lemma building_readable interval b l rs : building interval b l rs → readable (l, rs) (item_entry <$> l).
Proof. intros Hb. by split; [apply Hb..|]. Qed.

(** The filter answers yes for each key, at the block that holds the key. *)
Definition filter_stored (pol : NamedPolicy) (ds : list dblk) (fbytes : bytes) (fh : BlockHandle) : Prop :=
  match pol with
  | Some (P, _) => ∃ contents r, fbytes = stored contents ∧ Forall is_byte contents ∧
      fh = mkHandle (Slice.size (file_of ds)) (Slice.size contents) ∧ FilterBlock.Reader_new contents = Ok r ∧
      FilterBlock.base_lg_ r < 64 ∧ ∀ j h d e, handles 0 ds !! j = Some h → ds !! j = Some d → e ∈ ents_of d →
        FilterBlock.KeyMayMatch (policy_ := P) r (offset_ h) e.1 = Ok true
  | None => fbytes = []
  end.

Definition meta_entries (pol : NamedPolicy) (fh : BlockHandle) : entries :=
  match pol with Some (_, name) => [(filter_key name, handle_bytes fh)] | None => [] end.

Record table_file {ord : Comparator bytes} (valid : bytes → Prop) (pol : NamedPolicy) (all : entries) (f : bytes)
    (ds : list dblk) (ks : list bytes) (fbytes : bytes) (fh : BlockHandle) (meta index : dblk) : Prop := {
  tf_all : all = concat (ents_of <$> ds);
  tf_blocks : Forall good_block ds;
  tf_length : length ds = length ks;
  tf_valid : Forall valid ks;
  tf_separates : separates ks (ents_of <$> ds);
  tf_filter : filter_stored pol ds fbytes fh;
  tf_meta : readable meta (meta_entries pol fh);
  tf_index : readable index (index_entries ks ds);
  tf_file : f = file_of ds ++ fbytes ++ stored (contents_of meta) ++ stored (contents_of index) ++
    footer_bytes (mkFooter
      (mkHandle (Slice.size (file_of ds ++ fbytes)) (Slice.size (contents_of meta)))
      (mkHandle (Slice.size (file_of ds ++ fbytes ++ stored (contents_of meta))) (Slice.size (contents_of index))));
  tf_size : Slice.size f < 2 ^ 32
}.

Lemma block_keys_lookup ds : ∀ q j h d, handles q ds !! j = Some h → ds !! j = Some d →
  block_keys q ds !! j = Some (offset_ h, (ents_of d).*1).
Proof.
  induction ds as [|x ds IH]; intros q j h d Hh Hd; [done|]. destruct j as [|j]; cbn in *.
  - injection Hh as <-. by injection Hd as ->.
  - by eapply IH.
Qed.

(** The first entry of a block is not compared. *)
Lemma Add_first {C C' : SliceComparator} interval b k v :
  BlockBuilder.buffer_ b = [] → BlockBuilder.Add (comparator := C) interval b k v = BlockBuilder.Add (comparator := C') interval b k v.
Proof. intros Hb. unfold BlockBuilder.Add. by rewrite Hb. Qed.

Section finish.
Context (address : bytes → Z) (Haddr : ∀ b, 0 <= address b) {F : Type} `{Device F written refused}.
Context {C : SliceComparator} {dom valid : bytes → Prop} {ord : Comparator bytes} (HC : Lawful C dom valid ord).
Context (Hvb : ∀ k, valid k → Forall is_byte k).
Context (o : Options) (Hint : 1 <= block_restart_interval o) (pol : NamedPolicy).
Context (all : entries) (Hall : Forall (λ e, valid e.1 ∧ Forall is_byte e.2) all) (Hasc : ascending (ord := ord) all).
Context (fdom : bytes → Prop).
Context (Hpol : match pol with Some (P, _) => FilterLaws P fdom ∧ ready fdom (all.*1) | None => True end).
Context (Hname : match pol with Some (_, name) => Forall is_byte name | None => True end).

#[local] Instance finish_order : Order bytes := lawful_order.
Abbreviation full := (full (written := written) (valid := valid) (ord := ord) o pol).
Abbreviation inv := (inv (written := written) (refused := refused) (valid := valid) (ord := ord) o pol).
Abbreviation wrote := (wrote (written := written) (refused := refused)).

(** The metaindex block. *)
Lemma meta_ok (t : TableBuilder F) fh : options t = o → (pol = None ↔ filter_block t = None) → (pol = None ∨ handle_ok fh) →
  ∃ b meta, metaindex_block pol fh t = Ok b ∧
  building (block_restart_interval o) b meta.1 meta.2 ∧ readable meta (meta_entries pol fh).
Proof.
  intros Eo Hfb Hh. unfold metaindex_block. rewrite Eo.
  destruct (building_new (block_restart_interval o) Hint) as (b0 & E0 & Hb0). unfold mbind, res_bind. rewrite E0.
  unfold meta_entries. destruct pol as [[P name]|]; [destruct (filter_block t); [|by pose proof (proj2 Hfb eq_refl)]|by exists b0, ([], [0%nat]); split; [|split; [|split; apply Hb0 || done]]].
  destruct Hh as [|Hh]; [done|]. rewrite EncodeTo_ok by done. cbn [app].
  assert (Forall is_byte (filter_key name)) as Hk.
  { unfold filter_key. apply List.Forall_app. split; [repeat constructor; unfold is_byte; lia|done]. }
  destruct (Add_ok bytewise_lawful _ Hint b0 [] [0%nat] (filter_key name) (handle_bytes fh) Hb0) as (b & x & rs & E & Hb & Ex);
    [done|done|by apply handle_are_bytes|done|done|].
  exists b, ([x], rs). split.
  - rewrite <- E. apply Add_first. by rewrite (bu_buffer _ _ _ _ Hb0).
  - split; [done|]. pose proof (building_readable _ _ _ _ Hb) as Hr. split; [apply Hr..|]. unfold ents_of. cbn. by rewrite Ex.
Qed.

(** The filter block. *)
Lemma filter_written t ds cur : status t = Status.OK → all = concat (ents_of <$> ds) ++ cur →
  filter_ok pol (filter_block t) (filter_blocks ds cur) →
  written (file t) = file_of ds → offset t = Slice.size (file_of ds) → Slice.size (file_of ds) < 2 ^ 32 →
  ∃ h t' fbytes, write_filter_block address pol t = Ok (h, t') ∧ wrote t t' fbytes ∧
    (status t' = Status.OK → filter_stored pol ds fbytes h ∧ (pol = None ∨ handle_ok h)).
Proof.
  intros Hs Ee Hf Hw Ho Hsm. unfold write_filter_block.
  destruct (pol_cases pol fdom (all.*1) Hpol) as [Ep|(P & name & Ep)].
  { rewrite Ep. exists BlockHandle_new, t, []. split; [done|]. split; [|by split; [|left]].
    split; [by destruct t; eexists _, _, _|]. left. rewrite app_nil_r, Hw. done. }
  pose proof (filter_blocks_fit all ds cur all [] ltac:(by rewrite app_nil_r) Ee) as Hfit.
  destruct (filter_finish pol fdom (all.*1) Hpol P name _ _ Ep Hf Hfit) as (b & contents & Eb & Ec & Hbc & Hr).
  destruct (WriteRawBlock_ok address Haddr t contents) as (t' & E & Hwr); [by rewrite Hw, Ho|by rewrite Hw|done|].
  eexists _, t', (stored contents). rewrite Ep, Eb, Hs. cbn [Status.ok].
  unfold mbind, res_bind. rewrite Ec. split; [exact E|]. split; [done|]. intros Hs'.
  destruct Hwr as [_ [(_ & Ew & _ & Hsz)|[? _]]]; [|done]. rewrite Ew, size_app, stored_length, Hw in Hsz.
  pose proof (size_nonneg contents). pose proof (size_nonneg (file_of ds)).
  destruct Hr as (r & Er & Hlg & Hkey); [lia|]. split.
  - unfold filter_stored. exists contents, r. rewrite Ho. repeat split; try done.
    intros j h d e Hh Hd He. apply (Hkey _ ((ents_of d).*1)); [|by apply list_elem_of_fmap_2].
    unfold filter_blocks. apply elem_of_app. left. eapply list_elem_of_lookup_2. by eapply block_keys_lookup.
  - right. rewrite Ho. split; cbn; unfold unset; lia.
Qed.

Lemma add_index_entry_same (t t2 : TableBuilder F) k b : index_block t2 = index_block t → pending_handle t2 = pending_handle t →
  add_index_entry t k = Ok (set_pending (set_index_block (set_last_key t k) b) false (pending_handle t)) →
  add_index_entry t2 k = Ok (set_pending (set_index_block (set_last_key t2 k) b) false (pending_handle t2)).
Proof.
  intros E1 E2. unfold add_index_entry. cbn [pending_handle index_block last_key set_last_key]. rewrite E1, E2.
  unfold mbind, res_bind. destruct (EncodeTo (pending_handle t) []) as [h| |]; try done.
  destruct (BlockBuilder.Add 1 (index_block t) k h) as [b'| |]; try done. intros [= ->]. done.
Qed.

(** The last index entry. *)
Lemma last_index_ok t (t2 : TableBuilder F) ds ks : full t all ds [] ks →
  index_block t2 = index_block t → pending_handle t2 = pending_handle t →
  pending_index_entry t2 = pending_index_entry t → last_key t2 = last_key t →
  ∃ lk b ks2, last_index_entry t2 =
      Ok (set_pending (set_index_block (set_last_key t2 lk) b) false (pending_handle t2)) ∧
    (∃ il rs, building 1 b il rs ∧ item_entry <$> il = index_entries ks2 ds) ∧
    length ds = length ks2 ∧ Forall valid ks2 ∧ separates ks2 (ents_of <$> ds).
Proof.
  intros Hf X1 X2 X3 X4. unfold last_index_entry. pose proof (full_pending _ _ _ _ _ _ _ Hf) as Hp.
  assert (∀ ks2, separates ks2 ((ents_of <$> ds) ++ [[]]) → separates ks2 (ents_of <$> ds)) as Hsep2.
  { intros ks2 [S1 S2]. split; intros; [eapply S1|eapply S2]; try done; by apply lookup_app_l_Some. }
  rewrite X3. destruct (pending_index_entry t) eqn:Epe.
  - pose proof (full_ents _ _ _ _ _ _ _ Hf) as Ee. rewrite app_nil_r in Ee.
    destruct Hp as (_ & (h & Hh & _) & Hlen).
    pose proof (last_in_block _ _ Ee (full_blocks _ _ _ _ _ _ _ Hf)) as Hl.
    destruct (list.last ds) as [d|] eqn:El; [|by apply last_None in El; subst ds]. destruct Hl as (x & _ & Ex).
    rewrite X4, (full_last _ _ _ _ _ _ _ Hf x Ex).
    assert (x ∈ all) as Hx by (apply list.last_Some in Ex as [? ->]; apply elem_of_app; right; by apply list_elem_of_singleton).
    destruct (all_entry all Hall all [] x ltac:(by rewrite app_nil_r) Hx) as [Hvx _].
    destruct (lawful_successor x.1 Hvx) as (k & Ek & Hvk & Hk). unfold mbind, res_bind. rewrite Ek.
    destruct (add_index_ok HC Hvb o pol all Hasc t all ds ks k [] Hf Epe) as (b & E & Hi & Hlen2 & Hvs & Hsep); [by rewrite app_nil_r|done| |].
    { intros y Hy. rewrite Ex in Hy. injection Hy as <-. done. }
    exists k, b, (ks ++ [k]). split; [by eapply add_index_entry_same|]. split; [done|]. split; [done|]. split; [done|].
    apply Hsep2, Hsep; [done|]. by rewrite app_nil_r.
  - exists (last_key t2), (index_block t2), ks. split; [by destruct t2; cbn in *; subst|]. rewrite X1.
    split; [apply Hf|]. split; [by destruct Hp|]. split; [apply Hf|]. apply Hsep2. apply Hf.
Qed.

Lemma handle_at a n : 0 <= a → 0 <= n → a + n < 2 ^ 32 → handle_ok (mkHandle a n).
Proof. intros H1 H2 H3. split; cbn; unfold unset; lia. Qed.

Lemma wrote_ok t t' data : wrote t t' data → status t' = Status.OK →
  written (file t') = written (file t) ++ data ∧ offset t' = Slice.size (written (file t')) ∧
  Slice.size (written (file t')) < 2 ^ 32.
Proof. intros [_ [(_ & ? & ? & ?)|[? _]]]; done. Qed.

Lemma wrote_bad t t' data : wrote t t' data → status t' ≠ Status.OK → refused (file t').
Proof. intros [_ [(? & _)|(_ & ? & _)]]; done. Qed.

(** What is left of finishing when something was refused. *)
Lemma finish_refused fh (t : TableBuilder F) : status t ≠ Status.OK →
  write_metaindex_block address pol fh t = Ok (BlockHandle_new, t) ∧ write_index_block address t = Ok (BlockHandle_new, t) ∧
  ∀ mh ih, write_footer mh ih t = Ok t.
Proof.
  intros Hs. apply ok_false in Hs. unfold write_metaindex_block, write_index_block, write_footer. by rewrite Hs.
Qed.

(** The metaindex block in the file. *)
Lemma metaindex_written t fh : status t = Status.OK → options t = o → offset t = Slice.size (written (file t)) →
  Slice.size (written (file t)) < 2 ^ 32 → (pol = None ↔ filter_block t = None) → (pol = None ∨ handle_ok fh) →
  ∃ t' b meta, write_metaindex_block address pol fh t =
      Ok (mkHandle (offset t) (Slice.size b), t') ∧ wrote t t' (stored b) ∧
    readable meta (meta_entries pol fh) ∧ (status t' = Status.OK → b = contents_of meta).
Proof.
  intros Hs Eo Ho Hz Hfb Hfh. destruct (meta_ok t fh Eo Hfb Hfh) as (mb & meta & Em & Hmb & Hmr).
  destruct (WriteBlock_ok address Haddr t _ mb meta.1 meta.2 Hs Ho Hz Hmb) as (t2 & E2 & Hw2 & Hc2).
  exists t2, (BlockBuilder.Finish mb).1, meta. split; [|done].
  unfold write_metaindex_block. rewrite Hs. cbn [Status.ok]. unfold mbind, res_bind. by rewrite Em, E2.
Qed.

(** The index block in the file. *)
Lemma index_written t t2 ds ks : full t all ds [] ks → status t2 = Status.OK →
  index_block t2 = index_block t → pending_handle t2 = pending_handle t →
  pending_index_entry t2 = pending_index_entry t → last_key t2 = last_key t →
  offset t2 = Slice.size (written (file t2)) → Slice.size (written (file t2)) < 2 ^ 32 →
  ∃ t' b index ks2, write_index_block address t2 = Ok (mkHandle (offset t2) (Slice.size b), t') ∧
    (status t' = Status.OK → written (file t') = written (file t2) ++ stored b ∧
       offset t' = Slice.size (written (file t')) ∧ Slice.size (written (file t')) < 2 ^ 32 ∧ b = contents_of index) ∧
    (status t' ≠ Status.OK → refused (file t')) ∧
    readable index (index_entries ks2 ds) ∧ length ds = length ks2 ∧ Forall valid ks2 ∧ separates ks2 (ents_of <$> ds).
Proof.
  intros Hf Hs X1 X2 X3 X4 Ho Hz.
  destruct (last_index_ok t t2 ds ks Hf X1 X2 X3 X4) as (lk & bi & ks2 & E & (il & irs & Hbi & Eil) & Hlen & Hv & Hsep).
  set (t3 := set_pending _ _ _) in *.
  destruct (WriteBlock_ok address Haddr t3 1 bi il irs Hs Ho Hz Hbi) as (t4 & E4 & Hw4 & Hc4).
  exists (set_index_block t4 BlockBuilder.Reset), (BlockBuilder.Finish bi).1, (il, irs), ks2. split; [|split; [|split; [|split]]]; [..|done].
  - unfold write_index_block. rewrite Hs. cbn [Status.ok]. unfold mbind, res_bind. rewrite E.
    change (index_block t3) with bi. by rewrite E4.
  - intros Hs4. destruct (wrote_ok _ _ _ Hw4 Hs4) as (? & ? & ?). split; [done|]. split; [done|]. split; [done|]. by apply Hc4.
  - intros Hs4. by apply (wrote_bad _ _ _ Hw4).
  - pose proof (building_readable _ _ _ _ Hbi) as Hr. by rewrite Eil in Hr.
Qed.

Lemma write_footer_ok mh ih t : status t = Status.OK → offset t = Slice.size (written (file t)) → handle_ok mh → handle_ok ih →
  ∃ t', write_footer mh ih t = Ok t' ∧
    (status t' = Status.OK ∧ written (file t') = written (file t) ++ footer_bytes (mkFooter mh ih) ∧
       offset t' = Slice.size (written (file t')) ∧ Slice.size (written (file t')) < 2 ^ 32 ∨
     status t' ≠ Status.OK ∧ refused (file t')).
Proof.
  intros Hs Ho Hm Hi. unfold write_footer. rewrite Hs. cbn [Status.ok]. rewrite Footer_EncodeTo_ok by done.
  unfold mbind, res_bind. destruct (device_append (footer_bytes (mkFooter mh ih)) (file t)) as (s & f & -> & [(-> & Ew & Hz)|[Hn Hr]]).
  - eexists. split; [reflexivity|]. left. cbn [status file offset set_output Status.ok]. split; [done|]. split; [done|].
    split; [|done]. rewrite Ew, size_app in Hz |- *. pose proof (size_nonneg (written (file t))).
    pose proof (size_nonneg (footer_bytes (mkFooter mh ih))). rewrite Ho. by rewrite u64_small by lia.
  - eexists. split; [reflexivity|]. by right.
Qed.

(** Finishing a table that has been given all entries. *)
Lemma table_finish_ok t : inv t all →
  ∃ t', TableBuilder.Finish address pol t = Ok (status t', t') ∧
  (status t' = Status.OK ∧ FileSize t' = Slice.size (written (file t')) ∧
     (∃ ds ks fbytes fh meta index, table_file valid pol all (written (file t')) ds ks fbytes fh meta index) ∨
   status t' ≠ Status.OK ∧ refused (file t')).
Proof.
  intros Hi. unfold TableBuilder.Finish.
  destruct (FlushBlock_ok address Haddr o Hint pol all fdom Hpol t all [] Hi) as (t0 & E & Hi0 & Hf & _); [by rewrite app_nil_r|].
  rewrite E. clear E. unfold mbind at 1, res_bind at 1. rewrite (inv_closed _ _ _ _ Hi0). cbn [negb SkipList.assert_].
  unfold mbind, res_bind.
  destruct (decide (status t0 = Status.OK)) as [Hs|Hs].
  2:{ exists (set_closed t0). destruct (finish_refused BlockHandle_new (set_closed t0) Hs) as (E1 & E2 & E3).
      assert (write_filter_block address pol (set_closed t0) = Ok (BlockHandle_new, set_closed t0)) as ->.
      { unfold write_filter_block. change (status (set_closed t0)) with (status t0). rewrite (proj2 (ok_false _) Hs).
        by destruct pol as [[]|], (filter_block (set_closed t0)). }
      rewrite E1, E2, E3. split; [done|]. right. split; [done|]. by apply Hi0. }
  destruct (Hf Hs) as (ds & ks & Hfu). clear Hf. pose proof Hfu as [E1 _ Hg _ _ Hw Ho Hsm Hfi _ _ _ _].
  destruct (filter_written (set_closed t0) ds [] Hs E1 Hfi Hw Ho Hsm) as (fh & t1 & fbytes & E & Hw1 & Hfs).
  rewrite E. clear E.
  destruct (decide (status t1 = Status.OK)) as [Hs1|Hs1].
  2:{ exists t1. destruct (finish_refused fh t1 Hs1) as (-> & -> & ->). split; [done|]. right. split; [done|]. by eapply wrote_bad. }
  destruct (Hfs Hs1) as [Hfst Hfh]. destruct (wrote_ok _ _ _ Hw1 Hs1) as (W1 & O1 & Z1).
  destruct Hw1 as [(f1 & o1 & s1 & ->) _].
  destruct (metaindex_written (set_output (set_closed t0) f1 o1 s1) fh Hs1) as (t2 & mb & meta & E & Hw2 & Hmr & Hmc); try done.
  { apply Hi0. }
  { cbn. unfold filter_ok in Hfi. split; [intros Ep; by rewrite Ep in Hfi|]. intros En. rewrite En in Hfi.
    destruct (pol_cases pol fdom (all.*1) Hpol) as [|(P & name & Ep)]; [done|]. rewrite Ep in Hfi. by destruct Hfi as (? & ? & _). }
  rewrite E. clear E.
  destruct (decide (status t2 = Status.OK)) as [Hs2|Hs2].
  2:{ exists t2. destruct (finish_refused fh t2 Hs2) as (_ & -> & ->). split; [done|]. right. split; [done|]. by eapply wrote_bad. }
  specialize (Hmc Hs2). subst mb. destruct (wrote_ok _ _ _ Hw2 Hs2) as (W2 & O2 & Z2).
  destruct Hw2 as [(f2 & o2 & s2 & ->) _].
  destruct (index_written t0 (set_output (set_output (set_closed t0) f1 o1 s1) f2 o2 s2) ds ks Hfu Hs2)
    as (t3 & ib & index & ks2 & E & Hw3 & Hr3 & Hir & Hlen & Hv & Hsep); try done.
  rewrite E. clear E.
  destruct (decide (status t3 = Status.OK)) as [Hs3|Hs3].
  2:{ exists t3. destruct (finish_refused fh t3 Hs3) as (_ & _ & ->). split; [done|]. right. split; [done|]. by apply Hr3. }
  destruct (Hw3 Hs3) as (W3 & O3 & Z3 & ->). clear Hw3 Hr3. cbn [offset file set_output set_closed status] in *.
  rewrite W2, W1, Hw in W3. rewrite O1, W1, Hw. rewrite O2, W2, W1, Hw. rewrite <- app_assoc.
  assert (handle_ok (mkHandle (Slice.size (file_of ds ++ fbytes)) (Slice.size (contents_of meta))) ∧
    handle_ok (mkHandle (Slice.size (file_of ds ++ fbytes ++ stored (contents_of meta))) (Slice.size (contents_of index)))) as [Hm Hii].
  { rewrite W3, !size_app, !stored_length in Z3. pose proof (size_nonneg (file_of ds)). pose proof (size_nonneg fbytes).
    pose proof (size_nonneg (contents_of meta)). pose proof (size_nonneg (contents_of index)).
    split; apply handle_at; rewrite ?size_app, ?stored_length; lia. }
  destruct (write_footer_ok _ _ t3 Hs3 O3 Hm Hii) as (t4 & -> & [(Hs4 & W4 & O4 & Z4)|Hbad]); exists t4; (split; [done|]); [left|by right].
  split; [done|]. split; [done|]. exists ds, ks2, fbytes, fh, meta, index. split; try done.
  - by rewrite app_nil_r in E1.
  - rewrite W4, W3, <- !app_assoc. done.
Qed.
End finish.

(** * Reading a table file *)
Import Format.

(** * Caches

    [cached P c]: what the cache has under each key satisfies [P]. A lookup may drop
    entries, but it returns nothing that was not inserted. *)
Class CacheLaws (K : Type) `{BlockCache K} (cached : (bytes → Block.Block → Prop) → K → Prop) : Prop := {
  cached_mono (P Q : bytes → Block.Block → Prop) c : (∀ k b, P k b → Q k b) → cached P c → cached Q c;
  cached_new P c : cached P c → cached P (NewId c).2 ∧ 0 <= (NewId c).1 < 2 ^ 64;
  cached_lookup (P : bytes → Block.Block → Prop) k c : cached P c →
    cached P (CacheLookup k c).2 ∧ ∀ b, (CacheLookup k c).1 = Some b → P k b;
  cached_insert (P : bytes → Block.Block → Prop) k b n c : P k b → cached P c → cached P (CacheInsert k b n c)
}.

(** * Iterators that are the second of two *)
Lemma right_iterates {ord : Comparator bytes} {A B} (HA : Iterator A) (HB : Iterator B) l target (ready : B → Prop) (at_ : B → option nat → Prop) :
  Iterates (ord := ord) B l target ready at_ →
  Iterates (ord := ord) (A + B) l target (λ s, ∃ b, s = inr b ∧ ready b) (λ s p, ∃ b, s = inr b ∧ at_ b p).
Proof.
  intros HI. assert (∀ (r : res B) p, (∃ s', r = Ok s' ∧ at_ s' p) →
    ∃ s' : A + B, (s ← r; Ok (inr s)) = Ok s' ∧ ∃ b, s' = inr b ∧ at_ b p) as Hl.
  { intros r p (s' & -> & Ha). exists (inr s'). split; [done|]. by exists s'. }
  split.
  - intros s p (b & -> & Ha). exists b. split; [done|]. by eapply it_ready.
  - intros s (b & -> & Hr). by apply (it_status (ready := ready)).
  - intros s p (b & -> & Ha). exact (it_valid b p Ha).
  - intros s i (b & -> & Ha). exact (it_entry b i Ha).
  - intros s (b & -> & Hr). apply Hl. by apply it_first.
  - intros s (b & -> & Hr). apply Hl. by apply it_last.
  - intros s t (b & -> & Hr) Ht. apply Hl. by apply it_seek.
  - intros s i (b & -> & Ha). apply Hl. by apply it_next.
  - intros s i (b & -> & Ha). apply Hl. by apply it_prev.
Qed.

(** * Blocks *)

Definition block_ready (d : dblk) (s : EmptyIterator + Block.Iter) : Prop := ∃ b, s = inr b ∧ shape d.1 d.2 b.
Definition block_at (d : dblk) (s : EmptyIterator + Block.Iter) (p : option nat) : Prop := ∃ b, s = inr b ∧ at_pos d.1 d.2 b p.

Section blocks.
Context (d : dblk) (es : entries) (Hrd : readable d es) (Hsize : Slice.size (contents_of d) < 2 ^ 32).

Lemma readable_open {C : SliceComparator} :
  ∃ blk it, Block.new (contents_of d) = Ok blk ∧ Block.NewIterator blk = Ok it ∧ block_at d it None.
Proof.
  destruct (open_block d.1 d.2 (rd_restarts _ _ Hrd) Hsize) as (blk & it & E1 & E2 & Hs).
  exists blk, (inr it). split; [done|]. split; [done|]. by exists it.
Qed.

Lemma readable_iterates {C : SliceComparator} {dom valid : bytes → Prop} {ord : Comparator bytes} (HC : Lawful C dom valid ord) :
  Forall (λ e, dom e.1) es → ascending (ord := ord) es →
  Iterates (ord := ord) (H := Table.data_iterator (comparator := C)) (EmptyIterator + Block.Iter) es dom
    (block_ready d) (block_at d).
Proof.
  intros Hdom Hasc. destruct Hrd as [R1 R2 R3 R4]. unfold ents_of in R4. rewrite <- R4 in *.
  rewrite list.Forall_fmap in Hdom. change (Forall (λ e : item, dom (i_key e)) d.1) in Hdom.
  exact (right_iterates _ _ _ _ _ _ (block_iterates d.1 d.2 R1 R2 R3 Hsize HC Hdom Hasc)).
Qed.

Lemma block_at_ready it p : block_at d it p → block_ready d it.
Proof.
  intros (b & -> & Ha). exists b. split; [done|]. destruct p as [i|]; [by destruct Ha as (e & [])|by destruct Ha].
Qed.
End blocks.

(** * The table *)

Lemma policy_cases (pol : NamedPolicy) : pol = None ∨ ∃ P name, pol = Some (P, name).
Proof. destruct pol as [[P name]|]; [right; by eexists _, _|by left]. Qed.

Section table.
Context (address : bytes → Z) (Haddr : ∀ b, 0 <= address b) {F : Type} `{FileContents F contents} {K : Type} `{CacheLaws K cached}.
Context {C : SliceComparator} {dom valid : bytes → Prop} {ord : Comparator bytes} (HC : Lawful C dom valid ord).
Context (pol : NamedPolicy) (all : entries) (f : F) (ds : list dblk) (ks : list bytes) (fbytes : bytes) (fh : BlockHandle) (meta index : dblk).
Context (Htf : table_file (ord := ord) valid pol all (contents f) ds ks fbytes fh meta index).
Context (Hname : match pol with Some (_, name) => Forall is_byte name | None => True end).

#[local] Instance read_order : Order bytes := lawful_order.

(** The size of the parts. *)
Lemma part_small before x after : contents f = before ++ stored x ++ after →
  Slice.size before + Slice.size x + 5 < 2 ^ 32.
Proof.
  intros E. pose proof (tf_size _ _ _ _ _ _ _ _ _ _ Htf) as Hs. rewrite E, !size_app, stored_length in Hs.
  pose proof (size_nonneg after). lia.
Qed.

Lemma part_handle before x after : contents f = before ++ stored x ++ after →
  handle_ok (mkHandle (Slice.size before) (Slice.size x)).
Proof.
  intros E. pose proof (part_small _ _ _ E). pose proof (size_nonneg before). pose proof (size_nonneg x).
  split; cbn; unfold unset; lia.
Qed.

Lemma read_part verify before x after : contents f = before ++ stored x ++ after → Forall is_byte x →
  ∃ c, ReadBlock address f verify (mkHandle (Slice.size before) (Slice.size x)) = Ok (Status.OK, c) ∧ Format.data c = x.
Proof.
  intros E Hx. apply (ReadBlock_ok address Haddr f verify _ before x after); try done.
  pose proof (tf_size _ _ _ _ _ _ _ _ _ _ Htf). lia.
Qed.

(** Where the parts are. *)
Lemma data_part j h d : handles 0 ds !! j = Some h → ds !! j = Some d →
  ∃ before after, contents f = before ++ stored (contents_of d) ++ after ∧
    h = mkHandle (Slice.size before) (Slice.size (contents_of d)).
Proof.
  intros Hh Hd. destruct (handles_lookup _ _ _ _ Hh) as (d' & Hd' & ->). rewrite Hd in Hd'. injection Hd' as <-.
  eexists _, _. split; [|done]. rewrite (tf_file _ _ _ _ _ _ _ _ _ _ Htf), (file_of_at ds j d Hd) at 1.
  rewrite <- !app_assoc. done.
Qed.

Lemma meta_part : ∃ after, contents f = (file_of ds ++ fbytes) ++ stored (contents_of meta) ++ after.
Proof. eexists. rewrite (tf_file _ _ _ _ _ _ _ _ _ _ Htf), <- app_assoc. done. Qed.

Lemma index_part : ∃ after, contents f = (file_of ds ++ fbytes ++ stored (contents_of meta)) ++ stored (contents_of index) ++ after.
Proof. eexists. rewrite (tf_file _ _ _ _ _ _ _ _ _ _ Htf), <- !app_assoc. done. Qed.

Lemma good_readable d : d ∈ ds → readable d (ents_of d).
Proof.
  intros Hd. pose proof (tf_blocks _ _ _ _ _ _ _ _ _ _ Htf) as Hg. rewrite list.Forall_forall in Hg.
  destruct (Hg d Hd). by split.
Qed.

Lemma readable_bytes d es : readable d es → Forall is_byte (contents_of d).
Proof. intros Hr. apply block_are_bytes. apply Hr. Qed.

(** ** The cache *)

Definition holds_block (id : Z) (k : bytes) (b : Block.Block) : Prop :=
  ∀ j h d, handles 0 ds !! j = Some h → ds !! j = Some d →
    k = Coding.EncodeFixed64 id ++ Coding.EncodeFixed64 (offset_ h) → Block.new (contents_of d) = Ok b.

Definition cache_ok (id : Z) (c : option K) : Prop :=
  match c with Some c => cached (holds_block id) c | None => True end.

(** Nothing is in the cache under the number that the table will get. *)
Definition cache_fresh (c : option K) : Prop :=
  match c with Some c => cached (λ k _, take 8 k ≠ Coding.EncodeFixed64 (NewId c).1) c | None => True end.

Lemma fresh_ok c : cached (λ k _, take 8 k ≠ Coding.EncodeFixed64 (NewId c).1) c →
  cached (holds_block (NewId c).1) (NewId c).2.
Proof.
  intros Hc. apply (cached_mono (λ k _, take 8 k ≠ Coding.EncodeFixed64 (NewId c).1)); [|exact (proj1 (cached_new _ c Hc))].
  intros k b Hk j h d _ _ ->. destruct Hk. apply take_app_length'. symmetry. apply length_le_bytes.
Qed.

Lemma holds_block_new id j h d b : handles 0 ds !! j = Some h → ds !! j = Some d → Block.new (contents_of d) = Ok b →
  holds_block id (Coding.EncodeFixed64 id ++ Coding.EncodeFixed64 (offset_ h)) b.
Proof.
  intros Hh Hd Hb j' h' d' Hh' Hd' [_ E]%app_inj_1; [|done].
  pose proof (tf_size _ _ _ _ _ _ _ _ _ _ Htf) as Hs.
  assert (∀ i g, handles 0 ds !! i = Some g → 0 <= offset_ g < 2 ^ 64) as Hr.
  { intros i g Hg. destruct (handles_lookup _ _ _ _ Hg) as (x & Hx & _). destruct (data_part i g x Hg Hx) as (before & after & Ec & ->).
    pose proof (part_small _ _ _ Ec). pose proof (size_nonneg before). pose proof (size_nonneg (contents_of x)). cbn. lia. }
  assert (offset_ h = offset_ h') as Eo.
  { pose proof (Hr _ _ Hh). pose proof (Hr _ _ Hh'). unfold Coding.EncodeFixed64 in E.
    pose proof (f_equal le_of_bytes E) as E2. rewrite !le_of_bytes_le_bytes in E2. change (2 ^ (8 * Z.of_nat 8)) with (2 ^ 64) in E2. rewrite !Z.mod_small in E2 by lia. done. }
  pose proof (handles_inj ds j j' h h' Hh Hh' Eo) as <-. congruence.
Qed.

(** ** Opening *)

Definition filter_read (fl : option FilterBlock.FilterBlockReader) : Prop :=
  match pol with
  | Some (P, _) => ∃ contents r, fl = Some r ∧ FilterBlock.Reader_new contents = Ok r ∧ Forall is_byte contents ∧
      Slice.size contents < 2 ^ 32 ∧ FilterBlock.base_lg_ r < 64 ∧
      ∀ j h d e, handles 0 ds !! j = Some h → ds !! j = Some d → e ∈ ents_of d →
        FilterBlock.KeyMayMatch (policy_ := P) r (offset_ h) e.1 = Ok true
  | None => fl = None
  end.

Record table_ready (o : Options) (t : Table.Table F K) : Prop := {
  tr_file : Table.file t = f;
  tr_options : Table.options t = o;
  tr_index : Block.new (contents_of index) = Ok (Table.index_block t);
  tr_cache : cache_ok (Table.cache_id t) (Table.block_cache t);
  tr_filter : filter_read (Table.filter t);
  tr_meta : Table.metaindex_handle t = mkHandle (Slice.size (file_of ds ++ fbytes)) (Slice.size (contents_of meta))
}.

Lemma ReadFilter_ok (t : Table.Table F K) : Table.file t = f → pol ≠ None →
  ∃ r, Table.ReadFilter address (handle_bytes fh) t = Ok (Table.set_filter t r) ∧ filter_read (Some r).
Proof.
  intros Ef Hp. pose proof (tf_filter _ _ _ _ _ _ _ _ _ _ Htf) as Hf. unfold filter_stored, filter_read in *.
  destruct (policy_cases pol) as [Ep|(P & name & Ep)]; [done|]. rewrite Ep in Hf |- *. destruct Hf as (cs & r & Efb & Hb & Efh & Er & Hlg & Hk). rewrite Efh.
  assert (contents f = file_of ds ++ stored cs ++ stored (contents_of meta) ++ stored (contents_of index) ++ footer_bytes
    (mkFooter (mkHandle (Slice.size (file_of ds ++ fbytes)) (Slice.size (contents_of meta)))
      (mkHandle (Slice.size (file_of ds ++ fbytes ++ stored (contents_of meta))) (Slice.size (contents_of index))))) as Ec
    by (rewrite (tf_file _ _ _ _ _ _ _ _ _ _ Htf), Efb; done).
  exists r. split.
  - unfold Table.ReadFilter. rewrite <- (app_nil_r (handle_bytes _)), DecodeFrom_ok by (exact (part_handle _ _ _ Ec) || done).
    unfold mbind, res_bind. cbn [Status.ok negb]. rewrite Ef.
    destruct (read_part (paranoid_checks (Table.options t)) _ _ _ Ec Hb) as (c & -> & Edc). cbn [Status.ok negb]. by rewrite Edc, Er.
  - exists cs, r. pose proof (part_small _ _ _ Ec). pose proof (size_nonneg (file_of ds)). repeat split; try done. lia.
Qed.

Lemma filter_key_bytes name : Forall is_byte name → Forall is_byte (TableBuilder.filter_key name).
Proof. intros Hn. apply List.Forall_app. split; [repeat constructor; unfold is_byte; lia|done]. Qed.

(** The iterator over the metaindex block, at the entry of the filter. *)
Lemma meta_seek name fhb : Forall is_byte name → meta_entries pol fh = [(TableBuilder.filter_key name, fhb)] →
  ∃ blk it it', Block.new (contents_of meta) = Ok blk ∧ Block.NewIterator blk = Ok it ∧
    Seek (Iterator := Table.meta_iterator) (TableBuilder.filter_key name) it = Ok it' ∧
    Valid (Iterator := Table.meta_iterator) it' = true ∧
    key (Iterator := Table.meta_iterator) it' = Ok (TableBuilder.filter_key name) ∧
    value (Iterator := Table.meta_iterator) it' = Ok fhb.
Proof.
  intros Hn Em. pose proof (tf_meta _ _ _ _ _ _ _ _ _ _ Htf) as Hm. rewrite Em in Hm.
  assert (Slice.size (contents_of meta) < 2 ^ 32) as Hs.
  { destruct meta_part as (after & Ec). pose proof (part_small _ _ _ Ec).
    pose proof (size_nonneg (file_of ds ++ fbytes)). lia. }
  destruct (readable_open meta _ Hm Hs (C := Bytewise.BytewiseComparator)) as (blk & it & E1 & E2 & Hit).
  assert (Forall (λ e : bytes * bytes, True) [(TableBuilder.filter_key name, fhb)]) as Hd by by repeat constructor.
  assert (ascending (ord := bytewise_order) [(TableBuilder.filter_key name, fhb)]) as Ha by by repeat constructor.
  pose proof (readable_iterates meta _ Hm Hs bytewise_lawful Hd Ha) as HI.
  destruct (it_seek (Iterates := HI) it (TableBuilder.filter_key name)) as (it' & E3 & Hat); [by eapply block_at_ready|done|].
  cbn [seek_index fst] in Hat. rewrite (cmp_refl (H := bytewise_order)) in Hat. change (0 <? 0) with false in Hat. cbv iota in Hat.
  rewrite pos_at_lt in Hat by (cbn; lia).
  pose proof (it_valid (Iterates := HI) it' _ Hat) as Hv. destruct (it_entry (Iterates := HI) it' _ Hat) as (e & [= <-] & Ek & Ev).
  exists blk, it, it'. split; [done|]. split; [done|]. split; [done|]. split; [exact Hv|]. done.
Qed.

Lemma ReadMeta_ok footer (t : Table.Table F K) : Table.file t = f → Table.filter t = None →
  metaindex_handle_ footer = mkHandle (Slice.size (file_of ds ++ fbytes)) (Slice.size (contents_of meta)) →
  ∃ t', Table.ReadMeta address pol footer t = Ok t' ∧ filter_read (Table.filter t') ∧
    (t' = t ∨ ∃ r, t' = Table.set_filter t r).
Proof.
  intros Ef En Eh. unfold Table.ReadMeta. pose proof (tf_meta _ _ _ _ _ _ _ _ _ _ Htf) as Hm.
  pose proof Hname as Hn. unfold filter_read.
  destruct (policy_cases pol) as [Ep|(P & name & Ep)]; rewrite Ep in Hn |- *; [exists t; by split; [|split; [|left]]|].
  destruct (meta_seek name (handle_bytes fh) Hn ltac:(by unfold meta_entries; rewrite Ep)) as (blk & it & it' & E1 & E2 & E3 & E4 & E5 & E6).
  destruct meta_part as (after & Ec). rewrite Ef, Eh.
  destruct (read_part (paranoid_checks (Table.options t)) _ _ _ Ec) as (c & -> & Edc); [by eapply readable_bytes|].
  unfold mbind, res_bind. cbn [Status.ok negb]. rewrite Edc, E1, E2, E3, E4, E5, eqb_refl, E6.
  destruct (ReadFilter_ok t Ef ltac:(by rewrite Ep)) as (r & Er & Hr). rewrite Er. unfold filter_read in Hr. rewrite Ep in Hr. eexists. split; [done|]. split; [exact Hr|]. right. by eexists.
Qed.

Lemma file_long : kEncodedLength <= Slice.size (contents f).
Proof.
  rewrite (tf_file _ _ _ _ _ _ _ _ _ _ Htf), !size_app. unfold Slice.size at 5. rewrite footer_length.
  pose proof (size_nonneg (file_of ds)). pose proof (size_nonneg fbytes). pose proof (size_nonneg (stored (contents_of meta))).
  pose proof (size_nonneg (stored (contents_of index))). unfold kEncodedLength, kMaxEncodedLength. lia.
Qed.

(** Opening the file. *)
Lemma Open_ok o (c : option K) : cache_fresh c →
  ∃ t, Table.Open address pol o c f (Slice.size (contents f)) = Ok (Status.OK, Some t) ∧ table_ready o t.
Proof.
  intros Hfresh. pose proof file_long as Hlong. unfold Table.Open. rewrite (proj2 (Z.ltb_ge _ _)) by done.
  destruct (pread_contents f (Slice.size (contents f) - kEncodedLength) kEncodedLength) as (in_buf & ->);
    [lia|by unfold kEncodedLength, kMaxEncodedLength; lia|lia|].
  set (mh := mkHandle (Slice.size (file_of ds ++ fbytes)) (Slice.size (contents_of meta))).
  set (ih := mkHandle (Slice.size (file_of ds ++ fbytes ++ stored (contents_of meta))) (Slice.size (contents_of index))).
  assert (take (Z.to_nat kEncodedLength) (drop (Z.to_nat (Slice.size (contents f) - kEncodedLength)) (contents f)) =
    footer_bytes (mkFooter mh ih)) as ->.
  { assert (contents f = (file_of ds ++ fbytes ++ stored (contents_of meta) ++ stored (contents_of index)) ++
      footer_bytes (mkFooter mh ih)) as Ec by (rewrite <- !app_assoc; apply Htf).
    rewrite Ec at 2. rewrite drop_app_length'.
    - apply take_ge. rewrite footer_length. unfold kEncodedLength, kMaxEncodedLength. lia.
    - rewrite Ec. unfold Slice.size, kEncodedLength, kMaxEncodedLength. rewrite (length_app _ (footer_bytes _)), footer_length. lia. }
  destruct meta_part as (am & Em). destruct index_part as (ai & Ei).
  rewrite Footer_DecodeFrom_ok by (exact (part_handle _ _ _ Em) || exact (part_handle _ _ _ Ei)). unfold mbind, res_bind. cbn [Status.ok negb index_handle_ metaindex_handle_].
  pose proof (tf_index _ _ _ _ _ _ _ _ _ _ Htf) as Hix.
  destruct (read_part (paranoid_checks o) _ _ _ Ei) as (ci & Er & Edc); [by eapply readable_bytes|].
  fold ih in Er. rewrite Er. cbn [Status.ok negb]. rewrite Edc.
  assert (Slice.size (contents_of index) < 2 ^ 32) as Hs.
  { pose proof (part_small _ _ _ Ei). pose proof (size_nonneg (file_of ds ++ fbytes ++ stored (contents_of meta))). lia. }
  destruct (readable_open index _ Hix Hs (C := Bytewise.BytewiseComparator)) as (blk & _ & Eb & _). rewrite Eb.
  set (idc := match c with Some c => let '(id, c) := NewId c in (id, Some c) | None => (0, None) end).
  assert (cache_ok idc.1 idc.2) as Hc.
  { unfold idc. destruct c as [c|]; [|done]. cbn in Hfresh. pose proof (fresh_ok c Hfresh). by destruct (NewId c). }
  destruct idc as [id c']. cbn [fst snd] in Hc.
  destruct (ReadMeta_ok (mkFooter mh ih) (Table.mkTable o c' f id None mh blk) eq_refl eq_refl eq_refl) as (t & -> & Hfl & Ht).
  exists t. split; [done|]. by destruct Ht as [->|(r & ->)]; split.
Qed.
End table.
