(* ===== verification/LdbCache.v ===== *)
(** LevelDB's cache ([util/cache.cc]): shards that each have a hash table of entries and
    two lists of them, one of the entries that clients hold and one of the others, oldest
    first. *)
From S2P Require Import Prelude LdbSkip LdbFormat LdbFilter.

Module Cache.
Section cache.

(** What clients store. *)
Context {V : Type}.

(** [LRUHandle]. A pointer is an address, NULL is [None]; [next] and [prev] are not set
    ([None]) when the entry is new, and the heads of lists have no [value]. *)
Record LRUHandle := mkHandle {
  value : option V; next_hash : option nat; next : option nat; prev : option nat;
  charge : Z; key_data : bytes; in_cache : bool; refs : Z; hash : Z
}.

Definition set_next_hash (n : LRUHandle) (p : option nat) : LRUHandle :=
  mkHandle (value n) p (next n) (prev n) (charge n) (key_data n) (in_cache n) (refs n) (hash n).
Definition link_next (n : LRUHandle) (p : nat) : LRUHandle :=
  mkHandle (value n) (next_hash n) (Some p) (prev n) (charge n) (key_data n) (in_cache n) (refs n) (hash n).
Definition link_prev (n : LRUHandle) (p : nat) : LRUHandle :=
  mkHandle (value n) (next_hash n) (next n) (Some p) (charge n) (key_data n) (in_cache n) (refs n) (hash n).
Definition set_in_cache (n : LRUHandle) (b : bool) : LRUHandle :=
  mkHandle (value n) (next_hash n) (next n) (prev n) (charge n) (key_data n) b (refs n) (hash n).
Definition set_refs (n : LRUHandle) (r : Z) : LRUHandle :=
  mkHandle (value n) (next_hash n) (next n) (prev n) (charge n) (key_data n) (in_cache n) r (hash n).

(** The entries of a shard, and the heads of its lists, of which only the links are used. *)
Abbreviation Heap := (gmap nat LRUHandle).

(** [key()]. The temporary handles that its comment speaks of are not used any more. *)
Definition handle_key (a : nat) (n : LRUHandle) : res bytes :=
  nx ← of_option (next n);
  if bool_decide (nx = a) then UB else Ok (key_data n).

Definition get (hp : Heap) (a : nat) : res LRUHandle := of_option (hp !! a).
Definition update (hp : Heap) (a : nat) (f : LRUHandle → LRUHandle) : res Heap :=
  n ← get hp a; Ok (<[a := f n]> hp).

(** ** [HandleTable] *)

Record HandleTable := mkTable { length_ : Z; elems_ : Z; list_ : list (option nat) }.

(** A pointer to a pointer: in the array or in an entry. *)
Inductive Slot := InBucket (i : nat) | InEntry (a : nat).

Definition read_slot (hp : Heap) (t : HandleTable) (s : Slot) : res (option nat) :=
  match s with
  | InBucket i => of_option (list_ t !! i)
  | InEntry a => n ← get hp a; Ok (next_hash n)
  end.
Definition write_slot (hp : Heap) (t : HandleTable) (s : Slot) (p : option nat) : res (Heap * HandleTable) :=
  match s with
  | InBucket i => Ok (hp, mkTable (length_ t) (elems_ t) (<[i := p]> (list_ t)))
  | InEntry a => hp ← update hp a (λ n, set_next_hash n p); Ok (hp, t)
  end.

Definition bucket (t : HandleTable) (h : Z) : nat := Z.to_nat (Z.land h (u32 (length_ t - 1))).

Fixpoint find_loop (fuel : nat) (hp : Heap) (t : HandleTable) (key : bytes) (h : Z) (s : Slot) : res Slot :=
  match fuel with
  | O => NoFuel
  | S fuel' =>
      p ← read_slot hp t s;
      match p with
      | None => Ok s
      | Some a =>
          n ← get hp a;
          differs ← (if negb (hash n =? h) then Ok true
                     else k ← handle_key a n; Slice.neqb key k);
          if differs : bool then find_loop fuel' hp t key h (InEntry a) else Ok s
      end
  end.
(** A chain has at most the entries of the heap. *)
Definition FindPointer (hp : Heap) (t : HandleTable) (key : bytes) (h : Z) : res Slot :=
  find_loop (S (size hp)) hp t key h (InBucket (bucket t h)).

Fixpoint grow (fuel : nat) (new_length elems : Z) : res Z :=
  match fuel with
  | O => NoFuel
  | S fuel' => if new_length <? elems then grow fuel' (u32 (new_length * 2)) elems else Ok new_length
  end.

(** The chain from [h] is moved to the new array. *)
Fixpoint move_chain (fuel : nat) (hp : Heap) (new_length : Z) (new_list : list (option nat)) (h : option nat) (count : Z)
    : res (Heap * list (option nat) * Z) :=
  match fuel with
  | O => NoFuel
  | S fuel' =>
      match h with
      | None => Ok (hp, new_list, count)
      | Some a =>
          n ← get hp a;
          let i := Z.to_nat (Z.land (hash n) (u32 (new_length - 1))) in
          p ← of_option (new_list !! i);
          hp' ← update hp a (λ n, set_next_hash n p);
          move_chain fuel' hp' new_length (<[i := Some a]> new_list) (next_hash n) (u32 (count + 1))
      end
  end.
Fixpoint move_chains (hp : Heap) (new_length : Z) (old_list : list (option nat)) (new_list : list (option nat)) (count : Z)
    : res (Heap * list (option nat) * Z) :=
  match old_list with
  | [] => Ok (hp, new_list, count)
  | h :: old_list =>
      '(hp, new_list, count) ← move_chain (S (size hp)) hp new_length new_list h count;
      move_chains hp new_length old_list new_list count
  end.

Definition Resize (hp : Heap) (t : HandleTable) : res (Heap * HandleTable) :=
  new_length ← grow 33 4 (elems_ t);
  let new_list := replicate (Z.to_nat new_length) None in
  '(hp, new_list, count) ← move_chains hp new_length (list_ t) new_list 0;
  SkipList.assert_ (elems_ t =? count);;
  Ok (hp, mkTable new_length (elems_ t) new_list).

Definition HandleTable_new (hp : Heap) : res (Heap * HandleTable) := Resize hp (mkTable 0 0 []).

Definition table_Lookup (hp : Heap) (t : HandleTable) (key : bytes) (h : Z) : res (option nat) :=
  s ← FindPointer hp t key h; read_slot hp t s.

Definition table_Insert (hp : Heap) (t : HandleTable) (a : nat) : res (option nat * Heap * HandleTable) :=
  n ← get hp a;
  k ← handle_key a n;
  s ← FindPointer hp t k (hash n);
  old ← read_slot hp t s;
  nh ← match old with None => Ok None | Some o => n ← get hp o; Ok (next_hash n) end;
  hp ← update hp a (λ n, set_next_hash n nh);
  '(hp, t) ← write_slot hp t s (Some a);
  match old with
  | Some _ => Ok (old, hp, t)
  | None =>
      let t := mkTable (length_ t) (u32 (elems_ t + 1)) (list_ t) in
      '(hp, t) ← (if length_ t <? elems_ t then Resize hp t else Ok (hp, t));
      Ok (old, hp, t)
  end.

Definition table_Remove (hp : Heap) (t : HandleTable) (key : bytes) (h : Z) : res (option nat * Heap * HandleTable) :=
  s ← FindPointer hp t key h;
  result ← read_slot hp t s;
  match result with
  | None => Ok (None, hp, t)
  | Some a =>
      n ← get hp a;
      '(hp, t) ← write_slot hp t s (next_hash n);
      Ok (result, hp, mkTable (length_ t) (u32 (elems_ t - 1)) (list_ t))
  end.

(** ** [LRUCache]: a shard *)

(** With its entries, and the calls of deleters so far. *)
Record LRUCache := mkLRU {
  heap : Heap; capacity_ : Z; usage_ : Z; table_ : HandleTable; deleted : list (bytes * V)
}.

(** [&lru_] and [&in_use_] *)
Definition lru_ : nat := 0.
Definition in_use_ : nat := 1.

(** [LRUCache()]: both lists are empty; the capacity is set later. *)
Definition list_head (a : nat) : LRUHandle := mkHandle None None (Some a) (Some a) 0 [] false 0 0.
Definition LRUCache_new : res LRUCache :=
  '(hp, t) ← HandleTable_new (<[lru_ := list_head lru_]> {[in_use_ := list_head in_use_]});
  Ok (mkLRU hp 0 0 t []).

Definition with_heap (c : LRUCache) (hp : Heap) : LRUCache := mkLRU hp (capacity_ c) (usage_ c) (table_ c) (deleted c).
Definition set_usage (c : LRUCache) (u : Z) : LRUCache := mkLRU (heap c) (capacity_ c) u (table_ c) (deleted c).
Definition set_table (c : LRUCache) (hp : Heap) (t : HandleTable) : LRUCache := mkLRU hp (capacity_ c) (usage_ c) t (deleted c).
Definition SetCapacity (c : LRUCache) (capacity : Z) : LRUCache := mkLRU (heap c) capacity (usage_ c) (table_ c) (deleted c).
Definition TotalCharge (c : LRUCache) : Z := usage_ c.

Definition modify (c : LRUCache) (a : nat) (f : LRUHandle → LRUHandle) : res LRUCache :=
  hp ← update (heap c) a f; Ok (with_heap c hp).

Definition LRU_Remove (hp : Heap) (e : nat) : res Heap :=
  n ← get hp e;
  nx ← of_option (next n); pv ← of_option (prev n);
  hp ← update hp nx (λ m, link_prev m pv);
  update hp pv (λ m, link_next m nx).

Definition LRU_Append (hp : Heap) (list e : nat) : res Heap :=
  hp ← update hp e (λ n, link_next n list);
  l ← get hp list; pv ← of_option (prev l);
  hp ← update hp e (λ n, link_prev n pv);
  hp ← update hp pv (λ n, link_next n e);
  update hp list (λ n, link_prev n e).

Definition Ref (c : LRUCache) (e : nat) : res LRUCache :=
  n ← get (heap c) e;
  hp ← (if (refs n =? 1) && in_cache n then hp ← LRU_Remove (heap c) e; LRU_Append hp in_use_ e else Ok (heap c));
  modify (with_heap c hp) e (λ n, set_refs n (u32 (refs n + 1))).

(** The deleter is called before the entry is freed. *)
Definition Unref (c : LRUCache) (e : nat) : res LRUCache :=
  n ← get (heap c) e;
  SkipList.assert_ (0 <? refs n);;
  c ← modify c e (λ n, set_refs n (u32 (refs n - 1)));
  n ← get (heap c) e;
  if refs n =? 0 then
    SkipList.assert_ (negb (in_cache n));;
    k ← handle_key e n;
    v ← of_option (value n);
    Ok (mkLRU (delete e (heap c)) (capacity_ c) (usage_ c) (table_ c) (deleted c ++ [(k, v)]))
  else if in_cache n && (refs n =? 1) then
    hp ← LRU_Remove (heap c) e;
    hp ← LRU_Append hp lru_ e;
    Ok (with_heap c hp)
  else Ok c.

Definition FinishErase (c : LRUCache) (e : option nat) : res (bool * LRUCache) :=
  match e with
  | None => Ok (false, c)
  | Some e =>
      n ← get (heap c) e;
      SkipList.assert_ (in_cache n);;
      hp ← LRU_Remove (heap c) e;
      c ← modify (with_heap c hp) e (λ n, set_in_cache n false);
      n ← get (heap c) e;
      c ← Unref (set_usage c (u64 (usage_ c - charge n))) e;
      Ok (true, c)
  end.

(** [Lookup] returns the entry or NULL, to be released. *)
Definition Lookup (c : LRUCache) (key : bytes) (h : Z) : res (option nat * LRUCache) :=
  e ← table_Lookup (heap c) (table_ c) key h;
  match e with
  | Some a => c ← Ref c a; Ok (Some a, c)
  | None => Ok (None, c)
  end.

Definition Release (c : LRUCache) (e : nat) : res LRUCache := Unref c e.

Definition oldest (c : LRUCache) : res nat := n ← get (heap c) lru_; of_option (next n).

(** Erasing the oldest entry that no client holds. *)
Definition evict (c : LRUCache) (old : nat) : res LRUCache :=
  n ← get (heap c) old;
  SkipList.assert_ (refs n =? 1);;
  k ← handle_key old n;
  '(e, hp, t) ← table_Remove (heap c) (table_ c) k (hash n);
  '(erased, c) ← FinishErase (set_table c hp t) e;
  SkipList.assert_ erased;;
  Ok c.

Fixpoint evict_loop (fuel : nat) (c : LRUCache) : res LRUCache :=
  match fuel with
  | O => NoFuel
  | S fuel' =>
      old ← oldest c;
      if (capacity_ c <? usage_ c) && negb (bool_decide (old = lru_)) then
        c ← evict c old; evict_loop fuel' c
      else Ok c
  end.

Definition Insert (c : LRUCache) (key : bytes) (h : Z) (v : V) (charge : Z) : res (nat * LRUCache) :=
  let e := fresh (dom (heap c)) in
  let n := mkHandle (Some v) None None None charge key false 1 h in
  let c := with_heap c (<[e := n]> (heap c)) in
  c ← (if 0 <? capacity_ c then
         c ← modify c e (λ n, set_refs n (u32 (refs n + 1)));
         c ← modify c e (λ n, set_in_cache n true);
         hp ← LRU_Append (heap c) in_use_ e;
         let c := set_usage (with_heap c hp) (u64 (usage_ c + charge)) in
         '(old, hp, t) ← table_Insert (heap c) (table_ c) e;
         '(_, c) ← FinishErase (set_table c hp t) old;
         Ok c
       else Ok c);
  c ← evict_loop (S (size (heap c))) c;
  Ok (e, c).

Definition Erase (c : LRUCache) (key : bytes) (h : Z) : res LRUCache :=
  '(e, hp, t) ← table_Remove (heap c) (table_ c) key h;
  '(_, c) ← FinishErase (set_table c hp t) e;
  Ok c.

Fixpoint prune_loop (fuel : nat) (c : LRUCache) : res LRUCache :=
  match fuel with
  | O => NoFuel
  | S fuel' =>
      old ← oldest c;
      if negb (bool_decide (old = lru_)) then c ← evict c old; prune_loop fuel' c else Ok c
  end.
Definition shard_Prune (c : LRUCache) : res LRUCache := prune_loop (S (size (heap c))) c.

(** [~LRUCache()]: clients must hold nothing. *)
Fixpoint destroy_loop (fuel : nat) (c : LRUCache) (e : nat) : res LRUCache :=
  match fuel with
  | O => NoFuel
  | S fuel' =>
      if bool_decide (e = lru_) then Ok c
      else
        n ← get (heap c) e;
        next ← of_option (next n);
        SkipList.assert_ (in_cache n);;
        c ← modify c e (λ n, set_in_cache n false);
        SkipList.assert_ (refs n =? 1);;
        c ← Unref c e;
        destroy_loop fuel' c next
  end.
Definition destroy (c : LRUCache) : res LRUCache :=
  n ← get (heap c) in_use_;
  nx ← of_option (next n);
  SkipList.assert_ (bool_decide (nx = in_use_));;
  e ← oldest c;
  destroy_loop (S (size (heap c))) c e.

(** ** [ShardedLRUCache] *)

Definition kNumShardBits : Z := 4.
Definition kNumShards : Z := Z.shiftl 1 kNumShardBits.

(** A handle is a pointer to an entry of one of the shards. *)
Record ShardedLRUCache := mkSharded { shard_ : list LRUCache; last_id_ : Z }.
Definition Handle : Type := nat * nat.

Definition HashSlice (s : bytes) : res Z := Hash.Hash s 0.
Definition Shard (hash : Z) : nat := Z.to_nat (Z.shiftr hash (32 - kNumShardBits)).

(** An operation of one shard. *)
Definition on_shard {A} (i : nat) (f : LRUCache → res (A * LRUCache)) (c : ShardedLRUCache) : res (A * ShardedLRUCache) :=
  s ← of_option (shard_ c !! i);
  '(r, s) ← f s;
  Ok (r, mkSharded (<[i := s]> (shard_ c)) (last_id_ c)).
Definition no_result (f : LRUCache → res LRUCache) (s : LRUCache) : res (unit * LRUCache) := s ← f s; Ok (tt, s).

Definition Sharded_new (capacity : Z) : res ShardedLRUCache :=
  let per_shard := u64 (capacity + (kNumShards - 1)) / kNumShards in
  s ← LRUCache_new;
  Ok (mkSharded (replicate (Z.to_nat kNumShards) (SetCapacity s per_shard)) 0).

Definition cache_Insert (key : bytes) (v : V) (charge : Z) (c : ShardedLRUCache) : res (Handle * ShardedLRUCache) :=
  h ← HashSlice key;
  '(e, c) ← on_shard (Shard h) (λ s, Insert s key h v charge) c;
  Ok ((Shard h, e), c).

Definition cache_Lookup (key : bytes) (c : ShardedLRUCache) : res (option Handle * ShardedLRUCache) :=
  h ← HashSlice key;
  '(e, c) ← on_shard (Shard h) (λ s, Lookup s key h) c;
  Ok (match e with Some e => Some (Shard h, e) | None => None end, c).

Definition deref (c : ShardedLRUCache) (h : Handle) : res LRUHandle :=
  s ← of_option (shard_ c !! h.1); get (heap s) h.2.

(** The shard is found by the hash of the entry; the pointer is one of its entries. *)
Definition cache_Release (h : Handle) (c : ShardedLRUCache) : res ShardedLRUCache :=
  n ← deref c h;
  if bool_decide (Shard (hash n) = h.1) then '(_, c) ← on_shard (Shard (hash n)) (no_result (λ s, Release s h.2)) c; Ok c
  else UB.

Definition cache_Erase (key : bytes) (c : ShardedLRUCache) : res ShardedLRUCache :=
  h ← HashSlice key;
  '(_, c) ← on_shard (Shard h) (no_result (λ s, Erase s key h)) c; Ok c.

Definition cache_Value (h : Handle) (c : ShardedLRUCache) : res V := n ← deref c h; of_option (value n).

Definition cache_NewId (c : ShardedLRUCache) : Z * ShardedLRUCache :=
  let id := u64 (last_id_ c + 1) in (id, mkSharded (shard_ c) id).

Fixpoint prune_shards (l : list LRUCache) : res (list LRUCache) :=
  match l with
  | [] => Ok []
  | s :: l => s ← shard_Prune s; l ← prune_shards l; Ok (s :: l)
  end.
Definition cache_Prune (c : ShardedLRUCache) : res ShardedLRUCache :=
  l ← prune_shards (shard_ c); Ok (mkSharded l (last_id_ c)).

Definition cache_TotalCharge (c : ShardedLRUCache) : Z :=
  foldl (λ total s, u64 (total + TotalCharge s)) 0 (shard_ c).

Definition NewLRUCache : Z → res ShardedLRUCache := Sharded_new.
End cache.
End Cache.
