(* ===== verification/LdbCacheTable.v ===== *)
(** The lists of LevelDB's cache: circular doubly linked lists of entries, under removal
    and insertion before the head.

    The hash table of LevelDB's cache: chains of entries, under lookup, insertion,
    removal and growth. *)
From S2P Require Import Prelude LdbSkip LdbFormat LdbCodingProps LdbCache.
Import Cache.

Section lists.
Context {V : Type}.
Abbreviation LRUHandle := (LRUHandle (V := V)).
Implicit Types (hp : gmap nat LRUHandle) (l : list nat).

(** * Heaps *)

Lemma update_ok hp a f : is_Some (hp !! a) → update hp a f = Ok (alter f a hp).
Proof.
  intros [n Hn]. unfold update, get. rewrite Hn. cbn. f_equal. apply map_eq. intros x.
  destruct (decide (x = a)) as [->|N].
  - by rewrite lookup_insert_eq, lookup_alter_eq, Hn.
  - by rewrite lookup_insert_ne, lookup_alter_ne.
Qed.

Lemma alter_is_Some hp (f : LRUHandle → LRUHandle) a x : is_Some (alter f a hp !! x) ↔ is_Some (hp !! x).
Proof.
  destruct (decide (x = a)) as [->|N]; [rewrite lookup_alter_eq; apply fmap_is_Some|by rewrite lookup_alter_ne].
Qed.

(** What links do not say about an entry. *)
Definition payload (n : LRUHandle) : option V * option nat * Z * bytes * bool * Z * Z :=
  (value n, next_hash n, charge n, key_data n, in_cache n, refs n, hash n).

Definition nextp hp (a : nat) : option nat := n ← hp !! a; next n.
Definition prevp hp (a : nat) : option nat := n ← hp !! a; prev n.

(** Only links of [S] change. *)
Record relinked hp hp' (S : list nat) : Prop := {
  rl_payload x : payload <$> hp' !! x = payload <$> hp !! x;
  rl_frame x : x ∉ S → hp' !! x = hp !! x
}.

Lemma relinked_refl hp S : relinked hp hp S.
Proof. done. Qed.

Lemma relinked_trans hp hp' hp'' S : relinked hp hp' S → relinked hp' hp'' S → relinked hp hp'' S.
Proof. intros [H1 H2] [H3 H4]. split; intros x; [by rewrite H3|intros Hx; by rewrite H4, H2]. Qed.

Lemma relinked_next hp a b S : a ∈ S → relinked hp (alter (λ n, link_next n b) a hp) S.
Proof.
  intros Ha. split; intros x; (destruct (decide (x = a)) as [->|N]; [rewrite lookup_alter_eq|by rewrite lookup_alter_ne]).
  - by destruct (hp !! a).
  - done.
Qed.
Lemma relinked_prev hp a b S : a ∈ S → relinked hp (alter (λ n, link_prev n b) a hp) S.
Proof.
  intros Ha. split; intros x; (destruct (decide (x = a)) as [->|N]; [rewrite lookup_alter_eq|by rewrite lookup_alter_ne]).
  - by destruct (hp !! a).
  - done.
Qed.

Lemma relinked_dom hp hp' S x : relinked hp hp' S → is_Some (hp' !! x) ↔ is_Some (hp !! x).
Proof. intros [H1 _]. pose proof (H1 x) as E. destruct (hp !! x), (hp' !! x); try done; split; intros [y Hy]; eauto. Qed.

Lemma relinked_get hp hp' S x n : relinked hp hp' S → hp !! x = Some n → ∃ n', hp' !! x = Some n' ∧ payload n' = payload n.
Proof. intros [H1 _] Hn. pose proof (H1 x) as E. rewrite Hn in E. apply fmap_Some in E as (n' & E & Ep). by exists n'. Qed.

Lemma relinked_more hp hp' S S' : (∀ x, x ∈ S → x ∈ S') → relinked hp hp' S → relinked hp hp' S'.
Proof. intros Hs [H1 H2]. split; [done|]. intros x Hx. apply H2. intros Hx2. by apply Hx, Hs. Qed.

Lemma nextp_next hp a b x : is_Some (hp !! a) → nextp (alter (λ n, link_next n b) a hp) x = if decide (x = a) then Some b else nextp hp x.
Proof.
  intros [n Hn]. unfold nextp. case_decide as E; [subst x; rewrite lookup_alter_eq, Hn; done|by rewrite lookup_alter_ne].
Qed.
Lemma prevp_next hp a b x : prevp (alter (λ n, link_next n b) a hp) x = prevp hp x.
Proof.
  unfold prevp. destruct (decide (x = a)) as [->|N]; [rewrite lookup_alter_eq; by destruct (hp !! a)|by rewrite lookup_alter_ne].
Qed.
Lemma prevp_prev hp a b x : is_Some (hp !! a) → prevp (alter (λ n, link_prev n b) a hp) x = if decide (x = a) then Some b else prevp hp x.
Proof.
  intros [n Hn]. unfold prevp. case_decide as E; [subst x; rewrite lookup_alter_eq, Hn; done|by rewrite lookup_alter_ne].
Qed.
Lemma nextp_prev hp a b x : nextp (alter (λ n, link_prev n b) a hp) x = nextp hp x.
Proof.
  unfold nextp. destruct (decide (x = a)) as [->|N]; [rewrite lookup_alter_eq; by destruct (hp !! a)|by rewrite lookup_alter_ne].
Qed.

(** * Segments

    From [a] through [l] to [b], linked in both directions. *)
Fixpoint dseg hp (a : nat) l (b : nat) : Prop :=
  match l with
  | [] => nextp hp a = Some b ∧ prevp hp b = Some a
  | x :: l => nextp hp a = Some x ∧ prevp hp x = Some a ∧ dseg hp x l b
  end.

(** A circular list and its head. *)
Definition ring hp (h : nat) l : Prop := dseg hp h l h.

Lemma dseg_ext hp hp' l : ∀ a b, dseg hp a l b → (∀ x, x ∈ a :: l → nextp hp' x = nextp hp x) →
  (∀ x, x ∈ l ++ [b] → prevp hp' x = prevp hp x) → dseg hp' a l b.
Proof.
  induction l as [|y l IH]; intros a b Hd Hn Hp; cbn in *.
  - rewrite Hn, Hp by set_solver. done.
  - destruct Hd as (H1 & H2 & H3). rewrite Hn, Hp by set_solver. split; [done|]. split; [done|].
    apply IH; [done| |]; intros x Hx; [apply Hn|apply Hp]; set_solver.
Qed.

Lemma dseg_app hp x l2 b l1 : ∀ a, dseg hp a (l1 ++ x :: l2) b ↔ dseg hp a l1 x ∧ dseg hp x l2 b.
Proof.
  induction l1 as [|y l1 IH]; intros a; cbn; [tauto|]. rewrite IH. tauto.
Qed.

Lemma dseg_last hp l : ∀ a b, dseg hp a l b → ∃ p, list.last (a :: l) = Some p ∧ prevp hp b = Some p ∧ nextp hp p = Some b.
Proof.
  induction l as [|x l IH]; intros a b Hd; cbn in Hd.
  - exists a. by destruct Hd.
  - destruct Hd as (_ & _ & Hd). destruct (IH _ _ Hd) as (p & Hp & Hpv). exists p. split; [|done].
    rewrite list.last_cons. by rewrite Hp.
Qed.

Lemma dseg_first hp l a b : dseg hp a l b → ∃ y, list.head (l ++ [b]) = Some y ∧ nextp hp a = Some y ∧ prevp hp y = Some a.
Proof. destruct l as [|x l]; cbn; [intros []; by exists b|intros (? & ? & _); by exists x]. Qed.

(** The segment may end somewhere else when its last element and that end are linked. *)
Lemma dseg_relink hp hp' c l : ∀ a b p, dseg hp a l b → NoDup (a :: l) → list.last (a :: l) = Some p →
  (∀ x, x ∈ a :: l → x ≠ p → nextp hp' x = nextp hp x) → (∀ x, x ∈ l → prevp hp' x = prevp hp x) →
  nextp hp' p = Some c → prevp hp' c = Some p → dseg hp' a l c.
Proof.
  induction l as [|y l IH]; intros a b p Hd Hnd Hl Hn Hp E1 E2; cbn in *.
  - injection Hl as <-. done.
  - destruct Hd as (H1 & H2 & H3).
    destruct (dseg_last _ _ _ _ H3) as (p' & Hp' & _). rewrite Hp' in Hl. injection Hl as <-.
    apply list.NoDup_cons in Hnd as [Ha Hnd].
    rewrite Hn, Hp; [|set_solver|set_solver|].
    + split; [done|]. split; [done|]. apply (IH _ b p'); try done; intros x Hx; [apply Hn|apply Hp]; set_solver.
    + intros ->. apply Ha. apply list.last_Some in Hp' as [l' ->]. set_solver.
Qed.

(** Every element of a ring has a successor other than itself. *)
Lemma ring_next hp h l x : ring hp h l → NoDup (h :: l) → x ∈ l → ∃ y, nextp hp x = Some y ∧ y ≠ x ∧ y ∈ h :: l.
Proof.
  intros Hr Hnd Hx. apply list_elem_of_split in Hx as (l1 & l2 & ->). apply dseg_app in Hr as [_ Hr].
  destruct (dseg_first _ _ _ _ Hr) as (y & Hy & E & _). exists y. split; [done|].
  assert (y ∈ l2 ++ [h]) as Hin by (destruct (l2 ++ [h]); [done|injection Hy as ->; set_solver]). split.
  - intros ->. apply list.NoDup_cons in Hnd as [Hh Hnd]. apply list.NoDup_app in Hnd as (_ & _ & Hnd).
    apply list.NoDup_cons in Hnd as [Hn _]. set_solver.
  - set_solver.
Qed.

Lemma ring_dom hp h l x : ring hp h l → x ∈ h :: l → is_Some (hp !! x).
Proof.
  intros Hr Hx. assert (∃ y, nextp hp x = Some y) as [y Hy].
  { apply elem_of_cons in Hx as [->|Hx].
    - destruct (dseg_first _ _ _ _ Hr) as (y & _ & E & _). by exists y.
    - apply list_elem_of_split in Hx as (l1 & l2 & ->). apply dseg_app in Hr as [_ Hr].
      destruct (dseg_first _ _ _ _ Hr) as (y & _ & E & _). by exists y. }
  unfold nextp in Hy. by destruct (hp !! x).
Qed.

(** Rings only depend on the links of their elements. *)
Lemma ring_frame hp hp' h l : ring hp h l → (∀ x, x ∈ h :: l → nextp hp' x = nextp hp x ∧ prevp hp' x = prevp hp x) → ring hp' h l.
Proof. intros Hr Hx. apply (dseg_ext hp); [done| |]; intros x Hin; apply Hx; set_solver. Qed.

(** * Operations *)

Lemma LRU_Remove_ok hp h l1 e l2 : ring hp h (l1 ++ e :: l2) → NoDup (h :: l1 ++ e :: l2) →
  ∃ hp', LRU_Remove hp e = Ok hp' ∧ ring hp' h (l1 ++ l2) ∧ relinked hp hp' (h :: l1 ++ l2).
Proof.
  intros Hr Hnd. pose proof (λ x, ring_dom _ _ _ x Hr) as Hdom. apply dseg_app in Hr as [H1 H2].
  destruct (dseg_last _ _ _ _ H1) as (p & Hp & Epv & _). destruct (dseg_first _ _ _ _ H2) as (nx & Hnx & Enx & _).
  assert (p ∈ h :: l1) as Hpin by (apply list.last_Some in Hp as [l' ->]; set_solver).
  assert (nx ∈ l2 ++ [h]) as Hnin by (destruct (l2 ++ [h]); [done|injection Hnx as ->; set_solver]).
  unfold LRU_Remove, get. destruct (Hdom e) as [n Hn]; [set_solver|]. rewrite Hn.
  unfold nextp in Enx. unfold prevp in Epv. rewrite Hn in Enx, Epv. cbn in Enx, Epv. unfold mbind, res_bind. cbn [of_option].
  rewrite Enx, Epv. cbn [of_option]. rewrite update_ok by (apply Hdom; set_solver).
  rewrite update_ok by (apply alter_is_Some, Hdom; set_solver).
  eexists. split; [reflexivity|]. set (hp1 := alter _ nx hp).
  assert (∀ x, nextp (alter (λ m, link_next m nx) p hp1) x = if decide (x = p) then Some nx else nextp hp x) as Hn2.
  { intros x. rewrite nextp_next by (apply alter_is_Some, Hdom; set_solver). unfold hp1. by rewrite nextp_prev. }
  assert (∀ x, prevp (alter (λ m, link_next m nx) p hp1) x = if decide (x = nx) then Some p else prevp hp x) as Hp2.
  { intros x. rewrite prevp_next. unfold hp1. rewrite prevp_prev; [done|]. apply Hdom; set_solver. }
  assert (NoDup (h :: l1) ∧ NoDup l2 ∧ h ∉ l2 ∧ ∀ x, x ∈ l1 → x ∉ l2) as (Hnd1 & Hnd2 & Hh2 & Hdis).
  { apply list.NoDup_cons in Hnd as [Hh Hnd]. apply list.NoDup_app in Hnd as (N1 & N2 & N3). apply list.NoDup_cons in N3 as [_ N3].
    split; [apply list.NoDup_cons; split; [set_solver|done]|]. split; [done|]. split; [set_solver|]. intros x Hx. specialize (N2 x Hx). set_solver. }
  split.
  - unfold ring. destruct l2 as [|y l2].
    + injection Hnx as <-. rewrite app_nil_r. apply (dseg_relink hp _ h l1 h e p); try done.
      * intros x Hx Nx. rewrite Hn2. by case_decide.
      * intros x Hx. rewrite Hp2. case_decide; [|done]. subst x. by apply list.NoDup_cons in Hnd1 as [? _].
      * rewrite Hn2. by case_decide.
      * rewrite Hp2. by case_decide.
    + injection Hnx as <-. apply dseg_app. split.
      * apply (dseg_relink hp _ y l1 h e p); try done.
        -- intros x Hx Nx. rewrite Hn2. by case_decide.
        -- intros x Hx. rewrite Hp2. case_decide; [|done]. subst x. destruct (Hdis y Hx). set_solver.
        -- rewrite Hn2. by case_decide.
        -- rewrite Hp2. by case_decide.
      * destruct H2 as (_ & _ & H2). apply (dseg_ext hp); [done| |].
        -- intros x Hx. rewrite Hn2. case_decide; [|done]. subst x. exfalso. set_solver.
        -- intros x Hx. rewrite Hp2. case_decide; [|done]. subst x. exfalso. apply list.NoDup_cons in Hnd2 as [? _]. set_solver.
  - eapply relinked_trans; [apply (relinked_prev _ nx p)|apply (relinked_next _ p nx)]; set_solver.
Qed.

Lemma LRU_Append_ok hp h l e : ring hp h l → NoDup (h :: l) → e ∉ h :: l → is_Some (hp !! e) →
  ∃ hp', LRU_Append hp h e = Ok hp' ∧ ring hp' h (l ++ [e]) ∧ relinked hp hp' (e :: h :: l).
Proof.
  intros Hr Hnd Hnin Hse. pose proof (λ x, ring_dom _ _ _ x Hr) as Hdom.
  destruct (dseg_last _ _ _ _ Hr) as (p & Hp & Epv & Enx).
  assert (p ∈ h :: l) as Hpin by (apply list.last_Some in Hp as [l' ->]; set_solver).
  assert (h ≠ e) as Nhe by set_solver. assert (p ≠ e) as Npe by set_solver.
  unfold LRU_Append. rewrite update_ok by done. unfold mbind, res_bind.
  destruct (Hdom h) as [n Hn]; [set_solver|]. unfold get. rewrite lookup_alter_ne, Hn by done. cbn [of_option].
  unfold prevp in Epv. rewrite Hn in Epv. cbn in Epv. rewrite Epv. cbn [of_option].
  rewrite update_ok by (by apply alter_is_Some). rewrite update_ok by (apply alter_is_Some, alter_is_Some, Hdom; set_solver).
  rewrite update_ok by (apply alter_is_Some, alter_is_Some, alter_is_Some, Hdom; set_solver).
  eexists. split; [reflexivity|].
  match goal with |- ring ?x _ _ ∧ _ => set (hp' := x) end.
  assert (∀ x, nextp hp' x = if decide (x = p) then Some e else if decide (x = e) then Some h else nextp hp x) as Hn2.
  { intros x. unfold hp'. rewrite nextp_prev, nextp_next, nextp_prev, nextp_next; [done|done|].
    apply alter_is_Some, alter_is_Some, Hdom. set_solver. }
  assert (∀ x, prevp hp' x = if decide (x = h) then Some e else if decide (x = e) then Some p else prevp hp x) as Hp2.
  { intros x. unfold hp'. rewrite prevp_prev, prevp_next, prevp_prev, prevp_next; [done|by apply alter_is_Some|].
    apply alter_is_Some, alter_is_Some, alter_is_Some, Hdom. set_solver. }
  split.
  - unfold ring. apply dseg_app. split.
    + apply (dseg_relink hp _ e l h h p); try done.
      * intros x Hx Nx. rewrite Hn2. do 2 (case_decide; [set_solver|]). done.
      * intros x Hx. rewrite Hp2. case_decide; [subst x; by apply list.NoDup_cons in Hnd as [? _]|].
        case_decide; [set_solver|done].
      * rewrite Hn2. by case_decide.
      * rewrite Hp2. do 2 (case_decide; [done|]). done.
    + cbn. rewrite Hn2, Hp2. repeat (case_decide; try done).
  - unfold hp'. eapply relinked_trans; [apply (relinked_next _ e h); set_solver|].
    eapply relinked_trans; [apply (relinked_prev _ e p); set_solver|].
    eapply relinked_trans; [apply (relinked_next _ p e); set_solver|apply (relinked_prev _ h e); set_solver].
Qed.
End lists.

(** * The hash table of LevelDB's cache *)
Import Cache.

Section table.
Context {V : Type}.
Abbreviation LRUHandle := (LRUHandle (V := V)).
Implicit Types (hp : gmap nat LRUHandle) (l : list nat) (B : list (list nat)).

(** * Heaps that differ in the links of chains *)

Definition core (n : LRUHandle) : option V * option nat * option nat * Z * bytes * bool * Z * Z :=
  (value n, next n, prev n, charge n, key_data n, in_cache n, refs n, hash n).

Record rehashed hp hp' (S : list nat) : Prop := {
  rh_core x : core <$> hp' !! x = core <$> hp !! x;
  rh_frame x : x ∉ S → hp' !! x = hp !! x
}.

Lemma rehashed_refl hp S : rehashed hp hp S.
Proof. done. Qed.
Lemma rehashed_trans hp hp' hp'' S : rehashed hp hp' S → rehashed hp' hp'' S → rehashed hp hp'' S.
Proof. intros [H1 H2] [H3 H4]. split; intros x; [by rewrite H3|intros Hx; by rewrite H4, H2]. Qed.
Lemma rehashed_more hp hp' S S' : (∀ x, x ∈ S → x ∈ S') → rehashed hp hp' S → rehashed hp hp' S'.
Proof. intros Hs [H1 H2]. split; [done|]. intros x Hx. apply H2. intros Hx2. by apply Hx, Hs. Qed.
Lemma rehashed_one hp a q S : a ∈ S → rehashed hp (alter (λ n, set_next_hash n q) a hp) S.
Proof.
  intros Ha. split; intros x; (destruct (decide (x = a)) as [->|N]; [rewrite lookup_alter_eq|by rewrite lookup_alter_ne]).
  - by destruct (hp !! a).
  - done.
Qed.
Lemma rehashed_get hp hp' S x n : rehashed hp hp' S → hp !! x = Some n → ∃ n', hp' !! x = Some n' ∧ core n' = core n.
Proof. intros [H1 _] Hn. pose proof (H1 x) as E. rewrite Hn in E. apply fmap_Some in E as (n' & E & Ep). by exists n'. Qed.
Lemma rehashed_dom hp hp' S x : rehashed hp hp' S → is_Some (hp' !! x) ↔ is_Some (hp !! x).
Proof. intros [H1 _]. pose proof (H1 x) as E. destruct (hp !! x), (hp' !! x); try done; split; intros [y Hy]; eauto. Qed.

(** The key of the entry can be read. *)
Definition keyed hp (x : nat) : Prop := ∃ n y, hp !! x = Some n ∧ next n = Some y ∧ y ≠ x.

Lemma handle_key_ok hp x n : keyed hp x → hp !! x = Some n → handle_key x n = Ok (key_data n).
Proof.
  intros (n' & y & Hn' & Hy & Ny) Hn. rewrite Hn in Hn'. injection Hn' as <-. unfold handle_key. rewrite Hy.
  unfold mbind, res_bind. cbn [of_option]. by rewrite bool_decide_eq_false_2.
Qed.

Lemma keyed_rehashed hp hp' S x : rehashed hp hp' S → keyed hp x → keyed hp' x.
Proof.
  intros Hr (n & y & Hn & Hy & Ny). destruct (rehashed_get _ _ _ _ _ Hr Hn) as (n' & Hn' & E). exists n', y.
  split; [done|]. split; [|done]. injection E as _ E _. congruence.
Qed.

Definition matches (key : bytes) (h : Z) (n : LRUHandle) : bool := (hash n =? h) && bool_decide (key_data n = key).

(** * Chains *)

Fixpoint chain hp (o : option nat) l : Prop :=
  match l with
  | [] => o = None
  | x :: l => o = Some x ∧ ∃ n, hp !! x = Some n ∧ chain hp (next_hash n) l
  end.

Lemma chain_frame hp hp' l : ∀ o, chain hp o l → (∀ x, x ∈ l → hp' !! x = hp !! x) → chain hp' o l.
Proof.
  induction l as [|x l IH]; intros o Hc Hx; [done|]. destruct Hc as (-> & n & Hn & Hc). split; [done|].
  exists n. split; [by rewrite Hx by by left|]. apply IH; [done|]. intros y Hy. apply Hx. by right.
Qed.

Lemma chain_head hp o l : chain hp o l → o = head l.
Proof. destruct l; [done|]. by intros [-> _]. Qed.

(** Another chain after [p]. *)
Lemma chain_set hp p l2 q l2' l1 : ∀ o, chain hp o (l1 ++ p :: l2) → p ∉ l1 → chain hp q l2' → p ∉ l2' →
  chain (alter (λ n, set_next_hash n q) p hp) o (l1 ++ p :: l2').
Proof.
  induction l1 as [|x l1 IH]; intros o Hc Hp Hq Hp2; cbn in *.
  - destruct Hc as (-> & n & Hn & _). split; [done|]. exists (set_next_hash n q). rewrite lookup_alter_eq, Hn. split; [done|].
    apply (chain_frame hp); [done|]. intros y Hy. rewrite lookup_alter_ne; [done|]. by intros ->.
  - destruct Hc as (-> & n & Hn & Hc). split; [done|]. exists n. rewrite lookup_alter_ne by set_solver. split; [done|].
    apply IH; try done. set_solver.
Qed.

Lemma chain_tail hp o l1 l2 : chain hp o (l1 ++ l2) → ∃ o', chain hp o' l2.
Proof.
  revert o. induction l1 as [|x l1 IH]; intros o Hc; [by exists o|]. destruct Hc as (_ & n & _ & Hc). by eapply IH.
Qed.

(** ** Searching a chain *)

Definition slot_after (s : Slot) l : Slot := match list.last l with Some a => InEntry a | None => s end.

Lemma slot_after_cons s a l : slot_after (InEntry a) l = slot_after s (a :: l).
Proof. unfold slot_after. rewrite last_cons. by destruct (list.last l). Qed.

Lemma find_loop_ok hp t key h l : ∀ fuel s o, read_slot hp t s = Ok o → chain hp o l →
  (∀ x, x ∈ l → keyed hp x) → (length l < fuel)%nat →
  ∃ l1 l2, l = l1 ++ l2 ∧ find_loop fuel hp t key h s = Ok (slot_after s l1) ∧
    read_slot hp t (slot_after s l1) = Ok (head l2) ∧
    (∀ x n, x ∈ l1 → hp !! x = Some n → matches key h n = false) ∧
    (∀ x, head l2 = Some x → ∃ n, hp !! x = Some n ∧ matches key h n = true).
Proof.
  induction l as [|x l IH]; intros [|fuel] s o Hs Hc Hk Hf; cbn in Hf; try lia; cbn [find_loop]; unfold mbind, res_bind; rewrite Hs.
  - cbn in Hc. subst o. exists [], []. split; [done|]. split; [done|]. split; [done|]. split; [by intros ? ? ?%not_elem_of_nil|done].
  - destruct Hc as (-> & n & Hn & Hc). unfold get. rewrite Hn. cbn [of_option].
    assert ((if negb (hash n =? h) then Ok true else match handle_key x n with Ok k => Slice.neqb key k | UB => UB | NoFuel => NoFuel end) =
      Ok (negb (matches key h n))) as ->.
    { unfold matches. destruct (hash n =? h); [|done]. cbn [negb andb]. rewrite (handle_key_ok hp) by (done || apply Hk; by left).
      unfold Slice.neqb. destruct (slice_order key (key_data n) key) as (_ & _ & _ & _ & -> & _). unfold mbind, res_bind.
      do 2 f_equal. by apply bool_decide_ext. }
    destruct (matches key h n) eqn:Em; cbn [negb].
    + exists [], (x :: l). split; [done|]. split; [done|]. split; [done|]. split; [by intros ? ? ?%not_elem_of_nil|].
      intros y [= <-]. by exists n.
    + destruct (IH fuel (InEntry x) (next_hash n)) as (l1 & l2 & -> & E & Er & Hno & Hyes); [|done| |lia|].
      * cbn. unfold get. by rewrite Hn.
      * intros y Hy. apply Hk. by right.
      * exists (x :: l1), l2. rewrite <- (slot_after_cons s). split; [done|]. split; [done|]. split; [done|]. split; [|done].
        intros y m Hy Hm. apply elem_of_cons in Hy as [->|Hy]; [|by eapply Hno]. rewrite Hn in Hm. by injection Hm as <-.
Qed.

(** * Tables *)

Definition bidx (L h : Z) : nat := Z.to_nat (Z.land h (u32 (L - 1))).

Record buckets_ok hp (L : Z) (lst : list (option nat)) B : Prop := {
  bo_pow : ∃ k, 0 <= k <= 31 ∧ L = 2 ^ k;
  bo_len : Z.of_nat (length B) = L;
  bo_list : length lst = length B;
  bo_chain i l : B !! i = Some l → ∃ o, lst !! i = Some o ∧ chain hp o l;
  bo_hash i l x : B !! i = Some l → x ∈ l → ∃ n, hp !! x = Some n ∧ 0 <= hash n < 2 ^ 32 ∧ bidx L (hash n) = i;
  bo_nodup : NoDup (concat B)
}.

Record table_ok hp (t : HandleTable) B : Prop := {
  to_buckets : buckets_ok hp (length_ t) (list_ t) B;
  to_elems : elems_ t = Z.of_nat (length (concat B))
}.

Lemma bidx_lt hp L lst B h : buckets_ok hp L lst B → 0 <= h < 2 ^ 32 → (bidx L h < length B)%nat.
Proof.
  intros Hb Hh. destruct (bo_pow _ _ _ _ Hb) as (k & Hk & E). pose proof (bo_len _ _ _ _ Hb) as El. unfold bidx.
  assert (1 <= 2 ^ k) by (change 1 with (2 ^ 0); apply Z.pow_le_mono_r; lia).
  assert (2 ^ k <= 2 ^ 31) by (apply Z.pow_le_mono_r; lia).
  rewrite u32_small by lia. rewrite E. replace (2 ^ k - 1) with (Z.ones k) by (rewrite Z.ones_equiv; lia).
  rewrite Z.land_ones by lia. pose proof (Z.mod_pos_bound h (2 ^ k)). lia.
Qed.

Lemma concat_split B i l : B !! i = Some l → concat B ≡ₚ l ++ concat (delete i B).
Proof.
  revert i. induction B as [|m B IH]; intros [|i] Hi; try done; cbn in *.
  - by injection Hi as ->.
  - rewrite (IH i Hi). rewrite !app_assoc. apply Permutation_app_tail, Permutation_app_comm.
Qed.

Lemma concat_insert B i l l' : B !! i = Some l → concat (<[i := l']> B) ≡ₚ l' ++ concat (delete i B).
Proof.
  intros Hi. rewrite (concat_split (<[i := l']> B) i l') by (apply list_lookup_insert_eq; by eapply lookup_lt_Some).
  f_equiv. clear Hi. revert i. induction B as [|m B IH]; intros [|i]; try done. cbn. by rewrite IH.
Qed.

Lemma in_concat_bucket x B : x ∈ concat B ↔ ∃ i l, B !! i = Some l ∧ x ∈ l.
Proof.
  rewrite list_elem_of_In, List.in_concat. split.
  - intros (l & Hl & Hx). apply list_elem_of_In, list_elem_of_lookup_1 in Hl as [i Hi]. exists i, l. by rewrite list_elem_of_In.
  - intros (i & l & Hi & Hx). exists l. split; [by apply list_elem_of_In; eapply list_elem_of_lookup_2|by apply list_elem_of_In].
Qed.

(** Entries of different buckets are different. *)
Lemma bucket_unique B i j l m x : NoDup (concat B) → B !! i = Some l → B !! j = Some m → x ∈ l → x ∈ m → i = j.
Proof.
  intros Hnd Hi Hj Hx Hy. destruct (decide (i = j)) as [|N]; [done|exfalso].
  rewrite (concat_split B i l Hi) in Hnd. apply list.NoDup_app in Hnd as (_ & Hd & _). apply (Hd x Hx).
  apply in_concat_bucket. destruct (decide (i < j)%nat).
  - exists (j - 1)%nat, m. rewrite list_lookup_delete_ge by lia. replace (S (j - 1)) with j by lia. done.
  - exists j, m. by rewrite list_lookup_delete_lt by lia.
Qed.

Lemma bucket_nodup B i l : NoDup (concat B) → B !! i = Some l → NoDup l.
Proof. intros Hnd Hi. rewrite (concat_split B i l Hi) in Hnd. by apply list.NoDup_app in Hnd as (? & _). Qed.

(** ** Writing to a slot *)

(** The chain of one bucket changes after [l1]. *)
Lemma write_slot_ok hp t B i l1 l2 l2' q : buckets_ok hp (length_ t) (list_ t) B → B !! i = Some (l1 ++ l2) →
  chain hp q l2' → (∀ x, x ∈ l1 → x ∉ l2') → (∀ x j m, x ∈ l2' → B !! j = Some m → x ∈ m → j = i) →
  NoDup l2' → (∀ x, x ∈ l2' → ∃ n, hp !! x = Some n ∧ 0 <= hash n < 2 ^ 32 ∧ bidx (length_ t) (hash n) = i) →
  ∃ hp' t', write_slot hp t (slot_after (InBucket i) l1) q = Ok (hp', t') ∧
    length_ t' = length_ t ∧ elems_ t' = elems_ t ∧ rehashed hp hp' l1 ∧
    buckets_ok hp' (length_ t') (list_ t') (<[i := l1 ++ l2']> B).
Proof.
  intros [B1 B2 B3 B4 B5 B6] Hi Hq Hdis Hoth Hnd2 Hh2.
  assert (i < length B)%nat as Li by by eapply lookup_lt_Some.
  destruct (B4 i _ Hi) as (o & Ho & Hc). pose proof (bucket_nodup _ _ _ B6 Hi) as Hndb.
  assert (∃ hp' t' o', write_slot hp t (slot_after (InBucket i) l1) q = Ok (hp', t') ∧
    length_ t' = length_ t ∧ elems_ t' = elems_ t ∧ rehashed hp hp' l1 ∧ list_ t' = <[i := o']> (list_ t) ∧ chain hp' o' (l1 ++ l2'))
    as (hp' & t' & o' & E & E1 & E2 & Hr & El & Hc').
  { unfold slot_after. destruct l1 as [|p l1 _] using rev_ind.
    - cbn. exists hp, (mkTable (length_ t) (elems_ t) (<[i := q]> (list_ t))), q. done.
    - rewrite last_snoc. cbn [write_slot]. rewrite <- app_assoc in Hc, Hndb. cbn [app] in Hc, Hndb.
      assert (is_Some (hp !! p)) as Hp by (destruct (B5 i _ p Hi) as (n & Hn & _); [set_solver|by eexists]).
      rewrite update_ok by done. exists (alter (λ n, set_next_hash n q) p hp), t, o. unfold mbind, res_bind. split; [done|].
      split; [done|]. split; [done|]. split; [apply rehashed_one; set_solver|]. split; [by rewrite list_insert_id|].
      rewrite <- app_assoc. apply (chain_set hp p l2); [done| |done|apply Hdis; set_solver].
      apply list.NoDup_app in Hndb as (_ & Hd & _). intros Hin. apply (Hd p Hin). by left. }
  exists hp', t'. split; [done|]. split; [done|]. split; [done|]. split; [done|]. rewrite E1, El.
  assert (∀ j m, j ≠ i → B !! j = Some m → ∀ x, x ∈ m → hp' !! x = hp !! x) as Hfr.
  { intros j m Nj Hj x Hx. apply (rh_frame _ _ _ Hr). intros Hx1. apply Nj. apply (bucket_unique B j i m (l1 ++ l2) x); try done. set_solver. }
  split.
  - done.
  - by rewrite length_insert.
  - by rewrite !length_insert.
  - intros j m Hj. destruct (decide (j = i)) as [->|Nj].
    + rewrite list_lookup_insert_eq in Hj by done. injection Hj as <-. exists o'.
      split; [apply list_lookup_insert_eq; lia|done].
    + rewrite list_lookup_insert_ne in Hj by done. destruct (B4 j m Hj) as (oj & Hoj & Hcj). exists oj.
      rewrite list_lookup_insert_ne by done. split; [done|]. apply (chain_frame hp); [done|]. by apply (Hfr j).
  - intros j m x Hj Hx.
    assert (∃ n, hp !! x = Some n ∧ 0 <= hash n < 2 ^ 32 ∧ bidx (length_ t) (hash n) = j) as (n & Hn & Hh & Hb).
    { destruct (decide (j = i)) as [->|Nj].
      - rewrite list_lookup_insert_eq in Hj by done. injection Hj as <-. apply elem_of_app in Hx as [Hx|Hx]; [|by apply Hh2].
        apply (B5 i _ x Hi). set_solver.
      - rewrite list_lookup_insert_ne in Hj by done. by apply (B5 j m x). }
    destruct (rehashed_get _ _ _ _ _ Hr Hn) as (n' & Hn' & Ec). exists n'. split; [done|].
    assert (hash n' = hash n) as -> by (by injection Ec). done.
  - rewrite (concat_insert B i _ _ Hi). rewrite (concat_split B i _ Hi) in B6.
    apply list.NoDup_app in B6 as (N1 & N2 & N3). apply list.NoDup_app in N1 as (N1 & _ & _).
    apply list.NoDup_app. split; [apply list.NoDup_app; split_and!; [done|apply Hdis|done]|]. split; [|done].
    intros x Hx Hin. apply elem_of_app in Hx as [Hx|Hx]; [by apply (N2 x); [set_solver|]|].
    apply in_concat_bucket in Hin as (j & m & Hj & Hxm).
    destruct (decide (j < i)%nat).
    + rewrite list_lookup_delete_lt in Hj by lia. pose proof (Hoth x j m Hx Hj Hxm). lia.
    + rewrite list_lookup_delete_ge in Hj by lia. pose proof (Hoth x (S j) m Hx Hj Hxm). lia.
Qed.

(** ** Finding *)

Lemma nodup_size hp l : NoDup l → (∀ x, x ∈ l → is_Some (hp !! x)) → (length l <= size hp)%nat.
Proof.
  intros Hnd Hd. rewrite <- (size_list_to_set (C := gset nat) l Hnd), <- size_dom. apply subseteq_size.
  intros x Hx%elem_of_list_to_set. apply elem_of_dom. by apply Hd.
Qed.

Lemma FindPointer_ok hp t B key h : table_ok hp t B → (∀ x, x ∈ concat B → keyed hp x) → 0 <= h < 2 ^ 32 →
  ∃ l1 l2, let i := bidx (length_ t) h in B !! i = Some (l1 ++ l2) ∧
    FindPointer hp t key h = Ok (slot_after (InBucket i) l1) ∧ read_slot hp t (slot_after (InBucket i) l1) = Ok (head l2) ∧
    (∀ x n, x ∈ l1 → hp !! x = Some n → matches key h n = false) ∧
    (∀ x, head l2 = Some x → ∃ n, hp !! x = Some n ∧ matches key h n = true).
Proof.
  intros [Hb _] Hk Hh. pose proof (bidx_lt _ _ _ _ h Hb Hh) as L. destruct (lookup_lt_is_Some_2 B _ L) as [l Hl].
  destruct (bo_chain _ _ _ _ Hb _ l Hl) as (o & Ho & Hc).
  destruct (find_loop_ok hp t key h l (S (size hp)) (InBucket (bidx (length_ t) h)) o) as (l1 & l2 & -> & E & Er & Hno & Hyes).
  - cbn. by rewrite Ho.
  - done.
  - intros x Hx. apply Hk. apply in_concat_bucket. by exists (bidx (length_ t) h), l.
  - apply Nat.lt_succ_r. apply nodup_size; [apply (bucket_nodup B _ _ (bo_nodup _ _ _ _ Hb) Hl)|].
    intros x Hx. destruct (bo_hash _ _ _ _ Hb _ _ x Hl Hx) as (n & Hn & _). by eexists.
  - by exists l1, l2.
Qed.

(** The entries that match are in the bucket of the hash. *)
Lemma matches_bucket hp t B key h x n : table_ok hp t B → x ∈ concat B → hp !! x = Some n → matches key h n = true →
  ∃ l, B !! bidx (length_ t) h = Some l ∧ x ∈ l.
Proof.
  intros [Hb _] Hx Hn Hm. apply in_concat_bucket in Hx as (i & l & Hi & Hx). destruct (bo_hash _ _ _ _ Hb i l x Hi Hx) as (n' & Hn' & _ & <-).
  rewrite Hn in Hn'. injection Hn' as <-. unfold matches in Hm. apply andb_true_iff in Hm as [Hm _]. apply Z.eqb_eq in Hm.
  exists l. by rewrite <- Hm.
Qed.

(** At most one entry has the hash and the key. *)
Definition distinct hp (l : list nat) : Prop :=
  ∀ x y n m, x ∈ l → y ∈ l → hp !! x = Some n → hp !! y = Some m → hash n = hash m → key_data n = key_data m → x = y.

Definition none_matches hp key h l : Prop := ∀ x n, x ∈ l → hp !! x = Some n → matches key h n = false.

Lemma none_found hp t B key h l1 : table_ok hp t B → B !! bidx (length_ t) h = Some l1 →
  none_matches hp key h l1 → none_matches hp key h (concat B).
Proof.
  intros Ht Hb Hno x n Hx Hn. destruct (matches key h n) eqn:Em; [|done].
  destruct (matches_bucket _ _ _ _ _ _ _ Ht Hx Hn Em) as (l & Hl & Hxl). rewrite Hb in Hl. injection Hl as <-.
  rewrite <- Em. by eapply Hno.
Qed.

Lemma table_Lookup_ok hp t B key h : table_ok hp t B → (∀ x, x ∈ concat B → keyed hp x) → 0 <= h < 2 ^ 32 →
  ∃ r, table_Lookup hp t key h = Ok r ∧
    match r with
    | Some x => x ∈ concat B ∧ ∃ n, hp !! x = Some n ∧ matches key h n = true
    | None => none_matches hp key h (concat B)
    end.
Proof.
  intros Ht Hk Hh. destruct (FindPointer_ok hp t B key h Ht Hk Hh) as (l1 & l2 & Hi & E & Er & Hno & Hyes).
  exists (head l2). unfold table_Lookup, mbind, res_bind. rewrite E, Er. split; [done|]. destruct l2 as [|x l2]; cbn.
  - rewrite app_nil_r in Hi. by eapply none_found.
  - split; [|by apply Hyes]. apply in_concat_bucket. eexists _, _. split; [done|]. set_solver.
Qed.

Lemma table_Remove_ok hp t B key h : table_ok hp t B → (∀ x, x ∈ concat B → keyed hp x) → 0 <= h < 2 ^ 32 →
  Z.of_nat (length (concat B)) < 2 ^ 32 →
  ∃ r hp' t', table_Remove hp t key h = Ok (r, hp', t') ∧
    match r with
    | Some x => (∃ n, hp !! x = Some n ∧ matches key h n = true) ∧ ∃ B', table_ok hp' t' B' ∧ concat B ≡ₚ x :: concat B' ∧
        rehashed hp hp' (concat B')
    | None => hp' = hp ∧ t' = t ∧ none_matches hp key h (concat B)
    end.
Proof.
  intros Ht Hk Hh Hlen. destruct (FindPointer_ok hp t B key h Ht Hk Hh) as (l1 & l2 & Hi & E & Er & Hno & Hyes).
  unfold table_Remove, mbind, res_bind. rewrite E, Er. destruct l2 as [|x l2]; cbn [head hd_error].
  { rewrite app_nil_r in Hi. eexists _, _, _. split; [done|]. split; [done|]. split; [done|]. by eapply none_found. }
  destruct (Hyes x eq_refl) as (n & Hn & Hm). unfold get. rewrite Hn. cbn [of_option].
  destruct Ht as [Hb He]. destruct (bo_chain _ _ _ _ Hb _ _ Hi) as (o & _ & Hc).
  destruct (chain_tail _ _ _ _ Hc) as (o' & _ & n' & Hn' & Hc2). rewrite Hn in Hn'. injection Hn' as <-.
  pose proof (bucket_nodup _ _ _ (bo_nodup _ _ _ _ Hb) Hi) as Hnd. apply list.NoDup_app in Hnd as (Hd1 & Hd2 & Hd3).
  apply list.NoDup_cons in Hd3 as [Hx2 Hd3].
  destruct (write_slot_ok hp t B _ l1 (x :: l2) l2 (next_hash n) Hb Hi Hc2) as (hp' & t' & -> & E1 & E2 & Hr & Hb'); [| |done| |].
  { intros y Hy Hy2. apply (Hd2 y Hy). set_solver. }
  { intros y j m Hy Hj Hym. eapply (bucket_unique B j _ m _ y); [apply Hb|done|done|done|set_solver]. }
  { intros y Hy. apply (bo_hash _ _ _ _ Hb _ _ y Hi). set_solver. }
  eexists _, _, _. split; [done|]. split; [by exists n|]. eexists. 
  assert (concat B ≡ₚ x :: concat (<[bidx (length_ t) h := l1 ++ l2]> B)) as Hp.
  { rewrite (concat_insert B _ _ _ Hi), (concat_split B _ _ Hi). rewrite <- !app_assoc. cbn [app]. by rewrite <- Permutation_middle. }
  split; [|split; [exact Hp|]].
  - split; cbn; [done|]. rewrite E2, He, Hp. cbn [length]. rewrite Hp in Hlen. cbn [length] in Hlen. rewrite u32_small by lia. lia.
  - eapply rehashed_more; [|exact Hr]. intros y Hy. rewrite (concat_insert B _ _ _ Hi). set_solver.
Qed.

(** ** Growing *)

Lemma grow_ok elems : 0 <= elems <= 2 ^ 31 → ∀ fuel k, 2 <= k <= 31 → 32 - k <= Z.of_nat fuel →
  ∃ k', 2 <= k' <= 31 ∧ grow fuel (2 ^ k) elems = Ok (2 ^ k') ∧ elems <= 2 ^ k'.
Proof.
  intros He. induction fuel as [|fuel IH]; intros k Hk Hf; [lia|]. cbn [grow].
  destruct (Z.ltb_spec (2 ^ k) elems) as [L|L]; [|by exists k].
  assert (k <= 30). { destruct (Z.le_gt_cases k 30); [done|]. assert (k = 31) as -> by lia. lia. }
  assert (2 ^ k * 2 = 2 ^ (k + 1)) as E by (rewrite Z.pow_add_r by lia; done).
  assert (2 ^ (k + 1) <= 2 ^ 31) by (apply Z.pow_le_mono_r; lia).
  rewrite E, u32_small by (pose proof (Z.pow_pos_nonneg 2 (k + 1)); lia). apply IH; lia.
Qed.

Lemma buckets_frame hp hp' S L lst B : buckets_ok hp L lst B → rehashed hp hp' S → (∀ x, x ∈ S → x ∉ concat B) → buckets_ok hp' L lst B.
Proof.
  intros [B1 B2 B3 B4 B5 B6] Hr Hd. split; try done.
  - intros i l Hl. destruct (B4 i l Hl) as (o & Ho & Hc). exists o. split; [done|]. apply (chain_frame hp); [done|].
    intros x Hx. apply (rh_frame _ _ _ Hr). intros Hx2. apply (Hd x Hx2), in_concat_bucket. by exists i, l.
  - intros i l x Hl Hx. destruct (B5 i l x Hl Hx) as (n & Hn & Hh & Hb). destruct (rehashed_get _ _ _ _ _ Hr Hn) as (n' & Hn' & Ec).
    exists n'. split; [done|]. assert (hash n' = hash n) as -> by (by injection Ec). done.
Qed.

Lemma move_chain_ok L l : ∀ fuel hp lst B o count, buckets_ok hp L lst B → chain hp o l → NoDup (l ++ concat B) →
  (∀ x, x ∈ l → ∃ n, hp !! x = Some n ∧ 0 <= hash n < 2 ^ 32) → (length l < fuel)%nat → 0 <= count → count + Z.of_nat (length l) < 2 ^ 32 →
  ∃ hp' lst' B', move_chain fuel hp L lst o count = Ok (hp', lst', count + Z.of_nat (length l)) ∧
    buckets_ok hp' L lst' B' ∧ concat B' ≡ₚ l ++ concat B ∧ rehashed hp hp' l.
Proof.
  induction l as [|x l IH]; intros [|fuel] hp lst B o count Hb Hc Hnd Hh Hf H0 Hn; cbn in Hf; try lia; cbn [move_chain].
  - cbn in Hc. subst o. exists hp, lst, B. rewrite Z.add_0_r. done.
  - destruct Hc as (-> & n & Hx & Hc). unfold get. rewrite Hx. unfold mbind, res_bind. cbn [of_option].
    destruct (Hh x) as (n' & Hx' & Hhx); [by left|]. rewrite Hx in Hx'. injection Hx' as <-.
    fold (bidx L (hash n)). pose proof (bidx_lt _ _ _ _ _ Hb Hhx) as Li. destruct (lookup_lt_is_Some_2 B _ Li) as [m Hm].
    destruct (bo_chain _ _ _ _ Hb _ m Hm) as (p & Hp & Hcm). rewrite Hp. cbn [of_option].
    rewrite update_ok by by eexists. set (hp1 := alter (λ n, set_next_hash n p) x hp).
    cbn [app] in Hnd. apply list.NoDup_cons in Hnd as [Hxn Hnd]. rewrite elem_of_app in Hxn.
    assert (rehashed hp hp1 [x]) as Hr1 by (apply rehashed_one; set_solver).
    assert (buckets_ok hp1 L lst B) as Hb1.
    { apply (buckets_frame hp hp1 [x]); [done|done|]. intros y ->%list_elem_of_singleton Hy. apply Hxn. by right. }
    destruct (IH fuel hp1 (<[bidx L (hash n) := Some x]> lst) (<[bidx L (hash n) := x :: m]> B) (next_hash n) (u32 (count + 1)))
      as (hp' & lst' & B' & E & Hb' & Hp' & Hr').
    + destruct Hb1 as [B1 B2 B3 B4 B5 B6]. split.
      * done.
      * by rewrite length_insert.
      * by rewrite !length_insert.
      * intros j lj Hj. destruct (decide (j = bidx L (hash n))) as [->|Nj].
        -- rewrite list_lookup_insert_eq in Hj by done. injection Hj as <-. exists (Some x).
           split; [apply list_lookup_insert_eq; lia|]. split; [done|]. exists (set_next_hash n p). unfold hp1.
           rewrite lookup_alter_eq, Hx. split; [done|]. destruct (B4 _ _ Hm) as (o & Ho & Hco). rewrite Hp in Ho.
           injection Ho as <-. exact Hco.
        -- rewrite list_lookup_insert_ne in Hj by done. rewrite list_lookup_insert_ne by done. by apply B4.
      * intros j lj y Hj Hy. destruct (decide (j = bidx L (hash n))) as [->|Nj].
        -- rewrite list_lookup_insert_eq in Hj by done. injection Hj as <-. apply elem_of_cons in Hy as [->|Hy]; [|by apply (B5 _ m)].
           exists (set_next_hash n p). unfold hp1. rewrite lookup_alter_eq, Hx. done.
        -- rewrite list_lookup_insert_ne in Hj by done. by apply (B5 j lj).
      * rewrite (concat_insert B _ m (x :: m) Hm). cbn [app]. rewrite <- (concat_split B _ m Hm). apply list.NoDup_cons.
        split; [tauto|done].
    + apply (chain_frame hp); [done|]. intros y Hy. apply (rh_frame _ _ _ Hr1). intros ->%list_elem_of_singleton. tauto.
    + rewrite (concat_insert B _ m (x :: m) Hm). cbn [app]. rewrite <- (concat_split B _ m Hm), <- Permutation_middle.
      apply list.NoDup_cons. split; [rewrite elem_of_app; tauto|done].
    + intros y Hy. destruct (Hh y) as (ny & Hny & Hhy); [by right|]. destruct (rehashed_get _ _ _ _ _ Hr1 Hny) as (n' & Hn' & Ec).
      exists n'. split; [done|]. assert (hash n' = hash ny) as -> by (by injection Ec). done.
    + lia.
    + pose proof (u32_range (count + 1)). lia.
    + cbn in Hn. rewrite u32_small; lia.
    + cbn [length] in Hn |- *. rewrite u32_small in E by lia. exists hp', lst', B'. split; [rewrite u32_small by lia; rewrite E; do 2 f_equal; lia|].
      split; [done|]. split.
      * rewrite Hp', (concat_insert B _ m (x :: m) Hm). cbn [app]. rewrite <- (concat_split B _ m Hm). by rewrite <- Permutation_middle.
      * eapply rehashed_trans; [eapply rehashed_more; [|exact Hr1]|eapply rehashed_more; [|exact Hr']]; set_solver.
Qed.

Lemma move_chains_ok L old Bold : ∀ hp lst B count, buckets_ok hp L lst B → Forall2 (chain hp) old Bold →
  NoDup (concat Bold ++ concat B) → (∀ x, x ∈ concat Bold → ∃ n, hp !! x = Some n ∧ 0 <= hash n < 2 ^ 32) →
  0 <= count → count + Z.of_nat (length (concat Bold)) < 2 ^ 32 →
  ∃ hp' lst' B', move_chains hp L old lst count = Ok (hp', lst', count + Z.of_nat (length (concat Bold))) ∧
    buckets_ok hp' L lst' B' ∧ concat B' ≡ₚ concat Bold ++ concat B ∧ rehashed hp hp' (concat Bold).
Proof.
  revert Bold. induction old as [|o old IH]; intros Bold hp lst B count Hb HF Hnd Hh H0 Hn.
  - inversion HF; subst. exists hp, lst, B. rewrite Z.add_0_r. done.
  - inversion HF as [|? l ? Bo Hc HF']; subst. cbn [concat] in *. rewrite length_app in Hn. rewrite <- app_assoc in Hnd.
    pose proof Hnd as Hnd0. apply list.NoDup_app in Hnd as (N1 & N2 & N3).
    destruct (move_chain_ok L l (S (size hp)) hp lst B o count Hb Hc) as (hp1 & lst1 & B1 & E1 & Hb1 & Hp1 & Hr1).
    + apply list.NoDup_app. split; [done|]. split; [|by apply list.NoDup_app in N3 as (_ & _ & ?)].
      intros x Hx Hx2. apply (N2 x Hx). set_solver.
    + intros x Hx. apply Hh. set_solver.
    + apply Nat.lt_succ_r, nodup_size; [done|]. intros x Hx. destruct (Hh x) as (n & Hn' & _); [set_solver|by eexists].
    + done.
    + lia.
    + cbn [move_chains]. rewrite E1. unfold mbind, res_bind.
      destruct (IH Bo hp1 lst1 B1 (count + Z.of_nat (length l))) as (hp' & lst' & B' & E & Hb' & Hp' & Hr').
      * done.
      * clear - HF' Hr1 N2. induction HF' as [|o' m old' Bo' Hcm HF' IHF]; constructor.
        -- apply (chain_frame hp); [done|]. intros x Hx. apply (rh_frame _ _ _ Hr1). intros Hx2. apply (N2 x Hx2). cbn. set_solver.
        -- apply IHF. intros x Hx. specialize (N2 x Hx). cbn in N2. set_solver.
      * rewrite Hp1. rewrite (Permutation_app_comm l), app_assoc, (Permutation_app_comm _ l). done.
      * intros x Hx. destruct (Hh x) as (nx & Hnx & Hhx); [set_solver|]. destruct (rehashed_get _ _ _ _ _ Hr1 Hnx) as (n' & Hn' & Ec).
        exists n'. split; [done|]. assert (hash n' = hash nx) as -> by (by injection Ec). done.
      * lia.
      * lia.
      * exists hp', lst', B'. rewrite E, length_app. split; [do 2 f_equal; lia|]. split; [done|]. split.
        -- rewrite Hp', Hp1. rewrite !app_assoc. apply Permutation_app_tail, Permutation_app_comm.
        -- eapply rehashed_trans; [eapply rehashed_more; [|exact Hr1]|eapply rehashed_more; [|exact Hr']]; set_solver.
Qed.

Lemma empty_buckets hp k : 0 <= k <= 31 → buckets_ok hp (2 ^ k) (replicate (Z.to_nat (2 ^ k)) None) (replicate (Z.to_nat (2 ^ k)) []).
Proof.
  intros Hk. pose proof (Z.pow_pos_nonneg 2 k). assert (concat (replicate (Z.to_nat (2 ^ k)) []) = ([] : list nat)) as Hc.
  { induction (Z.to_nat (2 ^ k)); [done|done]. }
  split.
  - by exists k.
  - rewrite length_replicate. lia.
  - by rewrite !length_replicate.
  - intros i l Hl. apply lookup_replicate in Hl as [-> Hi]. exists None. split; [|done]. by apply lookup_replicate.
  - intros i l x Hl Hx. apply lookup_replicate in Hl as [-> _]. by apply not_elem_of_nil in Hx.
  - rewrite Hc. constructor.
Qed.

Lemma Resize_ok hp t B : table_ok hp t B → Z.of_nat (length (concat B)) <= 2 ^ 31 →
  ∃ hp' t' B', Resize hp t = Ok (hp', t') ∧ table_ok hp' t' B' ∧ concat B' ≡ₚ concat B ∧ rehashed hp hp' (concat B).
Proof.
  intros [Hb He] Hlen. unfold Resize. rewrite He.
  destruct (grow_ok (Z.of_nat (length (concat B))) ltac:(lia) 33 2) as (k & Hk & Eg & _); [lia|lia|].
  change (2 ^ 2) with 4 in Eg. rewrite Eg. unfold mbind at 1, res_bind at 1.
  assert (concat (replicate (Z.to_nat (2 ^ k)) []) = ([] : list nat)) as Hc0 by (induction (Z.to_nat (2 ^ k)); done).
  destruct (move_chains_ok (2 ^ k) (list_ t) B hp (replicate (Z.to_nat (2 ^ k)) None) (replicate (Z.to_nat (2 ^ k)) []) 0)
    as (hp' & lst' & B' & E & Hb' & Hp & Hr).
  - apply empty_buckets. lia.
  - apply Forall2_same_length_lookup. split; [apply Hb|]. intros i o l Ho Hl.
    destruct (bo_chain _ _ _ _ Hb i l Hl) as (o' & Ho' & Hc). rewrite Ho in Ho'. by injection Ho' as ->.
  - rewrite Hc0, app_nil_r. apply Hb.
  - intros x Hx. apply in_concat_bucket in Hx as (i & l & Hl & Hx). destruct (bo_hash _ _ _ _ Hb i l x Hl Hx) as (n & Hn & Hh & _). by exists n.
  - done.
  - lia.
  - rewrite E. unfold mbind, res_bind. rewrite Z.add_0_l, Z.eqb_refl. cbn [SkipList.assert_].
    rewrite Hc0, app_nil_r in Hp. exists hp', (mkTable (2 ^ k) (Z.of_nat (length (concat B))) lst'), B'.
    split; [done|]. split; [|done]. split; cbn; [done|]. by rewrite Hp.
Qed.

Lemma HandleTable_new_ok hp : ∃ t, HandleTable_new hp = Ok (hp, t) ∧ table_ok hp t (replicate 4 []).
Proof.
  eexists. split; [reflexivity|]. split; [|done]. apply (empty_buckets hp 2). lia.
Qed.

(** ** Inserting *)

Lemma keyed_alter hp a q x : keyed hp x → keyed (alter (λ n, set_next_hash n q) a hp) x.
Proof. apply (keyed_rehashed hp _ [a]). apply rehashed_one. by left. Qed.

Lemma table_Insert_ok hp t B a n : table_ok hp t B → (∀ x, x ∈ a :: concat B → keyed hp x) → hp !! a = Some n →
  a ∉ concat B → 0 <= hash n < 2 ^ 32 → Z.of_nat (length (concat B)) < 2 ^ 31 →
  ∃ old hp' t' B', table_Insert hp t a = Ok (old, hp', t') ∧ table_ok hp' t' B' ∧ rehashed hp hp' (a :: concat B) ∧
    match old with
    | Some x => (∃ m, hp !! x = Some m ∧ matches (key_data n) (hash n) m = true) ∧
        ∃ rest, concat B ≡ₚ x :: rest ∧ concat B' ≡ₚ a :: rest
    | None => none_matches hp (key_data n) (hash n) (concat B) ∧ concat B' ≡ₚ a :: concat B
    end.
Proof.
  intros Ht Hk Ha Hna Hh Hlen. unfold table_Insert, get. rewrite Ha. unfold mbind at 1, res_bind at 1. cbn [of_option].
  rewrite (handle_key_ok hp) by (done || apply Hk; by left). unfold mbind at 1, res_bind at 1.
  destruct (FindPointer_ok hp t B (key_data n) (hash n) Ht) as (l1 & l2 & Hi & E & Er & Hno & Hyes); [set_solver|done|].
  rewrite E. unfold mbind at 1, res_bind at 1. rewrite Er. unfold mbind at 1, res_bind at 1.
  set (i := bidx (length_ t) (hash n)) in *. destruct Ht as [Hb He].
  destruct (bo_chain _ _ _ _ Hb _ _ Hi) as (o & _ & Hc). destruct (chain_tail _ _ _ _ Hc) as (o' & Hc2).
  assert (∃ nh, (match head l2 with None => Ok None | Some o => n ← of_option (hp !! o); Ok (next_hash n) end) = Ok nh ∧ chain hp nh (tail l2))
    as (nh & Enh & Hnh).
  { destruct l2 as [|x l2]; cbn; [by exists None|]. destruct Hc2 as (_ & m & Hm & Hc2). rewrite Hm. by exists (next_hash m). }
  unfold get in Enh. rewrite Enh. unfold mbind at 1, res_bind at 1. rewrite update_ok by by eexists.
  unfold mbind at 1, res_bind at 1. set (hp1 := alter (λ n, set_next_hash n nh) a hp).
  assert (rehashed hp hp1 [a]) as Hr1 by (apply rehashed_one; by left).
  assert (buckets_ok hp1 (length_ t) (list_ t) B) as Hb1.
  { apply (buckets_frame hp hp1 [a]); [done|done|]. by intros y ->%list_elem_of_singleton. }
  assert (∀ x, x ∈ l1 ++ l2 → x ∈ concat B) as Hin by (intros x Hx; apply in_concat_bucket; by exists i, (l1 ++ l2)).
  pose proof (bucket_nodup _ _ _ (bo_nodup _ _ _ _ Hb) Hi) as Hnd. apply list.NoDup_app in Hnd as (Hd1 & Hd2 & Hd3).
  assert (∀ x, x ∈ tail l2 → x ∈ l2) as Htl by (destruct l2; [done|intros; by right]).
  destruct (write_slot_ok hp1 t B i l1 l2 (a :: tail l2) (Some a) Hb1 Hi) as (hp2 & t2 & -> & L2 & El2 & Hr2 & Hb2).
  - split; [done|]. exists (set_next_hash n nh). unfold hp1 at 1. rewrite lookup_alter_eq, Ha. split; [done|]. cbn [next_hash set_next_hash].
    apply (chain_frame hp); [done|]. intros y Hy. apply (rh_frame _ _ _ Hr1). intros ->%list_elem_of_singleton. apply Hna, Hin. set_solver.
  - intros x Hx [->|Hx2]%elem_of_cons; [apply Hna, Hin; set_solver|]. apply (Hd2 x Hx). by apply Htl.
  - intros x j m [->|Hx]%elem_of_cons Hj Hxm.
    + destruct Hna. apply in_concat_bucket. by exists j, m.
    + eapply (bucket_unique B j i m _ x); [apply Hb|done|done|done|set_solver].
  - apply list.NoDup_cons. split; [|destruct l2; [done|by apply list.NoDup_cons in Hd3 as [_ ?]]]. intros Hx. apply Hna, Hin. set_solver.
  - intros x [->|Hx]%elem_of_cons.
    + exists (set_next_hash n nh). unfold hp1. by rewrite lookup_alter_eq, Ha.
    + apply (bo_hash _ _ _ _ Hb1 _ _ x Hi). set_solver.
  - unfold mbind at 1, res_bind at 1.
    assert (rehashed hp hp2 (a :: concat B)) as Hrr.
    { eapply rehashed_trans; [eapply rehashed_more; [|exact Hr1]; set_solver|]. eapply rehashed_more; [|exact Hr2]. intros x Hx. right. apply Hin. set_solver. }
    pose proof (concat_insert B i _ (l1 ++ a :: tail l2) Hi) as Hp2. pose proof (concat_split B i _ Hi) as Hp.
    destruct l2 as [|x l2]; cbn [head hd_error tail] in *.
    + (* a new key *)
      assert (concat (<[i := l1 ++ [a]]> B) ≡ₚ a :: concat B) as Hpa.
      { rewrite Hp2, Hp, app_nil_r, <- app_assoc. cbn [app]. by rewrite <- Permutation_middle. }
      assert (none_matches hp (key_data n) (hash n) (concat B)) as Hnone.
      { rewrite app_nil_r in Hi. eapply (none_found hp t); [by split|exact Hi|done]. }
      rewrite L2, El2, He. rewrite u32_small by lia.
      assert (table_ok hp2 (mkTable (length_ t) (Z.of_nat (length (concat B)) + 1) (list_ t2)) (<[i := l1 ++ [a]]> B)) as Ht2.
      { split; cbn; [by rewrite L2 in Hb2|]. rewrite Hpa. cbn. lia. }
      cbn [length_ elems_]. destruct (length_ t <? Z.of_nat (length (concat B)) + 1).
      * destruct (Resize_ok _ _ _ Ht2) as (hp3 & t3 & B3 & -> & Ht3 & Hp3 & Hr3); [rewrite Hpa; cbn [length]; lia|].
        unfold mbind, res_bind. exists None, hp3, t3, B3. split; [done|]. split; [done|]. split; [|by rewrite Hp3].
        eapply rehashed_trans; [exact Hrr|]. eapply rehashed_more; [|exact Hr3]. intros y. by rewrite Hpa.
      * unfold mbind, res_bind. eexists _, _, _, _. split; [done|]. split; [exact Ht2|]. done.
    + (* the entry of the key is replaced *)
      exists (Some x), hp2, t2, (<[i := l1 ++ a :: l2]> B). split; [done|].
      assert (concat B ≡ₚ x :: (l1 ++ l2 ++ concat (delete i B))) as Hpx.
      { rewrite Hp, <- app_assoc. cbn [app]. by rewrite <- Permutation_middle. }
      assert (concat (<[i := l1 ++ a :: l2]> B) ≡ₚ a :: (l1 ++ l2 ++ concat (delete i B))) as Hpa.
      { rewrite Hp2, <- app_assoc. cbn [app]. by rewrite <- Permutation_middle. }
      split; [split; [done|by rewrite El2, He, Hpx, Hpa]|]. split; [done|]. split; [by apply Hyes|].
      by exists (l1 ++ l2 ++ concat (delete i B)).
Qed.
End table.
