(* ===== verification/LdbCacheShard.v ===== *)
(** What LevelDB's cache promises: entries that clients hold, entries that they do not,
    oldest first, which go when there is too much, and entries that are not in the cache
    any more but are still held.

    The shards of LevelDB's cache do what the specification of shards says.

    The operations of the shards of LevelDB's cache, on shards that are represented. *)
From S2P Require Import Prelude LdbSkip LdbFormat LdbCodingProps LdbCache LdbCacheTable.
Module CacheSpec.
Section spec.
Context {V : Type}.

(** [e_id] is the address; [e_refs] counts the handles that clients hold. *)
Record Entry := mkEntry { e_id : nat; e_key : bytes; e_hash : Z; e_value : V; e_charge : Z; e_refs : Z }.

(** Unused entries, oldest first; used ones; removed ones that are still held; and the
    keys and values that have been passed to deleters. *)
Record Shard := mkShard { s_lru : list Entry; s_use : list Entry; s_out : list Entry; s_capacity : Z; s_deleted : list (bytes * V) }.

Definition cached (s : Shard) : list Entry := s_lru s ++ s_use s.
Definition add_refs (d : Z) (e : Entry) : Entry := mkEntry (e_id e) (e_key e) (e_hash e) (e_value e) (e_charge e) (e_refs e + d).
Definition without (id : nat) (l : list Entry) : list Entry := List.filter (λ e, negb (e_id e =? id)%nat) l.
Definition bump (id : nat) (d : Z) (l : list Entry) : list Entry := (λ e, if (e_id e =? id)%nat then add_refs d e else e) <$> l.
Definition with_id (id : nat) (l : list Entry) : option Entry := List.find (λ e, (e_id e =? id)%nat) l.
Definition with_key (key : bytes) (h : Z) (l : list Entry) : option Entry :=
  List.find (λ e, (e_hash e =? h) && bool_decide (e_key e = key)) l.
Definition deletion (e : Entry) : bytes * V := (e_key e, e_value e).

(** The charges of the cached entries, as counted in 64 bits. *)
Definition total (l : list Entry) : Z := u64 (foldr (λ e t, e_charge e + t) 0 l).
Definition usage (s : Shard) : Z := total (cached s).

(** A client gets a handle. *)
Definition s_ref (id : nat) (s : Shard) : Shard :=
  match with_id id (s_lru s) with
  | Some e => mkShard (without id (s_lru s)) (s_use s ++ [add_refs 1 e]) (s_out s) (s_capacity s) (s_deleted s)
  | None => mkShard (s_lru s) (bump id 1 (s_use s)) (s_out s) (s_capacity s) (s_deleted s)
  end.

Definition s_lookup (key : bytes) (h : Z) (s : Shard) : option nat * Shard :=
  match with_key key h (cached s) with
  | Some e => (Some (e_id e), s_ref (e_id e) s)
  | None => (None, s)
  end.

(** A client gives a handle back. *)
Definition s_release (id : nat) (s : Shard) : Shard :=
  match with_id id (s_use s) with
  | Some e =>
      if e_refs e =? 1
      then mkShard (s_lru s ++ [add_refs (-1) e]) (without id (s_use s)) (s_out s) (s_capacity s) (s_deleted s)
      else mkShard (s_lru s) (bump id (-1) (s_use s)) (s_out s) (s_capacity s) (s_deleted s)
  | None =>
      match with_id id (s_out s) with
      | Some e =>
          if e_refs e =? 1
          then mkShard (s_lru s) (s_use s) (without id (s_out s)) (s_capacity s) (s_deleted s ++ [deletion e])
          else mkShard (s_lru s) (s_use s) (bump id (-1) (s_out s)) (s_capacity s) (s_deleted s)
      | None => s
      end
  end.

(** An entry leaves the cache. *)
Definition s_drop (e : Entry) (s : Shard) : Shard :=
  match with_id (e_id e) (s_lru s) with
  | Some e => mkShard (without (e_id e) (s_lru s)) (s_use s) (s_out s) (s_capacity s) (s_deleted s ++ [deletion e])
  | None => mkShard (s_lru s) (without (e_id e) (s_use s)) (s_out s ++ [e]) (s_capacity s) (s_deleted s)
  end.

Definition s_erase (key : bytes) (h : Z) (s : Shard) : Shard :=
  match with_key key h (cached s) with Some e => s_drop e s | None => s end.

(** The oldest unused entries leave while the charges exceed the capacity. *)
Fixpoint s_evict (lru use out : list Entry) (cap : Z) (del : list (bytes * V)) : Shard :=
  match lru with
  | o :: rest => if cap <? total (lru ++ use) then s_evict rest use out cap (del ++ [deletion o]) else mkShard lru use out cap del
  | [] => mkShard lru use out cap del
  end.

Definition s_insert (id : nat) (key : bytes) (h : Z) (v : V) (charge : Z) (s : Shard) : Shard :=
  let e := mkEntry id key h v charge 1 in
  let s' := mkShard (s_lru s) (s_use s ++ [e]) (s_out s) (s_capacity s) (s_deleted s) in
  let s'' := match with_key key h (cached s) with Some old => s_drop old s' | None => s' end in
  s_evict (s_lru s'') (s_use s'') (s_out s'') (s_capacity s'') (s_deleted s'').

Definition s_prune (s : Shard) : Shard :=
  mkShard [] (s_use s) (s_out s) (s_capacity s) (s_deleted s ++ (deletion <$> s_lru s)).
End spec.
Arguments Entry : clear implicits.
Arguments Shard : clear implicits.
End CacheSpec.

(** * The shards of LevelDB's cache do what the specification of shards says *)
Import Cache CacheSpec.

Section shard.
Context {V : Type}.
Abbreviation LRUHandle := (LRUHandle (V := V)).
Abbreviation LRUCache := (LRUCache (V := V)).
Abbreviation Entry := (Entry V).
Abbreviation Shard := (CacheSpec.Shard V).
Implicit Types (hp : gmap nat LRUHandle) (c : LRUCache) (s : Shard) (e : Entry) (l : list Entry).

(** * Lists of entries *)

Definition ids l : list nat := e_id <$> l.

Lemma ids_app l1 l2 : ids (l1 ++ l2) = ids l1 ++ ids l2.
Proof. apply fmap_app. Qed.

Lemma in_ids e l : e ∈ l → e_id e ∈ ids l.
Proof. apply list_elem_of_fmap_2. Qed.

Lemma without_absent id l : id ∉ ids l → without id l = l.
Proof.
  induction l as [|x l IH]; intros Hn; [done|]. cbn in *. rewrite (proj2 (Nat.eqb_neq _ _)) by set_solver. cbn.
  unfold without in IH. by rewrite IH by set_solver.
Qed.
Lemma bump_absent id d l : id ∉ ids l → bump id d l = l.
Proof.
  induction l as [|x l IH]; intros Hn; [done|]. cbn in *. rewrite (proj2 (Nat.eqb_neq _ _)) by set_solver.
  unfold bump in IH. by rewrite IH by set_solver.
Qed.
Lemma with_id_absent id l : id ∉ ids l → with_id id l = None.
Proof.
  induction l as [|x l IH]; intros Hn; [done|]. cbn in *. rewrite (proj2 (Nat.eqb_neq _ _)) by set_solver.
  unfold with_id in IH. by rewrite IH by set_solver.
Qed.

Lemma without_at e l1 l2 : NoDup (ids (l1 ++ e :: l2)) → without (e_id e) (l1 ++ e :: l2) = l1 ++ l2.
Proof.
  rewrite ids_app. intros (_ & H1 & H2)%list.NoDup_app. cbn in H2. apply list.NoDup_cons in H2 as [H2 _].
  unfold without. rewrite List.filter_app. cbn. rewrite Nat.eqb_refl. cbn.
  change (without (e_id e) l1 ++ without (e_id e) l2 = l1 ++ l2). rewrite !without_absent; [done|done|].
  intros Hx. apply (H1 _ Hx). cbn. by left.
Qed.
Lemma bump_at e d l1 l2 : NoDup (ids (l1 ++ e :: l2)) → bump (e_id e) d (l1 ++ e :: l2) = l1 ++ add_refs d e :: l2.
Proof.
  rewrite ids_app. intros (_ & H1 & H2)%list.NoDup_app. cbn in H2. apply list.NoDup_cons in H2 as [H2 _].
  unfold bump. rewrite fmap_app. cbn. rewrite Nat.eqb_refl.
  change (bump (e_id e) d l1 ++ add_refs d e :: bump (e_id e) d l2 = l1 ++ add_refs d e :: l2). rewrite !bump_absent; [done|done|].
  intros Hx. apply (H1 _ Hx). cbn. by left.
Qed.
Lemma with_id_at e l1 l2 : NoDup (ids (l1 ++ e :: l2)) → with_id (e_id e) (l1 ++ e :: l2) = Some e.
Proof.
  rewrite ids_app. intros (_ & H1 & _)%list.NoDup_app. induction l1 as [|x l1 IH]; cbn.
  - by rewrite Nat.eqb_refl.
  - rewrite (proj2 (Nat.eqb_neq _ _)); [apply IH; intros y Hy; apply H1; by right|].
    intros E. apply (H1 (e_id e)); [cbn; rewrite <- E; by left|by left].
Qed.

Lemma with_key_found key h l e : with_key key h l = Some e → e ∈ l ∧ e_hash e = h ∧ e_key e = key.
Proof.
  intros Hf. apply List.find_some in Hf as [Hin Hm]. apply andb_true_iff in Hm as [Hh Hk]. apply Z.eqb_eq in Hh.
  apply bool_decide_eq_true in Hk. by rewrite list_elem_of_In.
Qed.

(** * The representation *)

Definition facts (n : LRUHandle) : option V * Z * bytes * bool * Z * Z := (value n, charge n, key_data n, in_cache n, refs n, hash n).

Definition node_ok hp e (b : bool) (r : Z) : Prop :=
  facts <$> hp !! e_id e = Some (Some (e_value e), e_charge e, e_key e, b, r, e_hash e).

(** The entries of a heap: two rings and the removed ones. *)
Record shape hp (h1 : nat) (l1 : list Entry) (h2 : nat) (l2 out : list Entry) : Prop := {
  sh_ring1 : ring hp h1 (ids l1);
  sh_ring2 : ring hp h2 (ids l2);
  sh_nodup : NoDup (h1 :: h2 :: ids (l1 ++ l2 ++ out));
  sh_dom x : is_Some (hp !! x) ↔ x ∈ h1 :: h2 :: ids (l1 ++ l2 ++ out);
  sh_cached e : e ∈ l1 ++ l2 → node_ok hp e true (e_refs e + 1);
  sh_out e : e ∈ out → node_ok hp e false (e_refs e) ∧ keyed hp (e_id e)
}.

(** ** Frames *)

Lemma relinked_facts hp hp' S x : relinked hp hp' S → facts <$> hp' !! x = facts <$> hp !! x.
Proof.
  intros [H1 _]. pose proof (H1 x) as E. destruct (hp !! x), (hp' !! x); try done; cbn in *. injection E as E1 E2 E3 E4 E5 E6 E7.
  unfold facts. congruence.
Qed.
Lemma rehashed_facts hp hp' S x : rehashed hp hp' S → facts <$> hp' !! x = facts <$> hp !! x.
Proof.
  intros [H1 _]. pose proof (H1 x) as E. destruct (hp !! x), (hp' !! x); try done; cbn in *. injection E as E1 E2 E3 E4 E5 E6 E7 E8.
  unfold facts. congruence.
Qed.
Lemma rehashed_links hp hp' S x : rehashed hp hp' S → nextp hp' x = nextp hp x ∧ prevp hp' x = prevp hp x.
Proof.
  intros [H1 _]. pose proof (H1 x) as E. unfold nextp, prevp. destruct (hp !! x), (hp' !! x); try done; cbn in *.
  injection E as E1 E2 E3 E4 E5 E6 E7 E8. by rewrite E2, E3.
Qed.

(** Tables only depend on the hashes and the chains of their entries. *)
Definition chaining (n : LRUHandle) : option nat * Z := (next_hash n, hash n).
Lemma chain_same hp hp' (l : list nat) : (∀ x, x ∈ l → chaining <$> hp' !! x = chaining <$> hp !! x) → ∀ o, chain hp o l → chain hp' o l.
Proof.
  induction l as [|x l IH]; intros Hx o Hc; [done|]. destruct Hc as (-> & n & Hn & Hc). split; [done|].
  pose proof (Hx x (list_elem_of_here _ _)) as E. rewrite Hn in E. apply fmap_Some in E as (n' & E & Ec). exists n'. split; [done|].
  injection Ec as Ec _. rewrite <- Ec. apply IH; [|done]. intros y Hy. apply Hx. by right.
Qed.
Lemma table_same hp hp' t B : (∀ x, x ∈ concat B → chaining <$> hp' !! x = chaining <$> hp !! x) → table_ok hp t B → table_ok hp' t B.
Proof.
  intros Hx [[B1 B2 B3 B4 B5 B6] He]. split; [|done]. split; try done.
  - intros i l Hl. destruct (B4 i l Hl) as (o & Ho & Hc). exists o. split; [done|]. apply (chain_same hp); [|done].
    intros x Hxl. apply Hx, in_concat_bucket. by exists i, l.
  - intros i l x Hl Hxl. destruct (B5 i l x Hl Hxl) as (n & Hn & Hh). 
    assert (x ∈ concat B) as Hin by (apply in_concat_bucket; by exists i, l). pose proof (Hx x Hin) as E. rewrite Hn in E.
    apply fmap_Some in E as (n' & E & Ec). exists n'. split; [done|]. injection Ec as _ <-. done.
Qed.
Lemma relinked_chaining hp hp' S x : relinked hp hp' S → chaining <$> hp' !! x = chaining <$> hp !! x.
Proof.
  intros [H1 _]. pose proof (H1 x) as E. destruct (hp !! x), (hp' !! x); try done; cbn in *. injection E as E1 E2 E3 E4 E5 E6 E7.
  unfold chaining. congruence.
Qed.

(** A change of one entry that keeps its links and chain. *)
Definition keeps (f : LRUHandle → LRUHandle) : Prop := ∀ n, next (f n) = next n ∧ prev (f n) = prev n ∧ chaining (f n) = chaining n.

Lemma alter_links hp f a x : keeps f → nextp (alter f a hp) x = nextp hp x ∧ prevp (alter f a hp) x = prevp hp x.
Proof.
  intros Hf. unfold nextp, prevp. destruct (decide (x = a)) as [->|N]; [rewrite lookup_alter_eq|by rewrite lookup_alter_ne].
  destruct (hp !! a) as [n|]; [|done]. cbn. by destruct (Hf n) as (-> & -> & _).
Qed.
Lemma alter_chaining hp f a x : keeps f → chaining <$> alter f a hp !! x = chaining <$> hp !! x.
Proof.
  intros Hf. destruct (decide (x = a)) as [->|N]; [rewrite lookup_alter_eq|by rewrite lookup_alter_ne].
  destruct (hp !! a) as [n|]; [|done]. cbn. by destruct (Hf n) as (_ & _ & ->).
Qed.
Lemma alter_other hp f a e b r : e_id e ≠ a → node_ok hp e b r → node_ok (alter f a hp) e b r.
Proof. intros Hn. unfold node_ok. by rewrite lookup_alter_ne. Qed.

Lemma keeps_refs r : keeps (λ n, set_refs n r).
Proof. done. Qed.
Lemma keeps_in_cache b : keeps (λ n, set_in_cache n b).
Proof. done. Qed.

Lemma keyed_links hp hp' x : nextp hp' x = nextp hp x → is_Some (hp' !! x) → keyed hp x → keyed hp' x.
Proof.
  intros E [n' Hn'] (n & y & Hn & Hy & Ny). exists n', y. split; [done|]. split; [|done]. unfold nextp in E. rewrite Hn, Hn' in E. cbn in E. congruence.
Qed.

(** The entries of rings can be read. *)
Lemma ring_keyed hp h (l : list nat) x : ring hp h l → NoDup (h :: l) → x ∈ l → keyed hp x.
Proof.
  intros Hr Hnd Hx. destruct (ring_next _ _ _ _ Hr Hnd Hx) as (y & Hy & Ny & _). unfold nextp in Hy.
  destruct (hp !! x) as [n|] eqn:Hn; [|done]. by exists n, y.
Qed.

(** ** Changes of shape *)

Lemma perm_nodup (l l' : list nat) : l ≡ₚ l' → NoDup l → NoDup l'.
Proof. by intros ->. Qed.
Lemma perm_in (l l' : list nat) : l ≡ₚ l' → ∀ x, x ∈ l ↔ x ∈ l'.
Proof. intros P x. by rewrite P. Qed.

(** The same entries in another order. *)
Lemma ids_perm l l' : l ≡ₚ l' → ids l ≡ₚ ids l'.
Proof. intros P. by apply fmap_Permutation. Qed.

Lemma shape_swap hp h1 l1 h2 l2 out : shape hp h1 l1 h2 l2 out → shape hp h2 l2 h1 l1 out.
Proof.
  intros [R1 R2 N D C O]. assert (h1 :: h2 :: ids (l1 ++ l2 ++ out) ≡ₚ h2 :: h1 :: ids (l2 ++ l1 ++ out)) as P.
  { rewrite !ids_app. solve_Permutation. }
  split; [done|done|by apply (perm_nodup _ _ P)| | |done].
  - intros x. rewrite <- (perm_in _ _ P). apply D.
  - intros e He. apply C. set_solver.
Qed.

(** Whether the entries of another heap are the same ones. *)
Lemma shape_facts hp hp' h1 l1 h2 l2 out : shape hp h1 l1 h2 l2 out → (∀ x, is_Some (hp' !! x) ↔ is_Some (hp !! x)) →
  (∀ x, nextp hp' x = nextp hp x ∧ prevp hp' x = prevp hp x) → (∀ x, facts <$> hp' !! x = facts <$> hp !! x) → shape hp' h1 l1 h2 l2 out.
Proof.
  intros [R1 R2 N D C O] Hd Hl Hf. split; try done.
  - by apply (ring_frame hp).
  - by apply (ring_frame hp).
  - intros x. by rewrite Hd.
  - intros e He. unfold node_ok. rewrite Hf. by apply C.
  - intros e He. destruct (O e He) as [H1 H2]. split; [unfold node_ok; by rewrite Hf|].
    apply (keyed_links hp); [apply Hl| |done]. apply Hd. destruct H2 as (n & ? & -> & _). done.
Qed.

Lemma shape_rehashed hp hp' S h1 l1 h2 l2 out : rehashed hp hp' S → shape hp h1 l1 h2 l2 out → shape hp' h1 l1 h2 l2 out.
Proof.
  intros Hr Hs. apply (shape_facts hp); [done| | |]; intros x.
  - by apply (rehashed_dom _ _ S).
  - by apply (rehashed_links _ _ S).
  - by apply (rehashed_facts _ _ S).
Qed.

Lemma shape_keyed hp h1 l1 h2 l2 out e : shape hp h1 l1 h2 l2 out → e ∈ l1 ++ l2 ++ out → keyed hp (e_id e).
Proof.
  intros [R1 R2 N _ _ O] He. rewrite !ids_app in N. rewrite !elem_of_app in He. destruct He as [He|[He|He]].
  - apply (ring_keyed _ h1 (ids l1)); [done| |by apply in_ids]. apply (sublist_NoDup _ _ N).
    apply sublist_skip, sublist_cons, sublist_inserts_r. done.
  - apply (ring_keyed _ h2 (ids l2)); [done| |by apply in_ids]. apply (sublist_NoDup _ _ N).
    apply sublist_cons, sublist_skip, sublist_inserts_l, sublist_inserts_r. done.
  - by apply O.
Qed.

(** The node of an entry. *)
Lemma node_get hp e b r : node_ok hp e b r → ∃ n, hp !! e_id e = Some n ∧ value n = Some (e_value e) ∧ charge n = e_charge e ∧
  key_data n = e_key e ∧ in_cache n = b ∧ refs n = r ∧ hash n = e_hash e.
Proof. intros (n & Hn & E)%fmap_Some. exists n. injection E as -> -> -> -> -> ->. done. Qed.

(** An entry that is in neither list. *)
Record loose hp (h1 : nat) (l1 : list Entry) (h2 : nat) (l2 out : list Entry) e : Prop := {
  lo_ring1 : ring hp h1 (ids l1);
  lo_ring2 : ring hp h2 (ids l2);
  lo_nodup : NoDup (e_id e :: h1 :: h2 :: ids (l1 ++ l2 ++ out));
  lo_dom x : is_Some (hp !! x) ↔ x ∈ e_id e :: h1 :: h2 :: ids (l1 ++ l2 ++ out);
  lo_cached x : x ∈ e :: l1 ++ l2 → node_ok hp x true (e_refs x + 1);
  lo_out x : x ∈ out → node_ok hp x false (e_refs x) ∧ keyed hp (e_id x)
}.

(** Removing an entry from its list. *)
Lemma shape_unlink hp h1 a e b h2 l2 out : shape hp h1 (a ++ e :: b) h2 l2 out →
  ∃ hp', LRU_Remove hp (e_id e) = Ok hp' ∧ loose hp' h1 (a ++ b) h2 l2 out e ∧ keyed hp' (e_id e) ∧ relinked hp hp' (h1 :: ids (a ++ b)).
Proof.
  intros Hs. pose proof (shape_keyed _ _ _ _ _ _ e Hs ltac:(set_solver)) as Ke. destruct Hs as [R1 R2 N D C O].
  assert (h1 :: h2 :: ids ((a ++ e :: b) ++ l2 ++ out) ≡ₚ e_id e :: h1 :: h2 :: ids ((a ++ b) ++ l2 ++ out)) as P.
  { rewrite !ids_app. cbn. solve_Permutation. }
  pose proof (perm_nodup _ _ P N) as N'.
  destruct (LRU_Remove_ok hp h1 (ids a) (e_id e) (ids b)) as (hp' & E & R1' & Hr).
  { by rewrite ids_app in R1. }
  { apply (sublist_NoDup _ _ N). rewrite !ids_app. cbn. apply sublist_skip, sublist_cons, sublist_inserts_r. done. }
  rewrite <- ids_app in R1', Hr.
  assert (∀ x, x ∉ h1 :: ids (a ++ b) → nextp hp' x = nextp hp x ∧ prevp hp' x = prevp hp x) as Fr.
  { intros x Hx. unfold nextp, prevp. by rewrite (rl_frame _ _ _ Hr x). }
  assert (∀ x, is_Some (hp' !! x) ↔ is_Some (hp !! x)) as Dr by (intros x; by apply (relinked_dom _ _ _ _ Hr)).
  assert (∀ x, x ∉ h1 :: ids (a ++ b) → keyed hp x → keyed hp' x) as Kr.
  { intros x Hx Hk. apply (keyed_links hp); [by apply Fr| |done]. apply Dr. destruct Hk as (n & ? & -> & _). done. }
  assert (h1 ∉ ids l2 ∧ h1 ∉ ids out ∧ e_id e ∉ h1 :: ids (a ++ b) ∧ h2 ∉ h1 :: ids (a ++ b) ∧ (∀ x, x ∈ ids l2 ++ ids out → x ∉ ids (a ++ b))) as (N1 & N2 & N3 & N4 & N5).
  { rewrite (ids_app (a ++ b)), (ids_app l2) in N'. apply list.NoDup_cons in N' as [M1 [M2 [M3 (M4 & M5 & M6)%list.NoDup_app]%list.NoDup_cons]%list.NoDup_cons].
    split; [set_solver|]. split; [set_solver|]. split; [set_solver|]. split; [set_solver|]. intros x Hx Hy. by apply (M5 x). }
  exists hp'. split; [done|]. split; [|by split; [apply Kr|]]. split; [done| |done| | |].
  - apply (ring_frame hp); [done|]. intros x Hx. apply Fr. apply elem_of_cons in Hx as [->|Hx]; [done|]. intros [->|Hy]%elem_of_cons; [done|].
    apply (N5 x); set_solver.
  - intros x. rewrite Dr, <- (perm_in _ _ P). apply D.
  - intros x Hx. unfold node_ok. rewrite (relinked_facts _ _ _ _ Hr). apply C. set_solver.
  - intros x Hx. destruct (O x Hx) as [O1 O2]. split; [unfold node_ok; by rewrite (relinked_facts _ _ _ _ Hr)|]. apply Kr; [|done].
    pose proof (in_ids _ _ Hx) as Hi. intros [Eh|Hy]%elem_of_cons; [by rewrite Eh in Hi|]. apply (N5 (e_id x)); set_solver.
Qed.

(** Appending it to a list. *)
Lemma loose_link hp h1 l1 h2 l2 out e : loose hp h1 l1 h2 l2 out e →
  ∃ hp', LRU_Append hp h2 (e_id e) = Ok hp' ∧ shape hp' h1 l1 h2 (l2 ++ [e]) out ∧ relinked hp hp' (e_id e :: h2 :: ids l2).
Proof.
  intros [R1 R2 N D C O].
  assert (h1 :: h2 :: ids (l1 ++ (l2 ++ [e]) ++ out) ≡ₚ e_id e :: h1 :: h2 :: ids (l1 ++ l2 ++ out)) as P.
  { rewrite !ids_app. cbn. solve_Permutation. }
  assert (h1 ∉ e_id e :: h2 :: ids l2 ∧ e_id e ∉ h2 :: ids l2 ∧ NoDup (h2 :: ids l2) ∧
    (∀ x, x ∈ ids l1 ++ ids out → x ∉ e_id e :: h2 :: ids l2)) as (N1 & N2 & N3 & N4).
  { rewrite (ids_app l1), (ids_app l2) in N. apply list.NoDup_cons in N as [M1 [M2 [M3 (M4 & M5 & (M6 & M7 & M8)%list.NoDup_app)%list.NoDup_app]%list.NoDup_cons]%list.NoDup_cons].
    split; [set_solver|]. split; [set_solver|]. split; [apply list.NoDup_cons; set_solver|].
    intros x [Hx|Hx]%elem_of_app; (intros [->|[->|Hy]%elem_of_cons]%elem_of_cons; [set_solver|set_solver|]).
    - apply (M5 x); set_solver.
    - by apply (M7 x). }
  destruct (LRU_Append_ok hp h2 (ids l2) (e_id e) R2 N3 N2) as (hp' & E & R2' & Hr); [apply D; set_solver|].
  assert (∀ x, x ∉ e_id e :: h2 :: ids l2 → nextp hp' x = nextp hp x ∧ prevp hp' x = prevp hp x) as Fr.
  { intros x Hx. unfold nextp, prevp. by rewrite (rl_frame _ _ _ Hr x). }
  assert (∀ x, is_Some (hp' !! x) ↔ is_Some (hp !! x)) as Dr by (intros x; by apply (relinked_dom _ _ _ _ Hr)).
  exists hp'. split; [done|]. split; [|done]. split.
  - apply (ring_frame hp); [done|]. intros x Hx. apply Fr. apply elem_of_cons in Hx as [->|Hx]; [done|]. apply N4. set_solver.
  - rewrite ids_app. done.
  - by apply (perm_nodup _ _ (Permutation_sym P)).
  - intros x. rewrite Dr, (perm_in _ _ P). apply D.
  - intros x Hx. unfold node_ok. rewrite (relinked_facts _ _ _ _ Hr). apply C. set_solver.
  - intros x Hx. destruct (O x Hx) as [O1 O2]. split; [unfold node_ok; by rewrite (relinked_facts _ _ _ _ Hr)|].
    apply (keyed_links hp); [apply Fr, N4; pose proof (in_ids _ _ Hx); set_solver| |done]. apply Dr. destruct O2 as (n & ? & -> & _). done.
Qed.

Lemma shape_move hp h1 a e b h2 l2 out : shape hp h1 (a ++ e :: b) h2 l2 out →
  ∃ hp1 hp2, LRU_Remove hp (e_id e) = Ok hp1 ∧ LRU_Append hp1 h2 (e_id e) = Ok hp2 ∧
    shape hp2 h1 (a ++ b) h2 (l2 ++ [e]) out ∧ (∀ x, chaining <$> hp2 !! x = chaining <$> hp !! x).
Proof.
  intros Hs. destruct (shape_unlink _ _ _ _ _ _ _ _ Hs) as (hp1 & E1 & Hl & _ & Hr1).
  destruct (loose_link _ _ _ _ _ _ _ Hl) as (hp2 & E2 & Hs2 & Hr2). exists hp1, hp2. split; [done|]. split; [done|]. split; [done|].
  intros x. by rewrite (relinked_chaining _ _ _ _ Hr2), (relinked_chaining _ _ _ _ Hr1).
Qed.

(** A new one. *)
Lemma loose_new hp h1 l1 h2 l2 out e n : shape hp h1 l1 h2 l2 out → hp !! e_id e = None →
  facts n = (Some (e_value e), e_charge e, e_key e, true, e_refs e + 1, e_hash e) → loose (<[e_id e := n]> hp) h1 l1 h2 l2 out e.
Proof.
  intros [R1 R2 N D C O] He Hn.
  assert (e_id e ∉ h1 :: h2 :: ids (l1 ++ l2 ++ out)) as Ne by (intros Hin; apply D in Hin; rewrite He in Hin; by destruct Hin).
  assert (∀ x, x ∈ h1 :: h2 :: ids (l1 ++ l2 ++ out) → <[e_id e := n]> hp !! x = hp !! x) as Fr.
  { intros x Hx. apply lookup_insert_ne. by intros <-. }
  assert (∀ x, x ∈ l1 ++ l2 ++ out → <[e_id e := n]> hp !! e_id x = hp !! e_id x) as Fe.
  { intros x Hx. apply Fr. pose proof (in_ids _ _ Hx). by do 2 right. }
  rewrite !ids_app in Fr. split.
  - apply (ring_frame hp); [done|]. intros x Hx. unfold nextp, prevp. rewrite Fr; [done|set_solver].
  - apply (ring_frame hp); [done|]. intros x Hx. unfold nextp, prevp. rewrite Fr; [done|set_solver].
  - by apply list.NoDup_cons.
  - intros x. destruct (decide (x = e_id e)) as [->|Nx].
    + rewrite lookup_insert_eq. split; [intros _; by left|done].
    + rewrite lookup_insert_ne by done. rewrite D, !(elem_of_cons _ x (e_id e)). tauto.
  - intros x [->|Hx]%elem_of_cons; unfold node_ok.
    + rewrite lookup_insert_eq. cbn. by rewrite Hn.
    + rewrite Fe; [by apply C|set_solver].
  - intros x Hx. pose proof (Fe x ltac:(set_solver)) as E. unfold node_ok, keyed. rewrite E. by apply O.
Qed.

(** One entry changes. *)
Lemma refs_node hp e b r r' d : node_ok hp e b r → node_ok (alter (λ n, set_refs n r') (e_id e) hp) (add_refs d e) b r'.
Proof. intros (n & Hn & E)%node_get. unfold node_ok. cbn. rewrite lookup_alter_eq, Hn. cbn. unfold facts. cbn. destruct E as (-> & -> & -> & -> & _ & ->). done. Qed.
Lemma in_cache_node hp e b b' r d : node_ok hp e b r → node_ok (alter (λ n, set_in_cache n b') (e_id e) hp) (add_refs d e) b' r.
Proof. intros (n & Hn & E)%node_get. unfold node_ok. cbn. rewrite lookup_alter_eq, Hn. cbn. unfold facts. cbn. destruct E as (-> & -> & -> & _ & -> & ->). done. Qed.

Lemma alter_keyed hp f a x : keeps f → keyed hp x → keyed (alter f a hp) x.
Proof.
  intros Hf Hk. apply (keyed_links hp); [by apply alter_links| |done]. apply alter_is_Some. destruct Hk as (n & ? & -> & _). done.
Qed.

Lemma ids_refs a d e b : ids (a ++ add_refs d e :: b) = ids (a ++ e :: b).
Proof. by rewrite !ids_app. Qed.

(** Entries at different places are different. *)
Lemma other_id (h1 h2 : nat) a e b l x : NoDup (h1 :: h2 :: ids (a ++ e :: b ++ l)) → x ∈ a ++ b ++ l → e_id x ≠ e_id e.
Proof.
  intros N Hx E. apply list.NoDup_cons in N as [_ [_ N]%list.NoDup_cons]. assert (ids (a ++ e :: b ++ l) ≡ₚ e_id e :: ids (a ++ b ++ l)) as P.
  { rewrite !ids_app. cbn. rewrite ids_app. solve_Permutation. }
  apply (perm_nodup _ _ P) in N. apply list.NoDup_cons in N as [N _]. apply N. rewrite <- E. by apply in_ids.
Qed.

Lemma shape_refs hp h1 l1 h2 a e b out d : shape hp h1 l1 h2 (a ++ e :: b) out →
  shape (alter (λ n, set_refs n (e_refs e + d + 1)) (e_id e) hp) h1 l1 h2 (a ++ add_refs d e :: b) out.
Proof.
  intros [R1 R2 N D C O].
  assert (∀ x, x ∈ l1 ++ a ++ b ++ out → e_id x ≠ e_id e) as Ne.
  { intros x Hx. apply (other_id h1 h2 (l1 ++ a) e b out); [|by rewrite <- app_assoc]. by rewrite <- app_assoc in N |- *. }
  split.
  - apply (ring_frame hp); [done|]. intros x Hx. by apply alter_links.
  - rewrite ids_refs. apply (ring_frame hp); [done|]. intros x Hx. by apply alter_links.
  - by rewrite !ids_app in *.
  - intros x. rewrite alter_is_Some, D. by rewrite !ids_app.
  - intros x Hx. rewrite !elem_of_app, elem_of_cons in Hx. destruct Hx as [Hx|[Hx|[->|Hx]]].
    + apply alter_other; [intros E; by apply (Ne x); [set_solver|]|apply C; set_solver].
    + apply alter_other; [intros E; by apply (Ne x); [set_solver|]|apply C; set_solver].
    + cbn. replace (e_refs e + d + 1) with (e_refs e + 1 + d) by lia. eapply refs_node, C. set_solver.
    + apply alter_other; [intros E; by apply (Ne x); [set_solver|]|apply C; set_solver].
  - intros x Hx. destruct (O x Hx) as [O1 O2]. split; [|by apply alter_keyed].
    apply alter_other; [intros E; by apply (Ne x); [set_solver|]|done].
Qed.

Lemma shape_refs_out hp h1 l1 h2 l2 a e b d : shape hp h1 l1 h2 l2 (a ++ e :: b) →
  shape (alter (λ n, set_refs n (e_refs e + d)) (e_id e) hp) h1 l1 h2 l2 (a ++ add_refs d e :: b).
Proof.
  intros [R1 R2 N D C O].
  assert (∀ x, x ∈ l1 ++ l2 ++ a ++ b → e_id x ≠ e_id e) as Ne.
  { intros x Hx. apply (other_id h1 h2 (l1 ++ l2 ++ a) e b []); rewrite ?app_nil_r, <- !app_assoc; done. }
  split.
  - apply (ring_frame hp); [done|]. intros x Hx. by apply alter_links.
  - apply (ring_frame hp); [done|]. intros x Hx. by apply alter_links.
  - by rewrite !ids_app in *.
  - intros x. rewrite alter_is_Some, D. by rewrite !ids_app.
  - intros x Hx. apply alter_other; [intros E; by apply (Ne x); [set_solver|]|apply C; set_solver].
  - intros x Hx. rewrite elem_of_app, elem_of_cons in Hx. destruct Hx as [Hx|[->|Hx]].
    + destruct (O x) as [O1 O2]; [set_solver|]. split; [|by apply alter_keyed]. apply alter_other; [intros E; by apply (Ne x); [set_solver|]|done].
    + destruct (O e) as [O1 O2]; [set_solver|]. split; [|by apply alter_keyed]. by eapply refs_node.
    + destruct (O x) as [O1 O2]; [set_solver|]. split; [|by apply alter_keyed]. apply alter_other; [intros E; by apply (Ne x); [set_solver|]|done].
Qed.

Lemma shape_uncache hp h1 l1 h2 l2 out e : loose hp h1 l1 h2 l2 out e → keyed hp (e_id e) →
  shape (alter (λ n, set_in_cache n false) (e_id e) hp) h1 l1 h2 l2 (out ++ [add_refs 1 e]).
Proof.
  intros [R1 R2 N D C O] Hk.
  assert (h1 :: h2 :: ids (l1 ++ l2 ++ out ++ [add_refs 1 e]) ≡ₚ e_id e :: h1 :: h2 :: ids (l1 ++ l2 ++ out)) as P.
  { rewrite !ids_app. cbn. solve_Permutation. }
  assert (∀ x, x ∈ l1 ++ l2 ++ out → e_id x ≠ e_id e) as Ne.
  { intros x Hx E. apply list.NoDup_cons in N as [N _]. apply N. rewrite <- E. apply in_ids in Hx. by do 2 right. }
  split.
  - apply (ring_frame hp); [done|]. intros x Hx. by apply alter_links.
  - apply (ring_frame hp); [done|]. intros x Hx. by apply alter_links.
  - by apply (perm_nodup _ _ (Permutation_sym P)).
  - intros x. rewrite alter_is_Some, D. by rewrite (perm_in _ _ P).
  - intros x Hx. apply alter_other; [intros E; by apply (Ne x); [set_solver|]|apply C; set_solver].
  - intros x [Hx| ->%list_elem_of_singleton]%elem_of_app.
    + destruct (O x Hx) as [O1 O2]. split; [|by apply alter_keyed]. apply alter_other; [intros E; by apply (Ne x); [set_solver|]|done].
    + split; [|by apply alter_keyed]. cbn. eapply in_cache_node, C. set_solver.
Qed.

Lemma shape_free hp h1 l1 h2 l2 a e b : shape hp h1 l1 h2 l2 (a ++ e :: b) → shape (delete (e_id e) hp) h1 l1 h2 l2 (a ++ b).
Proof.
  intros [R1 R2 N D C O].
  assert (h1 :: h2 :: ids (l1 ++ l2 ++ a ++ e :: b) ≡ₚ e_id e :: h1 :: h2 :: ids (l1 ++ l2 ++ a ++ b)) as P.
  { rewrite !ids_app. cbn. solve_Permutation. }
  pose proof (perm_nodup _ _ P N) as N'. apply list.NoDup_cons in N' as [Ne N'].
  assert (∀ x, x ∈ h1 :: h2 :: ids (l1 ++ l2 ++ a ++ b) → delete (e_id e) hp !! x = hp !! x) as Fr.
  { intros x Hx. apply lookup_delete_ne. by intros <-. }
  assert (∀ x, x ∈ l1 ++ l2 ++ a ++ b → delete (e_id e) hp !! e_id x = hp !! e_id x) as Fe.
  { intros x Hx. apply Fr. apply in_ids in Hx. by do 2 right. }
  rewrite !ids_app in Fr. split; [| |done| | |].
  - apply (ring_frame hp); [done|]. intros x Hx. unfold nextp, prevp. rewrite Fr; [done|set_solver].
  - apply (ring_frame hp); [done|]. intros x Hx. unfold nextp, prevp. rewrite Fr; [done|set_solver].
  - intros x. destruct (decide (x = e_id e)) as [->|Nx].
    + rewrite lookup_delete_eq. split; [by intros []|done].
    + rewrite lookup_delete_ne, D, (perm_in _ _ P), (elem_of_cons _ x (e_id e)) by done. tauto.
  - intros x Hx. unfold node_ok. rewrite Fe; [by apply C|set_solver].
  - intros x Hx. pose proof (Fe x ltac:(set_solver)) as E. unfold node_ok, keyed. rewrite E. apply O. set_solver.
Qed.
End shard.

(** * The operations of the shards of LevelDB's cache, on shards that are represented *)
Import Cache CacheSpec.

Section ops.
Context {V : Type}.
Abbreviation LRUHandle := (LRUHandle (V := V)).
Abbreviation LRUCache := (LRUCache (V := V)).
Abbreviation Entry := (Entry V).
Abbreviation Shard := (CacheSpec.Shard V).
Implicit Types (hp : gmap nat LRUHandle) (c : LRUCache) (s : Shard) (e : Entry) (l : list Entry).

(** * The representation of a shard *)

Definition tab hp (t : HandleTable) (L : list nat) : Prop := ∃ B, table_ok hp t B ∧ concat B ≡ₚ L.

Lemma tab_same hp hp' t L : (∀ x, x ∈ L → chaining <$> hp' !! x = chaining <$> hp !! x) → tab hp t L → tab hp' t L.
Proof. intros Hx (B & Hb & P). exists B. split; [|done]. apply (table_same hp); [|done]. intros x Hin. apply Hx. by rewrite <- P. Qed.
Lemma tab_perm hp t L L' : L ≡ₚ L' → tab hp t L → tab hp t L'.
Proof. intros P (B & Hb & P'). exists B. by rewrite P'. Qed.

Definition ekey e : Z * bytes := (e_hash e, e_key e).

(** Counts of handles and hashes are those of 32-bit numbers. *)
Record fine s : Prop := {
  fi_lru e : e ∈ s_lru s → e_refs e = 0;
  fi_held e : e ∈ s_use s ++ s_out s → 1 <= e_refs e;
  fi_bound e : e ∈ s_lru s ++ s_use s ++ s_out s → 0 <= e_hash e < 2 ^ 32 ∧ e_refs e < 2 ^ 32 - 1
}.

(** All but the table. *)
Record held c s : Prop := {
  he_shape : shape (heap c) lru_ (s_lru s) in_use_ (s_use s) (s_out s);
  he_fine : fine s;
  he_usage : usage_ c = usage s;
  he_capacity : capacity_ c = s_capacity s;
  he_deleted : deleted c = s_deleted s
}.

(** What the table needs: one entry for a key, and not too many. *)
Record keyed_once s : Prop := {
  ko_keys : NoDup (ekey <$> cached s);
  ko_count : Z.of_nat (length (cached s)) <= 2 ^ 31
}.

Record rep c s : Prop := {
  rp_held : held c s;
  rp_table : tab (heap c) (table_ c) (ids (cached s));
  rp_once : keyed_once s
}.

(** * Entries up to their handles *)

Definition strip e : Entry := add_refs (- e_refs e) e.

Lemma strip_refs d e : strip (add_refs d e) = strip e.
Proof. unfold strip, add_refs. cbn. f_equal. lia. Qed.
Lemma ids_strip l : ids (strip <$> l) = ids l.
Proof. induction l; [done|]. cbn. unfold ids in *. by f_equal. Qed.
Lemma ekey_strip l : ekey <$> (strip <$> l) = ekey <$> l.
Proof. induction l; [done|]. cbn. by f_equal. Qed.
Lemma total_strip l : total (strip <$> l) = total l.
Proof. unfold total. f_equal. induction l as [|e l IH]; [done|]. cbn in *. by f_equal. Qed.

Lemma total_perm l l' : l ≡ₚ l' → total l = total l'.
Proof. intros P. unfold total. f_equal. induction P; cbn; lia. Qed.
Lemma total_cons e l : total (e :: l) = u64 (e_charge e + total l).
Proof. unfold total. cbn. unfold u64. by rewrite Zplus_mod_idemp_r. Qed.
Lemma total_rest e l : u64 (total (e :: l) - e_charge e) = total l.
Proof. unfold total. cbn. unfold u64. rewrite Zminus_mod_idemp_l. f_equal. lia. Qed.

Lemma same_strip s s' : strip <$> cached s' ≡ₚ strip <$> cached s →
  ids (cached s') ≡ₚ ids (cached s) ∧ usage s' = usage s ∧ (keyed_once s → keyed_once s').
Proof.
  intros P. split; [|split].
  - rewrite <- (ids_strip (cached s')), <- (ids_strip (cached s)). by apply ids_perm.
  - unfold usage. rewrite <- (total_strip (cached s')), <- (total_strip (cached s)). by apply total_perm.
  - intros [K1 K2]. split.
    + rewrite <- ekey_strip in *. by rewrite P.
    + apply Permutation_length in P. rewrite !length_fmap in P. by rewrite P.
Qed.

(** * Handles of entries in the cache *)

(** The new count of handles, in terms of the old one. *)
Lemma alter_refs hp a n (g : Z → Z) : hp !! a = Some n → alter (λ m, set_refs m (g (refs m))) a hp = alter (λ m, set_refs m (g (refs n))) a hp.
Proof. intros Hn. apply alter_ext. intros m Hm. rewrite Hn in Hm. by injection Hm as <-. Qed.

Lemma Unref_out c h1 l1 h2 l2 a e b : shape (heap c) h1 l1 h2 l2 (a ++ e :: b) → 1 <= e_refs e < 2 ^ 32 →
  ∃ hp, Unref c (e_id e) = Ok (mkLRU hp (capacity_ c) (usage_ c) (table_ c) (deleted c ++ if e_refs e =? 1 then [deletion e] else [])) ∧
    shape hp h1 l1 h2 l2 (a ++ (if e_refs e =? 1 then [] else [add_refs (-1) e]) ++ b) ∧
    (∀ x, x ≠ e_id e → chaining <$> hp !! x = chaining <$> heap c !! x).
Proof.
  intros Hs Hb. destruct (sh_out _ _ _ _ _ _ Hs e ltac:(set_solver)) as [Hn Hk].
  destruct (node_get _ _ _ _ Hn) as (n & En & Ev & Ec & Ek & Ei & Er & Eh). unfold Unref, get. rewrite En. unfold mbind, res_bind.
  cbn [of_option]. rewrite Er, (proj2 (Z.ltb_lt 0 _)) by lia. cbn [SkipList.assert_]. unfold modify. rewrite update_ok by done.
  unfold mbind, res_bind. rewrite (alter_refs _ _ n (λ r, u32 (r - 1)) En), Er, u32_small by lia. cbn [with_heap heap].
  rewrite lookup_alter_eq, En. cbn [fmap option_fmap option_map of_option refs set_refs].
  destruct (Z.eqb_spec (e_refs e) 1) as [E1|N1].
  - rewrite E1. change (1 - 1) with 0. cbn - [handle_key]. rewrite Ei. cbn - [handle_key]. pose proof (shape_free _ _ _ _ _ _ _ _ Hs) as Hf. eexists. split; [|split].
    + rewrite (handle_key_ok (alter (λ n, set_refs n 0) (e_id e) (heap c)) (e_id e) (set_refs n 0)).
      * cbn. rewrite Ev. cbn. unfold deletion. by rewrite Ek.
      * by apply alter_keyed.
      * by rewrite lookup_alter_eq, En.
    + by rewrite delete_alter_eq.
    + intros x Nx. by rewrite lookup_delete_ne, lookup_alter_ne by done.
  - rewrite (proj2 (Z.eqb_neq _ 0)) by lia. cbn. rewrite Ei. cbn. eexists. split; [|split].
    + by rewrite app_nil_r.
    + pose proof (shape_refs_out _ _ _ _ _ _ _ _ (-1) Hs) as Hr. by replace (e_refs e + -1) with (e_refs e - 1) in Hr by lia.
    + intros x Nx. by rewrite lookup_alter_ne.
Qed.

Lemma refs_back e : add_refs (-1) (add_refs 1 e) = e.
Proof. destruct e. unfold add_refs. cbn. f_equal. lia. Qed.

Lemma refs_one e : (e_refs (add_refs 1 e) =? 1) = (e_refs e =? 0).
Proof. cbn. destruct (Z.eqb_spec (e_refs e) 0), (Z.eqb_spec (e_refs e + 1) 1); lia. Qed.

Lemma FinishErase_ok c h1 a e b h2 l2 out : shape (heap c) h1 (a ++ e :: b) h2 l2 out → 0 <= e_refs e < 2 ^ 32 - 1 →
  ∃ hp, FinishErase c (Some (e_id e)) = Ok (true, mkLRU hp (capacity_ c) (u64 (usage_ c - e_charge e)) (table_ c)
      (deleted c ++ if e_refs e =? 0 then [deletion e] else [])) ∧
    shape hp h1 (a ++ b) h2 l2 (out ++ if e_refs e =? 0 then [] else [e]) ∧
    (∀ x, x ≠ e_id e → chaining <$> hp !! x = chaining <$> heap c !! x).
Proof.
  intros Hs Hb. pose proof (sh_cached _ _ _ _ _ _ Hs e ltac:(set_solver)) as Hn.
  destruct (node_get _ _ _ _ Hn) as (n & En & _ & Ec & _ & Ei & _). destruct (shape_unlink _ _ _ _ _ _ _ _ Hs) as (hp1 & E1 & Hl & Hk & Hr).
  pose proof (shape_uncache _ _ _ _ _ _ _ Hl Hk) as Hu. destruct (relinked_get _ _ _ _ _ Hr En) as (n1 & En1 & Ep).
  unfold FinishErase, get. rewrite En. unfold mbind, res_bind. cbn [of_option]. rewrite Ei. cbn [SkipList.assert_].
  rewrite E1. unfold modify. cbn [with_heap heap]. rewrite update_ok by done. unfold mbind, res_bind. cbn [with_heap heap].
  rewrite lookup_alter_eq, En1. cbn [fmap option_fmap option_map of_option charge set_in_cache].
  assert (charge n1 = e_charge e) as -> by (injection Ep; congruence).
  pose (c1 := set_usage (mkLRU (alter (λ n, set_in_cache n false) (e_id e) hp1) (capacity_ c) (usage_ c) (table_ c) (deleted c)) (u64 (usage_ c - e_charge e))).
  destruct (Unref_out c1 _ _ _ _ _ _ [] Hu) as (hp2 & E2 & Hs2 & Hc2); [cbn; lia|].
  exists hp2. split; [|split].
  - cbn [e_id add_refs] in E2. unfold c1 in E2. unfold set_usage, with_heap in *. cbn [heap capacity_ usage_ table_ deleted] in *. rewrite E2.
    by rewrite refs_one.
  - by rewrite app_nil_r, refs_back, refs_one in Hs2.
  - intros x Nx. rewrite Hc2 by done. cbn. rewrite (alter_chaining _ _ _ _ (keeps_in_cache false)). by apply (relinked_chaining _ _ _ _ Hr).
Qed.

(** A client gets a handle of an entry of the cache. *)
Lemma Ref_unused c s a e b : held c s → s_lru s = a ++ e :: b → ∃ hp,
  Ref c (e_id e) = Ok (with_heap c hp) ∧ shape hp lru_ (a ++ b) in_use_ (s_use s ++ [add_refs 1 e]) (s_out s) ∧
  (∀ x, chaining <$> hp !! x = chaining <$> heap c !! x).
Proof.
  intros [Hs Hf _ _ _] El. rewrite El in Hs. pose proof (sh_cached _ _ _ _ _ _ Hs e ltac:(set_solver)) as Hn.
  assert (e_refs e = 0) as Er0 by (apply (fi_lru _ Hf); rewrite El; set_solver).
  destruct (node_get _ _ _ _ Hn) as (n & En & _ & _ & _ & Ei & Er & _). destruct (shape_move _ _ _ _ _ _ _ _ Hs) as (hp1 & hp2 & E1 & E2 & Hm & Hc).
  unfold Ref, get. rewrite En. unfold mbind, res_bind. cbn [of_option]. rewrite Er, Er0, Ei. change (0 + 1 =? 1) with true. cbn [andb]. rewrite E1, E2.
  unfold modify. pose proof (sh_cached _ _ _ _ _ _ Hm e ltac:(set_solver)) as Hn2. destruct (node_get _ _ _ _ Hn2) as (n2 & En2 & _ & _ & _ & _ & Er2 & _).
  cbn [with_heap heap]. rewrite update_ok by done. rewrite (alter_refs _ _ n2 (λ r, u32 (r + 1)) En2), Er2, Er0. eexists. split; [done|]. split.
  - pose proof (shape_refs _ _ _ _ _ _ [] _ 1 Hm) as Hr. rewrite Er0 in Hr. done.
  - intros x. by rewrite (alter_chaining _ _ _ _ (keeps_refs _)).
Qed.

Lemma Ref_used c s a e b : held c s → s_use s = a ++ e :: b → e_refs e < 2 ^ 32 - 2 → ∃ hp,
  Ref c (e_id e) = Ok (with_heap c hp) ∧ shape hp lru_ (s_lru s) in_use_ (a ++ add_refs 1 e :: b) (s_out s) ∧
  (∀ x, chaining <$> hp !! x = chaining <$> heap c !! x).
Proof.
  intros [Hs Hf _ _ _] El Hb. rewrite El in Hs. pose proof (sh_cached _ _ _ _ _ _ Hs e ltac:(set_solver)) as Hn.
  assert (1 <= e_refs e) as Er1 by (apply (fi_held _ Hf); rewrite El; set_solver).
  destruct (node_get _ _ _ _ Hn) as (n & En & _ & _ & _ & Ei & Er & _).
  unfold Ref, get. rewrite En. unfold mbind, res_bind. cbn [of_option]. rewrite Er, (proj2 (Z.eqb_neq _ 1)) by lia. cbn [andb].
  unfold modify. cbn [with_heap heap]. rewrite update_ok by done. rewrite (alter_refs _ _ n (λ r, u32 (r + 1)) En), Er, u32_small by lia. eexists. split; [done|]. split.
  - pose proof (shape_refs _ _ _ _ _ _ _ _ 1 Hs) as Hr. done.
  - intros x. by rewrite (alter_chaining _ _ _ _ (keeps_refs _)).
Qed.

(** A client gives a handle of an entry of the cache back. *)
Lemma Release_used c s a e b : held c s → s_use s = a ++ e :: b → ∃ hp,
  Unref c (e_id e) = Ok (with_heap c hp) ∧ (∀ x, chaining <$> hp !! x = chaining <$> heap c !! x) ∧
  if e_refs e =? 1 then shape hp lru_ (s_lru s ++ [add_refs (-1) e]) in_use_ (a ++ b) (s_out s)
  else shape hp lru_ (s_lru s) in_use_ (a ++ add_refs (-1) e :: b) (s_out s).
Proof.
  intros [Hs Hf _ _ _] El. rewrite El in Hs. pose proof (sh_cached _ _ _ _ _ _ Hs e ltac:(set_solver)) as Hn.
  assert (1 <= e_refs e < 2 ^ 32 - 1) as Hb.
  { split; [apply (fi_held _ Hf); rewrite El; set_solver|]. apply (fi_bound _ Hf). rewrite El. set_solver. }
  destruct (node_get _ _ _ _ Hn) as (n & En & _ & _ & _ & Ei & Er & _).
  unfold Unref, get. rewrite En. unfold mbind, res_bind. cbn [of_option]. rewrite Er, (proj2 (Z.ltb_lt 0 _)) by lia. cbn [SkipList.assert_].
  unfold modify. rewrite update_ok by done. unfold mbind, res_bind.
  rewrite (alter_refs _ _ n (λ r, u32 (r - 1)) En), Er, u32_small by lia. cbn [with_heap heap]. rewrite lookup_alter_eq, En.
  cbn [fmap option_fmap option_map of_option refs set_refs in_cache]. rewrite (proj2 (Z.eqb_neq _ 0)) by lia. rewrite Ei. cbn [andb].
  pose proof (shape_refs _ _ _ _ _ _ _ _ (-1) Hs) as Hr. replace (e_refs e + -1 + 1) with (e_refs e + 1 - 1) in Hr by lia.
  replace (e_refs e + 1 - 1 =? 1) with (e_refs e =? 1) by (f_equal; lia). destruct (Z.eqb_spec (e_refs e) 1) as [E1|N1].
  - apply shape_swap in Hr. destruct (shape_move _ _ _ _ _ _ _ _ Hr) as (hp1 & hp2 & Er1 & Er2 & Hm & Hc). cbn [e_id add_refs] in Er1, Er2.
    rewrite Er1, Er2. exists hp2. split; [done|]. split; [|by apply shape_swap].
    intros x. rewrite Hc. by rewrite (alter_chaining _ _ _ _ (keeps_refs _)).
  - eexists. split; [done|]. split; [|done]. intros x. by rewrite (alter_chaining _ _ _ _ (keeps_refs _)).
Qed.
End ops.
