(* ===== verification/LdbCacheRep.v ===== *)
(** The shards of LevelDB's cache do what their specification says, and represent its
    shards again. *)
From S2P Require Import Prelude LdbSkip LdbFormat LdbCodingProps LdbCache LdbCacheTable LdbCacheShard.
Import Cache CacheSpec.

Section reps.
Context {V : Type}.
Abbreviation LRUHandle := (LRUHandle (V := V)).
Abbreviation LRUCache := (LRUCache (V := V)).
Abbreviation Entry := (Entry V).
Abbreviation Shard := (CacheSpec.Shard V).
Implicit Types (hp : gmap nat LRUHandle) (c : LRUCache) (s : Shard) (e : Entry) (l : list Entry).

(** * Finding entries *)

Lemma ekey_inj l e e' : NoDup (ekey <$> l) → e ∈ l → e' ∈ l → ekey e = ekey e' → e = e'.
Proof.
  intros N [i Hi]%list_elem_of_lookup_1 [j Hj]%list_elem_of_lookup_1 E.
  assert (i = j) as ->; [|congruence]. apply (NoDup_lookup _ _ _ (ekey e) N); rewrite list_lookup_fmap; [by rewrite Hi|by rewrite Hj, E].
Qed.

Lemma with_key_at l e : NoDup (ekey <$> l) → e ∈ l → with_key (e_key e) (e_hash e) l = Some e.
Proof.
  intros N He. destruct (with_key (e_key e) (e_hash e) l) as [e'|] eqn:E.
  - apply with_key_found in E as (Hin & Hh & Hk). f_equal. apply (ekey_inj l); try done. unfold ekey. congruence.
  - pose proof (List.find_none _ _ E e) as Hn. cbn in Hn. rewrite Z.eqb_refl, bool_decide_eq_true_2 in Hn by done.
    exfalso. by assert (true && true = false) by (apply Hn; by apply list_elem_of_In).
Qed.

Lemma with_key_none key h l e : with_key key h l = None → e ∈ l → ekey e ≠ (h, key).
Proof.
  intros E He Ek. injection Ek as <- <-. pose proof (List.find_none _ _ E e) as Hn. cbn in Hn.
  rewrite Z.eqb_refl, bool_decide_eq_true_2 in Hn by done. by assert (true && true = false) by (apply Hn; by apply list_elem_of_In).
Qed.

Lemma entry_of l x : x ∈ ids l → ∃ e, e ∈ l ∧ e_id e = x.
Proof. intros (e & -> & He)%list_elem_of_fmap. by exists e. Qed.

Lemma found hp l key h x n : NoDup (ekey <$> l) → (∀ e, e ∈ l → node_ok hp e true (e_refs e + 1)) → x ∈ ids l → hp !! x = Some n →
  matches key h n = true → ∃ e, e ∈ l ∧ e_id e = x ∧ with_key key h l = Some e.
Proof.
  intros N Hok Hx Hn Hm. destruct (entry_of _ _ Hx) as (e & He & <-). exists e. split; [done|]. split; [done|].
  destruct (node_get _ _ _ _ (Hok e He)) as (n' & Hn' & _ & _ & Ek & _ & _ & Eh). rewrite Hn in Hn'. injection Hn' as <-.
  unfold matches in Hm. apply andb_true_iff in Hm as [Hh Hk]. apply Z.eqb_eq in Hh. apply bool_decide_eq_true in Hk.
  rewrite <- Hh, <- Hk, Ek, Eh. by apply with_key_at.
Qed.

Lemma not_found hp l L key h : (∀ e, e ∈ l → node_ok hp e true (e_refs e + 1)) → L ≡ₚ ids l → none_matches hp key h L → with_key key h l = None.
Proof.
  intros Hok P Hn. destruct (with_key key h l) as [e|] eqn:E; [|done]. apply with_key_found in E as (He & Hh & Hk).
  destruct (node_get _ _ _ _ (Hok e He)) as (n & En & _ & _ & Ek & _ & _ & Eh).
  assert (matches key h n = false) as Hm. { apply (Hn (e_id e)); [|done]. rewrite P. by apply in_ids. }
  unfold matches in Hm. by rewrite Eh, Hh, Z.eqb_refl, Ek, bool_decide_eq_true_2 in Hm.
Qed.

Lemma held_cached c s e : held c s → e ∈ cached s → node_ok (heap c) e true (e_refs e + 1).
Proof. intros [Hs _ _ _ _]. apply Hs. Qed.

Lemma held_keyed c s x : held c s → x ∈ ids (cached s) → keyed (heap c) x.
Proof. intros [Hs _ _ _ _] (e & He & <-)%entry_of. apply (shape_keyed _ _ _ _ _ _ _ Hs). unfold cached in He. set_solver. Qed.

Lemma held_nodup c s : held c s → NoDup (lru_ :: in_use_ :: ids (cached s ++ s_out s)).
Proof. intros [[_ _ N _ _ _] _ _ _ _]. unfold cached. by rewrite <- app_assoc. Qed.
Lemma cached_nodup c s : held c s → NoDup (ids (cached s)).
Proof.
  intros Hh%held_nodup. rewrite ids_app in Hh. apply list.NoDup_cons in Hh as [_ [_ Hh]%list.NoDup_cons].
  by apply list.NoDup_app in Hh as [Hh _].
Qed.

Lemma table_count hp t L B : table_ok hp t B → concat B ≡ₚ L → length (concat B) = length L.
Proof. intros _ P. by apply Permutation_length. Qed.

(** * Lookup *)

(** Where an entry of the cache is. *)
Lemma cached_split s e : e ∈ cached s → (∃ a b, s_lru s = a ++ e :: b) ∨ (∃ a b, s_use s = a ++ e :: b).
Proof. intros [He|He]%elem_of_app; [left|right]; by apply list_elem_of_split in He. Qed.

Lemma lru_with_id c s a e b : held c s → s_lru s = a ++ e :: b → with_id (e_id e) (s_lru s) = Some e ∧ without (e_id e) (s_lru s) = a ++ b.
Proof.
  intros Hh%cached_nodup E. unfold cached in Hh. rewrite ids_app in Hh. apply list.NoDup_app in Hh as (Hh & _). rewrite E in *.
  by rewrite with_id_at, without_at.
Qed.
Lemma use_with_id c s a e b : held c s → s_use s = a ++ e :: b → with_id (e_id e) (s_lru s) = None ∧
  with_id (e_id e) (s_use s) = Some e ∧ without (e_id e) (s_use s) = a ++ b ∧ ∀ d, bump (e_id e) d (s_use s) = a ++ add_refs d e :: b.
Proof.
  intros Hh%cached_nodup E. unfold cached in Hh. rewrite ids_app in Hh. apply list.NoDup_app in Hh as (_ & N & Hh). rewrite E in *.
  split; [|split; [by apply with_id_at|split; [by apply without_at|intros d; by apply bump_at]]].
  apply with_id_absent. intros Hin. apply (N _ Hin). rewrite ids_app. set_solver.
Qed.

(** The same entries with other numbers of handles: the table serves them. *)
Lemma rep_handles c hp s s' : rep c s → shape hp lru_ (s_lru s') in_use_ (s_use s') (s_out s') →
  (∀ x, chaining <$> hp !! x = chaining <$> heap c !! x) → strip <$> cached s' ≡ₚ strip <$> cached s → fine s' →
  s_capacity s' = s_capacity s → s_deleted s' = s_deleted s → rep (with_heap c hp) s'.
Proof.
  intros [[Hs Hf Hu Hc Hd] Ht Ho] Hs' Hch P Hf' Ec Ed. destruct (same_strip _ _ P) as (Pi & Eu & Ho'). split; [split; [done|done|by rewrite Eu|by rewrite Ec|by rewrite Ed]| |].
  - apply (tab_same (heap c)); [by intros x _|]. by apply (tab_perm _ _ _ _ (Permutation_sym Pi)).
  - by apply Ho'.
Qed.

Lemma Ref_ok c s e : rep c s → e ∈ cached s → e_refs e < 2 ^ 32 - 2 → ∃ c', Ref c (e_id e) = Ok c' ∧ rep c' (s_ref (e_id e) s).
Proof.
  intros Hr He Hb. pose proof (rp_held _ _ Hr) as Hh. destruct (he_fine _ _ Hh) as [F1 F2 F3].
  destruct (cached_split _ _ He) as [(a & b & E)|(a & b & E)].
  - destruct (Ref_unused c s a e b Hh E) as (hp & Ec & Hs & Hc). exists (with_heap c hp). split; [done|].
    destruct (lru_with_id c s a e b Hh E) as [Ew Ewo]. unfold s_ref. rewrite Ew, Ewo. apply (rep_handles c hp s); try done.
    + unfold cached. cbn. rewrite E, !fmap_app, !fmap_cons, strip_refs. solve_Permutation.
    + pose proof (F1 e ltac:(rewrite E; set_solver)) as E0. rewrite E in F1, F3. split; cbn.
      * intros x Hx. apply F1. set_solver.
      * intros x Hx. rewrite !elem_of_app, list_elem_of_singleton in Hx. destruct Hx as [[Hx| ->]|Hx]; first [cbn; lia|apply F2; set_solver].
      * intros x Hx. rewrite !elem_of_app, list_elem_of_singleton in Hx. pose proof (F3 e ltac:(set_solver)).
        destruct Hx as [[Hx|Hx]|[[Hx| ->]|Hx]]; first [cbn; lia|apply F3; set_solver].
  - destruct (Ref_used c s a e b Hh E Hb) as (hp & Ec & Hs & Hc). exists (with_heap c hp). split; [done|].
    destruct (use_with_id c s a e b Hh E) as (Ew & _ & _ & Ebu). unfold s_ref. rewrite Ew, Ebu. apply (rep_handles c hp s); try done.
    + unfold cached. cbn. rewrite E, !fmap_app, !fmap_cons, strip_refs. done.
    + pose proof (F2 e ltac:(rewrite E; set_solver)) as E0. rewrite E in F2, F3. pose proof (F3 e ltac:(set_solver)). split; cbn.
      * done.
      * intros x Hx. rewrite !elem_of_app, elem_of_cons in Hx. destruct Hx as [[Hx|[->|Hx]]|Hx]; first [cbn; lia|apply F2; set_solver].
      * intros x Hx. rewrite !elem_of_app, elem_of_cons in Hx. destruct Hx as [Hx|[[Hx|[->|Hx]]|Hx]]; first [cbn; lia|apply F3; set_solver].
Qed.

Lemma rep_FindPointer c s : rep c s → ∃ B, table_ok (heap c) (table_ c) B ∧ concat B ≡ₚ ids (cached s) ∧
  (∀ x, x ∈ concat B → keyed (heap c) x) ∧ Z.of_nat (length (concat B)) <= 2 ^ 31.
Proof.
  intros [Hh (B & Hb & P) [_ Ho]]. exists B. split; [done|]. split; [done|]. split.
  - intros x Hx. apply (held_keyed c s); [done|]. by rewrite <- P.
  - rewrite P. unfold ids. by rewrite length_fmap.
Qed.

Lemma Lookup_ok c s key h : rep c s → 0 <= h < 2 ^ 32 → (∀ e, e ∈ cached s → e_refs e < 2 ^ 32 - 2) →
  ∃ c', Lookup c key h = Ok (fst (s_lookup key h s), c') ∧ rep c' (snd (s_lookup key h s)).
Proof.
  intros Hr Hh Hb. destruct (rep_FindPointer c s Hr) as (B & Ht & P & Hk & _). pose proof Hr as [He Htab Ho].
  destruct (table_Lookup_ok _ _ _ key h Ht Hk Hh) as (r & E & Hres). unfold Lookup. rewrite E. unfold mbind, res_bind. unfold s_lookup.
  destruct r as [x|].
  - destruct Hres as (Hx & n & Hn & Hm). rewrite P in Hx. destruct (found (heap c) (cached s) key h x n) as (e & Hin & <- & Ef); try done.
    { apply Ho. } { intros e Hin. by apply (held_cached c s). }
    rewrite Ef. destruct (Ref_ok c s e Hr Hin (Hb e Hin)) as (c' & Ec & Hr'). rewrite Ec. by exists c'.
  - rewrite (not_found (heap c) (cached s) (concat B)); [by exists c| |done|done]. intros e Hin. by apply (held_cached c s).
Qed.

(** * Release *)

Lemma out_with_id c s a e b : held c s → s_out s = a ++ e :: b → with_id (e_id e) (s_use s) = None ∧
  with_id (e_id e) (s_out s) = Some e ∧ without (e_id e) (s_out s) = a ++ b ∧ ∀ d, bump (e_id e) d (s_out s) = a ++ add_refs d e :: b.
Proof.
  intros Hh%held_nodup E. rewrite ids_app in Hh. apply list.NoDup_cons in Hh as [_ [_ Hh]%list.NoDup_cons].
  apply list.NoDup_app in Hh as (_ & N & Hh). rewrite E in *.
  split; [|split; [by apply with_id_at|split; [by apply without_at|intros d; by apply bump_at]]].
  apply with_id_absent. intros Hin. apply (N (e_id e)); [unfold cached|]; rewrite ids_app; set_solver.
Qed.

Lemma Release_cached c s e : rep c s → e ∈ s_use s → ∃ c', Release c (e_id e) = Ok c' ∧ rep c' (s_release (e_id e) s).
Proof.
  intros Hr (a & b & E)%list_elem_of_split. pose proof (rp_held _ _ Hr) as Hh. destruct (he_fine _ _ Hh) as [F1 F2 F3].
  destruct (use_with_id c s a e b Hh E) as (_ & Ew & Ewo & Ebu). destruct (Release_used c s a e b Hh E) as (hp & Ec & Hc & Hs).
  exists (with_heap c hp). split; [done|]. unfold s_release. rewrite Ew, Ewo, Ebu. rewrite E in F2, F3.
  pose proof (F2 e ltac:(set_solver)). pose proof (F3 e ltac:(set_solver)).
  destruct (Z.eqb_spec (e_refs e) 1) as [E1|N1]; (apply (rep_handles c hp s); try done; [unfold cached; cbn; rewrite E, !fmap_app, !fmap_cons, strip_refs; cbn; solve_Permutation|]).
  - split; cbn; intros x Hx; rewrite !elem_of_app, ?list_elem_of_singleton in Hx.
    + destruct Hx as [Hx| ->]; [by apply F1|cbn; lia].
    + apply F2. set_solver.
    + destruct Hx as [[Hx| ->]|[Hx|Hx]]; first [cbn; lia|apply F3; set_solver].
  - split; cbn; intros x Hx; [by apply F1|..]; rewrite !elem_of_app, ?elem_of_cons in Hx.
    + destruct Hx as [[Hx|[->|Hx]]|Hx]; first [cbn; lia|apply F2; set_solver].
    + destruct Hx as [Hx|[[Hx|[->|Hx]]|Hx]]; first [cbn; lia|apply F3; set_solver].
Qed.

Lemma Release_removed c s e : rep c s → e ∈ s_out s → ∃ c', Release c (e_id e) = Ok c' ∧ rep c' (s_release (e_id e) s).
Proof.
  intros Hr (a & b & E)%list_elem_of_split. pose proof Hr as [Hh Ht Ho]. destruct Hh as [Hs Hf Hu Hcap Hdel]. destruct Hf as [F1 F2 F3].
  destruct (out_with_id c s a e b (rp_held _ _ Hr) E) as (Ewn & Ew & Ewo & Ebu). rewrite E in F2, F3, Hs.
  pose proof (F2 e ltac:(set_solver)). pose proof (F3 e ltac:(set_solver)).
  destruct (Unref_out c _ _ _ _ _ _ _ Hs) as (hp & Ec & Hs' & Hch); [lia|]. eexists. split; [exact Ec|].
  assert (tab hp (table_ c) (ids (cached s))) as Ht'.
  { apply (tab_same (heap c)); [|done]. intros x Hx. apply Hch. intros ->. pose proof (held_nodup _ _ (rp_held _ _ Hr)) as N.
    rewrite ids_app in N. apply list.NoDup_cons in N as [_ [_ N]%list.NoDup_cons]. apply list.NoDup_app in N as (_ & N & _). apply (N _ Hx).
    apply in_ids. rewrite E. set_solver. }
  unfold s_release. rewrite Ewn, Ew, Ewo, Ebu.
  destruct (Z.eqb_spec (e_refs e) 1) as [E1|N1]; (split; [split; cbn|done|destruct Ho; split; done]); rewrite ?app_nil_r; try done; try congruence.
  - split; cbn; [done|..]; intros x Hx; [apply F2|apply F3]; set_solver.
  - split; cbn; intros x Hx; [by apply F1|..]; rewrite !elem_of_app, ?elem_of_cons in Hx.
    + destruct Hx as [Hx|[Hx|[->|Hx]]]; first [cbn; lia|apply F2; set_solver].
    + destruct Hx as [Hx|[Hx|[Hx|[->|Hx]]]]; first [cbn; lia|apply F3; set_solver].
Qed.

Lemma Release_ok c s id : rep c s → id ∈ ids (s_use s ++ s_out s) → ∃ c', Release c id = Ok c' ∧ rep c' (s_release id s).
Proof.
  intros Hr (e & [He|He]%elem_of_app & <-)%entry_of; [by apply Release_cached|by apply Release_removed].
Qed.

(** * Entries that leave *)

Lemma drop_unused c s a e b : held c s → s_lru s = a ++ e :: b →
  s_drop e s = CacheSpec.mkShard (a ++ b) (s_use s) (s_out s) (s_capacity s) (s_deleted s ++ [deletion e]).
Proof. intros Hh E. destruct (lru_with_id c s a e b Hh E) as [Ew Ewo]. unfold s_drop. by rewrite Ew, Ewo. Qed.
Lemma drop_used c s a e b : held c s → s_use s = a ++ e :: b →
  s_drop e s = CacheSpec.mkShard (s_lru s) (a ++ b) (s_out s ++ [e]) (s_capacity s) (s_deleted s).
Proof. intros Hh E. destruct (use_with_id c s a e b Hh E) as (Ew & _ & Ewo & _). unfold s_drop. by rewrite Ew, Ewo. Qed.

Lemma drop_perm c s e : held c s → e ∈ cached s → cached s ≡ₚ e :: cached (s_drop e s).
Proof.
  intros Hh He. destruct (cached_split _ _ He) as [(a & b & E)|(a & b & E)].
  - rewrite (drop_unused c s a e b Hh E). unfold cached. cbn. rewrite E. solve_Permutation.
  - rewrite (drop_used c s a e b Hh E). unfold cached. cbn. rewrite E. solve_Permutation.
Qed.

Lemma drop_fine c s e : held c s → e ∈ cached s → fine (s_drop e s).
Proof.
  intros Hh He. destruct (he_fine _ _ Hh) as [F1 F2 F3]. destruct (cached_split _ _ He) as [(a & b & E)|(a & b & E)].
  - rewrite (drop_unused c s a e b Hh E). rewrite E in F1, F3. split; cbn; intros x Hx; [apply F1|apply F2|apply F3]; set_solver.
  - rewrite (drop_used c s a e b Hh E). rewrite E in F2, F3. split; cbn; intros x Hx; [by apply F1|apply F2|apply F3]; set_solver.
Qed.

(** An entry leaves that is not in the table any more. *)
Lemma FinishErase_drop c s e : held c s → e ∈ cached s → tab (heap c) (table_ c) (ids (cached (s_drop e s))) → keyed_once (s_drop e s) →
  ∃ c', FinishErase c (Some (e_id e)) = Ok (true, c') ∧ rep c' (s_drop e s).
Proof.
  intros Hh He Ht Ho. pose proof (drop_perm c s e Hh He) as P. pose proof (drop_fine c s e Hh He) as Hf'. pose proof Hh as [Hs [F1 F2 F3] Hu Hc Hd].
  assert (u64 (usage_ c - e_charge e) = usage (s_drop e s)) as Eu.
  { rewrite Hu. unfold usage. rewrite (total_perm _ _ P). apply total_rest. }
  assert (∀ x, x ∈ ids (cached (s_drop e s)) → x ≠ e_id e) as Nx.
  { pose proof (cached_nodup c s Hh) as N. apply ids_perm in P. apply (perm_nodup _ _ P), list.NoDup_cons in N as [N _]. by intros x Hx ->. }
  destruct (cached_split _ _ He) as [(a & b & E)|(a & b & E)].
  - rewrite (drop_unused c s a e b Hh E) in *. rewrite E in Hs, F1, F3. pose proof (F1 e ltac:(set_solver)) as E0.
    destruct (FinishErase_ok c _ _ _ _ _ _ _ Hs) as (hp & Ec & Hs' & Hch); [lia|]. rewrite E0 in Ec, Hs'. cbn [Z.eqb] in Ec, Hs'. rewrite app_nil_r in Hs'.
    eexists. split; [exact Ec|]. split; [split; cbn; try done; congruence| |done].
    apply (tab_same (heap c)); [|done]. intros x Hx. apply Hch. by apply Nx.
  - rewrite (drop_used c s a e b Hh E) in *. rewrite E in F2, F3. pose proof (F2 e ltac:(set_solver)) as E0. pose proof (F3 e ltac:(set_solver)).
    apply shape_swap in Hs. rewrite E in Hs.
    destruct (FinishErase_ok c _ _ _ _ _ _ _ Hs) as (hp & Ec & Hs' & Hch); [lia|]. rewrite (proj2 (Z.eqb_neq _ 0)) in Ec, Hs' by lia. rewrite app_nil_r in Ec.
    apply shape_swap in Hs'.
    eexists. split; [exact Ec|]. split; [split; cbn; try done; congruence| |done].
    apply (tab_same (heap c)); [|done]. intros x Hx. apply Hch. by apply Nx.
Qed.

Lemma drop_once c s e : held c s → e ∈ cached s → keyed_once s → keyed_once (s_drop e s).
Proof.
  intros Hh He [K1 K2]. pose proof (drop_perm c s e Hh He) as P. split.
  - rewrite P in K1. cbn in K1. by apply list.NoDup_cons in K1 as [_ K1].
  - apply Permutation_length in P. cbn in P. lia.
Qed.

Lemma held_rehashed c s hp t S : held c s → rehashed (heap c) hp S → held (set_table c hp t) s.
Proof. intros [Hs Hf Hu Hc Hd] Hr. split; try done. by apply (shape_rehashed (heap c) hp S). Qed.

Lemma remove_found c s e : rep c s → e ∈ cached s → ∃ hp t c', table_Remove (heap c) (table_ c) (e_key e) (e_hash e) = Ok (Some (e_id e), hp, t) ∧
  FinishErase (set_table c hp t) (Some (e_id e)) = Ok (true, c') ∧ rep c' (s_drop e s).
Proof.
  intros Hr He. destruct (rep_FindPointer c s Hr) as (B & Ht & P & Hk & Hcnt). pose proof Hr as [Hh _ Ho].
  assert (0 <= e_hash e < 2 ^ 32) as Hb. { apply (fi_bound _ (he_fine _ _ Hh)). unfold cached in He. set_solver. }
  destruct (table_Remove_ok _ _ _ (e_key e) (e_hash e) Ht Hk Hb ltac:(lia)) as (r & hp & t & E & Hres).
  assert (∀ x, x ∈ cached s → node_ok (heap c) x true (e_refs x + 1)) as Hok by (intros x Hx; by apply (held_cached c s)).
  pose proof (with_key_at (cached s) e (ko_keys _ Ho) He) as Ew. destruct r as [x|].
  - destruct Hres as ((n & Hn & Hm) & B' & Ht' & PB & Hrh).
    destruct (found (heap c) (cached s) (e_key e) (e_hash e) x n) as (e' & Hin & <- & Ef); try done; [apply Ho|rewrite <- P, PB; by left|].
    rewrite Ew in Ef. injection Ef as <-. exists hp, t.
    destruct (FinishErase_drop (set_table c hp t) s e) as (c' & Ec & Hr'); [by eapply held_rehashed|done| |by apply (drop_once c)|by exists c'].
    exists B'. split; [done|]. pose proof (drop_perm c s e Hh He) as Pd. apply ids_perm in Pd. rewrite <- P, PB in Pd. by apply Permutation_cons_inv in Pd.
  - destruct Hres as (_ & _ & Hno). pose proof (not_found _ (cached s) _ _ _ Hok P Hno) as En. congruence.
Qed.

Lemma remove_missing c s key h : rep c s → 0 <= h < 2 ^ 32 → with_key key h (cached s) = None →
  table_Remove (heap c) (table_ c) key h = Ok (None, heap c, table_ c).
Proof.
  intros Hr Hb Ew. destruct (rep_FindPointer c s Hr) as (B & Ht & P & Hk & Hcnt). pose proof Hr as [Hh _ Ho].
  destruct (table_Remove_ok _ _ _ key h Ht Hk Hb ltac:(lia)) as (r & hp & t & E & Hres). destruct r as [x|]; [|by destruct Hres as (-> & -> & _)].
  destruct Hres as ((n & Hn & Hm) & B' & Ht' & PB & Hrh).
  destruct (found (heap c) (cached s) key h x n) as (e' & Hin & <- & Ef); try done; [apply Ho|intros y Hy; by apply (held_cached c s)|rewrite <- P, PB; by left|congruence].
Qed.

Lemma set_table_same c : set_table c (heap c) (table_ c) = c.
Proof. by destruct c. Qed.

Lemma Erase_ok c s key h : rep c s → 0 <= h < 2 ^ 32 → ∃ c', Erase c key h = Ok c' ∧ rep c' (s_erase key h s).
Proof.
  intros Hr Hb. unfold Erase, s_erase. destruct (with_key key h (cached s)) as [e|] eqn:Ew.
  - apply with_key_found in Ew as (He & <- & <-). destruct (remove_found c s e Hr He) as (hp & t & c' & E & Ef & Hr').
    exists c'. rewrite E. unfold mbind, res_bind. by rewrite Ef.
  - exists c. rewrite (remove_missing c s key h Hr Hb Ew). unfold mbind, res_bind. cbn. by rewrite set_table_same.
Qed.

(** * Eviction *)

Lemma oldest_ok c s : held c s → oldest c = Ok (default lru_ (head (ids (s_lru s)))).
Proof.
  intros [Hs _ _ _ _]. destruct Hs as [R1 _ _ _ _ _]. destruct (dseg_first _ _ _ _ R1) as (y & Hy & E & _). unfold nextp in E.
  unfold oldest, get. destruct (heap c !! lru_) as [n|]; [|done]. cbn in E. unfold mbind, res_bind. cbn. rewrite E. cbn.
  destruct (s_lru s); cbn in *; congruence.
Qed.

Lemma head_not_lru c s e l : held c s → s_lru s = e :: l → e_id e ≠ lru_.
Proof.
  intros Hh E Hx. pose proof (held_nodup _ _ Hh) as N. apply list.NoDup_cons in N as [N _]. apply N. rewrite <- Hx.
  right. apply in_ids. unfold cached. rewrite E. set_solver.
Qed.

Lemma drop_oldest c s e l : held c s → s_lru s = e :: l →
  s_drop e s = CacheSpec.mkShard l (s_use s) (s_out s) (s_capacity s) (s_deleted s ++ [deletion e]).
Proof. intros Hh E. by apply (drop_unused c s [] e l). Qed.

Lemma evict_ok c s e l : rep c s → s_lru s = e :: l → ∃ c', evict c (e_id e) = Ok c' ∧ rep c' (s_drop e s).
Proof.
  intros Hr E. pose proof (rp_held _ _ Hr) as Hh. assert (e ∈ cached s) as He by (unfold cached; rewrite E; set_solver).
  pose proof (held_cached c s e Hh He) as Hn. destruct (node_get _ _ _ _ Hn) as (n & En & _ & _ & Ek & _ & Er & Eh).
  pose proof (held_keyed c s (e_id e) Hh (in_ids _ _ He)) as Hk. assert (e_refs e = 0) as E0.
  { apply (fi_lru _ (he_fine _ _ Hh)). rewrite E. by left. }
  destruct (remove_found c s e Hr He) as (hp & t & c' & Et & Ef & Hr'). exists c'. split; [|done].
  unfold evict, get. rewrite En. unfold mbind, res_bind. cbn [of_option]. rewrite Er, E0. cbn [SkipList.assert_ Z.add Z.eqb Pos.eqb].
  rewrite (handle_key_ok _ _ _ Hk En), Ek, Eh, Et, Ef. done.
Qed.

Lemma evict_loop_ok l : ∀ fuel c s, rep c s → s_lru s = l → (length l < fuel)%nat →
  ∃ c', evict_loop fuel c = Ok c' ∧ rep c' (s_evict l (s_use s) (s_out s) (s_capacity s) (s_deleted s)).
Proof.
  induction l as [|e l IH]; intros [|fuel] c s Hr El Hf; cbn in Hf; try lia; cbn [evict_loop s_evict]; pose proof (rp_held _ _ Hr) as Hh;
    rewrite (oldest_ok c s Hh), El; unfold mbind, res_bind; cbn [ids fmap list_fmap head default].
  - cbn. rewrite andb_false_r. exists c. split; [done|]. rewrite <- El. by destruct s.
  - cbn. rewrite bool_decide_eq_false_2 by by apply (head_not_lru c s e l). cbn. rewrite andb_true_r.
    rewrite (he_capacity _ _ Hh), (he_usage _ _ Hh). unfold usage, cached. rewrite El. cbn [app]. destruct (_ <? _).
    + destruct (evict_ok c s e l Hr El) as (c' & E & Hr'). rewrite E. rewrite (drop_oldest c s e l Hh El) in Hr'.
      apply (IH fuel c' _ Hr'); [done|lia].
    + exists c. split; [done|]. rewrite <- El. by destruct s.
Qed.

Lemma lru_size c s : held c s → (length (s_lru s) < S (size (heap c)))%nat.
Proof.
  intros Hh. pose proof (cached_nodup c s Hh) as N. destruct Hh as [Hs _ _ _ _]. unfold cached in N. rewrite ids_app in N.
  apply list.NoDup_app in N as (N & _). pose proof (nodup_size (heap c) _ N) as L. unfold ids in L at 2. rewrite length_fmap in L.
  apply Nat.lt_succ_r, L. intros x Hx. apply (sh_dom _ _ _ _ _ _ Hs). rewrite ids_app. set_solver.
Qed.

Lemma prune_loop_ok l : ∀ fuel c s, rep c s → s_lru s = l → (length l < fuel)%nat →
  ∃ c', prune_loop fuel c = Ok c' ∧ rep c' (s_prune s).
Proof.
  induction l as [|e l IH]; intros [|fuel] c s Hr El Hf; cbn in Hf; try lia; cbn [prune_loop]; pose proof (rp_held _ _ Hr) as Hh;
    rewrite (oldest_ok c s Hh), El; unfold mbind, res_bind; cbn [ids fmap list_fmap head default].
  - exists c. split; [done|]. destruct s. cbn in El. subst. unfold s_prune. cbn. by rewrite app_nil_r.
  - cbn. rewrite bool_decide_eq_false_2 by by apply (head_not_lru c s e l). cbn.
    destruct (evict_ok c s e l Hr El) as (c' & E & Hr'). rewrite E. rewrite (drop_oldest c s e l Hh El) in Hr'.
    destruct (IH fuel c' _ Hr') as (c'' & E' & Hr''); [done|lia|]. exists c''. split; [done|].
    unfold s_prune in *. cbn in Hr''. rewrite El. cbn. by rewrite <- app_assoc in Hr''.
Qed.

Lemma Prune_ok c s : rep c s → ∃ c', shard_Prune c = Ok c' ∧ rep c' (s_prune s).
Proof. intros Hr. apply (prune_loop_ok (s_lru s)); [done|done|]. by apply lru_size, Hr. Qed.

(** * Insert *)

(** The addresses in use. *)
Definition addresses s : list nat := ids (cached s ++ s_out s).

(** A shard with one more entry, that a client holds. *)
Definition plus s (e : Entry) : Shard := CacheSpec.mkShard (s_lru s) (s_use s ++ [e]) (s_out s) (s_capacity s) (s_deleted s).

Lemma plus_perm s e : cached (plus s e) ≡ₚ e :: cached s.
Proof. unfold cached, plus. cbn. solve_Permutation. Qed.

Lemma plus_fine s e : fine s → 0 <= e_hash e < 2 ^ 32 → e_refs e = 1 → fine (plus s e).
Proof.
  intros [F1 F2 F3] Hh Hr. split; cbn; intros x Hx; [by apply F1|..]; rewrite !elem_of_app, list_elem_of_singleton in Hx.
  - destruct Hx as [[Hx| ->]|Hx]; first [cbn; lia|apply F2; set_solver].
  - destruct Hx as [Hx|[[Hx| ->]|Hx]]; first [cbn; lia|apply F3; set_solver].
Qed.

Definition new_node (key : bytes) (h : Z) (v : V) (charge : Z) : LRUHandle := mkHandle (Some v) None None None charge key true 2 h.

Lemma link_new c s (e : nat) key h v charge : held c s → heap c !! e = None → 0 <= h < 2 ^ 32 →
  ∃ hp, LRU_Append (<[e := new_node key h v charge]> (heap c)) in_use_ e = Ok hp ∧
    held (set_usage (with_heap c hp) (u64 (usage_ c + charge))) (plus s (mkEntry e key h v charge 1)) ∧
    (∀ x, x ≠ e → chaining <$> hp !! x = chaining <$> heap c !! x) ∧ keyed hp e.
Proof.
  intros [Hs Hf Hu Hc Hd] He Hh. set (x := mkEntry e key h v charge 1).
  pose proof (loose_new (heap c) _ _ _ _ _ x (new_node key h v charge) Hs He eq_refl) as Hl.
  destruct (loose_link _ _ _ _ _ _ _ Hl) as (hp & E & Hs' & Hr). exists hp. split; [done|]. split; [split|split].
  - done.
  - by apply plus_fine.
  - cbn. unfold usage. rewrite (total_perm _ _ (plus_perm s x)), total_cons. rewrite Hu. f_equal. cbn. unfold usage. lia.
  - done.
  - done.
  - intros y Ny. rewrite (relinked_chaining _ _ _ _ Hr). by rewrite lookup_insert_ne.
  - apply (shape_keyed _ _ _ _ _ _ x Hs'). set_solver.
Qed.

(** The table gets the entry instead of an older one, which leaves. *)
Lemma insert_new c s x n : held c (plus s x) → keyed_once s → Z.of_nat (length (cached s)) < 2 ^ 31 → tab (heap c) (table_ c) (ids (cached s)) →
  heap c !! e_id x = Some n → 
  let s' := match with_key (e_key x) (e_hash x) (cached s) with Some old => s_drop old (plus s x) | None => plus s x end in
  ∃ old hp t r c', table_Insert (heap c) (table_ c) (e_id x) = Ok (old, hp, t) ∧ FinishErase (set_table c hp t) old = Ok (r, c') ∧ rep c' s'.
Proof.
  intros Hh Ho Hcnt (B & Hb & P) Hn s'. pose proof (cached_nodup _ _ Hh) as N. pose proof (plus_perm s x) as Pp. pose proof (ids_perm _ _ Pp) as Pi.
  cbn in Pi. pose proof (perm_nodup _ _ Pi N) as N'. apply list.NoDup_cons in N' as [Nx _].
  assert (x ∈ cached (plus s x)) as Hx by (rewrite Pp; by left).
  destruct (node_get _ _ _ _ (held_cached _ _ x Hh Hx)) as (n' & En & _ & _ & Ek & _ & _ & Eh). rewrite Hn in En. injection En as <-.
  assert (∀ y, y ∈ cached s → node_ok (heap c) y true (e_refs y + 1)) as Hok.
  { intros y Hy. apply (held_cached _ _ y Hh). rewrite Pp. by right. }
  destruct (table_Insert_ok (heap c) (table_ c) B (e_id x) n Hb) as (old & hp & t & B' & E & Hb' & Hrh & Hres).
  { intros y Hy. apply (held_keyed _ _ _ Hh). rewrite Pi. rewrite elem_of_cons, P in Hy. by apply elem_of_cons. }
  { done. } { by rewrite P. }
  { rewrite Eh. apply (fi_bound _ (he_fine _ _ Hh)). unfold plus. cbn. set_solver. }
  { rewrite (Permutation_length P). unfold ids. by rewrite length_fmap. }
  rewrite Ek, Eh in Hres. exists old, hp, t. pose proof (held_rehashed c _ hp t _ Hh Hrh) as Hh'. destruct old as [o|].
  - destruct Hres as ((m & Hm & Hmm) & rest & PB & PB').
    destruct (found (heap c) (cached s) (e_key x) (e_hash x) o m) as (y & Hy & <- & Ef); try done; [apply Ho|rewrite <- P, PB; by left|].
    unfold s'. rewrite Ef. assert (y ∈ cached (plus s x)) as Hy' by (rewrite Pp; by right).
    apply with_key_found in Ef as (_ & Eyh & Eyk).
    pose proof (drop_perm _ _ y Hh' Hy') as Pd. pose proof (ids_perm _ _ Pd) as Pdi. cbn in Pdi.
    destruct (FinishErase_drop _ _ y Hh' Hy') as (c' & Ec & Hr').
    { exists B'. split; [done|]. rewrite PB'. apply (Permutation_cons_inv (a := e_id y)). rewrite <- Pdi, Pi, <- P, PB. apply perm_swap. }
    { destruct Ho as [K1 K2]. split.
      - assert (ekey <$> cached (s_drop y (plus s x)) ≡ₚ ekey <$> cached s) as ->; [|done].
        apply (Permutation_cons_inv (a := ekey y)). change (ekey y :: (ekey <$> cached (s_drop y (plus s x)))) with (ekey <$> (y :: cached (s_drop y (plus s x)))).
        rewrite <- Pd, Pp. cbn. unfold ekey at 1 3. by rewrite Eyh, Eyk.
      - pose proof (Permutation_length Pd) as L1. pose proof (Permutation_length Pp) as L2. cbn [length] in L1, L2. lia. }
    by exists true, c'.
  - destruct Hres as [Hno PB']. assert (with_key (e_key x) (e_hash x) (cached s) = None) as Ew by by eapply (not_found (heap c)).
    unfold s'. rewrite Ew. exists false, (set_table c hp t). split; [done|]. split; [done|]. split; [done| |].
    + exists B'. split; [done|]. by rewrite PB', P, Pi.
    + destruct Ho as [K1 K2]. split.
      * rewrite Pp. cbn. apply list.NoDup_cons. split; [|done]. intros (y & Ey & Hy)%list_elem_of_fmap. by apply (with_key_none _ _ _ y Ew Hy).
      * pose proof (Permutation_length Pp) as L. cbn [length] in L. lia.
Qed.

Lemma Insert_ok c s key h v charge : rep c s → 0 <= h < 2 ^ 32 → 0 < s_capacity s → Z.of_nat (length (cached s)) < 2 ^ 31 →
  ∃ (e : nat) c', Insert c key h v charge = Ok (e, c') ∧ e ∉ addresses s ∧ rep c' (s_insert e key h v charge s).
Proof.
  intros [Hh Ht Ho] Hb Hcap Hcnt. set (e := fresh (dom (heap c))). pose proof (is_fresh (dom (heap c))) as He. fold e in He. apply not_elem_of_dom in He.
  destruct (link_new c s e key h v charge Hh He Hb) as (hp & El & Hh1 & Hch & Hk). set (x := mkEntry e key h v charge 1) in *.
  set (c1 := set_usage (with_heap c hp) (u64 (usage_ c + charge))) in *.
  assert (x ∈ cached (plus s x)) as Hx by (rewrite plus_perm; by left).
  destruct (node_get _ _ _ _ (held_cached _ _ x Hh1 Hx)) as (n & En & _).
  assert (e ∉ addresses s) as Hna.
  { intros Hin. assert (is_Some (heap c !! e)) as [? Hs]; [|congruence]. apply (sh_dom _ _ _ _ _ _ (he_shape _ _ Hh)). unfold addresses, cached in Hin. rewrite <- app_assoc in Hin. by do 2 right. }
  destruct (insert_new c1 s x n Hh1 Ho Hcnt) as (old & hp2 & t & r & c2 & Et & Ef & Hr2).
  { apply (tab_same (heap c)); [|done]. intros y Hy. apply Hch. intros ->. apply Hna. unfold addresses. rewrite ids_app. set_solver. }
  { done. }
  pose proof (rp_held _ _ Hr2) as Hh2. destruct (evict_loop_ok _ _ _ _ Hr2 eq_refl (lru_size _ _ Hh2)) as (c3 & Ee & Hr3).
  exists e, c3. split; [|split; [done|exact Hr3]].
  unfold Insert. fold e. change (capacity_ (with_heap c _)) with (capacity_ c). rewrite (he_capacity _ _ Hh), (proj2 (Z.ltb_lt 0 _) Hcap). unfold modify. cbn [with_heap heap].
  rewrite update_ok by (rewrite lookup_insert_eq; done). rewrite alter_insert_eq. unfold mbind, res_bind. cbn [with_heap heap].
  rewrite update_ok by (rewrite lookup_insert_eq; done). rewrite alter_insert_eq. unfold mbind, res_bind. cbn [with_heap heap].
  match goal with |- context [LRU_Append ?H _ _] => change H with (<[e := new_node key h v charge]> (heap c)) end.
  rewrite El. change (table_Insert _ _ _) with (table_Insert (heap c1) (table_ c1) (e_id x)). rewrite Et.
  change (set_table _ hp2 t) with (set_table c1 hp2 t). by rewrite Ef, Ee.
Qed.
End reps.
