(* ===== verification/LdbCacheProps.v ===== *)
(** LevelDB's cache serves any sequence of calls as the specification of its shards says,
    and it is a cache of blocks for tables. *)
From S2P Require Import Prelude LdbSkip LdbFormat LdbFilter LdbFilterProps LdbCodingProps LdbCache LdbCacheTable LdbCacheShard LdbCacheRep.
Import Cache CacheSpec.

(** * What holds of every entry *)

Create HintDb entries.

Section every.
Context {V : Type}.
Implicit Types (l : list (Entry V)) (s : CacheSpec.Shard V) (Q : Z → bytes → V → Prop).

Definition all_entries Q l : Prop := ∀ e, e ∈ l → Q (e_hash e) (e_key e) (e_value e).
Definition every Q s : Prop := all_entries Q (s_lru s) ∧ all_entries Q (s_use s) ∧ all_entries Q (s_out s).

Lemma all_app Q l1 l2 : all_entries Q l1 → all_entries Q l2 → all_entries Q (l1 ++ l2).
Proof. intros H1 H2 e [He|He]%elem_of_app; [by apply H1|by apply H2]. Qed.
Lemma all_one Q e : Q (e_hash e) (e_key e) (e_value e) → all_entries Q [e].
Proof. by intros H x ->%list_elem_of_singleton. Qed.
Lemma all_without Q id l : all_entries Q l → all_entries Q (without id l).
Proof. intros H e He. apply H. apply list_elem_of_In in He. apply List.filter_In in He as [He _]. by apply list_elem_of_In. Qed.
Lemma all_bump Q id d l : all_entries Q l → all_entries Q (bump id d l).
Proof. intros H e (x & -> & Hx)%list_elem_of_fmap. pose proof (H x Hx) as Hq. cbn beta. destruct (e_id x =? id)%nat; exact Hq. Qed.
Lemma all_with_id Q id l e : all_entries Q l → with_id id l = Some e → Q (e_hash e) (e_key e) (e_value e).
Proof. intros H He. apply List.find_some in He as [He _]. apply H. by apply list_elem_of_In. Qed.
#[local] Hint Resolve all_app all_one all_without all_bump : entries.

Lemma every_ref Q id s : every Q s → every Q (s_ref id s).
Proof.
  intros (H1 & H2 & H3). unfold s_ref. destruct (with_id id (s_lru s)) as [e|] eqn:E; repeat split; cbn; auto with entries.
  apply all_app; [done|]. apply all_one. by apply (all_with_id Q id (s_lru s) e).
Qed.
Lemma every_lookup Q key h s : every Q s → every Q (snd (s_lookup key h s)).
Proof. intros H. unfold s_lookup. destruct (with_key key h (cached s)); [by apply every_ref|done]. Qed.
Lemma every_release Q id s : every Q s → every Q (s_release id s).
Proof.
  intros (H1 & H2 & H3). unfold s_release. destruct (with_id id (s_use s)) as [e|] eqn:E.
  - pose proof (all_with_id Q id (s_use s) e H2 E). destruct (e_refs e =? 1); repeat split; cbn; auto with entries.
  - destruct (with_id id (s_out s)) as [e|]; [destruct (e_refs e =? 1)|]; repeat split; cbn; auto with entries.
Qed.
Lemma every_drop Q e s : Q (e_hash e) (e_key e) (e_value e) → every Q s → every Q (s_drop e s).
Proof. intros He (H1 & H2 & H3). unfold s_drop. destruct (with_id (e_id e) (s_lru s)); repeat split; cbn; auto with entries. Qed.
Lemma every_with_key Q key h s e : every Q s → with_key key h (cached s) = Some e → Q (e_hash e) (e_key e) (e_value e).
Proof. intros (H1 & H2 & _) (He & _)%with_key_found. apply elem_of_app in He as [He|He]; [by apply H1|by apply H2]. Qed.
Lemma every_erase Q key h s : every Q s → every Q (s_erase key h s).
Proof.
  intros H. unfold s_erase. destruct (with_key key h (cached s)) as [e|] eqn:E; [|done]. apply every_drop; [|done]. by apply (every_with_key Q key h s).
Qed.
Lemma every_evict Q use out cap lru : ∀ del, all_entries Q lru → all_entries Q use → all_entries Q out → every Q (s_evict lru use out cap del).
Proof.
  induction lru as [|o l IH]; intros del H1 H2 H3; cbn [s_evict]; [done|]. destruct (_ <? _); [|done].
  apply IH; [|done|done]. intros e He. apply H1. by right.
Qed.
Lemma every_insert Q id key h v n s : Q h key v → every Q s → every Q (s_insert id key h v n s).
Proof.
  intros Hn H. unfold s_insert. set (e := mkEntry id key h v n 1). set (s' := CacheSpec.mkShard _ _ _ _ _).
  assert (every Q s') as H'. { destruct H as (H1 & H2 & H3). repeat split; cbn; auto with entries. }
  assert (every Q (match with_key key h (cached s) with Some old => s_drop old s' | None => s' end)) as (H1 & H2 & H3).
  { destruct (with_key key h (cached s)) as [o|] eqn:E; [|done]. apply every_drop; [|done]. by apply (every_with_key Q key h s). }
  by apply every_evict.
Qed.
Lemma every_prune Q s : every Q s → every Q (s_prune s).
Proof. intros (H1 & H2 & H3). repeat split; cbn; try done. by intros e He%not_elem_of_nil. Qed.

(** The capacity does not change. *)
Lemma evict_capacity use out cap lru : ∀ del, s_capacity (s_evict (V := V) lru use out cap del) = cap.
Proof. induction lru as [|o l IH]; intros del; cbn [s_evict]; [done|]. destruct (_ <? _); [apply IH|done]. Qed.
Lemma drop_capacity e s : s_capacity (s_drop e s) = s_capacity s.
Proof. unfold s_drop. by destruct (with_id (e_id e) (s_lru s)). Qed.
Lemma insert_capacity id key h v n s : s_capacity (s_insert id key h v n s) = s_capacity s.
Proof. unfold s_insert. rewrite evict_capacity. destruct (with_key key h (cached s)); [by rewrite drop_capacity|done]. Qed.
Lemma lookup_capacity key h s : s_capacity (snd (s_lookup key h s)) = s_capacity s.
Proof. unfold s_lookup, s_ref. destruct (with_key key h (cached s)) as [e|]; [|done]. cbn. by destruct (with_id (e_id e) (s_lru s)). Qed.
Lemma release_capacity id s : s_capacity (s_release id s) = s_capacity s.
Proof.
  unfold s_release. destruct (with_id id (s_use s)) as [e|]; [by destruct (e_refs e =? 1)|].
  destruct (with_id id (s_out s)) as [e|]; [by destruct (e_refs e =? 1)|done].
Qed.
Lemma erase_capacity key h s : s_capacity (s_erase key h s) = s_capacity s.
Proof. unfold s_erase. destruct (with_key key h (cached s)); [apply drop_capacity|done]. Qed.
End every.

(** * The cache *)

Section sharded.
Context {V : Type}.
Abbreviation Cache := (ShardedLRUCache (V := V)).
Abbreviation Shards := (list (CacheSpec.Shard V)).

Definition key_hash (key : bytes) : Z := match HashSlice key with Ok h => h | _ => 0 end.
Lemma HashSlice_ok key : HashSlice key = Ok (key_hash key) ∧ 0 <= key_hash key < 2 ^ 32.
Proof. destruct (Hash_total key 0) as (h & E & Hh); [lia|]. unfold key_hash, HashSlice. by rewrite E. Qed.

Lemma Shard_lt h : 0 <= h < 2 ^ 32 → (Cache.Shard h < 16)%nat.
Proof. intros Hh. unfold Cache.Shard. rewrite Z.shiftr_div_pow2 by (unfold kNumShardBits; lia). change (2 ^ (32 - kNumShardBits)) with (2 ^ 28).
  assert (0 <= h / 2 ^ 28 < 16) by (split; [apply Z.div_pos; lia|apply Z.div_lt_upper_bound; lia]). lia.
Qed.

Record cache_rep (c : Cache) (S : Shards) : Prop := {
  cr_shards : Forall2 rep (shard_ c) S;
  cr_count : length S = 16%nat;
  cr_placed i s : S !! i = Some s → every (λ h _ _, Cache.Shard h = i) s ∧ 0 < s_capacity s
}.

(** ** Calls and what they must do

    [CDeletions] reads what the deleters have been called with. *)

Inductive cache_call :=
  | CInsert (key : bytes) (v : V) (charge : Z) | CLookup (key : bytes) | CRelease (h : Handle)
  | CErase (key : bytes) | CValue (h : Handle) | CPrune | CTotalCharge | CDeletions.
Inductive result := RHandle (h : option Handle) | RValue (v : V) | RCharge (n : Z) | RDeleted (d : list (list (bytes * V))) | RNothing.

Definition exec (x : cache_call) (c : Cache) : res (result * Cache) :=
  match x with
  | CInsert key v n => '(h, c) ← cache_Insert key v n c; Ok (RHandle (Some h), c)
  | CLookup key => '(h, c) ← cache_Lookup key c; Ok (RHandle h, c)
  | CRelease h => c ← cache_Release h c; Ok (RNothing, c)
  | CErase key => c ← cache_Erase key c; Ok (RNothing, c)
  | CValue h => v ← cache_Value h c; Ok (RValue v, c)
  | CPrune => c ← cache_Prune c; Ok (RNothing, c)
  | CTotalCharge => Ok (RCharge (cache_TotalCharge c), c)
  | CDeletions => Ok (RDeleted (deleted <$> shard_ c), c)
  end.

(** A client gives back handles that it holds, and does not hold too many. *)
Definition allowed (x : cache_call) (S : Shards) : Prop :=
  match x with
  | CInsert key _ _ => ∀ s, S !! Cache.Shard (key_hash key) = Some s → Z.of_nat (length (cached s)) < 2 ^ 31
  | CLookup key => ∀ s e, S !! Cache.Shard (key_hash key) = Some s → e ∈ cached s → e_refs e < 2 ^ 32 - 2
  | CRelease (i, id) | CValue (i, id) => ∃ s, S !! i = Some s ∧ id ∈ ids (s_use s ++ s_out s)
  | CErase _ | CPrune | CTotalCharge | CDeletions => True
  end.

(** One shard changes. *)
Definition at_shard (i : nat) (S : Shards) (f : CacheSpec.Shard V → CacheSpec.Shard V) : Shards := alter f i S.

Definition does (x : cache_call) (r : result) (S S' : Shards) : Prop :=
  match x with
  | CInsert key v n =>
      let h := key_hash key in let i := Cache.Shard h in
      ∃ id, r = RHandle (Some (i, id)) ∧ (∀ s, S !! i = Some s → id ∉ addresses s) ∧ S' = at_shard i S (s_insert id key h v n)
  | CLookup key =>
      let h := key_hash key in let i := Cache.Shard h in
      ∃ s, S !! i = Some s ∧ r = RHandle (pair i <$> fst (s_lookup key h s)) ∧ S' = at_shard i S (λ s, snd (s_lookup key h s))
  | CRelease (i, id) => r = RNothing ∧ S' = at_shard i S (s_release id)
  | CErase key => r = RNothing ∧ S' = at_shard (Cache.Shard (key_hash key)) S (s_erase key (key_hash key))
  | CValue (i, id) => ∃ s e, S !! i = Some s ∧ e ∈ s_use s ++ s_out s ∧ e_id e = id ∧ r = RValue (e_value e) ∧ S' = S
  | CPrune => r = RNothing ∧ S' = s_prune <$> S
  | CTotalCharge => r = RCharge (foldl (λ n s, u64 (n + usage s)) 0 S) ∧ S' = S
  | CDeletions => r = RDeleted (s_deleted <$> S) ∧ S' = S
  end.

(** ** One shard *)

Lemma alter_insert_list {A} (f : A → A) i (l : list A) x : l !! i = Some x → alter f i l = <[i := f x]> l.
Proof.
  intros Hx. apply list_eq. intros j. destruct (decide (i = j)) as [<-|N].
  - rewrite list_lookup_alter_eq, Hx, list_lookup_insert_eq; [done|]. by eapply lookup_lt_Some.
  - by rewrite list_lookup_alter_ne, list_lookup_insert_ne.
Qed.

Lemma rep_shard c S i : cache_rep c S → (i < 16)%nat → ∃ t s, shard_ c !! i = Some t ∧ S !! i = Some s ∧ rep t s ∧ every (λ h _ _, Cache.Shard h = i) s ∧ 0 < s_capacity s.
Proof.
  intros [Hr Hn Hp] Hi. destruct (lookup_lt_is_Some_2 S i) as [s Hs]; [lia|]. destruct (Forall2_lookup_r _ _ _ _ _ Hr Hs) as (t & Ht & Hts).
  exists t, s. destruct (Hp i s Hs). done.
Qed.

Lemma rep_change c S i t s t' f : cache_rep c S → shard_ c !! i = Some t → S !! i = Some s → rep t' (f s) →
  every (λ h _ _, Cache.Shard h = i) (f s) → 0 < s_capacity (f s) → cache_rep (mkSharded (<[i := t']> (shard_ c)) (last_id_ c)) (at_shard i S f).
Proof.
  intros [Hr Hn Hp] Ht Hs Hr' He Hc. unfold at_shard. rewrite (alter_insert_list f i S s Hs). split; cbn.
  - by apply Forall2_insert.
  - by rewrite length_insert.
  - intros j s' Hj. destruct (decide (i = j)) as [<-|N].
    + rewrite list_lookup_insert_eq in Hj by (by eapply lookup_lt_Some). by injection Hj as <-.
    + rewrite list_lookup_insert_ne in Hj by done. by apply Hp.
Qed.

Lemma on_shard_ok {A} c S i t (f : LRUCache → res (A * LRUCache)) r t' : cache_rep c S → shard_ c !! i = Some t → f t = Ok (r, t') →
  on_shard i f c = Ok (r, mkSharded (<[i := t']> (shard_ c)) (last_id_ c)).
Proof. intros _ Ht Ef. unfold on_shard, mbind, res_bind. rewrite Ht. cbn. by rewrite Ef. Qed.

(** ** Calls *)

Lemma cache_insert_ok c S key v n : cache_rep c S → allowed (CInsert key v n) S →
  ∃ r c' S', exec (CInsert key v n) c = Ok (r, c') ∧ does (CInsert key v n) r S S' ∧ cache_rep c' S'.
Proof.
  intros Hr Ha. destruct (HashSlice_ok key) as [Eh Hh]. destruct (rep_shard c S _ Hr (Shard_lt _ Hh)) as (t & s & Ht & Hs & Hts & Hev & Hcap).
  destruct (Insert_ok t s key (key_hash key) v n Hts Hh Hcap (Ha s Hs)) as (id & t' & E & Hid & Hts').
  eexists _, _, _. split; [|split].
  - unfold exec, cache_Insert, mbind, res_bind. rewrite Eh. rewrite (on_shard_ok c S _ t _ id t' Hr Ht E). done.
  - exists id. split; [done|]. split; [|done]. intros s' Hs'. rewrite Hs in Hs'. by injection Hs' as <-.
  - apply (rep_change c S _ t s); try done; [by apply every_insert|by rewrite insert_capacity].
Qed.

Lemma cache_lookup_ok c S key : cache_rep c S → allowed (CLookup key) S →
  ∃ r c' S', exec (CLookup key) c = Ok (r, c') ∧ does (CLookup key) r S S' ∧ cache_rep c' S'.
Proof.
  intros Hr Ha. destruct (HashSlice_ok key) as [Eh Hh]. destruct (rep_shard c S _ Hr (Shard_lt _ Hh)) as (t & s & Ht & Hs & Hts & Hev & Hcap).
  destruct (Lookup_ok t s key (key_hash key) Hts Hh (λ e, Ha s e Hs)) as (t' & E & Hts').
  eexists _, _, _. split; [|split].
  - unfold exec, cache_Lookup, mbind, res_bind. rewrite Eh. rewrite (on_shard_ok c S _ t _ _ t' Hr Ht E). done.
  - exists s. split; [done|]. by split; [destruct (fst (s_lookup key (key_hash key) s))|].
  - apply (rep_change c S _ t s); try done; [by apply every_lookup|by rewrite lookup_capacity].
Qed.

Lemma cache_erase_ok c S key : cache_rep c S → ∃ r c' S', exec (CErase key) c = Ok (r, c') ∧ does (CErase key) r S S' ∧ cache_rep c' S'.
Proof.
  intros Hr. destruct (HashSlice_ok key) as [Eh Hh]. destruct (rep_shard c S _ Hr (Shard_lt _ Hh)) as (t & s & Ht & Hs & Hts & Hev & Hcap).
  destruct (Erase_ok t s key (key_hash key) Hts Hh) as (t' & E & Hts').
  eexists _, _, _. split; [|split].
  - unfold exec, cache_Erase, mbind, res_bind. rewrite Eh. rewrite (on_shard_ok c S _ t _ tt t' Hr Ht); [done|]. unfold no_result, mbind, res_bind. by rewrite E.
  - done.
  - apply (rep_change c S _ t s); try done; [by apply every_erase|by rewrite erase_capacity].
Qed.

(** The entry of a handle. *)
Lemma handle_entry c S i id s : cache_rep c S → S !! i = Some s → id ∈ ids (s_use s ++ s_out s) →
  ∃ t e n, shard_ c !! i = Some t ∧ rep t s ∧ e ∈ s_use s ++ s_out s ∧ e_id e = id ∧ heap t !! id = Some n ∧
    value n = Some (e_value e) ∧ Cache.Shard (hash n) = i.
Proof.
  intros [Hr _ Hp] Hs (e & He & <-)%entry_of. destruct (Forall2_lookup_r _ _ _ _ _ Hr Hs) as (t & Ht & Hts).
  destruct (Hp i s Hs) as [(_ & P2 & P3) _]. destruct (he_shape _ _ (rp_held _ _ Hts)) as [_ _ _ _ C O]. exists t, e.
  assert (∃ b r, node_ok (heap t) e b r) as (b & r & Hn).
  { apply elem_of_app in He as [He|He]; [exists true, (e_refs e + 1); apply C; set_solver|exists false, (e_refs e); by apply O]. }
  destruct (node_get _ _ _ _ Hn) as (n & En & Ev & _ & _ & _ & _ & Eh). exists n. rewrite Eh.
  apply elem_of_app in He as He'. destruct He' as [He'|He']; [rewrite (P2 e He')|rewrite (P3 e He')]; done.
Qed.

Lemma cache_value_ok c S h : cache_rep c S → allowed (CValue h) S →
  ∃ r c' S', exec (CValue h) c = Ok (r, c') ∧ does (CValue h) r S S' ∧ cache_rep c' S'.
Proof.
  destruct h as [i id]. intros Hr (s & Hs & Hid). destruct (handle_entry c S i id s Hr Hs Hid) as (t & e & n & Ht & _ & He & Eid & En & Ev & _).
  eexists _, _, S. split; [|split; [|exact Hr]].
  - cbn. unfold cache_Value, deref, get, mbind, res_bind. cbn. rewrite Ht. cbn. rewrite En. cbn. by rewrite Ev.
  - by exists s, e.
Qed.

Lemma cache_release_ok c S h : cache_rep c S → allowed (CRelease h) S →
  ∃ r c' S', exec (CRelease h) c = Ok (r, c') ∧ does (CRelease h) r S S' ∧ cache_rep c' S'.
Proof.
  destruct h as [i id]. intros Hr (s & Hs & Hid). destruct (handle_entry c S i id s Hr Hs Hid) as (t & e & n & Ht & Hts & _ & _ & En & _ & Ei).
  destruct (cr_placed _ _ Hr i s Hs) as [Hev Hcap]. destruct (Release_ok t s id Hts Hid) as (t' & E & Hts').
  eexists _, _, _. split; [|split].
  - cbn. unfold cache_Release, deref, get, mbind, res_bind. cbn. rewrite Ht. cbn. rewrite En. cbn. rewrite Ei, bool_decide_eq_true_2 by done.
    rewrite (on_shard_ok c S i t _ tt t' Hr Ht); [done|]. unfold no_result, mbind, res_bind. by rewrite E.
  - done.
  - apply (rep_change c S i t s); try done; [by apply every_release|by rewrite release_capacity].
Qed.

Lemma prune_shards_ok (l : list LRUCache) (S : Shards) : Forall2 rep l S → ∃ l', prune_shards l = Ok l' ∧ Forall2 rep l' (s_prune <$> S).
Proof.
  induction 1 as [|t s l S Ht _ IH]; [by exists []|]. destruct (Prune_ok t s Ht) as (t' & E & Ht'). destruct IH as (l' & El & Hl').
  exists (t' :: l'). cbn [prune_shards]. unfold mbind, res_bind. rewrite E, El. split; [done|]. by constructor.
Qed.

Lemma cache_prune_ok c S : cache_rep c S → ∃ r c' S', exec CPrune c = Ok (r, c') ∧ does CPrune r S S' ∧ cache_rep c' S'.
Proof.
  intros [Hr Hn Hp]. destruct (prune_shards_ok _ _ Hr) as (l' & E & Hl'). eexists _, _, _. split; [|split].
  - cbn. unfold cache_Prune, mbind, res_bind. by rewrite E.
  - done.
  - split; cbn; [done|by rewrite length_fmap|]. intros i s Hs. rewrite list_lookup_fmap in Hs. apply fmap_Some in Hs as (s0 & Hs & ->).
    destruct (Hp i s0 Hs) as [He Hc]. split; [by apply every_prune|done].
Qed.

Lemma cache_total_ok c (S : Shards) : cache_rep c S → exec CTotalCharge c = Ok (RCharge (foldl (λ n s, u64 (n + usage s)) 0 S), c).
Proof.
  intros [Hr _ _]. cbn. unfold cache_TotalCharge. do 3 f_equal. generalize 0. clear -Hr. induction Hr as [|t s l S Ht _ IH]; intros z; [done|].
  cbn. unfold TotalCharge. by rewrite (he_usage _ _ (rp_held _ _ Ht)), IH.
Qed.

Lemma deletions_correct c (S : Shards) : cache_rep c S → deleted <$> shard_ c = s_deleted <$> S.
Proof.
  intros [Hr _ _]. induction Hr as [|t s l S Ht _ IH]; [done|]. cbn. rewrite IH. f_equal. apply (he_deleted _ _ (rp_held _ _ Ht)).
Qed.

Lemma exec_correct x c S : cache_rep c S → allowed x S → ∃ r c' S', exec x c = Ok (r, c') ∧ does x r S S' ∧ cache_rep c' S'.
Proof.
  intros Hr Ha. destruct x as [key v n|key|h|key|h| | |].
  - by apply cache_insert_ok.
  - by apply cache_lookup_ok.
  - by apply cache_release_ok.
  - by apply cache_erase_ok.
  - by apply cache_value_ok.
  - by apply cache_prune_ok.
  - eexists _, _, S. split; [by apply (cache_total_ok c S)|done].
  - exists (RDeleted (deleted <$> shard_ c)), c, S. split; [done|]. split; [|done]. by rewrite (deletions_correct c S Hr).
Qed.

(** ** A new cache *)

Definition empty_shard (capacity : Z) : CacheSpec.Shard V := CacheSpec.mkShard [] [] [] capacity [].

Lemma new_shard_ok capacity : ∃ t, LRUCache_new (V := V) = Ok t ∧ rep (SetCapacity t capacity) (empty_shard capacity).
Proof.
  set (hp := <[lru_ := list_head lru_]> {[in_use_ := list_head in_use_]} : gmap nat (LRUHandle (V := V))).
  destruct (HandleTable_new_ok hp) as (t & Et & Ht). eexists. split; [unfold LRUCache_new; fold hp; rewrite Et; reflexivity|].
  split; [split; [split| | | |]| |]; cbn; try done.
  - repeat (apply list.NoDup_cons; split; [set_solver|]). constructor.
  - intros x. unfold hp. destruct (decide (x = lru_)) as [->|N0]; [rewrite lookup_insert_eq; split; [intros _; by left|done]|].
    rewrite lookup_insert_ne by done. destruct (decide (x = in_use_)) as [->|N1].
    + rewrite lookup_insert_eq. split; [intros _; right; by left|done].
    + rewrite lookup_insert_ne, lookup_empty by done. split; [by intros []|]. intros [->|[->|Hx%not_elem_of_nil]%elem_of_cons]%elem_of_cons; done.
  - intros e He%not_elem_of_nil. done.
  - intros e He%not_elem_of_nil. done.
  - split; cbn; intros e He%not_elem_of_nil; done.
  - by exists (replicate 4 []).
  - split; cbn; [constructor|lia].
Qed.

Lemma new_cache_ok capacity : 0 < capacity < 2 ^ 64 - 15 →
  ∃ c, NewLRUCache (V := V) capacity = Ok c ∧ cache_rep c (replicate 16 (empty_shard ((capacity + 15) / 16))).
Proof.
  intros Hc. destruct (new_shard_ok ((capacity + 15) / 16)) as (t & Et & Ht). unfold NewLRUCache, Sharded_new. rewrite Et.
  change kNumShards with 16. rewrite u64_small by lia. change (16 - 1) with 15. eexists. split; [reflexivity|]. split; cbn [shard_].
  - change (Z.to_nat 16) with 16%nat. by apply Forall2_replicate.
  - done.
  - intros i s Hs. apply lookup_replicate in Hs as [-> _]. split.
    + repeat split; intros e He%not_elem_of_nil; done.
    + cbn. apply Z.div_str_pos. lia.
Qed.
End sharded.

(** ** Any sequence of calls *)

(** From a cache [c] that stands for [S], each allowed call returns what the shards say. *)
Fixpoint serves {V} (c : ShardedLRUCache (V := V)) (S : list (CacheSpec.Shard V)) (xs : list cache_call) : Prop :=
  match xs with
  | [] => True
  | x :: xs => allowed x S → ∃ r c' S', exec x c = Ok (r, c') ∧ does x r S S' ∧ serves c' S' xs
  end.

Lemma rep_serves {V} xs : ∀ (c : ShardedLRUCache (V := V)) S, cache_rep c S → serves c S xs.
Proof.
  induction xs as [|x xs IH]; intros c S Hr; [done|]. intros Ha. destruct (exec_correct x c S Hr Ha) as (r & c' & S' & E & Hd & Hr').
  exists r, c', S'. split; [done|]. split; [done|]. by apply IH.
Qed.

(** C8: the cache. A new cache of any capacity serves any sequence of insertions,
    lookups, releases, erasures, reads of handles, of charges and of deletions, and prunings as the specification says,
    where clients give back what they hold: lookups find the entry that was inserted last
    under the key, entries with handles are never deleted, the least recently used of the
    others leave when the charges exceed the shard's capacity, replaced and erased entries
    are deleted with their last handle, and each entry is deleted once. *)
Theorem cache_correct {V} capacity xs : 0 < capacity < 2 ^ 64 - 15 →
  ∃ c, NewLRUCache (V := V) capacity = Ok c ∧ serves c (replicate 16 (empty_shard ((capacity + 15) / 16))) xs.
Proof.
  intros Hc. destruct (new_cache_ok (V := V) capacity Hc) as (c & E & Hr). exists c. split; [done|]. by apply rep_serves.
Qed.

(** ** A run

    The results of calls, up to the first that fails. *)
Fixpoint run {V} (c : ShardedLRUCache (V := V)) (xs : list cache_call) : res (list result) :=
  match xs with
  | [] => Ok []
  | x :: xs => '(r, c) ← exec x c; rs ← run c xs; Ok (r :: rs)
  end.


(** These keys are in the same shard, which has room for two. *)
Definition cache_calls : list (cache_call (V := nat)) :=
  [CInsert [1] 10%nat 1; CInsert [10] 11%nat 1; CRelease (4, 2)%nat; CRelease (4, 3)%nat; CLookup [1]; CRelease (4, 2)%nat;
   CInsert [19] 12%nat 1; CLookup [10]; CInsert [19] 13%nat 1; CValue (4, 4)%nat; CRelease (4, 4)%nat; CErase [1];
   CTotalCharge; CRelease (4, 5)%nat; CPrune; CTotalCharge; CDeletions].


Lemma cache_correct_witness :
  (∃ c, NewLRUCache (V := nat) 32 = Ok c ∧ serves c (replicate 16 (empty_shard ((32 + 15) / 16))) cache_calls) ∧
  (c ← NewLRUCache (V := nat) 32; run c cache_calls) =
    Ok [RHandle (Some (4, 2)%nat); RHandle (Some (4, 3)%nat); RNothing; RNothing; RHandle (Some (4, 2)%nat); RNothing;
        RHandle (Some (4, 4)%nat); RHandle None; RHandle (Some (4, 5)%nat); RValue 12%nat; RNothing; RNothing;
        RCharge 1; RNothing; RNothing; RCharge 0;
        RDeleted [[]; []; []; []; [([10], 11%nat); ([19], 12%nat); ([1], 10%nat); ([19], 13%nat)]; []; []; []; []; []; []; []; []; []; []; []]].
Proof.
  split; [|vm_compute; reflexivity]. apply (cache_correct (V := nat) 32 cache_calls). lia.
Defined.
