(* ===== verification/LdbCacheBlocks.v ===== *)
(** LevelDB's cache as the cache of blocks of tables: what a lookup finds was inserted
    under the key. *)
From S2P Require Import Prelude LdbSkip LdbFormat LdbFilter LdbCodingProps LdbBlock LdbTable LdbTableReadProps LdbCache LdbCacheTable LdbCacheShard LdbCacheRep LdbCacheProps.
Import Cache CacheSpec.

Section blocks.
Abbreviation Block := Block.Block.
Abbreviation Cache := (ShardedLRUCache (V := Block)).
Abbreviation Shard := (CacheSpec.Shard Block).
Implicit Types (s : Shard) (S : list Shard) (c : Cache).

(** Tables use a handle at once and give it back. A cache that refuses a call is not
    changed; it is not asked to hold 2^31 entries. *)
Definition block_lookup (k : bytes) c : option Block * Cache :=
  match cache_Lookup k c with
  | Ok (None, c') => (None, c')
  | Ok (Some h, c') =>
      match cache_Value h c', cache_Release h c' with
      | Ok b, Ok c'' => (Some b, c'')
      | _, _ => (None, c)
      end
  | _ => (None, c)
  end.
Definition has_room c : bool := forallb (λ t, Z.of_nat (size (heap t)) <? 2 ^ 31) (shard_ c).
Definition block_insert (k : bytes) (b : Block) (n : Z) c : Cache :=
  if has_room c then
    match cache_Insert k b n c with
    | Ok (h, c') => match cache_Release h c' with Ok c'' => c'' | _ => c end
    | _ => c
    end
  else c.

#[export] Instance lru_block_cache : BlockCache Cache := {|
  NewId := cache_NewId; CacheLookup := block_lookup; CacheInsert := block_insert
|}.

(** Nobody holds a handle, and entries are what was inserted under their keys. *)
Definition quiet (P : bytes → Block → Prop) s : Prop := s_use s = [] ∧ s_out s = [] ∧ every (λ _ k b, P k b) s.
Definition blocks_cached (P : bytes → Block → Prop) c : Prop := ∃ S, cache_rep c S ∧ Forall (quiet P) S.

Lemma evict_held use out cap lru : ∀ del, s_use (s_evict (V := Block) lru use out cap del) = use ∧ s_out (s_evict lru use out cap del) = out.
Proof. induction lru as [|o l IH]; intros del; cbn [s_evict]; [done|]. destruct (_ <? _); [apply IH|done]. Qed.

Lemma insert_held id key h v n s : (∀ e, e ∈ s_lru s → e_id e ≠ id) → s_use s = [] → s_out s = [] →
  let s' := s_insert id key h v n s in ∃ e, e_id e = id ∧ e_refs e = 1 ∧ s_use s' = [e] ∧ s_out s' = [].
Proof.
  intros Hid Hu Ho s'. unfold s', s_insert. rewrite !(proj1 (evict_held _ _ _ _ _)), !(proj2 (evict_held _ _ _ _ _)). rewrite Hu, Ho.
  exists (mkEntry id key h v n 1). unfold cached. rewrite Hu, app_nil_r. destruct (with_key key h (s_lru s)) as [o|] eqn:E; [|done].
  apply with_key_found in E as (Hin & _). unfold s_drop. cbn [s_lru]. destruct (with_id (e_id o) (s_lru s)) eqn:Ew; [done|].
  exfalso. pose proof (List.find_none _ _ Ew o) as Hn. cbn in Hn. rewrite Nat.eqb_refl in Hn. by assert (true = false) by (apply Hn; by apply list_elem_of_In).
Qed.

(** Giving the only handle back. *)
Lemma release_quiet P s e : s_use s = [e] → e_refs e = 1 → s_out s = [] → every (λ _ k b, P k b) s → quiet P (s_release (e_id e) s).
Proof.
  intros Hu Hr Ho He. pose proof (every_release _ (e_id e) s He) as He'. split; [|split; [|done]]; unfold s_release; rewrite Hu; cbn;
    rewrite Nat.eqb_refl, Hr; cbn; [|done]. done.
Qed.

(** A lookup gives the only handle. *)
Lemma lookup_held t key h s id : rep t s → s_use s = [] → s_out s = [] → fst (s_lookup key h s) = Some id →
  ∃ e, e_id e = id ∧ e_key e = key ∧ e_refs e = 1 ∧ s_use (snd (s_lookup key h s)) = [e] ∧ s_out (snd (s_lookup key h s)) = [].
Proof.
  intros Hr Hu Ho. pose proof (rp_held _ _ Hr) as Hh. unfold s_lookup, cached. rewrite Hu, app_nil_r.
  destruct (with_key key h (s_lru s)) as [e|] eqn:E; [|done]. cbn. intros [= <-].
  apply with_key_found in E as (Hin & _ & Hk). pose proof (fi_lru _ (he_fine _ _ Hh) e Hin) as H0.
  apply list_elem_of_split in Hin as (a & b & El). destruct (lru_with_id t s a e b Hh El) as [Ew _].
  unfold s_ref. rewrite Ew. cbn. rewrite Hu, Ho. exists (add_refs 1 e). cbn. rewrite H0. done.
Qed.

Lemma quiet_at P i S f : Forall (quiet P) S → (∀ s, S !! i = Some s → quiet P (f s)) → Forall (quiet P) (at_shard i S f).
Proof. intros HS Hf. apply list.Forall_alter; [done|]. intros s Hs _. by apply Hf. Qed.

Lemma at_shard_lookup i S f s : S !! i = Some s → at_shard i S f !! i = Some (f s).
Proof. intros Hs. unfold at_shard. by rewrite list_lookup_alter_eq, Hs. Qed.

Lemma at_shard_twice i S f g s : S !! i = Some s → at_shard i (at_shard i S f) g = <[i := g (f s)]> S.
Proof.
  intros Hs. unfold at_shard at 1. rewrite (alter_insert_list g i _ (f s)) by by apply at_shard_lookup.
  unfold at_shard. rewrite (alter_insert_list f i S s Hs). by rewrite list_insert_insert_eq.
Qed.

Lemma exec_lookup c k r c' : exec (CLookup k) c = Ok (r, c') → ∃ h, r = RHandle h ∧ cache_Lookup k c = Ok (h, c').
Proof. unfold exec, mbind, res_bind. destruct (cache_Lookup k c) as [[h c1]| |]; [|done|done]. intros [= <- <-]. by exists h. Qed.
Lemma exec_insert c k b n r c' : exec (CInsert k b n) c = Ok (r, c') → ∃ h, r = RHandle (Some h) ∧ cache_Insert k b n c = Ok (h, c').
Proof. unfold exec, mbind, res_bind. destruct (cache_Insert k b n c) as [[h c1]| |]; [|done|done]. intros [= <- <-]. by exists h. Qed.
Lemma exec_value c h v : exec (CValue h) c = Ok (RValue v, c) → cache_Value h c = Ok v.
Proof. unfold exec, mbind, res_bind. destruct (cache_Value h c) as [w| |]; [|done|done]. by intros [= <-]. Qed.
Lemma exec_release c h r c' : exec (CRelease h) c = Ok (r, c') → cache_Release h c = Ok c'.
Proof. unfold exec, mbind, res_bind. destruct (cache_Release h c) as [w| |]; [|done|done]. by intros [= _ <-]. Qed.

(** The shard of a handle that the client has alone. *)
Lemma give_back P c S i s e S0 : cache_rep c S → S !! i = Some s → s_use s = [e] → e_refs e = 1 → s_out s = [] → every (λ _ k b, P k b) s →
  (∀ s', at_shard i S (λ _, s') = <[i := s']> S0) → Forall (quiet P) S0 →
  cache_Value (i, e_id e) c = Ok (e_value e) ∧ ∃ c', cache_Release (i, e_id e) c = Ok c' ∧ blocks_cached P c'.
Proof.
  intros Hr Hs Hu Hrf Ho Hev HS Hq. assert (allowed (CValue (i, e_id e)) S) as Ha.
  { exists s. split; [done|]. rewrite Hu, Ho. cbn. by left. }
  split.
  - destruct (cache_value_ok c S (i, e_id e) Hr Ha) as (r & c1 & S1 & E & (s1 & e1 & Hs1 & He1 & Eid & -> & ->) & _).
    rewrite Hs in Hs1. injection Hs1 as <-. rewrite Hu, Ho in He1. apply list_elem_of_singleton in He1 as ->.
    assert (c1 = c) as -> by (revert E; unfold exec, mbind, res_bind; destruct (cache_Value (i, e_id e) c); [by intros [= _ <-]|done|done]).
    by apply exec_value.
  - destruct (cache_release_ok c S (i, e_id e) Hr Ha) as (r & c1 & S1 & E & [-> ->] & Hr1). exists c1. split; [by apply exec_release in E|].
    exists (at_shard i S (s_release (e_id e))). split; [done|]. unfold at_shard. rewrite (alter_insert_list _ i S s Hs).
    specialize (HS (s_release (e_id e) s)). unfold at_shard in HS. rewrite (alter_insert_list _ i S s Hs) in HS. rewrite HS.
    apply Forall_insert; [done|]. by apply release_quiet.
Qed.

Lemma at_shard_const i S f s s' : S !! i = Some s → at_shard i (at_shard i S f) (λ _, s') = <[i := s']> S.
Proof. intros Hs. by rewrite (at_shard_twice i S f (λ _, s') s Hs). Qed.

Lemma block_lookup_ok P k c : blocks_cached P c → blocks_cached P (block_lookup k c).2 ∧ ∀ b, (block_lookup k c).1 = Some b → P k b.
Proof.
  intros (S & Hr & Hq). assert (allowed (CLookup k : cache_call (V := Block)) S) as Ha.
  { intros s e Hs He. destruct (Forall2_lookup_r _ _ _ _ _ (cr_shards _ _ Hr) Hs) as (t & _ & Ht).
    destruct (proj1 (list.Forall_lookup _ _) Hq _ _ Hs) as (Hu & _ & _). unfold cached in He. rewrite Hu, app_nil_r in He.
    rewrite (fi_lru _ (he_fine _ _ (rp_held _ _ Ht)) e He). lia. }
  destruct (cache_lookup_ok c S k Hr Ha) as (r & c' & S' & E & (s & Hs & -> & ->) & Hr').
  apply exec_lookup in E as (h & Eh & E). injection Eh as <-. unfold block_lookup. rewrite E.
  destruct (proj1 (list.Forall_lookup _ _) Hq _ _ Hs) as (Hu & Ho & Hev).
  destruct (fst (s_lookup k (key_hash k) s)) as [id|] eqn:El; cbn.
  - destruct (Forall2_lookup_r _ _ _ _ _ (cr_shards _ _ Hr) Hs) as (t & _ & Ht).
    destruct (lookup_held t _ _ s id Ht Hu Ho El) as (e & <- & Ek & Hrf & Hu' & Ho').
    pose proof (every_lookup _ k (key_hash k) s Hev) as Hev'.
    destruct (give_back P c' _ _ _ e S Hr' (at_shard_lookup _ _ _ _ Hs) Hu' Hrf Ho' Hev' (λ s', at_shard_const _ _ _ _ s' Hs) Hq) as (Ev & c'' & Er & Hc'').
    rewrite Ev, Er. split; [done|]. intros b [= <-]. destruct Hev' as (_ & H2 & _). pose proof (H2 e ltac:(rewrite Hu'; by left)) as HP. by rewrite Ek in HP.
  - split; [|done]. exists (at_shard (Cache.Shard (key_hash k)) S (λ s, snd (s_lookup k (key_hash k) s))). split; [done|].
    apply quiet_at; [done|]. intros s' Hs'. rewrite Hs in Hs'. injection Hs' as <-.
    unfold s_lookup in *. destruct (with_key k (key_hash k) (cached s)); [done|]. done.
Qed.

Lemma block_insert_ok P k b n c : P k b → blocks_cached P c → blocks_cached P (block_insert k b n c).
Proof.
  intros HP Hc. pose proof Hc as (S & Hr & Hq). unfold block_insert. destruct (has_room c) eqn:Eroom; [|done].
  assert (allowed (CInsert k b n) S) as Ha.
  { intros s Hs. destruct (Forall2_lookup_r _ _ _ _ _ (cr_shards _ _ Hr) Hs) as (t & Ht & Hts).
    unfold has_room in Eroom. apply forallb_forall with (x := t) in Eroom; [|apply list_elem_of_In; by eapply list_elem_of_lookup_2].
    apply Z.ltb_lt in Eroom. pose proof (rp_held _ _ Hts) as Hh. pose proof (nodup_size (heap t) _ (cached_nodup _ _ Hh)) as L.
    unfold ids in L at 2. rewrite length_fmap in L. enough (length (cached s) <= size (heap t))%nat by lia. apply L.
    intros x (e & He & <-)%entry_of. destruct (node_get _ _ _ _ (held_cached _ _ e Hh He)) as (m & -> & _). done. }
  destruct (cache_insert_ok c S k b n Hr Ha) as (r & c' & S' & E & (id & -> & Hid & ->) & Hr').
  apply exec_insert in E as (h & Eh & E). injection Eh as <-. rewrite E.
  destruct (rep_shard c S _ Hr (Shard_lt _ (proj2 (HashSlice_ok k)))) as (t & s & _ & Hs & Hts & _).
  destruct (proj1 (list.Forall_lookup _ _) Hq _ _ Hs) as (Hu & Ho & Hev).
  destruct (insert_held id k (key_hash k) b n s) as (e & <- & Hrf & Hu' & Ho'); [|done|done|].
  { intros e He Ee. apply (Hid s Hs). rewrite <- Ee. unfold addresses, cached. apply in_ids. rewrite !elem_of_app. by left; left. }
  pose proof (every_insert _ (e_id e) k (key_hash k) b n s HP Hev) as Hev'.
  destruct (give_back P c' _ _ _ e S Hr' (at_shard_lookup _ _ _ _ Hs) Hu' Hrf Ho' Hev' (λ s', at_shard_const _ _ _ _ s' Hs) Hq) as (_ & c'' & Er & Hc'').
  by rewrite Er.
Qed.

#[export] Instance lru_cache_laws : CacheLaws Cache blocks_cached.
Proof.
  split.
  - intros P Q c HPQ (S & Hr & Hq). exists S. split; [done|]. eapply list.Forall_impl; [exact Hq|]. intros s (Hu & Ho & H1 & H2 & H3).
    split; [done|]. split; [done|]. repeat split; intros e He; apply HPQ; [by apply H1|by apply H2|by apply H3].
  - intros P c (S & Hr & Hq). split; [|apply u64_range]. exists S. split; [|done]. destruct Hr as [H1 H2 H3]. by split.
  - intros P k c Hc. by apply block_lookup_ok.
  - intros P k b n c. by apply block_insert_ok.
Qed.

(** A new cache has no blocks. *)
Lemma new_blocks_cached P capacity : 0 < capacity < 2 ^ 64 - 15 → ∃ c, NewLRUCache (V := Block) capacity = Ok c ∧ blocks_cached P c.
Proof.
  intros Hc. destruct (new_cache_ok (V := Block) capacity Hc) as (c & E & Hr). exists c. split; [done|]. eexists. split; [exact Hr|].
  apply Forall_replicate. split; [done|]. split; [done|]. repeat split; intros e He%not_elem_of_nil; done.
Qed.

Lemma new_cache_fresh capacity : 0 < capacity < 2 ^ 64 - 15 →
  ∃ c, NewLRUCache (V := Block) capacity = Ok c ∧ cache_fresh (cached := blocks_cached) (Some c).
Proof.
  intros Hc. destruct (new_blocks_cached (λ _ _, False) capacity Hc) as (c & E & Hb). exists c. split; [exact E|].
  unfold cache_fresh. refine (cached_mono (cached := blocks_cached) (λ _ _, False) _ c _ Hb). intros k b [].
Qed.
End blocks.
