(* ===== verification/LdbTableProps.v ===== *)
(** LevelDB's tables: what a table builder has written, a table iterates over and finds. *)
From Stdlib Require Import Sorting.Sorted.
From stdpp Require Import sorting.
From S2P Require Import Prelude PbVarint LdbSkip LdbSkipLemmas LdbFormat LdbCodingProps LdbOrder LdbCrc LdbCrcProps LdbLog LdbFilter LdbFilterProps LdbIterator LdbBlock LdbBlockProps LdbTwoLevel LdbTwoLevelProps LdbTable LdbTableFileProps LdbTableReadProps LdbCache LdbCacheProps LdbCacheBlocks.
Import Format.

Lemma sorted_positions {A} (R : A → A → Prop) l :
  (∀ i j x y, (i < j)%nat → l !! i = Some x → l !! j = Some y → R x y) → StronglySorted R l.
Proof.
  induction l as [|a l IH]; intros Hl; constructor.
  - apply IH. intros i j x y L Hx Hy. by apply (Hl (S i) (S j)); [lia|..].
  - apply list.Forall_forall. intros y (j & Hy)%list_elem_of_lookup_1. by apply (Hl 0%nat (S j)); [lia|..].
Qed.

Lemma iterates_ext {ord : Comparator bytes} {I} (HI : Iterator I) l target (ready ready' : I → Prop) (at_ at' : I → option nat → Prop) :
  (∀ s, ready s ↔ ready' s) → (∀ s p, at_ s p ↔ at' s p) →
  Iterates (ord := ord) I l target ready at_ → Iterates (ord := ord) I l target ready' at'.
Proof.
  intros Hr Ha [I1 I2 I3 I4 I5 I6 I7 I8 I9].
  assert (∀ (r : res I) p, (∃ s, r = Ok s ∧ at_ s p) → ∃ s, r = Ok s ∧ at' s p) as Hx
    by (intros r p (s & E & Hs); exists s; by rewrite <- Ha).
  split; intros s; intros; repeat match goal with G : at' _ _ |- _ => apply Ha in G | G : ready' _ |- _ => apply Hr in G end;
    [apply Hr| | | |apply Hx..]; eauto.
Qed.

Section table.
Context (address : bytes → Z) (Haddr : ∀ b, 0 <= address b) {F : Type} `{FileContents F contents} {K : Type} `{CacheLaws K cached}.
Context {C : SliceComparator} {dom valid : bytes → Prop} {ord : Comparator bytes} (HC : Lawful C dom valid ord).
Context (pol : NamedPolicy) (all : entries) (Hall : Forall (λ e, valid e.1 ∧ Forall is_byte e.2) all) (Hasc : ascending (ord := ord) all).
Context (f : F) (ds : list dblk) (ks : list bytes) (fbytes : bytes) (fh : BlockHandle) (meta index : dblk).
Context (Htf : table_file (ord := ord) valid pol all (contents f) ds ks fbytes fh meta index).
Context (fdom : bytes → Prop) (Hpol : match pol with Some (P, _) => FilterLaws P fdom | None => True end).

#[local] Instance order_ : Order bytes := lawful_order.
Abbreviation table_ready := (table_ready (K := K) (cached := cached) pol f ds fbytes meta index).
Abbreviation ix := (index_entries ks ds).
Abbreviation bs := (ents_of <$> ds).

(** ** The index *)

Lemma index_lookup j kv : ix !! j = Some kv → ∃ k h d,
  kv = (k, handle_bytes h) ∧ ks !! j = Some k ∧ handles 0 ds !! j = Some h ∧ ds !! j = Some d.
Proof.
  unfold index_entries. intros (k & hb & -> & Hk & Hh)%lookup_zip_with_Some.
  rewrite list_lookup_fmap in Hh. destruct (handles 0 ds !! j) as [h|] eqn:Eh; [|done]. injection Hh as <-.
  destruct (handles_lookup _ _ _ _ Eh) as (d & Hd & _). by exists k, h, d.
Qed.

Lemma index_length : length ix = length bs.
Proof.
  unfold index_entries. rewrite length_zip_with, !length_fmap, length_handles.
  rewrite (tf_length _ _ _ _ _ _ _ _ _ _ Htf). lia.
Qed.

Lemma part_ok j h : handles 0 ds !! j = Some h → handle_ok h.
Proof.
  intros Hh. apply (handles_ok ds j); [|done]. pose proof (tf_size _ _ _ _ _ _ _ _ _ _ Htf) as Hs.
  rewrite (tf_file _ _ _ _ _ _ _ _ _ _ Htf), !size_app in Hs.
  pose proof (size_nonneg fbytes). pose proof (size_nonneg (stored (contents_of meta))).
  pose proof (size_nonneg (stored (contents_of index))). pose proof (size_nonneg (footer_bytes (mkFooter
    (mkHandle (Slice.size (file_of ds ++ fbytes)) (Slice.size (contents_of meta)))
    (mkHandle (Slice.size (file_of ds ++ fbytes ++ stored (contents_of meta))) (Slice.size (contents_of index)))))).
  rewrite !size_app in *. lia.
Qed.

Lemma table_indexes : indexes ix bs.
Proof.
  pose proof (tf_separates _ _ _ _ _ _ _ _ _ _ Htf) as [S1 S2]. split.
  - apply index_length.
  - intros j kv b e Hk Hb He. destruct (index_lookup _ _ Hk) as (k & h & d & -> & Hk' & _). by eapply S1.
  - intros j j' kv b e Hk Hb L He. destruct (index_lookup _ _ Hk) as (k & h & d & -> & Hk' & _). by eapply S2.
  - intros j j' kv kv' Hk Hk' E. destruct (index_lookup _ _ Hk) as (k & h & d & -> & _ & Hh & _).
    destruct (index_lookup _ _ Hk') as (k' & h' & d' & -> & _ & Hh' & _). cbn in E.
    apply handle_inj in E as ->; [|by eapply part_ok..]. by eapply handles_inj.
Qed.

(** Each block has an entry. *)
Lemma block_some j b : bs !! j = Some b → ∃ e, e ∈ b.
Proof.
  rewrite list_lookup_fmap. destruct (ds !! j) as [d|] eqn:Ed; [|done]. intros [= <-].
  pose proof (tf_blocks _ _ _ _ _ _ _ _ _ _ Htf) as Hg. rewrite list.Forall_forall in Hg.
  pose proof (gb_some d (Hg d (list_elem_of_lookup_2 _ _ _ Ed))) as Hne. unfold ents_of.
  destruct d.1 as [|x l]; [done|]. exists (item_entry x). by left.
Qed.

Lemma index_ascending : ascending (ord := ord) ix.
Proof.
  unfold ascending. assert (ix.*1 = ks) as ->.
  { unfold index_entries. apply fst_zip. rewrite length_fmap, length_handles. pose proof (tf_length _ _ _ _ _ _ _ _ _ _ Htf). lia. }
  pose proof (tf_separates _ _ _ _ _ _ _ _ _ _ Htf) as [S1 S2]. pose proof (tf_length _ _ _ _ _ _ _ _ _ _ Htf) as Hlen.
  apply sorted_positions. intros i j x y L Hx Hy.
  destruct (lookup_lt_is_Some_2 bs j) as [b Hb]; [rewrite length_fmap, Hlen; by eapply lookup_lt_Some|].
  destruct (block_some j b Hb) as [e He]. apply (lt_le HC x e.1); [by eapply S2|by eapply S1].
Qed.

Lemma index_readable_small : Slice.size (contents_of index) < 2 ^ 32.
Proof.
  destruct (index_part pol all f ds ks fbytes fh meta index Htf) as (ai & Ei).
  pose proof (part_small pol all f ds ks fbytes fh meta index Htf _ _ _ Ei).
  pose proof (size_nonneg (file_of ds ++ fbytes ++ stored (contents_of meta))). lia.
Qed.

Lemma index_iterates : Iterates (ord := ord) (H := Table.data_iterator (comparator := C)) (EmptyIterator + Block.Iter) ix dom
  (block_ready index) (block_at index).
Proof.
  apply (readable_iterates index ix (tf_index _ _ _ _ _ _ _ _ _ _ Htf) index_readable_small HC).
  - apply list.Forall_forall. intros kv (j & Hj)%list_elem_of_lookup_1. destruct (index_lookup _ _ Hj) as (k & h & d & -> & Hk & _).
    apply lawful_dom. pose proof (tf_valid _ _ _ _ _ _ _ _ _ _ Htf) as Hv. rewrite list.Forall_forall in Hv. apply Hv.
    by eapply list_elem_of_lookup_2.
  - apply index_ascending.
Qed.

Lemma index_open o t : table_ready o t → ∃ it, Block.NewIterator (Table.index_block t) = Ok it ∧ block_at index it None.
Proof.
  intros Ht. destruct (readable_open index ix (tf_index _ _ _ _ _ _ _ _ _ _ Htf) index_readable_small (C := C)) as (blk & it & E1 & E2 & Hit).
  rewrite (tr_index _ _ _ _ _ _ _ _ Ht) in E1. injection E1 as <-. by exists it.
Qed.

(** ** Blocks *)

Lemma block_small j h d : handles 0 ds !! j = Some h → ds !! j = Some d → Slice.size (contents_of d) < 2 ^ 32.
Proof.
  intros Hh Hd. destruct (data_part pol all f ds ks fbytes fh meta index Htf j h d Hh Hd) as (before & after & Ec & _).
  pose proof (part_small pol all f ds ks fbytes fh meta index Htf _ _ _ Ec). pose proof (size_nonneg before). lia.
Qed.

Lemma block_handle j d : ds !! j = Some d → ∃ h, handles 0 ds !! j = Some h.
Proof. intros Hd. apply lookup_lt_is_Some_2. rewrite length_handles. by eapply lookup_lt_Some. Qed.

Lemma data_iterates j d : ds !! j = Some d → Iterates (ord := ord) (H := Table.data_iterator (comparator := C))
  (EmptyIterator + Block.Iter) (ents_of d) dom (block_ready d) (block_at d).
Proof.
  intros Hd. destruct (block_handle j d Hd) as [h Hh].
  pose proof (good_readable pol all f ds ks fbytes fh meta index Htf d (list_elem_of_lookup_2 _ _ _ Hd)) as Hr.
  assert (all = concat (ents_of <$> take j ds) ++ ents_of d ++ concat (ents_of <$> drop (S j) ds)) as Ea.
  { rewrite (tf_all _ _ _ _ _ _ _ _ _ _ Htf). rewrite <- (take_drop_middle _ _ _ Hd) at 1. by rewrite fmap_app, concat_app. }
  apply (readable_iterates d (ents_of d) Hr (block_small j h d Hh Hd) HC).
  - rewrite Ea, !List.Forall_app in Hall. destruct Hall as (_ & Hd' & _). eapply list.Forall_impl; [exact Hd'|].
    intros e [Hv _]. by apply lawful_dom.
  - unfold ascending in *. rewrite Ea, !fmap_app in Hasc. apply StronglySorted_app_1_r in Hasc.
    by apply StronglySorted_app_1_l in Hasc.
Qed.

(** Finding a block, in the cache or in the file. *)
Lemma find_block_ok ro o t j h d : table_ready o t → handles 0 ds !! j = Some h → ds !! j = Some d →
  ∃ blk t', Table.find_block address ro h t = Ok (Status.OK, Some blk, t') ∧ Block.new (contents_of d) = Ok blk ∧ table_ready o t'.
Proof.
  intros Ht Hh Hd. pose proof Ht as [T1 T2 T3 T4 T5 T6].
  destruct (data_part pol all f ds ks fbytes fh meta index Htf j h d Hh Hd) as (before & after & Ec & Eh).
  pose proof (good_readable pol all f ds ks fbytes fh meta index Htf d (list_elem_of_lookup_2 _ _ _ Hd)) as Hr.
  destruct (readable_open d _ Hr (block_small j h d Hh Hd) (C := C)) as (blk & _ & Eb & _).
  destruct (read_part address Haddr pol all f ds ks fbytes fh meta index Htf (Table.verify_checksums ro) before _ after Ec) as (c & Er & Edc);
    [by eapply readable_bytes|]. rewrite <- Eh in Er.
  unfold Table.find_block. rewrite T1. unfold mbind at 2 3, res_bind at 2 3. rewrite Er. cbn [Status.ok].
  unfold mbind, res_bind. rewrite Edc, Eb. destruct (Table.block_cache t) as [k|] eqn:Ek; [|by exists blk, t].
  unfold cache_ok in T4. rewrite ?Ek in T4.
  destruct (cached_lookup _ (Table.cache_key t (offset_ h)) k T4) as [Hc1 Hc2].
  destruct (CacheLookup (Table.cache_key t (offset_ h)) k) as [[b|] k'] eqn:El; cbn [fst snd] in Hc1, Hc2.
  - exists b, (Table.set_cache t (Some k')). split; [done|]. split; [|by split].
    rewrite <- Eb. by apply (Hc2 b eq_refl j h d).
  - eexists blk, _. split; [done|]. split; [done|]. split; try done.
    destruct (cachable c && Table.fill_cache ro); [|done]. cbn. apply cached_insert; [|done].
    by apply (holds_block_new pol all f ds ks fbytes fh meta index Htf (Table.cache_id t) j h d blk).
Qed.

Lemma BlockReader_ok ro o t j h d : table_ready o t → handles 0 ds !! j = Some h → ds !! j = Some d →
  ∃ it t', Table.BlockReader address ro t (handle_bytes h) = Ok (it, t') ∧ block_at d it None ∧ table_ready o t'.
Proof.
  intros Ht Hh Hd. destruct (find_block_ok ro o t j h d Ht Hh Hd) as (blk & t' & E & Eb & Ht').
  pose proof (good_readable pol all f ds ks fbytes fh meta index Htf d (list_elem_of_lookup_2 _ _ _ Hd)) as Hr.
  destruct (readable_open d _ Hr (block_small j h d Hh Hd) (C := C)) as (blk' & it & Eb' & Ei & Hit).
  rewrite Eb in Eb'. injection Eb' as <-. exists it, t'. split; [|done].
  unfold Table.BlockReader. rewrite <- (app_nil_r (handle_bytes h)), DecodeFrom_ok by (done || by eapply part_ok).
  unfold mbind, res_bind. change (Status.ok Status.OK) with true. cbv iota. by rewrite E, Ei.
Qed.

(** ** The iterator *)

Definition part_ready (j : nat) (s : EmptyIterator + Block.Iter) : Prop := ∃ d, ds !! j = Some d ∧ block_ready d s.
Definition part_at (j : nat) (s : EmptyIterator + Block.Iter) (p : option nat) : Prop := ∃ d, ds !! j = Some d ∧ block_at d s p.

Lemma part_iterates j b : bs !! j = Some b → Iterates (ord := ord) (H := Table.data_iterator (comparator := C))
  (EmptyIterator + Block.Iter) b dom (part_ready j) (part_at j).
Proof.
  rewrite list_lookup_fmap. destruct (ds !! j) as [d|] eqn:Hd; [|done]. intros [= <-].
  refine (iterates_ext _ _ _ _ _ _ _ _ _ (data_iterates j d Hd)).
  - intros s. unfold part_ready. rewrite Hd. split; [by exists d|by intros (? & [= <-] & ?)].
  - intros s p. unfold part_at. rewrite Hd. split; [by exists d|by intros (? & [= <-] & ?)].
Qed.

Lemma open_part ro o t j kv : table_ready o t → ix !! j = Some kv →
  ∃ it t', Table.BlockReader address ro t kv.2 = Ok (it, t') ∧ table_ready o t' ∧ part_ready j it ∧
    Valid (Iterator := Table.data_iterator (comparator := C)) it = false.
Proof.
  intros Ht Hj. destruct (index_lookup j kv Hj) as (k & h & d & -> & _ & Hh & Hd).
  destruct (BlockReader_ok ro o t j h d Ht Hh Hd) as (it & t' & E & Hit & Ht'). exists it, t'.
  split; [done|]. split; [done|]. split; [exists d; split; [done|by eapply block_at_ready]|].
  exact (it_valid (Iterates := data_iterates j d Hd) it None Hit).
Qed.

(** Any calls of the iterator. *)
Lemma table_calls ro o t fuel cs r : table_ready o t → (length ds < fuel)%nat → Forall (call_target dom) cs →
  cursor_calls (ord := ord) all None cs = Some r →
  ∃ it, Table.NewIterator ro t = Ok it ∧ run_calls (H := Table.table_iterator address fuel ro) cs it = Ok r.
Proof.
  intros Ht Hf Hcs Hc. destruct (index_open o t Ht) as (xit & Ex & Hx).
  pose proof (two_level_iterates (ord := ord) (H := Table.data_iterator (comparator := C)) (H0 := Table.data_iterator (comparator := C))
    lawful_order (Table.BlockReader address ro) (table_ready o) ix bs table_indexes dom
    (block_ready index) (block_at index) index_iterates part_ready part_at part_iterates (λ a j k, open_part ro o a j k)
    fuel ltac:(by rewrite length_fmap)) as HT.
  unfold Table.NewIterator. unfold mbind, res_bind. rewrite Ex. unfold TwoLevel.NewTwoLevelIterator, TwoLevel.new, LdbMerger.Set_.
  pose proof (it_valid (Iterates := index_iterates) xit None Hx) as Hv. cbn [Valid Table.data_iterator] in Hv. rewrite Hv.
  eexists. split; [reflexivity|]. rewrite (tf_all _ _ _ _ _ _ _ _ _ _ Htf) in Hc.
  eapply (run_calls_ok (H0 := HT)); [right; split; [done|]|done|exact Hc].
  split; [done|]. split; [by eapply block_at_ready|done].
Qed.

(** ** Looking up a key *)

(** Whether the filter excludes the key from the block: not when the block has it. *)
Lemma filter_excludes o t j h d k : table_ready o t → handles 0 ds !! j = Some h → ds !! j = Some d → fdom k →
  ∃ b : bool, match Table.filter t, pol with
  | Some filter, Some (policy, _) =>
      '(s, handle, _) ← DecodeFrom BlockHandle_new (handle_bytes h);
      if Status.ok s then b ← FilterBlock.KeyMayMatch (policy_ := policy) filter (offset_ handle) k; Ok (negb b) else Ok false
  | _, _ => Ok false
  end = Ok b ∧ (b = true → pol ≠ None ∧ ∀ e, e ∈ ents_of d → e.1 ≠ k).
Proof.
  intros Ht Hh Hd Hk. pose proof (tr_filter _ _ _ _ _ _ _ _ Ht) as Hf. unfold filter_read in Hf. pose proof Hpol as HL.
  destruct (policy_cases pol) as [Ep|(P & name & Ep)]; rewrite Ep in Hf, HL |- *; [rewrite Hf; by exists false|].
  destruct Hf as (cs & r & -> & Er & Hb & Hs & Hlg & Hm).
  rewrite <- (app_nil_r (handle_bytes h)), DecodeFrom_ok by (done || by eapply part_ok).
  unfold mbind, res_bind. cbn [Status.ok].
  destruct (KeyMayMatch_any P fdom HL cs r (offset_ h) k Hb ltac:(lia) Er Hlg) as (b & Eb); [apply (part_ok j h Hh)|done|].
  rewrite Eb. exists (negb b). split; [done|]. intros Hn. split; [done|]. intros e He Ek.
  rewrite <- Ek, (Hm j h d e Hh Hd He) in Eb. by injection Eb as <-.
Qed.

Lemma InternalGet_ok ro o t k : table_ready o t → dom k → fdom k →
  ∃ saved t', Table.InternalGet address pol ro k t = Ok (Status.OK, saved, t') ∧ table_ready o t' ∧
    match bs !! seek_index (ord := ord) ix k with
    | Some b => saved = b !! seek_index (ord := ord) b k ∨ saved = None ∧ pol ≠ None ∧ ∀ e, e ∈ b → e.1 ≠ k
    | None => saved = None
    end.
Proof.
  intros Ht Hk Hfk. destruct (index_open o t Ht) as (xit & Ex & Hx). unfold Table.InternalGet.
  pose proof index_iterates as HX.
  destruct (it_seek (Iterates := HX) xit k ltac:(by eapply block_at_ready) Hk) as (xit' & Es & Hat).
  pose proof (it_valid (Iterates := HX) xit' _ Hat) as Hv. pose proof (it_status (Iterates := HX) xit' (it_ready (Iterates := HX) _ _ Hat)) as Hst.
  unfold mbind at 1 2, res_bind at 1 2. rewrite Ex. unfold mbind at 1, res_bind at 1.
  change (Seek (Iterator := Table.data_iterator (comparator := C)) k xit) with (Seek (Iterator := Table.data_iterator (comparator := C)) k xit).
  rewrite Es, Hv, Hst.
  destruct (bs !! seek_index ix k) as [b|] eqn:Eb.
  2:{ apply lookup_ge_None in Eb. rewrite pos_at_ge by (by rewrite index_length).
      rewrite bool_decide_eq_false_2 by (by intros []). by exists None, t. }
  rewrite pos_at_lt in Hat |- * by (rewrite index_length; by eapply lookup_lt_Some).
  rewrite bool_decide_eq_true_2 by done.
  destruct (it_entry (Iterates := HX) xit' _ Hat) as (kv & Hkv & _ & Evv).
  destruct (index_lookup _ _ Hkv) as (sk & h & d & -> & _ & Hh & Hd). rewrite Evv.
  rewrite list_lookup_fmap, Hd in Eb. injection Eb as <-. cbn [snd].
  destruct (filter_excludes o t _ h d k Ht Hh Hd Hfk) as (excl & Ee & Hex).
  unfold mbind at 1 2, res_bind at 1 2. rewrite Ee. destruct excl.
  { exists None, t. split; [done|]. split; [done|]. right. by destruct Hex. }
  destruct (BlockReader_ok ro o t _ h d Ht Hh Hd) as (it & t' & Er & Hit & Ht').
  unfold mbind at 1, res_bind at 1. rewrite Er.
  pose proof (data_iterates _ d Hd) as HD.
  destruct (it_seek (Iterates := HD) it k ltac:(by eapply block_at_ready) Hk) as (it' & Es' & Hat').
  unfold mbind at 1, res_bind at 1. rewrite Es'.
  pose proof (shown_at (H0 := HD) it' _ Hat') as Hsh. unfold shown in Hsh.
  unfold mbind, res_bind in Hsh |- *. rewrite Hsh.
  rewrite (it_status (Iterates := HD) it' (it_ready (Iterates := HD) _ _ Hat')). cbn [Status.ok].
  eexists _, t'. split; [done|]. split; [done|]. left.
  destruct (decide (seek_index (ord := ord) (ents_of d) k < length (ents_of d))%nat) as [L|L]; [by rewrite pos_at_lt|].
  rewrite pos_at_ge by lia. symmetry. apply lookup_ge_None. lia.
Qed.

(** In terms of all entries: what is returned is the first entry that is not before the
    key, and an entry with the key is returned. *)
Lemma get_answer k saved :
  match bs !! seek_index (ord := ord) ix k with
  | Some b => saved = b !! seek_index (ord := ord) b k ∨ saved = None ∧ pol ≠ None ∧ ∀ e, e ∈ b → e.1 ≠ k
  | None => saved = None
  end →
  (∀ e, saved = Some e → all !! seek_index (ord := ord) all k = Some e) ∧ (∀ e, e ∈ all → e.1 = k → saved = Some e).
Proof.
  intros Hs. pose proof table_indexes as Hix. pose proof (tf_all _ _ _ _ _ _ _ _ _ _ Htf) as Ea. split.
  - intros e ->. destruct (bs !! seek_index ix k) as [b|] eqn:Eb; [|done]. destruct Hs as [Hs|[? _]]; [|done].
    rewrite Ea. rewrite (seek_in_block lawful_order ix bs Hix k _ b eq_refl Eb). by eapply at_start.
  - intros e He Ek. rewrite Ea in He. apply list_elem_of_lookup_1 in He as (p & Hp).
    destruct (start_inv bs p e Hp) as (j' & b & i & Hb & Hi & _).
    assert (e ∈ b) as Heb by by eapply list_elem_of_lookup_2.
    destruct (lookup_lt_is_Some_2 ix j') as [kv Hkv]; [rewrite index_length; by eapply lookup_lt_Some|].
    pose proof (indexes_last _ _ Hix j' kv b e Hkv Hb Heb) as L1.
    assert (seek_index ix k = j') as Ej.
    { apply seek_index_unique; [apply lookup_lt_Some in Hkv; lia| |].
      - intros j0 kv0 Lj Hkv0. rewrite <- Ek. by apply (indexes_next _ _ Hix j0 j' kv0 b e).
      - intros kv0 Hkv0. rewrite Hkv in Hkv0. injection Hkv0 as <-. rewrite Ek in L1.
        destruct (Z.lt_ge_cases (compare_ kv.1 k) 0) as [L|]; [|done]. apply cmp_swap in L. lia. }
    rewrite Ej, Hb in Hs. destruct Hs as [Hs|(_ & _ & Hn)]; [|by destruct (Hn e Heb)]. rewrite Hs.
    assert (ascending (ord := ord) b) as Hab.
    { assert (all = concat (take j' bs) ++ b ++ concat (drop (S j') bs)) as Ea2 by (rewrite Ea; by apply concat_at).
      unfold ascending in *. rewrite Ea2, !fmap_app in Hasc. apply StronglySorted_app_1_r in Hasc.
      by apply StronglySorted_app_1_l in Hasc. }
    assert (seek_index b k = i) as ->; [|done]. apply seek_index_unique; [apply lookup_lt_Some in Hi; lia| |].
    + intros i0 x Li Hx. rewrite <- Ek. by eapply ascending_lt.
    + intros x Hx. rewrite Hi in Hx. injection Hx as <-. rewrite Ek, cmp_refl. done.
Qed.

(** ** Offsets *)

Lemma ApproximateOffsetOf_ok o t k : table_ready o t → dom k →
  Table.ApproximateOffsetOf k t = Ok (match handles 0 ds !! seek_index (ord := ord) ix k with
    | Some h => offset_ h | None => Slice.size (file_of ds ++ fbytes) end).
Proof.
  intros Ht Hk. destruct (index_open o t Ht) as (xit & Ex & Hx). unfold Table.ApproximateOffsetOf.
  pose proof index_iterates as HX.
  destruct (it_seek (Iterates := HX) xit k ltac:(by eapply block_at_ready) Hk) as (xit' & Es & Hat).
  pose proof (it_valid (Iterates := HX) xit' _ Hat) as Hv.
  unfold mbind at 1, res_bind at 1. rewrite Ex. unfold mbind at 1, res_bind at 1. rewrite Es, Hv, (tr_meta _ _ _ _ _ _ _ _ Ht).
  destruct (ix !! seek_index ix k) as [kv|] eqn:Ek.
  - destruct (index_lookup _ _ Ek) as (sk & h & d & -> & _ & Hh & _).
    rewrite pos_at_lt in Hat |- * by by eapply lookup_lt_Some. rewrite bool_decide_eq_true_2 by done.
    destruct (it_entry (Iterates := HX) xit' _ Hat) as (e & He & _ & Ev). rewrite Ek in He. injection He as <-.
    unfold mbind, res_bind. rewrite Ev. cbn [snd].
    rewrite <- (app_nil_r (handle_bytes h)), DecodeFrom_ok by (done || by eapply part_ok). by rewrite Hh.
  - apply lookup_ge_None in Ek. rewrite pos_at_ge by done. rewrite bool_decide_eq_false_2 by (by intros []).
    rewrite (lookup_ge_None_2 (handles 0 ds)); [done|]. rewrite length_handles. rewrite index_length, length_fmap in Ek. done.
Qed.

(** Offsets are in the file and grow with the keys. *)
Lemma offsets_grow k k' : compare_ k k' <= 0 →
  let at_key k := match handles 0 ds !! seek_index (ord := ord) ix k with
    | Some h => offset_ h | None => Slice.size (file_of ds ++ fbytes) end in
  0 <= at_key k <= at_key k' ∧ at_key k' <= Slice.size (contents f).
Proof.
  intros Hk at_key.
  assert (∀ j, match handles 0 ds !! j with Some h => offset_ h | None => Slice.size (file_of ds ++ fbytes) end =
    Slice.size (file_of (take j ds)) + (if bool_decide (j < length ds)%nat then 0 else Slice.size fbytes)) as Hoff.
  { intros j. destruct (handles 0 ds !! j) as [h|] eqn:Eh.
    - pose proof (lookup_lt_Some _ _ _ Eh) as L. rewrite length_handles in L. rewrite bool_decide_eq_true_2 by done.
      destruct (handles_lookup _ _ _ _ Eh) as (d & _ & ->). cbn. lia.
    - apply lookup_ge_None in Eh. rewrite length_handles in Eh. rewrite bool_decide_eq_false_2 by lia.
      rewrite take_ge, size_app by done. done. }
  assert (∀ a b, (a <= b)%nat → Slice.size (file_of (take a ds)) <= Slice.size (file_of (take b ds))) as Hmono.
  { intros a b L. pose proof (file_of_take_le (take b ds) a) as Hle. by rewrite take_take, Nat.min_l in Hle. }
  assert (seek_index (ord := ord) ix k <= seek_index (ord := ord) ix k')%nat as Ls.
  { destruct (decide (seek_index (ord := ord) ix k <= seek_index (ord := ord) ix k')%nat) as [|N]; [done|exfalso].
    destruct (lookup_lt_is_Some_2 ix (seek_index ix k')) as [kv Hkv]; [pose proof (seek_index_le ix k); lia|].
    pose proof (seek_index_before ix k (seek_index ix k') kv ltac:(lia) Hkv) as L1. pose proof (seek_index_at ix k' kv Hkv) as L2.
    assert (compare_ kv.1 k' < 0); [|lia]. by apply (lt_le HC _ k). }
  unfold at_key. rewrite !Hoff. pose proof (Hmono _ _ Ls). pose proof (size_nonneg (file_of (take (seek_index ix k) ds))).
  pose proof (size_nonneg fbytes). pose proof (file_of_take_le ds (seek_index ix k')).
  assert (Slice.size (file_of ds) + Slice.size fbytes <= Slice.size (contents f)) as Hc.
  { destruct (meta_part pol all f ds ks fbytes fh meta index Htf) as (after & Ec). rewrite Ec, !size_app.
    pose proof (size_nonneg (stored (contents_of meta))). pose proof (size_nonneg after). lia. }
  repeat case_bool_decide; lia.
Qed.

Lemma blocks_count : (length ds <= length all)%nat.
Proof.
  rewrite (tf_all _ _ _ _ _ _ _ _ _ _ Htf). pose proof (tf_blocks _ _ _ _ _ _ _ _ _ _ Htf) as Hg.
  clear - Hg. induction ds as [|d l IH]; [done|]. apply list.Forall_cons in Hg as [Hd Hg].
  pose proof (gb_some d Hd) as Hs. cbn [length fmap list_fmap concat]. rewrite length_app. specialize (IH Hg).
  unfold ents_of at 1. rewrite length_fmap. destruct d.1; [done|]. cbn [length]. lia.
Qed.
End table.

(** C7: tables. Entries in ascending order under a lawful comparator are given to a
    table builder, under any options and filter policy. Every step ends: either the file
    has refused a write, and finishing says so, or the table is a file of the size that
    the builder says. Opening that file, with or without a cache of blocks, succeeds; and
    whatever was asked of the table before, the iterator shows for any sequence of calls
    what a cursor in the entries shows; a lookup returns at most the first entry that is
    not before the key, and returns the entry with the key if there is one, whatever
    the filter says; and approximate offsets are in the file and grow with the keys. *)
Theorem table_correct {F G K} `{Device F written refused} `{FileContents G contents} `{CacheLaws K cached}
    (address : bytes → Z) (C : SliceComparator) dom valid ord o pol fdom (all : entries) (f0 : F) :
  (∀ b, 0 <= address b) → Lawful C dom valid ord → (∀ k, valid k → Forall is_byte k) →
  1 <= block_restart_interval o →
  match pol with
  | Some (P, name) => FilterLaws P fdom ∧ LdbFilterProps.ready fdom (all.*1) ∧ Forall is_byte name
  | None => True
  end →
  Forall (λ e, valid e.1 ∧ Forall is_byte e.2) all → ascending (ord := ord) all → written f0 = [] →
  ∃ t0 t1 t2, TableBuilder.new pol o f0 = Ok t0 ∧ add_entries address pol t0 all = Ok t1 ∧
    TableBuilder.Finish address pol t1 = Ok (TableBuilder.status t2, t2) ∧
    (TableBuilder.status t2 ≠ Status.OK ∧ refused (TableBuilder.file t2) ∨
     TableBuilder.status t2 = Status.OK ∧ TableBuilder.FileSize t2 = Slice.size (written (TableBuilder.file t2)) ∧
     ∀ g o' (cache : option K), contents g = written (TableBuilder.file t2) → cache_fresh (cached := cached) cache →
     ∃ (opened : Table.Table G K → Prop) t,
       Table.Open address pol o' cache g (TableBuilder.FileSize t2) = Ok (Status.OK, Some t) ∧ opened t ∧
       ∀ ro t, opened t →
         (∀ fuel cs r, (length all < fuel)%nat → Forall (call_target dom) cs → cursor_calls (ord := ord) all None cs = Some r →
            ∃ it, Table.NewIterator ro t = Ok it ∧ run_calls (H := Table.table_iterator address fuel ro) cs it = Ok r) ∧
         (∀ k, dom k → fdom k → ∃ saved t', Table.InternalGet address pol ro k t = Ok (Status.OK, saved, t') ∧ opened t' ∧
            (∀ e, saved = Some e → all !! seek_index (ord := ord) all k = Some e) ∧
            (∀ e, e ∈ all → e.1 = k → saved = Some e)) ∧
         (∀ k k', dom k → dom k' → compare_ k k' <= 0 → ∃ q q',
            Table.ApproximateOffsetOf k t = Ok q ∧ Table.ApproximateOffsetOf k' t = Ok q' ∧
            0 <= q <= q' ∧ q' <= TableBuilder.FileSize t2)).
Proof.
  intros Haddr HC Hvb Hint Hpol Hall Hasc Hf0.
  assert (match pol with Some (P, _) => FilterLaws P fdom ∧ LdbFilterProps.ready fdom (all.*1) | None => True end) as Hpol1
    by (destruct pol as [[P name]|]; [by destruct Hpol as (? & ? & _)|done]).
  assert (match pol with Some (_, name) => Forall is_byte name | None => True end) as Hname
    by (destruct pol as [[P name]|]; [by destruct Hpol as (_ & _ & ?)|done]).
  assert (match pol with Some (P, _) => FilterLaws P fdom | None => True end) as HL
    by (destruct pol as [[P name]|]; [by destruct Hpol as (? & _)|done]).
  clear Hpol.
  destruct (new_ok (valid := valid) (ord := ord) (refused := refused) o Hint pol all fdom Hpol1 f0 Hf0) as (t0 & E0 & Hi0 & _).
  destruct (add_entries_ok address Haddr HC Hvb o Hint pol all Hall Hasc fdom Hpol1 all t0 [] Hi0 eq_refl) as (t1 & E1 & Hi1).
  destruct (table_finish_ok address Haddr HC Hvb o Hint pol all Hall Hasc fdom Hpol1 Hname t1 Hi1) as (t2 & E2 & Ht2).
  exists t0, t1, t2. split; [done|]. split; [done|]. split; [done|].
  destruct Ht2 as [(Hs & Hsz & ds & ks & fbytes & fh & meta & index & Htf)|[Hs Hr]]; [right|by left].
  split; [done|]. split; [done|]. intros g o' cache Eg Hfresh. rewrite <- Eg in Htf, Hsz. rewrite Hsz.
  destruct (Open_ok address Haddr pol all g ds ks fbytes fh meta index Htf Hname o' cache Hfresh) as (t & Eo & Ht).
  exists (table_ready (cached := cached) pol g ds fbytes meta index o'), t. split; [done|]. split; [done|]. clear t Eo Ht.
  intros ro t Ht. split; [|split].
  - intros fuel cs r Hf Hcs Hc. pose proof (blocks_count pol all g ds ks fbytes fh meta index Htf).
    eapply (table_calls address Haddr HC pol all Hall Hasc g ds ks fbytes fh meta index Htf); [exact Ht|lia|done|done].
  - intros k Hk Hfk.
    destruct (InternalGet_ok address Haddr HC pol all Hall Hasc g ds ks fbytes fh meta index Htf fdom HL ro o' t k Ht Hk Hfk)
      as (saved & t' & E & Ht' & Hsv).
    exists saved, t'. split; [done|]. split; [done|].
    by apply (get_answer HC pol all Hasc g ds ks fbytes fh meta index Htf).
  - intros k k' Hk Hk' L. eexists _, _.
    split; [by apply (ApproximateOffsetOf_ok (cached := cached) HC pol all g ds ks fbytes fh meta index Htf o')|].
    split; [by apply (ApproximateOffsetOf_ok (cached := cached) HC pol all g ds ks fbytes fh meta index Htf o')|].
    apply (offsets_grow HC pol all g ds ks fbytes fh meta index Htf k k' L).
Qed.

(** ** A table in memory *)

(** A file in memory that refuses to grow to 4 GiB. *)
#[local] Instance mem_file : WritableFile (bytes * bool) := {|
  Append data f :=
    if f.2 || (2 ^ 32 <=? Slice.size (f.1 ++ data)) then (Status.IOError "full", (f.1, true))
    else (Status.OK, (f.1 ++ data, false));
  Flush f := (Status.OK, f)
|}.

#[local] Instance mem_device : Device (bytes * bool) fst (λ f, f.2 = true).
Proof.
  split.
  - intros data [f full]. cbn. destruct (full || (2 ^ 32 <=? Slice.size (f ++ data))) eqn:E.
    + eexists _, _. split; [done|]. by right.
    + apply orb_false_iff in E as [-> E]. apply Z.leb_gt in E. eexists _, _. split; [done|]. left. done.
  - intros f. eexists _, _. split; [done|]. by left.
Qed.

Definition example_options : Options := mkOptions 20 2 kNoCompression true.
Definition example_named : NamedPolicy := Some (Bloom.policy (Bloom.mkBloom 10 6), [98; 102]).
Definition example_all : entries :=
  [([97; 98], [1; 2; 3]); ([97; 98; 99], [4]); ([97; 99], [5; 6]); ([98], []); ([98; 98; 98], [7]); ([100], [8; 9])].
Definition example_table_calls : list cursor_call :=
  [CallFirst; CallNext; CallNext; CallNext; CallPrev; CallSeek [98; 97]; CallNext; CallNext; CallLast; CallPrev].
Definition example_table_shown : list (option (bytes * bytes)) :=
  [Some ([97; 98], [1; 2; 3]); Some ([97; 98; 99], [4]); Some ([97; 99], [5; 6]); Some ([98], []); Some ([97; 99], [5; 6]);
   Some ([98; 98; 98], [7]); Some ([100], [8; 9]); None; Some ([100], [8; 9]); Some ([98; 98; 98], [7])].
Definition example_build : res (TableBuilder.TableBuilder (bytes * bool)) :=
  let C := Bytewise.BytewiseComparator in
  t ← TableBuilder.new example_named example_options ([], false);
  t ← add_entries (C := C) (λ _, 0) example_named t example_all;
  '(_, t) ← TableBuilder.Finish (comparator := C) (λ _, 0) example_named t; Ok t.

Lemma table_correct_witness :
  ∃ c t2 t it saved t', Cache.NewLRUCache (V := Block.Block) 64 = Ok c ∧ example_build = Ok t2 ∧ length (TableBuilder.file t2).1 = 219%nat ∧
    Table.Open (λ _, 0) example_named example_options (Some c) (TableBuilder.file t2).1 (TableBuilder.FileSize t2) =
      Ok (Status.OK, Some t) ∧
    Table.NewIterator (comparator := Bytewise.BytewiseComparator) (Table.mkRead true true) t = Ok it ∧
    run_calls (H := Table.table_iterator (comparator := Bytewise.BytewiseComparator) (λ _, 0) 7 (Table.mkRead true true))
      example_table_calls it = Ok example_table_shown ∧
    Table.InternalGet (comparator := Bytewise.BytewiseComparator) (λ _, 0) example_named (Table.mkRead true true) [98; 98; 98] t =
      Ok (Status.OK, saved, t') ∧ saved = Some ([98; 98; 98], [7]).
Proof.
  assert (FilterLaws (Bloom.policy (Bloom.mkBloom 10 6)) (λ _, True)) as HL by (by apply (bloom_laws 10)).
  destruct (table_correct (F := bytes * bool) (G := bytes) (K := Cache.ShardedLRUCache (V := Block.Block)) (λ _, 0) Bytewise.BytewiseComparator (λ _, True)
    (Forall is_byte) bytewise_order example_options example_named (λ _, True) example_all ([], false))
    as (t0 & t1 & t2 & E0 & E1 & E2 & Hcase).
  - done.
  - apply bytewise_lawful.
  - done.
  - cbn. lia.
  - split; [done|]. split; [|repeat constructor; unfold is_byte; lia].
    split; [repeat constructor|]. split; vm_compute; reflexivity.
  - repeat constructor; cbn; unfold is_byte; lia.
  - unfold ascending, example_all. repeat constructor; vm_compute; reflexivity.
  - done.
  - assert (example_build = Ok t2) as Eb.
    { unfold example_build. unfold mbind, res_bind. by rewrite E0, E1, E2. }
    assert ((t ← example_build; Ok (TableBuilder.status t, Z.of_nat (length (TableBuilder.file t).1))) = Ok (Status.OK, 219)) as Es
      by (vm_compute; reflexivity).
    rewrite Eb in Es. unfold mbind, res_bind in Es. injection Es as Es El.
    destruct Hcase as [[Hn _]|(_ & Hsz & Hopen)]; [by destruct Hn|].
    destruct (new_cache_fresh 64) as (c & Ec & Hc); [lia|].
    destruct (Hopen (TableBuilder.file t2).1 example_options (Some c) eq_refl) as (opened & t & Eo & Ho & Hall); [exact Hc|].
    destruct (Hall (Table.mkRead true true) t Ho) as (Hit & Hget & _).
    destruct (Hit 7%nat example_table_calls example_table_shown) as (it & En & Er);
      [cbn; lia|repeat constructor|vm_compute; reflexivity|].
    destruct (Hget [98; 98; 98] I I) as (saved & t' & Eg & _ & _ & Hf).
    exists c, t2, t, it, saved, t'. split; [done|]. split; [done|]. split; [lia|]. split; [done|]. split; [done|]. split; [done|].
    split; [done|]. apply Hf; [|done]. repeat (first [apply list_elem_of_here|apply list_elem_of_further]).
Defined.
