(* ===== verification/LdbVersionEdit.v ===== *)
(** LevelDB's version edits ([db/version_edit.h], [db/version_edit.cc]): what changes from
    one version of the database to the next, as the records of the manifest. *)
From S2P Require Import Prelude LdbSkip LdbFormat.

(** [config] in [db/dbformat.h] *)
Module Config.
Definition kNumLevels : Z := 7.
Definition kL0_CompactionTrigger : Z := 4.
Definition kL0_SlowdownWritesTrigger : Z := 8.
Definition kL0_StopWritesTrigger : Z := 12.
Definition kMaxMemCompactLevel : Z := 2.
End Config.

(** [smallest] and [largest] are encoded internal keys. *)
Record FileMetaData := mkFile {
  refs : Z; allowed_seeks : Z; number : Z; file_size : Z; smallest : bytes; largest : bytes
}.

Module VersionEdit.
Import Internal.

Definition kComparator : Z := 1.
Definition kLogNumber : Z := 2.
Definition kNextFileNumber : Z := 3.
Definition kLastSequence : Z := 4.
Definition kCompactPointer : Z := 5.
Definition kDeletedFile : Z := 6.
Definition kNewFile : Z := 7.
Definition kPrevLogNumber : Z := 9.

(** The set of deleted files is the list of its elements in order. *)
Record VersionEdit := mkEdit {
  comparator_ : bytes; log_number_ : Z; prev_log_number_ : Z; next_file_number_ : Z; last_sequence_ : Z;
  has_comparator_ : bool; has_log_number_ : bool; has_prev_log_number_ : bool; has_next_file_number_ : bool; has_last_sequence_ : bool;
  compact_pointers_ : list (Z * bytes); deleted_files_ : list (Z * Z); new_files_ : list (Z * FileMetaData)
}.

(** [Clear] keeps the compaction pointers. *)
Definition Clear (e : VersionEdit) : VersionEdit :=
  mkEdit [] 0 0 0 0 false false false false false (compact_pointers_ e) [] [].
(** [VersionEdit()] *)
Definition new : VersionEdit := Clear (mkEdit [] 0 0 0 0 false false false false false [] [] []).

Definition SetComparatorName (name : bytes) (e : VersionEdit) : VersionEdit :=
  mkEdit name (log_number_ e) (prev_log_number_ e) (next_file_number_ e) (last_sequence_ e)
    true (has_log_number_ e) (has_prev_log_number_ e) (has_next_file_number_ e) (has_last_sequence_ e)
    (compact_pointers_ e) (deleted_files_ e) (new_files_ e).
Definition SetLogNumber (num : Z) (e : VersionEdit) : VersionEdit :=
  mkEdit (comparator_ e) num (prev_log_number_ e) (next_file_number_ e) (last_sequence_ e)
    (has_comparator_ e) true (has_prev_log_number_ e) (has_next_file_number_ e) (has_last_sequence_ e)
    (compact_pointers_ e) (deleted_files_ e) (new_files_ e).
Definition SetPrevLogNumber (num : Z) (e : VersionEdit) : VersionEdit :=
  mkEdit (comparator_ e) (log_number_ e) num (next_file_number_ e) (last_sequence_ e)
    (has_comparator_ e) (has_log_number_ e) true (has_next_file_number_ e) (has_last_sequence_ e)
    (compact_pointers_ e) (deleted_files_ e) (new_files_ e).
Definition SetNextFile (num : Z) (e : VersionEdit) : VersionEdit :=
  mkEdit (comparator_ e) (log_number_ e) (prev_log_number_ e) num (last_sequence_ e)
    (has_comparator_ e) (has_log_number_ e) (has_prev_log_number_ e) true (has_last_sequence_ e)
    (compact_pointers_ e) (deleted_files_ e) (new_files_ e).
Definition SetLastSequence (seq : Z) (e : VersionEdit) : VersionEdit :=
  mkEdit (comparator_ e) (log_number_ e) (prev_log_number_ e) (next_file_number_ e) seq
    (has_comparator_ e) (has_log_number_ e) (has_prev_log_number_ e) (has_next_file_number_ e) true
    (compact_pointers_ e) (deleted_files_ e) (new_files_ e).
Definition set_lists (e : VersionEdit) (c : list (Z * bytes)) (d : list (Z * Z)) (n : list (Z * FileMetaData)) : VersionEdit :=
  mkEdit (comparator_ e) (log_number_ e) (prev_log_number_ e) (next_file_number_ e) (last_sequence_ e)
    (has_comparator_ e) (has_log_number_ e) (has_prev_log_number_ e) (has_next_file_number_ e) (has_last_sequence_ e) c d n.
Definition SetCompactPointer (level : Z) (key : bytes) (e : VersionEdit) : VersionEdit :=
  set_lists e (compact_pointers_ e ++ [(level, key)]) (deleted_files_ e) (new_files_ e).

(** [FileMetaData()], with the fields that [AddFile] sets. *)
Definition new_file (file size : Z) (smallest largest : bytes) : FileMetaData :=
  mkFile 0 (Z.shiftl 1 30) file size smallest largest.
Definition push_file (level : Z) (f : FileMetaData) (e : VersionEdit) : VersionEdit :=
  set_lists e (compact_pointers_ e) (deleted_files_ e) (new_files_ e ++ [(level, f)]).
Definition AddFile (level file size : Z) (smallest largest : bytes) (e : VersionEdit) : VersionEdit :=
  push_file level (new_file file size smallest largest) e.

(** [std::pair]'s order and [std::set]'s insertion *)
Definition pair_less (a b : Z * Z) : bool := (a.1 <? b.1) || (a.1 =? b.1) && (a.2 <? b.2).
Fixpoint set_insert (x : Z * Z) (l : list (Z * Z)) : list (Z * Z) :=
  match l with
  | [] => [x]
  | y :: l' => if pair_less x y then x :: l else if pair_less y x then y :: set_insert x l' else l
  end.
Definition DeleteFile (level file : Z) (e : VersionEdit) : VersionEdit :=
  set_lists e (compact_pointers_ e) (set_insert (level, file) (deleted_files_ e)) (new_files_ e).

(** ** Encoding *)

Definition put_number (has : bool) (tag num : Z) (dst : bytes) : res bytes :=
  if has then Coding.PutVarint64 (Coding.PutVarint32 dst tag) num else Ok dst.

Fixpoint put_pointers (l : list (Z * bytes)) (dst : bytes) : res bytes :=
  match l with
  | [] => Ok dst
  | (level, key) :: l =>
      k ← Encode key;
      put_pointers l (Coding.PutLengthPrefixedSlice (Coding.PutVarint32 (Coding.PutVarint32 dst kCompactPointer) (u32 level)) k)
  end.
Fixpoint put_deleted (l : list (Z * Z)) (dst : bytes) : res bytes :=
  match l with
  | [] => Ok dst
  | (level, file) :: l =>
      dst ← Coding.PutVarint64 (Coding.PutVarint32 (Coding.PutVarint32 dst kDeletedFile) (u32 level)) file;
      put_deleted l dst
  end.
Fixpoint put_files (l : list (Z * FileMetaData)) (dst : bytes) : res bytes :=
  match l with
  | [] => Ok dst
  | (level, f) :: l =>
      dst ← Coding.PutVarint64 (Coding.PutVarint32 (Coding.PutVarint32 dst kNewFile) (u32 level)) (number f);
      dst ← Coding.PutVarint64 dst (file_size f);
      s ← Encode (smallest f); g ← Encode (largest f);
      put_files l (Coding.PutLengthPrefixedSlice (Coding.PutLengthPrefixedSlice dst s) g)
  end.

Definition EncodeTo (e : VersionEdit) (dst : bytes) : res bytes :=
  let dst := if has_comparator_ e then Coding.PutLengthPrefixedSlice (Coding.PutVarint32 dst kComparator) (comparator_ e) else dst in
  dst ← put_number (has_log_number_ e) kLogNumber (log_number_ e) dst;
  dst ← put_number (has_prev_log_number_ e) kPrevLogNumber (prev_log_number_ e) dst;
  dst ← put_number (has_next_file_number_ e) kNextFileNumber (next_file_number_ e) dst;
  dst ← put_number (has_last_sequence_ e) kLastSequence (last_sequence_ e) dst;
  dst ← put_pointers (compact_pointers_ e) dst;
  dst ← put_deleted (deleted_files_ e) dst;
  put_files (new_files_ e) dst.

(** ** Decoding *)

Definition GetInternalKey (input : bytes) : res (option (bytes * bytes)) :=
  r ← Coding.GetLengthPrefixedSlice input;
  Ok (match r with Some (str, input) => Some (DecodeFrom str, input) | None => None end).
Definition GetLevel (input : bytes) : res (option (Z * bytes)) :=
  r ← Coding.GetVarint32 input;
  Ok (match r with Some (v, input) => if v <? Config.kNumLevels then Some (v, input) else None | None => None end).

(** What a case leaves: the message, the rest of the input and the edit. *)
Definition Case : Type := option string * bytes * VersionEdit.
Definition read {A} (get : bytes → res (option (A * bytes))) (msg : string) (e : VersionEdit) (input : bytes) (k : A → bytes → res Case) : res Case :=
  r ← get input;
  match r with Some (v, input) => k v input | None => Ok (Some msg, input, e) end.

Definition decode_case (tag : Z) (input : bytes) (e : VersionEdit) : res Case :=
  if tag =? kComparator then
    read Coding.GetLengthPrefixedSlice "comparator name" e input (λ str input, Ok (None, input, SetComparatorName str e))
  else if tag =? kLogNumber then
    read Coding.GetVarint64 "log number" e input (λ n input, Ok (None, input, SetLogNumber n e))
  else if tag =? kPrevLogNumber then
    read Coding.GetVarint64 "previous log number" e input (λ n input, Ok (None, input, SetPrevLogNumber n e))
  else if tag =? kNextFileNumber then
    read Coding.GetVarint64 "next file number" e input (λ n input, Ok (None, input, SetNextFile n e))
  else if tag =? kLastSequence then
    read Coding.GetVarint64 "last sequence number" e input (λ n input, Ok (None, input, SetLastSequence n e))
  else if tag =? kCompactPointer then
    read GetLevel "compaction pointer" e input (λ level input,
    read GetInternalKey "compaction pointer" e input (λ key input, Ok (None, input, SetCompactPointer level key e)))
  else if tag =? kDeletedFile then
    read GetLevel "deleted file" e input (λ level input,
    read Coding.GetVarint64 "deleted file" e input (λ number input, Ok (None, input, DeleteFile level number e)))
  else if tag =? kNewFile then
    read GetLevel "new-file entry" e input (λ level input,
    read Coding.GetVarint64 "new-file entry" e input (λ number input,
    read Coding.GetVarint64 "new-file entry" e input (λ size input,
    read GetInternalKey "new-file entry" e input (λ smallest input,
    read GetInternalKey "new-file entry" e input (λ largest input, Ok (None, input, push_file level (new_file number size smallest largest) e))))))
  else Ok (Some "unknown tag", input, e).

Fixpoint decode_loop (fuel : nat) (input : bytes) (e : VersionEdit) : res Case :=
  match fuel with
  | O => NoFuel
  | S fuel' =>
      r ← Coding.GetVarint32 input;
      match r with
      | None => Ok (None, input, e)
      | Some (tag, input) =>
          '(msg, input, e) ← decode_case tag input e;
          match msg with
          | Some _ => Ok (msg, input, e)
          | None => decode_loop fuel' input e
          end
      end
  end.

(** Each turn takes a byte at least. *)
Definition DecodeFrom (src : bytes) (e : VersionEdit) : res (Status.Status * VersionEdit) :=
  '(msg, input, e) ← decode_loop (S (length src)) src (Clear e);
  let msg := match msg with None => if negb (Slice.empty input) then Some "invalid tag" else None | _ => msg end in
  Ok (match msg with Some m => Status.Corruption ("VersionEdit: " ++ m) | None => Status.OK end, e).
End VersionEdit.
