(* ===== verification/LdbVersionEditProps.v ===== *)
(** Version edits come back as they were written, and reading the record of a manifest
    with any contents ends. *)
From Stdlib Require Import Sorting.Sorted.
From stdpp Require Import sorting.
From S2P Require Import Prelude PbVarint LdbSkip LdbFormat LdbCodingProps LdbBlockSafe LdbVersionEdit.
Import VersionEdit.

(** * Records as lists of items *)

Inductive item :=
  | IComparator (name : bytes) | ILogNumber (n : Z) | IPrevLogNumber (n : Z) | INextFile (n : Z) | ILastSequence (n : Z)
  | IPointer (level : Z) (key : bytes) | IDeleted (level file : Z) | INewFile (level file size : Z) (s g : bytes).

Definition item_bytes (i : item) : bytes :=
  match i with
  | IComparator name => varint kComparator ++ prefixed name
  | ILogNumber n => varint kLogNumber ++ varint n
  | IPrevLogNumber n => varint kPrevLogNumber ++ varint n
  | INextFile n => varint kNextFileNumber ++ varint n
  | ILastSequence n => varint kLastSequence ++ varint n
  | IPointer l k => varint kCompactPointer ++ varint l ++ prefixed k
  | IDeleted l f => varint kDeletedFile ++ varint l ++ varint f
  | INewFile l f z s g => varint kNewFile ++ varint l ++ varint f ++ varint z ++ prefixed s ++ prefixed g
  end.

Definition apply_item (e : VersionEdit) (i : item) : VersionEdit :=
  match i with
  | IComparator name => SetComparatorName name e
  | ILogNumber n => SetLogNumber n e
  | IPrevLogNumber n => SetPrevLogNumber n e
  | INextFile n => SetNextFile n e
  | ILastSequence n => SetLastSequence n e
  | IPointer l k => SetCompactPointer l k e
  | IDeleted l f => DeleteFile l f e
  | INewFile l f z s g => AddFile l f z s g e
  end.

Definition level_ok (l : Z) : Prop := 0 <= l < Config.kNumLevels.
Definition number_ok (n : Z) : Prop := 0 <= n < 2 ^ 64.
Definition string_ok (k : bytes) : Prop := Slice.size k < 2 ^ 32 ∧ Forall is_byte k.

Definition item_ok (i : item) : Prop :=
  match i with
  | IComparator name => string_ok name
  | ILogNumber n | IPrevLogNumber n | INextFile n | ILastSequence n => number_ok n
  | IPointer l k => level_ok l ∧ string_ok k
  | IDeleted l f => level_ok l ∧ number_ok f
  | INewFile l f z s g => level_ok l ∧ number_ok f ∧ number_ok z ∧ string_ok s ∧ string_ok g
  end.

(** ** Decoding items *)

Lemma varint_bytes v rest : 0 <= v < 2 ^ 64 → Forall is_byte rest → Forall is_byte (varint v ++ rest).
Proof. intros Hv Hr. apply List.Forall_app. split; [|done]. apply leb128_bytes. lia. Qed.
Lemma prefixed_key_bytes k rest : string_ok k → Forall is_byte rest → Forall is_byte (prefixed k ++ rest).
Proof.
  intros [Hs Hk] Hr. unfold prefixed. rewrite <- app_assoc. apply varint_bytes; [unfold Slice.size in *; lia|]. by apply List.Forall_app.
Qed.

Lemma get32 v rest : 0 <= v < 2 ^ 32 → Forall is_byte rest → Coding.GetVarint32 (varint v ++ rest) = Ok (Some (v, rest)).
Proof.
  intros Hv Hr. rewrite GetVarint32_ok by (apply varint_bytes; [lia|done]). by rewrite parse_varint_varint by (lia || by apply varint_length_32).
Qed.
Lemma get64 v rest : number_ok v → Forall is_byte rest → Coding.GetVarint64 (varint v ++ rest) = Ok (Some (v, rest)).
Proof.
  intros Hv Hr. rewrite GetVarint64_ok by by apply varint_bytes. by rewrite parse_varint_varint by (done || apply varint_length).
Qed.
Lemma get_slice k rest : string_ok k → Forall is_byte rest → Coding.GetLengthPrefixedSlice (prefixed k ++ rest) = Ok (Some (k, rest)).
Proof. intros Hk Hr. rewrite GetLengthPrefixedSlice_ok by by apply prefixed_key_bytes. by rewrite parse_prefixed_app by apply Hk. Qed.
Lemma get_level l rest : level_ok l → Forall is_byte rest → GetLevel (varint l ++ rest) = Ok (Some (l, rest)).
Proof.
  unfold level_ok, Config.kNumLevels. intros Hl Hr. unfold GetLevel. rewrite get32 by (done || lia). unfold mbind, res_bind, Config.kNumLevels.
  by rewrite (proj2 (Z.ltb_lt _ _)) by lia.
Qed.
Lemma get_key k rest : string_ok k → Forall is_byte rest → GetInternalKey (prefixed k ++ rest) = Ok (Some (k, rest)).
Proof. intros Hk Hr. unfold GetInternalKey. by rewrite get_slice. Qed.

Lemma level_range l : level_ok l → 0 <= l < 2 ^ 64.
Proof. unfold level_ok, Config.kNumLevels. lia. Qed.

Create HintDb edits.
Lemma number_bytes n rest : number_ok n → Forall is_byte rest → Forall is_byte (varint n ++ rest).
Proof. apply varint_bytes. Qed.
Lemma level_bytes l rest : level_ok l → Forall is_byte rest → Forall is_byte (varint l ++ rest).
Proof. intros Hl. by apply varint_bytes, level_range. Qed.
#[local] Hint Resolve number_bytes prefixed_key_bytes level_bytes : edits.

(** The tag of an item. *)
Definition item_tag (i : item) : Z :=
  match i with
  | IComparator _ => kComparator | ILogNumber _ => kLogNumber | IPrevLogNumber _ => kPrevLogNumber | INextFile _ => kNextFileNumber
  | ILastSequence _ => kLastSequence | IPointer _ _ => kCompactPointer | IDeleted _ _ => kDeletedFile | INewFile _ _ _ _ _ => kNewFile
  end.
Definition item_body (i : item) : bytes :=
  match i with
  | IComparator name => prefixed name
  | ILogNumber n | IPrevLogNumber n | INextFile n | ILastSequence n => varint n
  | IPointer l k => varint l ++ prefixed k
  | IDeleted l f => varint l ++ varint f
  | INewFile l f z s g => varint l ++ varint f ++ varint z ++ prefixed s ++ prefixed g
  end.

Lemma item_tag_body i : item_bytes i = varint (item_tag i) ++ item_body i.
Proof. by destruct i. Qed.
Lemma tag_range i : 0 <= item_tag i < 10.
Proof. destruct i; cbv; done. Qed.

Lemma item_body_bytes i rest : item_ok i → Forall is_byte rest → Forall is_byte (item_body i ++ rest).
Proof.
  destruct i; cbn [item_ok item_body]; intros Hi Hr; rewrite <- ?app_assoc; [auto with edits..| | |].
  - destruct Hi as [H1 H2]. auto with edits.
  - destruct Hi as [H1 H2]. auto with edits.
  - destruct Hi as (H1 & H2 & H3 & H4 & H5). auto 10 with edits.
Qed.
Lemma item_bytes_bytes i rest : item_ok i → Forall is_byte rest → Forall is_byte (item_bytes i ++ rest).
Proof.
  intros Hi Hr. rewrite item_tag_body, <- app_assoc. apply varint_bytes; [pose proof (tag_range i); lia|]. by apply item_body_bytes.
Qed.

Lemma read_ok {A} get msg e input k (v : A) rest : get input = Ok (Some (v, rest)) → read get msg e input k = k v rest.
Proof. intros E. unfold read. by rewrite E. Qed.

Lemma decode_case_ok i e rest : item_ok i → Forall is_byte rest → decode_case (item_tag i) (item_body i ++ rest) e = Ok (None, rest, apply_item e i).
Proof.
  destruct i; cbn [item_ok item_body item_tag]; intros Hi Hr; unfold decode_case; cbn [Z.eqb Pos.eqb kComparator kLogNumber kPrevLogNumber kNextFileNumber kLastSequence kCompactPointer kDeletedFile kNewFile];
    rewrite <- ?app_assoc.
  - by erewrite read_ok by by apply get_slice.
  - by erewrite read_ok by by apply get64.
  - by erewrite read_ok by by apply get64.
  - by erewrite read_ok by by apply get64.
  - by erewrite read_ok by by apply get64.
  - destruct Hi as [H1 H2]. erewrite read_ok by (apply get_level; auto with edits). by erewrite read_ok by by apply get_key.
  - destruct Hi as [H1 H2]. erewrite read_ok by (apply get_level; auto with edits). by erewrite read_ok by by apply get64.
  - destruct Hi as (H1 & H2 & H3 & H4 & H5). erewrite read_ok by (apply get_level; auto 10 with edits). erewrite read_ok by (apply get64; auto 10 with edits).
    erewrite read_ok by (apply get64; auto 10 with edits). erewrite read_ok by (apply get_key; auto with edits). by erewrite read_ok by by apply get_key.
Qed.

Definition items_bytes (its : list item) : bytes := concat (item_bytes <$> its).

Lemma items_are_bytes its : Forall item_ok its → Forall is_byte (items_bytes its).
Proof. induction 1 as [|i its Hi _ IH]; [constructor|]. cbn. by apply item_bytes_bytes. Qed.

Lemma item_length i : (1 <= length (item_bytes i))%nat.
Proof. rewrite item_tag_body, length_app. pose proof (varint_length (item_tag i)). lia. Qed.

Lemma edit_loop_ok its : ∀ fuel e, Forall item_ok its → (length (items_bytes its) < fuel)%nat →
  decode_loop fuel (items_bytes its) e = Ok (None, [], foldl apply_item e its).
Proof.
  induction its as [|i its IH]; intros [|fuel] e His Hf; cbn in Hf; try lia; [done|].
  apply list.Forall_cons in His as [Hi His]. pose proof (items_are_bytes its His) as Hb. cbn [decode_loop items_bytes fmap list_fmap concat].
  fold (items_bytes its). rewrite item_tag_body, <- app_assoc. pose proof (tag_range i).
  rewrite get32 by (lia || by apply item_body_bytes). unfold mbind, res_bind. rewrite decode_case_ok by done.
  apply IH; [done|]. rewrite length_app in Hf. pose proof (item_length i). unfold items_bytes in *. lia.
Qed.

(** ** Encoding edits *)

Definition opt {A} (b : bool) (x : A) : list A := if b then [x] else [].

Definition items (e : VersionEdit) : list item :=
  opt (has_comparator_ e) (IComparator (comparator_ e)) ++ opt (has_log_number_ e) (ILogNumber (log_number_ e)) ++
  opt (has_prev_log_number_ e) (IPrevLogNumber (prev_log_number_ e)) ++ opt (has_next_file_number_ e) (INextFile (next_file_number_ e)) ++
  opt (has_last_sequence_ e) (ILastSequence (last_sequence_ e)) ++
  ((λ p, IPointer p.1 p.2) <$> compact_pointers_ e) ++ ((λ p, IDeleted p.1 p.2) <$> deleted_files_ e) ++
  ((λ p, INewFile p.1 (number p.2) (file_size p.2) (smallest p.2) (largest p.2)) <$> new_files_ e).

(** Set fields fit their types, keys are not empty, the set of deleted files is in order,
    and nothing else has been changed. *)
Record well_formed (e : VersionEdit) : Prop := {
  wf_items : Forall item_ok (items e);
  wf_unset : (has_comparator_ e = false → comparator_ e = []) ∧ (has_log_number_ e = false → log_number_ e = 0) ∧
    (has_prev_log_number_ e = false → prev_log_number_ e = 0) ∧ (has_next_file_number_ e = false → next_file_number_ e = 0) ∧
    (has_last_sequence_ e = false → last_sequence_ e = 0);
  wf_keys : Forall (λ p, p.2 ≠ []) (compact_pointers_ e) ∧ Forall (λ p, smallest p.2 ≠ [] ∧ largest p.2 ≠ []) (new_files_ e);
  wf_deleted : StronglySorted (λ a b, pair_less a b = true) (deleted_files_ e);
  wf_new : Forall (λ p, refs p.2 = 0 ∧ allowed_seeks p.2 = Z.shiftl 1 30) (new_files_ e)
}.

Lemma items_app l1 l2 : items_bytes (l1 ++ l2) = items_bytes l1 ++ items_bytes l2.
Proof. unfold items_bytes. by rewrite fmap_app, concat_app. Qed.

Lemma put32 v dst : 0 <= v < 2 ^ 32 → Coding.PutVarint32 dst v = dst ++ varint v.
Proof. intros Hv. unfold Coding.PutVarint32. by rewrite EncodeVarint32_varint. Qed.
Lemma put64 v dst : number_ok v → Coding.PutVarint64 dst v = Ok (dst ++ varint v).
Proof. intros Hv. unfold Coding.PutVarint64. by rewrite EncodeVarint64_varint. Qed.
Lemma put_level l dst : level_ok l → Coding.PutVarint32 dst (u32 l) = dst ++ varint l.
Proof. unfold level_ok, Config.kNumLevels. intros Hl. rewrite u32_small by lia. apply put32. lia. Qed.
Lemma put_slice k dst : string_ok k → Coding.PutLengthPrefixedSlice dst k = dst ++ prefixed k.
Proof. intros [Hk _]. by apply PutLengthPrefixedSlice_ok. Qed.
Lemma Encode_key k : k ≠ [] → Internal.Encode k = Ok k.
Proof. unfold Internal.Encode. by destruct k. Qed.

Lemma put_number_ok has tag n dst : 0 <= tag < 2 ^ 32 → (has = true → number_ok n) →
  put_number has tag n dst = Ok (dst ++ if has then varint tag ++ varint n else []).
Proof.
  intros Ht Hn. unfold put_number. destruct has; [|by rewrite app_nil_r]. rewrite put32 by done. rewrite put64 by by apply Hn. by rewrite app_assoc.
Qed.

Lemma put_pointers_ok l : ∀ dst, Forall item_ok ((λ p, IPointer p.1 p.2) <$> l) → Forall (λ p, p.2 ≠ []) l →
  put_pointers l dst = Ok (dst ++ items_bytes ((λ p, IPointer p.1 p.2) <$> l)).
Proof.
  induction l as [|[l k] r IH]; intros dst Hi Hk; cbn in *; [by rewrite app_nil_r|].
  apply list.Forall_cons in Hi as [[H1 H2] Hi]. apply list.Forall_cons in Hk as [Hk Hr]. unfold mbind, res_bind. rewrite Encode_key by done.
  rewrite put_level, put32, put_slice, IH by done. unfold items_bytes. cbn. by rewrite <- !app_assoc.
Qed.

Lemma put_deleted_ok l : ∀ dst, Forall item_ok ((λ p, IDeleted p.1 p.2) <$> l) → put_deleted l dst = Ok (dst ++ items_bytes ((λ p, IDeleted p.1 p.2) <$> l)).
Proof.
  induction l as [|[l f] r IH]; intros dst Hi; cbn [put_deleted fmap list_fmap fst snd] in *; [by rewrite app_nil_r|].
  apply list.Forall_cons in Hi as [[H1 H2] Hi]. rewrite put_level, put32, put64 by done. unfold mbind, res_bind. rewrite IH by done.
  unfold items_bytes. cbn. by rewrite <- !app_assoc.
Qed.

Lemma put_files_ok l : ∀ dst, Forall item_ok ((λ p, INewFile p.1 (number p.2) (file_size p.2) (smallest p.2) (largest p.2)) <$> l) →
  Forall (λ p, smallest p.2 ≠ [] ∧ largest p.2 ≠ []) l →
  put_files l dst = Ok (dst ++ items_bytes ((λ p, INewFile p.1 (number p.2) (file_size p.2) (smallest p.2) (largest p.2)) <$> l)).
Proof.
  induction l as [|[l f] r IH]; intros dst Hi Hk; cbn [put_files fmap list_fmap fst snd] in *; [by rewrite app_nil_r|].
  apply list.Forall_cons in Hi as [(H1 & H2 & H3 & H4 & H5) Hi]. apply list.Forall_cons in Hk as [[K1 K2] Hk]. cbn [fst snd] in *.
  rewrite put_level, put32, put64 by done. unfold mbind, res_bind. rewrite put64, !Encode_key by done. rewrite !put_slice, IH by done.
  unfold items_bytes. cbn. by rewrite <- !app_assoc.
Qed.

Lemma opt_ok {b : bool} {i : item} {l} : Forall item_ok (opt b i ++ l) → (b = true → item_ok i) ∧ Forall item_ok l.
Proof. intros [H1 H2]%List.Forall_app. split; [|done]. intros ->. by apply list.Forall_cons in H1 as [H1 _]. Qed.

Lemma opt_bytes b i : items_bytes (opt b i) = if b then item_bytes i else [].
Proof. destruct b; [apply app_nil_r|done]. Qed.

Lemma EncodeTo_items e dst : well_formed e → EncodeTo e dst = Ok (dst ++ items_bytes (items e)).
Proof.
  intros [Hi _ [Hk1 Hk2] _ _]. unfold items in *. rewrite !items_app, !opt_bytes. unfold EncodeTo.
  apply opt_ok in Hi as [H1 Hi]. apply opt_ok in Hi as [H2 Hi]. apply opt_ok in Hi as [H3 Hi]. apply opt_ok in Hi as [H4 Hi]. apply opt_ok in Hi as [H5 Hi].
  apply List.Forall_app in Hi as [H6 [H7 H8]%List.Forall_app].
  set (d1 := if has_comparator_ e then _ else dst).
  assert (d1 = dst ++ if has_comparator_ e then item_bytes (IComparator (comparator_ e)) else []) as ->.
  { unfold d1. revert H1. destruct (has_comparator_ e); intros H1; [|by rewrite app_nil_r]. rewrite put32, put_slice by (done || by apply H1). cbn. by rewrite <- app_assoc. }
  rewrite put_number_ok by done. unfold mbind at 1, res_bind at 1. rewrite put_number_ok by done. unfold mbind at 1, res_bind at 1.
  rewrite put_number_ok by done. unfold mbind at 1, res_bind at 1. rewrite put_number_ok by done. unfold mbind at 1, res_bind at 1.
  rewrite put_pointers_ok by done. unfold mbind at 1, res_bind at 1. rewrite put_deleted_ok by done. unfold mbind, res_bind.
  rewrite put_files_ok by done. by rewrite <- !app_assoc.
Qed.

(** ** Decoding them *)

Lemma pair_less_asym a b : pair_less a b = true → pair_less b a = false.
Proof.
  unfold pair_less. destruct (Z.ltb_spec a.1 b.1), (Z.ltb_spec b.1 a.1), (Z.eqb_spec a.1 b.1), (Z.eqb_spec b.1 a.1), (Z.ltb_spec a.2 b.2), (Z.ltb_spec b.2 a.2);
    cbn; intros; (done || lia).
Qed.

Lemma set_insert_last x l : Forall (λ y, pair_less y x = true) l → set_insert x l = l ++ [x].
Proof.
  induction 1 as [|y l Hy _ IH]; [done|]. cbn. by rewrite (pair_less_asym _ _ Hy), Hy, IH.
Qed.

Lemma fold_pointers l : ∀ e, foldl apply_item e ((λ p, IPointer p.1 p.2) <$> l) = set_lists e (compact_pointers_ e ++ l) (deleted_files_ e) (new_files_ e).
Proof.
  induction l as [|[l k] r IH]; intros e; cbn; [rewrite app_nil_r; by destruct e|]. rewrite IH. cbn. by rewrite <- app_assoc.
Qed.
Lemma fold_deleted l : ∀ e, StronglySorted (λ a b, pair_less a b = true) (deleted_files_ e ++ l) →
  foldl apply_item e ((λ p, IDeleted p.1 p.2) <$> l) = set_lists e (compact_pointers_ e) (deleted_files_ e ++ l) (new_files_ e).
Proof.
  induction l as [|[l f] r IH]; intros e Hs; cbn; [rewrite app_nil_r; by destruct e|].
  assert (set_insert (l, f) (deleted_files_ e) = deleted_files_ e ++ [(l, f)]) as E.
  { apply set_insert_last. apply list.Forall_forall. intros y Hy. clear IH. induction (deleted_files_ e) as [|z d IHd]; [by apply not_elem_of_nil in Hy|].
    apply StronglySorted_inv in Hs as [Hs Hz]. apply elem_of_cons in Hy as [->|Hy]; [|by apply IHd].
    rewrite list.Forall_forall in Hz. apply Hz. apply elem_of_app. right. by left. }
  unfold DeleteFile. rewrite E, IH; cbn; rewrite <- app_assoc; done.
Qed.
Lemma fold_files l : ∀ e, Forall (λ p, refs p.2 = 0 ∧ allowed_seeks p.2 = Z.shiftl 1 30) l →
  foldl apply_item e ((λ p, INewFile p.1 (number p.2) (file_size p.2) (smallest p.2) (largest p.2)) <$> l) =
  set_lists e (compact_pointers_ e) (deleted_files_ e) (new_files_ e ++ l).
Proof.
  induction l as [|[l f] r IH]; intros e Hf; cbn; [rewrite app_nil_r; by destruct e|]. apply list.Forall_cons in Hf as [[H1 H2] Hf].
  rewrite IH by done. cbn. rewrite <- app_assoc. cbn in *. destruct f as [rf al n z s g]. cbn in *. by subst.
Qed.

Lemma foldl_opt e b i : foldl apply_item e (opt b i) = if b then apply_item e i else e.
Proof. by destruct b. Qed.

Definition with_pointers (l : list (Z * bytes)) (e : VersionEdit) : VersionEdit := set_lists e (l ++ compact_pointers_ e) (deleted_files_ e) (new_files_ e).

Lemma items_back e e0 : well_formed e → foldl apply_item (Clear e0) (items e) = with_pointers (compact_pointers_ e0) e.
Proof.
  intros [_ (U1 & U2 & U3 & U4 & U5) _ Hd Hn]. unfold items, with_pointers. rewrite !foldl_app, !foldl_opt. destruct e as [c l p n q hc hl hp hn hq cp df nf]. cbn in *.
  rewrite fold_pointers, fold_deleted, fold_files; cbn; [|done|].
  - destruct hc, hl, hp, hn, hq; cbn; unfold set_lists; cbn; rewrite ?U1, ?U2, ?U3, ?U4, ?U5 by done; done.
  - destruct hc, hl, hp, hn, hq; done.
Qed.

(** ** Any input *)

Definition reads {A} (get : bytes → res (option (A * bytes))) (P : A → Prop) : Prop := ∀ p, Forall is_byte p → ∃ r, get p = Ok r ∧
  match r with None => True | Some (v, rest) => P v ∧ Forall is_byte rest ∧ (length rest < length p)%nat end.

Lemma parse_varint_reads n w p : 0 < w → Forall is_byte p →
  match parse_varint n w p with None => True | Some (v, rest) => 0 <= v < 2 ^ w ∧ Forall is_byte rest ∧ (length rest < length p)%nat end.
Proof.
  intros Hw Hp. unfold parse_varint. destruct (split_varint n p) as [[bs rest]|] eqn:E; [|done].
  apply split_varint_bytes in E as [-> Hl]. apply List.Forall_app in Hp as [_ Hr]. rewrite length_app.
  split; [apply Z.mod_pos_bound; lia|]. split; [done|lia].
Qed.

Lemma reads32 : reads Coding.GetVarint32 (λ v, 0 <= v < 2 ^ 32).
Proof. intros p Hp. eexists. split; [by apply GetVarint32_ok|]. by apply parse_varint_reads. Qed.
Lemma reads64 : reads Coding.GetVarint64 number_ok.
Proof. intros p Hp. eexists. split; [by apply GetVarint64_ok|]. by apply parse_varint_reads. Qed.
Lemma reads_slice : reads Coding.GetLengthPrefixedSlice string_ok.
Proof.
  intros p Hp. eexists. split; [by apply GetLengthPrefixedSlice_ok|]. destruct (parse_prefixed p) as [[v rest]|] eqn:E; [|done].
  destruct (parse_prefixed_shorter _ _ _ E) as [L (hd & ->)]. pose proof Hp as Hp0. rewrite !List.Forall_app in Hp. destruct Hp as (_ & Hv & Hr). split; [|done].
  split; [|done]. unfold parse_prefixed in E. pose proof (parse_varint_reads 5 32 (hd ++ v ++ rest) ltac:(lia)) as H.
  destruct (parse_varint 5 32 (hd ++ v ++ rest)) as [[len r]|]; [|done]. destruct H as (H & _); [done|].
  destruct (len <=? Slice.size r); [|done]. injection E as <- <-. unfold Slice.size. rewrite length_take. lia.
Qed.
Lemma reads_level : reads GetLevel level_ok.
Proof.
  intros p Hp. unfold GetLevel. destruct (reads32 p Hp) as (r & -> & Hr). unfold mbind, res_bind. eexists. split; [done|].
  destruct r as [[v rest]|]; [|done]. destruct (Z.ltb_spec v Config.kNumLevels); [|done]. unfold level_ok. destruct Hr as (? & ? & ?). split; [lia|done].
Qed.
Lemma reads_key : reads GetInternalKey string_ok.
Proof.
  intros p Hp. unfold GetInternalKey. destruct (reads_slice p Hp) as (r & -> & Hr). unfold mbind, res_bind. eexists. split; [done|].
  by destruct r as [[v rest]|].
Qed.

Definition case_ok (e : VersionEdit) (input : bytes) (r : res Case) : Prop := ∃ msg input' e', r = Ok (msg, input', e') ∧
  Forall is_byte input' ∧ (length input' <= length input)%nat ∧
  match msg with None => ∃ i, item_ok i ∧ e' = apply_item e i | Some _ => e' = e end.

Lemma read_case_any {A} get (P : A → Prop) msg e input k : reads get P → Forall is_byte input →
  (∀ v rest, P v → Forall is_byte rest → case_ok e rest (k v rest)) → case_ok e input (read get msg e input k).
Proof.
  intros Hg Hi Hk. unfold read. destruct (Hg input Hi) as (r & -> & Hr). unfold mbind, res_bind. destruct r as [[v rest]|].
  - destruct Hr as (Hv & Hr & L). destruct (Hk v rest Hv Hr) as (m & i' & e' & E & Hb & Hl & Hm). exists m, i', e'.
    split; [done|]. split; [done|]. split; [lia|done].
  - by exists (Some msg), input, e.
Qed.

Lemma case_done e input i : item_ok i → Forall is_byte input → case_ok e input (Ok (None, input, apply_item e i)).
Proof. intros Hi Hb. exists None, input, (apply_item e i). split; [done|]. split; [done|]. split; [done|]. by exists i. Qed.

Lemma decode_case_any tag input e : Forall is_byte input → case_ok e input (decode_case tag input e).
Proof.
  intros Hb. unfold decode_case.
  destruct (tag =? kComparator). { apply (read_case_any _ string_ok); [apply reads_slice|done|]. intros v r Hv Hr. by apply (case_done e r (IComparator v)). }
  destruct (tag =? kLogNumber). { apply (read_case_any _ number_ok); [apply reads64|done|]. intros v r Hv Hr. by apply (case_done e r (ILogNumber v)). }
  destruct (tag =? kPrevLogNumber). { apply (read_case_any _ number_ok); [apply reads64|done|]. intros v r Hv Hr. by apply (case_done e r (IPrevLogNumber v)). }
  destruct (tag =? kNextFileNumber). { apply (read_case_any _ number_ok); [apply reads64|done|]. intros v r Hv Hr. by apply (case_done e r (INextFile v)). }
  destruct (tag =? kLastSequence). { apply (read_case_any _ number_ok); [apply reads64|done|]. intros v r Hv Hr. by apply (case_done e r (ILastSequence v)). }
  destruct (tag =? kCompactPointer).
  { apply (read_case_any _ level_ok); [apply reads_level|done|]. intros l r Hl Hr. apply (read_case_any _ string_ok); [apply reads_key|done|].
    intros k r' Hk Hr'. by apply (case_done e r' (IPointer l k)). }
  destruct (tag =? kDeletedFile).
  { apply (read_case_any _ level_ok); [apply reads_level|done|]. intros l r Hl Hr. apply (read_case_any _ number_ok); [apply reads64|done|].
    intros f r' Hf Hr'. by apply (case_done e r' (IDeleted l f)). }
  destruct (tag =? kNewFile); [|by exists (Some "unknown tag"), input, e].
  apply (read_case_any _ level_ok); [apply reads_level|done|]. intros l r Hl Hr. apply (read_case_any _ number_ok); [apply reads64|done|].
  intros f r1 Hf H1. apply (read_case_any _ number_ok); [apply reads64|done|]. intros z r2 Hz H2. apply (read_case_any _ string_ok); [apply reads_key|done|].
  intros s r3 Hs H3. apply (read_case_any _ string_ok); [apply reads_key|done|]. intros g r4 Hg H4. by apply (case_done e r4 (INewFile l f z s g)).
Qed.

Lemma decode_loop_any : ∀ fuel input e, Forall is_byte input → (length input < fuel)%nat →
  ∃ msg input' its, decode_loop fuel input e = Ok (msg, input', foldl apply_item e its) ∧ Forall item_ok its.
Proof.
  induction fuel as [|fuel IH]; intros input e Hb Hf; [lia|]. cbn [decode_loop]. destruct (reads32 input Hb) as (r & -> & Hr).
  unfold mbind, res_bind. destruct r as [[tag rest]|]; [|by exists None, input, []]. destruct Hr as (_ & Hr & L).
  destruct (decode_case_any tag rest e Hr) as (msg & i' & e' & -> & Hb' & Hl & Hm). destruct msg as [m|].
  - subst e'. by exists (Some m), i', [].
  - destruct Hm as (i & Hi & ->). destruct (IH i' (apply_item e i) Hb') as (msg & i'' & its & E & Hits); [lia|].
    exists msg, i'', (i :: its). split; [done|]. by constructor.
Qed.

(** Levels are indices, and numbers fit. *)
Definition edit_ok (e : VersionEdit) : Prop :=
  Forall (λ p, level_ok p.1) (compact_pointers_ e) ∧ Forall (λ p, level_ok p.1 ∧ number_ok p.2) (deleted_files_ e) ∧
  Forall (λ p, level_ok p.1 ∧ number_ok (number p.2) ∧ number_ok (file_size p.2)) (new_files_ e).

Lemma set_insert_all (P : Z * Z → Prop) x l : P x → Forall P l → Forall P (set_insert x l).
Proof.
  intros Hx. induction 1 as [|y l Hy Hl IH]; cbn; [by constructor|]. destruct (pair_less x y); [by repeat constructor|].
  destruct (pair_less y x); by constructor.
Qed.

Lemma apply_item_ok e i : edit_ok e → item_ok i → edit_ok (apply_item e i).
Proof.
  intros (H1 & H2 & H3) Hi. destruct i; cbn [apply_item item_ok] in *; try done.
  - destruct Hi as [Hl _]. split; [|done]. apply List.Forall_app. split; [done|]. by apply Forall_singleton.
  - destruct Hi as [Hl Hf]. split; [done|]. split; [|done]. by apply set_insert_all.
  - destruct Hi as (Hl & Hf & Hz & _). split; [done|]. split; [done|]. apply List.Forall_app. split; [done|]. by apply Forall_singleton.
Qed.

Lemma foldl_ok its : ∀ e, edit_ok e → Forall item_ok its → edit_ok (foldl apply_item e its).
Proof.
  induction its as [|i its IH]; intros e He Hi; [done|]. apply list.Forall_cons in Hi as [Hi Hits]. apply IH; [by apply apply_item_ok|done].
Qed.

(** C33: version edits. The record of an edit whose fields fit their types decodes, into any
    edit object, to that edit, with the compaction pointers that the object had before in
    front of its own. Decoding any bytes ends, reads nothing outside of them, says OK or
    Corruption, and levels in the result are levels of the database. *)
Theorem version_edit_correct e dst e0 src : well_formed e → Forall is_byte src → edit_ok (Clear e0) →
  (∃ b, EncodeTo e dst = Ok (dst ++ b) ∧ DecodeFrom b e0 = Ok (Status.OK, with_pointers (compact_pointers_ e0) e)) ∧
  ∃ s e', DecodeFrom src e0 = Ok (s, e') ∧ (s = Status.OK ∨ ∃ m, s = Status.Corruption m) ∧ edit_ok e'.
Proof.
  intros He Hs H0. split.
  - exists (items_bytes (items e)). split; [by apply EncodeTo_items|]. unfold DecodeFrom.
    rewrite edit_loop_ok by (lia || apply (wf_items _ He)). unfold mbind, res_bind. by rewrite items_back.
  - unfold DecodeFrom. destruct (decode_loop_any (S (length src)) src (Clear e0) Hs) as (msg & input & its & E & Hits); [lia|].
    rewrite E. unfold mbind, res_bind. eexists _, _. split; [done|]. split; [|by apply foldl_ok].
    destruct msg; [right; by eexists|]. destruct (negb (Slice.empty input)); [right; by eexists|by left].
Qed.

Definition example_edit : VersionEdit :=
  AddFile 1 7 1000 [97; 1; 2; 0; 0; 0; 0; 0; 0] [98; 1; 3; 0; 0; 0; 0; 0; 0] (DeleteFile 2 5 (DeleteFile 0 300 (SetCompactPointer 1 [97; 1; 2; 0; 0; 0; 0; 0; 0]
    (SetLogNumber 12 (SetComparatorName [99; 109; 112] new))))).

Lemma version_edit_correct_witness : ∃ b, EncodeTo example_edit [] = Ok b ∧
  DecodeFrom b new = Ok (Status.OK, example_edit) ∧ ∃ s e', DecodeFrom [7; 9; 0] new = Ok (s, e') ∧ edit_ok e'.
Proof.
  destruct (version_edit_correct example_edit [] new [7; 9; 0]) as [(b & E & D) (s & e' & Ds & _ & He)].
  - split; cbn.
    + change (Forall item_ok [IComparator [99; 109; 112]; ILogNumber 12; IPointer 1 [97; 1; 2; 0; 0; 0; 0; 0; 0]; IDeleted 0 300; IDeleted 2 5;
        INewFile 1 7 1000 [97; 1; 2; 0; 0; 0; 0; 0; 0] [98; 1; 3; 0; 0; 0; 0; 0; 0]]).
      repeat apply List.Forall_cons; try apply List.Forall_nil; cbn [item_ok]; unfold level_ok, number_ok, string_ok, Config.kNumLevels; split_and!;
        first [lia|solve [forall_list]|vm_compute; done].
    + done.
    + repeat constructor; done.
    + repeat constructor.
    + repeat constructor; done.
  - repeat constructor; done.
  - repeat constructor.
  - exists b. split; [done|]. split; [exact D|]. by exists s, e'.
Defined.
