(* ===== verification/LdbVersion.v ===== *)
(** The files of a version of a LevelDB database, and reading from them: the first part of
    [db/version_set.cc]. *)
From Stdlib Require Floats.SpecFloat.
From S2P Require Import Prelude LdbSkip LdbFormat LdbIterator LdbMerger LdbTwoLevel LdbTable LdbVersionEdit.
Import Status.

(** What versions use of [TableCache] ([db/table_cache.h]): iterators of tables, and
    lookups, with the entry for which the callback is called; the cache changes. *)
Class TableCache (T TI : Type) := {
  table_NewIterator : Table.ReadOptions → Z → Z → T → res (TI * T);
  table_Get : Table.ReadOptions → Z → Z → bytes → T → res (Status * option (bytes * bytes) * T)
}.
#[export] Hint Mode TableCache ! - : typeclass_instances.

Module Version.
Import Internal Config.

(** A pointer to a file, with the fields that do not change: [refs] and [allowed_seeks]
    change through the pointer. *)
Record File := mkFilePtr { address : nat; meta : FileMetaData }.

(** ** Limits *)

Definition TargetFileSize (max_file_size : Z) : Z := s32 max_file_size.
(** A product of [int]s must not overflow. *)
Definition int_product (a b : Z) : res Z := if (-2 ^ 31 <=? a * b) && (a * b <? 2 ^ 31) then Ok (a * b) else UB.
Definition MaxGrandParentOverlapBytes (max_file_size : Z) : res Z := int_product 10 (TargetFileSize max_file_size).
Definition ExpandedCompactionByteSizeLimit (max_file_size : Z) : res Z := int_product 25 (TargetFileSize max_file_size).
Definition MaxFileSizeForLevel (max_file_size : Z) : Z := u64 (TargetFileSize max_file_size).
Definition TotalFileSize (files : list File) : Z := foldl (λ sum f, s64 (sum + file_size (meta f))) 0 files.

Section version.
Context (C : SliceComparator).

Definition icmp (a b : bytes) : res Z := @Internal.compare C a b.
Definition user_key (k : bytes) : res bytes := ExtractUserKey k.

(** ** Searching the files of a level *)

Fixpoint find_file_loop (fuel : nat) (files : list File) (k : bytes) (left right : Z) : res Z :=
  match fuel with
  | O => NoFuel
  | S fuel' =>
      if left <? right then
        let mid := u32 (left + right) / 2 in
        f ← of_option (files !! Z.to_nat mid);
        largest ← Encode (largest (meta f));
        c ← icmp largest k;
        if c <? 0 then find_file_loop fuel' files k (u32 (mid + 1)) right
        else find_file_loop fuel' files k left mid
      else Ok right
  end.
(** The interval gets smaller in each turn. *)
Definition FindFile (files : list File) (k : bytes) : res Z :=
  find_file_loop (S (length files)) files k 0 (u32 (Z.of_nat (length files))).

Definition AfterFile (k : option bytes) (f : File) : res bool :=
  match k with
  | None => Ok false
  | Some k => l ← user_key (largest (meta f)); c ← Compare k l; Ok (0 <? c)
  end.
Definition BeforeFile (k : option bytes) (f : File) : res bool :=
  match k with
  | None => Ok false
  | Some k => s ← user_key (smallest (meta f)); c ← Compare k s; Ok (c <? 0)
  end.

Fixpoint overlaps_loop (files : list File) (smallest_user_key largest_user_key : option bytes) : res bool :=
  match files with
  | [] => Ok false
  | f :: files =>
      after ← AfterFile smallest_user_key f;
      outside ← (if after : bool then Ok true else BeforeFile largest_user_key f);
      if outside : bool then overlaps_loop files smallest_user_key largest_user_key else Ok true
  end.
Definition SomeFileOverlapsRange (disjoint_sorted_files : bool) (files : list File) (smallest_user_key largest_user_key : option bytes) : res bool :=
  if negb disjoint_sorted_files then overlaps_loop files smallest_user_key largest_user_key
  else
    index ← match smallest_user_key with
            | Some k => small ← Internal.new k kMaxSequenceNumber kValueTypeForSeek; small ← Encode small; FindFile files small
            | None => Ok 0
            end;
    if Z.of_nat (length files) <=? index then Ok false
    else
      f ← of_option (files !! Z.to_nat index);
      before ← BeforeFile largest_user_key f;
      Ok (negb before).

(** ** [LevelFileNumIterator] *)

Record LevelFileNumIterator := mkLevelIter { flist_ : list File; index_ : Z }.
Definition level_iter_new (flist : list File) : LevelFileNumIterator := mkLevelIter flist (u32 (Z.of_nat (length flist))).
Definition level_Valid (i : LevelFileNumIterator) : bool := index_ i <? Z.of_nat (length (flist_ i)).
Definition at_index (i : LevelFileNumIterator) (n : Z) : LevelFileNumIterator := mkLevelIter (flist_ i) n.
Definition level_file (i : LevelFileNumIterator) : res File :=
  SkipList.assert_ (level_Valid i);; of_option (flist_ i !! Z.to_nat (index_ i)).

#[export] Instance level_iterator : Iterator LevelFileNumIterator := {|
  Valid := level_Valid;
  SeekToFirst i := Ok (at_index i 0);
  SeekToLast i := Ok (at_index i (if bool_decide (flist_ i = []) then 0 else u32 (Z.of_nat (length (flist_ i)) - 1)));
  Seek target i := n ← FindFile (flist_ i) target; Ok (at_index i n);
  Next i := SkipList.assert_ (level_Valid i);; Ok (at_index i (u32 (index_ i + 1)));
  Prev i := SkipList.assert_ (level_Valid i);;
    Ok (at_index i (if index_ i =? 0 then u32 (Z.of_nat (length (flist_ i))) else u32 (index_ i - 1)));
  key i := f ← level_file i; Encode (largest (meta f));
  value i := f ← level_file i; Ok (Coding.EncodeFixed64 (number (meta f)) ++ Coding.EncodeFixed64 (file_size (meta f)));
  status i := OK
|}.

(** ** Iterators of a version *)

Context {T TI : Type} `{TableCache T TI} `{Iterator TI} (fuel : nat).

Definition GetFileIterator (o : Table.ReadOptions) (cache : T) (file_value : bytes) : res ((EmptyIterator + TI) * T) :=
  if negb (Slice.size file_value =? 16) then
    Ok (inl (NewErrorIterator (Corruption "FileReader invoked with unexpected value")), cache)
  else
    n ← Coding.DecodeFixed64 file_value;
    z ← Coding.DecodeFixed64 (drop 8 file_value);
    '(i, cache) ← table_NewIterator o n z cache;
    Ok (inr i, cache).

Definition LevelIterator : Type := TwoLevel.TwoLevelIterator LevelFileNumIterator (EmptyIterator + TI) T.
Definition NewConcatenatingIterator (flist : list File) (cache : T) : res LevelIterator :=
  TwoLevel.NewTwoLevelIterator (level_iter_new flist) cache.
Definition concatenating_iterator (o : Table.ReadOptions) : Iterator LevelIterator :=
  TwoLevel.two_level_iterator (GetFileIterator o) fuel.

(** [Version]; the links of the list of versions are not used here. *)
Record Version := mkVersion {
  refs_ : Z; files_ : list (list File); file_to_compact_ : option File; file_to_compact_level_ : Z;
  compaction_score_ : SpecFloat.spec_float; compaction_level_ : Z
}.

Definition level_files (v : Version) (level : Z) : res (list File) := of_option (files_ v !! Z.to_nat level).

Fixpoint file_iterators (o : Table.ReadOptions) (files : list File) (cache : T) : res (list (TI + LevelIterator) * T) :=
  match files with
  | [] => Ok ([], cache)
  | f :: files =>
      '(i, cache) ← table_NewIterator o (number (meta f)) (file_size (meta f)) cache;
      '(l, cache) ← file_iterators o files cache;
      Ok (inl i :: l, cache)
  end.
Fixpoint level_iterators (levels : list (list File)) (cache : T) : res (list (TI + LevelIterator)) :=
  match levels with
  | [] => Ok []
  | files :: levels =>
      if bool_decide (files = []) then level_iterators levels cache
      else i ← NewConcatenatingIterator files cache; l ← level_iterators levels cache; Ok (inr i :: l)
  end.
(** Each iterator goes on with the cache as it is then. *)
Definition AddIterators (o : Table.ReadOptions) (v : Version) (iters : list (TI + LevelIterator)) (cache : T) : res (list (TI + LevelIterator) * T) :=
  files ← level_files v 0;
  '(l0, cache) ← file_iterators o files cache;
  ls ← level_iterators (drop 1 (files_ v)) cache;
  Ok (iters ++ l0 ++ ls, cache).

(** ** Lookups *)

Inductive SaverState := kNotFound | kFound | kDeleted | kCorrupt.
Record Saver := mkSaver { state : SaverState; saver_user_key : bytes; value_ : bytes }.

Definition SaveValue (s : Saver) (ikey v : bytes) : res Saver :=
  parsed_key ← ParseInternalKey ikey;
  match parsed_key with
  | None => Ok (mkSaver kCorrupt (saver_user_key s) (value_ s))
  | Some p =>
      c ← Compare (Internal.user_key p) (saver_user_key s);
      if c =? 0 then
        match type p with
        | kTypeValue => Ok (mkSaver kFound (saver_user_key s) v)
        | kTypeDeletion => Ok (mkSaver kDeleted (saver_user_key s) (value_ s))
        end
      else Ok s
  end.

Definition NewestFirst (a b : File) : bool := number (meta b) <? number (meta a).
(** [std::sort]: numbers of files are different. *)
Fixpoint sorted_insert (f : File) (l : list File) : list File :=
  match l with
  | [] => [f]
  | g :: l' => if NewestFirst g f then g :: sorted_insert f l' else f :: l
  end.
Definition sort_newest (l : list File) : list File := foldr sorted_insert [] l.

(** The files of level 0 whose range has the key. *)
Fixpoint level0_overlapping (k : bytes) (files : list File) : res (list File) :=
  match files with
  | [] => Ok []
  | f :: files =>
      s ← user_key (smallest (meta f)); c ← Compare k s;
      hit ← (if 0 <=? c then g ← user_key (largest (meta f)); d ← Compare k g; Ok (d <=? 0) else Ok false);
      l ← level0_overlapping k files;
      Ok (if hit : bool then f :: l else l)
  end.
(** The file of another level that may have the key. *)
Definition level_candidate (k ikey : bytes) (files : list File) : res (list File) :=
  index ← FindFile files ikey;
  if Z.of_nat (length files) <=? index then Ok []
  else
    f ← of_option (files !! Z.to_nat index);
    s ← user_key (smallest (meta f)); c ← Compare k s;
    Ok (if c <? 0 then [] else [f]).
Definition search_list (level : Z) (k ikey : bytes) (files : list File) : res (list File) :=
  if level =? 0 then l ← level0_overlapping k files; Ok (sort_newest l) else level_candidate k ikey files.

(** The callback says whether to go on. *)
Section for_each.
Context {A : Type} (func : A → Z → File → A * bool).
Fixpoint each_file (a : A) (level : Z) (files : list File) : A * bool :=
  match files with
  | [] => (a, true)
  | f :: files => let '(a, more) := func a level f in if more then each_file a level files else (a, false)
  end.
Fixpoint each_level (a : A) (level : Z) (k ikey : bytes) (levels : list (list File)) : res A :=
  match levels with
  | [] => Ok a
  | files :: levels =>
      if bool_decide (files = []) then each_level a (level + 1) k ikey levels
      else
        l ← search_list level k ikey files;
        let '(a, more) := each_file a level l in
        if more then each_level a (level + 1) k ikey levels else Ok a
  end.
Definition ForEachOverlapping (v : Version) (k ikey : bytes) (a : A) : res A := each_level a 0 k ikey (files_ v).
End for_each.

Record GetStats := mkStats { seek_file : option File; seek_file_level : Z }.

(** What [Get] carries from file to file: the last file that was read, the statistics, the
    value and the cache; and how it ended, if it has. *)
Record GetState := mkGet { last_file_read : option (File * Z); stats : GetStats; got_value : bytes; cache_ : T }.

Definition get_file (o : Table.ReadOptions) (k ikey : bytes) (level : Z) (f : File) (g : GetState) : res (option Status * GetState) :=
  let st := match last_file_read g, seek_file (stats g) with
            | Some (lf, ll), None => mkStats (Some lf) ll
            | _, _ => stats g
            end in
  '(s, saved, cache) ← table_Get o (number (meta f)) (file_size (meta f)) ikey (cache_ g);
  saver ← match saved with
          | Some (sk, sv) => SaveValue (mkSaver kNotFound k (got_value g)) sk sv
          | None => Ok (mkSaver kNotFound k (got_value g))
          end;
  let g := mkGet (Some (f, level)) st (value_ saver) cache in
  if negb (ok s) then Ok (Some s, g)
  else
    match state saver with
    | kNotFound => Ok (None, g)
    | kFound => Ok (Some s, g)
    | kDeleted => Ok (Some (NotFound ""), g)
    | kCorrupt => Ok (Some (Corruption "corrupted key for "), g)
    end.
Fixpoint get_files (o : Table.ReadOptions) (k ikey : bytes) (level : Z) (files : list File) (g : GetState) : res (option Status * GetState) :=
  match files with
  | [] => Ok (None, g)
  | f :: files =>
      '(s, g) ← get_file o k ikey level f g;
      match s with Some _ => Ok (s, g) | None => get_files o k ikey level files g end
  end.
Fixpoint get_levels (o : Table.ReadOptions) (k ikey : bytes) (level : Z) (levels : list (list File)) (g : GetState) : res (option Status * GetState) :=
  match levels with
  | [] => Ok (None, g)
  | files :: levels =>
      if bool_decide (files = []) then get_levels o k ikey (level + 1) levels g
      else
        l ← search_list level k ikey files;
        '(s, g) ← get_files o k ikey level l g;
        match s with Some _ => Ok (s, g) | None => get_levels o k ikey (level + 1) levels g end
  end.
Definition Get (v : Version) (o : Table.ReadOptions) (k : LookupKey) (value : bytes) (cache : T) : res (Status * bytes * GetStats * T) :=
  '(s, g) ← get_levels o (lookup_user_key k) (internal_key k) 0 (files_ v) (mkGet None (mkStats None (-1)) value cache);
  Ok (match s with Some s => s | None => NotFound "" end, got_value g, stats g, cache_ g).

(** ** Statistics

    [allowed_seeks] of the files by their addresses. *)
Definition UpdateStats (st : GetStats) (v : Version) (seeks : gmap nat Z) : res (bool * Version * gmap nat Z) :=
  match seek_file st with
  | None => Ok (false, v, seeks)
  | Some f =>
      n ← of_option (seeks !! address f);
      if n <=? -2 ^ 31 then UB
      else
        let seeks := <[address f := n - 1]> seeks in
        match file_to_compact_ v with
        | None =>
            if n - 1 <=? 0 then
              Ok (true, mkVersion (refs_ v) (files_ v) (Some f) (seek_file_level st) (compaction_score_ v) (compaction_level_ v), seeks)
            else Ok (false, v, seeks)
        | Some _ => Ok (false, v, seeks)
        end
  end.

Definition Match (a : GetStats * Z) (level : Z) (f : File) : (GetStats * Z) * bool :=
  let matches := a.2 + 1 in
  ((if matches =? 1 then mkStats (Some f) level else a.1, matches), matches <? 2).

Definition RecordReadSample (k : bytes) (v : Version) (seeks : gmap nat Z) : res (bool * Version * gmap nat Z) :=
  ikey ← ParseInternalKey k;
  match ikey with
  | None => Ok (false, v, seeks)
  | Some ikey =>
      '(st, matches) ← ForEachOverlapping Match v (Internal.user_key ikey) k (mkStats None (-1), 0);
      if 2 <=? matches then UpdateStats st v seeks else Ok (false, v, seeks)
  end.

(** ** Files that overlap a range *)

Definition OverlapInLevel (v : Version) (level : Z) (smallest_user_key largest_user_key : option bytes) : res bool :=
  files ← level_files v level;
  SomeFileOverlapsRange (0 <? level) files smallest_user_key largest_user_key.

(** The files from [rest] on; level 0 starts again from [all] with a larger range. *)
Fixpoint inputs_loop (fuel : nat) (level : Z) (all rest : list File) (b e : option bytes) (inputs : list File) : res (list File) :=
  match fuel with
  | O => NoFuel
  | S fuel' =>
      match rest with
      | [] => Ok inputs
      | f :: rest =>
          file_start ← user_key (smallest (meta f));
          file_limit ← user_key (largest (meta f));
          before ← match b with Some b => c ← Compare file_limit b; Ok (c <? 0) | None => Ok false end;
          if before : bool then inputs_loop fuel' level all rest b e inputs
          else
            after ← match e with Some e => c ← Compare file_start e; Ok (0 <? c) | None => Ok false end;
            if after : bool then inputs_loop fuel' level all rest b e inputs
            else if level =? 0 then
              starts ← match b with Some b => c ← Compare file_start b; Ok (c <? 0) | None => Ok false end;
              if starts : bool then inputs_loop fuel' level all all (Some file_start) e []
              else
                ends ← match e with Some e => c ← Compare file_limit e; Ok (0 <? c) | None => Ok false end;
                if ends : bool then inputs_loop fuel' level all all b (Some file_limit) []
                else inputs_loop fuel' level all rest b e (inputs ++ [f])
            else inputs_loop fuel' level all rest b e (inputs ++ [f])
      end
  end.

(** The range grows to a start or a limit of a file at most [2 * n] times. *)
Definition inputs_fuel (n : nat) : nat := S ((2 * n + 1) * (n + 1)).
Definition GetOverlappingInputs (v : Version) (level : Z) (b e : option bytes) : res (list File) :=
  SkipList.assert_ ((0 <=? level) && (level <? kNumLevels));;
  user_begin ← match b with Some b => k ← user_key b; Ok (Some k) | None => Ok None end;
  user_end ← match e with Some e => k ← user_key e; Ok (Some k) | None => Ok None end;
  files ← level_files v level;
  inputs_loop (inputs_fuel (length files)) level files files user_begin user_end [].

Fixpoint pick_loop (n : nat) (max_file_size : Z) (v : Version) (smallest_user_key largest_user_key start limit : bytes) (level : Z) : res Z :=
  match n with
  | O => NoFuel
  | S n' =>
      if level <? kMaxMemCompactLevel then
        overlap ← OverlapInLevel v (level + 1) (Some smallest_user_key) (Some largest_user_key);
        if overlap : bool then Ok level
        else
          stop ← (if level + 2 <? kNumLevels then
                    overlaps ← GetOverlappingInputs v (level + 2) (Some start) (Some limit);
                    max ← MaxGrandParentOverlapBytes max_file_size;
                    Ok (max <? TotalFileSize overlaps)
                  else Ok false);
          if stop : bool then Ok level
          else pick_loop n' max_file_size v smallest_user_key largest_user_key start limit (level + 1)
      else Ok level
  end.
Definition PickLevelForMemTableOutput (max_file_size : Z) (v : Version) (smallest_user_key largest_user_key : bytes) : res Z :=
  overlap ← OverlapInLevel v 0 (Some smallest_user_key) (Some largest_user_key);
  if overlap : bool then Ok 0
  else
    start ← Internal.new smallest_user_key kMaxSequenceNumber kValueTypeForSeek;
    limit ← Internal.new largest_user_key 0 kTypeDeletion;
    pick_loop (S (Z.to_nat kMaxMemCompactLevel)) max_file_size v smallest_user_key largest_user_key start limit 0.
End version.
End Version.
