(* ===== verification/LdbVersionProps.v ===== *)
(** Searching the files of a version: the binary search, ranges of files, the iterator of a
    level and the closure of a range of files. *)
From Stdlib Require Import Sorting.Sorted.
From S2P Require Import Prelude LdbSkip LdbSkipLemmas LdbFormat LdbCodingProps LdbOrder LdbIterator LdbMerger LdbTwoLevel LdbTable LdbVersionEdit LdbVersion.
Import Version.
#[local] Arguments FindFile : simpl never.

Section search.
Context (C : SliceComparator) (valid : bytes → Prop) (ord : Comparator bytes) `{!Lawful C (λ _, True) valid ord}.
#[local] Instance iord : Comparator bytes := internal_order ord.
Implicit Types (f : File) (files : list File).

Definition ikey_ok (k : bytes) : Prop := dom_internal (λ _, True) k.

Lemma icmp_ok a b : ikey_ok a → ikey_ok b → icmp C a b = Ok (compare_ a b).
Proof. intros Ha Hb. exact (lawful_compare (Lawful := internal_lawful C (λ _, True) valid ord) a b Ha Hb). Qed.

Lemma iord_order : Order bytes (H := iord).
Proof. exact (lawful_order (Lawful := internal_lawful C (λ _, True) valid ord)). Qed.

Lemma Encode_ok k : ikey_ok k → Internal.Encode k = Ok k.
Proof. intros (u & n & E & _). destruct (split_internal_Some _ _ _ E) as (_ & _ & L & _). unfold Internal.Encode. by destruct k; cbn in L; [lia|]. Qed.

Definition handle_of f : bytes := Coding.EncodeFixed64 (number (meta f)) ++ Coding.EncodeFixed64 (file_size (meta f)).
Definition index_of files : entries := (λ f, (largest (meta f), handle_of f)) <$> files.

(** A level whose files are in order. *)
Record level_ok files : Prop := {
  lv_keys : Forall (λ f, ikey_ok (smallest (meta f)) ∧ ikey_ok (largest (meta f))) files;
  lv_ascending : ascending (index_of files);
  lv_count : Z.of_nat (length files) < 2 ^ 31
}.

Lemma file_index_lookup files i : index_of files !! i = (λ f, (largest (meta f), handle_of f)) <$> files !! i.
Proof. apply list_lookup_fmap. Qed.

Lemma find_file_loop_ok files k n : level_ok files → ikey_ok k → ∀ l r, (l <= seek_index (index_of files) k <= r)%nat → (r <= length files)%nat →
  (r - l < n)%nat → find_file_loop C n files k (Z.of_nat l) (Z.of_nat r) = Ok (Z.of_nat (seek_index (index_of files) k)).
Proof.
  intros [Hk Ha Hn] Hkk. induction n as [|n IH]; intros l r Hi Hr Hf; [lia|]. cbn [find_file_loop].
  destruct (Z.ltb_spec (Z.of_nat l) (Z.of_nat r)) as [L|L]; [|by replace r with (seek_index (index_of files) k) by lia].
  rewrite (u32_small (Z.of_nat l + Z.of_nat r)) by lia. replace ((Z.of_nat l + Z.of_nat r) / 2) with (Z.of_nat ((l + r) / 2)) by (rewrite Nat2Z.inj_div, Nat2Z.inj_add; done).
  set (m := ((l + r) / 2)%nat). assert (l <= m < r)%nat as Hm by (unfold m; split; [apply Nat.div_le_lower_bound; lia|apply Nat.Div0.div_lt_upper_bound; lia]).
  rewrite Nat2Z.id. destruct (lookup_lt_is_Some_2 files m) as [f Hfm]; [lia|]. rewrite Hfm. unfold mbind, res_bind. cbn [of_option].
  pose proof (proj1 (list.Forall_lookup _ _) Hk _ _ Hfm) as [_ Hl]. rewrite Encode_ok, icmp_ok by done.
  assert (index_of files !! m = Some (largest (meta f), handle_of f)) as Hix by by rewrite file_index_lookup, Hfm.
  destruct (Z.ltb_spec (compare_ (largest (meta f)) k) 0) as [Lc|Lc].
  - rewrite u32_small by lia. replace (Z.of_nat m + 1) with (Z.of_nat (S m)) by lia. apply IH; [|lia|lia]. split; [|lia].
    destruct (le_lt_dec (S m) (seek_index (index_of files) k)) as [|Hle]; [done|].
    pose proof (seek_index_after _ k m _ Ha ltac:(lia) Hix) as H0. cbn in H0. lia.
  - apply IH; [|lia|lia]. split; [lia|]. destruct (le_lt_dec (seek_index (index_of files) k) m) as [|Hlt]; [done|].
    pose proof (seek_index_before _ k m _ Hlt Hix) as H0. cbn in H0. lia.
Qed.

Lemma FindFile_ok files k : level_ok files → ikey_ok k → FindFile C files k = Ok (Z.of_nat (seek_index (index_of files) k)).
Proof.
  intros Hl Hk. unfold FindFile. pose proof (lv_count _ Hl). rewrite u32_small by lia. change 0 with (Z.of_nat 0).
  pose proof (seek_index_le (index_of files) k) as Hle. unfold index_of at 2 in Hle. rewrite length_fmap in Hle. apply find_file_loop_ok; [done|done|lia|lia|lia].
Qed.

(** ** The iterator of a level *)

Definition level_at files (i : LevelFileNumIterator) (p : option nat) : Prop := flist_ i = files ∧
  match p with
  | Some n => index_ i = Z.of_nat n ∧ (n < length files)%nat
  | None => index_ i = Z.of_nat (length files)
  end.

Lemma level_at_pos files n : level_ok files → (n <= length files)%nat → level_at files (mkLevelIter files (Z.of_nat n)) (pos_at (index_of files) n).
Proof.
  intros _ Hn. unfold level_at, pos_at. unfold index_of. rewrite length_fmap. split; [done|]. case_bool_decide as Hb; cbn; [done|]. f_equal. lia.
Qed.

Lemma level_at_invalid files i : level_ok files → flist_ i = files → index_ i = Z.of_nat (length files) → level_at files i None.
Proof. done. Qed.

#[export] Instance level_iterates files : level_ok files →
  Iterates (ord := iord) (H := level_iterator C) LevelFileNumIterator (index_of files) ikey_ok (λ i, flist_ i = files) (level_at files).
Proof.
  intros Hl. pose proof (lv_count _ Hl) as Hn. assert (length (index_of files) = length files) as El by apply length_fmap. split; cbn.
  - by intros i p [].
  - done.
  - intros [fl ix] p [E Hp]. cbn in *. subst fl. unfold level_Valid. cbn. destruct p as [n|]; cbn.
    + destruct Hp as [-> L]. apply Z.ltb_lt. lia.
    + rewrite Hp. apply Z.ltb_ge. lia.
  - intros [fl ix] n [E [En L]]. cbn in *. subst fl ix. destruct (lookup_lt_is_Some_2 files n L) as [f Hf].
    exists (largest (meta f), handle_of f). split; [by rewrite file_index_lookup, Hf|]. unfold level_file, level_Valid. cbn.
    rewrite (proj2 (Z.ltb_lt _ _)) by lia. unfold mbind, res_bind. cbn. rewrite Nat2Z.id, Hf. cbn. split; [|done].
    apply Encode_ok. by apply (proj1 (list.Forall_lookup _ _) (lv_keys _ Hl) _ _ Hf).
  - intros [fl ix] E. cbn in *. subst fl. eexists. split; [done|]. apply (level_at_pos files 0); [done|lia].
  - intros [fl ix] E. cbn in *. subst fl. eexists. split; [done|]. rewrite El. unfold at_index. cbn. destruct files as [|f files']; [done|].
    rewrite bool_decide_eq_false_2 by done. cbn [length pos_before] in *. rewrite u32_small by lia. split; [done|]. cbn. lia.
  - intros [fl ix] t E Ht. cbn in *. subst fl. rewrite FindFile_ok by done. unfold mbind, res_bind. eexists. split; [done|].
    apply level_at_pos; [done|]. rewrite <- El. apply seek_index_le.
  - intros [fl ix] n [E [En L]]. cbn in *. subst fl ix. unfold level_Valid. cbn. rewrite (proj2 (Z.ltb_lt _ _)) by lia. cbn. unfold at_index. cbn.
    rewrite u32_small by lia. eexists. split; [done|]. replace (Z.of_nat n + 1) with (Z.of_nat (S n)) by lia. by apply level_at_pos.
  - intros [fl ix] n [E [En L]]. cbn in *. subst fl ix. unfold level_Valid. cbn. rewrite (proj2 (Z.ltb_lt _ _)) by lia. cbn. unfold at_index. cbn.
    eexists. split; [done|]. destruct n as [|n]; cbn [pos_before].
    + cbn. split; [done|]. cbn. apply u32_small. lia.
    + rewrite (proj2 (Z.eqb_neq _ 0)) by lia. rewrite u32_small by lia. split; [done|]. cbn. lia.
Qed.

(** ** Ranges of user keys *)

Definition ukey (k : bytes) : bytes := match split_internal k with Some (u, _) => u | None => [] end.
Definition inum (k : bytes) : Z := match split_internal k with Some (_, n) => n | None => 0 end.
#[local] Abbreviation ucmp := (@compare_ bytes ord).

Lemma user_key_ok k : ikey_ok k → user_key k = Ok (ukey k).
Proof. intros (u & n & E & _). unfold user_key, ukey. rewrite E. by apply split_internal_Some in E as (? & _). Qed.

Lemma ucmp_ok a b : Compare (SliceComparator := C) a b = Ok (ucmp a b).
Proof. by apply lawful_compare. Qed.

(** The file has keys from [b] to [e], where [None] is no bound. *)
Definition touches (b e : option bytes) f : Prop :=
  (∀ k, b = Some k → ucmp k (ukey (largest (meta f))) <= 0) ∧ (∀ k, e = Some k → 0 <= ucmp k (ukey (smallest (meta f)))).
#[export] Instance touches_dec b e f : Decision (touches b e f).
Proof.
  unfold touches. apply and_dec.
  - destruct b as [k|]; [|left; done]. destruct (decide (ucmp k (ukey (largest (meta f))) <= 0)) as [L|L]; [left; by intros ? [= <-]|right; intros H; by apply L, H].
  - destruct e as [k|]; [|left; done]. destruct (decide (0 <= ucmp k (ukey (smallest (meta f))))) as [L|L]; [left; by intros ? [= <-]|right; intros H; by apply L, H].
Defined.

Definition file_keys f : Prop := ikey_ok (smallest (meta f)) ∧ ikey_ok (largest (meta f)).

Lemma AfterFile_ok b f : file_keys f → AfterFile C b f = Ok (match b with Some k => 0 <? ucmp k (ukey (largest (meta f))) | None => false end).
Proof. intros [_ Hl]. unfold AfterFile, mbind, res_bind. destruct b as [k|]; [|done]. by rewrite user_key_ok, ucmp_ok. Qed.
Lemma BeforeFile_ok e f : file_keys f → BeforeFile C e f = Ok (match e with Some k => ucmp k (ukey (smallest (meta f))) <? 0 | None => false end).
Proof. intros [Hs _]. unfold BeforeFile, mbind, res_bind. destruct e as [k|]; [|done]. by rewrite user_key_ok, ucmp_ok. Qed.

Lemma touches_bool b e f : bool_decide (touches b e f) =
  negb (match b with Some k => 0 <? ucmp k (ukey (largest (meta f))) | None => false end) &&
  negb (match e with Some k => ucmp k (ukey (smallest (meta f))) <? 0 | None => false end).
Proof.
  apply Bool.eq_iff_eq_true. rewrite bool_decide_eq_true, andb_true_iff, !negb_true_iff. unfold touches. destruct b as [b|], e as [e|]; rewrite ?Z.ltb_ge; split.
  all: try (intros [H1 H2]; split; [try by apply H1|try by apply H2]; done).
  all: intros [H1 H2]; split; intros ? E; try done; by injection E as <-.
Qed.

Lemma overlaps_loop_ok files b e : Forall file_keys files → overlaps_loop C files b e = Ok (existsb (λ f, bool_decide (touches b e f)) files).
Proof.
  induction 1 as [|f files Hf _ IH]; [done|]. cbn [overlaps_loop existsb]. rewrite AfterFile_ok by done. unfold mbind, res_bind. rewrite touches_bool.
  destruct (match b with Some k => _ | None => _ end); cbn; [done|]. rewrite BeforeFile_ok by done.
  destruct (match e with Some k => _ | None => _ end); cbn; done.
Qed.

(** Levels other than level 0: the files do not overlap. *)
Record disjoint_level files : Prop := {
  dl_level : level_ok files;
  dl_nums : Forall (λ f, inum (largest (meta f)) <= earliest) files;
  dl_range : Forall (λ f, compare_ (smallest (meta f)) (largest (meta f)) <= 0) files;
  dl_apart i j f g : files !! i = Some f → files !! j = Some g → (i < j)%nat → compare_ (largest (meta f)) (smallest (meta g)) < 0
}.

(** Internal keys are ordered by their user keys first. *)
Lemma icmp_ukey a b : ikey_ok a → ikey_ok b → compare_ a b <= 0 → ucmp (ukey a) (ukey b) <= 0.
Proof.
  intros (u & m & Ea & _) (v & n & Eb & _). unfold ukey, compare_, iord, internal_order, via. rewrite Ea, Eb. unfold then_down. cbn [fst snd].
  unfold compare_. destruct (Z.eqb_spec (ord u v) 0); lia.
Qed.
Lemma ukey_icmp a b : ikey_ok a → ikey_ok b → ucmp (ukey a) (ukey b) < 0 → compare_ a b < 0.
Proof.
  intros (u & m & Ea & _) (v & n & Eb & _). unfold ukey, compare_, iord, internal_order, via. rewrite Ea, Eb. unfold then_down. cbn [fst snd].
  unfold compare_. intros L. by rewrite (proj2 (Z.eqb_neq _ 0)) by lia.
Qed.

(** The first internal key of a user key. *)
Definition first_key (k : bytes) : bytes := internal k earliest.
Lemma first_key_split k : split_internal (first_key k) = Some (k, earliest).
Proof. apply split_internal_internal. apply earliest_ok. Qed.
Lemma first_key_ok k : ikey_ok (first_key k).
Proof. exists k, earliest. split; [apply first_key_split|done]. Qed.
Lemma new_first k : Internal.new k Internal.kMaxSequenceNumber Internal.kValueTypeForSeek = Ok (first_key k).
Proof. done. Qed.

Lemma before_first a k : ikey_ok a → inum a <= earliest → (compare_ a (first_key k) < 0 ↔ ucmp (ukey a) k < 0).
Proof.
  intros (u & n & Ea & _). unfold ukey, inum, compare_, iord, internal_order, via. rewrite Ea, first_key_split. unfold then_down. cbn [fst snd].
  unfold compare_. intros Hn. destruct (Z.eqb_spec (ord u k) 0) as [E|E]; [|done]. destruct (Z.ltb_spec earliest n); [lia|]. destruct (n <? earliest); lia.
Qed.

Lemma uorder : Order bytes (H := ord).
Proof. exact (lawful_order (Lawful := Lawful0)). Qed.
Lemma ucmp_swap a b : ucmp a b < 0 ↔ 0 < ucmp b a.
Proof. apply (cmp_swap (Order := uorder)). Qed.
Lemma ucmp_le_trans a b c : ucmp a b <= 0 → ucmp b c <= 0 → ucmp a c <= 0.
Proof.
  intros H1 H2. destruct (Z.lt_trichotomy (ucmp a b) 0) as [L|[E|G]]; [| |lia].
  - destruct (Z.lt_trichotomy (ucmp b c) 0) as [L'|[E'|G']]; [| |lia].
    + pose proof (cmp_trans (Order := uorder) _ _ _ L L'). lia.
    + pose proof (cmp_eq_r (H0 := uorder) _ _ _ L E'). lia.
  - destruct (Z.lt_trichotomy (ucmp b c) 0) as [L'|[E'|G']]; [| |lia].
    + pose proof (cmp_eq (Order := uorder) _ _ _ E L'). lia.
    + pose proof (cmp_zero_trans (H0 := uorder) _ _ _ E E'). lia.
Qed.

(** ** Whether some file overlaps *)

Lemma level_keys files i f : level_ok files → files !! i = Some f → file_keys f.
Proof. intros Hl Hf. exact (proj1 (list.Forall_lookup _ _) (lv_keys _ Hl) _ _ Hf). Qed.

(** Where a user key comes in a level. *)
Lemma seek_user files k i f : disjoint_level files → files !! i = Some f →
  ((i < seek_index (index_of files) (first_key k))%nat ↔ ucmp (ukey (largest (meta f))) k < 0).
Proof.
  intros [Hl Hn _ _] Hf. pose proof (level_keys _ _ _ Hl Hf) as [_ Hk]. pose proof (proj1 (list.Forall_lookup _ _) Hn _ _ Hf) as Hnf.
  assert (index_of files !! i = Some (largest (meta f), handle_of f)) as Hi by by rewrite file_index_lookup, Hf.
  rewrite <- before_first by done. split.
  - intros L. exact (seek_index_before _ _ _ _ L Hi).
  - intros L. destruct (le_lt_dec (seek_index (index_of files) (first_key k)) i) as [Hle|]; [|done].
    pose proof (seek_index_after _ _ _ _ (lv_ascending _ Hl) Hle Hi) as H0. cbn in H0. lia.
Qed.

(** Later files start later. *)
Lemma later_starts files i j f g : disjoint_level files → files !! i = Some f → files !! j = Some g → (i <= j)%nat →
  ucmp (ukey (smallest (meta f))) (ukey (smallest (meta g))) <= 0.
Proof.
  intros Hd Hf Hg L. pose proof (level_keys _ _ _ (dl_level _ Hd) Hf) as [K1 K2]. pose proof (level_keys _ _ _ (dl_level _ Hd) Hg) as [K3 K4].
  destruct (decide (i = j)) as [->|N].
  - rewrite Hf in Hg. injection Hg as <-. rewrite (cmp_refl (H0 := uorder)). lia.
  - apply (ucmp_le_trans _ (ukey (largest (meta f)))); apply icmp_ukey; try done.
    + exact (proj1 (list.Forall_lookup _ _) (dl_range _ Hd) _ _ Hf).
    + pose proof (dl_apart _ Hd i j f g Hf Hg ltac:(lia)). lia.
Qed.

Lemma SomeFileOverlapsRange_ok disjoint files b e : (if disjoint : bool then disjoint_level files else Forall file_keys files) →
  SomeFileOverlapsRange C disjoint files b e = Ok (existsb (λ f, bool_decide (touches b e f)) files).
Proof.
  intros Hd. unfold SomeFileOverlapsRange. destruct disjoint; cbn [negb]; [|by apply overlaps_loop_ok].
  set (i := match b with Some k => seek_index (index_of files) (first_key k) | None => 0%nat end).
  assert ((match b with Some k => small ← Internal.new k Internal.kMaxSequenceNumber Internal.kValueTypeForSeek; small ← Internal.Encode small; FindFile C files small
           | None => Ok 0 end) = Ok (Z.of_nat i)) as ->.
  { unfold i. destruct b as [k|]; [|done]. rewrite new_first. unfold mbind, res_bind. rewrite Encode_ok by apply first_key_ok.
    apply FindFile_ok; [apply Hd|apply first_key_ok]. }
  assert (∀ j f, files !! j = Some f → ((j < i)%nat ↔ ∃ k, b = Some k ∧ 0 < ucmp k (ukey (largest (meta f))))) as Hi.
  { intros j f Hf. unfold i. destruct b as [k|]; [|split; [lia|by intros (? & ? & _)]]. rewrite (seek_user files k j f Hd Hf), ucmp_swap.
    split; [intros L; by exists k|by intros (? & [= <-] & L)]. }
  unfold mbind, res_bind. destruct (Z.leb_spec (Z.of_nat (length files)) (Z.of_nat i)) as [L|L].
  - f_equal. symmetry. apply not_true_iff_false. intros (f & Hin & Ht)%existsb_exists. apply bool_decide_eq_true in Ht as [Ht _].
    apply list_elem_of_In, list_elem_of_lookup_1 in Hin as [j Hf]. pose proof (lookup_lt_Some _ _ _ Hf).
    destruct (proj1 (Hi j f Hf) ltac:(lia)) as (k & -> & Hk). specialize (Ht k eq_refl). lia.
  - rewrite Nat2Z.id. destruct (lookup_lt_is_Some_2 files i ltac:(lia)) as [f Hf]. rewrite Hf. cbn [of_option].
    pose proof (level_keys _ _ _ (dl_level _ Hd) Hf) as Hfk. rewrite BeforeFile_ok by done. f_equal. apply Bool.eq_iff_eq_true. rewrite existsb_exists. split.
    + intros Hn. exists f. split; [apply list_elem_of_In; by eapply list_elem_of_lookup_2|]. apply bool_decide_eq_true. split.
      * intros k Hk. destruct (Z.le_gt_cases (ucmp k (ukey (largest (meta f)))) 0) as [|G]; [done|]. exfalso.
        assert (i < i)%nat; [|lia]. apply (Hi i f Hf). by exists k.
      * intros k ->. apply negb_true_iff, Z.ltb_ge in Hn. lia.
    + intros (g & Hin & Ht). apply bool_decide_eq_true in Ht as [H1 H2]. apply list_elem_of_In, list_elem_of_lookup_1 in Hin as [j Hg].
      destruct e as [k|]; [|done]. apply negb_true_iff, Z.ltb_ge. assert (i <= j)%nat as Lij.
      { destruct (le_lt_dec i j) as [|Hlt]; [done|]. apply (Hi j g Hg) in Hlt as (k' & Hb & Hk'). specialize (H1 k' Hb). lia. }
      pose proof (later_starts files i j f g Hd Hf Hg Lij) as H3. specialize (H2 k eq_refl).
      destruct (Z.le_gt_cases 0 (ucmp k (ukey (smallest (meta f))))) as [|G]; [done|].
      pose proof (ucmp_le_trans k (ukey (smallest (meta f))) _ ltac:(lia) H3) as H4. assert (ucmp k (ukey (smallest (meta g))) = 0) as H5 by lia.
      assert (ucmp (ukey (smallest (meta g))) k = 0) as H6 by by apply (cmp_zero_swap (H0 := uorder)).
      destruct (Z.lt_trichotomy (ucmp (ukey (smallest (meta f))) (ukey (smallest (meta g)))) 0) as [L1|[L1|L1]]; [| |lia].
      * pose proof (cmp_eq_r (H0 := uorder) _ _ _ L1 H6) as H7. apply (cmp_swap (Order := uorder)) in H7. lia.
      * pose proof (cmp_zero_trans (H0 := uorder) _ _ _ L1 H6) as H7. apply (cmp_zero_swap (H0 := uorder)) in H7. lia.
Qed.

(** ** The files that overlap a range *)

Definition starts_before (b : option bytes) f : bool := match b with Some k => ucmp (ukey (smallest (meta f))) k <? 0 | None => false end.
Definition ends_after (e : option bytes) f : bool := match e with Some k => 0 <? ucmp (ukey (largest (meta f))) k | None => false end.
(** All keys of the file are in the range. *)
Definition within (b e : option bytes) f : Prop := starts_before b f = false ∧ ends_after e f = false.
(** A range that contains the range from [b] to [e]. *)
Definition widens (b e b' e' : option bytes) : Prop :=
  match b, b' with Some k, Some k' => ucmp k' k <= 0 | None, None => True | _, _ => False end ∧
  match e, e' with Some k, Some k' => ucmp k k' <= 0 | None, None => True | _, _ => False end.

Definition overlapping (b e : option bytes) files : list File := List.filter (λ f, bool_decide (touches b e f)) files.

(** What a range leaves out of files that stick out of it. *)
Definition sticking (b e : option bytes) files : nat := (length (List.filter (starts_before b) files) + length (List.filter (ends_after e) files))%nat.

Lemma filter_fewer {A} (p q : A → bool) l x : (∀ y, p y = true → q y = true) → x ∈ l → p x = false → q x = true →
  (length (List.filter p l) < length (List.filter q l))%nat.
Proof.
  intros Hpq Hx Hp Hq. assert (∀ l, (length (List.filter p l) <= length (List.filter q l))%nat) as Hle.
  { clear -Hpq. intros l. induction l as [|y l IH]; [done|]. cbn. pose proof (Hpq y) as H. destruct (p y), (q y); cbn; try lia; try discriminate (H eq_refl). }
  induction l as [|y l IH]; [by apply not_elem_of_nil in Hx|]. cbn. apply elem_of_cons in Hx as [<-|Hx].
  - rewrite Hp, Hq. cbn. specialize (Hle l). lia.
  - specialize (IH Hx). pose proof (Hpq y) as H. destruct (p y), (q y); cbn; try lia; try discriminate (H eq_refl).
Qed.

Lemma ucmp_lt_trans a b c : ucmp a b < 0 → ucmp b c < 0 → ucmp a c < 0.
Proof. apply (cmp_trans (Order := uorder)). Qed.
Lemma ucmp_refl a : ucmp a a = 0.
Proof. apply (cmp_refl (H0 := uorder)). Qed.
Lemma ucmp_neg a b : ucmp a b <= 0 ↔ 0 <= ucmp b a.
Proof.
  pose proof (ucmp_swap a b). pose proof (ucmp_swap b a). pose proof (cmp_zero_swap (H0 := uorder) a b). lia.
Qed.

Lemma sticking_start files f k e : f ∈ files → starts_before (Some k) f = true →
  (sticking (Some (ukey (smallest (meta f)))) e files < sticking (Some k) e files)%nat.
Proof.
  intros Hf Hs. unfold sticking. enough (length (List.filter (starts_before (Some (ukey (smallest (meta f))))) files) < length (List.filter (starts_before (Some k)) files))%nat by lia.
  apply (filter_fewer _ _ _ f); [|done| |done].
  - intros g Hg. cbn in *. apply Z.ltb_lt in Hg, Hs. apply Z.ltb_lt. by eapply ucmp_lt_trans.
  - cbn. rewrite ucmp_refl. done.
Qed.
Lemma sticking_end files f b k : f ∈ files → ends_after (Some k) f = true →
  (sticking b (Some (ukey (largest (meta f)))) files < sticking b (Some k) files)%nat.
Proof.
  intros Hf Hs. unfold sticking. enough (length (List.filter (ends_after (Some (ukey (largest (meta f))))) files) < length (List.filter (ends_after (Some k)) files))%nat by lia.
  apply (filter_fewer _ _ _ f); [|done| |done].
  - intros g Hg. cbn in *. apply Z.ltb_lt in Hg, Hs. apply Z.ltb_lt. apply ucmp_swap in Hg, Hs. apply ucmp_swap. by eapply ucmp_lt_trans.
  - cbn. rewrite ucmp_refl. done.
Qed.

(** The tests of the loop. *)
Lemma touches_tests b e f : bool_decide (touches b e f) =
  negb (match b with Some k => ucmp (ukey (largest (meta f))) k <? 0 | None => false end) &&
  negb (match e with Some k => 0 <? ucmp (ukey (smallest (meta f))) k | None => false end).
Proof.
  rewrite touches_bool. f_equal; f_equal.
  - destruct b as [k|]; [|done]. apply Bool.eq_iff_eq_true. rewrite !Z.ltb_lt. symmetry. apply ucmp_swap.
  - destruct e as [k|]; [|done]. apply Bool.eq_iff_eq_true. rewrite !Z.ltb_lt. apply ucmp_swap.
Qed.

Lemma overlapping_snoc b e l f : overlapping b e (l ++ [f]) = overlapping b e l ++ if bool_decide (touches b e f) then [f] else [].
Proof. unfold overlapping. rewrite List.filter_app. cbn. by destruct (bool_decide (touches b e f)). Qed.

Definition level0_inputs (b e : option bytes) files (inputs : list File) : Prop :=
  ∃ b' e', widens b e b' e' ∧ inputs = overlapping b' e' files ∧ Forall (within b' e') inputs.

Lemma widens_refl b e : widens b e b e.
Proof. unfold widens. destruct b as [b|], e as [e|]; rewrite ?ucmp_refl; done. Qed.
Lemma widens_trans b e b' e' b'' e'' : widens b e b' e' → widens b' e' b'' e'' → widens b e b'' e''.
Proof.
  intros [H1 H2] [H3 H4]. split.
  - destruct b, b', b''; try done. by eapply ucmp_le_trans.
  - destruct e, e', e''; try done. by eapply ucmp_le_trans.
Qed.

Lemma inputs_step C' level all rest b e inputs f fuel : file_keys f → C' = C →
  inputs_loop C' (S fuel) level all (f :: rest) b e inputs =
    if bool_decide (touches b e f) then
      if level =? 0 then
        if starts_before b f then inputs_loop C' fuel level all all (Some (ukey (smallest (meta f)))) e []
        else if ends_after e f then inputs_loop C' fuel level all all b (Some (ukey (largest (meta f)))) []
        else inputs_loop C' fuel level all rest b e (inputs ++ [f])
      else inputs_loop C' fuel level all rest b e (inputs ++ [f])
    else inputs_loop C' fuel level all rest b e inputs.
Proof.
  intros [K1 K2] ->. cbn [inputs_loop]. rewrite !user_key_ok by done. unfold mbind, res_bind. rewrite touches_tests.
  unfold starts_before, ends_after. destruct b as [b|], e as [e|]; cbn [negb andb]; rewrite ?ucmp_ok;
    repeat (match goal with |- context [ucmp ?x ?y <? 0] => destruct (ucmp x y <? 0) | |- context [0 <? ucmp ?x ?y] => destruct (0 <? ucmp x y) end;
      cbn [negb andb]; rewrite ?ucmp_ok); destruct (level =? 0); done.
Qed.

Lemma inputs_other level all rest b e : ∀ fuel inputs, level ≠ 0 → Forall file_keys rest → (length rest < fuel)%nat →
  inputs_loop C fuel level all rest b e inputs = Ok (inputs ++ overlapping b e rest).
Proof.
  induction rest as [|f rest IH]; intros [|fuel] inputs Hl Hk Hf; cbn in Hf; try lia; [cbn; by rewrite app_nil_r|].
  apply list.Forall_cons in Hk as [Hfk Hk]. rewrite inputs_step by done. rewrite (proj2 (Z.eqb_neq _ _) Hl). unfold overlapping at 1. cbn [List.filter].
  destruct (bool_decide (touches b e f)); rewrite IH by (done || lia); [by rewrite <- app_assoc|done].
Qed.

Lemma inputs_level0 all b0 e0 : Forall file_keys all → ∀ fuel passed rest b e, all = passed ++ rest → widens b0 e0 b e →
  Forall (within b e) (overlapping b e passed) → (sticking b e all * (length all + 1) + length rest < fuel)%nat →
  ∃ inputs, inputs_loop C fuel 0 all rest b e (overlapping b e passed) = Ok inputs ∧ level0_inputs b0 e0 all inputs.
Proof.
  intros Hk. induction fuel as [|fuel IH]; intros passed rest b e Ha Hw Hin Hf; [lia|]. destruct rest as [|f rest].
  - exists (overlapping b e passed). split; [done|]. exists b, e. rewrite app_nil_r in Ha. subst. done.
  - assert (f ∈ all) as Hfa by (rewrite Ha; set_solver). pose proof (proj1 (list.Forall_forall _ _) Hk f Hfa) as Hfk.
    rewrite inputs_step by done. change (0 =? 0) with true. cbn [length] in Hf. pose proof (overlapping_snoc b e passed f) as Es.
    assert (all = (passed ++ [f]) ++ rest) as Ha' by by rewrite <- app_assoc.
    destruct (bool_decide (touches b e f)) eqn:Et.
    + destruct (starts_before b f) eqn:Esb; [|destruct (ends_after e f) eqn:Eea].
      * destruct b as [k|]; [|done]. apply (IH [] all); [done| |done|pose proof (sticking_start all f k e Hfa Esb); nia].
        eapply widens_trans; [exact Hw|]. split; [|by apply widens_refl]. cbn in Esb. apply Z.ltb_lt in Esb. lia.
      * destruct e as [k|]; [|done]. apply (IH [] all); [done| |done|pose proof (sticking_end all f b k Hfa Eea); nia].
        eapply widens_trans; [exact Hw|]. split; [by apply (widens_refl b None)|]. cbn in Eea. apply Z.ltb_lt in Eea. apply ucmp_swap in Eea. lia.
      * rewrite <- Es. apply IH; [done|done| |lia]. rewrite Es. apply List.Forall_app. split; [done|]. by apply Forall_singleton.
    + rewrite app_nil_r in Es. rewrite <- Es. apply IH; [done|done|by rewrite Es|lia].
Qed.

(** The key of a bound. *)
Definition bound_ok (b : option bytes) : Prop := match b with Some k => ikey_ok k | None => True end.

Lemma GetOverlappingInputs_ok v level files b e : 0 <= level < Config.kNumLevels → files_ v !! Z.to_nat level = Some files → Forall file_keys files →
  bound_ok b → bound_ok e → ∃ inputs, GetOverlappingInputs C v level b e = Ok inputs ∧
    if level =? 0 then level0_inputs (ukey <$> b) (ukey <$> e) files inputs else inputs = overlapping (ukey <$> b) (ukey <$> e) files.
Proof.
  intros Hl Hv Hk Hb He. unfold GetOverlappingInputs. rewrite (proj2 (Z.leb_le 0 level)), (proj2 (Z.ltb_lt level _)) by lia. cbn [andb SkipList.assert_].
  unfold mbind, res_bind. assert (match b with Some b => match user_key b with Ok k => Ok (Some k) | UB => UB | NoFuel => NoFuel end | None => Ok None end = Ok (ukey <$> b)) as ->.
  { destruct b as [k|]; [|done]. by rewrite user_key_ok. }
  assert (match e with Some b => match user_key b with Ok k => Ok (Some k) | UB => UB | NoFuel => NoFuel end | None => Ok None end = Ok (ukey <$> e)) as ->.
  { destruct e as [k|]; [|done]. by rewrite user_key_ok. }
  unfold level_files. rewrite Hv. cbn [of_option]. destruct (Z.eqb_spec level 0) as [->|N].
  - apply (inputs_level0 files (ukey <$> b) (ukey <$> e) Hk _ [] files); [done|apply widens_refl|constructor|].
    unfold inputs_fuel, sticking. pose proof (List.filter_length_le (starts_before (ukey <$> b)) files). pose proof (List.filter_length_le (ends_after (ukey <$> e)) files). nia.
  - eexists. split; [|done]. apply (inputs_other level files files _ _ _ []); [done|done|]. unfold inputs_fuel. nia.
Qed.

(** ** The level of a new file *)

(** The files of a version: in order from level 1 on. *)
Record version_ok (v : Version) : Prop := {
  vo_levels : length (files_ v) = 7%nat;
  vo_level0 files : files_ v !! 0%nat = Some files → Forall file_keys files;
  vo_others l files : files_ v !! S l = Some files → disjoint_level files
}.

Lemma disjoint_keys files : disjoint_level files → Forall file_keys files.
Proof. intros [[Hk _ _] _ _ _]. exact Hk. Qed.

Lemma version_files v l : version_ok v → (l < 7)%nat → ∃ files, files_ v !! l = Some files ∧ Forall file_keys files ∧ (l ≠ 0%nat → disjoint_level files).
Proof.
  intros [H1 H2 H3] Hl. destruct (lookup_lt_is_Some_2 (files_ v) l) as [files Hf]; [lia|]. exists files. split; [done|]. destruct l as [|l].
  - split; [by apply H2|done].
  - split; [apply disjoint_keys|intros _]; by eapply H3.
Qed.

Lemma OverlapInLevel_ok v l b e : version_ok v → (l < 7)%nat → ∃ files, files_ v !! l = Some files ∧
  OverlapInLevel C v (Z.of_nat l) b e = Ok (existsb (λ f, bool_decide (touches b e f)) files).
Proof.
  intros Hv Hl. destruct (version_files v l Hv Hl) as (files & Hf & Hk & Hd). exists files. split; [done|].
  unfold OverlapInLevel, level_files, mbind, res_bind. rewrite Nat2Z.id, Hf. cbn [of_option]. apply SomeFileOverlapsRange_ok.
  destruct l as [|l]; [done|]. rewrite (proj2 (Z.ltb_lt 0 _)) by lia. by apply Hd.
Qed.

(** No file of the level has keys of the range. *)
Definition clear_of v (l : nat) (s g : bytes) : Prop := ∀ files f, files_ v !! l = Some files → f ∈ files → ¬ touches (Some s) (Some g) f.

Lemma no_overlap v l s g files : files_ v !! l = Some files → existsb (λ f, bool_decide (touches (Some s) (Some g) f)) files = false → clear_of v l s g.
Proof.
  intros Hf Hn files' f Hf' Hin Ht. rewrite Hf in Hf'. injection Hf' as <-. apply not_true_iff_false in Hn. apply Hn, existsb_exists. exists f.
  split; [by apply list_elem_of_In|by apply bool_decide_eq_true].
Qed.

Lemma max_grandparent m : 0 <= m < 2 ^ 31 → 10 * m < 2 ^ 31 → MaxGrandParentOverlapBytes m = Ok (10 * m).
Proof.
  intros H1 H2. unfold MaxGrandParentOverlapBytes, TargetFileSize, s32. rewrite swrap_small by lia. unfold int_product.
  by rewrite (proj2 (Z.leb_le _ _)), (proj2 (Z.ltb_lt _ _)) by lia.
Qed.

Lemma pick_loop_ok m v s g start limit : version_ok v → 0 <= m → 10 * m < 2 ^ 31 → ikey_ok start → ikey_ok limit → ∀ n l, (l + n = 3)%nat → (l <= 2)%nat →
  (∀ k, (k <= l)%nat → clear_of v k s g) → ∃ L, pick_loop C n m v s g start limit (Z.of_nat l) = Ok (Z.of_nat L) ∧ (l <= L <= 2)%nat ∧
    ∀ k, (k <= L)%nat → clear_of v k s g.
Proof.
  intros Hv H0 Hm Hs Hg. induction n as [|n IH]; intros l Hl Hl2 Hc; cbn [pick_loop]; [lia|].
  unfold Config.kMaxMemCompactLevel. destruct (Z.ltb_spec (Z.of_nat l) 2) as [L|L]; [|exists l; split; [done|]; split; [lia|done]].
  replace (Z.of_nat l + 1) with (Z.of_nat (S l)) by lia. destruct (OverlapInLevel_ok v (S l) (Some s) (Some g) Hv ltac:(lia)) as (files & Hf & ->).
  unfold mbind, res_bind. destruct (existsb _ files) eqn:Ex; [exists l; split; [done|]; split; [lia|done]|].
  pose proof (no_overlap v (S l) s g files Hf Ex) as Hcl. unfold Config.kNumLevels. replace (Z.of_nat l + 2) with (Z.of_nat (S (S l))) by lia.
  destruct (version_files v (S (S l)) Hv ltac:(lia)) as (files2 & Hf2 & Hk2 & _). rewrite (proj2 (Z.ltb_lt _ 7)) by lia.
  destruct (GetOverlappingInputs_ok v (Z.of_nat (S (S l))) files2 (Some start) (Some limit)) as (inputs & -> & _); try done.
  { unfold Config.kNumLevels. lia. } { by rewrite Nat2Z.id. }
  rewrite max_grandparent by lia. destruct (_ <? TotalFileSize inputs); [exists l; split; [done|]; split; [lia|done]|].
  destruct (IH (S l)) as (K & E & HK & Hcc); [lia|lia| |exists K; split; [exact E|]; split; [lia|done]].
  intros k Hk. destruct (decide (k = S l)) as [->|]; [done|]. apply Hc. lia.
Qed.

Lemma PickLevel_ok m v s g : version_ok v → 0 <= m → 10 * m < 2 ^ 31 → ∃ L, PickLevelForMemTableOutput C m v s g = Ok (Z.of_nat L) ∧ (L <= 2)%nat ∧
  (L ≠ 0%nat → ∀ k, (k <= L)%nat → clear_of v k s g).
Proof.
  intros Hv H0 Hm. unfold PickLevelForMemTableOutput. destruct (OverlapInLevel_ok v 0 (Some s) (Some g) Hv ltac:(lia)) as (files & Hf & E).
  change (Z.of_nat 0) with 0 in E. rewrite E. unfold mbind, res_bind. destruct (existsb _ files) eqn:Ex; [exists 0%nat; split; [done|split; [lia|done]]|].
  rewrite new_first. assert (Internal.new g 0 Internal.kTypeDeletion = Ok (internal g 0)) as -> by done.
  pose proof (no_overlap v 0 s g files Hf Ex) as Hc. change (S (Z.to_nat Config.kMaxMemCompactLevel)) with 3%nat.
  destruct (pick_loop_ok m v s g (first_key s) (internal g 0) Hv H0 Hm (first_key_ok s) ltac:(exists g, 0; split; [by apply split_internal_internal|done]) 3 0) as (L & EL & HL & Hcl).
  - done.
  - lia.
  - intros k Hk. by replace k with 0%nat by lia.
  - exists L. split; [exact EL|]. split; [lia|done].
Qed.
End search.

(** C34: ranges of files. In a version whose levels from 1 on are in order and apart, the
    test whether some file of a level overlaps a range of user keys, with its binary
    search, is the test of all files. [GetOverlappingInputs] ends and gives the files that
    overlap the range; in level 0, those that overlap a range that contains it and
    contains all of them, so that no file is left out that shares a key with one of
    them. A new file goes to level 0, or to a level at most 2 such that no file of that
    level or of a level above it overlaps its keys. *)
Theorem overlapping_correct C valid ord v : Lawful C (λ _, True) valid ord → version_ok ord v →
  (∀ l b e, (l < 7)%nat → bound_ok b → bound_ok e → ∃ files inputs, files_ v !! l = Some files ∧
     OverlapInLevel C v (Z.of_nat l) (ukey <$> b) (ukey <$> e) =
       Ok (existsb (λ f, bool_decide (touches ord (ukey <$> b) (ukey <$> e) f)) files) ∧
     GetOverlappingInputs C v (Z.of_nat l) b e = Ok inputs ∧
     if (l =? 0)%nat then level0_inputs ord (ukey <$> b) (ukey <$> e) files inputs
     else inputs = overlapping ord (ukey <$> b) (ukey <$> e) files) ∧
  (∀ m s g, 0 <= m → 10 * m < 2 ^ 31 → ∃ L, PickLevelForMemTableOutput C m v s g = Ok (Z.of_nat L) ∧ (L <= 2)%nat ∧
     (L ≠ 0%nat → ∀ k, (k <= L)%nat → clear_of ord v k s g)).
Proof.
  intros HC Hv. split.
  - intros l b e Hl Hb He. destruct (OverlapInLevel_ok C valid ord v l (ukey <$> b) (ukey <$> e) Hv Hl) as (files & Hf & Eo).
    destruct (version_files ord v l Hv Hl) as (files' & Hf' & Hk & _). rewrite Hf in Hf'. injection Hf' as <-.
    destruct (GetOverlappingInputs_ok C valid ord v (Z.of_nat l) files b e) as (inputs & Eg & Hi); try done.
    { unfold Config.kNumLevels. lia. } { by rewrite Nat2Z.id. }
    exists files, inputs. split; [done|]. split; [exact Eo|]. split; [exact Eg|]. by destruct l.
  - intros m s g H0 Hm. by apply (PickLevel_ok C valid ord).
Qed.

Definition example_file (n : nat) (size : Z) (s g : bytes) : File := mkFilePtr n (VersionEdit.new_file (Z.of_nat n) size (internal s 257) (internal g 257)).
Definition example_version : Version :=
  mkVersion 1 [[example_file 1 100 [99] [102]; example_file 2 100 [101] [104]; example_file 3 100 [107] [109]];
    [example_file 4 50 [98] [99]; example_file 5 50 [100] [105]]; [example_file 6 10 [120] [121]]; []; []; []; []] None (-1) (SpecFloat.S754_zero false) 0.

Lemma example_version_ok : version_ok bytewise_order example_version.
Proof.
  assert (∀ n z s g, Forall is_byte s → Forall is_byte g → file_keys (example_file n z s g)) as Hf.
  { intros n z s g Hs Hg. split; [exists s, 257|exists g, 257]; (split; [by apply split_internal_internal|done]). }
  assert (disjoint_level bytewise_order []) as Hnil.
  { split; [split; [constructor|constructor|cbn; lia]|constructor|constructor|by intros i j f g]. }
  split; [done| |].
  - intros files [= <-]. repeat constructor; apply Hf; forall_list.
  - intros l files Hl. destruct l as [|[|[|[|[|[|l]]]]]]; [injection Hl as <-..|done]; [| |exact Hnil..].
    + split; [split| | |].
      * repeat constructor; apply Hf; forall_list.
      * repeat constructor; vm_compute; done.
      * cbn. lia.
      * repeat constructor; vm_compute; done.
      * repeat constructor; vm_compute; done.
      * intros i j f g Hi Hj L. destruct i as [|[|i]], j as [|[|j]]; try done; try lia. injection Hi as <-. injection Hj as <-. vm_compute. done.
    + split; [split| | |].
      * repeat constructor; apply Hf; forall_list.
      * repeat constructor; vm_compute; done.
      * cbn. lia.
      * repeat constructor; vm_compute; done.
      * repeat constructor; vm_compute; done.
      * intros i j f g Hi Hj L. destruct i, j; try done; lia.
Qed.

Lemma overlapping_correct_witness :
  (∃ L, PickLevelForMemTableOutput Bytewise.BytewiseComparator 2097152 example_version [110] [111] = Ok (Z.of_nat L) ∧ (L <= 2)%nat) ∧
  (∃ files inputs, files_ example_version !! 0%nat = Some files ∧
     GetOverlappingInputs Bytewise.BytewiseComparator example_version 0 (Some (internal [103] 5)) (Some (internal [103] 5)) = Ok inputs ∧
     level0_inputs bytewise_order (Some [103]) (Some [103]) files inputs ∧ length inputs = 2%nat).
Proof.
  destruct (overlapping_correct Bytewise.BytewiseComparator _ _ example_version bytewise_lawful example_version_ok) as [H1 H2]. split.
  - destruct (H2 2097152 [110] [111]) as (L & E & HL & _); [lia|lia|by exists L].
  - destruct (H1 0%nat (Some (internal [103] 5)) (Some (internal [103] 5))) as (files & inputs & Hf & _ & Eg & Hi); [lia|exists [103], 5; done|exists [103], 5; done|].
    exists files, inputs. split; [done|]. split; [done|]. split; [exact Hi|].
    assert ((l ← GetOverlappingInputs Bytewise.BytewiseComparator example_version 0 (Some (internal [103] 5)) (Some (internal [103] 5)); Ok (length l)) = Ok 2%nat) as E
      by (vm_compute; reflexivity).
    change (Z.of_nat 0) with 0 in Eg. rewrite Eg in E. unfold mbind, res_bind in E. by injection E.
Defined.
