(* ===== verification/LdbVersionGet.v ===== *)
(** Lookups in a version: [Version::Get] answers with the newest entry of the key that the
    snapshot sees, in all of the files. *)
From Stdlib Require Import Sorting.Sorted.
From stdpp Require Import sorting.
From S2P Require Import Prelude LdbSkip LdbSkipLemmas LdbFormat LdbCodingProps LdbOrder LdbKeyProps LdbMemTable LdbMemTableProps LdbIterator LdbMerger LdbTwoLevel LdbTable LdbVersionEdit LdbVersion LdbVersionProps.
Import MemTable Version.
#[local] Arguments FindFile : simpl never.

(** * What the cache of tables promises

    [stored n z l]: the file with number [n] and size [z] is a table of the entries [l]. A
    lookup calls back with the entry that a seek finds, or not at all; it does call back if
    that entry has the user key that was asked for. *)
Class TableLaws (T TI : Type) `{TableCache T TI} `{Iterator TI} (ord : Comparator bytes) (stored : Z → Z → entries → Prop) (cached : T → Prop) : Prop := {
  tables_Get o n z l k c : stored n z l → ikey_ok k → cached c →
    ∃ saved c', table_Get o n z k c = Ok (Status.OK, saved, c') ∧ cached c' ∧
      (∀ e, saved = Some e → l !! seek_index (ord := internal_order ord) l k = Some e) ∧
      (∀ e, l !! seek_index (ord := internal_order ord) l k = Some e → ord (ukey e.1) (ukey k) = 0 → saved = Some e);
  tables_NewIterator o n z l c : stored n z l → cached c →
    ∃ i c' ready at_, table_NewIterator o n z c = Ok (i, c') ∧ cached c' ∧ ready i ∧ Iterates (ord := internal_order ord) TI l ikey_ok ready at_
}.

Section get.
Context (C : SliceComparator) (valid : bytes → Prop) (ord : Comparator bytes) `{!Lawful C (λ _, True) valid ord}.
Context {T TI : Type} `{TableCache T TI} `{Iterator TI} (stored : Z → Z → entries → Prop) (cached : T → Prop) `{!TableLaws T TI ord stored cached}.
#[local] Instance iord : Comparator bytes := internal_order ord.
#[local] Abbreviation ucmp := (@compare_ bytes ord).
#[local] Abbreviation entry_less := (λ a b, entry_cmp ord a b < 0).
Implicit Types (f : File) (files : list File) (e : entry) (es : list entry).

#[local] Instance uord : Order bytes (H := ord).
Proof. exact (lawful_order (Lawful := Lawful0)). Qed.

(** * Sequences of entries *)

(** All entries of [a] are newer than those of [b] with the same key. *)
Definition newer (a b : list entry) : Prop :=
  ∀ e e', e ∈ a → e' ∈ b → ucmp (e_key e) (e_key e') = 0 → e_num e' < e_num e.

Lemma answers_none_inv a u s : answers ord a u s g_none → ∀ e, e ∈ a → ¬ visible ord u s e.
Proof.
  intros Ha. inversion Ha as [Hn|e He Hv _ E]; [by apply list.Forall_forall|]. unfold found in E. destruct (e_type e); discriminate.
Qed.

Lemma answers_none_app a b u s r : answers ord a u s g_none → answers ord b u s r → answers ord (a ++ b) u s r.
Proof.
  intros Ha. pose proof (answers_none_inv _ _ _ Ha) as Hn.
  intros [Hb|e He Hv Hm].
  - apply answers_none, List.Forall_app. split; [by apply list.Forall_forall|done].
  - apply answers_found; [apply elem_of_app; by right|done|]. intros e' He' Hv'. apply elem_of_app in He' as [He'|He']; [by destruct (Hn e' He')|by apply Hm].
Qed.

Lemma answers_newer a b u s r : newer a b → r ≠ g_none → answers ord a u s r → answers ord (a ++ b) u s r.
Proof.
  intros Hn Hr Ha. destruct Ha as [Ha|e He Hv Hm]; [by destruct Hr|]. apply answers_found; [apply elem_of_app; by left|done|].
  intros e' He' Hv'. apply elem_of_app in He' as [He'|He']; [by apply Hm|]. right. apply (Hn e e'); [done..|].
  destruct Hv as [E _], Hv' as [E' _]. eapply cmp_zero_trans; [exact E|by apply cmp_zero_swap].
Qed.

Lemma answers_invisible a b u s r : Forall (λ e, ¬ visible ord u s e) b → answers ord a u s r → answers ord (a ++ b) u s r.
Proof.
  intros Hb Ha. apply answers_perm with (b ++ a); [apply Permutation_app_comm|]. by apply answers_none_app; [apply answers_none|].
Qed.

Lemma cmp_of e k num : fits e → 0 <= num < 2 ^ 64 →
  @compare_ bytes iord (e_internal e) (internal k num) = then_down ucmp (e_key e, e_num e) (k, num).
Proof.
  intros He Hn. unfold compare_, iord, internal_order, via, e_internal.
  rewrite !split_internal_internal; [done|done|]. apply pack_range, He.
Qed.

Lemma cmp_entries a b : fits a → fits b → @compare_ bytes iord (e_internal a) (e_internal b) = entry_cmp ord a b.
Proof. intros Ha Hb. unfold e_internal at 2. rewrite cmp_of; [done..|]. apply pack_range, Hb. Qed.

Lemma e_internal_key e : fits e → ikey_ok (e_internal e).
Proof. intros He. exists (e_key e), (e_num e). split; [|done]. apply split_internal_internal, pack_range, He. Qed.

Lemma ukey_internal e : fits e → ukey (e_internal e) = e_key e.
Proof. intros He. unfold ukey, e_internal. rewrite split_internal_internal; [done|]. apply pack_range, He. Qed.

Lemma ascending_entries es : Forall fits es → StronglySorted entry_less es → ascending (ord := iord) (pair_of <$> es).
Proof.
  intros Hf Hs. unfold ascending. rewrite <- list_fmap_compose. induction Hs as [|e es Hs IH Hall]; [constructor|].
  apply list.Forall_cons in Hf as [He Hf]. cbn. constructor; [by apply IH|]. apply list.Forall_fmap, list.Forall_forall.
  intros b Hb. change (@compare_ bytes iord (e_internal e) (e_internal b) < 0). rewrite list.Forall_forall in Hall, Hf. rewrite cmp_entries by auto. by apply Hall.
Qed.

(** What the entry that a seek finds means. *)
Definition decides (u : bytes) (o : option entry) : Found :=
  match o with Some e => if ucmp (e_key e) u =? 0 then found e else g_none | None => g_none end.

Lemma seek_answers es u s : Forall fits es → StronglySorted entry_less es → 0 <= s < 2 ^ 56 →
  answers ord es u s (decides u (es !! seek_index (ord := iord) (pair_of <$> es) (internal u (seek_num s)))).
Proof.
  intros Hf Hs Hsn. pose proof (ascending_entries es Hf Hs) as Ha. assert (0 <= seek_num s < 2 ^ 64) as Hk by by apply pack_range.
  set (i := seek_index _ _). rewrite <- (take_drop i es) at 1. rewrite <- (Nat.add_0_r i) at 3. rewrite <- lookup_drop.
  assert (∀ j e, es !! j = Some e → (pair_of <$> es) !! j = Some (pair_of e)) as Hl by (intros j e E; by rewrite list_lookup_fmap, E).
  replace (decides u (drop i es !! 0%nat)) with (match drop i es with e :: _ => if ucmp (e_key e) u =? 0 then found e else g_none | [] => g_none end) by by destruct (drop i es).
  apply (first_answers C valid ord).
  - clear -Hs. rewrite <- (take_drop i es) in Hs. by apply StronglySorted_app in Hs as (_ & _ & ?).
  - apply list.Forall_lookup. intros j e Hj. apply lookup_take_Some in Hj as [Hj L].
    pose proof (seek_index_before _ _ _ _ L (Hl _ _ Hj)) as Hc. cbn [fst pair_of] in Hc. rewrite cmp_of in Hc; [done| |done].
    exact (proj1 (list.Forall_lookup _ _) Hf _ _ Hj).
  - apply list.Forall_lookup. intros j e Hj. rewrite lookup_drop in Hj.
    pose proof (seek_index_after _ _ _ _ Ha (Nat.le_add_r i j) (Hl _ _ Hj)) as Hc. cbn [fst pair_of] in Hc. rewrite cmp_of in Hc; [done| |done].
    exact (proj1 (list.Forall_lookup _ _) Hf _ _ Hj).
Qed.

(** * Reading one file *)

Variable content : File → list entry.

(** The table of a file; its first and last entries have its smallest and largest keys. *)
Record file_holds f : Prop := {
  fh_stored : stored (number (meta f)) (file_size (meta f)) (pair_of <$> content f);
  fh_fits : Forall fits (content f);
  fh_sorted : StronglySorted entry_less (content f);
  fh_first : e_internal <$> head (content f) = Some (smallest (meta f));
  fh_last : e_internal <$> list.last (content f) = Some (largest (meta f))
}.

Definition outcome (r : Found) : option Status.Status :=
  match r with g_value _ => Some Status.OK | g_deleted => Some (Status.NotFound "") | g_none => None end.
Definition value_of (r : Found) (value : bytes) : bytes := match r with g_value v => v | _ => value end.

(** The callback. *)
Lemma SaveValue_ok u value e : fits e → SaveValue C (mkSaver kNotFound u value) (e_internal e) (e_value e) =
  Ok (mkSaver (match decides u (Some e) with g_value _ => kFound | g_deleted => kDeleted | g_none => kNotFound end) u (value_of (decides u (Some e)) value)).
Proof.
  intros He. unfold SaveValue, e_internal, e_num.
  pose proof (ParseInternalKey_internal (Internal.mkParsed (e_key e) (e_seq e) (e_type e)) (fits_seq _ He)) as E. cbn [Internal.user_key Internal.sequence Internal.type] in E.
  rewrite E. unfold mbind, res_bind. cbn [Internal.user_key Internal.sequence Internal.type saver_user_key value_]. rewrite (lawful_compare _ _ I I).
  unfold decides, found. destruct (ucmp (e_key e) u =? 0); [|done]. by destruct (e_type e).
Qed.

(** Files that may be charged for a seek are files of the version. *)
Definition listed (v : Version) (f : File) (level : Z) : Prop := ∃ files, files_ v !! Z.to_nat level = Some files ∧ f ∈ files.
Record get_ok (v : Version) (g : GetState) : Prop := {
  go_cached : cached (cache_ g);
  go_last f level : last_file_read g = Some (f, level) → listed v f level;
  go_seek f : seek_file (stats g) = Some f → listed v f (seek_file_level (stats g))
}.

Definition target (u : bytes) (s : Z) : bytes := internal u (seek_num s).
Lemma target_ok u s : 0 <= s < 2 ^ 56 → ikey_ok (target u s).
Proof. intros Hs. exists u, (seek_num s). split; [|done]. apply split_internal_internal. by apply pack_range. Qed.
Lemma target_ukey u s : 0 <= s < 2 ^ 56 → ukey (target u s) = u.
Proof. intros Hs. unfold ukey, target. rewrite split_internal_internal; [done|]. by apply pack_range. Qed.

Lemma get_file_ok o v level f g u s : file_holds f → listed v f level → get_ok v g → 0 <= s < 2 ^ 56 →
  ∃ r g', get_file C o u (target u s) level f g = Ok (outcome r, g') ∧ answers ord (content f) u s r ∧ get_ok v g' ∧
    got_value g' = value_of r (got_value g).
Proof.
  intros [Hst Hf Hs _ _] Hl [Hc Hlast Hseek] Hsn. unfold get_file.
  destruct (tables_Get (TableLaws := TableLaws0) o _ _ _ (target u s) (cache_ g) Hst (target_ok u s Hsn) Hc) as (saved & c' & -> & Hc' & H1 & H2). rewrite target_ukey in H2 by done.
  unfold mbind, res_bind.
  set (st := match last_file_read g with Some _ => _ | None => _ end).
  assert (∀ f', seek_file st = Some f' → listed v f' (seek_file_level st)) as Hst'.
  { unfold st. intros f'. destruct (last_file_read g) as [[lf ll]|] eqn:E1; [|apply Hseek]. destruct (seek_file (stats g)) as [sf|] eqn:E2.
    - intros E. apply Hseek. congruence.
    - cbn. intros [= <-]. by apply Hlast. }
  pose proof (seek_answers (content f) u s Hf Hs Hsn) as Ha. fold (target u s) in Ha. set (i := seek_index _ _) in *.
  set (r := decides u (content f !! i)) in *.
  assert (match saved with Some (sk, sv) => SaveValue C (mkSaver kNotFound u (got_value g)) sk sv | None => Ok (mkSaver kNotFound u (got_value g)) end =
    Ok (mkSaver (match r with g_value _ => kFound | g_deleted => kDeleted | g_none => kNotFound end) u (value_of r (got_value g)))) as ->.
  { unfold r. destruct saved as [[sk sv]|].
    - specialize (H1 _ eq_refl). change (@seek_index (internal_order ord)) with (@seek_index iord) in H1. fold i in H1. rewrite list_lookup_fmap in H1.
      destruct (content f !! i) as [e|] eqn:Ei; [|done]. injection H1 as <- <-. apply SaveValue_ok. exact (proj1 (list.Forall_lookup _ _) Hf _ _ Ei).
    - destruct (content f !! i) as [e|] eqn:Ei; [|done]. unfold decides. destruct (Z.eqb_spec (ucmp (e_key e) u) 0) as [E|E]; [|done]. exfalso.
      assert (None = Some (pair_of e)) as [=]. apply H2.
      + change (@seek_index (internal_order ord)) with (@seek_index iord). fold i. by rewrite list_lookup_fmap, Ei.
      + cbn [fst pair_of]. rewrite ukey_internal; [exact E|]. exact (proj1 (list.Forall_lookup _ _) Hf _ _ Ei). }
  cbn [Status.ok negb state value_]. exists r. assert (∀ lv g', lv = Some (f, level) → get_ok v (mkGet lv st g' c')) as Hg by (intros lv g' ->; split; [done|by intros ? ? [= <- <-]|done]).
  destruct r as [x| |]; cbn; (eexists; split; [done|]; split; [done|]; split; [by apply Hg|done]).
Qed.

Lemma get_files_ok o v level l u s : ∀ g, Forall file_holds l → Forall (λ f, listed v f level) l → get_ok v g → 0 <= s < 2 ^ 56 →
  StronglySorted (λ f f', newer (content f) (content f')) l →
  ∃ r g', get_files C o u (target u s) level l g = Ok (outcome r, g') ∧ answers ord (concat (content <$> l)) u s r ∧ get_ok v g' ∧
    got_value g' = value_of r (got_value g).
Proof.
  induction l as [|f l IH]; intros g Hf Hl Hg Hs Hn.
  - exists g_none, g. split; [done|]. split; [by apply answers_none|done].
  - apply list.Forall_cons in Hf as [Hf Hfs], Hl as [Hl Hls]. apply StronglySorted_inv in Hn as [Hn Hnf].
    destruct (get_file_ok o v level f g u s Hf Hl Hg Hs) as (r & g1 & E & Ha & Hg1 & Hv1). cbn [get_files]. rewrite E. unfold mbind, res_bind.
    assert (newer (content f) (concat (content <$> l))) as Hnew.
    { intros e e' He He'. apply list_elem_of_In, in_concat in He' as (x & Hx & He'). apply list_elem_of_In, list_elem_of_fmap in Hx as (f' & -> & Hf').
      rewrite list.Forall_forall in Hnf. apply (Hnf f' Hf'); [done|by apply list_elem_of_In]. }
    destruct r as [x| |]; cbn [outcome].
    + exists (g_value x), g1. split; [done|]. split; [by apply answers_newer|done].
    + exists g_deleted, g1. split; [done|]. split; [by apply answers_newer|done].
    + destruct (IH g1 Hfs Hls Hg1 Hs Hn) as (r & g2 & E2 & Ha2 & Hg2 & Hv2). exists r, g2. split; [done|]. split; [by apply answers_none_app|].
      split; [done|]. by rewrite Hv2, Hv1.
Qed.

(** * The files of level 0 *)

Lemma entry_less_key a b : entry_less a b → ucmp (e_key a) (e_key b) <= 0.
Proof. unfold entry_cmp, then_down. cbn [fst snd]. destruct (Z.eqb_spec (ucmp (e_key a) (e_key b)) 0); lia. Qed.

Lemma entry_less_num a b : entry_less a b → ucmp (e_key a) (e_key b) = 0 → e_num b < e_num a.
Proof.
  unfold entry_cmp, then_down. cbn [fst snd]. intros L E. rewrite E in L. cbn [Z.eqb] in L.
  destruct (Z.ltb_spec (e_num b) (e_num a)); [done|]. destruct (_ <? _); lia.
Qed.

Lemma file_ends f : file_holds f → ∃ a z, fits a ∧ fits z ∧ a ∈ content f ∧ z ∈ content f ∧ smallest (meta f) = e_internal a ∧ largest (meta f) = e_internal z ∧
  ∀ e, e ∈ content f → (e = a ∨ entry_less a e) ∧ (e = z ∨ entry_less e z).
Proof.
  intros [_ Hf Hs Ha Hz]. destruct (content f) as [|a l] eqn:El; [done|]. injection Ha as Ha. destruct (list.last (a :: l)) as [z|] eqn:Ez; [|done]. injection Hz as Hz.
  apply last_Some in Ez as [l' Ez]. rewrite list.Forall_forall in Hf. exists a, z. split; [apply Hf; by left|]. split; [apply Hf; rewrite Ez; apply elem_of_app; right; by left|].
  split; [by left|]. split; [rewrite Ez; apply elem_of_app; right; by left|]. split; [done|]. split; [done|]. intros e He. split.
  - apply elem_of_cons in He as [->|He]; [by left|right]. apply StronglySorted_inv in Hs as [_ Hs]. rewrite list.Forall_forall in Hs. by apply Hs.
  - rewrite Ez in He, Hs. apply elem_of_app in He as [He|He%list_elem_of_singleton]; [right|by left]. apply StronglySorted_app in Hs as (Hs & _ & _). apply (Hs e z); [done|by left].
Qed.

Lemma file_holds_keys f : file_holds f → file_keys f.
Proof. intros Hf. destruct (file_ends f Hf) as (a & z & Ha & Hz & _ & _ & E1 & E2 & _). unfold file_keys. rewrite E1, E2. split; by apply e_internal_key. Qed.

(** The entries of a file are in its range. *)
Lemma file_range f e : file_holds f → e ∈ content f → ucmp (ukey (smallest (meta f))) (e_key e) <= 0 ∧ ucmp (e_key e) (ukey (largest (meta f))) <= 0.
Proof.
  intros Hf He. destruct (file_ends f Hf) as (a & z & Ha & Hz & _ & _ & -> & -> & Hr). rewrite !ukey_internal by done. destruct (Hr e He) as [H1 H2]. split.
  - destruct H1 as [->|L]; [rewrite cmp_refl; lia|by apply entry_less_key].
  - destruct H2 as [->|L]; [rewrite cmp_refl; lia|by apply entry_less_key].
Qed.

Definition hit (u : bytes) (f : File) : bool := (0 <=? ucmp u (ukey (smallest (meta f)))) && (ucmp u (ukey (largest (meta f))) <=? 0).

Lemma level0_overlapping_ok u files : Forall file_holds files → level0_overlapping C u files = Ok (List.filter (hit u) files).
Proof.
  induction 1 as [|f files Hf _ IH]; [done|]. destruct (file_holds_keys f Hf) as [K1 K2]. cbn [level0_overlapping List.filter].
  rewrite (user_key_ok _ K1). unfold mbind, res_bind. rewrite (lawful_compare _ _ I I). unfold hit at 1.
  destruct (0 <=? ucmp u (ukey (smallest (meta f)))); cbn [andb].
  - rewrite (user_key_ok _ K2), (lawful_compare _ _ I I), IH. by destruct (_ <=? 0).
  - by rewrite IH.
Qed.

Lemma hit_entry u s f e : file_holds f → e ∈ content f → visible ord u s e → hit u f = true.
Proof.
  intros Hf He [E _]. destruct (file_range f e Hf He) as [H1 H2]. unfold hit. apply andb_true_iff. split.
  - apply Z.leb_le. apply ucmp_neg with (C := C) (valid := valid); [done|]. eapply (ucmp_le_trans C valid ord); [exact H1|]. lia.
  - apply Z.leb_le. apply cmp_zero_swap in E. eapply (ucmp_le_trans C valid ord); [|exact H2]. lia.
Qed.

(** ** Sorting by number *)
#[local] Abbreviation num := (λ f, number (meta f)).

Lemma sorted_insert_perm f l : sorted_insert f l ≡ₚ f :: l.
Proof. induction l as [|g l IH]; [done|]. cbn. destruct (NewestFirst g f); [|done]. rewrite IH. apply Permutation_swap. Qed.
Lemma sort_newest_perm l : sort_newest l ≡ₚ l.
Proof. induction l as [|f l IH]; [done|]. cbn. by rewrite sorted_insert_perm, IH. Qed.

Lemma sorted_insert_sorted f l : num f ∉ num <$> l → StronglySorted (λ a b, num b < num a) l → StronglySorted (λ a b, num b < num a) (sorted_insert f l).
Proof.
  intros Hn Hs. induction Hs as [|g l Hs IH Hall]; [by repeat constructor|]. cbn in Hn. apply not_elem_of_cons in Hn as [Hn1 Hn]. cbn [sorted_insert]. unfold NewestFirst.
  destruct (Z.ltb_spec (num f) (num g)) as [L|L].
  - constructor; [by apply IH|]. rewrite sorted_insert_perm. by constructor.
  - constructor; [by constructor|]. constructor; [lia|]. eapply list.Forall_impl; [exact Hall|]. cbn. intros; lia.
Qed.
Lemma sort_newest_sorted l : NoDup (num <$> l) → StronglySorted (λ a b, num b < num a) (sort_newest l).
Proof.
  induction l as [|f l IH]; cbn; [constructor|]. intros [Hn Hd]%list.NoDup_cons. apply sorted_insert_sorted; [|by apply IH].
  by rewrite sort_newest_perm.
Qed.

Definition level_content (files : list File) : list entry := concat (content <$> files).

Lemma level_content_perm l l' : l ≡ₚ l' → level_content l ≡ₚ level_content l'.
Proof. intros P. unfold level_content. rewrite P. done. Qed.

Lemma filter_split {A} (p : A → bool) l : l ≡ₚ List.filter p l ++ List.filter (λ x, negb (p x)) l.
Proof.
  induction l as [|x l IH]; [done|]. cbn. destruct (p x); cbn; [by rewrite <- IH|]. rewrite <- Permutation_middle. by rewrite <- IH.
Qed.

Lemma elem_level_content e files : e ∈ level_content files ↔ ∃ f, f ∈ files ∧ e ∈ content f.
Proof.
  unfold level_content. rewrite list_elem_of_In, in_concat. split.
  - intros (l & Hl & He). apply list_elem_of_In, list_elem_of_fmap in Hl as (f & -> & Hf). exists f. split; [done|by apply list_elem_of_In].
  - intros (f & Hf & He). exists (content f). split; [|by apply list_elem_of_In]. apply list_elem_of_In, list_elem_of_fmap. by exists f.
Qed.

(** Files of level 0 with larger numbers are newer. *)
Record level0_holds files : Prop := {
  l0_files : Forall file_holds files;
  l0_numbers : NoDup (num <$> files);
  l0_newer f g : f ∈ files → g ∈ files → num g < num f → newer (content f) (content g)
}.

Lemma level0_get_ok o v files g u s : level0_holds files → files_ v !! 0%nat = Some files → get_ok v g → 0 <= s < 2 ^ 56 →
  ∃ l r g', search_list C 0 u (target u s) files = Ok l ∧ get_files C o u (target u s) 0 l g = Ok (outcome r, g') ∧
    answers ord (level_content files) u s r ∧ get_ok v g' ∧ got_value g' = value_of r (got_value g).
Proof.
  intros [Hf Hd Hnew] Hv Hg Hs. set (l := sort_newest (List.filter (hit u) files)).
  assert (l ⊆ files) as Hin. { intros f. unfold l. rewrite sort_newest_perm, !list_elem_of_In. intros []%filter_In. done. }
  destruct (get_files_ok o v 0 l u s g) as (r & g' & E & Ha & Hg' & Hv'); [| |done|done| |].
  - apply list.Forall_forall. intros f Hfl. rewrite list.Forall_forall in Hf. by apply Hf, Hin.
  - apply list.Forall_forall. intros f Hfl. exists files. split; [done|by apply Hin].
  - assert (StronglySorted (λ a b, num b < num a) l) as Hsl.
    { apply sort_newest_sorted. clear -Hd. induction files as [|f files IH]; [constructor|]. cbn in Hd. apply list.NoDup_cons in Hd as [Hn Hd]. cbn.
      destruct (hit u f); [|by apply IH]. cbn. apply list.NoDup_cons. split; [|by apply IH]. intros (g & E & Hg)%list_elem_of_fmap. apply Hn. rewrite E.
      apply list_elem_of_fmap. exists g. split; [done|]. apply list_elem_of_In in Hg. apply filter_In in Hg as [Hg _]. by apply list_elem_of_In. }
    clearbody l. induction Hsl as [|f l Hsl IH Hall]; constructor.
    + apply IH. intros x Hx. apply Hin. by right.
    + rewrite list.Forall_forall in Hall |- *. intros f' Hf'. apply Hnew; [apply Hin; by left|apply Hin; by right|by apply Hall].
  - exists l, r, g'. split.
    { unfold search_list. cbn [Z.eqb]. by rewrite level0_overlapping_ok. }
    split; [done|]. split; [|done].
    apply answers_perm with (level_content l ++ level_content (List.filter (λ f, negb (hit u f)) files)).
    { rewrite (level_content_perm files _ (filter_split (hit u) files)). unfold level_content. rewrite fmap_app, concat_app. apply Permutation_app_tail.
      apply level_content_perm. unfold l. by rewrite sort_newest_perm. }
    apply answers_invisible; [|exact Ha]. apply list.Forall_forall. intros e (f & Hff & He)%elem_level_content Hvis. apply list_elem_of_In in Hff. apply filter_In in Hff as [Hff Hh].
    rewrite list.Forall_forall in Hf. rewrite (hit_entry u s f e) in Hh; [done| |done|done]. apply Hf. by apply list_elem_of_In.
Qed.

(** * The files of another level *)

Record level_holds files : Prop := {
  lh_files : Forall file_holds files;
  lh_apart i j f g : files !! i = Some f → files !! j = Some g → (i < j)%nat → @compare_ bytes iord (largest (meta f)) (smallest (meta g)) < 0;
  lh_count : Z.of_nat (length files) < 2 ^ 31
}.

Lemma level_file_holds files i f : level_holds files → files !! i = Some f → file_holds f.
Proof. intros [Hf _ _]. apply (proj1 (list.Forall_lookup _ _) Hf). Qed.

(** Entries of a file come before those of a later file. *)
Lemma level_entries files i j f g e e' : level_holds files → files !! i = Some f → files !! j = Some g → (i < j)%nat → e ∈ content f → e' ∈ content g → entry_less e e'.
Proof.
  intros Hl Hf Hg L He He'. pose proof (lh_apart _ Hl i j f g Hf Hg L) as Ha.
  destruct (file_ends f (level_file_holds _ _ _ Hl Hf)) as (a0 & z & _ & Hz & _ & _ & _ & E1 & R1).
  destruct (file_ends g (level_file_holds _ _ _ Hl Hg)) as (a & z0 & Hfa & _ & _ & _ & E2 & _ & R2).
  rewrite E1, E2, cmp_entries in Ha by done. destruct (R1 e He) as [_ [Q1|L1]], (R2 e' He') as [[Q2|L2] _]; rewrite ?Q1, ?Q2; try done.
  all: pose proof (then_down_order (A := bytes) (H := ord)) as HO; unfold entry_cmp in *.
  - exact (cmp_trans (Order := HO) _ _ _ Ha L2).
  - exact (cmp_trans (Order := HO) _ _ _ L1 Ha).
  - exact (cmp_trans (Order := HO) _ _ _ L1 (cmp_trans (Order := HO) _ _ _ Ha L2)).
Qed.

Lemma file_smallest_largest f : file_holds f → @compare_ bytes iord (smallest (meta f)) (largest (meta f)) <= 0.
Proof.
  intros Hf. destruct (file_ends f Hf) as (a & z & Ha & Hz & Hin & _ & -> & -> & R). rewrite cmp_entries by done.
  destruct (R a Hin) as [_ [Q|L]]; [|lia]. rewrite Q. pose proof (then_down_order (A := bytes) (H := ord)) as HO. unfold entry_cmp. pose proof (cmp_refl (H0 := HO) (e_key z, e_num z)) as E.
  unfold compare_ in E at 1. lia.
Qed.

Lemma level_holds_ok files : level_holds files → level_ok ord files.
Proof.
  intros [Hf Ha Hn]. split; [|  |done].
  - eapply list.Forall_impl; [exact Hf|]. intros f. apply file_holds_keys.
  - unfold ascending, index_of. rewrite <- list_fmap_compose. apply StronglySorted_fmap with (R1 := λ f g, @compare_ bytes iord (largest (meta f)) (largest (meta g)) < 0); [done|].
    clear Hn. induction files as [|f files IH]; [constructor|]. apply list.Forall_cons in Hf as [Hf Hfs]. constructor.
    + apply IH; [done|]. intros i j a b Hi Hj L. by apply (Ha (S i) (S j)); [..|lia].
    + apply list.Forall_lookup. intros j g Hg. pose proof (Ha 0%nat (S j) f g eq_refl Hg ltac:(lia)) as L.
      pose proof (file_smallest_largest g (proj1 (list.Forall_lookup _ _) Hfs _ _ Hg)) as L'.
      pose proof (iord_order C valid ord) as HO. destruct (Z.eq_dec (@compare_ bytes iord (smallest (meta g)) (largest (meta g))) 0) as [E|N].
      * exact (cmp_eq_r (H0 := HO) _ _ _ L E).
      * apply (cmp_trans (Order := HO) _ _ _ L), Z.le_neq. by split.
Qed.

Lemma level_get_ok o v level files g u s : 0 < level → level_holds files → files_ v !! Z.to_nat level = Some files → get_ok v g → 0 <= s < 2 ^ 56 →
  ∃ l r g', search_list C level u (target u s) files = Ok l ∧ get_files C o u (target u s) level l g = Ok (outcome r, g') ∧
    answers ord (level_content files) u s r ∧ get_ok v g' ∧ got_value g' = value_of r (got_value g).
Proof.
  intros Hlev Hl Hv Hg Hs. unfold search_list. rewrite (proj2 (Z.eqb_neq level 0)) by lia. unfold level_candidate.
  rewrite (FindFile_ok C valid ord files (target u s) (level_holds_ok files Hl) (target_ok u s Hs)). unfold mbind, res_bind.
  set (i := seek_index _ _). rewrite Nat2Z.id.
  assert (∀ j f e, files !! j = Some f → (j < i)%nat → e ∈ content f → ¬ visible ord u s e) as Hbefore.
  { intros j f e Hf L He Hvis. destruct (file_ends f (level_file_holds _ _ _ Hl Hf)) as (a & z & _ & Hfz & _ & _ & _ & Ez & R).
    pose proof (seek_index_before _ _ j (largest (meta f), handle_of f) L) as Hc. rewrite file_index_lookup, Hf in Hc. specialize (Hc eq_refl). cbn [fst] in Hc.
    change (@compare_ bytes iord (largest (meta f)) (target u s) < 0) in Hc. rewrite Ez in Hc. unfold target in Hc. rewrite cmp_of in Hc by (try done; by apply pack_range).
    apply (visible_target ord) in Hvis. unfold to_target in Hvis. destruct (R e He) as [_ [Q|Lz]]; [rewrite Q in Hvis; lia|].
    pose proof (then_down_order (A := bytes) (H := ord)) as HO. pose proof (cmp_trans (Order := HO) _ _ _ Lz Hc). unfold compare_ in *. lia. }
  destruct (Z.leb_spec (Z.of_nat (length files)) (Z.of_nat i)) as [L|L].
  { exists [], g_none, g. split; [done|]. split; [done|]. split; [|done]. apply answers_none, list.Forall_forall.
    intros e (f & Hf & He)%elem_level_content. apply list_elem_of_lookup_1 in Hf as [j Hf]. pose proof (lookup_lt_Some _ _ _ Hf). eapply (Hbefore j); [exact Hf|lia|done]. }
  destruct (lookup_lt_is_Some_2 files i ltac:(lia)) as [f Hf]. rewrite Hf. cbn [of_option]. pose proof (level_file_holds _ _ _ Hl Hf) as Hfh.
  destruct (file_holds_keys f Hfh) as [K1 K2]. rewrite (user_key_ok _ K1), (lawful_compare _ _ I I).
  assert (level_content files = level_content (take i files) ++ content f ++ level_content (drop (S i) files)) as Ec.
  { rewrite <- (take_drop_middle _ _ _ Hf) at 1. unfold level_content. by rewrite fmap_app, concat_app. }
  assert (answers ord (level_content (take i files)) u s g_none) as Ha1.
  { apply answers_none, list.Forall_forall. intros e (f' & Hf' & He)%elem_level_content. apply list_elem_of_lookup_1 in Hf' as [j Hf'].
    apply lookup_take_Some in Hf' as [Hf' Lj]. by eapply (Hbefore j). }
  assert (∀ e e', e ∈ content f → e' ∈ level_content (drop (S i) files) → entry_less e e') as Hafter.
  { intros e e' He (f' & Hf' & He')%elem_level_content. apply list_elem_of_lookup_1 in Hf' as [j Hf']. rewrite lookup_drop in Hf'.
    by apply (level_entries files i (S i + j) f f' e e' Hl Hf Hf'); [lia|..]. }
  rewrite Ec. destruct (Z.ltb_spec (ucmp u (ukey (smallest (meta f)))) 0) as [Lu|Lu].
  - exists [], g_none, g. split; [done|]. split; [done|]. split; [|done]. apply answers_none_app; [done|]. apply answers_none, list.Forall_forall.
    destruct (file_ends f Hfh) as (a & z & Hfa & _ & Hina & _ & Ea & _ & R). rewrite Ea, (ukey_internal _ Hfa) in Lu.
    assert (∀ e, ucmp (e_key a) (e_key e) <= 0 → ¬ visible ord u s e) as Hno.
    { intros e Hle [E _]. apply cmp_swap in Lu. pose proof (ucmp_le_trans C valid ord _ _ u Hle ltac:(lia)). lia. }
    intros e He. apply Hno. apply elem_of_app in He as [He|He].
    + destruct (R e He) as [[->|Le] _]; [rewrite cmp_refl; lia|by apply entry_less_key].
    + by apply entry_less_key, Hafter.
  - destruct (get_file_ok o v level f g u s Hfh) as (r & g' & E & Ha & Hg' & Hv'); [exists files; split; [done|by eapply list_elem_of_lookup_2]|done|done|].
    exists [f], r, g'. split; [done|]. split.
    { cbn [get_files]. rewrite E. unfold mbind, res_bind. by destruct (outcome r). }
    split; [|done]. apply answers_none_app; [done|]. assert (r = g_none ∨ r ≠ g_none) as [->|Hr] by (destruct r; auto).
    + apply answers_invisible; [|done]. apply list.Forall_forall. intros e' He' Hvis'.
      destruct (file_ends f Hfh) as (a & z & _ & Hfz & _ & Hinz & _ & Ez & _).
      pose proof (Hafter z e' Hinz He') as Lz%entry_less_key. apply (answers_none_inv _ _ _ Ha z Hinz). destruct Hvis' as [E' _].
      pose proof (ucmp_le_trans C valid ord _ _ u Lz ltac:(lia)) as Lzu.
      assert (0 <= to_target ord u s z) as Ht.
      { change (0 <= then_down ucmp (e_key z, e_num z) (u, seek_num s)). rewrite <- (cmp_of z u (seek_num s) Hfz) by by apply pack_range. change (internal u (seek_num s)) with (target u s). rewrite <- Ez.
        apply (seek_index_after _ _ i (largest (meta f), handle_of f) (lv_ascending _ _ (level_holds_ok files Hl)) (le_n _)). by rewrite file_index_lookup, Hf. }
      apply (target_visible ord); [done|]. unfold to_target, then_down in Ht. cbn [fst snd] in Ht.
      destruct (Z.eqb_spec (ucmp (e_key z) u) 0); lia.
    + apply answers_newer; [|done|done]. intros e e' He He'. by apply entry_less_num, Hafter.
Qed.

(** * The version *)

Record version_holds (v : Version) : Prop := {
  vh_level0 files : files_ v !! 0%nat = Some files → level0_holds files;
  vh_others l files : files_ v !! S l = Some files → level_holds files;
  vh_newer l l' files files' : files_ v !! l = Some files → files_ v !! l' = Some files' → (l < l')%nat → newer (level_content files) (level_content files')
}.
Definition contents (v : Version) : list entry := concat (level_content <$> files_ v).

Lemma get_levels_ok o v u s : version_holds v → 0 <= s < 2 ^ 56 → ∀ levels n g, (∀ i, levels !! i = files_ v !! (n + i)%nat) → get_ok v g →
  ∃ r g', get_levels C o u (target u s) (Z.of_nat n) levels g = Ok (outcome r, g') ∧ answers ord (concat (level_content <$> levels)) u s r ∧
    get_ok v g' ∧ got_value g' = value_of r (got_value g).
Proof.
  intros Hv Hs. induction levels as [|files levels IH]; intros n g Hl Hg.
  { exists g_none, g. split; [done|]. split; [by apply answers_none|done]. }
  assert (files_ v !! n = Some files) as Hf by (rewrite <- (Nat.add_0_r n), <- Hl; done).
  assert (∀ i, levels !! i = files_ v !! (S n + i)%nat) as Hl'. { intros i. change (levels !! i) with ((files :: levels) !! S i). rewrite Hl. f_equal. lia. }
  specialize (IH (S n)). rewrite Nat2Z.inj_succ in IH. unfold Z.succ in IH. cbn [get_levels]. rewrite fmap_cons. cbn [concat].
  destruct (bool_decide_reflect (files = [])) as [->|Hne]; [exact (IH g Hl' Hg)|].
  assert (∃ l r g', search_list C (Z.of_nat n) u (target u s) files = Ok l ∧ get_files C o u (target u s) (Z.of_nat n) l g = Ok (outcome r, g') ∧
    answers ord (level_content files) u s r ∧ get_ok v g' ∧ got_value g' = value_of r (got_value g)) as (l & r & g1 & -> & E & Ha & Hg1 & Hv1).
  { destruct n as [|n]; [by apply level0_get_ok; [apply (vh_level0 v Hv)|..]|]. apply level_get_ok; [lia|by eapply (vh_others v Hv)|by rewrite Nat2Z.id|done|done]. }
  unfold mbind, res_bind. rewrite E.
  assert (newer (level_content files) (concat (level_content <$> levels))) as Hnew.
  { intros e e' He He'. apply list_elem_of_In, in_concat in He' as (x & Hx & He'). apply list_elem_of_In, list_elem_of_fmap in Hx as (files' & -> & Hx).
    apply list_elem_of_lookup_1 in Hx as [i Hi]. rewrite Hl' in Hi. apply (vh_newer v Hv n (S n + i)%nat files files' Hf Hi ltac:(lia)); [done|by apply list_elem_of_In]. }
  destruct r as [x| |]; cbn [outcome].
  - exists (g_value x), g1. split; [done|]. split; [by apply answers_newer|done].
  - exists g_deleted, g1. split; [done|]. split; [by apply answers_newer|done].
  - destruct (IH g1 Hl' Hg1) as (r & g2 & E2 & Ha2 & Hg2 & Hv2). exists r, g2. split; [exact E2|]. split; [by apply answers_none_app|].
    split; [done|]. by rewrite Hv2, Hv1.
Qed.

Lemma Get_ok o v u s value c : version_holds v → Slice.size u + 8 < 2 ^ 32 → 0 <= s < 2 ^ 56 → cached c →
  ∃ k r st c', Internal.lookup_key u s = Ok k ∧
    Get C v o k value c = Ok (match r with g_value _ => Status.OK | _ => Status.NotFound "" end, value_of r value, st, c') ∧
    answers ord (contents v) u s r ∧ cached c' ∧ (∀ f, seek_file st = Some f → listed v f (seek_file_level st)).
Proof.
  intros Hv Hu Hs Hc. rewrite lookup_key_ok by done. eexists.
  destruct (lookup_key_views u (pack s Internal.kTypeValue) (Slice.size u + 8) eq_refl) as [E1 E2]. fold (seek_num s) in *. fold (target u s) in *.
  destruct (get_levels_ok o v u s Hv Hs (files_ v) 0 (mkGet None (mkStats None (-1)) value c)) as (r & [lf st val c'] & E & Ha & [Hc' _ Hst] & Hval); [done|by split|].
  exists r, st, c'. split; [done|]. unfold Get. rewrite E1, E2. unfold mbind, res_bind. change (Z.of_nat 0) with 0 in E. rewrite E. cbn in *. subst val.
  split; [by destruct r|done].
Qed.
End get.

(** * Lookups *)

(** C9: lookups in a version. Let the tables of the files hold sorted entries whose first
    and last keys are those recorded for the file; in levels from 1 on let the files follow
    each other, in level 0 let files with larger numbers be newer, and let lower levels be
    newer than higher ones. Then [Version::Get] of any user key at any snapshot ends and
    answers with the newest of all entries of the key that the snapshot sees: its value
    with OK, and NotFound, with the value as it was, if it is a deletion or there is none.
    The file that is charged for a seek is a file of the level that is reported. *)
Theorem version_get_correct C valid ord T TI (HT : TableCache T TI) (HI : Iterator TI) stored cached content v o u s value c :
  Lawful C (λ _, True) valid ord → TableLaws T TI ord stored cached → version_holds ord stored content v →
  Slice.size u + 8 < 2 ^ 32 → 0 <= s < 2 ^ 56 → cached c →
  ∃ k r st c', Internal.lookup_key u s = Ok k ∧
    Get C v o k value c = Ok (match r with g_value _ => Status.OK | _ => Status.NotFound "" end,
                              match r with g_value x => x | _ => value end, st, c') ∧
    answers ord (contents content v) u s r ∧ cached c' ∧
    ∀ f, seek_file st = Some f → ∃ files, files_ v !! Z.to_nat (seek_file_level st) = Some files ∧ f ∈ files.
Proof. intros HC Hlaws Hv Hu Hs Hc. exact (Get_ok C valid ord stored cached content o v u s value c Hv Hu Hs Hc). Qed.

(** Tables in a map from their numbers. *)
#[export] Instance map_tables : TableCache (gmap Z entries) ListIterator := {|
  table_NewIterator o n z c := l ← of_option (c !! n); Ok (mkListIterator l None, c);
  table_Get o n z k c := l ← of_option (c !! n); Ok (Status.OK, l !! seek_index (ord := internal_order bytewise_order) l k, c)
|}.

Lemma map_tables_laws (m : gmap Z entries) :
  TableLaws (H := map_tables) (H0 := list_iterator (ord := internal_order bytewise_order)) (gmap Z entries) ListIterator bytewise_order (λ n z l, m !! n = Some l) (λ c, c = m).
Proof.
  split.
  - intros o n z l k c Hl Hk ->. unfold table_Get, map_tables. rewrite Hl. eexists _, _. split; [done|]. split; [done|]. split; [done|]. by intros e ->.
  - intros o n z l c Hl ->. unfold table_NewIterator, map_tables. rewrite Hl. eexists _, _, _, _. split; [done|]. split; [done|].
    split; [|exact (list_iterates (ord := internal_order bytewise_order) l ikey_ok)]. done.
Qed.

(** Two files of level 0 and two of level 1. *)
Definition value_entry (u : bytes) (s x : Z) : entry := mkEntry u s Internal.kTypeValue [x].
Definition example_content (f : File) : list entry :=
  match address f with
  | 1%nat => [value_entry [106] 5 1; value_entry [107] 4 2]
  | 2%nat => [mkEntry [107] 9 Internal.kTypeDeletion []]
  | 3%nat => [value_entry [97] 1 3; value_entry [107] 2 4]
  | 4%nat => [value_entry [109] 3 5]
  | _ => []
  end.
Definition example_get_file (n : nat) (a z : entry) : File := mkFilePtr n (VersionEdit.new_file (Z.of_nat n) 0 (e_internal a) (e_internal z)).
Definition example_get_version : Version :=
  mkVersion 1 [[example_get_file 1 (value_entry [106] 5 1) (value_entry [107] 4 2);
      example_get_file 2 (mkEntry [107] 9 Internal.kTypeDeletion []) (mkEntry [107] 9 Internal.kTypeDeletion [])];
    [example_get_file 3 (value_entry [97] 1 3) (value_entry [107] 2 4); example_get_file 4 (value_entry [109] 3 5) (value_entry [109] 3 5)];
    []; []; []; []; []] None (-1) (SpecFloat.S754_zero false) 0.
Definition example_tables : gmap Z entries :=
  list_to_map ((λ n : nat, (Z.of_nat n, pair_of <$> example_content (mkFilePtr n (VersionEdit.new_file 0 0 [] [])))) <$> [1; 2; 3; 4]%nat).

Ltac entry_cases := intros e e' He He'; repeat (apply elem_of_cons in He as [->|He]; [|]); try (by apply not_elem_of_nil in He);
  repeat (apply elem_of_cons in He' as [->|He']; [|]); try (by apply not_elem_of_nil in He'); vm_compute; try done.

Lemma example_get_holds : version_holds bytewise_order (λ n z l, example_tables !! n = Some l) example_content example_get_version.
Proof.
  assert (∀ f, f ∈ concat (files_ example_get_version) → file_holds bytewise_order (λ n z l, example_tables !! n = Some l) example_content f) as Hf.
  { intros f Hf. cbn in Hf. repeat (apply elem_of_cons in Hf as [->|Hf]; [split; [by vm_compute|repeat constructor; cbn; (lia || done)|repeat constructor; vm_compute; done|done|done]|]). by apply not_elem_of_nil in Hf. }
  split.
  - intros files [= <-]. split.
    + apply list.Forall_forall. intros f Hin. apply Hf. cbn. set_solver.
    + apply (bool_decide_unpack _). vm_compute. done.
    + intros f g Hin Hg L. repeat (apply elem_of_cons in Hin as [->|Hin]; [|]); try (by apply not_elem_of_nil in Hin);
        repeat (apply elem_of_cons in Hg as [->|Hg]; [|]); try (by apply not_elem_of_nil in Hg); cbn in L; try lia. entry_cases.
  - intros l files Hl. assert (Forall (file_holds bytewise_order (λ n z l, example_tables !! n = Some l) example_content) files) as Hall.
    { apply list.Forall_forall. intros f Hin. apply Hf. apply list_elem_of_In, in_concat. exists files. split; [|by apply list_elem_of_In].
      apply list_elem_of_In. eapply list_elem_of_lookup_2. exact Hl. }
    split; [done| |].
    + intros i j f g Hi Hj L. destruct l as [|l]; [|by repeat (destruct l as [|l]; [injection Hl as <-; by destruct i|])]. injection Hl as <-.
      destruct i as [|[|]], j as [|[|]]; try done; try lia. injection Hi as <-. injection Hj as <-. vm_compute. done.
    + by repeat (destruct l as [|l]; [injection Hl as <-; cbn; lia|]).
  - intros l l' files files' Hl Hl' L. destruct l' as [|l']; [lia|]. destruct l' as [|l'].
    + destruct l as [|l]; [|lia]. injection Hl as <-. injection Hl' as <-. cbn. entry_cases.
    + assert (files' = []) as ->; [|intros e e' He He'; by apply not_elem_of_nil in He']. by repeat (destruct l' as [|l']; [by injection Hl' as <-|]).
Qed.

Lemma version_get_correct_witness : ∃ k r st c', Internal.lookup_key [107] 8 = Ok k ∧
  Get (H := map_tables) Bytewise.BytewiseComparator example_get_version (Table.mkRead false false) k [] example_tables = Ok (Status.OK, [2], st, c') ∧
  answers bytewise_order (contents example_content example_get_version) [107] 8 r ∧ r = g_value [2].
Proof.
  destruct (version_get_correct Bytewise.BytewiseComparator (Forall is_byte) bytewise_order (gmap Z entries) ListIterator map_tables
    (list_iterator (ord := internal_order bytewise_order)) (λ n z l, example_tables !! n = Some l) (λ c, c = example_tables) example_content example_get_version
    (Table.mkRead false false) [107] 8 [] example_tables) as (k & r & st & c' & E1 & E2 & Ha & _).
  - exact _.
  - apply map_tables_laws.
  - exact example_get_holds.
  - by vm_compute.
  - lia.
  - done.
  - exists k, r, st, c'. vm_compute in E1. injection E1 as <-.
    match type of E2 with ?l = _ => let x := eval vm_compute in l in assert (l = x) as E3 by (vm_compute; reflexivity) end.
    assert (r = g_value [2]) as Hr by (rewrite E2 in E3; destruct r; congruence). subst r. split; [done|]. split; [exact E2|by split].
Defined.
