(* ===== verification/LdbVersionSet.v ===== *)
(** Sets of versions of LevelDB ([VersionSet] in [db/version_set.h], [db/version_set.cc]):
    files and versions with their references, the builder of versions and the choice of the
    level to compact. *)
From Stdlib Require Floats.SpecFloat.
From S2P Require Import Prelude LdbSkip LdbFormat LdbVersionEdit LdbVersion.

Module VersionSet.
Import Internal Config Version.

(** ** Files

    The objects of [FileMetaData]: the fields that change, by address. *)
Record Objects := mkObjects { next_address : nat; refs_of : gmap nat Z; seeks_of : gmap nat Z }.

(** Values of [int] *)
Definition int_ok (n : Z) : res Z := if (-2 ^ 31 <=? n) && (n <? 2 ^ 31) then Ok n else UB.
(** Values of [int64_t] *)
Definition long_ok (n : Z) : res Z := if (-2 ^ 63 <=? n) && (n <? 2 ^ 63) then Ok n else UB.

Definition new_object (f : FileMetaData) (h : Objects) : File * Objects :=
  (mkFilePtr (next_address h) f,
   mkObjects (S (next_address h)) (<[next_address h := refs f]> (refs_of h)) (<[next_address h := allowed_seeks f]> (seeks_of h))).
Definition ref_file (f : File) (h : Objects) : res Objects :=
  n ← of_option (refs_of h !! address f);
  n ← int_ok (n + 1);
  Ok (mkObjects (next_address h) (<[address f := n]> (refs_of h)) (seeks_of h)).
(** The last reference deletes the file. *)
Definition unref_file (f : File) (h : Objects) : res Objects :=
  n ← of_option (refs_of h !! address f);
  n ← int_ok (n - 1);
  Ok (if n <=? 0 then mkObjects (next_address h) (delete (address f) (refs_of h)) (delete (address f) (seeks_of h))
      else mkObjects (next_address h) (<[address f := n]> (refs_of h)) (seeks_of h)).
Fixpoint unref_files (l : list File) (h : Objects) : res Objects :=
  match l with [] => Ok h | f :: l => h ← unref_file f h; unref_files l h end.

(** ** The set

    The live versions by their addresses, in the order of the linked list, where the current
    version is the last. *)
Record VersionSet := mkSet {
  next_file_number_ : Z; manifest_file_number_ : Z; last_sequence_ : Z; log_number_ : Z; prev_log_number_ : Z;
  objects : Objects; next_version : nat; versions : gmap nat Version; linked : list nat; current_ : option nat;
  compact_pointer_ : list bytes
}.
Definition set_objects (s : VersionSet) (h : Objects) : VersionSet :=
  mkSet (next_file_number_ s) (manifest_file_number_ s) (last_sequence_ s) (log_number_ s) (prev_log_number_ s)
    h (next_version s) (versions s) (linked s) (current_ s) (compact_pointer_ s).
Definition set_versions (s : VersionSet) (n : nat) (v : gmap nat Version) (l : list nat) (c : option nat) : VersionSet :=
  mkSet (next_file_number_ s) (manifest_file_number_ s) (last_sequence_ s) (log_number_ s) (prev_log_number_ s)
    (objects s) n v l c (compact_pointer_ s).
Definition set_pointers (s : VersionSet) (p : list bytes) : VersionSet :=
  mkSet (next_file_number_ s) (manifest_file_number_ s) (last_sequence_ s) (log_number_ s) (prev_log_number_ s)
    (objects s) (next_version s) (versions s) (linked s) (current_ s) p.
Definition set_numbers (s : VersionSet) (next manifest last log prev : Z) : VersionSet :=
  mkSet next manifest last log prev (objects s) (next_version s) (versions s) (linked s) (current_ s) (compact_pointer_ s).

Definition empty_version : Version :=
  mkVersion 0 (replicate (Z.to_nat kNumLevels) []) None (-1) (SpecFloat.binary_normalize 53 1024 (-1) 0 false) (-1).
Definition with_refs (v : Version) (n : Z) : Version :=
  mkVersion n (files_ v) (file_to_compact_ v) (file_to_compact_level_ v) (compaction_score_ v) (compaction_level_ v).
Definition with_files (v : Version) (l : list (list File)) : Version :=
  mkVersion (refs_ v) l (file_to_compact_ v) (file_to_compact_level_ v) (compaction_score_ v) (compaction_level_ v).
Definition with_score (v : Version) (score : SpecFloat.spec_float) (level : Z) : Version :=
  mkVersion (refs_ v) (files_ v) (file_to_compact_ v) (file_to_compact_level_ v) score level.

Definition version (s : VersionSet) (p : nat) : res Version := of_option (versions s !! p).
Definition current (s : VersionSet) : res Version := p ← of_option (current_ s); version s p.

(** [~Version]: all levels drop their references. *)
Definition delete_version (s : VersionSet) (p : nat) : res VersionSet :=
  v ← version s p;
  SkipList.assert_ (refs_ v =? 0);;
  h ← unref_files (concat (files_ v)) (objects s);
  Ok (set_versions (set_objects s h) (next_version s) (delete p (versions s)) (List.filter (λ q, negb (q =? p)%nat) (linked s)) (current_ s)).
Definition Ref (s : VersionSet) (p : nat) : res VersionSet :=
  v ← version s p;
  n ← int_ok (refs_ v + 1);
  Ok (set_versions s (next_version s) (<[p := with_refs v n]> (versions s)) (linked s) (current_ s)).
Definition Unref (s : VersionSet) (p : nat) : res VersionSet :=
  v ← version s p;
  SkipList.assert_ (1 <=? refs_ v);;
  let s := set_versions s (next_version s) (<[p := with_refs v (refs_ v - 1)]> (versions s)) (linked s) (current_ s) in
  if refs_ v - 1 =? 0 then delete_version s p else Ok s.

(** [AppendVersion] of a version without references. *)
Definition AppendVersion (s : VersionSet) (v : Version) : res VersionSet :=
  SkipList.assert_ (refs_ v =? 0);;
  s ← match current_ s with Some c => Unref s c | None => Ok s end;
  let p := next_version s in
  Ref (set_versions s (S p) (<[p := v]> (versions s)) (linked s ++ [p]) (Some p)) p.

Definition new : res VersionSet :=
  AppendVersion (mkSet 2 0 0 0 0 (mkObjects 0 ∅ ∅) 0 ∅ [] None (replicate (Z.to_nat kNumLevels) [])) empty_version.

(** ** Numbers *)

Definition NewFileNumber (s : VersionSet) : Z * VersionSet :=
  (next_file_number_ s, set_numbers s (u64 (next_file_number_ s + 1)) (manifest_file_number_ s) (last_sequence_ s) (log_number_ s) (prev_log_number_ s)).
Definition ReuseFileNumber (s : VersionSet) (file_number : Z) : VersionSet :=
  if next_file_number_ s =? u64 (file_number + 1)
  then set_numbers s file_number (manifest_file_number_ s) (last_sequence_ s) (log_number_ s) (prev_log_number_ s) else s.
Definition MarkFileNumberUsed (s : VersionSet) (number : Z) : VersionSet :=
  if next_file_number_ s <=? number
  then set_numbers s (u64 (number + 1)) (manifest_file_number_ s) (last_sequence_ s) (log_number_ s) (prev_log_number_ s) else s.
Definition SetLastSequence (s : VersionSet) (n : Z) : res VersionSet :=
  SkipList.assert_ (last_sequence_ s <=? n);;
  Ok (set_numbers s (next_file_number_ s) (manifest_file_number_ s) n (log_number_ s) (prev_log_number_ s)).
Definition NumLevelFiles (s : VersionSet) (level : Z) : res Z :=
  SkipList.assert_ ((0 <=? level) && (level <? kNumLevels));;
  v ← current s; files ← level_files v level; Ok (s32 (Z.of_nat (length files))).
Definition NumLevelBytes (s : VersionSet) (level : Z) : res Z :=
  SkipList.assert_ ((0 <=? level) && (level <? kNumLevels));;
  v ← current s; files ← level_files v level; Ok (TotalFileSize files).

(** ** [Builder] *)

Section builder.
Context (C : SliceComparator).

Definition compare_keys (a b : bytes) : res Z := a ← Encode a; b ← Encode b; icmp C a b.
Definition BySmallestKey (f1 f2 : File) : res bool :=
  r ← compare_keys (smallest (meta f1)) (smallest (meta f2));
  Ok (if negb (r =? 0) then r <? 0 else number (meta f1) <? number (meta f2)).

(** A set of files in order; what is in the set stays. *)
Fixpoint file_set_insert (f : File) (l : list File) : res (list File) :=
  match l with
  | [] => Ok [f]
  | g :: l' =>
      less ← BySmallestKey f g;
      if less : bool then Ok (f :: l)
      else
        greater ← BySmallestKey g f;
        if greater : bool then l' ← file_set_insert f l'; Ok (g :: l') else Ok l
  end.

Record LevelState := mkLevelState { deleted_files : gset Z; added_files : list File }.
Record Builder := mkBuilder { base_ : nat; levels_ : list LevelState }.

Definition builder_start (base : nat) (s : VersionSet) : res (Builder * VersionSet) :=
  s ← Ref s base;
  Ok (mkBuilder base (replicate (Z.to_nat kNumLevels) (mkLevelState ∅ [])), s).

Definition Builder_delete (b : Builder) (s : VersionSet) : res VersionSet :=
  h ← unref_files (concat (added_files <$> levels_ b)) (objects s);
  Unref (set_objects s h) (base_ b).

Definition with_level (b : Builder) (level : Z) (g : LevelState → res LevelState) : res Builder :=
  if level <? 0 then UB
  else
    l ← of_option (levels_ b !! Z.to_nat level); l ← g l;
    Ok (mkBuilder (base_ b) (<[Z.to_nat level := l]> (levels_ b))).

Fixpoint apply_pointers (l : list (Z * bytes)) (s : VersionSet) : res VersionSet :=
  match l with
  | [] => Ok s
  | (level, key) :: l =>
      k ← Encode key;
      if (0 <=? level) && (level <? kNumLevels)
      then apply_pointers l (set_pointers s (<[Z.to_nat level := k]> (compact_pointer_ s))) else UB
  end.
Fixpoint apply_deleted (l : list (Z * Z)) (b : Builder) : res Builder :=
  match l with
  | [] => Ok b
  | (level, number) :: l =>
      b ← with_level b level (λ st, Ok (mkLevelState ({[number]} ∪ deleted_files st) (added_files st)));
      apply_deleted l b
  end.
(** The seeks that a file of the size is allowed. *)
Definition seeks_for (size : Z) : Z := let n := s32 (size / 16384) in if n <? 100 then 100 else n.
Fixpoint apply_files (l : list (Z * FileMetaData)) (b : Builder) (s : VersionSet) : res (Builder * VersionSet) :=
  match l with
  | [] => Ok (b, s)
  | (level, f) :: l =>
      let '(f, h) := new_object (mkFile 1 (seeks_for (file_size f)) (number f) (file_size f) (smallest f) (largest f)) (objects s) in
      b ← with_level b level (λ st,
            added ← file_set_insert f (added_files st);
            Ok (mkLevelState (deleted_files st ∖ {[number (meta f)]}) added));
      apply_files l b (set_objects s h)
  end.
Definition Apply (edit : VersionEdit.VersionEdit) (b : Builder) (s : VersionSet) : res (Builder * VersionSet) :=
  s ← apply_pointers (VersionEdit.compact_pointers_ edit) s;
  b ← apply_deleted (VersionEdit.deleted_files_ edit) b;
  apply_files (VersionEdit.new_files_ edit) b s.

(** [MaybeAddFile], with the files of the level so far. *)
Definition MaybeAddFile (level : Z) (st : LevelState) (f : File) (files : list File) (h : Objects) : res (list File * Objects) :=
  if bool_decide (number (meta f) ∈ deleted_files st) then Ok (files, h)
  else
    apart ← match list.last files with
            | Some g => if 0 <? level then c ← compare_keys (largest (meta g)) (smallest (meta f)); Ok (c <? 0) else Ok true
            | None => Ok true
            end;
    SkipList.assert_ apart;;
    h ← ref_file f h;
    Ok (files ++ [f], h).
Fixpoint maybe_add (level : Z) (st : LevelState) (l : list File) (files : list File) (h : Objects) : res (list File * Objects) :=
  match l with
  | [] => Ok (files, h)
  | f :: l => '(files, h) ← MaybeAddFile level st f files h; maybe_add level st l files h
  end.
(** [std::upper_bound]: the files that are not greater, and the others. *)
Fixpoint upper_bound (base : list File) (f : File) : res (list File * list File) :=
  match base with
  | [] => Ok ([], [])
  | g :: base' =>
      less ← BySmallestKey f g;
      if less : bool then Ok ([], base)
      else '(a, b) ← upper_bound base' f; Ok (g :: a, b)
  end.
Fixpoint save_level (level : Z) (st : LevelState) (added base files : list File) (h : Objects) : res (list File * Objects) :=
  match added with
  | [] => maybe_add level st base files h
  | f :: added =>
      '(smaller, base) ← upper_bound base f;
      '(files, h) ← maybe_add level st smaller files h;
      '(files, h) ← MaybeAddFile level st f files h;
      save_level level st added base files h
  end.
Fixpoint no_overlaps (files : list File) : res bool :=
  match files with
  | f :: (g :: _) as files' => c ← compare_keys (largest (meta f)) (smallest (meta g)); if 0 <=? c then Ok false else no_overlaps files'
  | _ => Ok true
  end.
Fixpoint save_levels (level : Z) (levels : list LevelState) (base : list (list File)) (h : Objects) : res (list (list File) * Objects) :=
  match levels, base with
  | [], _ => Ok ([], h)
  | st :: levels, files :: base =>
      '(saved, h) ← save_level level st (added_files st) files [] h;
      apart ← (if 0 <? level then no_overlaps saved else Ok true);
      SkipList.assert_ apart;;
      '(l, h) ← save_levels (level + 1) levels base h;
      Ok (saved :: l, h)
  | _, [] => UB
  end.
(** [SaveTo] a version whose levels are empty. *)
Definition SaveTo (v : Version) (b : Builder) (s : VersionSet) : res (Version * VersionSet) :=
  base ← version s (base_ b);
  '(files, h) ← save_levels 0 (levels_ b) (files_ base) (objects s);
  Ok (with_files v files, set_objects s h).
End builder.

(** ** The level to compact

    [double] is the binary format of 64 bits. *)
Definition double_of (n : Z) : SpecFloat.spec_float := SpecFloat.binary_normalize 53 1024 n 0 false.
Definition fdiv : SpecFloat.spec_float → SpecFloat.spec_float → SpecFloat.spec_float := SpecFloat.SFdiv 53 1024.
Definition fmul : SpecFloat.spec_float → SpecFloat.spec_float → SpecFloat.spec_float := SpecFloat.SFmul 53 1024.

Fixpoint max_bytes_loop (n : nat) (result : SpecFloat.spec_float) : SpecFloat.spec_float :=
  match n with O => result | S n => max_bytes_loop n (fmul result (double_of 10)) end.
Definition MaxBytesForLevel (level : Z) : SpecFloat.spec_float :=
  max_bytes_loop (Z.to_nat (level - 1)) (fmul (double_of 10) (double_of 1048576)).

Definition level_score (level : Z) (files : list File) : SpecFloat.spec_float :=
  if level =? 0 then fdiv (double_of (Z.of_nat (length files))) (double_of kL0_CompactionTrigger)
  else fdiv (double_of (u64 (TotalFileSize files))) (MaxBytesForLevel level).
Fixpoint best_level (level : Z) (levels : list (list File)) (best : Z) (score : SpecFloat.spec_float) : Z * SpecFloat.spec_float :=
  match levels with
  | [] => (best, score)
  | files :: levels =>
      let s := level_score level files in
      if SpecFloat.SFltb score s then best_level (level + 1) levels level s else best_level (level + 1) levels best score
  end.
Definition Finalize (v : Version) : Version :=
  let '(level, score) := best_level 0 (take (Z.to_nat (kNumLevels - 1)) (files_ v)) (-1) (double_of (-1)) in
  with_score v score level.

Definition NeedsCompaction (s : VersionSet) : res bool :=
  v ← current s;
  Ok (SpecFloat.SFleb (double_of 1) (compaction_score_ v) || match file_to_compact_ v with Some _ => true | None => false end).

(** ** [LogAndApply]: its parts without files

    What is added to the edit; the new version; what is done with it in the end. *)
Definition complete_edit (s : VersionSet) (e : VersionEdit.VersionEdit) : res VersionEdit.VersionEdit :=
  e ← (if VersionEdit.has_log_number_ e then
         SkipList.assert_ (log_number_ s <=? VersionEdit.log_number_ e);;
         SkipList.assert_ (VersionEdit.log_number_ e <? next_file_number_ s);;
         Ok e
       else Ok (VersionEdit.SetLogNumber (log_number_ s) e));
  let e := if negb (VersionEdit.has_prev_log_number_ e) then VersionEdit.SetPrevLogNumber (prev_log_number_ s) e else e in
  Ok (VersionEdit.SetLastSequence (last_sequence_ s) (VersionEdit.SetNextFile (next_file_number_ s) e)).
Definition build_version (C : SliceComparator) (e : VersionEdit.VersionEdit) (s : VersionSet) : res (Version * VersionSet) :=
  c ← of_option (current_ s);
  '(b, s) ← builder_start c s;
  '(b, s) ← Apply C e b s;
  '(v, s) ← SaveTo C empty_version b s;
  s ← Builder_delete b s;
  Ok (Finalize v, s).
Definition install (v : Version) (e : VersionEdit.VersionEdit) (s : VersionSet) : res VersionSet :=
  s ← AppendVersion s v;
  Ok (set_numbers s (next_file_number_ s) (manifest_file_number_ s) (last_sequence_ s) (VersionEdit.log_number_ e) (VersionEdit.prev_log_number_ e)).
(** The version was not linked. *)
Definition discard (v : Version) (s : VersionSet) : res VersionSet :=
  SkipList.assert_ (refs_ v =? 0);;
  h ← unref_files (concat (files_ v)) (objects s);
  Ok (set_objects s h).
End VersionSet.
