(* ===== verification/LdbVersionSetProps.v ===== *)
(** The builder of versions: the references of files, and the levels that it saves.

    Sets of versions: applying edits gives the version that the edits say, and files and
    versions live as long as they are referred to.

    Sets of versions: versions live as long as they are referred to, and files as long as a
    version has them. *)
From Stdlib Require Import Sorting.Sorted.
From stdpp Require Import sorting.
From S2P Require Import Prelude LdbSkip LdbSkipLemmas LdbFormat LdbCodingProps LdbOrder LdbIterator LdbVersionEdit LdbVersion LdbVersionProps LdbVersionSet.
Module BuilderProps.
Import Version VersionSet.

(** * References

    [counts h fs]: the objects [h] have just the files [fs], each with as many references as
    it has occurrences. *)
Implicit Types (f g : File) (fs : list File) (h : Objects).

Definition occurrences (a : nat) fs : nat := length (List.filter (λ f, (address f =? a)%nat) fs).
#[local] Arguments occurrences : simpl never.
Record counts h fs : Prop := {
  co_refs a : refs_of h !! a = match occurrences a fs with O => None | n => Some (Z.of_nat n) end;
  co_seeks a : is_Some (seeks_of h !! a) ↔ is_Some (refs_of h !! a);
  co_fresh f : f ∈ fs → (address f < next_address h)%nat
}.

Lemma occurrences_cons a f fs : occurrences a (f :: fs) = ((if (address f =? a)%nat then 1 else 0) + occurrences a fs)%nat.
Proof. unfold occurrences. cbn. by destruct (address f =? a)%nat. Qed.
Lemma occurrences_perm a fs fs' : fs ≡ₚ fs' → occurrences a fs = occurrences a fs'.
Proof. intros P. induction P; rewrite ?occurrences_cons; [done|lia|lia|lia]. Qed.
Lemma occurrences_le a fs : (occurrences a fs <= length fs)%nat.
Proof. apply List.filter_length_le. Qed.
Lemma occurrences_in f fs : f ∈ fs → occurrences (address f) fs ≠ O.
Proof.
  induction 1 as [fs|g fs Hf IH]; rewrite occurrences_cons; [rewrite Nat.eqb_refl; lia|lia].
Qed.

Lemma counts_perm h fs fs' : fs ≡ₚ fs' → counts h fs → counts h fs'.
Proof.
  intros P [H1 H2 H3]. split; [|done|].
  - intros a. rewrite H1. by rewrite (occurrences_perm a fs fs' P).
  - intros f Hf. apply H3. by rewrite P.
Qed.

Lemma int_ok_small n : -2 ^ 31 <= n < 2 ^ 31 → int_ok n = Ok n.
Proof. intros Hn. unfold int_ok. by rewrite (proj2 (Z.leb_le _ _)), (proj2 (Z.ltb_lt _ _)) by lia. Qed.

Lemma ref_file_ok f h fs : counts h fs → f ∈ fs → Z.of_nat (length fs) < 2 ^ 31 - 1 → ∃ h', ref_file f h = Ok h' ∧ counts h' (f :: fs).
Proof.
  intros [H1 H2 H3] Hf Hn. pose proof (occurrences_in f fs Hf) as Hc. pose proof (occurrences_le (address f) fs). unfold ref_file.
  destruct (occurrences (address f) fs) as [|n] eqn:E; [done|]. rewrite H1, E. cbn [of_option]. unfold mbind, res_bind.
  rewrite int_ok_small by lia. eexists. split; [done|]. split; cbn.
  - intros a. rewrite occurrences_cons. destruct (Nat.eqb_spec (address f) a) as [<-|N].
    + rewrite lookup_insert_eq, E. cbn. f_equal. lia.
    + by rewrite lookup_insert_ne.
  - intros a. rewrite H2. destruct (decide (address f = a)) as [<-|N]; [|by rewrite lookup_insert_ne].
    rewrite lookup_insert_eq, H1, E. by split.
  - intros g [->|Hg]%elem_of_cons; by apply H3.
Qed.

Lemma unref_file_ok f h fs : counts h (f :: fs) → Z.of_nat (length fs) < 2 ^ 31 - 1 → ∃ h', unref_file f h = Ok h' ∧ counts h' fs.
Proof.
  intros [H1 H2 H3] Hn. unfold unref_file. rewrite H1, occurrences_cons, Nat.eqb_refl. cbn [of_option Nat.add]. unfold mbind, res_bind.
  pose proof (occurrences_le (address f) fs). rewrite int_ok_small by lia. eexists. split; [done|].
  assert (∀ a, address f ≠ a → refs_of h !! a = match occurrences a fs with O => None | n => Some (Z.of_nat n) end) as Ho.
  { intros a N. rewrite H1, occurrences_cons. by rewrite (proj2 (Nat.eqb_neq _ _)). }
  assert (is_Some (refs_of h !! address f)) as Hs by (rewrite H1, occurrences_cons, Nat.eqb_refl; done).
  destruct (Z.leb_spec (Z.of_nat (S (occurrences (address f) fs)) - 1) 0) as [L|L]; split; cbn.
  - intros a. destruct (decide (address f = a)) as [<-|N]; [|rewrite lookup_delete_ne by done; by apply Ho].
    rewrite lookup_delete_eq. by replace (occurrences (address f) fs) with O by lia.
  - intros a. destruct (decide (address f = a)) as [<-|N]; [by rewrite !lookup_delete_eq|]. rewrite !lookup_delete_ne by done. apply H2.
  - intros g Hg. apply H3. by right.
  - intros a. destruct (decide (address f = a)) as [<-|N]; [|rewrite lookup_insert_ne by done; by apply Ho].
    rewrite lookup_insert_eq. destruct (occurrences (address f) fs); [lia|]. f_equal. lia.
  - intros a. rewrite H2. destruct (decide (address f = a)) as [<-|N]; [|by rewrite lookup_insert_ne]. rewrite lookup_insert_eq. by split.
  - intros g Hg. apply H3. by right.
Qed.

Lemma unref_files_ok l : ∀ h fs, counts h (l ++ fs) → Z.of_nat (length (l ++ fs)) < 2 ^ 31 → ∃ h', unref_files l h = Ok h' ∧ counts h' fs.
Proof.
  induction l as [|f l IH]; intros h fs Hc Hn; [by exists h|]. cbn in Hn. destruct (unref_file_ok f h (l ++ fs) Hc) as (h1 & E & Hc1); [lia|].
  cbn. rewrite E. unfold mbind, res_bind. apply IH; [done|lia].
Qed.

Lemma new_object_ok d h fs : refs d = 1 → counts h fs → ∃ f h', new_object d h = (f, h') ∧ meta f = d ∧ counts h' (f :: fs) ∧ address f = next_address h.
Proof.
  intros Hd [H1 H2 H3]. eexists _, _. split; [done|]. split; [done|]. split; [|done].
  assert (occurrences (next_address h) fs = O) as E0.
  { destruct (occurrences (next_address h) fs) eqn:E; [done|]. unfold occurrences in E. destruct (List.filter _ fs) as [|f l] eqn:El; [done|].
    assert (f ∈ fs ∧ address f = next_address h) as [Hin Ea].
    { assert (In f (List.filter (λ f, (address f =? next_address h)%nat) fs)) as Hin by (rewrite El; by left).
      apply filter_In in Hin as [Hin ?%Nat.eqb_eq]. by split; [apply list_elem_of_In|]. }
    specialize (H3 f Hin). lia. }
  split; cbn.
  - intros a. rewrite occurrences_cons. cbn. destruct (Nat.eqb_spec (next_address h) a) as [<-|N].
    + by rewrite lookup_insert_eq, E0, Hd.
    + by rewrite lookup_insert_ne.
  - intros a. destruct (decide (next_address h = a)) as [<-|N]; [rewrite !lookup_insert_eq; by split|]. rewrite !lookup_insert_ne by done. apply H2.
  - intros f [->|Hf]%elem_of_cons; [cbn; lia|]. specialize (H3 f Hf). lia.
Qed.

(** * The order of files *)

Section order.
Context (C : SliceComparator) (valid : bytes → Prop) (ord : Comparator bytes) `{!Lawful C (λ _, True) valid ord}.
#[local] Instance iord : Comparator bytes := internal_order ord.
#[local] Instance iorder : Order bytes (H := iord).
Proof. exact (iord_order C valid ord). Qed.
#[local] Abbreviation kcmp := (@compare_ bytes iord).
#[local] Abbreviation num := (λ f, number (meta f)).

Lemma compare_keys_ok a b : ikey_ok a → ikey_ok b → compare_keys C a b = Ok (kcmp a b).
Proof. intros Ha Hb. unfold compare_keys. rewrite !Encode_ok by done. unfold mbind, res_bind. by rewrite (icmp_ok C valid ord). Qed.

Definition file_less f g : Prop :=
  kcmp (smallest (meta f)) (smallest (meta g)) < 0 ∨ kcmp (smallest (meta f)) (smallest (meta g)) = 0 ∧ num f < num g.
#[export] Instance file_less_dec f g : Decision (file_less f g).
Proof. unfold file_less. apply _. Defined.

Lemma BySmallestKey_ok f g : file_keys f → file_keys g → BySmallestKey C f g = Ok (bool_decide (file_less f g)).
Proof.
  intros [Hf _] [Hg _]. unfold BySmallestKey. rewrite compare_keys_ok by done. unfold mbind, res_bind. f_equal.
  apply Bool.eq_iff_eq_true. rewrite bool_decide_eq_true. unfold file_less.
  destruct (Z.eqb_spec (kcmp (smallest (meta f)) (smallest (meta g))) 0) as [E|E]; cbn [negb]; rewrite Z.ltb_lt; lia.
Qed.

#[local] Instance file_less_trans : Transitive file_less.
Proof.
  intros f g k [L1|[E1 L1]] [L2|[E2 L2]]; unfold file_less.
  - left. by eapply cmp_trans.
  - left. by eapply cmp_eq_r.
  - left. by eapply cmp_eq.
  - right. split; [by eapply cmp_zero_trans|lia].
Qed.

Lemma file_less_total f g : num f ≠ num g → file_less f g ∨ file_less g f.
Proof.
  cbn. intros N. unfold file_less. pose proof (cmp_swap (smallest (meta f)) (smallest (meta g))). pose proof (cmp_swap (smallest (meta g)) (smallest (meta f))).
  destruct (Z.lt_trichotomy (kcmp (smallest (meta f)) (smallest (meta g))) 0) as [L|[E|L]]; [by left; left| |].
  - pose proof (proj1 (cmp_zero_swap _ _) E). lia.
  - right. left. lia.
Qed.
Lemma file_less_irrefl f : ¬ file_less f f.
Proof. intros [L|[_ L]]; [|lia]. rewrite cmp_refl in L. lia. Qed.

Abbreviation files_sorted := (StronglySorted file_less).

Lemma file_set_insert_ok f l : file_keys f → Forall file_keys l → files_sorted l → num f ∉ num <$> l →
  ∃ l', file_set_insert C f l = Ok l' ∧ l' ≡ₚ f :: l ∧ files_sorted l'.
Proof.
  intros Hf. induction l as [|g l IH]; intros Hk Hs Hn.
  - exists [f]. split; [done|]. split; [done|]. repeat constructor.
  - apply list.Forall_cons in Hk as [Hg Hk]. apply StronglySorted_inv in Hs as [Hs Hall]. cbn in Hn. apply not_elem_of_cons in Hn as [Hn1 Hn].
    cbn [file_set_insert]. rewrite (BySmallestKey_ok f g) by done. unfold mbind, res_bind. destruct (bool_decide_reflect (file_less f g)) as [L|L].
    + exists (f :: g :: l). split; [done|]. split; [done|]. constructor; [by constructor|]. constructor; [done|].
      eapply list.Forall_impl; [exact Hall|]. intros k Hk'. exact (file_less_trans f g k L Hk').
    + rewrite (BySmallestKey_ok g f) by done. assert (file_less g f) as Hgf by (destruct (file_less_total f g Hn1); done).
      rewrite bool_decide_eq_true_2 by done. destruct (IH Hk Hs Hn) as (l' & -> & P & Hs'). exists (g :: l'). split; [done|].
      split; [rewrite P; apply Permutation_swap|]. constructor; [done|]. rewrite P. by constructor.
Qed.

Lemma upper_bound_ok f base : file_keys f → Forall file_keys base → files_sorted base → num f ∉ num <$> base →
  ∃ a b, upper_bound C base f = Ok (a, b) ∧ base = a ++ b ∧ Forall (λ g, file_less g f) a ∧ Forall (λ g, file_less f g) b.
Proof.
  intros Hf. induction base as [|g l IH]; intros Hk Hs Hn; [by exists [], []|].
  apply list.Forall_cons in Hk as [Hg Hk]. apply StronglySorted_inv in Hs as [Hs Hall]. cbn in Hn. apply not_elem_of_cons in Hn as [Hn1 Hn].
  cbn [upper_bound]. rewrite BySmallestKey_ok by done. unfold mbind, res_bind. destruct (bool_decide_reflect (file_less f g)) as [L|L].
  - exists [], (g :: l). split; [done|]. split; [done|]. split; [done|]. constructor; [done|].
    eapply list.Forall_impl; [exact Hall|]. intros k Hk'. exact (file_less_trans f g k L Hk').
  - destruct (IH Hk Hs Hn) as (a & b & -> & -> & Ha & Hb). exists (g :: a), b. split; [done|]. split; [done|]. split; [|done].
    constructor; [|done]. destruct (file_less_total f g Hn1); done.
Qed.

(** * Saving a level *)

Definition keep (st : LevelState) (f : File) : bool := negb (bool_decide (num f ∈ deleted_files st)).
Definition apart (files : list File) : Prop := StronglySorted (λ f g, kcmp (largest (meta f)) (smallest (meta g)) < 0) files.

Lemma no_overlaps_ok files : Forall file_keys files → apart files → no_overlaps C files = Ok true.
Proof.
  intros Hk Ha. induction Ha as [|f files Ha IH Hall]; [done|]. apply list.Forall_cons in Hk as [[_ Hf] Hk]. destruct files as [|g files]; [done|].
  change (no_overlaps C (f :: g :: files)) with (c ← compare_keys C (largest (meta f)) (smallest (meta g)); if 0 <=? c then Ok false else no_overlaps C (g :: files)).
  apply list.Forall_cons in Hall as [L _]. assert (file_keys g) as [Hg _] by by apply list.Forall_cons in Hk as [? _].
  rewrite compare_keys_ok by done. unfold mbind, res_bind. rewrite (proj2 (Z.leb_gt _ _)) by lia. by apply IH.
Qed.

Lemma apart_app a b : apart (a ++ b) → apart a.
Proof. intros H%StronglySorted_app. by destruct H as (_ & ? & _). Qed.

(** What is added has one more reference. *)
Lemma MaybeAddFile_ok level st f files h fs : file_keys f → Forall file_keys files → (0 < level → apart (files ++ List.filter (keep st) [f])) →
  counts h fs → f ∈ fs → Z.of_nat (length fs) < 2 ^ 31 - 1 →
  ∃ h', MaybeAddFile C level st f files h = Ok (files ++ List.filter (keep st) [f], h') ∧ counts h' (List.filter (keep st) [f] ++ fs).
Proof.
  intros Hf Hk Ha Hc Hin Hn. unfold MaybeAddFile. cbn [List.filter] in *. unfold keep in *. destruct (bool_decide_reflect (num f ∈ deleted_files st)) as [D|D]; cbn [negb] in *.
  { exists h. rewrite app_nil_r. by split. }
  assert ((match list.last files with
     | Some g => if 0 <? level then c ← compare_keys C (largest (meta g)) (smallest (meta f)); Ok (c <? 0) else Ok true
     | None => Ok true end) = Ok true) as ->.
  { destruct (list.last files) as [g|] eqn:El; [|done]. destruct (Z.ltb_spec 0 level) as [L|L]; [|done]. specialize (Ha L).
    apply last_Some in El as [l' ->]. apply StronglySorted_app in Ha as (Ha & _ & _). specialize (Ha g f ltac:(apply elem_of_app; right; by left) ltac:(by left)).
    apply List.Forall_app in Hk as [_ Hg]. apply Forall_singleton in Hg as [_ Hg]. rewrite compare_keys_ok by (done || apply Hf). unfold mbind, res_bind. by rewrite (proj2 (Z.ltb_lt _ _)). }
  unfold mbind, res_bind. cbn [SkipList.assert_]. destruct (ref_file_ok f h fs Hc Hin Hn) as (h' & -> & Hc'). by exists h'.
Qed.

Lemma maybe_add_ok level st l : ∀ files h fs, Forall file_keys l → Forall file_keys files → (0 < level → apart (files ++ List.filter (keep st) l)) →
  counts h fs → (∀ f, f ∈ l → f ∈ fs) → Z.of_nat (length l + length fs) < 2 ^ 31 - 1 →
  ∃ h', maybe_add C level st l files h = Ok (files ++ List.filter (keep st) l, h') ∧ counts h' (List.filter (keep st) l ++ fs).
Proof.
  induction l as [|f l IH]; intros files h fs Hl Hk Ha Hc Hin Hn.
  { exists h. cbn. rewrite app_nil_r. by split. }
  apply list.Forall_cons in Hl as [Hf Hl]. cbn [length] in Hn. change (List.filter (keep st) (f :: l)) with (List.filter (keep st) ([f] ++ l)) in *.
  rewrite List.filter_app in *. rewrite app_assoc in Ha |- *.
  destruct (MaybeAddFile_ok level st f files h fs) as (h1 & E & Hc1); [done|done|intros L; by eapply apart_app, Ha|done|apply Hin; by left|lia|].
  cbn [maybe_add]. rewrite E. unfold mbind, res_bind.
  assert (length (List.filter (keep st) [f]) <= 1)%nat as Hle by apply (List.filter_length_le _ [f]).
  destruct (IH (files ++ List.filter (keep st) [f]) h1 (List.filter (keep st) [f] ++ fs)) as (h2 & E2 & Hc2).
  - done.
  - apply List.Forall_app. split; [done|]. cbn. destruct (keep st f); [by constructor|done].
  - done.
  - done.
  - intros g Hg. apply elem_of_app. right. apply Hin. by right.
  - rewrite length_app. lia.
  - exists h2. split; [exact E2|]. eapply counts_perm; [|exact Hc2]. rewrite !app_assoc. apply Permutation_app_tail, Permutation_app_comm.
Qed.

(** Of the files that stay, each ends before those that come later start. *)
Definition before f g : Prop := kcmp (largest (meta f)) (smallest (meta g)) < 0.
Record fit (st : LevelState) (files l : list File) : Prop := {
  fit_files : apart files;
  fit_cross f g : f ∈ files → g ∈ l → keep st g = true → before f g;
  fit_pairs f g : f ∈ l → g ∈ l → keep st f = true → keep st g = true → file_less f g → before f g
}.

Lemma fit_apart st files l m : fit st files l → m ⊆ l → files_sorted m → apart (files ++ List.filter (keep st) m).
Proof.
  intros [H1 H2 H3] Hm Hs. apply StronglySorted_app. assert (∀ f, f ∈ List.filter (keep st) m → f ∈ m ∧ keep st f = true) as Hk.
  { intros f Hf%list_elem_of_In. apply filter_In in Hf as [? ?]. by rewrite list_elem_of_In. }
  split; [|split; [done|]].
  - intros f g Hf Hg. apply Hk in Hg as [Hg Kg]. apply H2; [done|by apply Hm|done].
  - clear Hk. induction Hs as [|f m Hs IH Hall]; [constructor|]. assert (m ⊆ l) as Hm' by (intros x Hx; apply Hm; by right). cbn. destruct (keep st f) eqn:Kf; [|by apply IH].
    constructor; [by apply IH|]. apply list.Forall_forall. intros g Hg%list_elem_of_In. apply filter_In in Hg as [Hg Kg]. apply list_elem_of_In in Hg.
    rewrite list.Forall_forall in Hall. apply H3; [apply Hm; by left|by apply Hm'|done|done|by apply Hall].
Qed.

Lemma fit_subset st files l l' : fit st files l → l' ⊆ l → fit st files l'.
Proof. intros [H1 H2 H3] Hl. split; [done| |]; intros f g; [intros ? ?%Hl|intros ?%Hl ?%Hl]; auto. Qed.

(** Moving the first files over. *)
Lemma fit_move st files a l : fit st files (a ++ l) → files_sorted a → (∀ f g, f ∈ a → g ∈ l → file_less f g) → fit st (files ++ List.filter (keep st) a) l.
Proof.
  intros Hf Hs Ha. pose proof Hf as [H1 H2 H3]. split.
  - apply (fit_apart st files (a ++ l)); [done|intros x Hx; apply elem_of_app; by left|done].
  - intros f g Hff Hg Kg. apply elem_of_app in Hff as [Hff|Hff]; [apply H2; [done|apply elem_of_app; by right|done]|].
    apply list_elem_of_In in Hff. apply filter_In in Hff as [Hff Kf]. apply list_elem_of_In in Hff.
    apply H3; [apply elem_of_app; by left|apply elem_of_app; by right|done|done|by apply Ha].
  - intros f g Hff Hg. apply H3; apply elem_of_app; by right.
Qed.

Lemma save_level_ok level st added : ∀ base files h fs, Forall file_keys added → Forall file_keys base → Forall file_keys files →
  files_sorted added → files_sorted base → NoDup (num <$> added ++ base) → (0 < level → fit st files (added ++ base)) →
  counts h fs → (∀ f, f ∈ added ++ base → f ∈ fs) → Z.of_nat (length (added ++ base) + length fs) < 2 ^ 31 - 1 →
  ∃ m h', m ≡ₚ added ++ base ∧ files_sorted m ∧ save_level C level st added base files h = Ok (files ++ List.filter (keep st) m, h') ∧
    counts h' (List.filter (keep st) m ++ fs).
Proof.
  induction added as [|f added IH]; intros base files h fs Hka Hkb Hkf Hsa Hsb Hd Ha Hc Hin Hn.
  { destruct (maybe_add_ok level st base files h fs) as (h' & E & Hc'); try done; [by intros L; eapply fit_apart; [by apply Ha|..]|]. by exists base, h'. }
  apply list.Forall_cons in Hka as [Hf Hka]. apply StronglySorted_inv in Hsa as [Hsa Hall]. cbn in Hd. apply list.NoDup_cons in Hd as [Hd1 Hd].
  rewrite fmap_app in Hd1. apply not_elem_of_app in Hd1 as [Hd1 Hd2].
  destruct (upper_bound_ok f base Hf Hkb Hsb Hd2) as (a & b & E & -> & Fa & Fb). cbn [save_level]. rewrite E. unfold mbind, res_bind.
  apply List.Forall_app in Hkb as [Hkba Hkbb]. pose proof (StronglySorted_app_1_l _ _ _ Hsb) as Hsa'. pose proof (StronglySorted_app_1_r _ _ _ Hsb) as Hsb'.
  rewrite list.Forall_forall in Fa, Fb, Hall.
  assert (∀ g, g ∈ added ++ b → file_less f g) as Fl by (intros g [?|?]%elem_of_app; auto).
  assert (0 < level → fit st files (a ++ f :: added ++ b)) as Ha0. { intros L. eapply fit_subset; [by apply Ha|]. intros x. rewrite !elem_of_app, !elem_of_cons, !elem_of_app. tauto. }
  set (fa := List.filter (keep st) a). set (ff := List.filter (keep st) [f]).
  assert (0 < level → fit st (files ++ fa) (f :: added ++ b)) as Ha1.
  { intros L. apply fit_move; [by apply Ha0|done|]. intros x y Hx [->|Hy]%elem_of_cons; [by apply Fa|]. eapply file_less_trans; [by apply Fa|by apply Fl]. }
  assert (0 < level → fit st ((files ++ fa) ++ ff) (added ++ b)) as Ha2.
  { intros L. apply fit_move; [by apply Ha1|repeat constructor|]. intros x y ->%list_elem_of_singleton. apply Fl. }
  assert (length fa <= length a)%nat as Hla by apply List.filter_length_le. assert (length ff <= 1)%nat as Hlf by apply (List.filter_length_le _ [f]).
  rewrite !length_app in Hn. cbn [length] in Hn.
  assert (∀ x, x ∈ f :: added ++ a ++ b → x ∈ fs) as Hin' by exact Hin.
  destruct (maybe_add_ok level st a files h fs) as (h1 & E1 & Hc1); [done|done| |done| |lia|].
  { intros L. eapply fit_apart; [by apply Ha0|intros x Hx; apply elem_of_app; by left|done]. }
  { intros x Hx. apply Hin'. rewrite elem_of_cons, !elem_of_app. tauto. }
  fold fa in E1, Hc1. rewrite E1.
  destruct (MaybeAddFile_ok level st f (files ++ fa) h1 (fa ++ fs)) as (h2 & E2 & Hc2); [done| | |done| |rewrite length_app; lia|].
  { apply List.Forall_app. split; [done|]. apply list.Forall_forall. intros x Hx%list_elem_of_In. apply filter_In in Hx as [Hx _]. rewrite list.Forall_forall in Hkba. apply Hkba. by apply list_elem_of_In. }
  { intros L. eapply fit_apart; [by apply Ha1|intros x Hx; apply list_elem_of_singleton in Hx as ->; by left|repeat constructor]. }
  { apply elem_of_app. right. apply Hin'. by left. }
  fold ff in E2, Hc2. rewrite E2.
  destruct (IH b ((files ++ fa) ++ ff) h2 (ff ++ fa ++ fs)) as (m & h3 & P & Hsm & E3 & Hc3).
  - done.
  - done.
  - apply List.Forall_app. split; [apply List.Forall_app; split; [done|]|].
    + apply list.Forall_forall. intros x Hx%list_elem_of_In. apply filter_In in Hx as [Hx _]. rewrite list.Forall_forall in Hkba. apply Hkba. by apply list_elem_of_In.
    + unfold ff. cbn. destruct (keep st f); [by constructor|done].
  - done.
  - done.
  - rewrite fmap_app in Hd |- *. apply list.NoDup_app in Hd as (D1 & D2 & D3). rewrite fmap_app in D3. apply list.NoDup_app in D3 as (D3 & D4 & D5).
    apply list.NoDup_app. split; [done|]. split; [|done]. intros x Hx Hb. apply (D2 x Hx). rewrite fmap_app. apply elem_of_app. by right.
  - done.
  - done.
  - intros x Hx. rewrite !elem_of_app. right. right. apply Hin'. rewrite elem_of_cons, !elem_of_app. apply elem_of_app in Hx. tauto.
  - rewrite !length_app. lia.
  - exists (a ++ f :: m), h3. split; [rewrite P; solve_Permutation|]. split.
    { apply StronglySorted_app. assert (∀ x, x ∈ m → file_less f x) as Fm by (intros x Hx; apply Fl; by rewrite <- P).
      split; [|split; [done|constructor; [done|by apply list.Forall_forall]]].
      intros x y Hx [->|Hy]%elem_of_cons; [by apply Fa|]. eapply file_less_trans; [by apply Fa|by apply Fm]. }
    change (a ++ f :: m) with (a ++ [f] ++ m). rewrite !List.filter_app. fold fa ff. split.
    + rewrite E3. by rewrite <- !app_assoc.
    + eapply counts_perm; [|exact Hc3]. solve_Permutation.
Qed.
End order.
End BuilderProps.
Export BuilderProps.

(** * Sets of versions *)
Module EditProps.
Import Version VersionSet.

(** * What edits say

    For each level, the size and the keys of the files by their numbers. *)
Definition Data : Type := Z * bytes * bytes.
Definition data_of (d : FileMetaData) : Data := (file_size d, smallest d, largest d).
Definition Levels : Type := nat → gmap Z Data.
Definition at_level (level : Z) (g : gmap Z Data → gmap Z Data) (M : Levels) : Levels :=
  λ l, if (l =? Z.to_nat level)%nat then g (M l) else M l.
Definition remove_file (M : Levels) (x : Z * Z) : Levels := at_level x.1 (delete x.2) M.
Definition put_file (M : Levels) (x : Z * FileMetaData) : Levels := at_level x.1 (<[number x.2 := data_of x.2]>) M.
Definition edited (M : Levels) (e : VersionEdit.VersionEdit) : Levels :=
  foldl put_file (foldl remove_file M (VersionEdit.deleted_files_ e)) (VersionEdit.new_files_ e).

Section version_set.
Context (C : SliceComparator) (valid : bytes → Prop) (ord : Comparator bytes) `{!Lawful C (λ _, True) valid ord}.
#[local] Instance iord : Comparator bytes := internal_order ord.
#[local] Abbreviation kcmp := (@compare_ bytes iord).
#[local] Abbreviation num := (λ f, number (meta f)).
#[local] Abbreviation files_sorted := (StronglySorted (file_less ord)).
Implicit Types (f g : File) (files fs : list File) (h : Objects) (st : LevelState) (M : gmap Z Data) (b : Builder).

(** The files of a level that show a map. *)
Record shows M files : Prop := {
  sh_keys : Forall file_keys files;
  sh_sorted : files_sorted files;
  sh_numbers : NoDup (num <$> files);
  sh_files n d : M !! n = Some d ↔ ∃ f, f ∈ files ∧ num f = n ∧ data_of (meta f) = d
}.

(** ** One level of a builder *)

Record level_state M st files : Prop := {
  ls_keys : Forall file_keys (added_files st);
  ls_sorted : files_sorted (added_files st);
  ls_numbers : NoDup (num <$> added_files st ++ files);
  ls_files n d : M !! n = Some d ↔ ∃ f, f ∈ added_files st ++ files ∧ num f = n ∧ data_of (meta f) = d ∧ n ∉ deleted_files st
}.

Lemma level_state_new M files : shows M files → level_state M (mkLevelState ∅ []) files.
Proof.
  intros [H1 H2 H3 H4]. split; [done|constructor|done|]. intros n d. rewrite H4. cbn. split.
  - intros (f & Hf & E & D). exists f. split_and!; [done..|]. apply not_elem_of_empty.
  - intros (f & Hf & E & D & _). by exists f.
Qed.

Lemma level_state_delete M st files n : level_state M st files → level_state (delete n M) (mkLevelState ({[n]} ∪ deleted_files st) (added_files st)) files.
Proof.
  intros [H1 H2 H3 H4]. split; [done..|]. intros m d. cbn. rewrite lookup_delete_Some, H4. split.
  - intros (N & f & Hf & E & D & Hn). exists f. split_and!; [done..|]. rewrite elem_of_union, elem_of_singleton. intros [->|]; done.
  - intros (f & Hf & E & D & Hn). rewrite elem_of_union, elem_of_singleton in Hn. split; [intros ->; apply Hn; by left|]. exists f. split_and!; [done..|]. intros Hm. apply Hn. by right.
Qed.

Lemma level_state_add M st files f : level_state M st files → file_keys f → num f ∉ num <$> added_files st ++ files →
  ∃ added, file_set_insert C f (added_files st) = Ok added ∧ added ≡ₚ f :: added_files st ∧
    level_state (<[num f := data_of (meta f)]> M) (mkLevelState (deleted_files st ∖ {[num f]}) added) files.
Proof.
  intros [H1 H2 H3 H4] Hf Hn. destruct (file_set_insert_ok C valid ord f (added_files st) Hf H1 H2) as (added & E & P & Hs).
  { intros Hin. apply Hn. rewrite fmap_app. apply elem_of_app. by left. }
  exists added. split; [done|]. split; [done|]. split; cbn.
  - rewrite P. by constructor.
  - done.
  - rewrite P. cbn. apply list.NoDup_cons. by split.
  - intros n d. rewrite lookup_insert_Some, H4. setoid_rewrite P. cbn. split.
    + intros [[<- <-]|(N & g & Hg & E' & D & Hd)].
      * exists f. split_and!; [by left|done|done|]. intros [_ Hx]%elem_of_difference. by apply Hx, elem_of_singleton.
      * exists g. split_and!; [by right|done|done|]. intros [? _]%elem_of_difference. done.
    + intros (g & [->|Hg]%elem_of_cons & <- & <- & Hd); [by left|]. right. rewrite elem_of_difference, elem_of_singleton in Hd.
      assert (num f ≠ num g) as N by (intros E'; apply Hn, list_elem_of_fmap; by exists g). split; [done|]. exists g. split_and!; [done..|]. intros Hd'. apply Hd. by split.
Qed.

(** The level that is saved. *)
Lemma level_state_shows M st files m : level_state M st files → Forall file_keys files → m ≡ₚ added_files st ++ files → files_sorted m → shows M (List.filter (keep st) m).
Proof.
  intros [H1 H2 H3 H4] Hk P Hs. assert (∀ f, f ∈ List.filter (keep st) m ↔ f ∈ added_files st ++ files ∧ num f ∉ deleted_files st) as Hin.
  { intros f. rewrite list_elem_of_In, filter_In, <- list_elem_of_In, P. unfold keep. rewrite negb_true_iff, bool_decide_eq_false. done. }
  split.
  - apply list.Forall_forall. intros f [Hf _]%Hin. apply elem_of_app in Hf. rewrite list.Forall_forall in H1, Hk. destruct Hf; auto.
  - clear -Hs. induction Hs as [|f m Hs IH Hall]; [constructor|]. cbn. destruct (keep st f); [|done]. constructor; [done|]. apply list.Forall_forall.
    intros g Hg%list_elem_of_In. apply filter_In in Hg as [Hg _]. rewrite list.Forall_forall in Hall. apply Hall. by apply list_elem_of_In.
  - rewrite <- P in H3. clear -H3. induction m as [|f m IH]; [constructor|]. cbn in H3. apply list.NoDup_cons in H3 as [Hn Hd]. cbn. destruct (keep st f); [|by apply IH].
    cbn. apply list.NoDup_cons. split; [|by apply IH]. intros (g & E & Hg)%list_elem_of_fmap. apply Hn, list_elem_of_fmap. exists g. split; [done|].
    apply list_elem_of_In in Hg. apply filter_In in Hg as [Hg _]. by apply list_elem_of_In.
  - intros n d. rewrite H4. split.
    + intros (f & Hf & <- & D & Hn). exists f. by rewrite Hin.
    + intros (f & [Hf Hn]%Hin & <- & D). by exists f.
Qed.

(** ** Builders

    [U] has the numbers that were in use, with their levels. *)
Implicit Types (U : list (nat * Z)).

Record building (L : Levels) U b (base : list (list File)) : Prop := {
  bu_levels : length (levels_ b) = 7%nat;
  bu_base : length base = 7%nat;
  bu_state l st files : levels_ b !! l = Some st → base !! l = Some files →
    level_state (L l) st files ∧ ∀ f, f ∈ added_files st ++ files → (l, num f) ∈ U
}.
(** The files that the builder refers to. *)
Definition held b : list File := concat (added_files <$> levels_ b).

Lemma held_insert b l st st' more : levels_ b !! l = Some st → added_files st' ≡ₚ more ++ added_files st →
  concat (added_files <$> <[l := st']> (levels_ b)) ≡ₚ more ++ held b.
Proof.
  intros Hl P. unfold held. rewrite <- (take_drop_middle _ _ _ Hl) at 2. rewrite insert_take_drop by by eapply lookup_lt_Some.
  rewrite !fmap_app, !concat_app. cbn. rewrite P. solve_Permutation.
Qed.

Lemma with_level_ok L U b base level op (G : gmap Z Data → gmap Z Data) more : building L U b base → 0 <= level < 7 →
  (∀ st files, levels_ b !! Z.to_nat level = Some st → base !! Z.to_nat level = Some files →
    level_state (L (Z.to_nat level)) st files → (∀ f, f ∈ added_files st ++ files → (Z.to_nat level, num f) ∈ U) →
    ∃ st', op st = Ok st' ∧ added_files st' ≡ₚ more ++ added_files st ∧ level_state (G (L (Z.to_nat level))) st' files) →
  ∃ b', with_level b level op = Ok b' ∧ base_ b' = base_ b ∧ building (at_level level G L) (((λ f, (Z.to_nat level, num f)) <$> more) ++ U) b' base ∧ held b' ≡ₚ more ++ held b.
Proof.
  intros [H1 H2 H3] Hl Hop. destruct (lookup_lt_is_Some_2 (levels_ b) (Z.to_nat level)) as [st Hst]; [lia|]. destruct (lookup_lt_is_Some_2 base (Z.to_nat level)) as [files Hfl]; [lia|].
  destruct (H3 _ _ _ Hst Hfl) as [Hls HU]. destruct (Hop st files Hst Hfl Hls HU) as (st' & E & P & Hs). unfold with_level. rewrite (proj2 (Z.ltb_ge _ _)) by lia. rewrite Hst. unfold mbind, res_bind. cbn [of_option]. rewrite E.
  eexists. split; [done|]. split; [done|]. split; [|by eapply held_insert].
  split; cbn; [by rewrite length_insert|done|]. intros l st1 files1 Hst1 Hf1. unfold at_level. destruct (Nat.eqb_spec l (Z.to_nat level)) as [->|N].
  - rewrite list_lookup_insert_eq in Hst1 by by eapply lookup_lt_Some. rewrite Hfl in Hf1. injection Hst1 as <-. injection Hf1 as <-. split; [done|].
    intros f. rewrite P, <- app_assoc. intros [Hf|Hf]%elem_of_app; apply elem_of_app; [left|right; by apply HU]. apply list_elem_of_fmap. by exists f.
  - rewrite list_lookup_insert_ne in Hst1 by done. destruct (H3 _ _ _ Hst1 Hf1) as [? HU']. split; [done|]. intros f Hf. apply elem_of_app. right. by apply HU'.
Qed.

Lemma apply_deleted_ok U base l : ∀ L b, building L U b base → Forall (λ x, 0 <= x.1 < 7) l →
  ∃ b', apply_deleted l b = Ok b' ∧ base_ b' = base_ b ∧ building (foldl remove_file L l) U b' base ∧ held b' ≡ₚ held b.
Proof.
  induction l as [|[level n] l IH]; intros L b Hb Hl; [by exists b|]. apply list.Forall_cons in Hl as [Hlev Hl]. cbn [apply_deleted foldl].
  destruct (with_level_ok L U b base level (λ st, Ok (mkLevelState ({[n]} ∪ deleted_files st) (added_files st))) (delete n) [] Hb Hlev) as (b1 & -> & Eb & Hb1 & P1).
  { intros st files _ _ Hs _. eexists. split; [done|]. split; [done|]. by apply level_state_delete. }
  unfold mbind, res_bind. destruct (IH _ _ Hb1 Hl) as (b2 & -> & Eb2 & Hb2 & P2). exists b2. split; [done|]. split; [congruence|]. split; [done|]. by rewrite P2, P1.
Qed.

Definition file_ok (x : Z * FileMetaData) : Prop := 0 <= x.1 < 7 ∧ ikey_ok (smallest x.2) ∧ ikey_ok (largest x.2).
Definition pair_of_file (x : Z * FileMetaData) : nat * Z := (Z.to_nat x.1, number x.2).

Lemma apply_files_ok base l : ∀ L U b s fs, building L U b base → Forall file_ok l → NoDup (pair_of_file <$> l) → (∀ x, x ∈ l → pair_of_file x ∉ U) →
  counts (objects s) (held b ++ fs) →
  ∃ b' h' U', apply_files C l b s = Ok (b', set_objects s h') ∧ base_ b' = base_ b ∧ building (foldl put_file L l) U' b' base ∧ counts h' (held b' ++ fs) ∧
    (∀ p, p ∈ U' → p ∈ U ∨ p ∈ pair_of_file <$> l) ∧ length (held b') = (length (held b) + length l)%nat.
Proof.
  induction l as [|[level d] l IH]; intros L U b s fs Hb Hl Hd HU Hc.
  { exists b, (objects s), U. split; [by destruct s|]. split; [done|]. split; [done|]. split; [done|]. split; [by left|cbn; lia]. }
  apply list.Forall_cons in Hl as [[Hlev [Hk1 Hk2]] Hl]. cbn in Hlev, Hk1, Hk2. cbn in Hd. apply list.NoDup_cons in Hd as [Hd1 Hd]. cbn [apply_files foldl].
  set (d' := mkFile 1 _ _ _ _ _). destruct (new_object_ok d' (objects s) (held b ++ fs) eq_refl Hc) as (f & h1 & -> & Em & Hc1 & _).
  assert (num f = number d ∧ data_of (meta f) = data_of d ∧ file_keys f) as (En & Ed & Hfk) by (unfold file_keys; rewrite Em; by split_and!).
  destruct (with_level_ok L U b base level (λ st, added ← file_set_insert C f (added_files st); Ok (mkLevelState (deleted_files st ∖ {[number (meta f)]}) added))
    (<[number d := data_of d]>) [f] Hb Hlev) as (b1 & -> & Eb & Hb1 & P1).
  { intros st files _ _ Hs Hu. destruct (level_state_add _ st files f Hs Hfk) as (added & -> & P & Hs').
    - intros (g & E & Hg)%list_elem_of_fmap. apply (HU (level, d)); [by left|]. unfold pair_of_file. cbn. rewrite <- En, E. by apply Hu.
    - eexists. split; [done|]. split; [done|]. rewrite En, Ed in Hs'. by rewrite En. }
  unfold mbind, res_bind. cbn in Hb1. rewrite En in Hb1.
  destruct (IH _ _ b1 (set_objects s h1) fs Hb1 Hl Hd) as (b2 & h2 & U2 & E2 & Eb2 & Hb2 & Hc2 & HU2 & Hlen).
  - intros x Hx [E|Hin]%elem_of_cons; [|by apply (HU x); [right|]]. apply Hd1, list_elem_of_fmap. by exists x.
  - cbn. eapply counts_perm; [|exact Hc1]. by rewrite P1.
  - exists b2, h2, U2. split; [exact E2|]. split; [congruence|]. split; [exact Hb2|]. split; [done|]. split.
    + intros p [[->|Hp]%elem_of_cons|Hp]%HU2; [right; by left|by left|right; by right].
    + rewrite Hlen, P1. cbn. lia.
Qed.

(** ** Saving all levels *)

(** Of two files of a level, the one that starts first ends before the other starts. *)
Definition map_apart M : Prop := ∀ n n' (d d' : Data), M !! n = Some d → M !! n' = Some d' →
  kcmp d.1.2 d'.1.2 < 0 ∨ kcmp d.1.2 d'.1.2 = 0 ∧ n < n' → kcmp d.2 d'.1.2 < 0.

Lemma fit_new M st files : level_state M st files → map_apart M → fit ord st [] (added_files st ++ files).
Proof.
  intros [_ _ _ H4] Ha. split; [constructor|by intros ? ? ?%not_elem_of_nil|]. intros f g Hf Hg Kf Kg L.
  unfold keep in Kf, Kg. apply negb_true_iff, bool_decide_eq_false in Kf, Kg.
  apply (Ha (num f) (num g) (data_of (meta f)) (data_of (meta g))); [by apply H4; exists f|by apply H4; exists g|exact L].
Qed.

Lemma save_levels_ok (L : Levels) levels : ∀ n base h fs, length base = length levels →
  (∀ i st files, levels !! i = Some st → base !! i = Some files →
    level_state (L (n + i)%nat) st files ∧ Forall file_keys files ∧ files_sorted files ∧ ∀ f, f ∈ added_files st ++ files → f ∈ fs) →
  (∀ i, (0 < n + i)%nat → map_apart (L (n + i)%nat)) → counts h fs →
  Z.of_nat (length (concat (added_files <$> levels)) + length (concat base) + length fs) < 2 ^ 31 - 1 →
  ∃ saved h', save_levels C (Z.of_nat n) levels base h = Ok (saved, h') ∧ length saved = length levels ∧
    (∀ i files, saved !! i = Some files → shows (L (n + i)%nat) files ∧ ((0 < n + i)%nat → apart ord files)) ∧
    counts h' (concat saved ++ fs) ∧ (length (concat saved) <= length (concat (added_files <$> levels)) + length (concat base))%nat.
Proof.
  induction levels as [|st levels IH]; intros n base h fs Hlen Hls Hap Hc Hn.
  { exists [], h. destruct base; [|done]. split_and!; try done. }
  destruct base as [|files base]; [done|]. destruct (Hls 0%nat st files eq_refl eq_refl) as (Hs & Hk & Hso & Hin). rewrite Nat.add_0_r in Hs.
  rewrite fmap_cons in Hn. cbn [concat] in Hn. rewrite !length_app in Hn.
  assert (0 < Z.of_nat n → fit ord st [] (added_files st ++ files)) as Hfit.
  { intros L0. apply (fit_new _ _ _ Hs). specialize (Hap 0%nat). rewrite Nat.add_0_r in Hap. apply Hap. lia. }
  destruct (save_level_ok C valid ord (Z.of_nat n) st (added_files st) files [] h fs) as (m & h1 & P & Hsm & E & Hc1); try done.
  { apply Hs. } { apply Hs. } { apply Hs. } { rewrite length_app. lia. }
  cbn [save_levels]. rewrite E. unfold mbind, res_bind. cbn [app].
  pose proof (level_state_shows _ _ _ _ Hs Hk P Hsm) as Hsh. assert ((0 < n)%nat → apart ord (List.filter (keep st) m)) as Hapm.
  { intros L0. apply (fit_apart ord st [] (added_files st ++ files)); [apply Hfit; lia|intros x; by rewrite P|done]. }
  assert ((if 0 <? Z.of_nat n then no_overlaps C (List.filter (keep st) m) else Ok true) = Ok true) as ->.
  { destruct (Z.ltb_spec 0 (Z.of_nat n)) as [L0|L0]; [|done]. apply (no_overlaps_ok C valid ord); [apply Hsh|apply Hapm; lia]. }
  cbn [SkipList.assert_]. replace (Z.of_nat n + 1) with (Z.of_nat (S n)) by lia.
  assert (length (List.filter (keep st) m) <= length (added_files st) + length files)%nat as Hlm. { rewrite <- length_app, <- P. apply List.filter_length_le. }
  destruct (IH (S n) base h1 (List.filter (keep st) m ++ fs)) as (saved & h2 & E2 & Hl2 & Hsh2 & Hc2 & Hlen2).
  - cbn in Hlen. lia.
  - intros i st' files' Hst' Hf'. destruct (Hls (S i) st' files' Hst' Hf') as (Hs' & Hk' & Hso' & Hin'). rewrite Nat.add_succ_r in Hs'.
    split; [exact Hs'|]. split; [done|]. split; [done|]. intros f Hf. apply elem_of_app. right. by apply Hin'.
  - intros i Hi. specialize (Hap (S i)). rewrite Nat.add_succ_r in Hap. by apply Hap.
  - done.
  - rewrite length_app. lia.
  - exists (List.filter (keep st) m :: saved), h2. rewrite E2. split; [done|]. split; [cbn; lia|]. split; [|split].
    + intros [|i] files' Hi; [injection Hi as <-; by rewrite Nat.add_0_r|]. rewrite Nat.add_succ_r. by apply Hsh2.
    + eapply counts_perm; [|exact Hc2]. cbn. rewrite !app_assoc. apply Permutation_app_tail, Permutation_app_comm.
    + rewrite fmap_cons. cbn. rewrite !length_app. lia.
Qed.

(** ** Applying edits *)

Record edit_fits (e : VersionEdit.VersionEdit) : Prop := {
  ef_pointers : Forall (λ x, 0 <= x.1 < 7 ∧ ikey_ok x.2) (VersionEdit.compact_pointers_ e);
  ef_deleted : Forall (λ x, 0 <= x.1 < 7) (VersionEdit.deleted_files_ e);
  ef_files : Forall file_ok (VersionEdit.new_files_ e)
}.
Definition pointers (e : VersionEdit.VersionEdit) (p : list bytes) : list bytes :=
  foldl (λ p x, <[Z.to_nat x.1 := x.2]> p) p (VersionEdit.compact_pointers_ e).
Definition new_pairs (e : VersionEdit.VersionEdit) : list (nat * Z) := pair_of_file <$> VersionEdit.new_files_ e.

Lemma apply_pointers_ok l : ∀ s, Forall (λ x, 0 <= x.1 < 7 ∧ ikey_ok x.2) l →
  apply_pointers l s = Ok (set_pointers s (foldl (λ p x, <[Z.to_nat x.1 := x.2]> p) (compact_pointer_ s) l)).
Proof.
  induction l as [|[level k] l IH]; intros s Hl; [by destruct s|]. apply list.Forall_cons in Hl as [[Hlev Hk] Hl]. cbn in Hlev, Hk. cbn [apply_pointers foldl].
  rewrite Encode_ok by done. unfold mbind, res_bind, Config.kNumLevels. rewrite (proj2 (Z.leb_le _ _)), (proj2 (Z.ltb_lt _ _)) by lia. cbn [andb].
  rewrite IH by done. done.
Qed.

Lemma Apply_ok e L U b s base fs : building L U b base → edit_fits e → NoDup (new_pairs e) → (∀ p, p ∈ new_pairs e → p ∉ U) → counts (objects s) (held b ++ fs) →
  ∃ b' h' U', Apply C e b s = Ok (b', set_objects (set_pointers s (pointers e (compact_pointer_ s))) h') ∧ base_ b' = base_ b ∧ building (edited L e) U' b' base ∧
    counts h' (held b' ++ fs) ∧ (∀ p, p ∈ U' → p ∈ U ∨ p ∈ new_pairs e) ∧ length (held b') = (length (held b) + length (VersionEdit.new_files_ e))%nat.
Proof.
  intros Hb [Hp Hd Hf] Hnd HU Hc. unfold Apply. rewrite apply_pointers_ok by done. unfold mbind, res_bind.
  destruct (apply_deleted_ok U base _ L b Hb Hd) as (b1 & -> & Eb & Hb1 & P1).
  destruct (apply_files_ok base (VersionEdit.new_files_ e) _ U b1 (set_pointers s (pointers e (compact_pointer_ s))) fs Hb1 Hf Hnd) as (b2 & h2 & U2 & E2 & Eb2 & Hb2 & Hc2 & HU2 & Hl2).
  - intros x Hx. apply HU, list_elem_of_fmap. by exists x.
  - cbn. eapply counts_perm; [|exact Hc]. by rewrite P1.
  - exists b2, h2, U2. split; [exact E2|]. split; [congruence|]. split; [done|]. split; [done|]. split; [exact HU2|]. by rewrite Hl2, P1.
Qed.
End version_set.
End EditProps.
Export EditProps.

(** * Sets of versions *)
Import Version VersionSet.

(** * The invariant

    [pins] are the references to versions, [extra] the references to files that no version
    has. *)
Definition files_of (v : Version) : list File := concat (files_ v).
Definition all_files (s : VersionSet) : list File := concat (files_of <$> (map_to_list (versions s)).*2).
Definition pinned (p : nat) (pins : list nat) : Z := Z.of_nat (length (List.filter (λ q, (q =? p)%nat) pins)).

Record set_ok (s : VersionSet) (extra : list File) (pins : list nat) : Prop := {
  so_counts : counts (objects s) (extra ++ all_files s);
  so_versions p : match versions s !! p with
                  | Some v => refs_ v = pinned p pins ∧ 0 < pinned p pins ∧ length (files_ v) = 7%nat
                  | None => pinned p pins = 0
                  end;
  so_fresh p : is_Some (versions s !! p) → (p < next_version s)%nat;
  so_linked : NoDup (linked s) ∧ ∀ p, p ∈ linked s ↔ is_Some (versions s !! p);
  so_pins : Z.of_nat (length pins) < 2 ^ 31 - 1;
  so_files : Z.of_nat (length (extra ++ all_files s)) < 2 ^ 31 - 1
}.

Lemma pinned_cons p q pins : pinned p (q :: pins) = (if (q =? p)%nat then 1 else 0) + pinned p pins.
Proof. unfold pinned. cbn. destruct (q =? p)%nat; cbn [length]; lia. Qed.
Lemma pinned_range p pins : 0 <= pinned p pins <= Z.of_nat (length pins).
Proof. unfold pinned. pose proof (List.filter_length_le (λ q, (q =? p)%nat) pins). lia. Qed.

(** ** The files of all versions *)

Lemma all_files_lookup s p v : versions s !! p = Some v → all_files s ≡ₚ files_of v ++ concat (files_of <$> (map_to_list (delete p (versions s))).*2).
Proof. intros Hp. unfold all_files. by rewrite <- (map_to_list_delete _ _ _ Hp). Qed.

Lemma all_files_insert (m : gmap nat Version) p v : concat (files_of <$> (map_to_list (<[p := v]> m)).*2) ≡ₚ files_of v ++ concat (files_of <$> (map_to_list (delete p m)).*2).
Proof. rewrite <- insert_delete_eq. by rewrite map_to_list_insert by apply lookup_delete_eq. Qed.

Lemma all_files_update s p v v' : versions s !! p = Some v → files_ v' = files_ v → concat (files_of <$> (map_to_list (<[p := v']> (versions s))).*2) ≡ₚ all_files s.
Proof. intros Hp E. rewrite all_files_insert, (all_files_lookup s p v Hp). unfold files_of. by rewrite E. Qed.

(** ** References to versions *)

(** The other versions and what is not about versions stay. *)
Record same_but (s s' : VersionSet) (p : nat) : Prop := {
  sb_versions q : q ≠ p → versions s' !! q = versions s !! q;
  sb_next : next_version s' = next_version s;
  sb_current : current_ s' = current_ s;
  sb_pointers : compact_pointer_ s' = compact_pointer_ s;
  sb_numbers : next_file_number_ s' = next_file_number_ s ∧ manifest_file_number_ s' = manifest_file_number_ s ∧ last_sequence_ s' = last_sequence_ s ∧
    log_number_ s' = log_number_ s ∧ prev_log_number_ s' = prev_log_number_ s
}.

Lemma Ref_version_ok s extra pins p v : set_ok s extra pins → versions s !! p = Some v → Z.of_nat (S (length pins)) < 2 ^ 31 - 1 →
  ∃ s', Ref s p = Ok s' ∧ set_ok s' extra (p :: pins) ∧ same_but s s' p ∧ objects s' = objects s ∧ linked s' = linked s ∧ versions s' !! p = Some (with_refs v (refs_ v + 1)).
Proof.
  intros [H1 H2 H3 [H4 H4'] H5 H6] Hp Hn. pose proof (H2 p) as Hv. rewrite Hp in Hv. destruct Hv as (Hr & H0 & H7). pose proof (pinned_range p pins).
  unfold Ref, version. rewrite Hp. unfold mbind, res_bind. cbn [of_option]. rewrite int_ok_small by lia. eexists. split; [done|].
  assert (concat (files_of <$> (map_to_list (<[p := with_refs v (refs_ v + 1)]> (versions s))).*2) ≡ₚ all_files s) as P by by apply (all_files_update s p v).
  split; [|split; [split; cbn; try done; intros q N; by rewrite lookup_insert_ne|split; [done|split; [done|cbn; apply lookup_insert_eq]]]]. split; cbn.
  - unfold all_files. cbn. eapply counts_perm; [|exact H1]. by rewrite P.
  - intros q. specialize (H2 q). rewrite pinned_cons. destruct (Nat.eqb_spec p q) as [<-|N].
    + rewrite lookup_insert_eq. cbn. split_and!; [lia..|done].
    + by rewrite lookup_insert_ne.
  - intros q [x Hq]. destruct (decide (p = q)) as [<-|N]; [by apply H3|]. rewrite lookup_insert_ne in Hq by done. apply H3. by exists x.
  - split; [done|]. intros q. rewrite H4'. destruct (decide (p = q)) as [<-|N]; [|by rewrite lookup_insert_ne]. rewrite lookup_insert_eq, Hp. by split.
  - lia.
  - unfold all_files. cbn. rewrite length_app, P, <- length_app. done.
Qed.

Lemma delete_linked p l : NoDup l → NoDup (List.filter (λ q, negb (q =? p)%nat) l) ∧ ∀ q, q ∈ List.filter (λ q, negb (q =? p)%nat) l ↔ q ∈ l ∧ q ≠ p.
Proof.
  intros Hd. assert (∀ l q, q ∈ List.filter (λ q, negb (q =? p)%nat) l ↔ q ∈ l ∧ q ≠ p) as Hin.
  { intros l' q. rewrite !list_elem_of_In, filter_In, negb_true_iff, Nat.eqb_neq. done. }
  split; [|apply Hin]. induction l as [|x l IH]; [constructor|]. apply list.NoDup_cons in Hd as [Hx Hd]. cbn. destruct (negb (x =? p)%nat); [|by apply IH].
  apply list.NoDup_cons. split; [|by apply IH]. intros [? _]%Hin. done.
Qed.

Lemma Unref_ok s extra pins p : set_ok s extra (p :: pins) →
  ∃ s', Unref s p = Ok s' ∧ set_ok s' extra pins ∧ same_but s s' p ∧
    (p ∈ pins → linked s' = linked s ∧ ∃ v, versions s !! p = Some v ∧ versions s' !! p = Some (with_refs v (refs_ v - 1))).
Proof.
  intros [H1 H2 H3 [H4 H4'] H5 H6]. pose proof (H2 p) as Hv. rewrite pinned_cons, Nat.eqb_refl in Hv. pose proof (pinned_range p pins) as Hp0.
  destruct (versions s !! p) as [v|] eqn:Hp; [|lia]. destruct Hv as (Hr & _ & H7). cbn [length] in H5.
  unfold Unref, version. rewrite Hp. unfold mbind, res_bind. cbn [of_option]. rewrite (proj2 (Z.leb_le 1 _)) by lia. cbn [SkipList.assert_].
  assert (p ∈ pins ↔ 0 < pinned p pins) as Hin.
  { unfold pinned. split.
    - intros Hin%list_elem_of_In. destruct (List.filter (λ q, (q =? p)%nat) pins) as [|x l] eqn:E; [|cbn; lia]. exfalso.
      assert (In p (List.filter (λ q, (q =? p)%nat) pins)) as Hc; [|by rewrite E in Hc]. apply filter_In. split; [done|apply Nat.eqb_refl].
    - destruct (List.filter (λ q, (q =? p)%nat) pins) as [|x l] eqn:E; [cbn; lia|]. intros _. assert (In x (List.filter (λ q, (q =? p)%nat) pins)) as Hc by (rewrite E; by left).
      apply filter_In in Hc as [Hc ->%Nat.eqb_eq]. by apply list_elem_of_In. }
  destruct (Z.eqb_spec (refs_ v - 1) 0) as [E|E].
  - unfold delete_version, version. cbn. rewrite lookup_insert_eq. cbn. rewrite E. cbn [Z.eqb SkipList.assert_].
    destruct (unref_files_ok (files_of v) (objects s) (extra ++ concat (files_of <$> (map_to_list (delete p (versions s))).*2))) as (h' & Eu & Hc').
    { eapply counts_perm; [|exact H1]. rewrite (all_files_lookup s p v Hp). rewrite !app_assoc. apply Permutation_app_tail, Permutation_app_comm. }
    { rewrite (all_files_lookup s p v Hp) in H6. rewrite !length_app in *. lia. }
    unfold files_of in Eu. unfold mbind, res_bind. rewrite Eu. eexists. split; [done|].
    assert (∀ x : Version, delete p (<[p := x]> (versions s)) = delete p (versions s)) as Ed by (intros; apply delete_insert_eq).
    destruct (delete_linked p (linked s) H4) as [D1 D2].
    split; [split; cbn; rewrite ?Ed|split; [split; cbn; try done; intros q N; by rewrite lookup_delete_ne, lookup_insert_ne|intros Hc; apply Hin in Hc; lia]].
    + unfold all_files. cbn. by rewrite ?Ed.
    + intros q. specialize (H2 q). rewrite pinned_cons in H2. destruct (Nat.eqb_spec p q) as [Epq|N]; [rewrite <- Epq in *; rewrite lookup_delete_eq; lia|by rewrite lookup_delete_ne].
    + intros q [x Hq]. apply lookup_delete_Some in Hq as [_ Hq]. apply H3. by exists x.
    + split; [done|]. intros q. rewrite D2, H4'. destruct (decide (p = q)) as [<-|N]; [rewrite lookup_delete_eq; split; [by intros []|by intros []]|].
      rewrite lookup_delete_ne by done. split; [by intros []|]. intros; by split.
    + lia.
    + unfold all_files. cbn. rewrite ?Ed. rewrite (all_files_lookup s p v Hp) in H6. rewrite !length_app in *. lia.
  - eexists. split; [done|]. assert (concat (files_of <$> (map_to_list (<[p := with_refs v (refs_ v - 1)]> (versions s))).*2) ≡ₚ all_files s) as P by by apply (all_files_update s p v).
    split; [|split; [split; cbn; try done; intros q N; by rewrite lookup_insert_ne|intros _; split; [done|]; exists v; split; [done|cbn; apply lookup_insert_eq]]].
    split; cbn.
    + unfold all_files. cbn. eapply counts_perm; [|exact H1]. by rewrite P.
    + intros q. specialize (H2 q). rewrite pinned_cons in H2. destruct (Nat.eqb_spec p q) as [Epq|N].
      * rewrite <- Epq in *. rewrite lookup_insert_eq. cbn. split_and!; [lia..|done].
      * by rewrite lookup_insert_ne.
    + intros q [x Hq]. destruct (decide (p = q)) as [<-|N]; [by apply H3|]. rewrite lookup_insert_ne in Hq by done. apply H3. by exists x.
    + split; [done|]. intros q. rewrite H4'. destruct (decide (p = q)) as [<-|N]; [|by rewrite lookup_insert_ne]. rewrite lookup_insert_eq, Hp. by split.
    + lia.
    + unfold all_files. cbn. rewrite length_app, P, <- length_app. done.
Qed.

(** ** The level to compact *)

(** A level that wants to be compacted has files, and a level below it. *)
Definition compaction_ok (v : Version) : Prop :=
  SpecFloat.SFleb (double_of 1) (compaction_score_ v) = true →
  0 <= compaction_level_ v < 6 ∧ ∃ files, files_ v !! Z.to_nat (compaction_level_ v) = Some files ∧ files ≠ [].

Lemma best_level_ind (P : Z → SpecFloat.spec_float → Prop) levels : ∀ level best score, P best score →
  (∀ i files, levels !! i = Some files → P (level + Z.of_nat i) (level_score (level + Z.of_nat i) files)) →
  P (best_level level levels best score).1 (best_level level levels best score).2.
Proof.
  induction levels as [|files levels IH]; intros level best score H0 Hl; [done|]. cbn [best_level].
  assert (∀ b s, P b s → P (best_level (level + 1) levels b s).1 (best_level (level + 1) levels b s).2) as Hn.
  { intros b s Hb. apply IH; [done|]. intros i files' Hi. replace (level + 1 + Z.of_nat i) with (level + Z.of_nat (S i)) by lia. by apply Hl. }
  destruct (SpecFloat.SFltb _ _); apply Hn; [|done]. specialize (Hl 0%nat files eq_refl). by rewrite Z.add_0_r in Hl.
Qed.

Lemma empty_level_score i : (i < 6)%nat → SpecFloat.SFleb (double_of 1) (level_score (Z.of_nat i) []) = false.
Proof. intros Hi. do 6 (destruct i as [|i]; [vm_compute; done|]). lia. Qed.

Lemma Finalize_ok v : compaction_ok (Finalize v).
Proof.
  unfold compaction_ok, Finalize. set (levels := take (Z.to_nat (Config.kNumLevels - 1)) (files_ v)).
  pose proof (best_level_ind (λ b s, SpecFloat.SFleb (double_of 1) s = true → 0 <= b < 6 ∧ ∃ files, files_ v !! Z.to_nat b = Some files ∧ files ≠ []) levels 0 (-1) (double_of (-1))) as H.
  destruct (best_level 0 levels (-1) (double_of (-1))) as [b s]. cbn in *. apply H; [by vm_compute|].
  intros i files Hi. apply lookup_take_Some in Hi as [Hi L]. change (Z.to_nat (Config.kNumLevels - 1)) with 6%nat in L. change (0 + Z.of_nat i) with (Z.of_nat i). intros Hs.
  split; [lia|]. exists files. rewrite Nat2Z.id. split; [done|]. intros ->. by rewrite empty_level_score in Hs.
Qed.

Lemma Finalize_files v : files_ (Finalize v) = files_ v ∧ refs_ (Finalize v) = refs_ v.
Proof. unfold Finalize. by destruct (best_level _ _ _ _). Qed.

(** ** Installing a version *)

Lemma AppendVersion_ok s c pins v : set_ok s (files_of v) (c :: pins) → current_ s = Some c → refs_ v = 0 → length (files_ v) = 7%nat →
  ∃ s', AppendVersion s v = Ok s' ∧ set_ok s' [] (next_version s :: pins) ∧ current_ s' = Some (next_version s) ∧
    versions s' !! next_version s = Some (with_refs v 1) ∧ (∃ l, linked s' = l ++ [next_version s]) ∧ compact_pointer_ s' = compact_pointer_ s ∧
    (∀ q v0, q ∈ pins → versions s !! q = Some v0 → ∃ v2, versions s' !! q = Some v2 ∧ files_ v2 = files_ v0).
Proof.
  intros Hs Hc Hv H7. unfold AppendVersion. rewrite Hv, Hc. cbn [Z.eqb SkipList.assert_]. unfold mbind, res_bind.
  destruct (Unref_ok s (files_of v) pins c Hs) as (s1 & E1 & Hs1 & Hb & Hk). rewrite E1. pose proof (sb_next _ _ _ Hb) as En. rewrite En.
  set (p := next_version s) in *. destruct Hs1 as [H1 H2 H3 [H4 H4'] H5 H6]. rewrite En in H3.
  assert (versions s1 !! p = None) as Hp. { apply eq_None_not_Some. intros Hx. specialize (H3 p Hx). lia. }
  assert (pinned p pins = 0) as Hp0. { specialize (H2 p). by rewrite Hp in H2. }
  unfold Ref, version. cbn. rewrite lookup_insert_eq. unfold mbind, res_bind. cbn [of_option]. rewrite Hv. rewrite int_ok_small by lia. eexists. split; [done|]. cbn.
  assert (versions s1 = delete p (versions s1)) as Ed by by rewrite delete_id.
  assert (∀ x, files_ x = files_ v → concat (files_of <$> (map_to_list (<[p := x]> (<[p := v]> (versions s1)))).*2) ≡ₚ files_of v ++ all_files s1) as P.
  { intros x Ex. rewrite insert_insert_eq, all_files_insert. rewrite <- Ed. unfold files_of. by rewrite Ex. }
  split; [|split; [done|split; [apply lookup_insert_eq|split; [by exists (linked s1)|split; [apply (sb_pointers _ _ _ Hb)|]]]]].
  - split; cbn.
    + unfold all_files. cbn. eapply counts_perm; [|exact H1]. by rewrite P.
    + intros q. specialize (H2 q). rewrite pinned_cons. destruct (Nat.eqb_spec p q) as [E|N].
      * rewrite <- E in *. rewrite lookup_insert_eq. cbn. rewrite Hp0. by split_and!.
      * rewrite !lookup_insert_ne by done. done.
    + intros q [x Hq]. destruct (decide (p = q)) as [<-|N]; [lia|]. rewrite !lookup_insert_ne in Hq by done. specialize (H3 q ltac:(by exists x)). lia.
    + split.
      * apply list.NoDup_app. split; [done|]. split; [|repeat constructor; apply not_elem_of_nil]. intros q Hq ->%list_elem_of_singleton. apply H4' in Hq. rewrite Hp in Hq. by destruct Hq.
      * intros q. rewrite elem_of_app, list_elem_of_singleton, H4'. destruct (decide (p = q)) as [<-|N].
        -- rewrite lookup_insert_eq. split; [done|]. intros _. by right.
        -- rewrite !lookup_insert_ne by done. split; [by intros [?| ->]|by left].
    + destruct Hs as [_ _ _ _ H5' _]. cbn in H5'. lia.
    + unfold all_files. cbn. rewrite P by done. done.
  - intros q v0 Hq H0. assert (q ≠ p) as N. { intros ->. destruct Hs as [_ _ H3' _ _ _]. specialize (H3' p ltac:(by exists v0)). unfold p in H3'. lia. }
    rewrite !lookup_insert_ne by done. destruct (decide (q = c)) as [->|Nc].
    + destruct (Hk Hq) as (_ & v1 & Hv1 & Hv1'). rewrite Hv1' . rewrite H0 in Hv1. injection Hv1 as <-. by eexists.
    + exists v0. rewrite (sb_versions _ _ _ Hb) by done. done.
Qed.

Lemma discard_ok s v pins : set_ok s (files_of v) pins → refs_ v = 0 →
  ∃ h, discard v s = Ok (set_objects s h) ∧ set_ok (set_objects s h) [] pins.
Proof.
  intros [H1 H2 H3 H4 H5 H6] Hv. unfold discard. rewrite Hv. cbn [Z.eqb SkipList.assert_]. unfold mbind, res_bind.
  destruct (unref_files_ok (files_of v) (objects s) (all_files s) H1) as (h & E & Hc); [lia|]. unfold files_of in E. rewrite E. exists h. split; [done|].
  split; cbn; try done. change (all_files (set_objects s h)) with (all_files s). rewrite length_app in H6. lia.
Qed.

(** * Applying an edit *)

Section apply.
Context (C : SliceComparator) (valid : bytes → Prop) (ord : Comparator bytes) `{!Lawful C (λ _, True) valid ord}.

(** The levels of a version show [L]. *)
Definition version_shows (L : Levels) (v : Version) : Prop :=
  length (files_ v) = 7%nat ∧ ∀ l files, files_ v !! l = Some files → shows ord (L l) files.

(** The numbers in use, with their levels. *)
Definition used (v : Version) : list (nat * Z) := concat (imap (λ l files, (λ f, (l, number (meta f))) <$> files) (files_ v)).

Lemma elem_used v l n : (l, n) ∈ used v ↔ ∃ files f, files_ v !! l = Some files ∧ f ∈ files ∧ n = number (meta f).
Proof.
  unfold used. rewrite list_elem_of_In, in_concat. split.
  - intros (x & Hx & Hn). apply list_elem_of_In, list_elem_of_lookup_1 in Hx as [i Hx]. rewrite list_lookup_imap in Hx.
    destruct (files_ v !! i) as [files|] eqn:Ef; [|done]. injection Hx as <-. apply list_elem_of_In, list_elem_of_fmap in Hn as (f & [= -> ->] & Hf). by exists files, f.
  - intros (files & f & Hl & Hf & ->). exists ((λ f, (l, number (meta f))) <$> files). split.
    + apply list_elem_of_In. eapply list_elem_of_lookup_2. rewrite list_lookup_imap, Hl. done.
    + apply list_elem_of_In, list_elem_of_fmap. by exists f.
Qed.

Lemma set_ok_objects s s' extra extra' pins : set_ok s extra pins → versions s' = versions s → next_version s' = next_version s → linked s' = linked s →
  counts (objects s') (extra' ++ all_files s) → Z.of_nat (length (extra' ++ all_files s)) < 2 ^ 31 - 1 → set_ok s' extra' pins.
Proof.
  intros [H1 H2 H3 H4 H5 H6] Ev En El Hc Hn. assert (all_files s' = all_files s) as Ea by (unfold all_files; by rewrite Ev).
  split; rewrite ?Ea, ?Ev, ?En, ?El; done.
Qed.

Lemma base_building L v p : version_shows L v → building ord L (used v) (mkBuilder p (replicate 7 (mkLevelState ∅ []))) (files_ v).
Proof.
  intros [H7 Hs]. split; [done|done|]. intros l st files Hst Hf. change (replicate 7 (mkLevelState ∅ []) !! l = Some st) in Hst. apply lookup_replicate in Hst as [-> Hl].
  split; [apply (level_state_new ord), Hs, Hf|]. cbn. intros f Hin. apply elem_used. by exists files, f.
Qed.

Lemma saved_version files : length files = 7%nat → let v := Finalize (with_files empty_version files) in
  files_ v = files ∧ refs_ v = 0 ∧ compaction_ok v.
Proof. intros Hl v. destruct (Finalize_files (with_files empty_version files)) as [E1 E2]. split_and!; [done..|apply Finalize_ok]. Qed.

Lemma build_version_ok (L : Levels) e s c pins vc : set_ok s [] (c :: pins) → current_ s = Some c → versions s !! c = Some vc → version_shows L vc →
  edit_fits e → NoDup (new_pairs e) → (∀ p, p ∈ new_pairs e → p ∉ used vc) → (∀ l, (0 < l)%nat → map_apart ord (edited L e l)) →
  Z.of_nat (length pins) < 2 ^ 31 - 4 → Z.of_nat (2 * length (VersionEdit.new_files_ e) + length (files_of vc) + length (all_files s)) < 2 ^ 31 - 1 →
  ∃ v s', build_version C e s = Ok (v, s') ∧ set_ok s' (files_of v) (c :: pins) ∧ versions s' = versions s ∧ next_version s' = next_version s ∧ current_ s' = Some c ∧
    compact_pointer_ s' = pointers e (compact_pointer_ s) ∧ refs_ v = 0 ∧ compaction_ok v ∧
    version_shows (edited L e) v ∧ ∀ l files, (0 < l)%nat → files_ v !! l = Some files → apart ord files.
Proof.
  intros Hs Hc Hvc HL He Hnd Hfresh Hap Hpins Hn. unfold build_version. rewrite Hc. unfold mbind, res_bind. cbn [of_option]. unfold builder_start.
  destruct (Ref_version_ok s [] (c :: pins) c vc Hs Hvc) as (s1 & E1 & Hs1 & Hb1 & Eo1 & El1 & Hv1); [cbn; lia|]. rewrite E1. unfold mbind, res_bind.
  change (Z.to_nat Config.kNumLevels) with 7%nat. pose proof (base_building L vc c HL) as Hb. set (b := mkBuilder c _) in *.
  assert (all_files s1 ≡ₚ all_files s) as Pa. { unfold all_files at 1. assert (versions s1 = <[c := with_refs vc (refs_ vc + 1)]> (versions s)) as ->.
    { apply map_eq. intros q. destruct (decide (c = q)) as [<-|N]; [by rewrite Hv1, lookup_insert_eq|]. rewrite lookup_insert_ne by done. by apply (sb_versions _ _ _ Hb1). }
    by apply (all_files_update s c vc). }
  destruct (Apply_ok C valid ord e L (used vc) b s1 (files_ vc) (all_files s1) Hb He Hnd Hfresh) as (b2 & h2 & U2 & E2 & Eb2 & Hb2 & Hc2 & HU2 & Hl2); [apply (so_counts _ _ _ Hs1)|].
  rewrite E2. change (length (held b)) with 0%nat in Hl2. destruct HL as [HL7 HL].
  set (s2 := set_objects _ h2). unfold SaveTo, version. rewrite Eb2. cbn [base_ b]. change (versions s2) with (versions s1). rewrite Hv1. unfold mbind, res_bind. cbn [of_option].
  change (files_ (with_refs vc (refs_ vc + 1))) with (files_ vc). change (objects s2) with h2.
  assert (∀ f, f ∈ files_of vc → f ∈ all_files s1) as Hin.
  { intros f Hf. rewrite Pa, (all_files_lookup s c vc Hvc). apply elem_of_app. by left. }
  destruct (save_levels_ok C valid ord (edited L e) (levels_ b2) 0 (files_ vc) h2 (held b2 ++ all_files s1)) as (saved & h3 & E3 & Hl3 & Hsh & Hc3 & Hlen3).
  { by rewrite HL7, (bu_levels _ _ _ _ _ Hb2). }
  { intros i st files Hst Hf. destruct (bu_state _ _ _ _ _ Hb2 i st files Hst Hf) as [Hls _]. split; [done|]. destruct (HL i files Hf) as [K1 K2 _ _]. split; [done|]. split; [done|].
    intros f Hff. rewrite elem_of_app. apply elem_of_app in Hff as [Hff|Hff].
    - left. unfold held. apply list_elem_of_In, in_concat. exists (added_files st). split; [|by apply list_elem_of_In]. apply list_elem_of_In, list_elem_of_fmap. exists st. split; [done|by eapply list_elem_of_lookup_2].
    - right. apply Hin. unfold files_of. apply list_elem_of_In, in_concat. exists files. split; [|by apply list_elem_of_In]. apply list_elem_of_In. by eapply list_elem_of_lookup_2. }
  { intros i Hi. by apply Hap. }
  { done. }
  { fold (held b2). change (concat (files_ vc)) with (files_of vc). rewrite length_app, Pa. lia. }
  change (Z.of_nat 0) with 0 in E3. rewrite E3. fold (held b2) in Hlen3. change (concat (files_ vc)) with (files_of vc) in Hlen3.
  unfold Builder_delete. fold (held b2). cbn [objects set_objects].
  destruct (unref_files_ok (held b2) h3 (concat saved ++ all_files s1)) as (h4 & E4 & Hc4).
  { eapply counts_perm; [|exact Hc3]. rewrite !app_assoc. apply Permutation_app_tail, Permutation_app_comm. }
  { rewrite !length_app, Pa. lia. }
  rewrite E4. unfold mbind, res_bind. rewrite Eb2. cbn [base_ b]. set (s4 := set_objects _ h4).
  assert (set_ok s4 (concat saved) (c :: c :: pins)) as Hs4.
  { apply (set_ok_objects s1 s4 []); [done..|rewrite length_app, Pa; lia]. }
  destruct (Unref_ok s4 (concat saved) (c :: pins) c Hs4) as (s5 & E5 & Hs5 & Hb5 & Hk5). rewrite E5. destruct (Hk5 ltac:(by left)) as (El5 & v5 & Hv5 & Hv5').
  destruct (saved_version saved) as (Ef & Er & Hco); [by rewrite Hl3, (bu_levels _ _ _ _ _ Hb2)|]. set (v := Finalize _) in *.
  exists v, s5. split; [done|]. split; [unfold files_of; by rewrite Ef|]. split.
  { apply map_eq. intros q. change (versions s4) with (versions s1) in *. destruct (decide (q = c)) as [->|N].
    - rewrite Hv5', Hvc. change (versions s4) with (versions s1) in Hv5. rewrite Hv1 in Hv5. injection Hv5 as <-. f_equal. destruct vc. unfold with_refs. cbn. f_equal. lia.
    - rewrite (sb_versions _ _ _ Hb5) by done. change (versions s4) with (versions s1). by apply (sb_versions _ _ _ Hb1). }
  split; [rewrite (sb_next _ _ _ Hb5); apply (sb_next _ _ _ Hb1)|]. split; [rewrite (sb_current _ _ _ Hb5); change (current_ s4) with (current_ s1); by rewrite (sb_current _ _ _ Hb1)|].
  split; [rewrite (sb_pointers _ _ _ Hb5); change (compact_pointer_ s4) with (pointers e (compact_pointer_ s1)); by rewrite (sb_pointers _ _ _ Hb1)|].
  split; [done|]. split; [done|]. unfold version_shows. rewrite Ef. split.
  - split; [by rewrite Hl3, (bu_levels _ _ _ _ _ Hb2)|]. intros l files Hf. by apply (Hsh l).
  - intros l files Hl Hf. by apply (Hsh l).
Qed.
End apply.

Lemma new_set_ok : ∃ s p, new = Ok s ∧ set_ok s [] [p] ∧ current_ s = Some p ∧ ∃ v, versions s !! p = Some v ∧ files_ v = replicate 7 [].
Proof.
  exists (mkSet 2 0 0 0 0 (mkObjects 0 ∅ ∅) 1 {[0%nat := with_refs empty_version 1]} [0%nat] (Some 0%nat) (replicate 7 [])), 0%nat.
  split; [vm_compute; reflexivity|]. split; [|split; [done|eexists; split; [apply lookup_singleton_eq|done]]].
  match goal with |- set_ok ?s _ _ => assert (all_files s = []) as Ea by (vm_compute; reflexivity) end. split; rewrite ?Ea; cbn [versions objects linked next_version].
  - split; [done|done|by intros f ?%not_elem_of_nil].
  - intros p. destruct (decide (0%nat = p)) as [<-|N]; [by rewrite lookup_singleton_eq|]. rewrite lookup_singleton_ne by done. unfold pinned. cbn. by destruct p.
  - intros p [x [<- _]%lookup_singleton_Some]. lia.
  - split; [repeat constructor; by apply not_elem_of_nil|]. intros p. rewrite list_elem_of_singleton. split; [intros ->; by rewrite lookup_singleton_eq|]. by intros [x [<- _]%lookup_singleton_Some].
  - cbn. lia.
  - cbn. lia.
Qed.

(** C35: sets of versions. The constructor makes a set with an empty current version. In a
    set that keeps its invariant (each version has as many references as there are clients,
    each file as many as there are places in versions, and nothing else is kept), an edit
    with new file numbers, after which the files of each level from 1 on are apart, makes a
    version whose levels have just the files that the edit leaves, in order of their
    smallest keys; its level to compact, if it says that one wants to be compacted, has files
    and a next level. The version can become the current one, and then all other versions
    that are referred to keep their files, or it can be dropped again, and then the set is as
    before, up to the keys of the next compactions. *)
Theorem version_set_correct C valid ord : Lawful C (λ _, True) valid ord →
  (∃ s p, new = Ok s ∧ set_ok s [] [p] ∧ current_ s = Some p ∧ ∃ v, versions s !! p = Some v ∧ files_ v = replicate 7 []) ∧
  ∀ (L : Levels) e s c pins vc, set_ok s [] (c :: pins) → current_ s = Some c → versions s !! c = Some vc → version_shows ord L vc →
    edit_fits e → NoDup (new_pairs e) → (∀ p, p ∈ new_pairs e → p ∉ used vc) → (∀ l, (0 < l)%nat → map_apart ord (edited L e l)) →
    Z.of_nat (length pins) < 2 ^ 31 - 4 → Z.of_nat (2 * length (VersionEdit.new_files_ e) + length (files_of vc) + length (all_files s)) < 2 ^ 31 - 1 →
    ∃ v s1, build_version C e s = Ok (v, s1) ∧ version_shows ord (edited L e) v ∧ (∀ l files, (0 < l)%nat → files_ v !! l = Some files → apart ord files) ∧
      compaction_ok v ∧ compact_pointer_ s1 = pointers e (compact_pointer_ s) ∧
      (∀ e', ∃ s2 p, install v e' s1 = Ok s2 ∧ set_ok s2 [] (p :: pins) ∧ current_ s2 = Some p ∧ versions s2 !! p = Some (with_refs v 1) ∧
         ∀ q v0, q ∈ pins → versions s !! q = Some v0 → ∃ v2, versions s2 !! q = Some v2 ∧ files_ v2 = files_ v0) ∧
      ∃ s3, discard v s1 = Ok s3 ∧ set_ok s3 [] (c :: pins) ∧ versions s3 = versions s ∧ current_ s3 = Some c.
Proof.
  intros HC. split; [exact new_set_ok|]. intros L e s c pins vc Hs Hc Hvc HL He Hnd Hf Hap Hp Hn.
  destruct (build_version_ok C valid ord L e s c pins vc Hs Hc Hvc HL He Hnd Hf Hap Hp Hn) as (v & s1 & E & Hs1 & Ev & En & Ec & Ek & Er & Hco & Hsh & Ha).
  exists v, s1. split; [done|]. split; [done|]. split; [done|]. split; [done|]. split; [done|]. split.
  - intros e'. destruct (AppendVersion_ok s1 c pins v Hs1 Ec Er (proj1 Hsh)) as (s2 & E2 & Hs2 & Ec2 & Hv2 & _ & _ & Hq).
    unfold install. rewrite E2. unfold mbind, res_bind. eexists _, (next_version s1). split; [done|]. split; [destruct Hs2 as [H1 H2 H3 H4 H5 H6]; by split|]. split; [done|]. split; [done|].
    intros q v0 Hin H0. apply (Hq q v0 Hin). by rewrite Ev.
  - destruct (discard_ok s1 v (c :: pins) Hs1 Er) as (h & E3 & Hs3). eexists. split; [exact E3|]. split; [done|]. by split.
Qed.

Definition example_apply_edit : VersionEdit.VersionEdit :=
  VersionEdit.AddFile 1 7 1000 (internal [97] 513) (internal [98] 257) (VersionEdit.AddFile 0 6 500 (internal [99] 769) (internal [99] 769) (VersionEdit.DeleteFile 2 5
    (VersionEdit.SetCompactPointer 1 (internal [97] 513) VersionEdit.new))).

Lemma version_set_correct_witness : ∃ s c v s1 s2 p, new = Ok s ∧ build_version Bytewise.BytewiseComparator example_apply_edit s = Ok (v, s1) ∧
  version_shows bytewise_order (edited (λ _, ∅) example_apply_edit) v ∧ install v example_apply_edit s1 = Ok s2 ∧ set_ok s2 [] [p] ∧ current_ s = Some c.
Proof.
  destruct (version_set_correct Bytewise.BytewiseComparator (Forall is_byte) bytewise_order _) as [(s & c & Es & Hs & Hc & vc & Hvc & Hf) H].
  assert (∀ u n, Forall is_byte u → 0 <= n < 2 ^ 64 → ikey_ok (internal u n)) as Hk by (intros u n Hu Hn; exists u, n; split; [by apply split_internal_internal|done]).
  destruct (H (λ _, ∅) example_apply_edit s c [] vc Hs Hc Hvc) as (v & s1 & E & Hsh & _ & _ & _ & Hi & _).
  - split; [by rewrite Hf|]. intros l files Hl. rewrite Hf in Hl. apply lookup_replicate in Hl as [-> _].
    split; [done|constructor|constructor|]. intros n d. rewrite lookup_empty. split; [done|]. by intros (f & ?%not_elem_of_nil & _).
  - split.
    + apply (proj2 (Forall_singleton _ (1, internal [97] 513))). split; [cbn; lia|]. apply Hk; [forall_list|lia].
    + apply (proj2 (Forall_singleton _ (2, 5))). cbn. lia.
    + change (Forall file_ok [(0, VersionEdit.new_file 6 500 (internal [99] 769) (internal [99] 769)); (1, VersionEdit.new_file 7 1000 (internal [97] 513) (internal [98] 257))]).
      assert (∀ l n z u v x y, 0 <= l < 7 → ikey_ok (internal u x) → ikey_ok (internal v y) → file_ok (l, VersionEdit.new_file n z (internal u x) (internal v y))) as Hfile by done.
      apply List.Forall_cons; [apply Hfile; [lia|apply Hk; [forall_list|lia]..]|].
      apply List.Forall_cons; [apply Hfile; [lia|apply Hk; [forall_list|lia]..]|apply List.Forall_nil].
  - apply (bool_decide_unpack _). by vm_compute.
  - intros p _. unfold used. rewrite Hf. cbn. apply not_elem_of_nil.
  - assert (∃ x, edited (λ _, ∅) example_apply_edit 1%nat = {[7 := x]}) as [x E1] by (eexists; vm_compute; reflexivity).
    assert (∀ l, edited (λ _, ∅) example_apply_edit (S (S l)) = ∅) as E2 by (intros [|l]; [by vm_compute|done]).
    intros l Hl n n' d d'. destruct l as [|[|l]]; [lia| |by rewrite E2, !lookup_empty]. rewrite E1.
    assert (x = (1000, internal [97] 513, internal [98] 257)) as ->. { pose proof (f_equal (λ m : gmap Z Data, m !! 7) E1) as E3. vm_compute in E3. by injection E3. }
    intros [<- <-]%lookup_singleton_Some [<- <-]%lookup_singleton_Some [L|[_ L]]; [vm_compute in L; done|lia].
  - cbn. lia.
  - unfold files_of. rewrite Hf. destruct Hs as [_ _ _ _ _ Hn]. cbn in *. vm_compute in Es. injection Es as <-. vm_compute. done.
  - destruct (Hi example_apply_edit) as (s2 & p & E2 & Hs2 & _). exists s, c, v, s1, s2, p. by split_and!.
Defined.
