(* ===== verification/LdbEnv.v ===== *)
(** The environment of LevelDB: the virtual classes of [include/leveldb/env.h], whole files
    ([util/env.cc]), numbers in decimal ([util/logging.cc]), the names of the files of a
    database ([db/filename.h], [db/filename.cc]), and the file that names the descriptor. *)
From S2P Require Import Prelude LdbSkip LdbFormat LdbLog LdbVersionEdit LdbVersion LdbVersionSet.
Import Status VersionSet.

(** The bytes of a string constant. *)
Definition str (s : string) : bytes := (λ c, Z.of_N (Ascii.N_of_ascii c)) <$> String.list_ascii_of_string s.

(** What a [WritableFile] has beyond [Append] and [Flush]. *)
Class SyncFile (F : Type) := {
  Sync : F → Status * F;
  Close : F → Status * F
}.

(** [Env], with its writable files [F] and its sequential files [Q]; [delete_file] is the
    destructor of a writable file. A lock is named by its file. *)
Class Env (E F Q : Type) := {
  NewSequentialFile : bytes → E → Status * option Q * E;
  NewWritableFile : bytes → E → Status * option F * E;
  NewAppendableFile : bytes → E → Status * option F * E;
  delete_file : F → E → E;
  FileExists : bytes → E → bool;
  GetChildren : bytes → E → Status * list bytes;
  env_DeleteFile : bytes → E → Status * E;
  CreateDir : bytes → E → Status * E;
  DeleteDir : bytes → E → Status * E;
  GetFileSize : bytes → E → Status * Z;
  RenameFile : bytes → bytes → E → Status * E;
  LockFile : bytes → E → Status * E;
  UnlockFile : bytes → E → Status * E
}.

(** * Numbers *)
Module Logging.

(** The decimal digits: twenty at most. *)
Fixpoint decimal_loop (fuel : nat) (n : Z) (acc : bytes) : bytes :=
  match fuel with
  | O => acc
  | S fuel => if n <? 10 then 48 + n :: acc else decimal_loop fuel (n / 10) (48 + n mod 10 :: acc)
  end.
Definition decimal (n : Z) : bytes := decimal_loop 20 n [].

Definition AppendNumberTo (s : bytes) (num : Z) : bytes := s ++ decimal num.
Definition NumberToString (num : Z) : bytes := AppendNumberTo [] num.

Definition hex_digit (n : Z) : Z := if n <? 10 then 48 + n else 87 + n.
(** A [char] is signed; [%02x] prints its low eight bits. *)
Definition escape_byte (b : Z) : bytes :=
  let c := s8 b in
  if (32 <=? c) && (c <=? 126) then [b]
  else let x := Z.land (u32 c) 0xff in [92; 120; hex_digit (x / 16); hex_digit (x mod 16)].
Definition AppendEscapedStringTo (s value : bytes) : bytes := s ++ concat (escape_byte <$> value).
Definition EscapeString (value : bytes) : bytes := AppendEscapedStringTo [] value.

Definition kMaxUint64 : Z := 2 ^ 64 - 1.
(** The result, the rest of the input and what is stored in [*val]. *)
Fixpoint consume_loop (input : bytes) (v digits : Z) : res (bool * bytes * option Z) :=
  match input with
  | [] => Ok (0 <? digits, [], Some v)
  | b :: rest =>
      let c := s8 b in
      if (48 <=? c) && (c <=? 57) then
        digits ← int_ok (digits + 1);
        let delta := c - 48 in
        if (kMaxUint64 / 10 <? v) || ((v =? kMaxUint64 / 10) && (kMaxUint64 mod 10 <? delta)) then Ok (false, input, None)
        else consume_loop rest (u64 (v * 10 + delta)) digits
      else Ok (0 <? digits, input, Some v)
  end.
Definition ConsumeDecimalNumber (input : bytes) : res (bool * bytes * option Z) := consume_loop input 0 0.
End Logging.

(** * Names of files *)
Module Filename.
Import Logging.

Inductive FileType := kLogFile | kDBLockFile | kTableFile | kDescriptorFile | kCurrentFile | kTempFile | kInfoLogFile.

(** [%06llu] *)
Definition six_digits (n : Z) : bytes := let d := decimal n in replicate (6 - length d) 48 ++ d.
Definition MakeFileName (name : bytes) (number : Z) (suffix : bytes) : bytes := name ++ str "/" ++ six_digits number ++ str "." ++ suffix.

Definition LogFileName (name : bytes) (number : Z) : res bytes := SkipList.assert_ (0 <? number);; Ok (MakeFileName name number (str "log")).
Definition TableFileName (name : bytes) (number : Z) : res bytes := SkipList.assert_ (0 <? number);; Ok (MakeFileName name number (str "ldb")).
Definition SSTTableFileName (name : bytes) (number : Z) : res bytes := SkipList.assert_ (0 <? number);; Ok (MakeFileName name number (str "sst")).
Definition DescriptorFileName (dbname : bytes) (number : Z) : res bytes :=
  SkipList.assert_ (0 <? number);; Ok (dbname ++ str "/MANIFEST-" ++ six_digits number).
Definition CurrentFileName (dbname : bytes) : bytes := dbname ++ str "/CURRENT".
Definition LockFileName (dbname : bytes) : bytes := dbname ++ str "/LOCK".
Definition TempFileName (dbname : bytes) (number : Z) : res bytes := SkipList.assert_ (0 <? number);; Ok (MakeFileName dbname number (str "dbtmp")).
Definition InfoLogFileName (dbname : bytes) : bytes := dbname ++ str "/LOG".
Definition OldInfoLogFileName (dbname : bytes) : bytes := dbname ++ str "/LOG.old".

(** [None] when it returns false. *)
Definition ParseFileName (fname : bytes) : res (option (Z * FileType)) :=
  let rest := fname in
  is_current ← Slice.eqb rest (str "CURRENT");
  if is_current : bool then Ok (Some (0, kCurrentFile)) else
  is_lock ← Slice.eqb rest (str "LOCK");
  if is_lock : bool then Ok (Some (0, kDBLockFile)) else
  is_log ← Slice.eqb rest (str "LOG");
  is_log ← (if is_log : bool then Ok true else Slice.eqb rest (str "LOG.old"));
  if is_log : bool then Ok (Some (0, kInfoLogFile)) else
  is_manifest ← Slice.starts_with rest (str "MANIFEST-");
  if is_manifest : bool then
    rest ← Slice.remove_prefix rest (Slice.size (str "MANIFEST-"));
    '(ok, rest, num) ← ConsumeDecimalNumber rest;
    if negb ok then Ok None
    else if negb (Slice.empty rest) then Ok None
    else num ← of_option num; Ok (Some (num, kDescriptorFile))
  else
    '(ok, suffix, num) ← ConsumeDecimalNumber rest;
    if negb ok then Ok None
    else
      num ← of_option num;
      is_log ← Slice.eqb suffix (str ".log");
      if is_log : bool then Ok (Some (num, kLogFile)) else
      is_table ← Slice.eqb suffix (str ".sst");
      is_table ← (if is_table : bool then Ok true else Slice.eqb suffix (str ".ldb"));
      if is_table : bool then Ok (Some (num, kTableFile)) else
      is_temp ← Slice.eqb suffix (str ".dbtmp");
      Ok (if is_temp : bool then Some (num, kTempFile) else None).
End Filename.

(** * Whole files *)
Module WholeFile.
Section env.
Context {E F Q : Type} `{Env E F Q} `{WritableFile F} `{SyncFile F} `{SequentialFile Q}.

Definition DoWriteStringToFile (data fname : bytes) (should_sync : bool) (e : E) : res (Status * E) :=
  let '(s, file, e) := NewWritableFile fname e in
  if negb (ok s) then Ok (s, e)
  else
    f ← of_option file;
    let '(s, f) := Append data f in
    let '(s, f) := if ok s && should_sync then Sync f else (s, f) in
    let '(s, f) := if ok s then Close f else (s, f) in
    let e := delete_file f e in
    Ok (if negb (ok s) then (s, (env_DeleteFile fname e).2) else (s, e)).
Definition WriteStringToFile (data fname : bytes) (e : E) : res (Status * E) := DoWriteStringToFile data fname false e.
Definition WriteStringToFileSync (data fname : bytes) (e : E) : res (Status * E) := DoWriteStringToFile data fname true e.

Definition kBufferSize : Z := 8192.
(** Turns until a read is empty. *)
Fixpoint read_loop (fuel : nat) (data : bytes) (file : Q) : res (Status * bytes) :=
  match fuel with
  | O => NoFuel
  | S fuel =>
      let '(s, fragment, file) := Read kBufferSize file in
      if negb (ok s) then Ok (s, data)
      else if Slice.empty fragment then Ok (s, data ++ fragment)
      else read_loop fuel (data ++ fragment) file
  end.
Definition ReadFileToString (fuel : nat) (fname : bytes) (e : E) : res (Status * bytes * E) :=
  let '(s, file, e) := NewSequentialFile fname e in
  if negb (ok s) then Ok (s, [], e)
  else file ← of_option file; '(s, data) ← read_loop fuel [] file; Ok (s, data, e).

(** [SetCurrentFile]: the name of the descriptor is written to another file, which is renamed. *)
Definition SetCurrentFile (dbname : bytes) (descriptor_number : Z) (e : E) : res (Status * E) :=
  manifest ← Filename.DescriptorFileName dbname descriptor_number;
  prefixed ← Slice.starts_with manifest (dbname ++ str "/");
  SkipList.assert_ prefixed;;
  contents ← Slice.remove_prefix manifest (u64 (Slice.size dbname + 1));
  tmp ← Filename.TempFileName dbname descriptor_number;
  '(s, e) ← WriteStringToFileSync (contents ++ [10]) tmp e;
  let '(s, e) := if ok s then RenameFile tmp (Filename.CurrentFileName dbname) e else (s, e) in
  Ok (if negb (ok s) then (s, (env_DeleteFile tmp e).2) else (s, e)).
End env.
End WholeFile.
