(* ===== verification/LdbDb.v ===== *)
(** The state of a LevelDB database ([db/db_impl.h]) and the work in the background that does
    not merge tables ([db/db_impl.cc]): memory tables become files ([db/builder.cc]), edits
    are written to the descriptor ([db/version_set.cc]), obsolete files are deleted; and the
    list of snapshots ([db/snapshot.h]). *)
From S2P Require Import Prelude LdbSkip LdbFormat LdbMemTable LdbLog LdbIterator LdbTable LdbVersionEdit LdbVersion LdbVersionSet LdbEnv.

(** * Snapshots

    A circular list: the address 0 is the dummy head [list_]. *)
Module Snapshots.
Record SnapshotImpl := mkSnapshot { number_ : Z; prev_ : nat; next_ : nat }.
#[export] Instance snapshot_fields : Fields SnapshotImpl := (λ _, mkSnapshot) <@> number_ <@> prev_ <@> next_.
Record SnapshotList := mkList { nodes : gmap nat SnapshotImpl; fresh_address : nat }.

Definition new_list : SnapshotList := mkList {[0%nat := mkSnapshot 0 0 0]} 1.
Definition node (l : SnapshotList) (p : nat) : res SnapshotImpl := of_option (nodes l !! p).
Definition change (p : nat) (g : SnapshotImpl → SnapshotImpl) (l : SnapshotList) : res SnapshotList :=
  n ← node l p; Ok (mkList (<[p := g n]> (nodes l)) (fresh_address l)).

Definition empty (l : SnapshotList) : res bool := h ← node l 0; Ok (next_ h =? 0)%nat.
Definition oldest (l : SnapshotList) : res SnapshotImpl :=
  e ← empty l; SkipList.assert_ (negb e);; h ← node l 0; node l (next_ h).
Definition newest (l : SnapshotList) : res SnapshotImpl :=
  e ← empty l; SkipList.assert_ (negb e);; h ← node l 0; node l (prev_ h).

Definition New (seq : Z) (l : SnapshotList) : res (nat * SnapshotList) :=
  h ← node l 0;
  let s := fresh_address l in
  let l := mkList (<[s := mkSnapshot seq (prev_ h) 0]> (nodes l)) (S s) in
  l ← change (prev_ h) (λ n, n <| next_ := s |>) l;
  l ← change 0 (λ n, n <| prev_ := s |>) l;
  Ok (s, l).
(** The list to which a snapshot belongs is not stored: there is one list. *)
Definition Delete (s : nat) (l : SnapshotList) : res SnapshotList :=
  n ← node l s;
  l ← change (prev_ n) (λ p, p <| next_ := next_ n |>) l;
  l ← change (next_ n) (λ p, p <| prev_ := prev_ n |>) l;
  Ok (mkList (base.delete s (nodes l)) (fresh_address l)).
End Snapshots.

(** [TableCache::Evict]. *)
Class Evicts (K : Type) := Evict : Z → K → K.

(** * The database *)
Module Db.
Import Status Internal Config Version VersionSet Filename WholeFile Snapshots MemTable.

(** The options that the database looks at; those of tables are apart. *)
Record DBOptions := mkDBOptions {
  create_if_missing : bool; error_if_exists : bool; reuse_logs : bool; write_buffer_size : Z; max_file_size : Z; table_options : Options
}.
Record ManualCompaction := mkManual { manual_level : Z; manual_done : bool; manual_begin : option bytes; manual_end : option bytes }.
#[export] Instance manual_fields : Fields ManualCompaction := (λ _, mkManual) <@> manual_level <@> manual_done <@> manual_begin <@> manual_end.

(** [DBImpl::Writer]: a thread that waits to write, with a batch unless it only wants the
    memory table to be compacted. *)
Record Writer := mkDbWriter { writer_status : Status; writer_batch : option bytes; writer_sync : bool; writer_done : bool }.
#[export] Instance writer_fields : Fields Writer := (λ _, mkDbWriter) <@> writer_status <@> writer_batch <@> writer_sync <@> writer_done.

Section db.
Context {E F Q K TI : Type} `{Env E F Q} `{WritableFile F} `{SyncFile F} `{SequentialFile Q} `{TableCache (E * K) TI} `{Iterator TI} `{Evicts K}.
(** Where bytes are; the user's comparator with its name; the filter policy of internal keys;
    the database's directory; the memory that a memory table uses. *)
Context (address : bytes → Z) (C : SliceComparator) (cname : bytes) (pol : NamedPolicy) (o : DBOptions) (dbname : bytes) (usage : MemTable → Z).

(** [DBImpl]. Memory tables, writers and requests for a compaction are objects with addresses.
    The log and the descriptor come with their files. *)
Record DBImpl := mkDB {
  env_ : E; table_cache_ : K; shutting_down_ : bool; memtables : gmap nat MemTable; next_memtable : nat; mem_ : option nat;
  imm_ : option nat; has_imm_ : bool; log_ : option (Log.Writer * F); logfile_number_ : Z; seed_ : Z;
  snapshots_ : SnapshotList; pending_outputs_ : gset Z; bg_compaction_scheduled_ : bool;
  manuals : gmap nat ManualCompaction; manual_compaction_ : option nat; versions_ : VersionSet;
  descriptor_ : option (Log.Writer * F); bg_error_ : Status;
  writer_objects : gmap nat Writer; next_writer : nat; writers_ : list nat; tmp_batch_ : bytes; clock : nat
}.
#[export] Instance db_fields : Fields DBImpl :=
  (λ _, mkDB) <@> env_ <@> table_cache_ <@> shutting_down_ <@> memtables <@> next_memtable <@> mem_ <@> imm_ <@> has_imm_ <@> log_ <@> logfile_number_
    <@> seed_ <@> snapshots_ <@> pending_outputs_ <@> bg_compaction_scheduled_ <@> manuals <@> manual_compaction_ <@> versions_ <@> descriptor_ <@> bg_error_
    <@> writer_objects <@> next_writer <@> writers_ <@> tmp_batch_ <@> clock.

(** What the other threads do: while a thread has released the mutex, until it has it again,
    they change the state in some way, a different one each time. *)
Context (others : nat → DBImpl → DBImpl).
Definition Meanwhile (d : DBImpl) : DBImpl := (others (clock d) d) <| clock := S (clock d) |>.
Definition Lock (d : DBImpl) : DBImpl := Meanwhile d.

(** ** Errors and scheduling *)

Definition RecordBackgroundError (s : Status) (d : DBImpl) : DBImpl := if ok (bg_error_ d) then d <| bg_error_ := s |> else d.
Definition MaybeScheduleCompaction (d : DBImpl) : res DBImpl :=
  if bg_compaction_scheduled_ d then Ok d
  else if shutting_down_ d then Ok d
  else if negb (ok (bg_error_ d)) then Ok d
  else
    needs ← match imm_ d, manual_compaction_ d with None, None => NeedsCompaction (versions_ d) | _, _ => Ok true end;
    Ok (if needs : bool then d <| bg_compaction_scheduled_ := true |> else d).

(** ** Memory tables *)

Definition memtable (d : DBImpl) (p : nat) : res MemTable := of_option (memtables d !! p).
(** [new MemTable] with a reference. *)
Definition new_memtable (d : DBImpl) : res (nat * DBImpl) :=
  m ← MemTable.new;
  Ok (next_memtable d, d <| memtables := <[next_memtable d := MemTable.Ref m]> (memtables d) |> <| next_memtable := S (next_memtable d) |>).
Definition RefMemTable (p : nat) (d : DBImpl) : res DBImpl := m ← memtable d p; Ok (d <| memtables := <[p := MemTable.Ref m]> (memtables d) |>).
Definition UnrefMemTable (p : nat) (d : DBImpl) : res DBImpl :=
  m ← memtable d p; m ← MemTable.Unref m;
  Ok (d <| memtables := match m with Some m => <[p := m]> (memtables d) | None => delete p (memtables d) end |>).

(** [MemTableIterator] *)
Record MemTableIterator := mkMemIter { iter_mem : MemTable; iter_node : SkipList.ptr }.
#[export] Instance mem_iterator : Iterator MemTableIterator := {|
  Valid i := SkipList.Iterator_Valid (iter_node i);
  SeekToFirst i := n ← SkipList.Iterator_SeekToFirst (table_ (iter_mem i)); Ok (mkMemIter (iter_mem i) n);
  SeekToLast i := n ← SkipList.Iterator_SeekToLast (table_ (iter_mem i)); Ok (mkMemIter (iter_mem i) n);
  Seek k i := n ← MemTable.iter_Seek C (iter_mem i) k; Ok (mkMemIter (iter_mem i) n);
  Next i := n ← SkipList.Iterator_Next (SkipList.nodes (table_ (iter_mem i))) (iter_node i); Ok (mkMemIter (iter_mem i) n);
  Prev i := n ← SkipList.Iterator_Prev (H := table_comparator C) (table_ (iter_mem i)) (iter_node i); Ok (mkMemIter (iter_mem i) n);
  key i := MemTable.iter_key (iter_mem i) (iter_node i);
  value i := MemTable.iter_value (iter_mem i) (iter_node i);
  status i := OK
|}.
Definition NewMemIterator (m : MemTable) : MemTableIterator := mkMemIter m None.

(** ** The descriptor *)

(** [WriteSnapshot]: an edit with the whole state. *)
Fixpoint snapshot_pointers (level : Z) (l : list bytes) (e : VersionEdit.VersionEdit) : VersionEdit.VersionEdit :=
  match l with
  | [] => e
  | k :: l => snapshot_pointers (level + 1) l (if Slice.empty k then e else VersionEdit.SetCompactPointer level (Internal.DecodeFrom k) e)
  end.
Fixpoint snapshot_files (level : Z) (l : list (list File)) (e : VersionEdit.VersionEdit) : VersionEdit.VersionEdit :=
  match l with
  | [] => e
  | files :: l =>
      snapshot_files (level + 1) l
        (foldl (λ e f, VersionEdit.AddFile level (number (meta f)) (file_size (meta f)) (smallest (meta f)) (largest (meta f)) e) e files)
  end.
Definition snapshot_edit (s : VersionSet) : res VersionEdit.VersionEdit :=
  v ← current s;
  Ok (snapshot_files 0 (files_ v) (snapshot_pointers 0 (compact_pointer_ s) (VersionEdit.SetComparatorName cname VersionEdit.new))).
Definition WriteSnapshot (s : VersionSet) (log : Log.Writer * F) : res (Status * (Log.Writer * F)) :=
  edit ← snapshot_edit s;
  record ← VersionEdit.EncodeTo edit [];
  '(st, w, f) ← Log.AddRecord address log.1 log.2 record;
  Ok (st, (w, f)).

(** The first part of [LogAndApply] with files: a new descriptor if there is none. *)
Definition open_descriptor (d : DBImpl) : res (Status * option bytes * DBImpl) :=
  match descriptor_ d with
  | Some _ => Ok (OK, None, d)
  | None =>
      name ← DescriptorFileName dbname (manifest_file_number_ (versions_ d));
      let '(s, f, e) := NewWritableFile name (env_ d) in
      let d := d <| env_ := e |> in
      if ok s then
        f ← of_option f;
        w ← Log.Writer_new address 0;
        '(s, log) ← WriteSnapshot (versions_ d) (w, f);
        Ok (s, Some name, d <| descriptor_ := Some log |>)
      else Ok (s, Some name, d)
  end.
(** The record of the edit, on the disk before it counts. *)
Definition write_descriptor (edit : VersionEdit.VersionEdit) (d : DBImpl) : res (Status * DBImpl) :=
  record ← VersionEdit.EncodeTo edit [];
  '(w, f) ← of_option (descriptor_ d);
  '(s, w, f) ← Log.AddRecord address w f record;
  let '(s, f) := if ok s then Sync f else (s, f) in
  Ok (s, d <| descriptor_ := Some (w, f) |>).
Definition delete_descriptor (name : option bytes) (d : DBImpl) : DBImpl :=
  match name with
  | None => d
  | Some name =>
      let e := match descriptor_ d with Some (_, f) => delete_file f (env_ d) | None => env_ d end in
      d <| descriptor_ := None |> <| env_ := (env_DeleteFile name e).2 |>
  end.
Definition LogAndApply (edit : VersionEdit.VersionEdit) (d : DBImpl) : res (Status * DBImpl) :=
  edit ← complete_edit (versions_ d) edit;
  '(v, s) ← build_version C edit (versions_ d);
  let d := d <| versions_ := s |> in
  '(st, new_manifest_file, d) ← open_descriptor d;
  '(st, d) ← (if ok st then write_descriptor edit d else Ok (st, d));
  '(st, d) ← match new_manifest_file with
             | Some _ => if ok st then '(st, e) ← SetCurrentFile dbname (manifest_file_number_ (versions_ d)) (env_ d); Ok (st, d <| env_ := e |>) else Ok (st, d)
             | None => Ok (st, d)
             end;
  let d := Lock d in
  if ok st then s ← install v edit (versions_ d); Ok (st, d <| versions_ := s |>)
  else s ← discard v (versions_ d); Ok (st, delete_descriptor new_manifest_file (d <| versions_ := s |>)).

(** ** Obsolete files *)

(** The numbers of the files of all versions. *)
Definition AddLiveFiles (s : VersionSet) (live : gset Z) : res (gset Z) :=
  foldr (λ p r, live ← r; v ← version s p; Ok (list_to_set ((λ f, number (meta f)) <$> concat (files_ v)) ∪ live)) (Ok live) (linked s).

Definition keep_file (s : VersionSet) (live : gset Z) (number : Z) (type : FileType) : bool :=
  match type with
  | kLogFile => (log_number_ s <=? number) || (number =? prev_log_number_ s)
  | kDescriptorFile => manifest_file_number_ s <=? number
  | kTableFile | kTempFile => bool_decide (number ∈ live)
  | kCurrentFile | kDBLockFile | kInfoLogFile => true
  end.
Fixpoint delete_files (live : gset Z) (filenames : list bytes) (d : DBImpl) : res DBImpl :=
  match filenames with
  | [] => Ok d
  | name :: filenames =>
      r ← ParseFileName name;
      d ← match r with
          | Some (number, type) =>
              if keep_file (versions_ d) live number type then Ok d
              else
                let d := match type with kTableFile => d <| table_cache_ := Evict number (table_cache_ d) |> | _ => d end in
                Ok (d <| env_ := (env_DeleteFile (dbname ++ str "/" ++ name) (env_ d)).2 |>)
          | None => Ok d
          end;
      delete_files live filenames d
  end.
Definition DeleteObsoleteFiles (d : DBImpl) : res DBImpl :=
  if negb (ok (bg_error_ d)) then Ok d
  else
    live ← AddLiveFiles (versions_ d) (pending_outputs_ d);
    delete_files live (GetChildren dbname (env_ d)).2 d.

(** ** Memory tables become files *)

(** [BuildTable]: the table of what the iterator shows. *)
Section build.
Context {I : Type} `{Iterator I} (fuel : nat).

Fixpoint build_loop (fuel : nat) (iter : I) (builder : TableBuilder.TableBuilder F) (largest : bytes) : res (I * TableBuilder.TableBuilder F * bytes) :=
  match fuel with
  | O => NoFuel
  | S fuel =>
      if Valid iter then
        k ← key iter;
        v ← value iter;
        builder ← TableBuilder.Add (comparator := InternalKeyComparator C) address pol builder k v;
        iter ← Next iter;
        build_loop fuel iter builder (Internal.DecodeFrom k)
      else Ok (iter, builder, largest)
  end.
(** A file that is complete is on the disk, closed and deleted as an object. *)
Definition close_table (s : Status) (f : F) (e : E) : Status * E :=
  let '(s, f) := if ok s then Sync f else (s, f) in
  let '(s, f) := if ok s then Close f else (s, f) in
  (s, delete_file f e).
(** A table that can be opened. *)
Definition verify_table (number size : Z) (w : E * K) : res (Status * (E * K)) :=
  '(it, w) ← table_NewIterator (Table.mkRead false true) number size w;
  Ok (status it, w).
(** The table is written to the file. *)
Definition write_table (number : Z) (iter : I) (f : F) (w : E * K) : res (Status * FileMetaData * I * (E * K)) :=
  builder ← TableBuilder.new pol (table_options o) f;
  first ← key iter;
  '(iter, builder, last) ← build_loop fuel iter builder [];
  '(s, builder) ← TableBuilder.Finish (comparator := InternalKeyComparator C) address pol builder;
  let size := if ok s then TableBuilder.FileSize builder else 0 in
  SkipList.assert_ (negb (ok s) || (0 <? size));;
  let '(s, e) := close_table s (TableBuilder.file builder) w.1 in
  '(s, w) ← (if ok s then verify_table number size (e, w.2) else Ok (s, (e, w.2)));
  Ok (s, VersionEdit.new_file number size (Internal.DecodeFrom first) last, iter, w).
Definition BuildTable (number : Z) (iter : I) (w : E * K) : res (Status * FileMetaData * (E * K)) :=
  iter ← SeekToFirst iter;
  fname ← TableFileName dbname number;
  let meta := VersionEdit.new_file number 0 [] [] in
  let finish s meta iter (w : E * K) :=
    let s := if ok (status iter) then s else status iter in
    Ok (s, meta, if ok s && (0 <? file_size meta) then w else ((env_DeleteFile fname w.1).2, w.2)) in
  if Valid iter then
    let '(s, file, e) := NewWritableFile fname w.1 in
    if negb (ok s) then Ok (s, meta, (e, w.2))
    else
      f ← of_option file;
      '(s, meta, iter, w) ← write_table number iter f (e, w.2);
      finish s meta iter w
  else finish OK meta iter w.
End build.

(** [WriteLevel0Table], of the memory table at the address, for the version [base]. *)
Definition WriteLevel0Table (fuel : nat) (mem : nat) (edit : VersionEdit.VersionEdit) (base : option nat) (d : DBImpl) : res (Status * VersionEdit.VersionEdit * DBImpl) :=
  let '(n, s) := NewFileNumber (versions_ d) in
  let d := d <| versions_ := s |> <| pending_outputs_ := {[n]} ∪ pending_outputs_ d |> in
  m ← memtable d mem;
  '(st, meta, w) ← BuildTable fuel n (NewMemIterator m) (env_ d, table_cache_ d);
  let d := Lock (d <| env_ := w.1 |> <| table_cache_ := w.2 |>) in
  let d := d <| pending_outputs_ := pending_outputs_ d ∖ {[n]} |> in
  if ok st && (0 <? file_size meta) then
    min_user_key ← Version.user_key (smallest meta);
    max_user_key ← Version.user_key (largest meta);
    level ← match base with
            | Some p => v ← version (versions_ d) p; PickLevelForMemTableOutput C (max_file_size o) v min_user_key max_user_key
            | None => Ok 0
            end;
    Ok (st, VersionEdit.AddFile level (number meta) (file_size meta) (smallest meta) (largest meta) edit, d)
  else Ok (st, edit, d).

Definition CompactMemTable (fuel : nat) (d : DBImpl) : res DBImpl :=
  imm ← of_option (imm_ d);
  base ← of_option (current_ (versions_ d));
  s ← VersionSet.Ref (versions_ d) base;
  '(st, edit, d) ← WriteLevel0Table fuel imm VersionEdit.new (Some base) (d <| versions_ := s |>);
  s ← VersionSet.Unref (versions_ d) base;
  let d := d <| versions_ := s |> in
  let st := if ok st && shutting_down_ d then IOError "Deleting DB during memtable compaction" else st in
  '(st, d) ← (if ok st then LogAndApply (VersionEdit.SetLogNumber (logfile_number_ d) (VersionEdit.SetPrevLogNumber 0 edit)) d else Ok (st, d));
  if ok st then
    imm ← of_option (imm_ d);
    d ← UnrefMemTable imm d;
    DeleteObsoleteFiles (d <| imm_ := None |> <| has_imm_ := false |>)
  else Ok (RecordBackgroundError st d).
End db.
End Db.
