(* ===== verification/LdbEnvProps.v ===== *)
(** Numbers and names of files are read back, and the current descriptor is replaced at once
    or not at all. *)
From S2P Require Import Prelude LdbSkip LdbFormat LdbCodingProps LdbLog LdbVersionEdit LdbVersion LdbVersionSet LdbVersionSetProps LdbEnv.
Import Status Logging Filename WholeFile.

(** * Numbers *)

Definition dec_digit (b : Z) : Prop := 48 <= b <= 57.
Definition value_of_digits (v : Z) (ds : bytes) : Z := foldl (λ v d, v * 10 + (d - 48)) v ds.

Lemma value_app v a b : value_of_digits v (a ++ b) = value_of_digits (value_of_digits v a) b.
Proof. unfold value_of_digits. apply foldl_app. Qed.

Lemma value_grows ds : ∀ v, Forall dec_digit ds → 0 <= v → v <= value_of_digits v ds.
Proof.
  induction ds as [|d ds IH]; intros v Hd Hv; [cbn; lia|]. apply list.Forall_cons in Hd as [Hd Hds]. unfold dec_digit in Hd. cbn. specialize (IH (v * 10 + (d - 48)) Hds). unfold value_of_digits in IH. lia.
Qed.

Lemma decimal_loop_ok fuel : ∀ n acc, 0 <= n < 10 ^ Z.of_nat fuel → (0 < fuel)%nat →
  ∃ ds, decimal_loop fuel n acc = ds ++ acc ∧ Forall dec_digit ds ∧ value_of_digits 0 ds = n ∧ (0 < length ds <= fuel)%nat.
Proof.
  induction fuel as [|fuel IH]; intros n acc Hn Hf; [lia|]. cbn [decimal_loop]. destruct (Z.ltb_spec n 10) as [L|L].
  - exists [48 + n]. split; [done|]. split; [apply Forall_singleton; unfold dec_digit; lia|]. split; [cbn; lia|cbn; lia].
  - rewrite Nat2Z.inj_succ, Z.pow_succ_r in Hn by lia. pose proof (Z.div_mod n 10 ltac:(lia)) as Hdm. pose proof (Z.mod_pos_bound n 10 ltac:(lia)) as Hm.
    assert (0 <= n / 10 < 10 ^ Z.of_nat fuel) as Hq by nia. assert (0 < fuel)%nat as Hf' by (destruct fuel; [cbn in Hq; lia|lia]).
    destruct (IH (n / 10) (48 + n mod 10 :: acc) Hq Hf') as (ds & E & Hd & Hv & Hl). exists (ds ++ [48 + n mod 10]). rewrite E, <- app_assoc. split; [done|].
    split; [apply List.Forall_app; split; [done|]; apply Forall_singleton; unfold dec_digit; lia|]. rewrite value_app, Hv, length_app. cbn. lia.
Qed.

Lemma decimal_ok n : 0 <= n < 2 ^ 64 → Forall dec_digit (decimal n) ∧ value_of_digits 0 (decimal n) = n ∧ (0 < length (decimal n) <= 20)%nat.
Proof.
  intros Hn. destruct (decimal_loop_ok 20 n []) as (ds & E & H); [change (10 ^ Z.of_nat 20) with 100000000000000000000; lia|lia|].
  unfold decimal. rewrite E, app_nil_r. done.
Qed.

Lemma zeros_value k ds : value_of_digits 0 (replicate k 48 ++ ds) = value_of_digits 0 ds.
Proof. rewrite value_app. f_equal. induction k as [|k IH]; [done|]. cbn. exact IH. Qed.

Lemma six_digits_ok n : 0 <= n < 2 ^ 64 → Forall dec_digit (six_digits n) ∧ value_of_digits 0 (six_digits n) = n ∧ (6 <= length (six_digits n) <= 20)%nat.
Proof.
  intros Hn. destruct (decimal_ok n Hn) as (H1 & H2 & H3). unfold six_digits. split; [apply List.Forall_app; split; [apply Forall_replicate; unfold dec_digit; lia|done]|].
  split; [by rewrite zeros_value|]. rewrite length_app, length_replicate. lia.
Qed.

(** The input goes on with a character that is no dec_digit, or ends. *)
Definition no_digit (rest : bytes) : Prop := match rest with [] => True | b :: _ => ¬ dec_digit (s8 b) end.

Lemma s8_digit b : dec_digit b → s8 b = b.
Proof. unfold dec_digit. intros Hb. apply swrap_small; lia. Qed.

Lemma consume_digits ds : ∀ v digits rest, Forall dec_digit ds → no_digit rest → 0 <= v → value_of_digits v ds < 2 ^ 64 → 0 <= digits → digits + Z.of_nat (length ds) < 2 ^ 31 →
  consume_loop (ds ++ rest) v digits = Ok (0 <? digits + Z.of_nat (length ds), rest, Some (value_of_digits v ds)).
Proof.
  induction ds as [|d ds IH]; intros v digits rest Hd Hr Hv Hlt H0 Hlen.
  - cbn. rewrite Z.add_0_r. destruct rest as [|b rest]; [done|]. cbn in Hr |- *. unfold dec_digit in Hr. destruct (Z.leb_spec 48 (s8 b)), (Z.leb_spec (s8 b) 57); cbn; try done. lia.
  - apply list.Forall_cons in Hd as [Hd Hds]. cbn [app consume_loop]. rewrite (s8_digit d Hd). unfold dec_digit in Hd.
    rewrite (proj2 (Z.leb_le 48 d)), (proj2 (Z.leb_le d 57)) by lia. cbn [andb]. cbn [length] in Hlen. rewrite int_ok_small by lia. unfold mbind, res_bind.
    pose proof (value_grows ds (v * 10 + (d - 48)) Hds ltac:(lia)) as Hg. change (value_of_digits v (d :: ds)) with (value_of_digits (v * 10 + (d - 48)) ds) in *.
    change (kMaxUint64 / 10) with 1844674407370955161. change (kMaxUint64 mod 10) with 5.
    assert ((1844674407370955161 <? v) || ((v =? 1844674407370955161) && (5 <? d - 48)) = false) as -> by lia.
    rewrite u64_small by lia. rewrite IH by (done || lia). by replace (digits + 1 + Z.of_nat (length ds)) with (digits + Z.of_nat (length (d :: ds))) by (cbn; lia).
Qed.

(** On any input. *)
Lemma consume_any input : ∀ v digits, 0 <= v < 2 ^ 64 → 0 <= digits → digits + Slice.size input < 2 ^ 31 →
  ∃ ok rest num, consume_loop input v digits = Ok (ok, rest, num) ∧ (ok = true → ∃ n, num = Some n ∧ 0 <= n < 2 ^ 64).
Proof.
  induction input as [|b rest IH]; intros v digits Hv H0 Hlen; [eexists _, _, _; split; [done|]; intros _; by exists v|]. cbn [consume_loop]. unfold Slice.size in *. cbn [length] in Hlen.
  destruct ((48 <=? s8 b) && (s8 b <=? 57)) eqn:Ed; [|eexists _, _, _; split; [done|]; intros _; by exists v].
  rewrite int_ok_small by lia. unfold mbind, res_bind. destruct (_ || _); [by eexists _, _, _|]. apply IH; [apply u64_range|lia|lia].
Qed.

Lemma consume_number ds rest n : Forall dec_digit ds → value_of_digits 0 ds = n → 0 <= n < 2 ^ 64 → (0 < length ds <= 20)%nat → no_digit rest →
  ConsumeDecimalNumber (ds ++ rest) = Ok (true, rest, Some n).
Proof.
  intros Hd Hv Hn Hl Hr. unfold ConsumeDecimalNumber. rewrite consume_digits by (done || lia). rewrite Hv. by rewrite (proj2 (Z.ltb_lt _ _)) by lia.
Qed.

(** * Names *)

Lemma eqb_ok a b : Slice.eqb a b = Ok (bool_decide (a = b)).
Proof.
  unfold Slice.eqb, Slice.size. destruct (Z.eqb_spec (Z.of_nat (length a)) (Z.of_nat (length b))) as [E|N].
  - rewrite memcmp_lex by lia. rewrite firstn_all. replace (take (length a) b) with b by (rewrite firstn_all2; [done|lia]). unfold mbind, res_bind. f_equal.
    apply Bool.eq_iff_eq_true. rewrite Z.eqb_eq, bool_decide_eq_true. apply lex_eq.
  - f_equal. symmetry. apply bool_decide_eq_false. intros ->. done.
Qed.
Lemma starts_with_ok a x : Slice.starts_with a x = Ok (bool_decide (take (length x) a = x)).
Proof.
  unfold Slice.starts_with, Slice.size. destruct (Z.leb_spec (Z.of_nat (length x)) (Z.of_nat (length a))) as [L|L].
  - rewrite memcmp_lex by lia. rewrite (firstn_all x). unfold mbind, res_bind. f_equal.
    apply Bool.eq_iff_eq_true. rewrite Z.eqb_eq, bool_decide_eq_true. apply lex_eq.
  - f_equal. symmetry. apply bool_decide_eq_false. intros E. apply (f_equal length) in E. rewrite length_take in E. lia.
Qed.
Lemma remove_prefix_app a b : Slice.remove_prefix (a ++ b) (Slice.size a) = Ok b.
Proof. unfold Slice.remove_prefix, Slice.size. rewrite (proj2 (Z.leb_le _ _)) by (rewrite length_app; lia). by rewrite Nat2Z.id, drop_app_length. Qed.

(** The name of a file in its directory. *)
Inductive names : FileType → Z → bytes → Prop :=
  | names_log n : 0 < n < 2 ^ 64 → names kLogFile n (six_digits n ++ str ".log")
  | names_table n : 0 < n < 2 ^ 64 → names kTableFile n (six_digits n ++ str ".ldb")
  | names_sst n : 0 < n < 2 ^ 64 → names kTableFile n (six_digits n ++ str ".sst")
  | names_temp n : 0 < n < 2 ^ 64 → names kTempFile n (six_digits n ++ str ".dbtmp")
  | names_descriptor n : 0 < n < 2 ^ 64 → names kDescriptorFile n (str "MANIFEST-" ++ six_digits n)
  | names_current : names kCurrentFile 0 (str "CURRENT")
  | names_lock : names kDBLockFile 0 (str "LOCK")
  | names_info : names kInfoLogFile 0 (str "LOG")
  | names_old_info : names kInfoLogFile 0 (str "LOG.old").

(** Names that start with a dec_digit are none of the words. *)
Lemma digits_first n rest w : 0 <= n < 2 ^ 64 → (match w with b :: _ => ¬ dec_digit b | [] => True end) → w ≠ [] → take (length w) (six_digits n ++ rest) ≠ w.
Proof.
  intros Hn Hw Hne E. destruct (six_digits_ok n Hn) as (Hd & _ & Hl). destruct (six_digits n) as [|d ds]; [cbn in Hl; lia|]. destruct w as [|b w]; [done|]. cbn in E. injection E as -> _.
  apply list.Forall_cons in Hd as [Hd _]. done.
Qed.
Lemma digits_word n rest w : 0 <= n < 2 ^ 64 → (match w with b :: _ => ¬ dec_digit b | [] => True end) → w ≠ [] → bool_decide (six_digits n ++ rest = w) = false.
Proof.
  intros Hn Hw Hne. apply bool_decide_eq_false. intros E. apply (digits_first n rest w Hn Hw Hne). rewrite E. apply firstn_all.
Qed.

Lemma parse_digits n suffix : 0 <= n < 2 ^ 64 → no_digit suffix →
  ParseFileName (six_digits n ++ suffix) = Ok (if bool_decide (suffix = str ".log") then Some (n, kLogFile)
    else if bool_decide (suffix = str ".sst") || bool_decide (suffix = str ".ldb") then Some (n, kTableFile)
    else if bool_decide (suffix = str ".dbtmp") then Some (n, kTempFile) else None).
Proof.
  intros Hn Hs. unfold ParseFileName. rewrite !eqb_ok, starts_with_ok. unfold mbind, res_bind.
  rewrite !digits_word by (done || (cbn; unfold dec_digit; lia)). rewrite (bool_decide_false (take _ _ = _)) by (apply digits_first; [done|cbn; unfold dec_digit; lia|done]).
  destruct (six_digits_ok n Hn) as (Hd & Hv & Hl). rewrite (consume_number (six_digits n) suffix n) by (done || lia). cbn [negb of_option]. rewrite ?eqb_ok.
  destruct (bool_decide (suffix = str ".log")); [done|]. destruct (bool_decide (suffix = str ".sst")); [done|]. cbn [orb]. rewrite ?eqb_ok.
  destruct (bool_decide (suffix = str ".ldb")); [done|]. by rewrite ?eqb_ok.
Qed.

Lemma parse_names t n name : names t n name → ParseFileName name = Ok (Some (n, t)).
Proof.
  intros Hn. assert (∀ s, no_digit (46 :: s)) as Hdot by (intros s; cbn; unfold dec_digit; change (s8 46) with 46; lia).
  destruct Hn as [n Hn|n Hn|n Hn|n Hn|n Hn| | | |]; try (rewrite parse_digits; [reflexivity|lia|apply Hdot]); try reflexivity.
  unfold ParseFileName. rewrite !eqb_ok, starts_with_ok. unfold mbind, res_bind.
  rewrite !bool_decide_false by (intros E; apply (f_equal length) in E; destruct (six_digits_ok n) as (_ & _ & Hl); [lia|]; rewrite length_app in E; cbn in E; lia).
  rewrite bool_decide_true by (by rewrite take_app_length). rewrite remove_prefix_app. destruct (six_digits_ok n) as (Hd & Hv & Hl); [lia|].
  rewrite <- (app_nil_r (six_digits n)). rewrite (consume_number (six_digits n) [] n) by (done || lia). done.
Qed.

Lemma parse_any name : Slice.size name < 2 ^ 31 → ∃ r, ParseFileName name = Ok r ∧ ∀ n t, r = Some (n, t) → 0 <= n < 2 ^ 64.
Proof.
  intros Hl. unfold ParseFileName. rewrite !eqb_ok, starts_with_ok. unfold mbind, res_bind.
  assert (∀ (t : FileType), ∀ n t', Some (0, t) = Some (n, t') → 0 <= n < 2 ^ 64) as H0 by (intros t n t' [= <- _]; lia).
  destruct (bool_decide _); [eexists; split; [done|apply H0]|]. destruct (bool_decide _); [eexists; split; [done|apply H0]|]. destruct (bool_decide (name = str "LOG")); [eexists; split; [done|apply H0]|]. rewrite ?eqb_ok.
  destruct (bool_decide (name = str "LOG.old")); [eexists; split; [done|apply H0]|]. destruct (bool_decide_reflect (take (length (str "MANIFEST-")) name = str "MANIFEST-")) as [E|N].
  - rewrite <- (take_drop (length (str "MANIFEST-")) name), E. rewrite remove_prefix_app. set (rest := drop _ name). assert (Slice.size rest < 2 ^ 31) as Hr by (unfold Slice.size, rest in *; rewrite length_drop; lia).
    destruct (consume_any rest 0 0) as (ok & r & num & E' & Hn); [lia..|]. unfold ConsumeDecimalNumber. rewrite E'. destruct ok; cbn [negb]; [|eexists; by split].
    destruct (Hn eq_refl) as (n & -> & Hb). destruct (Slice.empty r); cbn [negb]; [|eexists; by split]. eexists. split; [done|]. by intros ? ? [= <- _].
  - destruct (consume_any name 0 0) as (ok & r & num & E' & Hn); [lia..|]. unfold ConsumeDecimalNumber. rewrite E'. destruct ok; cbn [negb]; [|eexists; by split].
    destruct (Hn eq_refl) as (n & -> & Hb). cbn [of_option]. rewrite ?eqb_ok. assert (∀ (t : FileType) n0 t', Some (n, t) = Some (n0, t') → 0 <= n0 < 2 ^ 64) as H1 by (intros t n0 t' [= <- _]; done).
    destruct (bool_decide _); [eexists; split; [done|apply H1]|]. destruct (bool_decide (r = str ".sst")); [eexists; split; [done|apply H1]|]. rewrite ?eqb_ok.
    destruct (bool_decide (r = str ".ldb")); [eexists; split; [done|apply H1]|]. rewrite ?eqb_ok. destruct (bool_decide _); eexists; (split; [done|]); [apply H1|done].
Qed.

(** * The current descriptor *)

(** What an environment promises: an operation concerns the files it names; what was written
    to a file is there when the file was closed; and renaming is done or not done. *)
Class EnvLaws (E F Q : Type) `{Env E F Q} `{WritableFile F} `{SyncFile F} (contents : E → gmap bytes bytes) (name_of written : F → bytes) : Prop := {
  env_new fname e : ∃ s r e', NewWritableFile fname e = (s, r, e') ∧ (s = OK → ∃ f, r = Some f ∧ name_of f = fname ∧ written f = []) ∧
    ∀ n, n ≠ fname → contents e' !! n = contents e !! n;
  env_append data f : ∃ s f', Append data f = (s, f') ∧ name_of f' = name_of f ∧ (s = OK → written f' = written f ++ data);
  env_sync f : ∃ s f', Sync f = (s, f') ∧ name_of f' = name_of f ∧ (s = OK → written f' = written f);
  env_close f : ∃ s f', Close f = (s, f') ∧ name_of f' = name_of f ∧ (s = OK → ∀ e, contents (delete_file f' e) !! name_of f = Some (written f));
  env_delete f e n : n ≠ name_of f → contents (delete_file f e) !! n = contents e !! n;
  env_remove fname e n : n ≠ fname → contents (env_DeleteFile fname e).2 !! n = contents e !! n;
  env_rename src dst e : ∃ s e', RenameFile src dst e = (s, e') ∧
    (s = OK → contents e' !! dst = contents e !! src ∧ ∀ n, n ≠ src → n ≠ dst → contents e' !! n = contents e !! n) ∧
    (s ≠ OK → contents e' = contents e)
}.

Section current.
Context {E F Q : Type} `{EnvLaws E F Q contents name_of written}.

Lemma write_file_ok data fname sync e : ∃ s e', DoWriteStringToFile data fname sync e = Ok (s, e') ∧
  (s = OK → contents e' !! fname = Some data) ∧ ∀ n, n ≠ fname → contents e' !! n = contents e !! n.
Proof.
  unfold DoWriteStringToFile. destruct (env_new fname e) as (s & r & e1 & -> & Hf & Ho). destruct s as [s|]; cbn [ok negb]; [by eexists _, _|].
  destruct (Hf eq_refl) as (f & -> & Hn & Hw). unfold mbind, res_bind. cbn [of_option]. destruct (env_append data f) as (s1 & f1 & -> & Hn1 & Hw1).
  set (x2 := if ok s1 && sync then Sync f1 else (s1, f1)).
  assert (∃ s2 f2, x2 = (s2, f2) ∧ name_of f2 = fname ∧ (s2 = OK → written f2 = data)) as (s2 & f2 & -> & Hn2 & Hw2).
  { unfold x2. destruct s1 as [s1|]; cbn [ok andb]; [eexists _, _; split; [done|]; split; [by rewrite Hn1|done]|]. specialize (Hw1 eq_refl). rewrite Hw in Hw1.
    destruct sync; [|eexists _, _; split; [done|]; split; [by rewrite Hn1|done]]. destruct (env_sync f1) as (s2 & f2 & -> & Hn2 & Hw2). eexists _, _. split; [done|].
    split; [by rewrite Hn2, Hn1|]. intros E2. by rewrite Hw2. }
  set (x3 := if ok s2 then Close f2 else (s2, f2)).
  assert (∃ s3 f3, x3 = (s3, f3) ∧ name_of f3 = fname ∧ (s3 = OK → ∀ e, contents (delete_file f3 e) !! fname = Some data)) as (s3 & f3 & -> & Hn3 & Hw3).
  { unfold x3. destruct s2 as [s2|]; cbn [ok]; [by eexists _, _|]. destruct (env_close f2) as (s3 & f3 & -> & Hn3 & Hw3). eexists _, _. split; [done|]. split; [by rewrite Hn3|].
    intros E3 e0. rewrite <- Hn2, <- (Hw2 eq_refl). by apply Hw3. }
  destruct s3 as [s3|]; cbn [ok negb]; eexists _, _; (split; [done|]).
  - split; [done|]. intros n N. rewrite env_remove, env_delete; [by apply Ho|by rewrite Hn3|done].
  - split; [intros _; by apply Hw3|]. intros n N. rewrite env_delete; [by apply Ho|by rewrite Hn3].
Qed.

Lemma SetCurrentFile_ok dbname n e : 0 < n < 2 ^ 64 → Slice.size dbname < 2 ^ 32 → ∃ s e' tmp, SetCurrentFile dbname n e = Ok (s, e') ∧ TempFileName dbname n = Ok tmp ∧
  (∀ name, name ≠ tmp → name ≠ CurrentFileName dbname → contents e' !! name = contents e !! name) ∧
  (s = OK ∧ contents e' !! CurrentFileName dbname = Some (str "MANIFEST-" ++ six_digits n ++ [10]) ∨ s ≠ OK ∧ contents e' !! CurrentFileName dbname = contents e !! CurrentFileName dbname).
Proof.
  intros Hn Hd. unfold SetCurrentFile, DescriptorFileName, TempFileName. rewrite (proj2 (Z.ltb_lt 0 n)) by lia. cbn [SkipList.assert_]. unfold mbind, res_bind.
  replace (dbname ++ str "/MANIFEST-" ++ six_digits n) with ((dbname ++ str "/") ++ str "MANIFEST-" ++ six_digits n) by by rewrite <- app_assoc.
  rewrite starts_with_ok, take_app_length, bool_decide_true by done. cbn [SkipList.assert_].
  replace (u64 (Slice.size dbname + 1)) with (Slice.size (dbname ++ str "/")) by (unfold Slice.size in *; rewrite length_app, u64_small; cbn; lia).
  rewrite remove_prefix_app. set (tmp := MakeFileName dbname n (str "dbtmp")). unfold WriteStringToFileSync. rewrite <- app_assoc.
  destruct (write_file_ok (str "MANIFEST-" ++ six_digits n ++ [10]) tmp true e) as (s & e1 & -> & Hw & Ho).
  assert (tmp ≠ CurrentFileName dbname) as Ntmp.
  { unfold tmp, MakeFileName, CurrentFileName. intros Ex%app_inv_head. assert (names kTempFile n (six_digits n ++ str ".dbtmp")) as Hp%parse_names by by constructor.
    change (str "/" ++ six_digits n ++ str "." ++ str "dbtmp") with (47 :: six_digits n ++ str ".dbtmp") in Ex. change (str "/CURRENT") with (47 :: str "CURRENT") in Ex.
    injection Ex as Ex. rewrite Ex in Hp. vm_compute in Hp. injection Hp as Hp _. lia. }
  set (x := if ok s then RenameFile tmp (CurrentFileName dbname) e1 else (s, e1)).
  assert (∃ s2 e2, x = (s2, e2) ∧ (∀ name, name ≠ tmp → name ≠ CurrentFileName dbname → contents e2 !! name = contents e !! name) ∧
    (s2 = OK → contents e2 !! CurrentFileName dbname = Some (str "MANIFEST-" ++ six_digits n ++ [10])) ∧ (s2 ≠ OK → contents e2 !! CurrentFileName dbname = contents e !! CurrentFileName dbname)) as (s2 & e2 & -> & H1' & H2' & H3').
  { unfold x. destruct s as [s|]; cbn [ok].
    - eexists _, _. split; [done|]. split; [intros; by apply Ho|]. split; [done|]. intros _. by apply Ho.
    - destruct (env_rename tmp (CurrentFileName dbname) e1) as (s2 & e2 & -> & Hok & Hbad). eexists _, _. split; [done|]. split; [|split].
      + intros name N1 N2. rewrite <- (Ho name N1). destruct (decide (s2 = OK)) as [E2|N]; [by apply Hok|by rewrite Hbad].
      + intros E2. destruct (Hok E2) as [-> _]. by apply Hw.
      + intros N. rewrite Hbad by done. by apply Ho. }
  destruct s2 as [s2|]; cbn [ok negb]; eexists _, _, tmp; (split; [done|]); (split; [done|]).
  - split; [intros name N1 N2; rewrite env_remove by done; by apply H1'|]. right. split; [done|]. rewrite env_remove by done. by apply H3'.
  - split; [done|]. left. split; [done|]. by apply H2'.
Qed.
End current.

(** C38: names of files. [ParseFileName] returns on any name, and reads back number and type
    from the name, within its directory, of any log, table, temporary or descriptor file with
    a number from 1 to [2^64 - 1], and of the other files of a database. Numbers are read back
    from their digits. *)
Theorem filename_roundtrip dbname name n : Slice.size name < 2 ^ 31 → 0 < n < 2 ^ 64 →
  (∃ r, ParseFileName name = Ok r ∧ ∀ k t, r = Some (k, t) → 0 <= k < 2 ^ 64) ∧
  (∀ make t, (make, t) ∈ [(LogFileName, kLogFile); (TableFileName, kTableFile); (SSTTableFileName, kTableFile); (TempFileName, kTempFile); (DescriptorFileName, kDescriptorFile)] →
     ∃ base, make dbname n = Ok (dbname ++ str "/" ++ base) ∧ ParseFileName base = Ok (Some (n, t))) ∧
  (∀ make t, (make, t) ∈ [(CurrentFileName, kCurrentFile); (LockFileName, kDBLockFile); (InfoLogFileName, kInfoLogFile); (OldInfoLogFileName, kInfoLogFile)] →
     ∃ base, make dbname = dbname ++ str "/" ++ base ∧ ParseFileName base = Ok (Some (0, t))) ∧
  ConsumeDecimalNumber (NumberToString n) = Ok (true, [], Some n).
Proof.
  intros Hl Hn. split; [by apply parse_any|]. split; [|split].
  - assert (∀ suffix t, names t n (six_digits n ++ str "." ++ suffix) → ∃ base, Ok (MakeFileName dbname n suffix) = Ok (dbname ++ str "/" ++ base) ∧ ParseFileName base = Ok (Some (n, t))) as Hm.
    { intros suffix t Hx. eexists. split; [reflexivity|by apply parse_names]. }
    intros make t Hin. unfold LogFileName, TableFileName, SSTTableFileName, TempFileName, DescriptorFileName in Hin.
    do 5 (apply elem_of_cons in Hin as [[= -> ->]|Hin]; [rewrite (proj2 (Z.ltb_lt 0 n)) by lia; cbn [SkipList.assert_]; unfold mbind, res_bind; first [by apply Hm; constructor|exists (str "MANIFEST-" ++ six_digits n)]|]); [|by apply not_elem_of_nil in Hin].
    split; [done|]. apply parse_names. by constructor.
  - intros make t Hin. do 4 (apply elem_of_cons in Hin as [[= -> ->]|Hin]; [eexists; split; [reflexivity|reflexivity]|]). by apply not_elem_of_nil in Hin.
  - unfold NumberToString, AppendNumberTo. cbn [app]. destruct (decimal_ok n ltac:(lia)) as (Hd & Hv & Hlen). rewrite <- (app_nil_r (decimal n)). by apply consume_number; [..|lia|lia|].
Qed.

Lemma filename_roundtrip_witness : ∃ base, LogFileName (str "db") 7 = Ok (str "db" ++ str "/" ++ base) ∧ ParseFileName base = Ok (Some (7, kLogFile)) ∧ base = str "000007.log".
Proof.
  destruct (filename_roundtrip (str "db") [] 7 ltac:(done) ltac:(lia)) as (_ & H & _). destruct (H LogFileName kLogFile) as (base & E1 & E2); [by left|].
  exists base. split; [exact E1|]. split; [exact E2|]. vm_compute in E1. injection E1 as <-. by vm_compute.
Defined.

(** C39: the current descriptor. In an environment where renaming is done or not done, whatever
    fails, [SetCurrentFile] leaves in the file [CURRENT] either what was there, and reports an
    error, or the name of the new descriptor and a newline, and reports success; of the other
    files it touches its own temporary file only. *)
Theorem current_replaced E F Q (HE : Env E F Q) (HW : WritableFile F) (HS : SyncFile F) contents name_of written dbname n e :
  EnvLaws E F Q contents name_of written → 0 < n < 2 ^ 64 → Slice.size dbname < 2 ^ 32 →
  ∃ s e' tmp, SetCurrentFile dbname n e = Ok (s, e') ∧ TempFileName dbname n = Ok tmp ∧
    (∀ name, name ≠ tmp → name ≠ CurrentFileName dbname → contents e' !! name = contents e !! name) ∧
    (s = OK ∧ contents e' !! CurrentFileName dbname = Some (str "MANIFEST-" ++ six_digits n ++ [10]) ∨
     s ≠ OK ∧ contents e' !! CurrentFileName dbname = contents e !! CurrentFileName dbname).
Proof. intros HL Hn Hd. exact (SetCurrentFile_ok dbname n e Hn Hd). Qed.

(** Files in memory, of less than [2 ^ 32] bytes; the flag makes renaming fail. *)
Record MemoryFile := mkMemoryFile { mf_name : bytes; mf_data : bytes }.
Record MemoryEnv := mkMemoryEnv { me_files : gmap bytes bytes; me_fails : bool }.
#[export] Instance memory_file : WritableFile MemoryFile := {|
  Append data f := let f' := mkMemoryFile (mf_name f) (mf_data f ++ data) in (if Slice.size (mf_data f') <? 2 ^ 32 then OK else IOError "", f');
  Flush f := (OK, f)
|}.
#[export] Instance memory_sync : SyncFile MemoryFile := {| Sync f := (OK, f); Close f := (OK, f) |}.
#[export] Instance memory_env : Env MemoryEnv MemoryFile bytes := {|
  NewSequentialFile n e := match me_files e !! n with Some b => (OK, Some b, e) | None => (NotFound "", None, e) end;
  NewWritableFile n e := (OK, Some (mkMemoryFile n []), mkMemoryEnv (<[n := []]> (me_files e)) (me_fails e));
  NewAppendableFile n e := (OK, Some (mkMemoryFile n (default [] (me_files e !! n))), e);
  delete_file f e := mkMemoryEnv (<[mf_name f := mf_data f]> (me_files e)) (me_fails e);
  FileExists n e := bool_decide (is_Some (me_files e !! n));
  GetChildren _ e := (OK, (map_to_list (me_files e)).*1);
  env_DeleteFile n e := (OK, mkMemoryEnv (delete n (me_files e)) (me_fails e));
  CreateDir _ e := (OK, e);
  DeleteDir _ e := (OK, e);
  GetFileSize n e := (OK, Slice.size (default [] (me_files e !! n)));
  RenameFile src dst e := match me_files e !! src with
                          | Some b => if me_fails e then (IOError "", e) else (OK, mkMemoryEnv (<[dst := b]> (delete src (me_files e))) false)
                          | None => (NotFound "", e) end;
  LockFile _ e := (OK, e);
  UnlockFile _ e := (OK, e)
|}.

#[export] Instance memory_laws : EnvLaws MemoryEnv MemoryFile bytes me_files mf_name mf_data.
Proof.
  split.
  - intros n e. eexists _, _, _. split; [done|]. split; [intros _; by eexists|]. intros k N. by apply lookup_insert_ne.
  - intros data f. by eexists _, _.
  - intros f. by eexists _, _.
  - intros f. eexists _, _. split; [done|]. split; [done|]. intros _ e. apply lookup_insert_eq.
  - intros f e n N. by apply lookup_insert_ne.
  - intros n e k N. by apply lookup_delete_ne.
  - intros src dst e. cbn. destruct (me_files e !! src) as [b|] eqn:E; [destruct (me_fails e)|]; eexists _, _; (split; [done|]); (split; [try done|try done]).
    intros _. cbn. split; [by rewrite lookup_insert_eq|]. intros n N1 N2. by rewrite lookup_insert_ne, lookup_delete_ne.
Qed.

Lemma current_replaced_witness : ∃ e', SetCurrentFile (str "db") 7 (mkMemoryEnv {[CurrentFileName (str "db") := str "MANIFEST-000005"]} false) = Ok (OK, e') ∧
  me_files e' !! CurrentFileName (str "db") = Some (str "MANIFEST-000007" ++ [10]).
Proof.
  destruct (current_replaced MemoryEnv MemoryFile bytes memory_env memory_file memory_sync me_files mf_name mf_data (str "db") 7
    (mkMemoryEnv {[CurrentFileName (str "db") := str "MANIFEST-000005"]} false) memory_laws ltac:(lia) ltac:(done)) as (s & e' & tmp & E & _ & _ & H).
  exists e'. assert (s = OK) as -> by (vm_compute in E; by injection E as <- _). split; [exact E|]. destruct H as [[_ H]|[H _]]; [|done]. rewrite H. by vm_compute.
Defined.
