(* ===== verification/LdbCompaction.v ===== *)
(** Compactions of LevelDB ([Compaction] and the parts of [VersionSet] about it in
    [db/version_set.h], [db/version_set.cc]): which files are merged, and what is known of the
    levels below them. *)
From Stdlib Require Floats.SpecFloat.
From S2P Require Import Prelude LdbSkip LdbFormat LdbIterator LdbMerger LdbTwoLevel LdbTable LdbVersionEdit LdbVersion LdbVersionSet.

Module Compaction.
Import Internal Config Version VersionSet.

(** [Compaction]; [input_version_] is the address of the version. *)
Record Compaction := mkCompaction {
  level_ : Z; max_output_file_size_ : Z; input_version_ : option nat; edit_ : VersionEdit.VersionEdit;
  inputs0 : list File; inputs1 : list File; grandparents_ : list File;
  grandparent_index_ : Z; seen_key_ : bool; overlapped_bytes_ : Z; level_ptrs_ : list Z
}.
Definition new (max_file_size level : Z) : Compaction :=
  mkCompaction level (MaxFileSizeForLevel max_file_size) None VersionEdit.new [] [] [] 0 false 0 (replicate (Z.to_nat kNumLevels) 0).
Definition set_inputs (c : Compaction) (i0 i1 : list File) : Compaction :=
  mkCompaction (level_ c) (max_output_file_size_ c) (input_version_ c) (edit_ c) i0 i1 (grandparents_ c) (grandparent_index_ c) (seen_key_ c) (overlapped_bytes_ c) (level_ptrs_ c).
Definition set_input_version (c : Compaction) (p : option nat) : Compaction :=
  mkCompaction (level_ c) (max_output_file_size_ c) p (edit_ c) (inputs0 c) (inputs1 c) (grandparents_ c) (grandparent_index_ c) (seen_key_ c) (overlapped_bytes_ c) (level_ptrs_ c).
Definition set_edit (c : Compaction) (e : VersionEdit.VersionEdit) : Compaction :=
  mkCompaction (level_ c) (max_output_file_size_ c) (input_version_ c) e (inputs0 c) (inputs1 c) (grandparents_ c) (grandparent_index_ c) (seen_key_ c) (overlapped_bytes_ c) (level_ptrs_ c).
Definition set_grandparents (c : Compaction) (l : list File) : Compaction :=
  mkCompaction (level_ c) (max_output_file_size_ c) (input_version_ c) (edit_ c) (inputs0 c) (inputs1 c) l (grandparent_index_ c) (seen_key_ c) (overlapped_bytes_ c) (level_ptrs_ c).
Definition set_progress (c : Compaction) (index : Z) (seen : bool) (n : Z) : Compaction :=
  mkCompaction (level_ c) (max_output_file_size_ c) (input_version_ c) (edit_ c) (inputs0 c) (inputs1 c) (grandparents_ c) index seen n (level_ptrs_ c).
Definition set_level_ptrs (c : Compaction) (l : list Z) : Compaction :=
  mkCompaction (level_ c) (max_output_file_size_ c) (input_version_ c) (edit_ c) (inputs0 c) (inputs1 c) (grandparents_ c) (grandparent_index_ c) (seen_key_ c) (overlapped_bytes_ c) l.

Section compaction.
Context (C : SliceComparator) (max_file_size : Z).

(** ** Ranges of files *)

Fixpoint range_loop (l : list File) (s g : bytes) : res (bytes * bytes) :=
  match l with
  | [] => Ok (s, g)
  | f :: l =>
      c ← compare_keys C (smallest (meta f)) s;
      d ← compare_keys C (largest (meta f)) g;
      range_loop l (if c <? 0 then smallest (meta f) else s) (if 0 <? d then largest (meta f) else g)
  end.
Definition GetRange (inputs : list File) : res (bytes * bytes) :=
  match inputs with
  | [] => UB
  | f :: l => range_loop l (smallest (meta f)) (largest (meta f))
  end.
Definition GetRange2 (a b : list File) : res (bytes * bytes) := GetRange (a ++ b).

(** ** The files of a compaction *)

(** The files of the level are taken in larger number if this adds none to the next level. *)
Definition expand (v : Version) (c : Compaction) (smallest largest all_start all_limit : bytes) : res (Compaction * bytes * bytes * bytes) :=
  let same := Ok (c, largest, all_start, all_limit) in
  if bool_decide (inputs1 c = []) then same
  else
    expanded0 ← GetOverlappingInputs C v (level_ c) (Some all_start) (Some all_limit);
    let inputs1_size := TotalFileSize (inputs1 c) in
    let expanded0_size := TotalFileSize expanded0 in
    grow ← (if (length (inputs0 c) <? length expanded0)%nat then
              sum ← long_ok (inputs1_size + expanded0_size); limit ← ExpandedCompactionByteSizeLimit max_file_size; Ok (sum <? limit)
            else Ok false);
    if grow : bool then
      '(new_start, new_limit) ← GetRange expanded0;
      expanded1 ← GetOverlappingInputs C v (level_ c + 1) (Some new_start) (Some new_limit);
      if (length expanded1 =? length (inputs1 c))%nat then
        '(all_start, all_limit) ← GetRange2 expanded0 expanded1;
        Ok (set_inputs c expanded0 expanded1, new_limit, all_start, all_limit)
      else same
    else same.
Definition SetupOtherInputs (c : Compaction) (s : VersionSet) : res (Compaction * VersionSet) :=
  v ← current s;
  let level := level_ c in
  '(smallest, largest) ← GetRange (inputs0 c);
  i1 ← GetOverlappingInputs C v (level + 1) (Some smallest) (Some largest);
  let c := set_inputs c (inputs0 c) i1 in
  '(all_start, all_limit) ← GetRange2 (inputs0 c) (inputs1 c);
  '(c, largest, all_start, all_limit) ← expand v c smallest largest all_start all_limit;
  c ← (if level + 2 <? kNumLevels then g ← GetOverlappingInputs C v (level + 2) (Some all_start) (Some all_limit); Ok (set_grandparents c g) else Ok c);
  k ← Encode largest;
  if (0 <=? level) && (level <? kNumLevels) then
    Ok (set_edit c (VersionEdit.SetCompactPointer level largest (edit_ c)), set_pointers s (<[Z.to_nat level := k]> (compact_pointer_ s)))
  else UB.

(** The first file after the key at which the last compaction of the level stopped. *)
Fixpoint first_after (pointer : bytes) (files : list File) : res (option File) :=
  match files with
  | [] => Ok None
  | f :: files =>
      take ← (if Slice.empty pointer then Ok true else l ← Encode (largest (meta f)); c ← icmp C l pointer; Ok (0 <? c));
      if take : bool then Ok (Some f) else first_after pointer files
  end.
Definition pick_first (v : Version) (s : VersionSet) : res (option Compaction) :=
  if SpecFloat.SFleb (double_of 1) (compaction_score_ v) then
    let level := compaction_level_ v in
    SkipList.assert_ (0 <=? level);;
    SkipList.assert_ (level + 1 <? kNumLevels);;
    files ← level_files v level;
    pointer ← of_option (compact_pointer_ s !! Z.to_nat level);
    f ← first_after pointer files;
    f ← match f with Some f => Ok f | None => of_option (head files) end;
    Ok (Some (set_inputs (new max_file_size level) [f] []))
  else
    match file_to_compact_ v with
    | Some f => Ok (Some (set_inputs (new max_file_size (file_to_compact_level_ v)) [f] []))
    | None => Ok None
    end.
Definition PickCompaction (s : VersionSet) : res (option Compaction * VersionSet) :=
  p ← of_option (current_ s);
  v ← version s p;
  c ← pick_first v s;
  match c with
  | None => Ok (None, s)
  | Some c =>
      let c := set_input_version c (Some p) in
      s ← Ref s p;
      c ← (if level_ c =? 0 then
             '(smallest, largest) ← GetRange (inputs0 c);
             i ← GetOverlappingInputs C v 0 (Some smallest) (Some largest);
             SkipList.assert_ (negb (bool_decide (i = [])));;
             Ok (set_inputs c i (inputs1 c))
           else Ok c);
      '(c, s) ← SetupOtherInputs c s;
      Ok (Some c, s)
  end.

(** Not more files than up to the limit, but one at least. *)
Fixpoint up_to (limit total : Z) (l : list File) : list File :=
  match l with
  | [] => []
  | f :: l => let total := u64 (total + file_size (meta f)) in if limit <=? total then [f] else f :: up_to limit total l
  end.
Definition CompactRange (level : Z) (b e : option bytes) (s : VersionSet) : res (option Compaction * VersionSet) :=
  p ← of_option (current_ s);
  v ← version s p;
  inputs ← GetOverlappingInputs C v level b e;
  if bool_decide (inputs = []) then Ok (None, s)
  else
    let inputs := if 0 <? level then up_to (MaxFileSizeForLevel max_file_size) 0 inputs else inputs in
    s ← Ref s p;
    '(c, s) ← SetupOtherInputs (set_inputs (set_input_version (new max_file_size level) (Some p)) inputs []) s;
    Ok (Some c, s).

Definition MaxNextLevelOverlappingBytes (s : VersionSet) : res Z :=
  v ← current s;
  let fix files_loop (level : Z) (l : list File) (result : Z) : res Z :=
    match l with
    | [] => Ok result
    | f :: l =>
        overlaps ← GetOverlappingInputs C v (level + 1) (Some (smallest (meta f))) (Some (largest (meta f)));
        let sum := TotalFileSize overlaps in
        files_loop level l (if result <? sum then sum else result)
    end in
  let fix levels_loop (level : Z) (levels : list (list File)) (result : Z) : res Z :=
    match levels with
    | [] => Ok result
    | files :: levels => r ← files_loop level files result; levels_loop (level + 1) levels r
    end in
  levels_loop 1 (drop 1 (take (Z.to_nat (kNumLevels - 1)) (files_ v))) 0.

(** ** What a compaction knows *)

Definition num_input_files (c : Compaction) (which : nat) : Z := Z.of_nat (length (if (which =? 0)%nat then inputs0 c else inputs1 c)).
Definition IsTrivialMove (c : Compaction) : res bool :=
  if (num_input_files c 0 =? 1) && (num_input_files c 1 =? 0) then
    max ← MaxGrandParentOverlapBytes max_file_size;
    Ok (TotalFileSize (grandparents_ c) <=? max)
  else Ok false.

Definition delete_files (level : Z) (l : list File) (e : VersionEdit.VersionEdit) : VersionEdit.VersionEdit :=
  foldl (λ e f, VersionEdit.DeleteFile level (number (meta f)) e) e l.
Definition AddInputDeletions (c : Compaction) (e : VersionEdit.VersionEdit) : VersionEdit.VersionEdit :=
  delete_files (level_ c + 1) (inputs1 c) (delete_files (level_ c) (inputs0 c) e).

(** The files from the position on: where the search stops, and whether the key is in that
    file. *)
Fixpoint base_loop (user_key : bytes) (files : list File) (ptr : Z) : res (bool * Z) :=
  match files with
  | [] => Ok (false, ptr)
  | f :: files =>
      l ← Version.user_key (largest (meta f)); c ← Compare (SliceComparator := C) user_key l;
      if c <=? 0 then s ← Version.user_key (smallest (meta f)); d ← Compare (SliceComparator := C) user_key s; Ok (0 <=? d, ptr)
      else base_loop user_key files (u64 (ptr + 1))
  end.
Fixpoint base_levels (user_key : bytes) (levels : list (list File)) (lvl : nat) (ptrs : list Z) : res (bool * list Z) :=
  match levels with
  | [] => Ok (true, ptrs)
  | files :: levels =>
      ptr ← of_option (ptrs !! lvl);
      '(found, ptr) ← base_loop user_key (drop (Z.to_nat ptr) files) ptr;
      let ptrs := <[lvl := ptr]> ptrs in
      if found : bool then Ok (false, ptrs) else base_levels user_key levels (S lvl) ptrs
  end.
Definition IsBaseLevelForKey (v : Version) (user_key : bytes) (c : Compaction) : res (bool * Compaction) :=
  '(b, ptrs) ← base_levels user_key (drop (Z.to_nat (level_ c + 2)) (files_ v)) (Z.to_nat (level_ c + 2)) (level_ptrs_ c);
  Ok (b, set_level_ptrs c ptrs).

Fixpoint stop_loop (internal_key : bytes) (files : list File) (seen : bool) (index n : Z) : res (Z * Z) :=
  match files with
  | [] => Ok (index, n)
  | f :: files =>
      l ← Encode (largest (meta f)); c ← icmp C internal_key l;
      if 0 <? c then stop_loop internal_key files seen (u64 (index + 1)) (if seen then s64 (n + file_size (meta f)) else n)
      else Ok (index, n)
  end.
Definition ShouldStopBefore (internal_key : bytes) (c : Compaction) : res (bool * Compaction) :=
  '(index, n) ← stop_loop internal_key (drop (Z.to_nat (grandparent_index_ c)) (grandparents_ c)) (seen_key_ c) (grandparent_index_ c) (overlapped_bytes_ c);
  max ← MaxGrandParentOverlapBytes max_file_size;
  if max <? n then Ok (true, set_progress c index true 0) else Ok (false, set_progress c index true n).

Definition ReleaseInputs (c : Compaction) (s : VersionSet) : res (Compaction * VersionSet) :=
  match input_version_ c with
  | Some p => s ← Unref s p; Ok (set_input_version c None, s)
  | None => Ok (c, s)
  end.

(** ** Their iterator *)

Context {T TI : Type} `{TableCache T TI} `{Iterator TI}.

(** [which + level] is 0 for the files of level 0. *)
Definition input_iterators (o : Table.ReadOptions) (level : Z) (files : list File) (cache : T) : res (list (TI + LevelIterator (T := T) (TI := TI)) * T) :=
  if bool_decide (files = []) then Ok ([], cache)
  else if level =? 0 then file_iterators o files cache
  else i ← NewConcatenatingIterator C files cache; Ok ([inr i], cache).
Definition input_children (paranoid_checks : bool) (c : Compaction) (cache : T) : res (list (TI + LevelIterator (T := T) (TI := TI)) * T) :=
  let o := Table.mkRead paranoid_checks false in
  '(l0, cache) ← input_iterators o (level_ c) (inputs0 c) cache;
  '(l1, cache) ← input_iterators o (level_ c + 1) (inputs1 c) cache;
  Ok (l0 ++ l1, cache).
Definition child_iterator (fuel : nat) (o : Table.ReadOptions) : Iterator (TI + LevelIterator (T := T) (TI := TI)) :=
  sum_iterator (H0 := concatenating_iterator C fuel o).
Definition MakeInputIterator (fuel : nat) (paranoid_checks : bool) (c : Compaction) (cache : T) :
    res ((EmptyIterator + ((TI + LevelIterator (T := T) (TI := TI)) + Merger.MergingIterator (I := TI + LevelIterator (T := T) (TI := TI)))) * T) :=
  '(children, cache) ← input_children paranoid_checks c cache;
  i ← Merger.NewMergingIterator (H := child_iterator fuel (Table.mkRead paranoid_checks false)) children;
  Ok (i, cache).
End compaction.
End Compaction.
