(* ===== verification/LdbCompactionProps.v ===== *)
(** Choosing the files of a compaction: no file that stays shares a user key with the files
    that are taken from its level, and none that stays in the next level lies between them.

    The compactions that a set of versions proposes.

    What a compaction asks of the levels below it: whether a key can be there, and whether an
    output overlaps too much of the next level but one.

    What can go wrong at the boundary of two files of a level that share a user key: a
    compaction takes the file with the newer entries and leaves the other. *)
From Stdlib Require Import Sorting.Sorted.
From Stdlib Require Floats.SpecFloat.
From S2P Require Import Prelude LdbSkip LdbSkipLemmas LdbFormat LdbCodingProps LdbOrder LdbMemTable LdbMemTableProps LdbIterator LdbTable LdbVersionEdit LdbVersion LdbVersionProps LdbVersionGet LdbVersionSet LdbVersionSetProps LdbCompaction.
Module InputProps.
Import Version VersionSet Compaction.

Section compaction.
Context (C : SliceComparator) (valid : bytes → Prop) (ord : Comparator bytes) `{!Lawful C (λ _, True) valid ord}.
#[local] Instance iord : Comparator bytes := internal_order ord.
#[local] Abbreviation kcmp := (@compare_ bytes iord).
#[local] Abbreviation ucmp := (@compare_ bytes ord).
Implicit Types (f g : File) (files : list File) (v : Version).

#[local] Instance iorder : Order bytes (H := iord).
Proof. exact (iord_order C valid ord). Qed.
#[local] Instance uorder : Order bytes (H := ord).
Proof. exact (uorder C valid ord). Qed.

Lemma keys_ok (a b : bytes) : ikey_ok a → ikey_ok b → compare_keys C a b = Ok (kcmp a b).
Proof. apply (compare_keys_ok C valid ord). Qed.
Lemma kcmp_le_trans (a b c : bytes) : kcmp a b <= 0 → kcmp b c <= 0 → kcmp a c <= 0.
Proof.
  intros H1 H2. destruct (Z.eq_dec (kcmp a b) 0) as [E|N].
  - destruct (Z.eq_dec (kcmp b c) 0) as [E'|N']; [pose proof (cmp_zero_trans (H0 := iorder) _ _ _ E E'); lia|]. pose proof (cmp_eq (Order := iorder) a b c E ltac:(lia)). lia.
  - destruct (Z.eq_dec (kcmp b c) 0) as [E'|N'].
    + pose proof (cmp_eq_r (H0 := iorder) a b c ltac:(lia) E'). lia.
    + pose proof (cmp_trans (Order := iorder) a b c ltac:(lia) ltac:(lia)). lia.
Qed.
Lemma kcmp_neg (a b : bytes) : kcmp a b <= 0 ↔ 0 <= kcmp b a.
Proof. pose proof (cmp_swap (Order := iorder) a b). pose proof (cmp_swap (Order := iorder) b a). pose proof (cmp_zero_swap (H0 := iorder) a b). lia. Qed.

(** ** Ranges *)

(** The range from [a] to [z] is the smallest that has the files. *)
Record range_of (l : list File) (a z : bytes) : Prop := {
  ro_first : ∃ f, f ∈ l ∧ a = smallest (meta f);
  ro_last : ∃ f, f ∈ l ∧ z = largest (meta f);
  ro_all f : f ∈ l → kcmp a (smallest (meta f)) <= 0 ∧ kcmp (largest (meta f)) z <= 0
}.

Lemma range_loop_ok l : ∀ seen a z, Forall file_keys (seen ++ l) → range_of seen a z → ∃ a' z', range_loop C l a z = Ok (a', z') ∧ range_of (seen ++ l) a' z'.
Proof.
  induction l as [|f l IH]; intros seen a z Hk Hr; [exists a, z; rewrite app_nil_r; by split|]. pose proof Hr as [(fa & Ha & Ea) (fz & Hz & Ez) Hall].
  assert (file_keys f ∧ file_keys fa ∧ file_keys fz) as ([K1 K2] & [K3 _] & [_ K4]) by (rewrite list.Forall_forall in Hk; split_and!; apply Hk, elem_of_app; [right; by left|by left|by left]).
  cbn [range_loop]. rewrite Ea, Ez, !keys_ok by done. unfold mbind, res_bind. rewrite <- Ea, <- Ez.
  replace (seen ++ f :: l) with ((seen ++ [f]) ++ l) in * by by rewrite <- app_assoc. apply (IH (seen ++ [f])); [done|]. split.
  - destruct (_ <? 0); [exists f; split; [apply elem_of_app; right; by left|done]|exists fa; split; [apply elem_of_app; by left|done]].
  - destruct (0 <? _); [exists f; split; [apply elem_of_app; right; by left|done]|exists fz; split; [apply elem_of_app; by left|done]].
  - intros g Hg. apply elem_of_app in Hg as [Hg| ->%list_elem_of_singleton].
    + destruct (Hall g Hg) as [H1 H2]. split.
      * destruct (Z.ltb_spec (kcmp (smallest (meta f)) a) 0); [|done]. eapply kcmp_le_trans; [|exact H1]. lia.
      * destruct (Z.ltb_spec 0 (kcmp (largest (meta f)) z)) as [L|L]; [|done]. eapply kcmp_le_trans; [exact H2|]. apply kcmp_neg. lia.
    + split.
      * destruct (Z.ltb_spec (kcmp (smallest (meta f)) a) 0); [rewrite cmp_refl; lia|]. apply kcmp_neg. lia.
      * destruct (Z.ltb_spec 0 (kcmp (largest (meta f)) z)); [rewrite cmp_refl; lia|done].
Qed.

Lemma GetRange_ok l : Forall file_keys l → l ≠ [] → ∃ a z, GetRange C l = Ok (a, z) ∧ range_of l a z ∧ ikey_ok a ∧ ikey_ok z.
Proof.
  intros Hk Hn. destruct l as [|f l]; [done|]. destruct (range_loop_ok l [f] (smallest (meta f)) (largest (meta f)) Hk) as (a & z & E & Hr).
  { split; [exists f; split; [by left|done]|exists f; split; [by left|done]|]. intros g ->%list_elem_of_singleton. rewrite !cmp_refl. lia. }
  exists a, z. split; [exact E|]. split; [exact Hr|]. rewrite list.Forall_forall in Hk. destruct Hr as [(g & Hg & ->) (g' & Hg' & ->) _].
  split; [apply (Hk g Hg)|apply (Hk g' Hg')].
Qed.

(** In user keys. *)
Lemma range_user l a z f : Forall file_keys l → range_of l a z → f ∈ l → ucmp (ukey a) (ukey (smallest (meta f))) <= 0 ∧ ucmp (ukey (largest (meta f))) (ukey z) <= 0.
Proof.
  intros Hk [(fa & Ha & ->) (fz & Hz & ->) Hall] Hf. rewrite list.Forall_forall in Hk. destruct (Hall f Hf) as [H1 H2].
  split; [apply (icmp_ukey ord); [apply (Hk fa Ha)|apply (Hk f Hf)|done]|apply (icmp_ukey ord); [apply (Hk f Hf)|apply (Hk fz Hz)|done]].
Qed.

(** ** Versions whose files do not share user keys *)

Record user_apart (files : list File) : Prop := {
  ua_range : Forall (λ f, ucmp (ukey (smallest (meta f))) (ukey (largest (meta f))) <= 0) files;
  ua_apart i j f g : files !! i = Some f → files !! j = Some g → (i < j)%nat → ucmp (ukey (largest (meta f))) (ukey (smallest (meta g))) < 0
}.
Record levels_apart v : Prop := {
  la_levels : length (files_ v) = 7%nat;
  la_keys l files : files_ v !! l = Some files → Forall file_keys files ∧ Forall (λ f, ucmp (ukey (smallest (meta f))) (ukey (largest (meta f))) <= 0) files;
  la_apart l files : files_ v !! S l = Some files → user_apart files
}.

(** All keys of [f] are before those of [g]. *)
Definition below f g : Prop := ucmp (ukey (largest (meta f))) (ukey (smallest (meta g))) < 0.

Lemma user_apart_either files f g : user_apart files → f ∈ files → g ∈ files → f ≠ g → below f g ∨ below g f.
Proof.
  intros [_ Ha] [i Hi]%list_elem_of_lookup_1 [j Hj]%list_elem_of_lookup_1 N. destruct (Nat.lt_trichotomy i j) as [L|[->|L]].
  - left. by apply (Ha i j).
  - rewrite Hi in Hj. by injection Hj as <-.
  - right. by apply (Ha j i).
Qed.

Lemma not_touching b e f : ¬ touches ord (Some b) (Some e) f → ucmp (ukey (largest (meta f))) b < 0 ∨ ucmp e (ukey (smallest (meta f))) < 0.
Proof.
  intros Hn. destruct (Z.lt_ge_cases (ucmp e (ukey (smallest (meta f)))) 0) as [L|L]; [by right|]. left.
  destruct (Z.le_gt_cases (ucmp b (ukey (largest (meta f)))) 0) as [L'|L']; [|by apply (ucmp_swap C valid ord)]. destruct Hn. split; by intros ? [= <-].
Qed.

Lemma overlapping_in b e l f : f ∈ overlapping ord b e l ↔ f ∈ l ∧ touches ord b e f.
Proof. unfold overlapping. rewrite !list_elem_of_In, filter_In, bool_decide_eq_true. done. Qed.

(** What has to hold of the files of a compaction. *)
Record closed v (level : nat) (i0 i1 : list File) : Prop := {
  cl_some : i0 ≠ [];
  cl_inputs0 : ∃ files, files_ v !! level = Some files ∧ i0 ⊆ files ∧ ∀ f g, f ∈ files → f ∉ i0 → g ∈ i0 → below f g ∨ below g f;
  cl_inputs1 : ∃ files, files_ v !! S level = Some files ∧ i1 ⊆ files ∧
    ∀ f, f ∈ files → f ∉ i1 → (∀ g, g ∈ i0 ++ i1 → below f g) ∨ (∀ g, g ∈ i0 ++ i1 → below g f)
}.

(** The files of the next level. *)
Lemma next_inputs_closed files i0 a z : user_apart files → Forall file_keys i0 → range_of i0 a z → ikey_ok a → ikey_ok z →
  let i1 := overlapping ord (Some (ukey a)) (Some (ukey z)) files in
  i1 ⊆ files ∧ ∀ f, f ∈ files → f ∉ i1 → (∀ g, g ∈ i0 ++ i1 → below f g) ∨ (∀ g, g ∈ i0 ++ i1 → below g f).
Proof.
  intros Hu Hk Hr Hka Hkz i1. split; [by intros f [? _]%overlapping_in|]. intros f Hf Hn.
  assert (¬ touches ord (Some (ukey a)) (Some (ukey z)) f) as Ht by (intros Ht; by apply Hn, overlapping_in).
  pose proof (ua_range _ Hu) as Hrange. rewrite list.Forall_forall in Hrange. pose proof (Hrange f Hf) as Hff.
  assert (∀ x y w, ucmp x y <= 0 → ucmp y w < 0 → ucmp x w < 0) as Hlt.
  { intros x y w L1 L2. destruct (Z.eq_dec (ucmp x y) 0) as [E|N]; [by apply (cmp_eq x y w)|apply (cmp_trans x y w); [lia|done]]. }
  assert (∀ x y w, ucmp x y < 0 → ucmp y w <= 0 → ucmp x w < 0) as Hlt'.
  { intros x y w L1 L2. destruct (Z.eq_dec (ucmp y w) 0) as [E|N]; [by apply (cmp_eq_r (H0 := uorder) x y w)|apply (cmp_trans x y w); [done|lia]]. }
  apply not_touching in Ht as [L|L]; [left|right]; intros g Hg; apply elem_of_app in Hg as [Hg|[Hg [T1 T2]]%overlapping_in].
  - destruct (range_user i0 a z g Hk Hr Hg) as [R1 _]. by apply (Hlt' _ (ukey a)).
  - destruct (user_apart_either files f g Hu Hf Hg) as [B|B]; [intros ->; by apply Hn, overlapping_in|done|]. exfalso.
    specialize (T1 _ eq_refl). apply (ucmp_neg C valid ord) in T1. pose proof (Hlt' _ _ _ B Hff) as Q. pose proof (cmp_trans _ _ _ Q L). lia.
  - destruct (range_user i0 a z g Hk Hr Hg) as [_ R2]. by apply (Hlt _ (ukey z)).
  - destruct (user_apart_either files f g Hu Hf Hg) as [B|B]; [intros ->; by apply Hn, overlapping_in| |done]. exfalso.
    specialize (T2 _ eq_refl). pose proof (Hlt _ _ _ Hff B) as Q. pose proof (cmp_trans _ _ _ L Q). lia.
Qed.

(** The files of the level itself. *)
Lemma level_inputs_closed level files i0 : (if (level =? 0)%nat then ∃ b e, level0_inputs ord b e files i0 else user_apart files ∧ i0 ⊆ files) →
  i0 ⊆ files ∧ ∀ f g, f ∈ files → f ∉ i0 → g ∈ i0 → below f g ∨ below g f.
Proof.
  destruct (level =? 0)%nat.
  - intros (b & e & b' & e' & _ & -> & Hw). split; [by intros f [? _]%overlapping_in|]. intros f g Hf Hn Hg.
    assert (¬ touches ord b' e' f) as Ht by (intros Ht; by apply Hn, overlapping_in). rewrite list.Forall_forall in Hw. destruct (Hw g Hg) as [W1 W2].
    unfold below. destruct (Z.lt_ge_cases (ucmp (ukey (largest (meta f))) (ukey (smallest (meta g)))) 0) as [|L1]; [by left|].
    destruct (Z.lt_ge_cases (ucmp (ukey (largest (meta g))) (ukey (smallest (meta f)))) 0) as [|L2]; [by right|]. exfalso. apply Ht. split.
    + intros k ->. cbn in W1. apply Z.ltb_ge in W1. apply (ucmp_neg C valid ord) in W1, L1. by eapply (ucmp_le_trans C valid ord).
    + intros k ->. cbn in W2. apply Z.ltb_ge in W2. apply (ucmp_neg C valid ord), (ucmp_le_trans C valid ord _ (ukey (largest (meta g)))); [by apply (ucmp_neg C valid ord)|done].
  - intros [Hu Hi]. split; [done|]. intros f g Hf Hn Hg. apply (user_apart_either files); [done|done|by apply Hi|]. intros ->. done.
Qed.

(** ** Sizes *)

Definition fsize f : Z := file_size (meta f).
#[local] Arguments fsize : simpl never.
Fixpoint total (files : list File) : Z := match files with [] => 0 | f :: files => fsize f + total files end.
Definition small_sizes files : Prop := Forall (λ f, 0 <= fsize f) files ∧ total files < 2 ^ 62.

Lemma TotalFileSize_ok files : small_sizes files → TotalFileSize files = total files ∧ 0 <= total files.
Proof.
  intros [Hn Ht]. unfold TotalFileSize. assert (∀ l n, Forall (λ f, 0 <= fsize f) l → 0 <= n → n + total l < 2 ^ 62 → foldl (λ sum f, s64 (sum + fsize f)) n l = n + total l ∧ 0 <= total l) as H.
  { intros l. induction l as [|f l IH]; intros n Hl H0 L; cbn in *; [lia|]. apply list.Forall_cons in Hl as [Hf Hl].
    assert (0 <= total l) as H1. { clear -Hl. induction Hl; cbn in *; lia. }
    assert (s64 (n + fsize f) = n + fsize f) as -> by (apply swrap_small; lia). destruct (IH (n + fsize f) Hl) as [-> _]; lia. }
  destruct (H files 0 Hn) as [H1 H2]; [lia..|]. split; [exact H1|done].
Qed.

Lemma small_filter p files : small_sizes files → small_sizes (List.filter p files).
Proof.
  intros [Hn Ht]. assert (Forall (λ f, 0 <= fsize f) (List.filter p files) ∧ total (List.filter p files) <= total files) as [H1 H2]; [|split; [done|lia]].
  clear Ht. induction Hn as [|f files Hf Hn [IH1 IH2]]; [by split|]. cbn. destruct (p f); cbn; split; try lia; [by constructor|done].
Qed.

(** ** The files of both levels

    The first files are chosen from a level. *)
Record chosen v (level : nat) (i0 : list File) : Prop := {
  ch_some : i0 ≠ [];
  ch_files : ∃ files, files_ v !! level = Some files ∧ if (level =? 0)%nat then ∃ b e, level0_inputs ord b e files i0 else i0 ⊆ files
}.

Lemma chosen_sub v level i0 files : chosen v level i0 → files_ v !! level = Some files → i0 ⊆ files.
Proof.
  intros [_ (files' & Hf & H)] Hl. rewrite Hl in Hf. injection Hf as <-. destruct (level =? 0)%nat; [|done].
  destruct H as (b & e & b' & e' & _ & -> & _). by intros f [? _]%overlapping_in.
Qed.
Lemma keys_sub i0 files : i0 ⊆ files → Forall file_keys files → Forall file_keys i0.
Proof. intros Hs Hk. rewrite list.Forall_forall in *. intros f Hf. by apply Hk, Hs. Qed.

Lemma level_lookup v (l : nat) : levels_apart v → (l < 7)%nat → ∃ files, files_ v !! l = Some files ∧ Forall file_keys files.
Proof.
  intros Hv Hl. destruct (lookup_lt_is_Some_2 (files_ v) l) as [files Hf]; [rewrite (la_levels _ Hv); lia|]. exists files. split; [done|]. by apply (la_keys _ Hv l).
Qed.

Lemma chosen_keys v level i0 : levels_apart v → (level < 7)%nat → chosen v level i0 → Forall file_keys i0.
Proof. intros Hv Hl Hc. destruct (level_lookup v level Hv Hl) as (files & Hf & Hk). eapply keys_sub; [|exact Hk]. by eapply chosen_sub. Qed.

Lemma touches_widens b e b' e' f : widens ord b e b' e' → touches ord b e f → touches ord b' e' f.
Proof.
  intros [W1 W2] [T1 T2]. split.
  - intros k ->. destruct b as [b|]; [|done]. eapply (ucmp_le_trans C valid ord); [exact W1|]. by apply T1.
  - intros k ->. destruct e as [e|]; [|done]. apply (ucmp_neg C valid ord), (ucmp_le_trans C valid ord _ e); [|exact W2]. apply (ucmp_neg C valid ord). by apply T2.
Qed.

Lemma overlapping_chosen v (level : nat) a z : levels_apart v → (level < 7)%nat → ikey_ok a → ikey_ok z →
  ∃ files inputs, files_ v !! level = Some files ∧ GetOverlappingInputs C v (Z.of_nat level) (Some a) (Some z) = Ok inputs ∧
    (inputs ≠ [] → chosen v level inputs) ∧ (∃ p, inputs = List.filter p files) ∧
    (∀ f, f ∈ files → touches ord (Some (ukey a)) (Some (ukey z)) f → f ∈ inputs) ∧
    ((0 < level)%nat → inputs = overlapping ord (Some (ukey a)) (Some (ukey z)) files).
Proof.
  intros Hv Hl Ha Hz. destruct (level_lookup v level Hv Hl) as (files & Hf & Hk).
  destruct (GetOverlappingInputs_ok C valid ord v (Z.of_nat level) files (Some a) (Some z)) as (inputs & E & Hi); [split; [lia|]; by apply (inj_lt level 7)|by rewrite Nat2Z.id|done..|].
  exists files, inputs. split; [done|]. split; [done|]. destruct level as [|level]; cbn in Hi.
  - pose proof Hi as (b & e & Hw & -> & Hin). split; [|split; [by eexists|split; [|lia]]].
    + intros N. split; [done|]. exists files. split; [done|]. by exists (Some (ukey a)), (Some (ukey z)).
    + intros f Hff Ht. apply overlapping_in. split; [done|]. by apply (touches_widens (Some (ukey a)) (Some (ukey z))).
  - rewrite Hi. split; [|split; [by eexists|split; [|done]]].
    + intros N. split; [done|]. exists files. split; [done|]. by intros f [? _]%overlapping_in.
    + intros f Hff Ht. by apply overlapping_in.
Qed.

(** The files of the next level are those that the range of the first files touches. *)
Record pair_ok v (level : nat) (i0 i1 : list File) (a z : bytes) : Prop := {
  po_chosen : chosen v level i0;
  po_range : range_of i0 a z;
  po_keys : ikey_ok a ∧ ikey_ok z;
  po_next : ∃ next, files_ v !! S level = Some next ∧ i1 = overlapping ord (Some (ukey a)) (Some (ukey z)) next
}.

Lemma pair_closed v level i0 i1 a z : levels_apart v → (level < 6)%nat → pair_ok v level i0 i1 a z → closed v level i0 i1.
Proof.
  intros Hv Hl [Hc Hr [Ha Hz] (next & Hn & ->)]. pose proof (chosen_keys v level i0 Hv ltac:(lia) Hc) as Hk. split; [apply (ch_some _ _ _ Hc)| |].
  - destruct (ch_files _ _ _ Hc) as (files & Hf & H). exists files. split; [done|]. apply (level_inputs_closed level). destruct level as [|level]; [exact H|]. split; [|exact H]. by apply (la_apart v Hv level).
  - exists next. split; [done|]. apply next_inputs_closed; [by apply (la_apart v Hv level)|done..].
Qed.

Lemma pair_keys v level i0 i1 a z : levels_apart v → (level < 6)%nat → pair_ok v level i0 i1 a z → Forall file_keys (i0 ++ i1) ∧ i0 ++ i1 ≠ [].
Proof.
  intros Hv Hl [Hc Hr _ (next & Hn & ->)]. split; [|intros [E _]%app_eq_nil; by apply (ch_some _ _ _ Hc)]. apply List.Forall_app. split; [by apply (chosen_keys v level); [|lia|]|].
  eapply keys_sub; [|apply (la_keys v Hv (S level) next Hn)]. by intros f [? _]%overlapping_in.
Qed.

(** Files are in their range. *)
Lemma range_touches l a z f : Forall file_keys l → range_of l a z → ucmp (ukey (smallest (meta f))) (ukey (largest (meta f))) <= 0 → f ∈ l → touches ord (Some (ukey a)) (Some (ukey z)) f.
Proof.
  intros Hk Hr Hf Hin. destruct (range_user l a z f Hk Hr Hin) as [H1 H2]. split; intros ? [= <-].
  - by eapply (ucmp_le_trans C valid ord).
  - apply (ucmp_neg C valid ord). by eapply (ucmp_le_trans C valid ord).
Qed.

Lemma touching_chosen v (level : nat) i0 l a z : levels_apart v → (level < 7)%nat → chosen v level i0 → i0 ⊆ l → Forall file_keys l → range_of l a z → ikey_ok a → ikey_ok z →
  ∃ files inputs, files_ v !! level = Some files ∧ GetOverlappingInputs C v (Z.of_nat level) (Some a) (Some z) = Ok inputs ∧ chosen v level inputs ∧ i0 ⊆ inputs ∧ ∃ p, inputs = List.filter p files.
Proof.
  intros Hv Hl Hc Hs Hk Hr Ha Hz. destruct (overlapping_chosen v level a z Hv Hl Ha Hz) as (files & inputs & Hf & E & H1 & H2 & H3 & _).
  destruct (la_keys v Hv level files Hf) as [_ Hrange]. rewrite list.Forall_forall in Hrange. pose proof (chosen_sub v level i0 files Hc Hf) as Hsub.
  assert (i0 ⊆ inputs) as Hi. { intros f Hin. apply H3; [by apply Hsub|]. apply (range_touches l); [done|done|by apply Hrange, Hsub|by apply Hs]. }
  exists files, inputs. split_and!; [done..| |done|done]. apply H1. intros ->. apply (ch_some _ _ _ Hc). destruct i0 as [|f i0]; [done|]. exfalso. apply (not_elem_of_nil f), Hi. by left.
Qed.

Lemma set_inputs_id c : set_inputs c (inputs0 c) (inputs1 c) = c.
Proof. by destruct c. Qed.

Lemma expand_ok m v c (level : nat) a z a' z' : levels_apart v → (∀ l files, files_ v !! l = Some files → small_sizes files) → 0 <= m → 25 * m < 2 ^ 31 →
  (level < 6)%nat → level_ c = Z.of_nat level → pair_ok v level (inputs0 c) (inputs1 c) a z → range_of (inputs0 c ++ inputs1 c) a' z' → ikey_ok a' → ikey_ok z' →
  ∃ i0 i1 b y b' y', expand C m v c a z a' z' = Ok (set_inputs c i0 i1, y, b', y') ∧ inputs0 c ⊆ i0 ∧ pair_ok v level i0 i1 b y ∧ range_of (i0 ++ i1) b' y' ∧ ikey_ok b' ∧ ikey_ok y'.
Proof.
  intros Hv Hsz Hm0 Hm Hl Elev Hp Hr Ha' Hz'. unfold expand. set (r := Ok (c, z, a', z')).
  assert (∃ i0 i1 b y b' y', r = Ok (set_inputs c i0 i1, y, b', y') ∧ inputs0 c ⊆ i0 ∧ pair_ok v level i0 i1 b y ∧ range_of (i0 ++ i1) b' y' ∧ ikey_ok b' ∧ ikey_ok y') as Hsame.
  { exists (inputs0 c), (inputs1 c), a, z, a', z'. by rewrite set_inputs_id. }
  case_bool_decide as E1; [exact Hsame|]. destruct (pair_keys v level _ _ a z Hv Hl Hp) as [Hk _].
  destruct (touching_chosen v level (inputs0 c) (inputs0 c ++ inputs1 c) a' z' Hv ltac:(lia) (po_chosen _ _ _ _ _ _ Hp) ltac:(intros f; rewrite elem_of_app; by left) Hk Hr Ha' Hz') as (files & i0 & Hf & Ei & Hc & Hsub & p & Ep).
  rewrite Elev, Ei. unfold mbind, res_bind. destruct (po_next _ _ _ _ _ _ Hp) as (next & Hn & E2).
  destruct (TotalFileSize_ok i0) as [-> Z1]; [rewrite Ep; by apply small_filter, (Hsz level)|]. destruct (TotalFileSize_ok (inputs1 c)) as [-> Z2]; [rewrite E2; by apply small_filter, (Hsz (S level))|].
  assert (total i0 < 2 ^ 62 ∧ total (inputs1 c) < 2 ^ 62) as [Z3 Z4]. { split; [rewrite Ep; apply (small_filter p files (Hsz level files Hf))|rewrite E2; apply (small_filter _ next (Hsz (S level) next Hn))]. }
  unfold long_ok. rewrite (proj2 (Z.leb_le _ _)), (proj2 (Z.ltb_lt _ _)) by lia. cbn [andb]. unfold ExpandedCompactionByteSizeLimit, TargetFileSize, s32. rewrite swrap_small by lia.
  unfold int_product. rewrite (proj2 (Z.leb_le _ _)), (proj2 (Z.ltb_lt (25 * m) _)) by lia. cbn [andb].
  assert (∀ grow : bool, ∃ j0 j1 b y b' y', match (if grow then
      '(new_start, new_limit) ← GetRange C i0; expanded1 ← GetOverlappingInputs C v (Z.of_nat level + 1) (Some new_start) (Some new_limit);
      if (length expanded1 =? length (inputs1 c))%nat then '(all_start, all_limit) ← GetRange2 C i0 expanded1; Ok (set_inputs c i0 expanded1, new_limit, all_start, all_limit) else r
    else r) with Ok x => Ok x | UB => UB | NoFuel => NoFuel end = Ok (set_inputs c j0 j1, y, b', y') ∧ inputs0 c ⊆ j0 ∧ pair_ok v level j0 j1 b y ∧ range_of (j0 ++ j1) b' y' ∧ ikey_ok b' ∧ ikey_ok y') as Hgrow.
  { intros [|]; [|exact Hsame]. destruct (GetRange_ok i0 (chosen_keys v level i0 Hv ltac:(lia) Hc) (ch_some _ _ _ Hc)) as (b & y & Eg & Hr0 & Hb & Hy). rewrite Eg. unfold mbind, res_bind.
    replace (Z.of_nat level + 1) with (Z.of_nat (S level)) by lia. destruct (overlapping_chosen v (S level) b y Hv ltac:(lia) Hb Hy) as (next' & i1 & Hn' & E3 & _ & _ & _ & E4). rewrite E3.
    destruct (length i1 =? length (inputs1 c))%nat; [|exact Hsame]. unfold GetRange2. assert (pair_ok v level i0 i1 b y) as Hp'. { split; [done|done|done|]. exists next'. split; [done|]. apply E4. lia. }
    destruct (pair_keys v level i0 i1 b y Hv Hl Hp') as [Hk' Hne]. destruct (GetRange_ok (i0 ++ i1) Hk' Hne) as (b' & y' & Eg' & Hr' & Hb' & Hy'). rewrite Eg'.
    exists i0, i1, b, y, b', y'. by split_and!. }
  destruct (_ <? _)%nat.
  - match goal with |- context [if ?x then _ else r] => specialize (Hgrow x) end. destruct (_ <? _) in Hgrow |- *; destruct Hgrow as (j0 & j1 & b & y & b' & y' & Hg & Hrest); exists j0, j1, b, y, b', y'; (split; [|done]).
    + unfold mbind, res_bind in Hg. by repeat case_match.
    + done.
  - exact Hsame.
Qed.

(** ** The whole choice *)

Definition options_ok (m : Z) : Prop := 0 <= m ∧ 25 * m < 2 ^ 31.
Definition sizes_ok v : Prop := ∀ l files, files_ v !! l = Some files → small_sizes files.

(** A compaction of a level, from the files [i0] that were chosen first. *)
Record compacts v (level : nat) (i0 : list File) (c : Compaction) (k : bytes) : Prop := {
  cs_level : level_ c = Z.of_nat level;
  cs_closed : closed v level (inputs0 c) (inputs1 c);
  cs_chosen : i0 ⊆ inputs0 c;
  cs_pointer : ∃ a, range_of (inputs0 c) a k;
  cs_edit : edit_ c = VersionEdit.SetCompactPointer (level_ c) k VersionEdit.new;
  cs_grandparents files : files_ v !! S (S level) = Some files → ∃ a z, range_of (inputs0 c ++ inputs1 c) a z ∧ grandparents_ c = overlapping ord (Some (ukey a)) (Some (ukey z)) files
}.

Lemma SetupOtherInputs_ok m v c (s : VersionSet) (level : nat) : levels_apart v → sizes_ok v → options_ok m → (level < 6)%nat →
  current s = Ok v → level_ c = Z.of_nat level → edit_ c = VersionEdit.new → chosen v level (inputs0 c) →
  ∃ c' k, SetupOtherInputs C m c s = Ok (c', set_pointers s (<[level := k]> (compact_pointer_ s))) ∧ compacts v level (inputs0 c) c' k ∧ ikey_ok k ∧
    input_version_ c' = input_version_ c ∧ level_ptrs_ c' = level_ptrs_ c.
Proof.
  intros Hv Hsz [Hm0 Hm] Hl Hs Elev Eed Hc. unfold SetupOtherInputs. rewrite Hs. unfold mbind, res_bind. rewrite Elev.
  pose proof (chosen_keys v level _ Hv ltac:(lia) Hc) as Hk. destruct (GetRange_ok _ Hk (ch_some _ _ _ Hc)) as (a & z & E1 & Hr & Ha & Hz). rewrite E1.
  replace (Z.of_nat level + 1) with (Z.of_nat (S level)) by lia. destruct (overlapping_chosen v (S level) a z Hv ltac:(lia) Ha Hz) as (next & i1 & Hn & E2 & _ & _ & _ & E3). rewrite E2.
  set (c1 := set_inputs c (inputs0 c) i1). assert (pair_ok v level (inputs0 c1) (inputs1 c1) a z) as Hp. { split; [done..|]. exists next. split; [done|]. apply E3. lia. }
  destruct (pair_keys v level _ _ a z Hv Hl Hp) as [Hk' Hne]. unfold GetRange2. destruct (GetRange_ok _ Hk' Hne) as (a' & z' & E4 & Hr' & Ha' & Hz'). cbn [inputs0 inputs1 c1 set_inputs] in E4 |- *. rewrite E4.
  destruct (expand_ok m v c1 level a z a' z' Hv Hsz Hm0 Hm Hl Elev Hp Hr' Ha' Hz') as (i0 & i1' & b & y & b' & y' & E5 & Hsub & Hp' & Hr2 & Hb' & Hy'). fold c1. rewrite E5.
  change (set_inputs c1 i0 i1') with (set_inputs c i0 i1'). destruct (po_keys _ _ _ _ _ _ Hp') as [Hb Hy].
  assert (∃ c2, (if Z.of_nat level + 2 <? Config.kNumLevels then
      match GetOverlappingInputs C v (Z.of_nat level + 2) (Some b') (Some y') with Ok g => Ok (set_grandparents (set_inputs c i0 i1') g) | UB => UB | NoFuel => NoFuel end
      else Ok (set_inputs c i0 i1')) = Ok c2 ∧ level_ c2 = Z.of_nat level ∧ inputs0 c2 = i0 ∧ inputs1 c2 = i1' ∧ edit_ c2 = VersionEdit.new ∧ input_version_ c2 = input_version_ c ∧ level_ptrs_ c2 = level_ptrs_ c ∧
      ∀ files, files_ v !! S (S level) = Some files → grandparents_ c2 = overlapping ord (Some (ukey b')) (Some (ukey y')) files) as (c2 & E6 & L2 & I0 & I1 & D2 & V2 & P2 & Hg).
  { change Config.kNumLevels with 7. destruct (Z.ltb_spec (Z.of_nat level + 2) 7) as [L|L].
    - replace (Z.of_nat level + 2) with (Z.of_nat (S (S level))) by lia. destruct (overlapping_chosen v (S (S level)) b' y' Hv ltac:(lia) Hb' Hy') as (f2 & g & Hf2 & E6 & _ & _ & _ & E7).
      rewrite E6. eexists. split; [done|]. split_and!; [done..|]. intros files Hf. rewrite Hf2 in Hf. injection Hf as <-. apply E7. lia.
    - eexists. split; [done|]. split_and!; [done..|]. intros files Hf. apply lookup_lt_Some in Hf. rewrite (la_levels _ Hv) in Hf. lia. }
  rewrite E6. rewrite Encode_ok by done. rewrite (proj2 (Z.leb_le 0 _)), (proj2 (Z.ltb_lt (Z.of_nat level) _)) by (change Config.kNumLevels with 7; lia). cbn [andb]. rewrite Nat2Z.id.
  eexists _, y. split; [done|]. split; [split; cbn|]; rewrite ?I0, ?I1, ?D2, ?L2; [done|by eapply pair_closed|done|exists b; apply (po_range _ _ _ _ _ _ Hp')|done| |by split_and!].
  intros files Hf. exists b', y'. split; [done|by apply Hg].
Qed.

(** ** The file that is compacted next *)

Definition pointers_ok (s : VersionSet) : Prop := length (compact_pointer_ s) = 7%nat ∧ Forall (λ k, k = [] ∨ ikey_ok k) (compact_pointer_ s).

Lemma first_after_ok pointer files : pointer = [] ∨ ikey_ok pointer → Forall file_keys files → ∃ r, first_after C pointer files = Ok r ∧ ∀ g, r = Some g → g ∈ files.
Proof.
  intros Hp Hk. induction Hk as [|f files [_ K2] Hk (r & E & IH)]; [exists None; by split|]. cbn [first_after].
  assert (∃ t, (if Slice.empty pointer then Ok true else l ← Internal.Encode (largest (meta f)); c ← icmp C l pointer; Ok (0 <? c)) = Ok t) as [t Et].
  { destruct Hp as [->|Hp]; [by eexists|]. destruct (Slice.empty pointer); [by eexists|]. rewrite Encode_ok by done. unfold mbind, res_bind. rewrite (icmp_ok C valid ord) by done. by eexists. }
  rewrite Et. unfold mbind, res_bind. destruct t; [exists (Some f); split; [done|]; intros ? [= <-]; by left|]. exists r. split; [done|]. intros g Hg. right. by apply IH.
Qed.

(** What a version wants. *)
Definition wants_seek v : Prop := ∀ f, file_to_compact_ v = Some f → 0 <= file_to_compact_level_ v < 6 ∧ ∃ files, files_ v !! Z.to_nat (file_to_compact_level_ v) = Some files ∧ f ∈ files.

Lemma pick_first_ok m v (s : VersionSet) : levels_apart v → compaction_ok v → wants_seek v → pointers_ok s →
  (pick_first C m v s = Ok None ∧ SpecFloat.SFleb (double_of 1) (compaction_score_ v) = false ∧ file_to_compact_ v = None) ∨
  ∃ (level : nat) f files, (level < 6)%nat ∧ pick_first C m v s = Ok (Some (set_inputs (new m (Z.of_nat level)) [f] [])) ∧ files_ v !! level = Some files ∧ f ∈ files ∧
    Z.of_nat level = if SpecFloat.SFleb (double_of 1) (compaction_score_ v) then compaction_level_ v else file_to_compact_level_ v.
Proof.
  intros Hv Hc Hw [Hp7 Hp]. unfold pick_first. destruct (SpecFloat.SFleb _ _) eqn:Es.
  - destruct (Hc Es) as (Hl & files & Hf & Hne). rewrite (proj2 (Z.leb_le 0 _)), (proj2 (Z.ltb_lt (compaction_level_ v + 1) _)) by (change Config.kNumLevels with 7; lia).
    cbn [SkipList.assert_]. unfold mbind, res_bind, level_files. rewrite Hf. cbn [of_option].
    destruct (lookup_lt_is_Some_2 (compact_pointer_ s) (Z.to_nat (compaction_level_ v))) as [k Hk]; [lia|]. rewrite Hk. cbn [of_option].
    destruct (la_keys v Hv _ files Hf) as [Hfk _]. destruct (first_after_ok k files) as (r & E & Hr); [by apply (proj1 (list.Forall_lookup _ _) Hp _ _ Hk)|done|]. rewrite E. right.
    assert (∃ f, match r with Some f => Ok f | None => of_option (head files) end = Ok f ∧ f ∈ files) as (f & Ef & Hin).
    { destruct r as [f|]; [exists f; split; [done|by apply Hr]|]. destruct files as [|f files]; [done|]. exists f. split; [done|by left]. }
    rewrite Ef. exists (Z.to_nat (compaction_level_ v)), f, files. rewrite Z2Nat.id by lia. split; [lia|]. by split_and!.
  - destruct (file_to_compact_ v) as [f|] eqn:Ef; [|by left]. right. destruct (Hw f Ef) as (Hl & files & Hf & Hin).
    exists (Z.to_nat (file_to_compact_level_ v)), f, files. rewrite Z2Nat.id by lia. split; [lia|]. by split_and!.
Qed.
End compaction.
End InputProps.
Export InputProps.

(** * The compactions that a set of versions proposes *)
Module PickProps.
Import Version VersionSet Compaction.

Section pick.
Context (C : SliceComparator) (valid : bytes → Prop) (ord : Comparator bytes) `{!Lawful C (λ _, True) valid ord}.
Implicit Types (f g : File) (files : list File) (v : Version).

(** What is needed of the set: version [p] is the current one. *)
Record ready (m : Z) (s : VersionSet) (pins : list nat) (p : nat) v : Prop := {
  re_set : set_ok s [] pins;
  re_pins : Z.of_nat (S (length pins)) < 2 ^ 31 - 1;
  re_current : current_ s = Some p;
  re_version : versions s !! p = Some v;
  re_levels : levels_apart ord v;
  re_sizes : sizes_ok v;
  re_options : options_ok m;
  re_score : compaction_ok v;
  re_seek : wants_seek v;
  re_pointers : pointers_ok s
}.

(** What a proposed compaction does with the set. *)
Record proposed (s : VersionSet) (pins : list nat) (p : nat) v (level : nat) (i0 : list File) (c : Compaction) (s' : VersionSet) : Prop := {
  pr_compacts : ∃ k, compacts ord v level i0 c k ∧ ikey_ok k ∧ compact_pointer_ s' = <[level := k]> (compact_pointer_ s);
  pr_version : input_version_ c = Some p;
  pr_ptrs : level_ptrs_ c = replicate 7 0;
  pr_set : set_ok s' [] (p :: pins);
  pr_current : current_ s' = Some p;
  pr_files : versions s' !! p = Some (with_refs v (refs_ v + 1));
  pr_release : ∃ s'', ReleaseInputs c s' = Ok (set_input_version c None, s'') ∧ set_ok s'' [] pins
}.

Lemma set_pointers_ok s extra pins l : set_ok s extra pins → set_ok (set_pointers s l) extra pins.
Proof. intros [H1 H2 H3 H4 H5 H6]. by split. Qed.

Lemma compacts_sub v level i0 i0' c k : i0' ⊆ i0 → compacts ord v level i0 c k → compacts ord v level i0' c k.
Proof. intros Hs [H1 H2 H3 H4 H5]. split; [done..| |done|done|done]. intros f Hf. by apply H3, Hs. Qed.

Lemma setup_proposed m s pins p v (level : nat) i0 : ready m s pins p v → (level < 6)%nat → chosen ord v level i0 →
  ∃ s1, Ref s p = Ok s1 ∧ current s1 = Ok (with_refs v (refs_ v + 1)) ∧
    ∃ c s', SetupOtherInputs C m (set_inputs (set_input_version (new m (Z.of_nat level)) (Some p)) i0 []) s1 = Ok (c, s') ∧ proposed s pins p v level i0 c s'.
Proof.
  intros Hre Hl Hc. destruct (Ref_version_ok s [] pins p v (re_set _ _ _ _ _ Hre) (re_version _ _ _ _ _ Hre)) as (s1 & E1 & Hs1 & Hb & Eo & El & Ev); [apply (re_pins _ _ _ _ _ Hre)|].
  assert (current s1 = Ok (with_refs v (refs_ v + 1))) as Ecur.
  { unfold current, version. rewrite (sb_current _ _ _ Hb), (re_current _ _ _ _ _ Hre). unfold mbind, res_bind. cbn [of_option]. by rewrite Ev. }
  exists s1. split; [done|]. split; [done|]. set (v1 := with_refs v (refs_ v + 1)) in *.
  assert (levels_apart ord v1) as Hla by (destruct (re_levels _ _ _ _ _ Hre) as [H1 H2 H3]; by split).
  destruct (SetupOtherInputs_ok C valid ord m v1 (set_inputs (set_input_version (new m (Z.of_nat level)) (Some p)) i0 []) s1 level Hla (re_sizes _ _ _ _ _ Hre) (re_options _ _ _ _ _ Hre) Hl Ecur eq_refl eq_refl) as (c & k & E & Hco & Hk & Eiv & Elp).
  { destruct Hc as [H1 H2]. by split. }
  eexists c, _. split; [exact E|]. assert (input_version_ c = Some p) as Eiv' by done. split; [|done|done|by apply set_pointers_ok| |done|].
  - exists k. split; [destruct Hco as [H1 [H2 H3 H4] H5 H6 H7 H8]; by repeat split|]. split; [done|]. cbn. by rewrite (sb_pointers _ _ _ Hb).
  - cbn. by rewrite (sb_current _ _ _ Hb), (re_current _ _ _ _ _ Hre).
  - unfold ReleaseInputs. rewrite Eiv'. unfold mbind, res_bind. destruct (Unref_ok _ [] pins p (set_pointers_ok s1 [] _ (<[level := k]> (compact_pointer_ s1)) Hs1)) as (s2 & E2 & Hs2 & _). rewrite E2. by exists s2.
Qed.

Lemma NeedsCompaction_ok m s pins p v : ready m s pins p v →
  NeedsCompaction s = Ok (SpecFloat.SFleb (double_of 1) (compaction_score_ v) || match file_to_compact_ v with Some _ => true | None => false end).
Proof. intros Hre. unfold NeedsCompaction, current, version. rewrite (re_current _ _ _ _ _ Hre). unfold mbind, res_bind. cbn [of_option]. by rewrite (re_version _ _ _ _ _ Hre). Qed.

Lemma PickCompaction_ok m s pins p v : ready m s pins p v →
  (NeedsCompaction s = Ok false ∧ PickCompaction C m s = Ok (None, s)) ∨
  NeedsCompaction s = Ok true ∧ ∃ (level : nat) f files c s', (level < 6)%nat ∧ files_ v !! level = Some files ∧ f ∈ files ∧
    Z.of_nat level = (if SpecFloat.SFleb (double_of 1) (compaction_score_ v) then compaction_level_ v else file_to_compact_level_ v) ∧
    PickCompaction C m s = Ok (Some c, s') ∧ proposed s pins p v level [f] c s'.
Proof.
  intros Hre. rewrite (NeedsCompaction_ok _ _ _ _ _ Hre). unfold PickCompaction, version. rewrite (re_current _ _ _ _ _ Hre). unfold mbind, res_bind. cbn [of_option].
  rewrite (re_version _ _ _ _ _ Hre). cbn [of_option].
  destruct (pick_first_ok C valid ord m v s (re_levels _ _ _ _ _ Hre) (re_score _ _ _ _ _ Hre) (re_seek _ _ _ _ _ Hre) (re_pointers _ _ _ _ _ Hre)) as [(E & -> & ->)|(level & f & files & Hl & E & Hf & Hin & Elev)]; rewrite E; [by left|].
  right. split; [unfold pick_first in E; destruct (SpecFloat.SFleb _ _); [done|]; by destruct (file_to_compact_ v)|].
  destruct (la_keys _ _ (re_levels _ _ _ _ _ Hre) level files Hf) as [Hk Hrange]. rewrite list.Forall_forall in Hk, Hrange. exists level, f, files.
  destruct (Nat.eq_dec level 0%nat) as [->|N].
  - assert (Forall file_keys [f]) as Hkf by by apply Forall_singleton, Hk. destruct (GetRange_ok C valid ord [f] Hkf ltac:(done)) as (a & z & Eg & Hr & Ha & Hz).
    destruct (overlapping_chosen C valid ord v 0%nat a z (re_levels _ _ _ _ _ Hre) ltac:(lia) Ha Hz) as (files' & i0 & Hf' & Ei & Hch & _ & Htouch & _). rewrite Hf in Hf'. injection Hf' as <-.
    assert (f ∈ i0) as Hfi. { apply Htouch; [done|]. apply (range_touches C valid ord [f]); [done|done|by apply Hrange|by left]. }
    assert (i0 ≠ []) as Hne by (intros ->; by apply not_elem_of_nil in Hfi).
    destruct (setup_proposed m s pins p v 0%nat i0 Hre Hl (Hch Hne)) as (s1 & E1 & Ecur & c & s' & E2 & Hp). exists c, s'. do 4 (split; [done|]). split.
    + rewrite E1. cbn [set_input_version set_inputs level_ new inputs0]. change (Z.of_nat 0 =? 0) with true. cbn iota. rewrite Eg. change (Z.of_nat 0) with 0 in Ei. rewrite Ei. rewrite bool_decide_false by done. cbn [negb SkipList.assert_].
      change (set_inputs _ i0 (inputs1 _)) with (set_inputs (set_input_version (new m (Z.of_nat 0)) (Some p)) i0 []). by rewrite E2.
    + destruct Hp as [(k & Hc & Hk' & Ep) H2 H3 H4 H5 H6 H7]. split; [exists k; split; [|done]|done..]. apply (compacts_sub v 0%nat i0); [|done]. by intros g ->%list_elem_of_singleton.
  - destruct (setup_proposed m s pins p v level [f] Hre Hl) as (s1 & E1 & Ecur & c & s' & E2 & Hp).
    { split; [done|]. exists files. split; [done|]. rewrite (proj2 (Nat.eqb_neq _ _)) by done. by intros g ->%list_elem_of_singleton. }
    exists c, s'. do 4 (split; [done|]). split; [|done]. rewrite E1.
    change (set_input_version (set_inputs (new m (Z.of_nat level)) [f] []) (Some p)) with (set_inputs (set_input_version (new m (Z.of_nat level)) (Some p)) [f] []).
    change (level_ (set_inputs _ [f] [])) with (Z.of_nat level). rewrite (proj2 (Z.eqb_neq _ 0)) by lia. by rewrite E2.
Qed.

(** ** A range *)

Lemma up_to_ok limit l : ∀ t, (∃ rest, l = up_to limit t l ++ rest) ∧ (l ≠ [] → up_to limit t l ≠ []).
Proof.
  induction l as [|f l IH]; intros t; [split; [by exists []|done]|]. cbn [up_to]. destruct (_ <=? _); [split; [by exists l|done]|].
  destruct (IH (u64 (t + file_size (meta f)))) as [[rest E] _]. split; [|done]. exists rest. cbn. by rewrite <- E.
Qed.

Lemma CompactRange_ok m s pins p v (level : nat) b e : ready m s pins p v → (level < 6)%nat → bound_ok b → bound_ok e →
  ∃ files, files_ v !! level = Some files ∧
    ((∀ f, f ∈ files → ¬ touches ord (ukey <$> b) (ukey <$> e) f) ∧ CompactRange C m (Z.of_nat level) b e s = Ok (None, s) ∨
     ∃ i0 c s', CompactRange C m (Z.of_nat level) b e s = Ok (Some c, s') ∧ proposed s pins p v level i0 c s' ∧
       if (level =? 0)%nat then ∀ f, f ∈ files → touches ord (ukey <$> b) (ukey <$> e) f → f ∈ i0 else ∃ rest, overlapping ord (ukey <$> b) (ukey <$> e) files = i0 ++ rest).
Proof.
  intros Hre Hl Hb He. destruct (level_lookup ord v level (re_levels _ _ _ _ _ Hre) ltac:(lia)) as (files & Hf & Hk). exists files. split; [done|].
  unfold CompactRange, version. rewrite (re_current _ _ _ _ _ Hre). unfold mbind, res_bind. cbn [of_option]. rewrite (re_version _ _ _ _ _ Hre). cbn [of_option].
  destruct (GetOverlappingInputs_ok C valid ord v (Z.of_nat level) files b e) as (inputs & E & Hi); [split; [lia|]; apply (inj_lt level 7); lia|by rewrite Nat2Z.id|done..|]. rewrite E.
  assert (∀ f, f ∈ files → touches ord (ukey <$> b) (ukey <$> e) f → f ∈ inputs) as Hin.
  { destruct level as [|level]; cbn in Hi; [|intros f Hff Ht; rewrite Hi; by apply overlapping_in]. destruct Hi as (b' & e' & Hw & -> & _). intros f Hff Ht. apply overlapping_in. split; [done|].
    by apply (touches_widens C valid ord (ukey <$> b) (ukey <$> e)). }
  case_bool_decide as En; [left; split; [|done]; intros f Hff Ht; specialize (Hin f Hff Ht); rewrite En in Hin; by apply not_elem_of_nil in Hin|]. right.
  destruct (up_to_ok (MaxFileSizeForLevel m) inputs 0) as [[rest Er] Hne]. exists (if (level =? 0)%nat then inputs else up_to (MaxFileSizeForLevel m) 0 inputs).
  destruct (setup_proposed m s pins p v level (if (level =? 0)%nat then inputs else up_to (MaxFileSizeForLevel m) 0 inputs) Hre Hl) as (s1 & E1 & _ & c & s' & E2 & Hp).
  - split; [destruct level; [done|by apply Hne]|]. exists files. split; [done|]. destruct level as [|level]; cbn in Hi |- *; [by exists (ukey <$> b), (ukey <$> e)|]. intros f Hff.
    assert (f ∈ inputs) as Hx by (rewrite Er; apply elem_of_app; by left). rewrite Hi in Hx. by apply overlapping_in in Hx as [? _].
  - exists c, s'. split; [|split; [done|]].
    + rewrite E1. replace (0 <? Z.of_nat level) with (negb (level =? 0)%nat) by (destruct level; [done|symmetry; apply Z.ltb_lt; lia]).
      destruct (level =? 0)%nat; cbn [negb]; by rewrite E2.
    + destruct level as [|level]; cbn; [exact Hin|]. exists rest. cbn in Hi. by rewrite <- Hi.
Qed.
End pick.


(** Two files of level 1 with six megabytes each, and a file of level 2. *)
Definition example_file (a : nat) (n : Z) (x y : Z) : File := mkFilePtr a (mkFile 1 384 n 6291456 (internal [x] 513) (internal [y] 513)).
Definition example_level1 : list File := [example_file 0 7 97 98; example_file 1 8 100 101].
Definition example_levels : list (list File) := [[]; example_level1; [example_file 2 9 96 100]; []; []; []; []].
Definition example_score : SpecFloat.spec_float := Eval vm_compute in level_score 1 example_level1.
Definition example_picked : Version := mkVersion 1 example_levels None (-1) example_score 1.
Definition ones : gmap nat Z := <[0%nat := 1]> (<[1%nat := 1]> {[2%nat := 1]}).
Definition example_set : VersionSet :=
  mkSet 10 2 5 3 0 (mkObjects 3 ones ones) 1 {[0%nat := example_picked]} [0%nat] (Some 0%nat) (replicate 7 []).

Lemma example_set_ok : set_ok example_set [] [0%nat].
Proof.
  assert (all_files example_set = [example_file 0 7 97 98; example_file 1 8 100 101; example_file 2 9 96 100]) as Ea by (vm_compute; reflexivity). split; rewrite ?Ea; clear Ea; cbn [versions linked next_version example_set].
  - split.
    + intros a. cbn [refs_of objects example_set]. unfold ones. destruct a as [|[|[|a]]]; [by vm_compute..|]. by rewrite !lookup_insert_ne, lookup_singleton_ne by lia.
    + intros a. done.
    + intros f Hf. do 3 (apply elem_of_cons in Hf as [->|Hf]; [apply Nat.ltb_lt; reflexivity|]). exfalso. exact (not_elem_of_nil f Hf).
  - intros p. destruct (decide (0%nat = p)) as [<-|N]; [rewrite lookup_singleton_eq; split_and!; by vm_compute|]. rewrite lookup_singleton_ne by done. unfold pinned. cbn. by destruct p.
  - intros p [x [<- _]%lookup_singleton_Some]. lia.
  - split; [repeat constructor; by apply not_elem_of_nil|]. intros p. rewrite list_elem_of_singleton. split; [intros ->; by rewrite lookup_singleton_eq|]. by intros [x [<- _]%lookup_singleton_Some].
  - cbn. lia.
  - cbn. lia.
Qed.

End PickProps.
Export PickProps.

(** * What a compaction asks of the levels below it *)
Module KeyProps.
Import Version VersionSet Compaction.

Section keys.
Context (C : SliceComparator) (valid : bytes → Prop) (ord : Comparator bytes) `{!Lawful C (λ _, True) valid ord}.
#[local] Instance iord : Comparator bytes := internal_order ord.
#[local] Abbreviation kcmp := (@compare_ bytes iord).
#[local] Abbreviation ucmp := (@compare_ bytes ord).
Implicit Types (f g : File) (files : list File) (v : Version).
#[local] Instance iorder : Order bytes (H := iord).
Proof. exact (iord_order C valid ord). Qed.
#[local] Instance uorder : Order bytes (H := ord).
Proof. exact (uorder C valid ord). Qed.

(** ** [IsBaseLevelForKey] *)

(** The key is in the range of the file. *)
Definition in_range (k : bytes) f : bool := (0 <=? ucmp k (ukey (smallest (meta f)))) && (ucmp k (ukey (largest (meta f))) <=? 0).
Definition passed (k : bytes) f : Prop := ucmp (ukey (largest (meta f))) k < 0.

Lemma user_apart_tail f files : user_apart ord (f :: files) → user_apart ord files.
Proof.
  intros [H1 H2]. apply list.Forall_cons in H1 as [_ H1]. split; [done|]. intros i j g h Hi Hj L. apply (H2 (S i) (S j)); [done|done|lia].
Qed.
Lemma user_apart_drop n files : user_apart ord files → user_apart ord (drop n files).
Proof. revert files. induction n as [|n IH]; intros files Hu; [by rewrite drop_0|]. destruct files as [|f files]; [done|]. apply IH. by eapply user_apart_tail. Qed.

Lemma later_out_of_range k f files : user_apart ord (f :: files) → ucmp k (ukey (largest (meta f))) <= 0 → existsb (in_range k) files = false.
Proof.
  intros [_ Hu] L. apply not_true_iff_false. intros (g & Hg & Hr)%existsb_exists. apply list_elem_of_In, list_elem_of_lookup_1 in Hg as [i Hi].
  specialize (Hu 0%nat (S i) f g eq_refl Hi ltac:(lia)). unfold in_range in Hr. apply andb_true_iff in Hr as [Hr _]. apply Z.leb_le in Hr.
  apply (ucmp_neg C valid ord) in Hr. pose proof (ucmp_le_trans C valid ord _ _ _ Hr L) as H. apply (ucmp_neg C valid ord) in H. lia.
Qed.

Lemma base_loop_ok k files : ∀ ptr, user_apart ord files → Forall file_keys files → 0 <= ptr → ptr + Z.of_nat (length files) < 2 ^ 64 →
  ∃ n, base_loop C k files ptr = Ok (existsb (in_range k) files, ptr + Z.of_nat n) ∧ (n <= length files)%nat ∧ Forall (passed k) (take n files).
Proof.
  induction files as [|f files IH]; intros ptr Hu Hk H0 Hn; [exists O; rewrite Z.add_0_r; by split_and!|]. apply list.Forall_cons in Hk as [[K1 K2] Hk]. cbn [length] in Hn.
  cbn [base_loop]. rewrite (user_key_ok (largest (meta f))) by done. unfold mbind, res_bind. rewrite (ucmp_ok C valid ord). destruct (Z.leb_spec (ucmp k (ukey (largest (meta f)))) 0) as [L|L].
  - rewrite user_key_ok by done. rewrite (ucmp_ok C valid ord). exists O. rewrite Z.add_0_r. split; [|split; [lia|constructor]]. cbn [existsb]. rewrite (later_out_of_range k f files Hu L), orb_false_r.
    unfold in_range. by rewrite (proj2 (Z.leb_le _ _) L), andb_true_r.
  - rewrite u64_small by lia. destruct (IH (ptr + 1) (user_apart_tail f files Hu) Hk) as (n & E & Hle & Hp); [lia..|]. exists (S n). rewrite E.
    split; [|split; [cbn; lia|]].
    + cbn [existsb]. unfold in_range at 2. rewrite (proj2 (Z.leb_gt _ _) L), andb_false_r. do 2 f_equal. lia.
    + cbn. constructor; [|done]. unfold passed. by apply (ucmp_swap C valid ord).
Qed.

(** The positions are behind files whose keys are smaller. *)
Definition ptrs_ok v (first : nat) (ptrs : list Z) (k : bytes) : Prop :=
  length ptrs = 7%nat ∧ ∀ lvl files ptr, (first <= lvl)%nat → files_ v !! lvl = Some files → ptrs !! lvl = Some ptr →
    0 <= ptr <= Z.of_nat (length files) ∧ Forall (passed k) (take (Z.to_nat ptr) files).

Lemma ptrs_start v first k : ptrs_ok v first (replicate 7 0) k.
Proof. split; [done|]. intros lvl files ptr _ _ [-> _]%lookup_replicate. split; [lia|constructor]. Qed.
Lemma ptrs_later v first ptrs k k' : ucmp k k' <= 0 → ptrs_ok v first ptrs k → ptrs_ok v first ptrs k'.
Proof.
  intros L [Hl H]. split; [done|]. intros lvl files ptr H1 H2 H3. destruct (H lvl files ptr H1 H2 H3) as [H4 H5]. split; [done|].
  eapply list.Forall_impl; [exact H5|]. intros f Hf. unfold passed in *. destruct (Z.eq_dec (ucmp k k') 0) as [E|N]; [by apply (cmp_eq_r (H0 := uorder) _ k)|]. apply (cmp_trans (Order := uorder) _ k); [done|lia].
Qed.

Lemma base_levels_ok v k first : levels_apart ord v → (∀ l files, files_ v !! l = Some files → Z.of_nat (length files) < 2 ^ 31) → (0 < first)%nat → ∀ levels lvl ptrs,
  (first <= lvl)%nat → (∀ i, levels !! i = files_ v !! (lvl + i)%nat) → ptrs_ok v first ptrs k →
  ∃ ptrs', base_levels C k levels lvl ptrs = Ok (forallb (λ files, negb (existsb (in_range k) files)) levels, ptrs') ∧ ptrs_ok v first ptrs' k.
Proof.
  intros Hv Hn Hfirst levels. induction levels as [|files levels IH]; intros lvl ptrs Hl Hlv Hp; [by exists ptrs|]. pose proof Hp as [Hp7 Hpo].
  pose proof (Hlv 0%nat) as Hf. cbn in Hf. rewrite Nat.add_0_r in Hf. symmetry in Hf. pose proof (lookup_lt_Some _ _ _ Hf) as Llv. rewrite (la_levels _ _ Hv) in Llv.
  destruct (lookup_lt_is_Some_2 ptrs lvl) as [ptr Eptr]; [lia|]. destruct (Hpo lvl files ptr Hl Hf Eptr) as [Hptr Hpass].
  cbn [base_levels]. rewrite Eptr. unfold mbind, res_bind. cbn [of_option]. specialize (Hn lvl files Hf).
  assert (user_apart ord files) as Hu. { destruct lvl as [|lvl]; [lia|]. by apply (la_apart _ _ Hv lvl). } destruct (la_keys _ _ Hv lvl files Hf) as [Hk _].
  destruct (base_loop_ok k (drop (Z.to_nat ptr) files) ptr) as (n & E & Hle & Hpn); [by apply user_apart_drop|by apply Forall_drop|lia|rewrite length_drop; lia|].
  rewrite E. rewrite length_drop in Hle. assert (existsb (in_range k) (drop (Z.to_nat ptr) files) = existsb (in_range k) files) as ->.
  { rewrite <- (take_drop (Z.to_nat ptr) files) at 2. rewrite existsb_app. replace (existsb (in_range k) (take (Z.to_nat ptr) files)) with false; [done|]. symmetry.
    apply not_true_iff_false. intros (f & Hin & Hr)%existsb_exists. rewrite list.Forall_forall in Hpass. apply list_elem_of_In in Hin. specialize (Hpass f Hin). unfold in_range in Hr.
    apply andb_true_iff in Hr as [_ Hr]. apply Z.leb_le in Hr. unfold passed in Hpass. apply (ucmp_neg C valid ord) in Hr. lia. }
  assert (ptrs_ok v first (<[lvl := ptr + Z.of_nat n]> ptrs) k) as Hp'.
  { split; [by rewrite length_insert|]. intros l fs q Hl' Hfs Hq. destruct (decide (l = lvl)) as [->|N]; [|rewrite list_lookup_insert_ne in Hq by done; by apply (Hpo l)].
    rewrite list_lookup_insert_eq in Hq by lia. injection Hq as <-. rewrite Hf in Hfs. injection Hfs as <-. split; [lia|]. replace (Z.to_nat (ptr + Z.of_nat n)) with (Z.to_nat ptr + n)%nat by lia.
    rewrite <- take_take_drop. apply List.Forall_app. by split. }
  cbn [forallb]. destruct (existsb (in_range k) files); cbn [negb andb]; [by eexists|]. apply IH; [lia| |done]. intros i. pose proof (Hlv (S i)) as Hx. change ((files :: levels) !! S i) with (levels !! i) in Hx. rewrite Hx. f_equal. lia.
Qed.

(** No file of the levels from [first] on has the key in its range. *)
Definition base_level v (first : nat) (k : bytes) : Prop := ∀ lvl files f, (first <= lvl)%nat → files_ v !! lvl = Some files → f ∈ files → in_range k f = false.

Lemma IsBaseLevelForKey_ok v (c : Compaction) (level : nat) k : levels_apart ord v → (∀ l files, files_ v !! l = Some files → Z.of_nat (length files) < 2 ^ 31) →
  level_ c = Z.of_nat level → ptrs_ok v (level + 2) (level_ptrs_ c) k →
  ∃ b ptrs, IsBaseLevelForKey C v k c = Ok (b, set_level_ptrs c ptrs) ∧ ptrs_ok v (level + 2) ptrs k ∧ (b = true ↔ base_level v (level + 2) k).
Proof.
  intros Hv Hn El Hp. unfold IsBaseLevelForKey. rewrite El. replace (Z.to_nat (Z.of_nat level + 2)) with (level + 2)%nat by lia.
  destruct (base_levels_ok v k (level + 2) Hv Hn ltac:(lia) (drop (level + 2) (files_ v)) (level + 2) (level_ptrs_ c)) as (ptrs & E & Hp'); [done|intros i; apply lookup_drop|done|].
  rewrite E. unfold mbind, res_bind. eexists _, ptrs. split; [done|]. split; [done|]. rewrite forallb_forall. split.
  - intros H lvl files f Hl Hf Hin. assert (In files (drop (level + 2) (files_ v))) as Hx.
    { apply list_elem_of_In, (list_elem_of_lookup_2 _ (lvl - (level + 2))). rewrite lookup_drop. by replace (level + 2 + (lvl - (level + 2)))%nat with lvl by lia. }
    specialize (H files Hx). apply negb_true_iff, not_true_iff_false in H. apply not_true_iff_false. intros Hr. apply H, existsb_exists. exists f. by split; [apply list_elem_of_In|].
  - intros H files Hin. apply list_elem_of_In, list_elem_of_lookup_1 in Hin as [i Hi]. rewrite lookup_drop in Hi. apply negb_true_iff, not_true_iff_false. intros (f & Hf & Hr)%existsb_exists.
    rewrite (H (level + 2 + i)%nat files f) in Hr; [done|lia|done|by apply list_elem_of_In].
Qed.

(** ** [ShouldStopBefore] *)

Definition before_key (k : bytes) f : Prop := kcmp (largest (meta f)) k < 0.

Lemma stop_loop_ok k files : ∀ seen index n, ikey_ok k → Forall file_keys files → small_sizes files → 0 <= n → 0 <= index → index + Z.of_nat (length files) < 2 ^ 64 → n + total files < 2 ^ 63 →
  ∃ m, (m <= length files)%nat ∧ stop_loop C k files seen index n = Ok (index + Z.of_nat m, if seen then n + total (take m files) else n) ∧
    Forall (before_key k) (take m files) ∧ ∀ f, files !! m = Some f → ¬ before_key k f.
Proof.
  induction files as [|f files IH]; intros seen index n Hk Hf [Hs Ht] Hn Hi Hi' Hb.
  - exists O. rewrite Z.add_0_r. cbn. rewrite Z.add_0_r. destruct seen; split_and!; done || constructor.
  - apply list.Forall_cons in Hf as [[K1 K2] Hf]. apply list.Forall_cons in Hs as [Hs0 Hs]. cbn [total length] in *. cbn [stop_loop]. rewrite Encode_ok by done. unfold mbind, res_bind.
    assert (icmp C k (largest (meta f)) = Ok (kcmp k (largest (meta f)))) as -> by (apply (icmp_ok C valid ord); done).
    assert (0 <= total files) as H0. { clear -Hs. induction Hs as [|g l Hg Hs IH]; cbn [total]; lia. } pose proof (cmp_swap (Order := iorder) (largest (meta f)) k) as Hsw.
    destruct (Z.ltb_spec 0 (kcmp k (largest (meta f)))) as [L|L].
    + rewrite u64_small by lia. assert (s64 (n + file_size (meta f)) = n + fsize f) as -> by (apply swrap_small; unfold fsize in *; lia).
      destruct (IH seen (index + 1) (if seen then n + fsize f else n)) as (m & Hm & E & Hall & Hnext); [done|done|split; [done|lia]|destruct seen; lia|lia|lia|destruct seen; lia|].
      exists (S m). split; [cbn; lia|]. rewrite E. split; [|split; [|done]].
      * cbn [take total]. destruct seen; do 2 f_equal; lia.
      * cbn. constructor; [|done]. by apply Hsw.
    + exists O. rewrite Z.add_0_r. cbn. rewrite Z.add_0_r. split; [lia|]. destruct seen; (split; [done|]; split; [constructor|]; intros g [= <-] Hg; apply Hsw in Hg; lia).
Qed.
End keys.
End KeyProps.
Export KeyProps.

(** * What can go wrong at the boundary of two files of a level that share a user key *)
Import Version VersionSet Compaction.

(** Two files of level 1, of six megabytes each; the first ends and the second starts with
    an entry of the key [107], as when an output of a compaction is closed between two
    entries of the key that a snapshot keeps. *)
Definition split_content (n : Z) : list entry :=
  if n =? 7 then [value_entry [97] 3 1; value_entry [107] 9 2] else if n =? 8 then [value_entry [107] 5 3; value_entry [109] 4 4] else [].
Definition split_tables : gmap Z entries := list_to_map ((λ n, (n, pair_of <$> split_content n)) <$> [7; 8]).
Definition split_edit : VersionEdit.VersionEdit :=
  VersionEdit.AddFile 1 8 6291456 (e_internal (value_entry [107] 5 3)) (e_internal (value_entry [109] 4 4))
    (VersionEdit.AddFile 1 7 6291456 (e_internal (value_entry [97] 3 1)) (e_internal (value_entry [107] 9 2)) VersionEdit.new).

Definition apply_edit (e : VersionEdit.VersionEdit) (s : VersionSet) : res VersionSet :=
  '(v, s) ← build_version Bytewise.BytewiseComparator e s; install v e s.
(** The trivial move of [DBImpl::BackgroundCompaction]. *)
Definition move_file (c : Compaction) : res VersionEdit.VersionEdit :=
  f ← of_option (head (inputs0 c));
  Ok (VersionEdit.AddFile (level_ c + 1) (number (meta f)) (file_size (meta f)) (smallest (meta f)) (largest (meta f))
        (VersionEdit.DeleteFile (level_ c) (number (meta f)) (edit_ c))).
Definition get_value (s : VersionSet) : res (Status.Status * bytes) :=
  v ← current s;
  k ← Internal.lookup_key [107] 20;
  '(st, value, _, _) ← Version.Get (H := map_tables) Bytewise.BytewiseComparator v (Table.mkRead false false) k [] split_tables;
  Ok (st, value).

