(* ===== verification/LdbDropProps.v ===== *)
(** The entries that a compaction drops: no snapshot that is or will be taken can tell that
    they are gone. *)
From Stdlib Require Import Sorting.Sorted.
From stdpp Require Import sorting.
From S2P Require Import Prelude LdbSkip LdbSkipLemmas LdbFormat LdbCodingProps LdbOrder LdbKeyProps LdbMemTable LdbMemTableProps LdbIterator LdbTable LdbVersionEdit LdbVersion LdbVersionProps LdbVersionGet.
Import MemTable.

Section drop.
Context (C : SliceComparator) (valid : bytes → Prop) (ord : Comparator bytes) `{!Lawful C (λ _, True) valid ord}.
#[local] Abbreviation ucmp := (@compare_ bytes ord).
#[local] Abbreviation entry_less := (λ a b, entry_cmp ord a b < 0).
Implicit Types (e x : entry) (es R M : list entry).
#[local] Instance uord : Order bytes (H := ord).
Proof. exact (lawful_order (Lawful := Lawful0)). Qed.

(** * Which entries are kept

    [prev]: the user key of the entry before, and its sequence number. *)
Section kept.
Context (snapshot : Z) (base : bytes → bool).

Definition last_sequence (prev : option (bytes * Z)) (e : entry) : Z :=
  match prev with Some (u, q) => if ucmp (e_key e) u =? 0 then q else Internal.kMaxSequenceNumber | None => Internal.kMaxSequenceNumber end.
Definition obsolete (e : entry) : bool :=
  match e_type e with Internal.kTypeDeletion => (e_seq e <=? snapshot) && base (e_key e) | Internal.kTypeValue => false end.
Definition dropped (prev : option (bytes * Z)) (e : entry) : bool := (last_sequence prev e <=? snapshot) || obsolete e.
(** The key of the entry before stays if it is the same. *)
Definition next_key (prev : option (bytes * Z)) (e : entry) : bytes :=
  match prev with Some (u, _) => if ucmp (e_key e) u =? 0 then u else e_key e | None => e_key e end.
Fixpoint kept (prev : option (bytes * Z)) (es : list entry) : list entry :=
  match es with
  | [] => []
  | e :: es => (if dropped prev e then [] else [e]) ++ kept (Some (next_key prev e, e_seq e)) es
  end.

(** Another entry of the key is newer and seen by all snapshots. *)
Definition hidden (es : list entry) (e : entry) : Prop :=
  ∃ e', e' ∈ es ∧ ucmp (e_key e') (e_key e) = 0 ∧ e_num e < e_num e' ∧ e_seq e' <= snapshot.

Lemma kept_sublist prev es : sublist (kept prev es) es.
Proof. revert prev. induction es as [|e es IH]; intros prev; [constructor|]. cbn. destruct (dropped prev e); cbn; constructor; apply IH. Qed.

Lemma seq_of_num e e' : fits e → fits e' → e_num e <= e_num e' → e_seq e <= e_seq e'.
Proof.
  intros He He' L. destruct (Z.lt_ge_cases (e_seq e') (e_seq e)) as [L'|]; [|lia]. exfalso. unfold e_num, pack in L.
  assert (0 <= Internal.type_code (e_type e) < 2 ∧ 0 <= Internal.type_code (e_type e') < 2) by (destruct (e_type e), (e_type e'); cbn; lia). lia.
Qed.

(** [prev] is what the entries before, [done_], leave. *)
Definition follows (done_ : list entry) (prev : option (bytes * Z)) : Prop :=
  match prev with
  | None => done_ = []
  | Some (u, q) => ∃ done' e, done_ = done' ++ [e] ∧ ucmp (e_key e) u = 0 ∧ e_seq e = q
  end.

Lemma last_sequence_hidden done_ prev e : snapshot < Internal.kMaxSequenceNumber → StronglySorted entry_less (done_ ++ [e]) → Forall fits (done_ ++ [e]) →
  follows done_ prev → last_sequence prev e <= snapshot ↔ hidden done_ e.
Proof.
  intros Hs Hso Hf Hp. unfold last_sequence. destruct prev as [[u q]|].
  2:{ cbn in Hp. subst done_. split; [lia|]. by intros (e' & ?%not_elem_of_nil & _). }
  destruct Hp as (done' & x & -> & Hx & <-).
  assert (entry_cmp ord x e < 0) as Hxe. { apply StronglySorted_app in Hso as (H & _ & _). apply H; [apply elem_of_app; right; by left|by left]. }
  apply List.Forall_app in Hf as [Hfd Hfe]. apply (proj1 (Forall_singleton _ _)) in Hfe.
  assert (fits x) as Hfx. { apply List.Forall_app in Hfd as [_ Hfd]. by apply (proj1 (Forall_singleton _ _)) in Hfd. }
  destruct (Z.eqb_spec (ucmp (e_key e) u) 0) as [E|N].
  - assert (ucmp (e_key x) (e_key e) = 0) as Exe by (eapply cmp_zero_trans; [exact Hx|by apply cmp_zero_swap]). split.
    + intros L. exists x. split; [apply elem_of_app; right; by left|]. split; [done|]. split; [by apply (entry_less_num ord)|done].
    + intros (e' & He' & E' & L & Ls). enough (e_seq x <= e_seq e') by lia. apply elem_of_app in He' as [He'|He']; [|apply list_elem_of_singleton in He' as ->; lia].
      apply seq_of_num; [done| |].
      * apply List.Forall_app in Hfd as [Hfd _]. rewrite list.Forall_forall in Hfd. by apply Hfd.
      * assert (entry_cmp ord e' x < 0) as L'. { apply StronglySorted_app in Hso as (_ & Hso & _). apply StronglySorted_app in Hso as (H & _ & _). apply H; [done|by left]. }
        apply (entry_less_num ord) in L'; [lia|]. eapply cmp_zero_trans; [exact E'|by apply cmp_zero_swap].
  - split; [lia|]. intros (e' & He' & E' & L & Ls). exfalso. apply N. apply elem_of_app in He' as [He'|He']; [|apply list_elem_of_singleton in He'; subst e'].
    + (* the entry before is between two entries of the key *)
      assert (entry_cmp ord e' x < 0) as L'. { apply StronglySorted_app in Hso as (_ & Hso & _). apply StronglySorted_app in Hso as (H & _ & _). apply H; [done|by left]. }
      apply (entry_less_key ord) in L', Hxe. assert (ucmp (e_key e) (e_key x) = 0) as E2.
      { destruct (Z.eq_dec (ucmp (e_key x) (e_key e)) 0) as [E0|N0]; [by apply cmp_zero_swap|]. assert (ucmp (e_key e') (e_key e) < 0); [|lia].
        destruct (Z.eq_dec (ucmp (e_key e') (e_key x)) 0) as [E1|N1]; [apply (cmp_eq _ (e_key x)); lia|]. apply (cmp_trans _ (e_key x)); lia. }
      by eapply cmp_zero_trans.
    + eapply cmp_zero_trans; [by apply cmp_zero_swap|done].
Qed.

Lemma kept_elem done_ prev es e : snapshot < Internal.kMaxSequenceNumber → StronglySorted entry_less (done_ ++ es) → Forall fits (done_ ++ es) → follows done_ prev →
  e ∈ kept prev es ↔ e ∈ es ∧ ¬ hidden (done_ ++ es) e ∧ obsolete e = false.
Proof.
  intros Hs. revert done_ prev. induction es as [|x es IH]; intros done_ prev Hso Hf Hp; [cbn; rewrite !elem_of_nil; tauto|].
  assert (done_ ++ x :: es = (done_ ++ [x]) ++ es) as Eapp by by rewrite <- app_assoc. rewrite Eapp in *.
  assert (follows (done_ ++ [x]) (Some (next_key prev x, e_seq x))) as Hp'.
  { exists done_, x. split; [done|]. split; [|done]. unfold next_key. destruct prev as [[u q]|]; [|apply cmp_refl]. destruct (Z.eqb_spec (ucmp (e_key x) u) 0); [done|apply cmp_refl]. }
  cbn [kept]. rewrite elem_of_app, (IH _ _ Hso Hf Hp'), elem_of_cons.
  assert (x ∉ es) as Hx. { intros Hin. apply StronglySorted_app in Hso as (H & _ & _). specialize (H x x ltac:(apply elem_of_app; right; by left) Hin). cbn in H.
    assert (entry_cmp ord x x = 0) by (apply entry_cmp_zero; split; [apply cmp_refl|done]). lia. }
  assert (hidden ((done_ ++ [x]) ++ es) x ↔ last_sequence prev x <= snapshot) as Hh.
  { rewrite (last_sequence_hidden done_ prev x Hs); [..|done].
    - split; intros (e' & He' & E & L & Ls).
      + exists e'. split; [|done]. apply elem_of_app in He' as [He'|He'].
        * apply elem_of_app in He' as [He'|He']; [done|]. apply list_elem_of_singleton in He' as ->. lia.
        * apply StronglySorted_app in Hso as (H & _ & _). specialize (H x e' ltac:(apply elem_of_app; right; by left) He'). apply (entry_less_num ord) in H; [lia|by apply cmp_zero_swap].
      + exists e'. split; [|done]. apply elem_of_app. left. apply elem_of_app. by left.
    - by apply StronglySorted_app in Hso as (_ & Hso & _).
    - by apply List.Forall_app in Hf as [Hf _]. }
  unfold dropped. destruct (Z.leb_spec (last_sequence prev x) snapshot) as [L|L]; cbn [orb].
  - rewrite elem_of_nil. split; [tauto|]. intros ([->|]&Hn&Ho); [|tauto]. by destruct Hn; apply Hh.
  - destruct (obsolete x) eqn:Eo.
    + rewrite elem_of_nil. split; [tauto|]. intros ([->|]&Hn&Ho); [congruence|tauto].
    + rewrite list_elem_of_singleton. split; [|intros ([->|]&Hn&Ho); [by left|by right]]. intros [->|(Hin&Hn&Ho)]; [|tauto]. split; [by left|]. split; [|done]. intros Hc%Hh. lia.
Qed.

Lemma kept_all es e : snapshot < Internal.kMaxSequenceNumber → StronglySorted entry_less es → Forall fits es →
  e ∈ kept None es ↔ e ∈ es ∧ ¬ hidden es e ∧ obsolete e = false.
Proof. intros Hs Hso Hf. by apply (kept_elem [] None es e). Qed.

(** * Lookups *)

(** What a lookup is allowed to answer for what it answered before: a key without entries is
    as good as a deleted one. *)
Definition same_answer (r r' : Found) : Prop := r' = r ∨ r = g_deleted ∧ r' = g_none.

(** [R] are the other entries of the database: an entry of [R] is newer than those of [M] for
    the same key, or the key is not a base key. *)
Lemma kept_answers R M u s r : snapshot < Internal.kMaxSequenceNumber → snapshot <= s → StronglySorted entry_less M → Forall fits M →
  (∀ e x, e ∈ M → x ∈ R → ucmp (e_key e) (e_key x) = 0 → e_num e < e_num x ∨ base (e_key e) = false) →
  answers ord (R ++ M) u s r → ∃ r', answers ord (R ++ kept None M) u s r' ∧ same_answer r r'.
Proof.
  intros Hs Hss Hso Hf Hbase Ha. assert (∀ e, e ∈ R ++ kept None M → e ∈ R ++ M) as Hsub.
  { intros e. rewrite !elem_of_app. intros [He|He]; [by left|right]. by apply kept_all in He as (? & _). }
  destruct Ha as [Hn|e He Hv Hmax].
  - exists g_none. split; [|by left]. apply answers_none. rewrite list.Forall_forall in Hn |- *. intros e He. by apply Hn, Hsub.
  - assert (e ∈ R ++ kept None M → ∃ r', answers ord (R ++ kept None M) u s r' ∧ same_answer (found e) r') as Hstay.
    { intros Hin. exists (found e). split; [|by left]. apply answers_found; [done..|]. intros e' He' Hv'. apply Hmax; [by apply Hsub|done]. }
    apply elem_of_app in He as [He|He]; [apply Hstay, elem_of_app; by left|]. assert (¬ hidden M e) as Hnh.
    { intros (e' & He' & E & L & Ls). destruct (Hmax e') as [->|L']; [apply elem_of_app; by right| |lia|lia].
      destruct Hv as [Ev Hv]. split; [|lia]. by eapply cmp_zero_trans. }
    destruct (obsolete e) eqn:Ho; [|apply Hstay, elem_of_app; right; by apply kept_all]. clear Hstay. pose proof Ho as Ho'.
    unfold obsolete in Ho. destruct (e_type e) eqn:Et; [|done]. apply andb_true_iff in Ho as [Ho Hb]. apply Z.leb_le in Ho.
    assert (found e = g_deleted) as -> by (unfold found; by rewrite Et). exists g_none. split; [|by right]. apply answers_none, list.Forall_forall. intros x Hx Hvx.
    assert (ucmp (e_key e) (e_key x) = 0) as Ex. { destruct Hv as [Ev _], Hvx as [Evx _]. eapply cmp_zero_trans; [exact Ev|by apply cmp_zero_swap]. }
    apply elem_of_app in Hx as [Hx|Hx].
    + destruct (Hbase e x He Hx Ex) as [L|]; [|congruence]. destruct (Hmax x) as [->|L']; [apply elem_of_app; by left|done|lia|lia].
    + apply kept_all in Hx as (Hx & Hnx & Hox); [|done..]. destruct (Hmax x) as [->|L']; [apply elem_of_app; by right|done| |].
      * congruence.
      * apply Hnx. exists e. split; [done|]. split; [done|]. split; [done|lia].
Qed.
End kept.
End drop.
