(* ===== verification/LdbDbCompact.v ===== *)
(** The compaction of a LevelDB database ([DoCompactionWork] and what it calls and is called
    by, in [db/db_impl.cc]): the input tables are merged into new ones, and entries that no
    snapshot can see are dropped. *)
From S2P Require Import Prelude LdbSkip LdbFormat LdbMemTable LdbLog LdbIterator LdbMerger LdbTwoLevel LdbTable LdbVersionEdit LdbVersion LdbVersionSet LdbCompaction LdbEnv LdbDb.

Module DbCompact.
Import Status Internal Config Version VersionSet Compaction Filename WholeFile Snapshots Db.

Section compact.
Context {E F Q K TI : Type} `{Env E F Q} `{WritableFile F} `{SyncFile F} `{SequentialFile Q} `{TableCache (E * K) TI} `{Iterator TI} `{Evicts K}.
Context (address : bytes → Z) (C : SliceComparator) (cname : bytes) (pol : NamedPolicy) (o : DBOptions) (dbname : bytes).
#[local] Abbreviation DB := (DBImpl (E := E) (F := F) (K := K)).
Context (others : nat → DB → DB).
#[local] Abbreviation Meanwhile := (Meanwhile others).
#[local] Abbreviation Lock := (Lock others).
#[local] Abbreviation CompactMemTable := (CompactMemTable (TI := TI) address C cname pol o dbname others).
#[local] Abbreviation LogAndApply := (LogAndApply address C cname dbname others).

(** [CompactionState]. The size of an output is not known before the output is complete. The
    builder comes with its file: [outfile] is NULL when [builder] is. *)
Record Output := mkOutput { out_number : Z; out_size : option Z; out_smallest : bytes; out_largest : bytes }.
#[export] Instance output_fields : Fields Output := (λ _, mkOutput) <@> out_number <@> out_size <@> out_smallest <@> out_largest.
Record CompactionState := mkState {
  compaction : Compaction; smallest_snapshot : Z; outputs : list Output; builder : option (TableBuilder.TableBuilder F); total_bytes : Z
}.
#[export] Instance state_fields : Fields CompactionState := (λ _, mkState) <@> compaction <@> smallest_snapshot <@> outputs <@> builder <@> total_bytes.
Definition new_state (c : Compaction) (snapshot : Z) : CompactionState := mkState c snapshot [] None 0.

Definition current_output (c : CompactionState) : res Output := of_option (list.last (outputs c)).
Definition change_output (g : Output → Output) (c : CompactionState) : res CompactionState :=
  out ← current_output c;
  Ok (c <| outputs := <[Nat.pred (length (outputs c)) := g out]> (outputs c) |>).

(** ** The files of the outputs *)

Definition OpenCompactionOutputFile (c : CompactionState) (d : DB) : res (Status * CompactionState * DB) :=
  SkipList.assert_ (match builder c with None => true | Some _ => false end);;
  let d := Lock d in
  let '(file_number, s) := NewFileNumber (versions_ d) in
  let d := d <| versions_ := s |> <| pending_outputs_ := {[file_number]} ∪ pending_outputs_ d |> in
  let c := c <| outputs := outputs c ++ [mkOutput file_number None [] []] |> in
  fname ← TableFileName dbname file_number;
  let '(s, f, e) := NewWritableFile fname (env_ d) in
  let d := d <| env_ := e |> in
  if ok s then f ← of_option f; b ← TableBuilder.new pol (table_options o) f; Ok (s, c <| builder := Some b |>, d)
  else Ok (s, c, d).

(** [input_status] is the status of the input. *)
Definition FinishCompactionOutputFile (input_status : Status) (c : CompactionState) (d : DB) : res (Status * CompactionState * DB) :=
  b ← of_option (builder c);
  out ← current_output c;
  SkipList.assert_ (negb (out_number out =? 0));;
  let current_entries := TableBuilder.NumEntries b in
  '(s, b) ← (if ok input_status then TableBuilder.Finish (comparator := InternalKeyComparator C) address pol b
             else b ← TableBuilder.Abandon b; Ok (input_status, b));
  let current_bytes := TableBuilder.FileSize b in
  c ← change_output (λ out, out <| out_size := Some current_bytes |>) c;
  let c := c <| total_bytes := u64 (total_bytes c + current_bytes) |> <| builder := None |> in
  let '(s, e) := close_table s (TableBuilder.file b) (env_ d) in
  let d := d <| env_ := e |> in
  if ok s && (0 <? current_entries) then
    '(s, w) ← verify_table (out_number out) current_bytes (env_ d, table_cache_ d);
    Ok (s, c, d <| env_ := w.1 |> <| table_cache_ := w.2 |>)
  else Ok (s, c, d).

Fixpoint add_outputs (level : Z) (l : list Output) (e : VersionEdit.VersionEdit) : res VersionEdit.VersionEdit :=
  match l with
  | [] => Ok e
  | out :: l => size ← of_option (out_size out); add_outputs level l (VersionEdit.AddFile level (out_number out) size (out_smallest out) (out_largest out) e)
  end.
Definition InstallCompactionResults (c : CompactionState) (d : DB) : res (Status * DB) :=
  edit ← add_outputs (level_ (compaction c) + 1) (outputs c) (AddInputDeletions (compaction c) (edit_ (compaction c)));
  LogAndApply edit d.

Definition CleanupCompaction (c : CompactionState) (d : DB) : res DB :=
  d ← match builder c with
      | Some b => b ← TableBuilder.Abandon b; Ok (d <| env_ := delete_file (TableBuilder.file b) (env_ d) |>)
      | None => Ok d
      end;
  Ok (d <| pending_outputs_ := pending_outputs_ d ∖ list_to_set (out_number <$> outputs c) |>).

(** ** The entries *)

(** The user key that is being compacted, if there is one, and the last sequence number that
    was seen of it. *)
Record KeyState := mkKey { current_user_key : option bytes; last_sequence_for_key : Z }.
Definition no_key : KeyState := mkKey None kMaxSequenceNumber.

Definition drop_entry (k : bytes) (ks : KeyState) (c : CompactionState) (d : DB) : res (bool * KeyState * CompactionState) :=
  r ← ParseInternalKey k;
  match r with
  | None => Ok (false, no_key, c)
  | Some ikey =>
      same ← match current_user_key ks with
             | Some u => x ← Compare (SliceComparator := C) (Internal.user_key ikey) u; Ok (x =? 0)
             | None => Ok false
             end;
      let ks := if same : bool then ks else mkKey (Some (Internal.user_key ikey)) kMaxSequenceNumber in
      '(drop, cm) ← (if last_sequence_for_key ks <=? smallest_snapshot c then Ok (true, compaction c)
                     else
                       match type ikey with
                       | kTypeDeletion =>
                           if sequence ikey <=? smallest_snapshot c then
                             p ← of_option (input_version_ (compaction c)); v ← version (versions_ d) p;
                             IsBaseLevelForKey C v (Internal.user_key ikey) (compaction c)
                           else Ok (false, compaction c)
                       | kTypeValue => Ok (false, compaction c)
                       end);
      Ok (drop, mkKey (current_user_key ks) (sequence ikey), c <| compaction := cm |>)
  end.

Section input.
Context {I : Type} `{Iterator I} (mem_fuel : nat).

Definition add_entry (k : bytes) (input : I) (c : CompactionState) (d : DB) : res (Status * CompactionState * DB) :=
  '(s, c, d) ← match builder c with None => OpenCompactionOutputFile c d | Some _ => Ok (OK, c, d) end;
  if negb (ok s) then Ok (s, c, d)
  else
    b ← of_option (builder c);
    c ← (if TableBuilder.NumEntries b =? 0 then change_output (λ out, out <| out_smallest := Internal.DecodeFrom k |>) c else Ok c);
    c ← change_output (λ out, out <| out_largest := Internal.DecodeFrom k |>) c;
    v ← value input;
    b ← TableBuilder.Add (comparator := InternalKeyComparator C) address pol b k v;
    let c := c <| builder := Some b |> in
    if max_output_file_size_ (compaction c) <=? TableBuilder.FileSize b then FinishCompactionOutputFile (status input) c d
    else Ok (OK, c, d).

(** The loop of [DoCompactionWork]: until the input ends, the database shuts down, or there is
    an error. *)
Fixpoint work_loop (fuel : nat) (input : I) (ks : KeyState) (c : CompactionState) (d : DB) : res (Status * I * CompactionState * DB) :=
  match fuel with
  | O => NoFuel
  | S fuel =>
      let d := Meanwhile d in
      if Valid input && negb (shutting_down_ d) then
        d ← (if has_imm_ d then let d := Lock d in match imm_ d with Some _ => CompactMemTable mem_fuel d | None => Ok d end else Ok d);
        k ← key input;
        '(stop, cm) ← ShouldStopBefore C (max_file_size o) k (compaction c);
        let c := c <| compaction := cm |> in
        '(s, c, d) ← match builder c with
                     | Some _ => if stop : bool then FinishCompactionOutputFile (status input) c d else Ok (OK, c, d)
                     | None => Ok (OK, c, d)
                     end;
        if negb (ok s) then Ok (s, input, c, d)
        else
          '(drop, ks, c) ← drop_entry k ks c d;
          '(s, c, d) ← (if drop : bool then Ok (OK, c, d) else add_entry k input c d);
          if negb (ok s) then Ok (s, input, c, d)
          else input ← Next input; work_loop fuel input ks c d
      else Ok (OK, input, c, d)
  end.

(** The outputs, from the first entry of the input to the last output. *)
Definition make_outputs (fuel : nat) (input : I) (c : CompactionState) (d : DB) : res (Status * CompactionState * DB) :=
  input ← SeekToFirst input;
  '(s, input, c, d) ← work_loop fuel input no_key c d;
  let d := Meanwhile d in
  let s := if ok s && shutting_down_ d then IOError "Deleting DB during compaction" else s in
  '(s, c, d) ← match builder c with
               | Some _ => if ok s then FinishCompactionOutputFile (status input) c d else Ok (s, c, d)
               | None => Ok (s, c, d)
               end;
  Ok (if ok s then status input else s, c, d).
(** The outputs and the new version. *)
Definition compact_input (fuel : nat) (input : I) (c : CompactionState) (d : DB) : res (Status * CompactionState * DB) :=
  '(s, c, d) ← make_outputs fuel input c d;
  let d := Lock d in
  '(s, d) ← (if ok s then InstallCompactionResults c d else Ok (s, d));
  Ok (s, c, if ok s then d else RecordBackgroundError s d).
End input.

(** Sequence numbers up to the oldest snapshot, or all of them, count once. *)
Definition oldest_snapshot (d : DB) : res Z :=
  e ← Snapshots.empty (snapshots_ d);
  if e : bool then Ok (last_sequence_ (versions_ d)) else s ← oldest (snapshots_ d); Ok (number_ s).

Context (fuel mem_fuel : nat).
Definition read_options : Table.ReadOptions := Table.mkRead (paranoid_checks (table_options o)) false.
#[local] Instance child : Iterator (TI + LevelIterator (T := E * K) (TI := TI)) := child_iterator C fuel read_options.
#[local] Instance merger : Iterator (Merger.MergingIterator (I := TI + LevelIterator (T := E * K) (TI := TI))) :=
  Merger.merging_iterator (comparator_ := InternalKeyComparator C).

Definition DoCompactionWork (c : Compaction) (d : DB) : res (Status * CompactionState * DB) :=
  n ← NumLevelFiles (versions_ d) (level_ c);
  SkipList.assert_ (0 <? n);;
  snapshot ← oldest_snapshot d;
  let c := new_state c snapshot in
  '(input, w) ← MakeInputIterator C fuel (paranoid_checks (table_options o)) (compaction c) (env_ d, table_cache_ d);
  compact_input mem_fuel fuel input c (d <| env_ := w.1 |> <| table_cache_ := w.2 |>).

(** ** In the background *)

(** The request of a user, at its address, or the choice of the set of versions; with the last
    key of what is taken of a request. *)
Definition choose_compaction (d : DB) : res (option Compaction * bytes * DB) :=
  match manual_compaction_ d with
  | Some p =>
      m ← of_option (manuals d !! p);
      '(c, s) ← CompactRange C (max_file_size o) (manual_level m) (manual_begin m) (manual_end m) (versions_ d);
      manual_end ← match c with Some c => f ← of_option (list.last (inputs0 c)); Ok (largest (meta f)) | None => Ok [] end;
      let m := m <| manual_done := match c with Some _ => false | None => true end |> in
      Ok (c, manual_end, d <| versions_ := s |> <| manuals := <[p := m]> (manuals d) |>)
  | None =>
      '(c, s) ← PickCompaction C (max_file_size o) (versions_ d);
      Ok (c, [], d <| versions_ := s |>)
  end.
(** The destructor of a compaction and [ReleaseInputs]: both drop the version. *)
Definition release_compaction (c : Compaction) (d : DB) : res DB :=
  '(_, s) ← ReleaseInputs c (versions_ d); Ok (d <| versions_ := s |>).
Definition move_file (c : Compaction) (d : DB) : res (Status * DB) :=
  SkipList.assert_ (num_input_files c 0 =? 1);;
  f ← of_option (head (inputs0 c));
  let edit := VersionEdit.DeleteFile (level_ c) (number (meta f)) (edit_ c) in
  let edit := VersionEdit.AddFile (level_ c + 1) (number (meta f)) (file_size (meta f)) (smallest (meta f)) (largest (meta f)) edit in
  '(s, d) ← LogAndApply edit d;
  d ← release_compaction c (if ok s then d else RecordBackgroundError s d);
  Ok (s, d).
Definition do_compaction (c : Compaction) (d : DB) : res (Status * DB) :=
  '(s, cs, d) ← DoCompactionWork c d;
  d ← CleanupCompaction cs (if ok s then d else RecordBackgroundError s d);
  d ← release_compaction (compaction cs) d;
  d ← DeleteObsoleteFiles dbname d;
  Ok (s, d).
(** The request is read again in the end: it must still be there. *)
Definition finish_manual (s : Status) (last_key : bytes) (d : DB) : res DB :=
  p ← of_option (manual_compaction_ d);
  m ← of_option (manuals d !! p);
  let m := if ok s then m else m <| manual_done := true |> in
  let m := if manual_done m then m else m <| manual_begin := Some last_key |> in
  Ok (d <| manuals := <[p := m]> (manuals d) |> <| manual_compaction_ := None |>).
Definition BackgroundCompaction (d : DB) : res DB :=
  match imm_ d with
  | Some _ => CompactMemTable mem_fuel d
  | None =>
      let is_manual := bool_decide (is_Some (manual_compaction_ d)) in
      '(c, last_key, d) ← choose_compaction d;
      '(s, d) ← match c with
                | None => Ok (OK, d)
                | Some c =>
                    trivial ← (if is_manual then Ok false else IsTrivialMove (max_file_size o) c);
                    if trivial : bool then move_file c d else do_compaction c d
                end;
      if is_manual then finish_manual s last_key d else Ok d
  end.
Definition BackgroundCall (d : DB) : res DB :=
  SkipList.assert_ (bg_compaction_scheduled_ d);;
  d ← (if shutting_down_ d then Ok d else if negb (ok (bg_error_ d)) then Ok d else BackgroundCompaction d);
  MaybeScheduleCompaction (d <| bg_compaction_scheduled_ := false |>).
End compact.
End DbCompact.
