(* ===== verification/LdbOutputProps.v ===== *)
(** Tables as files of a database: a table builder touches its file only by appending and
    flushing, and a file that was synced and closed without an error holds the table.

    Memory tables become files: [BuildTable] writes the table of what an iterator shows, or
    leaves no file, and a level-0 table holds the entries of the memory table. *)
From Stdlib Require Import Sorting.Sorted.
From stdpp Require Import sorting.
From S2P Require Import Prelude LdbSkip LdbSkipLemmas LdbSkipProps LdbFormat LdbCodingProps LdbOrder LdbKeyProps LdbMemTable LdbMemTableProps LdbCrc LdbLog LdbFilter LdbFilterProps LdbIterator LdbBlock LdbTable LdbTableFileProps LdbTableReadProps LdbVersionEdit LdbVersion LdbVersionProps LdbVersionGet LdbVersionSet LdbVersionSetProps LdbEnv LdbDb LdbEnvProps LdbDropProps.
Import Status.

(** * What a table is made of

    An iterator that shows the entries in order; it may end early, with an error. *)
Class Forward (I : Type) `{Iterator I} (l : entries) (at_ : I → nat → Prop) : Prop := {
  fw_entry s i : at_ s i → Valid s = true → ∃ e, l !! i = Some e ∧ key s = Ok e.1 ∧ value s = Ok e.2 ∧ ∃ s', Next s = Ok s' ∧ at_ s' (S i);
  fw_end s i : at_ s i → Valid s = false → status s = OK → i = length l;
  fw_bound s i : at_ s i → (i <= length l)%nat
}.

(** The contract of iterators is more. *)
Lemma iterates_forward {ord : Comparator bytes} I (HI : Iterator I) l target ready at_ : Iterates (ord := ord) I l target ready at_ →
  Forward I l (λ s i, at_ s (pos_at l i) ∧ (i <= length l)%nat).
Proof.
  intros H. split.
  - intros s i [Ha Hb] Hv. rewrite (it_valid (Iterates := H) _ _ Ha), bool_decide_eq_true in Hv. destruct Hv as [j Hj].
    assert (i < length l)%nat as L by (unfold pos_at in Hj; by case_bool_decide). rewrite pos_at_lt in Ha by done.
    destruct (it_entry (Iterates := H) _ _ Ha) as (e & He & Ek & Ev). destruct (it_next (Iterates := H) _ _ Ha) as (s' & En & Ha').
    exists e. split; [done|]. split; [done|]. split; [done|]. exists s'. split; [done|]. split; [done|lia].
  - intros s i [Ha Hb] Hv _. rewrite (it_valid (Iterates := H) _ _ Ha), bool_decide_eq_false in Hv. unfold pos_at in Hv. case_bool_decide; [by destruct Hv|lia].
  - by intros s i [_ ?].
Qed.

#[export] Instance list_forward l : Forward ListIterator l (λ s i, list_entries s = l ∧ list_pos s = pos_at l i ∧ (i <= length l)%nat).
Proof.
  split; [|intros s i (_ & Ep & L); cbn; rewrite Ep; intros Hv _|by intros s i (_ & _ & ?)].
  - intros s i (El & Ep & L) Hv. cbn in Hv. rewrite Ep, bool_decide_eq_true in Hv. destruct Hv as [j Hj].
    assert (i < length l)%nat as Li by (unfold pos_at in Hj; by case_bool_decide). rewrite pos_at_lt in Ep by done.
    destruct (lookup_lt_is_Some_2 l i Li) as [e He]. exists e. split; [done|]. unfold key, value, Next. cbn. unfold list_entry. rewrite Ep, El. cbn. rewrite He. cbn.
    split; [done|]. split; [done|]. eexists. split; [done|]. split; [done|]. split; [done|lia].
  - rewrite bool_decide_eq_false in Hv. unfold pos_at in Hv. case_bool_decide; [by destruct Hv|lia].
Qed.

Import Format TableBuilder Db.

(** * What a builder does with its file *)

Section file.
Context (address : bytes → Z) {F : Type} `{WritableFile F} {comparator : SliceComparator} (pol : NamedPolicy).
Context (P : F → Prop) (Happend : ∀ data f, P f → P (Append data f).2) (Hflush : ∀ f, P f → P (Flush f).2).
Implicit Types (t : TableBuilder F).

Lemma WriteRawBlock_file data ty t h t' : WriteRawBlock address data ty t = Ok (h, t') → P (file t) → P (file t').
Proof.
  unfold WriteRawBlock. intros E Hp. pose proof (Happend data _ Hp) as H1. destruct (Append data (file t)) as [s f]. cbn in H1.
  destruct (Status.ok s); [|by injection E as _ <-]. unfold mbind, res_bind in E. destruct (Crc32c.Value _ _) as [c| |]; [|done..]. destruct (Crc32c.Extend _ _ _) as [c'| |]; [|done..].
  match type of E with context [Append ?d f] => pose proof (Happend d _ H1) as H2; destruct (Append d f) as [s2 f2] end. by injection E as _ <-.
Qed.

Lemma WriteBlock_file b t h t' b' : WriteBlock address b t = Ok (h, t', b') → P (file t) → P (file t').
Proof.
  unfold WriteBlock, mbind, res_bind. destruct (SkipList.assert_ _); [|done..]. match goal with |- context [let (_, _) := ?x in _] => destruct x as [d ty] end.
  destruct (WriteRawBlock address d ty t) as [[h0 t0]| |] eqn:E; [|done..]. intros [= _ <- _]. by eapply WriteRawBlock_file.
Qed.

Lemma with_filter_file t g t' : with_filter t g = Ok t' → file t' = file t.
Proof. unfold with_filter, mbind, res_bind. destruct (filter_block t); [|by intros [= <-]]. destruct (g f); [|done..]. by intros [= <-]. Qed.
Lemma start_filter_file t off t' : start_filter pol t off = Ok t' → file t' = file t.
Proof. unfold start_filter. destruct pol as [[p n]|]; [apply with_filter_file|by intros [= <-]]. Qed.

Lemma FlushBlock_file t t' : FlushBlock address pol t = Ok t' → P (file t) → P (file t').
Proof.
  unfold FlushBlock, mbind, res_bind. destruct (SkipList.assert_ _); [|done..]. destruct (negb (Status.ok (status t))); [by intros [= <-]|].
  destruct (block_empty _); [by intros [= <-]|]. destruct (SkipList.assert_ _); [|done..]. destruct (WriteBlock address (data_block t) t) as [[[h t1] b]| |] eqn:E; [|done..].
  intros Es Hp. apply start_filter_file in Es. pose proof (WriteBlock_file _ _ _ _ _ E Hp) as H1. rewrite Es. cbn [status set_pending set_data_block]. destruct (Status.ok (status t1)); [|done].
  cbn [file set_pending set_data_block]. pose proof (Hflush _ H1) as H2. by destruct (Flush (file t1)).
Qed.

Lemma add_index_entry_file t k t' : add_index_entry t k = Ok t' → file t' = file t.
Proof. unfold add_index_entry, mbind, res_bind. destruct (EncodeTo _ _); [|done..]. destruct (BlockBuilder.Add _ _ _ _); [|done..]. by intros [= <-]. Qed.

Lemma Add_file t k v t' : Add address pol t k v = Ok t' → P (file t) → P (file t').
Proof.
  unfold Add, mbind, res_bind. destruct (SkipList.assert_ _); [|done..]. destruct (negb (Status.ok (status t))); [by intros [= <-]|].
  match goal with |- context [match ?x with Ok a => match SkipList.assert_ a with _ => _ end | _ => _ end] => destruct x; [|done..] end. destruct (SkipList.assert_ _); [|done..].
  match goal with |- context [match ?x with Ok a => match with_filter a _ with _ => _ end | _ => _ end] => destruct x as [t1| |] eqn:E1; [|done..] end.
  assert (file t1 = file t) as F1. { destruct (pending_index_entry t); [|by injection E1 as <-]. destruct (SkipList.assert_ _); [|done..]. destruct (FindShortestSeparator _ _); [|done..]. by apply add_index_entry_file in E1. }
  destruct (with_filter t1 _) as [t2| |] eqn:E2; [|done..]. apply with_filter_file in E2. destruct (BlockBuilder.Add _ _ _ _) as [b| |]; [|done..].
  intros E Hp. destruct (_ <=? _); [eapply FlushBlock_file in E; [done|]|injection E as <-]; cbn; by rewrite E2, F1.
Qed.

Lemma Finish_file t s t' : Finish address pol t = Ok (s, t') → P (file t) → P (file t').
Proof.
  unfold Finish, mbind, res_bind. destruct (FlushBlock address pol t) as [t0| |] eqn:E0; [|done..]. destruct (SkipList.assert_ _); [|done..]. intros E Hp. apply (FlushBlock_file _ _ E0) in Hp. clear E0 t.
  destruct (write_filter_block address pol (set_closed t0)) as [[h1 t1]| |] eqn:E1; [|done..]. assert (P (file t1)) as H1.
  { unfold write_filter_block in E1. destruct pol as [[p n]|]; [|by injection E1 as _ <-]. destruct (filter_block (set_closed t0)) as [b|]; [|by injection E1 as _ <-].
    destruct (Status.ok _); [|by injection E1 as _ <-]. unfold mbind, res_bind in E1. destruct (FilterBlock.Finish b) as [c| |]; [|done..]. by eapply WriteRawBlock_file. }
  clear E1 Hp t0. destruct (write_metaindex_block address pol h1 t1) as [[h2 t2]| |] eqn:E2; [|done..]. assert (P (file t2)) as H2.
  { unfold write_metaindex_block in E2. destruct (Status.ok _); [|by injection E2 as _ <-]. unfold mbind, res_bind in E2. destruct (metaindex_block pol h1 t1) as [m| |]; [|done..].
    destruct (WriteBlock address m t1) as [[[h3 t3] b3]| |] eqn:E3; [|done..]. injection E2 as _ <-. by eapply WriteBlock_file. }
  clear E2 H1 t1. destruct (write_index_block address t2) as [[h3 t3]| |] eqn:E3; [|done..]. assert (P (file t3)) as H3.
  { unfold write_index_block in E3. destruct (Status.ok _); [|by injection E3 as _ <-]. unfold mbind, res_bind in E3. destruct (last_index_entry t2) as [t4| |] eqn:E4; [|done..].
    assert (file t4 = file t2) as F4. { unfold last_index_entry, mbind, res_bind in E4. destruct (pending_index_entry t2); [|by injection E4 as <-]. destruct (FindShortSuccessor _); [|done..]. by apply add_index_entry_file in E4. }
    destruct (WriteBlock address (index_block t4) t4) as [[[h5 t5] b5]| |] eqn:E5; [|done..]. injection E3 as _ <-. cbn. eapply WriteBlock_file; [exact E5|by rewrite F4]. }
  clear E3 H2 t2. destruct (write_footer h2 h3 t3) as [t4| |] eqn:E4; [|done..]. injection E as _ <-. unfold write_footer in E4. destruct (Status.ok _); [|by injection E4 as <-].
  unfold mbind, res_bind in E4. destruct (Footer_EncodeTo _ _) as [x| |]; [|done..]. pose proof (Happend x _ H3) as H5. destruct (Append x (file t3)) as [s5 f5]. by injection E4 as <-.
Qed.

Lemma new_file_ok opts f t : new pol opts f = Ok t → file t = f.
Proof.
  unfold new, mbind, res_bind. destruct (BlockBuilder.new _); [|done..]. destruct (BlockBuilder.new 1); [|done..]. intros E. by apply start_filter_file in E.
Qed.
End file.

(** * Internal keys are bytes

    The comparator of internal keys keeps its contract on keys that are bytes. *)
Section bytes.
Context (C : SliceComparator) (valid : bytes → Prop) (ord : Comparator bytes) `{!Lawful C (λ _, True) valid ord} (Hvb : ∀ k, valid k → Forall is_byte k).

Definition valid_key (k : bytes) : Prop := valid_internal valid k ∧ Forall is_byte k.

Lemma fixed64_bytes u num : Forall is_byte u → Forall is_byte (Coding.PutFixed64 u num).
Proof. intros Hu. unfold Coding.PutFixed64. apply List.Forall_app. split; [done|]. apply le_bytes_are_bytes. Qed.

Lemma separator_bytes start limit r : valid_key start → valid_key limit → Internal.find_separator C start limit = Ok r → Forall is_byte r.
Proof.
  intros [(u & n & Es & Hu & _) Hs] [(w & m & El & Hw & _) _]. unfold Internal.find_separator.
  destruct (split_internal_Some _ _ _ Es) as (-> & _), (split_internal_Some _ _ _ El) as (-> & _). unfold mbind, res_bind.
  destruct (lawful_separator u w Hu Hw) as (t & -> & Ht & _). match goal with |- context [match ?x with Ok a => if a <? 0 then _ else _ | _ => _ end] => destruct x as [c| |]; [|done..] end.
  destruct (c <? 0); [|by intros [= <-]]. destruct (Internal.PackSequenceAndType _ _); [|done..]. destruct (Internal.compare C start _); [|done..]. destruct (SkipList.assert_ _); [|done..].
  destruct (Internal.compare C _ limit); [|done..]. destruct (SkipList.assert_ _); [|done..]. intros [= <-]. apply fixed64_bytes. by apply Hvb.
Qed.

Lemma successor_bytes k r : valid_key k → Internal.find_successor C k = Ok r → Forall is_byte r.
Proof.
  intros [(u & n & Es & Hu & _) Hs]. unfold Internal.find_successor.
  destruct (split_internal_Some _ _ _ Es) as (-> & _). unfold mbind, res_bind.
  destruct (lawful_successor u Hu) as (t & -> & Ht & _). match goal with |- context [match ?x with Ok a => if a <? 0 then _ else _ | _ => _ end] => destruct x as [c| |]; [|done..] end.
  destruct (c <? 0); [|by intros [= <-]]. destruct (Internal.PackSequenceAndType _ _); [|done..]. destruct (Internal.compare C k _); [|done..]. destruct (SkipList.assert_ _); [|done..].
  intros [= <-]. apply fixed64_bytes. by apply Hvb.
Qed.

#[export] Instance valid_key_lawful : Lawful (Internal.InternalKeyComparator C) (dom_internal (λ _, True)) valid_key (internal_order ord).
Proof.
  pose proof (internal_lawful C (λ _, True) valid ord) as HL. split.
  - apply HL.
  - intros k [Hk _]. by apply HL.
  - apply HL.
  - intros start limit Hs Hl. destruct (lawful_separator (Lawful := HL) start limit (proj1 Hs) (proj1 Hl)) as (r & E & Hr & Hc). exists r. split; [done|]. split; [|done]. split; [done|]. by exact (separator_bytes start limit r Hs Hl E).
  - intros k Hk. destruct (lawful_successor (Lawful := HL) k (proj1 Hk)) as (r & E & Hr & Hc). exists r. split; [done|]. split; [|done]. split; [done|]. by exact (successor_bytes k r Hk E).
Qed.
End bytes.

(** * Tables in files *)

Section output.
Context (address : bytes → Z) (Haddr : ∀ b, 0 <= address b).
Context {E F Q : Type} {HE : Env E F Q} {HW : WritableFile F} {HS : SyncFile F} {disk : E → gmap bytes bytes} {name_of written : F → bytes}.
Context {HL : EnvLaws E F Q disk name_of written} (refused : F → Prop) {HD : Device F written refused}.
Context (C : SliceComparator) (valid : bytes → Prop) (ord : Comparator bytes) `{!Lawful C (λ _, True) valid ord} (Hvb : ∀ k, valid k → Forall is_byte k).
Context (o : Options) (Hint : 1 <= block_restart_interval o) (pol : NamedPolicy) (fdom : bytes → Prop).
Context (Hpol : match pol with Some (P, name) => FilterLaws P fdom ∧ Forall is_byte name | None => True end).
Implicit Types (l : list entry) (e : entry) (t : TableBuilder F).
#[local] Instance iord : Comparator bytes := internal_order ord.
#[local] Abbreviation entry_less := (λ a b, entry_cmp ord a b < 0).
#[local] Abbreviation inv := (inv (written := written) (refused := refused) (valid := valid_key valid) (ord := iord) o pol).
#[local] Instance ilawful : Lawful (Internal.InternalKeyComparator C) (dom_internal (λ _, True)) (valid_key valid) iord := valid_key_lawful C valid ord Hvb.

(** Entries that a table can be made of. *)
Record tableable (l : list entry) : Prop := {
  ta_fits : Forall fits l;
  ta_valid : Forall (λ e, valid (e_key e)) l;
  ta_sorted : StronglySorted entry_less l;
  ta_filter : pol ≠ None → LdbFilterProps.ready fdom ((pair_of <$> l).*1)
}.

Lemma tableable_app a b : tableable (a ++ b) → tableable a ∧ tableable b.
Proof.
  intros [H1 H2 H3 H4]. apply List.Forall_app in H1 as [? ?], H2 as [? ?]. apply StronglySorted_app in H3 as (_ & ? & ?).
  rewrite fmap_app, fmap_app in H4. split; (split; [done..|]); intros Hp; apply H4 in Hp; by apply ready_app in Hp as [? ?].
Qed.

Lemma tableable_sublist a b : sublist a b → tableable b → tableable a.
Proof.
  intros Hs [H1 H2 H3 H4]. assert (∀ P : entry → Prop, Forall P b → Forall P a) as Hall.
  { intros P Hb. rewrite list.Forall_forall in Hb |- *. intros e He. apply Hb. by eapply elem_of_sublist. }
  split; [by apply Hall..| |].
  - clear - H3 Hs. induction Hs as [|e a b Hs IH|e a b Hs IH]; [constructor| |].
    + inversion H3 as [|?? H4 H5]; subst. constructor; [by apply IH|]. rewrite list.Forall_forall in H5 |- *. intros x Hx. apply H5. by eapply elem_of_sublist.
    + inversion H3; subst. by apply IH.
  - intros Hp. eapply LdbFilterProps.ready_sublist; [|by apply H4]. by do 2 apply (fmap_sublist _ _ _).
Qed.

Lemma pol_ready l : tableable l → match pol with Some (P, _) => FilterLaws P fdom ∧ LdbFilterProps.ready fdom ((pair_of <$> l).*1) | None => True end.
Proof. intros [_ _ _ H5]. destruct pol as [[P name]|]; [|done]. destruct Hpol as [? _]. split; [done|]. by apply H5. Qed.
Lemma pol_name : match pol with Some (_, name) => Forall is_byte name | None => True end.
Proof. by destruct pol as [[P name]|]; [destruct Hpol|]. Qed.
Lemma tableable_valid l : tableable l → Forall (λ e : bytes * bytes, valid_key valid e.1 ∧ Forall is_byte e.2) (pair_of <$> l).
Proof.
  intros [H1 H2 _ _]. apply list.Forall_fmap, list.Forall_forall. intros e He. rewrite list.Forall_forall in H1, H2. specialize (H1 e He). cbn. split; [|apply H1].
  split; [|apply internal_bytes, H1]. exists (e_key e), (e_num e). split; [apply split_internal_internal; apply pack_range, H1|]. split; [by apply H2|]. apply pack_range, H1.
Qed.
Lemma tableable_ascending l : tableable l → ascending (ord := iord) (pair_of <$> l).
Proof. intros [H1 _ H3 _]. by apply (ascending_entries ord). Qed.
Lemma valid_key_bytes k : valid_key valid k → Forall is_byte k.
Proof. by intros [_ Hk]. Qed.

(** The bytes are a table of the entries. *)
Definition is_table (l : list entry) (data : bytes) : Prop :=
  ∃ ds ks fbytes fh meta index, table_file (ord := iord) (valid_key valid) pol (pair_of <$> l) data ds ks fbytes fh meta index.

(** A builder that was given the entries writes to the file. *)
Record writing (fname : bytes) (l : list entry) t : Prop := {
  wr_inv : inv t (pair_of <$> l);
  wr_name : name_of (file t) = fname
}.

Lemma names_append fname data f : name_of f = fname → name_of (Append data f).2 = fname.
Proof. intros <-. destruct (env_append (EnvLaws := HL) data f) as (s & f' & -> & En & _). done. Qed.

Context (Hflush : ∀ f, name_of (Flush f).2 = name_of f).

Lemma output_new fname f : name_of f = fname → written f = [] → ∃ t, TableBuilder.new pol o f = Ok t ∧ writing fname [] t ∧ NumEntries t = 0.
Proof.
  intros Hn Hw. assert (tableable []) as Ht. { split; [constructor..|]. intros _. split; [constructor|]. split; by vm_compute. }
  destruct (new_ok (valid := valid_key valid) (ord := iord) (refused := refused) o Hint pol [] fdom (pol_ready [] Ht) f Hw) as (t & E1 & Hi & Hs).
  exists t. split; [done|]. split; [split; [done|]; by rewrite (new_file_ok _ _ _ _ E1)|]. destruct (inv_ok _ _ _ _ Hi Hs) as (ds & lc & ks & Hf). apply (full_count _ _ _ _ _ _ _ Hf).
Qed.

Lemma output_add fname l e t : writing fname l t → tableable (l ++ [e]) →
  ∃ t', TableBuilder.Add (comparator := Internal.InternalKeyComparator C) address pol t (e_internal e) (e_value e) = Ok t' ∧ writing fname (l ++ [e]) t'.
Proof.
  intros [Hi Hn] Ht. assert (pair_of <$> l ++ [e] = (pair_of <$> l) ++ [pair_of e]) as Ea by by rewrite fmap_app.
  destruct (table_add_ok address Haddr ilawful valid_key_bytes o Hint pol (pair_of <$> l ++ [e]) (tableable_valid _ Ht) (tableable_ascending _ Ht) fdom (pol_ready _ Ht) t (pair_of <$> l) (pair_of e) [] Hi Ea) as (t' & E1 & Hi').
  exists t'. split; [exact E1|]. split; [by rewrite Ea|]. eapply (Add_file (comparator := Internal.InternalKeyComparator C) address pol (λ f, name_of f = fname)); [intros; by apply names_append|intros f <-; apply Hflush|exact E1|done].
Qed.

(** The number of entries counts unless the file has refused something. *)
Lemma output_entries fname l t : writing fname l t → status t = OK → NumEntries t = Z.of_nat (length l).
Proof. intros [Hi _] Hs. destruct (inv_ok _ _ _ _ Hi Hs) as (ds & lc & ks & Hf). unfold NumEntries. rewrite (full_count _ _ _ _ _ _ _ Hf). by rewrite length_fmap. Qed.

Lemma output_finish fname l t : writing fname l t → tableable l →
  ∃ s t', TableBuilder.Finish (comparator := Internal.InternalKeyComparator C) address pol t = Ok (s, t') ∧ name_of (file t') = fname ∧
    (s = OK → FileSize t' = Slice.size (written (file t')) ∧ is_table l (written (file t'))).
Proof.
  intros [Hi Hn] Ht.
  destruct (table_finish_ok address Haddr ilawful valid_key_bytes o Hint pol (pair_of <$> l) (tableable_valid _ Ht) (tableable_ascending _ Ht) fdom (pol_ready _ Ht) pol_name t Hi) as (t' & E1 & Hr).
  exists (status t'), t'. split; [done|]. split.
  - eapply (Finish_file (comparator := Internal.InternalKeyComparator C) address pol (λ f, name_of f = fname)); [intros; by apply names_append|intros f <-; apply Hflush|exact E1|done].
  - intros Hs. destruct Hr as [(_ & Hsz & ds & ks & fb & fh & meta & index & Htf)|[Hbad _]]; [|done]. split; [done|]. by exists ds, ks, fb, fh, meta, index.
Qed.

Lemma output_abandon fname l t : writing fname l t → Abandon t = Ok (set_closed t).
Proof. intros [Hi _]. unfold Abandon. by rewrite (inv_closed _ _ _ _ Hi). Qed.

(** Closing a file. *)
Lemma close_table_ok s f (env : E) : ∃ s' env', close_table s f env = (s', env') ∧ (∀ n, n ≠ name_of f → disk env' !! n = disk env !! n) ∧
  (s' = OK → s = OK ∧ disk env' !! name_of f = Some (written f)).
Proof.
  unfold close_table. set (x := if Status.ok s then Sync f else (s, f)).
  assert (∃ s1 f1, x = (s1, f1) ∧ name_of f1 = name_of f ∧ (s1 = OK → s = OK ∧ written f1 = written f)) as (s1 & f1 & -> & N1 & W1).
  { unfold x. destruct s as [s|]; cbn [Status.ok]; [by eexists _, _|]. destruct (env_sync (EnvLaws := HL) f) as (s1 & f1 & -> & N1 & W1). eexists _, _. split; [done|]. split; [done|]. intros E1. split; [done|by apply W1]. }
  set (y := if Status.ok s1 then Close f1 else (s1, f1)).
  assert (∃ s2 f2, y = (s2, f2) ∧ name_of f2 = name_of f ∧ (s2 = OK → s = OK ∧ disk (delete_file f2 env) !! name_of f = Some (written f))) as (s2 & f2 & -> & N2 & W2).
  { unfold y. destruct s1 as [s1|]; cbn [Status.ok]; [by eexists _, _|]. destruct (W1 eq_refl) as [-> Hw1]. destruct (env_close (EnvLaws := HL) f1) as (s2 & f2 & -> & N2 & W2). eexists _, _. split; [done|].
    split; [by rewrite N2|]. intros E2. split; [done|]. rewrite <- N1, <- Hw1. by apply W2. }
  eexists _, _. split; [done|]. split; [intros n N; apply (env_delete (EnvLaws := HL)); by rewrite N2|done].
Qed.
End output.

(** * The names of tables *)
Definition table_name (dbname : bytes) (n : Z) : bytes := Filename.MakeFileName dbname n (str "ldb").
Lemma TableFileName_ok dbname n : 0 < n → Filename.TableFileName dbname n = Ok (table_name dbname n).
Proof. intros Hn. unfold Filename.TableFileName. by rewrite (proj2 (Z.ltb_lt 0 n)). Qed.
Lemma table_name_inj dbname n m : 0 < n < 2 ^ 64 → 0 < m < 2 ^ 64 → table_name dbname n = table_name dbname m → n = m.
Proof.
  intros Hn Hm Ex. unfold table_name, Filename.MakeFileName in Ex. apply app_inv_head, app_inv_head in Ex.
  pose proof (parse_names _ _ _ (names_table n Hn)) as H1. pose proof (parse_names _ _ _ (names_table m Hm)) as H2.
  change (str "." ++ str "ldb") with (str ".ldb") in Ex. rewrite Ex, H2 in H1. by injection H1.
Qed.

(** * Files in memory, for examples

    Every append below the size limit works; tables are always opened with success. *)
Definition no_tables : TableCache (MemoryEnv * unit) ListIterator := {|
  table_NewIterator _ _ _ w := Ok (mkListIterator [] None, w);
  table_Get _ _ _ _ w := Ok (OK, None, w)
|}.
Lemma memory_device : Device MemoryFile mf_data (λ _, True).
Proof.
  split.
  - intros data f. cbn. destruct (Z.ltb_spec (Slice.size (mf_data f ++ data)) (2 ^ 32)) as [L|L]; (eexists _, _; split; [done|]); [by left|by right].
  - intros f. eexists _, _. split; [done|]. by left.
Qed.

(** * Memory tables become files *)
Import Status Filename VersionSet Db LdbIterator.

(** * The iterator of a memory table *)
Section mem.
Context (C : SliceComparator) (valid : bytes → Prop) (ord : Comparator bytes) `{!Lawful C (λ _, True) valid ord}.
#[local] Existing Instance mem_iterator.

Definition mem_at (m : MemTable.MemTable) (sorted : list entry) (s : MemTableIterator) (i : nat) : Prop :=
  iter_mem s = m ∧ (i <= length sorted)%nat ∧ ∃ x suf, path (SkipList.nodes (MemTable.table_ m)) 0 x suf ∧
    LdbSkipProps.contents (SkipList.nodes (MemTable.table_ m)) suf (encode_entry <$> drop i sorted) ∧ iter_node s = head suf.

Lemma mem_forward m sorted : Forall fits sorted → Forward (H := mem_iterator C) MemTableIterator (pair_of <$> sorted) (mem_at m sorted).
Proof.
  intros Hf. split.
  - intros s i (Em & L & x & suf & Hp & Hc & En) Hv. cbn in Hv. rewrite En in Hv. unfold SkipList.Iterator_Valid in Hv. rewrite bool_decide_eq_true in Hv.
    destruct suf as [|y suf]; [by destruct Hv|]. apply Forall2_cons_inv_l in Hc as (k & l & Hy & Hc & El).
    destruct (drop i sorted) as [|e rest] eqn:Ed; [done|]. rewrite fmap_cons in El. injection El as <- <-. exists (pair_of e).
    assert (sorted !! i = Some e) as Ei by (rewrite <- (Nat.add_0_r i), <- lookup_drop, Ed; done). rewrite list_lookup_fmap, Ei. split; [done|].
    assert (drop (S i) sorted = rest) as Ed' by (rewrite <- Nat.add_1_r, <- drop_drop, Ed; done). apply lookup_lt_Some in Ei as Li.
    assert (fits e) as He. { rewrite list.Forall_forall in Hf. apply Hf. by eapply list_elem_of_lookup_2. } destruct Hp as [_ Hp].
    cbn [key value Next mem_iterator]. rewrite Em, En. unfold MemTable.iter_key, MemTable.iter_value. cbn [SkipList.Iterator_key SkipList.Iterator_Next head hd_error]. rewrite Hy.
    unfold mbind, res_bind. unfold MemTable.GetLengthPrefixedSlice at 1. rewrite encode_entry_slice by done. unfold mbind, res_bind. rewrite prefixed_only by apply He.
    split; [done|]. split; [done|]. assert (SkipList.Next (SkipList.nodes (MemTable.table_ m)) y 0 = Ok (head suf)) as -> by (by destruct suf; [|destruct Hp]).
    eexists. split; [done|]. split; [done|]. split; [lia|]. exists y, suf. by rewrite Ed'.
  - intros s i (Em & L & x & suf & Hp & Hc & En) Hv _. cbn in Hv. rewrite En in Hv. unfold SkipList.Iterator_Valid in Hv. rewrite bool_decide_eq_false in Hv.
    destruct suf as [|y suf]; [|by destruct Hv]. apply Forall2_nil_inv_l in Hc. apply (f_equal length) in Hc. rewrite length_fmap, length_drop in Hc. rewrite length_fmap. cbn in Hc. lia.
  - intros s i (_ & L & _). by rewrite length_fmap.
Qed.

Lemma mem_first m es : LdbMemTableProps.holds C m es → ∃ sorted s, sorted ≡ₚ es ∧ StronglySorted (λ a b, entry_cmp ord a b < 0) sorted ∧ Forall fits sorted ∧
  SeekToFirst (Iterator := mem_iterator C) (NewMemIterator m) = Ok s ∧ mem_at m sorted s 0.
Proof.
  intros (sorted & Hr & P & Hfit). assert (Forall fits sorted) as Hfs by by rewrite P.
  pose proof (represents_sorted _ _ Hr) as Hso. destruct Hr as (Cn & Hsk & Hc). exists sorted, (mkMemIter m (head (Cn 0%nat))). split; [done|]. split; [by apply (sorted_entries C valid ord)|]. split; [done|].
  pose proof (rep_path _ _ (sk_rep _ _ Hsk) 0 ltac:(unfold SkipList.kMaxHeight; lia)) as Hp. split.
  - cbn [SeekToFirst mem_iterator NewMemIterator iter_mem]. assert (SkipList.Iterator_SeekToFirst (MemTable.table_ m) = Ok (head (Cn 0%nat))) as -> by (unfold SkipList.Iterator_SeekToFirst; by destruct (Cn 0%nat); [|destruct Hp]). done.
  - split; [done|]. split; [lia|]. by eexists _, _.
Qed.
End mem.

(** * [BuildTable] *)
Section build.
Context (address : bytes → Z) (Haddr : ∀ b, 0 <= address b).
Context {E F Q K TI : Type} {HE : Env E F Q} {HW : WritableFile F} {HS : SyncFile F} {HT : TableCache (E * K) TI} {HTI : Iterator TI}.
Context {disk : E → gmap bytes bytes} {name_of written : F → bytes} {HL : EnvLaws E F Q disk name_of written} (refused : F → Prop) {HD : Device F written refused}.
Context (Hflush : ∀ f : F, name_of (Flush f).2 = name_of f).
Context (C : SliceComparator) (valid : bytes → Prop) (ord : Comparator bytes) `{!Lawful C (λ _, True) valid ord} (Hvb : ∀ k, valid k → Forall is_byte k).
Context (pol : NamedPolicy) (o : DBOptions) (dbname : bytes) (fdom : bytes → Prop).
Context (Hint : 1 <= block_restart_interval (table_options o)).
Context (Hpol : match pol with Some (P, name) => FilterLaws P fdom ∧ Forall is_byte name | None => True end).
Context (Hverify : ∀ n z (w : E * K), ∃ it w', table_NewIterator (Table.mkRead false true) n z w = Ok (it, w') ∧ disk w'.1 = disk w.1).
#[local] Abbreviation tableable := (tableable valid ord pol fdom).
#[local] Abbreviation writing := (writing (name_of := name_of) (written := written) refused valid ord (table_options o) pol).
#[local] Abbreviation is_table := (is_table valid ord pol).
Implicit Types (es : list entry) (w : E * K).

#[local] Abbreviation table_name := (table_name dbname).

Lemma is_table_size l data : is_table l data → 0 < Slice.size data.
Proof. intros (ds & ks & fb & fh & meta & index & H). rewrite (tf_file _ _ _ _ _ _ _ _ _ _ H). unfold Slice.size. rewrite !length_app, footer_length. lia. Qed.

Section iter.
Context {I : Type} {HI : Iterator I} (es : list entry) (at_ : I → nat → Prop) {HFw : Forward I (pair_of <$> es) at_} (Hes : tableable es).

Lemma build_loop_ok fname fuel : ∀ i iter b last, at_ iter i → writing fname (take i es) b → e_internal <$> list.last (take i es) = last → (length es < fuel + i)%nat →
  ∃ iter' b' largest j, build_loop address C pol fuel iter b (default [] last) = Ok (iter', b', largest) ∧ at_ iter' j ∧ (i <= j)%nat ∧ Valid iter' = false ∧
    writing fname (take j es) b' ∧ largest = default [] (e_internal <$> list.last (take j es)).
Proof.
  induction fuel as [|fuel IH]; intros i iter b last Ha Hw Hlast Hf.
  { pose proof (fw_bound (Forward := HFw) _ _ Ha) as Hb. rewrite length_fmap in Hb. lia. }
  cbn [build_loop]. destruct (Valid iter) eqn:Ev; [|exists iter, b, (default [] last), i; split; [done|]; split; [done|]; split; [done|]; split; [done|]; split; [done|]; by rewrite <- Hlast].
  destruct (fw_entry (Forward := HFw) _ _ Ha Ev) as (x & Hx & -> & -> & iter' & En & Ha'). rewrite list_lookup_fmap in Hx. destruct (es !! i) as [e|] eqn:Ee; [|done]. injection Hx as <-.
  assert (take (S i) es = take i es ++ [e]) as Et by by apply take_S_r. unfold mbind, res_bind. cbn [fst snd pair_of].
  destruct (output_add address Haddr refused C valid ord Hvb (table_options o) Hint pol fdom Hpol Hflush fname (take i es) e b Hw) as (b' & -> & Hw').
  { eapply tableable_sublist; [|exact Hes]. rewrite <- Et. apply sublist_take. }
  rewrite En. rewrite <- Et in Hw'. destruct (IH (S i) iter' b' (Some (e_internal e)) Ha' Hw') as (iter2 & b2 & largest & j & Eq & Ha2 & L & Hv2 & Hw2 & Hl2); [rewrite Et, list.last_snoc; done|lia|].
  exists iter2, b2, largest, j. split; [exact Eq|]. split; [done|]. split; [lia|done].
Qed.

(** What the file and its description say of the entries. *)
Record described (n : Z) (w : E * K) (meta : FileMetaData) : Prop := {
  ds_number : number meta = n;
  ds_file : ∃ data, disk w.1 !! table_name n = Some data ∧ file_size meta = Slice.size data ∧ is_table es data;
  ds_smallest : e_internal <$> head es = Some (smallest meta);
  ds_largest : e_internal <$> list.last es = Some (largest meta)
}.

Lemma write_table_ok fuel n iter f w : name_of f = table_name n → written f = [] → at_ iter 0 → Valid iter = true → (length es < fuel)%nat →
  ∃ s meta iter' j w', write_table address C pol o fuel n iter f w = Ok (s, meta, iter', w') ∧ at_ iter' j ∧ Valid iter' = false ∧
    (∀ name, name ≠ table_name n → disk w'.1 !! name = disk w.1 !! name) ∧ (s = OK → status iter' = OK → described n w' meta ∧ 0 < file_size meta).
Proof.
  intros Hn Hw Ha Hv Hf. unfold write_table. destruct (output_new refused valid ord (table_options o) Hint pol fdom Hpol (table_name n) f Hn Hw) as (b & -> & Hwb & _).
  destruct (fw_entry (Forward := HFw) _ _ Ha Hv) as (x & Hx & Ek & _). rewrite list_lookup_fmap in Hx. destruct (es !! 0%nat) as [e|] eqn:Ee; [|done]. injection Hx as <-. unfold mbind, res_bind. rewrite Ek.
  destruct (build_loop_ok (table_name n) fuel 0 iter b None Ha Hwb eq_refl ltac:(lia)) as (iter' & b' & largest & j & Eb & Ha' & _ & Hv' & Hw' & El). cbn [default] in Eb. rewrite Eb.
  destruct (output_finish address Haddr refused C valid ord Hvb (table_options o) Hint pol fdom Hpol Hflush (table_name n) (take j es) b' Hw') as (s & b2 & -> & Hname & Hfin).
  { eapply tableable_sublist; [|exact Hes]. apply sublist_take. }
  set (size := if ok s then _ else 0). assert (s = OK → size = Slice.size (written (TableBuilder.file b2)) ∧ 0 < size ∧ is_table (take j es) (written (TableBuilder.file b2))) as Hsize.
  { intros ->. destruct (Hfin eq_refl) as [Es Ht]. unfold size. change (ok OK) with true. cbn iota. rewrite Es. split; [done|]. split; [|done]. by eapply is_table_size. }
  assert (SkipList.assert_ (negb (ok s) || (0 <? size)) = Ok tt) as ->.
  { destruct (ok s) eqn:Es; [|done]. apply ok_iff in Es. destruct (Hsize Es) as (_ & L & _). by rewrite (proj2 (Z.ltb_lt _ _) L). }
  destruct (close_table_ok (HL := HL) s (TableBuilder.file b2) w.1) as (s2 & e2 & -> & Hoth & Hok). rewrite Hname in Hoth, Hok.
  set (r := if ok s2 then _ else _). assert (∃ s3 w', r = Ok (s3, w') ∧ disk w'.1 = disk e2 ∧ (s3 = OK → s2 = OK)) as (s3 & w' & -> & Hd & Hs3).
  { unfold r, verify_table. destruct (ok s2) eqn:Es2; [|exists s2, (e2, w.2); by split]. destruct (Hverify n size (e2, w.2)) as (it & w' & -> & Hd). exists (status it), w'. split; [done|]. split; [exact Hd|]. intros _. by apply ok_iff. }
  eexists s3, _, iter', j, w'. split; [done|]. split; [done|]. split; [done|]. split; [intros name N; rewrite Hd; by apply Hoth|]. intros Es3 Hst. destruct (Hok (Hs3 Es3)) as [Es Hdisk]. destruct (Hsize Es) as (Ez & Lz & Ht).
  pose proof (fw_end (Forward := HFw) _ _ Ha' Hv' Hst) as Ej. rewrite length_fmap in Ej. assert (take j es = es) as Et by (rewrite Ej; apply firstn_all). rewrite Et in Ht, El. split; [|exact Lz]. split.
  - done.
  - exists (written (TableBuilder.file b2)). rewrite Hd. split; [done|]. split; [exact Ez|done].
  - destruct es as [|e0 es0]; [done|]. cbn in Ee. by injection Ee as <-.
  - rewrite El. destruct (list.last es) as [z|] eqn:Ez2; [done|]. apply list.last_None in Ez2. by rewrite Ez2 in Ee.
Qed.

(** [BuildTable] of entries in order: if the status is OK then there is a table of exactly
    these entries in the file of the number, described by its size, its first and its last key;
    or there were no entries, and there is no file. No other file changes. *)
Theorem build_table_correct fuel n iter iter0 w : 0 < n → SeekToFirst iter = Ok iter0 → at_ iter0 0 → (length es < fuel)%nat →
  ∃ s meta w', BuildTable address C pol o dbname fuel n iter w = Ok (s, meta, w') ∧ (∀ name, name ≠ table_name n → disk w'.1 !! name = disk w.1 !! name) ∧
    (s = OK → es ≠ [] ∧ described n w' meta ∧ 0 < file_size meta ∨ es = [] ∧ file_size meta = 0).
Proof.
  intros Hn Es Ha Hf. unfold BuildTable. rewrite Es. unfold mbind at 1, res_bind at 1. rewrite TableFileName_ok by done. unfold mbind at 1, res_bind at 1.
  destruct (Valid iter0) eqn:Ev.
  - destruct (env_new (EnvLaws := HL) (table_name n) w.1) as (s & r & e' & -> & Hnew & Hoth). destruct (ok s) eqn:Eok; cbn [negb].
    2:{ eexists s, _, (e', w.2). split; [done|]. split; [done|]. intros ->. done. }
    apply ok_iff in Eok. destruct (Hnew Eok) as (f & -> & Hfn & Hfw). unfold mbind at 1, res_bind at 1. cbn [of_option].
    destruct (write_table_ok fuel n iter0 f (e', w.2) Hfn Hfw Ha Ev Hf) as (s1 & meta & iter' & j & w' & -> & Ha' & Hv' & Hd & Hok). unfold mbind, res_bind.
    set (s2 := if ok (status iter') then s1 else status iter'). assert (s2 = OK → s1 = OK ∧ status iter' = OK) as Hs2 by (unfold s2; destruct (ok (status iter')) eqn:Ei; [apply ok_iff in Ei; by split|apply ok_false in Ei; by intros]).
    assert (es ≠ []) as Hne. { intros E0. destruct (fw_entry (Forward := HFw) _ _ Ha Ev) as (x & Hx & _). by rewrite E0 in Hx. }
    destruct (ok s2 && (0 <? file_size meta)) eqn:Ek.
    + eexists s2, meta, w'. split; [done|]. split; [intros name N; rewrite Hd by done; by apply Hoth|]. intros E2. left. destruct (Hs2 E2) as [E1 Ei]. split; [done|]. by apply Hok.
    + eexists s2, meta, _. split; [done|]. split; [intros name N; cbn [fst]; rewrite (env_remove (EnvLaws := HL)) by done; rewrite Hd by done; by apply Hoth|].
      intros E2. exfalso. destruct (Hs2 E2) as [E1 Ei]. destruct (Hok E1 Ei) as [_ L]. rewrite E2, (proj2 (Z.ltb_lt _ _) L) in Ek. done.
  - set (s2 := if ok (status iter0) then OK else status iter0). change (0 <? file_size (VersionEdit.new_file n 0 [] [])) with false. rewrite andb_false_r.
    eexists s2, _, _. split; [done|]. split; [intros name N; cbn [fst]; by apply (env_remove (EnvLaws := HL))|]. intros E2. right. split; [|done].
    assert (status iter0 = OK) as Ei. { unfold s2 in E2. destruct (ok (status iter0)) eqn:Ei; [by apply ok_iff|done]. }
    pose proof (fw_end (Forward := HFw) _ _ Ha Ev Ei) as Ej. rewrite length_fmap in Ej. by destruct es.
Qed.
End iter.
End build.

(** * An example

    Two entries become a table of a database in memory. *)
#[local] Existing Instances no_tables memory_device.
Definition built_entries : list entry := [mkEntry [97] 7 Internal.kTypeValue [120]; mkEntry [98] 5 Internal.kTypeDeletion []].
Definition small_options : DBOptions := mkDBOptions true false false 4194304 2097152 (mkOptions 4096 16 Format.kNoCompression false).

Lemma build_table_correct_witness : ∃ meta w, BuildTable (λ _, 0) Bytewise.BytewiseComparator None small_options (str "db") 3 4 (mkListIterator (pair_of <$> built_entries) None) (mkMemoryEnv ∅ false, ()) = Ok (OK, meta, w) ∧
  described (disk := me_files) (Forall is_byte) bytewise_order None (str "db") built_entries 4 w meta.
Proof.
  assert (tableable (Forall is_byte) bytewise_order None (λ _, True) built_entries) as Ht.
  { split; [repeat constructor; done|repeat constructor; done| |done]. repeat constructor; by vm_compute. }
  destruct (build_table_correct (λ _, 0) ltac:(done) (E := MemoryEnv) (Q := bytes) (K := unit) (TI := ListIterator) (HL := memory_laws) (λ _, True) ltac:(done) Bytewise.BytewiseComparator (Forall is_byte) bytewise_order
    ltac:(done) None small_options (str "db") (λ _, True) ltac:(cbn; lia) I ltac:(intros n z w; by eexists _, _) built_entries _ (HFw := list_forward (pair_of <$> built_entries)) Ht 3 4
    (mkListIterator (pair_of <$> built_entries) None) (mkListIterator (pair_of <$> built_entries) (Some 0%nat)) (mkMemoryEnv ∅ false, ())) as (s & meta & w & E & _ & Hok); [lia|done|split; [done|split; [done|lia]]|cbn; lia|].
  match type of E with ?r = _ => assert (match r with Ok (s, m, _) => ok s && negb (file_size m =? 0) | _ => false end = true) as Hc by (vm_compute; reflexivity) end.
  rewrite E in Hc. apply andb_true_iff in Hc as [->%ok_iff Hz%negb_true_iff%Z.eqb_neq]. exists meta, w. split; [exact E|]. destruct (Hok eq_refl) as [(_ & Hd & _)|[[=] _]]. exact Hd.
Defined.
