(* ===== verification/LdbDbCompactProps.v ===== *)
(** The outputs of a compaction: whatever the other threads do meanwhile, and whatever fails,
    if the work ends without an error then the outputs are tables of all entries that are
    kept, in order, in files of their own. *)
From Stdlib Require Import Sorting.Sorted.
From stdpp Require Import sorting.
From S2P Require Import Prelude LdbSkip LdbSkipLemmas LdbFormat LdbCodingProps LdbOrder LdbKeyProps LdbMemTable LdbMemTableProps LdbLog LdbFilter LdbFilterProps LdbIterator LdbBlock LdbTable LdbTableFileProps LdbTableReadProps LdbVersionEdit LdbVersion LdbVersionProps LdbVersionGet LdbVersionSet LdbVersionSetProps LdbEnv LdbEnvProps LdbCompaction LdbCompactionProps LdbDb LdbDbCompact LdbDropProps LdbOutputProps.
Import Status Filename Version VersionSet Compaction Db DbCompact.

(** * The work *)

Section work.
Context (address : bytes → Z) (Haddr : ∀ b, 0 <= address b).
Context {E F Q K TI : Type} {HE : Env E F Q} {HW : WritableFile F} {HS : SyncFile F} {HQ : SequentialFile Q} {HT : TableCache (E * K) TI} {HTI : Iterator TI} {HV : Evicts K}.
Context {disk : E → gmap bytes bytes} {name_of written : F → bytes} {HL : EnvLaws E F Q disk name_of written} (refused : F → Prop) {HD : Device F written refused}.
Context (Hflush : ∀ f : F, name_of (Flush f).2 = name_of f).
Context (C : SliceComparator) (valid : bytes → Prop) (ord : Comparator bytes) `{!Lawful C (λ _, True) valid ord} (Hvb : ∀ k, valid k → Forall is_byte k).
Context (cname : bytes) (pol : NamedPolicy) (o : DBOptions) (dbname : bytes) (fdom : bytes → Prop).
Context (Hint : 1 <= block_restart_interval (table_options o)) (Hopt : options_ok (max_file_size o)).
Context (Hpol : match pol with Some (P, name) => FilterLaws P fdom ∧ Forall is_byte name | None => True end).
#[local] Abbreviation DB := (DBImpl (E := E) (F := F) (K := K)).
#[local] Abbreviation CS := (CompactionState (F := F)).
Context (others : nat → DB → DB) (mem_fuel : nat).
#[local] Abbreviation ucmp := (@compare_ bytes ord).
#[local] Abbreviation entry_less := (λ a b, entry_cmp ord a b < 0).
#[local] Abbreviation tableable := (tableable valid ord pol fdom).
#[local] Abbreviation writing := (writing (name_of := name_of) (written := written) refused valid ord (table_options o) pol).
#[local] Abbreviation is_table := (is_table valid ord pol).
Implicit Types (e : entry) (es chunk : list entry) (d : DB) (c : CS) (cm : Compaction) (out : Output).
#[local] Instance worder : Order bytes (H := ord).
Proof. exact (lawful_order (Lawful := Lawful0)). Qed.

#[local] Abbreviation table_name := (table_name dbname).

(** ** What the others and this thread change

    [p] is the version that the compaction refers to. Numbers are given once; files of numbers
    that are pending are left alone. *)
Context (p : nat) (v : Version).
Definition next_number (d : DB) : Z := next_file_number_ (versions_ d).
Definition holds_version (d : DB) : Prop := ∃ v', versions (versions_ d) !! p = Some v' ∧ files_ v' = files_ v.
Record keeps (d d' : DB) : Prop := {
  kp_numbers : next_number d <= next_number d' <= Z.max (next_number d) (2 ^ 63);
  kp_pending : pending_outputs_ d ⊆ pending_outputs_ d';
  kp_files n : n ∈ pending_outputs_ d → disk (env_ d') !! table_name n = disk (env_ d) !! table_name n;
  kp_version : holds_version d → holds_version d';
  kp_shutdown : shutting_down_ d = true → shutting_down_ d' = true
}.
(** The thread takes new numbers and writes files of pending numbers. *)
Record own (d d' : DB) : Prop := {
  ow_fields : ∃ w k s P t, d' = d <| env_ := w |> <| table_cache_ := k |> <| versions_ := s |> <| pending_outputs_ := P |> <| clock := t |>;
  ow_numbers : versions_ d' = set_numbers (versions_ d) (next_number d') (manifest_file_number_ (versions_ d)) (last_sequence_ (versions_ d)) (log_number_ (versions_ d)) (prev_log_number_ (versions_ d));
  ow_next : next_number d <= next_number d';
  ow_pending : pending_outputs_ d ⊆ pending_outputs_ d';
  ow_files name : (∀ n, n ∈ pending_outputs_ d' → name ≠ table_name n) → disk (env_ d') !! name = disk (env_ d) !! name
}.

(** [J] is what the threads keep in common. *)
Context (J : DB → Prop) (Jown : ∀ d d', own d d' → J d → J d').
Context (Jothers : ∀ n d, J d → J (others n d) ∧ keeps d (others n d)).
Context (Jmem : ∀ d, J d → is_Some (imm_ d) → ∃ d', CompactMemTable (TI := TI) address C cname pol o dbname others mem_fuel d = Ok d' ∧ J d' ∧ keeps d d').
Context (Hverify : ∀ n z (w : E * K), ∃ it w', table_NewIterator (Table.mkRead false true) n z w = Ok (it, w') ∧ disk w'.1 = disk w.1).

Lemma keeps_refl d : keeps d d.
Proof. split; [lia|done..]. Qed.
Lemma keeps_trans d1 d2 d3 : keeps d1 d2 → keeps d2 d3 → keeps d1 d3.
Proof.
  intros [A1 A2 A3 A4 A5] [B1 B2 B3 B4 B5]. split; [lia|set_solver| |by eauto..]. intros n Hn. rewrite B3 by set_solver. by apply A3.
Qed.
Lemma own_tick d : own d (d <| clock := S (clock d) |>).
Proof. split; [by exists (env_ d), (table_cache_ d), (versions_ d), (pending_outputs_ d), (S (clock d)); destruct d|by destruct d as [????????????????[]]|done..]. Qed.
Lemma keeps_clock d d' t : keeps d d' → keeps d (d' <| clock := t |>).
Proof. intros [A1 A2 A3 A4 A5]. by split. Qed.

Lemma meanwhile_ok d : J d → J (Meanwhile others d) ∧ keeps d (Meanwhile others d).
Proof.
  intros Hj. destruct (Jothers (clock d) d Hj) as [H1 H2]. unfold Meanwhile.
  set (d1 := others (clock d) d) in *. split; [|by apply keeps_clock]. apply (Jown d1); [|done].
  split; [|by destruct d1 as [????????????????[]]|done..].
  exists (env_ d1), (table_cache_ d1), (versions_ d1), (pending_outputs_ d1), (S (clock d)). by destruct d1.
Qed.

(** ** What the compaction knows *)

Context (level : nat) (cm0 : Compaction) (snapshot : Z).
Context (Hv : levels_apart ord v) (Hcount : ∀ l files, files_ v !! l = Some files → Z.of_nat (length files) < 2 ^ 31).
Context (Hlevel : level_ cm0 = Z.of_nat level) (Hversion : input_version_ cm0 = Some p).
Context (Hgrand : Forall file_keys (grandparents_ cm0)) (Hsizes : small_sizes (grandparents_ cm0)) (Hgcount : Z.of_nat (length (grandparents_ cm0)) < 2 ^ 31).

(** No file of the levels below the next one has the key in its range. *)
Definition base_key (k : bytes) : bool := forallb (λ files, negb (existsb (in_range ord k) files)) (drop (level + 2) (files_ v)).
Lemma base_key_ok k : base_key k = true ↔ base_level ord v (level + 2) k.
Proof.
  unfold base_key. rewrite forallb_forall. split.
  - intros H lvl files f Hl Hf Hin. assert (In files (drop (level + 2) (files_ v))) as Hx.
    { apply list_elem_of_In, (list_elem_of_lookup_2 _ (lvl - (level + 2))). rewrite lookup_drop. by replace (level + 2 + (lvl - (level + 2)))%nat with lvl by lia. }
    specialize (H files Hx). apply negb_true_iff, not_true_iff_false in H. apply not_true_iff_false. intros Hr. apply H, existsb_exists. exists f. by split; [apply list_elem_of_In|].
  - intros H files Hin. apply list_elem_of_In, list_elem_of_lookup_1 in Hin as [i Hi]. rewrite lookup_drop in Hi. apply negb_true_iff, not_true_iff_false. intros (f & Hf & Hr)%existsb_exists.
    rewrite (H (level + 2 + i)%nat files f) in Hr; [done|lia|done|by apply list_elem_of_In].
Qed.

(** Only how far the compaction is changes. *)
Record comp_ok (later : list entry) (cm : Compaction) : Prop := {
  co_same : ∃ i seen n ptrs, cm = set_level_ptrs (set_progress cm0 i seen n) ptrs;
  co_ptrs e : e ∈ later → ptrs_ok ord v (level + 2) (level_ptrs_ cm) (e_key e);
  co_index : 0 <= grandparent_index_ cm <= Z.of_nat (length (grandparents_ cm0));
  co_overlap : 0 <= overlapped_bytes_ cm ∧ overlapped_bytes_ cm + total (drop (Z.to_nat (grandparent_index_ cm)) (grandparents_ cm0)) < 2 ^ 62
}.

Lemma comp_ok_fields later cm : comp_ok later cm → level_ cm = Z.of_nat level ∧ input_version_ cm = Some p ∧ grandparents_ cm = grandparents_ cm0 ∧ max_output_file_size_ cm = max_output_file_size_ cm0.
Proof. intros [(i & seen & n & ptrs & ->) _ _ _]. cbn. by rewrite Hlevel. Qed.

Lemma comp_ok_less e later cm : comp_ok (e :: later) cm → comp_ok later cm.
Proof. intros [H1 H2 H3 H4]. split; [done| |done|done]. intros x Hx. apply H2. by right. Qed.

Lemma total_take_drop n files : total files = total (take n files) + total (drop n files).
Proof. revert files. induction n as [|n IH]; intros files; [by rewrite drop_0|]. destruct files as [|f files]; [done|]. cbn. rewrite (IH files). lia. Qed.
Lemma total_nonneg files : Forall (λ f, 0 <= fsize f) files → 0 <= total files.
Proof. induction 1; cbn; lia. Qed.

Lemma ShouldStopBefore_ok later cm e : comp_ok later cm → fits e →
  ∃ b cm', ShouldStopBefore C (max_file_size o) (e_internal e) cm = Ok (b, cm') ∧ comp_ok later cm'.
Proof.
  intros Hc He. pose proof (comp_ok_fields _ _ Hc) as (_ & _ & Eg & _). destruct Hc as [(i & seen & n & ptrs & ->) H2 H3 [H4 H5]]. cbn [grandparent_index_ overlapped_bytes_ set_level_ptrs set_progress] in *.
  unfold ShouldStopBefore. cbn [grandparent_index_ overlapped_bytes_ seen_key_ grandparents_ set_level_ptrs set_progress].
  assert (small_sizes (drop (Z.to_nat i) (grandparents_ cm0))) as Hs.
  { destruct Hsizes as [S1 S2]. split; [by apply Forall_drop|]. rewrite (total_take_drop (Z.to_nat i)) in S2. pose proof (total_nonneg _ (Forall_take _ (Z.to_nat i) _ S1)). lia. }
  destruct (stop_loop_ok C valid ord (e_internal e) (drop (Z.to_nat i) (grandparents_ cm0)) seen i n) as (m & Hm & Em & _ & _); [by apply e_internal_key|by apply Forall_drop|done|lia|lia|rewrite length_drop; lia|lia|].
  rewrite Em. unfold mbind, res_bind. assert (MaxGrandParentOverlapBytes (max_file_size o) = Ok (10 * max_file_size o)) as ->.
  { destruct Hopt as [O1 O2]. unfold MaxGrandParentOverlapBytes, TargetFileSize, int_product. unfold s32. rewrite swrap_small by lia. rewrite (proj2 (Z.leb_le _ _)), (proj2 (Z.ltb_lt _ _)) by lia. done. }
  rewrite length_drop in Hm. rewrite (total_take_drop m), drop_drop in H5. pose proof (total_nonneg _ (Forall_take _ m _ (proj1 Hs))). pose proof (total_nonneg _ (Forall_drop _ (Z.to_nat i + m) _ (proj1 Hsizes))).
  replace (Z.to_nat i + m)%nat with (Z.to_nat (i + Z.of_nat m)) in H5 by lia. set (x := if seen then _ else _). assert (0 <= x ∧ x <= n + total (take m (drop (Z.to_nat i) (grandparents_ cm0)))) as Hx by (unfold x; destruct seen; lia).
  destruct (_ <? _); eexists _, _; (split; [done|]); (split; [by eexists _, _, _, _|done|cbn; lia|cbn; lia]).
Qed.

Lemma IsBaseLevelForKey_same v' k cm : files_ v' = files_ v → IsBaseLevelForKey C v' k cm = IsBaseLevelForKey C v k cm.
Proof. intros Ef. unfold IsBaseLevelForKey. by rewrite Ef. Qed.

Lemma base_ok e later cm v' : comp_ok (e :: later) cm → files_ v' = files_ v → Forall (λ x, ucmp (e_key e) (e_key x) <= 0) later →
  ∃ cm', IsBaseLevelForKey C v' (e_key e) cm = Ok (base_key (e_key e), cm') ∧ comp_ok later cm'.
Proof.
  intros Hc Ef Hlater. rewrite (IsBaseLevelForKey_same _ _ _ Ef). pose proof (comp_ok_fields _ _ Hc) as (El & _). destruct Hc as [(i & seen & n & ptrs & ->) H2 H3 H4].
  destruct (IsBaseLevelForKey_ok C valid ord v _ level (e_key e) Hv Hcount El (H2 e ltac:(by left))) as (b & ptrs' & -> & Hp & Hb).
  assert (b = base_key (e_key e)) as -> by (apply Bool.eq_iff_eq_true; by rewrite Hb, base_key_ok). eexists. split; [done|]. split; [by eexists _, _, _, _| |done|done].
  intros x Hx. rewrite list.Forall_forall in Hlater. eapply (ptrs_later C valid ord); [by apply Hlater|done].
Qed.

(** ** Dropping *)

Definition key_state (prev : option (bytes * Z)) : KeyState := match prev with None => no_key | Some (u, q) => mkKey (Some u) q end.
#[local] Abbreviation dropped := (dropped ord snapshot base_key).
#[local] Abbreviation kept := (kept ord snapshot base_key).

Lemma drop_entry_ok e later prev c d : comp_ok (e :: later) (compaction c) → smallest_snapshot c = snapshot → fits e →
  Forall (λ x, ucmp (e_key e) (e_key x) <= 0) later → holds_version d →
  ∃ cm', drop_entry C (e_internal e) (key_state prev) c d = Ok (dropped prev e, key_state (Some (next_key ord prev e, e_seq e)), c <| compaction := cm' |>) ∧ comp_ok later cm'.
Proof.
  intros Hc Hs He Hlater (v' & Ev & Ef). unfold drop_entry.
  pose proof (ParseInternalKey_internal (Internal.mkParsed (e_key e) (e_seq e) (e_type e)) (fits_seq _ He)) as Ep. cbn [Internal.user_key Internal.sequence Internal.type] in Ep.
  unfold e_internal, e_num. rewrite Ep. unfold mbind, res_bind. cbn [Internal.user_key Internal.sequence Internal.type]. clear Ep.
  set (same := match current_user_key (key_state prev) with Some u => _ | None => Ok false end).
  assert (same = Ok (match prev with Some (u, _) => ucmp (e_key e) u =? 0 | None => false end)) as ->.
  { unfold same. destruct prev as [[u q]|]; [|done]. cbn. by rewrite (ucmp_ok C valid ord). }
  set (b := match prev with Some (u, _) => ucmp (e_key e) u =? 0 | None => false end).
  assert ((if b then key_state prev else mkKey (Some (e_key e)) Internal.kMaxSequenceNumber) = mkKey (Some (next_key ord prev e)) (last_sequence ord prev e)) as ->.
  { unfold b, next_key, last_sequence. destruct prev as [[u q]|]; [|done]. cbn. by destruct (ucmp (e_key e) u =? 0). }
  cbn [last_sequence_for_key current_user_key]. rewrite Hs. unfold LdbDropProps.dropped, obsolete. cbn [key_state].
  destruct (last_sequence ord prev e <=? snapshot); cbn [orb].
  { eexists. split; [done|]. by eapply comp_ok_less. }
  destruct (e_type e) eqn:Et.
  - destruct (e_seq e <=? snapshot); cbn [andb]; [|eexists; split; [done|]; by eapply comp_ok_less].
    pose proof (comp_ok_fields _ _ Hc) as (_ & Einp & _). rewrite Einp. cbn [of_option]. unfold version. rewrite Ev. cbn [of_option].
    destruct (base_ok e later (compaction c) v' Hc Ef Hlater) as (cm' & -> & Hc'). by exists cm'.
  - eexists. split; [done|]. by eapply comp_ok_less.
Qed.

(** ** The outputs *)

Record output_done (d : DB) (chunk : list entry) (out : Output) : Prop := {
  od_some : chunk ≠ [];
  od_file : ∃ data, disk (env_ d) !! table_name (out_number out) = Some data ∧ out_size out = Some (Slice.size data) ∧ is_table chunk data;
  od_smallest : e_internal <$> head chunk = Some (out_smallest out);
  od_largest : e_internal <$> list.last chunk = Some (out_largest out)
}.
Context (first_number : Z) (Hfirst : 0 < first_number).
Record numbers_ok (c : CS) (d : DB) : Prop := {
  nu_pending : Forall (λ out, first_number <= out_number out < next_number d ∧ out_number out ∈ pending_outputs_ d) (outputs c);
  nu_distinct : NoDup (out_number <$> outputs c);
  nu_bound : first_number <= next_number d <= 2 ^ 63 + Z.of_nat (length (outputs c))
}.
(** [cur]: the entries of the output that is being written. *)
Definition outputs_ok (chunks : list (list entry)) (cur : list entry) (c : CS) (d : DB) : Prop :=
  match builder c with
  | None => cur = [] ∧ Forall2 (output_done d) chunks (outputs c)
  | Some b => ∃ outs out, outputs c = outs ++ [out] ∧ Forall2 (output_done d) chunks outs ∧ cur ≠ [] ∧ writing (table_name (out_number out)) cur b ∧
      (TableBuilder.status b = OK → e_internal <$> head cur = Some (out_smallest out) ∧ e_internal <$> list.last cur = Some (out_largest out))
  end.
Record work_ok (later : list entry) (chunks : list (list entry)) (cur : list entry) (c : CS) (d : DB) : Prop := {
  wk_comp : comp_ok later (compaction c);
  wk_snapshot : smallest_snapshot c = snapshot;
  wk_numbers : numbers_ok c d;
  wk_version : holds_version d;
  wk_J : J d;
  wk_outputs : outputs_ok chunks cur c d
}.
(** After an error the files of the outputs say nothing, but can be given up. *)
Record failed (c : CS) (d : DB) : Prop := {
  fa_comp : comp_ok [] (compaction c);
  fa_numbers : numbers_ok c d;
  fa_version : holds_version d;
  fa_J : J d;
  fa_builder : match builder c with None => True | Some b => ∃ fname l, writing fname l b end
}.
Lemma work_failed later chunks cur c d : work_ok later chunks cur c d → failed c d.
Proof.
  intros [[H1 H2 H3 H4] _ ? ? ? Ho]. split; [split; [done|by intros e ?%not_elem_of_nil|done|done]|done..|]. unfold outputs_ok in Ho. destruct (builder c); [|done].
  destruct Ho as (_ & out & _ & _ & _ & Hw & _). by eexists _, _.
Qed.

Lemma output_done_keeps d d' chunk out : (disk (env_ d') !! table_name (out_number out) = disk (env_ d) !! table_name (out_number out)) → output_done d chunk out → output_done d' chunk out.
Proof. intros Ed [H1 (data & H2 & H3) H4 H5]. split; [done| |done|done]. exists data. by rewrite Ed. Qed.

Lemma numbers_keeps c d d' : keeps d d' → numbers_ok c d → numbers_ok c d'.
Proof.
  intros [K1 K2 _ _ _] [N1 N2 N3]. split; [|done|lia]. eapply list.Forall_impl; [exact N1|]. cbn. intros out [? ?]. split; [lia|set_solver].
Qed.

Lemma outputs_keeps d d' chunks outs : (∀ out, out ∈ outs → disk (env_ d') !! table_name (out_number out) = disk (env_ d) !! table_name (out_number out)) →
  Forall2 (output_done d) chunks outs → Forall2 (output_done d') chunks outs.
Proof.
  intros Hd Hf. induction Hf as [|chunk out chunks outs Ho Hf IH]; constructor.
  - eapply output_done_keeps; [|exact Ho]. apply Hd. by left.
  - apply IH. intros x Hx. apply Hd. by right.
Qed.

Lemma work_keeps later chunks cur c d d' : keeps d d' → J d' → work_ok later chunks cur c d → work_ok later chunks cur c d'.
Proof.
  intros Hk Hj [H1 H2 H3 H4 _ H6]. pose proof (numbers_keeps _ _ _ Hk H3) as H3'. split; [done..|by apply (kp_version _ _ Hk)|done|].
  assert (∀ out, out ∈ outputs c → disk (env_ d') !! table_name (out_number out) = disk (env_ d) !! table_name (out_number out)) as Hd.
  { intros out Hin. apply (kp_files _ _ Hk). pose proof (nu_pending _ _ H3) as Hp. rewrite list.Forall_forall in Hp. by apply Hp. }
  unfold outputs_ok in *. destruct (builder c).
  - destruct H6 as (outs & out & E1 & E2 & E3). exists outs, out. split; [done|]. split; [|done]. eapply outputs_keeps; [|exact E2]. intros x Hx. apply Hd. rewrite E1. apply elem_of_app. by left.
  - destruct H6 as [E1 E2]. split; [done|]. by eapply outputs_keeps.
Qed.
Lemma failed_keeps c d d' : keeps d d' → J d' → failed c d → failed c d'.
Proof. intros Hk Hj [H1 H2 H3 H4 H5]. split; [done|by eapply numbers_keeps|by apply (kp_version _ _ Hk)|done|done]. Qed.

Lemma change_output_ok g c outs out : outputs c = outs ++ [out] → change_output g c = Ok (c <| outputs := outs ++ [g out] |>).
Proof.
  intros Ec. unfold change_output, current_output. rewrite Ec, last_snoc. unfold mbind, res_bind. cbn [of_option]. rewrite length_app. cbn [length].
  replace (Nat.pred (length outs + 1)) with (length outs + 0)%nat by lia. by rewrite insert_app_r.
Qed.

(** Only the file of an output changes. *)
Lemma own_world d w n : n ∈ pending_outputs_ d → (∀ name, name ≠ table_name n → disk w.1 !! name = disk (env_ d) !! name) →
  own d (d <| env_ := w.1 |> <| table_cache_ := w.2 |>).
Proof.
  intros Hn Hd. split; [|by destruct d as [????????????????[]]|done|done|].
  - exists w.1, w.2, (versions_ d), (pending_outputs_ d), (clock d). by destruct d.
  - intros name Hname. apply Hd. by apply Hname.
Qed.

Lemma replace_numbers outs out out' : out_number out' = out_number out → out_number <$> outs ++ [out'] = out_number <$> outs ++ [out].
Proof. intros En. rewrite !fmap_app. cbn. by rewrite En. Qed.
Lemma numbers_replace c c' d d' outs out out' : outputs c = outs ++ [out] → outputs c' = outs ++ [out'] → out_number out' = out_number out →
  next_number d' = next_number d → pending_outputs_ d' = pending_outputs_ d → numbers_ok c d → numbers_ok c' d'.
Proof.
  intros E1 E2 En Ex Ep [N1 N2 N3]. rewrite E1 in N1, N2, N3. split; rewrite E2.
  - rewrite Ex, Ep. apply List.Forall_app in N1 as [N1 N1']. apply List.Forall_app. split; [done|]. apply Forall_singleton. rewrite En. by apply (proj1 (Forall_singleton _ _)) in N1'.
  - by rewrite (replace_numbers _ out).
  - rewrite Ex. rewrite length_app in *. exact N3.
Qed.
Lemma last_number c d outs out : outputs c = outs ++ [out] → numbers_ok c d → Z.of_nat (length (outputs c)) < 2 ^ 62 →
  0 < out_number out < 2 ^ 64 ∧ out_number out ∈ pending_outputs_ d ∧ ∀ x, x ∈ outs → table_name (out_number x) ≠ table_name (out_number out).
Proof.
  intros Ec [N1 N2 N3] Hl. rewrite Ec in N1, N2. rewrite list.Forall_forall in N1. destruct (N1 out) as [B1 B2]; [apply elem_of_app; right; by left|].
  split; [lia|]. split; [done|]. intros x Hx En. destruct (N1 x) as [B3 _]; [apply elem_of_app; by left|]. apply table_name_inj in En; [|lia..].
  rewrite fmap_app in N2. apply list.NoDup_app in N2 as (_ & N2 & _). apply (N2 (out_number x)); [by apply list_elem_of_fmap_2|]. rewrite En. by left.
Qed.

(** A builder that has refused something does not finish with success. *)
Lemma finish_status fname l b s b' : writing fname l b → tableable l → TableBuilder.Finish (comparator := Internal.InternalKeyComparator C) address pol b = Ok (s, b') → s = OK → TableBuilder.status b = OK.
Proof.
  intros [Hi _] Ht Ef Hs. destruct (decide (TableBuilder.status b = OK)) as [|N]; [done|exfalso]. subst s. unfold TableBuilder.Finish, TableBuilder.FlushBlock in Ef.
  rewrite (inv_closed _ _ _ _ Hi), (proj2 (ok_false _) N) in Ef. cbn [negb SkipList.assert_] in Ef. unfold mbind, res_bind in Ef. rewrite (inv_closed _ _ _ _ Hi) in Ef. cbn [negb SkipList.assert_] in Ef.
  destruct (finish_refused (C := Internal.InternalKeyComparator C) address pol Format.BlockHandle_new (TableBuilder.set_closed b) N) as (E1 & E2 & E3).
  assert (TableBuilder.write_filter_block address pol (TableBuilder.set_closed b) = Ok (Format.BlockHandle_new, TableBuilder.set_closed b)) as Efi.
  { unfold TableBuilder.write_filter_block. change (TableBuilder.status (TableBuilder.set_closed b)) with (TableBuilder.status b). rewrite (proj2 (ok_false _) N). by destruct pol as [[]|], (TableBuilder.filter_block (TableBuilder.set_closed b)). }
  rewrite Efi, E1, E2, E3 in Ef. injection Ef as Ef _. cbn in Ef. done.
Qed.

Lemma finish_ok st later chunks cur c d b : work_ok later chunks cur c d → builder c = Some b → tableable cur → Z.of_nat (length (outputs c)) < 2 ^ 62 →
  ∃ s c' d', FinishCompactionOutputFile address C pol st c d = Ok (s, c', d') ∧ own d d' ∧ length (outputs c') = length (outputs c) ∧
    (s = OK ∧ st = OK ∧ builder c' = None ∧ work_ok later (chunks ++ [cur]) [] c' d' ∨ s ≠ OK ∧ failed c' d').
Proof.
  intros [Hc Hsn Hnu Hve Hj Ho] Eb Ht Hl. unfold outputs_ok in Ho. rewrite Eb in Ho. destruct Ho as (outs & out & Eo & Hdone & Hcur & Hw & Hends).
  destruct (last_number c d outs out Eo Hnu Hl) as (Hn & Hpend & Hother).
  unfold FinishCompactionOutputFile, current_output. rewrite Eb, Eo, last_snoc. unfold mbind, res_bind. cbn [of_option].
  rewrite (proj2 (Z.eqb_neq _ 0)) by lia. cbn [negb SkipList.assert_].
  set (r := if ok st then _ else _).
  assert (∃ s1 b1, r = Ok (s1, b1) ∧ name_of (TableBuilder.file b1) = table_name (out_number out) ∧
    (s1 = OK → st = OK ∧ TableBuilder.status b = OK ∧ TableBuilder.FileSize b1 = Slice.size (written (TableBuilder.file b1)) ∧ is_table cur (written (TableBuilder.file b1)))) as (s1 & b1 & -> & Hname & Hfin).
  { unfold r. destruct (ok st) eqn:Est.
    - apply ok_iff in Est. destruct (output_finish address Haddr refused C valid ord Hvb (table_options o) Hint pol fdom Hpol Hflush _ cur b Hw Ht) as (s1 & b1 & E1 & N1 & F1).
      exists s1, b1. split; [done|]. split; [done|]. intros Es. destruct (F1 Es). split; [done|]. split; [|done]. by eapply finish_status.
    - erewrite output_abandon by exact Hw. exists st, (TableBuilder.set_closed b). split; [done|]. split; [apply Hw|]. intros ->. done. }
  rewrite (change_output_ok _ c outs out Eo). cbn [outputs modify].
  destruct (close_table_ok (HL := HL) s1 (TableBuilder.file b1) (env_ d)) as (s2 & e2 & Ec & Hoth & Hok). rewrite Ec.
  set (out' := out <| out_size := Some (TableBuilder.FileSize b1) |>).
  set (c' := _ <| builder := None |>).
  assert (∀ w, (∀ name, disk w.1 !! name = disk e2 !! name) → let d' := d <| env_ := w.1 |> <| table_cache_ := w.2 |> in own d d' ∧ J d' ∧ holds_version d' ∧ numbers_ok c' d' ∧
     (s2 = OK → st = OK ∧ work_ok later (chunks ++ [cur]) [] c' d')) as Hend.
  { intros w Hsame d'. assert (own d d') as Hown by (apply (own_world d w (out_number out)); [done|]; intros name N; rewrite Hsame; apply Hoth; by rewrite Hname).
    assert (numbers_ok c' d') as Hnu' by (apply (numbers_replace c c' d d' outs out out'); try done; destruct d; done).
    assert (holds_version d') as Hve' by (destruct d; exact Hve). pose proof (Jown _ _ Hown Hj) as Hj'.
    split; [done|]. split; [done|]. split; [done|]. split; [done|]. intros Hs2. destruct (Hok Hs2) as [Hs1 Hdisk]. destruct (Hfin Hs1) as (-> & Hb & Hsz & Htab).
    split; [done|]. split; [done|done|done|done|done|]. unfold outputs_ok. cbn [builder c' modify]. split; [done|]. apply Forall2_app.
    - eapply outputs_keeps; [|exact Hdone]. intros x Hx. assert (disk (env_ d') !! table_name (out_number x) = disk e2 !! table_name (out_number x)) as -> by (destruct d; apply Hsame).
      apply Hoth. rewrite Hname. by apply Hother.
    - constructor; [|constructor]. destruct (Hends Hb) as [Hh Hla]. split; [done| |done|done]. exists (written (TableBuilder.file b1)). split; [|by rewrite <- Hsz].
      assert (disk (env_ d') !! table_name (out_number out') = disk e2 !! table_name (out_number out)) as -> by (destruct d; apply Hsame). rewrite <- Hname. done. }
  assert (length (outputs c') = length (outs ++ [out])) as Hlen by (change (outputs c') with (outs ++ [out']); by rewrite !length_app).
  assert (∀ w, (∀ name, disk w.1 !! name = disk e2 !! name) → failed c' (d <| env_ := w.1 |> <| table_cache_ := w.2 |>)) as Hfail.
  { intros w Hsame. destruct (Hend w Hsame) as (_ & F2 & F3 & F4 & _). split; [|done|done|done|done]. destruct Hc as [H1 H2 H3 H4]. split; [done|by intros x ?%not_elem_of_nil|done|done]. }
  assert (d <| env_ := e2 |> = d <| env_ := e2 |> <| table_cache_ := table_cache_ d |>) as Ed by by destruct d.
  destruct (ok s2 && (0 <? TableBuilder.NumEntries b)) eqn:Eok.
  - apply andb_true_iff in Eok as [Es2%ok_iff _]. unfold verify_table. destruct (Hverify (out_number out) (TableBuilder.FileSize b1) (e2, table_cache_ d)) as (it & w & Ev & Hsame).
    cbn [env_ table_cache_ modify] in *. unfold mbind, res_bind. replace (env_ (d <| env_ := e2 |>)) with e2 by by destruct d. replace (table_cache_ (d <| env_ := e2 |>)) with (table_cache_ d) by by destruct d.
    rewrite Ev. assert (∀ name, disk w.1 !! name = disk e2 !! name) as Hsame' by (intros; by rewrite Hsame).
    assert (d <| env_ := e2 |> <| env_ := w.1 |> <| table_cache_ := w.2 |> = d <| env_ := w.1 |> <| table_cache_ := w.2 |>) as -> by by destruct d.
    destruct (Hend w Hsame') as (F1 & F2 & F3 & F4 & F5). eexists _, c', _. split; [done|]. split; [done|]. split; [done|].
    destruct (decide (status it = OK)) as [Es|N]; [left|right; split; [done|by apply Hfail]]. split; [done|]. destruct (F5 Es2). done.
  - rewrite Ed. destruct (Hend (e2, table_cache_ d) ltac:(done)) as (F1 & F2 & F3 & F4 & F5). eexists _, c', _. split; [done|]. split; [exact F1|]. split; [done|].
    destruct (decide (s2 = OK)) as [Es|N]; [left|right; split; [done|by apply (Hfail (e2, table_cache_ d))]]. split; [done|]. destruct (F5 Es). done.
Qed.

(** A new output: its builder has no entry yet. *)
Lemma open_output_ok later chunks c d : work_ok later chunks [] c d → builder c = None → Z.of_nat (length (outputs c)) < 2 ^ 62 →
  ∃ s c' d', OpenCompactionOutputFile pol o dbname others c d = Ok (s, c', d') ∧ length (outputs c') = S (length (outputs c)) ∧ failed c' d' ∧
    (s = OK → ∃ b out, builder c' = Some b ∧ outputs c' = outputs c ++ [out] ∧ Forall2 (output_done d') chunks (outputs c) ∧ writing (table_name (out_number out)) [] b ∧
       TableBuilder.NumEntries b = 0 ∧ smallest_snapshot c' = smallest_snapshot c ∧ compaction c' = compaction c).
Proof.
  intros Hw Eb Hl. unfold OpenCompactionOutputFile. rewrite Eb. cbn [SkipList.assert_]. unfold mbind, res_bind.
  destruct (meanwhile_ok d (wk_J _ _ _ _ _ Hw)) as [Hj1 Hk1]. fold (Lock others d) in Hj1, Hk1. set (d1 := Lock others d) in *. pose proof (work_keeps _ _ _ _ _ _ Hk1 Hj1 Hw) as Hw1. clear Hw.
  destruct Hw1 as [Hc Hsn Hnu Hve _ Ho]. unfold outputs_ok in Ho. rewrite Eb in Ho. destruct Ho as [_ Hdone].
  unfold NewFileNumber. set (n := next_file_number_ (versions_ d1)). destruct Hnu as [N1 N2 N3]. change (next_number d1) with n in *.
  assert (u64 (n + 1) = n + 1) as Eu by (apply u64_small; lia). rewrite Eu. cbn [versions_ pending_outputs_ env_ modify].
  rewrite TableFileName_ok by lia.
  set (d2 := d1 <| versions_ := _ |> <| pending_outputs_ := {[n]} ∪ pending_outputs_ d1 |>).
  assert (pending_outputs_ (d1 <| versions_ := set_numbers (versions_ d1) (n + 1) (manifest_file_number_ (versions_ d1)) (last_sequence_ (versions_ d1)) (log_number_ (versions_ d1)) (prev_log_number_ (versions_ d1)) |>) = pending_outputs_ d1) as Ep by by destruct d1.
  destruct (env_new (EnvLaws := HL) (table_name n) (env_ d2)) as (s & r & e2 & En & Hnew & Hoth). rewrite En.
  set (d3 := d2 <| env_ := e2 |>). set (out := mkOutput n None [] []).
  assert (own d1 d3) as Hown.
  { split; [|by destruct d1 as [????????????????[]]|by change (next_number d3) with (n + 1); change (next_number d1) with n; lia|change (pending_outputs_ d3) with ({[n]} ∪ pending_outputs_ d1); set_solver|].
    - exists e2, (table_cache_ d1), (versions_ d3), (pending_outputs_ d3), (clock d1). by destruct d1.
    - intros name Hname. change (env_ d3) with e2. rewrite Hoth; [by destruct d1|]. apply Hname. change (pending_outputs_ d3) with ({[n]} ∪ pending_outputs_ d1). set_solver. }
  pose proof (Jown _ _ Hown Hj1) as Hj3.
  assert (∀ x, x ∈ outputs c → disk (env_ d3) !! table_name (out_number x) = disk (env_ d1) !! table_name (out_number x)) as Hd.
  { intros x Hx. rewrite list.Forall_forall in N1. destruct (N1 x Hx) as [B1 _]. change (env_ d3) with e2. rewrite Hoth; [by destruct d1|]. intros Et. apply table_name_inj in Et; lia. }
  assert (∀ c', outputs c' = outputs c ++ [out] → numbers_ok c' d3) as Hnu'.
  { intros c' Ec'. split; rewrite Ec'.
    - change (pending_outputs_ d3) with ({[n]} ∪ pending_outputs_ d1). change (next_number d3) with (n + 1). apply List.Forall_app. split.
      + eapply list.Forall_impl; [exact N1|]. cbn. intros x [? ?]. split; [lia|set_solver].
      + apply Forall_singleton. cbn. split; [lia|set_solver].
    - rewrite fmap_app. apply list.NoDup_app. split; [done|]. split; [|repeat constructor; by apply not_elem_of_nil]. intros x (y & -> & Hy)%list_elem_of_fmap Hx%list_elem_of_singleton.
      rewrite list.Forall_forall in N1. destruct (N1 y Hy) as [B1 _]. cbn in Hx. lia.
    - change (next_number d3) with (n + 1). rewrite length_app. cbn. lia. }
  assert (holds_version d3) as Hve3 by (destruct d1; exact Hve).
  assert (∀ c', outputs c' = outputs c ++ [out] → compaction c' = compaction c → match builder c' with None => True | Some b => ∃ fname l, writing fname l b end → failed c' d3) as Hfail.
  { intros c' Ec' Em Hb. split; [|by apply Hnu'|done|done|done]. rewrite Em. destruct Hc as [H1 H2 H3 H4]. split; [done|by intros x ?%not_elem_of_nil|done|done]. }
  assert (∀ c', outputs c' = outputs c ++ [out] → length (outputs c') = S (length (outputs c))) as Hlen by (intros c' ->; rewrite length_app; cbn; lia).
  destruct (ok s) eqn:Es.
  - apply ok_iff in Es. destruct (Hnew Es) as (f & -> & Hfn & Hfw). cbn [of_option]. destruct (output_new refused valid ord (table_options o) Hint pol fdom Hpol (table_name n) f Hfn Hfw) as (b & -> & Hwb & Hb0).
    eexists _, _, d3. split; [done|]. split; [by apply Hlen|]. split; [apply Hfail; [done|done|by eexists _, _]|].
    intros _. exists b, out. split; [done|]. split; [done|]. split; [by eapply outputs_keeps|]. done.
  - eexists _, _, d3. split; [done|]. split; [by apply Hlen|]. split; [|intros ->; done]. apply Hfail; [done|done|]. match goal with |- match ?x with _ => _ end => change x with (builder c) end. by rewrite Eb.
Qed.

Lemma add_status fname l b e b' : writing fname l b → TableBuilder.Add (comparator := Internal.InternalKeyComparator C) address pol b (e_internal e) (e_value e) = Ok b' →
  TableBuilder.status b' = OK → TableBuilder.status b = OK.
Proof.
  intros [Hi _] Ea Hs. destruct (decide (TableBuilder.status b = OK)) as [|N]; [done|exfalso]. unfold TableBuilder.Add in Ea.
  rewrite (inv_closed _ _ _ _ Hi), (proj2 (ok_false _) N) in Ea. cbn [negb SkipList.assert_] in Ea. unfold mbind, res_bind in Ea. by injection Ea as <-.
Qed.

(** An output with a builder, perhaps without entries. *)
Record writing_output (later : list entry) (chunks : list (list entry)) (cur : list entry) (c : CS) (d : DB) : Prop := {
  wo_failed : failed c d;
  wo_comp : comp_ok later (compaction c);
  wo_snapshot : smallest_snapshot c = snapshot;
  wo_output : ∃ b outs out, builder c = Some b ∧ outputs c = outs ++ [out] ∧ Forall2 (output_done d) chunks outs ∧ writing (table_name (out_number out)) cur b ∧
    (TableBuilder.status b = OK → cur ≠ [] → e_internal <$> head cur = Some (out_smallest out))
}.

Lemma ready_ok later chunks cur c d : work_ok later chunks cur c d → Z.of_nat (length (outputs c)) < 2 ^ 62 →
  ∃ s c' d', match builder c with None => OpenCompactionOutputFile pol o dbname others c d | Some _ => Ok (OK, c, d) end = Ok (s, c', d') ∧
    (length (outputs c') <= S (length (outputs c)))%nat ∧ failed c' d' ∧ (s = OK → writing_output later chunks cur c' d').
Proof.
  intros Hw Hl. pose proof (work_failed _ _ _ _ _ Hw) as Hf. destruct (builder c) as [b|] eqn:Eb.
  - eexists OK, c, d. split; [done|]. split; [lia|]. split; [done|]. intros _. destruct Hw as [Hc Hs _ _ _ Ho]. split; [done..|].
    unfold outputs_ok in Ho. rewrite Eb in Ho. destruct Ho as (outs & out & Eo & Hd & Hcur & Hw & Hends). exists b, outs, out. split; [done|]. split; [done|]. split; [done|]. split; [done|]. intros Hb _. by apply Hends.
  - assert (cur = []) as -> by (pose proof (wk_outputs _ _ _ _ _ Hw) as Ho; unfold outputs_ok in Ho; rewrite Eb in Ho; apply Ho).
    destruct (open_output_ok _ _ _ _ Hw Eb Hl) as (s & c' & d' & -> & L & Hf' & Hok). exists s, c', d'. split; [done|]. split; [lia|]. split; [done|]. intros Es.
    destruct (Hok Es) as (b & out & E1 & E2 & H3 & H4 & _ & E5 & E6). destruct Hw as [Hc Hs _ _ _ _]. split; [done|by rewrite E6|by rewrite E5|]. by exists b, (outputs c), out.
Qed.

(** One more entry is in the outputs. *)
Definition work_done (later : list entry) (es : list entry) (c : CS) (d : DB) : Prop := ∃ chunks cur, concat chunks ++ cur = es ∧ work_ok later chunks cur c d.
Lemma add_ok {I} {HI : Iterator I} (input : I) later chunks cur c d e : work_ok later chunks cur c d → tableable (cur ++ [e]) → Z.of_nat (length (outputs c)) < 2 ^ 62 - 1 → value input = Ok (e_value e) →
  ∃ s c' d', add_entry address C pol o dbname others (e_internal e) input c d = Ok (s, c', d') ∧ (length (outputs c') <= S (length (outputs c)))%nat ∧
    (s = OK ∧ work_done later (concat chunks ++ cur ++ [e]) c' d' ∨ s ≠ OK ∧ failed c' d').
Proof.
  intros Hw Ht Hl Ev. destruct (ready_ok _ _ _ _ _ Hw ltac:(lia)) as (s & c1 & d1 & E1 & L1 & Hf1 & Hok). unfold add_entry. rewrite E1. unfold mbind at 1, res_bind at 1.
  destruct (ok s) eqn:Es; cbn [negb].
  2:{ exists s, c1, d1. split; [done|]. split; [lia|]. right. split; [by apply ok_false|done]. }
  apply ok_iff in Es. destruct (Hok Es) as [_ Hc Hs (b & outs & out & Eb & Eo & Hd & Hwr & Hsm)]. rewrite Eb. unfold mbind, res_bind. cbn [of_option].
  set (small := TableBuilder.NumEntries b =? 0). set (out1 := if small then out <| out_smallest := e_internal e |> else out).
  assert ((if small then change_output (λ out, out <| out_smallest := Internal.DecodeFrom (e_internal e) |>) c1 else Ok c1) = Ok (c1 <| outputs := outs ++ [out1] |>)) as ->.
  { unfold out1. destruct small; [by rewrite (change_output_ok _ c1 outs out Eo)|]. rewrite <- Eo. by destruct c1. }
  rewrite (change_output_ok _ _ outs out1) by done. rewrite Ev.
  destruct (output_add address Haddr refused C valid ord Hvb (table_options o) Hint pol fdom Hpol Hflush _ cur e b Hwr Ht) as (b' & Ea & Hwr'). rewrite Ea.
  set (out2 := out1 <| out_largest := Internal.DecodeFrom (e_internal e) |>).
  set (c2 := c1 <| outputs := outs ++ [out1] |> <| outputs := outs ++ [out2] |> <| builder := Some b' |>).
  assert (out_number out2 = out_number out) as En by (unfold out2, out1; by destruct small).
  assert (outputs c2 = outs ++ [out2]) as Eo2 by done.
  assert (work_ok later chunks (cur ++ [e]) c2 d1) as Hw2.
  { split; [done|done| |apply Hf1|apply Hf1|].
    - apply (numbers_replace c1 c2 d1 d1 outs out out2); [done..|apply Hf1].
    - unfold outputs_ok. cbn [builder c2 modify]. exists outs, out2. split; [done|]. split; [done|]. split; [by destruct cur|]. split; [by rewrite En|]. intros Hb'.
      pose proof (add_status _ _ _ _ _ Hwr Ea Hb') as Hb. split; [|by rewrite list.last_snoc].
      assert (small = bool_decide (cur = [])) as Esm. { unfold small. rewrite (output_entries refused valid ord (table_options o) pol _ _ _ Hwr Hb). case_bool_decide as N; [by subst cur|]. apply Z.eqb_neq. destruct cur; [done|cbn; lia]. }
      unfold out2, out1. rewrite Esm. case_bool_decide as N; [by subst cur|]. etransitivity; [|exact (Hsm Hb N)]. by destruct cur. }
  assert (length (outputs c2) = length (outputs c1)) as El by (rewrite Eo2, Eo; by rewrite !length_app).
  destruct (_ <=? _).
  - destruct (finish_ok (status input) later chunks (cur ++ [e]) c2 d1 b' Hw2 eq_refl Ht ltac:(lia)) as (s' & c' & d' & -> & _ & L' & Hr). exists s', c', d'. split; [done|]. split; [lia|].
    destruct Hr as [(-> & _ & _ & Hw')|Hr]; [left|by right]. split; [done|]. exists (chunks ++ [cur ++ [e]]), []. split; [|done]. rewrite concat_app. cbn. by rewrite !app_nil_r.
  - exists OK, c2, d1. split; [done|]. split; [lia|]. left. split; [done|]. by exists chunks, (cur ++ [e]).
Qed.

Lemma work_comp later later' chunks cur c cm d : work_ok later chunks cur c d → comp_ok later' cm → work_ok later' chunks cur (c <| compaction := cm |>) d.
Proof. intros [H1 H2 H3 H4 H5 H6] Hc. split; [done|done|by destruct H3|done|done|exact H6]. Qed.

(** ** The loop *)

Section loop.
Context {I : Type} {HI : Iterator I} (es : list entry) (at_ : I → nat → Prop) {HFw : Forward I (pair_of <$> es) at_}.
Context (Hes : tableable es) (Hcount_es : Z.of_nat (length es) < 2 ^ 61).
#[local] Abbreviation K_ := (kept None es).
Lemma table_part l : sublist l es → tableable l.
Proof. intros Hs. by eapply tableable_sublist. Qed.

Lemma entry_at i input : at_ input i → Valid input = true → ∃ e rest, drop i es = e :: rest ∧ drop (S i) es = rest ∧ key input = Ok (e_internal e) ∧ value input = Ok (e_value e) ∧
  ∃ input', Next input = Ok input' ∧ at_ input' (S i).
Proof.
  intros Ha Hv'. destruct (fw_entry (Forward := HFw) _ _ Ha Hv') as (x & Hx & Ek & Evl & Hn). rewrite list_lookup_fmap in Hx. destruct (es !! i) as [e|] eqn:Ee; [|done]. injection Hx as <-.
  exists e, (drop (S i) es). split; [by apply drop_S|]. done.
Qed.
Lemma entry_facts i e rest : drop i es = e :: rest → fits e ∧ Forall (λ x, ucmp (e_key e) (e_key x) <= 0) rest.
Proof.
  intros Ed. destruct Hes as [Hf _ Hs _]. rewrite <- (take_drop i es), Ed in Hf, Hs. apply List.Forall_app in Hf as [_ Hf]. inversion Hf as [|?? He]; subst. split; [done|].
  apply StronglySorted_app in Hs as (_ & _ & Hs). inversion Hs as [|?? _ Hall]; subst. eapply list.Forall_impl; [exact Hall|]. cbn. intros x. apply (entry_less_key ord).
Qed.

(** A memory table may become a file in between. *)
Lemma memory_ok chunks cur later c d : work_ok later chunks cur c d →
  ∃ d', (if has_imm_ d then match imm_ (Lock others d) with Some _ => CompactMemTable (TI := TI) address C cname pol o dbname others mem_fuel (Lock others d) | None => Ok (Lock others d) end else Ok d) = Ok d' ∧ work_ok later chunks cur c d'.
Proof.
  intros Hw. destruct (has_imm_ d); [|by exists d]. destruct (meanwhile_ok d (wk_J _ _ _ _ _ Hw)) as [Hj1 Hk1]. fold (Lock others d) in Hj1, Hk1.
  pose proof (work_keeps _ _ _ _ _ _ Hk1 Hj1 Hw) as Hw1. destruct (imm_ (Lock others d)) eqn:Ei; [|by eexists].
  destruct (Jmem _ Hj1) as (d' & -> & Hj2 & Hk2); [by rewrite Ei|]. exists d'. split; [done|]. by eapply work_keeps.
Qed.

(** An output may end before an entry. *)
Lemma stop_ok st (stop : bool) chunks cur later c d : work_ok later chunks cur c d → tableable cur → Z.of_nat (length (outputs c)) < 2 ^ 62 →
  ∃ s c' d', match builder c with Some _ => if stop then FinishCompactionOutputFile address C pol st c d else Ok (OK, c, d) | None => Ok (OK, c, d) end = Ok (s, c', d') ∧
    length (outputs c') = length (outputs c) ∧ (s = OK ∧ (∃ chunks' cur', concat chunks' ++ cur' = concat chunks ++ cur ∧ sublist cur' cur ∧ work_ok later chunks' cur' c' d') ∨ s ≠ OK ∧ failed c' d').
Proof.
  intros Hw Ht Hl. destruct (builder c) as [b|] eqn:Eb; [destruct stop|]; [|eexists _, _, _; (split; [done|]); (split; [done|]); left; (split; [done|]); by eexists _, _..].
  destruct (finish_ok st _ _ _ _ _ b Hw Eb Ht Hl) as (s & c' & d' & -> & _ & L & Hr). eexists _, _, _. split; [done|]. split; [done|]. destruct Hr as [(-> & _ & _ & Hw')|Hr]; [left|by right].
  split; [done|]. exists (chunks ++ [cur]), []. split; [rewrite concat_app; cbn; by rewrite !app_nil_r|]. split; [apply sublist_nil_l|done].
Qed.

Lemma loop_ok fuel : ∀ i input prev chunks cur c d, at_ input i → work_ok (drop i es) chunks cur c d → concat chunks ++ cur ++ kept prev (drop i es) = K_ →
  (length (outputs c) + length (drop i es) <= length es)%nat → (length (drop i es) < fuel)%nat →
  ∃ s input' c' d', work_loop address C cname pol o dbname others mem_fuel fuel input (key_state prev) c d = Ok (s, input', c', d') ∧
    (length (outputs c') <= length es)%nat ∧
    (s = OK ∧ (∃ j chunks' cur' prev', at_ input' j ∧ work_ok (drop j es) chunks' cur' c' d' ∧ concat chunks' ++ cur' ++ kept prev' (drop j es) = K_ ∧
       (Valid input' = true → shutting_down_ d' = true)) ∨ s ≠ OK ∧ failed c' d').
Proof.
  induction fuel as [|fuel IH]; intros i input prev chunks cur c d Ha Hw Ek Hlen Hfuel; [lia|]. cbn [work_loop].
  destruct (meanwhile_ok d (wk_J _ _ _ _ _ Hw)) as [Hj1 Hk1]. apply (work_keeps _ _ _ _ _ _ Hk1 Hj1) in Hw. clear Hk1 Hj1. cbn zeta. revert Hw. generalize (Meanwhile others d). clear d. intros d Hw.
  destruct (Valid input) eqn:Ev; cbn [andb].
  2:{ eexists _, _, _, _. split; [done|]. split; [lia|]. left. split; [done|]. exists i, chunks, cur, prev. by rewrite Ev. }
  destruct (shutting_down_ d) eqn:Esd; cbn [negb].
  { eexists _, _, _, _. split; [done|]. split; [lia|]. left. split; [done|]. by exists i, chunks, cur, prev. }
  destruct (entry_at _ _ Ha Ev) as (e & rest & Ed & Erest & Ekey & Evalue & input' & En & Ha'). rewrite Ed in *. destruct (entry_facts _ _ _ Ed) as [He Hlater].
  destruct (memory_ok _ _ _ _ _ Hw) as (d1 & Em & Hw1). unfold mbind at 1, res_bind at 1. rewrite Em. clear Em Hw Esd. rewrite Ekey. unfold mbind at 1, res_bind at 1.
  destruct (ShouldStopBefore_ok _ _ e (wk_comp _ _ _ _ _ Hw1) He) as (stop & cm & -> & Hcm). unfold mbind at 1, res_bind at 1.
  apply (work_comp _ _ _ _ _ _ _ Hw1) in Hcm. clear Hw1. set (c1 := c <| compaction := cm |>) in *.
  assert (length (outputs c1) = length (outputs c)) as L1 by done. cbn [length] in Hlen, Hfuel.
  assert (tableable cur) as Hcur. { apply table_part. etransitivity; [|apply (kept_sublist ord snapshot base_key None)]. rewrite <- Ek. apply sublist_inserts_l, sublist_inserts_r. done. }
  destruct (stop_ok (status input) stop _ _ _ _ _ Hcm Hcur ltac:(lia)) as (s2 & c2 & d2 & -> & L2 & Hr). unfold mbind at 1, res_bind at 1.
  destruct Hr as [(-> & chunks2 & cur2 & Ecat & Hsub & Hw2)|[N2 Hf2]]; cbn [ok negb].
  2:{ rewrite (proj2 (ok_false _) N2). cbn [negb]. eexists _, _, _, _. split; [done|]. split; [lia|]. by right. }
  destruct (drop_entry_ok e rest prev c2 d2 (wk_comp _ _ _ _ _ Hw2) (wk_snapshot _ _ _ _ _ Hw2) He Hlater (wk_version _ _ _ _ _ Hw2)) as (cm3 & -> & Hc3). unfold mbind at 1, res_bind at 1.
  apply (work_comp _ _ _ _ _ _ _ Hw2) in Hc3. set (c3 := c2 <| compaction := cm3 |>) in *. assert (length (outputs c3) = length (outputs c2)) as L3 by done.
  rewrite app_assoc, <- Ecat, <- app_assoc in Ek. cbn [kept] in Ek.
  destruct (dropped prev e) eqn:Edrop; cbn [app] in Ek.
  - unfold mbind, res_bind. cbn [ok negb]. rewrite En. subst rest. eapply (IH (S i)); [done|exact Hc3|done|lia|lia].
  - assert (tableable (cur2 ++ [e])) as Hadd. { apply table_part. etransitivity; [|apply (kept_sublist ord snapshot base_key None)]. rewrite <- Ek. apply sublist_inserts_l, sublist_app; [done|]. constructor. apply sublist_nil_l. }
    destruct (add_ok input _ _ _ _ _ e Hc3 Hadd ltac:(lia) Evalue) as (s4 & c4 & d4 & -> & L4 & Hr). unfold mbind, res_bind.
    destruct Hr as [(-> & chunks4 & cur4 & Ecat4 & Hw4)|[N4 Hf4]].
    + cbn [ok negb]. rewrite En. subst rest. eapply (IH (S i)); [done|exact Hw4| |lia|lia]. rewrite app_assoc, Ecat4, <- !app_assoc. exact Ek.
    + rewrite (proj2 (ok_false _) N4). cbn [negb]. eexists _, _, _, _. split; [done|]. split; [lia|]. by right.
Qed.

(** The end of the loop: the last output. *)
Lemma last_ok st later chunks cur c d : work_ok later chunks cur c d → tableable cur → Z.of_nat (length (outputs c)) < 2 ^ 62 →
  ∃ s c' d', match builder c with Some _ => FinishCompactionOutputFile address C pol st c d | None => Ok (OK, c, d) end = Ok (s, c', d') ∧
    (s = OK ∧ builder c' = None ∧ (∃ chunks', concat chunks' = concat chunks ++ cur ∧ work_ok later chunks' [] c' d') ∨ s ≠ OK ∧ failed c' d').
Proof.
  intros Hw Ht Hl. destruct (builder c) as [b|] eqn:Eb.
  - destruct (finish_ok st _ _ _ _ _ b Hw Eb Ht Hl) as (s & c' & d' & -> & _ & L & Hr). eexists _, _, _. split; [done|]. destruct Hr as [(-> & _ & Eb' & Hw')|Hr]; [left|by right].
    split; [done|]. split; [done|]. exists (chunks ++ [cur]). split; [|done]. rewrite concat_app. cbn. by rewrite app_nil_r.
  - eexists _, _, _. split; [done|]. left. split; [done|]. split; [done|]. exists chunks. pose proof (wk_outputs _ _ _ _ _ Hw) as Ho. unfold outputs_ok in Ho. rewrite Eb in Ho. destruct Ho as [-> _]. by rewrite app_nil_r.
Qed.

(** No output yet. *)
Record starts (c : CS) (d : DB) : Prop := {
  st_comp : comp_ok es (compaction c);
  st_snapshot : smallest_snapshot c = snapshot;
  st_outputs : outputs c = [];
  st_builder : builder c = None;
  st_numbers : first_number <= next_number d <= 2 ^ 63;
  st_version : holds_version d;
  st_J : J d
}.
Lemma starts_work c d : starts c d → work_ok (drop 0 es) [] [] c d.
Proof.
  intros [H1 H2 H3 H4 H5 H6 H7]. split; [done..| |done|done|].
  - split; rewrite H3; [constructor|constructor|cbn; lia].
  - unfold outputs_ok. by rewrite H4, H3.
Qed.

End loop.
End work.

(** * An example

    Two versions of a key, a deletion
    and a value become two tables with an entry each. *)
#[local] Existing Instances no_tables memory_device.
#[local] Instance example_evicts : Evicts unit := λ _ k, k.
Definition example_work : list entry :=
  [mkEntry [97] 7 Internal.kTypeValue [120]; mkEntry [97] 3 Internal.kTypeValue [121]; mkEntry [98] 5 Internal.kTypeDeletion []; mkEntry [99] 2 Internal.kTypeValue [122]].
Definition example_db_options : DBOptions := mkDBOptions true false false 4194304 1 (LdbTable.mkOptions 1 1 Format.kNoCompression false).
Definition example_compaction : Compaction := set_input_version (Compaction.new 1 0) (Some 0%nat).
Definition example_version : Version := mkVersion 2 (replicate 7 []) None (-1) (SpecFloat.S754_zero false) (-1).
Definition example_db : DBImpl (E := MemoryEnv) (F := MemoryFile) (K := unit) :=
  mkDB (mkMemoryEnv ∅ false) () false ∅ 0 None None false None 0 0 Snapshots.new_list ∅ true ∅ None
    (mkSet 9 2 7 3 0 (mkObjects 0 ∅ ∅) 1 {[0%nat := example_version]} [0%nat] (Some 0%nat) (replicate 7 [])) None OK ∅ 0 [] WriteBatch.Clear 0.

