(* ===== verification/LdbDbWrite.v ===== *)
(** Writing to a LevelDB database ([Write] and what it calls, in [db/db_impl.cc]): the queue of
    writers, groups of batches, room in the memory table, and requests for a compaction. *)
From S2P Require Import Prelude LdbSkip LdbFormat LdbMemTable LdbLog LdbIterator LdbTable LdbVersionEdit LdbVersion LdbVersionSet LdbEnv LdbDb.

Module DbWrite.
Import Status Internal Config Version VersionSet Filename Db.

Section write.
Context {E F Q K TI : Type} `{Env E F Q} `{WritableFile F} `{SyncFile F} `{SequentialFile Q} `{TableCache (E * K) TI} `{Iterator TI} `{Evicts K}.
Context (address : bytes → Z) (C : SliceComparator) (o : DBOptions) (dbname : bytes) (usage : MemTable.MemTable → Z).
#[local] Abbreviation DB := (DBImpl (E := E) (F := F) (K := K)).
Context (others : nat → DB → DB).
#[local] Abbreviation Meanwhile := (Meanwhile others).
#[local] Abbreviation Lock := (Lock others).

(** ** Writers *)

Definition writer (d : DB) (p : nat) : res Writer := of_option (writer_objects d !! p).
Definition change_writer (p : nat) (g : Writer → Writer) (d : DB) : res DB :=
  w ← writer d p; Ok (d <| writer_objects := <[p := g w]> (writer_objects d) |>).

(** ** [BuildBatchGroup]

    The group is the batch of the first writer itself, or the temporary batch. *)

Fixpoint group_loop (first : Writer) (first_batch : bytes) (rest : list nat) (size max_size : Z) (is_tmp : bool) (last_writer : nat) (d : DB) : res (bool * nat * DB) :=
  match rest with
  | [] => Ok (is_tmp, last_writer, d)
  | p :: rest =>
      w ← writer d p;
      if writer_sync w && negb (writer_sync first) then Ok (is_tmp, last_writer, d)
      else
        match writer_batch w with
        | Some b =>
            let size := u64 (size + WriteBatch.ByteSize b) in
            if max_size <? size then Ok (is_tmp, last_writer, d)
            else
              d ← (if is_tmp then Ok d
                   else
                     n ← WriteBatch.Count (tmp_batch_ d);
                     SkipList.assert_ (n =? 0);;
                     t ← WriteBatch.Append (tmp_batch_ d) first_batch;
                     Ok (d <| tmp_batch_ := t |>));
              t ← WriteBatch.Append (tmp_batch_ d) b;
              group_loop first first_batch rest size max_size true p (d <| tmp_batch_ := t |>)
        | None => group_loop first first_batch rest size max_size is_tmp p d
        end
  end.
Definition BuildBatchGroup (d : DB) : res (bool * nat * DB) :=
  p ← of_option (head (writers_ d));
  first ← writer d p;
  b ← of_option (writer_batch first);
  let size := WriteBatch.ByteSize b in
  let max_size := if size <=? Z.shiftl 128 10 then u64 (size + Z.shiftl 128 10) else Z.shiftl 1 20 in
  group_loop first b (tail (writers_ d)) size max_size false p d.

(** The batch that is written. *)
Definition updates (is_tmp : bool) (p : nat) (d : DB) : res bytes :=
  if is_tmp then Ok (tmp_batch_ d) else w ← writer d p; of_option (writer_batch w).
Definition set_updates (is_tmp : bool) (p : nat) (b : bytes) (d : DB) : res DB :=
  if is_tmp then Ok (d <| tmp_batch_ := b |>) else change_writer p (λ w, w <| writer_batch := Some b |>) d.

(** ** [MakeRoomForWrite] *)

(** A new log and a new memory table; the old one is to be compacted. *)
Definition switch_memtable (d : DB) : res (Status * DB) :=
  SkipList.assert_ (prev_log_number_ (versions_ d) =? 0);;
  let '(n, s) := NewFileNumber (versions_ d) in
  let d := d <| versions_ := s |> in
  name ← LogFileName dbname n;
  let '(st, lfile, e) := NewWritableFile name (env_ d) in
  let d := d <| env_ := e |> in
  if negb (ok st) then Ok (st, d <| versions_ := ReuseFileNumber (versions_ d) n |>)
  else
    lfile ← of_option lfile;
    let d := d <| env_ := match log_ d with Some (_, f) => delete_file f (env_ d) | None => env_ d end |> in
    w ← Log.Writer_new address 0;
    '(m, d) ← new_memtable (d <| logfile_number_ := n |> <| log_ := Some (w, lfile) |> <| imm_ := mem_ d |> <| has_imm_ := bool_decide (is_Some (mem_ d)) |>);
    d ← MaybeScheduleCompaction (d <| mem_ := Some m |>);
    Ok (OK, d).
(** Each turn but the last one waits, or makes room. *)
Fixpoint room_loop (fuel : nat) (force allow_delay : bool) (d : DB) : res (Status * DB) :=
  match fuel with
  | O => NoFuel
  | S fuel =>
      if negb (ok (bg_error_ d)) then Ok (bg_error_ d, d)
      else
        n ← NumLevelFiles (versions_ d) 0;
        if allow_delay && (kL0_SlowdownWritesTrigger <=? n) then room_loop fuel force false (Lock d)
        else
          p ← of_option (mem_ d);
          m ← memtable d p;
          if negb force && (usage m <=? write_buffer_size o) then Ok (OK, d)
          else
            match imm_ d with
            | Some _ => room_loop fuel force allow_delay (Meanwhile d)
            | None =>
                if kL0_StopWritesTrigger <=? n then room_loop fuel force allow_delay (Meanwhile d)
                else
                  '(s, d) ← switch_memtable d;
                  if ok s then room_loop fuel false allow_delay d else Ok (s, d)
            end
  end.
Definition MakeRoomForWrite (fuel : nat) (force : bool) (d : DB) : res (Status * DB) :=
  SkipList.assert_ (negb (bool_decide (writers_ d = [])));;
  room_loop fuel force (negb force) d.

(** ** [Write] *)

(** The writer at the end of the queue. *)
Definition enqueue (sync : bool) (my_batch : option bytes) (d : DB) : nat * DB :=
  let p := next_writer d in
  (p, d <| writer_objects := <[p := mkDbWriter OK my_batch sync false]> (writer_objects d) |> <| next_writer := S p |> <| writers_ := writers_ d ++ [p] |>).
(** Until the writer is done or the first one. *)
Fixpoint wait_turn (fuel : nat) (p : nat) (d : DB) : res DB :=
  match fuel with
  | O => NoFuel
  | S fuel =>
      w ← writer d p;
      if writer_done w then Ok d
      else front ← of_option (head (writers_ d)); if decide (p = front) then Ok d else wait_turn fuel p (Meanwhile d)
  end.
(** What is done without the mutex: the batch goes to the log and into the memory table. *)
Definition log_batch (sync : bool) (b : bytes) (d : DB) : res (Status * bool * DB) :=
  '(w, f) ← of_option (log_ d);
  '(s, w, f) ← Log.AddRecord address w f (WriteBatch.Contents b);
  let '(s, sync_error, f) := if ok s && sync then let '(s, f) := Sync f in (s, negb (ok s), f) else (s, false, f) in
  Ok (s, sync_error, d <| log_ := Some (w, f) |>).
Definition insert_batch (b : bytes) (d : DB) : res (Status * DB) :=
  p ← of_option (mem_ d);
  m ← memtable d p;
  '(s, m) ← WriteBatch.InsertInto C b m;
  Ok (s, d <| memtables := <[p := m]> (memtables d) |>).
(** The group of the writer, from the first sequence number on. *)
Definition write_group (sync : bool) (p : nat) (last_sequence : Z) (d : DB) : res (Status * nat * DB) :=
  '(is_tmp, last_writer, d) ← BuildBatchGroup d;
  b ← updates is_tmp p d;
  b ← WriteBatch.SetSequence b (u64 (last_sequence + 1));
  d ← set_updates is_tmp p b d;
  n ← WriteBatch.Count b;
  let last_sequence := u64 (last_sequence + n) in
  '(s, sync_error, d) ← log_batch sync b (Meanwhile d);
  let d := Meanwhile d in
  '(s, d) ← (if ok s then insert_batch b d else Ok (s, d));
  let d := Lock d in
  let d := if sync_error : bool then RecordBackgroundError s d else d in
  let d := if is_tmp : bool then d <| tmp_batch_ := WriteBatch.Clear |> else d in
  vs ← SetLastSequence (versions_ d) last_sequence;
  Ok (s, last_writer, d <| versions_ := vs |>).
(** The writers up to the last one of the group leave the queue; they are done. *)
Fixpoint pop_writers (queue : list nat) (p last_writer : nat) (status : Status) (d : DB) : res DB :=
  match queue with
  | [] => UB
  | ready :: queue =>
      let d := d <| writers_ := queue |> in
      d ← (if decide (ready = p) then Ok d else change_writer ready (λ w, w <| writer_status := status |> <| writer_done := true |>) d);
      if decide (ready = last_writer) then Ok d else pop_writers queue p last_writer status d
  end.
(** The turn of a writer that is the first one. *)
Definition lead (room_fuel : nat) (sync : bool) (my_batch : option bytes) (p : nat) (d : DB) : res (Status * DB) :=
  '(s, d) ← MakeRoomForWrite room_fuel (match my_batch with None => true | Some _ => false end) d;
  let last_sequence := last_sequence_ (versions_ d) in
  '(s, last_writer, d) ← (match my_batch with
                          | Some _ => if ok s then write_group sync p last_sequence d else Ok (s, p, d)
                          | None => Ok (s, p, d)
                          end);
  d ← pop_writers (writers_ d) p last_writer s d;
  Ok (s, d).
Definition Write (wait_fuel room_fuel : nat) (sync : bool) (my_batch : option bytes) (d : DB) : res (Status * DB) :=
  let '(p, d) := enqueue sync my_batch (Lock d) in
  d ← wait_turn wait_fuel p d;
  w ← writer d p;
  if writer_done w then Ok (writer_status w, d) else lead room_fuel sync my_batch p d.

Definition Put (wait_fuel room_fuel : nat) (sync : bool) (key value : bytes) (d : DB) : res (Status * DB) :=
  batch ← WriteBatch.Put WriteBatch.Clear key value; Write wait_fuel room_fuel sync (Some batch) d.
Definition Delete (wait_fuel room_fuel : nat) (sync : bool) (key : bytes) (d : DB) : res (Status * DB) :=
  batch ← WriteBatch.Delete WriteBatch.Clear key; Write wait_fuel room_fuel sync (Some batch) d.

(** ** Requests for a compaction *)

Context (wait_fuel room_fuel : nat).

Fixpoint wait_imm (fuel : nat) (d : DB) : res DB :=
  match fuel with
  | O => NoFuel
  | S fuel => if bool_decide (is_Some (imm_ d)) && ok (bg_error_ d) then wait_imm fuel (Meanwhile d) else Ok d
  end.
Definition TEST_CompactMemTable (d : DB) : res (Status * DB) :=
  '(s, d) ← Write wait_fuel room_fuel false None d;
  if ok s then
    d ← wait_imm wait_fuel (Lock d);
    Ok (match imm_ d with Some _ => bg_error_ d | None => s end, d)
  else Ok (s, d).

Fixpoint manual_loop (fuel : nat) (p : nat) (d : DB) : res DB :=
  match fuel with
  | O => NoFuel
  | S fuel =>
      m ← of_option (manuals d !! p);
      if negb (manual_done m) && negb (shutting_down_ d) && ok (bg_error_ d) then
        d ← match manual_compaction_ d with
            | None => MaybeScheduleCompaction (d <| manual_compaction_ := Some p |>)
            | Some _ => Ok (Meanwhile d)
            end;
        manual_loop fuel p d
      else Ok d
  end.
(** The request is an object on the stack: its address is free here. *)
Definition TEST_CompactRange (p : nat) (level : Z) (b e : option bytes) (d : DB) : res DB :=
  SkipList.assert_ (0 <=? level);;
  SkipList.assert_ (level + 1 <? kNumLevels);;
  b ← match b with Some k => k ← AppendInternalKey [] (mkParsed k kMaxSequenceNumber kValueTypeForSeek); Ok (Some k) | None => Ok None end;
  e ← match e with Some k => k ← AppendInternalKey [] (mkParsed k 0 kTypeDeletion); Ok (Some k) | None => Ok None end;
  let d := Lock (d <| manuals := <[p := mkManual level false b e]> (manuals d) |>) in
  d ← manual_loop wait_fuel p d;
  Ok (if bool_decide (manual_compaction_ d = Some p) then d <| manual_compaction_ := None |> else d).

Fixpoint max_level (n : nat) (level max_level_with_files : Z) (v : Version) (b e : option bytes) : res Z :=
  match n with
  | O => Ok max_level_with_files
  | S n => x ← OverlapInLevel C v level b e; max_level n (level + 1) (if x : bool then level else max_level_with_files) v b e
  end.
Fixpoint compact_levels (n : nat) (p : nat) (level : Z) (b e : option bytes) (d : DB) : res DB :=
  match n with
  | O => Ok d
  | S n => d ← TEST_CompactRange p level b e d; compact_levels n p (level + 1) b e d
  end.
Definition CompactRange (p : nat) (b e : option bytes) (d : DB) : res DB :=
  let d := Lock d in
  base ← current (versions_ d);
  n ← max_level (Z.to_nat kNumLevels - 1) 1 1 base b e;
  '(_, d) ← TEST_CompactMemTable d;
  compact_levels (Z.to_nat n) p 0 b e d.
End write.
End DbWrite.
