(* ===== verification/LdbDbRead.v ===== *)
(** Reading from a LevelDB database ([db/db_impl.cc]): lookups, iterators, snapshots,
    statistics of reads, and sizes of ranges ([ApproximateOffsetOf] of [db/version_set.cc]). *)
From S2P Require Import Prelude LdbSkip LdbFormat LdbMemTable LdbLog LdbIterator LdbMerger LdbTwoLevel LdbDbIter LdbTable LdbVersionEdit LdbVersion LdbVersionSet LdbCompaction LdbEnv LdbDb.

Module DbRead.
Import Status Internal Config Version VersionSet Compaction Snapshots Db.

(** The options of a read; a snapshot is its address. *)
Record DBReadOptions := mkDbRead { read_table_options : Table.ReadOptions; snapshot : option nat }.

Section read.
Context {E F Q K TI : Type} `{Env E F Q} `{WritableFile F} `{SyncFile F} `{SequentialFile Q} `{TableCache (E * K) TI} `{Iterator TI} `{Evicts K}.
Context (C : SliceComparator).
#[local] Abbreviation DB := (DBImpl (E := E) (F := F) (K := K)).
Context (others : nat → DB → DB).
#[local] Abbreviation Meanwhile := (Meanwhile others).
#[local] Abbreviation Lock := (Lock others).

Definition snapshot_number (s : option nat) (d : DB) : res Z :=
  match s with Some p => n ← node (snapshots_ d) p; Ok (number_ n) | None => Ok (last_sequence_ (versions_ d)) end.
Definition ref_imm (imm : option nat) (d : DB) : res DB := match imm with Some p => RefMemTable p d | None => Ok d end.
Definition unref_imm (imm : option nat) (d : DB) : res DB := match imm with Some p => UnrefMemTable p d | None => Ok d end.
Definition ref_version (p : nat) (d : DB) : res DB := s ← VersionSet.Ref (versions_ d) p; Ok (d <| versions_ := s |>).
Definition unref_version (p : nat) (d : DB) : res DB := s ← VersionSet.Unref (versions_ d) p; Ok (d <| versions_ := s |>).

(** ** Lookups *)

(** What a memory table answers, with the value if there is one. *)
Definition table_lookup (p : nat) (lkey : LookupKey) (value : bytes) (d : DB) : res (option (Status * bytes)) :=
  m ← memtable d p;
  r ← MemTable.Get C m lkey;
  Ok (match r with
      | MemTable.g_value v => Some (OK, v)
      | MemTable.g_deleted => Some (NotFound "", value)
      | MemTable.g_none => None
      end).
(** The statistics are those of the version at the address. *)
Definition update_stats (p : nat) (st : GetStats) (d : DB) : res (bool * DB) :=
  let s := versions_ d in
  v ← version s p;
  '(b, v, seeks) ← UpdateStats st v (seeks_of (objects s));
  let h := mkObjects (next_address (objects s)) (refs_of (objects s)) seeks in
  Ok (b, d <| versions_ := set_versions (set_objects s h) (next_version s) (<[p := v]> (versions s)) (linked s) (current_ s) |>).
(** Without the mutex: the memory table, then the one that is being compacted, then the
    tables. The last component says whether there are statistics. *)
Definition lookup (o : DBReadOptions) (mem : nat) (imm : option nat) (current : nat) (lkey : LookupKey) (value : bytes) (d : DB) :
    res (Status * bytes * option GetStats * DB) :=
  let d := Meanwhile d in
  r ← table_lookup mem lkey value d;
  match r with
  | Some (s, value) => Ok (s, value, None, d)
  | None =>
      let d := Meanwhile d in
      r ← match imm with Some p => table_lookup p lkey value d | None => Ok None end;
      match r with
      | Some (s, value) => Ok (s, value, None, d)
      | None =>
          let d := Meanwhile d in
          v ← version (versions_ d) current;
          '(s, value, st, w) ← Version.Get C v (read_table_options o) lkey value (env_ d, table_cache_ d);
          Ok (s, value, Some st, d <| env_ := w.1 |> <| table_cache_ := w.2 |>)
      end
  end.
Definition Get (o : DBReadOptions) (key value : bytes) (d : DB) : res (Status * bytes * DB) :=
  let d := Lock d in
  number ← snapshot_number (snapshot o) d;
  mem ← of_option (mem_ d);
  let imm := imm_ d in
  current ← of_option (current_ (versions_ d));
  d ← RefMemTable mem d;
  d ← ref_imm imm d;
  d ← ref_version current d;
  lkey ← lookup_key key number;
  '(s, value, st, d) ← lookup o mem imm current lkey value d;
  let d := Lock d in
  d ← match st with
      | Some st => '(b, d) ← update_stats current st d; if b : bool then MaybeScheduleCompaction d else Ok d
      | None => Ok d
      end;
  d ← UnrefMemTable mem d;
  d ← unref_imm imm d;
  d ← unref_version current d;
  Ok (s, value, d).

Definition RecordReadSample (key : bytes) (d : DB) : res DB :=
  let d := Lock d in
  let s := versions_ d in
  p ← of_option (current_ s);
  v ← version s p;
  '(b, v, seeks) ← Version.RecordReadSample C key v (seeks_of (objects s));
  let h := mkObjects (next_address (objects s)) (refs_of (objects s)) seeks in
  let d := d <| versions_ := set_versions (set_objects s h) (next_version s) (<[p := v]> (versions s)) (linked s) (current_ s) |> in
  if b : bool then MaybeScheduleCompaction d else Ok d.

(** ** Iterators *)

(** What an iterator holds on to. *)
Record IterState := mkIterState { state_version : nat; state_mem : nat; state_imm : option nat }.
Definition CleanupIteratorState (state : IterState) (d : DB) : res DB :=
  let d := Lock d in
  d ← UnrefMemTable (state_mem state) d;
  d ← unref_imm (state_imm state) d;
  unref_version (state_version state) d.

Context (fuel : nat) (o : DBReadOptions).
#[local] Abbreviation FileIterator := (TI + LevelIterator (T := E * K) (TI := TI))%type.
#[local] Instance file_child : Iterator FileIterator := child_iterator C fuel (read_table_options o).
#[local] Abbreviation ChildIterator := (MemTableIterator + FileIterator)%type.
#[local] Instance child : Iterator ChildIterator := sum_iterator (H := mem_iterator C).
Definition InternalIterator : Type := EmptyIterator + (ChildIterator + Merger.MergingIterator (I := ChildIterator)).
#[local] Instance internal_iterator : Iterator InternalIterator :=
  sum_iterator (H0 := sum_iterator (H0 := Merger.merging_iterator (comparator_ := InternalKeyComparator C))).

(** The iterator with its state; the last sequence number and the seed. A memory table is
    seen by its iterator as it is now. *)
Definition NewInternalIterator (d : DB) : res (InternalIterator * IterState * Z * Z * DB) :=
  let d := Lock d in
  let latest_snapshot := last_sequence_ (versions_ d) in
  mem ← of_option (mem_ d);
  m ← memtable d mem;
  d ← RefMemTable mem d;
  imm_iters ← match imm_ d with Some p => m ← memtable d p; Ok [inl (NewMemIterator m)] | None => Ok [] end;
  let imm := imm_ d in
  d ← ref_imm imm d;
  p ← of_option (current_ (versions_ d));
  v ← version (versions_ d) p;
  '(files, w) ← AddIterators C (read_table_options o) v [] (env_ d, table_cache_ d);
  it ← Merger.NewMergingIterator (inl (NewMemIterator m) :: imm_iters ++ (inr <$> files));
  d ← ref_version p (d <| env_ := w.1 |> <| table_cache_ := w.2 |>);
  let seed := u32 (seed_ d + 1) in
  Ok (it, mkIterState p mem imm, latest_snapshot, seed, d <| seed_ := seed |>).
Definition NewIterator (d : DB) : res (DbIter.DBIter InternalIterator * IterState * DB) :=
  '(it, state, latest_snapshot, seed, d) ← NewInternalIterator d;
  number ← match snapshot o with Some p => n ← node (snapshots_ d) p; Ok (number_ n) | None => Ok latest_snapshot end;
  it ← DbIter.NewDBIterator it number seed;
  Ok (it, state, d).

(** ** Snapshots *)

Definition GetSnapshot (d : DB) : res (nat * DB) :=
  let d := Lock d in
  '(p, l) ← Snapshots.New (last_sequence_ (versions_ d)) (snapshots_ d);
  Ok (p, d <| snapshots_ := l |>).
Definition ReleaseSnapshot (s : nat) (d : DB) : res DB :=
  let d := Lock d in
  l ← Snapshots.Delete s (snapshots_ d);
  Ok (d <| snapshots_ := l |>).

(** ** Sizes

    [table_offset] is what the table of the number and size says, if it can be opened. *)
Context (table_offset : Z → Z → bytes → E * K → res (option Z * (E * K))).

Fixpoint offset_files (level : Z) (ikey : bytes) (files : list File) (result : Z) (w : E * K) : res (Z * (E * K)) :=
  match files with
  | [] => Ok (result, w)
  | f :: files =>
      a ← icmp C (largest (meta f)) ikey;
      if a <=? 0 then offset_files level ikey files (u64 (result + file_size (meta f))) w
      else
        b ← icmp C (smallest (meta f)) ikey;
        if 0 <? b then if 0 <? level then Ok (result, w) else offset_files level ikey files result w
        else
          '(off, w) ← table_offset (number (meta f)) (file_size (meta f)) ikey w;
          offset_files level ikey files (match off with Some n => u64 (result + n) | None => result end) w
  end.
Fixpoint offset_levels (level : Z) (ikey : bytes) (levels : list (list File)) (result : Z) (w : E * K) : res (Z * (E * K)) :=
  match levels with
  | [] => Ok (result, w)
  | files :: levels => '(result, w) ← offset_files level ikey files result w; offset_levels (level + 1) ikey levels result w
  end.
Definition ApproximateOffsetOf (v : Version) (ikey : bytes) (w : E * K) : res (Z * (E * K)) := offset_levels 0 ikey (files_ v) 0 w.

Fixpoint range_sizes (p : nat) (ranges : list (bytes * bytes)) (d : DB) : res (list Z * DB) :=
  match ranges with
  | [] => Ok ([], d)
  | (start, limit) :: ranges =>
      let d := Meanwhile d in
      k1 ← AppendInternalKey [] (mkParsed start kMaxSequenceNumber kValueTypeForSeek);
      k2 ← AppendInternalKey [] (mkParsed limit kMaxSequenceNumber kValueTypeForSeek);
      v ← version (versions_ d) p;
      '(start, w) ← ApproximateOffsetOf v k1 (env_ d, table_cache_ d);
      '(limit, w) ← ApproximateOffsetOf v k2 w;
      '(sizes, d) ← range_sizes p ranges (d <| env_ := w.1 |> <| table_cache_ := w.2 |>);
      Ok ((if start <=? limit then limit - start else 0) :: sizes, d)
  end.
Definition GetApproximateSizes (ranges : list (bytes * bytes)) (d : DB) : res (list Z * DB) :=
  let d := Lock d in
  p ← of_option (current_ (versions_ d));
  d ← ref_version p d;
  '(sizes, d) ← range_sizes p ranges d;
  d ← unref_version p (Lock d);
  Ok (sizes, d).
End read.
End DbRead.
