(* ===== verification/LdbDbOpen.v ===== *)
(** Opening and destroying a LevelDB database ([db/db_impl.cc]): a new descriptor, recovery
    from the descriptor ([VersionSet::Recover] of [db/version_set.cc]) and from the logs. *)
From stdpp Require Import sorting.
From S2P Require Import Prelude LdbSkip LdbFormat LdbMemTable LdbLog LdbIterator LdbTable LdbVersionEdit LdbVersion LdbVersionSet LdbEnv LdbDb.

Module DbOpen.
Import Status Internal Config Version VersionSet Filename WholeFile Db.

(** ** Options *)

Definition ClipToRange (x minvalue maxvalue : Z) : Z :=
  let x := if maxvalue <? x then maxvalue else x in if x <? minvalue then minvalue else x.
(** The log of messages and the block cache are given. *)
Definition SanitizeOptions (o : DBOptions) : DBOptions :=
  let t := table_options o in
  mkDBOptions (create_if_missing o) (error_if_exists o) (reuse_logs o)
    (ClipToRange (write_buffer_size o) (Z.shiftl 64 10) (Z.shiftl 1 30))
    (ClipToRange (max_file_size o) (Z.shiftl 1 20) (Z.shiftl 1 30))
    (mkOptions (ClipToRange (block_size t) (Z.shiftl 1 10) (Z.shiftl 4 20)) (block_restart_interval t) (compression t) (paranoid_checks t)).

Section open.
Context {E F Q K TI : Type} `{Env E F Q} `{WritableFile F} `{SyncFile F} `{SequentialFile Q} `{TableCache (E * K) TI} `{Iterator TI} `{Evicts K}.
Context (address : bytes → Z) (C : SliceComparator) (cname : bytes) (pol : NamedPolicy) (o : DBOptions) (dbname : bytes) (usage : MemTable.MemTable → Z).
#[local] Abbreviation DB := (DBImpl (E := E) (F := F) (K := K)).
Context (others : nat → DB → DB).
(** A bound on the turns of loops over files. *)
Context (fuel : nat).

(** The constructor. *)
Definition DBImpl_new (e : E) (k : K) : res DB :=
  s ← VersionSet.new;
  Ok (mkDB e k false ∅ 0 None None false None 0 0 Snapshots.new_list ∅ false ∅ None s None OK ∅ 0 [] WriteBatch.Clear 0).
(** The destructor, as far as the state goes: it waits for the work in the background. *)
Fixpoint wait_background (n : nat) (d : DB) : res DB :=
  match n with
  | O => NoFuel
  | S n => if bg_compaction_scheduled_ d then wait_background n (Meanwhile others d) else Ok d
  end.
Definition DBImpl_delete (locked : bool) (d : DB) : res DB :=
  let d := Lock others d in
  d ← wait_background fuel (d <| shutting_down_ := true |>);
  let d := if locked then d <| env_ := (UnlockFile (LockFileName dbname) (env_ d)).2 |> else d in
  d ← match mem_ d with Some p => UnrefMemTable p d | None => Ok d end;
  d ← match imm_ d with Some p => UnrefMemTable p d | None => Ok d end;
  Ok (d <| env_ := match log_ d with Some (_, f) => delete_file f (env_ d) | None => env_ d end |> <| log_ := None |>).

(** ** A new database *)

Definition new_db : VersionEdit.VersionEdit :=
  VersionEdit.SetLastSequence 0 (VersionEdit.SetNextFile 2 (VersionEdit.SetLogNumber 0 (VersionEdit.SetComparatorName cname VersionEdit.new))).
Definition NewDB (d : DB) : res (Status * DB) :=
  manifest ← DescriptorFileName dbname 1;
  let '(s, f, e) := NewWritableFile manifest (env_ d) in
  if negb (ok s) then Ok (s, d <| env_ := e |>)
  else
    f ← of_option f;
    w ← Log.Writer_new address 0;
    record ← VersionEdit.EncodeTo new_db [];
    '(s, w, f) ← Log.AddRecord address w f record;
    let '(s, f) := if ok s then Close f else (s, f) in
    let e := delete_file f e in
    if ok s then '(s, e) ← SetCurrentFile dbname 1 e; Ok (s, d <| env_ := e |>)
    else Ok (s, d <| env_ := (env_DeleteFile manifest e).2 |>).

Definition MaybeIgnoreError (s : Status) : Status := if ok s || paranoid_checks (table_options o) then s else OK.

(** ** Reading a log

    The reader's reports since there were [n] of them; a status keeps its first error. *)
Definition note_reports {R : Type} (n : nat) (r : Log.Reader (F := R)) (s : Status) : Status :=
  foldr (λ x s, if ok s then x.2 else s) s (take (length (Log.reports r) - n) (Log.reports r)).
#[local] Abbreviation Reader := (Log.Reader (F := Q)).
Definition ReadRecord (r : Reader) : res (option bytes * Reader) := Log.ReadRecord address true true 0 fuel r.

(** ** The descriptor *)

(** The numbers that the edits give. *)
Record Found := mkFound { found_log : option Z; found_prev_log : option Z; found_next_file : option Z; found_last_sequence : option Z }.
Definition note_edit (e : VersionEdit.VersionEdit) (x : Found) : Found :=
  mkFound (if VersionEdit.has_log_number_ e then Some (VersionEdit.log_number_ e) else found_log x)
    (if VersionEdit.has_prev_log_number_ e then Some (VersionEdit.prev_log_number_ e) else found_prev_log x)
    (if VersionEdit.has_next_file_number_ e then Some (VersionEdit.next_file_number_ e) else found_next_file x)
    (if VersionEdit.has_last_sequence_ e then Some (VersionEdit.last_sequence_ e) else found_last_sequence x).
Fixpoint replay_loop (n : nat) (r : Reader) (s : Status) (x : Found) (b : Builder) (vs : VersionSet) : res (Status * Found * Builder * VersionSet) :=
  match n with
  | O => NoFuel
  | S n =>
      let reported := length (Log.reports r) in
      '(record, r) ← ReadRecord r;
      let s := note_reports reported r s in
      match record with
      | None => Ok (s, x, b, vs)
      | Some record =>
          if negb (ok s) then Ok (s, x, b, vs)
          else
            '(s, edit) ← VersionEdit.DecodeFrom record VersionEdit.new;
            let s := if ok s && (VersionEdit.has_comparator_ edit && negb (bool_decide (VersionEdit.comparator_ edit = cname)))
                     then InvalidArgument "does not match existing comparator" else s in
            '(b, vs) ← (if ok s then Apply C edit b vs else Ok (b, vs));
            replay_loop n r s (note_edit edit x) b vs
      end
  end.
(** What is missing in the descriptor. *)
Definition check_found (x : Found) : Status :=
  match found_next_file x, found_log x, found_last_sequence x with
  | None, _, _ => Corruption "no meta-nextfile entry in descriptor"
  | _, None, _ => Corruption "no meta-lognumber entry in descriptor"
  | _, _, None => Corruption "no last-sequence-number entry in descriptor"
  | _, _, _ => OK
  end.
Definition ReuseManifest (dscname dscbase : bytes) (d : DB) : res (bool * DB) :=
  if negb (reuse_logs o) then Ok (false, d)
  else
    r ← ParseFileName dscbase;
    match r with
    | Some (manifest_number, kDescriptorFile) =>
        let '(s, manifest_size) := GetFileSize dscname (env_ d) in
        if negb (ok s) || (u64 (TargetFileSize (max_file_size o)) <=? manifest_size) then Ok (false, d)
        else
          SkipList.assert_ (match descriptor_ d with None => true | Some _ => false end);;
          let '(s, f, e) := NewAppendableFile dscname (env_ d) in
          let d := d <| env_ := e |> in
          if negb (ok s) then Ok (false, d)
          else
            f ← of_option f;
            w ← Log.Writer_new address manifest_size;
            let vs := versions_ d in
            Ok (true, d <| descriptor_ := Some (w, f) |>
                        <| versions_ := set_numbers vs (next_file_number_ vs) manifest_number (last_sequence_ vs) (log_number_ vs) (prev_log_number_ vs) |>)
    | _ => Ok (false, d)
    end.
(** The numbers of a version set after the edits. *)
Definition install_recovered (x : Found) (b : Builder) (vs : VersionSet) : res VersionSet :=
  '(v, vs) ← SaveTo C empty_version b vs;
  vs ← AppendVersion vs (Finalize v);
  next_file ← of_option (found_next_file x);
  log_number ← of_option (found_log x);
  last_sequence ← of_option (found_last_sequence x);
  Ok (set_numbers vs (u64 (next_file + 1)) next_file last_sequence log_number (default 0 (found_prev_log x))).
Definition recover_set (dscname current : bytes) (file : Q) (save_manifest : bool) (d : DB) : res (Status * bool * DB) :=
  base ← of_option (current_ (versions_ d));
  '(b, vs) ← builder_start base (versions_ d);
  '(s, x, b, vs) ← replay_loop fuel (Log.Reader_new 0 file) OK (mkFound None None None None) b vs;
  let '(s, vs) := if ok s then (check_found x, MarkFileNumberUsed (MarkFileNumberUsed vs (default 0 (found_prev_log x))) (default 0 (found_log x))) else (s, vs) in
  '(save_manifest, d) ← (if ok s then
                           vs ← install_recovered x b vs;
                           '(reused, d) ← ReuseManifest dscname current (d <| versions_ := vs |>);
                           Ok (if reused : bool then save_manifest else true, d)
                         else Ok (save_manifest, d <| versions_ := vs |>));
  vs ← Builder_delete b (versions_ d);
  Ok (s, save_manifest, d <| versions_ := vs |>).
Definition VersionSet_Recover (save_manifest : bool) (d : DB) : res (Status * bool * DB) :=
  '(s, current, e) ← ReadFileToString fuel (CurrentFileName dbname) (env_ d);
  let d := d <| env_ := e |> in
  if negb (ok s) then Ok (s, save_manifest, d)
  else
    match list.last current with
    | Some 10 =>
        let current := take (length current - 1) current in
        let dscname := dbname ++ str "/" ++ current in
        let '(s, file, e) := NewSequentialFile dscname (env_ d) in
        let d := d <| env_ := e |> in
        if negb (ok s) then Ok (s, save_manifest, d)
        else file ← of_option file; recover_set dscname current file save_manifest d
    | _ => Ok (Corruption "CURRENT file does not end with newline", save_manifest, d)
    end.

(** ** The logs *)

(** What the recovery of a log goes on with. *)
Record LogState := mkLogState {
  log_status : Status; log_mem : option nat; compactions : Z; log_save : bool; log_edit : VersionEdit.VersionEdit; max_sequence : Z
}.
#[export] Instance log_state_fields : Fields LogState := (λ _, mkLogState) <@> log_status <@> log_mem <@> compactions <@> log_save <@> log_edit <@> max_sequence.

(** A full memory table becomes a file. *)
Definition flush_mem (mem : nat) (l : LogState) (d : DB) : res (LogState * DB) :=
  '(s, edit, d) ← WriteLevel0Table address C pol o dbname others fuel mem (log_edit l) None d;
  d ← UnrefMemTable mem d;
  Ok (l <| log_status := s |> <| log_save := true |> <| log_edit := edit |> <| log_mem := None |>, d).
(** A batch of the log; whether the loop goes on. *)
Definition replay_batch (record : bytes) (l : LogState) (d : DB) : res (bool * LogState * DB) :=
  batch ← WriteBatch.SetContents record;
  '(mem, d) ← (match log_mem l with Some p => Ok (p, d) | None => new_memtable d end : res (nat * DB));
  let l := l <| log_mem := Some mem |> in
  m ← memtable d mem;
  '(s, m) ← WriteBatch.InsertInto C batch m;
  let d := d <| memtables := <[mem := m]> (memtables d) |> in
  let l := l <| log_status := MaybeIgnoreError s |> in
  if negb (ok (log_status l)) then Ok (false, l, d)
  else
    seq ← WriteBatch.Sequence batch;
    n ← WriteBatch.Count batch;
    let last_seq := u64 (seq + n - 1) in
    let l := if max_sequence l <? last_seq then l <| max_sequence := last_seq |> else l in
    if write_buffer_size o <? usage m then
      k ← int_ok (compactions l + 1);
      '(l, d) ← flush_mem mem (l <| compactions := k |>) d;
      Ok (ok (log_status l), l, d)
    else Ok (true, l, d).
(** Without paranoid checks reports are ignored. *)
Fixpoint log_loop (n : nat) (r : Reader) (l : LogState) (d : DB) : res (LogState * DB) :=
  match n with
  | O => NoFuel
  | S n =>
      let reported := length (Log.reports r) in
      '(record, r) ← ReadRecord r;
      let paranoid := paranoid_checks (table_options o) in
      let l := if paranoid then l <| log_status := note_reports reported r (log_status l) |> else l in
      match record with
      | None => Ok (l, d)
      | Some record =>
          if negb (ok (log_status l)) then Ok (l, d)
          else if Slice.size record <? 12 then
            log_loop n r (if paranoid then l <| log_status := Corruption "log record too small" |> else l) d
          else
            '(go_on, l, d) ← replay_batch record l d;
            if go_on : bool then log_loop n r l d else Ok (l, d)
      end
  end.
(** The log, with its memory table, goes on being used. *)
Definition reuse_log (fname : bytes) (log_number : Z) (l : LogState) (d : DB) : res (LogState * DB) :=
  SkipList.assert_ (match log_ d with None => true | Some _ => false end);;
  SkipList.assert_ (match mem_ d with None => true | Some _ => false end);;
  let '(s, lfile_size) := GetFileSize fname (env_ d) in
  if negb (ok s) then Ok (l, d)
  else
    let '(s, f, e) := NewAppendableFile fname (env_ d) in
    let d := d <| env_ := e |> in
    if negb (ok s) then Ok (l, d)
    else
      f ← of_option f;
      w ← Log.Writer_new address lfile_size;
      let d := d <| log_ := Some (w, f) |> <| logfile_number_ := log_number |> in
      '(mem, d) ← (match log_mem l with Some p => Ok (p, d) | None => new_memtable d end : res (nat * DB));
      Ok (l <| log_mem := None |>, d <| mem_ := Some mem |>).
Definition RecoverLogFile (log_number : Z) (last_log save_manifest : bool) (edit : VersionEdit.VersionEdit) (max_seq : Z) (d : DB) :
    res (Status * bool * VersionEdit.VersionEdit * Z * DB) :=
  fname ← LogFileName dbname log_number;
  let '(s, file, e) := NewSequentialFile fname (env_ d) in
  let d := d <| env_ := e |> in
  if negb (ok s) then Ok (MaybeIgnoreError s, save_manifest, edit, max_seq, d)
  else
    file ← of_option file;
    '(l, d) ← log_loop fuel (Log.Reader_new 0 file) (mkLogState s None 0 save_manifest edit max_seq) d;
    '(l, d) ← (if ok (log_status l) && reuse_logs o && last_log && (compactions l =? 0) then reuse_log fname log_number l d else Ok (l, d));
    '(l, d) ← match log_mem l with
              | Some mem => if ok (log_status l) then flush_mem mem l d else d ← UnrefMemTable mem d; Ok (l, d)
              | None => Ok (l, d)
              end;
    Ok (log_status l, log_save l, log_edit l, max_sequence l, d).

(** ** [DBImpl::Recover] *)

(** The tables that are expected and not there, and the logs that are new enough. *)
Fixpoint scan_files (min_log prev_log : Z) (filenames : list bytes) (expected : gset Z) (logs : list Z) : res (gset Z * list Z) :=
  match filenames with
  | [] => Ok (expected, logs)
  | name :: filenames =>
      r ← ParseFileName name;
      match r with
      | Some (number, type) =>
          let logs := match type with kLogFile => if (min_log <=? number) || (number =? prev_log) then logs ++ [number] else logs | _ => logs end in
          scan_files min_log prev_log filenames (expected ∖ {[number]}) logs
      | None => scan_files min_log prev_log filenames expected logs
      end
  end.
Fixpoint recover_logs (logs : list Z) (save_manifest : bool) (edit : VersionEdit.VersionEdit) (max_seq : Z) (d : DB) :
    res (Status * bool * VersionEdit.VersionEdit * Z * DB) :=
  match logs with
  | [] => Ok (OK, save_manifest, edit, max_seq, d)
  | n :: logs =>
      '(s, save_manifest, edit, max_seq, d) ← RecoverLogFile n (bool_decide (logs = [])) save_manifest edit max_seq d;
      if negb (ok s) then Ok (s, save_manifest, edit, max_seq, d)
      else recover_logs logs save_manifest edit max_seq (d <| versions_ := MarkFileNumberUsed (versions_ d) n |>)
  end.
(** There is a database, or a new one. *)
Definition ensure_db (d : DB) : res (Status * DB) :=
  if negb (FileExists (CurrentFileName dbname) (env_ d)) then
    if create_if_missing o then NewDB d else Ok (InvalidArgument "does not exist (create_if_missing is false)", d)
  else if error_if_exists o then Ok (InvalidArgument "exists (error_if_exists is true)", d) else Ok (OK, d).
(** After the descriptor: the logs. *)
Definition recover_newer (save_manifest : bool) (edit : VersionEdit.VersionEdit) (d : DB) : res (Status * bool * VersionEdit.VersionEdit * DB) :=
  let '(s, filenames) := GetChildren dbname (env_ d) in
  if negb (ok s) then Ok (s, save_manifest, edit, d)
  else
    live ← AddLiveFiles (versions_ d) ∅;
    '(expected, logs) ← scan_files (log_number_ (versions_ d)) (prev_log_number_ (versions_ d)) filenames live [];
    if negb (bool_decide (expected = ∅)) then Ok (Corruption "missing files", save_manifest, edit, d)
    else
      '(s, save_manifest, edit, max_seq, d) ← recover_logs (merge_sort Z.le logs) save_manifest edit 0 d;
      if negb (ok s) then Ok (s, save_manifest, edit, d)
      else if last_sequence_ (versions_ d) <? max_seq then
        vs ← SetLastSequence (versions_ d) max_seq; Ok (OK, save_manifest, edit, d <| versions_ := vs |>)
      else Ok (OK, save_manifest, edit, d).
(** The second component says whether the lock is held. *)
Definition Recover (edit : VersionEdit.VersionEdit) (save_manifest : bool) (d : DB) : res (Status * bool * bool * VersionEdit.VersionEdit * DB) :=
  let d := d <| env_ := (CreateDir dbname (env_ d)).2 |> in
  let '(s, e) := LockFile (LockFileName dbname) (env_ d) in
  let d := d <| env_ := e |> in
  if negb (ok s) then Ok (s, false, save_manifest, edit, d)
  else
    '(s, d) ← ensure_db d;
    if negb (ok s) then Ok (s, true, save_manifest, edit, d)
    else
      '(s, save_manifest, d) ← VersionSet_Recover save_manifest d;
      if negb (ok s) then Ok (s, true, save_manifest, edit, d)
      else '(s, save_manifest, edit, d) ← recover_newer save_manifest edit d; Ok (s, true, save_manifest, edit, d).

(** ** [DB::Open] *)

(** A log and a memory table, unless those of before are used. *)
Definition open_log (edit : VersionEdit.VersionEdit) (d : DB) : res (Status * VersionEdit.VersionEdit * DB) :=
  match mem_ d with
  | Some _ => Ok (OK, edit, d)
  | None =>
      let '(n, vs) := NewFileNumber (versions_ d) in
      let d := d <| versions_ := vs |> in
      name ← LogFileName dbname n;
      let '(s, lfile, e) := NewWritableFile name (env_ d) in
      let d := d <| env_ := e |> in
      if negb (ok s) then Ok (s, edit, d)
      else
        lfile ← of_option lfile;
        w ← Log.Writer_new address 0;
        '(m, d) ← new_memtable (d <| logfile_number_ := n |> <| log_ := Some (w, lfile) |>);
        Ok (OK, VersionEdit.SetLogNumber n edit, d <| mem_ := Some m |>)
  end.
(** The database, if it is open. *)
Definition Open (e : E) (k : K) : res (Status * option DB * E) :=
  d ← DBImpl_new e k;
  '(s, locked, save_manifest, edit, d) ← Recover VersionEdit.new false (Lock others d);
  '(s, edit, d) ← (if ok s then open_log edit d else Ok (s, edit, d));
  '(s, d) ← (if ok s && save_manifest
             then LogAndApply address C cname dbname others (VersionEdit.SetLogNumber (logfile_number_ d) (VersionEdit.SetPrevLogNumber 0 edit)) d
             else Ok (s, d));
  if ok s then
    d ← DeleteObsoleteFiles dbname d;
    d ← MaybeScheduleCompaction d;
    SkipList.assert_ (match mem_ d with Some _ => true | None => false end);;
    Ok (s, Some d, env_ d)
  else d ← DBImpl_delete locked d; Ok (s, None, env_ d).

(** ** [DestroyDB] *)

Fixpoint destroy_files (filenames : list bytes) (result : Status) (e : E) : res (Status * E) :=
  match filenames with
  | [] => Ok (result, e)
  | name :: filenames =>
      r ← ParseFileName name;
      match r with
      | Some (_, kDBLockFile) | None => destroy_files filenames result e
      | Some _ =>
          let '(del, e) := env_DeleteFile (dbname ++ str "/" ++ name) e in
          destroy_files filenames (if ok result && negb (ok del) then del else result) e
      end
  end.
Definition DestroyDB (e : E) : res (Status * E) :=
  let filenames := (GetChildren dbname e).2 in
  if bool_decide (filenames = []) then Ok (OK, e)
  else
    let lockname := LockFileName dbname in
    let '(result, e) := LockFile lockname e in
    if negb (ok result) then Ok (result, e)
    else
      '(result, e) ← destroy_files filenames result e;
      let e := (UnlockFile lockname e).2 in
      let e := (env_DeleteFile lockname e).2 in
      Ok (result, (DeleteDir dbname e).2).
End open.
End DbOpen.
