(* ===== verification/LdbDbWriteProps.v ===== *)
(** Writes to a database: a group of writers becomes one batch, in the log and in the memory
    table, in the order of the queue. *)
From S2P Require Import Prelude LdbSkip LdbSkipLemmas LdbFormat LdbCodingProps LdbOrder LdbKeyProps LdbCrc LdbCrcProps LdbMemTable LdbMemTableProps LdbBatchProps LdbLog LdbLogProps LdbIterator LdbTable LdbTableFileProps LdbVersionEdit LdbVersion LdbVersionSet LdbEnv LdbEnvProps LdbDb LdbDbWrite.
Import Status Filename VersionSet Db DbWrite.

(** * Logs in files *)
Section log.
Context (address : bytes → Z) (Haddr : ∀ b, 0 <= address b) {F : Type} {HW : WritableFile F} {written : F → bytes} {refused : F → Prop} {HD : Device F written refused}.
(** A file that has refused something refuses all that comes later. *)
Context (Hsticky : ∀ data f, refused f → ∃ s f', Append data f = (s, f') ∧ s ≠ OK ∧ refused f').

Lemma emit_file off f t p : 0 <= off → 1 <= t <= 4 → off + 7 + Slice.size p <= 32768 → Forall is_byte p →
  ∃ s f', Log.EmitPhysicalRecord address (Log.mkWriter off type_crcs) f t p = Ok (s, Log.mkWriter (off + 7 + Slice.size p) type_crcs, f') ∧
    (s = OK ∧ written f' = written f ++ phys t p ∨ s ≠ OK ∧ refused f') ∧ (refused f → s ≠ OK).
Proof.
  intros H0 Ht Hl Hp. unfold Log.EmitPhysicalRecord. cbn [Log.block_offset_ Log.type_crc_].
  assert (0 <= Slice.size p) by (unfold Slice.size; lia). change Log.kHeaderSize with 7. change Log.kBlockSize with 32768.
  rewrite (proj2 (Z.leb_le (Slice.size p) _)) by lia. rewrite (proj2 (Z.leb_le (off + 7 + Slice.size p) _)) by lia. cbn [SkipList.assert_].
  assert (type_crcs !! Z.to_nat t = Some (crc32c 0 [t])) as -> by (assert (t = 1 ∨ t = 2 ∨ t = 3 ∨ t = 4) as [-> | [-> | [-> | ->]]] by lia; done).
  assert (Forall is_byte [t]) as Hb by (constructor; [unfold is_byte; lia|done]). unfold mbind, res_bind. cbn [of_option].
  rewrite Extend_ok by (done || by apply crc32c_range). rewrite crc32c_app. cbn [app].
  set (h := Coding.EncodeFixed32 _ ++ _). assert (h ++ p = phys t p) as Eh.
  { unfold h, phys, Coding.EncodeFixed32. rewrite !u8_small; [|lia| |].
    - by rewrite <- !app_assoc.
    - rewrite Z.shiftr_div_pow2 by lia. change (2 ^ 8) with 256. Z.div_mod_to_equations. lia.
    - rewrite land_255. apply Z.mod_pos_bound. lia. }
  clearbody h. destruct (device_append (Device := HD) h f) as (s1 & f1 & E1 & R1). rewrite E1.
  assert (refused f → s1 ≠ OK) as Hr1 by (intros Hr; destruct (Hsticky h f Hr) as (? & ? & E & ? & _); rewrite E1 in E; by injection E as <- _).
  destruct R1 as [(-> & W1 & _)|[N1 R1]]; [|rewrite (proj2 (ok_false _) N1); eexists _, _; split; [done|]; split; [by right|done]]. cbn [ok].
  destruct (device_append (Device := HD) p f1) as (s2 & f2 & E2 & R2). rewrite E2.
  destruct R2 as [(-> & W2 & _)|[N2 R2]]; [|rewrite (proj2 (ok_false _) N2); eexists _, _; split; [done|]; split; [by right|done]]. cbn [ok].
  destruct (device_flush (Device := HD) f2) as (s3 & f3 & E3 & R3). rewrite E3. eexists _, _. split; [done|]. split.
  - destruct R3 as [[-> W3]|[N3 R3]]; [left|by right]. split; [done|]. by rewrite W3, W2, W1, <- app_assoc, Eh.
  - by intros Hr%Hr1.
Qed.

Lemma add_record_file fuel : ∀ off f begin data, 0 <= off <= 32768 → Forall is_byte data →
  (2 * length data + (if decide (base off = 32761)%Z then 2 else 1) <= fuel)%nat →
  ∃ s off' f', Log.add_record_loop address fuel (Log.mkWriter off type_crcs) f begin data = Ok (s, Log.mkWriter off' type_crcs, f') ∧ 0 <= off' <= 32768 ∧ (refused f → s ≠ OK) ∧
    (s = OK ∧ (∃ out, frags off begin data out off' ∧ written f' = written f ++ out) ∨ s ≠ OK ∧ refused f').
Proof.
  induction fuel as [|fuel IH]; intros off f begin data Ho Hd Hf; [case_decide; lia|].
  pose proof (base_range off Ho) as Hb. assert (0 <= Slice.size data) by (unfold Slice.size; lia).
  cbn [Log.add_record_loop]. cbn [Log.block_offset_ Log.type_crc_]. change Log.kHeaderSize with 7. change Log.kBlockSize with 32768.
  rewrite (proj2 (Z.leb_le 0 (32768 - off))) by lia. cbn [SkipList.assert_]. unfold mbind at 1, res_bind at 1.
  set (g := if _ <? 7 then _ else _).
  assert (∃ f1, g = (Log.mkWriter (base off) type_crcs, f1) ∧ (written f1 = written f ++ pad off ∧ (refused f → refused f1) ∨ refused f1)) as (f1 & -> & H1).
  { unfold g, base, pad. destruct (Z.ltb_spec (32768 - off) 7); [|exists f; split; [done|]; left; by rewrite app_nil_r].
    destruct (Z.ltb_spec 0 (32768 - off)).
    - destruct (device_append (Device := HD) (replicate (Z.to_nat (32768 - off)) 0) f) as (s & f1 & E & R). exists f1. rewrite E. split; [done|]. destruct R as [(-> & W & _)|[_ R]]; [left|by right].
      split; [done|]. intros Hr. destruct (Hsticky (replicate (Z.to_nat (32768 - off)) 0) f Hr) as (? & ? & E' & N & _). rewrite E in E'. injection E' as <- <-. done.
    - exists f. split; [done|]. left. replace (32768 - off) with 0 by lia. by rewrite app_nil_r. }
  cbn [Log.block_offset_]. rewrite (proj2 (Z.leb_le 0 (32768 - base off - 7))) by lia. cbn [SkipList.assert_]. unfold mbind at 1, res_bind at 1. set (avail := 32768 - base off - 7).
  set (n := if Slice.size data <? avail then Slice.size data else avail). assert (0 <= n <= avail ∧ n <= Slice.size data ∧ (n = avail ∨ n = Slice.size data)) as Hn by (unfold n; destruct (Z.ltb_spec (Slice.size data) avail); lia).
  set (t := if begin && _ then _ else _). assert (1 <= t <= 4) as Ht by (unfold t; by destruct begin, (Slice.size data =? n)).
  assert (Slice.size (take (Z.to_nat n) data) = n) as Et by (unfold Slice.size in *; rewrite length_take; lia).
  destruct (emit_file (base off) f1 t (take (Z.to_nat n) data)) as (s & f2 & -> & R2 & Hr2); [lia|done|lia|by apply Forall_take|]. rewrite Et.
  assert (refused f → s ≠ OK) as Hrf by (intros Hr; apply Hr2; destruct H1 as [[_ H1]|H1]; auto). unfold mbind, res_bind.
  assert (s ≠ OK ∧ refused f2 ∨ s = OK ∧ written f2 = written f ++ pad off ++ phys t (take (Z.to_nat n) data)) as [[N Hbad]|[-> W2]].
  { destruct R2 as [[-> W]|R2]; [right|by left]. destruct H1 as [[W1 _]|H1]; [|by apply Hr2 in H1]. split; [done|]. by rewrite W, W1, <- app_assoc. }
  { rewrite (proj2 (ok_false _) N). cbn [andb]. eexists _, _, _. split; [done|]. split; [lia|]. split; [done|]. by right. }
  clear R2 H1. simpl (ok OK). assert (Slice.size (drop (Z.to_nat n) data) = Slice.size data - n) as Ed by (unfold Slice.size in *; rewrite length_drop; lia). rewrite Ed.
  destruct (Z.eqb_spec (Slice.size data) n) as [E|N].
  - rewrite E, Z.sub_diag. cbn [Z.ltb Z.compare andb]. eexists _, _, _. split; [done|]. split; [lia|]. split; [done|]. left. split; [done|]. eexists. split; [|exact W2].
    assert (take (Z.to_nat n) data = data) as -> by (apply firstn_all2; unfold Slice.size in E; lia). unfold t. rewrite <- E. rewrite !andb_true_r.
    replace (if begin then Log.kFullType else Log.kLastType) with (if begin then 1 else 4) by by destruct begin. destruct begin; apply frag_end; lia.
  - rewrite (proj2 (Z.ltb_lt 0 _)) by lia. cbn [andb]. assert (n = avail) as En by lia. replace (base off + 7 + n) with 32768 by lia.
    destruct (IH 32768 f2 false (drop (Z.to_nat n) data)) as (s & off' & f' & E' & Hoff' & Hr' & H'); [lia|by apply Forall_drop| |].
    { rewrite length_drop. unfold Slice.size in *. rewrite decide_False by done. revert Hf. case_decide; lia. }
    exists s, off', f'. split; [exact E'|]. split; [done|]. split; [by intros Hr%Hrf|]. destruct H' as [(-> & out & Hfr & W')|H']; [left|by right]. split; [done|].
    eexists. split; [apply (frag_more off begin data (Z.to_nat n) out off'); [lia|unfold Slice.size in *; lia|exact Hfr]|].
    rewrite W', W2. rewrite <- !app_assoc. do 3 f_equal. unfold t. rewrite !andb_false_r. by destruct begin.
Qed.

(** The log in the file has the records. *)
Definition logged (rs : list bytes) (l : Log.Writer * F) : Prop := ∃ off, 0 <= off <= 32768 ∧ l.1 = Log.mkWriter off type_crcs ∧ log_of 0 rs (written l.2) off.
(** The log in the file has the records, unless the file has refused something. *)
Definition log_holds (rs : list bytes) (l : Log.Writer * F) : Prop :=
  ∃ off, 0 <= off <= 32768 ∧ l.1 = Log.mkWriter off type_crcs ∧ (refused l.2 ∨ log_of 0 rs (written l.2) off).

Lemma log_of_snoc off rs out off' r out' off2 : log_of off rs out off' → frags off' true r out' off2 → log_of off (rs ++ [r]) (out ++ out') off2.
Proof.
  intros Hl Hf. induction Hl as [off|off data rs out out2 o1 o2 Hd Hl IH]; cbn [app].
  - rewrite <- (app_nil_r out'). eapply log_cons; [exact Hf|constructor].
  - rewrite <- app_assoc. eapply log_cons; [exact Hd|by apply IH].
Qed.

Lemma logged_holds rs l : logged rs l → log_holds rs l.
Proof. intros (off & ? & ? & ?). exists off. split; [done|]. split; [done|]. by right. Qed.

Lemma AddRecord_file rs l r : log_holds rs l → Forall is_byte r →
  ∃ s l', Log.AddRecord address l.1 l.2 r = Ok (s, l'.1, l'.2) ∧ (s = OK ∧ logged (rs ++ [r]) l' ∨ s ≠ OK ∧ refused l'.2 ∧ log_holds rs l').
Proof.
  intros (off & Ho & -> & H) Hr. unfold Log.AddRecord.
  destruct (add_record_file (2 * length r + 2) off l.2 true r Ho Hr) as (s & off' & f' & E & Ho' & Hrf & H'); [case_decide; lia|].
  exists s, (Log.mkWriter off' type_crcs, f'). split; [exact E|]. destruct H' as [(-> & out & Hf & W)|[N R]]; [left|right].
  - split; [done|]. exists off'. split; [done|]. split; [done|]. destruct H as [H|H]; [by apply Hrf in H|]. cbn [snd]. rewrite W. by eapply log_of_snoc.
  - split; [done|]. split; [done|]. exists off'. split; [done|]. split; [done|by left].
Qed.
End log.

(** * Groups

    [wops] are the operations of the writers, by their addresses. *)
Section group.
Context {E F Q K TI : Type} {HE : Env E F Q} {HW : WritableFile F} {HS : SyncFile F} {HT : TableCache (E * K) TI}.
#[local] Abbreviation DB := (DBImpl (E := E) (F := F) (K := K)).
Context (wops : nat → list op).
Implicit Types (d : DB) (w : Writer) (b : bytes).

Definition writer_ok (q : nat) w : Prop :=
  match writer_batch w with
  | Some b => (∃ seq, batch b seq (wops q)) ∧ Forall op_small (wops q) ∧ Slice.size b < 2 ^ 62
  | None => wops q = []
  end.
Definition waiting d (q : nat) : Prop := ∃ w, writer_objects d !! q = Some w ∧ writer_ok q w ∧ writer_done w = false.

Lemma batch_size b seq ops : batch b seq ops → Z.of_nat (length ops) + 12 <= Slice.size b.
Proof. intros [-> _ _ _]. unfold Slice.size. rewrite !length_app, !length_le_bytes. pose proof (length_encode_ops ops). lia. Qed.

Lemma batch_same_size b b' s s' ops : batch b s ops → batch b' s' ops → Slice.size b = Slice.size b'.
Proof. intros [-> _ _ _] [-> _ _ _]. unfold Slice.size. by rewrite !length_app, !length_le_bytes. Qed.

(** The batch of the group so far, of [n] operations at most. *)
Definition group_batch (b1 : bytes) (ops : list op) (is_tmp : bool) d : Prop :=
  if is_tmp then ∃ seq, batch (tmp_batch_ d) seq ops else tmp_batch_ d = WriteBatch.Clear ∧ ∃ seq, batch b1 seq ops.

Lemma group_loop_ok first b1 max_size : max_size <= 2 ^ 20 → ∀ rest size is_tmp last d ops,
  (∀ q, q ∈ rest → waiting d q) → group_batch b1 ops is_tmp d → Z.of_nat (length ops) <= size → 0 <= size < 2 ^ 62 →
  ∃ k is_tmp' last' d', group_loop first b1 rest size max_size is_tmp last d = Ok (is_tmp', last', d') ∧ (last :: rest) !! k = Some last' ∧
    d' = d <| tmp_batch_ := tmp_batch_ d' |> ∧ group_batch b1 (ops ++ concat (wops <$> take k rest)) is_tmp' d' ∧
    (∀ q w, q ∈ take k rest → writer_objects d !! q = Some w → writer_sync w = true → writer_sync first = true).
Proof.
  intros Hmax. induction rest as [|q rest IH]; intros size is_tmp last d ops Hw Hg Hl Hs; cbn [group_loop].
  { exists 0%nat, is_tmp, last, d. split; [done|]. split; [done|]. split; [by destruct d|]. split; [by rewrite app_nil_r|]. by intros q w ?%not_elem_of_nil. }
  assert (∃ k is_tmp' last' d', Ok (is_tmp, last, d) = Ok (is_tmp', last', d') ∧ (last :: q :: rest) !! k = Some last' ∧
    d' = d <| tmp_batch_ := tmp_batch_ d' |> ∧ group_batch b1 (ops ++ concat (wops <$> take k (q :: rest))) is_tmp' d' ∧
    (∀ p w, p ∈ take k (q :: rest) → writer_objects d !! p = Some w → writer_sync w = true → writer_sync first = true)) as Hstop.
  { exists 0%nat, is_tmp, last, d. split; [done|]. split; [done|]. split; [by destruct d|]. split; [cbn; by rewrite app_nil_r|]. by intros p w ?%not_elem_of_nil. }
  destruct (Hw q ltac:(by left)) as (w & Ew & Hok & Hnd). unfold writer. rewrite Ew. unfold mbind at 1, res_bind at 1. cbn [of_option].
  destruct (writer_sync w && negb (writer_sync first)) eqn:Esync; [done|]. assert (writer_sync w = true → writer_sync first = true) as Hsync by by destruct (writer_sync w), (writer_sync first).
  assert (∀ size' is_tmp' d1, writer_objects d1 = writer_objects d → d1 = d <| tmp_batch_ := tmp_batch_ d1 |> → group_batch b1 (ops ++ wops q) is_tmp' d1 → Z.of_nat (length (ops ++ wops q)) <= size' → 0 <= size' < 2 ^ 62 →
    ∃ k is_tmp'' last' d', group_loop first b1 rest size' max_size is_tmp' q d1 = Ok (is_tmp'', last', d') ∧ (last :: q :: rest) !! k = Some last' ∧
      d' = d <| tmp_batch_ := tmp_batch_ d' |> ∧ group_batch b1 (ops ++ concat (wops <$> take k (q :: rest))) is_tmp'' d' ∧
      (∀ p w, p ∈ take k (q :: rest) → writer_objects d !! p = Some w → writer_sync w = true → writer_sync first = true)) as Hgo.
  { intros size' is_tmp' d1 Eo Ed Hg' Hl' Hs'. destruct (IH size' is_tmp' q d1 (ops ++ wops q)) as (k & is_tmp'' & last' & d' & E' & El' & Ed' & Hg'' & Hsy); [|done..|].
    { intros p Hp. unfold waiting. rewrite Eo. apply Hw. by right. }
    exists (S k), is_tmp'', last', d'. split; [exact E'|]. split; [exact El'|]. split; [rewrite Ed', Ed; by destruct d|]. split; [cbn; by rewrite <- app_assoc in Hg''|].
    intros p x Hp Hx Hsx. cbn [take] in Hp. apply elem_of_cons in Hp as [->|Hp]; [apply Hsync; congruence|]. eapply Hsy; [done|by rewrite Eo|done]. }
  unfold writer_ok in Hok. destruct (writer_batch w) as [b|].
  2:{ apply Hgo; [done|by destruct d|by rewrite Hok, app_nil_r|by rewrite Hok, app_nil_r|done]. }
  destruct Hok as ((seq & Hb) & Hsmall & Hbs). pose proof (batch_size _ _ _ Hb) as Hbz. unfold WriteBatch.ByteSize. rewrite u64_small by lia.
  destruct (Z.ltb_spec max_size (size + Slice.size b)) as [L|L]; [done|].
  assert (∃ d1, (if is_tmp then Ok d else n ← WriteBatch.Count (tmp_batch_ d); SkipList.assert_ (n =? 0);; t ← WriteBatch.Append (tmp_batch_ d) b1; Ok (d <| tmp_batch_ := t |>)) = Ok d1 ∧
    d1 = d <| tmp_batch_ := tmp_batch_ d1 |> ∧ ∃ seq, batch (tmp_batch_ d1) seq ops) as (d1 & -> & Ed1 & seq1 & Hb1).
  { unfold group_batch in Hg. destruct is_tmp; [exists d; split; [done|]; split; [by destruct d|done]|]. destruct Hg as [Et (s1 & Hg)]. rewrite Et, (batch_Count _ _ _ batch_Clear). cbn [length Z.of_nat Z.eqb SkipList.assert_].
    destruct (batch_Append _ _ _ _ _ _ batch_Clear Hg) as (t & E' & Ht); [cbn; lia|]. unfold mbind, res_bind. rewrite E'. eexists. split; [done|]. split; [by destruct d|]. by exists 0. }
  unfold mbind, res_bind. destruct (batch_Append _ _ _ _ _ _ Hb1 Hb) as (t & -> & Ht); [lia|]. apply Hgo; [rewrite Ed1; by destruct d|rewrite Ed1; by destruct d|by exists seq1|rewrite length_app; lia|lia].
Qed.

(** The group of the writers at the front of the queue. *)
Lemma BuildBatchGroup_ok p rest w b d : writers_ d = p :: rest → writer_objects d !! p = Some w → writer_batch w = Some b → (∀ q, q ∈ p :: rest → waiting d q) → tmp_batch_ d = WriteBatch.Clear →
  ∃ k is_tmp last d', BuildBatchGroup d = Ok (is_tmp, last, d') ∧ (p :: rest) !! k = Some last ∧ d' = d <| tmp_batch_ := tmp_batch_ d' |> ∧
    group_batch b (concat (wops <$> take (S k) (p :: rest))) is_tmp d' ∧
    (∀ q w', q ∈ take (S k) (p :: rest) → writer_objects d !! q = Some w' → writer_sync w' = true → writer_sync w = true).
Proof.
  intros Eq Ew Eb Hw Et. destruct (Hw p ltac:(by left)) as (w0 & Ew0 & Hok & _). rewrite Ew in Ew0. injection Ew0 as <-.
  unfold writer_ok in Hok. rewrite Eb in Hok. destruct Hok as ((seq & Hb) & Hsmall & Hbs). pose proof (batch_size _ _ _ Hb).
  unfold BuildBatchGroup, writer. rewrite Eq. cbn [head hd_error of_option tail tl]. unfold mbind, res_bind. rewrite Ew. cbn [of_option]. rewrite Eb. cbn [of_option].
  set (max_size := if _ <=? _ then _ else _).
  assert (max_size <= 2 ^ 20) as Hmax. { unfold max_size, WriteBatch.ByteSize. change (Z.shiftl 128 10) with 131072. change (Z.shiftl 1 20) with (2 ^ 20). destruct (Z.leb_spec (Slice.size b) 131072); [|lia]. rewrite u64_small; lia. }
  destruct (group_loop_ok w b max_size Hmax rest (WriteBatch.ByteSize b) false p d (wops p)) as (k & is_tmp & last & d' & E' & El & Ed & Hg & Hs); [intros q Hq; apply Hw; by right|split; [done|by exists seq]|unfold WriteBatch.ByteSize; lia|unfold WriteBatch.ByteSize; lia|].
  exists k, is_tmp, last, d'. split; [exact E'|]. split; [exact El|]. split; [done|]. split; [exact Hg|]. intros q w' Hq. cbn [take] in Hq. apply elem_of_cons in Hq as [->|Hq]; [congruence|by apply Hs].
Qed.

(** The writers of the group leave the queue. *)
Lemma pop_writers_ok p st : ∀ queue k last d, NoDup queue → queue !! k = Some last → (∀ q, q ∈ take (S k) queue → waiting d q) →
  ∃ d', pop_writers queue p last st d = Ok d' ∧ d' = d <| writers_ := drop (S k) queue |> <| writer_objects := writer_objects d' |> ∧
    (∀ q, q ∈ take (S k) queue → q ≠ p → ∃ w, writer_objects d' !! q = Some w ∧ writer_done w = true ∧ writer_status w = st) ∧
    (∀ q, q ∉ take (S k) queue ∨ q = p → writer_objects d' !! q = writer_objects d !! q).
Proof.
  induction queue as [|q queue IH]; intros k last d Hnd Hl Hw; [done|]. apply list.NoDup_cons in Hnd as [Hq Hnd]. cbn [pop_writers]. cbn zeta.
  destruct (Hw q ltac:(cbn; by left)) as (w & Ew & _). set (d1 := d <| writers_ := queue |>).
  assert (∃ d2, (if decide (q = p) then Ok d1 else change_writer q (λ w, w <| writer_status := st |> <| writer_done := true |>) d1) = Ok d2 ∧ d2 = d <| writers_ := queue |> <| writer_objects := writer_objects d2 |> ∧
    (q ≠ p → ∃ w, writer_objects d2 !! q = Some w ∧ writer_done w = true ∧ writer_status w = st) ∧ (∀ x, x ≠ q ∨ x = p → writer_objects d2 !! x = writer_objects d !! x)) as (d2 & -> & Ed2 & Hq2 & Hx2).
  { case_decide as Ep; [exists d1; split; [done|]; split; [by destruct d|]; split; [done|by destruct d]|]. unfold change_writer, writer. change (writer_objects d1) with (writer_objects d). rewrite Ew. unfold mbind, res_bind. cbn [of_option].
    eexists. split; [done|]. split; [by destruct d|]. split.
    - intros _. eexists. split; [apply lookup_insert_eq|]. done.
    - intros x [N|N]; [by apply lookup_insert_ne|]. apply lookup_insert_ne. congruence. }
  unfold mbind, res_bind. destruct k as [|k].
  - cbn in Hl. injection Hl as <-. rewrite decide_True by done. exists d2. split; [done|]. cbn [drop take]. split; [done|]. split.
    + intros x [->|?%not_elem_of_nil]%elem_of_cons; [done|done].
    + intros x Hx. apply Hx2. destruct Hx as [Hx|Hx]; [left|by right]. intros ->. apply Hx. by left.
  - cbn in Hl. rewrite decide_False by (intros ->; apply Hq; by eapply list_elem_of_lookup_2).
    assert (∀ x, x ∈ take (S k) queue → x ≠ q) as Hne by (intros x Hx ->; apply Hq; rewrite <- (take_drop (S k) queue); apply elem_of_app; by left).
    destruct (IH k last d2 Hnd Hl) as (d' & -> & Ed' & Hd' & Hk').
    { intros x Hx. unfold waiting. rewrite Hx2 by (left; by apply Hne). apply Hw. cbn. right. exact Hx. }
    exists d'. split; [done|]. split; [rewrite Ed', Ed2; by destruct d|]. split.
    + intros x Hx Np. change (take (S (S k)) (q :: queue)) with (q :: take (S k) queue) in Hx. apply elem_of_cons in Hx as [->|Hx]; [|by apply Hd'].
      rewrite Hk' by (left; intros Hin; by apply (Hne q Hin)). by apply Hq2.
    + intros x Hx. change (take (S (S k)) (q :: queue)) with (q :: take (S k) queue) in Hx. rewrite elem_of_cons in Hx. rewrite Hk' by tauto. apply Hx2. tauto.
Qed.
End group.

(** * The turn of the first writer *)

(** The entries after batches, each with its first sequence number. *)
Definition replay (bs : list (Z * list op)) : list entry := foldl (λ es b, apply_ops b.1 b.2 es) [] bs.
Lemma replay_snoc bs n ops : replay (bs ++ [(n, ops)]) = apply_ops n ops (replay bs).
Proof. unfold replay. by rewrite foldl_app. Qed.

Section turn.
Context (address : bytes → Z) (Haddr : ∀ b, 0 <= address b).
Context {E F Q K TI : Type} {HE : Env E F Q} {HW : WritableFile F} {HS : SyncFile F} {HT : TableCache (E * K) TI}.
Context {disk : E → gmap bytes bytes} {name_of written : F → bytes} {HL : EnvLaws E F Q disk name_of written} {refused : F → Prop} {HD : Device F written refused}.
Context (Hsticky : ∀ data f, refused f → ∃ s f', Append data f = (s, f') ∧ s ≠ OK ∧ refused f').
Context (C : SliceComparator) (valid : bytes → Prop) (ord : Comparator bytes) `{!Lawful C (λ _, True) valid ord}.
Context (o : DBOptions) (dbname : bytes) (usage : MemTable.MemTable → Z).
(** The memory that a table uses does not depend on who refers to it; a new table has room. *)
Context (Husage : ∀ m m', MemTable.table_ m' = MemTable.table_ m → usage m' = usage m) (Hroom : ∀ m, MemTable.new = Ok m → usage m <= write_buffer_size o).
#[local] Abbreviation DB := (DBImpl (E := E) (F := F) (K := K)).
Context (others : nat → DB → DB) (wops : nat → list op).
#[local] Abbreviation log_holds := (log_holds (written := written) (refused := refused)).
#[local] Abbreviation logged := (logged (written := written)).
Implicit Types (d : DB) (bs : list (Z * list op)).

Definition last_seq d : Z := last_sequence_ (versions_ d).
Definition next_file d : Z := next_file_number_ (versions_ d).
Definition has_version d : Prop := ∃ v, current (versions_ d) = Ok v ∧ length (Version.files_ v) = 7%nat.
Record ready d : Prop := {
  rd_nodup : NoDup (writers_ d);
  rd_waiting q : q ∈ writers_ d → waiting wops d q;
  rd_version : has_version d;
  rd_prev : prev_log_number_ (versions_ d) = 0;
  rd_next : 0 < next_file d <= 2 ^ 63;
  rd_fresh p : is_Some (memtables d !! p) → (p < next_memtable d)%nat
}.
(** The others join the queue behind, read the memory tables, and compact the immutable one. *)
Record steady d d' : Prop := {
  sd_mem : mem_ d' = mem_ d;
  sd_imm : imm_ d' = imm_ d ∨ imm_ d' = None;
  sd_table p m : mem_ d' = Some p ∨ imm_ d' = Some p → memtables d !! p = Some m → ∃ m', memtables d' !! p = Some m' ∧ MemTable.table_ m' = MemTable.table_ m;
  sd_log : log_ d' = log_ d;
  sd_queue : ∃ l, writers_ d' = writers_ d ++ l;
  sd_writers q : q ∈ writers_ d → writer_objects d' !! q = writer_objects d !! q;
  sd_tmp : tmp_batch_ d' = tmp_batch_ d;
  sd_seq : last_seq d' = last_seq d;
  sd_error : bg_error_ d ≠ OK → bg_error_ d' ≠ OK
}.
Context (Hothers : ∀ n d, ready d → ready (others n d) ∧ steady d (others n d) ∧ next_file (others n d) < 2 ^ 63).

(** The memory table holds what the batches of the log leave; the log is sound unless there
    was an error. *)
Definition log_ready (l : Log.Writer * F) : Prop := ∃ off, 0 <= off <= 32768 ∧ l.1 = Log.mkWriter off type_crcs.
Definition logs bs (l : Log.Writer * F) : Prop := ∃ rs, Forall2 (λ r b, batch r b.1 b.2) rs bs ∧ log_holds rs l.
Definition table_holds d (p : nat) (es : list entry) : Prop := ∃ m, memtables d !! p = Some m ∧ holds C m es.
Record serves bs d : Prop := {
  sv_mem : ∃ p, mem_ d = Some p ∧ table_holds d p (replay bs);
  sv_older : older (last_seq d + 1) (replay bs);
  sv_log : ∃ l, log_ d = Some l ∧ log_ready l ∧ (logs bs l ∨ bg_error_ d ≠ OK)
}.

Lemma log_holds_ready rs l : log_holds rs l → log_ready l.
Proof. intros (off & ? & ? & _). by exists off. Qed.
Lemma ready_clock d n : ready d → ready (d <| clock := n |>).
Proof. intros [H1 H2 H3 H4 H5 H6]. by split. Qed.
Lemma steady_clock d d' n : steady d d' → steady d (d' <| clock := n |>).
Proof. intros [H1 H2 H3 H4 H5 H6 H7 H8 H9]. by split. Qed.

Lemma steady_serves bs d d' : steady d d' → serves bs d → serves bs d'.
Proof.
  intros [H1 H2 H3 H4 H5 H6 H7 H8 H9] [(p & Ep & m & Em & Hm) Ho (l & El & Hr & Hl)]. split.
  - exists p. split; [by rewrite H1|]. destruct (H3 p m) as (m' & Em' & Et); [left; by rewrite H1|done|]. exists m'. split; [done|]. by eapply holds_table.
  - by rewrite H8.
  - exists l. rewrite H4. split; [done|]. split; [done|]. destruct Hl; [by left|right; auto].
Qed.
Lemma steady_trans d1 d2 d3 : steady d1 d2 → steady d2 d3 → steady d1 d3.
Proof.
  intros [A1 A2 A3 A4 A5 A6 A7 A8 A9] [B1 B2 B3 B4 B5 B6 B7 B8 B9]. destruct A5 as [l1 A5], B5 as [l2 B5].
  assert (imm_ d3 = imm_ d2 ∧ imm_ d2 = imm_ d1 ∨ imm_ d3 = None) as Hi by (destruct A2, B2; intuition congruence). split; try congruence.
  - destruct Hi as [[]|]; [left; congruence|by right].
  - intros p m Hp Em. assert (mem_ d2 = Some p ∨ imm_ d2 = Some p) as Hp2 by (destruct Hp; [left; congruence|right; destruct Hi as [[]|]; congruence]).
    destruct (A3 p m Hp2 Em) as (m2 & Em2 & E2). destruct (B3 p m2 Hp Em2) as (m3 & Em3 & E3). exists m3. split; [done|]. congruence.
  - exists (l1 ++ l2). by rewrite B5, A5, app_assoc.
  - intros q Hq. rewrite B6 by (rewrite A5; apply elem_of_app; by left). by apply A6.
  - auto.
Qed.
Lemma steady_refl d : steady d d.
Proof. split; try done; [by left|by intros p m _ Em; eexists|exists []; by rewrite app_nil_r]. Qed.

Lemma meanwhile_steady d : ready d → ready (Meanwhile others d) ∧ steady d (Meanwhile others d) ∧ next_file (Meanwhile others d) < 2 ^ 63.
Proof.
  intros Hr. destruct (Hothers (clock d) d Hr) as (H1 & H2 & H3). unfold Meanwhile. split; [by apply ready_clock|]. split; [by apply steady_clock|]. by destruct (others (clock d) d).
Qed.

(** ** Room *)

(** How long the writer may have to wait. *)
Context (patience : DB → nat).
Context (Hless : ∀ d, ready d → (patience (Meanwhile others d) <= patience d)%nat).
Context (Hwait : ∀ d n, ready d → bg_error_ d = OK → NumLevelFiles (versions_ d) 0 = Ok n → is_Some (imm_ d) ∨ 12 <= n → (patience (Meanwhile others d) < patience d)%nat).

Lemma num_files_ok d : ready d → ∃ n, NumLevelFiles (versions_ d) 0 = Ok n.
Proof.
  intros [_ _ (v & Ev & El) _ _ _]. unfold NumLevelFiles. rewrite Ev. unfold mbind, res_bind. cbn [SkipList.assert_ Z.leb Z.ltb Z.compare andb]. unfold Version.level_files.
  destruct (lookup_lt_is_Some_2 (Version.files_ v) (Z.to_nat 0)) as [fs ->]; [rewrite El; cbn; lia|]. by eexists.
Qed.

(** Room in the table of before, or in a new one, when the one of before is immutable. *)
Inductive roomy bs d d' : list (Z * list op) → Prop :=
  | roomy_same : steady d d' → roomy bs d d' bs
  | roomy_new p : mem_ d = Some p → mem_ d' ≠ Some p → imm_ d' = Some p ∧ table_holds d' p (replay bs) ∨ imm_ d' = None →
      (∃ l, writers_ d' = writers_ d ++ l) → (∀ q, q ∈ writers_ d → writer_objects d' !! q = writer_objects d !! q) →
      tmp_batch_ d' = tmp_batch_ d → last_seq d' = last_seq d → roomy bs d d' [].

Lemma roomy_steady bs d d1 d2 bs' : roomy bs d d1 bs' → steady d1 d2 → roomy bs d d2 bs'.
Proof.
  intros Hr Hs. destruct Hr as [Hr|p Ep Np Hi [l Hq] Hw Ht Hl]; [apply roomy_same; by eapply steady_trans|].
  destruct Hs as [B1 B2 B3 B4 [l2 B5] B6 B7 B8 B9]. apply (roomy_new _ _ _ p); [done|by rewrite B1| | | |congruence|congruence].
  - destruct B2 as [B2|B2]; [|by right]. rewrite B2. destruct Hi as [[Hi (m & Em & Hm)]|Hi]; [left|by right]. split; [done|].
    destruct (B3 p m) as (m' & Em' & Et); [right; by rewrite B2|done|]. exists m'. split; [done|]. by eapply holds_table.
  - exists (l ++ l2). by rewrite B5, Hq, app_assoc.
  - intros q Hin. rewrite B6 by (rewrite Hq; apply elem_of_app; by left). by apply Hw.
Qed.
Lemma roomy_before bs d0 d d' bs' : steady d0 d → roomy bs d d' bs' → roomy bs d0 d' bs'.
Proof.
  intros Hs Hr. destruct Hr as [Hr|p Ep Np Hi [l Hq] Hw Ht Hl]; [apply roomy_same; by eapply steady_trans|].
  destruct Hs as [A1 A2 A3 A4 [l2 A5] A6 A7 A8 A9]. apply (roomy_new _ _ _ p); [congruence|done|done| | |congruence|congruence].
  - exists (l2 ++ l). by rewrite Hq, A5, app_assoc.
  - intros q Hin. rewrite Hw by (rewrite A5; apply elem_of_app; by left). by apply A6.
Qed.

(** What [MakeRoomForWrite] leaves. *)
Definition room_made bs d (s : Status) d' : Prop := ready d' ∧ ∃ bs', roomy bs d d' bs' ∧ serves bs' d' ∧ (s = OK → ∃ l, log_ d' = Some l ∧ logs bs' l).

Lemma serves_logs bs d : serves bs d → bg_error_ d = OK → ∃ l, log_ d = Some l ∧ logs bs l.
Proof. intros [_ _ (l & El & _ & [Hl|N])] Hb; [by exists l|done]. Qed.

Lemma MaybeScheduleCompaction_imm d : is_Some (imm_ d) → ∃ b, MaybeScheduleCompaction d = Ok (d <| bg_compaction_scheduled_ := b |>).
Proof.
  intros [i Ei]. unfold MaybeScheduleCompaction. rewrite Ei. assert (d = d <| bg_compaction_scheduled_ := bg_compaction_scheduled_ d |>) as Ed by by destruct d.
  destruct (bg_compaction_scheduled_ d); [by exists true; f_equal|]. destruct (shutting_down_ d); [by exists false; f_equal|]. destruct (negb _); [by exists false; f_equal|]. by exists true.
Qed.

(** A new log and a new table. *)
Lemma switch_ok bs d : ready d → serves bs d → imm_ d = None → next_file d < 2 ^ 63 → bg_error_ d = OK →
  ∃ s d', switch_memtable address dbname d = Ok (s, d') ∧ ready d' ∧
    (s = OK ∧ roomy bs d d' [] ∧ serves [] d' ∧ (∃ p m, mem_ d' = Some p ∧ memtables d' !! p = Some m ∧ usage m <= write_buffer_size o) ∨ s ≠ OK ∧ steady d d').
Proof.
  intros Hr Hsv Ei Hn Hb. pose proof Hr as [R1 R2 R3 R4 R5 R6]. pose proof Hsv as [(p & Ep & Hp) Hold _]. unfold switch_memtable. rewrite R4. cbn [Z.eqb SkipList.assert_]. unfold NewFileNumber, mbind, res_bind.
  set (n := next_file_number_ (versions_ d)). change (next_file d) with n in *. assert (u64 (n + 1) = n + 1) as Eu by (apply u64_small; lia). rewrite Eu.
  set (vs := set_numbers _ _ _ _ _ _). unfold LogFileName. rewrite (proj2 (Z.ltb_lt 0 n)) by lia. cbn [SkipList.assert_]. unfold mbind, res_bind.
  destruct (env_new (EnvLaws := HL) (MakeFileName dbname n (str "log")) (env_ (d <| versions_ := vs |>))) as (s & r & e' & -> & Hnew & _).
  assert (has_version (d <| versions_ := vs |>)) as Hv by exact R3. destruct (ok s) eqn:Es; cbn [negb].
  2:{ eexists s, _. split; [done|]. split; [|right; split; [by apply ok_false|]].
    - split; [done|done| |unfold ReuseFileNumber; by case_match|unfold next_file, ReuseFileNumber; destruct (_ =? _); [change (0 < n <= 2 ^ 63)|change (0 < n + 1 <= 2 ^ 63)]; lia|done].
      unfold has_version, ReuseFileNumber. cbn [versions_ modify]. by destruct (_ =? _).
    - split; try done; [by left|by intros q m _ Em; eexists|exists []; by rewrite app_nil_r|]. unfold last_seq, ReuseFileNumber. cbn. by destruct (_ =? _). }
  apply ok_iff in Es. subst s. destruct (Hnew eq_refl) as (f & -> & _ & Hwf). cbn [of_option]. unfold Log.Writer_new. rewrite InitTypeCrc_ok by done. unfold mbind, res_bind. change (0 mod Log.kBlockSize) with 0.
  unfold new_memtable. destruct (holds_new C) as (m & Em & Hm & _). rewrite Em. unfold mbind, res_bind.
  set (d1 := _ <| mem_ := Some _ |>).
  assert (imm_ d1 = Some p) as Ei1 by exact Ep. set (q := next_memtable d). assert (p ≠ q) as Npq. { destruct Hp as (x & Ex & _). specialize (R6 p ltac:(by eexists)). unfold q. lia. }
  assert (mem_ d1 = Some q) as Em1 by done. assert (memtables d1 = <[q := MemTable.Ref m]> (memtables d)) as Et1 by done.
  destruct (MaybeScheduleCompaction_imm d1) as (b & Eb); [by rewrite Ei1|]. rewrite Eb. set (d2 := d1 <| bg_compaction_scheduled_ := b |>). eexists OK, d2. split; [done|]. split; [|left].
  - split; [done|done|exact Hv|done|change (0 < n + 1 <= 2 ^ 63); lia|]. intros x Hx. change (next_memtable d2) with (S q). change (memtables d2) with (<[q := MemTable.Ref m]> (memtables d)) in Hx.
    destruct (decide (q = x)) as [<-|N]; [lia|]. rewrite lookup_insert_ne in Hx by done. specialize (R6 x Hx). unfold q. lia.
  - split; [done|]. split; [|split].
    + apply (roomy_new _ _ _ p); [done|change (mem_ d2) with (Some q); congruence| |exists []; by rewrite app_nil_r|done|done|done]. left. split; [done|]. destruct Hp as (x & Ex & Hx). exists x. split; [|done].
      change (memtables d2) with (<[q := MemTable.Ref m]> (memtables d)). by rewrite lookup_insert_ne by done.
    + split; [|constructor|].
      * exists q. split; [done|]. exists (MemTable.Ref m). split; [|by eapply holds_table]. change (memtables d2) with (<[q := MemTable.Ref m]> (memtables d)). by rewrite lookup_insert_eq.
      * eexists. split; [done|]. assert (log_holds [] (Log.mkWriter 0 type_crcs, f)) as Hl by (exists 0; split; [lia|]; split; [done|]; right; cbn; rewrite Hwf; constructor). split; [by eapply log_holds_ready|]. left. exists []. split; [constructor|done].
    + exists q, (MemTable.Ref m). split; [done|]. split; [change (memtables d2) with (<[q := MemTable.Ref m]> (memtables d)); by rewrite lookup_insert_eq|]. rewrite (Husage m) by done. by apply Hroom.
Qed.

Lemma room_fresh_ok fuel allow d p m : ready d → mem_ d = Some p → memtables d !! p = Some m → usage m <= write_buffer_size o → (2 <= fuel)%nat →
  ∃ s d', room_loop address o dbname usage others fuel false allow d = Ok (s, d') ∧ ready d' ∧ steady d d' ∧ (s = OK → bg_error_ d' = OK).
Proof.
  assert (∀ fuel d m, ready d → mem_ d = Some p → memtables d !! p = Some m → usage m <= write_buffer_size o → ∃ s d', room_loop address o dbname usage others (S fuel) false false d = Ok (s, d') ∧ ready d' ∧ steady d d' ∧ (s = OK → bg_error_ d' = OK)) as Hlast.
  { clear fuel d m. intros fuel d m Hr Ep Em Hu. cbn [room_loop]. destruct (ok (bg_error_ d)) eqn:Eb; cbn [negb]; [|eexists _, d; split; [done|]; split; [done|]; split; [apply steady_refl|done]].
    apply ok_iff in Eb. destruct (num_files_ok d Hr) as [n ->]. unfold mbind, res_bind. cbn [andb]. rewrite Ep. cbn [of_option]. unfold memtable. rewrite Em. cbn [of_option]. rewrite (proj2 (Z.leb_le _ _) Hu). cbn [andb].
    exists OK, d. split; [done|]. split; [done|]. split; [apply steady_refl|done]. }
  intros Hr Ep Em Hu Hf. destruct fuel as [|[|fuel]]; [lia..|]. destruct allow; [|by eapply Hlast]. cbn [room_loop]. destruct (ok (bg_error_ d)) eqn:Eb; cbn [negb]; [|eexists _, d; split; [done|]; split; [done|]; split; [apply steady_refl|done]].
  apply ok_iff in Eb. destruct (num_files_ok d Hr) as [n ->]. unfold mbind at 1, res_bind at 1. cbn [andb]. destruct (_ <=? n).
  - destruct (meanwhile_steady d Hr) as (Hr1 & Hs1 & _). fold (Lock others d) in Hr1, Hs1. pose proof (sd_mem _ _ Hs1) as Ep1. rewrite Ep in Ep1. destruct (sd_table _ _ Hs1 p m) as (m1 & Em1 & Et1); [by left|done|].
    destruct (Hlast fuel (Lock others d) m1 Hr1 Ep1 Em1) as (s & d' & Eq & Hr' & Hs' & Hok); [by rewrite (Husage m)|]. exists s, d'. split; [exact Eq|]. split; [done|]. split; [by eapply steady_trans|done].
  - unfold mbind, res_bind. rewrite Ep. cbn [of_option]. unfold memtable. rewrite Em. cbn [of_option negb]. rewrite (proj2 (Z.leb_le _ _) Hu). cbn [andb].
    exists OK, d. split; [done|]. split; [done|]. split; [apply steady_refl|done].
Qed.

Lemma room_loop_ok bs fuel : ∀ (force allow : bool) d, ready d → serves bs d → next_file d < 2 ^ 63 → (patience d + 3 + (if allow then 1 else 0) <= fuel)%nat →
  ∃ s d', room_loop address o dbname usage others fuel force allow d = Ok (s, d') ∧ room_made bs d s d'.
Proof.
  induction fuel as [|fuel IH]; intros force allow d Hr Hsv Hn Hf; [lia|]. cbn [room_loop].
  assert (∀ s, (s = OK → bg_error_ d = OK) → room_made bs d s d) as Hstay.
  { intros s Hs. split; [done|]. exists bs. split; [apply roomy_same, steady_refl|]. split; [done|]. intros Es. by apply serves_logs; auto. }
  assert (∀ (force allow : bool), (patience (Meanwhile others d) + 3 + (if allow then 1 else 0) <= fuel)%nat → ∃ s d', room_loop address o dbname usage others fuel force allow (Meanwhile others d) = Ok (s, d') ∧ room_made bs d s d') as Hagain.
  { intros force' allow' Hf'. destruct (meanwhile_steady d Hr) as (Hr1 & Hs1 & Hn1). destruct (IH force' allow' (Meanwhile others d) Hr1 (steady_serves _ _ _ Hs1 Hsv) Hn1 Hf') as (s & d' & Eq & Hr' & bs' & Hro & Hsv' & Hl).
    exists s, d'. split; [exact Eq|]. split; [done|]. exists bs'. split; [by eapply roomy_before|done]. }
  destruct (ok (bg_error_ d)) eqn:Eb; cbn [negb]; [|eexists _, d; split; [done|]; by apply Hstay]. apply ok_iff in Eb.
  destruct (num_files_ok d Hr) as [n En]. rewrite En. unfold mbind at 1, res_bind at 1. destruct (allow && (_ <=? n)) eqn:Eal.
  { apply andb_true_iff in Eal as [-> _]. apply Hagain. pose proof (Hless d Hr). lia. }
  pose proof (sv_mem _ _ Hsv) as (p & Ep & m & Em & Hm). rewrite Ep. unfold mbind, res_bind. cbn [of_option]. unfold memtable. rewrite Em. cbn [of_option].
  destruct (negb force && _); [eexists _, d; split; [done|]; by apply Hstay|].
  destruct (imm_ d) as [i|] eqn:Ei.
  { apply Hagain. pose proof (Hwait d n Hr Eb En ltac:(left; by rewrite Ei)). lia. }
  destruct (Z.leb_spec Config.kL0_StopWritesTrigger n) as [L|L].
  { apply Hagain. pose proof (Hwait d n Hr Eb En ltac:(right; exact L)). lia. }
  destruct (switch_ok bs d Hr Hsv Ei Hn Eb) as (s & d1 & -> & Hr1 & [(-> & Hro & Hsv1 & q & m1 & Eq & Em1 & Hu)|[N Hs1]]).
  - change (ok OK) with true. cbn iota. destruct (room_fresh_ok fuel allow d1 q m1 Hr1 Eq Em1 Hu ltac:(lia)) as (s & d' & -> & Hr' & Hs' & Hok). exists s, d'. split; [done|]. split; [done|]. exists [].
    split; [by eapply roomy_steady|]. pose proof (steady_serves _ _ _ Hs' Hsv1) as Hsv'. split; [done|]. intros Es. by apply serves_logs; auto.
  - rewrite (proj2 (ok_false _) N). exists s, d1. split; [done|]. split; [done|]. exists bs. split; [by apply roomy_same|]. split; [by eapply steady_serves|done].
Qed.

(** ** The group *)

Lemma batch_bytes b n ops : batch b n ops → Forall is_byte b.
Proof.
  intros [-> _ _ Hf]. apply List.Forall_app. split; [apply le_bytes_are_bytes|]. apply List.Forall_app. split; [apply le_bytes_are_bytes|by apply encode_ops_bytes].
Qed.

Lemma older_apply ops : ∀ n es, older n es → older (n + Z.of_nat (length ops)) (apply_ops n ops es).
Proof.
  induction ops as [|x ops IH]; intros n es Ho; cbn [apply_ops length]; [by rewrite Z.add_0_r|].
  replace (n + Z.of_nat (S (length ops))) with (n + 1 + Z.of_nat (length ops)) by lia. apply IH. by apply older_cons.
Qed.

Lemma log_batch_ok sync b n ops bs d l : log_ d = Some l → logs bs l → batch b n ops →
  ∃ s se l', log_batch address sync b d = Ok (s, se, d <| log_ := Some l' |>) ∧ log_ready l' ∧
    (s = OK → se = false ∧ ∃ rs, Forall2 (λ r b, batch r b.1 b.2) rs (bs ++ [(n, ops)]) ∧ logged rs l') ∧ (s ≠ OK → se = true ∨ logs bs l').
Proof.
  intros El (rs & Hrs & Hl) Hb. unfold log_batch. rewrite El. destruct l as [w f]. unfold mbind, res_bind. cbn [of_option].
  destruct (AddRecord_file address Haddr Hsticky rs (w, f) (WriteBatch.Contents b) Hl (batch_bytes _ _ _ Hb)) as (s & l' & E1 & H1). cbn [fst snd] in E1. rewrite E1.
  destruct H1 as [[-> H1]|(N & _ & H1)].
  - assert (Forall2 (λ r b, batch r b.1 b.2) (rs ++ [b]) (bs ++ [(n, ops)])) as Hrs' by (apply Forall2_app; [done|by constructor]). change (ok OK) with true. cbn [andb]. destruct sync.
    + destruct (env_sync (EnvLaws := HL) l'.2) as (s2 & f2 & E2 & _ & Hw2). rewrite E2. exists s2, (negb (ok s2)), (l'.1, f2). split; [done|]. destruct H1 as (off & Ho & E3 & H1). split; [by exists off|]. split.
      * intros ->. split; [done|]. exists (rs ++ [b]). split; [done|]. exists off. split; [done|]. split; [done|]. cbn [snd]. by rewrite (Hw2 eq_refl).
      * intros N%ok_false. left. by rewrite N.
    + exists OK, false, l'. destruct l' as [w' f']. split; [done|]. split; [destruct H1 as (off & ? & ? & _); by exists off|]. split; [intros _; split; [done|]; by exists (rs ++ [b])|]. intros N. by destruct N.
  - rewrite (proj2 (ok_false _) N). cbn [andb]. exists s, false, l'. destruct l' as [w' f']. split; [done|]. split; [by eapply log_holds_ready|]. split; [done|]. intros _. right. by exists rs.
Qed.

(** Other tables than the one that is written to. *)
Record serving d d' : Prop := {
  sg_mem : mem_ d' = mem_ d;
  sg_imm : imm_ d' = imm_ d ∨ imm_ d' = None;
  sg_table q es : mem_ d ≠ Some q → imm_ d' = Some q → table_holds d q es → table_holds d' q es
}.
Lemma steady_serving d d' : steady d d' → serving d d'.
Proof. intros [H1 H2 H3 _ _ _ _ _ _]. split; [done|done|]. intros q es _ Ei (m & Em & Hm). destruct (H3 q m) as (m' & Em' & Et); [by right|done|]. exists m'. split; [done|by eapply holds_table]. Qed.
Lemma serving_trans d1 d2 d3 : serving d1 d2 → serving d2 d3 → serving d1 d3.
Proof.
  intros [A1 A2 A3] [B1 B2 B3]. split; [congruence|destruct A2, B2; intuition congruence|]. intros q es N Ei Ht. apply B3; [congruence|done|]. apply A3; [done| |done]. destruct B2; congruence.
Qed.

Definition mem_holds (es : list entry) d : Prop := ∃ p, mem_ d = Some p ∧ table_holds d p es.
Lemma steady_mem es d d' : steady d d' → mem_holds es d → mem_holds es d'.
Proof.
  intros Hs (p & Ep & m & Em & Hm). exists p. split; [by rewrite (sd_mem _ _ Hs)|]. destruct (sd_table _ _ Hs p m) as (m' & Em' & Et); [left; by rewrite (sd_mem _ _ Hs)|done|]. exists m'. split; [done|by eapply holds_table].
Qed.

(** The batch goes into the table. *)
Lemma insert_batch_ok b n ops bs d : ready d → mem_holds (replay bs) d → batch b n ops → Forall op_small ops → older n (replay bs) → n + Z.of_nat (length ops) <= 2 ^ 56 →
  ∃ d', insert_batch C b d = Ok (OK, d') ∧ ready d' ∧ serving d d' ∧ (∃ t, d' = d <| memtables := t |>) ∧ mem_holds (replay (bs ++ [(n, ops)])) d'.
Proof.
  intros Hr (p & Ep & m & Em & Hm) Hb Hsm Ho Hn. unfold insert_batch, memtable. rewrite Ep. unfold mbind, res_bind. cbn [of_option]. rewrite Em. cbn [of_option].
  destruct (InsertInto_ok C valid ord b n ops m (replay bs) Hb Hm Ho Hsm Hn) as (m' & -> & Hm'). eexists. split; [done|]. destruct Hr as [R1 R2 R3 R4 R5 R6].
  assert (∀ q, memtables (d <| memtables := <[p := m']> (memtables d) |>) !! q = <[p := m']> (memtables d) !! q) as Et by done. split; [|split; [|split]].
  - split; [done|done|done|done|done|]. intros q. rewrite Et. intros Hq. apply R6. destruct (decide (p = q)) as [<-|N]; [by rewrite Em|by rewrite lookup_insert_ne in Hq].
  - split; [done|by left|]. intros q es N _ (x & Ex & Hx). exists x. rewrite Et, lookup_insert_ne by congruence. done.
  - by eexists.
  - exists p. split; [done|]. exists m'. rewrite Et, lookup_insert_eq, replay_snoc. done.
Qed.

(** The batch of the group, with its first sequence number, at its place. *)
Lemma number_group_ok bs d p rest w b : ready d → serves bs d → writers_ d = p :: rest → writer_objects d !! p = Some w → writer_batch w = Some b → tmp_batch_ d = WriteBatch.Clear → 0 <= last_seq d < 2 ^ 55 →
  ∃ k is_tmp last d1 u b' d2, BuildBatchGroup d = Ok (is_tmp, last, d1) ∧ updates is_tmp p d1 = Ok u ∧ WriteBatch.SetSequence u (u64 (last_seq d + 1)) = Ok b' ∧ set_updates is_tmp p b' d1 = Ok d2 ∧
    (p :: rest) !! k = Some last ∧ ready d2 ∧ serves bs d2 ∧ serving d d2 ∧ log_ d2 = log_ d ∧ writers_ d2 = writers_ d ∧ last_seq d2 = last_seq d ∧ (is_tmp = false → tmp_batch_ d2 = WriteBatch.Clear) ∧ bg_error_ d2 = bg_error_ d ∧
    let ops := concat (wops <$> take (S k) (p :: rest)) in batch b' (last_seq d + 1) ops ∧ Forall op_small ops.
Proof.
  intros Hr Hsv Eq Ew Eb Et Hl. pose proof Hr as [R1 R2 R3 R4 R5 R6]. pose proof Hsv as [(pm & Epm & Htm) Hold Hlog].
  destruct (BuildBatchGroup_ok wops p rest w b d Eq Ew Eb) as (k & is_tmp & last & d1 & E1 & Ek & Ed1 & Hg & _); [by rewrite <- Eq|done|].
  set (ops := concat (wops <$> take (S k) (p :: rest))) in *.
  assert (Forall op_small ops) as Hsmall.
  { unfold ops. apply List.Forall_concat, list.Forall_fmap, list.Forall_forall. intros q Hq. destruct (R2 q) as (x & _ & Hx & _).
    { rewrite Eq. rewrite <- (take_drop (S k) (p :: rest)). apply elem_of_app. by left. }
    unfold writer_ok in Hx. cbn. destruct (writer_batch x); [apply Hx|by rewrite Hx]. }
  assert (∃ u seq, updates is_tmp p d1 = Ok u ∧ batch u seq ops ∧ (is_tmp = false → u = b)) as (u & seq & Eu & Hu & Hub).
  { unfold updates, writer. destruct is_tmp; [destruct Hg as [s0 Hg]; by eexists _, _|]. destruct Hg as [_ [s0 Hg]]. rewrite Ed1. change (writer_objects (d <| tmp_batch_ := tmp_batch_ d1 |>)) with (writer_objects d). rewrite Ew. cbn. rewrite Eb. by eexists _, _. }
  destruct (batch_SetSequence u seq ops (last_seq d + 1) Hu ltac:(lia)) as (b' & Eb' & Hb').
  assert (∃ d2, set_updates is_tmp p b' d1 = Ok d2 ∧ d2 = d <| tmp_batch_ := tmp_batch_ d2 |> <| writer_objects := writer_objects d2 |> ∧ (∀ q, q ∈ writers_ d → waiting wops d2 q) ∧ (is_tmp = false → tmp_batch_ d2 = WriteBatch.Clear)) as (d2 & E2 & Ed2 & Hw2 & Ht2).
  { unfold set_updates. destruct is_tmp.
    - eexists. split; [done|]. split; [rewrite Ed1; by destruct d|]. split; [|done]. intros q Hq. rewrite Ed1. by apply R2.
    - unfold change_writer, writer. rewrite Ed1. change (writer_objects (d <| tmp_batch_ := tmp_batch_ d1 |>)) with (writer_objects d). rewrite Ew. unfold mbind, res_bind. cbn [of_option]. destruct Hg as [Hg1 _].
      eexists. split; [done|]. split; [by destruct d|]. split.
      + intros q Hq. unfold waiting. match goal with |- ∃ w, ?o !! q = _ ∧ _ => change o with (<[p := w <| writer_batch := Some b' |>]> (writer_objects d)) end. destruct (decide (p = q)) as [<-|N]; [|rewrite lookup_insert_ne by done; by apply R2].
        rewrite lookup_insert_eq. eexists. split; [done|]. destruct (R2 p Hq) as (x & Ex & Hx & Hdn). rewrite Ew in Ex. injection Ex as <-. split; [|by destruct w].
        unfold writer_ok in *. rewrite Eb in Hx. change (writer_batch (w <| writer_batch := Some b' |>)) with (Some b'). cbn. destruct Hx as ((s0 & Hs0) & Hsm & Hsz).
        destruct (batch_SetSequence b s0 _ (last_seq d + 1) Hs0 ltac:(lia)) as (b2 & Eb2 & Hb2). rewrite (Hub eq_refl), Eb2 in Eb'. injection Eb' as ->.
        split; [by eexists|]. split; [done|]. by rewrite (batch_same_size _ _ _ _ _ Hb2 Hs0).
      + intros _. change (tmp_batch_ d1 = WriteBatch.Clear). done. }
  exists k, is_tmp, last, d1, u, b', d2. assert (u64 (last_seq d + 1) = last_seq d + 1) as -> by (apply u64_small; lia).
  split; [done|]. split; [done|]. split; [done|]. split; [done|]. split; [done|].
  assert (memtables d2 = memtables d ∧ mem_ d2 = mem_ d ∧ imm_ d2 = imm_ d ∧ log_ d2 = log_ d ∧ writers_ d2 = writers_ d ∧ last_seq d2 = last_seq d ∧ bg_error_ d2 = bg_error_ d ∧ versions_ d2 = versions_ d ∧ next_memtable d2 = next_memtable d)
    as (F1 & F2 & F3 & F4 & F5 & F6 & F7 & F8 & F9) by by rewrite Ed2.
  split; [|split; [|split]].
  - split; [by rewrite F5|by rewrite F5|unfold has_version; by rewrite F8|by rewrite F8|unfold next_file; by rewrite F8|by rewrite F1, F9].
  - split; [exists pm; rewrite F2; split; [done|]; unfold table_holds; by rewrite F1|by rewrite F6|by rewrite F4, F7].
  - split; [done|by left|]. intros q es _ _. unfold table_holds. by rewrite F1.
  - done.
Qed.

Lemma write_group_ok sync bs d p rest w b l0 : ready d → serves bs d → log_ d = Some l0 → logs bs l0 → writers_ d = p :: rest → writer_objects d !! p = Some w → writer_batch w = Some b → tmp_batch_ d = WriteBatch.Clear → 0 <= last_seq d < 2 ^ 55 →
  ∃ s last d' k l, write_group address C others sync p (last_seq d) d = Ok (s, last, d') ∧ (p :: rest) !! k = Some last ∧ ready d' ∧ writers_ d' = (p :: rest) ++ l ∧ serving d d' ∧ tmp_batch_ d' = WriteBatch.Clear ∧
    let ops := concat (wops <$> take (S k) (p :: rest)) in last_seq d' = last_seq d + Z.of_nat (length ops) ∧
    (s = OK → serves (bs ++ [(last_seq d + 1, ops)]) d' ∧ ∃ l rs, log_ d' = Some l ∧ Forall2 (λ r b, batch r b.1 b.2) rs (bs ++ [(last_seq d + 1, ops)]) ∧ logged rs l) ∧ (s ≠ OK → serves bs d').
Proof.
  intros Hr Hsv El Hl Eq Ew Eb Et Hn. destruct (number_group_ok bs d p rest w b Hr Hsv Eq Ew Eb Et Hn) as (k & is_tmp & last & d1 & u & b' & d2 & E1 & E2 & E3 & E4 & Ek & Hr2 & Hsv2 & Hsg2 & El2 & Eq2 & En2 & Et2 & Ebg2 & Hb' & Hsm).
  set (ops := concat (wops <$> take (S k) (p :: rest))) in *. unfold write_group. rewrite E1. unfold mbind, res_bind. rewrite E2, E3, E4, (batch_Count _ _ _ Hb').
  pose proof (batch_count _ _ _ Hb') as Hcount. assert (u64 (last_seq d + Z.of_nat (length ops)) = last_seq d + Z.of_nat (length ops)) as -> by (apply u64_small; lia).
  destruct (meanwhile_steady d2 Hr2) as (Hr3 & Hs3 & _). set (d3 := Meanwhile others d2) in *. assert (log_ d3 = Some l0) as El3 by (rewrite (sd_log _ _ Hs3), El2; exact El).
  destruct (log_batch_ok sync b' (last_seq d + 1) ops bs d3 l0 El3 Hl Hb') as (s & se & l1 & -> & Hrl & Hok & Hbad). set (d4 := d3 <| log_ := Some l1 |>).
  assert (ready d4) as Hr4 by (destruct Hr3; by split). destruct (meanwhile_steady d4 Hr4) as (Hr5 & Hs5 & _). set (d5 := Meanwhile others d4) in *. cbn zeta.
  assert (serving d d5) as Hsg5. { eapply serving_trans; [exact Hsg2|]. eapply serving_trans; [by apply steady_serving|]. eapply serving_trans; [|by apply steady_serving]. split; [done|by left|done]. }
  assert (mem_holds (replay bs) d5) as Hm5. { eapply steady_mem; [exact Hs5|]. change (mem_holds (replay bs) d3). eapply steady_mem; [exact Hs3|]. apply Hsv2. }
  destruct (sd_queue _ _ Hs3) as [q3 Eq3], (sd_queue _ _ Hs5) as [q5 Eq5]. change (writers_ d4) with (writers_ d3) in Eq5.
  assert (older (last_seq d + 1) (replay bs)) as Hold by apply Hsv.
  assert (∃ d6, (if ok s then insert_batch C b' d5 else Ok (s, d5)) = Ok (s, d6) ∧ ready d6 ∧ serving d5 d6 ∧ (∃ t, d6 = d5 <| memtables := t |>) ∧ mem_holds (replay (if ok s then bs ++ [(last_seq d + 1, ops)] else bs)) d6) as (d6 & E6 & Hr6 & Hsg6 & (t & Ed6) & Hm6).
  { destruct (ok s) eqn:Es.
    - apply ok_iff in Es. subst s. destruct (insert_batch_ok b' (last_seq d + 1) ops bs d5 Hr5 Hm5 Hb' Hsm Hold ltac:(lia)) as (d6 & -> & H1 & H2 & H3 & H4). by exists d6.
    - exists d5. split; [done|]. split; [done|]. split; [split; [done|by left|done]|]. split; [exists (memtables d5); by destruct d5|done]. }
  rewrite E6. destruct (meanwhile_steady d6 Hr6) as (Hr7 & Hs7 & _). unfold Lock. set (d7 := Meanwhile others d6) in *. destruct (sd_queue _ _ Hs7) as [q7 Eq7].
  set (d8 := if se then RecordBackgroundError s d7 else d7). set (d9 := if is_tmp then d8 <| tmp_batch_ := WriteBatch.Clear |> else d8).
  assert (∃ e t, d9 = d7 <| bg_error_ := e |> <| tmp_batch_ := t |> ∧ (bg_error_ d7 ≠ OK → e ≠ OK) ∧ (se = true → s ≠ OK → e ≠ OK) ∧ (is_tmp = true → t = WriteBatch.Clear) ∧ (is_tmp = false → t = tmp_batch_ d7)) as (e & t9 & Ed9 & He1 & He2 & Ht1 & Ht2).
  { assert (∃ e, d8 = d7 <| bg_error_ := e |> ∧ (bg_error_ d7 ≠ OK → e ≠ OK) ∧ (se = true → s ≠ OK → e ≠ OK)) as (e & Ed8 & He1 & He2).
    { unfold d8, RecordBackgroundError. destruct se; [|exists (bg_error_ d7); split; [by destruct d7|done]]. destruct (ok (bg_error_ d7)) eqn:Eo; [exists s; split; [done|]; apply ok_iff in Eo; by split|].
      exists (bg_error_ d7). apply ok_false in Eo. split; [by destruct d7|done]. }
    unfold d9. destruct is_tmp; [exists e, WriteBatch.Clear; rewrite Ed8; by split|]. exists e, (tmp_batch_ d7). split; [rewrite Ed8; by destruct d7|done]. }
  assert (versions_ d9 = versions_ d7) as Ev9 by by rewrite Ed9. assert (last_seq d7 = last_seq d) as En7.
  { rewrite (sd_seq _ _ Hs7), Ed6. change (last_seq (d5 <| memtables := t |>)) with (last_seq d5). rewrite (sd_seq _ _ Hs5). change (last_seq d4) with (last_seq d3). by rewrite (sd_seq _ _ Hs3). }
  unfold SetLastSequence. rewrite Ev9. change (last_sequence_ (versions_ d7)) with (last_seq d7). rewrite En7, (proj2 (Z.leb_le _ _)) by lia. cbn [SkipList.assert_]. unfold mbind, res_bind.
  set (vs := set_numbers _ _ _ _ _ _). set (d' := d9 <| versions_ := vs |>).
  assert (d' = d7 <| bg_error_ := e |> <| tmp_batch_ := t9 |> <| versions_ := vs |>) as Ed' by by unfold d'; rewrite Ed9.
  assert (log_ d' = Some l1) as El'. { rewrite Ed'. change (log_ d7 = Some l1). rewrite (sd_log _ _ Hs7), Ed6. change (log_ d5 = Some l1). by rewrite (sd_log _ _ Hs5). }
  assert (serving d d') as Hsg. { eapply serving_trans; [exact Hsg5|]. eapply serving_trans; [exact Hsg6|]. eapply serving_trans; [by apply steady_serving|]. rewrite Ed'. split; [done|by left|done]. }
  assert (mem_holds (replay (if ok s then bs ++ [(last_seq d + 1, ops)] else bs)) d') as Hm'. { rewrite Ed'. change (mem_holds (replay (if ok s then bs ++ [(last_seq d + 1, ops)] else bs)) d7). by eapply steady_mem. }
  assert (last_seq d' = last_seq d + Z.of_nat (length ops)) as En' by done.
  exists s, last, d', k, (q3 ++ q5 ++ q7). split; [done|]. split; [done|]. split; [|split; [|split; [done|split; [|split; [done|split]]]]].
  - rewrite Ed'. destruct Hr7 as [A1 A2 A3 A4 A5 A6]. split; [exact A1|exact A2|exact A3|exact A4|exact A5|exact A6].
  - rewrite Ed'. change (writers_ d7 = (p :: rest) ++ q3 ++ q5 ++ q7). rewrite Eq7, Ed6. change (writers_ d5 ++ q7 = (p :: rest) ++ q3 ++ q5 ++ q7). by rewrite Eq5, Eq3, Eq2, Eq, <- !app_assoc.
  - rewrite Ed'. change (t9 = WriteBatch.Clear). destruct is_tmp; [auto|]. rewrite Ht2 by done. rewrite (sd_tmp _ _ Hs7), Ed6. change (tmp_batch_ d5 = WriteBatch.Clear). rewrite (sd_tmp _ _ Hs5). change (tmp_batch_ d3 = WriteBatch.Clear). rewrite (sd_tmp _ _ Hs3). auto.
  - intros ->. destruct (Hok eq_refl) as (_ & rs & Hrs & Hlg). split; [|by exists l1, rs]. split; [done| |].
    + rewrite En', replay_snoc. replace (last_seq d + Z.of_nat (length ops) + 1) with (last_seq d + 1 + Z.of_nat (length ops)) by lia. by apply older_apply.
    + exists l1. split; [done|]. split; [done|]. left. exists rs. split; [done|]. by apply logged_holds.
  - intros N. rewrite (proj2 (ok_false _) N) in Hm'. split; [done| |].
    + rewrite En'. eapply list.Forall_impl; [exact Hold|]. cbn. intros x Hx. lia.
    + exists l1. split; [done|]. split; [done|]. destruct (Hbad N) as [->|Hlb]; [right|by left]. rewrite Ed'. change (e ≠ OK). auto.
Qed.

Lemma MakeRoom_ok bs d fuel : ready d → serves bs d → next_file d < 2 ^ 63 → (patience d + 4 <= fuel)%nat → writers_ d ≠ [] →
  ∃ s d', MakeRoomForWrite address o dbname usage others fuel false d = Ok (s, d') ∧ room_made bs d s d'.
Proof.
  intros Hr Hsv Hn Hf Hq. unfold MakeRoomForWrite. rewrite bool_decide_eq_false_2 by done. cbn [negb SkipList.assert_]. unfold mbind, res_bind.
  apply room_loop_ok; [done|done|done|lia].
Qed.

(** The batches that the table of now and its log had before: all, or none when the table of
    before is immutable, until it has been compacted. *)
Definition table_of bs d d' (bs0 : list (Z * list op)) : Prop :=
  bs0 = bs ∨ bs0 = [] ∧ ∃ m, mem_ d = Some m ∧ (imm_ d' = Some m ∧ table_holds d' m (replay bs) ∨ imm_ d' = None).

Lemma roomy_table bs d d1 d' bs0 : roomy bs d d1 bs0 → serving d1 d' → table_of bs d d' bs0.
Proof.
  intros Hr [B1 B2 B3]. destruct Hr as [_|m Em Nm Hi _ _ _ _]; [by left|right]. split; [done|]. exists m. split; [done|].
  destruct B2 as [B2|B2]; [|by right]. destruct Hi as [[Hi Ht]|Hi]; [left|right; congruence]. split; [congruence|]. apply B3; [done|congruence|done].
Qed.
Lemma roomy_queue bs d d1 bs0 : roomy bs d d1 bs0 →
  (∃ l, writers_ d1 = writers_ d ++ l) ∧ (∀ q, q ∈ writers_ d → writer_objects d1 !! q = writer_objects d !! q) ∧ tmp_batch_ d1 = tmp_batch_ d ∧ last_seq d1 = last_seq d.
Proof. intros [[_ _ _ _ H1 H2 H3 H4 _]|m _ _ _ H1 H2 H3 H4]; done. Qed.

End turn.

(** * An example

    Two writers wait; the log is a file in memory. The other threads, when they run, compact
    all that there is. *)
#[local] Instance example_cache : TableCache (MemoryEnv * unit) unit := {|
  table_NewIterator _ _ _ w := Ok (tt, w);
  table_Get _ _ _ _ w := Ok (OK, None, w)
|}.
Definition full_file (f : MemoryFile) : Prop := 2 ^ 32 <= Slice.size (mf_data f).
#[local] Instance full_device : Device MemoryFile mf_data full_file.
Proof.
  split.
  - intros data f. cbn. destruct (Z.ltb_spec (Slice.size (mf_data f ++ data)) (2 ^ 32)) as [L|L]; (eexists _, _; split; [done|]); [by left|by right].
  - intros f. eexists _, _. split; [done|]. by left.
Qed.
#[local] Abbreviation example_DB := (DBImpl (E := MemoryEnv) (F := MemoryFile) (K := unit)).
Definition compacted (s : VersionSet) : VersionSet :=
  let s := set_versions s 1 {[0%nat := empty_version]} [0%nat] (Some 0%nat) in
  set_numbers s (Z.min (next_file_number_ s) (2 ^ 63 - 1)) (manifest_file_number_ s) (last_sequence_ s) (log_number_ s) (prev_log_number_ s).
Definition example_others (_ : nat) (d : example_DB) : example_DB := d <| imm_ := None |> <| versions_ := compacted (versions_ d) |>.
Definition example_patience (d : example_DB) : nat :=
  match imm_ d, NumLevelFiles (versions_ d) 0 with Some _, _ => 1%nat | None, Ok n => if 12 <=? n then 1%nat else 0%nat | None, _ => 0%nat end.
Definition example_ops (q : nat) : list op :=
  match q with 1%nat => [op_put [97] [120]] | 2%nat => [op_put [98] [121]; op_delete [97]] | _ => [] end.
Definition example_batch (q : nat) : bytes := le_bytes 8 0 ++ le_bytes 4 (Z.of_nat (length (example_ops q))) ++ encode_ops (example_ops q).
Definition example_mem : MemTable.MemTable := Eval vm_compute in match MemTable.new with Ok m => m | _ => MemTable.mkMem 0 (SkipList.mkList [] 0 0) end.
Definition example_set : VersionSet := compacted (mkSet 9 2 41 3 0 (mkObjects 0 ∅ ∅) 0 ∅ [] None (replicate 7 [])).
Definition example_options : DBOptions := mkDBOptions true false false 4194304 2097152 (mkOptions 4096 16 Format.kNoCompression false).
Definition example_db : example_DB :=
  mkDB (mkMemoryEnv ∅ false) () false {[5%nat := example_mem]} 6 (Some 5%nat) None false (Some (Log.mkWriter 0 type_crcs, mkMemoryFile (str "db/000003.log") [])) 3 0 Snapshots.new_list ∅ false ∅ None
    example_set None OK {[1%nat := mkDbWriter OK (Some (example_batch 1)) false false; 2%nat := mkDbWriter OK (Some (example_batch 2)) false false]} 3 [1%nat; 2%nat] WriteBatch.Clear 0.

