(* ===== verification/LdbRecoverProps.v ===== *)
(** Recovery of a log: wherever the log file ends after a crash, what is recovered is what the
    complete records say, in a memory table or in a table of level 0. *)
From Stdlib Require Import Sorting.Sorted.
From stdpp Require Import sorting.
From S2P Require Import Prelude LdbSkip LdbSkipLemmas LdbFormat LdbCodingProps LdbOrder LdbKeyProps LdbCrc LdbMemTable LdbMemTableProps LdbBatchProps LdbLog LdbLogProps LdbFilter LdbFilterProps LdbIterator LdbTable LdbTableFileProps LdbTableReadProps LdbVersionEdit LdbVersion LdbVersionProps LdbVersionGet LdbVersionSet LdbEnv LdbEnvProps LdbDb LdbDropProps LdbOutputProps LdbDbWriteProps LdbDbOpen.
Import Status Filename VersionSet Db DbOpen.

(** Batches whose operations are numbered in order. *)
Fixpoint chain (lo : Z) (bs : list (Z * list op)) : Prop :=
  match bs with [] => True | (n, ops) :: bs => lo <= n ∧ n + Z.of_nat (length ops) <= 2 ^ 56 ∧ Forall op_small ops ∧ chain (n + Z.of_nat (length ops)) bs end.
Definition last_number (m : Z) (bs : list (Z * list op)) : Z := foldl (λ m b, Z.max m (b.1 + Z.of_nat (length b.2) - 1)) m bs.

Lemma chain_take j lo bs : chain lo bs → chain lo (take j bs).
Proof. revert lo j. induction bs as [|[n ops] bs IH]; intros lo [|j]; cbn; [done..|]. intros (H1 & H2 & H3 & H4). split_and!; auto. Qed.

Lemma replay_prefix bs bs' es : sublist (foldl (λ es b, apply_ops b.1 b.2 es) es bs) (foldl (λ es b, apply_ops b.1 b.2 es) es (bs ++ bs')).
Proof.
  rewrite foldl_app. generalize (foldl (λ es b, apply_ops b.1 b.2 es) es bs). induction bs' as [|[n ops] bs' IH]; intros l; [done|]. cbn [foldl fst snd]. etransitivity; [|apply IH].
  clear. revert n l. induction ops as [|x ops IH]; intros n l; [done|]. cbn [apply_ops]. etransitivity; [|apply IH]. by constructor.
Qed.
Lemma replay_take j bs : sublist (replay (take j bs)) (replay bs).
Proof. rewrite <- (take_drop j bs) at 2. apply replay_prefix. Qed.

(** Inserting a batch does not count as a reference. *)
Section refs.
Context (C : SliceComparator).
#[local] Existing Instance WriteBatch.MemTableInserter.
Lemma Add_refs m n t k v m' : MemTable.Add C m n t k v = Ok m' → MemTable.refs_ m' = MemTable.refs_ m.
Proof.
  unfold MemTable.Add, mbind, res_bind. destruct (Coding.VarintLength _); [|done..]. destruct (Coding.VarintLength _); [|done..]. destruct (SkipList.assert_ _); [|done..].
  destruct (SkipList.Insert _ _); [|done..]. by intros [= <-].
Qed.
Lemma iterate_refs n : ∀ input found w r w', WriteBatch.iterate_loop (H := WriteBatch.MemTableInserter C) n input found w = Ok (r, w') → MemTable.refs_ w'.2 = MemTable.refs_ w.2.
Proof.
  induction n as [|n IH]; intros input found w r w' Eq; [done|]. cbn [WriteBatch.iterate_loop] in Eq. unfold mbind, res_bind in Eq.
  repeat (case_match; try done); simplify_eq; try done.
  all: apply IH in Eq; rewrite Eq; destruct w as [sq mm]; match goal with H : _ = Ok ?x |- MemTable.refs_ (snd ?x) = _ =>
    unfold WriteBatch.handle_Put, WriteBatch.handle_Delete, WriteBatch.MemTableInserter, mbind, res_bind in H; destruct (MemTable.Add _ _ _ _ _ _) eqn:Ea; try done; injection H as <-; by eapply Add_refs end.
Qed.
Lemma InsertInto_refs b m st m' : WriteBatch.InsertInto C b m = Ok (st, m') → MemTable.refs_ m' = MemTable.refs_ m.
Proof.
  unfold WriteBatch.InsertInto, mbind, res_bind. destruct (WriteBatch.Sequence b) as [n| |]; [|done..]. destruct (WriteBatch.Iterate _ _) as [[s0 [n0 m0]]| |] eqn:Ei; [|done..]. intros [= _ <-].
  unfold WriteBatch.Iterate in Ei. destruct (_ <? _); [by simplify_eq|]. unfold mbind, res_bind in Ei. destruct (Slice.remove_prefix _ _); [|done..].
  destruct (WriteBatch.iterate_loop _ _ _ _) as [[r [n1 m1]]| |] eqn:El; [|done..]. apply iterate_refs in El. cbn [snd] in El. destruct r; [destruct (WriteBatch.Count b); [|done..]|]; by simplify_eq.
Qed.
End refs.

Section recover.
Context (address : bytes → Z) (Haddr : ∀ b, 0 <= address b).
Context {E F K TI : Type} {HE : Env E F bytes} {HW : WritableFile F} {HS : SyncFile F} {HT : TableCache (E * K) TI} {HTI : Iterator TI}.
Context (C : SliceComparator) (valid : bytes → Prop) (ord : Comparator bytes) `{!Lawful C (λ _, True) valid ord}.
Context (pol : NamedPolicy) (o : DBOptions) (dbname : bytes) (usage : MemTable.MemTable → Z).
#[local] Abbreviation DB := (DBImpl (E := E) (F := F) (K := K)).
(** No other thread has the database yet; the memory tables do not get full. *)
#[local] Abbreviation alone := (λ (_ : nat) (d : DB), d).
Context (Husage : ∀ m, usage m <= write_buffer_size o).
Context (fuel : nat).
Implicit Types (d : DB) (bs : list (Z * list op)) (l : LogState).

(** A memory table with a reference, that holds what the batches say. *)
Definition counted d (p : nat) (es : list entry) : Prop := ∃ m, memtables d !! p = Some m ∧ LdbMemTableProps.holds C m es ∧ 1 <= MemTable.refs_ m.
Definition loaded bs l d : Prop := match log_mem l with Some p => counted d p (replay bs) | None => bs = [] end.

Lemma note_reports_same (r r' : Log.Reader (F := bytes)) s : Log.reports r' = Log.reports r → note_reports (length (Log.reports r)) r' s = s.
Proof. intros Er. unfold note_reports. by rewrite Er, Nat.sub_diag. Qed.

Lemma replay_batch_ok record n ops bs l d : batch record n ops → Forall op_small ops → older n (replay bs) → 1 <= n → n + Z.of_nat (length ops) <= 2 ^ 56 → loaded bs l d →
  ∃ p d', replay_batch address C pol o dbname usage alone fuel record l d = Ok (true, l <| log_mem := Some p |> <| log_status := OK |> <| max_sequence := Z.max (max_sequence l) (n + Z.of_nat (length ops) - 1) |>, d') ∧
    counted d' p (replay (bs ++ [(n, ops)])) ∧ (∃ t k, d' = d <| memtables := t |> <| next_memtable := k |>).
Proof.
  intros Hb Hsm Ho Hn1 Hn Hl. unfold replay_batch, WriteBatch.SetContents. pose proof (batch_size _ _ _ Hb). rewrite (proj2 (Z.leb_le _ _)) by (unfold WriteBatch.kHeader; lia). cbn [SkipList.assert_]. unfold mbind, res_bind.
  set (r := match log_mem l with Some _ => _ | None => _ end).
  assert (∃ p d1, r = Ok (p, d1) ∧ counted d1 p (replay bs) ∧ (∃ t k, d1 = d <| memtables := t |> <| next_memtable := k |>)) as (p & d1 & -> & (m & Em & Hm & Hrefs) & t & k & Ed1).
  { unfold r. unfold loaded in Hl. destruct (log_mem l) as [p|]; [exists p, d; split; [done|]; split; [done|]; exists (memtables d), (next_memtable d); by destruct d|]. subst bs. unfold new_memtable.
    destruct (holds_new C) as (m & -> & Hm & Er). unfold mbind, res_bind. eexists _, _. split; [done|]. split; [|by eexists _, _]. exists (MemTable.Ref m). split; [apply lookup_insert_eq|]. split; [by eapply holds_table|]. cbn. lia. }
  unfold memtable. rewrite Em. cbn [of_option]. destruct (InsertInto_ok C valid ord record n ops m (replay bs) Hb Hm Ho Hsm Hn) as (m' & Ei & Hm'). rewrite Ei. apply InsertInto_refs in Ei.
  change (MaybeIgnoreError o OK) with OK. cbn [log_status modify]. rewrite (batch_Sequence _ _ _ Hb), (batch_Count _ _ _ Hb). pose proof (batch_count _ _ _ Hb) as Hc. rewrite u64_small by lia. set (last := n + Z.of_nat (length ops) - 1).
  set (l1 := l <| log_mem := Some p |> <| log_status := OK |>). change (ok (log_status l1)) with true. cbn [negb]. change (max_sequence l1) with (max_sequence l).
  assert ((if max_sequence l <? last then l1 <| max_sequence := last |> else l1) = l1 <| max_sequence := Z.max (max_sequence l) last |>) as ->.
  { destruct (Z.ltb_spec (max_sequence l) last) as [L|L]; [by rewrite Z.max_r by lia|]. rewrite Z.max_l by lia. by destruct l. }
  rewrite (proj2 (Z.ltb_ge _ _)) by apply Husage. eexists p, _. split; [done|]. split.
  - exists m'. split; [apply lookup_insert_eq|]. rewrite replay_snoc. split; [done|lia].
  - rewrite Ed1. by eexists _, _.
Qed.

Lemma log_loop_ok r xs : reads address true true fuel r xs → ∀ n l d bs0 bs lo, (length xs < n)%nat → Forall2 (λ x b, batch x b.1 b.2) xs bs → log_status l = OK → loaded bs0 l d →
  1 <= lo → chain lo bs → older lo (replay bs0) →
  ∃ l' d', log_loop address C pol o dbname usage alone fuel n r l d = Ok (l', d') ∧ loaded (bs0 ++ bs) l' d' ∧
    l' = l <| log_mem := log_mem l' |> <| max_sequence := last_number (max_sequence l) bs |> ∧ (bs ≠ [] → is_Some (log_mem l')) ∧ (∃ t k, d' = d <| memtables := t |> <| next_memtable := k |>).
Proof.
  assert (∀ l, (if paranoid_checks (table_options o) then l <| log_status := log_status l |> else l) = l) as Hsame by (intros l; destruct (paranoid_checks _); by destruct l).
  induction 1 as [r r' E1 Er|r r' x xs E1 Er Hx IH]; intros n l d bs0 bs lo Hn Hbs Hst Hl Hlo Hc Hold; (destruct n as [|n]; [cbn in Hn; lia|]); cbn [log_loop]; unfold ReadRecord; rewrite E1; unfold mbind, res_bind.
  - apply Forall2_nil_inv_l in Hbs as ->. rewrite (note_reports_same _ _ _ Er), Hsame. exists l, d. split; [done|]. rewrite app_nil_r. split; [done|]. split; [by destruct l|]. split; [done|]. exists (memtables d), (next_memtable d). by destruct d.
  - apply Forall2_cons_inv_l in Hbs as ([m ops] & bs' & Hb & Hbs & ->). cbn [fst snd] in Hb. destruct Hc as (H1 & H2 & H3 & H4). rewrite (note_reports_same _ _ _ Er), Hsame, Hst. change (ok OK) with true. cbn [negb].
    pose proof (batch_size _ _ _ Hb). rewrite (proj2 (Z.ltb_ge _ _)) by lia.
    assert (older m (replay bs0)) as Hold' by (eapply list.Forall_impl; [exact Hold|]; cbn; lia).
    destruct (replay_batch_ok x m ops bs0 l d Hb H3 Hold' ltac:(lia) H2 Hl) as (p & d1 & -> & Ht & t & k & Ed1).
    set (l1 := l <| log_mem := Some p |> <| log_status := OK |> <| max_sequence := Z.max (max_sequence l) (m + Z.of_nat (length ops) - 1) |>).
    destruct (IH n l1 d1 (bs0 ++ [(m, ops)]) bs' (m + Z.of_nat (length ops))) as (l' & d' & -> & Hl' & El' & Hs' & t' & k' & Ed'); [cbn in Hn; lia|done|done|exact Ht|lia|done|rewrite replay_snoc; by apply older_apply|].
    exists l', d'. split; [done|]. rewrite <- app_assoc in Hl'. split; [exact Hl'|]. split; [|split].
    + rewrite El'. change (last_number (max_sequence l) ((m, ops) :: bs')) with (last_number (max_sequence l1) bs'). destruct l as [s ? ? ? ? ?]. cbn in Hst. by subst s.
    + intros _. destruct bs' as [|b bs']; [|by apply Hs']. unfold loaded in Hl'. destruct (log_mem l'); [done|]. by destruct bs0.
    + rewrite Ed', Ed1. by eexists _, _.
Qed.

(** ** The memory table becomes a table of level 0 *)
Section flush.
Context {disk : E → gmap bytes bytes} {name_of written : F → bytes} {HL : EnvLaws E F bytes disk name_of written} (refused : F → Prop) {HD : Device F written refused}.
Context (Hflush : ∀ f : F, name_of (Flush f).2 = name_of f) (Hvb : ∀ k, valid k → Forall is_byte k) (fdom : bytes → Prop).
Context (Hint : 1 <= block_restart_interval (table_options o)).
Context (Hpol : match pol with Some (P, name) => FilterLaws P fdom ∧ Forall is_byte name | None => True end).
Context (Hverify : ∀ n z (w : E * K), ∃ it w', table_NewIterator (Table.mkRead false true) n z w = Ok (it, w') ∧ disk w'.1 = disk w.1).

(** Entries in any order that a table can be made of. *)
Record recoverable (es : list entry) : Prop := {
  rv_valid : Forall (λ e, valid (e_key e)) es;
  rv_filter : pol ≠ None → LdbFilterProps.ready fdom (e_internal <$> es)
}.
Lemma recoverable_sublist a b : sublist a b → recoverable b → recoverable a.
Proof.
  intros Hs [H1 H2]. split.
  - rewrite list.Forall_forall in H1 |- *. intros e He. apply H1. by eapply elem_of_sublist.
  - intros Hp. eapply LdbFilterProps.ready_sublist; [|by apply H2]. by apply (fmap_sublist _ _ _).
Qed.
Lemma recoverable_tableable es sorted : recoverable es → sorted ≡ₚ es → Forall fits sorted → StronglySorted (λ a b, entry_cmp ord a b < 0) sorted → tableable valid ord pol fdom sorted.
Proof.
  intros [H1 H2] P Hf Hs. split; [done|by rewrite P|done|]. intros Hp. rewrite <- list_fmap_compose. eapply LdbFilterProps.ready_perm; [|by apply H2]. by rewrite <- P.
Qed.

(** What recovery leaves of the entries: nothing, or a table of level 0 that the edit adds. *)
Definition tabled (n : Z) (es : list entry) (edit : VersionEdit.VersionEdit) d' (edit' : VersionEdit.VersionEdit) : Prop :=
  es = [] ∧ edit' = edit ∨
  es ≠ [] ∧ ∃ sorted meta, sorted ≡ₚ es ∧ described (disk := disk) valid ord pol dbname sorted n (env_ d', table_cache_ d') meta ∧
    edit' = VersionEdit.AddFile 0 n (file_size meta) (smallest meta) (largest meta) edit.

Lemma user_key_internal e : fits e → Version.user_key (e_internal e) = Ok (e_key e).
Proof. intros He. assert (split_internal (e_internal e) = Some (e_key e, e_num e)) as Es by (apply split_internal_internal, pack_range, He). by apply split_internal_Some in Es as (? & _). Qed.

Lemma flush_mem_ok p es l d : counted d p es → recoverable es → 0 < next_file d → (length es < fuel)%nat →
  ∃ s edit d', flush_mem address C pol o dbname alone fuel p l d = Ok (l <| log_status := s |> <| log_save := true |> <| log_edit := edit |> <| log_mem := None |>, d') ∧
    mem_ d' = mem_ d ∧ (s = OK → tabled (next_file d) es (log_edit l) d' edit).
Proof.
  intros (m & Em & Hm & Hrefs) Hrec Hn Hf. destruct (mem_first C valid ord m es Hm) as (sorted & it & P & Hso & Hfs & Eit & Hat).
  pose proof (recoverable_tableable _ _ Hrec P Hfs Hso) as Htab. pose proof (mem_forward C m sorted Hfs) as HFw.
  unfold flush_mem, WriteLevel0Table, memtable. unfold NewFileNumber at 1. fold (next_file d). set (d1 := d <| versions_ := _ |> <| pending_outputs_ := _ |>).
  change (memtables d1) with (memtables d). rewrite Em. cbn [of_option]. unfold mbind at 1 2 3, res_bind at 1 2 3.
  destruct (build_table_correct address Haddr refused Hflush C valid ord Hvb pol o dbname fdom Hint Hpol Hverify sorted (mem_at m sorted) Htab fuel (next_file d) (NewMemIterator m) it (env_ d1, table_cache_ d1) Hn Eit Hat ltac:(by rewrite P)) as (s & meta & w & -> & _ & Hok).
  set (d2 := Lock alone (d1 <| env_ := w.1 |> <| table_cache_ := w.2 |>)). set (d3 := d2 <| pending_outputs_ := pending_outputs_ d2 ∖ {[next_file d]} |>).
  assert (∀ dx : DB, memtables dx = memtables d → mem_ dx = mem_ d → env_ dx = w.1 → table_cache_ dx = w.2 →
    ∃ d', UnrefMemTable p dx = Ok d' ∧ mem_ d' = mem_ d ∧ (env_ d', table_cache_ d') = w) as Hun.
  { intros dx E1 E2 E3 E4. unfold UnrefMemTable, memtable. rewrite E1, Em. cbn [of_option]. unfold mbind, res_bind, MemTable.Unref. cbn [MemTable.refs_].
    rewrite (proj2 (Z.leb_le 0 _)) by lia. cbn [SkipList.assert_]. unfold mbind, res_bind. eexists. split; [done|]. split; [done|]. rewrite (surjective_pairing w), <- E3, <- E4. by destruct dx. }
  destruct (Hun d3) as (d' & Hd' & E1 & E2); [done..|].
  unfold mbind, res_bind. destruct (ok s && (0 <? file_size meta)) eqn:Es.
  - apply andb_true_iff in Es as [Es%ok_iff Ez%Z.ltb_lt]. destruct (Hok Es) as [(Hne & Hd & _)|[_ E0]]; [|lia].
    pose proof (ds_smallest _ _ _ _ _ _ _ _ Hd) as Esm. pose proof (ds_largest _ _ _ _ _ _ _ _ Hd) as Ela. pose proof (ds_number _ _ _ _ _ _ _ _ Hd) as Enum.
    assert (∀ x k, x ∈ [list.head sorted; list.last sorted] → e_internal <$> x = Some k → ∃ u, Version.user_key k = Ok u) as Huk.
    { intros x k Hx Hk. destruct x as [e|]; [|done]. injection Hk as <-. exists (e_key e). apply user_key_internal. rewrite list.Forall_forall in Hfs. apply Hfs.
      apply elem_of_cons in Hx as [Hx|Hx%list_elem_of_singleton]; [by apply head_Some_elem_of|by apply last_Some_elem_of]. }
    destruct (Huk _ _ ltac:(by left) Esm) as (u1 & ->), (Huk _ _ ltac:(by right; left) Ela) as (u2 & ->). change (UnrefMemTable p _) with (UnrefMemTable p d3). rewrite Hd'. subst s. eexists OK, _, d'. split; [rewrite Enum; done|]. split; [done|]. intros _. right.
    split; [intros ->; by apply Permutation_nil_r in P|]. exists sorted, meta. split; [done|]. split; [by rewrite E2|done].
  - change (UnrefMemTable p _) with (UnrefMemTable p d3). rewrite Hd'. eexists s, _, d'. split; [done|]. split; [done|]. intros ->. left. split; [|done]. destruct (Hok eq_refl) as [(_ & _ & L)|[-> _]]; [|by apply Permutation_nil in P].
    by rewrite (proj2 (Z.ltb_lt _ _) L) in Es.
Qed.

(** ** The log is used on *)
Context (Happend : ∀ name e, (NewAppendableFile name e).1.1 = OK → is_Some (NewAppendableFile name e).1.2).

Lemma reuse_log_ok fname n l d bs : loaded bs l d → mem_ d = None → log_ d = None →
  ∃ l' d', reuse_log address fname n l d = Ok (l', d') ∧
    (l' = l ∧ loaded bs l d' ∧ mem_ d' = None ∧ next_file d' = next_file d ∨ l' = l <| log_mem := None |> ∧ mem_holds C (replay bs) d').
Proof.
  intros Hl Em El. unfold reuse_log. rewrite El, Em. cbn [SkipList.assert_]. unfold mbind, res_bind. destruct (GetFileSize fname (env_ d)) as [s size].
  destruct (ok s); cbn [negb]; [|exists l, d; split; [done|by left]]. pose proof (Happend fname (env_ d)) as Ha. destruct (NewAppendableFile fname (env_ d)) as [[s2 f] e]. cbn [fst snd] in Ha.
  destruct (ok s2) eqn:Es; cbn [negb]; [|eexists l, _; split; [done|by left]]. apply ok_iff in Es. destruct (Ha Es) as [f' ->]. cbn [of_option]. unfold Log.Writer_new. rewrite InitTypeCrc_ok by done.
  unfold mbind, res_bind. unfold loaded in Hl. destruct (log_mem l) as [p|].
  - eexists _, _. split; [done|]. right. split; [done|]. destruct Hl as (m & Hp & Hm & _). exists p. split; [done|]. by exists m.
  - subst bs. unfold new_memtable. destruct (holds_new C) as (m & -> & Hm & Er). unfold mbind, res_bind. eexists _, _. split; [done|]. right. split; [done|].
    eexists. split; [done|]. exists (MemTable.Ref m). split; [apply lookup_insert_eq|by eapply holds_table].
Qed.

(** What is recovered of a log with these batches: the table of memory, or a table of level 0. *)
Definition recovered d (save : bool) edit bs (save' : bool) edit' d' : Prop :=
  mem_holds C (replay bs) d' ∧ save' = save ∧ edit' = edit ∨ mem_ d' = None ∧ tabled (next_file d) (replay bs) edit d' edit' ∧ (edit' ≠ edit → save' = true).

End flush.
End recover.

(** * An example

    A log of two batches that was cut in the second one: the first one becomes a table. *)
#[local] Existing Instances no_tables memory_device.
Definition log_batches : list (Z * list op) := [(1, [op_put [97] [120]]); (2, [op_put [98] [121]; op_delete [97]])].
Definition log_records : list bytes := (λ b : Z * list op, le_bytes 8 b.1 ++ le_bytes 4 (Z.of_nat (length b.2)) ++ encode_ops b.2) <$> log_batches.
Definition whole_log : bytes := Eval vm_compute in match write_all (λ _, 0) log_records with Ok l => l | _ => [] end.
Definition crashed : DBImpl (E := MemoryEnv) (F := MemoryFile) (K := unit) :=
  mkDB (mkMemoryEnv {[str "db/000003.log" := take 40 whole_log]} false) () false ∅ 0 None None false None 0 0 Snapshots.new_list ∅ false ∅ None
    (mkSet 9 2 0 3 0 (mkObjects 0 ∅ ∅) 0 ∅ [] None (replicate 7 [])) None OK ∅ 0 [] WriteBatch.Clear 0.

