(* ===== verification/LdbDbReadProps.v ===== *)
(** Lookups in a database: [DBImpl::Get] answers from the memory tables and the version that
    are current when it has the mutex, whatever the other threads do while it reads. *)
From Stdlib Require Import Sorting.Sorted.
From S2P Require Import Prelude LdbSkip LdbSkipLemmas LdbFormat LdbCodingProps LdbOrder LdbKeyProps LdbMemTable LdbMemTableProps LdbIterator LdbTable LdbVersionEdit LdbVersion LdbVersionProps LdbVersionGet LdbVersionSet LdbVersionSetProps LdbEnv LdbDb LdbDbRead.
Import MemTable Status VersionSet Db DbRead.

Section read.
Context {E F K TI : Type} {HT : TableCache (E * K) TI} {HI : Iterator TI}.
Context (C : SliceComparator) (valid : bytes → Prop) (ord : Comparator bytes) `{!Lawful C (λ _, True) valid ord}.
Context (stored : Z → Z → entries → Prop) (cached : E * K → Prop) `{!TableLaws (E * K) TI ord stored cached} (content : Version.File → list entry).
#[local] Abbreviation DB := (DBImpl (E := E) (F := F) (K := K)).
Context (others : nat → DB → DB).
#[local] Abbreviation Meanwhile := (Meanwhile others).
#[local] Abbreviation holds := (LdbMemTableProps.holds C).
#[local] Abbreviation contents := (contents content).
#[local] Abbreviation version_holds := (version_holds ord stored content).
Implicit Types (d : DB) (es : list entry).

(** What a thread holds on to: a memory table with the entries up to the number [n] and newer
    ones, one that is being compacted, and a version, with a reference to each. *)
Context (mem : nat) (imm : option nat) (cur : nat) (n : Z) (es ei : list entry) (files : list (list Version.File)).
Definition set_held d : Prop := ∃ pins c, set_ok (versions_ d) [] pins ∧ current_ (versions_ d) = Some c ∧ c ∈ pins ∧ cur ∈ pins.
Record held d : Prop := {
  he_mem : ∃ m new, memtables d !! mem = Some m ∧ holds m (new ++ es) ∧ Forall (λ e, n < e_seq e) new ∧ 1 <= refs_ m;
  he_imm : match imm with Some p => p ≠ mem ∧ ∃ m, memtables d !! p = Some m ∧ holds m ei ∧ 1 <= refs_ m | None => ei = [] end;
  he_set : set_held d;
  he_version : ∃ v, versions (versions_ d) !! cur = Some v ∧ Version.files_ v = files;
  he_seeks f x : f ∈ concat files → seeks_of (objects (versions_ d)) !! Version.address f = Some x → -2 ^ 31 < x;
  he_cached : cached (env_ d, table_cache_ d)
}.
(** The other threads keep what is held. *)
Context (Hothers : ∀ i d, held d → held (others i d)).

Lemma held_meanwhile d : held d → held (Meanwhile d).
Proof. intros Hd. apply (Hothers (clock d)) in Hd. unfold Db.Meanwhile. destruct (others (clock d) d). destruct Hd. by split. Qed.

Lemma answers_visible a b u r : Forall (λ e, n < e_seq e) a → answers ord (a ++ b) u n r → answers ord b u n r.
Proof.
  intros Ha Hr. assert (∀ e, e ∈ a → ¬ visible ord u n e) as Hn. { intros e He [_ Hv]. rewrite list.Forall_forall in Ha. specialize (Ha e He). lia. }
  inversion Hr as [Hall|e He Hv Hm]; subst; [apply answers_none; by apply List.Forall_app in Hall as [_ ?]|]. apply elem_of_app in He as [He|He]; [by destruct (Hn e He)|].
  apply answers_found; [done|done|]. intros e' He'. apply Hm, elem_of_app. by right.
Qed.

(** ** The three steps of a lookup *)
Context (u : bytes) (Hu : Slice.size u + 8 < 2 ^ 32) (Hub : Forall is_byte u) (Hn : 0 <= n < 2 ^ 56) (lkey : Internal.LookupKey) (Hkey : Internal.lookup_key u n = Ok lkey).

(** The status and the value that stand for what was found. *)
Definition reported (r : Found) (value : bytes) : Status * bytes := match r with g_value x => (OK, x) | _ => (NotFound "", value) end.

Lemma none_or_not (r : Found) : r = g_none ∨ r ≠ g_none.
Proof. destruct r; [by right|by right|by left]. Qed.

Lemma table_lookup_ok d p m l value : memtables d !! p = Some m → holds m l → ∃ r, answers ord l u n r ∧
  table_lookup C p lkey value d = Ok (match r with g_none => None | _ => Some (reported r value) end).
Proof.
  intros Hp Hm. destruct (holds_get C valid ord m l u n Hm Hu Hub Hn) as (k & r & Ek & Eg & Ha). rewrite Hkey in Ek. injection Ek as <-. exists r. split; [done|].
  unfold table_lookup, memtable. rewrite Hp. cbn [of_option]. unfold mbind, res_bind. rewrite Eg. by destruct r.
Qed.

(** The state after a lookup differs in the files and the cache of tables. *)
Lemma lookup_ok o value d vh : held d → Version.files_ vh = files → version_holds vh → newer ord es (ei ++ contents vh) → newer ord ei (contents vh) →
  ∃ r st d', lookup C others o mem imm cur lkey value d = Ok ((reported r value).1, (reported r value).2, st, d') ∧ held d' ∧ answers ord (es ++ ei ++ contents vh) u n r ∧
    (∀ x, st = Some x → ∀ f, Version.seek_file x = Some f → f ∈ concat files).
Proof.
  intros Hd Efiles Hvh Hn1 Hn2. unfold lookup. apply held_meanwhile in Hd. set (d1 := Meanwhile d) in *. destruct (he_mem _ Hd) as (m & new & Em & Hm & Hnew & _).
  destruct (table_lookup_ok d1 mem m _ value Em Hm) as (r & Ha & ->). apply answers_visible in Ha; [|done]. unfold mbind at 1, res_bind at 1.
  destruct (none_or_not r) as [->|Nr].
  2:{ exists r, None, d1. split; [by destruct r|]. split; [done|]. split; [by apply (answers_newer C valid ord)|done]. }
  apply held_meanwhile in Hd. set (d2 := Meanwhile d1) in *.
  assert (∃ r, answers ord ei u n r ∧ match imm with Some p => table_lookup C p lkey value d2 | None => Ok None end = Ok (match r with g_none => None | _ => Some (reported r value) end)) as (ri & Hi & ->).
  { pose proof (he_imm _ Hd) as Himm. destruct imm as [p|]; [|rewrite Himm; exists g_none; split; [by apply answers_none|done]]. destruct Himm as (_ & mi & Emi & Hmi & _). by apply (table_lookup_ok d2 p mi). }
  unfold mbind at 1, res_bind at 1. destruct (none_or_not ri) as [->|Nri].
  2:{ exists ri, None, d2. split; [by destruct ri|]. split; [done|]. split; [apply answers_none_app; [done|by apply (answers_newer C valid ord)]|done]. }
  apply held_meanwhile in Hd. set (d3 := Meanwhile d2) in *. destruct (he_version _ Hd) as (v & Ev & Efv).
  assert (version_holds v) as Hv by (destruct Hvh as [V1 V2 V3]; rewrite Efiles, <- Efv in V1, V2, V3; by split).
  unfold version. rewrite Ev. cbn [of_option]. unfold mbind, res_bind.
  destruct (Get_ok C valid ord stored cached content (read_table_options o) v u n value (env_ d3, table_cache_ d3) Hv Hu Hn (he_cached _ Hd)) as (k & rv & st & [e' k'] & Ek & Eg & Hav & Hc & Hst).
  rewrite Hkey in Ek. injection Ek as <-. rewrite Eg.
  exists rv, (Some st). eexists. split; [by destruct rv|]. split; [|split].
  - destruct Hd. by split.
  - assert (contents vh = contents v) as -> by (unfold contents; by rewrite Efiles, Efv). apply answers_none_app; [done|]. by apply answers_none_app.
  - intros x [= <-] f Hf. destruct (Hst f Hf) as (l & Hl & Hin). rewrite Efv in Hl. apply list_elem_of_In, in_concat. exists l. split; apply list_elem_of_In; [by eapply list_elem_of_lookup_2|done].
Qed.

(** ** References *)

Lemma set_ok_perm s extra pins pins' : pins ≡ₚ pins' → set_ok s extra pins → set_ok s extra pins'.
Proof.
  intros P [H1 H2 H3 H4 H5 H6]. assert (∀ p, pinned p pins' = pinned p pins) as Ep.
  { intros p. clear - P. induction P as [|x l l' P IH|x y l|l l' l'' P1 IH1 P2 IH2]; rewrite ?pinned_cons; [done|lia..]. }
  split; [done| |done|done|by rewrite <- P|done]. intros p. rewrite Ep. apply H2.
Qed.
Lemma set_held_version d : set_held d → ∃ v, current (versions_ d) = Ok v.
Proof.
  intros (pins & c & Hs & Ec & Hin & _). unfold current, version. rewrite Ec. cbn [of_option]. unfold mbind, res_bind.
  destruct (versions (versions_ d) !! c) as [v|] eqn:E0; [by exists v|]. apply elem_of_Permutation in Hin as (l & P). pose proof (set_ok_perm _ _ _ _ P Hs) as Hs'.
  pose proof (so_versions _ _ _ Hs' c) as Hv'. rewrite E0, pinned_cons, Nat.eqb_refl in Hv'. pose proof (pinned_range c l). lia.
Qed.

(** A reference more to a memory table, or to the version. *)
Lemma ref_table_ok p d : held d → p = mem ∨ imm = Some p → ∃ d', RefMemTable p d = Ok d' ∧ held d' ∧ versions_ d' = versions_ d.
Proof.
  intros [H1 H2 H3 H4 H5 H6] Hp. unfold RefMemTable, memtable. destruct H1 as (m & new & Em & Hm & Hnew & Hr).
  assert (∃ mp, memtables d !! p = Some mp) as (mp & Ep) by (destruct Hp as [->|Ei]; [by exists m|rewrite Ei in H2; destruct H2 as (_ & mi & Emi & _); by exists mi]).
  rewrite Ep. cbn [of_option]. unfold mbind, res_bind. eexists. split; [done|]. split; [|done]. split; cbn [memtables]; [| |done..].
  - destruct (decide (p = mem)) as [->|N].
    + rewrite Em in Ep. injection Ep as <-. exists (MemTable.Ref m), new. split; [apply lookup_insert_eq|]. split; [by eapply holds_table|]. split; [done|]. cbn. lia.
    + exists m, new. split; [etransitivity; [by apply lookup_insert_ne|done]|done].
  - destruct imm as [q|]; [|done]. destruct H2 as (Nq & mi & Emi & Hmi & Hri). split; [done|]. destruct (decide (p = q)) as [->|N].
    + rewrite Emi in Ep. injection Ep as <-. exists (MemTable.Ref mi). split; [apply lookup_insert_eq|]. split; [by eapply holds_table|]. cbn. lia.
    + exists mi. split; [etransitivity; [by apply lookup_insert_ne|done]|done].
Qed.
Lemma ref_version_ok d pins : held d → set_ok (versions_ d) [] pins → cur ∈ pins → current_ (versions_ d) = Some cur → Z.of_nat (S (length pins)) < 2 ^ 31 - 1 →
  ∃ d', ref_version cur d = Ok d' ∧ held d'.
Proof.
  intros [H1 H2 H3 (v & Ev & Efv) H5 H6] Hs Hin Ec Hl. destruct (Ref_version_ok _ _ _ _ _ Hs Ev Hl) as (s' & Es & Hs' & Hsb & Eo & _ & Ev').
  unfold ref_version. rewrite Es. unfold mbind, res_bind. eexists. split; [done|]. split; cbn [memtables versions_ env_ table_cache_]; [done|done| | | |done].
  - exists (cur :: pins), cur. change (versions_ _) with s'. rewrite (sb_current _ _ _ Hsb). split; [done|]. split; [done|]. split; by left.
  - eexists. split; [exact Ev'|done].
  - change (versions_ _) with s'. by rewrite Eo.
Qed.

(** ** Statistics *)
Lemma update_stats_ok st d : held d → (∀ f, Version.seek_file st = Some f → f ∈ concat files) →
  ∃ b d', update_stats cur st d = Ok (b, d') ∧ memtables d' = memtables d ∧ set_held d'.
Proof.
  intros [H1 H2 (pins & c & Hs & Ec & Hc & Hcur) (v & Ev & Efv) H5 H6] Hf. unfold update_stats, version. rewrite Ev. cbn [of_option]. unfold mbind, res_bind.
  assert (∀ v' seeks, Version.refs_ v' = Version.refs_ v → Version.files_ v' = Version.files_ v → (∀ a, is_Some (seeks !! a) ↔ is_Some (seeks_of (objects (versions_ d)) !! a)) →
    let s := versions_ d in let s' := set_versions (set_objects s (mkObjects (next_address (objects s)) (refs_of (objects s)) seeks)) (next_version s) (<[cur := v']> (versions s)) (linked s) (current_ s) in set_ok s' [] pins) as Hkeep.
  { intros v' seeks E1 E2 E3. destruct Hs as [[C1 C2 C3] S2 S3 [S4 S4'] S5 S6]. cbn zeta.
    assert (concat (files_of <$> (map_to_list (<[cur := v']> (versions (versions_ d)))).*2) ≡ₚ all_files (versions_ d)) as P by by apply (all_files_update _ cur v v').
    split; cbn [objects versions next_version linked set_versions set_objects].
    - unfold all_files. cbn. eapply (counts_perm _ (all_files (versions_ d))); [by rewrite P|]. split; cbn; [done|intros a; rewrite E3; apply C2|done].
    - intros p. destruct (decide (cur = p)) as [<-|N]; [|rewrite lookup_insert_ne by done; apply S2]. rewrite lookup_insert_eq. specialize (S2 cur). rewrite Ev in S2. by rewrite E1, E2.
    - intros p Hp. apply S3. destruct (decide (cur = p)) as [<-|N]; [by exists v|by rewrite lookup_insert_ne in Hp].
    - split; [done|]. intros p. rewrite S4'. destruct (decide (cur = p)) as [<-|N]; [rewrite lookup_insert_eq, Ev; by split|by rewrite lookup_insert_ne].
    - done.
    - unfold all_files. cbn. by rewrite P. }
  assert (∀ b v' seeks, Version.UpdateStats st v (seeks_of (objects (versions_ d))) = Ok (b, v', seeks) →
    Version.refs_ v' = Version.refs_ v ∧ Version.files_ v' = Version.files_ v ∧ (∀ a, is_Some (seeks !! a) ↔ is_Some (seeks_of (objects (versions_ d)) !! a))) as Hres.
  { intros b v' seeks. unfold Version.UpdateStats, mbind, res_bind. destruct (Version.seek_file st) as [f|]; [|by intros [= _ <- <-]]. destruct (seeks_of (objects (versions_ d)) !! Version.address f) as [x|] eqn:Ex; cbn [of_option]; [|done].
    assert (∀ a y, is_Some (<[Version.address f := y]> (seeks_of (objects (versions_ d))) !! a) ↔ is_Some (seeks_of (objects (versions_ d)) !! a)) as Hdom.
    { intros a y. destruct (decide (Version.address f = a)) as [<-|N]; [rewrite lookup_insert_eq, Ex; by split|by rewrite lookup_insert_ne]. }
    destruct (_ <=? _); [done|]. destruct (Version.file_to_compact_ v); [by intros [= _ <- <-]|]. destruct (_ <=? 0); by intros [= _ <- <-]. }
  assert (∃ b v' seeks, Version.UpdateStats st v (seeks_of (objects (versions_ d))) = Ok (b, v', seeks)) as (b & v' & seeks & Eu).
  { unfold Version.UpdateStats. destruct (Version.seek_file st) as [f|] eqn:Ef; [|by eexists _, _, _]. specialize (Hf f eq_refl).
    assert (is_Some (seeks_of (objects (versions_ d)) !! Version.address f)) as [x Ex].
    { destruct Hs as [[C1 C2 _] _ _ _ _ _]. apply C2. rewrite C1. cbn [app]. rewrite (occurrences_perm _ _ _ (all_files_lookup _ _ _ Ev)).
      destruct (occurrences _ _) eqn:E0; [|done]. exfalso. revert E0. apply occurrences_in, elem_of_app. left. unfold files_of. by rewrite Efv. }
    rewrite Ex. cbn [of_option]. unfold mbind, res_bind. specialize (H5 f x Hf Ex). rewrite (proj2 (Z.leb_gt _ _)) by lia. destruct (Version.file_to_compact_ v); [by eexists _, _, _|]. destruct (_ <=? 0); by eexists _, _, _. }
  rewrite Eu. destruct (Hres _ _ _ Eu) as (E1 & E2 & E3). eexists b, _. split; [done|]. split; [done|]. exists pins, c. split; [by apply Hkeep|]. by split.
Qed.

(** ** Giving back *)
Lemma unref_table_ok p d m : memtables d !! p = Some m → 1 <= refs_ m →
  ∃ d', UnrefMemTable p d = Ok d' ∧ (∀ q, q ≠ p → memtables d' !! q = memtables d !! q) ∧ versions_ d' = versions_ d.
Proof.
  intros Em Hr. unfold UnrefMemTable, memtable, MemTable.Unref. rewrite Em. cbn [of_option refs_]. unfold mbind, res_bind. rewrite (proj2 (Z.leb_le 0 _)) by lia. cbn [SkipList.assert_]. eexists. split; [done|]. split; [|done].
  intros q N. change (memtables (d <| memtables := _ |>)) with (match (if refs_ m - 1 <=? 0 then None else Some (mkMem (refs_ m - 1) (table_ m))) with Some m => <[p := m]> (memtables d) | None => delete p (memtables d) end).
  destruct (_ <=? _); [by apply lookup_delete_ne|by apply lookup_insert_ne].
Qed.
Lemma release_ok d d0 : held d0 → memtables d = memtables d0 → set_held d →
  ∃ d1 d2 d3, UnrefMemTable mem d = Ok d1 ∧ unref_imm imm d1 = Ok d2 ∧ unref_version cur d2 = Ok d3 ∧ ∃ pins, set_ok (versions_ d3) [] pins.
Proof.
  intros [(m & new & Em & _ & _ & Hr) H2 _ _ _ _] Et (pins & c & Hs & _ & _ & Hin). destruct (unref_table_ok mem d m) as (d1 & E1 & Hk & Ev1); [by rewrite Et|done|].
  assert (∃ d2, unref_imm imm d1 = Ok d2 ∧ versions_ d2 = versions_ d) as (d2 & E2 & Ev2).
  { destruct imm as [p|]; [|by exists d1]. destruct H2 as (N & mi & Emi & _ & Hri). destruct (unref_table_ok p d1 mi) as (d2 & E2 & _ & Ev2); [by rewrite Hk, Et|done|]. exists d2. split; [exact E2|congruence]. }
  apply elem_of_Permutation in Hin as (l & P). apply (set_ok_perm _ _ _ _ P) in Hs. rewrite <- Ev2 in Hs. destruct (Unref_ok _ _ _ _ Hs) as (s' & Es & Hs' & _).
  exists d1, d2, (d2 <| versions_ := s' |>). split; [done|]. split; [done|]. split; [|by exists l]. unfold unref_version. by rewrite Es.
Qed.

Lemma schedule_ok d : set_held d → ∃ d', MaybeScheduleCompaction d = Ok d' ∧ memtables d' = memtables d ∧ versions_ d' = versions_ d.
Proof.
  intros Hs. unfold MaybeScheduleCompaction. destruct (bg_compaction_scheduled_ d); [by exists d|]. destruct (shutting_down_ d); [by exists d|]. destruct (negb _); [by exists d|].
  assert (∃ b, match imm_ d, manual_compaction_ d with None, None => NeedsCompaction (versions_ d) | _, _ => Ok true end = Ok b) as (b & ->).
  { destruct (imm_ d); [by exists true|]. destruct (manual_compaction_ d); [by exists true|]. destruct (set_held_version d Hs) as (v & Ev). unfold NeedsCompaction. rewrite Ev. by eexists. }
  unfold mbind, res_bind. destruct b; (eexists; split; [done|]); by destruct d.
Qed.

End read.

(** * An example

    The key 107 has a value in the memory table, a deletion in a file, and a value in an older
    file: the snapshot 8 sees the last one. The other threads read, too: the seed changes. *)
#[local] Instance example_tables_of : TableCache (unit * gmap Z entries) ListIterator := {|
  table_NewIterator o n z w := '(i, c) ← table_NewIterator (TableCache := map_tables) o n z w.2; Ok (i, (w.1, c));
  table_Get o n z k w := '(s, x, c) ← table_Get (TableCache := map_tables) o n z k w.2; Ok (s, x, (w.1, c))
|}.
#[local] Instance file_order : Iterator ListIterator := list_iterator (ord := internal_order bytewise_order).
Definition four : gmap nat Z := <[1%nat := 1]> (<[2%nat := 1]> (<[3%nat := 1]> {[4%nat := 1]})).
Definition read_set : VersionSet := mkSet 10 2 12 3 0 (mkObjects 5 four four) 1 {[0%nat := example_get_version]} [0%nat] (Some 0%nat) (replicate 7 []).
Definition read_mem : MemTable := Eval vm_compute in match (m ← MemTable.new; MemTable.Add Bytewise.BytewiseComparator m 11 Internal.kTypeValue [107] [7]) with Ok m => MemTable.Ref m | _ => mkMem 0 (SkipList.mkList [] 0 0) end.
Definition read_snapshots : Snapshots.SnapshotList := Eval vm_compute in match Snapshots.New 8 Snapshots.new_list with Ok (_, l) => l | _ => Snapshots.new_list end.
Definition read_db : DBImpl (E := unit) (F := unit) (K := gmap Z entries) :=
  mkDB tt example_tables false {[3%nat := read_mem]} 4 (Some 3%nat) None false None 3 0 read_snapshots ∅ false ∅ None read_set None OK ∅ 0 [] WriteBatch.Clear 0.
Definition readers (_ : nat) (d : DBImpl (E := unit) (F := unit) (K := gmap Z entries)) : DBImpl := d <| seed_ := u32 (seed_ d + 1) |>.

Lemma read_set_ok : set_ok read_set [] [0%nat].
Proof.
  assert (all_files read_set = concat (Version.files_ example_get_version)) as Ea by (vm_compute; reflexivity). split; rewrite ?Ea; clear Ea; cbn [versions linked next_version read_set].
  - split.
    + intros a. cbn [refs_of objects read_set]. unfold four. destruct a as [|[|[|[|[|a]]]]]; [by vm_compute..|]. by rewrite !lookup_insert_ne, lookup_singleton_ne by lia.
    + intros a. done.
    + intros f Hf. cbn in Hf. do 4 (apply elem_of_cons in Hf as [->|Hf]; [apply Nat.ltb_lt; reflexivity|]). exfalso. exact (not_elem_of_nil f Hf).
  - intros p. destruct (decide (0%nat = p)) as [<-|N]; [rewrite lookup_singleton_eq; split_and!; by vm_compute|]. rewrite lookup_singleton_ne by done. unfold pinned. cbn. by destruct p.
  - intros p [x [<- _]%lookup_singleton_Some]. lia.
  - split; [repeat constructor; by apply not_elem_of_nil|]. intros p. rewrite list_elem_of_singleton. split; [intros ->; by rewrite lookup_singleton_eq|]. by intros [x [<- _]%lookup_singleton_Some].
  - cbn. lia.
  - cbn. lia.
Qed.
Lemma read_mem_holds : LdbMemTableProps.holds Bytewise.BytewiseComparator read_mem [value_entry [107] 11 7].
Proof.
  destruct (holds_new Bytewise.BytewiseComparator) as (m & Em & Hm & _).
  destruct (holds_add Bytewise.BytewiseComparator (Forall is_byte) bytewise_order m [] (value_entry [107] 11 7) Hm) as (m' & Ea & Hm' & _); [split; [by vm_compute|by vm_compute|cbn; lia|repeat constructor; done|repeat constructor; done]|constructor|].
  assert (read_mem = MemTable.Ref m') as ->; [|by eapply holds_table].
  assert (m = match MemTable.new with Ok m => m | _ => m end) as E by by rewrite Em. vm_compute in E. rewrite E in Ea. vm_compute in Ea. by injection Ea as <-.
Qed.

