(* ===== verification/LdbSnapshotProps.v ===== *)
(** The list of snapshots: a circular list with pointers in both directions is a queue, from
    which any element can be taken; its first element has the oldest number. *)
From Stdlib Require Import Sorting.Sorted.
From S2P Require Import Prelude LdbSkip LdbFormat LdbLog LdbTable LdbVersionSet LdbEnv LdbDb LdbDbCompact.
Import Snapshots.
Implicit Types (m : gmap nat SnapshotImpl) (c : list nat) (l : SnapshotList) (xs : list (nat * Z)).

(** * Chains of pointers *)
Definition nx m (a : nat) : option nat := next_ <$> m !! a.
Definition pv m (a : nat) : option nat := prev_ <$> m !! a.
Fixpoint links m c : Prop :=
  match c with a :: (b :: _) as c' => nx m a = Some b ∧ pv m b = Some a ∧ links m c' | _ => True end.

Lemma links_app m c a c' : links m (c ++ a :: c') ↔ links m (c ++ [a]) ∧ links m (a :: c').
Proof.
  induction c as [|x [|y c] IH]; cbn [app links] in *; [naive_solver|naive_solver|]. rewrite IH. naive_solver.
Qed.
(** The next pointers of all but the last and the previous pointers of all but the first count. *)
Lemma links_frame m m' : ∀ c h, links m (h :: c) → (∀ a, a ∈ removelast (h :: c) → nx m' a = nx m a) → (∀ a, a ∈ c → pv m' a = pv m a) → links m' (h :: c).
Proof.
  induction c as [|b c IH]; intros a H Hn Hp; [done|]. destruct H as (H1 & H2 & H3). split; [rewrite Hn; [done|by left]|]. split; [rewrite Hp; [done|by left]|].
  apply IH; [done|intros x Hx; apply Hn; by right|intros x Hx; apply Hp; by right].
Qed.

Record ring l xs : Prop := {
  ri_nodup : NoDup (0%nat :: xs.*1);
  ri_fresh a : a ∈ 0%nat :: xs.*1 → (a < fresh_address l)%nat;
  ri_links : links (nodes l) (0%nat :: xs.*1 ++ [0%nat]);
  ri_numbers : Forall (λ x : nat * Z, number_ <$> nodes l !! x.1 = Some x.2) xs
}.

Lemma new_ring : ring new_list [].
Proof. split; [repeat constructor; by apply not_elem_of_nil|intros a Ha; apply list_elem_of_singleton in Ha as ->; cbn; lia|done|done]. Qed.

(** The element before the end and the one after the beginning. *)
Lemma last_first m c : links m (0%nat :: c ++ [0%nat]) → pv m 0 = Some (default 0%nat (list.last c)) ∧ nx m 0 = Some (default 0%nat (head c)).
Proof.
  intros H. split; [|destruct c as [|x c]; by destruct H as (H & _)]. destruct c as [|x c _] using rev_ind; [by destruct H as (_ & H & _)|]. rewrite list.last_snoc.
  rewrite <- app_assoc in H. cbn [app] in H. change (0%nat :: c ++ x :: [0%nat]) with ((0%nat :: c) ++ x :: [0%nat]) in H. apply links_app in H as (_ & _ & H & _). done.
Qed.
Lemma nx_Some m a b : nx m a = Some b → ∃ n, m !! a = Some n ∧ next_ n = b.
Proof. unfold nx. destruct (m !! a) as [n|]; [|done]. intros [= <-]. by exists n. Qed.
Lemma pv_Some m a b : pv m a = Some b → ∃ n, m !! a = Some n ∧ prev_ n = b.
Proof. unfold pv. destruct (m !! a) as [n|]; [|done]. intros [= <-]. by exists n. Qed.

Lemma snapshot_next_ok m p n x : m !! p = Some n → let m' := <[p := n <| next_ := x |>]> m in
  nx m' p = Some x ∧ (∀ a, a ≠ p → nx m' a = nx m a) ∧ (∀ a, pv m' a = pv m a) ∧ (∀ a, number_ <$> m' !! a = number_ <$> m !! a).
Proof.
  intros Hn. cbn zeta. unfold nx, pv. split; [by rewrite lookup_insert_eq|]. split; [intros a N; by rewrite lookup_insert_ne|].
  split; intros a; (destruct (decide (p = a)) as [<-|N]; [by rewrite lookup_insert_eq, Hn|by rewrite lookup_insert_ne]).
Qed.
Lemma snapshot_prev_ok m p n x : m !! p = Some n → let m' := <[p := n <| prev_ := x |>]> m in
  pv m' p = Some x ∧ (∀ a, a ≠ p → pv m' a = pv m a) ∧ (∀ a, nx m' a = nx m a) ∧ (∀ a, number_ <$> m' !! a = number_ <$> m !! a).
Proof.
  intros Hn. cbn zeta. unfold nx, pv. split; [by rewrite lookup_insert_eq|]. split; [intros a N; by rewrite lookup_insert_ne|].
  split; intros a; (destruct (decide (p = a)) as [<-|N]; [by rewrite lookup_insert_eq, Hn|by rewrite lookup_insert_ne]).
Qed.

Lemma change_ok p g l n : nodes l !! p = Some n → change p g l = Ok (mkList (<[p := g n]> (nodes l)) (fresh_address l)).
Proof. intros Hn. unfold change, node. by rewrite Hn. Qed.

(** * The operations *)
Lemma ends_ok l xs : ring l xs → empty l = Ok (bool_decide (xs = [])) ∧
  ∀ x xs', xs = x :: xs' → ∃ a b, oldest l = Ok a ∧ number_ a = x.2 ∧ newest l = Ok b ∧ number_ b = (List.last xs x).2.
Proof.
  intros [Hd Hf Hl Hx]. destruct (last_first _ _ Hl) as [(h & Eh & Ep)%pv_Some (h' & Eh' & En)%nx_Some]. rewrite Eh in Eh'. injection Eh' as <-.
  assert (empty l = Ok (bool_decide (xs = []))) as Ee.
  { unfold empty, node. rewrite Eh. unfold mbind, res_bind. cbn [of_option]. rewrite En. destruct xs as [|[a n] xs]; [done|]. change (Ok (a =? 0)%nat = Ok (bool_decide ((a, n) :: xs = []))).
    rewrite bool_decide_eq_false_2 by done. f_equal. apply Nat.eqb_neq. intros ->. apply list.NoDup_cons in Hd as [Hd _]. apply Hd. by left. }
  split; [done|]. intros [a n] xs' ->. unfold oldest, newest. rewrite Ee. rewrite bool_decide_eq_false_2 by done. cbn [negb SkipList.assert_]. unfold node. rewrite Eh. unfold mbind, res_bind. cbn [of_option].
  change (next_ h = a) in En. rewrite En, Ep.
  pose proof Hx as Hx'. apply list.Forall_cons in Hx' as [H1 _]. cbn [fst snd] in H1. destruct (nodes l !! a) as [na|] eqn:Ea; [|done]. injection H1 as H1.
  assert (∃ b, list.last ((a, n) :: xs') = Some b ∧ List.last ((a, n) :: xs') (a, n) = b) as (b & Eb & Eb').
  { destruct (list.last ((a, n) :: xs')) as [b|] eqn:Eb; [|by apply list.last_None in Eb]. exists b. split; [done|]. apply last_Some in Eb as (l' & ->). apply List.last_last. }
  rewrite Eb', fmap_last, Eb. change (default 0%nat (fst <$> Some b)) with b.1.
  assert (number_ <$> nodes l !! b.1 = Some b.2) as H2. { rewrite list.Forall_forall in Hx. apply Hx. by apply last_Some_elem_of. }
  destruct (nodes l !! b.1) as [nb|] eqn:Enb; [|done]. injection H2 as H2. by exists na, nb.
Qed.

Lemma New_ok seq l xs : ring l xs → ∃ s l', New seq l = Ok (s, l') ∧ s = fresh_address l ∧ ring l' (xs ++ [(s, seq)]).
Proof.
  intros [Hd Hf Hl Hx]. destruct (last_first _ _ Hl) as [(h & Eh & Ep)%pv_Some _]. set (s := fresh_address l) in *. set (p := default 0%nat (list.last xs.*1)) in *.
  assert (p ∈ 0%nat :: xs.*1) as Hp by (unfold p; destruct (list.last xs.*1) as [a|] eqn:Ea; [right; by apply last_Some_elem_of|by left]).
  assert (∀ a, a ∈ 0%nat :: xs.*1 → a ≠ s) as Hs by (intros a Ha ->; apply Hf in Ha; unfold s in Ha; lia).
  assert (∃ c, 0%nat :: xs.*1 = c ++ [p] ∧ p ∉ c) as (c & Ec & Nc).
  { assert (list.last (0%nat :: xs.*1) = Some p) as Ela by (unfold p; rewrite list.last_cons; by destruct (list.last xs.*1)). apply last_Some in Ela as (c & Ec). exists c. split; [done|].
    rewrite Ec in Hd. apply list.NoDup_app in Hd as (_ & Hd & _). intros Hin. apply (Hd p Hin). by left. }
  assert (∃ np, nodes l !! p = Some np) as (np & Enp).
  { change (0%nat :: xs.*1 ++ [0%nat]) with ((0%nat :: xs.*1) ++ [0%nat]) in Hl. rewrite Ec, <- app_assoc in Hl. apply links_app in Hl as (_ & Hl & _). apply nx_Some in Hl as (np & ? & _). by exists np. }
  unfold New, node. rewrite Eh. unfold mbind, res_bind. cbn [of_option]. rewrite Ep. fold s. set (m1 := <[s := mkSnapshot seq p 0]> (nodes l)).
  rewrite (change_ok p _ _ np) by (cbn [nodes]; unfold m1; by rewrite lookup_insert_ne by (symmetry; by apply Hs)). cbn [nodes fresh_address]. set (m2 := <[p := _]> m1).
  assert (∃ n0, m2 !! 0%nat = Some n0) as (n0 & En0).
  { unfold m2, m1. destruct (decide (p = 0%nat)) as [->|N0]; [rewrite lookup_insert_eq; by eexists|]. exists h. assert (s ≠ 0%nat) by (intros E0; by apply (Hs 0%nat); [left|]). by rewrite !lookup_insert_ne by done. }
  rewrite (change_ok 0 _ _ n0) by done. eexists s, _. split; [done|]. split; [done|]. cbn [nodes fresh_address]. set (m3 := <[0%nat := _]> m2).
  assert (∀ a, a ≠ p → a ≠ s → nx m3 a = nx (nodes l) a) as Hnx.
  { intros a N1 N2. unfold nx, m3. destruct (decide (0%nat = a)) as [<-|N0].
    - rewrite lookup_insert_eq. cbn. unfold m2, m1 in En0. rewrite !lookup_insert_ne in En0 by congruence. by rewrite En0.
    - rewrite lookup_insert_ne by done. unfold m2, m1. by rewrite !lookup_insert_ne by congruence. }
  assert (∀ a, a ≠ 0%nat → a ≠ s → pv m3 a = pv (nodes l) a) as Hpv.
  { intros a N1 N2. unfold pv, m3. rewrite lookup_insert_ne by done. unfold m2. destruct (decide (p = a)) as [<-|N]; [rewrite lookup_insert_eq, Enp; done|]. unfold m1. by rewrite !lookup_insert_ne by congruence. }
  assert (∀ a, a ≠ s → number_ <$> m3 !! a = number_ <$> nodes l !! a) as Hnum.
  { intros a N2. unfold m3. destruct (decide (0%nat = a)) as [<-|N0].
    - rewrite lookup_insert_eq. cbn. unfold m2, m1 in En0. destruct (decide (p = 0%nat)) as [E0|Np].
      + rewrite E0, lookup_insert_eq in En0. injection En0 as <-. rewrite E0 in Enp. by rewrite Enp.
      + rewrite !lookup_insert_ne in En0 by congruence. by rewrite En0.
    - rewrite lookup_insert_ne by done. unfold m2. destruct (decide (p = a)) as [<-|N]; [rewrite lookup_insert_eq, Enp; done|]. unfold m1. by rewrite !lookup_insert_ne by congruence. }
  assert (pv m3 0 = Some s) as P0 by (unfold pv, m3; by rewrite lookup_insert_eq).
  assert (nx m3 p = Some s) as Pp.
  { unfold nx, m3. unfold m2 in En0. destruct (decide (p = 0%nat)) as [E0|N0]; [rewrite E0, lookup_insert_eq in *; by injection En0 as <-|]. rewrite lookup_insert_ne by done. unfold m2. by rewrite lookup_insert_eq. }
  assert (nx m3 s = Some 0%nat ∧ pv m3 s = Some p ∧ number_ <$> m3 !! s = Some seq) as (Ps1 & Ps2 & Ps3).
  { unfold nx, pv, m3, m2, m1. rewrite !lookup_insert_ne by (apply Hs; (exact Hp || by left)). by rewrite lookup_insert_eq. }
  assert (∀ a, a ∈ xs.*1 → a ≠ 0%nat ∧ a ≠ s) as Hxs.
  { intros a Ha. split; [intros ->; apply list.NoDup_cons in Hd as [Hd _]; done|apply Hs; by right]. }
  assert (0%nat :: (xs ++ [(s, seq)]).*1 = (0%nat :: xs.*1) ++ [s]) as Eapp by by rewrite fmap_app.
  split; cbn [nodes fresh_address].
  - rewrite Eapp. apply list.NoDup_app. split; [done|]. split; [|repeat constructor; by apply not_elem_of_nil].
    intros a Ha E%list_elem_of_singleton. by apply (Hs a).
  - intros a. rewrite Eapp. intros [Ha| ->%list_elem_of_singleton]%elem_of_app; [apply Hf in Ha; unfold s; lia|lia].
  - rewrite fmap_app, <- app_assoc. cbn [fmap list_fmap app fst]. change (0%nat :: xs.*1 ++ [s; 0%nat]) with ((0%nat :: xs.*1) ++ [s; 0%nat]). rewrite Ec, <- app_assoc. cbn [app]. apply links_app. split; [|by split].
    rewrite <- Ec. apply (links_frame (nodes l)).
    + change (0%nat :: xs.*1 ++ [0%nat]) with ((0%nat :: xs.*1) ++ [0%nat]) in Hl. rewrite Ec, <- app_assoc in Hl. apply links_app in Hl as [Hl _]. by rewrite Ec.
    + rewrite Ec, removelast_last. intros a Ha. apply Hnx; [intros ->; done|]. apply Hs. rewrite Ec. apply elem_of_app. by left.
    + intros a Ha. by apply Hpv; apply Hxs.
  - apply List.Forall_app. split; [|by repeat constructor]. rewrite list.Forall_forall in Hx |- *. intros x Hin. rewrite Hnum; [by apply Hx|]. apply Hxs. by apply list_elem_of_fmap_2.
Qed.

Lemma Delete_ok l xs1 s n xs2 : ring l (xs1 ++ (s, n) :: xs2) → ∃ l', Delete s l = Ok l' ∧ ring l' (xs1 ++ xs2).
Proof.
  intros [Hd Hf Hl Hx]. rewrite fmap_app in Hd, Hf, Hl. cbn [fmap list_fmap fst] in Hd, Hf, Hl. set (a1 := xs1.*1) in *. set (a2 := xs2.*1) in *.
  assert (∃ c p, 0%nat :: a1 = c ++ [p]) as (c & p & Ec). { destruct (list.last (0%nat :: a1)) as [p|] eqn:Ela; [apply last_Some in Ela as (c & Ec); by exists c, p|by apply list.last_None in Ela]. }
  assert (∃ q c', a2 ++ [0%nat] = q :: c') as (q & c' & Eq) by (destruct a2; by eexists _, _).
  assert (0%nat :: (a1 ++ s :: a2) ++ [0%nat] = c ++ p :: s :: q :: c') as Eall by (rewrite <- Eq, <- app_assoc; change (0%nat :: a1 ++ (s :: a2) ++ [0%nat]) with ((0%nat :: a1) ++ s :: a2 ++ [0%nat]); by rewrite Ec, <- app_assoc).
  assert (0%nat :: (a1 ++ a2) ++ [0%nat] = c ++ p :: q :: c') as Eall' by (rewrite <- Eq, <- app_assoc; change (0%nat :: a1 ++ a2 ++ [0%nat]) with ((0%nat :: a1) ++ a2 ++ [0%nat]); by rewrite Ec, <- app_assoc).
  rewrite Eall in Hl. apply links_app in Hl as [Hl1 (Hpn & Hsp & Hsn & Hqp & Hl2)].
  change (0%nat :: a1 ++ s :: a2) with ((0%nat :: a1) ++ s :: a2) in Hd, Hf. apply list.NoDup_app in Hd as (Hd1 & Hd12 & [Hsa Hd2]%list.NoDup_cons).
  assert (p ∈ 0%nat :: a1) as Hp by (rewrite Ec; apply elem_of_app; right; by left). assert (0%nat ∈ 0%nat :: a1) as H0 by by left.
  assert (∀ a, a ∈ 0%nat :: a1 → a ≠ s ∧ a ∉ a2) as Ha1 by (intros a Ha; split; [intros ->; apply (Hd12 s Ha); by left|intros Hin; apply (Hd12 a Ha); by right]).
  assert (∀ a, a ∈ a2 → a ≠ s) as Ha2 by (by intros a Ha ->).
  assert (∀ a, a ∈ a1 → a ≠ 0%nat) as Ha0 by (intros a Ha ->; by apply list.NoDup_cons in Hd1 as [? _]).
  assert (p ∉ c) as Npc. { rewrite Ec in Hd1. apply list.NoDup_app in Hd1 as (_ & Hd1 & _). intros Hin. apply (Hd1 p Hin). by left. }
  assert (q = 0%nat ∨ q ∈ a2) as Hq by (destruct a2; injection Eq as <- _; [by left|right; by left]).
  assert (s ≠ q) as Nsq by (destruct Hq as [->|Hq]; [intros ->; by destruct (Ha1 0%nat H0)|intros ->; by apply (Ha2 q)]).
  assert (q ∉ c') as Nqc. { destruct a2 as [|x a2]; injection Eq as <- <-; [by apply not_elem_of_nil|]. apply list.NoDup_cons in Hd2 as [Hd2 _]. intros [Hin|Hin%list_elem_of_singleton]%elem_of_app; [done|]. subst x. destruct (Ha1 0%nat H0) as [_ N]. apply N. by left. }
  apply nx_Some in Hsn as (ns & Ens & Esn). pose proof Hsp as (ns' & Ens' & Esp)%pv_Some. rewrite Ens in Ens'. injection Ens' as <-. apply nx_Some in Hpn as (np & Enp & _).
  unfold Delete, node. rewrite Ens. unfold mbind, res_bind. cbn [of_option]. rewrite Esn, Esp, (change_ok p _ l np Enp). cbn [nodes fresh_address].
  destruct (snapshot_next_ok (nodes l) p np q Enp) as (A1 & A2 & A3 & A4). set (m1 := <[p := _]> (nodes l)) in *. rewrite <- A3 in Hqp. pose proof Hqp as (nq & Enq & _)%pv_Some.
  rewrite (change_ok q _ _ nq) by done. cbn [nodes fresh_address]. destruct (snapshot_prev_ok m1 q nq p Enq) as (B1 & B2 & B3 & B4). set (m2 := <[q := _]> m1) in *.
  eexists. split; [done|]. assert (∀ a, a ≠ s → base.delete s m2 !! a = m2 !! a) as Hdel by (intros a N; by apply lookup_delete_ne).
  assert (∀ a, a ≠ s → nx (base.delete s m2) a = nx m2 a ∧ pv (base.delete s m2) a = pv m2 a) as Hdel2 by (intros a N; unfold nx, pv; by rewrite Hdel).
  split; cbn [nodes fresh_address]; rewrite ?fmap_app; fold a1 a2.
  - change (0%nat :: a1 ++ a2) with ((0%nat :: a1) ++ a2). apply list.NoDup_app. split; [done|]. split; [|done]. intros a Ha. by apply Ha1.
  - intros a Ha. apply Hf. change (0%nat :: a1 ++ a2) with ((0%nat :: a1) ++ a2) in Ha. apply elem_of_app in Ha as [Ha|Ha]; apply elem_of_app; [by left|right; by right].
  - rewrite Eall'. apply links_app. split; [|split; [|split]].
    + rewrite <- Ec in Hl1 |- *. apply (links_frame (nodes l)); [done| |].
      * rewrite Ec, removelast_last. intros a Ha. assert (a ∈ 0%nat :: a1) as Ha' by (rewrite Ec; apply elem_of_app; by left). destruct (Ha1 a Ha') as [N _]. rewrite (proj1 (Hdel2 a N)), B3. apply A2. by intros ->.
      * intros a Ha. destruct (Ha1 a) as [N N2]; [by right|]. rewrite (proj2 (Hdel2 a N)), B2, A3; [done|]. intros ->. destruct Hq as [->|Hq]; [by apply (Ha0 0%nat)|done].
    + destruct (Ha1 p Hp) as [N _]. rewrite (proj1 (Hdel2 p N)), B3. done.
    + rewrite (proj2 (Hdel2 q ltac:(congruence))). done.
    + apply (links_frame (nodes l)); [done| |].
      * rewrite <- Eq, removelast_last. intros a Ha. rewrite (proj1 (Hdel2 a (Ha2 a Ha))), B3. apply A2. intros ->. by destruct (Ha1 p Hp).
      * intros a Ha. assert (a ≠ s) as N. { assert (a ∈ a2 ++ [0%nat]) as Hin by (rewrite Eq; by right). apply elem_of_app in Hin as [Hin|Hin%list_elem_of_singleton]; [by apply Ha2|]. subst a. by apply (Ha1 0%nat H0). }
        rewrite (proj2 (Hdel2 a N)), B2, A3; [done|]. by intros ->.
  - apply List.Forall_app in Hx as [Hx1 Hx2]. apply list.Forall_cons in Hx2 as [_ Hx2].
    assert (∀ x : nat * Z, x ∈ xs1 ++ xs2 → x.1 ≠ s) as Ns. { intros x [Hin|Hin]%elem_of_app; [apply Ha1; right|apply Ha2]; by apply list_elem_of_fmap_2. }
    apply list.Forall_forall. intros x Hin. rewrite Hdel by by apply Ns. rewrite B4, A4. apply elem_of_app in Hin. rewrite list.Forall_forall in Hx1, Hx2. destruct Hin as [Hin|Hin]; [by apply Hx1|by apply Hx2].
Qed.

(** * Any calls

    A list of addresses and numbers says what the snapshots are. *)
Inductive snapshot_call := Acquire (seq : Z) | Drop (s : nat).
Definition exec (c : snapshot_call) (l : SnapshotList) : res SnapshotList :=
  match c with Acquire seq => '(_, l) ← New seq l; Ok l | Drop s => Delete s l end.
Fixpoint run (cs : list snapshot_call) (l : SnapshotList) : res SnapshotList :=
  match cs with [] => Ok l | c :: cs => l ← exec c l; run cs l end.
Fixpoint live (cs : list snapshot_call) (fresh : nat) (xs : list (nat * Z)) : option (list (nat * Z)) :=
  match cs with
  | [] => Some xs
  | Acquire seq :: cs => live cs (S fresh) (xs ++ [(fresh, seq)])
  | Drop s :: cs => if bool_decide (s ∈ xs.*1) then live cs fresh (filter (λ x, x.1 ≠ s) xs) else None
  end.

Lemma New_fresh seq l s l' : New seq l = Ok (s, l') → fresh_address l' = S (fresh_address l).
Proof.
  unfold New, change, node, mbind, res_bind. cbn [nodes fresh_address]. destruct (nodes l !! 0%nat); [|done]. cbn [of_option].
  destruct (_ !! prev_ _); [|done]. cbn [of_option nodes fresh_address]. destruct (_ !! 0%nat); [|done]. by intros [= _ <-].
Qed.
Lemma Delete_fresh s l l' : Delete s l = Ok l' → fresh_address l' = fresh_address l.
Proof.
  unfold Delete, change, node, mbind, res_bind. destruct (nodes l !! s); [|done]. cbn [of_option]. destruct (nodes l !! prev_ _); [|done]. cbn [of_option nodes fresh_address]. destruct (_ !! next_ _); [|done]. by intros [= <-].
Qed.
Lemma drop_one xs s : NoDup xs.*1 → s ∈ xs.*1 → ∃ xs1 n xs2, xs = xs1 ++ (s, n) :: xs2 ∧ filter (λ x : nat * Z, x.1 ≠ s) xs = xs1 ++ xs2.
Proof.
  intros Hd ([s' n] & E & Hin)%list_elem_of_fmap. cbn in E. subst s'. apply list_elem_of_split in Hin as (xs1 & xs2 & ->). exists xs1, n, xs2. split; [done|].
  rewrite fmap_app in Hd. cbn [fmap list_fmap fst] in Hd. apply list.NoDup_app in Hd as (_ & H1 & [H2 _]%list.NoDup_cons).
  assert (∀ ys : list (nat * Z), s ∉ ys.*1 → filter (λ x : nat * Z, x.1 ≠ s) ys = ys) as Hkeep.
  { intros ys Hl. induction ys as [|[a z] ys IH]; [done|]. cbn in Hl. apply not_elem_of_cons in Hl as [N Hl]. rewrite filter_cons_True by (cbn; congruence). by rewrite IH. }
  rewrite list.filter_app, filter_cons_False by (cbn; by intros N). rewrite !Hkeep; [done|done|]. intros Hin. apply (H1 s Hin). by left.
Qed.

Lemma run_ok cs : ∀ l xs xs', ring l xs → live cs (fresh_address l) xs = Some xs' → ∃ l', run cs l = Ok l' ∧ ring l' xs'.
Proof.
  induction cs as [|[seq|s] cs IH]; intros l xs xs' Hr Hl; cbn [live run exec] in *.
  - injection Hl as <-. by exists l.
  - destruct (New_ok seq l xs Hr) as (s & l' & E & -> & Hr'). rewrite E. unfold mbind, res_bind. eapply IH; [exact Hr'|]. by rewrite (New_fresh _ _ _ _ E).
  - case_bool_decide as Hin; [|done]. pose proof (ri_nodup _ _ Hr) as [_ Hd]%list.NoDup_cons. destruct (drop_one xs s Hd Hin) as (xs1 & n & xs2 & -> & Ef). rewrite Ef in Hl.
    destruct (Delete_ok l xs1 s n xs2 Hr) as (l' & E & Hr'). rewrite E. unfold mbind, res_bind. eapply IH; [exact Hr'|]. by rewrite (Delete_fresh _ _ _ E).
Qed.

(** C40: snapshots. Any calls that take new snapshots and give back those that are there
    succeed, in any order; then the list is empty just if all were given back, and otherwise
    its ends are the first and the last of those that are left. If numbers do not decrease
    then compactions respect all snapshots: the number from which on entries can be hidden
    is at most that of every snapshot, and the last sequence number if there are none. *)
Theorem snapshots_correct {E F K : Type} cs xs (d : Db.DBImpl (E := E) (F := F) (K := K)) : live cs 1 [] = Some xs →
  ∃ l, run cs new_list = Ok l ∧ empty l = Ok (bool_decide (xs = [])) ∧
    (∀ x xs', xs = x :: xs' → ∃ a b, oldest l = Ok a ∧ number_ a = x.2 ∧ newest l = Ok b ∧ number_ b = (List.last xs x).2) ∧
    (Db.snapshots_ d = l → StronglySorted Z.le (xs.*2 ++ [VersionSet.last_sequence_ (Db.versions_ d)]) →
       ∃ n, DbCompact.oldest_snapshot d = Ok n ∧ Forall (λ k, n <= k) (xs.*2 ++ [VersionSet.last_sequence_ (Db.versions_ d)]) ∧ n ∈ xs.*2 ++ [VersionSet.last_sequence_ (Db.versions_ d)]).
Proof.
  intros Hl. destruct (run_ok cs new_list [] xs new_ring Hl) as (l & Erun & Hr). destruct (ends_ok l xs Hr) as [He Hends]. exists l. split; [done|]. split; [done|]. split; [done|].
  intros Ed Hs. unfold DbCompact.oldest_snapshot. rewrite Ed, He. unfold mbind, res_bind. destruct xs as [|x xs].
  - eexists. split; [done|]. cbn. split; [by repeat constructor|by left].
  - rewrite bool_decide_eq_false_2 by done. destruct (Hends x xs eq_refl) as (a & b & -> & En & _). exists x.2. split; [by rewrite En|]. cbn [fmap list_fmap app] in Hs |- *. split; [|by left].
    apply StronglySorted_inv in Hs as [_ Hs]. constructor; [lia|done].
Qed.

Definition snapshot_calls : list snapshot_call := [Acquire 3; Acquire 5; Acquire 5; Drop 1; Acquire 8; Drop 3].
Lemma snapshots_correct_witness : live snapshot_calls 1 [] = Some [(2%nat, 5); (4%nat, 8)] ∧
  ∃ l a b, run snapshot_calls new_list = Ok l ∧ oldest l = Ok a ∧ number_ a = 5 ∧ newest l = Ok b ∧ number_ b = 8.
Proof.
  assert (live snapshot_calls 1 [] = Some [(2%nat, 5); (4%nat, 8)]) as E by (vm_compute; reflexivity). split; [done|].
  destruct (snapshots_correct (E := unit) (F := unit) (K := unit) snapshot_calls [(2%nat, 5); (4%nat, 8)] (Db.mkDB tt tt false ∅ 0 None None false None 0 0 new_list ∅ false ∅ None
    (VersionSet.mkSet 2 0 0 0 0 (VersionSet.mkObjects 0 ∅ ∅) 0 ∅ [] None []) None Status.OK ∅ 0 [] [] 0) E) as (l & Er & _ & Hends & _).
  destruct (Hends (2%nat, 5) [(4%nat, 8)] eq_refl) as (a & b & Ea & Ena & Eb & Enb). exists l, a, b. split; [exact Er|]. split; [exact Ea|]. split; [exact Ena|]. split; [exact Eb|exact Enb].
Defined.
