(* ===== verification/LdbCompactReadProps.v ===== *)
(** Compactions and reads: the version that a compaction makes answers lookups as the one
    before, at all snapshots from the oldest one on. *)
From Stdlib Require Import Sorting.Sorted.
From stdpp Require Import sorting.
From S2P Require Import Prelude LdbSkip LdbSkipLemmas LdbFormat LdbCodingProps LdbOrder LdbKeyProps LdbMemTable LdbMemTableProps LdbIterator LdbTable LdbVersionEdit LdbVersion LdbVersionProps LdbVersionGet LdbVersionSet LdbVersionSetProps LdbCompaction LdbCompactionProps LdbEnv LdbDb LdbDbCompact LdbDropProps LdbDbCompactProps.
Import MemTable Version Compaction DbCompact.

Lemma sorted_sublist {A} (R : A → A → Prop) k l : sublist k l → StronglySorted R l → StronglySorted R k.
Proof.
  induction 1 as [|x k l Hs IH|x k l Hs IH]; intros H; [done| |].
  - apply StronglySorted_inv in H as [H Hx]. constructor; [by apply IH|]. rewrite list.Forall_forall in Hx |- *. intros y Hy. by apply Hx, (sublist_subseteq k).
  - apply StronglySorted_inv in H as [H _]. by apply IH.
Qed.

(** * What the edit of a compaction says *)
Lemma elem_set_insert x y l : x ∈ VersionEdit.set_insert y l ↔ x = y ∨ x ∈ l.
Proof.
  induction l as [|z l IH]; cbn [VersionEdit.set_insert]; [rewrite list_elem_of_singleton, elem_of_nil; tauto|].
  destruct (VersionEdit.pair_less y z) eqn:E1; [by rewrite elem_of_cons|]. destruct (VersionEdit.pair_less z y) eqn:E2; [rewrite !elem_of_cons, IH; naive_solver|].
  assert (y = z) as ->; [|rewrite elem_of_cons; naive_solver]. destruct y as [y1 y2], z as [z1 z2]. unfold VersionEdit.pair_less in *. cbn [fst snd] in *.
  destruct (Z.ltb_spec y1 z1), (Z.eqb_spec y1 z1), (Z.ltb_spec y2 z2), (Z.ltb_spec z1 y1), (Z.eqb_spec z1 y1), (Z.ltb_spec z2 y2); try done; f_equal; lia.
Qed.

Lemma delete_files_ok level l e : VersionEdit.new_files_ (delete_files level l e) = VersionEdit.new_files_ e ∧
  ∀ x, x ∈ VersionEdit.deleted_files_ (delete_files level l e) ↔ x ∈ VersionEdit.deleted_files_ e ∨ ∃ f, f ∈ l ∧ x = (level, number (meta f)).
Proof.
  revert e. induction l as [|f l IH]; intros e; cbn [delete_files foldl]; [split; [done|]; intros x; split; [by left|]; intros [?|(f & Hf & _)]; [done|by apply not_elem_of_nil in Hf]|].
  destruct (IH (VersionEdit.DeleteFile level (number (meta f)) e)) as [E H]. split; [exact E|]. intros x. rewrite H. cbn [VersionEdit.DeleteFile VersionEdit.set_lists VersionEdit.deleted_files_]. rewrite elem_set_insert. split.
  - intros [[->|Hx]|(g & Hg & ->)]; [right; exists f; split; [by left|done]|by left|right; exists g; split; [by right|done]].
  - intros [Hx|(g & [->|Hg]%elem_of_cons & ->)]; [left; by right|left; by left|right; by exists g].
Qed.

(** The file that an output is. *)
Definition output_file (out : Output) : File := mkFilePtr 0 (VersionEdit.new_file (out_number out) (default 0 (out_size out)) (out_smallest out) (out_largest out)).

Lemma add_outputs_ok level outs : ∀ e e', add_outputs level outs e = Ok e' → VersionEdit.deleted_files_ e' = VersionEdit.deleted_files_ e ∧
  VersionEdit.new_files_ e' = VersionEdit.new_files_ e ++ ((λ out, (level, meta (output_file out))) <$> outs).
Proof.
  induction outs as [|out outs IH]; intros e e'; cbn [add_outputs]; [intros [= <-]; by rewrite app_nil_r|].
  unfold mbind, res_bind. destruct (out_size out) as [z|] eqn:Ez; [|done]. cbn [of_option]. intros H. destruct (IH _ _ H) as [E En]. split; [exact E|].
  rewrite En, fmap_cons. unfold output_file at 2. rewrite Ez. unfold VersionEdit.AddFile, VersionEdit.push_file. cbn [VersionEdit.new_files_ VersionEdit.set_lists]. by rewrite <- app_assoc.
Qed.

(** The numbers that a level has after an edit. *)
Lemma edited_numbers L e l n : is_Some (edited L e l !! n) ↔
  (∃ x, x ∈ VersionEdit.new_files_ e ∧ Z.to_nat x.1 = l ∧ number x.2 = n) ∨ is_Some (L l !! n) ∧ ¬ ∃ x, x ∈ VersionEdit.deleted_files_ e ∧ Z.to_nat x.1 = l ∧ x.2 = n.
Proof.
  assert (∀ d (M : Levels), is_Some (foldl remove_file M d l !! n) ↔ is_Some (M l !! n) ∧ ¬ ∃ x, x ∈ d ∧ Z.to_nat x.1 = l ∧ x.2 = n) as Hdel.
  { induction d as [|[lv k] d IH]; intros M; cbn [foldl]; [split; [intros H; split; [done|]; intros (x & Hx & _); by apply not_elem_of_nil in Hx|by intros [? _]]|].
    rewrite IH. unfold remove_file at 1, at_level. cbn [fst snd]. destruct (Nat.eqb_spec l (Z.to_nat lv)) as [El|Nl].
    - destruct (decide (k = n)) as [->|Nk].
      + rewrite lookup_delete_eq. split; [intros [[? ?] _]; done|]. intros [_ H]. destruct H. exists (lv, n). split; [by left|done].
      + rewrite lookup_delete_ne by done. split; (intros [H1 H2]; split; [done|]); intros (x & Hx & H3); apply H2; [|exists x; split; [by right|done]].
        apply elem_of_cons in Hx as [->|Hx]; [cbn in H3; destruct H3 as [_ ?]; congruence|]. by exists x.
    - split; (intros [H1 H2]; split; [done|]); intros (x & Hx & H3); apply H2; [|exists x; split; [by right|done]].
      apply elem_of_cons in Hx as [->|Hx]; [cbn in H3; destruct H3 as [? _]; congruence|]. by exists x. }
  unfold edited. rewrite <- Hdel. generalize (foldl remove_file L (VersionEdit.deleted_files_ e)). induction (VersionEdit.new_files_ e) as [|[lv f] fs IH]; intros M; cbn [foldl].
  - split; [by right|]. intros [(x & Hx & _)|?]; [by apply not_elem_of_nil in Hx|done].
  - rewrite IH. unfold put_file at 1, at_level. cbn [fst snd]. destruct (Nat.eqb_spec l (Z.to_nat lv)) as [El|Nl].
    + destruct (decide (number f = n)) as [En|Nn].
      * split; [|by intros _; right; rewrite En, lookup_insert_eq]. intros _. left. exists (lv, f). split; [by left|done].
      * rewrite lookup_insert_ne by done. split; (intros [(x & Hx & H)|H]; [left|by right]); [exists x; split; [by right|done]|].
        apply elem_of_cons in Hx as [->|Hx]; [destruct H as [_ ?]; done|by exists x].
    + split; (intros [(x & Hx & H)|H]; [left|by right]); [exists x; split; [by right|done]|]. apply elem_of_cons in Hx as [->|Hx]; [destruct H as [? _]; cbn in *; congruence|by exists x].
Qed.

(** What a file of an edited level is: a new one, or one that was there and stays. *)
Lemma edited_data L e l n d : edited L e l !! n = Some d →
  (∃ x, x ∈ VersionEdit.new_files_ e ∧ Z.to_nat x.1 = l ∧ number x.2 = n ∧ data_of x.2 = d) ∨
  L l !! n = Some d ∧ ¬ ∃ x, x ∈ VersionEdit.deleted_files_ e ∧ Z.to_nat x.1 = l ∧ x.2 = n.
Proof.
  assert (∀ d0 (M : Levels), foldl remove_file M d0 l !! n = Some d → M l !! n = Some d ∧ ¬ ∃ x, x ∈ d0 ∧ Z.to_nat x.1 = l ∧ x.2 = n) as Hdel.
  { induction d0 as [|[lv k] d0 IH]; intros M; cbn [foldl]; [intros H; split; [done|]; intros (x & Hx & _); by apply not_elem_of_nil in Hx|].
    intros [H1 H2]%IH. unfold remove_file, at_level in H1. cbn [fst snd] in H1. destruct (Nat.eqb_spec l (Z.to_nat lv)) as [El|Nl].
    - apply lookup_delete_Some in H1 as [Nk H1]. split; [done|]. intros (x & [->|Hx]%elem_of_cons & E1 & E2); [done|]. apply H2. by exists x.
    - split; [done|]. intros (x & [->|Hx]%elem_of_cons & E1 & E2); [by cbn in E1; congruence|]. apply H2. by exists x. }
  unfold edited. intros H. assert (∀ fs (M : Levels), foldl put_file M fs l !! n = Some d →
    (∃ x, x ∈ fs ∧ Z.to_nat x.1 = l ∧ number x.2 = n ∧ data_of x.2 = d) ∨ M l !! n = Some d) as Hput.
  { induction fs as [|[lv f] fs IH]; intros M; cbn [foldl]; [by right|]. intros [(x & Hx & Hr)|H1]%IH; [left; exists x; split; [by right|done]|].
    unfold put_file, at_level in H1. cbn [fst snd] in H1. destruct (Nat.eqb_spec l (Z.to_nat lv)) as [El|Nl]; [|by right].
    apply lookup_insert_Some in H1 as [[En Ed]|[_ H1]]; [|by right]. left. exists (lv, f). split; [by left|]. by split_and!. }
  apply Hput in H as [H|H]; [by left|right]. by apply Hdel.
Qed.

(** * Versions *)
Section edit.
Context (C : SliceComparator) (valid : bytes → Prop) (ord : Comparator bytes) `{!Lawful C (λ _, True) valid ord}.
Context (stored : Z → Z → entries → Prop) (cont : Z → list entry).
#[local] Instance iord : Comparator bytes := internal_order ord.
#[local] Abbreviation kcmp := (@compare_ bytes iord).
#[local] Abbreviation ucmp := (@compare_ bytes ord).
#[local] Abbreviation num := (λ f, number (meta f)).
#[local] Abbreviation entry_less := (λ a b, entry_cmp ord a b < 0).
#[local] Abbreviation below := (below ord).
Implicit Types (f g : File) (files : list File) (e x : entry) (es R M : list entry) (out : Output).
#[local] Instance iorder : Order bytes (H := iord).
Proof. exact (iord_order C valid ord). Qed.
#[local] Instance uorder : Order bytes (H := ord).
Proof. exact (uorder C valid ord). Qed.

(** The entries of a file are those of its number. *)
Definition content f : list entry := cont (num f).
#[local] Abbreviation file_holds := (file_holds ord stored content).
#[local] Abbreviation version_holds := (version_holds ord stored content).
#[local] Abbreviation level_content := (level_content content).

Lemma answers_ext a b u s r : (∀ e, e ∈ a ↔ e ∈ b) → answers ord a u s r → answers ord b u s r.
Proof.
  intros Hab [Hn|e He Hv Hm].
  - apply answers_none. rewrite list.Forall_forall in Hn |- *. intros e He. by apply Hn, Hab.
  - apply answers_found; [by apply Hab|done|]. intros e' He'. by apply Hm, Hab.
Qed.

Lemma file_holds_same f g : num f = num g → data_of (meta f) = data_of (meta g) → file_holds f → file_holds g.
Proof.
  intros En Ed [H1 H2 H3 H4 H5]. unfold data_of in Ed. injection Ed as E1 E2 E3. unfold content in *. rewrite En in *.
  split; unfold content; congruence.
Qed.

Lemma elem_contents v e : e ∈ contents content v ↔ ∃ l files f, files_ v !! l = Some files ∧ f ∈ files ∧ e ∈ content f.
Proof.
  unfold contents. rewrite list_elem_of_In, in_concat. split.
  - intros (x & Hx & He). apply list_elem_of_In, list_elem_of_fmap in Hx as (files & -> & Hf). apply list_elem_of_lookup_1 in Hf as [l Hl].
    apply list_elem_of_In, elem_level_content in He as (f & Hf & He). by exists l, files, f.
  - intros (l & files & f & Hl & Hf & He). exists (level_content files). split; [apply list_elem_of_In, list_elem_of_fmap; exists files; split; [done|by eapply list_elem_of_lookup_2]|].
    apply list_elem_of_In, elem_level_content. by exists f.
Qed.

(** Files that are apart, whichever comes first, follow each other. *)
Lemma apart_sorted f g : file_holds f → file_holds g → file_less ord f g →
  kcmp (largest (meta f)) (smallest (meta g)) < 0 ∨ kcmp (largest (meta g)) (smallest (meta f)) < 0 → kcmp (largest (meta f)) (smallest (meta g)) < 0.
Proof.
  intros Hf Hg L [H|H]; [done|]. exfalso. assert (kcmp (smallest (meta g)) (largest (meta g)) <= 0) as Hgg.
  { destruct (file_ends ord stored content g Hg) as (a & z & Fa & Fz & Ha & _ & -> & -> & Hr). destruct (Hr a Ha) as [_ [->|L']]; [rewrite cmp_refl; lia|].
    pose proof (cmp_entries ord a z Fa Fz) as Hc. change (kcmp (e_internal a) (e_internal z) = entry_cmp ord a z) in Hc. lia. }
  assert (kcmp (smallest (meta g)) (smallest (meta f)) < 0) as Hgf.
  { destruct (Z.eq_dec (kcmp (smallest (meta g)) (largest (meta g))) 0) as [E|N]; [by apply (cmp_eq _ (largest (meta g)))|]. apply (cmp_trans _ (largest (meta g))); [lia|done]. }
  pose proof (cmp_swap (smallest (meta g)) (smallest (meta f))). pose proof (cmp_swap (smallest (meta f)) (smallest (meta g))). unfold file_less in L. change (kcmp (smallest (meta f)) (smallest (meta g)) < 0 ∨ kcmp (smallest (meta f)) (smallest (meta g)) = 0 ∧ num f < num g) in L. destruct L as [L|[L _]]; lia.
Qed.

(** Files whose entries are between others. *)
Lemma below_entry f g e : below f g → file_holds g → e ∈ content g → ucmp (ukey (largest (meta f))) (e_key e) < 0.
Proof.
  intros Hb Hg He. destruct (file_range C valid ord stored content g e Hg He) as [H _]. unfold InputProps.below in Hb.
  destruct (Z.eq_dec (ucmp (ukey (smallest (meta g))) (e_key e)) 0) as [E|N]; [by apply (cmp_eq_r (H0 := uorder) _ (ukey (smallest (meta g))))|].
  apply (cmp_trans _ (ukey (smallest (meta g)))); [done|lia].
Qed.
Lemma entry_below f g e : below g f → file_holds g → e ∈ content g → ucmp (e_key e) (ukey (smallest (meta f))) < 0.
Proof.
  intros Hb Hg He. destruct (file_range C valid ord stored content g e Hg He) as [_ H]. unfold InputProps.below in Hb.
  destruct (Z.eq_dec (ucmp (e_key e) (ukey (largest (meta g)))) 0) as [E|N]; [by apply (cmp_eq (Order := uorder) _ (ukey (largest (meta g))))|].
  apply (cmp_trans _ (ukey (largest (meta g)))); [lia|done].
Qed.
(** Entries of files that do not share user keys have different ones. *)
Lemma below_differ f g e x : below f g ∨ below g f → file_holds f → file_holds g → e ∈ content f → x ∈ content g → ucmp (e_key e) (e_key x) ≠ 0.
Proof.
  intros [B|B] Hf Hg He Hx E.
  - pose proof (below_entry f g x B Hg Hx) as H1. destruct (file_range C valid ord stored content f e Hf He) as [_ H2].
    assert (ucmp (e_key x) (ukey (largest (meta f))) <= 0) as H3 by (eapply (ucmp_le_trans C valid ord); [|exact H2]; apply (cmp_zero_swap (H0 := uorder)) in E; lia).
    pose proof (cmp_swap (Order := uorder) (ukey (largest (meta f))) (e_key x)). lia.
  - pose proof (entry_below f g x B Hg Hx) as H1. destruct (file_range C valid ord stored content f e Hf He) as [H2 _].
    assert (ucmp (ukey (smallest (meta f))) (e_key x) <= 0) as H3 by (eapply (ucmp_le_trans C valid ord); [exact H2|]; lia).
    pose proof (cmp_swap (Order := uorder) (e_key x) (ukey (smallest (meta f)))). lia.
Qed.

(** ** The version after the compaction *)
Section compacted.
Context (v : Version) (level : nat) (c : Compaction) (L : Levels) (snapshot : Z) (M : list entry) (outs : list Output) (e0 e' : VersionEdit.VersionEdit).
Context (Hv : version_holds v) (HL : version_shows ord L v) (Hcl : closed ord v level (inputs0 c) (inputs1 c)) (Hlv : level_ c = Z.of_nat level).
Context (He0 : VersionEdit.new_files_ e0 = [] ∧ VersionEdit.deleted_files_ e0 = []).
Context (HMs : StronglySorted entry_less M) (HM : ∀ e, e ∈ M ↔ e ∈ level_content (inputs0 c ++ inputs1 c)) (Hsn : snapshot < Internal.kMaxSequenceNumber).
Context (Hk : concat ((λ out, cont (out_number out)) <$> outs) = kept ord snapshot (base_key ord v level) None M).
Context (Hout : Forall (λ out, file_holds (output_file out)) outs) (He' : add_outputs (level_ c + 1) outs (AddInputDeletions c e0) = Ok e').

Definition removed (l : nat) f : Prop := l = level ∧ f ∈ inputs0 c ∨ l = S level ∧ f ∈ inputs1 c.
(** What a file of the level [l] is. *)
Definition origin (l : nat) f : Prop :=
  (l = S level ∧ ∃ out, out ∈ outs ∧ out_number out = num f ∧ data_of (meta (output_file out)) = data_of (meta f)) ∨
  ∃ files0 f0, files_ v !! l = Some files0 ∧ f0 ∈ files0 ∧ num f0 = num f ∧ data_of (meta f0) = data_of (meta f) ∧ ¬ removed l f0.

Lemma level_files_holds l files f : files_ v !! l = Some files → f ∈ files → file_holds f.
Proof.
  intros Hl Hf. assert (Forall file_holds files) as H.
  { destruct l as [|l]; [apply (l0_files _ _ _ _ (vh_level0 _ _ _ _ Hv _ Hl))|apply (lh_files _ _ _ _ (vh_others _ _ _ _ Hv _ _ Hl))]. }
  rewrite list.Forall_forall in H. by apply H.
Qed.

Lemma inputs_files g : g ∈ inputs0 c ++ inputs1 c → ∃ l files, files_ v !! l = Some files ∧ g ∈ files ∧ removed l g.
Proof.
  destruct Hcl as [_ (f0 & Hf0 & H0 & _) (f1 & Hf1 & H1 & _)]. intros [Hg|Hg]%elem_of_app.
  - exists level, f0. split_and!; [done|by apply H0|by left].
  - exists (S level), f1. split_and!; [done|by apply H1|by right].
Qed.

Lemma M_entry e : e ∈ M ↔ ∃ l files g, files_ v !! l = Some files ∧ g ∈ files ∧ removed l g ∧ e ∈ content g.
Proof.
  rewrite HM, elem_level_content. split.
  - intros (g & Hg & He). destruct (inputs_files g Hg) as (l & files & Hl & Hin & Hr). by exists l, files, g.
  - intros (l & files & g & Hl & Hg & Hr & He). exists g. split; [|done]. apply elem_of_app. destruct Hr as [[_ ?]|[_ ?]]; [by left|by right].
Qed.
Lemma M_fits : Forall fits M.
Proof.
  apply list.Forall_forall. intros e (l & files & g & Hl & Hg & _ & He)%M_entry. pose proof (fh_fits _ _ _ _ (level_files_holds l files g Hl Hg)) as H.
  rewrite list.Forall_forall in H. by apply H.
Qed.

Lemma deleted_removed l files f : files_ v !! l = Some files → f ∈ files →
  (∃ q, q ∈ VersionEdit.deleted_files_ e' ∧ Z.to_nat q.1 = l ∧ q.2 = num f) ↔ removed l f.
Proof.
  intros Hl Hf. assert (∀ q, q ∈ VersionEdit.deleted_files_ e' ↔ (q ∈ [] ∨ ∃ g, g ∈ inputs0 c ∧ q = (Z.of_nat level, num g)) ∨ ∃ g, g ∈ inputs1 c ∧ q = (Z.of_nat level + 1, num g)) as Hq.
  { intros q. destruct (add_outputs_ok _ _ _ _ He') as [-> _]. unfold AddInputDeletions. by rewrite !(proj2 (delete_files_ok _ _ _)), (proj2 He0), Hlv. }
  setoid_rewrite Hq. clear Hq. assert (∀ g, g ∈ files → num g = num f → g = f) as Hnum.
  { intros g Hg E. pose proof (sh_numbers _ _ _ (proj2 HL l files Hl)) as Hd. apply list_elem_of_lookup_1 in Hg as [i Hi], Hf as [j Hj].
    assert (i = j) as ->; [|congruence]. eapply (NoDup_lookup (num <$> files)); [exact Hd|by rewrite list_lookup_fmap, Hi|rewrite list_lookup_fmap, Hj; cbn; by rewrite E]. }
  destruct Hcl as [_ (f0 & Hf0 & H0 & _) (f1 & Hf1 & H1 & _)]. split.
  - intros (q & [[Hx|(g & Hg & ->)]|(g & Hg & ->)] & El & En); [by apply not_elem_of_nil in Hx|left|right]; cbn in El, En.
    + assert (level = l) as <- by lia. split; [done|]. assert (f0 = files) as -> by congruence. rewrite <- (Hnum g); [done|by apply H0|done].
    + assert (S level = l) as <- by lia. split; [done|]. assert (f1 = files) as -> by congruence. rewrite <- (Hnum g); [done|by apply H1|done].
  - intros [[-> Hin]|[-> Hin]].
    + exists (Z.of_nat level, num f). split_and!; [left; right; by exists f|cbn; lia|done].
    + exists (Z.of_nat level + 1, num f). split_and!; [right; by exists f|cbn; lia|done].
Qed.

Lemma edit_new q : q ∈ VersionEdit.new_files_ e' ↔ ∃ out, out ∈ outs ∧ q = (Z.of_nat (S level), meta (output_file out)).
Proof.
  destruct (add_outputs_ok _ _ _ _ He') as [_ ->]. unfold AddInputDeletions. rewrite !(proj1 (delete_files_ok _ _ _)), (proj1 He0), Hlv. cbn [app].
  rewrite list_elem_of_fmap. replace (Z.of_nat level + 1) with (Z.of_nat (S level)) by lia. naive_solver.
Qed.

Lemma edited_origin l f : (l < 7)%nat → edited L e' l !! num f = Some (data_of (meta f)) → origin l f.
Proof.
  intros H7 [(q & (out & Ho & ->)%edit_new & <- & En & Ed)|[Hd Hn]]%edited_data.
  - left. cbn [fst snd] in *. rewrite Nat2Z.id. split; [done|]. by exists out.
  - right. destruct (lookup_lt_is_Some_2 (files_ v) l) as [files Hl]; [by rewrite (proj1 HL)|]. apply (sh_files _ _ _ (proj2 HL l files Hl)) in Hd as (f0 & Hf0 & En & Ed).
    exists files, f0. split_and!; [done..|]. rewrite <- (deleted_removed l files f0 Hl Hf0), En. done.
Qed.

Lemma origin_holds l f : origin l f → file_holds f.
Proof.
  intros [(_ & out & Ho & En & Ed)|(files & f0 & Hl & Hf0 & En & Ed & _)].
  - rewrite list.Forall_forall in Hout. by apply (file_holds_same (output_file out)), Hout.
  - by apply (file_holds_same f0), (level_files_holds l files).
Qed.

Lemma output_entry out e : out ∈ outs → e ∈ cont (out_number out) → e ∈ kept ord snapshot (base_key ord v level) None M.
Proof.
  intros Ho He. rewrite <- Hk. apply list_elem_of_In, in_concat. exists (cont (out_number out)). split; [|by apply list_elem_of_In].
  apply list_elem_of_In, list_elem_of_fmap. by exists out.
Qed.
Lemma kept_in e : e ∈ kept ord snapshot (base_key ord v level) None M → e ∈ M.
Proof. intros He. by apply (kept_all C valid ord) in He as (? & _); [|done..|apply M_fits]. Qed.

Lemma below_less f g : file_holds f → file_holds g → below f g → kcmp (largest (meta f)) (smallest (meta g)) < 0.
Proof.
  intros Hf Hg B. destruct (file_holds_keys ord stored content f Hf) as [_ K1]. destruct (file_holds_keys ord stored content g Hg) as [K2 _].
  by apply (ukey_icmp ord).
Qed.

(** The outputs and a file of their level that stays. *)
Lemma output_apart files f g : files_ v !! S level = Some files → f ∈ files → f ∉ inputs1 c → file_holds g → (∀ e, e ∈ content g → e ∈ M) → below f g ∨ below g f.
Proof.
  intros Hl Hf Hn Hg HgM. destruct (cl_inputs1 _ _ _ _ _ Hcl) as (f1 & Hf1 & _ & H). assert (f1 = files) as -> by congruence.
  assert (∀ e, e ∈ content g → ∃ k, k ∈ inputs0 c ++ inputs1 c ∧ e ∈ content k ∧ file_holds k) as Hk'.
  { intros e (k & Hin & He)%HgM%HM%elem_level_content. exists k. split_and!; [done..|]. destruct (inputs_files k Hin) as (l & fs & Hl' & Hin' & _). by apply (level_files_holds l fs). }
  destruct (file_ends ord stored content g Hg) as (a & z & Fa & Fz & Ha & Hz & Ea & Ez & _). unfold InputProps.below. destruct (H f Hf Hn) as [B|B]; [left|right].
  - destruct (Hk' a Ha) as (k & Hk1 & Hk2 & Hk3). rewrite Ea, (ukey_internal _ Fa). by apply (below_entry f k a (B k Hk1)).
  - destruct (Hk' z Hz) as (k & Hk1 & Hk2 & Hk3). rewrite Ez, (ukey_internal _ Fz). by apply (entry_below f k z (B k Hk1)).
Qed.

(** Two outputs. *)
Lemma outputs_apart i j o1 o2 e x : outs !! i = Some o1 → outs !! j = Some o2 → (i < j)%nat → e ∈ cont (out_number o1) → x ∈ cont (out_number o2) → entry_less e x.
Proof.
  intros Hi Hj Lij He Hx. assert (StronglySorted entry_less (concat ((λ out, cont (out_number out)) <$> outs))) as Hs.
  { rewrite Hk. by apply (sorted_sublist _ _ M (kept_sublist ord snapshot _ None M)). }
  rewrite <- (take_drop j outs), fmap_app, concat_app in Hs. apply StronglySorted_app in Hs as (Hs & _ & _). apply Hs.
  - apply list_elem_of_In, in_concat. exists (cont (out_number o1)). split; [|by apply list_elem_of_In]. apply list_elem_of_In, list_elem_of_fmap. exists o1. split; [done|].
    apply (list_elem_of_lookup_2 _ i). by rewrite lookup_take_lt.
  - apply list_elem_of_In, in_concat. exists (cont (out_number o2)). split; [|by apply list_elem_of_In]. apply list_elem_of_In, list_elem_of_fmap. exists o2. split; [done|].
    apply (list_elem_of_lookup_2 _ 0). by rewrite lookup_drop, Nat.add_0_r.
Qed.

Lemma contents_less f g : file_holds f → file_holds g → (∀ e x, e ∈ content f → x ∈ content g → entry_less e x) → kcmp (largest (meta f)) (smallest (meta g)) < 0.
Proof.
  intros Hf Hg H. destruct (file_ends ord stored content f Hf) as (_ & z & _ & Fz & _ & Hz & _ & -> & _). destruct (file_ends ord stored content g Hg) as (a & _ & Fa & _ & Ha & _ & -> & _ & _).
  pose proof (cmp_entries ord z a Fz Fa) as Hc. change (kcmp (e_internal z) (e_internal a) = entry_cmp ord z a) in Hc. rewrite Hc. by apply H.
Qed.

Lemma origin_apart l f g : (0 < l)%nat → origin l f → origin l g → num f ≠ num g →
  kcmp (largest (meta f)) (smallest (meta g)) < 0 ∨ kcmp (largest (meta g)) (smallest (meta f)) < 0.
Proof.
  intros H0 Of Og N. pose proof (origin_holds _ _ Of) as Hf. pose proof (origin_holds _ _ Og) as Hg.
  assert (∀ k out, out ∈ outs → out_number out = num k → ∀ e, e ∈ content k → e ∈ M) as Hin.
  { intros k out Ho En e He. apply kept_in, (output_entry out); [done|]. unfold content in He. by rewrite En. }
  assert (∀ k k0, data_of (meta k0) = data_of (meta k) → largest (meta k0) = largest (meta k) ∧ smallest (meta k0) = smallest (meta k)) as Hdata.
  { intros k k0 E. unfold data_of in E. by injection E as _ -> ->. }
  destruct Of as [(-> & o1 & Ho1 & En1 & Ed1)|(files & f0 & Hl & Hf0 & En1 & Ed1 & Hr1)], Og as [(El & o2 & Ho2 & En2 & Ed2)|(files' & g0 & Hl' & Hg0 & En2 & Ed2 & Hr2)].
  - apply list_elem_of_lookup_1 in Ho1 as [i Hi], Ho2 as [j Hj]. destruct (Nat.lt_trichotomy i j) as [Lij|[->|Lij]]; [left|congruence|right]; apply contents_less; try done; unfold content; rewrite <- En1, <- En2; intros e x He Hx.
    + by apply (outputs_apart i j o1 o2).
    + by apply (outputs_apart j i o2 o1).
  - destruct (Hdata _ _ Ed2) as [E1 E2]. destruct (output_apart files' g0 f Hl' Hg0) as [B|B]; [intros Hi; apply Hr2; by right|done|by apply (Hin f o1)|right|left].
    + rewrite <- E1. apply below_less; [by apply (level_files_holds (S level) files')|done|done].
    + rewrite <- E2. apply below_less; [done|by apply (level_files_holds (S level) files')|done].
  - subst l. destruct (Hdata _ _ Ed1) as [E1 E2]. destruct (output_apart files f0 g Hl Hf0) as [B|B]; [intros Hi; apply Hr1; by right|done|by apply (Hin g o2)|left|right].
    + rewrite <- E1. apply below_less; [by apply (level_files_holds (S level) files)|done|done].
    + rewrite <- E2. apply below_less; [done|by apply (level_files_holds (S level) files)|done].
  - assert (files' = files) as -> by congruence. destruct (Hdata _ _ Ed1) as [<- <-]. destruct (Hdata _ _ Ed2) as [<- <-]. destruct l as [|l]; [lia|].
    pose proof (lh_apart _ _ _ _ (vh_others _ _ _ _ Hv l files Hl)) as Ha. apply list_elem_of_lookup_1 in Hf0 as [i Hi], Hg0 as [j Hj].
    destruct (Nat.lt_trichotomy i j) as [Lij|[->|Lij]]; [left; by apply (Ha i j)|congruence|right; by apply (Ha j i)].
Qed.

Lemma next_level_bound : (S level < 7)%nat.
Proof. destruct (cl_inputs1 _ _ _ _ _ Hcl) as (f1 & Hf1 & _). apply lookup_lt_Some in Hf1. by rewrite (proj1 HL) in Hf1. Qed.

Lemma edited_apart l : (∀ i, (7 <= i)%nat → L i = ∅) → (0 < l)%nat → map_apart ord (edited L e' l).
Proof.
  intros H7 H0 n n' [[z s] g] [[z' s'] g'] Hn Hn' Hlt. destruct (Nat.lt_ge_cases l 7) as [Ll|Ll].
  - pose (f := mkFilePtr 0 (VersionEdit.new_file n z s g)). pose (f' := mkFilePtr 0 (VersionEdit.new_file n' z' s' g')).
    pose proof (edited_origin l f Ll Hn) as Of. pose proof (edited_origin l f' Ll Hn') as Of'.
    apply (apart_sorted f f'); [by eapply origin_holds|by eapply origin_holds|exact Hlt|]. apply (origin_apart l f f'); [done..|]. intros E. change (n = n') in E. subst n'.
    rewrite Hn in Hn'. injection Hn' as -> -> ->. destruct Hlt as [Hlt|[_ Hlt]]; [|lia]. change (kcmp s' s' < 0) in Hlt. rewrite cmp_refl in Hlt. lia.
  - exfalso. pose proof next_level_bound. destruct (edited_data _ _ _ _ _ Hn) as [(q & (out & _ & ->)%edit_new & El & _)|[Hd _]]; [cbn [fst] in El; lia|]. by rewrite H7, lookup_empty in Hd.
Qed.

(** *** What the new version has *)
Context (v' : Version) (HL' : version_shows ord (edited L e') v').

Lemma file_origin l files f : files_ v' !! l = Some files → f ∈ files → origin l f.
Proof.
  intros Hl Hf. apply edited_origin; [rewrite <- (proj1 HL'); by eapply lookup_lt_Some|]. apply (sh_files _ _ _ (proj2 HL' l files Hl)). by exists f.
Qed.

(** Entries in a level are of the same level, or of the files that were compacted. *)
Lemma origin_entry l f e : origin l f → e ∈ content f →
  (l = S level ∧ e ∈ M) ∨ ∃ files0 f0, files_ v !! l = Some files0 ∧ f0 ∈ files0 ∧ e ∈ content f0 ∧ ¬ removed l f0.
Proof.
  intros [(-> & out & Ho & En & _)|(files0 & f0 & Hl & Hf0 & En & _ & Hr)] He; unfold content in He.
  - left. split; [done|]. apply kept_in, (output_entry out); [done|]. by rewrite En.
  - right. exists files0, f0. unfold content. rewrite En. done.
Qed.

Lemma entry_newer l l' files files' e x : files_ v !! l = Some files → files_ v !! l' = Some files' → (l < l')%nat →
  (∃ f, f ∈ files ∧ e ∈ content f) → (∃ f, f ∈ files' ∧ x ∈ content f) → ucmp (e_key e) (e_key x) = 0 → e_num x < e_num e.
Proof. intros Hl Hl' L' He Hx E. apply (vh_newer _ _ _ _ Hv l l' files files' Hl Hl' L'); [by apply elem_level_content..|done]. Qed.

(** Entries that stay and entries that are compacted. *)
Lemma stays_newer l files f e x : files_ v !! l = Some files → f ∈ files → ¬ removed l f → x ∈ content f → e ∈ M → ucmp (e_key e) (e_key x) = 0 →
  e_num e < e_num x ∧ (l <= level)%nat ∨ base_key ord v level (e_key e) = false ∧ (S level < l)%nat ∧ e_num x < e_num e.
Proof.
  intros Hl Hf Hr Hx He E. pose proof (level_files_holds l files f Hl Hf) as Hfh. pose proof (proj1 (cmp_zero_swap (H0 := uorder) _ _) E) as E'.
  pose proof He as (l' & files' & g & Hl' & Hg & Hrg & Heg)%M_entry. pose proof (level_files_holds l' files' g Hl' Hg) as Hgh.
  assert (below f g ∨ below g f → False) as Hno by (intros B; by apply (below_differ f g x e B Hfh Hgh Hx Heg)).
  destruct (cl_inputs0 _ _ _ _ _ Hcl) as (f0 & Hf0 & _ & C0). destruct (cl_inputs1 _ _ _ _ _ Hcl) as (f1 & Hf1 & _ & C1).
  destruct (Nat.lt_trichotomy l level) as [Ll|[->|Ll]].
  - left. split; [|lia]. exact (entry_newer l l' files files' x e Hl Hl' ltac:(destruct Hrg; lia) (ex_intro _ f (conj Hf Hx)) (ex_intro _ g (conj Hg Heg)) E').
  - assert (f0 = files) as -> by congruence. destruct Hrg as [[-> Hg0]|[-> Hg1]].
    + destruct Hno. apply (C0 f g); [done| |done]. intros Hin. apply Hr. by left.
    + left. split; [|lia]. exact (entry_newer level (S level) files files' x e Hl Hl' ltac:(lia) (ex_intro _ f (conj Hf Hx)) (ex_intro _ g (conj Hg Heg)) E').
  - destruct (Nat.eq_dec l (S level)) as [->|N].
    + assert (f1 = files) as -> by congruence. destruct Hno. assert (g ∈ inputs0 c ++ inputs1 c) as Hg' by (apply elem_of_app; destruct Hrg as [[_ ?]|[_ ?]]; [by left|by right]).
      destruct (C1 f Hf) as [B|B]; [intros Hin; apply Hr; by right|left; by apply B|right; by apply B].
    + right. split; [|split; [lia|]; exact (entry_newer l' l files' files e x Hl' Hl ltac:(destruct Hrg; lia) (ex_intro _ g (conj Hg Heg)) (ex_intro _ f (conj Hf Hx)) E)].
      apply not_true_iff_false. intros Hb. apply (base_key_ok ord v level c) in Hb. specialize (Hb l files f ltac:(lia) Hl Hf). destruct (file_range C valid ord stored content f x Hfh Hx) as [R1 R2].
      unfold in_range in Hb. rewrite (proj2 (Z.leb_le _ _)), (proj2 (Z.leb_le _ _)) in Hb; [done| |].
      * by apply (ucmp_le_trans C valid ord _ (e_key x)); [lia|].
      * apply (ucmp_neg C valid ord). by apply (ucmp_le_trans C valid ord _ (e_key x)); [|lia].
Qed.

Lemma compacted_holds : (∀ l files, files_ v' !! l = Some files → Z.of_nat (length files) < 2 ^ 31) → version_holds v'.
Proof.
  intros Hn. assert (∀ l files, files_ v' !! l = Some files → Forall file_holds files) as Hall.
  { intros l files Hl. apply list.Forall_forall. intros f Hf. by eapply origin_holds, file_origin. }
  split.
  - intros files Hl. split; [by eapply Hall|apply (sh_numbers _ _ _ (proj2 HL' 0%nat files Hl))|]. intros f g Hf Hg Lt.
    destruct (file_origin _ _ f Hl Hf) as [[? _]|(fs & f0 & Hl0 & Hf0 & En & _)]; [done|]. destruct (file_origin _ _ g Hl Hg) as [[? _]|(gs & g0 & Hl1 & Hg0 & En' & _)]; [done|].
    assert (gs = fs) as -> by congruence. unfold content. rewrite <- En, <- En' in *. by apply (l0_newer _ _ _ _ (vh_level0 _ _ _ _ Hv fs Hl0)).
  - intros l files Hl. split; [by eapply Hall| |by eapply Hn]. intros i j f g Hi Hj Lij. pose proof (list_elem_of_lookup_2 _ _ _ Hi) as Hf. pose proof (list_elem_of_lookup_2 _ _ _ Hj) as Hg.
    pose proof (file_origin _ _ f Hl Hf) as Of. pose proof (file_origin _ _ g Hl Hg) as Og. pose proof (proj2 HL' (S l) files Hl) as [_ Hs Hd _].
    apply apart_sorted; [by eapply origin_holds|by eapply origin_holds| |apply (origin_apart (S l)); [lia|done|done|]].
    + rewrite <- (take_drop j files) in Hs. apply StronglySorted_app in Hs as (Hs & _ & _). apply Hs.
      * apply (list_elem_of_lookup_2 _ i). by rewrite lookup_take_lt.
      * apply (list_elem_of_lookup_2 _ 0). by rewrite lookup_drop, Nat.add_0_r.
    + intros E. assert (i = j); [|lia]. eapply (NoDup_lookup (num <$> files)); [exact Hd|by rewrite list_lookup_fmap, Hi|rewrite list_lookup_fmap, Hj; cbn; by rewrite E].
  - intros l l' files files' Hl Hl' Lt e x (f & Hf & He)%elem_level_content (g & Hg & Hx)%elem_level_content E.
    destruct (origin_entry l f e (file_origin _ _ f Hl Hf) He) as [[-> HeM]|(fs & f0 & Hl0 & Hf0 & He0' & Hr)], (origin_entry l' g x (file_origin _ _ g Hl' Hg) Hx) as [[-> HxM]|(gs & g0 & Hl1 & Hg0 & Hx0 & Hr')].
    + lia.
    + destruct (stays_newer l' gs g0 e x Hl1 Hg0 Hr' Hx0 HeM E) as [[_ ?]|(_ & _ & ?)]; [lia|done].
    + destruct (stays_newer l fs f0 x e Hl0 Hf0 Hr He0' HxM (proj1 (cmp_zero_swap (H0 := uorder) _ _) E)) as [[? _]|(_ & ? & _)]; [done|lia].
    + by apply (entry_newer l l' fs gs e x Hl0 Hl1 Lt (ex_intro _ f0 (conj Hf0 He0')) (ex_intro _ g0 (conj Hg0 Hx0))).
Qed.

(** *** Lookups *)

(** The entries of the files that stay. *)
Definition goes (l : nat) f : bool := existsb (λ q, (Z.to_nat q.1 =? l)%nat && (q.2 =? num f)) (VersionEdit.deleted_files_ e').
Definition staying : list entry := concat (imap (λ l files, level_content (List.filter (λ f, negb (goes l f)) files)) (files_ v)).

Lemma goes_removed l files f : files_ v !! l = Some files → f ∈ files → goes l f = true ↔ removed l f.
Proof.
  intros Hl Hf. rewrite <- (deleted_removed l files f Hl Hf). unfold goes. rewrite existsb_exists. split.
  - intros (q & Hq & [E1%Nat.eqb_eq E2%Z.eqb_eq]%andb_true_iff). exists q. split_and!; [by apply list_elem_of_In|done..].
  - intros (q & Hq & E1 & E2). exists q. split; [by apply list_elem_of_In|]. by rewrite E1, E2, Nat.eqb_refl, Z.eqb_refl.
Qed.

Lemma elem_staying e : e ∈ staying ↔ ∃ l files f, files_ v !! l = Some files ∧ f ∈ files ∧ ¬ removed l f ∧ e ∈ content f.
Proof.
  unfold staying. rewrite list_elem_of_In, in_concat. split.
  - intros (q & Hq & He). apply list_elem_of_In, list_elem_of_lookup_1 in Hq as [l Hq]. rewrite list_lookup_imap in Hq. destruct (files_ v !! l) as [files|] eqn:Hl; [|done]. injection Hq as <-.
    apply list_elem_of_In, elem_level_content in He as (f & Hf & He). apply list_elem_of_In, filter_In in Hf as [Hf Hg]. apply list_elem_of_In in Hf. exists l, files, f. split_and!; [done..| |done].
    intros Hr. apply (goes_removed l files f Hl Hf) in Hr. by rewrite Hr in Hg.
  - intros (l & files & f & Hl & Hf & Hr & He). exists (level_content (List.filter (λ f, negb (goes l f)) files)). split.
    + apply list_elem_of_In, (list_elem_of_lookup_2 _ l). by rewrite list_lookup_imap, Hl.
    + apply list_elem_of_In, elem_level_content. exists f. split; [|done]. apply list_elem_of_In, filter_In. split; [by apply list_elem_of_In|].
      apply negb_true_iff, not_true_iff_false. by rewrite (goes_removed l files f Hl Hf).
Qed.

Lemma contents_before e : e ∈ contents content v ↔ e ∈ staying ++ M.
Proof.
  rewrite elem_contents, elem_of_app, elem_staying, M_entry. split; [|naive_solver]. intros (l & files & f & Hl & Hf & He).
  destruct (goes l f) eqn:Eg; [right|left]; exists l, files, f; split_and!; try done; [by apply (goes_removed l files f Hl Hf)|].
  rewrite <- (goes_removed l files f Hl Hf). by rewrite Eg.
Qed.

Lemma contents_after e : e ∈ contents content v' ↔ e ∈ staying ++ kept ord snapshot (base_key ord v level) None M.
Proof.
  rewrite elem_contents, elem_of_app, elem_staying. assert (∀ l n, (l < 7)%nat → is_Some (edited L e' l !! n) → e ∈ cont n → ∃ l files f, files_ v' !! l = Some files ∧ f ∈ files ∧ e ∈ content f) as Hin.
  { intros l n H7 [d Hd] He. destruct (lookup_lt_is_Some_2 (files_ v') l) as [files Hl]; [by rewrite (proj1 HL')|]. apply (sh_files _ _ _ (proj2 HL' l files Hl)) in Hd as (f & Hf & <- & _). by exists l, files, f. }
  split.
  - intros (l & files & f & Hl & Hf & He). destruct (file_origin l files f Hl Hf) as [(-> & out & Ho & En & _)|(fs & f0 & Hl0 & Hf0 & En & _ & Hr)].
    + right. apply (output_entry out); [done|]. by rewrite En.
    + left. exists l, fs, f0. split_and!; [done..|]. unfold content. by rewrite En.
  - intros [(l & files & f & Hl & Hf & Hr & He)|He].
    + apply (Hin l (num f)); [rewrite <- (proj1 HL); by eapply lookup_lt_Some| |done]. apply edited_numbers. right. rewrite (deleted_removed l files f Hl Hf). split; [|done].
      exists (data_of (meta f)). apply (sh_files _ _ _ (proj2 HL l files Hl)). by exists f.
    + rewrite <- Hk in He. apply list_elem_of_In, in_concat in He as (q & Hq & He). apply list_elem_of_In, list_elem_of_fmap in Hq as (out & -> & Ho).
      apply (Hin (S level) (out_number out)); [apply next_level_bound| |by apply list_elem_of_In]. apply edited_numbers. left.
      exists (Z.of_nat (S level), meta (output_file out)). split_and!; [apply edit_new; by exists out|cbn [fst]; by rewrite Nat2Z.id|done].
Qed.

Lemma reads_same u s r : snapshot <= s → answers ord (contents content v) u s r → ∃ r', answers ord (contents content v') u s r' ∧ same_answer r r'.
Proof.
  intros Hs Ha. apply (answers_ext _ _ _ _ _ contents_before) in Ha.
  destruct (kept_answers C valid ord snapshot (base_key ord v level) staying M u s r Hsn Hs HMs M_fits) as (r' & Ha' & Hr); [|done|].
  - intros e x He (l & files & f & Hl & Hf & Hr & Hx)%elem_staying E. destruct (stays_newer l files f e x Hl Hf Hr Hx He E) as [[? _]|(? & _)]; [by left|by right].
  - exists r'. split; [|done]. apply (answers_ext (staying ++ kept ord snapshot (base_key ord v level) None M)); [|done]. intros e. by rewrite contents_after.
Qed.
End compacted.
End edit.

(** * Compactions and lookups *)


(** ** An example

    The files 1 and 2 of levels 1 and 2 are merged, the file 5 of level 1 stays; 8 is the oldest
    snapshot. *)
Definition example_tables_of (n : Z) : list entry :=
  match n with
  | 1 => [mkEntry [107] 9 Internal.kTypeDeletion []; value_entry [107] 4 2]
  | 2 => [value_entry [107] 2 4; value_entry [120] 1 7]
  | 3 => [mkEntry [107] 9 Internal.kTypeDeletion []; value_entry [107] 4 2]
  | 4 => [value_entry [120] 1 7]
  | 5 => [value_entry [97] 6 3]
  | _ => []
  end.
Definition file1 : File := example_get_file 1 (mkEntry [107] 9 Internal.kTypeDeletion []) (value_entry [107] 4 2).
Definition file2 : File := example_get_file 2 (value_entry [107] 2 4) (value_entry [120] 1 7).
Definition file3 : File := example_get_file 3 (mkEntry [107] 9 Internal.kTypeDeletion []) (value_entry [107] 4 2).
Definition file4 : File := example_get_file 4 (value_entry [120] 1 7) (value_entry [120] 1 7).
Definition file5 : File := example_get_file 5 (value_entry [97] 6 3) (value_entry [97] 6 3).
Definition version_of (level1 level2 : list File) : Version := mkVersion 1 [[]; level1; level2; []; []; []; []] None (-1) (SpecFloat.S754_zero false) 0.
Definition merged : list entry := example_tables_of 1 ++ example_tables_of 2.
Definition merging : Compaction := set_inputs (Compaction.new 2097152 1) [file1] [file2].
Definition two_outputs : list Output := [mkOutput 3 (Some 0) (smallest (meta file3)) (largest (meta file3)); mkOutput 4 (Some 0) (smallest (meta file4)) (largest (meta file4))].
Definition number_tables : gmap Z entries := list_to_map ((λ n, (n, pair_of <$> example_tables_of n)) <$> [1; 2; 3; 4; 5]).

(** The levels that a version shows. *)
Definition levels_of (v : Version) : Levels := λ l, list_to_map ((λ f, (number (meta f), data_of (meta f))) <$> default [] (files_ v !! l)).
Lemma levels_of_shows ord v : length (files_ v) = 7%nat → (∀ l files, files_ v !! l = Some files → Forall file_keys files ∧ StronglySorted (file_less ord) files ∧ NoDup ((λ f, number (meta f)) <$> files)) →
  version_shows ord (levels_of v) v.
Proof.
  intros H7 H. split; [done|]. intros l files Hl. destruct (H l files Hl) as (Hk & Hs & Hd). split; [done..|]. intros n d. unfold levels_of. rewrite Hl. cbn [default].
  rewrite <- elem_of_list_to_map by by rewrite <- list_fmap_compose. rewrite list_elem_of_fmap. naive_solver.
Qed.

Ltac file_cases H := repeat (apply elem_of_cons in H as [->|H]; [|]); try (by apply not_elem_of_nil in H).
Ltac level_cases l H := repeat (destruct l as [|l]; [injection H as <-|]); try done.

Lemma example_file_holds f : f ∈ [file1; file2; file3; file4; file5] → file_holds bytewise_order (λ n z l, number_tables !! n = Some l) (content example_tables_of) f.
Proof. intros H. file_cases H; (split; [by vm_compute|repeat constructor; by vm_compute|repeat constructor; vm_compute; done|done|done]). Qed.

Lemma example_shows level1 level2 : level1 ∈ [[file5; file1]; [file5]] → level2 ∈ [[file2]; [file3; file4]] → version_shows bytewise_order (levels_of (version_of level1 level2)) (version_of level1 level2).
Proof.
  intros H1 H2. apply levels_of_shows; [done|]. intros l files Hl. assert (∀ f, f ∈ files → f ∈ [file1; file2; file3; file4; file5]) as Hin.
  { intros f Hf. level_cases l Hl; try (by apply not_elem_of_nil in Hf); [file_cases H1|file_cases H2]; set_solver. }
  split.
  - apply list.Forall_forall. intros f Hf. by eapply (file_holds_keys bytewise_order), example_file_holds, Hin.
  - level_cases l Hl; try (split; constructor); [file_cases H1|file_cases H2]; (split; [repeat constructor; vm_compute; tauto|apply (bool_decide_unpack _); by vm_compute]).
Qed.

Lemma example_version_holds : version_holds bytewise_order (λ n z l, number_tables !! n = Some l) (content example_tables_of) (version_of [file5; file1] [file2]).
Proof.
  split.
  - intros files [= <-]. split; [constructor|constructor|]. by intros f g ?%not_elem_of_nil.
  - intros l files Hl. split.
    + apply list.Forall_forall. intros f Hf. apply example_file_holds. level_cases l Hl; try (by apply not_elem_of_nil in Hf); set_solver.
    + intros i j f g Hi Hj Lt. level_cases l Hl; try (by rewrite lookup_nil in Hi).
      * destruct i as [|[|i]], j as [|[|j]]; try done; try lia. injection Hi as <-. injection Hj as <-. by vm_compute.
      * destruct i as [|i], j as [|j]; try done; lia.
    + level_cases l Hl; cbn; lia.
  - intros l l' files files' Hl Hl' Lt. destruct (decide (l = 1%nat ∧ l' = 2%nat)) as [[-> ->]|N].
    + injection Hl as <-. injection Hl' as <-. entry_cases.
    + intros e x He Hx. exfalso. apply N. assert (files ≠ [] ∧ files' ≠ []) as [N1 N2] by (split; intros ->; [by apply not_elem_of_nil in He|by apply not_elem_of_nil in Hx]).
      assert (∀ i fs, files_ (version_of [file5; file1] [file2]) !! i = Some fs → fs ≠ [] → i = 1%nat ∨ i = 2%nat) as Hi by (intros i fs Hi Hfs; level_cases i Hi; tauto).
      pose proof (Hi l files Hl N1). pose proof (Hi l' files' Hl' N2). lia.
Qed.

